(* ===== verification/_CoqProject ===== *)
-Q . S2P
Prelude.v
GoStrings.v
Errors.v
Float.v
Value.v
Protocol.v
Bloom.v
Partition.v
Rbac.v
Batcher.v
Pool.v
Supervisor.v
Activities.v
TransformActivities.v
Workflows.v
Orchestrator.v
Cron.v
Scheduler.v
ExprFuncs.v
Expression.v
ExprText.v
Encryption.v
Schema.v
LoadWorker.v
FlushBatcher.v
ExtractWorker.v
EditDistance.v
AutoMapper.v
Lifecycle.v
Arrow.v
Coercer.v
Mapper.v
TransformWorker.v
JsonDecode.v
Urls.v
Encoding.v
Pagination.v
RestClient.v
PagedFetch.v
RestConnector.v
HubSpot.v
Chorus.v
Gong.v
Zendesk.v
Intercom.v
Salesforce.v
Zoom.v
ConfigManager.v
SyncConfig.v
AuditLog.v
Tenant.v
Neon.v
Files.v
Visual.v
Templates.v
Secrets.v
ProtocolJson.v
McpSecurity.v
Sandbox.v
Transports.v
Gateway.v
McpTools.v
ApiKeys.v
Jwt.v
Http.v
OAuth.v
MessageHandler.v
ConnRuntime.v
ConnRegistry.v
RestApi.v
RestHandlers.v
RestOAuth.v
RestServer.v
GraphQL.v
Subscriptions.v
McpWorker.v
TenantRouter.v
WhiteLabel.v
Redis.v
