(* ===== verification/Prelude.v ===== *)
(** * FlowForge: a verification library of the integration platform

    FlowForge moves records between connectors.  A sync is a Temporal workflow
    that extracts records from a source connector, transforms them and loads them
    into a destination; a scheduler starts syncs from cron expressions; workers
    do the per-record work; the control plane keeps configurations, tenants and
    schemas; REST, GraphQL and MCP surfaces let tenants and agents operate it.  This
    library models that program as executable definitions and
    proves what makes each part correct, or, where the code does not do what
    it means to do, the behaviour it has.

    ** Files, in dependency order, and the code they model

    Foundations.
    - [Prelude]: 64-bit integers with Go's wrap-around ([+ᵢ], [-ᵢ], [*ᵢ], [/ᵢ]), results
      ([outcome]: [Ok], [Err], [Panic]) with a monad, counting and list lemmas.
    - [GoStrings], [Encoding]: the parts of [strings], [strconv], [unicode], [encoding/hex] and
      [encoding/base64] the program uses; [Float]: [float64] on the specification floats of
      the Standard Library; [Errors]: [internal/common/errors.go], error chains, [errors.Is],
      [errors.As]; [Value]: [interface{}] values and JSON documents; [JsonDecode]: decoding
      into structs; [Urls]: query strings; [Files]: paths and a file system.
    - [Protocol], [ProtocolJson]: [pkg/protocol/protocol.go], [pkg/cdk]; messages and their
      JSON, connectors as records of operations with the class [SourceLaws], the global registry.

    Workers ([internal/worker]).
    - [Bloom], [Partition], [Batcher] (critical sections interleaved with flushes in flight by
      [Batcher.step]), [Pool] (goroutines over a channel and counters), [Supervisor] (against
      the classes [PoolOps] and [PoolLaws], of which [Pool] gives the instances).
    - [LoadWorker] (retry, backoff, dead letters), [FlushBatcher] (worker and batcher
      interleaved), [ExtractWorker], [Coercer], [Mapper] (maps shared through a heap),
      [TransformWorker], [McpWorker] (tool calls under a sliding limit whose entries calls hold
      pointers to), and [Arrow], the columnar batches of [pkg/arrow/buffer.go].

    Orchestration ([internal/orchestration], [internal/controlplane/scheduler]).
    - [Activities], [TransformActivities]: the activities; [Workflows]: the three child
      workflows, which see activities through the record [env] ([RunsActivities] says that the
      environment runs the definitions of [Activities]); [Orchestrator]: [sync_orchestrator.go]
      and [signals.go], the main coroutine and the signal handlers as a step relation.
    - [Cron], [Scheduler]: the parser and search of cron expressions, and the registry that
      starts due syncs.

    Mapping ([internal/mapping]).
    - [ExprFuncs], [Expression], [ExprText]: the expression engine, against syntax trees and their
      values; [EditDistance], [AutoMapper]; [Visual], [Templates].

    Control plane and storage of secrets.
    - [Schema], [ConfigManager], [SyncConfig], [Tenant], [Neon] ([internal/controlplane]);
      [Encryption], [Secrets], [AuditLog], [Rbac], [ApiKeys], [Jwt] ([internal/security]);
      [Lifecycle], [OAuth], [WhiteLabel] ([internal/embedded]).
    - [TenantRouter] ([internal/storage/postgres/tenant_router.go]): the pools of tenants, calls
      at the same time as steps; [Redis] ([internal/storage/redis], [internal/ratelimit]): the
      limiter script, the limiter the connectors share, the caches.

    Connectors.
    - [Pagination], [RestClient], [PagedFetch], [RestConnector] ([connectors/common] and what every
      connector has a copy of: the loops over streams and pages, buffered writing); over them
      [HubSpot], [Zendesk], [Intercom], [Salesforce], [Gong], [Chorus]; [Zoom] has a client of its own;
      [MessageHandler], [ConnRuntime], [ConnRegistry] ([internal/connector]): routing of
      messages, the runtime with its sandbox and the goroutines of a read, the registry of
      connectors described by files.

    Surfaces.
    - [McpSecurity], [Sandbox], [Transports], [Gateway], [McpTools]: the MCP gateway.
    - [Http] ([internal/api/middleware]), [RestApi], [RestHandlers], [RestOAuth], [RestServer]
      ([internal/api/rest]), [GraphQL], [Subscriptions] ([internal/api/graphql]).

    A definition bears the name of its Go function or type; methods take their
    receiver as an argument and return its new state.  A loop or a switch that is
    named on its own bears a name like [calc_loop].

    ** How the code is represented

    - [int], [int64] and [time.Duration] are [Z] with explicit wrap-around where
      the code computes with values it has not bounded; counters of events are plain.
      Division by zero, an index out of range, a send on a closed channel and the like
      are [Panic].
    - A mutex makes a critical section one function of the state.  Goroutines are
      program points; a step of the relation is one critical section or one atomic
      operation.  Properties of reachable states are proved by induction on the steps.
      Where a file says so, a whole method or a whole request is one step.
    - Maps that are reached from several places, and statuses or entries that callers keep a
      pointer to, live in a store behind locations ([Mapper], [Lifecycle], [McpTools],
      [ConnRegistry]); elsewhere structures are values, and repositories are taken to
      give values of their own.
    - Iteration over a Go map has no order.  Where the order shows in a result, the model
      takes the order of the keys (documented at the definition) or any listing; elsewhere
      it is a traversal of the map.
    - Bodies of HTTP answers stay Go values; an empty slice or map is taken to be nil where a
      file says so; log lines and metrics are left out, but for the request log of [Http].

    ** Code outside the repository

    It is a parameter, with its documented behaviour as the laws of a class or as named
    hypotheses, all of which have instances in the witnesses:
    - connectors ([SourceLaws], functions of a world), Temporal ([env], [RunsActivities]);
    - the network as functions of a world ([RestClient], [Neon], [OAuth]'s [post]; what a call may do to
      the world is a relation [Exchanges]), URLs
      ([UrlLib], [UrlLaws]), the router and its middlewares ([ChiRouter]);
    - repositories and caches as classes: with laws where a theorem needs them
      ([TenantLaws], [APIKeyStoreLaws], [RoleStoreSpec], [AuditStore], [TenantScoped] for the
      REST and GraphQL repositories), the file system ([FileSystem], [FileSystemLaws]), Vault
      ([VaultLogical], [VaultLaws]);
    - the Redis server, its scripts and its client library ([RedisServer], [RedisCommands],
      [RedisLaws]), the waiting of a limiter ([pause]), the counter of
      requests ([DailyLimiter]);
    - cryptography: [AEAD] with [AEADLaws], [JwtLib] with [JwtLaws], [hmac], [sha256], the random
      source [rand];
    - time zones as the changes of their offset ([Location]); encoding/json: [json_doc], [json_first], [json_text], the texts of its errors
      ([type_error]), the scanner of a stream ([MessageHandler]'s [scan]); times
      ([TimeLib], [time_text], [time_of], [duration_text]), number parsing ([parse_float]), [math.Log], the
      Unicode case mapping ([tolower]), the order of equal elements of a sort ([sort_slice]);
    - contexts as when and why they end ([Ctx] with [CtxLaws], [cut], [ctx_err]); the memory of
      the process ([Runtime], [call_env]).

    ** Theorems

    The forty properties are numbered C1 to C40 at their statements; other theorems have no
    number.
    - The pipeline: [orchestrator_pipeline], [cancel_stops_pipeline],
      [extractSequential_complete], [LoadWorkflow_no_silent_loss]; the activities
      ([FetchBatch_spec], [MapFieldsActivity_spec], [coerce_object_spec],
      [DeduplicateActivity_spec], [partitions_exact]).
    - Scheduling: [NextCronTime_least], [spring_gap_sticks] (where the clock is put
      forward), [scheduler_starts_when_due], [starts_at_every_tick], [fireDueSyncs_spec].
    - Workers: [pool_accounting], [pool_graceful_shutdown], [evaluateScaling_spec],
      [batcher_no_loss], [ProcessBatch_no_loss], [parallel_equals_serial], [mapping_writes],
      [Coerce_typed], [arrow_roundtrip], [bloom_refinement], [CalculatePartitions_exact],
      [sliding_limit], [tool_call_guarded].
    - Mapping: [Evaluate_print] (the engine computes the value of every syntax tree),
      [Evaluate_ends], [levenshteinDistance_minimal], [matchFields_greedy].
    - Connectors: [FetchAllPages_complete], [do_request_spec] (a refinement of attempts),
      [readStream_complete], [Write_accounts], [Read_reports_success]; [zendesk_resumes],
      [zendesk_counts_records], [intercom_write_accounts], [salesforce_write_accounts],
      [object_of_its_stream], [chorus_read_complete], [gong_daily_limit],
      [zoom_stream_complete], [zoom_token_fresh]; [messages_accounted], [read_complete],
      [read_forwards_prefix], [read_ends].
    - Control plane and security: [config_refines_map], [sync_config_roundtrip],
      [quotas_enforced], [DetectBreakingChanges_spec], [ListByTenant_live], [keyring_roundtrip],
      [secrets_kept], [audit_conserved], [Query_sees_trail], [CheckPermission_iff],
      [validated_key_was_issued], [jwt_round_trip], [validated_jwt_is_signed],
      [callback_needs_fresh_flow]; [tenant_pools_kept], [limited_in_windows], [Wait_succeeds],
      [tenant_caches_apart]; [adjustColor_valid], [sorted_keys_canonical].
    - MCP gateway: [only_authorised_calls_run], [rate_limit_bound], [stdio_refines],
      [status_tells_truth], [sandbox_accounts], [suggestions_matching].
    - HTTP: [rest_tenant_isolation], [graphql_tenant_isolation] (noninterference between
      tenants), [Recovery_spec], [APIKeyAuth_guard], [pagination_bounds];
      [publish_never_panics], [subscriber_gets_in_order], [publishing_finishes].
    - Behaviour that falls short of its intent: [partitioned_extraction_truncates],
      [full_refresh_never_ends], [repeated_cursor_never_ends], [pause_ignores_cancel],
      [Deduplicate_key_collisions], [Submit_racing_Shutdown_panics],
      [cancel_before_Shutdown_loses_item], [Add_drops_record_after_timer_error],
      [scheduled_sync_has_no_tenant], [deleted_integration_revived], [RecordSync_lost_update],
      [stale_configuration_cached], [stale_after_failed_invalidation],
      [quotas_after_failed_invalidation], [limited_read_crashes], [schema_error_differs],
      [refused_records_count], [refreshed_only_once], [overlapping_runs_keep_limit],
      [tenant_routes_ignore_caller], [callback_needs_authorization],
      [forged_addresses_unlimited], [logged_before_auth], [query_text_is_ignored],
      [loaders_hide_errors], [px_radius_unscaled],
      [soql_arrives], [same_next_page_never_ends], [numeric_ids_mangled] and others.

    ** Fuel

    A loop that the code bounds runs on that bound: [cron_loop] on [maxIterations]
    ([iterations_enough] shows that it does not stop a search while the offset stays), [step_loop] on 100 iterations for
    ranges of at most 60 values, the attempts of retries on their maximum, partitioners on
    the number of partitions, the polls of a job on more than fit into its time
    ([polling_ends]).  A loop over a text or a list runs on its length: the expression engine
    ([Evaluate_ends]), [DecodeMessages] ([DecodeMessages_total]), the JSON traversals of
    [Schema] and [AutoMapper].  Walks of the heap have the number of its cells.
    [sequential_loop], the page loops, the waiting of a limiter ([Wait_succeeds] gives enough)
    and the deletion of cached keys run on fuel because nothing in the code bounds
    them; [extractSequential_complete], [FetchAllPages_complete], [readStream_complete],
    [chorus_read_complete] and [zoom_stream_complete] give enough fuel, and
    [full_refresh_never_ends] and [repeated_cursor_never_ends] show that no fuel is enough in
    other cases.  Step relations need none; [read_ends], [publishing_finishes] and
    [pool_graceful_shutdown] bound the steps by a measure.

    ** Not modelled

    Retries and timeouts of activities are Temporal's.  The channels of [ConnRuntime] have a
    capacity of at least one, its connectors do not panic in a read; a sandbox is never nil.  Handlers that run at the same time are not interleaved in [Http] and
    [RestServer].
    Left out, being input and output around the core: the SQL of the Postgres repositories,
    the Redis client wrapper and its publication of messages, blob storage, the warehouse and
    file connectors, the constant specifications of connectors, the Temporal client, the
    configuration files, metrics and tracing, the test harness, the commands, and the GraphQL
    schema text. *)

From Stdlib Require Export ZArith Lia.
From stdpp Require Export base numbers list strings pretty gmap option.

#[global] Set Default Proof Using "Type".

(** ** Notations of the development *)

Declare Scope go_scope.
Delimit Scope go_scope with go.
#[global] Open Scope Z_scope.

(** ** Machine integers

    Go's [int] and [int64] are 64-bit two's complement (the module targets
    64-bit platforms), [uint64] is arithmetic modulo 2^64.  Values are kept
    in [Z] and every operation that can leave the range is wrapped. *)

Definition int64_min : Z := -9223372036854775808.
Definition int64_max : Z := 9223372036854775807.
Definition two64 : Z := 18446744073709551616.

Definition in_i64 (z : Z) : Prop := int64_min ≤ z ≤ int64_max.
Definition in_u64 (z : Z) : Prop := 0 ≤ z < two64.

#[global] Instance in_i64_dec z : Decision (in_i64 z).
Proof. unfold in_i64. apply _. Defined.
#[global] Instance in_u64_dec z : Decision (in_u64 z).
Proof. unfold in_u64. apply _. Defined.

Definition i64 (z : Z) : Z := (z + 9223372036854775808) mod two64 - 9223372036854775808.
Definition u64 (z : Z) : Z := z mod two64.

Notation "a +ᵢ b" := (i64 (a + b)) (at level 50, left associativity) : go_scope.
Notation "a -ᵢ b" := (i64 (a - b)) (at level 50, left associativity) : go_scope.
Notation "a *ᵢ b" := (i64 (a * b)) (at level 40, left associativity) : go_scope.
(** Go's integer division truncates toward zero; [math.MinInt64 / -1] wraps. *)
Notation "a /ᵢ b" := (i64 (Z.quot a b)) (at level 40, left associativity) : go_scope.
Notation "a +ᵤ b" := (u64 (a + b)) (at level 50, left associativity) : go_scope.
Notation "a *ᵤ b" := (u64 (a * b)) (at level 40, left associativity) : go_scope.
#[global] Open Scope go_scope.

Lemma i64_id z : in_i64 z → i64 z = z.
Proof.
  unfold in_i64, i64, int64_min, int64_max, two64. intros H.
  rewrite Z.mod_small; lia.
Qed.

(** A sum that passes the top once comes back at the bottom. *)
Lemma i64_over z : int64_max < z < int64_max + two64 → i64 z = z - two64.
Proof.
  unfold i64, int64_max, two64. intros H.
  rewrite <-(Z.mod_unique_pos _ 18446744073709551616 1 (z + 9223372036854775808 - 18446744073709551616)); lia.
Qed.

Lemma i64_range z : in_i64 (i64 z).
Proof.
  unfold in_i64, i64, int64_min, int64_max, two64.
  pose proof (Z.mod_pos_bound (z + 9223372036854775808) 18446744073709551616). lia.
Qed.

Lemma u64_id z : in_u64 z → u64 z = z.
Proof. unfold in_u64, u64. intros H. by rewrite Z.mod_small. Qed.

Lemma u64_range z : in_u64 (u64 z).
Proof. unfold in_u64, u64. apply Z.mod_pos_bound. unfold two64. lia. Qed.

(** Sublists. *)
Lemma map_sublist {A B} (f : A → B) l k : sublist l k → sublist (map f l) (map f k).
Proof. induction 1; cbn; by constructor. Qed.

Lemma filter_sublist {A} (f : A → bool) l : sublist (List.filter f l) l.
Proof. induction l as [|x l IH]; cbn; [constructor|]. destruct (f x); by constructor. Qed.

Lemma filter_all {A} (f : A → bool) l : (∀ x, f x = true) → List.filter f l = l.
Proof. intros Hf. induction l as [|x l IH]; cbn; [done|]. by rewrite Hf, IH. Qed.

(** For case analysis on a term other terms' types depend on. *)
Lemma option_cases {A} (o : option A) : o = None ∨ ∃ x, o = Some x.
Proof. destruct o; eauto. Qed.

(** Durations of package [time], in nanoseconds. *)
Definition millisecond : Z := 1000000.
Definition second : Z := 1000000000.

(** The zero value of [time.Time], in nanoseconds. *)
Definition zero_time : Z := -62135596800000000000.

(** [time.Time.Sub] on instants in nanoseconds, which saturates. *)
Definition time_sub (t u : Z) : Z :=
  let d := t - u in
  if d <? int64_min then int64_min else if int64_max <? d then int64_max else d.

(** ** Outcomes of Go calls

    A Go function returns a value, returns an error, or panics (index out of
    range, division by zero, send on a closed channel). *)

Inductive outcome (E A : Type) : Type :=
| Ok (a : A)
| Err (e : E)
| Panic (msg : string).
Arguments Ok {E A} a.
Arguments Err {E A} e.
Arguments Panic {E A} msg.

#[global] Instance outcome_ret E : MRet (outcome E) := λ A a, Ok a.
#[global] Instance outcome_bind E : MBind (outcome E) := λ A B f m,
  match m with
  | Ok a => f a
  | Err e => Err e
  | Panic s => Panic s
  end.
#[global] Instance outcome_fmap E : FMap (outcome E) := λ A B f m,
  match m with
  | Ok a => Ok (f a)
  | Err e => Err e
  | Panic s => Panic s
  end.

#[global] Instance outcome_eq_dec {E A} `{EqDecision E, EqDecision A} :
  EqDecision (outcome E A).
Proof. solve_decision. Defined.

Definition is_ok {E A} (m : outcome E A) : bool :=
  match m with Ok _ => true | _ => false end.
Definition from_ok {E A} (d : A) (m : outcome E A) : A :=
  match m with Ok a => a | _ => d end.

Lemma bind_ok {E A B} (m : outcome E A) (f : A → outcome E B) b :
  m ≫= f = Ok b → ∃ a, m = Ok a ∧ f a = Ok b.
Proof. destruct m; simpl; naive_solver. Qed.

(** ** Tactics *)

(** Split every [match]/[if] on a variable-free scrutinee of the goal or of a
    hypothesis, simplifying equalities as it goes. *)
Ltac destruct_matches :=
  repeat (case_match; simplify_eq/=; try done).

(** Machine arithmetic: drop the wrap-around of every sum whose range [lia]
    can establish. *)
Ltac nowrap :=
  repeat match goal with
  | |- context [i64 ?z] => rewrite (i64_id z) by (unfold in_i64, int64_min, int64_max in *; lia)
  | H : context [i64 ?z] |- _ =>
      rewrite (i64_id z) in H by (unfold in_i64, int64_min, int64_max in *; lia)
  end.

(** ** Slices *)

(** [xs[i:j]] for indices already known to be in range. *)
Definition slice {A} (i j : nat) (xs : list A) : list A := take (j - i) (drop i xs).

(** The loop [for i := 0; i < len(xs); i += n { end := min(i+n, len(xs));
    out = append(out, xs[i:end]) }] that several components write out. *)
Fixpoint slices_from {A} (fuel i n : nat) (xs : list A) : list (list A) :=
  match fuel with
  | O => []
  | S fuel =>
      if decide (i < length xs)%nat
      then slice i (Nat.min (i + n) (length xs)) xs :: slices_from fuel (i + n) n xs
      else []
  end.

Lemma slice_min {A} i n (xs : list A) :
  slice i (Nat.min (i + n) (length xs)) xs = take n (drop i xs).
Proof.
  unfold slice. destruct (decide (i + n ≤ length xs)%nat).
  - f_equal. lia.
  - rewrite !take_ge; rewrite ?length_drop; [done|lia..].
Qed.

Lemma slices_from_concat {A} fuel i n (xs : list A) :
  (0 < n)%nat → (length xs ≤ i + fuel)%nat →
  concat (slices_from fuel i n xs) = drop i xs.
Proof.
  intros Hn. revert i. induction fuel as [|fuel IH]; intros i Hf; simpl.
  - by rewrite drop_ge by lia.
  - case_decide as Hi; simpl.
    + rewrite slice_min, IH by lia. rewrite <- drop_drop. by rewrite take_drop.
    + by rewrite drop_ge by lia.
Qed.

Lemma slices_from_length {A} fuel i n (xs : list A) :
  (0 < n)%nat →
  Forall (λ c, 0 < length c ≤ n)%nat (slices_from fuel i n xs).
Proof.
  intros Hn. revert i. induction fuel as [|fuel IH]; intros i; simpl; [done|].
  case_decide as Hi; [|done]. constructor; [|done].
  rewrite slice_min, length_take, length_drop. lia.
Qed.

(** Every chunk but the last is full. *)
Lemma slices_from_full {A} fuel i n (xs : list A) k c :
  (0 < n)%nat → (length xs ≤ i + fuel)%nat →
  slices_from fuel i n xs !! k = Some c →
  length c = Nat.min n (length xs - (i + k * n)).
Proof.
  intros Hn. revert i k. induction fuel as [|fuel IH]; intros i k Hf; simpl; [done|].
  case_decide as Hi; [|done]. destruct k as [|k]; simpl.
  - intros [= <-]. rewrite slice_min, length_take, length_drop. lia.
  - intros Hk. apply IH in Hk; [|lia]. rewrite Hk. lia.
Qed.

(** ** Finite iteration with an early error *)

(** Fold that threads a state and stops at the first error or panic. *)
Fixpoint foldM {E S A} (f : S → A → outcome E S) (s : S) (xs : list A) : outcome E S :=
  match xs with
  | [] => Ok s
  | x :: xs => match f s x with
               | Ok s' => foldM f s' xs
               | Err e => Err e
               | Panic m => Panic m
               end
  end.

Lemma foldM_app {E S A} (f : S → A → outcome E S) s xs ys :
  foldM f s (xs ++ ys) = (foldM f s xs ≫= λ s', foldM f s' ys).
Proof.
  revert s. induction xs as [|x xs IH]; intros s; simpl; [done|].
  destruct (f s x); simpl; auto.
Qed.

(** An invariant of the step function is an invariant of the fold. *)
Lemma foldM_inv {E S A} (f : S → A → outcome E S) (P : S → Prop) s xs s' :
  P s → (∀ s x s', P s → f s x = Ok s' → P s') →
  foldM f s xs = Ok s' → P s'.
Proof.
  intros Hs Hf. revert s Hs. induction xs as [|x xs IH]; intros s Hs; simpl.
  - by intros [= <-].
  - destruct (f s x) eqn:Hx; [|done..]. intros. eapply IH; [|done]. eauto.
Qed.

(** ** Counting *)

(** Number of elements that satisfy [f]. *)
Fixpoint zcount {A} (f : A → bool) (l : list A) : Z :=
  match l with [] => 0 | x :: l => (if f x then 1 else 0) + zcount f l end.

Lemma zcount_app {A} (f : A → bool) l1 l2 : zcount f (l1 ++ l2) = zcount f l1 + zcount f l2.
Proof. induction l1 as [|x l1 IH]; simpl; [done|]. rewrite IH. lia. Qed.

Lemma zcount_bounds {A} (f : A → bool) l : 0 ≤ zcount f l ≤ Z.of_nat (length l).
Proof. induction l as [|x l IH]; simpl; [lia|]. destruct (f x); lia. Qed.

Lemma zcount_zero {A} (f : A → bool) l : (∀ x, x ∈ l → f x = false) → zcount f l = 0.
Proof.
  induction l as [|x l IH]; intros H; simpl; [done|].
  rewrite (H x), IH; [done| |set_solver]. intros y Hy. apply H. set_solver.
Qed.

Lemma zcount_replicate {A} (f : A → bool) n x : f x = false → zcount f (replicate n x) = 0.
Proof. intros H. apply zcount_zero. intros y [-> _]%elem_of_replicate. done. Qed.

Create HintDb golib.
#[export] Hint Resolve i64_range u64_range slices_from_length : golib.
