(* ===== verification/GoStrings.v ===== *)
(** * Go strings: bytes, runes and the parts of [strings]/[strconv] the program uses

    A Go string is a byte sequence: a [string] whose characters are bytes.
    Ranging over it decodes UTF-8 (an invalid byte reads as U+FFFD, width 1),
    so the rune-wise functions work on the decoded runes paired with their
    bytes.  [unicode.IsSpace] is complete; the case mappings cover ASCII and
    the two runes that lower-case into ASCII (U+0130, U+212A), which is exact
    for the comparisons with ASCII literals the program makes. *)

From S2P Require Import Prelude.
From Stdlib Require Import Ascii.

Abbreviation bytes_of := String.list_ascii_of_string.
Abbreviation of_bytes := String.string_of_list_ascii.

Definition byte_val (c : ascii) : Z := Z.of_N (N_of_ascii c).
Definition byte_chr (z : Z) : ascii := ascii_of_N (Z.to_N z).

(** ** UTF-8 *)

Definition is_cont (b : Z) : bool := (0x80 <=? b) && (b <=? 0xBF).
Definition rune_error : Z := 0xFFFD.

(** First rune of a non-empty byte list and its width. *)
Definition decode_rune (b0 : Z) (rest : list Z) : Z * nat :=
  if b0 <? 0x80 then (b0, 1%nat)
  else match rest with
  | b1 :: rest1 =>
      if (0xC2 <=? b0) && (b0 <=? 0xDF) && is_cont b1
      then (Z.lor (Z.shiftl (Z.land b0 0x1F) 6) (Z.land b1 0x3F), 2%nat)
      else match rest1 with
      | b2 :: rest2 =>
          let lo := if b0 =? 0xE0 then 0xA0 else 0x80 in
          let hi := if b0 =? 0xED then 0x9F else 0xBF in
          if (0xE0 <=? b0) && (b0 <=? 0xEF) && (lo <=? b1) && (b1 <=? hi) && is_cont b2
          then (Z.lor (Z.lor (Z.shiftl (Z.land b0 0x0F) 12) (Z.shiftl (Z.land b1 0x3F) 6))
                      (Z.land b2 0x3F), 3%nat)
          else match rest2 with
          | b3 :: _ =>
              let lo := if b0 =? 0xF0 then 0x90 else 0x80 in
              let hi := if b0 =? 0xF4 then 0x8F else 0xBF in
              if (0xF0 <=? b0) && (b0 <=? 0xF4) && (lo <=? b1) && (b1 <=? hi)
                 && is_cont b2 && is_cont b3
              then (Z.lor (Z.lor (Z.shiftl (Z.land b0 0x07) 18) (Z.shiftl (Z.land b1 0x3F) 12))
                          (Z.lor (Z.shiftl (Z.land b2 0x3F) 6) (Z.land b3 0x3F)), 4%nat)
              else (rune_error, 1%nat)
          | [] => (rune_error, 1%nat)
          end
      | [] => (rune_error, 1%nat)
      end
  | [] => (rune_error, 1%nat)
  end.

Fixpoint decode_runes (fuel : nat) (bs : list ascii) : list (Z * list ascii) :=
  match fuel, bs with
  | S fuel, b :: rest =>
      let '(r, w) := decode_rune (byte_val b) (map byte_val (take 3 rest)) in
      (r, take w bs) :: decode_runes fuel (drop w bs)
  | _, _ => []
  end.

(** Runes of a string, each with the bytes it was read from. *)
Definition runes (s : string) : list (Z * list ascii) :=
  decode_runes (String.length s) (bytes_of s).

Definition string_of_runes (rs : list (Z * list ascii)) : string :=
  of_bytes (concat (map snd rs)).

(** [utf8.EncodeRune]. *)
Definition encode_rune (r : Z) : list ascii :=
  let r := if (r <? 0) || (0x10FFFF <? r) || ((0xD800 <=? r) && (r <=? 0xDFFF))
           then rune_error else r in
  if r <? 0x80 then [byte_chr r]
  else if r <? 0x800 then
    [byte_chr (Z.lor 0xC0 (Z.shiftr r 6)); byte_chr (Z.lor 0x80 (Z.land r 0x3F))]
  else if r <? 0x10000 then
    [byte_chr (Z.lor 0xE0 (Z.shiftr r 12)); byte_chr (Z.lor 0x80 (Z.land (Z.shiftr r 6) 0x3F));
     byte_chr (Z.lor 0x80 (Z.land r 0x3F))]
  else
    [byte_chr (Z.lor 0xF0 (Z.shiftr r 18)); byte_chr (Z.lor 0x80 (Z.land (Z.shiftr r 12) 0x3F));
     byte_chr (Z.lor 0x80 (Z.land (Z.shiftr r 6) 0x3F)); byte_chr (Z.lor 0x80 (Z.land r 0x3F))].

(** ** unicode.IsSpace *)

Definition is_space (r : Z) : bool :=
  (9 <=? r) && (r <=? 13) || (r =? 32) || (r =? 0x85) || (r =? 0xA0) || (r =? 0x1680)
  || (0x2000 <=? r) && (r <=? 0x200A) || (r =? 0x2028) || (r =? 0x2029) || (r =? 0x202F)
  || (r =? 0x205F) || (r =? 0x3000).

(** ** strings *)

Fixpoint drop_spaces (rs : list (Z * list ascii)) : list (Z * list ascii) :=
  match rs with
  | r :: rs' => if is_space r.1 then drop_spaces rs' else rs
  | [] => []
  end.

(** [strings.TrimSpace]. *)
Definition TrimSpace (s : string) : string :=
  string_of_runes (reverse (drop_spaces (reverse (drop_spaces (runes s))))).

(** [strings.Fields]. *)
Fixpoint fields_loop (rs : list (Z * list ascii)) (cur : list (Z * list ascii)) : list string :=
  match rs with
  | [] => match cur with [] => [] | _ => [string_of_runes (reverse cur)] end
  | r :: rs =>
      if is_space r.1
      then match cur with
           | [] => fields_loop rs []
           | _ => string_of_runes (reverse cur) :: fields_loop rs []
           end
      else fields_loop rs (r :: cur)
  end.
Definition Fields (s : string) : list string := fields_loop (runes s) [].

(** [strings.Split(s, sep)] for a one-byte separator. *)
Fixpoint split_bytes (sep : ascii) (bs cur : list ascii) : list string :=
  match bs with
  | [] => [of_bytes (reverse cur)]
  | b :: bs => if decide (b = sep) then of_bytes (reverse cur) :: split_bytes sep bs []
               else split_bytes sep bs (b :: cur)
  end.
Definition Split (s : string) (sep : ascii) : list string := split_bytes sep (bytes_of s) [].

(** [strings.SplitN(s, sep, 2)]: at most one cut, at the first separator. *)
Fixpoint split2_bytes (sep : ascii) (bs cur : list ascii) : list string :=
  match bs with
  | [] => [of_bytes (reverse cur)]
  | b :: bs => if decide (b = sep) then [of_bytes (reverse cur); of_bytes bs]
               else split2_bytes sep bs (b :: cur)
  end.
Definition SplitN2 (s : string) (sep : ascii) : list string := split2_bytes sep (bytes_of s) [].

(** [strings.Contains(s, c)] for a one-byte needle. *)
Definition contains_byte (s : string) (c : ascii) : bool :=
  bool_decide (c ∈ bytes_of s).

(** [strings.Join]. *)
Definition Join (parts : list string) (sep : string) : string := String.concat sep parts.

Definition lower_rune (r : Z) : Z :=
  if (0x41 <=? r) && (r <=? 0x5A) then r + 32
  else if r =? 0x130 then 0x69 else if r =? 0x212A then 0x6B else r.

(** [strings.ToLower], on the runes whose lower case is ASCII. *)
Definition ToLower (s : string) : string :=
  of_bytes (concat (map (λ r, if decide (lower_rune r.1 = r.1) then r.2
                              else encode_rune (lower_rune r.1)) (runes s))).

Definition HasPrefix (s p : string) : bool := String.prefix p s.

(** [strings.TrimPrefix]. *)
Definition TrimPrefix (s p : string) : string :=
  if HasPrefix s p then String.substring (String.length p) (String.length s - String.length p) s else s.

Definition HasSuffix (s p : string) : bool :=
  (String.length p <=? String.length s)%nat
  && bool_decide (String.substring (String.length s - String.length p) (String.length p) s = p).
Definition TrimSuffix (s p : string) : string :=
  if HasSuffix s p then String.substring 0 (String.length s - String.length p) s else s.

(** [strings.TrimRight(s, c)] for a cutset of one byte. *)
Fixpoint drop_byte (c : ascii) (bs : list ascii) : list ascii :=
  match bs with
  | b :: rest => if decide (b = c) then drop_byte c rest else bs
  | [] => []
  end.
Definition TrimRight (s : string) (c : ascii) : string := of_bytes (reverse (drop_byte c (reverse (bytes_of s)))).

(** ** strconv *)

Definition digit_val (c : ascii) : option Z :=
  let b := byte_val c in if (48 <=? b) && (b <=? 57) then Some (b - 48) else None.

Fixpoint digits_loop (bs : list ascii) (acc : Z) : option Z :=
  match bs with
  | [] => Some acc
  | c :: bs => match digit_val c with
               | Some d => digits_loop bs (acc * 10 + d)
               | None => None
               end
  end.

(** [strconv.ParseInt(s, 10, 64)] and [strconv.Atoi]: an optional sign, at least one
    digit, and a value in the [int64] range; [None] is the error. *)
Definition parse_int (s : string) : option Z :=
  let '(neg, ds) := match bytes_of s with
    | "+"%char :: ds => (false, ds)
    | "-"%char :: ds => (true, ds)
    | ds => (false, ds)
    end in
  match ds with
  | [] => None
  | _ => z ← digits_loop ds 0;
         let z := if neg : bool then - z else z in
         if decide (in_i64 z) then Some z else None
  end.

(** [strconv.ParseBool]. *)
Definition parse_bool (s : string) : option bool :=
  if decide (s ∈ ["1"; "t"; "T"; "true"; "TRUE"; "True"]) then Some true
  else if decide (s ∈ ["0"; "f"; "F"; "false"; "FALSE"; "False"]) then Some false
  else None.

(** [%q] on a string: quoted and escaped (printable and non-ASCII bytes kept). *)
Definition hex_digit (z : Z) : ascii := if z <? 10 then byte_chr (48 + z) else byte_chr (87 + z).
Lemma parse_int_range s z : parse_int s = Some z → in_i64 z.
Proof.
  unfold parse_int. destruct (match bytes_of s with [] => _ | _ => _ end) as [neg ds].
  destruct ds as [|d ds]; [done|]. destruct (digits_loop (d :: ds) 0); simpl; [|done].
  case_decide; [|done]. by intros [= <-].
Qed.

Definition quote_byte (c : ascii) : list ascii :=
  let b := byte_val c in
  let bs := byte_chr 92 in
  if b =? 34 then [bs; c] else if b =? 92 then [bs; c]
  else if b =? 7 then [bs; "a"%char] else if b =? 8 then [bs; "b"%char]
  else if b =? 12 then [bs; "f"%char] else if b =? 10 then [bs; "n"%char]
  else if b =? 13 then [bs; "r"%char] else if b =? 9 then [bs; "t"%char]
  else if b =? 11 then [bs; "v"%char]
  else if (b <? 32) || (b =? 127) then [bs; "x"%char; hex_digit (b / 16); hex_digit (b mod 16)]
  else [c].
Definition quote (s : string) : string :=
  of_bytes ([byte_chr 34] ++ concat (map quote_byte (bytes_of s)) ++ [byte_chr 34]).

Example fields_example : Fields "  */5  1,3 * " = ["*/5"; "1,3"; "*"].
Proof. reflexivity. Qed.
Example split_example : Split "a,,b" "," = ["a"; ""; "b"].
Proof. reflexivity. Qed.
Example splitn_example : SplitN2 "connector:read:x" ":" = ["connector"; "read:x"].
Proof. reflexivity. Qed.
Example trim_example : TrimSpace "  a b	" = "a b".
Proof. reflexivity. Qed.
Example parse_example :
  (parse_int "-12", parse_int "+7", parse_int "9223372036854775808", parse_int "1x", parse_int "-")
  = (Some (-12), Some 7, None, None, None).
Proof. reflexivity. Qed.
Example lower_example : ToLower "Int64" = "int64".
Proof. reflexivity. Qed.

Lemma bytes_of_app a b : bytes_of (a +:+ b) = bytes_of a ++ bytes_of b.
Proof. induction a as [|c a IH]; simpl; [done|]. by rewrite IH. Qed.

Lemma of_bytes_of s : of_bytes (bytes_of s) = s.
Proof. apply String.string_of_list_ascii_of_string. Qed.

Lemma split2_bytes_sep sep a b cur :
  sep ∉ a → split2_bytes sep (a ++ sep :: b) cur = [of_bytes (reverse cur ++ a); of_bytes b].
Proof.
  revert cur. induction a as [|c a IH]; intros cur; simpl.
  - intros _. rewrite decide_True by done. by rewrite app_nil_r.
  - intros [Hc Ha]%not_elem_of_cons. rewrite decide_False by congruence.
    rewrite IH by done. rewrite reverse_cons. by rewrite <- app_assoc.
Qed.

Lemma SplitN2_sep (sep : ascii) (a b : string) :
  sep ∉ bytes_of a → SplitN2 (a +:+ String sep b) sep = [a; b].
Proof.
  intros Ha. unfold SplitN2. rewrite bytes_of_app. simpl.
  rewrite split2_bytes_sep by done. rewrite reverse_nil. simpl. by rewrite !of_bytes_of.
Qed.

(** Decimal printing of a 64-bit integer is read back by [parse_int]. *)
Lemma digits_loop_app xs ys acc :
  digits_loop (xs ++ ys) acc = (digits_loop xs acc ≫= digits_loop ys).
Proof.
  revert acc. induction xs as [|x xs IH]; intros acc; simpl; [done|].
  destruct (digit_val x); simpl; [apply IH|done].
Qed.

Lemma digit_val_pretty (n : N) : (n < 10)%N → digit_val (pretty_N_char n) = Some (Z.of_N n).
Proof.
  intros Hn. assert (n ∈ [0; 1; 2; 3; 4; 5; 6; 7; 8; 9]%N) as H.
  { rewrite !elem_of_cons. lia. }
  unfold digit_val. repeat (apply elem_of_cons in H as [->|H]; [reflexivity|]). by apply elem_of_nil in H.
Qed.

Lemma pretty_N_go_digits (n : N) : ∀ s, ∃ ds, bytes_of (pretty_N_go n s) = ds ++ bytes_of s ∧
  digits_loop ds 0 = Some (Z.of_N n) ∧ (n ≠ 0%N → ds ≠ []).
Proof.
  induction (N.lt_wf_0 n) as [n _ IH]. intros s. destruct (decide (n = 0%N)) as [->|Hn].
  { exists []. by rewrite pretty_N_go_0. }
  rewrite pretty_N_go_step by lia.
  destruct (IH (n `div` 10)%N ltac:(apply N.div_lt; lia) (String (pretty_N_char (n `mod` 10)) s)) as (ds & -> & Hd & _).
  exists (ds ++ [pretty_N_char (n `mod` 10)]). rewrite <- app_assoc. split_and!; [done| |by destruct ds].
  rewrite digits_loop_app, Hd. cbn. rewrite digit_val_pretty by (apply N.mod_lt; lia). f_equal.
  pose proof (N.div_mod n 10). lia.
Qed.

(** The digits of a number, and what they are read as. *)
Lemma pretty_N_digits (n : N) : digits_loop (bytes_of (pretty n)) 0 = Some (Z.of_N n) ∧ bytes_of (pretty n) ≠ [].
Proof.
  unfold pretty, pretty_N. case_decide as Hn; [by subst|].
  destruct (pretty_N_go_digits n "") as (ds & Hds & Hd & Hne). rewrite Hds, app_nil_r. auto.
Qed.

Lemma digits_no_sign c bs z : digits_loop (c :: bs) 0 = Some z → c ≠ "+"%char ∧ c ≠ "-"%char.
Proof. intros H. split; intros ->; discriminate. Qed.

Lemma parse_int_digits ds z : digits_loop ds 0 = Some z → ds ≠ [] → in_i64 z → parse_int (of_bytes ds) = Some z.
Proof.
  intros Hd Hne Hz. unfold parse_int, bytes_of, of_bytes. rewrite String.list_ascii_of_string_of_list_ascii.
  destruct ds as [|c ds]; [done|]. destruct (digits_no_sign _ _ _ Hd) as [H1 H2].
  assert (match c :: ds with "+"%char :: ds => (false, ds) | "-"%char :: ds => (true, ds) | ds => (false, ds) end
    = (false, c :: ds)) as ->.
  { destruct c as [[] [] [] [] [] [] [] []]; done. }
  rewrite Hd. cbn. by rewrite decide_True.
Qed.

(** [strconv.FormatInt] is read back by [strconv.ParseInt]. *)
Lemma parse_int_pretty z : in_i64 z → parse_int (pretty z) = Some z.
Proof.
  intros Hz. destruct z as [|p|p].
  - reflexivity.
  - change (pretty (Z.pos p)) with (pretty (N.pos p)). destruct (pretty_N_digits (N.pos p)) as [Hd Hne].
    rewrite <- (of_bytes_of (pretty (N.pos p))). by apply parse_int_digits.
  - change (pretty (Z.neg p)) with ("-" +:+ pretty (N.pos p)). destruct (pretty_N_digits (N.pos p)) as [Hd Hne].
    unfold parse_int. rewrite bytes_of_app. change (bytes_of "-") with ["-"%char]. cbn [app].
    destruct (bytes_of (pretty (N.pos p))) as [|c ds]; [done|]. rewrite Hd. cbn [mbind option_bind].
    change (- Z.of_N (N.pos p)) with (Z.neg p). by rewrite decide_True.
Qed.

(** ** ASCII strings *)

Definition is_ascii (c : ascii) : bool := byte_val c <? 128.

Lemma byte_val_range c : 0 ≤ byte_val c < 256.
Proof. unfold byte_val. pose proof (N_ascii_bounded c). lia. Qed.

Lemma byte_chr_val c : byte_chr (byte_val c) = c.
Proof. unfold byte_chr, byte_val. rewrite N2Z.id. apply ascii_N_embedding. Qed.

Lemma byte_val_chr z : 0 ≤ z < 256 → byte_val (byte_chr z) = z.
Proof. intros H. unfold byte_val, byte_chr. rewrite N_ascii_embedding by lia. lia. Qed.

Definition byte_codes (s : string) : list Z := map byte_val (bytes_of s).

Lemma decode_runes_ascii fuel bs : Forall is_ascii bs → (length bs ≤ fuel)%nat →
  decode_runes fuel bs = map (λ c, (byte_val c, [c])) bs.
Proof.
  revert bs. induction fuel as [|fuel IH]; intros [|b bs] Hb Hf; simpl in *; try done; [lia|].
  apply list.Forall_cons in Hb as [Hb Hbs]. unfold is_ascii in Hb.
  assert (decode_rune (byte_val b) (map byte_val (take 3 bs)) = (byte_val b, 1%nat)) as ->.
  { unfold decode_rune. by destruct (byte_val b <? 128). }
  simpl. rewrite drop_0. f_equal. apply IH; [done|lia].
Qed.

Lemma runes_ascii s : Forall is_ascii (bytes_of s) → runes s = map (λ c, (byte_val c, [c])) (bytes_of s).
Proof.
  intros H. apply decode_runes_ascii; [done|]. clear. induction s as [|c s IH]; simpl; [done|]. lia.
Qed.

Lemma encode_ascii c : is_ascii c → encode_rune (byte_val c) = [c].
Proof.
  unfold is_ascii. intros H. pose proof (byte_val_range c). unfold encode_rune.
  destruct (Z.ltb_spec (byte_val c) 128); [|done].
  assert ((byte_val c <? 0) || (1114111 <? byte_val c) || (55296 <=? byte_val c) && (byte_val c <=? 57343) = false)
    as -> by lia.
  destruct (Z.ltb_spec (byte_val c) 128); [|lia]. by rewrite byte_chr_val.
Qed.

Lemma drop_spaces_head rs : (∀ r, head rs = Some r → is_space r.1 = false) → drop_spaces rs = rs.
Proof. destruct rs as [|r rs]; simpl; intros H; [done|]. by rewrite H. Qed.

Lemma string_of_runes_ascii s : string_of_runes (map (λ c, (byte_val c, [c])) (bytes_of s)) = s.
Proof.
  unfold string_of_runes. rewrite map_map. simpl. rewrite <-(of_bytes_of s) at 2. f_equal.
  induction (bytes_of s) as [|c bs IH]; simpl; [done|]. by rewrite IH.
Qed.

Lemma TrimSpace_ascii s : Forall is_ascii (bytes_of s) →
  (∀ c, head (bytes_of s) = Some c → is_space (byte_val c) = false) →
  (∀ c, list.last (bytes_of s) = Some c → is_space (byte_val c) = false) →
  TrimSpace s = s.
Proof.
  intros Ha Hh Hl. unfold TrimSpace. rewrite runes_ascii by done.
  set (f := λ c, (byte_val c, [c])). rewrite (drop_spaces_head (map f (bytes_of s))).
  - rewrite drop_spaces_head, reverse_involutive; [apply string_of_runes_ascii|].
    intros r Hr. change (map f) with (fmap (M := list) f) in Hr.
    rewrite head_reverse, fmap_last in Hr. apply fmap_Some in Hr as (c & Hc & ->). by apply Hl.
  - intros r Hr. destruct (bytes_of s) as [|c bs]; [done|]. injection Hr as <-. by apply Hh.
Qed.

(** Printed integers have nothing to trim. *)
Lemma digits_loop_chars bs acc z : digits_loop bs acc = Some z → Forall (λ c, 48 ≤ byte_val c ≤ 57) bs.
Proof.
  revert acc. induction bs as [|c bs IH]; intros acc; cbn [digits_loop]; [constructor|].
  destruct (digit_val c) as [d|] eqn:Hd; [|done]. intros H. constructor; [|by eapply IH].
  unfold digit_val in Hd. destruct ((48 <=? byte_val c) && (byte_val c <=? 57)) eqn:Hc; [|done].
  apply andb_true_iff in Hc as [?%Z.leb_le ?%Z.leb_le]. done.
Qed.

Lemma pretty_Z_chars (z : Z) : Forall (λ c, byte_val c = 45 ∨ 48 ≤ byte_val c ≤ 57) (bytes_of (pretty z)).
Proof.
  assert (∀ n : N, Forall (λ c, byte_val c = 45 ∨ 48 ≤ byte_val c ≤ 57) (bytes_of (pretty n))) as H.
  { intros n. destruct (pretty_N_digits n) as [Hd _]. apply digits_loop_chars in Hd.
    eapply list.Forall_impl; [done|]. cbv beta. lia. }
  destruct z as [|p|p].
  - constructor; [right; vm_compute; split; discriminate|constructor].
  - apply (H (N.pos p)).
  - change (pretty (Z.neg p)) with ("-" +:+ pretty (N.pos p)). rewrite bytes_of_app.
    constructor; [by left|apply H].
Qed.

Lemma TrimSpace_pretty (z : Z) : TrimSpace (pretty z) = pretty z.
Proof.
  pose proof (pretty_Z_chars z) as Hc. rewrite list.Forall_forall in Hc.
  assert (∀ c, c ∈ bytes_of (pretty z) → is_space (byte_val c) = false) as Hs.
  { intros c Hin. specialize (Hc c Hin). unfold is_space. lia. }
  apply TrimSpace_ascii.
  - apply list.Forall_forall. intros c Hin. specialize (Hc c Hin). unfold is_ascii.
    apply Is_true_true, Z.ltb_lt. lia.
  - intros c Hh. apply Hs. by apply head_Some_elem_of.
  - intros c Hl. apply Hs. by apply last_Some_elem_of.
Qed.

(** ** Parts of strings *)

Lemma length_bytes s : String.length s = length (bytes_of s).
Proof. induction s as [|c s IH]; cbn; [done|]. by rewrite IH. Qed.

Lemma bytes_substring n m s : bytes_of (String.substring n m s) = take m (drop n (bytes_of s)).
Proof.
  revert n m. induction s as [|c s IH]; intros [|n] [|m]; cbn; try done; [by rewrite IH, drop_0|by rewrite IH..].
Qed.

Lemma bytes_of_bytes l : bytes_of (of_bytes l) = l.
Proof. apply String.list_ascii_of_string_of_list_ascii. Qed.

Lemma bytes_inj s t : bytes_of s = bytes_of t → s = t.
Proof. intros H. by rewrite <- (of_bytes_of s), H, of_bytes_of. Qed.

Lemma string_app_assoc (a b c : string) : (a +:+ b) +:+ c = a +:+ b +:+ c.
Proof. apply bytes_inj. by rewrite !bytes_of_app, app_assoc. Qed.

Lemma HasPrefix_app p r : HasPrefix (p +:+ r) p = true.
Proof.
  unfold HasPrefix. apply String.prefix_correct, bytes_inj.
  by rewrite bytes_substring, bytes_of_app, length_bytes, drop_0, take_app_length.
Qed.

Lemma HasPrefix_inv s p : HasPrefix s p = true → ∃ r, s = p +:+ r.
Proof.
  unfold HasPrefix. intros Hp%String.prefix_correct. exists (of_bytes (drop (String.length p) (bytes_of s))).
  apply bytes_inj. rewrite bytes_of_app, <- Hp at 1. rewrite bytes_substring, drop_0.
  unfold bytes_of at 3. rewrite String.list_ascii_of_string_of_list_ascii. by rewrite take_drop.
Qed.

Lemma HasPrefix_iff s p : HasPrefix s p = true ↔ ∃ r, s = p +:+ r.
Proof. split; [apply HasPrefix_inv|]. intros [r ->]. apply HasPrefix_app. Qed.

Lemma TrimPrefix_app p r : TrimPrefix (p +:+ r) p = r.
Proof.
  unfold TrimPrefix. rewrite HasPrefix_app. apply bytes_inj.
  rewrite bytes_substring, !length_bytes, bytes_of_app, length_app, drop_app_length. apply take_ge. lia.
Qed.

Lemma HasSuffix_iff s p : HasSuffix s p = true ↔ ∃ r, s = r +:+ p.
Proof.
  unfold HasSuffix. rewrite andb_true_iff, bool_decide_eq_true, Nat.leb_le, !length_bytes. split.
  - intros [Hl Hs]. exists (of_bytes (take (length (bytes_of s) - length (bytes_of p)) (bytes_of s))).
    apply bytes_inj. apply (f_equal bytes_of) in Hs. rewrite bytes_substring in Hs.
    rewrite bytes_of_app. unfold bytes_of at 2. rewrite String.list_ascii_of_string_of_list_ascii.
    rewrite <- Hs at 2. rewrite (take_ge (drop _ _)) by (rewrite length_drop; lia). by rewrite take_drop.
  - intros [r ->]. rewrite bytes_of_app, length_app. split; [lia|]. apply bytes_inj.
    rewrite bytes_substring, bytes_of_app. replace (_ + _ - _)%nat with (length (bytes_of r)) by lia.
    rewrite drop_app_length. apply take_ge. lia.
Qed.

Lemma TrimSuffix_app r p : TrimSuffix (r +:+ p) p = r.
Proof.
  unfold TrimSuffix. rewrite (proj2 (HasSuffix_iff (r +:+ p) p)) by eauto. apply bytes_inj.
  rewrite bytes_substring, !length_bytes, bytes_of_app, length_app, drop_0.
  replace (_ + _ - _)%nat with (length (bytes_of r)) by lia. apply take_app_length.
Qed.
