(* ===== verification/Errors.v ===== *)
(** * Error values: [internal/common/errors.go]

    Go errors form chains: the sentinels of the package, the wrapping structs,
    [fmt.Errorf] with [%w] and [errors.Join].  [errors_Is]/[errors_As] walk a
    chain the way the [errors] package does.  A [ValidationErrors] is built
    non-empty by every caller, so it keeps its first element apart. *)

From S2P Require Import Prelude GoStrings.

Inductive sentinel :=
| ErrNotFound | ErrAlreadyExists | ErrUnauthorized | ErrForbidden | ErrRateLimited
| ErrInvalidConfig | ErrConnectionFailed | ErrSchemaValidation | ErrTimeout | ErrCancelled.

#[global] Instance sentinel_eq_dec : EqDecision sentinel.
Proof. solve_decision. Defined.

Record ValidationError := mkValidationError { ve_Field : string; ve_Message : string }.

#[global] Instance ValidationError_eq_dec : EqDecision ValidationError.
Proof. solve_decision. Defined.

Inductive error :=
| ErrSentinel (s : sentinel)
| ErrText (msg : string)                                  (** [errors.New], [fmt.Errorf] without [%w] *)
| ErrWrapf (prefix : string) (err : error)                (** [fmt.Errorf("prefix: %w", err)] *)
| ErrNoted (err : error) (note : string)                  (** [fmt.Errorf("%w: note", err)] *)
| ErrJoin (errs : list error)                             (** [errors.Join] *)
| ErrConnector (connector op : string) (err : error)
| ErrRetryable (err : error) (retryAfter : Z)
| ErrValidation (v : ValidationError)
| ErrValidations (v : ValidationError) (vs : list ValidationError)
| ErrTenant (tenantID : string) (err : error).

Abbreviation res := (outcome error).

Definition sentinel_text (s : sentinel) : string :=
  match s with
  | ErrNotFound => "not found"
  | ErrAlreadyExists => "already exists"
  | ErrUnauthorized => "unauthorized"
  | ErrForbidden => "forbidden"
  | ErrRateLimited => "rate limited"
  | ErrInvalidConfig => "invalid configuration"
  | ErrConnectionFailed => "connection failed"
  | ErrSchemaValidation => "schema validation failed"
  | ErrTimeout => "operation timed out"
  | ErrCancelled => "operation cancelled"
  end.

Definition ValidationError_text (v : ValidationError) : string :=
  "validation error on " +:+ ve_Field v +:+ ": " +:+ ve_Message v.

(** [err.Error()]. *)
Fixpoint Error (e : error) : string :=
  match e with
  | ErrSentinel s => sentinel_text s
  | ErrText msg => msg
  | ErrWrapf prefix e => prefix +:+ ": " +:+ Error e
  | ErrNoted e note => Error e +:+ ": " +:+ note
  | ErrJoin es =>
      String.concat (String (Ascii.ascii_of_nat 10) "") (map Error es)
  | ErrConnector c op e => "connector " +:+ c +:+ ": " +:+ op +:+ ": " +:+ Error e
  | ErrRetryable e _ => "retryable: " +:+ Error e
  | ErrValidation v => ValidationError_text v
  | ErrValidations v [] => ValidationError_text v
  | ErrValidations v vs =>
      pretty (1 + Z.of_nat (length vs)) +:+ " validation errors (first: "
      +:+ ValidationError_text v +:+ ")"
  | ErrTenant t e => "tenant " +:+ t +:+ ": " +:+ Error e
  end.

Definition NewConnectorError (connector op : string) (err : error) : error :=
  ErrConnector connector op err.

(** [errors.Is(err, sentinel)]. *)
Fixpoint errors_Is (e : error) (target : sentinel) : bool :=
  match e with
  | ErrSentinel s => bool_decide (s = target)
  | ErrText _ | ErrValidation _ | ErrValidations _ _ => false
  | ErrWrapf _ e | ErrNoted e _ | ErrConnector _ _ e | ErrRetryable e _ | ErrTenant _ e => errors_Is e target
  | ErrJoin es => existsb (λ e, errors_Is e target) es
  end.

(** [errors.As(err, *RetryableError)]: whether some error of the chain is retryable. *)
Fixpoint IsRetryable (e : error) : bool :=
  match e with
  | ErrRetryable _ _ => true
  | ErrSentinel _ | ErrText _ | ErrValidation _ | ErrValidations _ _ => false
  | ErrWrapf _ e | ErrNoted e _ | ErrConnector _ _ e | ErrTenant _ e => IsRetryable e
  | ErrJoin es => existsb IsRetryable es
  end.

(** [errors.Join] of the collected errors: no error when there is none. *)
Definition errors_Join (es : list error) : option error :=
  match es with [] => None | _ => Some (ErrJoin es) end.

(** Wrapping with connector context does not change whether an error is retried. *)
Lemma IsRetryable_connector c op e : IsRetryable (NewConnectorError c op e) = IsRetryable e.
Proof. done. Qed.
