(* ===== verification/Float.v ===== *)
(** * IEEE binary64 arithmetic of Go's [float64]

    [float64] is the specification type [spec_float] of the Standard Library
    at precision 53 and maximal exponent 1024, so that every operation is a
    total, axiom-free function with the rounding (nearest, ties to even) that
    the Go specification prescribes.  The conversions to integers follow the
    amd64 code generated by the Go compiler where the language leaves the
    result implementation-dependent (out-of-range values and NaN give the
    smallest [int64]). *)

From Corelib Require Import SpecFloat.
From S2P Require Import Prelude.

Abbreviation float64 := spec_float.

Definition fprec : Z := 53.
Definition femax : Z := 1024.

#[global] Instance spec_float_eq_dec : EqDecision float64.
Proof. solve_decision. Defined.

Definition f_of_Z (z : Z) : float64 := binary_normalize fprec femax z 0 false.
Definition f_add (x y : float64) : float64 := SFadd fprec femax x y.
Definition f_sub (x y : float64) : float64 := SFsub fprec femax x y.
Definition f_mul (x y : float64) : float64 := SFmul fprec femax x y.
Definition f_div (x y : float64) : float64 := SFdiv fprec femax x y.
Definition f_neg (x : float64) : float64 := SFopp x.
Definition f_eqb (x y : float64) : bool := SFeqb x y.
Definition f_ltb (x y : float64) : bool := SFltb x y.
Definition f_leb (x y : float64) : bool := SFleb x y.
Definition f_is_nan (x : float64) : bool :=
  match x with S754_nan => true | _ => false end.
Definition f_is_inf (x : float64) : bool :=
  match x with S754_infinity _ => true | _ => false end.
Definition f_is_finite (x : float64) : bool :=
  match x with S754_zero _ | S754_finite _ _ _ => true | _ => false end.

(** The float nearest to the rational [m * 10^e] for a literal constant. *)
Definition f_of_dec (m e : Z) : float64 :=
  match m with
  | Z0 => S754_zero false
  | Zpos p =>
      if e <? 0 then
        let '(q, e', l) := SFdiv_core_binary fprec femax (Zpos p) 0 (10 ^ (- e)) 0 in
        binary_round_aux fprec femax false q e' l
      else f_of_Z (Zpos p * 10 ^ e)
  | Zneg p =>
      f_neg (if e <? 0 then
        let '(q, e', l) := SFdiv_core_binary fprec femax (Zpos p) 0 (10 ^ (- e)) 0 in
        binary_round_aux fprec femax false q e' l
      else f_of_Z (Zpos p * 10 ^ e))
  end.

(** Magnitude truncated toward zero, and whether something was cut off. *)
Definition mag_trunc (m : positive) (e : Z) : Z * bool :=
  if 0 <=? e then (Z.pos m * 2 ^ e, false)
  else (Z.pos m / 2 ^ (- e), negb (Z.pos m mod 2 ^ (- e) =? 0)).

(** Truncation toward zero as an exact integer; [None] for NaN and infinities. *)
Definition f_trunc (x : float64) : option Z :=
  match x with
  | S754_zero _ => Some 0
  | S754_finite s m e =>
      let t := (mag_trunc m e).1 in Some (if s then - t else t)
  | _ => None
  end.

(** [math.Ceil], as an exact integer. *)
Definition f_ceil (x : float64) : option Z :=
  match x with
  | S754_zero _ => Some 0
  | S754_finite s m e =>
      let '(t, cut) := mag_trunc m e in
      Some (if s then - t else if cut then t + 1 else t)
  | _ => None
  end.

(** [int64(x)]. *)
Definition f_to_i64 (x : float64) : Z :=
  match f_trunc x with
  | Some z => if decide (in_i64 z) then z else int64_min
  | None => int64_min
  end.

(** [math.Pow(2, n)] for [0 <= n], which is exact as long as it does not overflow. *)
Definition pow2 (n : Z) : float64 :=
  if n <? 1024 then S754_finite false 4503599627370496 (n - 52)
  else S754_infinity false.

(** [math.Max] and [math.Min]. *)
Definition f_sign (x : float64) : bool :=
  match x with S754_zero s | S754_infinity s | S754_finite s _ _ => s | S754_nan => false end.
Definition f_max (x y : float64) : float64 :=
  if bool_decide (x = S754_infinity false) || bool_decide (y = S754_infinity false) then S754_infinity false
  else if f_is_nan x || f_is_nan y then S754_nan
  else if f_eqb x y && f_eqb x (S754_zero false) then (if f_sign x then y else x)
  else if f_ltb y x then x else y.
Definition f_min (x y : float64) : float64 :=
  if bool_decide (x = S754_infinity true) || bool_decide (y = S754_infinity true) then S754_infinity true
  else if f_is_nan x || f_is_nan y then S754_nan
  else if f_eqb x y && f_eqb x (S754_zero false) then (if f_sign x then x else y)
  else if f_ltb x y then x else y.

(** Whether the value is an integer ([v == math.Trunc(v)]). *)
Definition f_is_int (x : float64) : bool :=
  match x with
  | S754_zero _ => true
  | S754_finite _ m e => negb (mag_trunc m e).2
  | S754_infinity _ => true
  | S754_nan => false
  end.

Lemma f_to_i64_range x : in_i64 (f_to_i64 x).
Proof.
  unfold f_to_i64. destruct (f_trunc x); [case_decide; [done|]|];
    unfold in_i64, int64_min, int64_max; lia.
Qed.

#[export] Hint Resolve f_to_i64_range : golib.

Example f_dec_tenth : f_of_dec 1 (-1) = S754_finite false 7205759403792794 (-56).
Proof. vm_compute. reflexivity. Qed.
Example f_add_example : f_add (f_of_dec 1 (-1)) (f_of_dec 2 (-1)) = S754_finite false 5404319552844596 (-54).
Proof. vm_compute. reflexivity. Qed.
Example f_trunc_neg : f_to_i64 (f_of_dec (-27) (-1)) = -2.
Proof. vm_compute. reflexivity. Qed.
