(* ===== verification/Value.v ===== *)
(** * Dynamic values and JSON documents

    [value] is a Go [interface{}] as [encoding/json] builds it, plus the [int64]
    that the coercions produce.  A [json.RawMessage] is the syntax tree of its
    text; a number written by [json.Marshal] is kept as the float it was printed
    from, because Go prints the shortest text that reads back as that float.
    Strings are valid UTF-8.  The file also holds the text renderings the code
    uses ([%v], [strconv.FormatFloat]). *)

From stdpp Require Import sorting.
From Corelib Require Import SpecFloat.
From S2P Require Import Prelude GoStrings Errors Float.

Inductive jnum :=
| NLit (text : string) (m e : Z)    (** a literal with value [m * 10^e] *)
| NPrint (f : float64).             (** text printed from a finite float *)

Inductive json :=
| JNull
| JBool (b : bool)
| JNum (n : jnum)
| JStr (s : string)
| JArr (l : list json)
| JObj (l : list (string * json)).

Inductive RawMessage :=
| RawEmpty                     (** no bytes *)
| RawInvalid (err : string)    (** not JSON; [err] is the decoder's message *)
| RawDoc (j : json).

Inductive value :=
| VNil
| VBool (b : bool)
| VFloat (f : float64)
| VInt (z : Z)
| VString (s : string)
| VSlice (l : list value)
| VMap (m : gmap string value).

Abbreviation obj := (gmap string value).

Definition is_nil (v : value) : bool := match v with VNil => true | _ => false end.

(** Traversals that fail as a whole when one element fails. *)
Definition mapO {A B} (f : A → option B) : list A → option (list B) :=
  fix go l := match l with
  | [] => Some []
  | x :: l => match f x, go l with Some y, Some ys => Some (y :: ys) | _, _ => None end
  end.

(** Later entries of the same key win. *)
Definition objO {A B} (f : A → option B) : list (string * A) → gmap string B → option (gmap string B) :=
  fix go l acc := match l with
  | [] => Some acc
  | (k, x) :: l => match f x with Some y => go l (<[k := y]> acc) | None => None end
  end.

Definition mapM {A B} (f : A → option B) (m : gmap string A) : option (gmap string B) :=
  map_fold (λ k x acc, match f x, acc with
                       | Some y, Some ys => Some (<[k := y]> ys)
                       | _, _ => None
                       end) (Some ∅) m.

(** ** [json.Unmarshal] *)

Definition num_value (n : jnum) : option float64 :=
  match n with
  | NLit _ m e => let f := f_of_dec m e in if f_is_finite f then Some f else None
  | NPrint f => if f_is_finite f then Some f else None
  end.

(** Into an [interface{}]; [None] when a number overflows. *)
Fixpoint jvalue (j : json) : option value :=
  match j with
  | JNull => Some VNil
  | JBool b => Some (VBool b)
  | JNum n => VFloat <$> num_value n
  | JStr s => Some (VString s)
  | JArr l => VSlice <$> mapO jvalue l
  | JObj l => VMap <$> objO jvalue l ∅
  end.

Definition json_kind (j : json) : string :=
  match j with
  | JNull => "null" | JBool _ => "bool" | JNum _ => "number" | JStr _ => "string"
  | JArr _ => "array" | JObj _ => "object"
  end.

(** The folding of [encoding/json] on keys: ASCII letters and the two runes that fold into
    ASCII. *)
Definition fold_rune (r : Z) : Z :=
  if (0x41 <=? r) && (r <=? 0x5A) then r + 32
  else if r =? 0x17F then 0x73 else if r =? 0x212A then 0x6B else r.
Definition key_matches (name key : string) : bool :=
  bool_decide (map (λ r, fold_rune r.1) (runes key) = map (λ r, fold_rune r.1) (runes name)).

(** Into [map[string]json.RawMessage]: the members are added to the map. *)
Definition raw_members (l : list (string * json)) (m : gmap string json) : gmap string json :=
  foldl (λ m e, <[e.1 := e.2]> m) m l.

Definition err_number : error := ErrText "json: number out of range of float64".
Definition err_eof : error := ErrText "unexpected end of JSON input".

(** Into a [map[string]interface{}]; [null] gives the nil (empty) map. *)
Definition unmarshal_map (d : RawMessage) : res obj :=
  match d with
  | RawEmpty => Err err_eof
  | RawInvalid e => Err (ErrText e)
  | RawDoc JNull => Ok ∅
  | RawDoc (JObj l) =>
      match jvalue (JObj l) with
      | Some (VMap m) => Ok m
      | _ => Err err_number
      end
  | RawDoc j => Err (ErrText ("json: cannot unmarshal " +:+ json_kind j
                     +:+ " into Go value of type map[string]interface {}"))
  end.

(** ** [json.Marshal]: keys sorted; NaN and infinities are refused *)

Definition key_le {A} (a b : string * A) : Prop := String.leb a.1 b.1 = true.
#[global] Instance key_le_dec {A} (a b : string * A) : Decision (key_le a b).
Proof. unfold key_le. apply _. Defined.

(** The entries of a map in key order. *)
Definition sorted_entries {A} (m : gmap string A) : list (string * A) :=
  merge_sort key_le (map_to_list m).

Fixpoint to_json (v : value) : option json :=
  match v with
  | VNil => Some JNull
  | VBool b => Some (JBool b)
  | VFloat f => if f_is_finite f then Some (JNum (NPrint f)) else None
  | VInt z => Some (JNum (NLit (pretty z) z 0))
  | VString s => Some (JStr s)
  | VSlice l => JArr <$> mapO to_json l
  | VMap m => (λ js, JObj (sorted_entries js)) <$> mapM to_json m
  end.

Definition err_unsupported : error := ErrText "json: unsupported value".

Definition marshal_map (m : obj) : res RawMessage :=
  match to_json (VMap m) with
  | Some j => Ok (RawDoc j)
  | None => Err err_unsupported
  end.

(** ** Rendering *)

(** Largest [k] with [10^k <= num / den]. *)
Definition log10_floor (num den : Z) : Z :=
  let k := ((Z.log2 num - Z.log2 den) * 30103) / 100000 in
  let le k := if 0 <=? k then 10 ^ k * den <=? num else den <=? num * 10 ^ (- k) in
  if le (k + 1) then k + 1 else if le k then k else if le (k - 1) then k - 1 else k - 2.

(** Shortest decimal [d * 10^x] that reads back as the positive float [m * 2^e],
    the nearest one if there are several of that length. *)
Fixpoint shortest_digits (fuel : nat) (n : Z) (num den p : Z) (f : float64) : Z * Z :=
  match fuel with
  | O => (num, 0)
  | S fuel =>
      let s := n - 1 - p in
      let '(a, b) := if 0 <=? s then (num * 10 ^ s, den) else (num, den * 10 ^ (- s)) in
      let q := a / b in
      let r := a mod b in
      let reads d := f_eqb (f_of_dec d (- s)) f in
      let '(c1, c2) := if b <=? 2 * r then (q + 1, q) else (q, q + 1) in
      if reads c1 then (c1, - s) else if reads c2 then (c2, - s)
      else shortest_digits fuel (n + 1) num den p f
  end.

Definition float_digits (m : positive) (e : Z) : Z * Z :=
  let num := if 0 <=? e then Z.pos m * 2 ^ e else Z.pos m in
  let den := if 0 <=? e then 1 else 2 ^ (- e) in
  shortest_digits 17 1 num den (log10_floor num den) (S754_finite false m e).

Definition zeros (n : Z) : string := String.concat "" (repeat "0" (Z.to_nat n)).

(** [strconv.FormatFloat(f, 'f', -1, 64)] of the digits [d * 10^x]. *)
Definition digits_plain (d x : Z) : string :=
  let t := pretty d in
  let n := Z.of_nat (String.length t) in
  if 0 <=? x then t +:+ zeros x
  else if n + x <=? 0 then "0." +:+ zeros (- (n + x)) +:+ t
  else String.substring 0 (Z.to_nat (n + x)) t +:+ "."
       +:+ String.substring (Z.to_nat (n + x)) (Z.to_nat (- x)) t.

(** The ['e'] form: one digit, a point, the others, a two-digit exponent. *)
Definition digits_exp (d x : Z) : string :=
  let t := pretty d in
  let n := Z.of_nat (String.length t) in
  let ex := n - 1 + x in
  let a := pretty (Z.abs ex) in
  String.substring 0 1 t +:+ (if n =? 1 then "" else "." +:+ String.substring 1 (Z.to_nat (n - 1)) t)
  +:+ (if ex <? 0 then "e-" else "e+") +:+ (if Z.abs ex <? 10 then "0" +:+ a else a).

Definition with_sign (s : bool) (t : string) : string := if s then "-" +:+ t else t.

Definition FormatFloat_f (f : float64) : string :=
  match f with
  | S754_nan => "NaN"
  | S754_infinity s => if s then "-Inf" else "+Inf"
  | S754_zero s => with_sign s "0"
  | S754_finite s m e => let '(d, x) := float_digits m e in with_sign s (digits_plain d x)
  end.

(** [%v] of a float: ['g'] with the shortest digits. *)
Definition FormatFloat_g (f : float64) : string :=
  match f with
  | S754_finite s m e =>
      let '(d, x) := float_digits m e in
      let ex := Z.of_nat (String.length (pretty d)) - 1 + x in
      with_sign s (if (ex <? -4) || (6 <=? ex) then digits_exp d x else digits_plain d x)
  | f => FormatFloat_f f
  end.

(** [fmt.Sprintf("%v", v)]. *)
Fixpoint sprint_v (v : value) : string :=
  match v with
  | VNil => "<nil>"
  | VBool b => if b then "true" else "false"
  | VFloat f => FormatFloat_g f
  | VInt z => pretty z
  | VString s => s
  | VSlice l =>
      "[" +:+ String.concat " " (map sprint_v l) +:+ "]"
  | VMap m =>
      "map[" +:+ String.concat " "
        ((λ e, e.1 +:+ ":" +:+ e.2) <$>
           sorted_entries (map_fold (λ k v acc, <[k := sprint_v v]> acc) (∅ : gmap string string) m))
      +:+ "]"
  end.

(** [%T]. *)
Definition sprint_T (v : value) : string :=
  match v with
  | VNil => "<nil>" | VBool _ => "bool" | VFloat _ => "float64" | VInt _ => "int64"
  | VString _ => "string" | VSlice _ => "[]interface {}" | VMap _ => "map[string]interface {}"
  end.

Example fmt_1 : FormatFloat_f (f_of_dec 1 (-1)) = "0.1". Proof. vm_compute. reflexivity. Qed.
Example fmt_2 : FormatFloat_g (f_of_dec 123456789 (-3)) = "123456.789".
Proof. vm_compute. reflexivity. Qed.
Example fmt_3 : FormatFloat_f (f_of_dec 12345 20) = "1234500000000000000000000".
Proof. vm_compute. reflexivity. Qed.
Example fmt_4 : FormatFloat_g (f_of_dec 12 (-7)) = "1.2e-06". Proof. vm_compute. reflexivity. Qed.
Example fmt_5 : FormatFloat_f (f_add (f_of_dec 1 (-1)) (f_of_dec 2 (-1))) = "0.30000000000000004".
Proof. vm_compute. reflexivity. Qed.

(** ** Induction over values *)

Fixpoint vsize (v : value) : nat :=
  match v with
  | VSlice l => S (sum_list_with vsize l)
  | VMap m => S (map_fold (λ _ x acc, vsize x + acc)%nat 0%nat m)
  | _ => 1%nat
  end.

Lemma vsize_lookup (m : obj) k v : m !! k = Some v → (vsize v < vsize (VMap m))%nat.
Proof.
  simpl. intros H. rewrite <- (insert_delete_id m k v H).
  rewrite map_fold_insert_L; [lia|intros; lia|apply lookup_delete_eq].
Qed.

Lemma vsize_elem (l : list value) v : v ∈ l → (vsize v < vsize (VSlice l))%nat.
Proof. simpl. induction 1; simpl in *; lia. Qed.

Section value_induction.
Context (P : value → Prop).
Context (Hnil : P VNil) (Hbool : ∀ b, P (VBool b)) (Hfloat : ∀ f, P (VFloat f)).
Context (Hint : ∀ z, P (VInt z)) (Hstr : ∀ s, P (VString s)).
Context (Hslice : ∀ l, Forall P l → P (VSlice l)).
Context (Hmap : ∀ m, map_Forall (λ _, P) m → P (VMap m)).

Lemma value_ind' v : P v.
Proof using All.
  remember (vsize v) as n eqn:Hn. revert v Hn. induction (lt_wf n) as [n _ IH]. intros v ->.
  assert (∀ v', (vsize v' < vsize v)%nat → P v') as IH' by (intros; eapply IH; eauto). clear IH.
  destruct v; auto.
  - apply Hslice, list.Forall_forall. intros x Hx. apply IH', vsize_elem, Hx.
  - apply Hmap. intros k x Hx. eapply IH', vsize_lookup, Hx.
Qed.
End value_induction.

(** ** Reading back what was written *)

Lemma sorted_entries_perm {A} (m : gmap string A) : sorted_entries m ≡ₚ map_to_list m.
Proof. apply merge_sort_Permutation. Qed.

Lemma sorted_entries_nodup {A} (m : gmap string A) : NoDup (sorted_entries m).*1.
Proof. rewrite sorted_entries_perm. apply NoDup_fst_map_to_list. Qed.

Lemma sorted_entries_lookup {A} (m : gmap string A) : list_to_map (sorted_entries m) = m.
Proof.
  rewrite (list_to_map_proper _ _ (sorted_entries_nodup m) (sorted_entries_perm m)).
  apply list_to_map_to_list.
Qed.

Lemma mapM_lookup {A B} (f : A → option B) m m' :
  mapM f m = Some m' → ∀ k, m' !! k = m !! k ≫= f.
Proof.
  revert m'. unfold mapM. induction m as [|k x m Hk Hfst IH] using map_first_key_ind; intros m' Hm.
  - rewrite map_fold_empty in Hm. injection Hm as <-. done.
  - rewrite map_fold_insert_first_key in Hm by done.
    destruct (f x) eqn:Hx; [|done]. destruct (map_fold _ _ m) as [ys|] eqn:Hys; [|done].
    injection Hm as <-. intros k'.
    destruct (decide (k = k')) as [->|].
    + by rewrite !lookup_insert_eq.
    + rewrite !lookup_insert_ne by done. by apply IH.
Qed.

Lemma mapM_defined {A B} (f : A → option B) m m' : mapM f m = Some m' → ∀ k x, m !! k = Some x → is_Some (f x).
Proof.
  revert m'. unfold mapM. induction m as [|k x m Hk Hfst IH] using map_first_key_ind; intros m' Hm j y Hj.
  - by rewrite lookup_empty in Hj.
  - rewrite map_fold_insert_first_key in Hm by done. destruct (f x) as [z|] eqn:Hz; [|done].
    destruct (map_fold _ _ m) as [ys|] eqn:Hys; [|done].
    destruct (decide (j = k)) as [->|Hne]; [rewrite lookup_insert_eq in Hj; injection Hj as <-; by exists z|].
    rewrite lookup_insert_ne in Hj by done. by eapply IH.
Qed.

Lemma objO_lookup {A B} (f : A → option B) (m : gmap string A) m' :
  objO f (sorted_entries m) ∅ = Some m' → ∀ k, m' !! k = m !! k ≫= f.
Proof.
  assert (∀ l acc m', NoDup l.*1 → objO f l acc = Some m' →
    ∀ k, m' !! k = match (list_to_map l : gmap string A) !! k with
                   | Some x => f x | None => acc !! k end) as Hl.
  { induction l as [|[k x] l IH]; intros acc m'' Hnd; simpl.
    - intros [= ->]. done.
    - inversion Hnd as [|? ? Hk Hnd']; subst. destruct (f x) eqn:Hx; [|done].
      intros H k'. rewrite (IH _ _ Hnd' H k').
      destruct (decide (k = k')) as [->|].
      + rewrite lookup_insert_eq. apply not_elem_of_list_to_map_1 in Hk. rewrite Hk.
        by rewrite lookup_insert_eq.
      + by rewrite !lookup_insert_ne by done. }
  intros H k. rewrite (Hl _ _ _ (sorted_entries_nodup m) H k), sorted_entries_lookup.
  by destruct (m !! k).
Qed.

Lemma mapO_total {A B} (f : A → option B) l :
  (∀ x, x ∈ l → is_Some (f x)) → is_Some (mapO f l).
Proof.
  induction l as [|x l IH]; intros H; simpl; [eauto|].
  destruct (H x) as [y ->]; [set_solver|]. destruct IH as [ys ->]; [set_solver|]. eauto.
Qed.

Lemma mapM_total {A B} (f : A → option B) m :
  map_Forall (λ _ x, is_Some (f x)) m → is_Some (mapM f m).
Proof.
  unfold mapM. induction m as [|k x m Hk Hfst IH] using map_first_key_ind; intros H.
  - rewrite map_fold_empty. eauto.
  - rewrite map_fold_insert_first_key by done.
    apply map_Forall_insert in H as [[y ->] H]; [|done]. destruct (IH H) as [ys ->]. eauto.
Qed.

Lemma objO_total {A B} (f : A → option B) (m : gmap string A) :
  map_Forall (λ _ x, is_Some (f x)) m → is_Some (objO f (sorted_entries m) ∅).
Proof.
  intros H. assert (∀ e, e ∈ sorted_entries m → is_Some (f e.2)) as Hl.
  { intros [k x] He. unfold sorted_entries in He. rewrite merge_sort_Permutation in He.
    apply elem_of_map_to_list in He. by apply (H k). }
  revert Hl. generalize (sorted_entries m) as l. generalize (∅ : gmap string B) as acc.
  intros acc l. revert acc. induction l as [|[k x] l IH]; intros acc Hl; simpl; [eauto|].
  destruct (Hl (k, x)) as [y Hy]; [set_solver|]. simpl in Hy. rewrite Hy. apply IH. set_solver.
Qed.

(** Values as [json.Unmarshal] builds them: finite floats, no other number. *)
Fixpoint plain (v : value) : bool :=
  match v with
  | VFloat f => f_is_finite f
  | VInt _ => false
  | VSlice l => forallb plain l
  | VMap m => map_fold (λ _ x acc, plain x && acc) true m
  | _ => true
  end.
Definition plain_obj (m : obj) : Prop := map_Forall (λ _ v, plain v = true) m.

Lemma plain_map m : plain (VMap m) = true ↔ plain_obj m.
Proof.
  simpl. unfold plain_obj.
  induction m as [|k x m Hk Hfst IH] using map_first_key_ind.
  - rewrite map_fold_empty. split; [intros _; apply map_Forall_empty|done].
  - rewrite map_fold_insert_first_key, map_Forall_insert, andb_true_iff, IH by done. done.
Qed.

(** Marshalling a plain value succeeds and reads back as the same value. *)
Lemma to_json_plain v : plain v = true → ∃ j, to_json v = Some j ∧ jvalue j = Some v.
Proof.
  induction v as [|b|f|z|s|l IH|m IH] using value_ind'; simpl plain; intros Hp; simpl; eauto.
  - rewrite Hp. eexists. split; [done|]. simpl. by rewrite Hp.
  - done.
  - enough (∃ js, mapO to_json l = Some js ∧ mapO jvalue js = Some l) as (js & -> & Hjs).
    { eexists. split; [done|]. simpl. by rewrite Hjs. }
    induction IH as [|x l Hx _ IHl]; simpl in *; [by eexists|].
    apply andb_true_iff in Hp as [Hpx Hpl].
    destruct (Hx Hpx) as (j & -> & Hj), (IHl Hpl) as (js & -> & Hjs).
    eexists. split; [done|]. simpl. by rewrite Hj, Hjs.
  - apply plain_map in Hp.
    destruct (mapM_total to_json m) as [js Hjs].
    { intros k x Hx. destruct (IH k x Hx (Hp k x Hx)) as (j & -> & _). eauto. }
    rewrite Hjs. eexists. split; [done|]. simpl. pose proof (mapM_lookup _ _ _ Hjs) as Hl.
    destruct (objO_total jvalue js) as [m' Hm'].
    { intros k j Hj. rewrite Hl in Hj. destruct (m !! k) as [x|] eqn:Hx; [|done].
      destruct (IH k x Hx (Hp k x Hx)) as (j' & Hj' & Hv). simpl in Hj. rewrite Hj' in Hj.
      injection Hj as <-. eauto. }
    rewrite Hm'. simpl. do 2 f_equal. apply map_eq. intros k.
    rewrite (objO_lookup _ _ _ Hm'), Hl. destruct (m !! k) as [x|] eqn:Hx; [|done]. simpl.
    destruct (IH k x Hx (Hp k x Hx)) as (j' & -> & Hv). done.
Qed.

Lemma marshal_unmarshal m :
  plain_obj m → ∃ d, marshal_map m = Ok d ∧ unmarshal_map d = Ok m.
Proof.
  intros Hp. destruct (to_json_plain (VMap m)) as (j & Hj & Hv); [by apply plain_map|].
  unfold marshal_map. rewrite Hj. eexists. split; [done|].
  simpl in Hj. destruct (mapM to_json m); simplify_eq/=. simpl in Hv. by rewrite Hv.
Qed.

(** Induction over documents. *)
Lemma json_ind' (P : json → Prop) :
  P JNull → (∀ b, P (JBool b)) → (∀ n, P (JNum n)) → (∀ s, P (JStr s)) →
  (∀ l, Forall P l → P (JArr l)) → (∀ l, Forall (λ e, P e.2) l → P (JObj l)) →
  ∀ j, P j.
Proof.
  intros H1 H2 H3 H4 H5 H6. fix IH 1. intros [|b|n|s|l|l]; [exact H1|apply H2|apply H3|apply H4| |].
  - apply H5. induction l as [|x l IHl]; constructor; [apply IH|apply IHl].
  - apply H6. induction l as [|[k x] l IHl]; constructor; [apply IH|apply IHl].
Qed.

Lemma objO_Forall {A B} (f : A → option B) (P : B → Prop) l acc m :
  Forall (λ e, ∀ y, f e.2 = Some y → P y) l → map_Forall (λ _, P) acc →
  objO f l acc = Some m → map_Forall (λ _, P) m.
Proof.
  intros Hl. revert acc. induction Hl as [|[k x] l Hx _ IH]; intros acc Hacc; simpl.
  - by intros [= <-].
  - destruct (f x) as [y|] eqn:Hy; [|done]. apply IH. apply map_Forall_insert_2; eauto.
Qed.

(** What [json.Unmarshal] builds is plain. *)
Lemma jvalue_plain j v : jvalue j = Some v → plain v = true.
Proof.
  revert v. induction j as [|b|n|s|l IH|l IH] using json_ind'; simpl; intros v H; simplify_eq/=; try done.
  - destruct n as [t m e|f]; simpl in *; destruct (f_is_finite _) eqn:Hf; simplify_eq/=; done.
  - destruct (mapO jvalue l) as [vs|] eqn:Hvs; simplify_eq/=.
    revert vs Hvs. induction IH as [|x l Hx _ IHl]; simpl; intros vs Hvs; simplify_eq/=; [done|].
    destruct (jvalue x) eqn:Hjx; [|done]. destruct (mapO jvalue l); simplify_eq/=.
    rewrite Hx by done. simpl. by apply IHl.
  - destruct (objO jvalue l ∅) as [m|] eqn:Hm; [|done]. injection H as <-.
    apply plain_map. eapply (objO_Forall _ (λ v, plain v = true)); [|apply map_Forall_empty|done].
    done.
Qed.

Lemma unmarshal_plain d m : unmarshal_map d = Ok m → plain_obj m.
Proof.
  destruct d as [|e|[|b|n|s|l|l]]; simpl; try done.
  - intros [= <-]. apply map_Forall_empty.
  - destruct (objO jvalue l ∅) as [m'|] eqn:Hm; simpl; [|done]. intros [= <-].
    eapply (objO_Forall _ (λ v, plain v = true)); [|apply map_Forall_empty|done].
    apply list.Forall_forall. intros e _ y. apply jvalue_plain.
Qed.

(** A map of one entry. *)
Lemma mapM_singleton {A B} (f : A → option B) k x :
  mapM f {[ k := x ]} = (λ y, {[ k := y ]}) <$> f x.
Proof.
  destruct (f x) as [y|] eqn:Hf.
  - destruct (mapM f {[ k := x ]}) as [m|] eqn:Hm.
    + simpl. f_equal. apply map_eq. intros j. rewrite (mapM_lookup _ _ _ Hm).
      destruct (decide (j = k)) as [->|Hj]; [by rewrite !lookup_singleton_eq|by rewrite !lookup_singleton_ne].
    + exfalso. unfold mapM in Hm. rewrite map_fold_singleton, Hf in Hm. done.
  - unfold mapM. by rewrite map_fold_singleton, Hf.
Qed.

Lemma sorted_entries_singleton {A} k (x : A) : sorted_entries {[ k := x ]} = [(k, x)].
Proof. apply Permutation_length_1_inv. by rewrite sorted_entries_perm, map_to_list_singleton. Qed.
