(* ===== verification/Protocol.v ===== *)
(** * Connector protocol and registry: [pkg/protocol/protocol.go], [pkg/cdk]

    The messages exchanged with connectors, the connector interfaces as records
    of operations, and the global registry.  A connector runs outside the
    platform: [src_Read] gives the messages a source sends and the error it
    returns when its context is cancelled after the consumer has taken the given
    number of messages ([None]: never); [dst_Write] also changes the external
    world [W].  Instants are nanoseconds. *)

From S2P Require Import Prelude GoStrings Errors Value.

(** ** Messages *)

Inductive MessageType :=
| MessageTypeSpec | MessageTypeCheck | MessageTypeDiscover | MessageTypeRead | MessageTypeWrite
| MessageTypeRecord | MessageTypeState | MessageTypeSchema | MessageTypeLog | MessageTypeControl
| MessageTypeMCPToolCall | MessageTypeMCPToolResult
| MessageTypeOther (s : string).

Inductive StateType := StateTypeStream | StateTypeGlobal | StateTypeOther (s : string).
Inductive SchemaChange :=
| SchemaChangeNone | SchemaChangeNewColumn | SchemaChangeRemovedColumn | SchemaChangeTypeChange
| SchemaChangeOther (s : string).
Inductive LogLevel := LogLevelDebug | LogLevelInfo | LogLevelWarn | LogLevelError | LogLevelOther (s : string).
Inductive ControlType :=
| ControlTypeRateLimit | ControlTypeBackpressure | ControlTypePause | ControlTypeResume
| ControlTypeOther (s : string).
Inductive SyncMode := SyncModeFullRefresh | SyncModeIncremental | SyncModeOther (s : string).
Inductive DestinationSyncMode :=
| DestSyncModeAppend | DestSyncModeUpsert | DestSyncModeMerge | DestSyncModeSoftDelete
| DestSyncModeOther (s : string).
Inductive CheckStatus := CheckStatusSucceeded | CheckStatusFailed | CheckStatusOther (s : string).

Record Rec := mkRec {
  rec_Stream : string; rec_Namespace : string; rec_Data : RawMessage; rec_EmittedAt : Z
}.
Record State := mkState { st_Type : StateType; st_Stream : string; st_Data : RawMessage }.
Record SchemaMessage := mkSchemaMessage {
  sm_Stream : string; sm_Schema : RawMessage; sm_Change : SchemaChange
}.
Record Log := mkLog {
  log_Level : LogLevel; log_Message : string; log_Timestamp : Z; log_Data : RawMessage
}.
Record Control := mkControl { ctl_Type : ControlType; ctl_Message : string; ctl_Data : RawMessage }.
Record Spec := mkSpec { DocumentationURL : string; ConfigSchema : RawMessage }.
Record MCPToolCall := mkToolCall {
  tc_ID : string; tc_Tool : string; tc_Parameters : RawMessage; tc_AgentID : string; tc_TenantID : string
}.
Record MCPToolResult := mkToolResult { tr_CallID : string; tr_Content : RawMessage; tr_IsError : bool }.

Record Message := mkMessage {
  msg_Type : MessageType;
  msg_Record : option Rec;
  msg_State : option State;
  msg_Schema : option SchemaMessage;
  msg_Log : option Log;
  msg_Control : option Control;
  msg_Spec : option Spec;
  msg_MCPToolCall : option MCPToolCall;
  msg_MCPToolResult : option MCPToolResult
}.

Definition record_message (r : Rec) : Message :=
  mkMessage MessageTypeRecord (Some r) None None None None None None None.
Definition state_message (s : State) : Message :=
  mkMessage MessageTypeState None (Some s) None None None None None None.
Definition control_message (c : Control) : Message :=
  mkMessage MessageTypeControl None None None None (Some c) None None None.

Record Stream := mkStream {
  s_Name : string;
  s_Namespace : string;
  s_DisplayName : string;
  s_Schema : RawMessage;
  s_SupportedSyncModes : list SyncMode;
  s_DefaultCursorField : list string;
  s_SourceDefinedPK : bool;
  s_PrimaryKey : list (list string)
}.

Record ConfiguredStream := mkConfiguredStream {
  cs_Stream : Stream;
  cs_SyncMode : SyncMode;
  cs_DestinationSyncMode : DestinationSyncMode;
  cs_CursorField : list string;
  cs_PrimaryKey : list (list string)
}.

Record Catalog := mkCatalog { cat_Streams : list Stream }.
Record ConfiguredCatalog := mkConfiguredCatalog { cc_Streams : list ConfiguredStream }.
Record CheckResult := mkCheckResult { cr_Status : CheckStatus; cr_Message : string }.
Record WriteError := mkWriteError { we_Message : string; we_Record : RawMessage; we_ErrorCode : string }.
Record WriteResult := mkWriteResult {
  wr_RecordsWritten : Z; wr_Errors : list WriteError; wr_StateMessages : list State
}.

#[global] Instance MessageType_eq_dec : EqDecision MessageType.
Proof. solve_decision. Defined.
#[global] Instance ControlType_eq_dec : EqDecision ControlType.
Proof. solve_decision. Defined.
#[global] Instance CheckStatus_eq_dec : EqDecision CheckStatus.
Proof. solve_decision. Defined.
#[global] Instance SyncMode_eq_dec : EqDecision SyncMode.
Proof. solve_decision. Defined.

(** The checkpoint of a sync: a JSON document per stream. *)
Abbreviation state_map := (gmap string RawMessage).

(** ** Connector interfaces *)

Record Source := mkSource {
  src_Spec : res Spec;
  src_Check : RawMessage → res CheckResult;
  src_Discover : RawMessage → res Catalog;
  src_Read : RawMessage → ConfiguredCatalog → state_map → option nat → list Message * option error
}.

(** What the channel and the context guarantee of every source: cancelling after
    [n] messages does not change the first [n] messages. *)
Class SourceLaws (s : Source) : Prop := {
  read_prefix cfg cat st n :
    take n (src_Read s cfg cat st (Some n)).1 = take n (src_Read s cfg cat st None).1
}.

Record Destination (W : Type) := mkDestination {
  dst_Spec : res Spec;
  dst_Check : RawMessage → res CheckResult;
  dst_Write : RawMessage → ConfiguredCatalog → list Message → W → res WriteResult * W;
  dst_Capabilities : list DestinationSyncMode
}.
Arguments mkDestination {W}.
Arguments dst_Spec {W}. Arguments dst_Check {W}. Arguments dst_Write {W}. Arguments dst_Capabilities {W}.

Record Conflict := mkConflict {
  cf_Stream : string; cf_PrimaryKey : RawMessage; cf_SourceRecord : RawMessage;
  cf_DestRecord : RawMessage; cf_SourceTS : Z; cf_DestTS : Z
}.
Inductive ResolutionStrategy :=
| ResolutionSourceWins | ResolutionDestWins | ResolutionLastWrite | ResolutionMerge | ResolutionSkip
| ResolutionOther (s : string).
Record Resolution := mkResolution {
  rs_PrimaryKey : RawMessage; rs_Strategy : ResolutionStrategy; rs_MergedRecord : RawMessage
}.
Record WebhookEvent := mkWebhookEvent {
  wh_Source : string; wh_EventType : string; wh_Headers : gmap string string;
  wh_Body : RawMessage; wh_ReceivedAt : Z
}.
Record Bidirectional (W : Type) := mkBidirectional {
  bi_Source : Source;
  bi_Destination : Destination W;
  bi_Resolve : list Conflict → res (list Resolution);
  bi_WebhookHandler : WebhookEvent → W → option error * W
}.
Arguments bi_Source {W}. Arguments bi_Destination {W}.

Record ConnectorMeta := mkConnectorMeta {
  cm_Name : string; cm_DisplayName : string; cm_Version : string;
  cm_Type : string; cm_Category : string; cm_Icon : string
}.

(** ** The registry *)

Section registry.
Context {W : Type}.

Record connectorRegistry := mkRegistry {
  sources : gmap string Source;
  destinations : gmap string (Destination W);
  bidirectional : gmap string (Bidirectional W);
  meta : gmap string ConnectorMeta
}.

Definition registry_init : connectorRegistry := mkRegistry ∅ ∅ ∅ ∅.

Definition set_type (m : ConnectorMeta) (t : string) : ConnectorMeta :=
  mkConnectorMeta (cm_Name m) (cm_DisplayName m) (cm_Version m) t (cm_Category m) (cm_Icon m).

Definition RegisterSource (name : string) (m : ConnectorMeta) (s : Source) (r : connectorRegistry) :=
  mkRegistry (<[name := s]> (sources r)) (destinations r) (bidirectional r)
             (<[name := set_type m "source"]> (meta r)).

Definition RegisterDestination (name : string) (m : ConnectorMeta) (d : Destination W)
    (r : connectorRegistry) :=
  mkRegistry (sources r) (<[name := d]> (destinations r)) (bidirectional r)
             (<[name := set_type m "destination"]> (meta r)).

Definition RegisterBidirectional (name : string) (m : ConnectorMeta) (b : Bidirectional W)
    (r : connectorRegistry) :=
  mkRegistry (<[name := bi_Source b]> (sources r)) (<[name := bi_Destination b]> (destinations r))
             (<[name := b]> (bidirectional r)) (<[name := set_type m "bidirectional"]> (meta r)).

Definition lookup_or {A} (m : gmap string A) (name : string) (msg : string) : res A :=
  match m !! name with Some a => Ok a | None => Err (ErrText msg) end.

Definition GetSource (r : connectorRegistry) (name : string) : res Source :=
  lookup_or (sources r) name ("source connector " +:+ quote name +:+ " not registered").
Definition GetDestination (r : connectorRegistry) (name : string) : res (Destination W) :=
  lookup_or (destinations r) name ("destination connector " +:+ quote name +:+ " not registered").
Definition GetBidirectional (r : connectorRegistry) (name : string) : res (Bidirectional W) :=
  lookup_or (bidirectional r) name ("bidirectional connector " +:+ quote name +:+ " not registered").
Definition GetMeta (r : connectorRegistry) (name : string) : res ConnectorMeta :=
  lookup_or (meta r) name ("connector " +:+ quote name +:+ " not registered").
Definition ListConnectors (r : connectorRegistry) : list ConnectorMeta := (map_to_list (meta r)).*2.

(** ** What registrations give *)

(** A registration call. *)
Inductive registration :=
| RegS (name : string) (m : ConnectorMeta) (s : Source)
| RegD (name : string) (m : ConnectorMeta) (d : Destination W)
| RegB (name : string) (m : ConnectorMeta) (b : Bidirectional W).

Definition register (r : connectorRegistry) (c : registration) : connectorRegistry :=
  match c with
  | RegS n m s => RegisterSource n m s r
  | RegD n m d => RegisterDestination n m d r
  | RegB n m b => RegisterBidirectional n m b r
  end.

Definition reg_name (c : registration) : string :=
  match c with RegS n _ _ | RegD n _ _ | RegB n _ _ => n end.
Definition as_source (c : registration) : option Source :=
  match c with RegS _ _ s => Some s | RegD _ _ _ => None | RegB _ _ b => Some (bi_Source b) end.
Definition as_destination (c : registration) : option (Destination W) :=
  match c with RegS _ _ _ => None | RegD _ _ d => Some d | RegB _ _ b => Some (bi_Destination b) end.

(** Most recent of the calls for [name] that provides something. *)
Definition latest {A} (f : registration → option A) (name : string) (cs : list registration) : option A :=
  foldl (λ acc c, if bool_decide (reg_name c = name)
                  then match f c with Some a => Some a | None => acc end else acc) None cs.

Lemma latest_snoc {A} (f : registration → option A) name cs c :
  latest f name (cs ++ [c]) =
    if bool_decide (reg_name c = name)
    then match f c with Some a => Some a | None => latest f name cs end else latest f name cs.
Proof. unfold latest. by rewrite foldl_app. Qed.

Lemma registry_lookup cs name :
  sources (foldl register registry_init cs) !! name = latest as_source name cs ∧
  destinations (foldl register registry_init cs) !! name = latest as_destination name cs.
Proof.
  induction cs as [|c cs IH] using rev_ind; [done|]. rewrite foldl_app, !latest_snoc. simpl.
  destruct IH as [IH1 IH2]. destruct c as [n m s|n m d|n m b]; simpl;
    case_bool_decide as Hn; subst; rewrite ?lookup_insert_eq, ?lookup_insert_ne by done; done.
Qed.

(** After any sequence of registrations, [GetSource] and [GetDestination]
    return exactly what the most recent registration under that name provided,
    bidirectional connectors serving both roles, and an error when there is none. *)
Theorem registry_latest_wins cs name :
  let r := foldl register registry_init cs in
  (match GetSource r name with
   | Ok s => latest as_source name cs = Some s
   | Err _ => latest as_source name cs = None
   | Panic _ => False end) ∧
  (match GetDestination r name with
   | Ok d => latest as_destination name cs = Some d
   | Err _ => latest as_destination name cs = None
   | Panic _ => False end).
Proof.
  destruct (registry_lookup cs name) as [H1 H2]. simpl.
  unfold GetSource, GetDestination, lookup_or. rewrite H1, H2.
  split; repeat case_match; simplify_eq; done.
Qed.
End registry.
Arguments connectorRegistry : clear implicits.
