(* ===== verification/Bloom.v ===== *)
(** * Duplicate detection: the bloom filter of [internal/worker/transform/dedup.go]

    [Deduplicator] keeps a bit array as 64-bit words.  All hash arithmetic is
    modulo 2^64.  The locks of the Go code make every operation atomic, so an
    operation is a function of the state; [Panic] marks the run-time errors
    the Go code would raise (division by zero, index out of range), which the
    well-formedness invariant excludes. *)

From S2P Require Import Prelude Float.
From Stdlib Require Import Ascii.

Record Deduplicator := mkDeduplicator {
  bits : list Z;      (** [[]uint64] *)
  numBits : Z;        (** [uint64] *)
  numHashes : Z;      (** [int] *)
  count : Z           (** [int64] *)
}.

#[global] Instance Deduplicator_eq_dec : EqDecision Deduplicator.
Proof. solve_decision. Defined.

(** ** Hashing *)

Definition rotl64 (x r : Z) : Z :=
  Z.lor (u64 (Z.shiftl x r)) (Z.shiftr x (64 - r)).

Definition fmix64 (h : Z) : Z :=
  let h := Z.lxor h (Z.shiftr h 33) in
  let h := h *ᵤ 0xff51afd7ed558ccd in
  let h := Z.lxor h (Z.shiftr h 33) in
  let h := h *ᵤ 0xc4ceb9fe1a85ec53 in
  Z.lxor h (Z.shiftr h 33).

Definition byte_at (b : list Z) (i : nat) : Z := nth i b 0.

(** Little-endian read of the first eight bytes. *)
Definition readUint64 (b : list Z) : Z :=
  foldl (λ acc i, Z.lor acc (u64 (Z.shiftl (byte_at b i) (8 * Z.of_nat i)))) 0
        (seq 0 8).

(** The string's bytes (the Go code reinterprets the string's memory). *)
Definition unsafeStringToBytes (s : string) : list Z :=
  map (λ c, Z.of_N (N_of_ascii c)) (String.list_ascii_of_string s).

Definition hash_c1 : Z := 0x87c37b91114253d5.
Definition hash_c2 : Z := 0x4cf5ad432745937f.

(** One 16-byte block of the body loop. *)
Definition murmur_block (data : list Z) (h : Z * Z) (i : nat) : Z * Z :=
  let '(h1, h2) := h in
  let off := (i * 16)%nat in
  let k1 := readUint64 (drop off data) in
  let k2 := readUint64 (drop (off + 8) data) in
  let k1 := k1 *ᵤ hash_c1 in
  let k1 := rotl64 k1 31 in
  let k1 := k1 *ᵤ hash_c2 in
  let h1 := Z.lxor h1 k1 in
  let h1 := rotl64 h1 27 in
  let h1 := h1 +ᵤ h2 in
  let h1 := h1 *ᵤ 5 +ᵤ 0x52dce729 in
  let k2 := k2 *ᵤ hash_c2 in
  let k2 := rotl64 k2 33 in
  let k2 := k2 *ᵤ hash_c1 in
  let h2 := Z.lxor h2 k2 in
  let h2 := rotl64 h2 31 in
  let h2 := h2 +ᵤ h1 in
  let h2 := h2 *ᵤ 5 +ᵤ 0x38495ab5 in
  (h1, h2).

(** The body of [case n] of the tail switch, on [(k1, k2, h1, h2)]. *)
Definition murmur_case (tail : list Z) (n : nat) (st : Z * Z * Z * Z) : Z * Z * Z * Z :=
  let '(k1, k2, h1, h2) := st in
  let b := byte_at tail (n - 1) in
  if decide (10 ≤ n)%nat then
    (k1, Z.lxor k2 (u64 (Z.shiftl b (8 * Z.of_nat (n - 9)))), h1, h2)
  else if decide (n = 9)%nat then
    let k2 := Z.lxor k2 b in
    let k2 := k2 *ᵤ hash_c2 in
    let k2 := rotl64 k2 33 in
    let k2 := k2 *ᵤ hash_c1 in
    (k1, k2, h1, Z.lxor h2 k2)
  else if decide (2 ≤ n)%nat then
    (Z.lxor k1 (u64 (Z.shiftl b (8 * Z.of_nat (n - 1)))), k2, h1, h2)
  else
    let k1 := Z.lxor k1 b in
    let k1 := k1 *ᵤ hash_c1 in
    let k1 := rotl64 k1 31 in
    let k1 := k1 *ᵤ hash_c2 in
    (k1, k2, Z.lxor h1 k1, h2).

(** [switch len(tail)] whose cases all fall through to the next smaller one. *)
Fixpoint murmur_tail (tail : list Z) (n : nat) (st : Z * Z * Z * Z) : Z * Z * Z * Z :=
  match n with
  | O => st
  | S m => murmur_tail tail m (murmur_case tail n st)
  end.

Definition murmur3Hash (key : string) : Z * Z :=
  let data := unsafeStringToBytes key in
  let len := Z.of_nat (length data) in
  let h1 := u64 len *ᵤ hash_c1 in
  let h2 := u64 len *ᵤ hash_c2 in
  let nblocks := (length data / 16)%nat in
  let '(h1, h2) := foldl (murmur_block data) (h1, h2) (seq 0 nblocks) in
  let tail := drop (nblocks * 16) data in
  let '(_, _, h1, h2) := murmur_tail tail (length tail) (0, 0, h1, h2) in
  let h1 := Z.lxor h1 (u64 len) in
  let h2 := Z.lxor h2 (u64 len) in
  let h1 := h1 +ᵤ h2 in
  let h2 := h2 +ᵤ h1 in
  let h1 := fmix64 h1 in
  let h2 := fmix64 h2 in
  let h1 := h1 +ᵤ h2 in
  let h2 := h2 +ᵤ h1 in
  (h1, h2).

(** ** Operations *)

(** Double hashing: the [i]-th bit position of a key. *)
Definition probe_pos (h : Z * Z) (numBits i : Z) : Z :=
  (h.1 +ᵤ (u64 i *ᵤ h.2)) mod numBits.

(** The probe loop of [IsDuplicate]: test and set each position. *)
Fixpoint is_duplicate_loop (n : nat) (i : Z) (h : Z * Z) (numBits : Z)
    (bits : list Z) (present : bool) : outcome string (list Z * bool) :=
  match n with
  | O => Ok (bits, present)
  | S n =>
      if numBits =? 0 then Panic "integer divide by zero" else
      let pos := probe_pos h numBits i in
      let wordIdx := pos / 64 in
      let bitIdx := pos mod 64 in
      let mask := u64 (Z.shiftl 1 bitIdx) in
      match bits !! Z.to_nat wordIdx with
      | None => Panic "index out of range"
      | Some w =>
          if Z.land w mask =? 0
          then is_duplicate_loop n (i + 1) h numBits
                 (<[Z.to_nat wordIdx := Z.lor w mask]> bits) false
          else is_duplicate_loop n (i + 1) h numBits bits present
      end
  end.

Definition IsDuplicate (d : Deduplicator) (key : string) : outcome string (bool * Deduplicator) :=
  let h := murmur3Hash key in
  '(bits', present) ← is_duplicate_loop (Z.to_nat (numHashes d)) 0 h (numBits d) (bits d) true;
  Ok (present, mkDeduplicator bits' (numBits d) (numHashes d)
                 (if present : bool then count d else count d +ᵢ 1)).

(** The probe loop of [Contains]: stop at the first clear bit. *)
Fixpoint contains_loop (n : nat) (i : Z) (h : Z * Z) (numBits : Z)
    (bits : list Z) : outcome string bool :=
  match n with
  | O => Ok true
  | S n =>
      if numBits =? 0 then Panic "integer divide by zero" else
      let pos := probe_pos h numBits i in
      let mask := u64 (Z.shiftl 1 (pos mod 64)) in
      match bits !! Z.to_nat (pos / 64) with
      | None => Panic "index out of range"
      | Some w =>
          if Z.land w mask =? 0 then Ok false
          else contains_loop n (i + 1) h numBits bits
      end
  end.

Definition Contains (d : Deduplicator) (key : string) : outcome string bool :=
  contains_loop (Z.to_nat (numHashes d)) 0 (murmur3Hash key) (numBits d) (bits d).

Definition Count (d : Deduplicator) : Z := count d.

Definition Reset (d : Deduplicator) : Deduplicator :=
  mkDeduplicator (map (λ _, 0) (bits d)) (numBits d) (numHashes d) 0.

(** ** Construction *)

Section construction.
(** [math.Log], the only transcendental function the constructor uses. *)
Context (log : float64 → float64).

Definition math_Ln2 : float64 := f_of_dec 693147180559945309417232121458176568 (-36).

(** [uint64(f)] of a rounded-up float. *)
Definition f_ceil_u64 (x : float64) : Z := match f_ceil x with Some z => u64 z | None => 2 ^ 63 end.
(** [int(f)] of a rounded-up float. *)
Definition f_ceil_int (x : float64) : Z :=
  match f_ceil x with
  | Some z => if decide (in_i64 z) then z else int64_min
  | None => int64_min
  end.

(** The sizes are those of the code; what is left out of [NewDeduplicator] is the panic of
    [make] when the machine cannot hold that many words (a count or a rate, [NaN] included,
    for which the formula gives an absurd size). *)

(** [m = -n*ln(p) / ln(2)^2], rounded up, before word alignment. *)
Definition optimal_bits (expectedCount : Z) (p : float64) : Z :=
  let n := f_of_Z expectedCount in
  f_ceil_u64 (f_div (f_mul (f_neg n) (log p)) (f_mul math_Ln2 math_Ln2)).

Definition NewDeduplicator (expectedCount : Z) (falsePositiveRate : float64) : Deduplicator :=
  let expectedCount := if expectedCount <=? 0 then 1000 else expectedCount in
  let p := if f_leb falsePositiveRate (f_of_Z 0) || f_leb (f_of_Z 1) falsePositiveRate
           then f_of_dec 1 (-2) else falsePositiveRate in
  let numBits := optimal_bits expectedCount p in
  let k := f_ceil_int (f_mul (f_div (f_of_Z numBits) (f_of_Z expectedCount)) math_Ln2) in
  let k := if k <? 1 then 1 else k in
  let words := (numBits +ᵤ 63) / 64 in
  let numBits := words *ᵤ 64 in
  mkDeduplicator (replicate (Z.to_nat words) 0) numBits k 0.
End construction.

Example murmur_empty : murmur3Hash EmptyString = (0, 0).
Proof. vm_compute. reflexivity. Qed.
Example murmur_abc : murmur3Hash "abc" = (1844133465020389060, 16686869717829956710).
Proof. vm_compute. reflexivity. Qed.
Example murmur_two_blocks :
  murmur3Hash "order-1234567890-abcdefghijklmn" = (3080786283643944860, 4038154401216320505).
Proof. vm_compute. reflexivity. Qed.

(** ** Bits of the array *)

Definition bit_at (bs : list Z) (p : Z) : bool :=
  Z.testbit (nth (Z.to_nat (p / 64)) bs 0) (p mod 64).

(** Positions a key is hashed to. *)
Definition positions (d : Deduplicator) (key : string) : list Z :=
  map (probe_pos (murmur3Hash key) (numBits d)) (seqZ 0 (numHashes d)).

Record wf (d : Deduplicator) : Prop := {
  wf_bits : numBits d = 64 * Z.of_nat (length (bits d));
  wf_pos : 0 < numBits d < two64;
  wf_words : Forall in_u64 (bits d);
  wf_hashes : 0 ≤ numHashes d
}.

Lemma mask_pow2 k : 0 ≤ k < 64 → u64 (Z.shiftl 1 k) = 2 ^ k.
Proof.
  intros Hk. rewrite Z.shiftl_1_l. apply u64_id. unfold in_u64, two64.
  pose proof (Z.pow_lt_mono_r 2 k 64). lia.
Qed.

Lemma land_mask w k :
  0 ≤ k < 64 → (Z.land w (u64 (Z.shiftl 1 k)) =? 0) = negb (Z.testbit w k).
Proof.
  intros Hk. rewrite mask_pow2 by done.
  destruct (Z.testbit w k) eqn:Hb; simpl.
  - apply Z.eqb_neq. intros H0. apply (f_equal (λ z, Z.testbit z k)) in H0.
    rewrite Z.land_spec, Hb, Z.pow2_bits_true, Z.bits_0 in H0; [done|lia].
  - apply Z.eqb_eq. apply Z.bits_inj'. intros n Hn. rewrite Z.land_spec, Z.bits_0.
    rewrite Z.pow2_bits_eqb by lia.
    destruct (Z.eqb_spec k n) as [->|]; [by rewrite Hb|by rewrite andb_false_r].
Qed.

Lemma lor_mask_u64 w k : 0 ≤ k < 64 → in_u64 w → in_u64 (Z.lor w (u64 (Z.shiftl 1 k))).
Proof.
  intros Hk [Hw1 Hw2]. rewrite mask_pow2 by done. split.
  - apply Z.lor_nonneg. split; [done|]. apply Z.pow_nonneg. lia.
  - destruct (decide (Z.lor w (2 ^ k) = 0)) as [->|Hne]; [unfold two64; lia|].
    change two64 with (2 ^ 64). apply Z.log2_lt_pow2.
    + pose proof (Z.lor_nonneg w (2 ^ k)) as [_ ?].
      pose proof (Z.pow_nonneg 2 k). lia.
    + pose proof (Z.pow_nonneg 2 k). rewrite Z.log2_lor by lia.
      apply Z.max_lub_lt; [|rewrite Z.log2_pow2; lia].
      destruct (decide (w = 0)) as [->|]; [done|].
      apply Z.log2_lt_pow2; [lia|]. by change (2 ^ 64) with two64.
Qed.

Lemma bit_at_insert bs p q w :
  0 ≤ p → 0 ≤ q → bs !! Z.to_nat (p / 64) = Some w →
  bit_at (<[Z.to_nat (p / 64) := Z.lor w (u64 (Z.shiftl 1 (p mod 64)))]> bs) q =
  bit_at bs q || (p =? q).
Proof.
  intros Hp Hq Hw. unfold bit_at.
  pose proof (Z.mod_pos_bound p 64 ltac:(lia)) as Hpm.
  pose proof (Z.mod_pos_bound q 64 ltac:(lia)) as Hqm.
  pose proof (Z.div_mod p 64 ltac:(lia)). pose proof (Z.div_mod q 64 ltac:(lia)).
  pose proof (lookup_lt_Some _ _ _ Hw) as Hlen.
  rewrite !nth_lookup.
  destruct (decide (q / 64 = p / 64)) as [Heq|Hne].
  - rewrite Heq, list_lookup_insert_eq, Hw by done. simpl.
    rewrite Z.lor_spec, mask_pow2, Z.pow2_bits_eqb by lia. f_equal.
    destruct (Z.eqb_spec (p mod 64) (q mod 64)), (Z.eqb_spec p q); lia.
  - assert (0 ≤ p / 64) by (apply Z.div_pos; lia).
    assert (0 ≤ q / 64) by (apply Z.div_pos; lia).
    rewrite list_lookup_insert_ne by lia.
    destruct (Z.eqb_spec p q); [congruence|]. by rewrite orb_false_r.
Qed.

Lemma probe_pos_range h nb i : 0 < nb → 0 ≤ probe_pos h nb i < nb.
Proof. intros. unfold probe_pos. apply Z.mod_pos_bound. lia. Qed.

Lemma probe_word bs h nb i :
  nb = 64 * Z.of_nat (length bs) → 0 < nb →
  ∃ w, bs !! Z.to_nat (probe_pos h nb i / 64) = Some w ∧
       Z.testbit w (probe_pos h nb i mod 64) = bit_at bs (probe_pos h nb i).
Proof.
  intros Hnb Hpos. pose proof (probe_pos_range h nb i Hpos) as Hr.
  destruct (lookup_lt_is_Some_2 bs (Z.to_nat (probe_pos h nb i / 64))) as [w Hw].
  { assert (probe_pos h nb i / 64 < Z.of_nat (length bs))
      by (apply Z.div_lt_upper_bound; lia).
    assert (0 ≤ probe_pos h nb i / 64) by (apply Z.div_pos; lia). lia. }
  exists w. split; [done|]. unfold bit_at. by rewrite nth_lookup, Hw.
Qed.

(** ** What the loops compute *)

Lemma contains_loop_spec n i h nb bs :
  nb = 64 * Z.of_nat (length bs) → 0 < nb →
  contains_loop n i h nb bs =
  Ok (forallb (bit_at bs) (map (probe_pos h nb) (seqZ i (Z.of_nat n)))).
Proof.
  intros Hnb Hpos. revert i. induction n as [|n IH]; intros i; [done|].
  rewrite seqZ_cons by lia. cbn [contains_loop map forallb].
  destruct (Z.eqb_spec nb 0); [lia|].
  destruct (probe_word bs h nb i Hnb Hpos) as (w & -> & Hw).
  rewrite land_mask by (apply Z.mod_pos_bound; lia). rewrite Hw.
  destruct (bit_at bs (probe_pos h nb i)); [|done]. cbn [negb andb].
  rewrite IH. do 4 f_equal. lia.
Qed.

Lemma is_duplicate_loop_spec n i h nb bs pr :
  nb = 64 * Z.of_nat (length bs) → 0 < nb → Forall in_u64 bs →
  ∃ bs', is_duplicate_loop n i h nb bs pr =
    Ok (bs', pr && forallb (bit_at bs) (map (probe_pos h nb) (seqZ i (Z.of_nat n)))) ∧
    length bs' = length bs ∧ Forall in_u64 bs' ∧
    ∀ q, 0 ≤ q → bit_at bs' q =
      bit_at bs q || bool_decide (q ∈ map (probe_pos h nb) (seqZ i (Z.of_nat n))).
Proof.
  intros Hnb Hpos. revert i bs pr Hnb. induction n as [|n IH]; intros i bs pr Hnb HF.
  { exists bs. cbn. rewrite andb_true_r. split_and!; try done.
    intros q _. by rewrite orb_false_r. }
  rewrite seqZ_cons by lia. cbn [is_duplicate_loop map forallb].
  replace (Z.pred (Z.of_nat (S n))) with (Z.of_nat n) by lia.
  change (Z.succ i) with (i + 1).
  destruct (Z.eqb_spec nb 0); [lia|].
  set (p := probe_pos h nb i).
  pose proof (probe_pos_range h nb i Hpos) as Hp. fold p in Hp.
  pose proof (Z.mod_pos_bound p 64 ltac:(lia)) as Hpm.
  destruct (probe_word bs h nb i Hnb Hpos) as (w & Hlook & Hw). fold p in Hlook, Hw.
  rewrite Hlook, land_mask, Hw by done.
  destruct (bit_at bs p) eqn:Hbit; cbn [negb].
  - destruct (IH (i + 1) bs pr Hnb HF) as (bs' & -> & Hl & HF' & Hb).
    exists bs'. split_and!; try done. intros q Hq. rewrite Hb by done.
    destruct (decide (q = p)) as [->|Hne]; [by rewrite Hbit|].
    f_equal. apply bool_decide_ext. rewrite elem_of_cons. tauto.
  - set (bs1 := <[Z.to_nat (p / 64) := _]> bs).
    destruct (IH (i + 1) bs1 false) as (bs' & -> & Hl & HF' & Hb).
    { unfold bs1. by rewrite length_insert. }
    { apply Forall_insert; [done|]. apply lor_mask_u64; [done|].
      by eapply Forall_lookup_1. }
    exists bs'. cbn [andb]. rewrite andb_false_r. unfold bs1 in Hl.
    rewrite length_insert in Hl. split_and!; try done.
    intros q Hq. rewrite Hb by done. unfold bs1. rewrite bit_at_insert by (done || lia).
    rewrite <- orb_assoc. f_equal.
    destruct (Z.eqb_spec p q) as [->|Hne]; cbn [orb].
    + symmetry. apply bool_decide_eq_true_2. by left.
    + apply bool_decide_ext. rewrite elem_of_cons. intuition congruence.
Qed.

Lemma Contains_eq d key :
  wf d → Contains d key = Ok (forallb (bit_at (bits d)) (positions d key)).
Proof.
  intros [Hb Hp _ Hh]. unfold Contains, positions.
  rewrite contains_loop_spec by lia. by rewrite Z2Nat.id.
Qed.

Lemma IsDuplicate_eq d key :
  wf d → ∃ d', IsDuplicate d key =
      Ok (forallb (bit_at (bits d)) (positions d key), d') ∧
    wf d' ∧ numBits d' = numBits d ∧ numHashes d' = numHashes d ∧
    count d' = (if forallb (bit_at (bits d)) (positions d key) then count d else count d +ᵢ 1) ∧
    ∀ q, 0 ≤ q → bit_at (bits d') q = bit_at (bits d) q || bool_decide (q ∈ positions d key).
Proof.
  intros [Hb Hp HF Hh]. unfold IsDuplicate, positions.
  destruct (is_duplicate_loop_spec (Z.to_nat (numHashes d)) 0 (murmur3Hash key) (numBits d)
              (bits d) true Hb) as (bs' & -> & Hl & HF' & Hq); [lia|done|].
  rewrite Z2Nat.id in * by done. rewrite andb_true_l. eexists. split; [done|].
  split_and!; try done. split; simpl; [congruence|done..].
Qed.

(** ** Abstract specification: a set of bit positions and a counter *)

Record bloom_spec := mkSpec { marked : gset Z; unique : Z }.

Inductive bloom_op := OpIsDuplicate (key : string) | OpContains (key : string)
                    | OpCount | OpReset.
Inductive bloom_res := RBool (b : bool) | RInt (z : Z) | RUnit.

(** One call on the implementation. *)
Definition run_op (d : Deduplicator) (op : bloom_op) : outcome string (bloom_res * Deduplicator) :=
  match op with
  | OpIsDuplicate k => '(b, d') ← IsDuplicate d k; Ok (RBool b, d')
  | OpContains k => b ← Contains d k; Ok (RBool b, d)
  | OpCount => Ok (RInt (Count d), d)
  | OpReset => Ok (RUnit, Reset d)
  end.

(** The same call on the specification; [pos] gives the positions of a key. *)
Definition spec_op (pos : string → gset Z) (s : bloom_spec) (op : bloom_op) : bloom_res * bloom_spec :=
  match op with
  | OpIsDuplicate k =>
      let b := bool_decide (pos k ⊆ marked s) in
      (RBool b, mkSpec (marked s ∪ pos k) (if b then unique s else unique s +ᵢ 1))
  | OpContains k => (RBool (bool_decide (pos k ⊆ marked s)), s)
  | OpCount => (RInt (unique s), s)
  | OpReset => (RUnit, mkSpec ∅ 0)
  end.

Fixpoint run_ops (d : Deduplicator) (ops : list bloom_op) : outcome string (list bloom_res * Deduplicator) :=
  match ops with
  | [] => Ok ([], d)
  | op :: ops => '(r, d) ← run_op d op; '(rs, d) ← run_ops d ops; Ok (r :: rs, d)
  end.

Fixpoint spec_ops (pos : string → gset Z) (s : bloom_spec) (ops : list bloom_op) : list bloom_res * bloom_spec :=
  match ops with
  | [] => ([], s)
  | op :: ops =>
      let '(r, s) := spec_op pos s op in
      let '(rs, s) := spec_ops pos s ops in (r :: rs, s)
  end.

Definition pos_set (d : Deduplicator) (key : string) : gset Z := list_to_set (positions d key).

(** Simulation relation. *)
Definition refines (nb nh : Z) (d : Deduplicator) (s : bloom_spec) : Prop :=
  wf d ∧ numBits d = nb ∧ numHashes d = nh ∧ count d = unique s ∧
  ∀ q, 0 ≤ q → bit_at (bits d) q = bool_decide (q ∈ marked s).

Lemma positions_nonneg d key q : 0 < numBits d → q ∈ positions d key → 0 ≤ q.
Proof.
  unfold positions. rewrite list_elem_of_fmap. intros Hp (i & -> & _).
  by apply probe_pos_range.
Qed.

Lemma forallb_marked d s nb nh key :
  refines nb nh d s →
  forallb (bit_at (bits d)) (positions d key) = bool_decide (pos_set d key ⊆ marked s).
Proof.
  intros (Hwf & _ & _ & _ & Hbits). destruct Hwf as [_ [Hp _] _ _].
  apply eq_true_iff_eq. rewrite forallb_forall, bool_decide_eq_true. unfold pos_set.
  split.
  - intros Hall q. rewrite elem_of_list_to_set. intros Hq.
    specialize (Hall q). rewrite Hbits in Hall by (by eapply positions_nonneg).
    rewrite bool_decide_eq_true in Hall. by apply Hall, list_elem_of_In.
  - intros Hsub q Hq%list_elem_of_In.
    rewrite Hbits by (by eapply positions_nonneg). apply bool_decide_eq_true.
    apply Hsub. by rewrite elem_of_list_to_set.
Qed.

Lemma pos_set_params d d' key :
  numBits d = numBits d' → numHashes d = numHashes d' → pos_set d key = pos_set d' key.
Proof. unfold pos_set, positions. by intros -> ->. Qed.

Lemma bit_at_zeroes (bs : list Z) q : bit_at (map (λ _, 0) bs) q = false.
Proof.
  unfold bit_at. rewrite nth_lookup, list_lookup_fmap.
  destruct (bs !! _); simpl; apply Z.bits_0.
Qed.

Lemma Reset_wf d : wf d → wf (Reset d).
Proof.
  intros [Hb Hp HF Hh]. split; simpl; [by rewrite length_map|done| |done].
  apply Forall_map, Forall_true. intros ?. by unfold in_u64, two64.
Qed.

Lemma run_op_refines nb nh d s op d0 :
  numBits d0 = nb → numHashes d0 = nh →
  refines nb nh d s →
  ∃ d', run_op d op = Ok ((spec_op (pos_set d0) s op).1, d') ∧
        refines nb nh d' (spec_op (pos_set d0) s op).2.
Proof.
  intros Hnb Hnh HR. pose proof HR as (Hwf & Hb & Hh & Hc & Hbits).
  destruct op as [k|k| |]; simpl; rewrite ?(pos_set_params d0 d) by congruence.
  - destruct (IsDuplicate_eq d k Hwf) as (d' & -> & Hwf' & Hb' & Hh' & Hc' & Hq').
    rewrite (forallb_marked d s nb nh) in * by done. simpl. eexists. split; [done|].
    split_and!; simpl; [done|congruence..|by case_bool_decide; congruence|].
    intros q Hq. rewrite Hq', Hbits by done. unfold pos_set.
    apply eq_true_iff_eq. rewrite orb_true_iff, !bool_decide_eq_true. set_solver.
  - rewrite Contains_eq, (forallb_marked d s nb nh) by done. simpl. eauto.
  - rewrite <- Hc. eauto.
  - eexists. split; [done|]. split_and!; simpl; try done; [by apply Reset_wf|].
    intros q _. rewrite bit_at_zeroes. by rewrite bool_decide_eq_false_2 by set_solver.
Qed.

Lemma run_ops_refines nb nh d s ops d0 :
  numBits d0 = nb → numHashes d0 = nh →
  refines nb nh d s →
  ∃ d', run_ops d ops = Ok ((spec_ops (pos_set d0) s ops).1, d') ∧
        refines nb nh d' (spec_ops (pos_set d0) s ops).2.
Proof.
  intros Hnb Hnh. revert d s. induction ops as [|op ops IH]; intros d s HR; simpl; [eauto|].
  destruct (run_op_refines nb nh d s op d0 Hnb Hnh HR) as (d1 & -> & HR1). simpl.
  destruct (spec_op (pos_set d0) s op) as [r s1]; simpl in *.
  destruct (IH d1 s1 HR1) as (d2 & -> & HR2). simpl.
  destruct (spec_ops (pos_set d0) s1 ops); simpl in *. eauto.
Qed.

(** ** The constructor establishes the invariant *)

Lemma optimal_bits_nonneg log n p : 0 ≤ optimal_bits log n p.
Proof.
  unfold optimal_bits, f_ceil_u64.
  destruct (f_ceil _) as [z|]; [apply (u64_range z)|lia].
Qed.

Lemma NewDeduplicator_refines log n p :
  let d := NewDeduplicator log n p in
  0 < numBits d → optimal_bits log (if n <=? 0 then 1000 else n)
    (if f_leb p (f_of_Z 0) || f_leb (f_of_Z 1) p then f_of_dec 1 (-2) else p) ≤ 2 ^ 63 →
  refines (numBits d) (numHashes d) d (mkSpec ∅ 0).
Proof.
  unfold NewDeduplicator. set (m := optimal_bits _ _ _). simpl. intros Hpos Hm.
  assert (0 ≤ m) as Hm0 by apply optimal_bits_nonneg.
  assert (m +ᵤ 63 = m + 63) as E by (apply u64_id; unfold in_u64, two64; lia).
  rewrite E in *.
  assert ((m + 63) / 64 * 64 ≤ m + 63) by (rewrite Z.mul_comm; apply Z.mul_div_le; lia).
  assert (0 ≤ (m + 63) / 64) by (apply Z.div_pos; lia).
  assert ((m + 63) / 64 *ᵤ 64 = (m + 63) / 64 * 64) as E2
    by (apply u64_id; unfold in_u64, two64; lia).
  rewrite E2 in *. split_and!; simpl; try done; [split; simpl|].
  - rewrite length_replicate. lia.
  - unfold two64; lia.
  - apply Forall_replicate. by unfold in_u64, two64.
  - destruct (Z.ltb_spec (f_ceil_int (f_mul (f_div (f_of_Z m)
      (f_of_Z (if n <=? 0 then 1000 else n))) math_Ln2)) 1); lia.
  - intros q _. unfold bit_at. rewrite nth_lookup.
    rewrite bool_decide_eq_false_2 by set_solver.
    destruct (replicate _ _ !! _) eqn:Hr; simpl; [|apply Z.bits_0].
    apply lookup_replicate in Hr as [-> _]. apply Z.bits_0.
Qed.

(** Every well-formed filter implements some set of positions. *)
Definition spec_of (d : Deduplicator) : bloom_spec :=
  mkSpec (list_to_set (filter (λ q, bit_at (bits d) q = true) (seqZ 0 (numBits d)))) (count d).

Lemma wf_refines d : wf d → refines (numBits d) (numHashes d) d (spec_of d).
Proof.
  intros Hwf. split_and!; try done. intros q Hq. simpl.
  apply eq_true_iff_eq. rewrite bool_decide_eq_true, elem_of_list_to_set, list_elem_of_filter, elem_of_seqZ.
  split; [|by intros [? _]]. intros Hbit. split_and!; [done|lia|].
  destruct Hwf as [Hb Hp _ _]. apply Z.nle_gt. intros Hge.
  unfold bit_at in Hbit. rewrite nth_overflow, Z.bits_0 in Hbit; [done|].
  assert (numBits d / 64 ≤ q / 64) by (apply Z.div_le_mono; lia).
  rewrite Hb, Z.mul_comm, Z.div_mul in * by lia. lia.
Qed.

(** Without a reset the marked positions only grow. *)
Lemma spec_ops_mono pos s ops :
  OpReset ∉ ops → marked s ⊆ marked (spec_ops pos s ops).2.
Proof.
  revert s. induction ops as [|op ops IH]; intros s Hno; simpl; [done|].
  apply not_elem_of_cons in Hno as [Hne Hno].
  destruct (spec_op pos s op) as [r s1] eqn:Hop. destruct (spec_ops pos s1 ops) eqn:Hops.
  specialize (IH s1 Hno). rewrite Hops in IH. simpl in *.
  transitivity (marked s1); [|done]. destruct op; simplify_eq/=; set_solver.
Qed.

(** ** Properties *)

(** C17: the filter built by [NewDeduplicator] behaves, on every sequence of
    [IsDuplicate]/[Contains]/[Count]/[Reset] calls, like the abstract set of
    bit positions with a counter: no call panics, every answer is "all the
    key's positions are marked", and [IsDuplicate] marks them. *)
Theorem bloom_refinement log n p ops :
  let d := NewDeduplicator log n p in
  0 < numBits d →
  optimal_bits log (if n <=? 0 then 1000 else n)
    (if f_leb p (f_of_Z 0) || f_leb (f_of_Z 1) p then f_of_dec 1 (-2) else p) ≤ 2 ^ 63 →
  ∃ d', run_ops d ops = Ok ((spec_ops (pos_set d) (mkSpec ∅ 0) ops).1, d') ∧
        refines (numBits d) (numHashes d) d' (spec_ops (pos_set d) (mkSpec ∅ 0) ops).2.
Proof.
  intros d Hpos Hm. apply run_ops_refines; [done..|].
  by apply NewDeduplicator_refines.
Qed.

(** [math.Log] at the single point the witness needs: ln 0.01. *)
Definition log_sample (_ : float64) : float64 := f_of_dec (-4605170185988091) (-15).

Theorem bloom_refinement_witness :
  let d := NewDeduplicator log_sample 2 (f_of_dec 1 (-2)) in
  let ops := [OpIsDuplicate "a"; OpIsDuplicate "a"; OpContains "b"; OpCount] in
  0 < numBits d ∧ numBits d = 64 ∧ numHashes d = 7 ∧
  ∃ d', run_ops d ops = Ok ([RBool false; RBool true; RBool false; RInt 1], d').
Proof.
  split; [vm_compute; done|]. split; [vm_compute; done|]. split; [vm_compute; done|].
  destruct (bloom_refinement log_sample 2 (f_of_dec 1 (-2))
    [OpIsDuplicate "a"; OpIsDuplicate "a"; OpContains "b"; OpCount]) as (d' & H & _).
  - vm_compute. done.
  - vm_compute. done.
  - exists d'. rewrite H. vm_compute. done.
Defined.

(** No false negatives.  Once a key has been passed to [IsDuplicate],
    then after any further calls other than [Reset] both [Contains] and
    [IsDuplicate] answer true for it: "if it returns false, the key is
    guaranteed to be new". *)
Theorem no_false_negatives d k ops :
  wf d → OpReset ∉ ops →
  ∃ rs d' d'', run_ops d (OpIsDuplicate k :: ops) = Ok (rs, d') ∧
    Contains d' k = Ok true ∧ IsDuplicate d' k = Ok (true, d'').
Proof.
  intros Hwf Hno. pose proof (wf_refines d Hwf) as HR.
  destruct (run_ops_refines _ _ d _ (OpIsDuplicate k :: ops) d eq_refl eq_refl HR)
    as (d' & Hrun & HR').
  assert (Hsub : pos_set d' k ⊆ marked (spec_ops (pos_set d) (spec_of d) (OpIsDuplicate k :: ops)).2).
  { destruct HR' as (_ & Hb & Hh & _). rewrite (pos_set_params d' d) by done.
    simpl. set (s1 := mkSpec _ _). pose proof (spec_ops_mono (pos_set d) s1 ops Hno) as Hmono.
    destruct (spec_ops _ s1 ops). simpl in *. subst s1. set_solver. }
  assert (Hall : forallb (bit_at (bits d')) (positions d' k) = true).
  { erewrite forallb_marked by done. by apply bool_decide_eq_true_2. }
  destruct (IsDuplicate_eq d' k) as (d'' & Hdup & _); [by destruct HR'|].
  exists (spec_ops (pos_set d) (spec_of d) (OpIsDuplicate k :: ops)).1, d', d''.
  split; [done|]. rewrite Contains_eq, Hall by (by destruct HR').
  split; [done|]. by rewrite Hdup, Hall.
Qed.

Theorem no_false_negatives_witness :
  let d := mkDeduplicator [0; 0] 128 3 0 in
  ∃ rs d' d'', run_ops d [OpIsDuplicate "x"; OpIsDuplicate "y"; OpCount] = Ok (rs, d') ∧
    Contains d' "x" = Ok true ∧ IsDuplicate d' "x" = Ok (true, d'').
Proof.
  apply (no_false_negatives (mkDeduplicator [0; 0] 128 3 0) "x" [OpIsDuplicate "y"; OpCount]).
  - split; simpl; [done|unfold two64; lia| |lia].
    repeat constructor; unfold two64; lia.
  - set_solver.
Defined.
