(* ===== verification/Partition.v ===== *)
(** * Work partitioning: [internal/worker/extract/partitioner.go]

    The three partitioners split a workload into numbered ranges.  Bounds are
    computed on 64-bit integers and printed into the [Start]/[End] strings;
    the loops are written on the numeric bounds and [Partition] prints them.
    Instants are nanoseconds since the epoch; [time.Time.Sub] saturates at
    the range of a 64-bit duration. *)

From S2P Require Import Prelude.

Record Partition := mkPartition {
  part_ID : Z;
  part_Type : string;
  part_Start : string;
  part_End : string
}.

#[global] Instance Partition_eq_dec : EqDecision Partition.
Proof. solve_decision. Defined.

(** Number of partitions, as the three functions compute it. *)
Definition num_partitions (totalRecords maxPartitionSize : Z) : Z :=
  let maxPartitionSize := if maxPartitionSize <=? 0 then 1 else maxPartitionSize in
  let n := totalRecords /ᵢ maxPartitionSize in
  let n := if Z.rem totalRecords maxPartitionSize =? 0 then n else n +ᵢ 1 in
  if n <? 1 then 1 else n.

(** ** Offset ranges *)

Fixpoint calc_loop (fuel : nat) (i offset rpp remainder : Z) : list (Z * Z) :=
  match fuel with
  | O => []
  | S fuel =>
      let size := if i <? remainder then rpp +ᵢ 1 else rpp in
      (offset, offset +ᵢ size -ᵢ 1) :: calc_loop fuel (i + 1) (offset +ᵢ size) rpp remainder
  end.

Definition number (ty : string) (bounds : list (string * string)) : list Partition :=
  imap (λ i b, mkPartition (Z.of_nat i) ty b.1 b.2) bounds.

Definition print_bounds (bs : list (Z * Z)) : list (string * string) :=
  map (λ b, (pretty b.1, pretty b.2)) bs.

Definition calc_bounds (totalRecords maxPartitionSize : Z) : list (Z * Z) :=
  let n := num_partitions totalRecords maxPartitionSize in
  calc_loop (Z.to_nat n) 0 0 (totalRecords /ᵢ n) (Z.rem totalRecords n).

Definition CalculatePartitions (totalRecords maxPartitionSize : Z) : list Partition :=
  number "offset_range" (print_bounds (calc_bounds totalRecords maxPartitionSize)).

(** ** Integer key ranges *)

Record IDRangePartitioner := mkIDRange { MinID : Z; MaxID : Z }.

Fixpoint id_loop (fuel : nat) (i n current rangePer maxID : Z) : list (Z * Z) :=
  match fuel with
  | O => []
  | S fuel =>
      let e := current +ᵢ rangePer -ᵢ 1 in
      let e := if (i =? n - 1) || (maxID <? e) then maxID else e in
      let next := e +ᵢ 1 in
      (current, e) :: (if maxID <? next then [] else id_loop fuel (i + 1) n next rangePer maxID)
  end.

Definition id_bounds (p : IDRangePartitioner) (totalRecords maxPartitionSize : Z) : list (Z * Z) :=
  let n := num_partitions totalRecords maxPartitionSize in
  let totalRange := MaxID p -ᵢ MinID p +ᵢ 1 in
  let rangePer := totalRange /ᵢ n in
  let rangePer := if rangePer <? 1 then 1 else rangePer in
  id_loop (Z.to_nat n) 0 n (MinID p) rangePer (MaxID p).

Definition IDRange_Partition (p : IDRangePartitioner) (totalRecords maxPartitionSize : Z) : list Partition :=
  number "id_range" (print_bounds (id_bounds p totalRecords maxPartitionSize)).

(** ** Time ranges *)

Definition duration_clamp (d : Z) : Z :=
  if d <? int64_min then int64_min else if int64_max <? d then int64_max else d.

Section time_range.
(** [time.Time.Format]: layout and instant to text. *)
Context (time_format : string → Z → string).

Record TimeRangePartitioner := mkTimeRange {
  tr_Start : Z; tr_End : Z; TimeFormat : string
}.

Definition RFC3339 : string := "2006-01-02T15:04:05Z07:00".
Definition time_Second : Z := 1000000000.

Fixpoint time_loop (fuel : nat) (i n current dur last : Z) : list (Z * Z) :=
  match fuel with
  | O => []
  | S fuel =>
      let e := current + dur in
      let e := if (i =? n - 1) || (last <? e) then last else e in
      (current, e) :: time_loop fuel (i + 1) n e dur last
  end.

Definition time_bounds (p : TimeRangePartitioner) (totalRecords maxPartitionSize : Z) : list (Z * Z) :=
  let n := num_partitions totalRecords maxPartitionSize in
  let totalDuration := duration_clamp (tr_End p - tr_Start p) in
  let dur := totalDuration /ᵢ n in
  let dur := if dur <=? 0 then time_Second else dur in
  time_loop (Z.to_nat n) 0 n (tr_Start p) dur (tr_End p).

Definition TimeRange_Partition (p : TimeRangePartitioner) (totalRecords maxPartitionSize : Z) : list Partition :=
  let format := if decide (TimeFormat p = "") then RFC3339 else TimeFormat p in
  number "time_range"
    (map (λ b, (time_format format b.1, time_format format b.2))
         (time_bounds p totalRecords maxPartitionSize)).
End time_range.

(** ** Specification: exact covers *)

(** [covers lo hi bs]: the closed ranges [bs] are non-empty, contiguous and
    cover exactly [lo..hi]. *)
Fixpoint covers (lo hi : Z) (bs : list (Z * Z)) : Prop :=
  match bs with
  | [] => False
  | [b] => b.1 = lo ∧ b.2 = hi ∧ lo ≤ hi
  | b :: bs => b.1 = lo ∧ lo ≤ b.2 < hi ∧ covers (b.2 + 1) hi bs
  end.

(** [tiles lo hi bs]: the half-open ranges [bs] follow each other from [lo] to [hi]. *)
Fixpoint tiles (lo hi : Z) (bs : list (Z * Z)) : Prop :=
  match bs with
  | [] => False
  | [b] => b.1 = lo ∧ b.2 = hi ∧ lo ≤ hi
  | b :: bs => b.1 = lo ∧ lo ≤ b.2 ≤ hi ∧ tiles b.2 hi bs
  end.

Lemma covers_cons lo hi b bs :
  b.1 = lo → lo ≤ b.2 < hi → covers (b.2 + 1) hi bs → covers lo hi (b :: bs).
Proof. destruct bs as [|b' bs]; simpl; tauto. Qed.

Lemma tiles_cons lo hi b bs :
  b.1 = lo → lo ≤ b.2 ≤ hi → tiles b.2 hi bs → tiles lo hi (b :: bs).
Proof. destruct bs as [|b' bs]; simpl; tauto. Qed.

Lemma covers_lookup lo hi bs k b :
  covers lo hi bs → bs !! k = Some b → lo ≤ b.1 ≤ b.2 ∧ b.2 ≤ hi.
Proof.
  revert lo k. induction bs as [|b0 bs IH]; intros lo k; [done|].
  destruct bs as [|b1 bs].
  - intros (<- & <- & ?). destruct k; simpl; [intros [= <-]; lia|done].
  - intros (<- & ? & Hc). destruct k as [|k]; simpl.
    + intros [= <-]. lia.
    + intros Hk. apply (IH _ _ Hc) in Hk. lia.
Qed.

(** Every point of a covered range lies in exactly one piece. *)
Lemma covers_unique lo hi bs z :
  covers lo hi bs → lo ≤ z ≤ hi →
  ∃ k b, bs !! k = Some b ∧ b.1 ≤ z ≤ b.2 ∧
    ∀ k' b', bs !! k' = Some b' → b'.1 ≤ z ≤ b'.2 → k' = k.
Proof.
  revert lo. induction bs as [|b0 bs IH]; intros lo; [done|].
  destruct bs as [|b1 bs].
  - intros (<- & <- & ?) Hz. exists 0%nat, b0. split_and!; [done|lia..|].
    intros [|k'] b'; simpl; [done|done].
  - intros (<- & ? & Hc) Hz. destruct (decide (z ≤ b0.2)) as [Hle|Hgt].
    + exists 0%nat, b0. split_and!; [done|lia..|]. intros [|k'] b' Hk Hb; [done|].
      apply (covers_lookup _ _ _ _ _ Hc) in Hk. lia.
    + destruct (IH _ Hc) as (k & b & Hk & Hb & Huniq); [lia|].
      exists (S k), b. split_and!; [done|lia..|].
      intros [|k'] b' Hk' Hb'; simplify_eq/=; [lia|]. f_equal. by eapply Huniq.
Qed.

(** ** Correctness of the loops *)

Lemma num_partitions_spec total max :
  0 ≤ total → in_i64 total → in_i64 max →
  let n := num_partitions total max in
  let m := if max <=? 0 then 1 else max in
  1 ≤ n ∧ total ≤ n * m ∧ (0 < total → (n - 1) * m < total) ∧ in_i64 n.
Proof.
  unfold num_partitions, in_i64, int64_min, int64_max. intros H0 Ht Hm. simpl.
  set (m := if max <=? 0 then 1 else max).
  assert (1 ≤ m) by (subst m; destruct (Z.leb_spec max 0); lia).
  rewrite Z.quot_div_nonneg, Z.rem_mod_nonneg by lia.
  pose proof (Z.div_mod total m ltac:(lia)) as Hdm.
  pose proof (Z.mod_pos_bound total m ltac:(lia)) as Hr.
  pose proof (Z.div_pos total m ltac:(lia) ltac:(lia)) as Hq.
  assert (total / m ≤ total) by (apply Z.div_le_upper_bound; nia).
  rewrite (i64_id (total / m)) by (unfold in_i64, int64_min, int64_max; lia).
  destruct (Z.eqb_spec (total mod m) 0).
  - destruct (Z.ltb_spec (total / m) 1); split_and!; nia.
  - assert (m ≠ 1) by (intros ->; rewrite Z.mod_1_r in *; lia).
    rewrite i64_id by (unfold in_i64, int64_min, int64_max; nia).
    destruct (Z.ltb_spec (total / m + 1) 1); split_and!; nia.
Qed.

Lemma calc_loop_covers fuel i off rpp rem total :
  (0 < fuel)%nat → 1 ≤ rpp → 0 ≤ off → in_i64 total →
  off + Z.of_nat fuel * rpp + Z.max 0 (Z.min (rem - i) (Z.of_nat fuel)) = total →
  covers off (total - 1) (calc_loop fuel i off rpp rem).
Proof.
  revert i off. induction fuel as [|fuel IH]; intros i off Hf Hr Ho Ht Heq; [lia|].
  unfold in_i64, int64_min, int64_max in *. cbn [calc_loop].
  assert (Hsize : (if i <? rem then rpp +ᵢ 1 else rpp) = rpp + (if i <? rem then 1 else 0)).
  { destruct (Z.ltb_spec i rem); nowrap; [done|lia]. }
  rewrite Hsize. set (size := rpp + _). assert (1 ≤ size) by (subst size; case_match; lia).
  assert (Hle : off + size + Z.of_nat fuel * rpp + Z.max 0 (Z.min (rem - (i + 1)) (Z.of_nat fuel)) = total).
  { subst size. destruct (Z.ltb_spec i rem); lia. }
  assert (0 ≤ Z.of_nat fuel * rpp) by nia.
  nowrap. destruct fuel as [|fuel].
  - cbn. split_and!; [done|lia..].
  - apply covers_cons; simpl; [done|nia|].
    replace (off + size - 1 + 1) with (off + size) by lia.
    apply IH; [lia..|unfold in_i64, int64_min, int64_max; lia|lia].
Qed.

Lemma calc_loop_sizes fuel i off rpp rem total :
  1 ≤ rpp → 0 ≤ off → in_i64 total →
  off + Z.of_nat fuel * rpp + Z.max 0 (Z.min (rem - i) (Z.of_nat fuel)) = total →
  Forall (λ b, rpp ≤ b.2 - b.1 + 1 ≤ rpp + (if i <? rem then 1 else 0))
         (calc_loop fuel i off rpp rem).
Proof.
  revert i off. induction fuel as [|fuel IH]; intros i off Hr Ho Ht Heq; [by constructor|].
  unfold in_i64, int64_min, int64_max in *. cbn [calc_loop].
  assert (0 ≤ Z.of_nat fuel * rpp) by nia.
  destruct (Z.ltb_spec i rem) as [Hi|Hi]; nowrap; (constructor; simpl; [lia|]).
  - assert (HF := IH (i + 1) (off + (rpp + 1)) Hr ltac:(lia) Ht ltac:(lia)).
    eapply Forall_impl; [|exact HF]. intros b; simpl. destruct (Z.ltb_spec (i + 1) rem); lia.
  - assert (HF := IH (i + 1) (off + rpp) Hr ltac:(lia) Ht ltac:(lia)).
    eapply Forall_impl; [|exact HF]. intros b; simpl. destruct (Z.ltb_spec (i + 1) rem); lia.
Qed.

Lemma id_loop_covers fuel i n cur rpp maxID minID :
  (0 < fuel)%nat → i + Z.of_nat fuel = n → 1 ≤ rpp → int64_min ≤ cur ≤ maxID →
  maxID < int64_max →
  (rpp = 1 ∨ cur + Z.of_nat fuel * rpp ≤ maxID + 1) →
  minID ≤ cur →
  covers cur maxID (id_loop fuel i n cur rpp maxID).
Proof.
  revert i cur. induction fuel as [|fuel IH]; intros i cur Hf Hi Hr Hc Hm Hfit Hmin; [lia|].
  unfold int64_min, int64_max in *. cbn [id_loop].
  assert (Hend : cur +ᵢ rpp -ᵢ 1 = cur + rpp - 1).
  { destruct Hfit as [->|Hfit]; [nowrap; lia|]. assert (0 ≤ Z.of_nat fuel * rpp) by nia.
    nowrap; lia. }
  rewrite Hend. set (e := if _ || _ then maxID else _).
  assert (He : cur ≤ e ≤ maxID ∧ (i = n - 1 → e = maxID) ∧ (e < maxID → e = cur + rpp - 1)).
  { subst e. destruct (Z.eqb_spec i (n - 1)); simpl; [lia|].
    destruct (Z.ltb_spec maxID (cur + rpp - 1)); lia. }
  clearbody e. destruct He as (He & Hlast & Hne).
  nowrap. destruct (Z.ltb_spec maxID (e + 1)).
  - cbn. split_and!; lia.
  - apply covers_cons; simpl; [done|lia|]. destruct fuel as [|fuel]; [lia|].
    destruct Hfit as [->|Hfit]; apply IH; unfold int64_min, int64_max; nia.
Qed.

Lemma time_loop_tiles fuel i n cur dur last :
  (0 < fuel)%nat → i + Z.of_nat fuel = n → 0 < dur → cur ≤ last →
  tiles cur last (time_loop fuel i n cur dur last).
Proof.
  revert i cur. induction fuel as [|fuel IH]; intros i cur Hf Hi Hd Hc; [lia|].
  cbn [time_loop]. set (e := if _ || _ then last else _).
  assert (He : cur ≤ e ≤ last ∧ (i = n - 1 → e = last)).
  { subst e. destruct (Z.eqb_spec i (n - 1)); simpl; [lia|].
    destruct (Z.ltb_spec last (cur + dur)); lia. }
  clearbody e. destruct fuel as [|fuel].
  - cbn. split_and!; lia.
  - apply tiles_cons; simpl; [done|lia|]. apply IH; lia.
Qed.

Lemma time_loop_length fuel i n cur dur last :
  length (time_loop fuel i n cur dur last) = fuel.
Proof. revert i cur. induction fuel; intros; simpl; [done|]. by rewrite IHfuel. Qed.

Lemma calc_bounds_covers total max :
  0 < total → in_i64 total → in_i64 max →
  covers 0 (total - 1) (calc_bounds total max) ∧
  Forall (λ b, 1 ≤ b.2 - b.1 + 1 ≤ Z.max 1 max) (calc_bounds total max).
Proof.
  intros H0 Ht Hm.
  destruct (num_partitions_spec total max ltac:(lia) Ht Hm) as (Hn & Hle & Hlt & Hin).
  unfold calc_bounds. set (n := num_partitions total max) in *. clearbody n.
  set (m := if max <=? 0 then 1 else max) in *.
  assert (m = Z.max 1 max) by (subst m; destruct (Z.leb_spec max 0); lia).
  assert (1 ≤ m) by lia. clearbody m.
  unfold in_i64, int64_min, int64_max in *.
  rewrite Z.quot_div_nonneg, Z.rem_mod_nonneg by lia.
  pose proof (Z.div_mod total n ltac:(lia)) as Hdm.
  pose proof (Z.mod_pos_bound total n ltac:(lia)) as Hr.
  specialize (Hlt ltac:(lia)).
  assert (n ≤ total) by nia.
  assert (1 ≤ total / n) by (apply Z.div_le_lower_bound; lia).
  assert (total / n ≤ total) by (apply Z.div_le_upper_bound; nia).
  rewrite (i64_id (total / n)) by (unfold in_i64, int64_min, int64_max; lia).
  split.
  - apply calc_loop_covers; unfold in_i64, int64_min, int64_max; lia.
  - assert (HF := calc_loop_sizes (Z.to_nat n) 0 0 (total / n) (total mod n) total
      ltac:(lia) ltac:(lia) Ht ltac:(lia)).
    eapply Forall_impl; [|exact HF]. intros b; simpl. destruct (Z.ltb_spec 0 (total mod n)); [|nia].
    assert (total / n < m) by nia. lia.
Qed.

Lemma number_lookup ty bs k :
  number ty bs !! k = (λ b, mkPartition (Z.of_nat k) ty b.1 b.2) <$> bs !! k.
Proof. unfold number. by rewrite list_lookup_imap. Qed.

(** ** Properties *)

(** C31: [CalculatePartitions] splits [0..totalRecords-1] exactly: every
    offset belongs to exactly one partition (numbered by its position, with
    printed bounds), and no partition holds more than [maxPartitionSize]
    records. *)
Theorem CalculatePartitions_exact total max z :
  0 ≤ z < total → in_i64 total → in_i64 max →
  ∃ k s e, CalculatePartitions total max !! k =
      Some (mkPartition (Z.of_nat k) "offset_range" (pretty s) (pretty e)) ∧
    s ≤ z ≤ e ∧ e - s + 1 ≤ Z.max 1 max ∧
    ∀ k' s' e', CalculatePartitions total max !! k' =
      Some (mkPartition (Z.of_nat k') "offset_range" (pretty s') (pretty e')) →
      s' ≤ z ≤ e' → k' = k.
Proof.
  intros Hz Ht Hm. destruct (calc_bounds_covers total max) as [Hc HF]; [lia|done..|].
  destruct (covers_unique _ _ _ z Hc) as (k & [s e] & Hk & Hin & Hu); [lia|].
  unfold CalculatePartitions, print_bounds. exists k, s, e.
  rewrite number_lookup, list_lookup_fmap, Hk. simpl. split_and!; try done.
  - apply Hin.
  - apply Hin.
  - rewrite Forall_lookup in HF. apply HF in Hk. simpl in Hk. lia.
  - intros k' s' e'. rewrite number_lookup, list_lookup_fmap.
    destruct (calc_bounds total max !! k') as [[s0 e0]|] eqn:Hk'; simpl; [|done].
    intros [= Hs He]. apply (inj pretty) in Hs, He. subst. apply (Hu k' _ Hk').
Qed.

Theorem CalculatePartitions_exact_witness :
  ∃ k s e, CalculatePartitions 10 3 !! k =
      Some (mkPartition (Z.of_nat k) "offset_range" (pretty s) (pretty e)) ∧
    s ≤ 7 ≤ e ∧ e - s + 1 ≤ 3 ∧
    ∀ k' s' e', CalculatePartitions 10 3 !! k' =
      Some (mkPartition (Z.of_nat k') "offset_range" (pretty s') (pretty e')) →
      s' ≤ 7 ≤ e' → k' = k.
Proof.
  apply (CalculatePartitions_exact 10 3 7); unfold in_i64, int64_min, int64_max; lia.
Defined.

(** For an id range below the largest [int64] whose size fits in 64 bits,
    every id of [MinID..MaxID] lies in exactly one of the partitions returned
    by [IDRangePartitioner.Partition], whatever the requested sizes. *)
Theorem IDRange_Partition_exact p total max z :
  int64_min ≤ MinID p → MaxID p < int64_max → MaxID p - MinID p + 1 ≤ int64_max →
  0 ≤ total → in_i64 total → in_i64 max →
  MinID p ≤ z ≤ MaxID p →
  ∃ k s e, IDRange_Partition p total max !! k =
      Some (mkPartition (Z.of_nat k) "id_range" (pretty s) (pretty e)) ∧
    s ≤ z ≤ e ∧ MinID p ≤ s ∧ e ≤ MaxID p ∧
    ∀ k' s' e', IDRange_Partition p total max !! k' =
      Some (mkPartition (Z.of_nat k') "id_range" (pretty s') (pretty e')) →
      s' ≤ z ≤ e' → k' = k.
Proof.
  intros Hmin Hmax Hrange H0 Ht Hm Hz.
  assert (Hc : covers (MinID p) (MaxID p) (id_bounds p total max)).
  { destruct (num_partitions_spec total max H0 Ht Hm) as (Hn & _ & _ & Hin).
    unfold id_bounds. set (n := num_partitions total max) in *. clearbody n.
    unfold in_i64, int64_min, int64_max in *.
    set (range := MaxID p - MinID p + 1) in *.
    assert (MaxID p -ᵢ MinID p +ᵢ 1 = range) as -> by (nowrap; subst range; lia).
    rewrite Z.quot_div_nonneg by lia.
    pose proof (Z.mul_div_le range n ltac:(lia)) as Hmul.
    pose proof (Z.div_pos range n ltac:(lia) ltac:(lia)) as Hpos.
    assert (range / n ≤ range) by (apply Z.div_le_upper_bound; nia).
    rewrite i64_id by (unfold in_i64, int64_min, int64_max; lia).
    eapply (id_loop_covers _ _ _ _ _ _ (MinID p)); unfold int64_min, int64_max; try lia;
      destruct (Z.ltb_spec (range / n) 1); nia. }
  destruct (covers_unique _ _ _ z Hc Hz) as (k & [s e] & Hk & Hin & Hu).
  unfold IDRange_Partition, print_bounds. exists k, s, e.
  rewrite number_lookup, list_lookup_fmap, Hk. simpl.
  pose proof (covers_lookup _ _ _ _ _ Hc Hk) as Hl. simpl in *.
  split_and!; try done; try lia.
  intros k' s' e'. rewrite number_lookup, list_lookup_fmap.
  destruct (id_bounds p total max !! k') as [[s0 e0]|] eqn:Hk'; simpl; [|done].
  intros [= Hs He]. apply (inj pretty) in Hs, He. subst. apply (Hu k' _ Hk').
Qed.

Theorem IDRange_Partition_exact_witness :
  ∃ k s e, IDRange_Partition (mkIDRange (-3) 8) 100 30 !! k =
      Some (mkPartition (Z.of_nat k) "id_range" (pretty s) (pretty e)) ∧
    s ≤ 5 ≤ e ∧ -3 ≤ s ∧ e ≤ 8 ∧
    ∀ k' s' e', IDRange_Partition (mkIDRange (-3) 8) 100 30 !! k' =
      Some (mkPartition (Z.of_nat k') "id_range" (pretty s') (pretty e')) →
      s' ≤ 5 ≤ e' → k' = k.
Proof.
  apply (IDRange_Partition_exact (mkIDRange (-3) 8) 100 30 5);
    unfold in_i64, int64_min, int64_max; simpl; lia.
Defined.

(** For [Start <= End], [TimeRangePartitioner.Partition] returns the
    requested number of partitions, their printed bounds follow each other
    without gap or overlap, start at [Start] and end at [End]. *)
Theorem TimeRange_Partition_tiles time_format p total max :
  tr_Start p ≤ tr_End p → 0 ≤ total → in_i64 total → in_i64 max →
  ∃ bs, tiles (tr_Start p) (tr_End p) bs ∧
    Z.of_nat (length bs) = num_partitions total max ∧
    ∀ k, TimeRange_Partition time_format p total max !! k =
      (λ b, mkPartition (Z.of_nat k) "time_range"
        (time_format (if decide (TimeFormat p = "") then RFC3339 else TimeFormat p) b.1)
        (time_format (if decide (TimeFormat p = "") then RFC3339 else TimeFormat p) b.2))
      <$> bs !! k.
Proof.
  intros Hse H0 Ht Hm. exists (time_bounds p total max).
  destruct (num_partitions_spec total max H0 Ht Hm) as (Hn & _ & _ & Hin).
  split_and!.
  - unfold time_bounds. apply time_loop_tiles; [lia..| |done].
    destruct (Z.leb_spec (duration_clamp (tr_End p - tr_Start p) /ᵢ num_partitions total max) 0);
      [done|lia].
  - unfold time_bounds. rewrite time_loop_length. lia.
  - intros k. unfold TimeRange_Partition. rewrite number_lookup, list_lookup_fmap.
    by destruct (time_bounds p total max !! k).
Qed.

Theorem TimeRange_Partition_tiles_witness :
  ∃ bs, tiles 0 10 bs ∧ Z.of_nat (length bs) = 4 ∧
    ∀ k, TimeRange_Partition (λ _ t, pretty t) (mkTimeRange 0 10 "") 20 6 !! k =
      (λ b, mkPartition (Z.of_nat k) "time_range" (pretty b.1) (pretty b.2)) <$> bs !! k.
Proof.
  apply (TimeRange_Partition_tiles (λ _ t, pretty t) (mkTimeRange 0 10 "") 20 6);
    unfold in_i64, int64_min, int64_max; simpl; lia.
Defined.
