(* ===== verification/Rbac.v ===== *)
(** * Access control: [internal/security/rbac/rbac.go] and [policy.go]

    [RBACService] decides from a principal's scopes and from the roles a
    [RoleStore] records for it.  The store is an interface: the service is
    verified against the class [RoleStoreSpec], and the in-memory store of the
    program is an instance that discharges the laws. *)

From Stdlib Require Import Ascii.
From S2P Require Import Prelude GoStrings Errors.

(** ** Data *)

Record Permission := mkPermission { perm_Resource : string; perm_Actions : list string }.
Record Role := mkRole {
  role_Name : string; role_Description : string; role_Permissions : list Permission
}.
Record RoleAssignment := mkAssignment {
  PrincipalID : string; ra_TenantID : string; RoleName : string
}.

#[global] Instance RoleAssignment_eq_dec : EqDecision RoleAssignment.
Proof. solve_decision. Defined.

Inductive PrincipalType := PrincipalAPIKey | PrincipalJWT | PrincipalService.
Record Principal := mkPrincipal {
  pr_ID : string; pr_TenantID : string; pr_UserID : string;
  pr_Scopes : list string; pr_Type : PrincipalType
}.

(** [HasPermission] of a role: some permission on the resource (or on every
    resource) lists the action (or every action). *)
Definition HasPermission (r : Role) (resource action : string) : bool :=
  existsb (λ perm,
    (bool_decide (perm_Resource perm = resource) || bool_decide (perm_Resource perm = "*")) &&
    existsb (λ a, bool_decide (a = action) || bool_decide (a = "*")) (perm_Actions perm))
    (role_Permissions r).

(** ** The store interface *)

Class RoleStore (St : Type) := {
  GetRoleAssignments : St → string → string → res (list RoleAssignment);
  store_AssignRole : St → RoleAssignment → option error * St;
  store_RevokeRole : St → string → string → string → option error * St
}.

(** What the service relies on: [held st a] says that the store records the assignment [a].  Every call may
    fail; one that succeeds answers with what is recorded or does what it says, and one that fails does nothing. *)
Class RoleStoreSpec (St : Type) `{RoleStore St} := {
  held : St → RoleAssignment → Prop;
  get_spec : ∀ st p t l, GetRoleAssignments st p t = Ok l →
    ∀ a, a ∈ l ↔ held st a ∧ PrincipalID a = p ∧ ra_TenantID a = t;
  assign_spec : ∀ st a b,
    held (store_AssignRole st a).2 b ↔ held st b ∨ (store_AssignRole st a).1 = None ∧ b = a;
  revoke_spec : ∀ st p t r b,
    held (store_RevokeRole st p t r).2 b ↔ held st b ∧ ((store_RevokeRole st p t r).1 = None → b ≠ mkAssignment p t r)
}.

(** ** The in-memory store *)

Record InMemoryRoleStore := mkInMemory { assignments : list RoleAssignment }.

Definition mem_Get (s : InMemoryRoleStore) (p t : string) : res (list RoleAssignment) :=
  Ok (filter (λ a, PrincipalID a = p ∧ ra_TenantID a = t) (assignments s)).

Definition mem_Assign (s : InMemoryRoleStore) (a : RoleAssignment) : option error * InMemoryRoleStore :=
  if decide (Exists (λ b, PrincipalID b = PrincipalID a ∧ ra_TenantID b = ra_TenantID a ∧
                          RoleName b = RoleName a) (assignments s))
  then (None, s)
  else (None, mkInMemory (assignments s ++ [a])).

(** The filtering loop of [RevokeRole]: the kept assignments and whether one was dropped. *)
Definition mem_Revoke (s : InMemoryRoleStore) (p t r : string) : option error * InMemoryRoleStore :=
  let '(filtered, found) :=
    foldl (λ st a, if decide (PrincipalID a = p ∧ ra_TenantID a = t ∧ RoleName a = r)
                   then (st.1, true) else (st.1 ++ [a], st.2))
          ([], false) (assignments s) in
  (if found : bool then None else Some (ErrSentinel ErrNotFound), mkInMemory filtered).

#[export] Instance InMemory_store : RoleStore InMemoryRoleStore := {
  GetRoleAssignments := mem_Get;
  store_AssignRole := mem_Assign;
  store_RevokeRole := mem_Revoke
}.

Lemma assignment_eta a p t r :
  PrincipalID a = p ∧ ra_TenantID a = t ∧ RoleName a = r ↔ a = mkAssignment p t r.
Proof. destruct a; simpl. naive_solver. Qed.

Lemma revoke_fold p t r l acc b :
  foldl (λ st a, if decide (PrincipalID a = p ∧ ra_TenantID a = t ∧ RoleName a = r)
                 then (st.1, true) else (st.1 ++ [a], st.2)) (acc, b) l =
  (acc ++ filter (λ a, a ≠ mkAssignment p t r) l, b || bool_decide (mkAssignment p t r ∈ l)).
Proof.
  revert acc b. induction l as [|a l IH]; intros acc b; simpl.
  { by rewrite app_nil_r, orb_false_r. }
  rewrite filter_cons. pose proof (assignment_eta a p t r) as Ha.
  destruct (decide (PrincipalID a = p ∧ _)) as [Heq|Hne]; simpl; rewrite IH.
  - apply Ha in Heq as ->. rewrite decide_False by naive_solver.
    simpl. f_equal. symmetry.
    rewrite bool_decide_eq_true_2 by set_solver. by rewrite orb_true_r.
  - rewrite decide_True by tauto. rewrite <- app_assoc. simpl. f_equal. f_equal.
    apply bool_decide_ext. rewrite elem_of_cons. split; [by right|].
    intros [<-|?]; [|done]. by destruct Hne; apply Ha.
Qed.

Lemma mem_Revoke_eq s p t r :
  mem_Revoke s p t r =
  (if bool_decide (mkAssignment p t r ∈ assignments s) then None
   else Some (ErrSentinel ErrNotFound),
   mkInMemory (filter (λ a, a ≠ mkAssignment p t r) (assignments s))).
Proof. unfold mem_Revoke. by rewrite revoke_fold. Qed.

Lemma mem_Assign_eq s a :
  mem_Assign s a =
  (None, if decide (a ∈ assignments s) then s else mkInMemory (assignments s ++ [a])).
Proof.
  unfold mem_Assign. assert (∀ b, PrincipalID b = PrincipalID a ∧ ra_TenantID b = ra_TenantID a ∧
    RoleName b = RoleName a ↔ b = a) as Hiff.
  { intros b. rewrite assignment_eta. by destruct a. }
  destruct (decide (Exists _ _)) as [Hex|Hnex], (decide (a ∈ assignments s)) as [Hin|Hin]; try done.
  - apply Exists_exists in Hex as (b & Hb%list_elem_of_In & ->%Hiff). done.
  - destruct Hnex. apply Exists_exists. exists a. by rewrite Hiff, <- list_elem_of_In.
Qed.

#[export] Program Instance InMemory_spec : RoleStoreSpec InMemoryRoleStore := {
  held := λ st a, a ∈ assignments st
}.
Next Obligation.
  intros st p t l [= <-] a. rewrite list_elem_of_filter. tauto.
Qed.
Next Obligation.
  intros st a b. simpl. rewrite mem_Assign_eq. simpl. case_decide; simpl; set_solver.
Qed.
Next Obligation.
  intros st p t r b. simpl. rewrite mem_Revoke_eq. simpl. rewrite list_elem_of_filter.
  case_bool_decide as Hin; [naive_solver|]. split; [tauto|]. intros [Hb _]. split; [|done]. by intros ->.
Qed.

(** ** The service *)

(** One scope of [checkScopes]. *)
Definition scope_grants (resource action scope : string) : bool :=
  bool_decide (scope = "*") || bool_decide (scope = resource +:+ ":" +:+ action) ||
  match SplitN2 scope ":"%char with
  | [p0; p1] =>
      (bool_decide (p0 = resource) && bool_decide (p1 = "*")) ||
      (bool_decide (p0 = "*") && bool_decide (p1 = action))
  | _ => false
  end.

Definition checkScopes (p : Principal) (resource action : string) : bool :=
  existsb (scope_grants resource action) (pr_Scopes p).

Section service.
Context {St : Type} `{HS : RoleStoreSpec St}.

Record RBACService := mkService { svc_roles : gmap string Role; roleStore : option St }.

(** [CheckPermission]: [Ok None] is Go's [nil] error.  [ctxTenant] is the tenant
    of the request context, empty when there is none; a panic of the store goes through. *)
Definition CheckPermission (s : RBACService) (ctxTenant : string)
    (principal : option Principal) (resource action : string) : res (option error) :=
  match principal with
  | None => Ok (Some (ErrWrapf "no principal provided" (ErrSentinel ErrUnauthorized)))
  | Some p =>
      if negb (bool_decide (ctxTenant = "")) && negb (bool_decide (pr_TenantID p = ctxTenant))
      then Ok (Some (ErrWrapf "tenant mismatch" (ErrSentinel ErrForbidden)))
      else if checkScopes p resource action then Ok None
      else
        let denied := Ok (Some (ErrWrapf ("principal " +:+ pr_ID p +:+ " lacks " +:+ action +:+
                       " permission on " +:+ resource) (ErrSentinel ErrForbidden))) in
        match roleStore s with
        | None => denied
        | Some st =>
            match GetRoleAssignments st (pr_ID p) (pr_TenantID p) with
            | Err e => Ok (Some (ErrWrapf "fetching role assignments" e))
            | Panic m => Panic m
            | Ok l =>
                if existsb (λ a, match svc_roles s !! RoleName a with
                                 | Some role => HasPermission role resource action
                                 | None => false
                                 end) l
                then Ok None else denied
            end
        end
  end.

(** [AssignRole] and [RevokeRole] dereference the store, so a missing store panics. *)
Definition AssignRole (s : RBACService) (p t r : string) : outcome string (option error * RBACService) :=
  match svc_roles s !! r with
  | None => Ok (Some (ErrWrapf ("unknown role " +:+ quote r) (ErrSentinel ErrNotFound)), s)
  | Some _ =>
      match roleStore s with
      | None => Panic "nil role store"
      | Some st => let '(e, st) := store_AssignRole st (mkAssignment p t r) in
                   Ok (e, mkService (svc_roles s) (Some st))
      end
  end.

Definition RevokeRole (s : RBACService) (p t r : string) : outcome string (option error * RBACService) :=
  match roleStore s with
  | None => Panic "nil role store"
  | Some st => let '(e, st) := store_RevokeRole st p t r in
               Ok (e, mkService (svc_roles s) (Some st))
  end.

Definition ListRoles (s : RBACService) : list Role := (map_to_list (svc_roles s)).*2.

(** Whether some role recorded for the principal in its tenant grants the action. *)
Definition role_grants (s : RBACService) (p : Principal) (resource action : string) : Prop :=
  ∃ st r role, roleStore s = Some st ∧ held st (mkAssignment (pr_ID p) (pr_TenantID p) r) ∧
    svc_roles s !! r = Some role ∧ HasPermission role resource action = true.

Lemma roles_existsb s st p l resource action :
  roleStore s = Some st →
  GetRoleAssignments st (pr_ID p) (pr_TenantID p) = Ok l →
  existsb (λ a, match svc_roles s !! RoleName a with
                | Some role => HasPermission role resource action
                | None => false
                end) l = true ↔ role_grants s p resource action.
Proof.
  intros Hst Hget. pose proof (get_spec st (pr_ID p) (pr_TenantID p) l Hget) as Hl.
  rewrite existsb_exists. unfold role_grants. split.
  - intros (a & Hin%list_elem_of_In & Hrole). destruct (svc_roles s !! RoleName a) eqn:Hr; [|done].
    apply Hl in Hin as (Hheld & Hp & Ht). exists st, (RoleName a), r. split_and!; try done.
    rewrite <- Hp, <- Ht. by destruct a.
  - intros (st' & r & role & Hst' & Hheld & Hr & Hperm). simplify_eq.
    exists (mkAssignment (pr_ID p) (pr_TenantID p) r). simpl. rewrite Hr. split; [|done].
    apply list_elem_of_In, Hl. done.
Qed.

(** What the store answers about the roles of a principal in its tenant; without a store there are none. *)
Definition store_answer (s : RBACService) (p : Principal) : res (list RoleAssignment) :=
  match roleStore s with Some st => GetRoleAssignments st (pr_ID p) (pr_TenantID p) | None => Ok [] end.

Definition forbids (r : res (option error)) : Prop := ∃ m, r = Ok (Some (ErrWrapf m (ErrSentinel ErrForbidden))).

(** After the tenant and the scopes the answer of the store decides. *)
Lemma CheckPermission_roles s t p resource action :
  t = "" ∨ pr_TenantID p = t → checkScopes p resource action = false →
  match store_answer s p with
  | Ok _ => role_grants s p resource action ∧ CheckPermission s t (Some p) resource action = Ok None ∨
            ¬ role_grants s p resource action ∧ forbids (CheckPermission s t (Some p) resource action)
  | Err e => CheckPermission s t (Some p) resource action = Ok (Some (ErrWrapf "fetching role assignments" e))
  | Panic m => CheckPermission s t (Some p) resource action = Panic m
  end.
Proof.
  intros Ht Hs. unfold CheckPermission, store_answer, forbids. rewrite Hs.
  assert (negb (bool_decide (t = "")) && negb (bool_decide (pr_TenantID p = t)) = false) as ->
    by (repeat case_bool_decide; simpl; tauto).
  destruct (roleStore s) as [st|] eqn:Hst.
  - destruct (GetRoleAssignments st (pr_ID p) (pr_TenantID p)) as [l|e|m] eqn:Hget; [|done..].
    pose proof (roles_existsb s st p l resource action Hst Hget) as Hiff.
    destruct (existsb _ l); [left; tauto|right]. split; [|by eexists]. intros Hg%Hiff. done.
  - right. split; [|by eexists]. intros (st & ? & ? & ? & _). congruence.
Qed.

Lemma CheckPermission_scopes s t p resource action :
  t = "" ∨ pr_TenantID p = t → checkScopes p resource action = true →
  CheckPermission s t (Some p) resource action = Ok None.
Proof.
  intros Ht Hs. unfold CheckPermission. rewrite Hs.
  by assert (negb (bool_decide (t = "")) && negb (bool_decide (pr_TenantID p = t)) = false) as ->
    by (repeat case_bool_decide; simpl; tauto).
Qed.

Lemma CheckPermission_tenant s t p resource action :
  ¬ (t = "" ∨ pr_TenantID p = t) → forbids (CheckPermission s t (Some p) resource action).
Proof.
  intros Ht. unfold CheckPermission, forbids.
  assert (negb (bool_decide (t = "")) && negb (bool_decide (pr_TenantID p = t)) = true) as ->
    by (repeat case_bool_decide; simpl; tauto). by eexists.
Qed.

(** ** Properties *)

(** C30: [CheckPermission] grants exactly when the request's tenant (if any) is
    the principal's own and either a scope grants the action, or the store answers and a role recorded for the
    principal in that tenant does.  Every refusal of a known principal is a forbidden error, except that when the
    store fails, where it is asked, its error is passed on, wrapped; the only panics are those of the store, and
    no principal is unauthorized. *)
Theorem CheckPermission_iff s t p resource action :
  let allowed := t = "" ∨ pr_TenantID p = t in
  (CheckPermission s t (Some p) resource action = Ok None ↔
     allowed ∧ (checkScopes p resource action = true ∨ is_ok (store_answer s p) = true ∧ role_grants s p resource action)) ∧
  (∀ e, CheckPermission s t (Some p) resource action = Ok (Some e) →
     errors_Is e ErrForbidden = true ∨
     ∃ e0, store_answer s p = Err e0 ∧ e = ErrWrapf "fetching role assignments" e0) ∧
  (∀ e, allowed → checkScopes p resource action = false → store_answer s p = Err e →
     CheckPermission s t (Some p) resource action = Ok (Some (ErrWrapf "fetching role assignments" e))) ∧
  (∀ m, CheckPermission s t (Some p) resource action = Panic m → store_answer s p = Panic m) ∧
  (∃ e, CheckPermission s t None resource action = Ok (Some e) ∧ errors_Is e ErrUnauthorized = true).
Proof.
  intros allowed. assert (Hdec : Decision allowed) by apply _. destruct Hdec as [Ha|Hna].
  2:{ destruct (CheckPermission_tenant s t p resource action Hna) as [m ->].
      split_and!; [naive_solver|by intros e [= <-]; left|naive_solver|naive_solver|by eexists]. }
  destruct (checkScopes p resource action) eqn:Hs.
  { rewrite (CheckPermission_scopes s t p resource action Ha Hs).
    split_and!; [naive_solver|naive_solver|naive_solver|naive_solver|by eexists]. }
  pose proof (CheckPermission_roles s t p resource action Ha Hs) as Hr.
  destruct (store_answer s p) as [l|e|m]; cbn [is_ok].
  - destruct Hr as [[Hg ->]|[Hg [m ->]]];
      (split_and!; [naive_solver|by intros e [= <-]; left|naive_solver|naive_solver|by eexists]).
  - rewrite Hr. split_and!; [naive_solver|intros e' [= <-]; right; by exists e|naive_solver|naive_solver|by eexists].
  - rewrite Hr. split_and!; [naive_solver|naive_solver|naive_solver|naive_solver|by eexists].
Qed.

(** After a successful [AssignRole] of a known role the principal has exactly the
    rights it had before plus that role's, in that tenant only; after a successful
    [RevokeRole] a right that only the revoked role gave is gone, and other
    principals and tenants are unaffected; when they fail nobody's rights change. *)
Theorem AssignRole_RevokeRole_effect s st pid t r role :
  svc_roles s !! r = Some role → roleStore s = Some st →
  (∃ e s1, AssignRole s pid t r = Ok (e, s1) ∧
    ∀ p resource action, role_grants s1 p resource action ↔
      role_grants s p resource action ∨
      (e = None ∧ pr_ID p = pid ∧ pr_TenantID p = t ∧ HasPermission role resource action = true)) ∧
  (∃ e s2, RevokeRole s pid t r = Ok (e, s2) ∧
    ∀ p resource action, role_grants s2 p resource action ↔
      ∃ r' role', (e = None → pr_ID p = pid → pr_TenantID p = t → r' ≠ r) ∧
        held st (mkAssignment (pr_ID p) (pr_TenantID p) r') ∧
        svc_roles s !! r' = Some role' ∧ HasPermission role' resource action = true).
Proof.
  intros Hr Hst. unfold AssignRole, RevokeRole, role_grants. rewrite Hr, Hst. split.
  - pose proof (assign_spec st (mkAssignment pid t r)) as Hheld.
    destruct (store_AssignRole st (mkAssignment pid t r)) as [e st1]. simpl in *.
    eexists _, _. split; [done|]. intros p resource action. simpl. split.
    + intros (st' & r' & role' & [= <-] & Hh & Hr' & Hp). apply Hheld in Hh as [Hh|[-> [= <- <- <-]]].
      * left. eauto 10.
      * right. naive_solver.
    + intros [(st' & r' & role' & [= <-] & Hh & Hr' & Hp)|(-> & <- & <- & Hp)].
      * exists st1, r', role'. rewrite Hheld. eauto.
      * exists st1, r, role. rewrite Hheld. split_and!; [done|by right|done|done].
  - pose proof (revoke_spec st pid t r) as Hheld.
    destruct (store_RevokeRole st pid t r) as [e st1]. simpl in *.
    eexists _, _. split; [done|]. intros p resource action. simpl. split.
    + intros (st' & r' & role' & [= <-] & Hh & Hr' & Hp). apply Hheld in Hh as [Hh Hne].
      exists r', role'. split_and!; try done. intros He <- <- ->. by apply Hne.
    + intros (r' & role' & Hne & Hh & Hr' & Hp). exists st1, r', role'. rewrite Hheld.
      split_and!; try done. intros He [= H1 H2 H3]. by apply Hne.
Qed.
End service.

(** ** Built-in policies ([policy.go]) *)

Definition ResourceConnector := "connector".
Definition ResourceConnection := "connection".
Definition ResourceSync := "sync".
Definition ResourceTenant := "tenant".
Definition ResourceSchema := "schema".
Definition ResourceMCPServer := "mcp_server".
Definition ResourceAuditLog := "audit_log".

Definition ActionCreate := "create".
Definition ActionRead := "read".
Definition ActionUpdate := "update".
Definition ActionDelete := "delete".
Definition ActionExecute := "execute".
Definition ActionManage := "manage".

Definition allActions : list string :=
  [ActionCreate; ActionRead; ActionUpdate; ActionDelete; ActionExecute; ActionManage].
Definition readOnly : list string := [ActionRead].
Definition crudActions : list string := [ActionCreate; ActionRead; ActionUpdate; ActionDelete].

Definition adminRole : Role :=
  mkRole "admin" "Full administrative access to all resources and actions"
    [mkPermission "*" ["*"]].

Definition editorRole : Role :=
  mkRole "editor" "Create, read, update, and delete connectors, connections, syncs, schemas, and MCP servers"
    [mkPermission ResourceConnector crudActions;
     mkPermission ResourceConnection crudActions;
     mkPermission ResourceSync (crudActions ++ [ActionExecute]);
     mkPermission ResourceSchema crudActions;
     mkPermission ResourceMCPServer crudActions].

Definition viewerRole : Role :=
  mkRole "viewer" "Read-only access to all resources"
    [mkPermission ResourceConnector readOnly;
     mkPermission ResourceConnection readOnly;
     mkPermission ResourceSync readOnly;
     mkPermission ResourceTenant readOnly;
     mkPermission ResourceSchema readOnly;
     mkPermission ResourceMCPServer readOnly;
     mkPermission ResourceAuditLog readOnly].

Definition connectorManagerRole : Role :=
  mkRole "connector_manager" "Manage connectors and connections with full lifecycle control"
    [mkPermission ResourceConnector allActions;
     mkPermission ResourceConnection allActions;
     mkPermission ResourceSchema readOnly].

Definition syncOperatorRole : Role :=
  mkRole "sync_operator" "Manage and execute syncs, view connectors and connections"
    [mkPermission ResourceSync allActions;
     mkPermission ResourceConnector readOnly;
     mkPermission ResourceConnection readOnly;
     mkPermission ResourceSchema readOnly].

Definition DefaultPolicies : gmap string Role :=
  list_to_map [("admin", adminRole); ("editor", editorRole); ("viewer", viewerRole);
               ("connector_manager", connectorManagerRole); ("sync_operator", syncOperatorRole)].

(** [HasPermission] as a statement about the role's permission list. *)
Lemma HasPermission_spec role resource action :
  HasPermission role resource action = true ↔
  ∃ perm a, perm ∈ role_Permissions role ∧ a ∈ perm_Actions perm ∧
    (perm_Resource perm = resource ∨ perm_Resource perm = "*") ∧ (a = action ∨ a = "*").
Proof.
  unfold HasPermission. rewrite existsb_exists. split.
  - intros (perm & Hin%list_elem_of_In & [Hr Ha]%andb_prop).
    apply existsb_exists in Ha as (a & Ha%list_elem_of_In & Haa).
    rewrite orb_true_iff, !bool_decide_eq_true in Hr, Haa. eauto 10.
  - intros (perm & a & Hin & Ha & Hr & Haa). exists perm. rewrite <- list_elem_of_In.
    split; [done|]. apply andb_true_intro. split.
    + by rewrite orb_true_iff, !bool_decide_eq_true.
    + apply existsb_exists. exists a. rewrite <- list_elem_of_In, orb_true_iff, !bool_decide_eq_true.
      done.
Qed.

Ltac role_cases :=
  repeat match goal with
  | H : context [role_Permissions _] |- _ => progress simpl in H
  | H : _ ∈ readOnly |- _ => unfold readOnly in H
  | H : _ ∈ crudActions |- _ => unfold crudActions in H
  | H : _ ∈ allActions |- _ => unfold allActions in H
  | H : _ ∈ [] |- _ => by apply not_elem_of_nil in H
  | H : _ ∈ _ :: _ |- _ => apply elem_of_cons in H as [->|H]; simpl in *
  end.

(** What the built-in roles grant.  The admin role grants everything; the
    viewer role grants only reads, of named resources; no editor, connector
    manager or sync operator may do anything to a tenant or to the audit log,
    and only admins, connector managers and sync operators may [manage]. *)
Theorem DefaultPolicies_rights resource action :
  HasPermission adminRole resource action = true ∧
  (HasPermission viewerRole resource action = true ↔
     action = ActionRead ∧ resource ∈ [ResourceConnector; ResourceConnection; ResourceSync;
       ResourceTenant; ResourceSchema; ResourceMCPServer; ResourceAuditLog]) ∧
  (∀ role, role ∈ [editorRole; connectorManagerRole; syncOperatorRole] →
     HasPermission role ResourceTenant action = false ∧
     HasPermission role ResourceAuditLog action = false) ∧
  HasPermission editorRole resource ActionManage = false.
Proof.
  split_and!.
  - apply HasPermission_spec. exists (mkPermission "*" ["*"]), "*". simpl. set_solver.
  - rewrite HasPermission_spec. split.
    + intros (perm & a & Hin & Ha & Hr & Haa). role_cases;
        (destruct Hr as [<-|[=]], Haa as [<-|[=]]; split; [done|set_solver]).
    + intros [-> Hin]. exists (mkPermission resource readOnly), ActionRead.
      split_and!; [|set_solver|by left|by left]. set_solver.
  - intros role Hrole. split; apply not_true_iff_false; rewrite HasPermission_spec;
      intros (perm & a & Hin & Ha & [Hr|Hr] & Haa); role_cases; done.
  - apply not_true_iff_false. rewrite HasPermission_spec.
    intros (perm & a & Hin & Ha & Hr & Haa). role_cases; destruct Haa; done.
Qed.

(** Assigning a role twice records it once. *)
Lemma InMemory_no_duplicates s a :
  NoDup (assignments s) → NoDup (assignments (mem_Assign s a).2).
Proof.
  rewrite mem_Assign_eq. intros Hnd. simpl. case_decide; simpl; [done|].
  apply list.NoDup_app. split_and!; [done|set_solver|apply list.NoDup_singleton].
Qed.

(** Store operations, for sequences of them. *)
Inductive store_op := OpAssign (a : RoleAssignment) | OpRevoke (p t r : string).
Definition run_store (s : InMemoryRoleStore) (op : store_op) : InMemoryRoleStore :=
  match op with
  | OpAssign a => (mem_Assign s a).2
  | OpRevoke p t r => (mem_Revoke s p t r).2
  end.

(** On the in-memory store, every sequence of assignments and revocations
    keeps the assignment list free of duplicates, and revoking right after
    assigning refuses exactly what it refused with the role absent. *)
Theorem store_no_duplicates ops :
  NoDup (assignments (foldl run_store (mkInMemory []) ops)).
Proof.
  assert (H : ∀ s, NoDup (assignments s) → NoDup (assignments (foldl run_store s ops))).
  { induction ops as [|op ops IH]; intros s Hs; simpl; [done|]. apply IH. destruct op; simpl.
    - by apply InMemory_no_duplicates.
    - rewrite mem_Revoke_eq. simpl. by apply list.NoDup_filter. }
  apply H. constructor.
Qed.

Definition sample_service : RBACService :=
  mkService DefaultPolicies (Some (mkInMemory [mkAssignment "bob" "t1" "viewer"])).

Theorem AssignRole_RevokeRole_effect_witness :
  (∃ e s1, AssignRole sample_service "bob" "t1" "editor" = Ok (e, s1) ∧
    ∀ p resource action, role_grants s1 p resource action ↔
      role_grants sample_service p resource action ∨
      (e = None ∧ pr_ID p = "bob" ∧ pr_TenantID p = "t1" ∧ HasPermission editorRole resource action = true)) ∧
  (∃ e s2, RevokeRole sample_service "bob" "t1" "editor" = Ok (e, s2) ∧
    ∀ p resource action, role_grants s2 p resource action ↔
      ∃ r' role', (e = None → pr_ID p = "bob" → pr_TenantID p = "t1" → r' ≠ "editor") ∧
        held (mkInMemory [mkAssignment "bob" "t1" "viewer"])
          (mkAssignment (pr_ID p) (pr_TenantID p) r') ∧
        svc_roles sample_service !! r' = Some role' ∧ HasPermission role' resource action = true).
Proof.
  apply (AssignRole_RevokeRole_effect sample_service
           (mkInMemory [mkAssignment "bob" "t1" "viewer"]) "bob" "t1" "editor" editorRole).
  - vm_compute. reflexivity.
  - reflexivity.
Defined.

(** A store that is out of order. *)
Record BrokenStore := mkBroken {}.
#[export] Instance Broken_store : RoleStore BrokenStore := {
  GetRoleAssignments _ _ _ := Err (ErrText "connection refused");
  store_AssignRole st _ := (Some (ErrText "connection refused"), st);
  store_RevokeRole st _ _ _ := (Some (ErrText "connection refused"), st)
}.
#[export] Program Instance Broken_spec : RoleStoreSpec BrokenStore := { held _ _ := False }.
Solve All Obligations with (simpl; intros; naive_solver).

Definition bob (scopes : list string) : Principal := mkPrincipal "bob" "t1" "u" scopes PrincipalJWT.

(** A viewer may read syncs; when the store is out of order only scopes help, and its error is passed on. *)
Lemma CheckPermission_iff_witness :
  CheckPermission sample_service "t1" (Some (bob [])) "sync" "read" = Ok None ∧
  let broken := mkService DefaultPolicies (Some mkBroken) in
  CheckPermission broken "t1" (Some (bob ["sync:read"])) "sync" "read" = Ok None ∧
  CheckPermission broken "t1" (Some (bob [])) "sync" "read" =
    Ok (Some (ErrWrapf "fetching role assignments" (ErrText "connection refused"))).
Proof.
  split; [|split].
  - apply (CheckPermission_iff sample_service "t1" (bob []) "sync" "read"). split; [by right|right]. split; [done|].
    exists (mkInMemory [mkAssignment "bob" "t1" "viewer"]), "viewer", viewerRole.
    split_and!; [done|apply list_elem_of_here|vm_compute; reflexivity|vm_compute; reflexivity].
  - apply (CheckPermission_iff (mkService DefaultPolicies (Some mkBroken)) "t1" (bob ["sync:read"]) "sync" "read").
    split; [by right|left]. vm_compute. reflexivity.
  - apply (CheckPermission_iff (mkService DefaultPolicies (Some mkBroken)) "t1" (bob []) "sync" "read");
      [by right|vm_compute; reflexivity|reflexivity].
Defined.
