(* ===== verification/Batcher.v ===== *)
(** * Record batching: [internal/worker/load/batcher.go]

    Every method takes the mutex for one critical section, releases it, and
    only then calls the flush function; the background timer runs
    [timerFlush] in its own goroutine.  The critical sections are functions on
    the [Batcher]; [step] interleaves them with the flush calls still in
    flight, for any number of callers. *)

From S2P Require Import Prelude GoStrings Errors.

Section batcher.
Context {Rec : Type}.

Record Batcher := mkBatcher {
  maxSize : Z;
  flushInterval : Z;
  buffer : list Rec;
  closed : bool;
  done_closed : bool;      (** whether the [done] channel has been closed *)
  timerArmed : bool;       (** whether the timer will fire *)
  lastErr : option error
}.

Definition NewBatcher (maxSize flushInterval : Z) : Batcher :=
  mkBatcher (if maxSize <=? 0 then 1000 else maxSize)
            (if flushInterval <=? 0 then 5 * 1000000000 else flushInterval)
            [] false false true None.

Definition resetTimerLocked (b : Batcher) : Batcher :=
  mkBatcher (maxSize b) (flushInterval b) (buffer b) (closed b) (done_closed b) true (lastErr b).

Definition drainLocked (b : Batcher) : list Rec * Batcher :=
  (buffer b,
   resetTimerLocked (mkBatcher (maxSize b) (flushInterval b) [] (closed b) (done_closed b)
                               (timerArmed b) (lastErr b))).

(** What a method does after releasing the mutex: return, or first flush a batch. *)
Inductive continue :=
| Return (e : option error)
| FlushThenReturn (batch : list Rec).

(** [Add], up to the release of the mutex. *)
Definition Add (b : Batcher) (r : Rec) : continue * Batcher :=
  if closed b then (Return (Some (ErrText "batcher is closed")), b)
  else match lastErr b with
  | Some err =>
      (Return (Some (ErrWrapf "previous timer flush failed" err)),
       mkBatcher (maxSize b) (flushInterval b) (buffer b) (closed b) (done_closed b)
                 (timerArmed b) None)
  | None =>
      let b := mkBatcher (maxSize b) (flushInterval b) (buffer b ++ [r]) (closed b)
                 (done_closed b) (timerArmed b) (lastErr b) in
      if maxSize b <=? Z.of_nat (length (buffer b))
      then let '(batch, b) := drainLocked b in (FlushThenReturn batch, b)
      else (Return None, b)
  end.

Definition Flush (b : Batcher) : continue * Batcher :=
  match buffer b with
  | [] => (Return None, b)
  | _ => let '(batch, b) := drainLocked b in (FlushThenReturn batch, b)
  end.

(** [Close], up to the release of the mutex: [None] when already closed,
    otherwise the batch to flush after closing the [done] channel. *)
Definition Close (b : Batcher) : option (list Rec) * Batcher :=
  if closed b then (None, b)
  else
    let b := mkBatcher (maxSize b) (flushInterval b) (buffer b) true (done_closed b)
               false (lastErr b) in
    match buffer b with
    | [] => (Some [], b)
    | _ => let '(batch, b) := drainLocked b in (Some batch, b)
    end.

(** [close(b.done)]: closing a closed channel panics. *)
Definition close_done (b : Batcher) : option Batcher :=
  if done_closed b then None
  else Some (mkBatcher (maxSize b) (flushInterval b) (buffer b) (closed b) true
                       (timerArmed b) (lastErr b)).

(** First critical section of [timerFlush]: the batch to flush, if any. *)
Definition timerFlush (b : Batcher) : option (list Rec) * Batcher :=
  if closed b || bool_decide (length (buffer b) = 0%nat)
  then (None, if closed b then b else resetTimerLocked b)
  else let '(batch, b) := drainLocked b in (Some batch, b).

(** Second critical section of [timerFlush], after a failed flush. *)
Definition setLastErr (b : Batcher) (e : error) : Batcher :=
  mkBatcher (maxSize b) (flushInterval b) (buffer b) (closed b) (done_closed b)
            (timerArmed b) (Some e).

Definition Len (b : Batcher) : Z := Z.of_nat (length (buffer b)).

(** ** The concurrent system *)

(** Goroutines between two critical sections. *)
Inductive pending :=
| PFlush (timer : bool) (batch : list Rec)   (** about to call [flushFn(batch)] *)
| PTimer                                     (** timer goroutine waiting for the mutex *)
| PSetErr (e : error)                        (** timer flush failed, error not stored yet *)
| PCloseDone (batch : list Rec).             (** about to close [done], then flush *)

Record sys := mkSys {
  bat : Batcher;
  inflight : list pending;
  sink : list (list Rec * option error);   (** calls of [flushFn] with their results *)
  accepted : list Rec;                     (** records [Add] appended to the buffer *)
  panicked : bool
}.

Definition init (maxSize flushInterval : Z) : sys :=
  mkSys (NewBatcher maxSize flushInterval) [] [] [] false.

Definition cont_pending (c : continue) : list pending :=
  match c with Return _ => [] | FlushThenReturn batch => [PFlush false batch] end.

(** [Add] stores the record unless it returns an error at once. *)
Definition add_accepts (c : continue) : bool :=
  match c with Return (Some _) => false | _ => true end.

(** Goroutine [p] runs its next section; [r] is the result of [flushFn]. *)
Definition resume (b : Batcher) (p : pending) (r : option error) :
    option (Batcher * list pending * list (list Rec * option error)) :=
  match p with
  | PFlush timer batch =>
      Some (b, match timer, r with true, Some e => [PSetErr e] | _, _ => [] end, [(batch, r)])
  | PTimer => let '(o, b) := timerFlush b in
              Some (b, match o with Some batch => [PFlush true batch] | None => [] end, [])
  | PSetErr e => Some (setLastErr b e, [], [])
  | PCloseDone batch =>
      match close_done b with
      | None => None
      | Some b => Some (b, match batch with [] => [] | _ => [PFlush false batch] end, [])
      end
  end.

Definition do_add (s : sys) (r : Rec) : sys :=
  let '(c, b) := Add (bat s) r in
  mkSys b (inflight s ++ cont_pending c) (sink s)
    (if add_accepts c then accepted s ++ [r] else accepted s) (panicked s).

Definition do_flush (s : sys) : sys :=
  let '(c, b) := Flush (bat s) in
  mkSys b (inflight s ++ cont_pending c) (sink s) (accepted s) (panicked s).

Definition do_close (s : sys) : sys :=
  let '(o, b) := Close (bat s) in
  mkSys b (inflight s ++ match o with Some batch => [PCloseDone batch] | None => [] end)
    (sink s) (accepted s) (panicked s).

(** The timer expires: its goroutine starts and waits for the mutex. *)
Definition do_fire (s : sys) : sys :=
  let b := bat s in
  mkSys (mkBatcher (maxSize b) (flushInterval b) (buffer b) (closed b) (done_closed b)
           false (lastErr b))
    (inflight s ++ [PTimer]) (sink s) (accepted s) (panicked s).

(** Goroutine [p], taken out of the in-flight ones [l1 ++ p :: l2], proceeds. *)
Definition do_resume (s : sys) (l1 : list pending) (p : pending) (l2 : list pending)
    (r : option error) : sys :=
  match resume (bat s) p r with
  | Some (b, new, out) => mkSys b (l1 ++ l2 ++ new) (sink s ++ out) (accepted s) (panicked s)
  | None => mkSys (bat s) (l1 ++ l2) (sink s) (accepted s) true
  end.

Inductive step : sys → sys → Prop :=
| step_add s r : step s (do_add s r)
| step_flush s : step s (do_flush s)
| step_close s : step s (do_close s)
| step_fire s : timerArmed (bat s) = true → step s (do_fire s)
| step_resume s l1 p l2 r : inflight s = l1 ++ p :: l2 → step s (do_resume s l1 p l2 r).

Inductive reachable (m i : Z) : sys → Prop :=
| reach_init : reachable m i (init m i)
| reach_step s s' : reachable m i s → step s s' → reachable m i s'.

(** ** Invariant *)

Definition pend_recs (p : pending) : list Rec :=
  match p with
  | PFlush _ batch | PCloseDone batch => batch
  | PTimer | PSetErr _ => []
  end.
Definition recs_of (ps : list pending) : list Rec := concat (map pend_recs ps).

Definition is_closer (p : pending) : bool :=
  match p with PCloseDone _ => true | _ => false end.
Definition closers (ps : list pending) : nat := length (List.filter is_closer ps).

(** Batch sizes; only a closing goroutine may carry an empty batch. *)
Definition batch_ok (m : Z) (p : pending) : Prop :=
  match p with
  | PFlush _ batch => 0 < Z.of_nat (length batch) ≤ m
  | PCloseDone batch => Z.of_nat (length batch) ≤ m
  | _ => True
  end.

Record inv (s : sys) : Prop := {
  inv_recs : accepted s ≡ₚ concat (map fst (sink s)) ++ recs_of (inflight s) ++ buffer (bat s);
  inv_size : Z.of_nat (length (buffer (bat s))) < maxSize (bat s);
  inv_sink : Forall (λ c, 0 < Z.of_nat (length c.1) ≤ maxSize (bat s)) (sink s);
  inv_inflight : Forall (batch_ok (maxSize (bat s))) (inflight s);
  inv_timer : closed (bat s) = false → timerArmed (bat s) = true ∨ PTimer ∈ inflight s;
  inv_closed : closed (bat s) = true → buffer (bat s) = [];
  inv_done : (closers (inflight s) + (if done_closed (bat s) then 1 else 0) =
              if closed (bat s) then 1 else 0)%nat;
  inv_panic : panicked s = false
}.

Lemma recs_of_app ps qs : recs_of (ps ++ qs) = recs_of ps ++ recs_of qs.
Proof. unfold recs_of. by rewrite map_app, concat_app. Qed.
Lemma recs_of_cons p ps : recs_of (p :: ps) = pend_recs p ++ recs_of ps.
Proof. done. Qed.
Lemma closers_app ps qs : closers (ps ++ qs) = (closers ps + closers qs)%nat.
Proof. unfold closers. by rewrite List.filter_app, length_app. Qed.
Lemma closers_cons p ps :
  closers (p :: ps) = ((if is_closer p then 1 else 0) + closers ps)%nat.
Proof. unfold closers. simpl. by destruct (is_closer p). Qed.

Ltac resume_tac :=
  split_and!; try done; try lia; try naive_solver;
  try (intros; split; repeat constructor; simpl; lia).

(** The records and batches added by one goroutine's next section. *)
Lemma resume_inv b p r b' new out m :
  resume b p r = Some (b', new, out) → m = maxSize b →
  0 < m → batch_ok m p →
  maxSize b' = maxSize b ∧ closed b' = closed b ∧
  pend_recs p ++ buffer b ≡ₚ concat (map fst out) ++ recs_of new ++ buffer b' ∧
  (Z.of_nat (length (buffer b)) < m → Z.of_nat (length (buffer b')) < m) ∧
  (Z.of_nat (length (buffer b)) < m →
     Forall (λ c, 0 < Z.of_nat (length c.1) ≤ m) out ∧ Forall (batch_ok m) new) ∧
  (closed b = true → buffer b = [] → buffer b' = []) ∧
  (closed b = false → timerArmed b = true ∨ p = PTimer → timerArmed b' = true) ∧
  ((if is_closer p then 1 else 0) + (if done_closed b then 1 else 0) =
   closers new + (if done_closed b' then 1 else 0))%nat.
Proof.
  intros Hr -> Hm Hok. destruct p as [timer batch| |e|batch]; simpl in *.
  - simplify_eq. unfold recs_of, closers. destruct timer, r; simpl; rewrite ?app_nil_r; resume_tac.
  - unfold timerFlush in Hr.
    destruct (closed b) eqn:Hc; simpl in *; [|case_bool_decide as Hb; simpl in *];
      simplify_eq; unfold recs_of, closers; simpl; rewrite ?Hc, ?app_nil_r; resume_tac.
  - simplify_eq. unfold recs_of, closers; simpl. resume_tac.
  - unfold close_done in Hr. destruct (done_closed b) eqn:Hd; [done|]. simplify_eq.
    unfold recs_of, closers. destruct batch; simpl in *; rewrite ?app_nil_r; resume_tac.
Qed.

Lemma init_inv m i : inv (init m i).
Proof.
  split; simpl; try done; [|by constructor..|by left].
  unfold NewBatcher; simpl. destruct (Z.leb_spec m 0); lia.
Qed.

Lemma inv_maxSize_pos s : inv s → 0 < maxSize (bat s).
Proof. intros []. lia. Qed.

Lemma add_inv s r : inv s → inv (do_add s r).
Proof.
  intros Hinv. pose proof (inv_maxSize_pos s Hinv) as Hpos. destruct Hinv as [Hr Hs Hsk Hif Ht Hc Hd Hp].
  unfold do_add, Add. destruct (closed (bat s)) eqn:Hcl; simpl.
  { rewrite app_nil_r. by split; simpl; rewrite ?Hcl. }
  destruct (lastErr (bat s)) as [e|] eqn:Hle; simpl.
  { rewrite app_nil_r. by split; simpl; rewrite ?Hcl. }
  destruct (Z.leb_spec (maxSize (bat s)) (Z.of_nat (length (buffer (bat s) ++ [r]))));
    rewrite length_app in *; simpl in *.
  - split; simpl; rewrite ?Hcl; try done.
    + rewrite recs_of_app, recs_of_cons, app_nil_r. simpl. unfold recs_of at 2. simpl.
      rewrite app_nil_r, Hr. by rewrite <- !app_assoc.
    + apply Forall_app. split; [done|]. constructor; [|constructor]. simpl.
      rewrite length_app. simpl. lia.
    + by left.
    + rewrite closers_app, closers_cons. simpl. rewrite !Nat.add_0_r. done.
  - rewrite app_nil_r. split; simpl; rewrite ?Hcl; try done; [|rewrite length_app; simpl; lia].
    rewrite Hr. by rewrite <- !app_assoc.
Qed.

Lemma drain_inv s c :
  inv s → buffer (bat s) ≠ [] → closed (bat s) = false →
  c = snd (drainLocked (bat s)) →
  inv (mkSys c (inflight s ++ [PFlush false (buffer (bat s))]) (sink s) (accepted s) (panicked s)).
Proof.
  intros Hinv Hne Hcl ->. pose proof (inv_maxSize_pos s Hinv) as Hpos.
  destruct Hinv as [Hr Hs Hsk Hif Ht Hc Hd Hp].
  destruct (buffer (bat s)) as [|r0 rs] eqn:Hb; [done|].
  split; simpl; rewrite ?Hcl; try done.
  - rewrite recs_of_app, recs_of_cons, app_nil_r. unfold recs_of at 2. simpl.
    by rewrite app_nil_r.
  - apply Forall_app. split; [done|]. constructor; [simpl in *; lia|constructor].
  - by left.
  - rewrite closers_app, closers_cons. simpl. rewrite !Nat.add_0_r. by rewrite Hcl in Hd.
Qed.

Lemma flush_inv s : inv s → inv (do_flush s).
Proof.
  intros Hinv. unfold do_flush, Flush. destruct (buffer (bat s)) as [|r rs] eqn:Hb; simpl.
  { rewrite app_nil_r. by destruct s. }
  apply drain_inv; [done|by rewrite Hb| |done].
  destruct (closed (bat s)) eqn:Hc; [|done]. apply (inv_closed s Hinv) in Hc. congruence.
Qed.

Lemma close_inv s : inv s → inv (do_close s).
Proof.
  intros Hinv. pose proof (inv_maxSize_pos s Hinv) as Hpos. destruct Hinv as [Hr Hs Hsk Hif Ht Hc Hd Hp].
  unfold do_close, Close. destruct (closed (bat s)) eqn:Hcl; simpl.
  { rewrite app_nil_r. by split; simpl; rewrite ?Hcl. }
  destruct (buffer (bat s)) as [|r rs] eqn:Hb; simpl; (split; simpl; rewrite ?Hcl; try done).
  - rewrite recs_of_app, recs_of_cons. unfold recs_of at 2. simpl. by rewrite !app_nil_r in *.
  - apply Forall_app. split; [done|]. constructor; [simpl; lia|constructor].
  - rewrite closers_app, closers_cons. simpl. unfold closers at 2. simpl. lia.
  - rewrite recs_of_app, recs_of_cons. unfold recs_of at 2. simpl. by rewrite !app_nil_r in *.
  - apply Forall_app. split; [done|]. constructor; [simpl in *; lia|constructor].
  - rewrite closers_app, closers_cons. simpl. unfold closers at 2. simpl. lia.
Qed.

Lemma fire_inv s : inv s → inv (do_fire s).
Proof.
  intros [Hr Hs Hsk Hif Ht Hc Hd Hp]. unfold do_fire. split; simpl; try done.
  - rewrite recs_of_app. unfold recs_of at 2. simpl. by rewrite app_nil_r.
  - apply Forall_app. split; [done|]. by constructor.
  - intros _. right. set_solver.
  - rewrite closers_app. unfold closers at 2. simpl. by rewrite Nat.add_0_r.
Qed.

Lemma resume_step_inv s l1 p l2 r :
  inv s → inflight s = l1 ++ p :: l2 → inv (do_resume s l1 p l2 r).
Proof.
  intros Hinv Hl. pose proof (inv_maxSize_pos s Hinv) as Hpos. destruct Hinv as [Hr Hs Hsk Hif Ht Hc Hd Hp].
  rewrite Hl in *. apply Forall_app in Hif as [Hif1 Hif2]. apply list.Forall_cons in Hif2 as [Hpok Hif2].
  rewrite closers_app, closers_cons in Hd. unfold do_resume.
  destruct (resume (bat s) p r) as [[[b' new] out]|] eqn:Hres.
  - destruct (resume_inv _ _ _ _ _ _ _ Hres eq_refl Hpos Hpok)
      as (Hm & Hcl & Hperm & Hlen & Hok & Hcb & Htm & Hcd).
    destruct (Hok Hs) as [Hout Hnew]. split; simpl; rewrite ?Hm, ?Hcl; try done; [| | | | | |].
    + rewrite Hr, !recs_of_app, recs_of_cons, map_app, concat_app.
      transitivity (concat (map fst (sink s)) ++ recs_of l1 ++ recs_of l2 ++
                    (pend_recs p ++ buffer (bat s))); [solve_Permutation|].
      rewrite Hperm. solve_Permutation.
    + by apply Hlen.
    + apply Forall_app. auto.
    + rewrite !Forall_app. auto.
    + intros Hc'. destruct (Ht Hc') as [Ht'|Ht']; [left; apply Htm; auto|].
      apply elem_of_app in Ht' as [?|[<-|?]%elem_of_cons];
        [right; set_solver|left; apply Htm; [done|by right]|right; set_solver].
    + intros Hc'. apply Hcb; auto.
    + rewrite !closers_app. lia.
  - exfalso. destruct p; simpl in Hres; try done.
    + by destruct (timerFlush (bat s)).
    + unfold close_done in Hres. destruct (done_closed (bat s)) eqn:Hdc; [|done].
      simpl in Hd. destruct (closed (bat s)); lia.
Qed.

Lemma step_inv s s' : inv s → step s s' → inv s'.
Proof.
  intros Hinv Hstep. destruct Hstep.
  - by apply add_inv.
  - by apply flush_inv.
  - by apply close_inv.
  - by apply fire_inv.
  - by apply resume_step_inv.
Qed.

Lemma reachable_inv m i s : reachable m i s → inv s.
Proof. induction 1; [apply init_inv|by eapply step_inv]. Qed.

Lemma maxSize_step s s' : inv s → step s s' → maxSize (bat s') = maxSize (bat s).
Proof.
  intros Hinv Hstep. destruct Hstep as [s r|s|s|s _|s l1 p l2 r Hl].
  - unfold do_add, Add. destruct (closed _); [done|]. destruct (lastErr _); [done|]. simpl.
    by destruct (_ <=? _).
  - unfold do_flush, Flush. by destruct (buffer _).
  - unfold do_close, Close. destruct (closed _); [done|]. simpl. by destruct (buffer _).
  - done.
  - pose proof (inv_maxSize_pos _ Hinv) as Hpos. pose proof (inv_inflight _ Hinv) as Hif.
    rewrite Hl, list.Forall_app, list.Forall_cons in Hif. destruct Hif as (_ & Hok & _).
    unfold do_resume. destruct (resume _ _ _) as [[[b' new] out]|] eqn:Hres; [simpl|done].
    by destruct (resume_inv _ _ _ _ _ _ _ Hres eq_refl Hpos Hok) as [-> _].
Qed.

Lemma reachable_maxSize m i s :
  reachable m i s → maxSize (bat s) = if m <=? 0 then 1000 else m.
Proof.
  induction 1 as [|s s' Hr IH Hs]; [done|]. rewrite <- IH.
  apply maxSize_step; [by eapply reachable_inv|done].
Qed.

(** ** Properties *)

(** C28: no record is lost or duplicated.  In every reachable state of any
    number of concurrent callers and the timer, the records [Add] accepted
    are exactly those passed to the flush function, those of batches still in
    flight and those buffered; the buffer stays below [maxSize], every batch
    flushed holds between 1 and [maxSize] records, and nothing panics (in
    particular [done] is closed at most once). *)
Theorem batcher_no_loss m i s :
  reachable m i s →
  accepted s ≡ₚ concat (map fst (sink s)) ++ recs_of (inflight s) ++ buffer (bat s) ∧
  Z.of_nat (length (buffer (bat s))) < (if m <=? 0 then 1000 else m) ∧
  Forall (λ c, 0 < Z.of_nat (length c.1) ≤ (if m <=? 0 then 1000 else m)) (sink s) ∧
  panicked s = false.
Proof.
  intros Hr. rewrite <- (reachable_maxSize m i s Hr). by destruct (reachable_inv m i s Hr).
Qed.

(** Closing flushes everything.  Once [Close] has run and no goroutine
    is in flight any more, every accepted record has been passed to the flush
    function, and [Add] refuses every further record. *)
Theorem batcher_closed_drained m i s :
  reachable m i s → closed (bat s) = true → inflight s = [] →
  accepted s ≡ₚ concat (map fst (sink s)) ∧
  ∀ r, Add (bat s) r = (Return (Some (ErrText "batcher is closed")), bat s).
Proof.
  intros Hr Hc Hi. destruct (reachable_inv m i s Hr) as [Hp _ _ _ _ Hb _ _].
  rewrite Hi, (Hb Hc), !app_nil_r in Hp. split; [done|].
  intros r. unfold Add. by rewrite Hc.
Qed.

(** The periodic flush never dies.  Until the batcher is closed, in
    every reachable state the timer is armed or a timer goroutine is running,
    and the run of that goroutine empties the buffer and arms the timer
    again. *)
Theorem batcher_timer_alive m i s :
  reachable m i s → closed (bat s) = false →
  (timerArmed (bat s) = true ∨ PTimer ∈ inflight s) ∧
  buffer (timerFlush (bat s)).2 = [] ∧ timerArmed (timerFlush (bat s)).2 = true.
Proof.
  intros Hr Hc. split; [by apply (inv_timer s (reachable_inv m i s Hr))|].
  unfold timerFlush. rewrite Hc. simpl. case_bool_decide as Hb; [|done].
  simpl. split; [|done]. by destruct (buffer (bat s)).
Qed.

(** A failed timer flush costs the next record.  When an earlier timer
    flush failed, [Add] reports that old error, clears it, and does not store
    the record it was given, although the batcher is open. *)
Theorem Add_drops_record_after_timer_error b r e :
  closed b = false → lastErr b = Some e →
  ∃ b', Add b r = (Return (Some (ErrWrapf "previous timer flush failed" e)), b') ∧
    buffer b' = buffer b ∧ lastErr b' = None ∧ closed b' = false.
Proof.
  intros Hc He. unfold Add. rewrite Hc, He. eexists. split; [done|]. done.
Qed.

(** Closing a batcher that holds records leaves its timer armed again,
    because [drainLocked] resets the timer [Close] has just stopped; the later
    timer goroutine then finds the batcher closed and does nothing. *)
Theorem Close_rearms_timer b :
  closed b = false → buffer b ≠ [] →
  ∃ b', Close b = (Some (buffer b), b') ∧ timerArmed b' = true ∧
    timerFlush b' = (None, b').
Proof.
  intros Hc Hb. unfold Close. rewrite Hc. simpl.
  destruct (buffer b) as [|r rs] eqn:Hbuf; [done|]. eexists. split; [done|]. done.
Qed.
End batcher.

Arguments Batcher : clear implicits.
Arguments sys : clear implicits.

(** ** Witnesses *)

(** Two adds filling a batch, a timer expiry on the third record, a failing
    timer flush, a refused add, and a close. *)
Definition sample_1 : sys Z := do_add (do_add (init 2 0) 10) 20.
Definition sample_2 : sys Z := do_resume sample_1 [] (PFlush false [10; 20]) [] None.
Definition sample_3 : sys Z := do_fire (do_add sample_2 30).
Definition sample_4 : sys Z := do_resume sample_3 [] PTimer [] None.
Definition sample_5 : sys Z :=
  do_resume sample_4 [] (PFlush true [30]) [] (Some (ErrText "disk full")).
Definition sample_6 : sys Z := do_resume sample_5 [] (PSetErr (ErrText "disk full")) [] None.
Definition sample_7 : sys Z := do_add sample_6 40.
Definition sample_8 : sys Z := do_resume (do_close sample_7) [] (PCloseDone []) [] None.

Lemma sample_7_reachable : reachable 2 0 sample_7.
Proof.
  eapply reach_step; [|apply step_add].
  eapply reach_step; [|by apply step_resume].
  eapply reach_step; [|by apply step_resume].
  eapply reach_step; [|by apply step_resume].
  eapply reach_step; [|by apply step_fire].
  eapply reach_step; [|apply step_add].
  eapply reach_step; [|by apply step_resume].
  do 2 (eapply reach_step; [|apply step_add]). apply reach_init.
Qed.

Lemma sample_8_reachable : reachable 2 0 sample_8.
Proof.
  eapply reach_step; [|by apply step_resume].
  eapply reach_step; [|apply step_close]. apply sample_7_reachable.
Qed.

Theorem batcher_no_loss_witness :
  accepted sample_7 ≡ₚ concat (map fst (sink sample_7)) ++ recs_of (inflight sample_7)
                       ++ buffer (bat sample_7) ∧
  accepted sample_7 = [10; 20; 30].
Proof. split; [apply (batcher_no_loss 2 0 sample_7 sample_7_reachable)|reflexivity]. Defined.

Theorem batcher_closed_drained_witness :
  accepted sample_8 ≡ₚ concat (map fst (sink sample_8)).
Proof.
  apply (batcher_closed_drained 2 0 sample_8 sample_8_reachable); reflexivity.
Defined.

Theorem batcher_timer_alive_witness :
  (timerArmed (bat sample_7) = true ∨ PTimer ∈ inflight sample_7) ∧
  buffer (timerFlush (bat sample_7)).2 = [] ∧ timerArmed (timerFlush (bat sample_7)).2 = true.
Proof. apply (batcher_timer_alive 2 0 sample_7 sample_7_reachable). reflexivity. Defined.

(** The refused record of the sample run: 40 is not accepted. *)
Theorem Add_drops_record_after_timer_error_witness :
  ∃ b', Add (bat sample_6) 40 =
      (Return (Some (ErrWrapf "previous timer flush failed" (ErrText "disk full"))), b') ∧
    buffer b' = buffer (bat sample_6) ∧ lastErr b' = None ∧ closed b' = false.
Proof. apply (Add_drops_record_after_timer_error (bat sample_6) 40); reflexivity. Defined.

Theorem Close_rearms_timer_witness :
  ∃ b', Close (Add (NewBatcher 5 1) 7).2 = (Some [7], b') ∧ timerArmed b' = true ∧
    timerFlush b' = (None, b').
Proof. apply (Close_rearms_timer (Add (NewBatcher 5 1) 7).2); [reflexivity|discriminate]. Defined.
