(* ===== verification/Pool.v ===== *)
(** * Worker pool: [internal/worker/pool/pool.go]

    The pool is a system of goroutines over one buffered channel and four
    atomic counters.  Goroutines are program points ([worker], [submitter],
    [shutdown]); each step performs one atomic operation of the Go code
    (channel operation, counter update, flag load or swap), so every
    interleaving of the Go program is a sequence of steps.  Counters are
    unbounded integers: they count events and never approach 2^63. *)

From S2P Require Import Prelude.

Record PoolStats := mkStats { Active : Z; Pending : Z; Completed : Z; Failed : Z }.

#[global] Instance PoolStats_eq_dec : EqDecision PoolStats.
Proof. solve_decision. Defined.

Section pool.
Context {T : Type}.

(** Program points of [worker]/[processItem]; [drain] tells the loop to return to. *)
Inductive worker_pc :=
| WLoop (drain : bool)              (** at the [select] (or in the drain loop) *)
| WTook (item : T) (drain : bool)   (** received, before [pending.Add(-1)] *)
| WCounted (item : T) (drain : bool) (** before [active.Add(1)] *)
| WRunning (item : T) (drain : bool) (** in the processor *)
| WFinished (drain : bool)          (** result counted, before [active.Add(-1)] *)
| WExited.

(** A worker runs under the pool's own context or under the one given to [Resize]. *)
Record worker := mkWorker { own_ctx : bool; pc : worker_pc }.

(** Program points of [Submit]/[SubmitWithContext]. *)
Inductive submitter :=
| SCalled (item : T)                (** before loading [stopped] *)
| SNotStopped (item : T)            (** before loading [started] *)
| SChecked (item : T)               (** before [pending.Add(1)] *)
| SSelect (item : T).               (** in the [select] *)

(** Program points of the one [Shutdown] call that wins the swap. *)
Inductive shutdown := HSwapped | HDoneClosed | HWaiting.

Record Pool := mkPool {
  concurrency : Z;
  cap : nat;                        (** capacity of [input] *)
  input : list T;
  input_closed : bool;
  done_closed : bool;
  stats : PoolStats;
  started : bool;
  stopped : bool;
  workers : list worker;
  subs : list submitter;
  shut : list shutdown;
  own_done : bool;                  (** the pool's context is done *)
  ext_done : bool;                  (** the context given to [Resize] is done *)
  sent : list T;                    (** items sent on the channel *)
  processed : list T;               (** items whose processor returned *)
  panicked : bool
}.

Definition NewPool (concurrency : Z) : Pool :=
  let concurrency := if concurrency <? 1 then 1 else concurrency in
  mkPool concurrency (Z.to_nat (concurrency * 2)) [] false false (mkStats 0 0 0 0)
         false false [] [] [] false false [] [] false.

Definition add_stats (s : PoolStats) (a p c f : Z) : PoolStats :=
  mkStats (Active s + a) (Pending s + p) (Completed s + c) (Failed s + f).

Definition set_workers (p : Pool) (ws : list worker) : Pool :=
  mkPool (concurrency p) (cap p) (input p) (input_closed p) (done_closed p) (stats p)
    (started p) (stopped p) ws (subs p) (shut p) (own_done p) (ext_done p)
    (sent p) (processed p) (panicked p).
Definition set_subs (p : Pool) (ss : list submitter) (pend : Z) : Pool :=
  mkPool (concurrency p) (cap p) (input p) (input_closed p) (done_closed p)
    (add_stats (stats p) 0 pend 0 0) (started p) (stopped p) (workers p) ss (shut p)
    (own_done p) (ext_done p) (sent p) (processed p) (panicked p).
(** A panicking goroutine never leaves its [select]. *)
Definition set_panic (p : Pool) : Pool :=
  mkPool (concurrency p) (cap p) (input p) (input_closed p) (done_closed p) (stats p)
    (started p) (stopped p) (workers p) (subs p) (shut p) (own_done p) (ext_done p)
    (sent p) (processed p) true.

(** [Start]: only the first call launches the workers. *)
Definition Start (p : Pool) : Pool :=
  if started p then p
  else mkPool (concurrency p) (cap p) (input p) (input_closed p) (done_closed p) (stats p)
         true (stopped p)
         (workers p ++ replicate (Z.to_nat (concurrency p)) (mkWorker true (WLoop false)))
         (subs p) (shut p) (own_done p) (ext_done p) (sent p) (processed p) (panicked p).

(** [Resize] launches workers when the target grows; it stops none. *)
Definition Resize (p : Pool) (newConcurrency : Z) : Pool :=
  let n := if newConcurrency <? 1 then 1 else newConcurrency in
  let new := if concurrency p <? n
             then replicate (Z.to_nat (n - concurrency p)) (mkWorker false (WLoop false)) else [] in
  mkPool n (cap p) (input p) (input_closed p) (done_closed p) (stats p) (started p) (stopped p)
    (workers p ++ new) (subs p) (shut p) (own_done p) (ext_done p)
    (sent p) (processed p) (panicked p).

Definition Stats (p : Pool) : PoolStats := stats p.
Definition QueueDepth (p : Pool) : Z := Pending (stats p).

(** The test of one [WaitIdle] iteration. *)
Definition WaitIdle_returns (p : Pool) : bool :=
  (Active (stats p) =? 0) && (Pending (stats p) =? 0).

(** What a worker step changes besides its program point. *)
Record effect := mkEffect { e_input : list T; e_stats : PoolStats; e_processed : list T }.

(** One step of a worker: [ctx] tells whether its context is done, [ok] whether
    the processor succeeded. *)
Inductive worker_step (p : Pool) (ctx : bool) : worker_pc → worker_pc → effect → Prop :=
| ws_ctx_done : ctx = true →
    worker_step p ctx (WLoop false) (WLoop true) (mkEffect (input p) (stats p) (processed p))
| ws_receive drain item rest : input p = item :: rest →
    worker_step p ctx (WLoop drain) (WTook item drain) (mkEffect rest (stats p) (processed p))
| ws_closed drain : input p = [] → input_closed p = true →
    worker_step p ctx (WLoop drain) WExited (mkEffect (input p) (stats p) (processed p))
| ws_drained : input p = [] →
    worker_step p ctx (WLoop true) WExited (mkEffect (input p) (stats p) (processed p))
| ws_count item drain :
    worker_step p ctx (WTook item drain) (WCounted item drain)
      (mkEffect (input p) (add_stats (stats p) 0 (-1) 0 0) (processed p))
| ws_activate item drain :
    worker_step p ctx (WCounted item drain) (WRunning item drain)
      (mkEffect (input p) (add_stats (stats p) 1 0 0 0) (processed p))
| ws_process item drain (ok : bool) :
    worker_step p ctx (WRunning item drain) (WFinished drain)
      (mkEffect (input p) (add_stats (stats p) 0 0 (if ok then 1 else 0) (if ok then 0 else 1))
                (processed p ++ [item]))
| ws_deactivate drain :
    worker_step p ctx (WFinished drain) (WLoop drain)
      (mkEffect (input p) (add_stats (stats p) (-1) 0 0 0) (processed p)).

Definition ctx_of (p : Pool) (w : worker) : bool :=
  if own_ctx w then own_done p else ext_done p.

Definition apply_effect (p : Pool) (ws : list worker) (e : effect) : Pool :=
  mkPool (concurrency p) (cap p) (e_input e) (input_closed p) (done_closed p) (e_stats e)
    (started p) (stopped p) ws (subs p) (shut p) (own_done p) (ext_done p)
    (sent p) (e_processed e) (panicked p).

(** One step of a submitter; [None] means the call has returned an error. *)
Inductive submit_step (p : Pool) : submitter → option submitter → Z → Prop :=
| ss_stopped item : stopped p = true → submit_step p (SCalled item) None 0
| ss_running item : stopped p = false → submit_step p (SCalled item) (Some (SNotStopped item)) 0
| ss_not_started item : started p = false → submit_step p (SNotStopped item) None 0
| ss_started item : started p = true → submit_step p (SNotStopped item) (Some (SChecked item)) 0
| ss_pending item : submit_step p (SChecked item) (Some (SSelect item)) 1
| ss_done item : done_closed p = true → submit_step p (SSelect item) None (-1)
| ss_ctx item : submit_step p (SSelect item) None (-1).

Inductive step (p : Pool) : Pool → Prop :=
| step_start : step p (Start p)
| step_resize n : step p (Resize p n)
| step_worker l1 w l2 pc' e :
    workers p = l1 ++ w :: l2 → worker_step p (ctx_of p w) (pc w) pc' e →
    step p (apply_effect p (l1 ++ mkWorker (own_ctx w) pc' :: l2) e)
| step_call item : step p (set_subs p (subs p ++ [SCalled item]) 0)
| step_submit l1 s l2 o pend :
    subs p = l1 ++ s :: l2 → submit_step p s o pend →
    step p (set_subs p (l1 ++ option_list o ++ l2) pend)
| step_send l1 item l2 :     (** the send case of the [select] *)
    subs p = l1 ++ SSelect item :: l2 → input_closed p = false →
    (length (input p) < cap p)%nat →
    step p (mkPool (concurrency p) (cap p) (input p ++ [item]) (input_closed p) (done_closed p)
              (stats p) (started p) (stopped p) (workers p) (l1 ++ l2) (shut p)
              (own_done p) (ext_done p) (sent p ++ [item]) (processed p) (panicked p))
| step_send_closed l1 item l2 :   (** the send case on a closed channel *)
    subs p = l1 ++ SSelect item :: l2 → input_closed p = true →
    step p (set_panic p)
| step_shutdown :            (** [Shutdown]: the swap *)
    step p (mkPool (concurrency p) (cap p) (input p) (input_closed p) (done_closed p) (stats p)
              (started p) true (workers p) (subs p)
              (if stopped p then shut p else shut p ++ [HSwapped])
              (own_done p) (ext_done p) (sent p) (processed p) (panicked p))
| step_close_done : shut p = [HSwapped] →
    step p (mkPool (concurrency p) (cap p) (input p) (input_closed p) true (stats p)
              (started p) (stopped p) (workers p) (subs p) [HDoneClosed]
              (own_done p) (ext_done p) (sent p) (processed p) (panicked p))
| step_close_input : shut p = [HDoneClosed] →
    step p (mkPool (concurrency p) (cap p) (input p) true (done_closed p) (stats p)
              (started p) (stopped p) (workers p) (subs p) [HWaiting]
              (own_done p) (ext_done p) (sent p) (processed p) (panicked p))
| step_cancel_own :          (** shutdown timeout, or the caller's context *)
    step p (mkPool (concurrency p) (cap p) (input p) (input_closed p) (done_closed p) (stats p)
              (started p) (stopped p) (workers p) (subs p) (shut p)
              true (ext_done p) (sent p) (processed p) (panicked p))
| step_cancel_ext :
    step p (mkPool (concurrency p) (cap p) (input p) (input_closed p) (done_closed p) (stats p)
              (started p) (stopped p) (workers p) (subs p) (shut p)
              (own_done p) true (sent p) (processed p) (panicked p)).

Inductive reachable (n : Z) : Pool → Prop :=
| reach_new : reachable n (NewPool n)
| reach_step p p' : reachable n p → step p p' → reachable n p'.

(** ** The pool's invariant *)

Definition held (w : worker) : list T :=
  match pc w with WTook i _ | WCounted i _ | WRunning i _ => [i] | _ => [] end.
Definition is_took (w : worker) : bool := match pc w with WTook _ _ => true | _ => false end.
Definition is_active (w : worker) : bool :=
  match pc w with WRunning _ _ | WFinished _ => true | _ => false end.
Definition is_select (s : submitter) : bool := match s with SSelect _ => true | _ => false end.
Definition draining (w : worker) : bool :=
  match pc w with
  | WLoop d | WTook _ d | WCounted _ d | WRunning _ d | WFinished d => d
  | WExited => false
  end.

(** A worker drains only when its context is done, and exits only then or when
    the channel is closed and empty. *)
Definition worker_ok (p : Pool) (w : worker) : Prop :=
  (draining w = true → ctx_of p w = true) ∧
  (pc w = WExited → (input_closed p = true ∧ input p = []) ∨ ctx_of p w = true).

Record inv (p : Pool) : Prop := {
  inv_items : sent p ≡ₚ processed p ++ mjoin (held <$> workers p) ++ input p;
  inv_pending : Pending (stats p) =
    Z.of_nat (length (input p)) + zcount is_select (subs p) + zcount is_took (workers p);
  inv_active : Active (stats p) = zcount is_active (workers p);
  inv_counted : Completed (stats p) + Failed (stats p) = Z.of_nat (length (processed p));
  inv_nonneg : 0 ≤ Completed (stats p) ∧ 0 ≤ Failed (stats p);
  inv_cap : (length (input p) ≤ cap p)%nat;
  inv_workers : Forall (worker_ok p) (workers p);
  inv_closing : input_closed p = true → done_closed p = true;
  inv_shut : shut p = [] ∧ stopped p = false ∧ done_closed p = false
    ∨ stopped p = true ∧
      (shut p = [HSwapped] ∧ done_closed p = false
       ∨ shut p = [HDoneClosed] ∧ done_closed p = true
       ∨ shut p = [HWaiting] ∧ done_closed p = true ∧ input_closed p = true)
}.

Lemma held_replicate n c d : mjoin (held <$> replicate n (mkWorker c (WLoop d))) = [].
Proof. induction n; simpl; auto. Qed.

Lemma inv_new n : inv (NewPool n).
Proof. split; simpl; try done; try lia; try set_solver. Qed.

(** Launching idle workers keeps the invariant. *)
Lemma inv_spawn p ws c n :
  inv p → ws = workers p ++ replicate n (mkWorker c (WLoop false)) → inv (set_workers p ws).
Proof.
  intros [] ->. split; simpl; try done.
  - rewrite fmap_app, join_app, held_replicate, (right_id_L [] (++)). done.
  - rewrite zcount_app, (zcount_replicate is_took) by done. lia.
  - rewrite zcount_app, (zcount_replicate is_active) by done. lia.
  - apply list.Forall_app. split; [done|]. by apply list.Forall_replicate.
Qed.

Lemma worker_ok_mono p p' w :
  worker_ok p w → (ctx_of p w = true → ctx_of p' w = true) →
  (input_closed p = true → input p = [] → input_closed p' = true ∧ input p' = []) →
  worker_ok p' w.
Proof. unfold worker_ok. naive_solver. Qed.

Lemma inv_worker p l1 w l2 pc' e :
  inv p → workers p = l1 ++ w :: l2 → worker_step p (ctx_of p w) (pc w) pc' e →
  inv (apply_effect p (l1 ++ mkWorker (own_ctx w) pc' :: l2) e).
Proof.
  intros [Hitems Hpend Hact Hcnt Hnn Hcap Hok Hcl Hsh] Hws Hstep.
  rewrite Hws in Hitems, Hpend, Hact, Hok.
  rewrite fmap_app, join_app, fmap_cons in Hitems. simpl in Hitems.
  rewrite zcount_app in Hpend, Hact. simpl in Hpend, Hact.
  apply list.Forall_app in Hok as [Hl1 [Hw Hl2]%list.Forall_cons].
  assert (∀ l, Forall (worker_ok p) l →
    Forall (worker_ok (apply_effect p (l1 ++ mkWorker (own_ctx w) pc' :: l2) e)) l) as Hmono.
  { intros l. apply Forall_impl. intros v Hv. eapply worker_ok_mono; [done|done|].
    simpl. intros ? Hnil. destruct Hstep; simpl; try done; congruence. }
  destruct w as [own wpc]. unfold worker_ok, ctx_of, draining in Hw. unfold ctx_of in Hstep.
  simpl in *.
  destruct Hstep; (split; simpl;
    [rewrite ?fmap_app, ?join_app, ?fmap_cons; simpl; rewrite Hitems
    |rewrite ?zcount_app; simpl
    |rewrite ?zcount_app; simpl
    |rewrite ?length_app; simpl
    |
    |
    |apply list.Forall_app; split; [by apply Hmono|apply list.Forall_cons; split;
       [unfold worker_ok, ctx_of, draining; simpl|by apply Hmono]]
    |exact Hcl
    |exact Hsh]);
    repeat match goal with H : input p = _ |- _ => rewrite H in *; simpl in * end;
    try solve [unfold held, is_took, is_active in *; simpl in *; 
      first [solve_Permutation | destruct ok; lia | lia | naive_solver]].
Qed.

Lemma inv_step p p' : inv p → step p p' → inv p'.
Proof.
  intros Hinv Hstep. destruct Hstep.
  - unfold Start. destruct (started p); [done|].
    destruct (inv_spawn p _ true (Z.to_nat (concurrency p)) Hinv eq_refl).
    by split.
  - unfold Resize. set (m := if n <? 1 then 1 else n).
    destruct (concurrency p <? m).
    + destruct (inv_spawn p _ false (Z.to_nat (m - concurrency p)) Hinv eq_refl). by split.
    + rewrite (right_id_L [] (++)). destruct Hinv. by split.
  - by apply inv_worker.
  - destruct Hinv; split; simpl; try done; try lia. rewrite zcount_app. simpl. lia.
  - destruct Hinv as [Hit Hp]; split; simpl; try done; try lia.
    rewrite H, zcount_app in Hp. rewrite !zcount_app. simpl in *.
    destruct H0; simpl in *; lia.
  - destruct Hinv as [Hit Hp]; split; simpl; try done; try lia.
    + rewrite Hit. solve_Permutation.
    + rewrite H, zcount_app in Hp. rewrite length_app, zcount_app. simpl in *. lia.
    + rewrite length_app. simpl. lia.
    + eapply Forall_impl; [|done]. intros w Hw. eapply worker_ok_mono; [done|done|].
      simpl. congruence.
  - destruct Hinv; by split.
  - destruct Hinv; split; simpl; try done.
    destruct inv_shut0 as [(Hs & Hst & Hd)|[Hst Hrest]]; rewrite Hst; simpl; [|by right].
    rewrite Hs. right. naive_solver.
  - destruct Hinv; split; simpl; try done. right. 
    destruct inv_shut0 as [(Hs&_)|[? _]]; [congruence|]. eauto 6.
  - destruct Hinv; split; simpl; try done.
    + eapply Forall_impl; [|done]. intros w Hw. eapply worker_ok_mono; eauto.
    + destruct inv_shut0 as [(?&_)|[_ [[??]|[[??]|(?&_)]]]]; congruence.
    + destruct inv_shut0 as [(?&_)|[? [[??]|[[??]|(?&_)]]]]; try congruence. eauto 8.
  - destruct Hinv; split; simpl; try done.
    eapply Forall_impl; [|done]. intros w Hw. eapply worker_ok_mono; [done| |done].
    unfold ctx_of. simpl. destruct (own_ctx w); naive_solver.
  - destruct Hinv; split; simpl; try done.
    eapply Forall_impl; [|done]. intros w Hw. eapply worker_ok_mono; [done| |done].
    unfold ctx_of. simpl. destruct (own_ctx w); naive_solver.
Qed.

Lemma inv_reachable n p : reachable n p → inv p.
Proof. induction 1; eauto using inv_new, inv_step. Qed.

(** Steps from a given pool, for building runs. *)
Lemma reach_rtc n p p' : reachable n p → rtc step p p' → reachable n p'.
Proof. intros Hp Hr. revert Hp. induction Hr; eauto using reach_step. Qed.

Lemma no_item_held (ws : list worker) :
  Forall (λ w, pc w = WExited) ws → mjoin (held <$> ws) = [].
Proof. induction 1 as [|w ws Hw _ IH]; simpl; [done|]. unfold held at 1. by rewrite Hw. Qed.

Lemma exited_drained p :
  inv p → workers p ≠ [] → Forall (λ w, pc w = WExited) (workers p) →
  own_done p = false → ext_done p = false → input p = [].
Proof.
  intros Hinv Hne Hex Ho He. destruct (inv_workers _ Hinv) as [|w ws [_ Hw] _]; [done|].
  apply list.Forall_cons in Hex as [Hpc _].
  destruct (Hw Hpc) as [[_ ?]|Hc]; [done|].
  unfold ctx_of in Hc. destruct (own_ctx w); congruence.
Qed.

(** A step of some worker. *)
Definition wstep (p p' : Pool) : Prop :=
  ∃ l1 w l2 pc' e, workers p = l1 ++ w :: l2 ∧ worker_step p (ctx_of p w) (pc w) pc' e ∧
    p' = apply_effect p (l1 ++ mkWorker (own_ctx w) pc' :: l2) e.

(** Work left: five units per queued item, fewer the further a worker is. *)
Definition rank (w : worker) : nat :=
  let r (d : bool) := if d then 1%nat else 2%nat in
  match pc w with
  | WLoop d => r d | WTook _ d => 4 + r d | WCounted _ d => 3 + r d
  | WRunning _ d => 2 + r d | WFinished d => 1 + r d | WExited => 0
  end.
Definition work (p : Pool) : nat := 5 * length (input p) + sum_list (rank <$> workers p).

Lemma wstep_work p p' : wstep p p' → (work p' < work p)%nat.
Proof.
  intros (l1 & w & l2 & pc' & e & Hw & Hstep & ->). unfold work. simpl. rewrite Hw.
  rewrite !fmap_app, !sum_list_with_app. simpl.
  destruct w as [c q]. unfold rank; simpl in *. destruct Hstep; simpl; try rewrite H; simpl; try destruct drain; simpl; try lia.
Qed.

Lemma wstep_step p p' : wstep p p' → step p p'.
Proof. intros (l1 & w & l2 & pc' & e & Hw & Hs & ->). by apply (step_worker p l1 w l2). Qed.

(** Once the channel is closed, a worker that has not exited can move. *)
Lemma wstep_enabled p w :
  input_closed p = true → w ∈ workers p → pc w ≠ WExited → ∃ p', wstep p p'.
Proof.
  intros Hc Hw Hpc. apply list_elem_of_split in Hw as (l1 & l2 & Hw).
  assert (∃ pc' e, worker_step p (ctx_of p w) (pc w) pc' e) as (pc' & e & Hs).
  { destruct (pc w) as [d|i d|i d|i d|d|]; [| | | | |done].
    { destruct (input p) eqn:Hi; eauto using worker_step. }
    3: { eexists _, _. apply (ws_process _ _ _ _ true). }
    all: eauto using worker_step. }
  eexists _, l1, w, l2, pc', e. eauto.
Qed.

Definition all_exited (p : Pool) : Prop := Forall (λ w, pc w = WExited) (workers p).

#[global] Instance exited_dec (w : worker) : Decision (pc w = WExited).
Proof. destruct (pc w); (by left) || by right. Defined.
#[global] Instance all_exited_dec p : Decision (all_exited p).
Proof. apply list.Forall_dec. apply exited_dec. Defined.

(** ** Properties *)

(** In every interleaving no submitted item is lost or processed twice:
    the items sent on the channel are those processed, those held by a worker
    and those queued; the outcome counters add up to the processed items, the
    active counter is between zero and the number of workers, the queue depth
    covers the queued items, and the queue never exceeds its capacity. *)
Theorem pool_accounting n p :
  reachable n p →
  sent p ≡ₚ processed p ++ mjoin (held <$> workers p) ++ input p ∧
  Completed (Stats p) + Failed (Stats p) = Z.of_nat (length (processed p)) ∧
  0 ≤ Completed (Stats p) ∧ 0 ≤ Failed (Stats p) ∧
  0 ≤ Active (Stats p) ≤ Z.of_nat (length (workers p)) ∧
  Z.of_nat (length (input p)) ≤ QueueDepth p ∧
  (length (input p) ≤ cap p)%nat.
Proof.
  intros H%inv_reachable. destruct H. unfold Stats, QueueDepth.
  pose proof (zcount_bounds is_active (workers p)).
  pose proof (zcount_bounds is_select (subs p)).
  pose proof (zcount_bounds is_took (workers p)).
  split_and!; try done; try lia.
Qed.

(** C29: graceful shutdown: when [Shutdown] has closed the channel and no context
    is cancelled, the workers terminate (every worker step decreases the work
    left, and one is possible until all have exited), and when they have all
    exited every item ever sent has been processed exactly once. *)
Theorem pool_graceful_shutdown n p :
  reachable n p → shut p = [HWaiting] → workers p ≠ [] →
  own_done p = false → ext_done p = false →
  (∀ p', wstep p p' → (work p' < work p)%nat) ∧
  (all_exited p ∨ ∃ p', wstep p p') ∧
  (all_exited p → sent p ≡ₚ processed p ∧ Active (Stats p) = 0 ∧
     Completed (Stats p) + Failed (Stats p) = Z.of_nat (length (sent p))).
Proof.
  intros Hr Hs Hne Ho He. assert (Hinv := inv_reachable _ _ Hr).
  assert (input_closed p = true) as Hc.
  { destruct (inv_shut _ Hinv) as [(?&_)|[_ [[??]|[[??]|(_&_&?)]]]]; congruence. }
  split; [apply wstep_work|]. split.
  - destruct (decide (all_exited p)) as [|Hn]; [by left|right].
    apply (list.not_Forall_Exists _ (dec := exited_dec)) in Hn. apply Exists_exists in Hn as (w & Hw & Hpc).
    apply list_elem_of_In in Hw. by eapply wstep_enabled.
  - intros Hex. pose proof (exited_drained _ Hinv Hne Hex Ho He) as Hi.
    pose proof (inv_items _ Hinv) as Hit.
    rewrite (no_item_held _ Hex), Hi, !(right_id_L [] (++)) in Hit.
    split; [done|]. unfold Stats. rewrite (inv_active _ Hinv), (inv_counted _ Hinv), Hit.
    split; [|done]. apply zcount_zero. intros w Hw. unfold is_active.
    by rewrite (proj1 (list.Forall_forall _ _) Hex w Hw).
Qed.

(** Lowering the concurrency stops no worker: while the pool is open and its
    contexts are live every worker ever launched stays in its loop, so after
    [Resize] to [m] below the number of workers more than [m] items may run. *)
Theorem Resize_down_stops_no_worker n p m :
  reachable n p → input_closed p = false → own_done p = false → ext_done p = false →
  Forall (λ w, pc w ≠ WExited) (workers (Resize p m)) ∧
  (length (workers p) ≤ length (workers (Resize p m)))%nat.
Proof.
  intros Hr Hc Ho He.
  assert (Hinv : inv (Resize p m)) by (eapply inv_reachable, reach_step; [done|constructor]).
  split; [|simpl; rewrite length_app; lia].
  eapply Forall_impl; [|apply (inv_workers _ Hinv)]. intros w [_ Hw] Hpc.
  destruct (Hw Hpc) as [[? _]|Hctx]; [simpl in *; congruence|].
  unfold ctx_of in Hctx. simpl in Hctx. destruct (own_ctx w); congruence.
Qed.
End pool.
Arguments Pool : clear implicits.
Arguments worker : clear implicits.
Arguments worker_pc : clear implicits.
Arguments submitter : clear implicits.

(** Extend a run by one step whose premises hold by computation. *)
Tactic Notation "run" uconstr(c) :=
  eapply rtc_l; [eapply c; try reflexivity; try (simpl; lia)|cbn].
Ltac run_send i :=
  run (step_call _ i);
  run (step_submit _ [] (SCalled i) []); [eapply ss_running; reflexivity|];
  run (step_submit _ [] (SNotStopped i) []); [eapply ss_started; reflexivity|];
  run (step_submit _ [] (SChecked i) []); [eapply ss_pending|];
  run (step_send _ [] i []).
(** Worker steps: receive, decrement [pending], increment [active]. *)
Ltac run_take l1 :=
  run (step_worker _ l1); [eapply ws_receive; reflexivity|].
Ltac run_count l1 :=
  run (step_worker _ l1); [eapply ws_count|].

(** [WaitIdle] can return while a submitted item has not been processed: a
    worker has taken it and decremented the pending counter but not yet
    incremented the active one. *)
Theorem WaitIdle_returns_early :
  ∃ p : Pool Z, reachable 1 p ∧ WaitIdle_returns p = true ∧
    sent p = [7] ∧ processed p = [].
Proof.
  eexists. split; [eapply reach_rtc; [constructor|]|].
  - run step_start. run_send 7. run_take (@nil (worker Z)).
    run_count (@nil (worker Z)). apply rtc_refl.
  - by split_and!.
Qed.

(** A [Submit] racing with [Shutdown] can panic by sending on the closed
    channel: it has passed the check of [stopped] when the channel is closed. *)
Theorem Submit_racing_Shutdown_panics :
  ∃ p : Pool Z, reachable 1 p ∧ panicked p = true.
Proof.
  eexists. split; [eapply reach_rtc; [constructor|]|].
  - run step_start. run (step_call _ 7).
    run (step_submit _ [] (SCalled 7) []); [eapply ss_running; reflexivity|].
    run (step_submit _ [] (SNotStopped 7) []); [eapply ss_started; reflexivity|].
    run (step_submit _ [] (SChecked 7) []); [eapply ss_pending|].
    run step_shutdown. run step_close_done. run step_close_input.
    run (step_send_closed _ [] 7 []). apply rtc_refl.
  - done.
Qed.

(** When the workers' context is cancelled before [Shutdown], as
    [Supervisor.Stop] does, an item accepted by [Submit] can stay in the channel
    for ever: the workers have drained and exited, yet [Submit] still accepts, and
    [Shutdown] finds all workers finished and reports success. *)
Theorem cancel_before_Shutdown_loses_item :
  ∃ p : Pool Z, reachable 1 p ∧ shut p = [HWaiting] ∧ all_exited p ∧
    panicked p = false ∧ subs p = [] ∧ sent p = [7] ∧ processed p = [].
Proof.
  eexists. split; [eapply reach_rtc; [constructor|]|].
  - run step_start. run step_cancel_own.
    run (step_worker _ []); [eapply ws_ctx_done; reflexivity|].
    run (step_worker _ []); [eapply ws_drained; reflexivity|].
    run_send 7. run step_shutdown. run step_close_done. run step_close_input. apply rtc_refl.
  - split_and!; try done. repeat constructor.
Qed.

(** ** Witnesses *)

Lemma reach_one_sent : ∃ p : Pool Z, reachable 1 p ∧ sent p = [7] ∧ input p = [7].
Proof.
  eexists. split; [eapply reach_rtc; [constructor|]|].
  - run step_start. run_send 7. apply rtc_refl.
  - done.
Qed.

Lemma pool_accounting_witness :
  ∃ p : Pool Z, sent p = [7] ∧ [7] ≡ₚ processed p ++ mjoin (held <$> workers p) ++ input p.
Proof.
  destruct reach_one_sent as (p & Hr & Hs & _). exists p. split; [done|].
  rewrite <- Hs. apply (pool_accounting 1 p Hr).
Defined.

Lemma reach_shut : ∃ p : Pool Z, reachable 1 p ∧ sent p = [7] ∧ shut p = [HWaiting] ∧
  workers p ≠ [] ∧ own_done p = false ∧ ext_done p = false ∧ all_exited p.
Proof.
  eexists. split; [eapply reach_rtc; [constructor|]|].
  - run step_start. run_send 7. run_take (@nil (worker Z)). run_count (@nil (worker Z)).
    run (step_worker _ []); [eapply ws_activate|].
    run (step_worker _ []); [eapply (ws_process _ _ _ _ true)|].
    run (step_worker _ []); [eapply ws_deactivate|].
    run step_shutdown. run step_close_done. run step_close_input.
    run (step_worker _ []); [eapply ws_closed; reflexivity|]. apply rtc_refl.
  - split_and!; try done. repeat constructor.
Qed.

Lemma pool_graceful_shutdown_witness :
  ∃ p : Pool Z, sent p = [7] ∧ sent p ≡ₚ processed p.
Proof.
  destruct reach_shut as (p & Hr & Hs & Hh & Hw & Ho & He & Hx). exists p. split; [done|].
  apply (pool_graceful_shutdown 1 p Hr Hh Hw Ho He). done.
Defined.

(** Three workers stay alive in a pool resized from three to one. *)
Lemma reach_resized : ∃ p : Pool Z, reachable 1 p ∧ input_closed p = false ∧
  own_done p = false ∧ ext_done p = false ∧ length (workers p) = 3%nat ∧ concurrency p = 3.
Proof.
  eexists. split; [eapply reach_rtc; [constructor|]|].
  - run step_start. run (step_resize _ 3). apply rtc_refl.
  - done.
Qed.

Lemma Resize_down_stops_no_worker_witness :
  ∃ p : Pool Z, concurrency (Resize p 1) = 1 ∧
    Forall (λ w, pc w ≠ WExited) (workers (Resize p 1)) ∧
    (3 ≤ length (workers (Resize p 1)))%nat.
Proof.
  destruct reach_resized as (p & Hr & Hc & Ho & He & Hl & _). exists p. split; [done|].
  rewrite <- Hl. apply (Resize_down_stops_no_worker 1 p 1 Hr Hc Ho He).
Defined.
