(* ===== verification/Supervisor.v ===== *)
(** * Pool supervisor: [internal/worker/pool/supervisor.go]

    The supervisor handles pools through closures, so it is modelled against
    the interface [PoolOps] and its laws [PoolLaws], which [Pool.Pool]
    implements.  Each method is one critical section of the mutex; the
    iteration order over the map of pools does not matter, because the pools
    are independent, so it is a map traversal. *)

From S2P Require Import Prelude Errors GoStrings Float Pool.

(** ** What the supervisor uses of a pool *)

Class PoolOps (P : Type) := {
  p_stats : P → PoolStats;
  p_resize : P → Z → P;
  p_start : P → P;
  p_cancel : P → P;            (** cancel the context its workers run under *)
  p_concurrency : P → Z;
  p_queueDepth : P → Z
}.

Class PoolLaws (P : Type) `{PoolOps P} := {
  resize_concurrency p n : p_concurrency (p_resize p n) = Z.max 1 n;
  resize_stats p n : p_stats (p_resize p n) = p_stats p;
  start_concurrency p : p_concurrency (p_start p) = p_concurrency p;
  cancel_concurrency p : p_concurrency (p_cancel p) = p_concurrency p
}.

Definition cancel_pool {T} (p : Pool T) : Pool T :=
  mkPool (concurrency p) (cap p) (input p) (input_closed p) (done_closed p) (stats p)
    (started p) (stopped p) (workers p) (subs p) (shut p) true true
    (sent p) (processed p) (panicked p).

#[global] Instance Pool_ops T : PoolOps (Pool T) := {|
  p_stats := Stats; p_resize := Resize; p_start := Start;
  p_cancel := cancel_pool;
  p_concurrency := concurrency; p_queueDepth := QueueDepth |}.

#[global] Instance Pool_laws T : PoolLaws (Pool T).
Proof.
  split; intros; simpl; try done.
  - destruct (Z.ltb_spec n 1); lia.
  - unfold Start. by destruct (started p).
Qed.

(** ** Data *)

Inductive HealthStatus := HealthStatusHealthy | HealthStatusDegraded | HealthStatusUnhealthy.

#[global] Instance HealthStatus_eq_dec : EqDecision HealthStatus.
Proof. solve_decision. Defined.

Record ScaleConfig := mkScaleConfig {
  MinWorkers : Z;
  MaxWorkers : Z;
  ScaleUpThreshold : Z;
  ScaleDownThreshold : Z;
  CooldownPeriod : Z
}.

Record PoolHealth := mkPoolHealth {
  ph_Name : string; ph_Status : HealthStatus; ph_Stats : PoolStats; ph_QueueDepth : Z
}.

Section supervisor.
Context {P : Type} `{PoolOps P}.

Record managedPool := mkManaged {
  mp_pool : P;
  mp_scaleConfig : option ScaleConfig;
  mp_lastScale : Z
}.

Record Supervisor := mkSupervisor {
  pools : gmap string managedPool;
  autoScaleInterval : Z;
  running : bool
}.

Definition NewSupervisor (interval : Z) : Supervisor :=
  mkSupervisor ∅ (if interval <=? 0 then 5000000000 else interval) false.

(** [zero_time] is the zero [time.Time]. *)
Definition Register (zero_time : Z) (s : Supervisor) (name : string) (p : P)
    (cfg : option ScaleConfig) : option error * Supervisor :=
  match pools s !! name with
  | Some _ => (Some (ErrText ("pool " +:+ quote name +:+ " already registered")), s)
  | None => (None, mkSupervisor (<[name := mkManaged p cfg zero_time]> (pools s))
                     (autoScaleInterval s) (running s))
  end.

Definition Supervisor_Start (s : Supervisor) : Supervisor :=
  if running s then s
  else mkSupervisor
         ((λ mp, mkManaged (p_start (mp_pool mp)) (mp_scaleConfig mp) (mp_lastScale mp)) <$> pools s)
         (autoScaleInterval s) true.

(** [Stop] cancels the common context, then shuts every pool down; [shutdown]
    gives the outcome of each pool's shutdown. *)
Definition Stop (shutdown : string → option error) (s : Supervisor) : option error * Supervisor :=
  if running s then
    (errors_Join (omap (λ name, ErrWrapf ("pool " +:+ name) <$> shutdown name)
                       (map_to_list (pools s)).*1),
     mkSupervisor
       ((λ mp, mkManaged (p_cancel (mp_pool mp)) (mp_scaleConfig mp) (mp_lastScale mp)) <$> pools s)
       (autoScaleInterval s) false)
  else (None, s).

Definition resize_pool (now : Z) (n : Z) (mp : managedPool) : managedPool :=
  mkManaged (p_resize (mp_pool mp) n) (mp_scaleConfig mp) now.

Definition ScaleUp_size (mp : managedPool) (delta : Z) : Z :=
  let newSize := p_concurrency (mp_pool mp) +ᵢ delta in
  match mp_scaleConfig mp with
  | Some c => if MaxWorkers c <? newSize then MaxWorkers c else newSize
  | None => newSize
  end.

Definition ScaleDown_size (mp : managedPool) (delta : Z) : Z :=
  let newSize := p_concurrency (mp_pool mp) -ᵢ delta in
  let newSize := match mp_scaleConfig mp with
                 | Some c => if newSize <? MinWorkers c then MinWorkers c else newSize
                 | None => newSize
                 end in
  if newSize <? 1 then 1 else newSize.

Definition scale_with (size : managedPool → Z) (now : Z) (s : Supervisor) (name : string) :
    option error * Supervisor :=
  match pools s !! name with
  | None => (Some (ErrText ("pool " +:+ quote name +:+ " not found")), s)
  | Some mp => (None, mkSupervisor (<[name := resize_pool now (size mp) mp]> (pools s))
                        (autoScaleInterval s) (running s))
  end.
Definition ScaleUp (now : Z) (s : Supervisor) (name : string) (delta : Z) :=
  scale_with (λ mp, ScaleUp_size mp delta) now s name.
Definition ScaleDown (now : Z) (s : Supervisor) (name : string) (delta : Z) :=
  scale_with (λ mp, ScaleDown_size mp delta) now s name.

(** Health of one pool. *)
Definition depth_status (cfg : option ScaleConfig) (depth concurrency : Z) : HealthStatus :=
  match cfg with
  | Some c =>
      if ScaleUpThreshold c *ᵢ 2 <? depth then HealthStatusUnhealthy
      else if ScaleUpThreshold c <? depth then HealthStatusDegraded else HealthStatusHealthy
  | None =>
      if (0 <? concurrency) && (concurrency *ᵢ 4 <? depth) then HealthStatusUnhealthy
      else if (0 <? concurrency) && (concurrency *ᵢ 2 <? depth) then HealthStatusDegraded
      else HealthStatusHealthy
  end.

Definition pool_status (cfg : option ScaleConfig) (st : PoolStats) (depth concurrency : Z) :
    HealthStatus :=
  let status := depth_status cfg depth concurrency in
  if (0 <? Failed st) && (0 <? Completed st) then
    let failRate := f_div (f_of_Z (Failed st)) (f_of_Z (Failed st +ᵢ Completed st)) in
    if f_ltb (f_of_dec 5 (-1)) failRate then HealthStatusUnhealthy
    else if f_ltb (f_of_dec 1 (-1)) failRate then HealthStatusDegraded
    else status
  else status.

Definition HealthCheck (s : Supervisor) : gmap string PoolHealth :=
  map_imap (λ name mp,
    Some (mkPoolHealth name
      (pool_status (mp_scaleConfig mp) (p_stats (mp_pool mp)) (p_queueDepth (mp_pool mp))
                   (p_concurrency (mp_pool mp)))
      (p_stats (mp_pool mp)) (p_queueDepth (mp_pool mp)))) (pools s).

Definition PoolNames (s : Supervisor) : list string := (map_to_list (pools s)).*1.

(** The new size [evaluateScaling] chooses for one pool, if any. *)
Definition scale_decision (c : ScaleConfig) (depth current : Z) : option Z :=
  if (ScaleUpThreshold c <? depth) && (current <? MaxWorkers c) then
    let increase := current /ᵢ 2 in
    let increase := if increase <? 1 then 1 else increase in
    let newSize := current +ᵢ increase in
    Some (if MaxWorkers c <? newSize then MaxWorkers c else newSize)
  else if (depth <? ScaleDownThreshold c) && (MinWorkers c <? current) then
    let decrease := current /ᵢ 4 in
    let decrease := if decrease <? 1 then 1 else decrease in
    let newSize := current -ᵢ decrease in
    Some (if newSize <? MinWorkers c then MinWorkers c else newSize)
  else None.

Definition scale_one (now : Z) (mp : managedPool) : managedPool :=
  match mp_scaleConfig mp with
  | None => mp
  | Some c =>
      if time_sub now (mp_lastScale mp) <? CooldownPeriod c then mp
      else match scale_decision c (p_queueDepth (mp_pool mp)) (p_concurrency (mp_pool mp)) with
           | Some n => resize_pool now n mp
           | None => mp
           end
  end.

Definition evaluateScaling (now : Z) (s : Supervisor) : Supervisor :=
  mkSupervisor (scale_one now <$> pools s) (autoScaleInterval s) (running s).

(** ** Scaling stays within the configured bounds *)

Definition config_ok (c : ScaleConfig) : Prop :=
  1 ≤ MinWorkers c ≤ MaxWorkers c ∧ in_i64 (2 * MaxWorkers c).

(** Every configured pool has between its minimal and maximal number of workers. *)
Definition within (s : Supervisor) : Prop :=
  map_Forall (λ _ mp, ∀ c, mp_scaleConfig mp = Some c →
    config_ok c ∧ MinWorkers c ≤ p_concurrency (mp_pool mp) ≤ MaxWorkers c) (pools s).

Lemma scale_decision_spec c depth cur n :
  config_ok c → MinWorkers c ≤ cur ≤ MaxWorkers c →
  scale_decision c depth cur = Some n →
  MinWorkers c ≤ n ≤ MaxWorkers c ∧
  ((ScaleUpThreshold c < depth ∧ cur < n ≤ cur + Z.max 1 (cur / 2)) ∨
   (¬ (ScaleUpThreshold c < depth ∧ cur < MaxWorkers c) ∧
    depth < ScaleDownThreshold c ∧ cur - Z.max 1 (cur / 4) ≤ n < cur)).
Proof.
  intros [[Hmin Hmm] Hr] Hc. unfold scale_decision, in_i64, int64_min, int64_max in *.
  rewrite !Z.quot_div_nonneg by lia.
  assert (0 ≤ cur / 2 ≤ cur ∧ 0 ≤ cur / 4 ≤ cur) as [??].
  { pose proof (Z.div_pos cur 2). pose proof (Z.div_pos cur 4).
    pose proof (Z.div_le_upper_bound cur 2 cur). pose proof (Z.div_le_upper_bound cur 4 cur). lia. }
  rewrite !(i64_id (_ / _)) by (unfold in_i64, int64_min, int64_max; lia).
  destruct (Z.ltb_spec (ScaleUpThreshold c) depth), (Z.ltb_spec cur (MaxWorkers c)); simpl;
  try (destruct (Z.ltb_spec depth (ScaleDownThreshold c)), (Z.ltb_spec (MinWorkers c) cur); simpl);
  try done; intros [= <-];
  destruct (Z.ltb_spec (cur / 2) 1), (Z.ltb_spec (cur / 4) 1);
  rewrite !i64_id by (unfold in_i64, int64_min, int64_max; lia);
  repeat match goal with |- context [?a <? ?b] => destruct (Z.ltb_spec a b) end; lia.
Qed.

Lemma scale_decision_progress c depth cur :
  ScaleUpThreshold c < depth → cur < MaxWorkers c → is_Some (scale_decision c depth cur).
Proof.
  intros H1 H2. unfold scale_decision.
  destruct (Z.ltb_spec (ScaleUpThreshold c) depth), (Z.ltb_spec cur (MaxWorkers c)); simpl; try lia.
  eauto.
Qed.

Context {HL : PoolLaws P}.

Lemma scale_one_concurrency now mp c :
  mp_scaleConfig mp = Some c → config_ok c →
  MinWorkers c ≤ p_concurrency (mp_pool mp) ≤ MaxWorkers c →
  p_concurrency (mp_pool (scale_one now mp)) =
    if time_sub now (mp_lastScale mp) <? CooldownPeriod c then p_concurrency (mp_pool mp)
    else default (p_concurrency (mp_pool mp))
           (scale_decision c (p_queueDepth (mp_pool mp)) (p_concurrency (mp_pool mp))).
Proof using HL.
  intros Hc Hok Hb. unfold scale_one. rewrite Hc.
  destruct (time_sub _ _ <? _); [done|].
  destruct (scale_decision _ _ _) as [n|] eqn:Hn; [|done]. simpl.
  rewrite resize_concurrency.
  apply scale_decision_spec in Hn as [? _]; [|done..]. destruct Hok. lia.
Qed.

Lemma scale_one_config now mp : mp_scaleConfig (scale_one now mp) = mp_scaleConfig mp.
Proof. unfold scale_one. repeat case_match; simpl; congruence. Qed.

(** A scaling round keeps the number of workers of every configured pool
    between its minimum and maximum; a pool whose queue is above the scale-up
    threshold and whose cooldown has passed grows strictly (by at most half)
    until the maximum, one whose queue is below the scale-down threshold
    shrinks strictly (by at most a quarter) until the minimum, and pools in
    cooldown or without configuration keep their size. *)
Theorem evaluateScaling_spec now s :
  within s →
  within (evaluateScaling now s) ∧
  ∀ name mp, pools s !! name = Some mp →
    ∃ mp', pools (evaluateScaling now s) !! name = Some mp' ∧
    let cur := p_concurrency (mp_pool mp) in
    let new := p_concurrency (mp_pool mp') in
    let depth := p_queueDepth (mp_pool mp) in
    match mp_scaleConfig mp with
    | None => mp' = mp
    | Some c =>
        (time_sub now (mp_lastScale mp) < CooldownPeriod c → mp' = mp) ∧
        (CooldownPeriod c ≤ time_sub now (mp_lastScale mp) →
          (ScaleUpThreshold c < depth → cur < MaxWorkers c →
             cur < new ≤ cur + Z.max 1 (cur / 2) ∧ mp_lastScale mp' = now) ∧
          (depth ≤ ScaleUpThreshold c → depth < ScaleDownThreshold c → MinWorkers c < cur →
             cur - Z.max 1 (cur / 4) ≤ new < cur ∧ mp_lastScale mp' = now) ∧
          (ScaleDownThreshold c ≤ depth ≤ ScaleUpThreshold c → mp' = mp))
    end.
Proof using HL.
  intros Hw. split.
  - intros name mp'. simpl. rewrite lookup_fmap. intros (mp & Hmp & ->)%fmap_Some.
    intros c Hc. rewrite scale_one_config in Hc. destruct (Hw _ _ Hmp c Hc) as [Hok Hb].
    split; [done|]. rewrite (scale_one_concurrency now mp c) by done.
    destruct (time_sub _ _ <? _); [done|]. destruct (scale_decision _ _ _) eqn:Hn; simpl; [|done].
    by apply scale_decision_spec in Hn as [? _].
  - intros name mp Hmp. exists (scale_one now mp). split; [simpl; by rewrite lookup_fmap, Hmp|].
    simpl. destruct (mp_scaleConfig mp) as [c|] eqn:Hc; [|unfold scale_one; by rewrite Hc].
    destruct (Hw _ _ Hmp c Hc) as [Hok Hb].
    rewrite (scale_one_concurrency now mp c) by done. unfold scale_one. rewrite Hc.
    destruct (Z.ltb_spec (time_sub now (mp_lastScale mp)) (CooldownPeriod c)); [split; [done|lia]|].
    split; [lia|]. intros _. 
    pose proof (scale_decision_spec c (p_queueDepth (mp_pool mp)) (p_concurrency (mp_pool mp))) as Hd.
    split_and!.
    + intros H1 H2. destruct (scale_decision_progress _ _ _ H1 H2) as [n Hn].
      rewrite Hn in Hd |- *. destruct (Hd n Hok Hb eq_refl). destruct Hok. simpl. split; [|done]. lia.
    + intros H1 H2 H3. unfold scale_decision in *.
      destruct (Z.ltb_spec (ScaleUpThreshold c) (p_queueDepth (mp_pool mp))); [lia|]. simpl in *.
      destruct (Z.ltb_spec (p_queueDepth (mp_pool mp)) (ScaleDownThreshold c)); [|lia].
      destruct (Z.ltb_spec (MinWorkers c) (p_concurrency (mp_pool mp))); [|lia]. simpl in *.
      destruct (Hd _ Hok Hb eq_refl). split; [|done]. lia.
    + intros H1. unfold scale_decision.
      destruct (Z.ltb_spec (ScaleUpThreshold c) (p_queueDepth (mp_pool mp))); [lia|].
      destruct (Z.ltb_spec (p_queueDepth (mp_pool mp)) (ScaleDownThreshold c)); [lia|]. done.
Qed.

(** Sizes after rounds that observe the given queue depths, cooldown elapsed. *)
Definition scale_rounds (c : ScaleConfig) (depths : list Z) (cur : Z) : Z :=
  foldl (λ cur depth, default cur (scale_decision c depth cur)) cur depths.

(** Under a persistent backlog (every round finds the queue above the
    scale-up threshold) a pool reaches its maximum after at most as many rounds
    as workers are missing, and stays there. *)
Theorem scale_up_reaches_max c depths cur :
  config_ok c → ScaleDownThreshold c ≤ ScaleUpThreshold c →
  MinWorkers c ≤ cur ≤ MaxWorkers c →
  Forall (λ d, ScaleUpThreshold c < d) depths →
  MaxWorkers c - cur ≤ Z.of_nat (length depths) →
  scale_rounds c depths cur = MaxWorkers c.
Proof.
  intros Hok Ht Hb Hd. revert cur Hb. induction Hd as [|d ds Hd _ IH]; intros cur Hb; simpl; [lia|].
  intros Hl. unfold scale_rounds in *. simpl.
  destruct (decide (cur < MaxWorkers c)) as [Hlt|].
  - destruct (scale_decision_progress c d cur Hd Hlt) as [n Hn]. rewrite Hn. simpl.
    apply scale_decision_spec in Hn; [|done..]. apply IH; lia.
  - destruct (scale_decision c d cur) eqn:Hn; simpl; [|apply IH; lia].
    apply scale_decision_spec in Hn; [|done..]. lia.
Qed.

(** A pool whose every item failed (no completion) is reported by its queue
    depth alone, so an idle one is healthy; and a failure rate between a tenth
    and a half lowers the report of an overloaded pool from unhealthy to
    degraded. *)
Theorem HealthCheck_failures cfg st depth concurrency :
  (Completed st = 0 → pool_status cfg st depth concurrency = depth_status cfg depth concurrency) ∧
  (let failRate := f_div (f_of_Z (Failed st)) (f_of_Z (Failed st +ᵢ Completed st)) in
   0 < Failed st → 0 < Completed st →
   f_ltb (f_of_dec 5 (-1)) failRate = false → f_ltb (f_of_dec 1 (-1)) failRate = true →
   pool_status cfg st depth concurrency = HealthStatusDegraded).
Proof.
  unfold pool_status. split.
  - intros ->. by rewrite andb_false_r.
  - cbv zeta. intros Hf Hc -> ->.
    by destruct (Z.ltb_spec 0 (Failed st)), (Z.ltb_spec 0 (Completed st)); try lia.
Qed.
End supervisor.
Arguments managedPool : clear implicits.
Arguments Supervisor : clear implicits.

(** ** Witnesses *)

Definition cfg_example : ScaleConfig := mkScaleConfig 2 10 100 10 0.

(** A pool of four workers with 500 queued items. *)
Definition pool_example : Pool Z :=
  mkPool 4 500%nat [] false false (mkStats 0 500 0 0) true false [] [] [] false false [] [] false.
Definition sup_example : Supervisor (Pool Z) :=
  mkSupervisor {[ "p" := mkManaged pool_example (Some cfg_example) 0 ]} 5000000000 true.

Lemma within_example : within sup_example.
Proof.
  unfold within, sup_example. simpl. apply map_Forall_singleton. simpl. intros c [= <-].
  unfold config_ok, in_i64, int64_min, int64_max. simpl. lia.
Qed.

Lemma evaluateScaling_spec_witness :
  within sup_example ∧ within (evaluateScaling 1 sup_example) ∧
  p_concurrency <$> (mp_pool <$> pools (evaluateScaling 1 sup_example) !! "p") = Some 6.
Proof.
  split; [apply within_example|]. split; [|vm_compute; reflexivity].
  apply (evaluateScaling_spec 1 sup_example within_example).
Defined.

Lemma scale_up_reaches_max_witness :
  scale_rounds cfg_example [500; 400; 300; 200; 150; 120] 4 = 10.
Proof.
  apply (scale_up_reaches_max cfg_example); simpl.
  - unfold config_ok, in_i64, int64_min, int64_max. simpl. lia.
  - lia.
  - lia.
  - repeat constructor; simpl; lia.
  - lia.
Defined.

Lemma HealthCheck_failures_witness :
  pool_status (Some cfg_example) (mkStats 0 0 0 7) 0 4 = HealthStatusHealthy ∧
  depth_status (Some cfg_example) 500 4 = HealthStatusUnhealthy ∧
  pool_status (Some cfg_example) (mkStats 0 500 8 2) 500 4 = HealthStatusDegraded.
Proof.
  split_and!.
  - apply (HealthCheck_failures (Some cfg_example) (mkStats 0 0 0 7) 0 4). done.
  - done.
  - apply (HealthCheck_failures (Some cfg_example) (mkStats 0 500 8 2) 500 4); try done;
      vm_compute; reflexivity.
Defined.
