(* ===== verification/Activities.v ===== *)
(** * Extraction and load activities: [internal/orchestration/activities]

    [FetchBatchActivity], [DeterminePartitionsActivity],
    [SaveCheckpointActivity], [WriteBatchActivity], [ConfirmWriteActivity] and
    the shared types of [internal/orchestration/types].  The consumer loop of
    [FetchBatchActivity] cancels the source when the batch is full and then
    drains what is still sent; [cancel_after] is the message at which that
    happens. *)

From S2P Require Import Prelude GoStrings Errors Value Protocol.

(** ** Shared types *)

Record FieldMapping := mkFieldMapping {
  fm_SourceField : string; fm_DestField : string; fm_CoerceType : string
}.

Record PartitionRange := mkPartitionRange {
  pr_PartitionID : Z; pr_StartKey : string; pr_EndKey : string; pr_Offset : Z; pr_Limit : Z
}.

Definition DefaultBatchSize : Z := 1000.
Definition ParallelPartitionThreshold : Z := 10000.
Definition MaxPartitions : Z := 8.
Definition maxPartitionsLimit : Z := 8.

(** ** FetchBatchActivity *)

Record FetchBatchInput := mkFetchInput {
  fi_SourceConnectorID : string;
  fi_SourceConfig : RawMessage;
  fi_Streams : list ConfiguredStream;
  fi_State : state_map;
  fi_BatchSize : Z;
  fi_Partition : option PartitionRange
}.

Record FetchBatchOutput := mkFetchOutput {
  fo_Records : list Rec; fo_NewState : state_map; fo_HasMore : bool
}.

Definition partition_doc (p : PartitionRange) : obj :=
  <["partition_id" := VInt (pr_PartitionID p)]>
  (<["offset" := VInt (pr_Offset p)]>
  (<["limit" := VInt (pr_Limit p)]>
  (<["start_key" := VString (pr_StartKey p)]>
  (<["end_key" := VString (pr_EndKey p)]> ∅)))).

(** The state handed to the source. *)
Definition read_state (input : FetchBatchInput) : res state_map :=
  match fi_Partition input with
  | None => Ok (fi_State input)
  | Some p =>
      match marshal_map (partition_doc p) with
      | Ok d => Ok (<["__partition" := d]> (fi_State input))
      | Err e => Err (ErrWrapf "failed to marshal partition state" e)
      | Panic m => Panic m
      end
  end.

(** One message of the consumer loop. *)
Definition consume (limit : Z) (acc : FetchBatchOutput) (msg : Message) : FetchBatchOutput :=
  match msg_Type msg with
  | MessageTypeRecord =>
      match msg_Record msg with
      | Some r =>
          let records := fo_Records acc ++ [r] in
          mkFetchOutput records (fo_NewState acc)
            ((limit <=? Z.of_nat (length records)) || fo_HasMore acc)
      | None => acc
      end
  | MessageTypeState =>
      match msg_State msg with
      | Some s =>
          let key := if bool_decide (st_Stream s = "") then "__global" else st_Stream s in
          mkFetchOutput (fo_Records acc) (<[key := st_Data s]> (fo_NewState acc)) (fo_HasMore acc)
      | None => acc
      end
  | _ => acc
  end.

Definition consume_all (limit : Z) (acc : FetchBatchOutput) (msgs : list Message) : FetchBatchOutput :=
  foldl (consume limit) acc msgs.

(** Number of messages consumed when the loop first cancels the source. *)
Fixpoint cancel_after (limit : Z) (acc : FetchBatchOutput) (msgs : list Message) : option nat :=
  match msgs with
  | [] => None
  | msg :: msgs =>
      let acc := consume limit acc msg in
      if fo_HasMore acc then Some 1%nat else S <$> cancel_after limit acc msgs
  end.

Section activities.
Context {W : Type}.

Definition batch_limit (input : FetchBatchInput) : Z :=
  if fi_BatchSize input <=? 0 then 1000 else fi_BatchSize input.

Definition fetch_init (state : state_map) : FetchBatchOutput :=
  mkFetchOutput [] (delete "__partition" state) false.

(** What the source sends during the activity, and the error of [Read]. *)
Definition source_run (src : Source) (input : FetchBatchInput) (state : state_map) :
    list Message * option error :=
  let read := src_Read src (fi_SourceConfig input) (mkConfiguredCatalog (fi_Streams input)) state in
  match cancel_after (batch_limit input) (fetch_init state) (read None).1 with
  | None => read None
  | Some n => read (Some n)
  end.

Definition FetchBatchActivity (reg : connectorRegistry W) (input : FetchBatchInput) :
    res FetchBatchOutput :=
  match GetSource reg (fi_SourceConnectorID input) with
  | Err e => Err (NewConnectorError (fi_SourceConnectorID input) "fetch_batch" e)
  | Panic m => Panic m
  | Ok src =>
      state ← read_state input;
      (* make(chan Message, n) panics on a negative size *)
      if fi_BatchSize input <? 0 then Panic "makechan: size out of range"
      else
        let '(msgs, readErr) := source_run src input state in
        let out := consume_all (batch_limit input) (fetch_init state) msgs in
        match readErr with
        | Some e => if fo_HasMore out then Ok out
                    else Err (NewConnectorError (fi_SourceConnectorID input) "read" e)
        | None => Ok out
        end
  end.

(** ** DeterminePartitionsActivity *)

Record DeterminePartitionsInput := mkPartitionsInput {
  di_SourceConnectorID : string;
  di_SourceConfig : RawMessage;
  di_Streams : list ConfiguredStream;
  di_State : state_map;
  di_TotalEstimate : Z
}.

Definition num_parts (totalEstimate : Z) : Z :=
  let n := totalEstimate /ᵢ DefaultBatchSize in
  let n := if n <? 1 then 1 else n in
  if maxPartitionsLimit <? n then maxPartitionsLimit else n.

Definition partition_at (totalEstimate n i : Z) : PartitionRange :=
  let rpp := totalEstimate /ᵢ n in
  let offset := i *ᵢ rpp in
  let limit := if i =? n - 1 then totalEstimate -ᵢ offset else rpp in
  mkPartitionRange i "" "" offset limit.

Definition partitions_of (totalEstimate : Z) : list PartitionRange :=
  map (partition_at totalEstimate (num_parts totalEstimate)) (seqZ 0 (num_parts totalEstimate)).

Definition DeterminePartitionsActivity (reg : connectorRegistry W) (input : DeterminePartitionsInput) :
    res (list PartitionRange) :=
  if di_TotalEstimate input <=? 0 then
    match GetSource reg (di_SourceConnectorID input) with
    | Err e => Err (NewConnectorError (di_SourceConnectorID input) "determine_partitions" e)
    | Panic m => Panic m
    | Ok src =>
        match src_Discover src (di_SourceConfig input) with
        | Err e => Err (NewConnectorError (di_SourceConnectorID input) "discover_for_partitions" e)
        | Panic m => Panic m
        | Ok catalog => Ok (partitions_of (Z.of_nat (length (cat_Streams catalog)) *ᵢ 10000))
        end
    end
  else Ok (partitions_of (di_TotalEstimate input)).

(** ** SaveCheckpointActivity: serialises the state and stores it nowhere *)

Record SaveCheckpointInput := mkSaveInput {
  sc_TenantID : string; sc_SyncID : string; sc_State : state_map
}.

Definition raw_ok (d : RawMessage) : bool := match d with RawInvalid _ => false | _ => true end.

Definition SaveCheckpointActivity (input : SaveCheckpointInput) : option error :=
  if bool_decide (map_Forall (λ _ d, raw_ok d = true) (sc_State input)) then None
  else Some (ErrWrapf "failed to marshal checkpoint state" err_unsupported).

(** ** WriteBatchActivity and ConfirmWriteActivity *)

Record WriteBatchInput := mkWriteInput {
  wi_DestConnectorID : string;
  wi_DestConfig : RawMessage;
  wi_Records : list Rec;
  wi_Streams : list ConfiguredStream;
  wi_BatchIndex : Z
}.
Record WriteBatchOutput := mkWriteOutput {
  wo_RecordsWritten : Z; wo_Errors : list string; wo_BatchIndex : Z
}.

Definition WriteBatchActivity (reg : connectorRegistry W) (input : WriteBatchInput) (w : W) :
    res WriteBatchOutput * W :=
  match GetDestination reg (wi_DestConnectorID input) with
  | Err e => (Err (NewConnectorError (wi_DestConnectorID input) "write_batch" e), w)
  | Panic m => (Panic m, w)
  | Ok dest =>
      let '(r, w) := dst_Write dest (wi_DestConfig input) (mkConfiguredCatalog (wi_Streams input))
                       (map record_message (wi_Records input)) w in
      match r with
      | Err e => (Err (NewConnectorError (wi_DestConnectorID input) "write" e), w)
      | Panic m => (Panic m, w)
      | Ok wr => (Ok (mkWriteOutput (wr_RecordsWritten wr) (map we_Message (wr_Errors wr))
                                    (wi_BatchIndex input)), w)
      end
  end.

Record ConfirmWriteInput := mkConfirmInput {
  ci_DestConnectorID : string;
  ci_DestConfig : RawMessage;
  ci_ExpectedCount : Z;
  ci_ActualCount : Z;
  ci_BatchErrors : list string
}.
Record ConfirmWriteOutput := mkConfirmOutput {
  co_Confirmed : bool; co_DiscrepancyMsg : string; co_Errors : list string
}.

Definition ConfirmWriteActivity (reg : connectorRegistry W) (input : ConfirmWriteInput) :
    res ConfirmWriteOutput :=
  match GetDestination reg (ci_DestConnectorID input) with
  | Err e => Err (NewConnectorError (ci_DestConnectorID input) "confirm_write" e)
  | Panic m => Panic m
  | Ok dest =>
      match dst_Check dest (ci_DestConfig input) with
      | Err e => Ok (mkConfirmOutput false "" ["destination health check failed: " +:+ Error e])
      | Panic m => Panic m
      | Ok check =>
          if bool_decide (cr_Status check = CheckStatusSucceeded) then
            let mismatch := negb (ci_ActualCount input =? ci_ExpectedCount input) in
            Ok (mkConfirmOutput
              (negb mismatch && bool_decide (ci_BatchErrors input = []))
              (if mismatch then
                 "record count mismatch: expected " +:+ pretty (ci_ExpectedCount input)
                 +:+ ", got " +:+ pretty (ci_ActualCount input)
                 +:+ " (delta: " +:+ pretty (ci_ExpectedCount input -ᵢ ci_ActualCount input) +:+ ")"
               else "")
              (ci_BatchErrors input))
          else Ok (mkConfirmOutput false "" ["destination unhealthy: " +:+ cr_Message check])
      end
  end.
End activities.

(** ** Lemmas and properties *)

(** The record payloads of a message sequence. *)
Definition records_of (msgs : list Message) : list Rec :=
  omap (λ m, if bool_decide (msg_Type m = MessageTypeRecord) then msg_Record m else None) msgs.

(** The checkpoints, the later ones overriding the earlier ones. *)
Definition states_of (st : state_map) (msgs : list Message) : state_map :=
  foldl (λ st m, if bool_decide (msg_Type m = MessageTypeState) then
                   match msg_State m with
                   | Some s => <[(if bool_decide (st_Stream s = "") then "__global" else st_Stream s)
                                 := st_Data s]> st
                   | None => st
                   end else st) st msgs.

Arguments records_of : simpl never.

Lemma records_of_nil : records_of [] = [].
Proof. done. Qed.
Lemma records_of_app m1 m2 : records_of (m1 ++ m2) = records_of m1 ++ records_of m2.
Proof. apply omap_app. Qed.

Lemma records_of_cons m l : records_of (m :: l) = records_of [m] ++ records_of l.
Proof. apply (records_of_app [m] l). Qed.

(** [HasMore] tells that the collected records have reached the limit. *)
Definition acc_ok (limit : Z) (acc : FetchBatchOutput) : Prop :=
  fo_HasMore acc = (limit <=? Z.of_nat (length (fo_Records acc))).

Lemma consume_spec limit acc m :
  consume limit acc m =
    mkFetchOutput (fo_Records acc ++ records_of [m]) (states_of (fo_NewState acc) [m])
      (match records_of [m] with
       | [] => fo_HasMore acc
       | _ => (limit <=? Z.of_nat (length (fo_Records acc) + 1)) || fo_HasMore acc
       end).
Proof.
  destruct acc as [rs st hm]. unfold consume, records_of, states_of. simpl.
  destruct (msg_Type m); simpl; rewrite ?(right_id_L [] (++)); try done.
  - destruct (msg_Record m); simpl; rewrite ?(right_id_L [] (++)); [|done].
    by rewrite length_app.
  - by destruct (msg_State m).
Qed.

Lemma acc_ok_consume limit acc m : acc_ok limit acc → acc_ok limit (consume limit acc m).
Proof.
  unfold acc_ok. rewrite consume_spec. simpl. intros ->. unfold records_of. simpl.
  case_bool_decide; simpl; [|by rewrite (right_id_L [] (++))].
  destruct (msg_Record m); simpl; [|by rewrite (right_id_L [] (++))].
  rewrite length_app. simpl.
  destruct (Z.leb_spec limit (Z.of_nat (length (fo_Records acc)))),
    (Z.leb_spec limit (Z.of_nat (length (fo_Records acc) + 1))); simpl; lia || done.
Qed.

Lemma consume_all_spec limit acc msgs :
  acc_ok limit acc →
  consume_all limit acc msgs =
    mkFetchOutput (fo_Records acc ++ records_of msgs) (states_of (fo_NewState acc) msgs)
      (limit <=? Z.of_nat (length (fo_Records acc ++ records_of msgs))).
Proof.
  unfold consume_all. revert acc. induction msgs as [|m msgs IH]; intros acc Hok; simpl.
  - rewrite records_of_nil, (right_id_L [] (++)), <- Hok. by destruct acc.
  - rewrite IH by by apply acc_ok_consume. rewrite consume_spec. simpl.
    by rewrite (records_of_cons m msgs), (assoc_L (++)).
Qed.

(** The source is cancelled at the message that completes the batch. *)
Lemma cancel_after_spec limit acc msgs :
  acc_ok limit acc → fo_HasMore acc = false →
  match cancel_after limit acc msgs with
  | Some n => (n ≤ length msgs)%nat ∧
      Z.of_nat (length (fo_Records acc ++ records_of (take n msgs))) = limit
  | None => Z.of_nat (length (fo_Records acc ++ records_of msgs)) < limit
  end.
Proof.
  revert acc. induction msgs as [|m msgs IH]; intros acc Hok Hh; simpl.
  - unfold acc_ok in Hok. rewrite Hok in Hh. rewrite records_of_nil, (right_id_L [] (++)). lia.
  - pose proof (acc_ok_consume limit acc m Hok) as Hok'.
    assert (∀ l, fo_Records (consume limit acc m) ++ records_of l
                 = fo_Records acc ++ records_of (m :: l)) as Heq.
    { intros l. rewrite consume_spec. simpl. 
      by rewrite (records_of_cons m l), (assoc_L (++)). }
    destruct (fo_HasMore (consume limit acc m)) eqn:Hc.
    + simpl. split; [lia|]. change (m :: take 0 msgs) with (m :: []). rewrite <- Heq. unfold acc_ok in Hok, Hok'.
      rewrite Hc in Hok'. rewrite Hh in Hok. rewrite records_of_nil, (right_id_L [] (++)).
      rewrite consume_spec in Hok' |- *. simpl in *. rewrite length_app in *.
      assert (length (records_of [m]) ≤ 1)%nat.
      { unfold records_of. simpl. case_bool_decide; [destruct (msg_Record m)|]; simpl; lia. }
      symmetry in Hok, Hok'. apply Z.leb_gt in Hok. apply Z.leb_le in Hok'. lia.
    + specialize (IH _ Hok' Hc). destruct (cancel_after _ _ msgs); simpl; rewrite <- Heq; [|done].
      destruct IH. split; [lia|done].
Qed.

Section fetch.
Context {W : Type} (reg : connectorRegistry W).

Lemma batch_limit_pos input : 1 ≤ batch_limit input.
Proof. unfold batch_limit. destruct (Z.leb_spec (fi_BatchSize input) 0); lia. Qed.

Lemma fetch_init_ok input st : acc_ok (batch_limit input) (fetch_init st).
Proof.
  unfold acc_ok. simpl. pose proof (batch_limit_pos input). symmetry. apply Z.leb_gt. lia.
Qed.

(** A fetch that succeeds tells truthfully whether the source had a full batch
    ([HasMore]); without a full batch it returns exactly the source's records in
    order and its last checkpoint per stream, and with one the first records up
    to the batch size, followed only by records the source still sent after it
    was cancelled. *)
Theorem FetchBatch_spec input src st out :
  SourceLaws src → GetSource reg (fi_SourceConnectorID input) = Ok src →
  read_state input = Ok st → FetchBatchActivity reg input = Ok out →
  let full := src_Read src (fi_SourceConfig input) (mkConfiguredCatalog (fi_Streams input)) st None in
  let limit := Z.to_nat (batch_limit input) in
  (fo_HasMore out = true ↔ (limit ≤ length (records_of full.1))%nat) ∧
  (fo_HasMore out = false →
     fo_Records out = records_of full.1 ∧
     fo_NewState out = states_of (delete "__partition" st) full.1 ∧ full.2 = None) ∧
  (fo_HasMore out = true →
     ∃ rest, fo_Records out = take limit (records_of full.1) ++ rest).
Proof.
  intros Hlaws Hsrc Hst Hout. unfold FetchBatchActivity in Hout. rewrite Hsrc, Hst in Hout.
  simpl in Hout. destruct (Z.ltb_spec (fi_BatchSize input) 0); [done|].
  pose proof (batch_limit_pos input) as Hpos. pose proof (fetch_init_ok input st) as Hinit.
  unfold source_run in Hout. set (read := src_Read src _ _ st) in *.
  pose proof (cancel_after_spec _ _ (read None).1 Hinit eq_refl) as Hc.
  cbv zeta. set (full := read None) in *. set (L := batch_limit input) in *.
  destruct (cancel_after L (fetch_init st) full.1) as [n|].
  - destruct Hc as [Hn Hlen]. simpl in Hlen.
    pose proof (read_prefix (fi_SourceConfig input) (mkConfiguredCatalog (fi_Streams input)) st n) as Hpre.
    fold read in Hpre. fold full in Hpre.
    destruct (read (Some n)) as [msgs rerr] eqn:Hrun. simpl in Hpre.
    rewrite (consume_all_spec L _ msgs Hinit) in Hout. simpl in Hout.
    assert (records_of msgs = records_of (take n full.1) ++ records_of (drop n msgs)) as Hrec.
    { by rewrite <- Hpre, <- records_of_app, take_drop. }
    assert (records_of full.1 = records_of (take n full.1) ++ records_of (drop n full.1)) as Hfull.
    { by rewrite <- records_of_app, take_drop. }
    assert (L <=? Z.of_nat (length (records_of msgs)) = true) as Hmore.
    { apply Z.leb_le. rewrite Hrec, length_app. lia. }
    rewrite Hmore in Hout.
    assert (out = mkFetchOutput (records_of msgs) (states_of (delete "__partition" st) msgs) true) as ->.
    { destruct rerr; simpl in Hout; by injection Hout as <-. }
    simpl. split; [|split; [done|]].
    + split; [|done]. intros _. rewrite Hfull, length_app. lia.
    + intros _. exists (records_of (drop n msgs)). rewrite Hrec, Hfull. f_equal.
      rewrite take_app_le by lia. rewrite (take_ge (records_of _)); [done|lia].
  - simpl in Hc. destruct full as [msgs rerr] eqn:Hrun. simpl in Hc.
    rewrite (consume_all_spec L _ msgs Hinit) in Hout. simpl in Hout.
    assert (L <=? Z.of_nat (length (records_of msgs)) = false) as Hmore by (apply Z.leb_gt; lia).
    rewrite Hmore in Hout. destruct rerr as [e|]; [done|]. injection Hout as <-. simpl.
    split_and!; [|done|done]. split; [done|]. intros ?. lia.
Qed.
End fetch.

(** ** Partitions *)

Lemma num_parts_eq total : 0 ≤ total ≤ int64_max →
  num_parts total = Z.min 8 (Z.max 1 (total / 1000)).
Proof.
  intros H. unfold num_parts, DefaultBatchSize, maxPartitionsLimit, int64_max in *.
  rewrite Z.quot_div_nonneg by lia.
  assert (0 ≤ total / 1000 ≤ total) by (split; [apply Z.div_pos|apply Z.div_le_upper_bound]; lia).
  rewrite i64_id by (unfold in_i64, int64_min, int64_max; lia).
  destruct (Z.ltb_spec (total / 1000) 1); [simpl; lia|]. destruct (Z.ltb_spec 8 (total / 1000)); lia.
Qed.

Lemma partition_at_eq total i : 0 ≤ total ≤ int64_max → 0 ≤ i < num_parts total →
  partition_at total (num_parts total) i =
    let rpp := total / num_parts total in
    mkPartitionRange i "" "" (i * rpp) (if i =? num_parts total - 1 then total - i * rpp else rpp).
Proof.
  intros Ht Hi. unfold partition_at. set (n := num_parts total) in *.
  rewrite Z.quot_div_nonneg by lia.
  pose proof (Z.mul_div_le total n ltac:(lia)).
  assert (0 ≤ total / n ≤ total) by (split; [apply Z.div_pos|apply Z.div_le_upper_bound]; nia).
  unfold int64_max in *.
  rewrite (i64_id (total / n)) by (unfold in_i64, int64_min, int64_max; lia). cbv zeta.
  rewrite (i64_id (i * _)) by (unfold in_i64, int64_min, int64_max; nia).
  rewrite (i64_id (total - _)) by (unfold in_i64, int64_min, int64_max; nia). done.
Qed.

Lemma partitions_lookup total k : 0 ≤ total ≤ int64_max →
  partitions_of total !! k =
    if decide (Z.of_nat k < num_parts total)
    then Some (partition_at total (num_parts total) (Z.of_nat k)) else None.
Proof.
  intros Ht. unfold partitions_of. rewrite list_lookup_fmap.
  destruct (decide _) as [Hk|Hk].
  - rewrite lookup_seqZ_lt by done. simpl. by rewrite Z.add_0_l.
  - by rewrite lookup_seqZ_ge by lia.
Qed.

(** The extraction partitions cover the estimated records exactly: there are
    between one and eight, and every offset below the estimate lies in exactly
    one of them. *)
Theorem partitions_exact total z :
  0 ≤ z < total → total ≤ int64_max →
  (1 ≤ length (partitions_of total) ≤ 8)%nat ∧
  ∃ k p, partitions_of total !! k = Some p ∧ pr_PartitionID p = Z.of_nat k ∧
    pr_Offset p ≤ z < pr_Offset p + pr_Limit p ∧
    ∀ k' p', partitions_of total !! k' = Some p' →
      pr_Offset p' ≤ z < pr_Offset p' + pr_Limit p' → k' = k.
Proof.
  intros Hz Ht. pose proof (num_parts_eq total ltac:(lia)) as Hn.
  set (n := num_parts total) in *. set (rpp := total / n).
  assert (0 ≤ total / 1000 ≤ total) by (split; [apply Z.div_pos|apply Z.div_le_upper_bound]; lia).
  assert (Hrpp : 1 ≤ rpp).
  { apply Z.div_le_lower_bound; [lia|]. destruct (decide (total / 1000 ≤ 1)); [lia|].
    pose proof (Z.mul_div_le total 1000 ltac:(lia)). lia. }
  pose proof (Z.mul_div_le total n ltac:(lia)) as Hmul. fold rpp in Hmul.
  split.
  { unfold partitions_of. rewrite length_map, length_seqZ. fold n. lia. }
  assert (0 ≤ z / rpp) by (apply Z.div_pos; lia).
  pose proof (Z.mul_div_le z rpp ltac:(lia)). pose proof (Z.mul_succ_div_gt z rpp ltac:(lia)).
  set (i := Z.min (z / rpp) (n - 1)).
  assert (∀ k', 0 ≤ k' < n → let p := partition_at total n k' in
    pr_Offset p ≤ z < pr_Offset p + pr_Limit p ↔ k' = i) as Hin.
  { intros k' Hk'. cbv zeta. unfold n. rewrite partition_at_eq by (fold n; lia).
    fold n. fold rpp. simpl. destruct (Z.eqb_spec k' (n - 1)) as [->|]; subst i; nia. }
  exists (Z.to_nat i), (partition_at total n i).
  rewrite partitions_lookup by lia. fold n. rewrite decide_True by lia. rewrite Z2Nat.id by lia.
  split; [done|]. split; [unfold n; rewrite partition_at_eq by (fold n; lia); done|].
  split; [apply Hin; lia|].
  intros k' p'. rewrite partitions_lookup by lia. fold n. destruct (decide _); [|done].
  intros [= <-] Hp. apply Hin in Hp; lia.
Qed.
