(* ===== verification/TransformActivities.v ===== *)
(** * Transform activities: [internal/orchestration/activities/transform_activities.go]

    Field mapping, type coercion and deduplication of records.  The parts of
    the Go library that read numbers and dates from text are parameters:
    [parse_float] is [strconv.ParseFloat],
    [parse_timestamp] tries the listed [time.Parse] layouts and renders the
    instant as RFC 3339 in UTC, [unix_rfc3339] renders [time.Unix].  Go's
    iteration over the coercions of a stream has no order, which only permutes
    error messages; the model takes the key order. *)

From S2P Require Import Prelude GoStrings Errors Float Value Protocol Activities.

Abbreviation mappings_map := (gmap string (list FieldMapping)).

(** Inputs and outputs of the transform activities. *)
Record MapFieldsInput := mkMapInput { mi_Records : list Rec; mi_FieldMappings : mappings_map }.
Record RecordsOutput := mkRecordsOutput { ro_Records : list Rec; ro_Errors : list string }.
Record DeduplicateInput := mkDedupInput { dd_Records : list Rec; dd_Streams : list ConfiguredStream }.
Record DeduplicateOutput := mkDedupOutput { do_Records : list Rec; do_DuplicatesFound : Z }.

(** A record with new data. *)
Definition with_data (r : Rec) (d : RawMessage) : Rec :=
  mkRec (rec_Stream r) (rec_Namespace r) d (rec_EmittedAt r).

(** Records are processed one by one; a failure drops the record and adds the
    message. *)
Definition process_all (f : nat → Rec → list Rec * list string) (rs : list Rec) : RecordsOutput :=
  let outs := imap f rs in mkRecordsOutput (concat (fst <$> outs)) (concat (snd <$> outs)).

(** ** MapFieldsActivity *)

(** Copy the mapped fields that exist. *)
Definition map_fields (src : obj) (mappings : list FieldMapping) : obj :=
  foldl (λ dest m, match src !! fm_SourceField m with
                   | Some v => <[fm_DestField m := v]> dest
                   | None => dest
                   end) ∅ mappings.

Definition mapped_sources (mappings : list FieldMapping) : gset string :=
  list_to_set (fm_SourceField <$> mappings).

(** Then keep the source fields that no mapping takes, unless already written. *)
Definition map_object (src : obj) (mappings : list FieldMapping) : obj :=
  map_fields src mappings ∪ filter (λ e, e.1 ∉ mapped_sources mappings) src.

Definition record_msg (i : nat) (r : Rec) (text : string) (e : error) : string :=
  "record " +:+ pretty (Z.of_nat i) +:+ " in stream " +:+ rec_Stream r +:+ ": " +:+ text +:+ Error e.

(** Records of which the data is rewritten: unmarshal, change, marshal. *)
Definition rewrite_record (unmarshal_text marshal_text : string)
    (change : obj → obj * list string) (i : nat) (r : Rec) : list Rec * list string :=
  match unmarshal_map (rec_Data r) with
  | Ok src =>
      let '(dest, errs) := change src in
      match marshal_map dest with
      | Ok d => ([with_data r d], errs)
      | Err e => ([], errs ++ [record_msg i r marshal_text e])
      | Panic m => ([], errs ++ [m])
      end
  | Err e => ([], [record_msg i r unmarshal_text e])
  | Panic m => ([], [m])
  end.

Definition map_record (fm : mappings_map) (i : nat) (r : Rec) : list Rec * list string :=
  match fm !! rec_Stream r with
  | None | Some [] => ([r], [])
  | Some mappings =>
      rewrite_record "failed to unmarshal: " "failed to marshal mapped data: "
        (λ src, (map_object src mappings, [])) i r
  end.

Definition MapFieldsActivity (input : MapFieldsInput) : RecordsOutput :=
  process_all (map_record (mi_FieldMappings input)) (mi_Records input).

(** ** CoerceTypesActivity *)

Section coerce.
Context (parse_float : string → res float64).
Context (parse_timestamp : string → option string).
Context (unix_rfc3339 : Z → string).

Definition coerceToString (v : value) : string :=
  match v with
  | VString s => s
  | VFloat f => if f_eqb f (f_of_Z (f_to_i64 f)) then pretty (f_to_i64 f) else FormatFloat_f f
  | VBool b => if b then "true" else "false"
  | VNil => ""
  | v => sprint_v v
  end.

Definition coerceToInt64 (v : value) : res Z :=
  match v with
  | VFloat f => Ok (f_to_i64 f)
  | VString s =>
      match parse_int s with
      | Some z => Ok z
      | None => match parse_float s with
                | Ok f => Ok (f_to_i64 f)
                | _ => Err (ErrText ("cannot coerce " +:+ quote s +:+ " to int64"))
                end
      end
  | VBool b => Ok (if b then 1 else 0)
  | VNil => Ok 0
  | v => Err (ErrText ("cannot coerce " +:+ sprint_T v +:+ " to int64"))
  end.

Definition err_parse_bool (s : string) : error :=
  ErrText ("strconv.ParseBool: parsing " +:+ quote s +:+ ": invalid syntax").

Definition coerceToFloat64 (v : value) : res float64 :=
  match v with
  | VFloat f => Ok f
  | VString s => parse_float s
  | VBool b => Ok (if b then f_of_Z 1 else f_of_Z 0)
  | VNil => Ok (f_of_Z 0)
  | v => Err (ErrText ("cannot coerce " +:+ sprint_T v +:+ " to float64"))
  end.

Definition coerceToBool (v : value) : res bool :=
  match v with
  | VBool b => Ok b
  | VFloat f => Ok (negb (f_eqb f (f_of_Z 0)))
  | VString s => match parse_bool s with Some b => Ok b | None => Err (err_parse_bool s) end
  | VNil => Ok false
  | v => Err (ErrText ("cannot coerce " +:+ sprint_T v +:+ " to bool"))
  end.

Definition coerceToTimestamp (v : value) : string :=
  match v with
  | VString s => default s (parse_timestamp s)
  | VFloat f => unix_rfc3339 (f_to_i64 f)
  | VNil => ""
  | v => sprint_v v
  end.

Inductive coerce_target := ToString | ToInt64 | ToFloat64 | ToBool | ToTimestamp | ToUnknown.

Definition coerce_target_of (targetType : string) : coerce_target :=
  let t := ToLower targetType in
  let among l := bool_decide (t ∈ l) in
  if among ["string"] then ToString
  else if among ["int64"; "int"; "integer"] then ToInt64
  else if among ["float64"; "float"; "double"; "number"] then ToFloat64
  else if among ["bool"; "boolean"] then ToBool
  else if among ["timestamp"; "datetime"] then ToTimestamp
  else ToUnknown.

Definition coerceValue (v : value) (targetType : string) : res value :=
  match coerce_target_of targetType with
  | ToString => Ok (VString (coerceToString v))
  | ToInt64 => VInt <$> coerceToInt64 v
  | ToFloat64 => VFloat <$> coerceToFloat64 v
  | ToBool => VBool <$> coerceToBool v
  | ToTimestamp => Ok (VString (coerceToTimestamp v))
  | ToUnknown => Ok v
  end.

(** The coercions of one stream; a later mapping of the same field wins. *)
Definition field_coercions (mappings : list FieldMapping) : gmap string string :=
  foldl (λ acc m, if bool_decide (fm_CoerceType m = "") then acc
                  else <[fm_DestField m := fm_CoerceType m]> acc) ∅ mappings.

Definition coerce_field (i : nat) (acc : obj * list string) (c : string * string) : obj * list string :=
  let '(data, errs) := acc in
  match data !! c.1 with
  | None | Some VNil => acc
  | Some v =>
      match coerceValue v c.2 with
      | Ok v' => (<[c.1 := v']> data, errs)
      | Err e => (data, errs ++ ["record " +:+ pretty (Z.of_nat i) +:+ ", field " +:+ c.1 +:+ ": " +:+ Error e])
      | Panic m => (data, errs ++ [m])
      end
  end.

Definition coerce_object (i : nat) (cs : gmap string string) (data : obj) : obj * list string :=
  foldl (coerce_field i) (data, []) (sorted_entries cs).

Definition coerce_record (fm : mappings_map) (i : nat) (r : Rec) : list Rec * list string :=
  match fm !! rec_Stream r with
  | None => ([r], [])
  | Some mappings =>
      let cs := field_coercions mappings in
      if bool_decide (cs = ∅) then ([r], [])
      else rewrite_record "unmarshal error: " "marshal error: " (coerce_object i cs) i r
  end.

Definition CoerceTypesActivity (input : MapFieldsInput) : RecordsOutput :=
  process_all (coerce_record (mi_FieldMappings input)) (mi_Records input).
End coerce.

(** ** DeduplicateActivity *)

(** [navigateFieldPath] on a value. *)
Fixpoint navigate (v : value) (path : list string) : value :=
  match path with
  | [] => v
  | key :: path =>
      match v with
      | VMap m => navigate (default VNil (m !! key)) path
      | _ => VNil
      end
  end.
Definition navigateFieldPath (data : obj) (path : list string) : value :=
  match path with [] => VNil | _ => navigate (VMap data) path end.

Definition extractPrimaryKey (data : RawMessage) (pkFields : list (list string)) : string :=
  match unmarshal_map data with
  | Ok record => Join (map (λ path, sprint_v (navigateFieldPath record path)) pkFields) "|"
  | _ => ""
  end.

(** The primary key of each stream that has one. *)
Definition stream_pks (streams : list ConfiguredStream) : gmap string (list (list string)) :=
  foldl (λ acc cs,
    let pk := match cs_PrimaryKey cs with [] => s_PrimaryKey (cs_Stream cs) | pk => pk end in
    match pk with [] => acc | _ => <[s_Name (cs_Stream cs) := pk]> acc end) ∅ streams.

(** The deduplication key of a record, if it has one. *)
Definition dedup_key (pks : gmap string (list (list string))) (r : Rec) : option (string * string) :=
  match pks !! rec_Stream r with
  | None => None
  | Some pk =>
      let key := extractPrimaryKey (rec_Data r) pk in
      if bool_decide (key = "") then None else Some (rec_Stream r, key)
  end.

Definition dedup_step (pks : gmap string (list (list string)))
    (acc : gset (string * string) * DeduplicateOutput) (r : Rec) :
    gset (string * string) * DeduplicateOutput :=
  let '(seen, out) := acc in
  match dedup_key pks r with
  | None => (seen, mkDedupOutput (do_Records out ++ [r]) (do_DuplicatesFound out))
  | Some k =>
      if bool_decide (k ∈ seen) then (seen, mkDedupOutput (do_Records out) (do_DuplicatesFound out + 1))
      else ({[k]} ∪ seen, mkDedupOutput (do_Records out ++ [r]) (do_DuplicatesFound out))
  end.

Definition DeduplicateActivity (input : DeduplicateInput) : DeduplicateOutput :=
  (foldl (dedup_step (stream_pks (dd_Streams input))) (∅, mkDedupOutput [] 0) (dd_Records input)).2.

(** ** Field mapping *)

Lemma process_all_length f rs :
  (∀ i r, (length (f i r).1 + length (f i r).2 = 1)%nat) →
  (length (ro_Records (process_all f rs)) + length (ro_Errors (process_all f rs)) = length rs)%nat.
Proof.
  intros Hf. unfold process_all. simpl. revert f Hf. induction rs as [|r rs IH]; intros f Hf; [done|].
  specialize (Hf 0%nat r) as H0. specialize (IH (f ∘ S)).
  change (imap f (r :: rs)) with (f 0%nat r :: imap (f ∘ S) rs).
  rewrite !fmap_cons. cbn [concat]. rewrite !length_app.
  assert (∀ i r, (length ((f ∘ S) i r).1 + length ((f ∘ S) i r).2 = 1)%nat) as HS by (intros; apply Hf).
  specialize (IH HS). cbn [length]. lia.
Qed.

Lemma process_all_ok f (R : Rec → Rec → Prop) rs :
  (∀ i r, r ∈ rs → ∃ r', f i r = ([r'], []) ∧ R r r') →
  ro_Errors (process_all f rs) = [] ∧ Forall2 R rs (ro_Records (process_all f rs)).
Proof.
  unfold process_all. simpl. revert f. induction rs as [|r rs IH]; intros f Hf; simpl; [done|].
  destruct (Hf 0%nat r) as (r' & -> & HR); [set_solver|]. simpl.
  destruct (IH (f ∘ S)) as [He HF]; [intros i r0 Hr; apply Hf; set_solver|].
  split; [done|]. by constructor.
Qed.

Lemma map_fields_elem src ms k v :
  map_fields src ms !! k = Some v → ∃ m, m ∈ ms ∧ fm_DestField m = k ∧ src !! fm_SourceField m = Some v.
Proof.
  unfold map_fields. induction ms as [|m ms IH] using rev_ind; [done|]. rewrite foldl_app. simpl.
  destruct (src !! fm_SourceField m) as [v'|] eqn:Hv.
  - destruct (decide (fm_DestField m = k)) as [<-|Hne].
    + rewrite lookup_insert_eq. intros [= ->]. exists m. set_solver.
    + rewrite lookup_insert_ne by done. intros (m' & ? & ?)%IH. exists m'. set_solver.
  - intros (m' & ? & ?)%IH. exists m'. set_solver.
Qed.

Lemma map_fields_some src ms m v :
  m ∈ ms → src !! fm_SourceField m = Some v → is_Some (map_fields src ms !! fm_DestField m).
Proof.
  unfold map_fields. induction ms as [|m' ms IH] using rev_ind; [set_solver|]. rewrite foldl_app. simpl.
  intros [Hm|Hm%list_elem_of_singleton]%elem_of_app Hv.
  - specialize (IH Hm Hv). case_match; [|done].
    destruct (decide (fm_DestField m' = fm_DestField m)) as [->|]; [rewrite lookup_insert_eq; eauto|].
    by rewrite lookup_insert_ne.
  - subst. rewrite Hv, lookup_insert_eq. eauto.
Qed.

(** What mapping does to an object: nothing is invented, every present source
    field reaches its destination, other fields are kept, and renamed ones do
    not stay under their old name. *)
Record mapped_object (ms : list FieldMapping) (src dest : obj) : Prop := {
  mo_sound k v : dest !! k = Some v →
    (∃ m, m ∈ ms ∧ fm_DestField m = k ∧ src !! fm_SourceField m = Some v) ∨
    (k ∉ (fm_SourceField <$> ms) ∧ src !! k = Some v);
  mo_mapped m v : m ∈ ms → src !! fm_SourceField m = Some v →
    is_Some (dest !! fm_DestField m) ∧ (NoDup (fm_DestField <$> ms) → dest !! fm_DestField m = Some v);
  mo_kept k : k ∉ (fm_SourceField <$> ms) → k ∉ (fm_DestField <$> ms) → dest !! k = src !! k;
  mo_moved k : k ∈ (fm_SourceField <$> ms) → k ∉ (fm_DestField <$> ms) → dest !! k = None
}.

Lemma NoDup_dest_inj ms m m' : NoDup (fm_DestField <$> ms) → m ∈ ms → m' ∈ ms →
  fm_DestField m = fm_DestField m' → m = m'.
Proof.
  intros Hnd Hm Hm' He. apply list_elem_of_lookup in Hm as [i Hi], Hm' as [j Hj].
  assert (i = j) as ->; [|congruence].
  eapply (NoDup_lookup _ i j (fm_DestField m) Hnd); rewrite list_lookup_fmap; [by rewrite Hi|].
  rewrite Hj. simpl. by rewrite He.
Qed.

Lemma kept_lookup (src : obj) ms k v :
  filter (λ e, e.1 ∉ mapped_sources ms) src !! k = Some v ↔
  src !! k = Some v ∧ k ∉ (fm_SourceField <$> ms).
Proof. rewrite map_lookup_filter_Some. unfold mapped_sources. simpl. set_solver. Qed.

Lemma map_object_spec src ms : mapped_object ms src (map_object src ms).
Proof.
  unfold map_object. split.
  - intros k v [H|[Hn H]]%lookup_union_Some_raw; [left; by apply map_fields_elem in H|].
    right. apply kept_lookup in H. naive_solver.
  - intros m v Hm Hv. destruct (map_fields_some src ms m v Hm Hv) as [v' Hv'].
    rewrite (lookup_union_Some_l _ _ _ _ Hv'). split; [eauto|]. intros Hnd.
    apply map_fields_elem in Hv' as (m' & Hm' & He & Hs).
    by rewrite (NoDup_dest_inj ms m m') in Hv by done; rewrite Hv in Hs.
  - intros k Hs Hd. rewrite lookup_union_r.
    + destruct (src !! k) as [v|] eqn:Hk.
      * by apply kept_lookup.
      * apply eq_None_not_Some. intros [v [H _]%kept_lookup]. congruence.
    + apply eq_None_not_Some. intros [v (m & Hm & <- & _)%map_fields_elem]. apply Hd.
      apply list_elem_of_fmap. eauto.
  - intros k Hs Hd. apply lookup_union_None. split; apply eq_None_not_Some.
    + intros [v (m & Hm & <- & _)%map_fields_elem]. apply Hd, list_elem_of_fmap. eauto.
    + intros [v [_ H]%kept_lookup]. done.
Qed.

Lemma map_object_plain src ms : plain_obj src → plain_obj (map_object src ms).
Proof.
  intros Hp k v H. destruct (mo_sound _ _ _ (map_object_spec src ms) k v H) as [(m & _ & _ & Hv)|[_ Hv]];
    by apply Hp in Hv.
Qed.

(** One record before and after field mapping. *)
Definition mapped_record (fm : mappings_map) (r r' : Rec) : Prop :=
  rec_Stream r' = rec_Stream r ∧ rec_Namespace r' = rec_Namespace r ∧
  rec_EmittedAt r' = rec_EmittedAt r ∧
  match fm !! rec_Stream r with
  | None | Some [] => r' = r
  | Some ms => ∃ src dest, unmarshal_map (rec_Data r) = Ok src ∧
      unmarshal_map (rec_Data r') = Ok dest ∧ mapped_object ms src dest
  end.

(** Field mapping loses no record: every record is output or reported by an
    error message; if all records hold JSON objects there are no errors and the
    output corresponds to the input one by one, with the mapped fields renamed,
    the other fields kept and nothing else added. *)
Theorem MapFieldsActivity_spec fm rs :
  let out := MapFieldsActivity (mkMapInput rs fm) in
  (length (ro_Records out) + length (ro_Errors out) = length rs)%nat ∧
  (Forall (λ r, is_ok (unmarshal_map (rec_Data r)) = true) rs →
   ro_Errors out = [] ∧ Forall2 (mapped_record fm) rs (ro_Records out)).
Proof.
  assert (∀ i r src, unmarshal_map (rec_Data r) = Ok src →
    ∃ r', map_record fm i r = ([r'], []) ∧ mapped_record fm r r') as Hok.
  { intros i r src Hs. unfold map_record, mapped_record.
    destruct (fm !! rec_Stream r) as [[|m ms]|]; [by eexists| |by eexists].
    unfold rewrite_record. rewrite Hs.
    destruct (marshal_unmarshal (map_object src (m :: ms))) as (d & -> & Hd);
      [by eapply map_object_plain, unmarshal_plain|].
    eexists. split; [done|]. split_and!; [done..|]. exists src, (map_object src (m :: ms)). split_and!; [done..|].
    apply map_object_spec. }
  split.
  - apply process_all_length. intros i r.
    destruct (unmarshal_map (rec_Data r)) as [src|e|m] eqn:Hs.
    + destruct (Hok i r src Hs) as (r' & Hm & _). simpl. by rewrite Hm.
    + simpl. unfold map_record. destruct (fm !! rec_Stream r) as [[|m ms]|]; [done| |done].
      unfold rewrite_record. by rewrite Hs.
    + simpl. unfold map_record. destruct (fm !! rec_Stream r) as [[|m' ms]|]; [done| |done].
      unfold rewrite_record. by rewrite Hs.
  - intros HF. apply process_all_ok. intros i r Hr. rewrite list.Forall_forall in HF.
    specialize (HF r Hr). destruct (unmarshal_map (rec_Data r)) as [src|e|m] eqn:Hs; [|done..]. eauto.
Qed.

(** ** Deduplication *)

Section dedup_proofs.
Context (pks : gmap string (list (list string))).

Definition keys_of (rs : list Rec) : list (string * string) := omap (dedup_key pks) rs.

Lemma keys_of_app r1 r2 : keys_of (r1 ++ r2) = keys_of r1 ++ keys_of r2.
Proof. apply omap_app. Qed.

Record dedup_inv (rs : list Rec) (acc : gset (string * string) * DeduplicateOutput) : Prop := {
  di_seen : acc.1 = list_to_set (keys_of (do_Records acc.2));
  di_sub : do_Records acc.2 `sublist_of` rs;
  di_count : Z.of_nat (length (do_Records acc.2)) + do_DuplicatesFound acc.2 = Z.of_nat (length rs);
  di_nodup : NoDup (keys_of (do_Records acc.2));
  di_keys k : k ∈ keys_of rs ↔ k ∈ keys_of (do_Records acc.2);
  di_nokey r : r ∈ rs → dedup_key pks r = None → r ∈ do_Records acc.2
}.

Lemma keys_of_single r k : dedup_key pks r = Some k → keys_of [r] = [k].
Proof. unfold keys_of. simpl. by intros ->. Qed.
Lemma keys_of_none r : dedup_key pks r = None → keys_of [r] = [].
Proof. unfold keys_of. simpl. by intros ->. Qed.

Lemma dedup_inv_fold rs : dedup_inv rs (foldl (dedup_step pks) (∅, mkDedupOutput [] 0) rs).
Proof.
  induction rs as [|r rs IH] using rev_ind.
  { split; simpl; [done|done|done|apply NoDup_nil_2|done|set_solver]. }
  rewrite foldl_app. simpl. destruct (foldl _ _ rs) as [seen out]. unfold dedup_step.
  destruct IH as [Hseen Hsub Hcnt Hnd Hk Hno]. simpl in *.
  destruct (dedup_key pks r) as [k|] eqn:Hkey; [case_bool_decide as Hin|].
  - split; simpl; try done.
    + by apply sublist_inserts_r.
    + rewrite length_app. simpl. lia.
    + intros k'. rewrite keys_of_app, (keys_of_single r k), elem_of_app, Hk by done.
      subst seen. set_solver.
    + intros r' [Hr'|Hr'%list_elem_of_singleton]%elem_of_app; [by apply Hno|congruence].
  - split; simpl.
    + rewrite keys_of_app, (keys_of_single r k), list_to_set_app_L by done. set_solver.
    + by apply sublist_app.
    + rewrite !length_app. simpl. lia.
    + rewrite keys_of_app, (keys_of_single r k) by done. apply list.NoDup_app.
      split_and!; [done| |apply NoDup_singleton]. subst seen. set_solver.
    + intros k'. rewrite !keys_of_app, !elem_of_app, Hk. done.
    + intros r' [Hr'|Hr']%elem_of_app Hn; apply elem_of_app; [left; by apply Hno|by right].
  - split; simpl.
    + by rewrite keys_of_app, keys_of_none, (right_id_L [] (++)).
    + by apply sublist_app.
    + rewrite !length_app. simpl. lia.
    + by rewrite keys_of_app, keys_of_none, (right_id_L [] (++)).
    + intros k'. rewrite !keys_of_app, !elem_of_app, Hk. done.
    + intros r' [Hr'|Hr']%elem_of_app Hn; apply elem_of_app; [left; by apply Hno|by right].
Qed.
End dedup_proofs.

(** Deduplication keeps the order of the records, counts every record as kept
    or duplicate, leaves at most one record per stream and key and at least one
    for every key, and keeps every record without a key. *)
Theorem DeduplicateActivity_spec streams rs :
  let pks := stream_pks streams in
  let out := DeduplicateActivity (mkDedupInput rs streams) in
  do_Records out `sublist_of` rs ∧
  Z.of_nat (length (do_Records out)) + do_DuplicatesFound out = Z.of_nat (length rs) ∧
  NoDup (keys_of pks (do_Records out)) ∧
  (∀ k, k ∈ keys_of pks rs ↔ k ∈ keys_of pks (do_Records out)) ∧
  (∀ r, r ∈ rs → dedup_key pks r = None → r ∈ do_Records out).
Proof.
  destruct (dedup_inv_fold (stream_pks streams) rs) as [_ H1 H2 H3 H4 H5].
  unfold DeduplicateActivity. simpl. split_and!; done.
Qed.

(** A record of stream "s" with the given fields. *)
Definition record_of (fields : list (string * json)) : Rec := mkRec "s" "" (RawDoc (JObj fields)) 0.
Definition stream_with_pk (pk : list (list string)) : ConfiguredStream :=
  mkConfiguredStream (mkStream "s" "" "" RawEmpty [] [] false []) SyncModeIncremental DestSyncModeUpsert [] pk.

(** Records with different primary keys can be taken for duplicates: keys of
    several fields are joined with a bar that the fields may contain, a text and
    the number it spells are rendered alike, and all records without the key
    field share one key. *)
Theorem Deduplicate_key_collisions :
  let composite := [stream_with_pk [["a"]; ["b"]]] in
  let single := [stream_with_pk [["id"]]] in
  let r1 := record_of [("a", JStr "x|y"); ("b", JStr "z")] in
  let r2 := record_of [("a", JStr "x"); ("b", JStr "y|z")] in
  let r3 := record_of [("id", JStr "1")] in
  let r4 := record_of [("id", JNum (NLit "1" 1 0))] in
  let r5 := record_of [("v", JStr "first")] in
  let r6 := record_of [("v", JStr "second")] in
  DeduplicateActivity (mkDedupInput [r1; r2] composite) = mkDedupOutput [r1] 1 ∧
  DeduplicateActivity (mkDedupInput [r3; r4] single) = mkDedupOutput [r3] 1 ∧
  DeduplicateActivity (mkDedupInput [r5; r6] single) = mkDedupOutput [r5] 1.
Proof. vm_compute. split_and!; reflexivity. Qed.

(** ** Coercion *)

Section coerce_proofs.
Context (parse_float : string → res float64).
Context (parse_timestamp : string → option string).
Context (unix_rfc3339 : Z → string).
Let coerce := coerceValue parse_float parse_timestamp unix_rfc3339.

(** The kind of value a coercion target promises. *)
Definition has_target (t : coerce_target) (v : value) : Prop :=
  match t, v with
  | ToString, VString _ | ToTimestamp, VString _ | ToFloat64, VFloat _ | ToBool, VBool _ => True
  | ToInt64, VInt z => in_i64 z
  | ToUnknown, _ => True
  | _, _ => False
  end.

Lemma coerce_typed v t v' :
  coerce v t = Ok v' → has_target (coerce_target_of t) v'.
Proof.
  unfold coerce, coerceValue. destruct (coerce_target_of t); simpl.
  - by intros [= <-].
  - destruct (coerceToInt64 parse_float v) as [z| |] eqn:Hz; simpl; [|done..]. intros [= <-]. simpl.
    destruct v; simpl in Hz; try done.
    + injection Hz as <-. unfold in_i64, int64_min, int64_max. lia.
    + injection Hz as <-. unfold in_i64, int64_min, int64_max. destruct b; lia.
    + injection Hz as <-. apply f_to_i64_range.
    + destruct (parse_int s) eqn:Hp; [injection Hz as <-; by eapply parse_int_range|].
      destruct (parse_float s); [|done..]. injection Hz as <-. apply f_to_i64_range.
  - destruct (coerceToFloat64 parse_float v); simpl; [|done..]. by intros [= <-].
  - destruct (coerceToBool v); simpl; [|done..]. by intros [= <-].
  - by intros [= <-].
  - done.
Qed.

(** What becomes of a field with a coercion: unchanged when nil or not
    convertible. *)
Definition coerced_field (v : value) (t : string) : value :=
  if is_nil v then v else from_ok v (coerce v t).

Lemma coerce_field_lookup i data errs k t k' :
  (coerce_field parse_float parse_timestamp unix_rfc3339 i (data, errs) (k, t)).1 !! k' =
    if decide (k = k') then (λ v, coerced_field v t) <$> data !! k' else data !! k'.
Proof.
  unfold coerce_field, coerced_field. simpl. fold coerce.
  destruct (data !! k) as [v|] eqn:Hk; [|by case_decide; subst; rewrite ?Hk].
  assert (∀ w, <[k := w]> data !! k' = if decide (k = k') then Some w else data !! k') as Hins.
  { intros w. case_decide; subst; [apply lookup_insert_eq|by apply lookup_insert_ne]. }
  destruct v; simpl; try (by case_decide; subst; rewrite ?Hk);
    destruct (coerce _ t) eqn:Hc; simpl; rewrite ?Hins;
    (case_decide; subst; rewrite ?Hk; simpl; by rewrite ?Hc).
Qed.

Arguments coerce_field : simpl never.

Lemma coerce_object_lookup i cs data k :
  (coerce_object parse_float parse_timestamp unix_rfc3339 i cs data).1 !! k =
    match cs !! k with
    | Some t => (λ v, coerced_field v t) <$> data !! k
    | None => data !! k
    end.
Proof.
  unfold coerce_object.
  assert (∀ l errs data, NoDup l.*1 →
    (foldl (coerce_field parse_float parse_timestamp unix_rfc3339 i) (data, errs) l).1 !! k =
    match (list_to_map l : gmap string string) !! k with
    | Some t => (λ v, coerced_field v t) <$> data !! k
    | None => data !! k end) as Hl.
  { clear. induction l as [|[k' t] l IH]; intros errs data Hnd; [done|]. simpl.
    apply list.NoDup_cons in Hnd as [Hk' Hnd].
    pose proof (coerce_field_lookup i data errs k' t k) as Hf.
    destruct (coerce_field _ _ _ i (data, errs) (k', t)) as [data' errs'].
    rewrite IH by done. simpl in Hf. rewrite Hf. case_decide as Hk; subst.
    - rewrite (not_elem_of_list_to_map_1 _ _ Hk'), lookup_insert_eq. done.
    - by rewrite lookup_insert_ne. }
  by rewrite Hl, sorted_entries_lookup by apply sorted_entries_nodup.
Qed.

(** Coercing a record changes no field but those with a coercion; such a
    field keeps a nil or unconvertible value, and otherwise has the type that was
    asked for (an [int64] being in range). *)
Theorem coerce_object_spec i cs data k :
  let data' := (coerce_object parse_float parse_timestamp unix_rfc3339 i cs data).1 in
  match data !! k, cs !! k with
  | Some v, Some t =>
      ∃ v', data' !! k = Some v' ∧
        (if is_nil v then v' = v
         else match coerceValue parse_float parse_timestamp unix_rfc3339 v t with
              | Ok w => v' = w ∧ has_target (coerce_target_of t) v'
              | _ => v' = v
              end)
  | o, _ => data' !! k = o
  end.
Proof.
  cbv zeta. rewrite coerce_object_lookup.
  destruct (data !! k) as [v|] eqn:Hv, (cs !! k) as [t|]; simpl; try done.
  eexists. split; [done|]. unfold coerced_field. destruct (is_nil v); [done|]. unfold coerce.
  destruct (coerceValue _ _ _ v t) eqn:Hc; simpl; [|done..]. split; [done|].
  by apply (coerce_typed v t).
Qed.
End coerce_proofs.
