(* ===== verification/Workflows.v ===== *)
(** * Child workflows: [internal/orchestration/workflows/{types,extract,transform,load}.go]

    A workflow is a function on the world [W] in which activities run.  How
    Temporal executes an activity (retries, timeouts) is the environment's part:
    [env] gives, for each activity, the outcome its future delivers and the new
    world.  Futures started together are executed in the order they are started
    and read in that order. *)

From S2P Require Import Prelude GoStrings Errors Float Value Protocol Activities TransformActivities.

(** ** Parameters and results *)

Inductive SyncPhase :=
| PhaseInitializing | PhaseExtracting | PhaseTransforming | PhaseLoading
| PhaseCompleted | PhaseFailed | PhaseCancelled | PhasePaused.

#[global] Instance SyncPhase_eq_dec : EqDecision SyncPhase.
Proof. solve_decision. Defined.

Record SyncParams := mkSyncParams {
  sp_SourceConnectorID : string;
  sp_DestConnectorID : string;
  sp_SourceConfig : RawMessage;
  sp_DestConfig : RawMessage;
  sp_SelectedStreams : list ConfiguredStream;
  sp_FieldMappings : mappings_map;
  sp_SyncMode : SyncMode;
  sp_LastCheckpoint : state_map;
  sp_TenantID : string;
  sp_SyncID : string
}.
Record SyncResult := mkSyncResult {
  sr_RecordsExtracted : Z;
  sr_RecordsTransformed : Z;
  sr_RecordsLoaded : Z;
  sr_NewCheckpoint : state_map;
  sr_Duration : Z;
  sr_Errors : list string
}.
Record SyncStatus := mkSyncStatus {
  ss_Phase : SyncPhase;
  ss_Progress : float64;
  ss_RecordsProcessed : Z;
  ss_Errors : list string;
  ss_StartedAt : Z
}.
Record ExtractParams := mkExtractParams {
  ep_SourceConnectorID : string;
  ep_SourceConfig : RawMessage;
  ep_Streams : list ConfiguredStream;
  ep_State : state_map;
  ep_BatchSize : Z;
  ep_TenantID : string;
  ep_SyncID : string
}.
Record ExtractResult := mkExtractResult {
  er_Records : list Rec; er_RecordsCount : Z; er_NewState : state_map; er_PartitionsUsed : Z
}.
Record TransformParams := mkTransformParams {
  tp_Records : list Rec;
  tp_FieldMappings : mappings_map;
  tp_Streams : list ConfiguredStream;
  tp_TenantID : string;
  tp_SyncID : string
}.
Record TransformResult := mkTransformResult {
  tr_Records : list Rec; tr_RecordsCount : Z; tr_Dropped : Z; tr_Errors : list string
}.
Record LoadParams := mkLoadParams {
  lp_DestConnectorID : string;
  lp_DestConfig : RawMessage;
  lp_Records : list Rec;
  lp_Streams : list ConfiguredStream;
  lp_BatchSize : Z;
  lp_TenantID : string;
  lp_SyncID : string
}.
Record LoadResult := mkLoadResult {
  lr_RecordsLoaded : Z; lr_BatchesWritten : Z; lr_Errors : list string
}.

(** ** Workflows as functions on the world *)

Definition wf (W A : Type) : Type := W → res A * W.

Definition wf_ret {W A} (a : A) : wf W A := λ w, (Ok a, w).
Definition wf_fail {W A} (e : error) : wf W A := λ w, (Err e, w).
Definition wf_bind {W A B} (m : wf W A) (k : A → wf W B) : wf W B := λ w,
  match m w with
  | (Ok a, w) => k a w
  | (Err e, w) => (Err e, w)
  | (Panic s, w) => (Panic s, w)
  end.
(** Run and look at the outcome instead of failing. *)
Definition wf_try {W A} (m : wf W A) : wf W (res A) := λ w, let '(r, w) := m w in (Ok r, w).

Notation "x <~ m ; k" := (wf_bind m (λ x, k)) (at level 100, m at next level, right associativity).

Record env (W : Type) := mkEnv {
  run_determine : DeterminePartitionsInput → wf W (list PartitionRange);
  run_fetch : FetchBatchInput → wf W FetchBatchOutput;
  run_save : SaveCheckpointInput → wf W unit;
  run_map : MapFieldsInput → wf W RecordsOutput;
  run_coerce : MapFieldsInput → wf W RecordsOutput;
  run_dedup : DeduplicateInput → wf W DeduplicateOutput;
  run_write : WriteBatchInput → wf W WriteBatchOutput;
  run_confirm : ConfirmWriteInput → wf W ConfirmWriteOutput
}.
Arguments run_determine {W}. Arguments run_fetch {W}. Arguments run_save {W}.
Arguments run_map {W}. Arguments run_coerce {W}. Arguments run_dedup {W}.
Arguments run_write {W}. Arguments run_confirm {W}.

(** Start a future per input, in order; the outcomes in the same order. *)
Fixpoint run_all {W A B} (f : A → wf W B) (inputs : list A) : wf W (list (res B)) := λ w,
  match inputs with
  | [] => (Ok [], w)
  | i :: inputs =>
      let '(r, w) := f i w in
      match run_all f inputs w with
      | (Ok rs, w) => (Ok (r :: rs), w)
      | (Err e, w) => (Err e, w)
      | (Panic s, w) => (Panic s, w)
      end
  end.

Section workflows.
Context {W : Type} (E : env W).

(** ** extract.go *)

Definition copyState (s : state_map) : state_map := s.
Definition mergeStateRaw (target source : state_map) : state_map := source ∪ target.

Definition fetch_input (params : ExtractParams) (batchSize : Z) (st : state_map)
    (p : option PartitionRange) : FetchBatchInput :=
  mkFetchInput (ep_SourceConnectorID params) (ep_SourceConfig params) (ep_Streams params) st batchSize p.

(** The loop, for at most [fuel] batches; [None] when it has not ended by then. *)
Fixpoint sequential_loop (fuel : nat) (params : ExtractParams) (batchSize : Z)
    (acc : list Rec) (st : state_map) (w : W) : option (res (list Rec * state_map) * W) :=
  match fuel with
  | O => None
  | S fuel =>
      match run_fetch E (fetch_input params batchSize st None) w with
      | (Err e, w) => Some (Err (ErrWrapf "fetch batch failed" e), w)
      | (Panic s, w) => Some (Panic s, w)
      | (Ok out, w) =>
          let acc := acc ++ fo_Records out in
          let st := mergeStateRaw st (fo_NewState out) in
          if fo_HasMore out then sequential_loop fuel params batchSize acc st w
          else Some (Ok (acc, st), w)
      end
  end.

Definition extractSequential (fuel : nat) (params : ExtractParams) (batchSize : Z) (w : W) :
    option (res (list Rec * state_map) * W) :=
  sequential_loop fuel params batchSize [] (copyState (ep_State params)) w.

(** Collecting the futures in order; the first failure ends the extraction. *)
Definition collect_fetch (acc : list Rec * state_map) (r : res FetchBatchOutput) :
    res (list Rec * state_map) :=
  match r with
  | Ok out => Ok (acc.1 ++ fo_Records out, mergeStateRaw acc.2 (fo_NewState out))
  | Err e => Err (ErrWrapf "partition fetch failed" e)
  | Panic s => Panic s
  end.

Definition extractWithPartitions (params : ExtractParams) (partitions : list PartitionRange)
    (batchSize : Z) : wf W (list Rec * state_map) :=
  rs <~ run_all (λ p, run_fetch E (fetch_input params batchSize (copyState (ep_State params)) (Some p)))
                partitions;
  λ w, (foldM collect_fetch ([], copyState (ep_State params)) rs, w).

Definition extract_batch_size (params : ExtractParams) : Z :=
  if ep_BatchSize params <=? 0 then DefaultBatchSize else ep_BatchSize params.

(** [usePartitions], with the partitions. *)
Definition partition_plan (r : res (list PartitionRange)) : option (list PartitionRange) :=
  match r with
  | Ok ps => if bool_decide (1 < length ps)%nat then Some ps else None
  | _ => None
  end.

Definition ExtractWorkflow (fuel : nat) (params : ExtractParams) (w : W) :
    option (res ExtractResult * W) :=
  let batchSize := extract_batch_size params in
  let '(r, w) := run_determine E (mkPartitionsInput (ep_SourceConnectorID params)
                   (ep_SourceConfig params) (ep_Streams params) (ep_State params) 0) w in
  let plan := partition_plan r in
  match match plan with
        | Some ps => Some (extractWithPartitions params ps batchSize w)
        | None => extractSequential fuel params batchSize w
        end with
  | None => None
  | Some (Err e, w) => Some (Err e, w)
  | Some (Panic s, w) => Some (Panic s, w)
  | Some (Ok (records, newState), w) =>
      let currentState := mergeStateRaw (copyState (ep_State params)) newState in
      (* a failed checkpoint is only logged *)
      let '(_, w) := run_save E (mkSaveInput (ep_TenantID params) (ep_SyncID params) currentState) w in
      Some (Ok (mkExtractResult records (Z.of_nat (length records)) currentState
                  match plan with Some ps => Z.of_nat (length ps) | None => 1 end), w)
  end.

(** ** transform.go *)

Definition hasCoercions (fm : mappings_map) : bool :=
  existsb (λ e, existsb (λ m, negb (bool_decide (fm_CoerceType m = ""))) e.2) (map_to_list fm).

Definition TransformWorkflow (params : TransformParams) : wf W TransformResult :=
  mapped <~ (if bool_decide (tp_FieldMappings params = ∅) then wf_ret (mkRecordsOutput (tp_Records params) [])
             else run_map E (mkMapInput (tp_Records params) (tp_FieldMappings params)));
  coerced <~ (if hasCoercions (tp_FieldMappings params)
              then run_coerce E (mkMapInput (ro_Records mapped) (tp_FieldMappings params))
              else wf_ret (mkRecordsOutput (ro_Records mapped) []));
  dedup <~ run_dedup E (mkDedupInput (ro_Records coerced) (tp_Streams params));
  wf_ret (mkTransformResult (do_Records dedup) (Z.of_nat (length (do_Records dedup)))
            (do_DuplicatesFound dedup) (ro_Errors mapped ++ ro_Errors coerced)).

(** ** load.go *)

Definition splitIntoBatches (records : list Rec) (batchSize : Z) : res (list (list Rec)) :=
  let batchSize := if batchSize <=? 0 then DefaultBatchSize else batchSize in
  let numBatches := (Z.of_nat (length records) +ᵢ batchSize -ᵢ 1) /ᵢ batchSize in
  if numBatches <? 0 then Panic "makeslice: cap out of range"
  else Ok (slices_from (length records) 0 (Z.to_nat batchSize) records).

Definition write_input (params : LoadParams) (i : nat) (batch : list Rec) : WriteBatchInput :=
  mkWriteInput (lp_DestConnectorID params) (lp_DestConfig params) batch (lp_Streams params) (Z.of_nat i).

Definition collect_write (acc : LoadResult) (r : res WriteBatchOutput) : LoadResult :=
  match r with
  | Ok out => mkLoadResult (lr_RecordsLoaded acc +ᵢ wo_RecordsWritten out)
                (lr_BatchesWritten acc + 1) (lr_Errors acc ++ wo_Errors out)
  | Err e => mkLoadResult (lr_RecordsLoaded acc) (lr_BatchesWritten acc) (lr_Errors acc ++ [Error e])
  | Panic s => mkLoadResult (lr_RecordsLoaded acc) (lr_BatchesWritten acc) (lr_Errors acc ++ [s])
  end.

(** Errors that the confirmation adds. *)
Definition confirm_errors (r : res ConfirmWriteOutput) : list string :=
  match r with
  | Err e => [Error e]
  | Panic s => [s]
  | Ok out =>
      if co_Confirmed out then []
      else (if bool_decide (co_DiscrepancyMsg out = "") then [] else [co_DiscrepancyMsg out])
           ++ co_Errors out
  end.

Definition LoadWorkflow (params : LoadParams) : wf W LoadResult :=
  let batchSize := if lp_BatchSize params <=? 0 then DefaultBatchSize else lp_BatchSize params in
  batches <~ (λ w, (splitIntoBatches (lp_Records params) batchSize, w));
  outs <~ run_all (run_write E) (imap (write_input params) batches);
  let loaded := foldl collect_write (mkLoadResult 0 0 []) outs in
  confirm <~ wf_try (run_confirm E (mkConfirmInput (lp_DestConnectorID params) (lp_DestConfig params)
               (Z.of_nat (length (lp_Records params))) (lr_RecordsLoaded loaded) (lr_Errors loaded)));
  wf_ret (mkLoadResult (lr_RecordsLoaded loaded) (lr_BatchesWritten loaded)
            (lr_Errors loaded ++ confirm_errors confirm)).
End workflows.

(** ** Environments that run the activities themselves, without faults *)

Class RunsActivities {W} (reg : connectorRegistry W) (E : env W) : Prop := {
  runs_determine i w : run_determine E i w = (DeterminePartitionsActivity reg i, w);
  runs_fetch i w : run_fetch E i w = (FetchBatchActivity reg i, w);
  runs_save i w : run_save E i w = (match SaveCheckpointActivity i with None => Ok () | Some e => Err e end, w);
  runs_write i w : run_write E i w = WriteBatchActivity reg i w;
  runs_confirm i w : run_confirm E i w = (ConfirmWriteActivity reg i, w)
}.

(** ** Sequential extraction *)

(** A source read page by page: the checkpoint determines a position in [recs],
    a fetch returns the records from there on, advances the checkpoint by as
    many, and stops asking for more only at the end. *)
Record paged {W} (E : env W) (params : ExtractParams) (bs : Z) (recs : list Rec)
    (pos : state_map → nat) : Prop := {
  paged_fetch st w : ∃ out w', run_fetch E (fetch_input params bs st None) w = (Ok out, w') ∧
    fo_Records out = take (length (fo_Records out)) (drop (pos st) recs) ∧
    pos (mergeStateRaw st (fo_NewState out)) = (pos st + length (fo_Records out))%nat ∧
    (if fo_HasMore out then 0 < length (fo_Records out) ∧ length (fo_Records out) ≤ length recs - pos st
     else length recs - pos st ≤ length (fo_Records out))%nat
}.

Lemma sequential_loop_paged {W} (E : env W) params bs recs pos fuel acc st w :
  paged E params bs recs pos → (length recs - pos st < fuel)%nat →
  ∃ st' w', sequential_loop E fuel params bs acc st w = Some (Ok (acc ++ drop (pos st) recs, st'), w').
Proof.
  intros Hp. revert acc st w. induction fuel as [|fuel IH]; intros acc st w Hf; [lia|]. simpl.
  destruct (paged_fetch _ _ _ _ _ Hp st w) as (out & w' & -> & Hrec & Hpos & Hmore).
  destruct (fo_HasMore out).
  - destruct (IH (acc ++ fo_Records out) (mergeStateRaw st (fo_NewState out)) w') as (st' & w'' & Heq);
      [rewrite Hpos; lia|].
    exists st', w''. rewrite Heq, Hpos. do 4 f_equal. rewrite <- (assoc_L (++)). f_equal.
    rewrite <- drop_drop. rewrite Hrec at 1. by rewrite take_drop.
  - exists (mergeStateRaw st (fo_NewState out)), w'. rewrite Hrec.
    rewrite take_ge; [done|]. rewrite length_drop. lia.
Qed.

(** C2: sequential extraction from a paged source ends, within one batch per
    remaining record, and returns every record after the checkpoint exactly
    once, in order. *)
Theorem extractSequential_complete {W} (E : env W) params bs recs pos fuel w :
  paged E params bs recs pos → (length recs < fuel)%nat →
  ∃ st' w', extractSequential E fuel params bs w =
    Some (Ok (drop (pos (ep_State params)) recs, st'), w').
Proof.
  intros Hp Hf. destruct (sequential_loop_paged E params bs recs pos fuel [] (ep_State params) w Hp)
    as (st' & w' & H); [lia|]. eauto.
Qed.

Lemma sequential_loop_diverges {W} (E : env W) params bs fuel acc st w :
  (∀ st w, ∃ out w', run_fetch E (fetch_input params bs st None) w = (Ok out, w') ∧
     fo_HasMore out = true) →
  sequential_loop E fuel params bs acc st w = None.
Proof.
  intros H. revert acc st w. induction fuel as [|fuel IH]; intros acc st w; simpl; [done|].
  destruct (H st w) as (out & w' & -> & ->). apply IH.
Qed.

(** A source that does not read the checkpoint (a full-refresh listing) and
    has at least a full batch of records keeps sequential extraction fetching the
    same records for ever. *)
Theorem full_refresh_never_ends {W} (reg : connectorRegistry W) (E : env W) params src fuel w :
  RunsActivities reg E → SourceLaws src →
  GetSource reg (ep_SourceConnectorID params) = Ok src →
  (∀ cfg cat st st' c, src_Read src cfg cat st c = src_Read src cfg cat st' c) →
  let cat := mkConfiguredCatalog (ep_Streams params) in
  (1000 ≤ length (records_of (src_Read src (ep_SourceConfig params) cat ∅ None).1))%nat →
  extractSequential E fuel params DefaultBatchSize w = None.
Proof.
  intros HE Hl Hs Hst cat Hlen. apply sequential_loop_diverges. intros st w'.
  set (input := fetch_input params DefaultBatchSize st None).
  rewrite runs_fetch.
  assert (∃ out, FetchBatchActivity reg input = Ok out ∧ fo_HasMore out = true) as (out & Ho & Hm).
  { unfold FetchBatchActivity. simpl. rewrite Hs. simpl.
    pose proof (fetch_init_ok input st) as Hinit.
    unfold source_run. pose proof (cancel_after_spec (batch_limit input) (fetch_init st)
      (src_Read src (fi_SourceConfig input) (mkConfiguredCatalog (fi_Streams input)) st None).1
      Hinit eq_refl) as Hc.
    assert (batch_limit input = 1000) as HL by done.
    rewrite (Hst _ _ st ∅) in Hc. rewrite (Hst _ _ st ∅). simpl fi_SourceConfig in *.
    simpl fi_Streams in *. fold cat in Hc |- *.
    set (full := src_Read src (ep_SourceConfig params) cat ∅ None) in *.
    destruct (cancel_after _ _ _) as [n|]; [|exfalso; rewrite HL in Hc; simpl in Hc; lia].
    destruct Hc as [Hn Hc]. simpl in Hc.
    pose proof (read_prefix (ep_SourceConfig params) cat st n) as Hpre.
    rewrite (Hst _ _ st ∅ None) in Hpre. fold full in Hpre.
    destruct (src_Read src _ cat st (Some n)) as [msgs rerr]. simpl in Hpre.
    rewrite (consume_all_spec _ _ _ Hinit). simpl.
    assert (batch_limit input <=? Z.of_nat (length (records_of msgs)) = true) as ->.
    { apply Z.leb_le. rewrite <- (take_drop n msgs), records_of_app, length_app, Hpre. lia. }
    destruct rerr; eexists; done. }
  rewrite Ho. eauto.
Qed.

(** ** Partitioned extraction *)

(** The records of a partition's range. *)
Definition part_slice (p : PartitionRange) (recs : list Rec) : list Rec :=
  take (Z.to_nat (pr_Limit p)) (drop (Z.to_nat (pr_Offset p)) recs).

(** A source that honours the partition found in its state: it sends the records
    of the range and stops when it is cancelled. *)
Class PartitionSource (src : Source) (recs : list Rec) : Prop := {
  read_partition cfg cat st p d c :
    st !! "__partition" = Some d → marshal_map (partition_doc p) = Ok d →
    (src_Read src cfg cat st c).1 =
      match c with None => map record_message (part_slice p recs)
                 | Some n => take n (map record_message (part_slice p recs)) end;
  read_partition_ok cfg cat st : (src_Read src cfg cat st None).2 = None
}.

Lemma records_of_map rs : records_of (map record_message rs) = rs.
Proof. induction rs as [|r rs IH]; [done|]. simpl map. rewrite records_of_cons, IH. done. Qed.

Lemma plain_partition_doc p : is_Some (to_json (VMap (partition_doc p))).
Proof.
  simpl. destruct (mapM_total to_json (partition_doc p)) as [js ->]; [|eauto].
  unfold partition_doc. repeat (apply map_Forall_insert_2; [by eexists|]). apply map_Forall_empty.
Qed.

Lemma FetchBatch_partition {W} (reg : connectorRegistry W) src recs input p :
  PartitionSource src recs → GetSource reg (fi_SourceConnectorID input) = Ok src →
  fi_Partition input = Some p → 0 < fi_BatchSize input →
  ∃ out, FetchBatchActivity reg input = Ok out ∧
    fo_Records out = take (Z.to_nat (fi_BatchSize input)) (part_slice p recs).
Proof.
  intros Hps Hs Hp Hb. unfold FetchBatchActivity. rewrite Hs. unfold read_state. rewrite Hp.
  destruct (plain_partition_doc p) as [j Hj].
  assert (marshal_map (partition_doc p) = Ok (RawDoc j)) as Hd by (unfold marshal_map; by rewrite Hj).
  rewrite Hd. simpl. destruct (Z.ltb_spec (fi_BatchSize input) 0); [lia|].
  set (st := <["__partition" := RawDoc j]> (fi_State input)).
  assert (Hlk : st !! "__partition" = Some (RawDoc j)) by apply lookup_insert_eq.
  pose proof (fetch_init_ok input st) as Hinit.
  assert (HL : batch_limit input = fi_BatchSize input).
  { unfold batch_limit. destruct (Z.leb_spec (fi_BatchSize input) 0); lia. }
  unfold source_run. set (cat := mkConfiguredCatalog (fi_Streams input)).
  pose proof (read_partition (fi_SourceConfig input) cat st p _ None Hlk Hd) as Hfull.
  pose proof (read_partition_ok (fi_SourceConfig input) cat st) as Hnone.
  destruct (src_Read src (fi_SourceConfig input) cat st None) as [full err].
  simpl in Hfull, Hnone |- *. subst.
  pose proof (cancel_after_spec _ _ (map record_message (part_slice p recs)) Hinit eq_refl) as Hc.
  destruct (cancel_after _ _ _) as [n|]; simpl in Hc.
  - destruct Hc as [Hn Hlen]. rewrite <- fmap_take in Hlen.
    pose proof (read_partition (fi_SourceConfig input) cat st p _ (Some n) Hlk Hd) as Hrun.
    destruct (src_Read src _ cat st (Some n)) as [msgs rerr]. simpl in Hrun. subst.
    rewrite (consume_all_spec _ _ _ Hinit). simpl. rewrite <- fmap_take.
    rewrite records_of_map in *.
    assert (batch_limit input <=? Z.of_nat (length (take n (part_slice p recs))) = true) as ->.
    { apply Z.leb_le. rewrite Hlen. done. }
    assert (take n (part_slice p recs) = take (Z.to_nat (fi_BatchSize input)) (part_slice p recs)) as ->.
    { rewrite <- HL, <- Hlen, Nat2Z.id, length_take, <- take_take.
      rewrite (take_ge (part_slice p recs) (length (part_slice p recs))); [done|lia]. }
    destruct rerr; (eexists; split; reflexivity).
  - rewrite (consume_all_spec _ _ _ Hinit). simpl. rewrite records_of_map in *.
    eexists. split; [reflexivity|]. cbn [fo_Records]. rewrite take_ge; [reflexivity|lia].
Qed.

Lemma run_all_pure {W A B} (f : A → wf W B) (g : A → res B) inputs w :
  (∀ i w, f i w = (g i, w)) → run_all f inputs w = (Ok (map g inputs), w).
Proof.
  intros H. induction inputs as [|i inputs IH]; simpl; [done|]. by rewrite H, IH.
Qed.

Lemma collect_fetch_records (outs : list (res FetchBatchOutput)) (chunks : list (list Rec)) acc :
  Forall2 (λ r c, ∃ out, r = Ok out ∧ fo_Records out = c) outs chunks →
  ∃ st, foldM collect_fetch acc outs = Ok (acc.1 ++ concat chunks, st).
Proof.
  intros H. revert acc. induction H as [|r c outs chunks (out & -> & <-) _ IH]; intros acc; simpl.
  - rewrite (right_id_L [] (++)). exists acc.2. by destruct acc.
  - destruct (IH (acc.1 ++ fo_Records out, mergeStateRaw acc.2 (fo_NewState out))) as [st ->].
    simpl. rewrite <- (assoc_L (++)). eauto.
Qed.

(** Partitioned extraction takes only the first batch of every partition: with
    a source that honours the partitions, the result is the concatenation of the
    first [BatchSize] records of each range, so at most eight batches are
    extracted however many records the source has. *)
Theorem partitioned_extraction_truncates {W} (reg : connectorRegistry W) (E : env W)
    params src recs catalog fuel w :
  RunsActivities reg E → PartitionSource src recs →
  GetSource reg (ep_SourceConnectorID params) = Ok src →
  src_Discover src (ep_SourceConfig params) = Ok catalog →
  1 ≤ Z.of_nat (length (cat_Streams catalog)) ≤ 1000000000 →
  let bs := extract_batch_size params in
  let ps := partitions_of (Z.of_nat (length (cat_Streams catalog)) * 10000) in
  ∃ r w', ExtractWorkflow E fuel params w = Some (Ok r, w') ∧
    er_Records r = concat (map (λ p, take (Z.to_nat bs) (part_slice p recs)) ps) ∧
    er_PartitionsUsed r = 8 ∧ er_RecordsCount r ≤ 8 * bs.
Proof.
  intros HE Hps Hs Hd Hn bs ps. set (total := Z.of_nat (length (cat_Streams catalog)) * 10000) in *.
  assert (Hbs : 0 < bs).
  { subst bs. unfold extract_batch_size, DefaultBatchSize. destruct (Z.leb_spec (ep_BatchSize params) 0); lia. }
  assert (Hlen : length ps = 8%nat).
  { subst ps. unfold partitions_of. rewrite length_map, length_seqZ, num_parts_eq by (unfold int64_max; lia).
    assert (10 ≤ total / 1000) by (apply Z.div_le_lower_bound; lia). lia. }
  unfold ExtractWorkflow. rewrite runs_determine. unfold DeterminePartitionsActivity. simpl.
  rewrite Hs, Hd. rewrite i64_id by (unfold in_i64, int64_min, int64_max; lia).
  fold total. fold ps. unfold partition_plan. rewrite bool_decide_eq_true_2 by lia. fold bs.
  unfold extractWithPartitions, wf_bind.
  rewrite (run_all_pure _ (λ p, FetchBatchActivity reg
    (fetch_input params bs (copyState (ep_State params)) (Some p)))) by (intros; apply runs_fetch).
  destruct (collect_fetch_records
    (map (λ p, FetchBatchActivity reg (fetch_input params bs (copyState (ep_State params)) (Some p))) ps)
    (map (λ p, take (Z.to_nat bs) (part_slice p recs)) ps)
    ([], copyState (ep_State params))) as [st Hst].
  { rewrite list.Forall2_fmap. apply list.Forall_Forall2_diag, list.Forall_true. intros p.
    by apply (FetchBatch_partition reg src recs (fetch_input params bs _ (Some p)) p). }
  rewrite Hst. simpl. rewrite runs_save. eexists _, _. split; [done|]. simpl.
  split; [done|]. split; [lia|].
  assert (∀ l, (length (concat (map (λ p, take (Z.to_nat bs) (part_slice p recs)) l))
                ≤ length l * Z.to_nat bs)%nat) as Hc.
  { induction l as [|p l IH]; simpl; [lia|]. rewrite length_app, length_take. lia. }
  specialize (Hc ps). rewrite Hlen in Hc. lia.
Qed.

(** ** Loading *)

Lemma run_all_ok {W A B} (f : A → wf W B) inputs w :
  ∃ rs w', run_all f inputs w = (Ok rs, w') ∧ length rs = length inputs.
Proof.
  revert w. induction inputs as [|i inputs IH]; intros w; simpl; [eauto|].
  destruct (f i w) as [r w1]. destruct (IH w1) as (rs & w2 & -> & Hl).
  eexists _, _. split; [done|]. simpl. by rewrite Hl.
Qed.

Lemma splitIntoBatches_spec records bs :
  bs ≤ 4000000000000000000 → Z.of_nat (length records) ≤ 4000000000000000000 →
  ∃ batches, splitIntoBatches records bs = Ok batches ∧ concat batches = records ∧
    Forall (λ b, (0 < length b)%nat ∧
      Z.of_nat (length b) ≤ if bs <=? 0 then DefaultBatchSize else bs) batches.
Proof.
  intros Hbs Hlen. unfold splitIntoBatches.
  set (n := if bs <=? 0 then DefaultBatchSize else bs).
  assert (0 < n ≤ 4000000000000000000).
  { subst n. unfold DefaultBatchSize. destruct (Z.leb_spec bs 0); lia. }
  rewrite !(i64_id (_ + _)), (i64_id (_ - _)) by (unfold in_i64, int64_min, int64_max; lia).
  rewrite Z.quot_div_nonneg by lia.
  set (x := Z.of_nat (length records) + n - 1).
  assert (0 ≤ x / n ≤ x).
  { assert (0 ≤ x) by lia. split; [apply Z.div_pos; lia|]. apply Z.div_le_upper_bound; [lia|].
    rewrite <- (Z.mul_1_l x) at 1. apply Z.mul_le_mono_nonneg_r; lia. }
  rewrite i64_id by (unfold in_i64, int64_min, int64_max; lia).
  destruct (Z.ltb_spec (x / n) 0); [lia|].
  eexists. split; [done|]. split.
  - rewrite slices_from_concat by lia. done.
  - eapply Forall_impl; [|apply slices_from_length; lia]. simpl. intros b. lia.
Qed.

Lemma confirm_errors_nil {W} (reg : connectorRegistry W) input :
  confirm_errors (ConfirmWriteActivity reg input) = [] → ci_ActualCount input = ci_ExpectedCount input.
Proof.
  unfold ConfirmWriteActivity. destruct (GetDestination reg _); simpl; [|done..].
  destruct (dst_Check _ _) as [check| |]; simpl; [|done..].
  destruct (bool_decide (cr_Status check = CheckStatusSucceeded)); simpl; [|done].
  destruct (Z.eqb_spec (ci_ActualCount input) (ci_ExpectedCount input)); simpl; done.
Qed.

(** C3: the load workflow never fails as a whole: it hands every record to exactly
    one batch of at most the batch size, writes every batch even when others
    fail, and reports no error only if the destination acknowledged exactly as
    many records as there were. *)
Theorem LoadWorkflow_no_silent_loss {W} (reg : connectorRegistry W) (E : env W) params w :
  RunsActivities reg E → lp_BatchSize params ≤ 4000000000000000000 →
  Z.of_nat (length (lp_Records params)) ≤ 4000000000000000000 →
  ∃ batches outs w1 r w', splitIntoBatches (lp_Records params)
      (if lp_BatchSize params <=? 0 then DefaultBatchSize else lp_BatchSize params) = Ok batches ∧
    concat batches = lp_Records params ∧
    run_all (run_write E) (imap (write_input params) batches) w = (Ok outs, w1) ∧
    length outs = length batches ∧
    LoadWorkflow E params w = (Ok r, w') ∧
    (lr_Errors r = [] →
       lr_RecordsLoaded r = Z.of_nat (length (lp_Records params)) ∧
       Forall (λ o, is_ok o = true) outs).
Proof.
  intros HE Hbs Hlen. unfold LoadWorkflow.
  set (bs := if lp_BatchSize params <=? 0 then _ else _).
  assert (bs ≤ 4000000000000000000).
  { subst bs. unfold DefaultBatchSize. destruct (Z.leb_spec (lp_BatchSize params) 0); lia. }
  destruct (splitIntoBatches_spec (lp_Records params) bs) as (batches & Hs & Hc & _); [done..|].
  destruct (run_all_ok (run_write E) (imap (write_input params) batches) w) as (outs & w1 & Ho & Hol).
  exists batches, outs, w1. unfold wf_bind. rewrite Hs, Ho. unfold wf_try. rewrite runs_confirm.
  eexists _, _. rewrite length_imap in Hol. do 5 (split; [done|]). simpl.
  intros [He Hce]%app_eq_nil. split; [by apply (confirm_errors_nil reg) in Hce|].
  revert He. assert (∀ acc, lr_Errors (foldl collect_write acc outs) = [] →
    lr_Errors acc = [] ∧ Forall (λ o, is_ok o = true) outs) as Hf; [|apply Hf].
  clear. induction outs as [|o outs IH]; intros acc; simpl; [done|].
  intros [Ha Hf]%IH. destruct o; simpl in Ha; apply app_eq_nil in Ha as [??]; done || auto.
Qed.

(** ** Witnesses *)

Section examples.

(** The environment that runs the extraction and load activities once, without
    faults, over a world without state. *)
Definition env_of (reg : connectorRegistry unit) : env unit := {|
  run_determine i w := (DeterminePartitionsActivity reg i, w);
  run_fetch i w := (FetchBatchActivity reg i, w);
  run_save i w := (match SaveCheckpointActivity i with None => Ok () | Some e => Err e end, w);
  run_map i w := (Ok (mkRecordsOutput (mi_Records i) []), w);
  run_coerce i w := (Ok (mkRecordsOutput (mi_Records i) []), w);
  run_dedup i w := (Ok (mkDedupOutput (dd_Records i) 0), w);
  run_write i w := WriteBatchActivity reg i w;
  run_confirm i w := (ConfirmWriteActivity reg i, w)
|}.

#[global] Instance env_of_runs reg : RunsActivities reg (env_of reg).
Proof. by split. Qed.

Definition ex_rec (n : nat) : Rec := mkRec "s" "" (RawDoc (JNum (NLit (pretty n) (Z.of_nat n) 0))) 0.
Definition ex_stream : Stream := mkStream "s" "" "" RawEmpty [] [] false [["id"]].
Definition ex_meta : ConnectorMeta := mkConnectorMeta "c" "" "" "" "" "".

(** A source over a list of records: it sends [slice st] of them. *)
Definition list_source (slice : state_map → list Rec) : Source :=
  mkSource (Ok (mkSpec "" RawEmpty)) (λ _, Ok (mkCheckResult CheckStatusSucceeded ""))
    (λ _, Ok (mkCatalog [ex_stream]))
    (λ _ _ st c, match c with
                 | None => (map record_message (slice st), None)
                 | Some n => (take n (map record_message (slice st)), Some (ErrText "context canceled"))
                 end).

#[global] Instance list_source_laws slice : SourceLaws (list_source slice).
Proof. split. intros cfg cat st n. simpl. by rewrite take_take, Nat.min_id. Qed.

(** It honours the partition of its state. *)
Definition state_slice (recs : list Rec) (st : state_map) : list Rec :=
  match st !! "__partition" with
  | Some (RawDoc (JObj [_; (_, JNum (NLit _ limit _)); (_, JNum (NLit _ offset _)); _; _])) =>
      take (Z.to_nat limit) (drop (Z.to_nat offset) recs)
  | _ => recs
  end.

Lemma partition_doc_json p :
  marshal_map (partition_doc p) = Ok (RawDoc (JObj
    [("end_key", JStr (pr_EndKey p)); ("limit", JNum (NLit (pretty (pr_Limit p)) (pr_Limit p) 0));
     ("offset", JNum (NLit (pretty (pr_Offset p)) (pr_Offset p) 0));
     ("partition_id", JNum (NLit (pretty (pr_PartitionID p)) (pr_PartitionID p) 0));
     ("start_key", JStr (pr_StartKey p))])).
Proof. reflexivity. Qed.

#[global] Instance list_source_partitions recs : PartitionSource (list_source (state_slice recs)) recs.
Proof.
  split; [|done]. intros cfg cat st p d c Hst Hd.
  rewrite partition_doc_json in Hd. injection Hd as <-.
  assert (state_slice recs st = part_slice p recs) as Hs by (unfold state_slice; by rewrite Hst).
  simpl. rewrite Hs. by destruct c.
Qed.

Definition ex_reg (src : Source) : connectorRegistry unit :=
  RegisterSource "c" ex_meta src registry_init.
Definition ex_extract (st : state_map) : ExtractParams :=
  mkExtractParams "c" RawEmpty [mkConfiguredStream ex_stream SyncModeFullRefresh DestSyncModeAppend [] []]
    st 1000 "t" "s".

Lemma FetchBatch_spec_witness :
  let src := list_source (λ _, map ex_rec (seq 0 5)) in
  let input := fetch_input (ex_extract ∅) 3 ∅ None in
  ∃ out, FetchBatchActivity (ex_reg src) input = Ok out ∧
  fo_HasMore out = true ∧ ∃ rest, fo_Records out = map ex_rec (seq 0 3) ++ rest.
Proof.
  intros src input.
  exists (mkFetchOutput (map ex_rec (seq 0 3)) ∅ true).
  assert (FetchBatchActivity (ex_reg src) input = Ok (mkFetchOutput (map ex_rec (seq 0 3)) ∅ true))
    as Ho by reflexivity.
  split; [exact Ho|]. split; [reflexivity|].
  destruct (FetchBatch_spec (ex_reg src) input src ∅ _ (list_source_laws _) eq_refl eq_refl Ho)
    as (_ & _ & H). apply H. reflexivity.
Defined.

Lemma partitions_exact_witness :
  ∃ k p, partitions_of 10000 !! k = Some p ∧ pr_Offset p ≤ 9999 < pr_Offset p + pr_Limit p.
Proof.
  destruct (partitions_exact 10000 9999) as (_ & k & p & Hk & _ & Hp & _);
    [lia|unfold int64_max; lia|eauto].
Defined.

Lemma full_refresh_never_ends_witness :
  extractSequential (env_of (ex_reg (list_source (λ _, map ex_rec (seq 0 1000))))) 50
    (ex_extract ∅) DefaultBatchSize tt = None.
Proof.
  apply (full_refresh_never_ends (ex_reg (list_source (λ _, map ex_rec (seq 0 1000)))) _ _
           (list_source (λ _, map ex_rec (seq 0 1000))));
    [apply _..|reflexivity|intros; reflexivity|vm_compute; lia].
Defined.

Lemma partitioned_extraction_truncates_witness :
  ∃ r w', ExtractWorkflow (env_of (ex_reg (list_source (state_slice (map ex_rec (seq 0 10000)))))) 1
    (ex_extract ∅) tt = Some (Ok r, w') ∧ er_RecordsCount r ≤ 8000.
Proof.
  destruct (partitioned_extraction_truncates (ex_reg (list_source (state_slice (map ex_rec (seq 0 10000)))))
    _ (ex_extract ∅) _ _ (mkCatalog [ex_stream]) 1 tt
    (env_of_runs _) (list_source_partitions _) eq_refl eq_refl) as (r & w' & Hr & _ & _ & Hc).
  { simpl. lia. }
  exists r, w'. split; [exact Hr|exact Hc].
Defined.

(** A source with a cursor in its checkpoint, read two records at a time. *)
Definition cursor_pos (st : state_map) : nat :=
  match st !! "cursor" with Some (RawDoc (JNum (NLit _ m _))) => Z.to_nat m | _ => 0%nat end.
Definition cursor_env (recs : list Rec) : env unit :=
  let e := env_of registry_init in
  mkEnv _ (run_determine e)
    (λ i w, let p := cursor_pos (fi_State i) in
       let page := take 2 (drop p recs) in
       let n := Z.of_nat (p + length page) in
       (Ok (mkFetchOutput page {[ "cursor" := RawDoc (JNum (NLit (pretty n) n 0)) ]}
              (bool_decide (2 < length (drop p recs))%nat)), w))
    (run_save e) (run_map e) (run_coerce e) (run_dedup e) (run_write e) (run_confirm e).

Lemma cursor_env_paged recs params bs : paged (cursor_env recs) params bs recs cursor_pos.
Proof.
  split. intros st w. eexists _, _. split; [reflexivity|]. cbn [fo_Records fo_NewState fo_HasMore fi_State fetch_input].
  assert (length (take 2 (drop (cursor_pos st) recs)) ≤ 2)%nat by (rewrite length_take; lia).
  split_and!.
  - set (l := drop _ _). rewrite length_take, <- take_take, (take_ge l (length l)); [done|lia].
  - unfold mergeStateRaw. unfold cursor_pos at 1.
    rewrite (lookup_union_Some_l _ _ _ _ (lookup_singleton_eq _ _)). lia.
  - rewrite length_take, length_drop. case_bool_decide; lia.
Qed.

Lemma extractSequential_complete_witness :
  ∃ st' w', extractSequential (cursor_env (map ex_rec (seq 0 5))) 6 (ex_extract ∅) 2 tt =
    Some (Ok (map ex_rec (seq 0 5), st'), w').
Proof.
  refine (extractSequential_complete _ (ex_extract ∅) 2 (map ex_rec (seq 0 5)) cursor_pos 6 tt
            (cursor_env_paged (map ex_rec (seq 0 5)) _ _) _).
  vm_compute. lia.
Defined.

(** A destination that acknowledges every record. *)
Definition ack_destination : Destination unit :=
  mkDestination (Ok (mkSpec "" RawEmpty)) (λ _, Ok (mkCheckResult CheckStatusSucceeded ""))
    (λ _ _ msgs w, (Ok (mkWriteResult (Z.of_nat (length msgs)) [] []), w)) [DestSyncModeAppend].
Definition ex_dest_reg : connectorRegistry unit :=
  RegisterDestination "c" ex_meta ack_destination registry_init.
Definition ex_load : LoadParams :=
  mkLoadParams "c" RawEmpty (map ex_rec (seq 0 5)) [] 2 "t" "s".

Lemma LoadWorkflow_no_silent_loss_witness :
  ∃ r w', LoadWorkflow (env_of ex_dest_reg) ex_load tt = (Ok r, w') ∧
    lr_Errors r = [] ∧ lr_RecordsLoaded r = 5 ∧ lr_BatchesWritten r = 3.
Proof.
  destruct (LoadWorkflow_no_silent_loss ex_dest_reg (env_of ex_dest_reg) ex_load tt (env_of_runs _))
    as (bs & outs & w1 & r & w' & _ & _ & _ & _ & Hr & Hl); [simpl; lia..|].
  exists r, w'. split; [exact Hr|]. vm_compute in Hr. injection Hr as <- <-.
  split_and!; reflexivity.
Defined.
End examples.
