(* ===== verification/Orchestrator.v ===== *)
(** * The sync orchestrator: [workflows/sync_orchestrator.go], [signals/signals.go]

    [SyncOrchestrator] is a step relation: the main coroutine moves between its
    signal checks and its child workflows, the four handler coroutines apply
    signals at any moment in between.  Both the resume handler and a paused main
    coroutine receive from the resume channel, so either may take a resume
    signal.  The outcome of a child workflow and the clock are inputs of the
    step; activities that only record or alert are logged, their failure is
    ignored by the code. *)

From S2P Require Import Prelude GoStrings Errors Float Value Protocol Activities TransformActivities Workflows.

(** ** signals.go *)

Record PauseSignal := mkPauseSignal { ps_Reason : string; ps_RequestID : string }.
Record ResumeSignal := mkResumeSignal { rsm_RequestID : string }.
Record CancelSignal := mkCancelSignal { csg_Reason : string; csg_RequestID : string; csg_SaveState : bool }.
Record ModifySignal := mkModifySignal { ms_Changes : state_map; ms_RequestID : string }.

Record SignalState := mkSignalState {
  PauseRequested : bool;
  CancelRequested : bool;
  PauseReason : string;
  CancelReason : string;
  SaveStateOnCancel : bool;
  PendingModify : option ModifySignal
}.

Definition NewSignalState : SignalState := mkSignalState false false "" "" false None.
Definition ApplyPause (s : SignalState) (sig : PauseSignal) : SignalState :=
  mkSignalState true (CancelRequested s) (ps_Reason sig) (CancelReason s) (SaveStateOnCancel s) (PendingModify s).
Definition ApplyResume (s : SignalState) : SignalState :=
  mkSignalState false (CancelRequested s) "" (CancelReason s) (SaveStateOnCancel s) (PendingModify s).
Definition ApplyCancel (s : SignalState) (sig : CancelSignal) : SignalState :=
  mkSignalState (PauseRequested s) true (PauseReason s) (csg_Reason sig) (csg_SaveState sig) (PendingModify s).
Definition ApplyModify (s : SignalState) (sig : ModifySignal) : SignalState :=
  mkSignalState (PauseRequested s) (CancelRequested s) (PauseReason s) (CancelReason s)
    (SaveStateOnCancel s) (Some sig).
Definition ConsumeModify (s : SignalState) : option ModifySignal * SignalState :=
  (PendingModify s,
   mkSignalState (PauseRequested s) (CancelRequested s) (PauseReason s) (CancelReason s)
     (SaveStateOnCancel s) None).
Definition IsPaused (s : SignalState) : bool := PauseRequested s.
Definition IsCancelled (s : SignalState) : bool := CancelRequested s.

(** ** Run records and alerts *)

Record SyncRunRecord := mkRunRecord {
  rr_TenantID : string;
  rr_SyncID : string;
  rr_WorkflowID : string;
  rr_Status : string;
  rr_RecordsExtracted : Z;
  rr_RecordsTransformed : Z;
  rr_RecordsLoaded : Z;
  rr_NewCheckpoint : state_map;
  rr_Duration : Z;
  rr_Errors : list string;
  rr_StartedAt : Z;
  rr_CompletedAt : Z
}.
Record AlertInput := mkAlertInput {
  al_TenantID : string;
  al_SyncID : string;
  al_WorkflowID : string;
  al_AlertType : string;
  al_Message : string;
  al_Errors : list string;
  al_Severity : string
}.

(** What the main coroutine does to the outside. *)
Inductive effect :=
| StartExtract (p : ExtractParams)
| StartTransform (p : TransformParams)
| StartLoad (p : LoadParams)
| RecordRun (r : SyncRunRecord)
| Alert (a : AlertInput).

Section orchestrator.
Context (params : SyncParams) (workflowID : string) (startTime : Z).

Definition executeExtractPhase : ExtractParams :=
  mkExtractParams (sp_SourceConnectorID params) (sp_SourceConfig params) (sp_SelectedStreams params)
    (sp_LastCheckpoint params) DefaultBatchSize (sp_TenantID params) (sp_SyncID params).
Definition executeTransformPhase (er : ExtractResult) : TransformParams :=
  mkTransformParams (er_Records er) (sp_FieldMappings params) (sp_SelectedStreams params)
    (sp_TenantID params) (sp_SyncID params).
Definition executeLoadPhase (tr : TransformResult) : LoadParams :=
  mkLoadParams (sp_DestConnectorID params) (sp_DestConfig params) (tr_Records tr)
    (sp_SelectedStreams params) DefaultBatchSize (sp_TenantID params) (sp_SyncID params).

Definition run_status (phase : SyncPhase) : string :=
  match phase with
  | PhaseFailed => "failed"
  | PhaseCancelled => "cancelled"
  | _ => "completed"
  end.

Definition recordSyncRun (status : SyncStatus) (endTime : Z) (r : SyncResult) : effect :=
  RecordRun (mkRunRecord (sp_TenantID params) (sp_SyncID params) workflowID
    (run_status (ss_Phase status)) (sr_RecordsExtracted r) (sr_RecordsTransformed r)
    (sr_RecordsLoaded r) (sr_NewCheckpoint r) (time_sub endTime startTime) (sr_Errors r) startTime endTime).

Definition alertSeverityForType (alertType : string) : string :=
  if bool_decide (alertType = "extract_failed") || bool_decide (alertType = "load_failed") then "critical"
  else if bool_decide (alertType = "transform_failed") then "critical"
  else if bool_decide (alertType = "sync_degraded") || bool_decide (alertType = "partial_failure")
  then "warning" else "info".

Definition alertOnFailure (alertType message : string) : effect :=
  Alert (mkAlertInput (sp_TenantID params) (sp_SyncID params) workflowID alertType message []
           (alertSeverityForType alertType)).

Definition buildFailedResult (endTime : Z) (errs : list string) : SyncResult :=
  mkSyncResult 0 0 0 ∅ (time_sub endTime startTime) errs.
Definition buildPartialResult (er : ExtractResult) (endTime : Z) (errs : list string) : SyncResult :=
  mkSyncResult (er_RecordsCount er) 0 0 (er_NewState er) (time_sub endTime startTime) errs.
Definition collectAllErrors (slices : list (list string)) : list string := concat slices.

(** ** The step relation *)

(** The three calls of [checkSignals], with what has been computed before. *)
Inductive check :=
| BeforeExtract
| AfterExtract (er : ExtractResult)
| AfterTransform (er : ExtractResult) (tr : TransformResult).

Inductive pc :=
| AtCheck (c : check)
| Blocked (c : check) (previous : SyncPhase)     (** receiving from the resume channel *)
| InExtract
| InTransform (er : ExtractResult)
| InLoad (er : ExtractResult) (tr : TransformResult)
| Returned (r : SyncResult) (err : option error).

Record sys := mkSys {
  sigState : SignalState; status : SyncStatus; main : pc; log : list effect
}.

(** The state once the query handler is registered.  [SetQueryHandler] fails only for an
    invalid handler; the workflow would then return its error without doing anything. *)
Definition init : sys :=
  mkSys NewSignalState (mkSyncStatus PhaseInitializing (f_of_Z 0) 0 [] startTime) (AtCheck BeforeExtract) [].

Definition set_phase (st : SyncStatus) (p : SyncPhase) : SyncStatus :=
  mkSyncStatus p (ss_Progress st) (ss_RecordsProcessed st) (ss_Errors st) (ss_StartedAt st).
Definition set_processed (st : SyncStatus) (n : Z) : SyncStatus :=
  mkSyncStatus (ss_Phase st) (ss_Progress st) n (ss_Errors st) (ss_StartedAt st).

(** What the caller of [checkSignals] returns when it fails. *)
Definition check_result (c : check) (now : Z) (errs : list string) : SyncResult :=
  match c with
  | BeforeExtract => buildFailedResult now errs
  | AfterExtract er | AfterTransform er _ => buildPartialResult er now errs
  end.

(** The code after a check that passed, up to the start of the next child. *)
Definition enter (c : check) (sg : SignalState) (st : SyncStatus) (l : list effect) : sys :=
  match c with
  | BeforeExtract =>
      mkSys sg (set_phase st PhaseExtracting) InExtract (l ++ [StartExtract executeExtractPhase])
  | AfterExtract er =>
      mkSys sg (set_phase st PhaseTransforming) (InTransform er)
        (l ++ [StartTransform (executeTransformPhase er)])
  | AfterTransform er tr =>
      mkSys sg (set_phase st PhaseLoading) (InLoad er tr) (l ++ [StartLoad (executeLoadPhase tr)])
  end.

Definition cancelled (s : sys) (c : check) (now : Z) (msg : string) : sys :=
  let st := set_phase (status s) PhaseCancelled in
  mkSys (sigState s) st
    (Returned (check_result c now (ss_Errors st)) (Some (ErrText (msg +:+ CancelReason (sigState s)))))
    (log s).

(** [checkSignals], up to where it blocks. *)
Definition checkSignals (s : sys) (c : check) (now : Z) : sys :=
  if IsCancelled (sigState s) then cancelled s c now "sync cancelled: "
  else if IsPaused (sigState s) then
    mkSys (sigState s) (set_phase (status s) PhasePaused) (Blocked c (ss_Phase (status s))) (log s)
  else enter c (sigState s) (status s) (log s).

(** [checkSignals] after its receive. *)
Definition resumed (s : sys) (c : check) (previous : SyncPhase) (now : Z) : sys :=
  let s := mkSys (ApplyResume (sigState s)) (status s) (main s) (log s) in
  if IsCancelled (sigState s) then cancelled s c now "sync cancelled while paused: "
  else enter c (sigState s) (set_phase (status s) previous) (log s).

Definition fail_phase (s : sys) (alertType : string) (extracted transformed now : Z) (e : error) : sys :=
  let st := set_phase (status s) PhaseFailed in
  let st := mkSyncStatus (ss_Phase st) (ss_Progress st) (ss_RecordsProcessed st)
              (ss_Errors st ++ [Error e]) (ss_StartedAt st) in
  mkSys (sigState s) st (Returned (buildFailedResult now (ss_Errors st)) (Some e))
    (log s ++ [recordSyncRun st now (mkSyncResult extracted transformed 0 ∅ 0 (ss_Errors st));
               alertOnFailure alertType (Error e)]).

Definition extract_done (s : sys) (r : ExtractResult + error) (now : Z) : sys :=
  match r with
  | inr e => fail_phase s "extract_failed" 0 0 now e
  | inl er => mkSys (sigState s) (set_processed (status s) (er_RecordsCount er))
                (AtCheck (AfterExtract er)) (log s)
  end.

Definition transform_done (s : sys) (er : ExtractResult) (r : TransformResult + error) (now : Z) : sys :=
  match r with
  | inr e => fail_phase s "transform_failed" (er_RecordsCount er) 0 now e
  | inl tr => mkSys (sigState s) (set_processed (status s) (tr_RecordsCount tr))
                (AtCheck (AfterTransform er tr)) (log s)
  end.

Definition load_done (s : sys) (er : ExtractResult) (tr : TransformResult) (r : LoadResult + error)
    (now : Z) : sys :=
  match r with
  | inr e => fail_phase s "load_failed" (er_RecordsCount er) (tr_RecordsCount tr) now e
  | inl lr =>
      let st := set_phase (status s) PhaseCompleted in
      let st := mkSyncStatus (ss_Phase st) (f_of_Z 1) (ss_RecordsProcessed st) (ss_Errors st) (ss_StartedAt st) in
      let result := mkSyncResult (er_RecordsCount er) (tr_RecordsCount tr) (lr_RecordsLoaded lr)
                      (er_NewState er) (time_sub now startTime) (collectAllErrors [tr_Errors tr; lr_Errors lr]) in
      mkSys (sigState s) st (Returned result None)
        (log s ++ [recordSyncRun st now result] ++
         match sr_Errors result with
         | [] => []
         | es => [alertOnFailure "sync_degraded"
                    (pretty (Z.of_nat (length es)) +:+ " non-fatal errors occurred")]
         end)
  end.

Definition with_signal (s : sys) (f : SignalState → SignalState) : sys :=
  mkSys (f (sigState s)) (status s) (main s) (log s).

(** A handler coroutine applies a signal. *)
Inductive signal_step (s : sys) : sys → Prop :=
| sig_pause sg : signal_step s (with_signal s (λ x, ApplyPause x sg))
| sig_resume : signal_step s (with_signal s ApplyResume)
| sig_cancel sg : signal_step s (with_signal s (λ x, ApplyCancel x sg))
| sig_modify sg : signal_step s (with_signal s (λ x, ApplyModify x sg)).

(** The main coroutine moves. *)
Inductive main_step (s : sys) : sys → Prop :=
| main_check c now : main s = AtCheck c → main_step s (checkSignals s c now)
| main_extract r now : main s = InExtract → main_step s (extract_done s r now)
| main_transform er r now : main s = InTransform er → main_step s (transform_done s er r now)
| main_load er tr r now : main s = InLoad er tr → main_step s (load_done s er tr r now)
| main_resumed c previous now : main s = Blocked c previous → main_step s (resumed s c previous now).

Inductive step (s : sys) : sys → Prop :=
| step_signal s' : signal_step s s' → step s s'
| step_main s' : main_step s s' → step s s'.

Definition reachable (s : sys) : Prop := rtc step init s.

(** ** Invariant *)

Definition starts (c : check) : list effect :=
  match c with
  | BeforeExtract => []
  | AfterExtract er => [StartExtract executeExtractPhase]
  | AfterTransform er tr => [StartExtract executeExtractPhase; StartTransform (executeTransformPhase er)]
  end.

(** How a run can end. *)
Inductive finished : list effect → SyncPhase → SyncResult → option error → Prop :=
| fin_cancelled c now e :
    finished (starts c) PhaseCancelled (check_result c now []) (Some e)
| fin_failed l alertType n m st now e :
    (l, alertType) ∈ [([StartExtract executeExtractPhase], "extract_failed")] ∨
    (∃ er, (l, alertType) = (starts (AfterExtract er) ++ [StartTransform (executeTransformPhase er)], "transform_failed")) ∨
    (∃ er tr, (l, alertType) = (starts (AfterTransform er tr) ++ [StartLoad (executeLoadPhase tr)], "load_failed")) →
    ss_Phase st = PhaseFailed →
    finished (l ++ [recordSyncRun st now (mkSyncResult n m 0 ∅ 0 [Error e]); alertOnFailure alertType (Error e)])
      PhaseFailed (buildFailedResult now [Error e]) (Some e)
| fin_completed er tr lr st now r :
    ss_Phase st = PhaseCompleted →
    r = mkSyncResult (er_RecordsCount er) (tr_RecordsCount tr) (lr_RecordsLoaded lr) (er_NewState er)
          (time_sub now startTime) (tr_Errors tr ++ lr_Errors lr) →
    finished (starts (AfterTransform er tr) ++ [StartLoad (executeLoadPhase tr); recordSyncRun st now r] ++
              match sr_Errors r with
              | [] => []
              | es => [alertOnFailure "sync_degraded" (pretty (Z.of_nat (length es)) +:+ " non-fatal errors occurred")]
              end)
      PhaseCompleted r None.

Definition pipeline_inv (s : sys) : Prop :=
  match main s with
  | AtCheck c | Blocked c _ => log s = starts c ∧ ss_Errors (status s) = []
  | InExtract => log s = [StartExtract executeExtractPhase] ∧ ss_Errors (status s) = []
  | InTransform er => log s = starts (AfterExtract er) ++ [StartTransform (executeTransformPhase er)]
                      ∧ ss_Errors (status s) = []
  | InLoad er tr => log s = starts (AfterTransform er tr) ++ [StartLoad (executeLoadPhase tr)]
                    ∧ ss_Errors (status s) = []
  | Returned r err => finished (log s) (ss_Phase (status s)) r err
  end.

Lemma pipeline_enter c sg st l :
  l = starts c → ss_Errors st = [] → pipeline_inv (enter c sg st l).
Proof. intros -> He. destruct c; simpl; done. Qed.

Lemma pipeline_cancelled s c now msg :
  log s = starts c → ss_Errors (status s) = [] → pipeline_inv (cancelled s c now msg).
Proof. intros Hl He. unfold pipeline_inv. simpl. rewrite Hl, He. constructor. Qed.

Lemma pipeline_main s s' : pipeline_inv s → main_step s s' → pipeline_inv s'.
Proof.
  intros Hinv Hstep. destruct Hstep; unfold pipeline_inv in Hinv; rewrite H in Hinv.
  - destruct Hinv as [Hl He]. unfold checkSignals. destruct (IsCancelled _); [by apply pipeline_cancelled|].
    destruct (IsPaused _); [done|]. by apply pipeline_enter.
  - destruct Hinv as [Hl He]. destruct r as [er|e]; [done|].
    unfold pipeline_inv. simpl. rewrite Hl, He. simpl.
    apply (fin_failed [_] "extract_failed"); [left; set_solver|done].
  - destruct Hinv as [Hl He]. destruct r as [tr|e]; [done|].
    unfold pipeline_inv. simpl. rewrite Hl, He. simpl.
    apply (fin_failed [_; _] "transform_failed"); [right; left; by exists er|done].
  - destruct Hinv as [Hl He]. destruct r as [lr|e].
    + unfold pipeline_inv. simpl. rewrite Hl, (right_id_L [] (++)).
      by eapply (fin_completed er tr lr).
    + unfold pipeline_inv. simpl. rewrite Hl, He. simpl.
      apply (fin_failed [_; _; _] "load_failed"); [right; right; by exists er, tr|done].
  - destruct Hinv as [Hl He]. unfold resumed. cbv zeta.
    destruct (IsCancelled (sigState _)); [by apply pipeline_cancelled|]. by apply pipeline_enter.
Qed.

Lemma pipeline_signal s s' : signal_step s s' → pipeline_inv s → pipeline_inv s'.
Proof. by destruct 1. Qed.

Lemma pipeline_reachable s : reachable s → pipeline_inv s.
Proof.
  unfold reachable. intros H. assert (pipeline_inv init) as Hi by done.
  revert Hi. induction H as [|s1 s2 s3 Hstep _ IH]; [done|]. intros Hi. apply IH.
  destruct Hstep; eauto using pipeline_main, pipeline_signal.
Qed.

(** ** Properties *)

(** The child workflows started. *)
Definition is_start (e : effect) : bool :=
  match e with StartExtract _ | StartTransform _ | StartLoad _ => true | _ => false end.
Definition started (s : sys) : list effect := List.filter is_start (log s).

(** The inputs of the child workflows when all three are started. *)
Definition pipeline (er : ExtractResult) (tr : TransformResult) : list effect :=
  [StartExtract executeExtractPhase; StartTransform (executeTransformPhase er);
   StartLoad (executeLoadPhase tr)].

Lemma started_prefix s : pipeline_inv s → ∃ er tr, started s `prefix_of` pipeline er tr.
Proof.
  set (er0 := mkExtractResult [] 0 ∅ 0). set (tr0 := mkTransformResult [] 0 0 []).
  assert (∀ c, ∃ er tr, starts c `prefix_of` pipeline er tr) as Hc.
  { intros [|er|er tr]; [exists er0, tr0|exists er, tr0|exists er, tr]; by eexists. }
  assert (∀ c, List.filter is_start (starts c) = starts c) as Hf by (by intros []).
  unfold pipeline_inv, started. destruct (main s) as [c|c p| |er|er tr|r err].
  - intros [-> _]. rewrite Hf. apply Hc.
  - intros [-> _]. rewrite Hf. apply Hc.
  - intros [-> _]. exists er0, tr0. by eexists.
  - intros [-> _]. exists er, tr0. by eexists.
  - intros [-> _]. exists er, tr. by eexists.
  - intros Hfin. destruct Hfin as [c now e|l ty n m st now e Hl _|er tr lr st now r _ Hr].
    + rewrite Hf. apply Hc.
    + rewrite List.filter_app. simpl. rewrite (right_id_L [] (++)).
      destruct Hl as [Hl|[[er Hl]|(er & tr & Hl)]].
      * apply list_elem_of_singleton in Hl. injection Hl as -> ->. exists er0, tr0. by eexists.
      * injection Hl as -> ->. exists er, tr0. by eexists.
      * injection Hl as -> ->. exists er, tr. by eexists.
    + exists er, tr. rewrite List.filter_app. simpl.
      destruct (sr_Errors r); by eexists.
Qed.

(** C1: in every interleaving with signals the orchestrator starts extract,
    transform and load at most once each and in that order, each with the result
    of the one before and with the parameters the sync was started with (whatever
    modifications were signalled); and a run that returned either was cancelled
    before a phase, having recorded nothing, or failed in a phase, with exactly
    one failed run record and one alert, or completed all three, with exactly one
    completed record of the counts and an alert exactly if there were errors. *)
Theorem orchestrator_pipeline s :
  reachable s →
  (∃ er tr, started s `prefix_of` pipeline er tr) ∧
  ∀ r err, main s = Returned r err → finished (log s) (ss_Phase (status s)) r err.
Proof.
  intros Hinv%pipeline_reachable. split.
  - apply started_prefix, Hinv.
  - unfold pipeline_inv in Hinv. intros r err Hm. by rewrite Hm in Hinv.
Qed.

Lemma cancel_step s s' :
  step s s' → CancelRequested (sigState s) = true →
  CancelRequested (sigState s') = true ∧ started s' = started s.
Proof.
  intros [s1 [sg| |sg|sg]|s1 Hm] Hc; [done..|].
  destruct Hm; unfold started.
  - unfold checkSignals, IsCancelled. by rewrite Hc.
  - destruct r as [er|e]; simpl; [done|]. rewrite List.filter_app. simpl. by rewrite (right_id_L [] (++)).
  - destruct r as [er'|e]; simpl; [done|]. rewrite List.filter_app. simpl. by rewrite (right_id_L [] (++)).
  - destruct r as [lr|e]; simpl; rewrite List.filter_app; simpl.
    + destruct (tr_Errors tr ++ lr_Errors lr ++ []); simpl; by rewrite (right_id_L [] (++)).
    + by rewrite (right_id_L [] (++)).
  - unfold resumed, IsCancelled. simpl. by rewrite Hc.
Qed.

(** C35: once a cancel signal has been handled, no further child workflow is ever
    started, whatever happens afterwards. *)
Theorem cancel_stops_pipeline s s' :
  CancelRequested (sigState s) = true → rtc step s s' → started s' = started s.
Proof.
  intros Hc Hr. induction Hr as [|s1 s2 s3 Hstep _ IH]; [done|].
  destruct (cancel_step _ _ Hstep Hc) as [Hc' <-]. by apply IH.
Qed.

(** A paused run waits for a resume signal received by its own coroutine: no
    handled signal unblocks it. In particular it can stay blocked with a cancel
    requested, and also after a resume signal that its handler coroutine took,
    with no pause requested any more. *)
Theorem pause_ignores_cancel :
  (∀ s c previous s', main s = Blocked c previous → rtc signal_step s s' →
     main s' = Blocked c previous ∧ ss_Phase (status s') = ss_Phase (status s)) ∧
  ∃ s previous, reachable s ∧ main s = Blocked BeforeExtract previous ∧
    ss_Phase (status s) = PhasePaused ∧
    CancelRequested (sigState s) = true ∧ PauseRequested (sigState s) = false.
Proof.
  split.
  - intros s c previous s' Hm Hr. revert Hm. induction Hr as [|s1 s2 s3 Hstep _ IH]; [done|].
    intros Hm. destruct (IH) as [? ->]; destruct Hstep; done.
  - eexists _, _. split.
    + eapply rtc_l; [apply step_signal, (sig_pause _ (mkPauseSignal "" ""))|].
      eapply rtc_l; [apply step_main, (main_check _ BeforeExtract 0); reflexivity|].
      eapply rtc_l; [apply step_signal, sig_resume|].
      eapply rtc_l; [apply step_signal, (sig_cancel _ (mkCancelSignal "" "" false))|]. apply rtc_refl.
    + split_and!; reflexivity.
Qed.
End orchestrator.

(** ** Witnesses *)

Definition ex_params : SyncParams := mkSyncParams "c" "c" RawEmpty RawEmpty [] ∅ SyncModeFullRefresh ∅ "t" "s".
Definition ex_er : ExtractResult := mkExtractResult [] 0 ∅ 1.

(** Extraction done, then a cancel signal handled. *)
Lemma reach_cancel : ∃ s, reachable ex_params "w" 0 s ∧ CancelRequested (sigState s) = true ∧
  main s = AtCheck (AfterExtract ex_er) ∧ log s = [StartExtract (executeExtractPhase ex_params)].
Proof.
  eexists. split.
  - eapply rtc_l; [apply step_main, (main_check _ _ _ _ BeforeExtract 0); reflexivity|].
    eapply rtc_l; [apply step_main, (main_extract _ _ _ _ (inl ex_er) 1); reflexivity|].
    eapply rtc_l; [apply step_signal, (sig_cancel _ (mkCancelSignal "stop" "" true))|]. apply rtc_refl.
  - split_and!; reflexivity.
Qed.

Lemma orchestrator_pipeline_witness :
  ∃ s, reachable ex_params "w" 0 s ∧ ∃ er tr, started s `prefix_of` pipeline ex_params er tr.
Proof.
  destruct reach_cancel as (s & Hr & _). exists s. split; [exact Hr|].
  apply (orchestrator_pipeline ex_params "w" 0 s Hr).
Defined.

Lemma cancel_stops_pipeline_witness :
  ∃ s s' r e, rtc (step ex_params "w" 0) s s' ∧ main s' = Returned r (Some e) ∧
    started s' = [StartExtract (executeExtractPhase ex_params)].
Proof.
  destruct reach_cancel as (s & _ & Hc & Hm & Hl).
  exists s, (checkSignals ex_params 0 s (AfterExtract ex_er) 5).
  assert (rtc (step ex_params "w" 0) s (checkSignals ex_params 0 s (AfterExtract ex_er) 5)) as Hr.
  { apply rtc_once, step_main, main_check, Hm. }
  eexists _, _. split; [exact Hr|]. split.
  - unfold checkSignals, IsCancelled. rewrite Hc. reflexivity.
  - rewrite (cancel_stops_pipeline ex_params "w" 0 s _ Hc Hr). unfold started. by rewrite Hl.
Defined.
