(* ===== verification/Cron.v ===== *)
(** * Cron expressions: [internal/controlplane/scheduler/scheduler.go] (parser and NextCronTime)

    Instants are nanoseconds since the Unix epoch.  The search runs over seconds of UTC in a
    location, which is its lookup of zones: daylight saving time and its gaps are the data of the
    location.  [civil] and [days_of] are the calendar of Go's [time] package (proleptic
    Gregorian); the arithmetic of years is by cycles, months are looked up in a linear formula
    that is checked for every day of a year.  The search on local minutes, [local_loop], is only
    used in the proofs: it is the search of a location whose offset does not change. *)

From Stdlib Require Import Ascii.
From S2P Require Import Prelude GoStrings Errors.

(** ** Calendar *)

(** Days before the 1 March that starts year [y] (counted from 1 March of year 0). *)
Definition year_start (y : Z) : Z := 365 * y + y / 4 - y / 100 + y / 400.

(** Year that starts on a 1 March, and day in it, by cycles of 400, 100, 4 and 1 years. *)
Definition year_part (z : Z) : Z * Z :=
  let r := z mod 146097 in
  let c := Z.min (r / 36524) 3 in
  let r1 := r - 36524 * c in
  let q := r1 / 1461 in
  let r2 := r1 - 1461 * q in
  let n := Z.min (r2 / 365) 3 in
  (400 * (z / 146097) + 100 * c + 4 * q + n, r2 - 365 * n).

(** Month (0 is March) and day of a day in such a year. *)
Definition month_part (doy : Z) : Z * Z :=
  let mp := (5 * doy + 2) / 153 in (mp, doy - (153 * mp + 2) / 5 + 1).

(** Date of a day number since the epoch. *)
Definition civil (day : Z) : Z * Z * Z :=
  let '(y, doy) := year_part (day + 719468) in
  let '(mp, d) := month_part doy in
  if mp <? 10 then (y, mp + 3, d) else (y + 1, mp - 9, d).

(** Day number of a date whose month is between 1 and 12. *)
Definition days_of (y m d : Z) : Z :=
  let y := if m <=? 2 then y - 1 else y in
  let mp := if m <=? 2 then m + 9 else m - 3 in
  year_start y + (153 * mp + 2) / 5 + d - 1 - 719468.

Definition month_of (day : Z) : Z := (civil day).1.2.
Definition day_of_month (day : Z) : Z := (civil day).2.
(** [time.Sunday] is 0; the epoch was a Thursday. *)
Definition weekday (day : Z) : Z := (day + 4) mod 7.

(** The minutes from the epoch to a date and hour on the same clock; the month may be 13. *)
Definition date_minutes (y m d h : Z) : Z :=
  let y' := y + (m - 1) / 12 in
  let m' := (m - 1) mod 12 + 1 in
  (days_of y' m' 1 + d - 1) * 1440 + h * 60.

(** ** Parser *)

(** The set of values of a field. *)
Abbreviation cronField := (gset Z).

(** [for v := v; v <= max; v += step]; the sum wraps like Go's. *)
Fixpoint step_loop (fuel : nat) (v max step : Z) (values : cronField) : cronField :=
  match fuel with
  | O => values
  | S fuel => if v <=? max then step_loop fuel (v +ᵢ step) max step ({[v]} ∪ values) else values
  end.

(** Enough for every field: the values in the range, and a wrapped step. *)
Definition loop_fuel : nat := 100.

Definition parse_step (part : string) : res (string * Z) :=
  match SplitN2 part "/"%char with
  | [part'; s] =>
      match parse_int s with
      | Some step => if step <=? 0 then Err (ErrText ("invalid step " +:+ quote s)) else Ok (part', step)
      | None => Err (ErrText ("invalid step " +:+ quote s))
      end
  | _ => Ok (part, 1)
  end.

Definition parsePart (part : string) (min max : Z) (values : cronField) : res cronField :=
  '(part, step) ← parse_step part;
  if bool_decide (part = "*") then Ok (step_loop loop_fuel min max step values)
  else if contains_byte part "-"%char then
    match SplitN2 part "-"%char with
    | [a; b] =>
        match parse_int a with
        | None => Err (ErrText ("invalid range start " +:+ quote a))
        | Some start =>
            match parse_int b with
            | None => Err (ErrText ("invalid range end " +:+ quote b))
            | Some end_ =>
                if (start <? min) || (max <? end_) || (end_ <? start)
                then Err (ErrText ("range " +:+ pretty start +:+ "-" +:+ pretty end_ +:+ " out of bounds ["
                                   +:+ pretty min +:+ ", " +:+ pretty max +:+ "]"))
                else Ok (step_loop loop_fuel start end_ step values)
            end
        end
    | _ => Panic "index out of range"
    end
  else
    match parse_int part with
    | None => Err (ErrText ("invalid value " +:+ quote part))
    | Some val =>
        if (val <? min) || (max <? val)
        then Err (ErrText ("value " +:+ pretty val +:+ " out of bounds ["
                           +:+ pretty min +:+ ", " +:+ pretty max +:+ "]"))
        else Ok ({[val]} ∪ values)
    end.

Definition parseSingleField (field : string) (min max : Z) : res cronField :=
  foldM (λ values part, parsePart part min max values) ∅ (Split field ",").

Record cronFields := mkCronFields {
  cf_minute : cronField; cf_hour : cronField; cf_dom : cronField; cf_month : cronField; cf_dow : cronField
}.

Definition parse_field (i : Z) (field : string) (min max : Z) : res cronField :=
  match parseSingleField field min max with
  | Err e => Err (ErrWrapf ("field " +:+ pretty i +:+ " (" +:+ quote field +:+ ")") e)
  | r => r
  end.

Definition parseCronExpr (expr : string) : res cronFields :=
  match Fields (TrimSpace expr) with
  | [f0; f1; f2; f3; f4] =>
      v0 ← parse_field 0 f0 0 59; v1 ← parse_field 1 f1 0 23; v2 ← parse_field 2 f2 1 31;
      v3 ← parse_field 3 f3 1 12; v4 ← parse_field 4 f4 0 6;
      Ok (mkCronFields v0 v1 v2 v3 v4)
  | fs => Err (ErrText ("expected 5 fields, got " +:+ pretty (Z.of_nat (length fs))))
  end.

(** ** The search *)

Definition minute_ns : Z := 60000000000.

Definition month_ok (f : cronFields) (t : Z) : bool := bool_decide (month_of (t / 1440) ∈ cf_month f).
Definition dom_ok (f : cronFields) (t : Z) : bool := bool_decide (day_of_month (t / 1440) ∈ cf_dom f).
Definition dow_ok (f : cronFields) (t : Z) : bool := bool_decide (weekday (t / 1440) ∈ cf_dow f).
Definition hour_ok (f : cronFields) (t : Z) : bool := bool_decide (t mod 1440 / 60 ∈ cf_hour f).
Definition minute_ok (f : cronFields) (t : Z) : bool := bool_decide (t mod 60 ∈ cf_minute f).

(** The minute [t] matches the five fields. *)
Definition cron_match (f : cronFields) (t : Z) : bool :=
  month_ok f t && dom_ok f t && dow_ok f t && hour_ok f t && minute_ok f t.

(** *** Locations *)

(** A [time.Location] is its [lookup]: for a second of UTC the offset of the zone in force, in seconds, and the
    seconds from which and until which it is. *)
Record Location := mkLocation { lookup_zone : Z → Z * Z * Z }.
Definition offset_at (loc : Location) (s : Z) : Z := (lookup_zone loc s).1.1.

(** A location whose offset, in minutes, never changes. *)
Definition zone_of (off : Z) : Location := mkLocation (λ _, (off * 60, int64_min, int64_max)).
Definition UTC : Location := zone_of 0.

(** The clock of a location at a second of UTC, in minutes. *)
Definition local_minute (loc : Location) (s : Z) : Z := (s + offset_at loc s) / 60.

(** [time.Date(y, m, d, h, 0, 0, 0, loc)]: the zone is looked up as if the local time were UTC; if the second that
    gives is not in that zone, the zone in force at that second is taken. *)
Definition time_Date (loc : Location) (y m d h : Z) : Z :=
  let unix := date_minutes y m d h * 60 in
  let '(offset, start, end_) := lookup_zone loc unix in
  if offset =? 0 then unix
  else
    let utc := unix - offset in
    if (utc <? start) || (end_ <=? utc) then unix - offset_at loc utc else utc.

(** The next candidate after a second whose minute does not match. *)
Definition cron_next (f : cronFields) (loc : Location) (s : Z) : Z :=
  let t := local_minute loc s in
  let '(y, m, d) := civil (t / 1440) in
  if negb (month_ok f t) then time_Date loc y (m + 1) 1 0
  else if negb (dom_ok f t) || negb (dow_ok f t) then time_Date loc y m (d + 1) 0
  else if negb (hour_ok f t) then time_Date loc y m d (t mod 1440 / 60 + 1)
  else s + 60.

Fixpoint cron_loop (fuel : nat) (f : cronFields) (loc : Location) (s : Z) : option Z :=
  match fuel with
  | O => None
  | S fuel => if cron_match f (local_minute loc s) then Some s else cron_loop fuel f loc (cron_next f loc s)
  end.

Definition maxIterations : Z := 4 * 366 * 24 * 60.
Definition second_ns : Z := 1000000000.

(** [after] in the location [loc]. *)
Definition NextCronTime (expr : string) (loc : Location) (after : Z) : res Z :=
  fields ← parseCronExpr expr;
  match cron_loop (Z.to_nat maxIterations) fields loc ((after / minute_ns + 1) * 60) with
  | Some s => Ok (s * second_ns)
  | None => Err (ErrText ("no matching time found within 4 years for expression " +:+ quote expr))
  end.

(** *** The search on local minutes *)

Definition local_next (f : cronFields) (t : Z) : Z :=
  let '(y, m, d) := civil (t / 1440) in
  if negb (month_ok f t) then date_minutes y (m + 1) 1 0
  else if negb (dom_ok f t) || negb (dow_ok f t) then date_minutes y m (d + 1) 0
  else if negb (hour_ok f t) then date_minutes y m d (t mod 1440 / 60 + 1)
  else t + 1.

Fixpoint local_loop (fuel : nat) (f : cronFields) (t : Z) : option Z :=
  match fuel with
  | O => None
  | S fuel => if cron_match f t then Some t else local_loop fuel f (local_next f t)
  end.

(** ** Calendar facts *)

(** Integer divisions by constants are handed to [lia]. *)
#[local] Ltac Zify.zify_post_hook ::= Z.to_euclidean_division_equations.

Lemma year_start_mono a b : a ≤ b → year_start a ≤ year_start b.
Proof.
  unfold year_start. intros H. destruct (decide (a = b)) as [->|]; [lia|].
  assert (a / 4 ≤ b / 4) by (apply Z.div_le_mono; lia).
  assert (a / 400 ≤ b / 400) by (apply Z.div_le_mono; lia). lia.
Qed.

Lemma year_length y : 365 ≤ year_start (y + 1) - year_start y ≤ 366.
Proof. unfold year_start. lia. Qed.

Lemma year_part_bounds z : let '(y, doy) := year_part z in
  year_start y + doy = z ∧ 0 ≤ doy ∧ z < year_start (y + 1).
Proof.
  unfold year_part, year_start. cbv zeta.
  pose proof (Z.mod_pos_bound z 146097 ltac:(lia)) as Hr.
  pose proof (Z.div_mod z 146097 ltac:(lia)) as Hz.
  set (e := z / 146097) in *. set (r := z mod 146097) in *.
  assert (Hc : r / 36524 ∈ [0; 1; 2; 3; 4]).
  { assert (0 ≤ r / 36524 < 5) by lia. set_unfold. lia. }
  set (c := Z.min (r / 36524) 3).
  assert (0 ≤ c ≤ 3 ∧ 36524 * c ≤ r ∧ (c < 3 → r < 36524 * c + 36524)) as (Hc1 & Hc2 & Hc3) by lia.
  clearbody c. clear Hc. set (r1 := r - 36524 * c).
  assert (0 ≤ r1 ≤ 36524 ∧ (r1 = 36524 → c = 3)) as [Hr1 Hr1'] by lia.
  set (q := r1 / 1461). assert (0 ≤ q ≤ 24 ∧ 1461 * q ≤ r1 < 1461 * q + 1461) as [Hq1 Hq2] by lia.
  clearbody q. set (r2 := r1 - 1461 * q).
  set (n := Z.min (r2 / 365) 3).
  assert (0 ≤ n ≤ 3 ∧ 365 * n ≤ r2 ∧ (n < 3 → r2 < 365 * n + 365)) as (Hn1 & Hn2 & Hn3) by lia.
  clearbody n.
  assert ((400 * e + 100 * c + 4 * q + n) / 4 = 100 * e + 25 * c + q) as -> by lia.
  assert ((400 * e + 100 * c + 4 * q + n) / 100 = 4 * e + c) as -> by lia.
  assert ((400 * e + 100 * c + 4 * q + n) / 400 = e) as -> by lia.
  split; [lia|]. split; [lia|].
  set (y1 := 400 * e + 100 * c + 4 * q + n + 1).
  assert (n < 3 ∨ n = 3) as [Hn| ->] by lia.
  - assert (y1 / 4 = 100 * e + 25 * c + q ∧ y1 / 100 = 4 * e + c ∧ y1 / 400 = e) as (-> & -> & ->) by lia.
    lia.
  - assert (q < 24 ∨ q = 24) as [Hq| ->] by lia.
    + assert (y1 / 4 = 100 * e + 25 * c + q + 1 ∧ y1 / 100 = 4 * e + c ∧ y1 / 400 = e) as (-> & -> & ->) by lia.
      lia.
    + assert (y1 / 4 = 100 * e + 25 * c + 25 ∧ y1 / 100 = 4 * e + c + 1) as (-> & ->) by lia.
      assert (c < 3 ∨ c = 3) as [Hc| ->] by lia; [|lia].
      assert (y1 / 400 = e) as -> by lia. lia.
Qed.

Lemma year_part_unique z y doy :
  year_start y + doy = z → 0 ≤ doy → z < year_start (y + 1) → year_part z = (y, doy).
Proof.
  intros Hz Hd Hlt. pose proof (year_part_bounds z) as Hb.
  destruct (year_part z) as [y' doy']. destruct Hb as (Hz' & Hd' & Hlt').
  assert (y' = y) as ->; [|f_equal; lia].
  destruct (Z.lt_trichotomy y' y) as [H|[->|H]]; [|done|].
  - pose proof (year_start_mono (y' + 1) y). lia.
  - pose proof (year_start_mono (y + 1) y'). lia.
Qed.

Lemma month_part_bounds doy : 0 ≤ doy ≤ 365 →
  let '(mp, d) := month_part doy in
  0 ≤ mp ≤ 11 ∧ 1 ≤ d ≤ 31 ∧ (153 * mp + 2) / 5 + d - 1 = doy.
Proof. intros H. unfold month_part. lia. Qed.

Lemma month_part_next doy : 0 ≤ doy < 365 →
  let '(mp, d) := month_part doy in
  month_part (doy + 1) = (mp, d + 1) ∨ month_part (doy + 1) = (mp + 1, 1).
Proof.
  intros H. unfold month_part.
  destruct (decide ((5 * (doy + 1) + 2) / 153 = (5 * doy + 2) / 153)) as [->|Hne].
  - left. f_equal. lia.
  - right. assert ((5 * (doy + 1) + 2) / 153 = (5 * doy + 2) / 153 + 1) as -> by lia. f_equal. lia.
Qed.

Lemma month_part_last doy : 364 ≤ doy ≤ 365 → (month_part doy).1 = 11.
Proof. intros H. unfold month_part. simpl. lia. Qed.

(** The first day of the month after [m]. *)
Definition next_month (y m : Z) : Z * Z * Z := if m =? 12 then (y + 1, 1, 1) else (y, m + 1, 1).

(** A date is in range, and the next day is the next of the month or starts the
    next month. *)
Lemma civil_next day :
  let '(y, m, d) := civil day in
  1 ≤ m ≤ 12 ∧ 1 ≤ d ≤ 31 ∧
  (civil (day + 1) = (y, m, d + 1) ∨ civil (day + 1) = next_month y m).
Proof.
  unfold civil. replace (day + 1 + 719468) with (day + 719468 + 1) by lia.
  set (z := day + 719468). pose proof (year_part_bounds z) as Hb.
  destruct (year_part z) as [y doy] eqn:Hy. destruct Hb as (Hz & Hd & Hlt).
  pose proof (year_length y) as Hlen. pose proof (year_length (y + 1)) as Hlen'.
  pose proof (month_part_bounds doy ltac:(lia)) as Hm.
  destruct (decide (z + 1 < year_start (y + 1))) as [Hin|Hout].
  - rewrite (year_part_unique (z + 1) y (doy + 1)) by lia.
    pose proof (month_part_next doy ltac:(lia)) as Hn.
    destruct (month_part doy) as [mp d]. destruct Hm as (Hmp & Hdd & Hsum).
    pose proof (month_part_bounds (doy + 1) ltac:(lia)) as Hm'.
    destruct (Z.ltb_spec mp 10).
    + split; [lia|]. split; [lia|]. destruct Hn as [->| ->].
      * destruct (Z.ltb_spec mp 10); [by left|lia].
      * right. unfold next_month. destruct (Z.ltb_spec (mp + 1) 10), (Z.eqb_spec (mp + 3) 12);
          try lia; do 2 f_equal; lia.
    + split; [lia|]. split; [lia|]. destruct Hn as [Hn|Hn]; rewrite Hn in Hm' |- *.
      * destruct (Z.ltb_spec mp 10); [lia|by left].
      * right. unfold next_month. destruct (Z.ltb_spec (mp + 1) 10), (Z.eqb_spec (mp - 9) 12);
          try lia; do 2 f_equal; lia.
  - rewrite (year_part_unique (z + 1) (y + 1) 0) by lia.
    pose proof (month_part_last doy ltac:(lia)) as Hl.
    destruct (month_part doy) as [mp d]. simpl in Hl. subst mp. destruct Hm as (Hmp & Hdd & Hsum).
    simpl. split; [lia|]. split; [lia|]. by right.
Qed.

Lemma days_of_civil day : let '(y, m, d) := civil day in days_of y m d = day.
Proof.
  unfold civil. set (z := day + 719468). pose proof (year_part_bounds z) as Hb.
  destruct (year_part z) as [y doy] eqn:Hy. destruct Hb as (Hz & Hd & Hlt).
  pose proof (year_length y) as Hlen.
  pose proof (month_part_bounds doy ltac:(lia)) as Hm.
  destruct (month_part doy) as [mp d]. destruct Hm as (Hmp & Hdd & Hsum).
  unfold days_of. subst z. destruct (Z.ltb_spec mp 10).
  - destruct (Z.leb_spec (mp + 3) 2); [lia|]. replace (mp + 3 - 3) with mp by lia. lia.
  - destruct (Z.leb_spec (mp - 9) 2); [|lia]. replace (mp - 9 + 9) with mp by lia.
    replace (y + 1 - 1) with y by lia. lia.
Qed.

(** The next month starts at some later day, and all days until then are of this month. *)
Lemma month_ends n day y m d :
  civil day = (y, m, d) → 31 - d < Z.of_nat n →
  ∃ k, 1 ≤ k ∧ civil (day + k) = next_month y m ∧ ∀ j, 0 ≤ j < k → month_of (day + j) = m.
Proof.
  revert day d. induction n as [|n IH]; intros day d Hc Hn;
    pose proof (civil_next day) as Hb; rewrite Hc in Hb; [lia|].
  destruct Hb as (Hm & Hd & [Hs|Hs]).
  - destruct (IH (day + 1) (d + 1) Hs ltac:(lia)) as (k & Hk & Hnext & Hj).
    exists (k + 1). split; [lia|]. split; [by replace (day + (k + 1)) with (day + 1 + k) by lia|].
    intros j Hj'. destruct (decide (j = 0)) as [->|].
    + unfold month_of. by rewrite Z.add_0_r, Hc.
    + replace (day + j) with (day + 1 + (j - 1)) by lia. apply Hj. lia.
  - exists 1. split; [lia|]. split; [done|]. intros j Hj. assert (j = 0) as -> by lia.
    unfold month_of. by rewrite Z.add_0_r, Hc.
Qed.

Lemma days_of_first y m d : days_of y m d = days_of y m 1 + d - 1.
Proof. unfold days_of. lia. Qed.

Lemma date_minutes_in_month y m d h : 1 ≤ m ≤ 12 →
  date_minutes y m d h = days_of y m d * 1440 + h * 60.
Proof.
  intros Hm. unfold date_minutes. assert ((m - 1) / 12 = 0) as -> by lia.
  assert ((m - 1) mod 12 + 1 = m) as -> by lia. rewrite Z.add_0_r, (days_of_first y m d). lia.
Qed.

Lemma date_minutes_next_month y m : 1 ≤ m ≤ 12 →
  date_minutes y (m + 1) 1 0 = (let '(y', m', d') := next_month y m in days_of y' m' d') * 1440.
Proof.
  intros Hm. unfold next_month. destruct (Z.eqb_spec m 12) as [->|].
  - unfold date_minutes. change ((12 + 1 - 1) / 12) with 1. change ((12 + 1 - 1) mod 12 + 1) with 1. lia.
  - rewrite date_minutes_in_month by lia. lia.
Qed.

(** ** The search is exact *)

Section search.
Context (f : cronFields).

(** A skip goes forward and passes over no matching minute. *)
Lemma local_next_skips t :
  cron_match f t = false → t < local_next f t ∧ ∀ u, t ≤ u < local_next f t → cron_match f u = false.
Proof.
  intros Hno. unfold local_next. set (day := t / 1440).
  assert (Hdt : t / 1440 = day) by done. clearbody day.
  assert (Ht : t = day * 1440 + t mod 1440 ∧ 0 ≤ t mod 1440 < 1440) by (subst day; lia).
  pose proof (civil_next day) as Hb. pose proof (days_of_civil day) as Hday.
  pose proof (month_ends 32 day) as Hme.
  destruct (civil day) as [[y m] d] eqn:Hc. destruct Hb as (Hm & Hd & _).
  destruct (month_ok f t) eqn:Emonth; simpl.
  2:{ destruct (Hme y m d eq_refl ltac:(lia)) as (k & Hk & Hnext & Hj).
      pose proof (days_of_civil (day + k)) as Hdk. rewrite Hnext in Hdk.
      rewrite date_minutes_next_month by done.
      destruct (next_month y m) as [[y' m'] d']. rewrite Hdk. split; [lia|].
      intros u Hu. unfold cron_match, month_ok in *.
      assert (month_of (u / 1440) = m) as ->.
      { replace (u / 1440) with (day + (u / 1440 - day)) by lia. apply Hj. lia. }
      assert (month_of (t / 1440) = m) as Hmt by (unfold month_of; by rewrite Hdt, Hc).
      rewrite Hmt in Emonth. by rewrite Emonth. }
  destruct (negb (dom_ok f t) || negb (dow_ok f t)) eqn:Eday.
  { rewrite date_minutes_in_month, (days_of_first y m (d + 1)) by done.
    rewrite (days_of_first y m d) in Hday. split; [lia|].
    intros u Hu. assert (u / 1440 = day) as Hud by lia.
    unfold cron_match, dom_ok, dow_ok in *. rewrite Hud. rewrite Hdt in Eday.
    destruct (bool_decide (day_of_month day ∈ _)), (bool_decide (weekday day ∈ _)); try done;
      by rewrite ?andb_false_r. }
  rewrite date_minutes_in_month, Hday by done.
  destruct (hour_ok f t) eqn:Ehour; simpl.
  2:{ split; [lia|]. intros u Hu. unfold cron_match, hour_ok in *.
      assert (u mod 1440 / 60 = t mod 1440 / 60) as -> by lia.
      rewrite Ehour. by rewrite andb_false_r. }
  split; [lia|]. intros u Hu. assert (u = t) as -> by lia. done.
Qed.

Lemma local_loop_spec fuel t :
  match local_loop fuel f t with
  | Some u => t ≤ u ∧ cron_match f u = true ∧ ∀ v, t ≤ v < u → cron_match f v = false
  | None => ∀ v, t ≤ v < t + Z.of_nat fuel → cron_match f v = false
  end.
Proof.
  revert t. induction fuel as [|fuel IH]; intros t; cbn [local_loop]; [lia|].
  destruct (cron_match f t) eqn:Ht.
  - split; [lia|]. split; [done|]. lia.
  - destruct (local_next_skips t Ht) as [Hlt Hskip]. specialize (IH (local_next f t)).
    destruct (local_loop fuel f (local_next f t)) as [u|].
    + destruct IH as (Hu & Hmu & Hv). split; [lia|]. split; [done|]. intros v Hvt.
      destruct (decide (v < local_next f t)); [apply Hskip|apply Hv]; lia.
    + intros v Hvt. destruct (decide (v < local_next f t)); [apply Hskip|apply IH]; lia.
Qed.

(** A minute within the day of a matching date: the skips stay in that day. *)
Definition date_ok (t : Z) : bool := month_ok f t && dom_ok f t && dow_ok f t.

Lemma cron_match_date t : cron_match f t = date_ok t && hour_ok f t && minute_ok f t.
Proof. done. Qed.

Lemma local_next_same_day t :
  date_ok t = true → cron_match f t = false → local_next f t ≤ (t / 1440 + 1) * 1440.
Proof.
  intros Hd Hno. rewrite cron_match_date, Hd in Hno. unfold date_ok in Hd. unfold local_next.
  pose proof (civil_next (t / 1440)) as Hb. pose proof (days_of_civil (t / 1440)) as Hday.
  destruct (civil (t / 1440)) as [[y m] d]. destruct Hb as (Hm & _).
  destruct (month_ok f t), (dom_ok f t), (dow_ok f t); try discriminate Hd. simpl.
  destruct (hour_ok f t); simpl; [lia|].
  rewrite date_minutes_in_month, Hday by done. lia.
Qed.

Lemma local_next_midnight t : date_ok t = false → local_next f t mod 1440 = 0.
Proof.
  unfold date_ok, local_next. intros Hd. destruct (civil (t / 1440)) as [[y m] d].
  assert (forall y m d, date_minutes y m d 0 mod 1440 = 0) as Hz.
  { clear. intros y m d. unfold date_minutes. generalize (days_of (y + (m - 1) / 12) ((m - 1) mod 12 + 1) 1).
    intros z. rewrite Z.mul_0_l, Z.add_0_r. apply Z_mod_mult. }
  destruct (month_ok f t), (dom_ok f t), (dow_ok f t); simpl in *; try discriminate Hd; apply Hz.
Qed.

(** On a day whose date matches there is a matching minute, if there is one at all. *)
Lemma date_ok_match v t :
  cron_match f v = true → date_ok t = true → cron_match f (t / 1440 * 1440 + v mod 1440) = true.
Proof.
  rewrite !cron_match_date. intros Hv Ht. apply andb_true_iff in Hv as [Hv Hmin].
  apply andb_true_iff in Hv as [_ Hhour].
  pose proof (Z.mod_pos_bound v 1440 ltac:(lia)) as Hb.
  unfold date_ok, month_ok, dom_ok, dow_ok, hour_ok, minute_ok in *.
  assert ((t / 1440 * 1440 + v mod 1440) / 1440 = t / 1440) as -> by lia.
  assert ((t / 1440 * 1440 + v mod 1440) mod 1440 = v mod 1440) as -> by lia.
  assert ((t / 1440 * 1440 + v mod 1440) mod 60 = v mod 60) as -> by lia.
  by rewrite Ht, Hhour, Hmin.
Qed.

(** Iterations left from [t] until the first match [v]: one for each day passed
    over, and one for each minute of the first and of the last day. *)
Definition iterations_left (v t : Z) : Z :=
  if v / 1440 =? t / 1440 then v - t
  else v / 1440 - t / 1440 + (if date_ok t then 1440 - t mod 1440 else 0) + 1440.

Lemma iterations_left_decreases v t :
  cron_match f v = true → t < v → (∀ u, t ≤ u < v → cron_match f u = false) →
  local_next f t ≤ v ∧ iterations_left v (local_next f t) < iterations_left v t.
Proof.
  intros Hv Hlt Hmin. pose proof (Hmin t ltac:(lia)) as Hno.
  destruct (local_next_skips t Hno) as [Hfwd Hskip].
  assert (local_next f t ≤ v) as Hle.
  { destruct (Z.le_gt_cases (local_next f t) v) as [|Hgt]; [done|].
    rewrite Hskip in Hv by lia. discriminate Hv. }
  split; [done|].
  pose proof (local_next_same_day t) as Hsame. pose proof (local_next_midnight t) as Hmid.
  set (t' := local_next f t) in *. clearbody t'.
  assert (Hday : t' / 1440 ≠ v / 1440 → t' mod 1440 = 0 → date_ok t' = false).
  { intros Hne Hz. destruct (date_ok t') eqn:Hd; [|done].
    pose proof (date_ok_match v t' Hv Hd) as Hm. rewrite Hmin in Hm; [discriminate Hm|].
    pose proof (Z.mod_pos_bound v 1440 ltac:(lia)). lia. }
  unfold iterations_left.
  destruct (date_ok t) eqn:Hd.
  - specialize (Hsame eq_refl Hno). clear Hmid.
    destruct (Z.eqb_spec (v / 1440) (t' / 1440)) as [|Hne], (Z.eqb_spec (v / 1440) (t / 1440)); try lia.
    destruct (decide (t' / 1440 = t / 1440)); [destruct (date_ok t'); lia|].
    rewrite Hday by lia. lia.
  - specialize (Hmid eq_refl). clear Hsame.
    destruct (Z.eqb_spec (v / 1440) (t' / 1440)) as [|Hne], (Z.eqb_spec (v / 1440) (t / 1440)); try lia.
    rewrite Hday by lia. lia.
Qed.

(** *** Locations between changes of their offset *)

(** From a day before [a] to a day after [b], seconds of UTC, the offset is [off] minutes. *)
Definition steady (loc : Location) (off a b : Z) : Prop :=
  -1440 ≤ off ≤ 1440 ∧ ∀ s, a - 86400 ≤ s ≤ b + 86400 → offset_at loc s = off * 60.

Lemma local_minute_steady loc off a b t :
  steady loc off a b → a ≤ (t - off) * 60 ≤ b → local_minute loc ((t - off) * 60) = t.
Proof.
  intros [_ Hs] Ht. unfold local_minute. rewrite Hs by lia.
  replace ((t - off) * 60 + off * 60) with (t * 60) by lia. by apply Z.div_mul.
Qed.

Lemma time_Date_steady loc off a b y m d h :
  steady loc off a b → a ≤ (date_minutes y m d h - off) * 60 ≤ b →
  time_Date loc y m d h = (date_minutes y m d h - off) * 60.
Proof.
  unfold time_Date. set (D := date_minutes y m d h). clearbody D. intros [Ho Hs] Ht.
  assert (H1 : offset_at loc (D * 60) = off * 60) by (apply Hs; lia).
  assert (H2 : offset_at loc (D * 60 - off * 60) = off * 60) by (apply Hs; lia). unfold offset_at in H1 at 1.
  destruct (lookup_zone loc (D * 60)) as [[o st] en]. cbn [fst] in H1. subst o.
  destruct (Z.eqb_spec (off * 60) 0); [lia|]. destruct (_ || _); [rewrite H2|]; lia.
Qed.

Lemma cron_next_steady loc off a b t :
  steady loc off a b → a ≤ (t - off) * 60 → (local_next f t - off) * 60 ≤ b → cron_match f t = false →
  cron_next f loc ((t - off) * 60) = (local_next f t - off) * 60.
Proof.
  intros Hs Ha Hb Hno. destruct (local_next_skips t Hno) as [Hlt _]. unfold cron_next.
  rewrite (local_minute_steady loc off a b t Hs) by lia. unfold local_next in *.
  destruct (civil (t / 1440)) as [[y m] d].
  destruct (negb (month_ok f t)); [apply (time_Date_steady loc off a b); [done|lia]|].
  destruct (negb (dom_ok f t) || negb (dow_ok f t)); [apply (time_Date_steady loc off a b); [done|lia]|].
  destruct (negb (hour_ok f t)); [apply (time_Date_steady loc off a b); [done|lia]|lia].
Qed.

Lemma cron_loop_reaches loc off a b fuel v t :
  steady loc off a b → a ≤ (t - off) * 60 → (v - off) * 60 ≤ b →
  cron_match f v = true → t ≤ v → (∀ u, t ≤ u < v → cron_match f u = false) →
  iterations_left v t < Z.of_nat fuel → cron_loop fuel f loc ((t - off) * 60) = Some ((v - off) * 60).
Proof.
  intros Hs Ha Hb Hv. revert t Ha. induction fuel as [|fuel IH]; intros t Ha Hle Hmin Hf.
  { unfold iterations_left in Hf. pose proof (Z.mod_pos_bound t 1440 ltac:(lia)).
    destruct (Z.eqb_spec (v / 1440) (t / 1440)); destruct (date_ok t); lia. }
  cbn [cron_loop]. rewrite (local_minute_steady loc off a b t Hs) by lia.
  destruct (decide (t = v)) as [->|Hne]; [by rewrite Hv|].
  pose proof (Hmin t ltac:(lia)) as Hno. rewrite Hno.
  destruct (iterations_left_decreases v t Hv ltac:(lia) Hmin) as [Hn Hdec].
  destruct (local_next_skips t Hno) as [Hlt _].
  rewrite (cron_next_steady loc off a b t Hs) by (done || lia).
  apply IH; [lia|done| |lia]. intros u Hu. apply Hmin. lia.
Qed.

(** A time that is found matches on the clock of the location. *)
Lemma cron_loop_matches loc fuel : ∀ s s', cron_loop fuel f loc s = Some s' → cron_match f (local_minute loc s') = true.
Proof.
  induction fuel as [|fuel IH]; intros s s'; cbn [cron_loop]; [done|].
  destruct (cron_match f (local_minute loc s)) eqn:Hm; [by intros [= <-]|apply IH].
Qed.

(** The search goes on from where it is. *)
Lemma cron_loop_add loc k n : ∀ s,
  cron_loop (k + n) f loc s =
  match cron_loop k f loc s with Some u => Some u | None => cron_loop n f loc (Nat.iter k (cron_next f loc) s) end.
Proof.
  induction k as [|k IH]; intros s; cbn [Nat.add cron_loop]; [done|].
  destruct (cron_match f (local_minute loc s)); [done|]. rewrite IH, Nat.iter_succ_r. done.
Qed.

(** A candidate that leads to itself is never left. *)
Lemma cron_loop_stuck loc fuel s :
  cron_match f (local_minute loc s) = false → cron_next f loc s = s → cron_loop fuel f loc s = None.
Proof. intros Hm Hn. induction fuel as [|fuel IH]; [done|]. cbn [cron_loop]. by rewrite Hm, Hn. Qed.
End search.

(** ** The calendar repeats every 400 years *)

Lemma civil_period day : month_of (day + 146097) = month_of day ∧ day_of_month (day + 146097) = day_of_month day
  ∧ weekday (day + 146097) = weekday day.
Proof.
  assert (civil (day + 146097) = let '(y, m, d) := civil day in (y + 400, m, d)) as Hc.
  { unfold civil. pose proof (year_part_bounds (day + 719468)) as Hb.
    destruct (year_part (day + 719468)) as [y doy].
    destruct Hb as (Hz & Hd & Hlt).
    rewrite (year_part_unique (day + 146097 + 719468) (y + 400) doy); [|unfold year_start in *; lia..].
    destruct (month_part doy) as [mp d]. destruct (mp <? 10); do 2 f_equal; lia. }
  unfold month_of, day_of_month, weekday. rewrite Hc.
  destruct (civil day) as [[y m] d]. split; [done|]. split; [done|]. lia.
Qed.

Definition period : Z := 146097 * 1440.

Lemma cron_match_period f t : cron_match f (t + period) = cron_match f t.
Proof.
  unfold cron_match, month_ok, dom_ok, dow_ok, hour_ok, minute_ok, period.
  assert ((t + 146097 * 1440) / 1440 = t / 1440 + 146097) as -> by lia.
  assert ((t + 146097 * 1440) mod 1440 = t mod 1440) as -> by lia.
  assert ((t + 146097 * 1440) mod 60 = t mod 60) as -> by lia.
  by destruct (civil_period (t / 1440)) as (-> & -> & ->).
Qed.

Lemma cron_match_periods f (n : nat) t : cron_match f (t + Z.of_nat n * period) = cron_match f t.
Proof.
  induction n as [|n IH]; [by rewrite Z.mul_0_l, Z.add_0_r|].
  rewrite <-IH, <-(cron_match_period f (t + Z.of_nat n * period)). f_equal. lia.
Qed.

(** A match anywhere gives one within a period of any minute. *)
Lemma cron_match_shift f v t : cron_match f v = true →
  ∃ u, t ≤ u < t + period ∧ cron_match f u = true.
Proof.
  intros Hv. exists (t + (v - t) mod period).
  pose proof (Z.mod_pos_bound (v - t) period ltac:(unfold period; lia)) as Hb.
  split; [lia|]. pose proof (Z.div_mod (v - t) period ltac:(unfold period; lia)) as Hd.
  set (r := (v - t) mod period) in *. set (q := (v - t) / period) in *. clearbody r q.
  destruct (Z.le_gt_cases 0 q) as [Hq|Hq].
  - rewrite <-(cron_match_periods f (Z.to_nat q) (t + r)). rewrite Z2Nat.id by done.
    rewrite <-Hv. f_equal. lia.
  - rewrite <-(cron_match_periods f (Z.to_nat (- q)) v) in Hv. rewrite Z2Nat.id in Hv by lia.
    rewrite <-Hv. f_equal. lia.
Qed.

Lemma least_match f (n : nat) t :
  (∃ u, t ≤ u < t + Z.of_nat n ∧ cron_match f u = true) →
  ∃ v, t ≤ v < t + Z.of_nat n ∧ cron_match f v = true ∧ ∀ u, t ≤ u < v → cron_match f u = false.
Proof.
  induction n as [|n IH]; intros (u & Hu & Hm); [lia|].
  pose proof (local_loop_spec f (S n) t) as Hl.
  destruct (local_loop (S n) f t) as [v|]; [|rewrite Hl in Hm by lia; discriminate Hm].
  destruct Hl as (Hv & Hmv & Hleast). exists v. split; [|done].
  split; [done|]. destruct (Z.le_gt_cases v u) as [|Hgt]; [lia|].
  rewrite Hleast in Hm by lia. discriminate Hm.
Qed.

(** The limit on the iterations is never reached before the first match. *)
Lemma iterations_enough f v t : cron_match f v = true → t ≤ v → (∀ u, t ≤ u < v → cron_match f u = false) →
  iterations_left f v t < Z.of_nat (Z.to_nat maxIterations).
Proof.
  intros Hv Hle Hmin. destruct (cron_match_shift f v t Hv) as (u & Hu & Hm).
  assert (v ≤ u) by (destruct (Z.le_gt_cases v u); [done|]; rewrite Hmin in Hm by lia; discriminate Hm).
  rewrite Z2Nat.id by (unfold maxIterations; lia).
  unfold iterations_left, maxIterations, period in *.
  pose proof (Z.mod_pos_bound t 1440 ltac:(lia)).
  destruct (Z.eqb_spec (v / 1440) (t / 1440)); [lia|]. destruct (date_ok f t); lia.
Qed.

Lemma first_match f v t : cron_match f v = true →
  ∃ w, t ≤ w ∧ cron_match f w = true ∧ ∀ u, t ≤ u < w → cron_match f u = false.
Proof.
  intros Hv. destruct (cron_match_shift f v t Hv) as (u & Hu & Hm).
  destruct (least_match f (Z.to_nat period) t) as (w & Hw & Hmw & Hleast).
  { exists u. rewrite Z2Nat.id by (unfold period; lia). done. }
  exists w. split; [lia|done].
Qed.

(** ** What a field means *)

Lemma step_loop_spec fuel lo hi step values v :
  0 < step ≤ 9000000000000000000 → -1000 ≤ lo → hi ≤ 1000 → hi - lo < Z.of_nat fuel →
  v ∈ step_loop fuel lo hi step values ↔
  v ∈ values ∨ (lo ≤ v ≤ hi ∧ (v - lo) mod step = 0).
Proof.
  intros Hs Hlo Hhi. revert lo values Hlo. induction fuel as [|fuel IH]; intros lo values Hlo Hf; simpl.
  { split; [by left|]. intros [?|[? _]]; [done|lia]. }
  destruct (Z.leb_spec lo hi) as [Hle|]; [|split; [by left|]; intros [?|[? _]]; [done|lia]].
  rewrite i64_id by (unfold in_i64, int64_min, int64_max; lia).
  rewrite IH by lia. rewrite elem_of_union, elem_of_singleton.
  assert (v = lo ∨ v ≠ lo) as [->|Hne] by lia.
  - replace (lo - lo) with 0 by lia. rewrite Zmod_0_l. split; [|auto]. intros _. right. lia.
  - replace ((v - (lo + step)) mod step) with ((v - lo) mod step).
    2:{ replace (v - lo) with (v - (lo + step) + 1 * step) by lia. by rewrite Z_mod_plus_full. }
    split; [intros [[?|?]|[? ?]]; [done|by left|right; lia]|].
    intros [?|[Hr Hm]]; [auto|]. right. split; [|done].
    apply Z_div_exact_full_2 in Hm; [|lia]. split; [|lia].
    generalize dependent ((v - lo) / step). intros q Hm.
    assert (1 ≤ q) by (apply Z.nlt_ge; intros ?; nia). nia.
Qed.

#[local] Opaque step_loop.

(** A component of a field adds an arithmetic progression: for a wildcard, a
    range or a single value, with a step where it has one (the step of a single
    value is checked but has no effect), it adds exactly the values from a lower
    to an upper bound, both within the range of the field, at the distance of the
    step. *)
Theorem parsePart_progression part min max values values' p step :
  -1000 ≤ min → min ≤ max → max ≤ 1000 → max - min < 100 →
  parse_step part = Ok (p, step) → step ≤ 9000000000000000000 →
  parsePart part min max values = Ok values' →
  ∃ lo hi, min ≤ lo ∧ lo ≤ hi ∧ hi ≤ max ∧
    ∀ v, v ∈ values' ↔ v ∈ values ∨ (lo ≤ v ≤ hi ∧ (v - lo) mod step = 0).
Proof.
  intros Hmin Hmm Hmax Hsize Hstep Hs. unfold parsePart.
  assert (Hpos : 0 < step).
  { unfold parse_step in Hstep.
    destruct (SplitN2 part "/"%char) as [|a [|b [|]]]; simpl in Hstep; try (injection Hstep as <-; lia).
    destruct (parse_int b) as [z|]; [|discriminate Hstep].
    destruct (Z.leb_spec z 0); [discriminate Hstep|]. injection Hstep as <-. lia. }
  rewrite Hstep. cbn [mbind outcome_bind].
  case_bool_decide.
  { intros [= <-]. exists min, max. do 3 (split; [lia|]). intros v.
    apply step_loop_spec; unfold loop_fuel; lia. }
  destruct (contains_byte p _).
  - destruct (SplitN2 p "-"%char) as [|a [|b [|]]]; try done.
    destruct (parse_int a) as [start|]; [|done]. destruct (parse_int b) as [end_|]; [|done].
    destruct (Z.ltb_spec start min), (Z.ltb_spec max end_), (Z.ltb_spec end_ start); try done.
    intros [= <-]. exists start, end_. do 3 (split; [lia|]). intros v.
    apply step_loop_spec; unfold loop_fuel; lia.
  - destruct (parse_int p) as [val|]; [|done].
    destruct (Z.ltb_spec val min), (Z.ltb_spec max val); try done.
    intros [= <-]. exists val, val. do 3 (split; [lia|]). intros v. rewrite elem_of_union, elem_of_singleton.
    split; [intros [->|?]; [right|by left]|].
    + replace (val - val) with 0 by lia. split; [lia|]. apply Zmod_0_l.
    + intros [?|[? _]]; [by right|left; lia].
Qed.

#[local] Transparent step_loop.

(** A location with a fixed offset, in minutes. *)
Definition fixed_zone (loc : Location) (off : Z) : Prop := -1440 ≤ off ≤ 1440 ∧ ∀ s, offset_at loc s = off * 60.

Lemma fixed_steady loc off a b : fixed_zone loc off → steady loc off a b.
Proof. intros [? ?]. by split. Qed.

(** The exact result of a search in a fixed location, and for an expression that is accepted. *)
Definition exact_result (f : cronFields) (off after : Z) (r : res Z) : Prop :=
  match r with
  | Ok next => after < next ∧
      ∃ u, next = (u - off) * minute_ns ∧ cron_match f u = true ∧
        ∀ v, after < (v - off) * minute_ns < next → cron_match f v = false
  | Err _ => ∀ v, cron_match f v = false
  | Panic _ => False
  end.

Lemma NextCronTime_matches expr loc after f next :
  parseCronExpr expr = Ok f → NextCronTime expr loc after = Ok next →
  ∃ s, next = s * second_ns ∧ cron_match f (local_minute loc s) = true.
Proof.
  intros Hf. unfold NextCronTime. rewrite Hf. cbn [mbind outcome_bind].
  destruct (cron_loop _ f loc _) as [s|] eqn:Hl; [|done]. intros [= <-]. exists s. split; [done|].
  by eapply cron_loop_matches.
Qed.

Lemma NextCronTime_steady expr loc off after f v :
  parseCronExpr expr = Ok f → cron_match f v = true → after < (v - off) * minute_ns →
  (∀ u, after < (u - off) * minute_ns → u < v → cron_match f u = false) →
  steady loc off (after / second_ns) ((v - off) * 60) →
  NextCronTime expr loc after = Ok ((v - off) * minute_ns).
Proof.
  intros Hf Hv Hafter Hmin Hs. unfold NextCronTime. rewrite Hf. cbn [mbind outcome_bind].
  set (t := after / minute_ns + 1 + off).
  assert (Ht : minute_ns * (t - off - 1) ≤ after < minute_ns * (t - off)) by (subst t; unfold minute_ns; lia).
  replace ((after / minute_ns + 1) * 60) with ((t - off) * 60) by (subst t; lia). clearbody t.
  assert (t ≤ v) by (unfold minute_ns in *; lia).
  rewrite (cron_loop_reaches f loc off (after / second_ns) ((v - off) * 60) _ v t Hs); try done.
  - unfold second_ns, minute_ns. f_equal. lia.
  - unfold second_ns, minute_ns in *. lia.
  - intros u Hu. apply Hmin; [unfold minute_ns in *|]; lia.
  - apply iterations_enough; [done|done|]. intros u Hu. apply Hmin; [unfold minute_ns in *|]; lia.
Qed.

Lemma NextCronTime_fixed expr loc off after f :
  parseCronExpr expr = Ok f → fixed_zone loc off → exact_result f off after (NextCronTime expr loc after).
Proof.
  intros Hf Hz. set (t := after / minute_ns + 1 + off).
  assert (Ht : minute_ns * (t - off - 1) ≤ after < minute_ns * (t - off)) by (subst t; unfold minute_ns; lia).
  assert (Hexact : ∀ v, cron_match f v = true → ∃ w, NextCronTime expr loc after = Ok ((w - off) * minute_ns) ∧
    t ≤ w ∧ cron_match f w = true ∧ ∀ u, t ≤ u < w → cron_match f u = false).
  { intros v Hv. destruct (first_match f v t Hv) as (w & Hle & Hw & Hmin). exists w. split; [|done].
    apply (NextCronTime_steady expr loc off after f w); [done|done|unfold minute_ns in *; lia| |by apply fixed_steady].
    intros u Hu Hlt. apply Hmin. unfold minute_ns in *. lia. }
  destruct (NextCronTime expr loc after) as [next|e|m] eqn:Hn; cbn [exact_result].
  - destruct (NextCronTime_matches _ _ _ _ _ Hf Hn) as (s & _ & Hs). destruct (Hexact _ Hs) as (w & [= ->] & Hle & Hw & Hmin).
    split; [unfold minute_ns in *; lia|]. exists w. split; [done|]. split; [done|].
    intros u Hu. apply Hmin. unfold minute_ns in *. lia.
  - intros v. destruct (cron_match f v) eqn:Hv; [|done]. by destruct (Hexact v Hv) as (w & ? & _).
  - unfold NextCronTime in Hn. rewrite Hf in Hn. cbn [mbind outcome_bind] in Hn. by destruct (cron_loop _ f loc _).
Qed.

(** An accepted schedule keeps having a next run, later than the time it is computed at, in a fixed location. *)
Lemma NextCronTime_again expr loc after next loc' off' now :
  NextCronTime expr loc after = Ok next → fixed_zone loc' off' →
  ∃ next', NextCronTime expr loc' now = Ok next' ∧ now < next'.
Proof.
  intros H Hz. destruct (parseCronExpr expr) as [f|e|m] eqn:Hf;
    [|unfold NextCronTime in H; rewrite Hf in H; discriminate H..].
  destruct (NextCronTime_matches _ _ _ _ _ Hf H) as (s & _ & Hs).
  pose proof (NextCronTime_fixed expr loc' off' now f Hf Hz) as H2.
  destruct (NextCronTime expr loc' now) as [next'|e|m]; cbn [exact_result] in H2; [|by rewrite H2 in Hs|done].
  exists next'. split; [done|]. apply H2.
Qed.

(** C27: [NextCronTime] is exact between the changes of the clock.  In any location a time it returns matches all
    five fields on the local clock.  If the first match after [after] on a clock with the offset [off] is [v], and
    the location keeps that offset from a day before [after] to a day after [v], then it returns exactly [v],
    however far away.  In a location whose offset never changes, such as the default UTC, it therefore always
    returns the first match, and fails only when no minute matches at all: the bound on the iterations is never what
    makes it fail (the calendar repeats every 400 years, and the skips by month, day and hour need fewer
    iterations).  Across a change of the offset it may fail ([spring_gap_sticks]). *)
Theorem NextCronTime_least expr loc after f :
  parseCronExpr expr = Ok f →
  (∀ next, NextCronTime expr loc after = Ok next →
     ∃ s, next = s * second_ns ∧ cron_match f (local_minute loc s) = true) ∧
  (∀ off v, cron_match f v = true → after < (v - off) * minute_ns →
     (∀ u, after < (u - off) * minute_ns → u < v → cron_match f u = false) →
     steady loc off (after / second_ns) ((v - off) * 60) →
     NextCronTime expr loc after = Ok ((v - off) * minute_ns)) ∧
  (∀ off, fixed_zone loc off → exact_result f off after (NextCronTime expr loc after)).
Proof.
  intros Hf. split; [intros next; by apply NextCronTime_matches|]. split; [|intros off; by apply NextCronTime_fixed].
  intros off v. by apply NextCronTime_steady.
Qed.

(** ** Witnesses *)

(** Every quarter of an hour on weekdays: the next time after a Friday evening. *)
Example cron_example :
  NextCronTime "*/15 9-17 * * 1-5" UTC 1700244000000000000 = Ok 1700470800000000000.
Proof. vm_compute. reflexivity. Qed.

(** 29 February on a Monday: more than 15 years ahead, far beyond the 4 years of the comment. *)
Example leap_monday :
  NextCronTime "0 0 29 2 1" UTC 1840000000000000000 = Ok 2340316800000000000.
Proof. vm_compute. reflexivity. Qed.

Lemma parsePart_progression_witness :
  ∃ values, parsePart "10-20/5" 0 59 ∅ = Ok values ∧ ∃ lo hi, 0 ≤ lo ∧ lo ≤ hi ∧ hi ≤ 59 ∧
    ∀ v, v ∈ values ↔ v ∈ (∅ : cronField) ∨ (lo ≤ v ≤ hi ∧ (v - lo) mod 5 = 0).
Proof.
  exists ({[20]} ∪ ({[15]} ∪ ({[10]} ∪ ∅))).
  assert (parsePart "10-20/5" 0 59 ∅ = Ok ({[20]} ∪ ({[15]} ∪ ({[10]} ∪ ∅)))) as Hp
    by (vm_compute; reflexivity).
  split; [exact Hp|]. apply (parsePart_progression "10-20/5" 0 59 ∅ _ "10-20" 5); try lia; [reflexivity|exact Hp].
Defined.

(** New York in 2024: the clock goes from 2:00 to 3:00 on 10 March, and back on 3 November. *)
Definition new_york : Location := mkLocation (λ s,
  if s <? 1710054000 then (-18000, 1699164000, 1710054000)
  else if s <? 1730613600 then (-14400, 1710054000, 1730613600) else (-18000, 1730613600, 1741503600)).

Lemma UTC_fixed : fixed_zone UTC 0.
Proof. split; [lia|]. done. Qed.

Definition fields_of (expr : string) : cronFields :=
  match parseCronExpr expr with Ok f => f | _ => mkCronFields ∅ ∅ ∅ ∅ ∅ end.
Definition noon : cronFields := fields_of "0 12 * * *".

(** The first noon after midnight UTC of 1 June 2024, in UTC and in New York. *)
Lemma NextCronTime_least_witness :
  exact_result noon 0 1717200000000000000 (NextCronTime "0 12 * * *" UTC 1717200000000000000) ∧
  NextCronTime "0 12 * * *" new_york 1717200000000000000 = Ok 1717257600000000000.
Proof.
  assert (Hf : parseCronExpr "0 12 * * *" = Ok noon) by (vm_compute; reflexivity).
  split.
  - apply (proj2 (proj2 (NextCronTime_least "0 12 * * *" UTC 1717200000000000000 noon Hf)) 0 UTC_fixed).
  - apply (proj1 (proj2 (NextCronTime_least "0 12 * * *" new_york 1717200000000000000 noon Hf)) (-240) 28620720).
    + vm_compute. reflexivity.
    + vm_compute. reflexivity.
    + pose proof (local_loop_spec noon 2000 28619761) as Hl.
      replace (local_loop 2000 noon 28619761) with (Some 28620720) in Hl by (vm_compute; reflexivity).
      destruct Hl as (_ & _ & Hl). intros u Hu Hlt. apply Hl. unfold minute_ns in Hu. lia.
    + split; [lia|]. intros s. unfold offset_at, new_york, second_ns. cbn [lookup_zone].
      change (1717200000000000000 / 1000000000) with 1717200000. intros Hs.
      rewrite (proj2 (Z.ltb_ge s 1710054000)), (proj2 (Z.ltb_lt s 1730613600)) by lia. reflexivity.
Defined.

(** The search sticks at a gap of the clock.  From midnight on, New York time, of the day on which the clock goes
    from 2:00 to 3:00, the skip to the hour after 1:00 asks for 2:00, which [time.Date] takes for 1:00: the search
    stays there to its end and fails, though every day has a midnight. *)
Theorem spring_gap_sticks :
  NextCronTime "0 0 * * *" new_york 1710046810000000000 =
    Err (ErrText ("no matching time found within 4 years for expression " +:+ quote "0 0 * * *")) ∧
  cron_match (fields_of "0 0 * * *") (local_minute new_york 1710129600) = true.
Proof.
  split; [|vm_compute; reflexivity]. unfold NextCronTime.
  assert (Hf : parseCronExpr "0 0 * * *" = Ok (fields_of "0 0 * * *")) by (vm_compute; reflexivity).
  rewrite Hf. cbn [mbind outcome_bind].
  replace (Z.to_nat maxIterations) with (59 + Z.to_nat (maxIterations - 59))%nat by (unfold maxIterations; lia).
  rewrite cron_loop_add. change ((1710046810000000000 / minute_ns + 1) * 60) with 1710046860.
  replace (cron_loop 59 (fields_of "0 0 * * *") new_york 1710046860) with (@None Z) by (vm_compute; reflexivity).
  replace (Nat.iter 59 (cron_next (fields_of "0 0 * * *") new_york) 1710046860) with 1710050400 by (vm_compute; reflexivity).
  by rewrite cron_loop_stuck by (vm_compute; reflexivity).
Qed.
