(* ===== verification/Scheduler.v ===== *)
(** * Scheduler: [internal/controlplane/scheduler/scheduler.go]

    The registry of scheduled syncs and the periodic firing.  The Temporal
    client is optional: [temporal] says whether there is one, [start] whether starting a sync
    succeeds; the calls made are returned.  [load_location] is [time.LoadLocation].  Metrics and
    logging are left out.  The iteration over the registry has no
    order; the schedules are independent, so it is a map traversal.  Every
    operation holds the mutex from start to end, so operations interleave as
    whole steps: [step] is one of them. *)

From stdpp Require Import sorting.
From S2P Require Import Prelude GoStrings Errors Cron.

Record SyncRecord := mkSyncRecord {
  sr_SyncID : string; sr_TenantID : string; sr_CronExpr : string; sr_Status : string
}.
Record CronSchedule := mkCronSchedule {
  cs_Expression : string;
  cs_Timezone : string;
  cs_NextRun : Z;
  cs_LastRun : option Z      (** [None] is the zero time *)
}.
Record ScheduledSync := mkScheduledSync {
  ss_SyncID : string; ss_TenantID : string; ss_Schedule : CronSchedule
}.
Record Scheduler := mkScheduler {
  schedules : gmap string ScheduledSync; stopped : bool; temporal : bool
}.

Definition NewScheduler (temporal : bool) : Scheduler := mkScheduler ∅ false temporal.

Definition Stop (s : Scheduler) : Scheduler := mkScheduler (schedules s) true (temporal s).

Section scheduler.
Context (load_location : string → error + Location).

Definition with_next (c : CronSchedule) (next : Z) : CronSchedule :=
  mkCronSchedule (cs_Expression c) (cs_Timezone c) next (cs_LastRun c).

Definition ScheduleSync (now : Z) (syncID : string) (schedule : CronSchedule) (s : Scheduler) :
    option error * Scheduler :=
  if bool_decide (syncID = "") then (Some (ErrText "syncID is required"), s)
  else if bool_decide (cs_Expression schedule = "") then (Some (ErrText "cron expression is required"), s)
  else
    match (if bool_decide (cs_Timezone schedule = "") then inr UTC else load_location (cs_Timezone schedule)) with
    | inl e => (Some (ErrWrapf ("invalid timezone " +:+ quote (cs_Timezone schedule)) e), s)
    | inr loc =>
        match NextCronTime (cs_Expression schedule) loc now with
        | Err e => (Some (ErrWrapf ("invalid cron expression " +:+ quote (cs_Expression schedule)) e), s)
        | Panic m => (Some (ErrText m), s)
        | Ok nextRun =>
            let schedule := with_next schedule nextRun in
            let ss := match schedules s !! syncID with
                      | Some existing => mkScheduledSync (ss_SyncID existing) (ss_TenantID existing) schedule
                      | None => mkScheduledSync syncID "" schedule
                      end in
            (None, mkScheduler (<[syncID := ss]> (schedules s)) (stopped s) (temporal s))
        end
    end.

Definition UnscheduleSync (syncID : string) (s : Scheduler) : Scheduler :=
  mkScheduler (delete syncID (schedules s)) (stopped s) (temporal s).

(** The location a fired schedule is computed in: UTC when the zone does not load. *)
Definition fire_zone (c : CronSchedule) : Location :=
  if bool_decide (cs_Timezone c = "") then UTC
  else match load_location (cs_Timezone c) with inr loc => loc | inl _ => UTC end.

(** One schedule at a tick; [ok] tells whether starting it succeeds, or there is no client.  When no next run is found
    the old one stays. *)
Definition fire_one (now : Z) (ok : bool) (ss : ScheduledSync) : ScheduledSync :=
  let c := ss_Schedule ss in
  if now <? cs_NextRun c then ss
  else if negb ok then ss
  else
    let c := mkCronSchedule (cs_Expression c) (cs_Timezone c) (cs_NextRun c) (Some now) in
    match NextCronTime (cs_Expression c) (fire_zone c) now with
    | Ok nextRun => mkScheduledSync (ss_SyncID ss) (ss_TenantID ss) (with_next c nextRun)
    | _ => mkScheduledSync (ss_SyncID ss) (ss_TenantID ss) c
    end.

(** The [StartScheduledSync] call for a schedule at a tick. *)
Definition start_call (now : Z) (syncID : string) (ss : ScheduledSync) : option (string * string * string) :=
  if now <? cs_NextRun (ss_Schedule ss) then None
  else Some (syncID, ss_TenantID ss, cs_Expression (ss_Schedule ss)).

Definition fireDueSyncs (start : string → bool) (now : Z) (s : Scheduler) :
    gmap string (string * string * string) * Scheduler :=
  (if temporal s then map_imap (start_call now) (schedules s) else ∅,
   mkScheduler (map_imap (λ id ss, Some (fire_one now (negb (temporal s) || start id) ss)) (schedules s)) (stopped s) (temporal s)).

(** [loadFromRepo] with the records of the repository; [local] is [time.Local]. *)
Definition load_record (now : Z) (local : Location) (m : gmap string ScheduledSync) (r : SyncRecord) :
    gmap string ScheduledSync :=
  if bool_decide (sr_CronExpr r = "") || negb (bool_decide (sr_Status r = "active")) then m
  else match NextCronTime (sr_CronExpr r) local now with
       | Ok nextRun => <[sr_SyncID r := mkScheduledSync (sr_SyncID r) (sr_TenantID r)
                           (mkCronSchedule (sr_CronExpr r) "" nextRun None)]> m
       | _ => m
       end.

Definition loadFromRepo (now : Z) (local : Location) (syncs : res (list SyncRecord)) (s : Scheduler) :
    option error * Scheduler :=
  match syncs with
  | Ok rs => (None, mkScheduler (foldl (load_record now local) (schedules s) rs) (stopped s) (temporal s))
  | Err e => (Some (ErrWrapf "failed to load scheduled syncs" e), s)
  | Panic m => (Some (ErrText m), s)
  end.

(** [ListScheduled]: the entries by next run, in one of the orders that
    [sort.Slice] may give to equal times. *)
Definition next_run_le (a b : ScheduledSync) : Prop := cs_NextRun (ss_Schedule a) ≤ cs_NextRun (ss_Schedule b).

#[export] Instance next_run_le_dec : RelDecision next_run_le := λ a b, decide (_ ≤ _).

Definition ListScheduled (s : Scheduler) : list ScheduledSync :=
  merge_sort next_run_le (map_to_list (schedules s)).*2.

(** What happens to a scheduler: ticks of the loop of [Start], and calls of its methods. *)
Inductive event :=
  | Tick (start : string → bool) (now : Z)
  | Schedule (now : Z) (syncID : string) (schedule : CronSchedule)
  | Unschedule (syncID : string)
  | StopCall.

Definition step (s : Scheduler) (e : event) : Scheduler :=
  match e with
  | Tick start now => (fireDueSyncs start now s).2
  | Schedule now id c => (ScheduleSync now id c s).2
  | Unschedule id => UnscheduleSync id s
  | StopCall => Stop s
  end.

Definition run (s : Scheduler) (es : list event) : Scheduler := foldl step s es.

(** ** Properties *)

(** A schedule that is due and started. *)
Lemma fire_one_due now ss next :
  cs_NextRun (ss_Schedule ss) ≤ now →
  NextCronTime (cs_Expression (ss_Schedule ss)) (fire_zone (ss_Schedule ss)) now = Ok next →
  fire_one now true ss = mkScheduledSync (ss_SyncID ss) (ss_TenantID ss)
    (mkCronSchedule (cs_Expression (ss_Schedule ss)) (cs_Timezone (ss_Schedule ss)) next (Some now)).
Proof.
  intros Hle Hn. unfold fire_one. destruct (Z.ltb_spec now (cs_NextRun (ss_Schedule ss))); [lia|].
  cbn [negb]. change (fire_zone (mkCronSchedule _ _ _ _)) with (fire_zone (ss_Schedule ss)).
  cbn [cs_Expression]. by rewrite Hn.
Qed.

Lemma fire_lookup start now s id :
  schedules (fireDueSyncs start now s).2 !! id = fire_one now (negb (temporal s) || start id) <$> (schedules s !! id).
Proof. cbn [fireDueSyncs snd schedules]. rewrite map_lookup_imap. by destruct (schedules s !! id). Qed.

Lemma call_lookup start now s id :
  (fireDueSyncs start now s).1 !! id = if temporal s then schedules s !! id ≫= start_call now id else None.
Proof. cbn [fireDueSyncs fst]. destruct (temporal s); [by rewrite map_lookup_imap|done]. Qed.

(** The next run was computed by a successful search. *)
Definition schedule_ok (c : CronSchedule) : Prop :=
  ∃ loc after, NextCronTime (cs_Expression c) loc after = Ok (cs_NextRun c).

Definition scheduler_ok (s : Scheduler) : Prop :=
  map_Forall (λ _ ss, schedule_ok (ss_Schedule ss)) (schedules s).

Lemma fire_one_ok now ok ss : schedule_ok (ss_Schedule ss) → schedule_ok (ss_Schedule (fire_one now ok ss)).
Proof.
  intros Hok. unfold fire_one. destruct (_ <? _); [done|]. destruct (negb ok); [done|].
  change (fire_zone (mkCronSchedule _ _ _ _)) with (fire_zone (ss_Schedule ss)). cbn [cs_Expression].
  destruct (NextCronTime _ (fire_zone (ss_Schedule ss)) now) as [next|e|m] eqn:Hn; [|done..].
  by exists (fire_zone (ss_Schedule ss)), now.
Qed.

Lemma step_ok s e : scheduler_ok s → scheduler_ok (step s e).
Proof.
  unfold scheduler_ok. intros Hs. destruct e as [start now|now id c|id|]; cbn [step].
  - intros id ss. rewrite fire_lookup, fmap_Some. intros (ss0 & Hl & ->). apply fire_one_ok. by apply (Hs id).
  - unfold ScheduleSync. destruct (bool_decide _); [done|]. destruct (bool_decide _); [done|].
    destruct (if bool_decide _ then _ else _) as [e|loc]; [done|].
    destruct (NextCronTime _ loc now) as [next|e|m] eqn:Hn; [|done..].
    cbn [snd schedules]. apply map_Forall_insert_2; [|done].
    by destruct (schedules s !! id); exists loc, now.
  - by apply map_Forall_delete.
  - done.
Qed.

Lemma run_ok s es : scheduler_ok s → scheduler_ok (run s es).
Proof. unfold run. revert s. induction es as [|e es IH]; intros s Hs; simpl; [done|]. by apply IH, step_ok. Qed.

(** A tick on a registered sync, for every reachable registry: before its next
    run nothing happens; from then on it is started with its tenant and
    expression, if there is a client; if that fails the schedule stays due, and is started again at the next
    tick; if it succeeds the run is recorded and the next run becomes the one the search finds.  When the search
    fails the next run stays, so that the sync is due again at the next tick; in a location with a fixed
    offset it finds a time after the tick, so one due run is never started twice. *)
Theorem fireDueSyncs_spec start now s id ss :
  scheduler_ok s → schedules s !! id = Some ss →
  let c := ss_Schedule ss in
  let '(calls, s') := fireDueSyncs start now s in
  let ok := negb (temporal s) || start id in
  (now < cs_NextRun c → calls !! id = None ∧ schedules s' !! id = Some ss) ∧
  (cs_NextRun c ≤ now → calls !! id = if temporal s then Some (id, ss_TenantID ss, cs_Expression c) else None) ∧
  (cs_NextRun c ≤ now → ok = false → schedules s' !! id = Some ss) ∧
  (cs_NextRun c ≤ now → ok = true →
     schedules s' !! id = Some (mkScheduledSync (ss_SyncID ss) (ss_TenantID ss)
       (mkCronSchedule (cs_Expression c) (cs_Timezone c)
          (match NextCronTime (cs_Expression c) (fire_zone c) now with Ok next => next | _ => cs_NextRun c end) (Some now)))) ∧
  (∀ off, fixed_zone (fire_zone c) off → ∃ next, NextCronTime (cs_Expression c) (fire_zone c) now = Ok next ∧ now < next).
Proof.
  intros Hok Hl. destruct (fireDueSyncs start now s) as [calls s'] eqn:Hf.
  pose proof (fire_lookup start now s id) as Hs. pose proof (call_lookup start now s id) as Hc.
  rewrite Hf, Hl in Hs, Hc. cbn [fst snd fmap option_fmap option_map mbind option_bind] in Hs, Hc. rewrite Hs, Hc. unfold start_call.
  pose proof (Hok id ss Hl) as (off & after & Hn). cbv zeta.
  split; [|split; [|split; [|split]]].
  - intros Hb. unfold fire_one. destruct (Z.ltb_spec now (cs_NextRun (ss_Schedule ss))); [by destruct (temporal s)|lia].
  - intros Hb. by destruct (Z.ltb_spec now (cs_NextRun (ss_Schedule ss))); [lia|].
  - intros Hb ->. unfold fire_one. by destruct (_ <? _).
  - intros Hb ->. unfold fire_one. destruct (Z.ltb_spec now (cs_NextRun (ss_Schedule ss))); [lia|]. cbn [negb].
    change (fire_zone (mkCronSchedule _ _ _ _)) with (fire_zone (ss_Schedule ss)). cbn [cs_Expression].
    by destruct (NextCronTime _ (fire_zone (ss_Schedule ss)) now).
  - intros off' Hz. by apply (NextCronTime_again _ off after _ _ off' now Hn).
Qed.

(** ** Which ticks start a sync *)

(** The schedule waits for the first match after [t0]. *)
Definition waits_since (c : CronSchedule) (t0 : Z) : Prop :=
  NextCronTime (cs_Expression c) (fire_zone c) t0 = Ok (cs_NextRun c).

(** A minute of the expression lies in the interval (a, b]. *)
Definition due_between (f : cronFields) (off a b : Z) : Prop :=
  ∃ v, cron_match f v = true ∧ a < (v - off) * minute_ns ≤ b.

Section ticks.
Context (off : Z).

Lemma waits_due c f t0 now : parseCronExpr (cs_Expression c) = Ok f → fixed_zone (fire_zone c) off → waits_since c t0 →
  cs_NextRun c ≤ now ↔ due_between f off t0 now.
Proof.
  intros Hf Hz Hw. pose proof (NextCronTime_fixed _ (fire_zone c) off t0 f Hf Hz) as H. rewrite Hw in H.
  destruct H as (Hlt & u & Hu & Hm & Hleast). unfold due_between. split.
  - intros Hle. exists u. rewrite <-Hu. split; [done|lia].
  - intros (v & Hv & Hr). apply Z.nlt_ge. intros Hlt'. rewrite Hleast in Hv by lia. discriminate Hv.
Qed.

(** What the ticks so far leave of the schedule of a sync: its expression, its zone, and
    a reference time after which no minute of the expression has passed. *)
Definition follows (expr tz : string) (f : cronFields) (last : Z) (ss : ScheduledSync) : Prop :=
  let c := ss_Schedule ss in
  cs_Expression c = expr ∧ cs_Timezone c = tz ∧ fixed_zone (fire_zone c) off ∧
  ∃ ref, ref ≤ last ∧ waits_since c ref ∧ ¬ due_between f off ref last.

Lemma follows_due expr tz f last ss now : parseCronExpr expr = Ok f → last ≤ now →
  follows expr tz f last ss →
  cs_NextRun (ss_Schedule ss) ≤ now ↔ due_between f off last now.
Proof.
  intros Hf Hle (<- & <- & Hz & ref & Href & Hw & Hno). rewrite (waits_due _ f ref now Hf Hz Hw).
  unfold due_between in *. split.
  - intros (v & Hv & Hr). exists v. split; [done|].
    destruct (Z.le_gt_cases ((v - off) * minute_ns) last); [|lia].
    destruct Hno. exists v. split; [done|lia].
  - intros (v & Hv & Hr). exists v. split; [done|lia].
Qed.

Lemma follows_tick expr tz f last ss now : parseCronExpr expr = Ok f → last ≤ now →
  follows expr tz f last ss → follows expr tz f now (fire_one now true ss).
Proof.
  intros Hf Hle Hfol. pose proof (follows_due _ _ _ _ _ now Hf Hle Hfol) as Hdue.
  destruct Hfol as (He & Htz & Hz & ref & Href & Hw & Hno).
  destruct (Z.lt_ge_cases now (cs_NextRun (ss_Schedule ss))) as [Hlt|Hge].
  - unfold fire_one. destruct (Z.ltb_spec now (cs_NextRun (ss_Schedule ss))); [|lia].
    do 3 (split; [done|]). exists ref. split; [lia|]. split; [done|].
    rewrite <-(waits_due (ss_Schedule ss) f ref now) by (done || by rewrite He). lia.
  - destruct (NextCronTime_again _ _ _ _ (fire_zone (ss_Schedule ss)) off now Hw Hz) as (next & Hn & _).
    rewrite (fire_one_due _ _ next) by done.
    do 3 (split; [done|]). exists now. split; [lia|]. split; [done|].
    intros (v & _ & Hv). lia.
Qed.

(** Ticks at which every start of the sync [id] succeeds. *)
Definition ticks_of (id : string) (ticks : list ((string → bool) * Z)) : Prop :=
  Forall (λ st, st.1 id = true) ticks.

Definition run_ticks (s : Scheduler) (ticks : list ((string → bool) * Z)) : Scheduler :=
  run s (map (λ st, Tick st.1 st.2) ticks).

Lemma run_ticks_follows expr tz f id last ticks s ss :
  parseCronExpr expr = Ok f → ticks_of id ticks → StronglySorted Z.le (last :: ticks.*2) →
  schedules s !! id = Some ss → follows expr tz f last ss →
  ∃ ss', schedules (run_ticks s ticks) !! id = Some ss' ∧
    follows expr tz f (default last (list.last ticks.*2)) ss' ∧ ss_TenantID ss' = ss_TenantID ss.
Proof.
  intros Hf. revert s ss last. induction ticks as [|[start now] ticks IH]; intros s ss last Hid Hsort Hl Hfol.
  { by exists ss. }
  apply list.Forall_cons in Hid as [Hst Hid]. simpl in Hst.
  assert (last ≤ now ∧ StronglySorted Z.le (now :: ticks.*2)) as [Hle Hs'].
  { apply StronglySorted_inv in Hsort as [Hs' Hall]. by apply list.Forall_cons in Hall as [? _]. }
  destruct (IH (step s (Tick start now)) (fire_one now true ss) now) as (ss' & Hl' & Hfol' & Ht); try done.
  - cbn [step]. by rewrite fire_lookup, Hl, Hst, orb_true_r.
  - by eapply follows_tick.
  - exists ss'. split; [exact Hl'|]. split.
    + cbn [fmap list_fmap]. rewrite last_cons. by destruct (list.last ticks.*2).
    + rewrite Ht. unfold fire_one. destruct (_ <? _); [done|]. simpl. by destruct (NextCronTime _ _ _).
Qed.

Lemma run_temporal s es : temporal (run s es) = temporal s.
Proof.
  unfold run. revert s. induction es as [|e es IH]; intros s; [done|]. cbn [foldl]. rewrite IH.
  destruct e as [start now|now id c|id|]; cbn [step]; try done. unfold ScheduleSync. by repeat case_match.
Qed.

(** C26: the scheduler starts a sync at the right ticks.  With a client whose starts of the sync succeed, a clock
    that does not go back, and a location of the schedule whose offset never changes, such as the default UTC:
    however many ticks have passed since the schedule was computed at [t0], a tick starts the sync exactly when some
    minute of its expression lies between the previous tick (or [t0]) and this one; no scheduled run is lost between
    two ticks and no run is started without one.  A failing start is tried again at the next tick
    ([fireDueSyncs_spec]), and so is, at every tick, a start after which no next run is found, as can happen when
    the clock of a location is put forward ([starts_at_every_tick]). *)
Theorem scheduler_starts_when_due s id ss f t0 ticks start now :
  temporal s = true →
  schedules s !! id = Some ss →
  parseCronExpr (cs_Expression (ss_Schedule ss)) = Ok f →
  fixed_zone (fire_zone (ss_Schedule ss)) off →
  waits_since (ss_Schedule ss) t0 →
  ticks_of id ticks → StronglySorted Z.le (t0 :: ticks.*2) → default t0 (list.last ticks.*2) ≤ now →
  (fireDueSyncs start now (run_ticks s ticks)).1 !! id =
    Some (id, ss_TenantID ss, cs_Expression (ss_Schedule ss)) ↔
  due_between f off (default t0 (list.last ticks.*2)) now.
Proof.
  intros Htemp Hl Hf Hz Hw Hid Hsort Hle.
  destruct (run_ticks_follows (cs_Expression (ss_Schedule ss)) (cs_Timezone (ss_Schedule ss)) f id t0 ticks s ss)
    as (ss' & Hl' & Hfol & Ht); try done.
  { do 3 (split; [done|]). exists t0. split; [lia|]. split; [done|]. intros (v & _ & Hv). lia. }
  pose proof (follows_due _ _ _ _ _ now Hf Hle Hfol) as Hdue. destruct Hfol as (He & Htz & _).
  rewrite <-Hdue, call_lookup. unfold run_ticks at 1. rewrite run_temporal, Htemp, Hl'. cbn [mbind option_bind]. unfold start_call. rewrite Ht, He.
  destruct (Z.ltb_spec now (cs_NextRun (ss_Schedule ss'))); split; try done; lia.
Qed.
End ticks.

(** [ScheduleSync] either reports why it refuses and leaves the registry alone, or
    registers a schedule that waits for the first match from now on. *)
Lemma ScheduleSync_waits now id c s :
  let '(err, s') := ScheduleSync now id c s in
  match err with
  | Some _ => s' = s
  | None => id ≠ "" ∧ ∃ ss, schedules s' = <[id := ss]> (schedules s) ∧
      cs_Expression (ss_Schedule ss) = cs_Expression c ∧ waits_since (ss_Schedule ss) now ∧
      ss_TenantID ss = from_option ss_TenantID "" (schedules s !! id)
  end.
Proof.
  unfold ScheduleSync, waits_since, fire_zone. case_bool_decide as Hid; [done|].
  destruct (bool_decide (cs_Expression c = "")); [done|].
  destruct (bool_decide (cs_Timezone c = "")) eqn:Htz;
    [|destruct (load_location (cs_Timezone c)) as [e|loc] eqn:Hoff; [done|]];
    (destruct (NextCronTime _ _ now) as [next|e|m] eqn:Hn; [|done..]);
    (split; [done|]); eexists; (split; [reflexivity|]);
    destruct (schedules s !! id); cbn [ss_Schedule with_next cs_Expression cs_NextRun cs_Timezone ss_TenantID from_option];
    rewrite ?Htz, ?Hoff; done.
Qed.

End scheduler.

(** ** Witnesses *)

Section examples.

(** UTC and New York are known. *)
Definition two_zones (tz : string) : error + Location :=
  if bool_decide (tz = "UTC") then inr UTC
  else if bool_decide (tz = "America/New_York") then inr new_york else inl (ErrText ("unknown time zone " +:+ tz)).

Definition hourly : CronSchedule := mkCronSchedule "0 * * * *" "" 3600000000000 None.
Definition hourly_sync : ScheduledSync := mkScheduledSync "s1" "acme" hourly.
Definition one_sync : Scheduler := mkScheduler {[ "s1" := hourly_sync ]} false true.

Lemma hourly_waits : waits_since two_zones hourly 1000.
Proof. vm_compute. reflexivity. Qed.

(** A sync scheduled through [ScheduleSync] is started without a tenant. *)
Lemma scheduled_sync_has_no_tenant :
  let s := (ScheduleSync two_zones 1000 "s1" hourly (NewScheduler true)).2 in
  (fireDueSyncs two_zones (λ _, true) 3630000000000 s).1 !! "s1" = Some ("s1", "", "0 * * * *").
Proof. vm_compute. reflexivity. Qed.

Lemma fireDueSyncs_spec_witness :
  let '(calls, s') := fireDueSyncs two_zones (λ _, true) 3630000000000 one_sync in
  calls !! "s1" = Some ("s1", "acme", "0 * * * *") ∧
  ∃ next, 3630000000000 < next ∧ schedules s' !! "s1" =
    Some (mkScheduledSync "s1" "acme" (mkCronSchedule "0 * * * *" "" next (Some 3630000000000))).
Proof.
  pose proof (fireDueSyncs_spec two_zones (λ _, true) 3630000000000 one_sync "s1" hourly_sync) as H.
  cbv zeta in H. destruct (fireDueSyncs two_zones (λ _, true) 3630000000000 one_sync) as [calls s'].
  destruct H as (_ & Hc & _ & Hs & Hn).
  - intros id ss Hl. change (({[ "s1" := hourly_sync ]} : gmap string ScheduledSync) !! id = Some ss) in Hl.
    apply lookup_singleton_Some in Hl as [<- <-]. exists UTC, 1000. exact hourly_waits.
  - reflexivity.
  - split; [apply Hc; cbn; lia|]. destruct (Hn 0 UTC_fixed) as (next & He & Hlt). exists next. split; [exact Hlt|].
    rewrite Hs, He; [reflexivity|cbn; lia|reflexivity].
Defined.

Lemma scheduler_starts_when_due_witness :
  ∃ f, (fireDueSyncs two_zones (λ _, true) 3630000000000
      (run_ticks two_zones one_sync [(λ _, true, 30000000000); (λ _, true, 60000000000)])).1 !! "s1" =
    Some ("s1", "acme", "0 * * * *") ↔
  due_between f 0 60000000000 3630000000000.
Proof.
  destruct (parseCronExpr "0 * * * *") as [f|e|m] eqn:Hf;
    [|exfalso; vm_compute in Hf; discriminate Hf..].
  exists f. apply (scheduler_starts_when_due two_zones 0 one_sync "s1" hourly_sync f 1000
    [(λ _, true, 30000000000); (λ _, true, 60000000000)] (λ _, true) 3630000000000).
  - reflexivity.
  - reflexivity.
  - exact Hf.
  - exact UTC_fixed.
  - exact hourly_waits.
  - repeat constructor.
  - cbn. repeat constructor; lia.
  - cbn. lia.
Defined.

(** The daily sync of a tenant in New York, due at midnight of the day on which the clock goes forward. *)
Definition midnight : CronSchedule := mkCronSchedule "0 0 * * *" "America/New_York" 1710046800000000000 None.
Definition new_york_sync : Scheduler := mkScheduler {[ "s1" := mkScheduledSync "s1" "acme" midnight ]} false true.

(** The tick after midnight starts it and finds no next run, so the next tick starts it again. *)
Theorem starts_at_every_tick :
  let tick now := fireDueSyncs two_zones (λ _, true) now in
  let s := (tick 1710046810000000000 new_york_sync).2 in
  (tick 1710046810000000000 new_york_sync).1 !! "s1" = Some ("s1", "acme", "0 0 * * *") ∧
  schedules s !! "s1" = Some (mkScheduledSync "s1" "acme"
    (mkCronSchedule "0 0 * * *" "America/New_York" 1710046800000000000 (Some 1710046810000000000))) ∧
  (tick 1710046840000000000 s).1 !! "s1" = Some ("s1", "acme", "0 0 * * *").
Proof.
  cbv zeta. rewrite !call_lookup, fire_lookup.
  change (schedules new_york_sync !! "s1") with (Some (mkScheduledSync "s1" "acme" midnight)).
  change (temporal (fireDueSyncs two_zones (λ _, true) 1710046810000000000 new_york_sync).2) with true.
  change (temporal new_york_sync) with true. cbn [mbind option_bind fmap option_fmap option_map negb orb].
  unfold fire_one, start_call. cbn [ss_Schedule ss_SyncID ss_TenantID midnight cs_NextRun cs_Expression cs_Timezone].
  change (fire_zone two_zones _) with new_york. rewrite (proj1 spring_gap_sticks). done.
Qed.
End examples.
