(* ===== verification/ExprFuncs.v ===== *)
(** * Built-in functions of mapping expressions: [internal/mapping/expression/engine.go]

    The conversions between values and the functions [registerBuiltins] installs.
    What they take from the Go library beyond ASCII text is a parameter: number
    parsing, Unicode case mapping, dates and regular expressions.  A [Panic] is the
    run-time error of a slice expression out of range. *)

From Stdlib Require Import Ascii.
From S2P Require Import Prelude GoStrings Errors Float Value.

(** ** More of [strings] *)

Fixpoint strip_prefix (p bs : list ascii) : option (list ascii) :=
  match p, bs with
  | [], _ => Some bs
  | a :: p, b :: bs => if decide (a = b) then strip_prefix p bs else None
  | _ :: _, [] => None
  end.

(** The pieces between the occurrences of a non-empty separator. *)
Fixpoint split_on (fuel : nat) (sep bs cur : list ascii) : list string :=
  match fuel, bs with
  | S fuel, b :: rest =>
      match strip_prefix sep bs with
      | Some rest => of_bytes (reverse cur) :: split_on fuel sep rest []
      | None => split_on fuel sep rest (b :: cur)
      end
  | _, _ => [of_bytes (reverse cur)]
  end.

(** The UTF-8 sequences of a string. *)
Definition explode (s : string) : list string := map (λ r, of_bytes r.2) (runes s).

(** [strings.Split] for any separator. *)
Definition SplitAny (s sep : string) : list string :=
  if bool_decide (sep = "") then explode s
  else split_on (String.length s) (bytes_of sep) (bytes_of s) [].

(** [strings.ReplaceAll]. *)
Definition ReplaceAll (s old new : string) : string :=
  if bool_decide (old = "") then new +:+ String.concat "" (map (λ r, r +:+ new) (explode s))
  else Join (SplitAny s old) new.

(** [strings.NewReplacer(...).Replace]: at each position the first pair that matches. *)
Fixpoint first_match (pairs : list (string * string)) (bs : list ascii) : option (string * list ascii) :=
  match pairs with
  | [] => None
  | (old, new) :: pairs =>
      match strip_prefix (bytes_of old) bs with
      | Some rest => Some (new, rest)
      | None => first_match pairs bs
      end
  end.
Fixpoint replacer_loop (fuel : nat) (pairs : list (string * string)) (bs : list ascii) : string :=
  match fuel, bs with
  | S fuel, b :: rest =>
      match first_match pairs bs with
      | Some (new, rest) => new +:+ replacer_loop fuel pairs rest
      | None => String b (replacer_loop fuel pairs rest)
      end
  | _, _ => ""
  end.

Definition convertDateFormat (format : string) : string :=
  replacer_loop (String.length format)
    [("YYYY", "2006"); ("YY", "06"); ("MM", "01"); ("DD", "02"); ("HH", "15");
     ("mm", "04"); ("ss", "05"); ("SSS", "000")] (bytes_of format).

(** [string(rs)] of a rune slice. *)
Definition string_of_codes (rs : list Z) : string := of_bytes (concat (map encode_rune rs)).
Definition codes (s : string) : list Z := map fst (runes s).

(** A function callable from expressions. *)
Definition ExprFunc : Type := list value → res value.

Section builtins.
Context {Time : Type} (parse_float : string → res float64) (to_upper to_lower : string → string)
  (now : Time) (time_parse : string → string → option Time) (time_format : Time → string → string)
  (time_UTC : Time → Time) (regex_match : string → string → res bool).

(** ** Conversions *)

Definition toFloat (v : value) : res float64 :=
  match v with
  | VFloat f => Ok f
  | VInt z => Ok (f_of_Z z)
  | VString s => parse_float s
  | VBool b => Ok (f_of_Z (if b then 1 else 0))
  | VNil => Ok (f_of_Z 0)
  | _ => Err (ErrText ("cannot convert " +:+ sprint_T v +:+ " to float64"))
  end.

Definition toBool (v : value) : bool :=
  match v with
  | VBool b => b
  | VFloat f => negb (f_eqb f (f_of_Z 0))
  | VInt z => negb (z =? 0)
  | VString s => negb (bool_decide (s = "")) && negb (bool_decide (s = "false")) && negb (bool_decide (s = "0"))
  | VNil => false
  | _ => true
  end.

Definition toString (v : value) : string :=
  match v with
  | VNil => ""
  | VString s => s
  | VFloat f => if f_is_int f then pretty (f_to_i64 f) else FormatFloat_f f
  | VBool b => if b then "true" else "false"
  | _ => sprint_v v
  end.

(** The error of [strconv.ParseInt] on a text that [parse_int] refuses. *)
Definition parse_int_error (s : string) : error :=
  let ds := match bytes_of s with "+"%char :: ds | "-"%char :: ds => ds | ds => ds end in
  ErrText ("strconv.ParseInt: parsing " +:+ quote s +:+ ": " +:+
    match ds, digits_loop ds 0 with
    | _ :: _, Some _ => "value out of range"
    | _, _ => "invalid syntax"
    end).

Definition toInt (v : value) : res Z :=
  match v with
  | VFloat f => Ok (f_to_i64 f)
  | VInt z => Ok z
  | VString s => match parse_int s with Some z => Ok z | None => Err (parse_int_error s) end
  | VBool b => Ok (if b then 1 else 0)
  | VNil => Ok 0
  | _ => Err (ErrText ("cannot convert " +:+ sprint_T v +:+ " to int"))
  end.

Definition wrap_err {A} (prefix : string) (r : res A) : res A :=
  match r with Err e => Err (ErrWrapf prefix e) | r => r end.

(** ** Dates *)

Definition date_layouts : list string :=
  ["2006-01-02T15:04:05Z07:00"; "2006-01-02T15:04:05.999999999Z07:00"; "2006-01-02T15:04:05";
   "2006-01-02 15:04:05"; "2006-01-02"; "01/02/2006"; "02-Jan-2006"; "Jan 2, 2006";
   "Mon, 02 Jan 2006 15:04:05 MST"; "02 Jan 06 15:04 MST"].

Definition RFC3339 : string := "2006-01-02T15:04:05Z07:00".

Fixpoint try_layouts (layouts : list string) (s : string) : res Time :=
  match layouts with
  | [] => Err (ErrText ("unrecognized date format: " +:+ s))
  | l :: layouts => match time_parse l s with Some t => Ok t | None => try_layouts layouts s end
  end.
Definition parseFlexibleDate (s : string) : res Time := try_layouts date_layouts s.

(** ** The functions *)

Definition arity_error (text : string) (args : list value) : res value :=
  Err (ErrText (text +:+ ", got " +:+ pretty (Z.of_nat (length args)))).

Definition fn_unary (name : string) (f : value → res value) : ExprFunc := λ args,
  match args with
  | [a] => f a
  | _ => arity_error (name +:+ " requires 1 argument") args
  end.

Definition fn_concat : ExprFunc := λ args, Ok (VString (String.concat "" (map toString args))).
Definition fn_upper : ExprFunc := fn_unary "upper" (λ a, Ok (VString (to_upper (toString a)))).
Definition fn_lower : ExprFunc := fn_unary "lower" (λ a, Ok (VString (to_lower (toString a)))).
Definition fn_trim : ExprFunc := fn_unary "trim" (λ a, Ok (VString (TrimSpace (toString a)))).

Definition fn_split : ExprFunc := λ args,
  match args with
  | [a; b] => Ok (VSlice (map VString (SplitAny (toString a) (toString b))))
  | _ => arity_error "split requires 2 arguments" args
  end.

Definition fn_join : ExprFunc := λ args,
  match args with
  | [VSlice l; b] => Ok (VString (Join (map toString l) (toString b)))
  | [_; _] => Err (ErrText "join first argument must be an array")
  | _ => arity_error "join requires 2 arguments (array, separator)" args
  end.

Fixpoint fn_coalesce (args : list value) : res value :=
  match args with
  | [] => Ok VNil
  | VNil :: args => fn_coalesce args
  | VString s :: args' => if bool_decide (s = "") then fn_coalesce args' else Ok (VString s)
  | a :: _ => Ok a
  end.

Definition fn_if_null : ExprFunc := λ args,
  match args with
  | [a; b] => Ok (if is_nil a then b else a)
  | _ => arity_error "if_null requires 2 arguments" args
  end.

Definition fn_to_string : ExprFunc := fn_unary "to_string" (λ a, Ok (VString (toString a))).
Definition fn_to_int : ExprFunc :=
  fn_unary "to_int" (λ a, (λ z, VFloat (f_of_Z z)) <$> wrap_err "to_int" (toInt a)).
Definition fn_to_float : ExprFunc := fn_unary "to_float" (λ a, VFloat <$> wrap_err "to_float" (toFloat a)).
Definition fn_to_bool : ExprFunc := fn_unary "to_bool" (λ a, Ok (VBool (toBool a))).
Definition fn_now : ExprFunc := λ _, Ok (VString (time_format (time_UTC now) RFC3339)).

Definition fn_format_date : ExprFunc := λ args,
  match args with
  | [a; b] =>
      let goFmt := convertDateFormat (toString b) in
      t ← wrap_err ("format_date: cannot parse " +:+ quote (toString a)) (parseFlexibleDate (toString a));
      Ok (VString (time_format t goFmt))
  | _ => arity_error "format_date requires 2 arguments (date_string, format)" args
  end.

Definition fn_parse_date : ExprFunc := λ args,
  match args with
  | [a] | [a; _] =>
      t ← wrap_err ("parse_date: cannot parse " +:+ quote (toString a)) (parseFlexibleDate (toString a));
      Ok (VString (time_format (time_UTC t) RFC3339))
  | _ => arity_error "parse_date requires 1-2 arguments" args
  end.

(** [runes[start:end]] with the bounds check. *)
Definition rune_slice (rs : list Z) (start end_ : Z) : res value :=
  if (end_ <? start) || (start <? 0) || (Z.of_nat (length rs) <? end_)
  then Panic "slice bounds out of range"
  else Ok (VString (string_of_codes (slice (Z.to_nat start) (Z.to_nat end_) rs))).

Definition substring_from (s a : value) (length_arg : option value) : res value :=
  start ← wrap_err "substring start" (toInt a);
  let rs := codes (toString s) in
  let n := Z.of_nat (length rs) in
  let start := if start <? 0 then 0 else start in
  if n <=? start then Ok (VString "")
  else match length_arg with
       | Some l =>
           len ← wrap_err "substring length" (toInt l);
           let end_ := start +ᵢ len in
           rune_slice rs start (if n <? end_ then n else end_)
       | None => rune_slice rs start n
       end.

Definition fn_substring : ExprFunc := λ args,
  match args with
  | [s; a] => substring_from s a None
  | [s; a; l] => substring_from s a (Some l)
  | _ => arity_error "substring requires 2-3 arguments (string, start[, length])" args
  end.

Definition fn_replace : ExprFunc := λ args,
  match args with
  | [s; old; new] => Ok (VString (ReplaceAll (toString s) (toString old) (toString new)))
  | _ => arity_error "replace requires 3 arguments (string, old, new)" args
  end.

Definition fn_regex_match : ExprFunc := λ args,
  match args with
  | [s; p] =>
      b ← wrap_err ("regex_match: invalid pattern " +:+ quote (toString p)) (regex_match (toString p) (toString s));
      Ok (VBool b)
  | _ => arity_error "regex_match requires 2 arguments (string, pattern)" args
  end.

Definition registerBuiltins : gmap string ExprFunc :=
  list_to_map [("concat", fn_concat); ("upper", fn_upper); ("lower", fn_lower); ("trim", fn_trim);
    ("split", fn_split); ("join", fn_join); ("coalesce", fn_coalesce); ("if_null", fn_if_null);
    ("to_string", fn_to_string); ("to_int", fn_to_int); ("to_float", fn_to_float); ("to_bool", fn_to_bool);
    ("now", fn_now); ("format_date", fn_format_date); ("parse_date", fn_parse_date);
    ("substring", fn_substring); ("replace", fn_replace); ("regex_match", fn_regex_match)].
End builtins.

(** [substring] on each branch: a start past the end gives the empty string, a
    negative start counts as 0, a length that fits gives that many runes (fewer at the
    end); but a negative length, or one whose sum with the start overflows, makes the slice
    expression panic instead of returning an error. *)
Theorem fn_substring_spec s a l st len :
  toInt a = Ok st → toInt l = Ok len → in_i64 st → in_i64 len →
  let rs := codes (toString s) in
  let n := Z.of_nat (length rs) in
  let start := Z.max 0 st in
  n ≤ int64_max →
  (n ≤ start → fn_substring [s; a; l] = Ok (VString "")) ∧
  (start < n → 0 ≤ len → start + len ≤ int64_max →
     fn_substring [s; a; l] = Ok (VString (string_of_codes (take (Z.to_nat len) (drop (Z.to_nat start) rs))))) ∧
  (start < n → len < 0 ∨ int64_max < start + len → ∃ m, fn_substring [s; a; l] = Panic m).
Proof.
  intros Ha Hl Hst Hlen rs n start Hn. unfold fn_substring, substring_from. rewrite Ha, Hl.
  cbn [wrap_err mbind outcome_bind]. fold rs n.
  assert ((if st <? 0 then 0 else st) = start) as -> by (subst start; destruct (Z.ltb_spec st 0); lia).
  assert (0 ≤ start ≤ int64_max) as Hstart by (subst start; unfold in_i64, int64_max in *; lia).
  clearbody start. split; [|split].
  - intros Hge. by destruct (Z.leb_spec n start); [|lia].
  - intros Hlt H0 Hfit. destruct (Z.leb_spec n start); [lia|].
    rewrite i64_id by (unfold in_i64, int64_min in *; lia). unfold rune_slice. fold n.
    destruct (Z.ltb_spec n (start + len)) as [Hcut|Hin].
    + destruct (Z.ltb_spec n start), (Z.ltb_spec start 0), (Z.ltb_spec n n); try lia. cbn [orb]. unfold slice.
      rewrite !take_ge; [done|rewrite length_drop; lia..].
    + destruct (Z.ltb_spec (start + len) start), (Z.ltb_spec start 0), (Z.ltb_spec n (start + len)); try lia.
      cbn [orb]. unfold slice. do 4 f_equal. lia.
  - intros Hlt Hbad. destruct (Z.leb_spec n start); [lia|].
    assert ((start +ᵢ len) < start) as Hneg.
    { destruct Hbad as [Hneg|Hover]; [rewrite i64_id; unfold in_i64, int64_min, int64_max in *; lia|].
      rewrite i64_over by (unfold in_i64, int64_max, two64 in *; lia).
      unfold in_i64, int64_max, two64 in *. lia. }
    destruct (Z.ltb_spec n (start +ᵢ len)); [lia|]. unfold rune_slice.
    destruct (Z.ltb_spec (start +ᵢ len) start); [|lia]. by eexists.
Qed.

Example split_any_example : SplitAny "a--b--" "--" = ["a"; "b"; ""]. Proof. reflexivity. Qed.
Example replace_example : ReplaceAll "aaa" "aa" "b" = "ba". Proof. reflexivity. Qed.
Example replace_empty_example : ReplaceAll "ab" "" "-" = "-a-b-". Proof. reflexivity. Qed.
Example date_format_example : convertDateFormat "YYYY-MM-DD HH:mm:ss" = "2006-01-02 15:04:05". Proof. reflexivity. Qed.

Lemma fn_substring_spec_witness :
  (∃ m, fn_substring [VString "hello"; VInt 1; VInt (-1)] = Panic m) ∧
  fn_substring [VString "hello"; VInt 1; VInt 3] = Ok (VString "ell").
Proof.
  split.
  - apply (fn_substring_spec (VString "hello") (VInt 1) (VInt (-1)) 1 (-1)); try reflexivity; try done.
    by left.
  - apply (fn_substring_spec (VString "hello") (VInt 1) (VInt 3) 1 3); try reflexivity; done.
Defined.
