(* ===== verification/Expression.v ===== *)
(** * Mapping expressions: [internal/mapping/expression/engine.go]

    The engine evaluates while it parses: [tokenize] makes tokens of the runes, and
    the parser computes the value of what it has read.  The parser's position is the
    list of the tokens not yet read.  [expr], [render] and [eval] are the abstract
    specification: a syntax tree, its concrete syntax with the parentheses its operators
    need, and its value by recursion.  The theorems show that the engine evaluates
    the text of every tree to the value of the tree, that it always ends, and where it is
    laxer than its grammar.

    The recursion of [parseExpression] runs on fuel, one unit for each nesting of
    parentheses or calls; [None] is running out of it. *)

From Stdlib Require Import Ascii.
From S2P Require Import Prelude GoStrings Errors Float Value ExprFuncs.

(** ** Tokens *)

Inductive tokenType :=
| tokNumber | tokString | tokField | tokIdent | tokLParen | tokRParen | tokComma
| tokPlus | tokMinus | tokStar | tokSlash | tokEOF.

#[global] Instance tokenType_eq_dec : EqDecision tokenType.
Proof. solve_decision. Defined.

Record token := mkToken { typ : tokenType; val : string }.

Definition token_EOF : token := mkToken tokEOF "".

Section tokenizer.
(** [unicode.IsLetter] and [unicode.IsDigit] outside ASCII. *)
Context (uni_letter uni_digit : Z → bool).

Definition is_letter (r : Z) : bool :=
  if r <? 128 then (65 <=? r) && (r <=? 90) || (97 <=? r) && (r <=? 122) else uni_letter r.
Definition is_digit (r : Z) : bool :=
  if r <? 128 then (48 <=? r) && (r <=? 57) else uni_digit r.

Definition is_ident_char (r : Z) : bool := is_letter r || is_digit r || (r =? 95).
Definition is_field_char (r : Z) : bool :=
  is_ident_char r || (r =? 46) || (r =? 91) || (r =? 93).
Definition is_number_char (r : Z) : bool := is_digit r || (r =? 46).

Fixpoint span (p : Z → bool) (rs : list Z) : list Z * list Z :=
  match rs with
  | r :: rest => if p r then let '(a, b) := span p rest in (r :: a, b) else ([], rs)
  | [] => ([], [])
  end.

(** Up to the closing quote; escaped characters are passed over, not replaced. *)
Fixpoint string_body (quote_ : Z) (rs : list Z) : option (list Z * list Z) :=
  match rs with
  | [] => None
  | r :: rest =>
      if r =? quote_ then Some ([], rest)
      else if r =? 92 then
        match rest with
        | r2 :: rest2 => '(body, tail_) ← string_body quote_ rest2; Some (r :: r2 :: body, tail_)
        | [] => None
        end
      else '(body, tail_) ← string_body quote_ rest; Some (r :: body, tail_)
  end.

(** A minus sign starts a number at the beginning and after an operator, a comma or
    an opening parenthesis. *)
Definition sign_allowed (prev : option tokenType) : bool :=
  match prev with
  | None | Some (tokLParen | tokComma | tokPlus | tokMinus | tokStar | tokSlash) => true
  | _ => false
  end.

Definition starts_number (prev : option tokenType) (ch : Z) (rest : list Z) : bool :=
  is_digit ch ||
  (ch =? 45) && match rest with r :: _ => is_digit r | [] => false end && sign_allowed prev.

(** One round of the loop: the token, unless a space was skipped, and the rest. *)
Definition next_token (pos : Z) (prev : option tokenType) (ch : Z) (rest : list Z) :
    res (option token * list Z) :=
  let tok ty rs tail_ := Ok (Some (mkToken ty (string_of_codes rs)), tail_) in
  if is_space ch then Ok (None, rest)
  else if (ch =? 34) || (ch =? 39) then
    match string_body ch rest with
    | Some (body, tail_) => tok tokString body tail_
    | None => Err (ErrText "unterminated string literal")
    end
  else if (ch =? 36) && match rest with r :: _ => r =? 46 | [] => false end then
    let '(field, tail_) := span is_field_char (tail rest) in tok tokField field tail_
  else if starts_number prev ch rest then
    let '(num, tail_) := span is_number_char (if ch =? 45 then rest else ch :: rest) in
    tok tokNumber (if ch =? 45 then ch :: num else num) tail_
  else if is_letter ch || (ch =? 95) then
    let '(ident, tail_) := span is_ident_char (ch :: rest) in tok tokIdent ident tail_
  else if ch =? 40 then tok tokLParen [ch] rest
  else if ch =? 41 then tok tokRParen [ch] rest
  else if ch =? 44 then tok tokComma [ch] rest
  else if ch =? 43 then tok tokPlus [ch] rest
  else if ch =? 45 then tok tokMinus [ch] rest
  else if ch =? 42 then tok tokStar [ch] rest
  else if ch =? 47 then tok tokSlash [ch] rest
  else Err (ErrText ("unexpected character " +:+ quote (string_of_codes [ch]) +:+ " at position " +:+ pretty pos)).

Fixpoint tokenize_loop (fuel : nat) (n : Z) (prev : option tokenType) (rs : list Z) : res (list token) :=
  match rs with
  | [] => Ok [token_EOF]
  | ch :: rest =>
      match fuel with
      | O => Panic "out of fuel"
      | S fuel =>
          '(t, rest) ← next_token (n - Z.of_nat (length rs)) prev ch rest;
          match t with
          | Some t => ts ← tokenize_loop fuel n (Some (typ t)) rest; Ok (t :: ts)
          | None => tokenize_loop fuel n prev rest
          end
      end
  end.

Definition tokenize (expr : string) : res (list token) :=
  let rs := codes expr in tokenize_loop (length rs) (Z.of_nat (length rs)) None rs.
End tokenizer.

(** ** The parser *)

(** Result of a parsing function: a value and the tokens left. *)
Definition presult (A : Type) : Type := option (res (A * list token)).

Definition pbind {A B} (m : presult A) (f : A → list token → presult B) : presult B :=
  match m with
  | None => None
  | Some (Ok (a, ts)) => f a ts
  | Some (Err e) => Some (Err e)
  | Some (Panic s) => Some (Panic s)
  end.
Definition plift {A} (r : res A) (ts : list token) : presult A :=
  Some (match r with Ok a => Ok (a, ts) | Err e => Err e | Panic s => Panic s end).
Definition pfail {A} (text : string) : presult A := Some (Err (ErrText text)).

Definition peek (ts : list token) : token := match ts with t :: _ => t | [] => token_EOF end.

(** [resolveField]. *)
Fixpoint resolve_parts (current : value) (parts : list string) : value :=
  match parts with
  | [] => current
  | part :: parts =>
      match current with
      | VMap m => match m !! part with Some v => resolve_parts v parts | None => VNil end
      | _ => VNil
      end
  end.
Definition resolveField (data : obj) (path : string) : value := resolve_parts (VMap data) (Split path ".").

(** [ExprEngine]: the functions by name. *)
Definition ExprEngine : Type := gmap string ExprFunc.
Definition RegisterFunc (e : ExprEngine) (name : string) (fn : ExprFunc) : ExprEngine := <[name := fn]> e.

Section parser.
Context (parse_float : string → res float64) (engine : ExprEngine) (data : obj).

Let toFloat := toFloat parse_float.

(** Both operands as numbers, or the error of the operation. *)
Definition two_floats (text : string) (l r : value) (f : float64 → float64 → res value) : res value :=
  match toFloat l, toFloat r with
  | Ok lf, Ok rf => f lf rf
  | Panic s, _ | _, Panic s => Panic s
  | _, _ => Err (ErrText ("cannot " +:+ text +:+ " " +:+ sprint_T l +:+ " and " +:+ sprint_T r))
  end.

Definition add_values (l r : value) : res value :=
  match l, r with
  | VString ls, VString rs => Ok (VString (ls +:+ rs))
  | VString ls, _ => Ok (VString (ls +:+ sprint_v r))
  | _, VString rs => Ok (VString (sprint_v l +:+ rs))
  | _, _ => two_floats "add" l r (λ lf rf, Ok (VFloat (f_add lf rf)))
  end.

Definition sum_op (t : tokenType) (l r : value) : res value :=
  if bool_decide (t = tokPlus) then add_values l r
  else two_floats "subtract" l r (λ lf rf, Ok (VFloat (f_sub lf rf))).

Definition term_op (t : tokenType) (l r : value) : res value :=
  two_floats "perform arithmetic on" l r (λ lf rf,
    if bool_decide (t = tokStar) then Ok (VFloat (f_mul lf rf))
    else if f_eqb rf (f_of_Z 0) then Err (ErrText "division by zero")
    else Ok (VFloat (f_div lf rf))).

Definition negate (v : value) : res value :=
  match toFloat v with
  | Ok f => Ok (VFloat (f_neg f))
  | Err _ => Err (ErrText ("cannot negate " +:+ sprint_T v))
  | Panic s => Panic s
  end.

Definition number_value (s : string) : res value :=
  VFloat <$> wrap_err ("invalid number " +:+ quote s) (parse_float s).

Definition call_function (name : string) (args : list value) : res value :=
  match engine !! name with
  | Some fn => fn args
  | None => Err (ErrText ("unknown function " +:+ quote name))
  end.

Section levels.
(** The recursive call of [parseExpression]. *)
Context (pe : list token → presult value).

(** The arguments of a call up to the first token that is no comma. *)
Fixpoint args_loop (fuel : nat) (ts : list token) : presult (list value) :=
  match fuel with
  | O => None
  | S fuel =>
      pbind (pe ts) (λ arg ts,
        if bool_decide (typ (peek ts) = tokComma)
        then pbind (args_loop fuel (tail ts)) (λ args ts, Some (Ok (arg :: args, ts)))
        else Some (Ok ([arg], ts)))
  end.

Definition parse_args (ts : list token) : presult (list value) :=
  if bool_decide (typ (peek ts) = tokRParen) then Some (Ok ([], ts)) else args_loop (S (length ts)) ts.

Definition parse_ident (name : string) (ts : list token) : presult value :=
  if bool_decide (name = "true") then Some (Ok (VBool true, ts))
  else if bool_decide (name = "false") then Some (Ok (VBool false, ts))
  else if bool_decide (name = "null") || bool_decide (name = "nil") then Some (Ok (VNil, ts))
  else if negb (bool_decide (typ (peek ts) = tokLParen))
  then pfail ("expected '(' after function name " +:+ quote name)
  else
    pbind (parse_args (tail ts)) (λ args ts,
      if negb (bool_decide (typ (peek ts) = tokRParen))
      then pfail ("expected ')' after arguments to " +:+ quote name)
      else plift (call_function name args) (tail ts)).

Definition parsePrimary (ts : list token) : presult value :=
  let t := peek ts in
  match typ t with
  | tokNumber => plift (number_value (val t)) (tail ts)
  | tokString => Some (Ok (VString (val t), tail ts))
  | tokField => Some (Ok (resolveField data (val t), tail ts))
  | tokIdent => parse_ident (val t) (tail ts)
  | tokLParen =>
      pbind (pe (tail ts)) (λ v ts,
        if negb (bool_decide (typ (peek ts) = tokRParen)) then pfail "expected ')'"
        else Some (Ok (v, tail ts)))
  | _ => pfail ("unexpected token " +:+ quote (val t))
  end.

Definition parseUnary (ts : list token) : presult value :=
  if bool_decide (typ (peek ts) = tokMinus)
  then pbind (parsePrimary (tail ts)) (λ v ts, plift (negate v) ts)
  else parsePrimary ts.

Fixpoint term_loop (fuel : nat) (left : value) (ts : list token) : presult value :=
  match fuel with
  | O => None
  | S fuel =>
      let t := typ (peek ts) in
      if bool_decide (t = tokStar) || bool_decide (t = tokSlash)
      then pbind (parseUnary (tail ts)) (λ right ts,
             pbind (plift (term_op t left right) ts) (term_loop fuel))
      else Some (Ok (left, ts))
  end.
Definition parseTerm (ts : list token) : presult value :=
  pbind (parseUnary ts) (λ left ts, term_loop (S (length ts)) left ts).

Fixpoint sum_loop (fuel : nat) (left : value) (ts : list token) : presult value :=
  match fuel with
  | O => None
  | S fuel =>
      let t := typ (peek ts) in
      if bool_decide (t = tokPlus) || bool_decide (t = tokMinus)
      then pbind (parseTerm (tail ts)) (λ right ts,
             pbind (plift (sum_op t left right) ts) (sum_loop fuel))
      else Some (Ok (left, ts))
  end.
Definition parse_sum (ts : list token) : presult value :=
  pbind (parseTerm ts) (λ left ts, sum_loop (S (length ts)) left ts).
End levels.

Fixpoint parseExpression (fuel : nat) (ts : list token) : presult value :=
  match fuel with
  | O => None
  | S fuel => parse_sum (parseExpression fuel) ts
  end.

Context (uni_letter uni_digit : Z → bool).

(** [Evaluate]; the tokens after the expression are not looked at. *)
Definition Evaluate (expr : string) : option (res value) :=
  let expr := TrimSpace expr in
  if bool_decide (expr = "") then Some (Err (ErrText "empty expression"))
  else match tokenize uni_letter uni_digit expr with
  | Err e => Some (Err (ErrWrapf "tokenize" e))
  | Panic s => Some (Panic s)
  | Ok tokens =>
      match parseExpression (S (length tokens)) tokens with
      | None => None
      | Some r => Some (fst <$> wrap_err ("evaluate " +:+ quote expr) r)
      end
  end.
End parser.

(** ** The engine always ends *)

Lemma pbind_ok {A B} (m : presult A) (f : A → list token → presult B) b ts :
  pbind m f = Some (Ok (b, ts)) → ∃ a ts', m = Some (Ok (a, ts')) ∧ f a ts' = Some (Ok (b, ts)).
Proof. destruct m as [[[a ts']|e|s]|]; simpl; try done. eauto. Qed.

Lemma plift_ok {A} (r : res A) ts a ts' : plift r ts = Some (Ok (a, ts')) → r = Ok a ∧ ts' = ts.
Proof. destruct r; simpl; [|done..]. by intros [= -> ->]. Qed.

Lemma length_tail {A} (ts : list A) : (length (tail ts) ≤ length ts)%nat.
Proof. destruct ts; simpl; lia. Qed.

(** A token that is not the end of the input was there to be read. *)
Lemma peek_length ts : typ (peek ts) ≠ tokEOF → (length (tail ts) < length ts)%nat.
Proof. destruct ts; simpl; [done|lia]. Qed.

(** A parsing function leaves a suffix no longer than its input. *)
Definition shrinks {A} (p : list token → presult A) : Prop :=
  ∀ ts v ts', p ts = Some (Ok (v, ts')) → (length ts' ≤ length ts)%nat.

Section ending.
Context (parse_float : string → res float64) (engine : ExprEngine) (data : obj).

(** Nothing the engine calls panics. *)
Definition calls_safe : Prop :=
  (∀ s m, parse_float s ≠ Panic m) ∧
  ∀ name fn args m, engine !! name = Some fn → fn args ≠ Panic m.

(** Fuel does not run out, and there is no panic but from a function called. *)
Definition ends {A} (m : presult A) : Prop :=
  m ≠ None ∧ (calls_safe → ∀ s, m ≠ Some (Panic s)).

Lemma ends_ok {A} (a : A) ts : ends (Some (Ok (a, ts))).
Proof. done. Qed.
Lemma ends_fail {A} text : ends (pfail text : presult A).
Proof. done. Qed.
Lemma ends_bind {A B} (m : presult A) (f : A → list token → presult B) :
  ends m → (∀ a ts, m = Some (Ok (a, ts)) → ends (f a ts)) → ends (pbind m f).
Proof.
  intros [Hn Hp] Hf. destruct m as [[[a ts]|e|s]|]; simpl; [by apply Hf|done| |done].
  split; [done|]. intros Hs. by destruct (Hp Hs s).
Qed.
Lemma ends_lift {A} (r : res A) ts : (calls_safe → ∀ s, r ≠ Panic s) → ends (plift r ts).
Proof. intros Hr. split; [done|]. intros Hs s. destruct r as [|?|m]; simpl; try done. by destruct (Hr Hs m). Qed.

Lemma toFloat_safe v m : calls_safe → toFloat parse_float v ≠ Panic m.
Proof. intros [Hp _]. destruct v; simpl; try done. Qed.

Lemma two_floats_safe text l r f m : calls_safe → (∀ x y, f x y ≠ Panic m) → two_floats parse_float text l r f ≠ Panic m.
Proof.
  intros Hs Hf. unfold two_floats.
  pose proof (toFloat_safe l) as Hl. pose proof (toFloat_safe r) as Hr.
  destruct (toFloat parse_float l), (toFloat parse_float r); try done; naive_solver.
Qed.

Lemma sum_op_safe t l r m : calls_safe → sum_op parse_float t l r ≠ Panic m.
Proof.
  intros Hs. unfold sum_op. destruct (bool_decide _); [|by apply two_floats_safe].
  unfold add_values. destruct l, r; try done; by apply two_floats_safe.
Qed.
Lemma term_op_safe t l r m : calls_safe → term_op parse_float t l r ≠ Panic m.
Proof.
  intros Hs. apply two_floats_safe; [done|]. intros x y. destruct (bool_decide _); [done|]. by destruct (f_eqb _ _).
Qed.
Lemma negate_safe v m : calls_safe → negate parse_float v ≠ Panic m.
Proof. intros Hs. unfold negate. pose proof (toFloat_safe v) as Hv. destruct (toFloat parse_float v); try done. naive_solver. Qed.
Lemma number_value_safe s m : calls_safe → number_value parse_float s ≠ Panic m.
Proof. intros [Hp _]. unfold number_value. specialize (Hp s). destruct (parse_float s); simpl; [done..|by intros [= ->]; apply (Hp m)]. Qed.
Lemma call_function_safe name args m : calls_safe → call_function engine name args ≠ Panic m.
Proof. intros [_ Hc]. unfold call_function. destruct (engine !! name) eqn:He; [|done]. eauto. Qed.

Section levels.
Context (pe : list token → presult value) (Hpe : shrinks pe).

Lemma args_loop_shrinks fuel : shrinks (args_loop pe fuel).
Proof using Hpe.
  induction fuel as [|fuel IH]; intros ts v ts'; simpl; [done|].
  intros (a & ts1 & H1%Hpe & H)%pbind_ok. destruct (bool_decide _).
  - apply pbind_ok in H as (args & ts2 & H2%IH & [= <- <-]). pose proof (length_tail ts1). lia.
  - injection H as <- <-. done.
Qed.

Lemma parse_ident_shrinks name : shrinks (parse_ident engine pe name).
Proof using Hpe.
  intros ts v ts'. unfold parse_ident. pose proof (length_tail ts).
  destruct (bool_decide (name = "true")); [by intros [= <- <-]|].
  destruct (bool_decide (name = "false")); [by intros [= <- <-]|].
  destruct (bool_decide (name = "null") || bool_decide (name = "nil")); [by intros [= <- <-]|].
  destruct (negb _); [done|]. intros (args & ts1 & H1 & H2)%pbind_ok.
  assert (length ts1 ≤ length (tail ts))%nat.
  { unfold parse_args in H1. destruct (bool_decide _); [by injection H1 as <- <-|by apply args_loop_shrinks in H1]. }
  destruct (negb _); [done|]. apply plift_ok in H2 as [_ ->]. pose proof (length_tail ts1). lia.
Qed.

Lemma parsePrimary_shrinks : shrinks (parsePrimary parse_float engine data pe).
Proof using Hpe.
  intros ts v ts'. unfold parsePrimary. pose proof (length_tail ts). destruct (typ (peek ts)); try done.
  - intros [_ ->]%plift_ok. done.
  - by intros [= _ <-].
  - by intros [= _ <-].
  - intros H1%parse_ident_shrinks. lia.
  - intros (v1 & ts1 & H1%Hpe & H2)%pbind_ok. destruct (negb _); [done|]. injection H2 as _ <-.
    pose proof (length_tail ts1). lia.
Qed.

Lemma parseUnary_shrinks : shrinks (parseUnary parse_float engine data pe).
Proof using Hpe.
  intros ts v ts'. unfold parseUnary. destruct (bool_decide _); [|apply parsePrimary_shrinks].
  intros (v1 & ts1 & H1%parsePrimary_shrinks & [_ ->]%plift_ok)%pbind_ok. pose proof (length_tail ts). lia.
Qed.

Lemma term_loop_shrinks fuel left : shrinks (term_loop parse_float engine data pe fuel left).
Proof using Hpe.
  revert left. induction fuel as [|fuel IH]; intros left ts v ts'; cbn [term_loop]; [done|].
  destruct (_ || _); [|by intros [= _ <-]].
  intros (r & ts1 & H1%parseUnary_shrinks & (l & ts2 & [_ ->]%plift_ok & H2%IH)%pbind_ok)%pbind_ok.
  pose proof (length_tail ts). lia.
Qed.

Lemma parseTerm_shrinks : shrinks (parseTerm parse_float engine data pe).
Proof using Hpe.
  intros ts v ts' (l & ts1 & H1%parseUnary_shrinks & H2%term_loop_shrinks)%pbind_ok. lia.
Qed.

Lemma sum_loop_shrinks fuel left : shrinks (sum_loop parse_float engine data pe fuel left).
Proof using Hpe.
  revert left. induction fuel as [|fuel IH]; intros left ts v ts'; cbn [sum_loop]; [done|].
  destruct (_ || _); [|by intros [= _ <-]].
  intros (r & ts1 & H1%parseTerm_shrinks & (l & ts2 & [_ ->]%plift_ok & H2%IH)%pbind_ok)%pbind_ok.
  pose proof (length_tail ts). lia.
Qed.

Lemma parse_sum_shrinks : shrinks (parse_sum parse_float engine data pe).
Proof using Hpe.
  intros ts v ts' (l & ts1 & H1%parseTerm_shrinks & H2%sum_loop_shrinks)%pbind_ok. lia.
Qed.
End levels.

Lemma parseExpression_shrinks fuel : shrinks (parseExpression parse_float engine data fuel).
Proof. induction fuel as [|fuel IH]; [done|]. by apply parse_sum_shrinks. Qed.

Section total.
Context (pe : list token → presult value) (Hpe : shrinks pe) (n : nat)
  (Hn : ∀ ts, (length ts < n)%nat → ends (pe ts)).

#[local] Notation parsePrimary := (parsePrimary parse_float engine data pe).
#[local] Notation parseUnary := (parseUnary parse_float engine data pe).
#[local] Notation parseTerm := (parseTerm parse_float engine data pe).

Lemma args_loop_ends fuel ts : (length ts < n)%nat → (length ts < fuel)%nat → ends (args_loop pe fuel ts).
Proof using Hpe Hn.
  revert ts. induction fuel as [|fuel IH]; intros ts Hts Hf; [lia|]. cbn [args_loop].
  apply ends_bind; [by apply Hn|]. intros a ts1 H1%Hpe. case_bool_decide as Hc; [|done].
  apply ends_bind; [|done]. pose proof (peek_length ts1 ltac:(by rewrite Hc)). apply IH; lia.
Qed.

Lemma parse_ident_ends name ts : (length ts ≤ n)%nat → ends (parse_ident engine pe name ts).
Proof using Hpe Hn.
  intros Hts. unfold parse_ident. do 3 (destruct (bool_decide _); [done|]). simpl.
  destruct (bool_decide (name = "nil")); [done|].
  case_bool_decide as Hp; [|done]. pose proof (peek_length ts ltac:(by rewrite Hp)).
  apply ends_bind.
  - unfold parse_args. case_bool_decide; [done|]. apply args_loop_ends; lia.
  - intros args ts1 _. destruct (negb _); [done|]. apply ends_lift. intros Hs s. by apply call_function_safe.
Qed.

Lemma parsePrimary_ends ts : (length ts ≤ n)%nat → ends (parsePrimary ts).
Proof using Hpe Hn.
  intros Hts. unfold Expression.parsePrimary. pose proof (length_tail ts). pose proof (peek_length ts) as Hp.
  destruct (typ (peek ts)); try done.
  - apply ends_lift. intros Hs s. by apply number_value_safe.
  - apply parse_ident_ends. lia.
  - specialize (Hp ltac:(done)). apply ends_bind; [apply Hn; lia|]. intros v ts1 _. by destruct (negb _).
Qed.

Lemma parseUnary_ends ts : (length ts ≤ n)%nat → ends (parseUnary ts).
Proof using Hpe Hn.
  intros Hts. unfold Expression.parseUnary. destruct (bool_decide _); [|by apply parsePrimary_ends].
  pose proof (length_tail ts). apply ends_bind; [apply parsePrimary_ends; lia|].
  intros v ts1 _. apply ends_lift. intros Hs s. by apply negate_safe.
Qed.

Lemma term_loop_ends fuel left ts : (length ts ≤ n)%nat → (length ts < fuel)%nat →
  ends (term_loop parse_float engine data pe fuel left ts).
Proof using Hpe Hn.
  revert left ts. induction fuel as [|fuel IH]; intros left ts Hts Hf; [lia|]. cbn [term_loop].
  destruct (_ || _) eqn:Hop; [|done].
  assert (typ (peek ts) ≠ tokEOF) as Hne by (intros He; by rewrite He in Hop).
  pose proof (peek_length ts Hne). apply ends_bind; [apply parseUnary_ends; lia|].
  intros r ts1 H1%parseUnary_shrinks; [|done]. apply ends_bind.
  - apply ends_lift. intros Hs s. by apply term_op_safe.
  - intros l ts2 [_ ->]%plift_ok. apply IH; lia.
Qed.

Lemma parseTerm_ends ts : (length ts ≤ n)%nat → ends (parseTerm ts).
Proof using Hpe Hn.
  intros Hts. apply ends_bind; [by apply parseUnary_ends|].
  intros l ts1 H1%parseUnary_shrinks; [|done]. apply term_loop_ends; lia.
Qed.

Lemma sum_loop_ends fuel left ts : (length ts ≤ n)%nat → (length ts < fuel)%nat →
  ends (sum_loop parse_float engine data pe fuel left ts).
Proof using Hpe Hn.
  revert left ts. induction fuel as [|fuel IH]; intros left ts Hts Hf; [lia|]. cbn [sum_loop].
  destruct (_ || _) eqn:Hop; [|done].
  assert (typ (peek ts) ≠ tokEOF) as Hne by (intros He; by rewrite He in Hop).
  pose proof (peek_length ts Hne). apply ends_bind; [apply parseTerm_ends; lia|].
  intros r ts1 H1%parseTerm_shrinks; [|done]. apply ends_bind.
  - apply ends_lift. intros Hs s. by apply sum_op_safe.
  - intros l ts2 [_ ->]%plift_ok. apply IH; lia.
Qed.

Lemma parse_sum_ends ts : (length ts ≤ n)%nat → ends (parse_sum parse_float engine data pe ts).
Proof using Hpe Hn.
  intros Hts. apply ends_bind; [by apply parseTerm_ends|].
  intros l ts1 H1%parseTerm_shrinks; [|done]. apply sum_loop_ends; lia.
Qed.
End total.

Lemma parseExpression_ends fuel ts : (length ts < fuel)%nat →
  ends (parseExpression parse_float engine data fuel ts).
Proof.
  revert ts. induction fuel as [|fuel IH]; intros ts Hts; [lia|].
  apply (parse_sum_ends _ (parseExpression_shrinks fuel) fuel); [done|lia].
Qed.
End ending.

Lemma span_length p rs : (length (span p rs).2 ≤ length rs)%nat.
Proof.
  induction rs as [|r rs IH]; simpl; [lia|]. destruct (p r); simpl; [|lia].
  destruct (span p rs). simpl in *. lia.
Qed.

Lemma string_body_length n q rs body rest : (length rs < n)%nat →
  string_body q rs = Some (body, rest) → (length rest ≤ length rs)%nat.
Proof.
  revert rs body rest. induction n as [|n IH]; intros rs body rest Hn; [lia|].
  destruct rs as [|r rs]; simpl in *; [done|].
  destruct (r =? q); [intros [= <- <-]; lia|]. destruct (r =? 92).
  - destruct rs as [|r2 rs]; [done|]. destruct (string_body q rs) as [[b t]|] eqn:Hb; simpl; [|done].
    intros [= _ <-]. apply IH in Hb; simpl in *; lia.
  - destruct (string_body q rs) as [[b t]|] eqn:Hb; simpl; [|done].
    intros [= _ <-]. apply IH in Hb; lia.
Qed.

Section tokenizer_ends.
Context (uni_letter uni_digit : Z → bool).

Lemma next_token_ends pos prev ch rest : match next_token uni_letter uni_digit pos prev ch rest with
  | Ok (_, rest') => (length rest' ≤ length rest)%nat
  | Err _ => True
  | Panic _ => False
  end.
Proof.
  unfold next_token. destruct (is_space ch); [done|].
  destruct (_ || _).
  { destruct (string_body ch rest) as [[body t]|] eqn:Hb; [|done].
    apply (string_body_length (S (length rest)) ch rest body t); [lia|done]. }
  pose proof (length_tail rest) as Ht. destruct (_ && _).
  { pose proof (span_length (is_field_char uni_letter uni_digit) (tail rest)). destruct (span _ _). simpl in *. lia. }
  destruct (starts_number _ _ _ _) eqn:Hs.
  { destruct (Z.eqb_spec ch 45) as [|Hne].
    - pose proof (span_length (is_number_char uni_digit) rest). by destruct (span _ _).
    - assert (is_number_char uni_digit ch = true) as Hc.
      { unfold starts_number in Hs. unfold is_number_char. destruct (Z.eqb_spec ch 45); [done|].
        simpl in Hs. rewrite orb_false_r in Hs. by rewrite Hs. }
      simpl. rewrite Hc. pose proof (span_length (is_number_char uni_digit) rest). by destruct (span _ _). }
  destruct (is_letter uni_letter ch || (ch =? 95)) eqn:Hl.
  { assert (is_ident_char uni_letter uni_digit ch = true) as Hc.
    { unfold is_ident_char. destruct (is_letter _ ch); [done|]. simpl in *. rewrite Hl. by rewrite orb_true_r. }
    simpl. rewrite Hc. pose proof (span_length (is_ident_char uni_letter uni_digit) rest). by destruct (span _ _). }
  repeat (destruct (ch =? _); [simpl; lia|]). done.
Qed.

Lemma tokenize_loop_ends fuel n prev rs m : (length rs ≤ fuel)%nat →
  tokenize_loop uni_letter uni_digit fuel n prev rs ≠ Panic m.
Proof.
  revert prev rs. induction fuel as [|fuel IH]; intros prev [|ch rest] Hf; simpl in *; try done; [lia|].
  pose proof (next_token_ends (n - Z.pos (Pos.of_succ_nat (length rest))) prev ch rest) as Hn.
  destruct (next_token _ _ _ _ _ _) as [[[t|] rest']|e|s]; simpl; try done; [|apply IH; lia].
  specialize (IH (Some (typ t)) rest' ltac:(lia)).
  destruct (tokenize_loop _ _ fuel n _ rest'); simpl; congruence.
Qed.
End tokenizer_ends.

(** Evaluation of any text ends: the recursion is never deeper than the text
    is long, for any functions, data and Unicode classes; and the engine itself never
    panics, only a function it calls may. *)
Theorem Evaluate_ends parse_float engine data uni_letter uni_digit expr :
  ∃ r, Evaluate parse_float engine data uni_letter uni_digit expr = Some r ∧
    (calls_safe parse_float engine → ∀ m, r ≠ Panic m).
Proof.
  unfold Evaluate. destruct (bool_decide _); [by eexists|].
  destruct (tokenize _ _ _) as [ts|e|m] eqn:Ht; [|by eexists|].
  - pose proof (parseExpression_ends parse_float engine data (S (length ts)) ts ltac:(lia)) as [Hn Hp].
    destruct (parseExpression _ _ _ _ _) as [r|]; [|done]. eexists. split; [done|].
    intros Hs m. specialize (Hp Hs). destruct r as [|?|s]; simpl; try done. by destruct (Hp s).
  - exfalso. eapply (tokenize_loop_ends uni_letter uni_digit _ _ None); [done|exact Ht].
Qed.

(** ** Syntax trees: the specification *)

Inductive op2 := OpAdd | OpSub | OpMul | OpDiv.

Inductive expr :=
| ENum (text : string)
| EStr (s : string)
| EField (path : string)
| EBool (b : bool)
| ENull
| ECall (name : string) (args : list expr)
| ENeg (e : expr)
| EBin (o : op2) (a b : expr).

Section expr_ind.
Context (P : expr → Prop) (Hnum : ∀ s, P (ENum s)) (Hstr : ∀ s, P (EStr s)) (Hfield : ∀ p, P (EField p))
  (Hbool : ∀ b, P (EBool b)) (Hnull : P ENull) (Hcall : ∀ name args, Forall P args → P (ECall name args))
  (Hneg : ∀ e, P e → P (ENeg e)) (Hbin : ∀ o a b, P a → P b → P (EBin o a b)).

Fixpoint expr_ind' (e : expr) : P e :=
  match e with
  | ENum s => Hnum s | EStr s => Hstr s | EField p => Hfield p | EBool b => Hbool b | ENull => Hnull
  | ECall name args =>
      Hcall name args ((fix go l : Forall P l :=
        match l with [] => @Forall_nil _ P | x :: l => @Forall_cons _ P x l (expr_ind' x) (go l) end) args)
  | ENeg e => Hneg e (expr_ind' e)
  | EBin o a b => Hbin o a b (expr_ind' a) (expr_ind' b)
  end.
End expr_ind.

(** Values from left to right, up to the first error. *)
Definition seqM {A B} (f : A → res B) : list A → res (list B) :=
  fix go l := match l with [] => Ok [] | x :: l => y ← f x; ys ← go l; Ok (y :: ys) end.

Definition op_token (o : op2) : token :=
  match o with
  | OpAdd => mkToken tokPlus "+" | OpSub => mkToken tokMinus "-"
  | OpMul => mkToken tokStar "*" | OpDiv => mkToken tokSlash "/"
  end.
Definition is_sum (o : op2) : bool := match o with OpAdd | OpSub => true | _ => false end.

(** How tightly a tree binds: sums 0, products 1, signs 2, the others 3. *)
Definition level (e : expr) : nat :=
  match e with EBin o _ _ => if is_sum o then 0 else 1 | ENeg _ => 2 | _ => 3 end.

Definition lparen : token := mkToken tokLParen "(".
Definition rparen : token := mkToken tokRParen ")".
Definition comma : token := mkToken tokComma ",".

Definition paren (b : bool) (ts : list token) : list token := if b then lparen :: ts ++ [rparen] else ts.

Fixpoint comma_sep (tss : list (list token)) : list token :=
  match tss with
  | [] => []
  | [ts] => ts
  | ts :: tss => ts ++ comma :: comma_sep tss
  end.

(** The concrete syntax, with parentheses only where a weaker tree stands in a
    tighter place; operators group to the left. *)
Fixpoint render (e : expr) : list token :=
  match e with
  | ENum s => [mkToken tokNumber s]
  | EStr s => [mkToken tokString s]
  | EField p => [mkToken tokField p]
  | EBool b => [mkToken tokIdent (if b then "true" else "false")]
  | ENull => [mkToken tokIdent "null"]
  | ECall name args => mkToken tokIdent name :: lparen :: comma_sep (map render args) ++ [rparen]
  | ENeg e => mkToken tokMinus "-" :: paren (level e <? 3)%nat (render e)
  | EBin o a b =>
      let l := if is_sum o then 0%nat else 1%nat in
      paren (level a <? l)%nat (render a) ++ op_token o :: paren (level b <=? l)%nat (render b)
  end.

Fixpoint height (e : expr) : nat :=
  match e with
  | ECall _ args => S (list_max (map height args))
  | ENeg e => S (height e)
  | EBin _ a b => S (Nat.max (height a) (height b))
  | _ => 0
  end.

(** No function bears the name of a literal. *)
Fixpoint names_ok (e : expr) : bool :=
  match e with
  | ECall name args => negb (bool_decide (name ∈ ["true"; "false"; "null"; "nil"])) && forallb names_ok args
  | ENeg e => names_ok e
  | EBin _ a b => names_ok a && names_ok b
  | _ => true
  end.

Section eval.
Context (parse_float : string → res float64) (engine : ExprEngine) (data : obj).

Definition apply_op (o : op2) (l r : value) : res value :=
  if is_sum o then sum_op parse_float (typ (op_token o)) l r else term_op parse_float (typ (op_token o)) l r.

(** The value of a tree: operands and arguments from left to right, then the operation. *)
Fixpoint eval (e : expr) : res value :=
  match e with
  | ENum s => number_value parse_float s
  | EStr s => Ok (VString s)
  | EField p => Ok (resolveField data p)
  | EBool b => Ok (VBool b)
  | ENull => Ok VNil
  | ECall name args => vs ← seqM eval args; call_function engine name vs
  | ENeg e => v ← eval e; negate parse_float v
  | EBin o a b => l ← eval a; r ← eval b; apply_op o l r
  end.
End eval.

(** ** The parser evaluates trees *)

Section refinement.
Context (parse_float : string → res float64) (engine : ExprEngine) (data : obj).

#[local] Notation eval := (eval parse_float engine data).
#[local] Notation parseExpression := (parseExpression parse_float engine data).
#[local] Notation parsePrimary := (parsePrimary parse_float engine data).
#[local] Notation parseUnary := (parseUnary parse_float engine data).
#[local] Notation parseTerm := (parseTerm parse_float engine data).
#[local] Notation parse_sum := (parse_sum parse_float engine data).
#[local] Notation term_loop := (term_loop parse_float engine data).
#[local] Notation sum_loop := (sum_loop parse_float engine data).

Lemma pbind_ext {A B} (m : presult A) (f g : A → list token → presult B) :
  (∀ a ts, m = Some (Ok (a, ts)) → f a ts = g a ts) → pbind m f = pbind m g.
Proof. intros H. destruct m as [[[a ts]|e|s]|]; simpl; auto. Qed.

Lemma pbind_ok_lift {A B} (a : A) ts (f : A → list token → presult B) :
  pbind (plift (Ok a) ts) f = f a ts.
Proof. done. Qed.

Lemma pbind_lift {A B} (r : res A) ts (f : A → res B) :
  pbind (plift r ts) (λ a ts, plift (f a) ts) = plift (r ≫= f) ts.
Proof. by destruct r. Qed.

Definition sum_next (ts : list token) : bool :=
  bool_decide (typ (peek ts) = tokPlus) || bool_decide (typ (peek ts) = tokMinus).
Definition term_next (ts : list token) : bool :=
  bool_decide (typ (peek ts) = tokStar) || bool_decide (typ (peek ts) = tokSlash).

Lemma term_loop_stop pe fuel v ts : term_next ts = false → (0 < fuel)%nat →
  term_loop pe fuel v ts = Some (Ok (v, ts)).
Proof. unfold term_next. intros H ?. destruct fuel; [lia|]. cbn. by rewrite H. Qed.
Lemma sum_loop_stop pe fuel v ts : sum_next ts = false → (0 < fuel)%nat →
  sum_loop pe fuel v ts = Some (Ok (v, ts)).
Proof. unfold sum_next. intros H ?. destruct fuel; [lia|]. cbn. by rewrite H. Qed.

Section levels.
Context (pe : list token → presult value) (Hpe : shrinks pe).

Lemma op_next_length ts (a b : tokenType) : a ≠ tokEOF → b ≠ tokEOF →
  bool_decide (typ (peek ts) = a) || bool_decide (typ (peek ts) = b) = true → (length (tail ts) < length ts)%nat.
Proof. intros Ha Hb H. apply peek_length. intros He. rewrite He in H. by repeat case_bool_decide. Qed.

(** Fuel above the number of tokens does not matter. *)
Lemma term_loop_fuel m m' v ts : (length ts < m)%nat → (length ts < m')%nat →
  term_loop pe m v ts = term_loop pe m' v ts.
Proof using Hpe.
  revert m' v ts. induction m as [|m IH]; intros m' v ts Hm Hm'; [lia|]. destruct m' as [|m']; [lia|].
  cbn [Expression.term_loop]. destruct (_ || _) eqn:Hop; [|done]. apply op_next_length in Hop; [|done..].
  apply pbind_ext. intros r ts1 H1%parseUnary_shrinks; [|done].
  apply pbind_ext. intros l ts2 [_ ->]%plift_ok. apply IH; lia.
Qed.
Lemma sum_loop_fuel m m' v ts : (length ts < m)%nat → (length ts < m')%nat →
  sum_loop pe m v ts = sum_loop pe m' v ts.
Proof using Hpe.
  revert m' v ts. induction m as [|m IH]; intros m' v ts Hm Hm'; [lia|]. destruct m' as [|m']; [lia|].
  cbn [Expression.sum_loop]. destruct (_ || _) eqn:Hop; [|done]. apply op_next_length in Hop; [|done..].
  apply pbind_ext. intros r ts1 H1%parseTerm_shrinks; [|done].
  apply pbind_ext. intros l ts2 [_ ->]%plift_ok. apply IH; lia.
Qed.

(** From a tighter level to the next weaker one. *)
Lemma primary_unary ts : typ (peek ts) ≠ tokMinus → parseUnary pe ts = parsePrimary pe ts.
Proof. intros H. unfold Expression.parseUnary. by rewrite bool_decide_false. Qed.

Lemma unary_term X (r : res value) ts m : parseUnary pe X = plift r ts → (length ts < m)%nat →
  parseTerm pe X = pbind (plift r ts) (term_loop pe m).
Proof using Hpe.
  intros H Hm. unfold Expression.parseTerm. rewrite H. apply pbind_ext. intros l ts' [_ ->]%plift_ok.
  apply term_loop_fuel; lia.
Qed.

Lemma term_sum X (r : res value) ts m m' : parseTerm pe X = pbind (plift r ts) (term_loop pe m') →
  (0 < m')%nat → term_next ts = false → (length ts < m)%nat →
  parse_sum pe X = pbind (plift r ts) (sum_loop pe m).
Proof using Hpe.
  intros H Hm' Hno Hm. unfold Expression.parse_sum. rewrite H.
  destruct r as [v|e|s]; [|done..]. rewrite !pbind_ok_lift, term_loop_stop by done. cbn [pbind].
  apply sum_loop_fuel; lia.
Qed.
End levels.

(** Reading the syntax of [e] (in parentheses if [b]) at each level. *)
Definition reads_primary (pe : list token → presult value) (b : bool) (e : expr) : Prop := ∀ ts,
  typ (peek (paren b (render e) ++ ts)) ≠ tokMinus ∧
  parsePrimary pe (paren b (render e) ++ ts) = plift (eval e) ts.
Definition reads_unary (pe : list token → presult value) (b : bool) (e : expr) : Prop := ∀ ts,
  parseUnary pe (paren b (render e) ++ ts) = plift (eval e) ts.
Definition reads_term (pe : list token → presult value) (b : bool) (e : expr) : Prop := ∀ ts m,
  (length ts < m)%nat → parseTerm pe (paren b (render e) ++ ts) = pbind (plift (eval e) ts) (term_loop pe m).
Definition reads_sum (pe : list token → presult value) (b : bool) (e : expr) : Prop := ∀ ts m,
  (length ts < m)%nat → term_next ts = false →
  parse_sum pe (paren b (render e) ++ ts) = pbind (plift (eval e) ts) (sum_loop pe m).

(** What holds of a tree without parentheses at its own level. *)
Definition reads_own (e : expr) : Prop := ∀ n, (height e ≤ n)%nat →
  let pe := parseExpression n in
  match level e with
  | 0 => reads_sum pe false e
  | 1 => reads_term pe false e
  | 2 => reads_unary pe false e
  | _ => reads_primary pe false e
  end%nat.

Lemma reads_primary_unary pe b e : reads_primary pe b e → reads_unary pe b e.
Proof. intros H ts. destruct (H ts) as [Hm Hp]. by rewrite primary_unary. Qed.
Lemma reads_unary_term n b e : reads_unary (parseExpression n) b e → reads_term (parseExpression n) b e.
Proof. intros H ts m Hm. apply unary_term; [apply parseExpression_shrinks|apply H|done]. Qed.
Lemma reads_term_sum n b e : reads_term (parseExpression n) b e → reads_sum (parseExpression n) b e.
Proof.
  intros H ts m Hm Hno. apply (term_sum _ (parseExpression_shrinks _ _ _ n) _ _ _ _ m); [by apply H|lia|done|done].
Qed.

Lemma level_le e : (level e ≤ 3)%nat.
Proof. destruct e as [| | | | | | |o ? ?]; simpl; try lia. destruct (is_sum o); lia. Qed.

#[local] Hint Resolve reads_primary_unary reads_unary_term reads_term_sum : core.

(** Without parentheses at a level not tighter than its own. *)
Lemma reads_weaker e n : reads_own e → (height e ≤ n)%nat →
  let pe := parseExpression n in
  reads_sum pe false e ∧ ((1 ≤ level e)%nat → reads_term pe false e) ∧
  ((2 ≤ level e)%nat → reads_unary pe false e) ∧ ((3 ≤ level e)%nat → reads_primary pe false e).
Proof.
  intros Ho Hn pe. specialize (Ho n Hn). pose proof (level_le e). simpl in Ho. subst pe.
  destruct (level e) as [|[|[|[|]]]]; [..|lia]; split_and!; intros; first [lia|eauto 6].
Qed.

(** A whole expression, when the token after it continues no sum or product. *)
Lemma reads_expression e n ts : reads_own e → (height e ≤ n)%nat →
  sum_next ts = false → term_next ts = false →
  parseExpression (S n) (render e ++ ts) = plift (eval e) ts.
Proof.
  intros Ho Hn Hs Ht. destruct (reads_weaker e n Ho Hn) as [Hsum _].
  cbn [Expression.parseExpression].
  change (render e ++ ts) with (paren false (render e) ++ ts). rewrite (Hsum ts (S (length ts))) by (done || lia).
  destruct (eval e); [|done..]. rewrite pbind_ok_lift. apply sum_loop_stop; [done|lia].
Qed.

(** In parentheses it can stand anywhere. *)
Lemma reads_paren e n : reads_own e → (height e < n)%nat → reads_primary (parseExpression n) true e.
Proof.
  intros Ho Hn ts. split; [done|]. destruct n as [|n]; [lia|]. unfold Expression.parsePrimary.
  cbn [paren app peek lparen typ tail]. rewrite <-app_assoc. rewrite reads_expression by (done || lia).
  by destruct (eval e).
Qed.

(** Operands: parentheses exactly where they are needed. *)
Lemma reads_operand e n : reads_own e → (height e < n)%nat →
  let pe := parseExpression n in
  reads_term pe (level e <? 1)%nat e ∧ reads_unary pe (level e <? 2)%nat e ∧
  reads_primary pe (level e <? 3)%nat e.
Proof.
  intros Ho Hn pe. destruct (reads_weaker e n Ho ltac:(lia)) as (_ & H1 & H2 & H3).
  pose proof (reads_paren e n Ho Hn) as Hp. subst pe.
  split_and!; match goal with |- context [(?a <? ?b)%nat] => destruct (Nat.ltb_spec a b) end; eauto.
Qed.

(** ** Every tree is read *)

Lemma render_head e ts : let t := typ (peek (render e ++ ts)) in
  t ≠ tokRParen ∧ t ≠ tokComma ∧ ((3 ≤ level e)%nat → t ≠ tokMinus).
Proof.
  revert ts. induction e as [| | | | | | |o a b IHa _] using expr_ind'; intros ts; simpl; try (split_and!; (done || lia)).
  rewrite <-app_assoc. destruct (level a <? _)%nat; simpl.
  - by split_and!.
  - destruct (IHa ((op_token o :: paren (level b <=? (if is_sum o then 0 else 1))%nat (render b)) ++ ts)) as (H1 & H2 & _).
    split_and!; [done..|]. destruct (is_sum o); lia.
Qed.

(** The tokens of non-empty arguments and the closing parenthesis. *)
Lemma args_read n (args : list expr) ts fuel :
  args ≠ [] → Forall reads_own args → Forall (λ a, height a < n)%nat args →
  (length (comma_sep (map render args)) < fuel)%nat →
  args_loop (parseExpression n) fuel (comma_sep (map render args) ++ rparen :: ts) =
    plift (seqM eval args) (rparen :: ts).
Proof.
  revert fuel. induction args as [|a args IH]; intros fuel Hne Hown Hh Hf; [done|].
  apply list.Forall_cons in Hown as [Ha Hown]. apply list.Forall_cons in Hh as [Hha Hh].
  destruct n as [|n]; [lia|]. destruct fuel as [|fuel]; [lia|]. cbn [args_loop map seqM].
  destruct args as [|a' args].
  - cbn [comma_sep map]. rewrite reads_expression by (done || lia).
    destruct (eval a) as [v|e|s]; [|done..]. by rewrite pbind_ok_lift.
  - change (comma_sep (render a :: map render (a' :: args)))
      with (render a ++ comma :: comma_sep (map render (a' :: args))).
    rewrite <-app_assoc, <-app_comm_cons, reads_expression by (done || lia).
    destruct (eval a) as [v|e|s]; [|done..]. rewrite pbind_ok_lift. cbn [peek typ comma tail].
    rewrite bool_decide_true by done. rewrite IH; [|done..|].
    + cbn [mbind outcome_bind]. by destruct (seqM eval (a' :: args)).
    + change (comma_sep (map render (a :: a' :: args)))
        with (render a ++ comma :: comma_sep (map render (a' :: args))) in Hf.
      rewrite length_app, length_cons in Hf. lia.
Qed.

Lemma parse_args_read n (args : list expr) ts :
  Forall reads_own args → Forall (λ a, height a < n)%nat args →
  parse_args (parseExpression n) (comma_sep (map render args) ++ rparen :: ts) =
    plift (seqM eval args) (rparen :: ts).
Proof.
  intros Hown Hh. unfold parse_args. destruct args as [|a args]; [done|].
  assert (∃ ts', comma_sep (map render (a :: args)) ++ rparen :: ts = render a ++ ts') as [ts' Heq].
  { destruct args; simpl; [by eexists|]. rewrite <-app_assoc. by eexists. }
  rewrite bool_decide_false.
  - apply args_read; [done..|]. rewrite length_app. simpl. lia.
  - rewrite Heq. apply render_head.
Qed.

Lemma list_max_lt l n : (S (list_max l) ≤ n)%nat → Forall (λ x, x < n)%nat l.
Proof. induction l as [|x l IH]; simpl; intros H; [done|]. constructor; [lia|]. apply IH. lia. Qed.

Lemma reads_call name args : names_ok (ECall name args) = true → Forall reads_own args →
  reads_own (ECall name args).
Proof.
  intros Hname Hown n Hh pe ts. subst pe. split; [done|]. cbn [height] in Hh. apply list_max_lt in Hh.
  apply Forall_map in Hh. unfold Expression.parsePrimary. cbn [paren render app peek typ val tail].
  apply andb_true_iff in Hname as [Hname _]. apply negb_true_iff, bool_decide_eq_false in Hname.
  unfold parse_ident. rewrite !(bool_decide_false (name = _)) by set_solver. cbn [orb peek typ lparen].
  rewrite bool_decide_true by done. cbn [negb tail]. rewrite <-app_assoc. cbn [app].
  rewrite parse_args_read by done. cbn [Expression.eval].
  destruct (seqM eval args); [|done..]. by rewrite pbind_ok_lift.
Qed.

Lemma reads_bin o a b : reads_own a → reads_own b → reads_own (EBin o a b).
Proof.
  intros Ha Hb n Hh. cbn [height] in Hh.
  destruct (reads_operand a n Ha ltac:(lia)) as (Hta & _ & _).
  destruct (reads_operand b n Hb ltac:(lia)) as (Htb & Hub & _).
  destruct (reads_weaker a n Ha ltac:(lia)) as (Hsa & _).
  pose proof (parseExpression_shrinks parse_float engine data n) as Hsh.
  cbn [level]. destruct (is_sum o) eqn:Ho; simpl; intros ts m Hm; [intros Hno|]; cbn [paren render];
    rewrite Ho, <-app_assoc; cbn [app].
  - assert (∃ k, (length (paren (level b <=? 0)%nat (render b) ++ ts) < k)%nat) as [k Hk]
      by (eexists; apply Nat.lt_succ_diag_r).
    rewrite (Hsa _ (S k)) by (simpl; first [lia|by destruct o]).
    cbn [Expression.eval]. destruct (eval a) as [l|e|s]; [|done..]. rewrite pbind_ok_lift.
    cbn [Expression.sum_loop peek typ tail].
    assert (bool_decide (typ (op_token o) = tokPlus) || bool_decide (typ (op_token o) = tokMinus) = true)
      as -> by (by destruct o).
    change (level b <=? 0)%nat with (level b <? 1)%nat. rewrite (Htb ts (S (length ts))) by lia.
    cbn [mbind outcome_bind]. destruct (eval b) as [r|e|s]; [|done..].
    rewrite pbind_ok_lift, term_loop_stop by (done || lia). cbn [pbind].
    unfold apply_op. rewrite Ho. apply pbind_ext. intros v ts' [_ ->]%plift_ok.
    apply (sum_loop_fuel _ Hsh); [|lia]. rewrite length_app in Hk.
    eapply Nat.le_lt_trans; [apply Nat.le_add_l|exact Hk].
  - change (level b <=? 1)%nat with (level b <? 2)%nat.
    assert (∃ k, (length (paren (level b <? 2)%nat (render b) ++ ts) < k)%nat) as [k Hk]
      by (eexists; apply Nat.lt_succ_diag_r).
    rewrite (Hta _ (S k)) by (simpl; lia).
    cbn [Expression.eval]. destruct (eval a) as [l|e|s]; [|done..]. rewrite pbind_ok_lift.
    cbn [Expression.term_loop peek typ tail].
    assert (bool_decide (typ (op_token o) = tokStar) || bool_decide (typ (op_token o) = tokSlash) = true)
      as -> by (by destruct o).
    rewrite (Hub ts). cbn [mbind outcome_bind]. destruct (eval b) as [r|e|s]; [|done..].
    rewrite pbind_ok_lift. unfold apply_op. rewrite Ho. apply pbind_ext. intros v ts' [_ ->]%plift_ok.
    apply (term_loop_fuel _ Hsh); [|lia]. rewrite length_app in Hk.
    eapply Nat.le_lt_trans; [apply Nat.le_add_l|exact Hk].
Qed.

Lemma reads_neg e : reads_own e → reads_own (ENeg e).
Proof.
  intros He n Hh pe ts. subst pe. cbn [height] in Hh. destruct (reads_operand e n He ltac:(lia)) as (_ & _ & Hp).
  destruct (Hp ts) as [_ Hp']. cbn [paren render app]. unfold Expression.parseUnary. cbn [peek typ tail].
  rewrite bool_decide_true by done. rewrite Hp'. apply pbind_lift.
Qed.

Lemma reads_all e : names_ok e = true → reads_own e.
Proof.
  induction e as [s|s|p|b| |name args IH|e IH|o a b IHa IHb] using expr_ind'; intros Hn.
  1-5: intros n _ pe ts; (split; [done|]); try done; by destruct b.
  - apply reads_call; [done|]. apply andb_true_iff in Hn as [_ Hn].
    rewrite forallb_forall in Hn. apply list.Forall_forall. intros a Ha.
    rewrite list.Forall_forall in IH. apply IH; [done|]. apply Hn. by apply list_elem_of_In.
  - by apply reads_neg, IH.
  - apply andb_true_iff in Hn as [Ha Hb]. apply reads_bin; auto.
Qed.

(** Trees are no deeper than they are long. *)
Lemma paren_length b ts : (length ts ≤ length (paren b ts))%nat.
Proof. destruct b; simpl; rewrite ?length_app; lia. Qed.

Lemma comma_sep_length tss ts : ts ∈ tss → (length ts ≤ length (comma_sep tss))%nat.
Proof.
  induction tss as [|ts1 tss IH]; intros Hin; [by apply not_elem_of_nil in Hin|].
  destruct tss as [|ts2 tss].
  - apply list_elem_of_singleton in Hin as ->. done.
  - change (comma_sep (ts1 :: ts2 :: tss)) with (ts1 ++ comma :: comma_sep (ts2 :: tss)).
    rewrite length_app, length_cons. apply elem_of_cons in Hin as [->|Hin]; [lia|].
    specialize (IH Hin). lia.
Qed.

Lemma height_length e : (height e < length (render e))%nat.
Proof.
  induction e as [| | | | |name args IH|e IH|o a b IHa IHb] using expr_ind'; simpl; try lia.
  - rewrite length_app. simpl.
    assert (list_max (map height args) ≤ length (comma_sep (map render args)))%nat; [|lia].
    apply list_max_le, list.Forall_forall. intros h (a & -> & Ha)%list_elem_of_fmap.
    rewrite list.Forall_forall in IH. specialize (IH a Ha).
    pose proof (comma_sep_length (map render args) (render a) (list_elem_of_fmap_2 render args a Ha)). lia.
  - pose proof (paren_length (level e <? 3)%nat (render e)). lia.
  - rewrite length_app. simpl. set (l := if is_sum o then 0%nat else 1%nat).
    pose proof (paren_length (level a <? l)%nat (render a)). pose proof (paren_length (level b <=? l)%nat (render b)).
    lia.
Qed.

(** From the tokens of any tree, followed by anything that does not continue a sum or
    product, the parser computes the value of the tree (or the error of the tree, the
    first from the left) and stops right after it. *)
Lemma parseExpression_refines e ts fuel :
  names_ok e = true → sum_next ts = false → term_next ts = false →
  (length (render e ++ ts) < fuel)%nat →
  parseExpression fuel (render e ++ ts) = plift (eval e) ts.
Proof.
  intros Hn Hs Ht Hf. destruct fuel as [|fuel]; [lia|]. rewrite length_app in Hf.
  apply reads_expression; [by apply reads_all| |done|done]. pose proof (height_length e). lia.
Qed.
End refinement.
