(* ===== verification/ExprText.v ===== *)
(** * The text of mapping expressions

    The concrete text of a syntax tree: its tokens separated by spaces.  The tokenizer
    reads it back, so the whole engine ([Evaluate]) computes the value of the tree.  The
    texts are ASCII. *)

From Stdlib Require Import Ascii.
From S2P Require Import Prelude GoStrings Errors Float Value ExprFuncs Expression.

(** ** ASCII strings *)

Lemma codes_ascii s : Forall is_ascii (bytes_of s) → codes s = byte_codes s.
Proof. intros H. unfold codes, byte_codes. rewrite runes_ascii by done. by rewrite map_map. Qed.

Lemma string_of_byte_codes s : Forall is_ascii (bytes_of s) → string_of_codes (byte_codes s) = s.
Proof.
  intros H. unfold string_of_codes, byte_codes. rewrite map_map.
  rewrite <-(of_bytes_of s) at 2. f_equal. induction H as [|c bs Hc _ IH]; simpl; [done|].
  rewrite encode_ascii by done. simpl. by rewrite IH.
Qed.

(** ** The text of tokens *)

Definition tok_text (t : token) : string :=
  match typ t with
  | tokString => "'" +:+ val t +:+ "'"
  | tokField => "$." +:+ val t
  | _ => val t
  end.

Definition print (ts : list token) : string := String.concat " " (map tok_text ts).

Definition ascii_letter (r : Z) : bool := (65 <=? r) && (r <=? 90) || (97 <=? r) && (r <=? 122).
Definition ascii_digit (r : Z) : bool := (48 <=? r) && (r <=? 57).
Definition ascii_ident (r : Z) : bool := ascii_letter r || ascii_digit r || (r =? 95).

(** Texts that a token of the type can have. *)
Definition tok_ok (t : token) : bool :=
  let cs := byte_codes (val t) in
  match typ t with
  | tokNumber => match cs with c :: _ => ascii_digit c | [] => false end
                 && forallb (λ r, ascii_digit r || (r =? 46)) cs
  | tokString => forallb (λ r, (r <? 128) && negb (r =? 39) && negb (r =? 92)) cs
  | tokField => forallb (λ r, ascii_ident r || (r =? 46) || (r =? 91) || (r =? 93)) cs
  | tokIdent => match cs with c :: _ => ascii_letter c || (c =? 95) | [] => false end && forallb ascii_ident cs
  | tokEOF => false
  | tokLParen => bool_decide (val t = "(") | tokRParen => bool_decide (val t = ")")
  | tokComma => bool_decide (val t = ",")
  | tokPlus => bool_decide (val t = "+") | tokMinus => bool_decide (val t = "-")
  | tokStar => bool_decide (val t = "*") | tokSlash => bool_decide (val t = "/")
  end.

(** Trees whose names and literals have the lexical form of their tokens. *)
Fixpoint lexical (e : expr) : bool :=
  match e with
  | ENum s => tok_ok (mkToken tokNumber s)
  | EStr s => tok_ok (mkToken tokString s)
  | EField p => tok_ok (mkToken tokField p)
  | EBool _ | ENull => true
  | ECall name args => tok_ok (mkToken tokIdent name) && forallb lexical args
  | ENeg e => lexical e
  | EBin _ a b => lexical a && lexical b
  end.

Lemma forallb_Forall {A} (f : A → bool) l : forallb f l = true → Forall (λ x, f x = true) l.
Proof. intros H. apply Forall_forall. by apply forallb_forall. Qed.

Lemma tok_ok_ascii t : tok_ok t = true → Forall is_ascii (bytes_of (tok_text t)).
Proof.
  assert (∀ f, (∀ r, f r = true → r < 128) → forallb f (byte_codes (val t)) = true → Forall is_ascii (bytes_of (val t)))
    as Hall.
  { intros f Hf H%forallb_Forall. unfold byte_codes in H. apply Forall_map in H.
    apply (list.Forall_impl _ _ _ H). intros c Hc. specialize (Hf _ Hc). unfold is_ascii.
    by destruct (Z.ltb_spec (byte_val c) 128); [|lia]. }
  unfold tok_ok, tok_text, ascii_ident, ascii_letter, ascii_digit in *. destruct (typ t); intros H;
    try (apply bool_decide_eq_true in H as ->; by repeat constructor); [..|done].
  - apply andb_true_iff in H as [_ H]. eapply Hall; [|exact H]. intros r Hr; cbv beta in Hr; lia.
  - rewrite !bytes_of_app. apply list.Forall_app. split; [by repeat constructor|].
    apply list.Forall_app. split; [|by repeat constructor]. eapply Hall; [|exact H]. intros r Hr; cbv beta in Hr; lia.
  - rewrite bytes_of_app. apply list.Forall_app. split; [by repeat constructor|].
    eapply Hall; [|exact H]. intros r Hr; cbv beta in Hr; lia.
  - apply andb_true_iff in H as [_ H]. eapply Hall; [|exact H]. intros r Hr; cbv beta in Hr; lia.
Qed.

(** ** The tokenizer reads the text back *)

(** The end of the text, or a space. *)
Definition at_gap (rest : list Z) : Prop := rest = [] ∨ ∃ rest', rest = 32 :: rest'.

Lemma span_gap p xs rest : Forall (λ r, p r = true) xs → p 32 = false → at_gap rest →
  span p (xs ++ rest) = (xs, rest).
Proof.
  intros Hxs H32 Hgap. induction Hxs as [|x xs Hx _ IH]; simpl.
  - destruct Hgap as [->|[rest' ->]]; simpl; [done|]. by rewrite H32.
  - by rewrite Hx, IH.
Qed.

Lemma string_body_read xs rest :
  Forall (λ r, (r <? 128) && negb (r =? 39) && negb (r =? 92) = true) xs →
  string_body 39 (xs ++ 39 :: rest) = Some (xs, rest).
Proof.
  induction 1 as [|x xs Hx _ IH]; [done|]. cbn [app string_body].
  destruct (Z.eqb_spec x 39); [lia|]. destruct (Z.eqb_spec x 92); [lia|]. by rewrite IH.
Qed.

Lemma byte_codes_cons c s : byte_codes (String c s) = byte_val c :: byte_codes s.
Proof. done. Qed.
Lemma byte_codes_app a b : byte_codes (a +:+ b) = byte_codes a ++ byte_codes b.
Proof. unfold byte_codes. rewrite bytes_of_app. apply map_app. Qed.

Section tokens.
Context (uni_letter uni_digit : Z → bool).
#[local] Notation next_token := (next_token uni_letter uni_digit).
#[local] Notation tokenize_loop := (tokenize_loop uni_letter uni_digit).

(** The token whose text begins with [ch] and goes on with [more]. *)
Definition scans (t : token) : Prop := ∀ pos prev ch more rest,
  byte_codes (tok_text t) = ch :: more → at_gap rest →
  next_token pos prev ch (more ++ rest) = Ok (Some t, rest).

Lemma ascii_chars r :
  (ascii_digit r = true → is_digit uni_digit r = true) ∧
  (ascii_letter r = true → is_letter uni_letter r = true) ∧
  (ascii_ident r = true → is_ident_char uni_letter uni_digit r = true).
Proof.
  unfold is_ident_char, is_letter, is_digit, ascii_ident, ascii_letter, ascii_digit.
  destruct (Z.ltb_spec r 128); split_and!; intros; try lia.
Qed.

Lemma scans_number s : tok_ok (mkToken tokNumber s) = true → scans (mkToken tokNumber s).
Proof.
  intros Hok pos prev ch more rest Hcs Hgap.
  pose proof (tok_ok_ascii _ Hok) as Hascii. unfold tok_text in *. cbn [typ val] in *.
  unfold tok_ok in Hok. cbn [typ val] in Hok. rewrite Hcs in Hok. apply andb_true_iff in Hok as [Hd Hall].
  apply forallb_Forall in Hall. unfold Expression.next_token.
  assert (is_space ch = false) as -> by (unfold is_space, ascii_digit in *; lia).
  assert ((ch =? 34) || (ch =? 39) = false) as -> by (unfold ascii_digit in *; lia).
  assert ((ch =? 36) = false) as -> by (unfold ascii_digit in *; lia).
  unfold starts_number. destruct (ascii_chars ch) as (Hdig & _ & _). rewrite Hdig by done. cbn [andb orb].
  assert ((ch =? 45) = false) as -> by (unfold ascii_digit in *; lia).
  change (ch :: more ++ rest) with ((ch :: more) ++ rest). rewrite span_gap; [|..|done].
  - by rewrite <-Hcs, string_of_byte_codes.
  - apply (list.Forall_impl _ _ _ Hall). intros r Hr. unfold is_number_char.
    destruct (ascii_chars r) as (Hdr & _ & _). destruct (ascii_digit r); [by rewrite Hdr|].
    simpl in Hr. rewrite Hr. apply orb_true_r.
  - done.
Qed.

Lemma scans_string s : tok_ok (mkToken tokString s) = true → scans (mkToken tokString s).
Proof.
  intros Hok pos prev ch more rest Hcs Hgap.
  pose proof (tok_ok_ascii _ Hok) as Hascii. unfold tok_text in *. cbn [typ val] in *.
  unfold tok_ok in Hok. cbn [typ val] in Hok. apply forallb_Forall in Hok.
  change ("'" +:+ s +:+ "'") with (String "'" (s +:+ "'")) in Hcs.
  rewrite byte_codes_cons, byte_codes_app in Hcs. injection Hcs as <- <-.
  rewrite bytes_of_app in Hascii. apply list.Forall_app in Hascii as [_ Hascii].
  rewrite bytes_of_app in Hascii. apply list.Forall_app in Hascii as [Hascii _].
  unfold Expression.next_token. change (is_space (byte_val "'")) with false. cbn [orb].
  change (byte_val "'" =? 34) with false. change (byte_val "'" =? 39) with true. cbn [orb].
  rewrite <-app_assoc. change (byte_val "'") with 39. change (byte_codes "'" ++ rest) with (39 :: rest).
  rewrite (string_body_read (byte_codes s)) by done.
  by rewrite string_of_byte_codes.
Qed.

Lemma scans_field s : tok_ok (mkToken tokField s) = true → scans (mkToken tokField s).
Proof.
  intros Hok pos prev ch more rest Hcs Hgap.
  pose proof (tok_ok_ascii _ Hok) as Hascii. unfold tok_text in *. cbn [typ val] in *.
  unfold tok_ok in Hok. cbn [typ val] in Hok. apply forallb_Forall in Hok.
  change ("$." +:+ s) with (String "$" (String "." s)) in Hcs.
  rewrite !byte_codes_cons in Hcs. injection Hcs as <- <-.
  rewrite bytes_of_app in Hascii. apply list.Forall_app in Hascii as [_ Hascii].
  unfold Expression.next_token. change (is_space (byte_val "$")) with false.
  change ((byte_val "$" =? 34) || (byte_val "$" =? 39)) with false.
  change ((byte_val "$" =? 36) && (byte_val "." =? 46)) with true. cbn [app tail andb].
  change (byte_val "$" =? 36) with true. change (byte_val "." =? 46) with true. cbn [andb].
  rewrite span_gap; [|..|done].
  - by rewrite string_of_byte_codes.
  - apply (list.Forall_impl _ _ _ Hok). intros r Hr. unfold is_field_char.
    destruct (ascii_chars r) as (_ & _ & Hi). destruct (ascii_ident r); [by rewrite Hi|].
    simpl in Hr. destruct (is_ident_char _ _ r); done.
  - done.
Qed.

Lemma scans_ident s : tok_ok (mkToken tokIdent s) = true → scans (mkToken tokIdent s).
Proof.
  intros Hok pos prev ch more rest Hcs Hgap.
  pose proof (tok_ok_ascii _ Hok) as Hascii. unfold tok_text in *. cbn [typ val] in *.
  unfold tok_ok in Hok. cbn [typ val] in Hok. rewrite Hcs in Hok. apply andb_true_iff in Hok as [Hd Hall].
  apply forallb_Forall in Hall. unfold Expression.next_token.
  assert (is_space ch = false) as -> by (unfold is_space, ascii_letter in *; lia).
  assert ((ch =? 34) || (ch =? 39) = false) as -> by (unfold ascii_letter in *; lia).
  assert ((ch =? 36) = false) as -> by (unfold ascii_letter in *; lia). cbn [andb].
  assert (starts_number uni_digit prev ch (more ++ rest) = false) as ->.
  { unfold starts_number, is_digit, ascii_letter in *. destruct (Z.ltb_spec ch 128); lia. }
  assert (is_letter uni_letter ch || (ch =? 95) = true) as ->.
  { destruct (ascii_chars ch) as (_ & Hl & _). destruct (ascii_letter ch); [by rewrite Hl|].
    simpl in Hd. rewrite Hd. apply orb_true_r. }
  change (ch :: more ++ rest) with ((ch :: more) ++ rest). rewrite span_gap; [|..|done].
  - by rewrite <-Hcs, string_of_byte_codes.
  - apply (list.Forall_impl _ _ _ Hall). intros r Hr. by apply ascii_chars.
  - done.
Qed.

(** A sign before a gap is an operator, whatever comes before it. *)
Lemma scans_symbol ty c : tok_ok (mkToken ty (String c "")) = true →
  ty ∉ [tokNumber; tokString; tokField; tokIdent] → scans (mkToken ty (String c "")).
Proof.
  intros Hok Hty pos prev ch more rest Hcs Hgap.
  assert (starts_number uni_digit prev 45 rest = false) as H45.
  { unfold starts_number. destruct Hgap as [->|[rest' ->]]; done. }
  destruct ty; try (by destruct Hty; set_solver); unfold tok_ok in Hok; cbn [typ val] in Hok; try done;
    apply bool_decide_eq_true in Hok; injection Hok as ->; injection Hcs as <- <-; cbn [app];
    unfold Expression.next_token; try (by simpl).
  change (byte_val "-") with 45. rewrite H45. by simpl.
Qed.

Lemma scans_ok t : tok_ok t = true → scans t.
Proof.
  destruct t as [ty s]. intros Hok.
  destruct ty; auto using scans_number, scans_string, scans_field, scans_ident; try done.
  all: assert (∃ c, s = String c "") as [c ->]
      by (unfold tok_ok in Hok; cbn [typ val] in Hok; apply bool_decide_eq_true in Hok as ->; by eexists).
  all: apply scans_symbol; [done|set_solver].
Qed.

Lemma tok_text_cons t : tok_ok t = true → ∃ ch more, byte_codes (tok_text t) = ch :: more.
Proof.
  unfold tok_ok, tok_text. cbv zeta. destruct (typ t); intros H;
    lazymatch type of H with
    | false = true => discriminate H
    | bool_decide _ = true => apply bool_decide_eq_true in H as ->; by eexists _, _
    | _ && _ = true => destruct (byte_codes (val t)); [discriminate H|by eexists _, _]
    | _ => idtac
    end.
  - by exists 39, (byte_codes (val t +:+ "'")).
  - by exists 36, (byte_codes ("." +:+ val t)).
Qed.

Lemma print_cons t t' ts :
  byte_codes (print (t :: t' :: ts)) = byte_codes (tok_text t) ++ 32 :: byte_codes (print (t' :: ts)).
Proof.
  change (print (t :: t' :: ts)) with (tok_text t +:+ " " +:+ print (t' :: ts)).
  by rewrite !byte_codes_app.
Qed.

Lemma tokenize_loop_print ts fuel n prev : Forall (λ t, tok_ok t = true) ts →
  (length (byte_codes (print ts)) ≤ fuel)%nat →
  tokenize_loop fuel n prev (byte_codes (print ts)) = Ok (ts ++ [token_EOF]).
Proof.
  revert fuel prev. induction ts as [|t ts IH]; intros fuel prev Hok Hf.
  { by destruct fuel. }
  apply list.Forall_cons in Hok as [Ht Hts]. destruct (tok_text_cons t Ht) as (ch & more & Htext).
  assert (∃ rest, byte_codes (print (t :: ts)) = ch :: more ++ rest ∧ at_gap rest ∧
    ∀ fuel prev, (length rest ≤ fuel)%nat → tokenize_loop fuel n prev rest = Ok (ts ++ [token_EOF]))
    as (rest & Heq & Hgap & Hrest).
  { destruct ts as [|t' ts].
    - exists []. split_and!; [|by left|intros [|fuel'] ? _; done]. rewrite app_nil_r. exact Htext.
    - exists (32 :: byte_codes (print (t' :: ts))). split_and!; [|right; by eexists|].
      + by rewrite print_cons, Htext.
      + intros [|fuel'] prev' Hf'; simpl in Hf'; [lia|]. apply (IH fuel' prev'); [done|]. lia. }
  rewrite Heq in Hf |- *. destruct fuel as [|fuel]; simpl in Hf; [lia|].
  cbn [Expression.tokenize_loop]. rewrite (scans_ok t Ht _ prev ch more rest Htext Hgap).
  cbn [mbind outcome_bind]. rewrite length_app in Hf. by rewrite Hrest by lia.
Qed.

Lemma print_ascii ts : Forall (λ t, tok_ok t = true) ts → Forall is_ascii (bytes_of (print ts)).
Proof.
  induction 1 as [|t ts Ht Hts IH]; [constructor|]. pose proof (tok_ok_ascii t Ht).
  destruct ts as [|t' ts]; [done|].
  change (print (t :: t' :: ts)) with (tok_text t +:+ " " +:+ print (t' :: ts)).
  rewrite !bytes_of_app. apply list.Forall_app. split; [done|]. apply list.Forall_app. split; [|done].
  by repeat constructor.
Qed.

Lemma tokenize_print ts : Forall (λ t, tok_ok t = true) ts →
  tokenize uni_letter uni_digit (print ts) = Ok (ts ++ [token_EOF]).
Proof.
  intros Hok. unfold tokenize. rewrite codes_ascii by (by apply print_ascii).
  by apply tokenize_loop_print.
Qed.
End tokens.

(** The text of a token neither begins nor ends with a space. *)
Lemma tok_text_ends t c : tok_ok t = true →
  head (bytes_of (tok_text t)) = Some c ∨ list.last (bytes_of (tok_text t)) = Some c →
  is_space (byte_val c) = false.
Proof.
  assert (Hall : ∀ f bs, (∀ r, f r = true → is_space r = false) → forallb f (map byte_val bs) = true →
    head bs = Some c ∨ list.last bs = Some c → is_space (byte_val c) = false).
  { intros f bs Hf H%forallb_Forall Hc. apply Forall_map in H. apply Hf.
    rewrite list.Forall_forall in H. apply (H c).
    destruct Hc as [Hc|Hc]; [by apply head_Some_elem_of|by apply last_Some_elem_of]. }
  unfold tok_ok, tok_text, byte_codes, ascii_ident, ascii_letter, ascii_digit. cbv zeta.
  destruct (typ t); intros H Hc;
    lazymatch type of H with
    | false = true => discriminate H
    | bool_decide _ = true =>
        apply bool_decide_eq_true in H; rewrite H in Hc; by destruct Hc as [[= <-]|[= <-]]
    | _ && _ = true => apply andb_true_iff in H as [_ H]
    | _ => idtac
    end.
  - eapply Hall; [|exact H|exact Hc]. intros r Hr. cbv beta in Hr. unfold is_space. lia.
  - rewrite !bytes_of_app in Hc. destruct Hc as [[= <-]|Hc]; [done|].
    rewrite app_assoc in Hc. change (bytes_of "'") with ["'"%char] in Hc. rewrite last_snoc in Hc.
    by injection Hc as <-.
  - rewrite bytes_of_app in Hc.
    apply (Hall (λ r, ((65 <=? r) && (r <=? 90) || (97 <=? r) && (r <=? 122) || (48 <=? r) && (r <=? 57) || (r =? 95)
      || (r =? 46) || (r =? 91) || (r =? 93)) || (r =? 36)) _) in Hc; [done| |].
    + intros r Hr. cbv beta in Hr. unfold is_space. lia.
    + rewrite map_app, forallb_app. apply andb_true_iff. split; [done|].
      apply forallb_forall. intros r Hr. rewrite forallb_forall in H. specialize (H r Hr). cbv beta in H.
      by rewrite H.
  - eapply Hall; [|exact H|exact Hc]. intros r Hr. cbv beta in Hr. unfold is_space. lia.
Qed.

Lemma print_trim ts : Forall (λ t, tok_ok t = true) ts → TrimSpace (print ts) = print ts.
Proof.
  intros Hok. apply TrimSpace_ascii; [by apply print_ascii|..].
  - intros c Hc. destruct ts as [|t ts]; [done|]. apply list.Forall_cons in Hok as [Ht _].
    apply (tok_text_ends t); [done|left]. destruct ts as [|t' ts]; [done|].
    change (print (t :: t' :: ts)) with (tok_text t +:+ " " +:+ print (t' :: ts)) in Hc.
    rewrite bytes_of_app in Hc. destruct (tok_text_cons t Ht) as (ch & more & Htext).
    unfold byte_codes in Htext. by destruct (bytes_of (tok_text t)).
  - intros c. induction Hok as [|t ts Ht Hts IH]; [done|]. destruct ts as [|t' ts].
    + intros Hc. apply (tok_text_ends t); [done|by right].
    + change (print (t :: t' :: ts)) with (tok_text t +:+ " " +:+ print (t' :: ts)).
      rewrite !bytes_of_app, app_assoc, last_app. intros Hc. apply IH.
      destruct (list.last (bytes_of (print (t' :: ts)))) eqn:Hl; [done|]. exfalso.
      apply last_None in Hl. apply list.Forall_cons in Hts as [Ht' _].
      destruct (tok_text_cons t' Ht') as (ch & more & Htext). unfold byte_codes in Htext.
      destruct ts as [|t'' ts]; [change (print [t']) with (tok_text t') in Hl; by rewrite Hl in Htext|].
      change (print (t' :: t'' :: ts)) with (tok_text t' +:+ " " +:+ print (t'' :: ts)) in Hl.
      rewrite bytes_of_app in Hl. by destruct (bytes_of (tok_text t')).
Qed.

(** ** The whole engine *)

Lemma render_tok_ok e : lexical e = true → Forall (λ t, tok_ok t = true) (render e).
Proof.
  assert (Hparen : ∀ b ts, Forall (λ t, tok_ok t = true) ts → Forall (λ t, tok_ok t = true) (paren b ts)).
  { intros [] ts Hts; [|done]. constructor; [done|]. apply list.Forall_app. split; [done|by repeat constructor]. }
  induction e as [s|s|p|b| |name args IH|e IH|o a b IHa IHb] using expr_ind'; cbn [lexical render]; intros H.
  1-5: constructor; [first [done|by destruct b]|constructor].
  - apply andb_true_iff in H as [Hname Hargs%forallb_Forall]. constructor; [done|]. constructor; [done|].
    apply list.Forall_app. split; [|by repeat constructor].
    induction args as [|a args IHargs]; [constructor|].
    apply list.Forall_cons in IH as [Ha IH]. apply list.Forall_cons in Hargs as [Hla Hargs].
    destruct args as [|a' args]; [by apply Ha|].
    apply list.Forall_app. split; [by apply Ha|]. constructor; [done|]. by apply IHargs.
  - constructor; [done|]. by apply Hparen, IH.
  - apply andb_true_iff in H as [Ha Hb]. apply list.Forall_app. split; [by apply Hparen, IHa|].
    constructor; [by destruct o|]. by apply Hparen, IHb.
Qed.

(** The text of a tree and of tokens after it that continue no sum or product. *)
Lemma Evaluate_prefix parse_float engine data uni_letter uni_digit e extra :
  lexical e = true → names_ok e = true → Forall (λ t, tok_ok t = true) extra →
  sum_next (extra ++ [token_EOF]) = false → term_next (extra ++ [token_EOF]) = false →
  let text := print (render e ++ extra) in
  Evaluate parse_float engine data uni_letter uni_digit text =
    Some (wrap_err ("evaluate " +:+ quote text) (eval parse_float engine data e)).
Proof.
  intros Hlex Hnames Hextra Hs Ht text. subst text. pose proof (render_tok_ok e Hlex) as Hok.
  assert (Hall : Forall (λ t, tok_ok t = true) (render e ++ extra)) by (by apply list.Forall_app).
  unfold Evaluate. rewrite print_trim by done. case_bool_decide as Hempty.
  { exfalso. apply (f_equal byte_codes) in Hempty.
    destruct (render e) as [|t ts] eqn:Hr.
    - pose proof (height_length e) as Hh. rewrite Hr in Hh. simpl in Hh. lia.
    - apply list.Forall_cons in Hok as [Htok _]. destruct (tok_text_cons t Htok) as (ch & more & Htext).
      cbn [app] in Hempty. destruct (ts ++ extra) as [|t' ts'].
      + change (print [t]) with (tok_text t) in Hempty. by rewrite Htext in Hempty.
      + rewrite print_cons, Htext in Hempty. done. }
  rewrite tokenize_print by done. rewrite <-app_assoc.
  rewrite parseExpression_refines by (done || lia). by destruct (eval parse_float engine data e).
Qed.

(** C16: the engine evaluates the text of any expression to the value of its
    syntax tree: tokenizer, precedence, grouping, calls, field references and literals
    together implement the recursive definition, for any functions, any data and any
    number parser; an error of the tree is reported with the expression. *)
Theorem Evaluate_print parse_float engine data uni_letter uni_digit e :
  lexical e = true → names_ok e = true →
  Evaluate parse_float engine data uni_letter uni_digit (print (render e)) =
    Some (wrap_err ("evaluate " +:+ quote (print (render e))) (eval parse_float engine data e)).
Proof.
  intros Hlex Hnames. rewrite <-(app_nil_r (render e)). by apply Evaluate_prefix.
Qed.

(** Text after a complete expression is ignored: when the further tokens do
    not continue a sum or product, as in [1 2] or [upper($.a) $.b], the engine returns the
    value of the first expression and reports nothing. *)
Theorem Evaluate_ignores_rest parse_float engine data uni_letter uni_digit e extra v :
  lexical e = true → names_ok e = true → Forall (λ t, tok_ok t = true) extra →
  typ (peek (extra ++ [token_EOF])) ∉ [tokPlus; tokMinus; tokStar; tokSlash] →
  eval parse_float engine data e = Ok v →
  Evaluate parse_float engine data uni_letter uni_digit (print (render e ++ extra)) = Some (Ok v).
Proof.
  intros Hlex Hnames Hextra Hnext Hv. rewrite Evaluate_prefix; [|done..| |].
  - by rewrite Hv.
  - unfold sum_next. by rewrite !bool_decide_false by set_solver.
  - unfold term_next. by rewrite !bool_decide_false by set_solver.
Qed.

(** ** Witnesses *)

Section examples.

(** Number literals that are integers. *)
Definition int_literal (s : string) : res float64 :=
  match parse_int s with
  | Some z => Ok (f_of_Z z)
  | None => Err (ErrText ("strconv.ParseFloat: parsing " +:+ quote s +:+ ": invalid syntax"))
  end.
Definition no_unicode : Z → bool := λ _, false.
Definition small_engine : ExprEngine :=
  {[ "concat" := fn_concat; "coalesce" := fn_coalesce; "substring" := fn_substring ]}.
Definition small_data : obj := {[ "user" := VMap {[ "name" := VString "Ann" ]}; "n" := VInt 4 ]}.

(** [concat($.user.name, '-', (1 + 2) * -$.n)] *)
Definition sample_expr : expr :=
  ECall "concat" [EField "user.name"; EStr "-";
    EBin OpMul (EBin OpAdd (ENum "1") (ENum "2")) (ENeg (EField "n"))].

Example sample_text : print (render sample_expr) = "concat ( $.user.name , '-' , ( 1 + 2 ) * - $.n )".
Proof. reflexivity. Qed.

Example sample_value : eval int_literal small_engine small_data sample_expr = Ok (VString "Ann--12").
Proof. vm_compute. reflexivity. Qed.

Lemma Evaluate_print_witness :
  Evaluate int_literal small_engine small_data no_unicode no_unicode
    "concat ( $.user.name , '-' , ( 1 + 2 ) * - $.n )" =
  Some (wrap_err ("evaluate " +:+ quote "concat ( $.user.name , '-' , ( 1 + 2 ) * - $.n )")
    (eval int_literal small_engine small_data sample_expr)).
Proof.
  apply (Evaluate_print int_literal small_engine small_data no_unicode no_unicode sample_expr); reflexivity.
Defined.

Lemma Evaluate_ignores_rest_witness :
  Evaluate int_literal small_engine small_data no_unicode no_unicode "$.n 7" = Some (Ok (VInt 4)).
Proof.
  apply (Evaluate_ignores_rest int_literal small_engine small_data no_unicode no_unicode
           (EField "n") [mkToken tokNumber "7"]); try reflexivity.
  - by repeat constructor.
  - set_solver.
Defined.
End examples.
