(* ===== verification/Encryption.v ===== *)
(** * Encryption of fields and key rotation: [internal/security/encryption]

    The cryptography (HKDF, AES-GCM, the random source) is Go's library: a class of
    operations [AEAD] with the laws the code relies on ([AEADLaws]).  The envelopes, the key
    versions and the checks are the program's.  Bytes are characters; an operation holds
    the lock from start to end, so it is a function of the state. *)

From Stdlib Require Import Ascii.
From stdpp Require Import sorting.
From S2P Require Import Prelude GoStrings Errors.

Abbreviation bytes := (list ascii).

(** A cipher of the library: keys derived from text, sealing and opening. *)
Class AEAD (K G : Type) := {
  derive_key : string → res K;         (** HKDF-SHA256 over the key material *)
  new_gcm : K → res G;
  NonceSize : G → nat;
  Overhead : G → nat;
  Seal : G → bytes → bytes → bytes → bytes;             (** nonce, plaintext, additional data *)
  Open : G → bytes → bytes → bytes → option bytes
}.
Class AEADLaws (K G : Type) `{AEAD K G} := {
  open_seal g nonce p ad : length nonce = NonceSize g → Open g nonce (Seal g nonce p ad) ad = Some p;
  seal_length g nonce p ad : length (Seal g nonce p ad) = (length p + Overhead g)%nat
}.

Section encryption.
Context {K G : Type} `{Hops : AEAD K G}.

Definition err_open : error := ErrText "cipher: message authentication failed".

Definition deriveKey (keyMaterial : string) : res K :=
  match derive_key keyMaterial with
  | Err e => Err (ErrWrapf "deriving key with HKDF" e)
  | r => r
  end.

(** ** encryption.go *)

Record Encryptor := mkEncryptor { enc_gcm : G; enc_key : K }.

(** The key and cipher of some text, which [NewEncryptor] and [RotateKey] compute. *)
Definition cipher_of (key empty_text : string) : res (K * G) :=
  if bool_decide (key = "") then Err (ErrText empty_text)
  else k ← deriveKey key; g ← new_gcm k; Ok (k, g).

Definition NewEncryptor (key : string) : res Encryptor :=
  '(k, g) ← cipher_of key "encryption key must not be empty"; Ok (mkEncryptor g k).

(** [nonce] is what the random source gives. *)
Definition Encrypt (e : Encryptor) (nonce : res bytes) (plaintext : bytes) : res bytes :=
  match nonce with
  | Ok n => Ok (n ++ Seal (enc_gcm e) n plaintext [])
  | Err err => Err (ErrWrapf "generating nonce" err)
  | Panic m => Panic m
  end.

Definition decryptWithGCM (g : G) (ciphertext : bytes) : res bytes :=
  if (length ciphertext <? NonceSize g + Overhead g)%nat then Err (ErrText "ciphertext too short")
  else match Open g (take (NonceSize g) ciphertext) (drop (NonceSize g) ciphertext) [] with
       | Some p => Ok p
       | None => Err (ErrWrapf "decryption failed" err_open)
       end.

Definition Decrypt (e : Encryptor) (ciphertext : bytes) : res bytes := decryptWithGCM (enc_gcm e) ciphertext.

Definition RotateKey (e : Encryptor) (newKey : string) : option error * Encryptor :=
  match cipher_of newKey "new encryption key must not be empty" with
  | Ok (k, g) => (None, mkEncryptor g k)
  | Err err => (Some err, e)
  | Panic m => (Some (ErrText m), e)
  end.

(** ** keyring.go *)

Definition versionTagSize : nat := 4.

Record Keyring := mkKeyring { keys : gmap Z G; rawKeys : gmap Z K; currentVer : Z }.

Definition NewKeyring : Keyring := mkKeyring ∅ ∅ 0.

Definition AddKey (version : Z) (key : string) (kr : Keyring) : option error * Keyring :=
  if version <? 1 then (Some (ErrText "key version must be >= 1"), kr)
  else if bool_decide (key = "") then (Some (ErrText "key material must not be empty"), kr)
  else match deriveKey key with
  | Err e => (Some (ErrWrapf ("deriving key for version " +:+ pretty version) e), kr)
  | Panic m => (Some (ErrText m), kr)
  | Ok k =>
      match new_gcm k with
      | Err e => (Some (ErrWrapf ("creating cipher for version " +:+ pretty version) e), kr)
      | Panic m => (Some (ErrText m), kr)
      | Ok g =>
          (None, mkKeyring (<[version := g]> (keys kr)) (<[version := k]> (rawKeys kr))
                   (if currentVer kr <? version then version else currentVer kr))
      end
  end.

(** [binary.BigEndian]: the four bytes of a 32-bit number, and back. *)
Definition PutUint32 (z : Z) : bytes :=
  map (λ s, byte_chr (Z.land (Z.shiftr z s) 0xFF)) [24; 16; 8; 0].
Definition Uint32 (bs : bytes) : Z :=
  foldl (λ acc b, acc * 256 + byte_val b) 0 (take 4 bs).

Definition KeyringEncrypt (kr : Keyring) (rand : nat → res bytes) (plaintext : bytes) : res bytes :=
  if currentVer kr =? 0 then Err (ErrText "keyring has no keys")
  else match keys kr !! currentVer kr with
  | None => Err (ErrText ("current key version " +:+ pretty (currentVer kr) +:+ " not found"))
  | Some g =>
      match rand (NonceSize g) with
      | Err e => Err (ErrWrapf "generating nonce" e)
      | Panic m => Panic m
      | Ok nonce =>
          let tag := PutUint32 (currentVer kr mod 2 ^ 32) in
          Ok (tag ++ nonce ++ Seal g nonce plaintext tag)
      end
  end.

Definition KeyringDecrypt (kr : Keyring) (ciphertext : bytes) : res bytes :=
  if (length ciphertext <? versionTagSize)%nat then Err (ErrText "ciphertext too short to contain version tag")
  else
    let versionTag := take versionTagSize ciphertext in
    let version := Uint32 versionTag in
    match keys kr !! version with
    | None => Err (ErrText ("no key found for version " +:+ pretty version))
    | Some g =>
        let payload := drop versionTagSize ciphertext in
        if (length payload <? NonceSize g + Overhead g)%nat then Err (ErrText "ciphertext too short")
        else match Open g (take (NonceSize g) payload) (drop (NonceSize g) payload) versionTag with
             | Some p => Ok p
             | None => Err (ErrWrapf ("decryption with key version " +:+ pretty version +:+ " failed") err_open)
             end
    end.

Definition ListKeyVersions (kr : Keyring) : list Z := merge_sort Z.le (elements (dom (keys kr))).
Definition CurrentVersion (kr : Keyring) : Z := currentVer kr.

Definition RemoveKey (version : Z) (kr : Keyring) : option error * Keyring :=
  if version =? currentVer kr then (Some (ErrText "cannot remove the current encryption key"), kr)
  else match keys kr !! version with
  | None => (Some (ErrText ("key version " +:+ pretty version +:+ " not found")), kr)
  | Some _ => (None, mkKeyring (delete version (keys kr)) (delete version (rawKeys kr)) (currentVer kr))
  end.

(** ** Rotation over time *)

Inductive op := OpAddKey (version : Z) (key : string) | OpRemoveKey (version : Z).

Definition op_version (o : op) : Z := match o with OpAddKey v _ => v | OpRemoveKey v => v end.

Definition run_op (kr : Keyring) (o : op) : Keyring :=
  match o with
  | OpAddKey v k => (AddKey v k kr).2
  | OpRemoveKey v => (RemoveKey v kr).2
  end.
Definition run_keyring (kr : Keyring) (os : list op) : Keyring := foldl run_op kr os.

(** The current version is the highest registered one, and has its key. *)
Definition keyring_ok (kr : Keyring) : Prop :=
  0 ≤ currentVer kr ∧ dom (keys kr) = dom (rawKeys kr) ∧
  (∀ v, v ∈ dom (keys kr) → 1 ≤ v ≤ currentVer kr) ∧
  (currentVer kr ≠ 0 → currentVer kr ∈ dom (keys kr)).

Lemma AddKey_effect v k kr : (AddKey v k kr).2 = kr ∨
  1 ≤ v ∧ ∃ g dk, (AddKey v k kr).2 =
    mkKeyring (<[v := g]> (keys kr)) (<[v := dk]> (rawKeys kr)) (Z.max (currentVer kr) v).
Proof.
  unfold AddKey. destruct (Z.ltb_spec v 1); [by left|]. destruct (bool_decide _); [by left|].
  destruct (deriveKey k) as [dk|e|m]; [|by left..]. destruct (new_gcm dk) as [g|e|m]; [|by left..].
  right. split; [lia|]. exists g, dk. cbn [snd]. f_equal.
  destruct (Z.ltb_spec (currentVer kr) v); lia.
Qed.

Lemma RemoveKey_effect v kr : (RemoveKey v kr).2 = kr ∨
  v ≠ currentVer kr ∧
  (RemoveKey v kr).2 = mkKeyring (delete v (keys kr)) (delete v (rawKeys kr)) (currentVer kr).
Proof.
  unfold RemoveKey. destruct (Z.eqb_spec v (currentVer kr)); [by left|].
  destruct (keys kr !! v); [by right|by left].
Qed.

Lemma run_op_ok kr o : keyring_ok kr → keyring_ok (run_op kr o).
Proof.
  intros (Hnn & Hdom & Hle & Hcur). destruct o as [v k|v]; cbn [run_op].
  - destruct (AddKey_effect v k kr) as [->|(Hv & g & dk & ->)]; [done|].
    unfold keyring_ok. cbn [keys rawKeys currentVer]. rewrite !dom_insert_L, Hdom. split_and!; [lia|done| |].
    + intros u [->%elem_of_singleton|Hu]%elem_of_union; [lia|]. rewrite <-Hdom in Hu. specialize (Hle u Hu). lia.
    + intros _. destruct (Z.max_spec (currentVer kr) v) as [[? ->]|[? ->]]; [set_solver|].
      rewrite <-Hdom. apply elem_of_union_r, Hcur. lia.
  - destruct (RemoveKey_effect v kr) as [->|(Hv & ->)]; [done|].
    unfold keyring_ok. cbn [keys rawKeys currentVer]. rewrite !dom_delete_L, Hdom. split_and!; [done|done| |].
    + intros u Hu. apply Hle. set_solver.
    + intros H. specialize (Hcur H). set_solver.
Qed.

Lemma run_keyring_ok kr os : keyring_ok kr → keyring_ok (run_keyring kr os).
Proof. revert kr. induction os as [|o os IH]; intros kr Hkr; simpl; [done|]. by apply IH, run_op_ok. Qed.

Lemma NewKeyring_ok : keyring_ok NewKeyring.
Proof. unfold keyring_ok, NewKeyring. simpl. split_and!; [done|set_solver|set_solver|done]. Qed.

Lemma run_op_other kr o v : v ≠ op_version o → keys (run_op kr o) !! v = keys kr !! v.
Proof.
  intros Hne. destruct o as [u k|u]; cbn [run_op op_version] in *.
  - destruct (AddKey_effect u k kr) as [->|(_ & g & dk & ->)]; [done|]. by apply lookup_insert_ne.
  - destruct (RemoveKey_effect u kr) as [->|(_ & ->)]; [done|]. by apply lookup_delete_ne.
Qed.

Lemma run_keyring_other kr os v : Forall (λ o, v ≠ op_version o) os →
  keys (run_keyring kr os) !! v = keys kr !! v.
Proof.
  intros H. revert kr. induction H as [|o os Ho _ IH]; intros kr; simpl; [done|].
  rewrite IH. by apply run_op_other.
Qed.

(** ** Envelopes *)

Lemma Uint32_PutUint32 z rest : 0 ≤ z < 2 ^ 32 → Uint32 (PutUint32 z ++ rest) = z.
Proof.
  intros Hz. unfold Uint32, PutUint32. cbn [map app take foldl].
  change 255 with (Z.ones 8). rewrite !Z.land_ones, !Z.shiftr_div_pow2 by lia.
  rewrite !byte_val_chr by (apply Z.mod_pos_bound; lia).
  change (2 ^ 24) with (256 * 256 * 256). change (2 ^ 16) with (256 * 256). change (2 ^ 8) with 256. change (2 ^ 0) with 1.
  rewrite <-!Z.div_div, Z.div_1_r by lia.
  pose proof (Z.div_mod z 256 ltac:(lia)). pose proof (Z.div_mod (z / 256) 256 ltac:(lia)).
  pose proof (Z.div_mod (z / 256 / 256) 256 ltac:(lia)).
  assert (0 ≤ z / 256 / 256 / 256 < 256).
  { rewrite !Z.div_div by lia. split; [apply Z.div_pos; lia|apply Z.div_lt_upper_bound; lia]. }
  rewrite (Z.mod_small (z / 256 / 256 / 256)) by done.
  rewrite take_0. cbn [foldl]. lia.
Qed.

Lemma Uint32_tag z : 0 ≤ z < 2 ^ 32 → Uint32 (PutUint32 z) = z.
Proof. rewrite <-(app_nil_r (PutUint32 z)). apply Uint32_PutUint32. Qed.

Lemma PutUint32_length z : length (PutUint32 z) = versionTagSize.
Proof. done. Qed.

Context `{Hlaws : !AEADLaws K G}.

(** What [Encrypt] produced opens with the key of its version. *)
Lemma decrypt_payload g nonce tag p :
  length nonce = NonceSize g →
  let payload := nonce ++ Seal g nonce p tag in
  (length payload <? NonceSize g + Overhead g)%nat = false ∧
  Open g (take (NonceSize g) payload) (drop (NonceSize g) payload) tag = Some p.
Proof using Hlaws.
  intros Hn payload. subst payload. rewrite length_app, seal_length. split; [apply Nat.ltb_ge; lia|].
  rewrite take_app_length', drop_app_length' by done. by apply open_seal.
Qed.

(** C18: key rotation loses nothing: once a keyring built by any sequence of additions and
    removals has a key, encryption succeeds, and its result decrypts to the
    plaintext after any further additions and removals that leave the key of that version
    alone, for versions that fit the 32 bits of the tag. *)
Theorem keyring_roundtrip os (rand : nat → res bytes) p :
  let kr := run_keyring NewKeyring os in
  currentVer kr ≠ 0 → currentVer kr < 2 ^ 32 →
  (∀ n, ∃ b, rand n = Ok b ∧ length b = n) →
  ∃ c, KeyringEncrypt kr rand p = Ok c ∧
    ∀ os', Forall (λ o, currentVer kr ≠ op_version o) os' →
      KeyringDecrypt (run_keyring kr os') c = Ok p.
Proof using Hlaws.
  intros kr Hne Hlt Hrand. destruct (run_keyring_ok NewKeyring os NewKeyring_ok) as (Hnn & _ & Hle & Hcur).
  fold kr in Hnn, Hle, Hcur. specialize (Hcur Hne). apply elem_of_dom in Hcur as [g Hg].
  destruct (Hrand (NonceSize g)) as (nonce & Hb & Hlen). unfold KeyringEncrypt. rewrite Hg, Hb.
  destruct (Z.eqb_spec (currentVer kr) 0); [done|]. eexists. split; [reflexivity|].
  intros os' Hos'. rewrite Z.mod_small by lia. unfold KeyringDecrypt.
  rewrite length_app, PutUint32_length. cbn [Nat.add].
  assert ((versionTagSize + length (nonce ++ Seal g nonce p (PutUint32 (currentVer kr))) <? versionTagSize)%nat = false)
    as -> by (apply Nat.ltb_ge; lia).
  rewrite take_app_length', drop_app_length' by done.
  rewrite Uint32_tag by lia.
  rewrite run_keyring_other, Hg by done.
  destruct (decrypt_payload g nonce (PutUint32 (currentVer kr)) p Hlen) as [-> ->]. done.
Qed.

(** A version above 32 bits is truncated in the tag, so what it encrypts is looked up
    under another version. *)
Lemma large_version_unreadable os (rand : nat → res bytes) p c :
  let kr := run_keyring NewKeyring os in
  keys kr !! (currentVer kr mod 2 ^ 32) = None →
  KeyringEncrypt kr rand p = Ok c → ∃ e, KeyringDecrypt kr c = Err e.
Proof.
  intros kr Hnone. unfold KeyringEncrypt. destruct (_ =? 0); [done|].
  destruct (keys kr !! currentVer kr) as [g|]; [|done]. destruct (rand _) as [nonce|e|m]; [|done..].
  intros Hc. cbv zeta in Hc. apply (f_equal (from_ok [])) in Hc. cbn [from_ok] in Hc. subst c.
  unfold KeyringDecrypt.
  rewrite length_app, PutUint32_length.
  destruct (_ <? _)%nat; [by eexists|].
  rewrite take_app_length' by done. rewrite Uint32_tag by (apply Z.mod_pos_bound; lia). rewrite Hnone. by eexists.
Qed.

(** The single-key encryptor reads what it wrote. *)
Lemma encryptor_roundtrip e nonce p :
  length nonce = NonceSize (enc_gcm e) → (Encrypt e (Ok nonce) p ≫= Decrypt e) = Ok p.
Proof using Hlaws.
  intros Hn. cbn. unfold Decrypt, decryptWithGCM.
  destruct (decrypt_payload (enc_gcm e) nonce [] p Hn) as [-> ->]. done.
Qed.
End encryption.

(** ** Witnesses *)

Section examples.

(** A cipher that only appends a mark. *)
#[local] Instance toy_aead : AEAD string string := {|
  derive_key s := Ok s; new_gcm s := Ok s; NonceSize _ := 2%nat; Overhead _ := 1%nat;
  Seal _ _ p _ := p ++ ["#"%char];
  Open _ _ c _ := Some (take (length c - 1) c)
|}.
#[local] Instance toy_aead_laws : AEADLaws string string.
Proof.
  split.
  - intros g nonce p ad _. cbn. f_equal. rewrite length_app. cbn. apply take_app_length'. lia.
  - intros g nonce p ad. cbn. by rewrite length_app.
Qed.

Definition toy_rand (n : nat) : res bytes := Ok (replicate n "n"%char).

Lemma keyring_roundtrip_witness :
  let kr := run_keyring (NewKeyring (K := string) (G := string)) [OpAddKey 1 "old"; OpAddKey 2 "new"] in
  ∃ c, KeyringEncrypt kr toy_rand ["p"%char] = Ok c ∧
    ∀ os', Forall (λ o, currentVer kr ≠ op_version o) os' → KeyringDecrypt (run_keyring kr os') c = Ok ["p"%char].
Proof.
  apply (keyring_roundtrip [OpAddKey 1 "old"; OpAddKey 2 "new"] toy_rand ["p"%char]); [done|done|].
  intros n. exists (replicate n "n"%char). split; [reflexivity|apply length_replicate].
Defined.
End examples.
