(* ===== verification/Schema.v ===== *)
(** * Schema evolution: [internal/controlplane/schema/manager.go]

    Reading the properties of a JSON schema, the differences between two schemas, and the
    manager over its repository and its optional cache.  The repository and the cache are
    interfaces: records of operations on a state of their own.  Decoding into a struct follows
    [encoding/json]: keys match without regard to case, later members go over earlier ones,
    and a member of the wrong kind is reported after the rest has been read. *)

From S2P Require Import Prelude GoStrings Errors Float Value Protocol.

(** ** Properties of a schema *)

Record propertyInfo := mkPropertyInfo { pi_Type : string; pi_Nullable : bool }.

#[global] Instance propertyInfo_eq_dec : EqDecision propertyInfo.
Proof. solve_decision. Defined.

Abbreviation props := (gmap string propertyInfo).

(** The last member of a struct field of interface type; [None] if a number in one of
    them overflows. *)
Definition interface_member (name : string) (l : list (string * json)) : option value :=
  foldl (λ acc e, if key_matches name e.1
                  then match acc, jvalue e.2 with Some _, Some v => Some v | _, _ => None end
                  else acc) (Some VNil) l.

Definition parse_type (v : value) : propertyInfo :=
  match v with
  | VString t => mkPropertyInfo t false
  | VSlice l =>
      let '(primaryType, nullable) :=
        foldl (λ acc v, match v with
                        | VString s => if bool_decide (s = "null") then (acc.1, true) else (s, acc.2)
                        | _ => acc
                        end) ("unknown", false) l in
      mkPropertyInfo primaryType nullable
  | _ => mkPropertyInfo "unknown" false
  end.

Definition parsePropertyType (prop : json) : propertyInfo :=
  match prop with
  | JNull => mkPropertyInfo "unknown" false
  | JObj l =>
      match interface_member "type" l with
      | Some v => parse_type v
      | None => mkPropertyInfo "unknown" false
      end
  | _ => mkPropertyInfo "unknown" false
  end.

Definition err_field_kind (j : json) : error :=
  ErrText ("json: cannot unmarshal " +:+ json_kind j
           +:+ " into Go struct field .properties of type map[string]json.RawMessage").
Definition err_value_kind (j : json) : error :=
  ErrText ("json: cannot unmarshal " +:+ json_kind j
           +:+ " into Go value of type struct { Properties map[string]json.RawMessage "
           +:+ quote ("json:" +:+ quote "properties") +:+ " }").

(** The [Properties] field after decoding, and the first error. *)
Definition decode_properties (l : list (string * json)) : gmap string json * option error :=
  foldl (λ acc e,
    if key_matches "properties" e.1
    then match e.2 with
         | JNull => (∅, acc.2)
         | JObj members => (raw_members members acc.1, acc.2)
         | j => (acc.1, match acc.2 with None => Some (err_field_kind j) | err => err end)
         end
    else acc) (∅, None) l.

Definition schema_keywords : list string :=
  ["type"; "$schema"; "$id"; "title"; "description"; "required"; "additionalProperties";
   "definitions"; "$defs"].

Definition extractFlatProperties (flat : gmap string json) : props :=
  parsePropertyType <$> filter (λ e, e.1 ∉ schema_keywords) flat.

Definition extractProperties (schema : RawMessage) : res props :=
  match schema with
  | RawEmpty => Ok ∅
  | RawInvalid e => Err (ErrWrapf "unable to parse schema" (ErrText e))
  | RawDoc JNull => Ok ∅
  | RawDoc (JObj l) =>
      match decode_properties l with
      | (properties, None) => Ok (parsePropertyType <$> properties)
      | (_, Some err) =>
          let flat := raw_members l ∅ in
          match flat !! "properties" with
          | None => Ok (extractFlatProperties flat)
          | Some _ => Err err
          end
      end
  | RawDoc j => Err (ErrWrapf "unable to parse schema" (err_value_kind j))
  end.

(** ** Differences *)

Inductive ChangeType := ChangeAddedField | ChangeRemovedField | ChangeTypeChange | ChangeNullable.

Record SchemaChange := mkSchemaChange {
  sc_Type : ChangeType; sc_Field : string; sc_OldValue : string; sc_NewValue : string; sc_IsBreaking : bool
}.

Definition nullable_text (b : bool) : string := "nullable=" +:+ (if b then "true" else "false").

Definition prop_changes (field : string) (old new : propertyInfo) : list SchemaChange :=
  (if bool_decide (pi_Type old = pi_Type new) then []
   else [mkSchemaChange ChangeTypeChange field (pi_Type old) (pi_Type new) true]) ++
  (if bool_decide (pi_Nullable old = pi_Nullable new) then []
   else [mkSchemaChange ChangeNullable field (nullable_text (pi_Nullable old)) (nullable_text (pi_Nullable new))
           (pi_Nullable old && negb (pi_Nullable new))]).

Definition field_changes (oldProps newProps : props) (field : string) : list SchemaChange :=
  match oldProps !! field, newProps !! field with
  | Some old, None => [mkSchemaChange ChangeRemovedField field (pi_Type old) "" true]
  | None, Some new => [mkSchemaChange ChangeAddedField field "" (pi_Type new) false]
  | Some old, Some new => prop_changes field old new
  | None, None => []
  end.

(** The names in either schema, sorted. *)
Definition sorted_fields (oldProps newProps : props) : list string :=
  (sorted_entries ((λ _, tt) <$> (oldProps ∪ newProps))).*1.

Definition props_changes (oldProps newProps : props) : list SchemaChange :=
  concat (map (field_changes oldProps newProps) (sorted_fields oldProps newProps)).

Definition wrap {A} (text : string) (r : res A) : res A :=
  match r with Err e => Err (ErrWrapf text e) | r => r end.

Definition DetectBreakingChanges (oldSchema newSchema : RawMessage) : res (list SchemaChange) :=
  oldProps ← wrap "failed to parse old schema" (extractProperties oldSchema);
  newProps ← wrap "failed to parse new schema" (extractProperties newSchema);
  Ok (props_changes oldProps newProps).

Record SchemaDiff := mkSchemaDiff { sd_Changes : list SchemaChange; sd_IsCompatible : bool }.

(** ** The repository and the cache *)

Record StreamRecord := mkStreamRecord {
  sr_ID : string; sr_ConnectionID : string; sr_Name : string; sr_Namespace : string;
  sr_Schema : RawMessage; sr_SupportedSyncModes : list SyncMode
}.
Record SchemaVersionRecord := mkSchemaVersion {
  sv_ID : string; sv_StreamID : string; sv_Version : Z; sv_Schema : RawMessage; sv_Diff : RawMessage
}.

Record StreamRepository (S : Type) := mkStreamRepository {
  GetStreamByID : string → S → res StreamRecord;
  UpsertStream : StreamRecord → S → res StreamRecord * S;
  CreateSchemaVersion : SchemaVersionRecord → S → option error * S;
  GetSchemaVersion : string → Z → S → res SchemaVersionRecord;
  GetLatestSchemaVersion : string → S → res SchemaVersionRecord
}.
Arguments GetStreamByID {S}.
Arguments UpsertStream {S}.
Arguments CreateSchemaVersion {S}.
Arguments GetSchemaVersion {S}.
Arguments GetLatestSchemaVersion {S}.

Record SchemaCache (S : Type) := mkSchemaCache {
  cache_Get : string → S → res (option RawMessage);
  cache_Set : string → RawMessage → S → S;
  cache_Invalidate : string → S → S
}.
Arguments cache_Get {S}.
Arguments cache_Set {S}.
Arguments cache_Invalidate {S}.

Section manager.
Context {S C : Type} (streamRepo : StreamRepository S) (cache : option (SchemaCache C)).

(** The world of the manager: the repository and the cache. *)
Definition world : Type := S * C.

Definition change_name (c : ChangeType) : string :=
  match c with
  | ChangeAddedField => "added_field" | ChangeRemovedField => "removed_field"
  | ChangeTypeChange => "type_change" | ChangeNullable => "nullable_change"
  end.

(** [json.Marshal] of the changes, with the empty values omitted; no changes is the nil
    slice, [null]. *)
Definition change_json (c : SchemaChange) : json :=
  JObj ([("type", JStr (change_name (sc_Type c))); ("field", JStr (sc_Field c))] ++
        (if bool_decide (sc_OldValue c = "") then [] else [("old_value", JStr (sc_OldValue c))]) ++
        (if bool_decide (sc_NewValue c = "") then [] else [("new_value", JStr (sc_NewValue c))]) ++
        [("is_breaking", JBool (sc_IsBreaking c))]).
Definition changes_json (cs : list SchemaChange) : RawMessage :=
  RawDoc (match cs with [] => JNull | _ => JArr (map change_json cs) end).

(** Whether a version is to be created for the new schema. *)
Definition schema_changed (latest : res SchemaVersionRecord) (schema : RawMessage) : bool :=
  match latest with
  | Ok v => match DetectBreakingChanges (sv_Schema v) schema with Ok [] => false | _ => true end
  | _ => true
  end.

Definition version_diff (latest : res SchemaVersionRecord) (schema : RawMessage) : RawMessage :=
  match latest with
  | Ok v => changes_json (from_ok [] (DetectBreakingChanges (sv_Schema v) schema))
  | _ => RawDoc (JArr [])
  end.

(** One stream of the catalog. *)
Definition store_stream (connectionID : string) (stream : Stream) (w : world) : option error * world :=
  let record := mkStreamRecord "" connectionID (s_Name stream) (s_Namespace stream) (s_Schema stream)
                  (s_SupportedSyncModes stream) in
  match UpsertStream streamRepo record w.1 with
  | (Err e, s) => (Some (ErrWrapf ("failed to upsert stream " +:+ quote (s_Name stream)) e), (s, w.2))
  | (Panic m, s) => (Some (ErrText m), (s, w.2))
  | (Ok upserted, s) =>
      let latest := GetLatestSchemaVersion streamRepo (sr_ID upserted) s in
      if schema_changed latest (s_Schema stream) then
        let sv := mkSchemaVersion "" (sr_ID upserted) 0 (s_Schema stream) (version_diff latest (s_Schema stream)) in
        match CreateSchemaVersion streamRepo sv s with
        | (Some e, s) =>
            (Some (ErrWrapf ("failed to create schema version for stream " +:+ quote (s_Name stream)) e), (s, w.2))
        | (None, s) =>
            (None, (s, match cache with Some ch => cache_Invalidate ch (sr_ID upserted) w.2 | None => w.2 end))
        end
      else (None, (s, w.2))
  end.

Fixpoint store_streams (connectionID : string) (streams : list Stream) (w : world) : option error * world :=
  match streams with
  | [] => (None, w)
  | st :: streams =>
      match store_stream connectionID st w with
      | (None, w) => store_streams connectionID streams w
      | r => r
      end
  end.

Definition err_invalid (text : string) : error := ErrWrapf text (ErrSentinel ErrInvalidConfig).

Definition DiscoverAndStore (connectionID : string) (catalog : option Catalog) (w : world) : option error * world :=
  if bool_decide (connectionID = "") then (Some (err_invalid "connectionID is required"), w)
  else match catalog with
  | None | Some (mkCatalog []) => (Some (err_invalid "catalog is empty"), w)
  | Some c => store_streams connectionID (cat_Streams c) w
  end.

Definition GetSchema (streamID : string) (w : world) : res RawMessage * world :=
  if bool_decide (streamID = "") then (Err (err_invalid "streamID is required"), w)
  else
    match (match cache with Some ch => cache_Get ch streamID w.2 | None => Ok None end) with
    | Ok (Some cached) => (Ok cached, w)
    | _ =>
        match GetStreamByID streamRepo streamID w.1 with
        | Ok record =>
            (Ok (sr_Schema record),
             (w.1, match cache with Some ch => cache_Set ch streamID (sr_Schema record) w.2 | None => w.2 end))
        | Err e => (Err (ErrWrapf ("failed to get stream " +:+ streamID) e), w)
        | Panic m => (Panic m, w)
        end
    end.

Definition version_of (streamID : string) (v : Z) (s : S) : res SchemaVersionRecord :=
  wrap ("failed to get schema version " +:+ pretty v +:+ " for stream " +:+ streamID)
    (GetSchemaVersion streamRepo streamID v s).

Definition CompareSchemas (streamID : string) (v1 v2 : Z) (s : S) : res SchemaDiff :=
  if bool_decide (streamID = "") then Err (err_invalid "streamID is required")
  else if v1 =? v2 then Ok (mkSchemaDiff [] true)
  else
    version1 ← version_of streamID v1 s;
    version2 ← version_of streamID v2 s;
    changes ← wrap "failed to compare schemas" (DetectBreakingChanges (sv_Schema version1) (sv_Schema version2));
    Ok (mkSchemaDiff changes (negb (existsb sc_IsBreaking changes))).
End manager.

(** ** What the differences mean *)

Lemma sorted_fields_elem o n f : f ∈ sorted_fields o n ↔ is_Some (o !! f) ∨ is_Some (n !! f).
Proof.
  unfold sorted_fields. rewrite (fmap_Permutation fst _ _ (sorted_entries_perm _)), list_elem_of_fmap.
  split.
  - intros ([k []] & -> & Hk%elem_of_map_to_list). simpl. rewrite lookup_fmap, lookup_union in Hk.
    destruct (o !! k), (n !! k); simpl in *; try done; eauto.
  - intros H. exists (f, ()). split; [done|]. apply elem_of_map_to_list. rewrite lookup_fmap, lookup_union.
    destruct (o !! f), (n !! f); simpl; try done. by destruct H as [[]|[]].
Qed.

Lemma sorted_fields_nodup o n : NoDup (sorted_fields o n).
Proof. apply sorted_entries_nodup. Qed.

(** The fields with a change are among those listed, so the listing loses nothing. *)
Lemma props_changes_elem o n c : c ∈ props_changes o n ↔ ∃ f, c ∈ field_changes o n f.
Proof.
  unfold props_changes. rewrite list_elem_of_In, in_concat. split.
  - intros (l & Hl & Hc). apply in_map_iff in Hl as (f & <- & _). exists f. by apply list_elem_of_In.
  - intros (f & Hc). exists (field_changes o n f). split; [|by apply list_elem_of_In].
    apply in_map, list_elem_of_In, sorted_fields_elem. unfold field_changes in Hc.
    destruct (o !! f), (n !! f); eauto. by apply not_elem_of_nil in Hc.
Qed.

Lemma field_changes_field o n f c : c ∈ field_changes o n f → sc_Field c = f.
Proof.
  unfold field_changes, prop_changes. destruct (o !! f), (n !! f); [|set_solver..].
  destruct (bool_decide _), (bool_decide _); set_solver.
Qed.

(** Readers of the old schema can read data of the new one: every old field is
    still there with its type, and is nullable if it was. *)
Definition compatible (o n : props) : Prop :=
  map_Forall (λ f i, ∃ i', n !! f = Some i' ∧ pi_Type i' = pi_Type i ∧
    (pi_Nullable i = true → pi_Nullable i' = true)) o.

Lemma field_changes_nil o n f : field_changes o n f = [] ↔ o !! f = n !! f.
Proof.
  unfold field_changes, prop_changes. destruct (o !! f) as [[t b]|], (n !! f) as [[t' b']|]; simpl; try done.
  repeat case_bool_decide; simpl; split; congruence.
Qed.

Lemma field_changes_breaking o n f :
  Forall (λ c, sc_IsBreaking c = false) (field_changes o n f) ↔
  match o !! f with
  | Some i => ∃ i', n !! f = Some i' ∧ pi_Type i' = pi_Type i ∧ (pi_Nullable i = true → pi_Nullable i' = true)
  | None => True
  end.
Proof.
  unfold field_changes, prop_changes. destruct (o !! f) as [[t b]|], (n !! f) as [[t' b']|]; simpl.
  - split.
    + intros H. exists (mkPropertyInfo t' b'). split; [done|]. simpl. repeat case_bool_decide; simpl in *;
        repeat match goal with H : Forall _ (_ :: _) |- _ => apply list.Forall_cons in H as [? H] end; simpl in *;
        try done; split; try done; intros ->; by destruct b'.
    + intros ([t'' b''] & [= <- <-] & Ht & Hb). simpl in *. subst t'. rewrite bool_decide_true by done. simpl.
      case_bool_decide; [constructor|]. constructor; [|constructor]. simpl. destruct b, b'; naive_solver.
  - split; [|by intros (? & ? & _)]. intros H. apply list.Forall_cons in H as [H _]. done.
  - split; [done|]. by repeat constructor.
  - split; [done|constructor].
Qed.

Lemma breaking_compatible o n : existsb sc_IsBreaking (props_changes o n) = false ↔ compatible o n.
Proof.
  transitivity (∀ f, Forall (λ c, sc_IsBreaking c = false) (field_changes o n f)).
  + rewrite <-not_true_iff_false, existsb_exists. split.
    * intros H f. apply list.Forall_forall. intros c Hc. apply not_true_iff_false. intros Hb. apply H.
      exists c. split; [|done]. apply list_elem_of_In, props_changes_elem. eauto.
    * intros H (c & Hc%list_elem_of_In & Hb). apply props_changes_elem in Hc as (f & Hc).
      specialize (H f). rewrite list.Forall_forall in H. specialize (H c Hc). congruence.
  + unfold compatible, map_Forall. setoid_rewrite field_changes_breaking. split.
    * intros H f i Hi. specialize (H f). by rewrite Hi in H.
    * intros H f. destruct (o !! f) as [i|] eqn:Hi; [by apply H|done].
Qed.

(** The differences between two schemas are complete and rightly classified: the list is
    empty exactly when the properties are the same, names each differing field under the
    property that differs, and holds no breaking change exactly when every old field is
    still there with its type and, if it was nullable, still nullable. *)
Theorem DetectBreakingChanges_spec old new o n :
  extractProperties old = Ok o → extractProperties new = Ok n →
  ∃ changes, DetectBreakingChanges old new = Ok changes ∧
    (changes = [] ↔ o = n) ∧
    (∀ f, (∃ c, c ∈ changes ∧ sc_Field c = f) ↔ o !! f ≠ n !! f) ∧
    (existsb sc_IsBreaking changes = false ↔ compatible o n).
Proof.
  intros Ho Hn. exists (props_changes o n). unfold DetectBreakingChanges. rewrite Ho, Hn. split; [done|].
  assert (Hdiff : ∀ f, (∃ c, c ∈ props_changes o n ∧ sc_Field c = f) ↔ o !! f ≠ n !! f).
  { intros f. rewrite <-field_changes_nil. split.
    - intros (c & (f' & Hc)%props_changes_elem & Hf) Hnil. pose proof (field_changes_field _ _ _ _ Hc) as Hf'.
      assert (f' = f) as -> by congruence. rewrite Hnil in Hc. by apply not_elem_of_nil in Hc.
    - intros Hne. destruct (field_changes o n f) as [|c l] eqn:Hl; [done|].
      assert (c ∈ field_changes o n f) as Hc by (rewrite Hl; apply list_elem_of_here).
      exists c. split; [apply props_changes_elem; eauto|]. by eapply field_changes_field. }
  split_and!; [|done|].
  - split.
    + intros Hnil. apply map_eq. intros f. destruct (decide (o !! f = n !! f)) as [|Hne]; [done|].
      apply Hdiff in Hne as (c & Hc & _). rewrite Hnil in Hc. by apply not_elem_of_nil in Hc.
    + intros ->. destruct (props_changes n n) as [|c l] eqn:Hl; [done|]. exfalso.
      apply (Hdiff (sc_Field c)); [|done]. exists c. split; [|done]. apply list_elem_of_here.
  - apply breaking_compatible.
Qed.


(** [CompareSchemas]: a version equals itself without a look at the store; for two stored
    versions the verdict is the compatibility of their properties. *)
Lemma CompareSchemas_verdict {S} (repo : StreamRepository S) s id v1 v2 r1 r2 o n :
  id ≠ "" → v1 ≠ v2 →
  GetSchemaVersion repo id v1 s = Ok r1 → GetSchemaVersion repo id v2 s = Ok r2 →
  extractProperties (sv_Schema r1) = Ok o → extractProperties (sv_Schema r2) = Ok n →
  ∃ d, CompareSchemas repo id v1 v2 s = Ok d ∧ (sd_IsCompatible d = true ↔ compatible o n).
Proof.
  intros Hid Hv H1 H2 Ho Hn. unfold CompareSchemas, version_of. rewrite bool_decide_false by done.
  destruct (Z.eqb_spec v1 v2); [done|]. rewrite H1, H2. cbn [wrap mbind outcome_bind].
  unfold DetectBreakingChanges. rewrite Ho, Hn. cbn [wrap mbind outcome_bind]. eexists. split; [done|].
  cbn [sd_IsCompatible]. rewrite negb_true_iff. apply breaking_compatible.
Qed.

(** ** Where changes are missed *)

Lemma decode_properties_none l :
  Forall (λ e, key_matches "properties" e.1 = false) l → decode_properties l = (∅, None).
Proof.
  unfold decode_properties. intros H. induction H as [|e l He _ IH]; [done|]. simpl. by rewrite He.
Qed.

(** A schema that lists its fields at the top level, without a [properties] member, is
    read as having no fields, so any two such schemas compare as equal: removed and retyped
    fields are never reported, although the code has a branch to read them. *)
Theorem flat_schemas_compare_equal l1 l2 :
  Forall (λ e, key_matches "properties" e.1 = false) (l1 ++ l2) →
  extractProperties (RawDoc (JObj l1)) = Ok ∅ ∧
  DetectBreakingChanges (RawDoc (JObj l1)) (RawDoc (JObj l2)) = Ok [].
Proof.
  intros [H1 H2]%list.Forall_app. unfold DetectBreakingChanges, extractProperties.
  rewrite !decode_properties_none by done. rewrite fmap_empty. done.
Qed.

(** The cache can go stale: when discovery stores a new schema whose properties equal those
    of the latest version (say another description, nested type or constraint), the stream
    record is replaced but the cached schema is not dropped, and [GetSchema] goes on
    returning the old one. *)
Theorem discovery_keeps_stale_schema {S C} (repo : StreamRepository S) (ch : SchemaCache C)
    conn stream s s' c up latest cached :
  conn ≠ "" → sr_ID up ≠ "" →
  UpsertStream repo (mkStreamRecord "" conn (s_Name stream) (s_Namespace stream) (s_Schema stream)
    (s_SupportedSyncModes stream)) s = (Ok up, s') →
  GetLatestSchemaVersion repo (sr_ID up) s' = Ok latest →
  DetectBreakingChanges (sv_Schema latest) (s_Schema stream) = Ok [] →
  cache_Get ch (sr_ID up) c = Ok (Some cached) →
  DiscoverAndStore repo (Some ch) conn (Some (mkCatalog [stream])) (s, c) = (None, (s', c)) ∧
  GetSchema repo (Some ch) (sr_ID up) (s', c) = (Ok cached, (s', c)).
Proof.
  intros Hconn Hid Hup Hlatest Hsame Hcache. unfold DiscoverAndStore, GetSchema.
  rewrite !bool_decide_false by done. cbn [cat_Streams store_streams fst snd]. rewrite Hcache.
  split; [|done]. unfold store_stream. cbn [fst snd]. rewrite Hup. cbn zeta. rewrite Hlatest.
  unfold schema_changed. by rewrite Hsame.
Qed.

(** ** Witnesses *)

Section examples.

(** A property of a schema. *)
Definition prop_of (name : string) (t : json) : string * json := (name, JObj [("type", t)]).
Definition schema_of (ps : list (string * json)) : RawMessage := RawDoc (JObj [("properties", JObj ps)]).
Definition old_schema : RawMessage :=
  schema_of [prop_of "id" (JStr "string"); prop_of "age" (JArr [JStr "integer"; JStr "null"])].
Definition new_schema : RawMessage :=
  schema_of [prop_of "id" (JStr "string"); prop_of "age" (JStr "integer"); prop_of "name" (JStr "string")].

Example changes_example : DetectBreakingChanges old_schema new_schema =
  Ok [mkSchemaChange ChangeNullable "age" "nullable=true" "nullable=false" true;
      mkSchemaChange ChangeAddedField "name" "" "string" false].
Proof. vm_compute. reflexivity. Qed.

Lemma DetectBreakingChanges_spec_witness :
  ∃ changes, DetectBreakingChanges old_schema new_schema = Ok changes ∧ existsb sc_IsBreaking changes ≠ false.
Proof.
  destruct (DetectBreakingChanges_spec old_schema new_schema
    {["id" := mkPropertyInfo "string" false; "age" := mkPropertyInfo "integer" true]}
    {["id" := mkPropertyInfo "string" false; "age" := mkPropertyInfo "integer" false;
      "name" := mkPropertyInfo "string" false]}) as (cs & Hcs & _ & _ & Hb);
    [vm_compute; reflexivity|vm_compute; reflexivity|].
  exists cs. split; [exact Hcs|]. rewrite Hb. intros Hc.
  destruct (Hc "age" (mkPropertyInfo "integer" true) eq_refl) as (i & [= <-] & _ & Hn). discriminate (Hn eq_refl).
Defined.

Lemma flat_schemas_compare_equal_witness :
  DetectBreakingChanges (RawDoc (JObj [prop_of "id" (JStr "string")])) (RawDoc (JObj [prop_of "key" (JStr "integer")]))
    = Ok [].
Proof.
  apply (flat_schemas_compare_equal [prop_of "id" (JStr "string")] [prop_of "key" (JStr "integer")]).
  repeat constructor.
Defined.

(** A repository of one stream whose versions are kept in a list, and a cache of one entry. *)
Definition one_repo : StreamRepository (RawMessage * list RawMessage) := {|
  GetStreamByID _ s := Ok (mkStreamRecord "st" "c" "users" "" s.1 []);
  UpsertStream r s := (Ok (mkStreamRecord "st" (sr_ConnectionID r) (sr_Name r) (sr_Namespace r) (sr_Schema r)
                             (sr_SupportedSyncModes r)), (sr_Schema r, s.2));
  CreateSchemaVersion sv s := (None, (s.1, s.2 ++ [sv_Schema sv]));
  GetSchemaVersion _ v s := match s.2 !! Z.to_nat v with
                            | Some sc => Ok (mkSchemaVersion "v" "st" v sc RawEmpty)
                            | None => Err (ErrSentinel ErrNotFound)
                            end;
  GetLatestSchemaVersion _ s := match list.last s.2 with
                                | Some sc => Ok (mkSchemaVersion "v" "st" 0 sc RawEmpty)
                                | None => Err (ErrSentinel ErrNotFound)
                                end
|}.
Definition one_cache : SchemaCache (option RawMessage) := {|
  cache_Get _ c := Ok c; cache_Set _ sc _ := Some sc; cache_Invalidate _ _ := None
|}.

(** The same fields with another description. *)
Definition described (text : string) : RawMessage :=
  RawDoc (JObj [("description", JStr text); ("properties", JObj [prop_of "id" (JStr "string")])]).

Lemma discovery_keeps_stale_schema_witness :
  let stream := mkStream "users" "" "" (described "new") [] [] false [] in
  GetSchema one_repo (Some one_cache) "st"
    (DiscoverAndStore one_repo (Some one_cache) "c" (Some (mkCatalog [stream]))
       ((described "old", [described "old"]), Some (described "old"))).2
  = (Ok (described "old"), ((described "new", [described "old"]), Some (described "old"))).
Proof.
  intros stream.
  destruct (discovery_keeps_stale_schema one_repo one_cache "c" stream (described "old", [described "old"])
    (described "new", [described "old"]) (Some (described "old"))
    (mkStreamRecord "st" "c" "users" "" (described "new") []) (mkSchemaVersion "v" "st" 0 (described "old") RawEmpty)
    (described "old")) as [Hd Hg];
    [discriminate|discriminate|reflexivity|reflexivity|vm_compute; reflexivity|reflexivity|].
  rewrite Hd. exact Hg.
Defined.
End examples.
