(* ===== verification/LoadWorker.v ===== *)
(** * Load worker: [internal/worker/load/worker.go]

    Records are written in batches; a batch is retried with exponential backoff and goes to
    the dead letter queue when it cannot be written.  The context is observed at numbered
    moments, one for each attempt of a write: [ctx_err] is what [ctx.Err()] gives before
    the attempt, [fed] after how many records the feeding goroutine of the attempt saw the
    context done ([None]: it fed them all), [wait_done] whether the wait after the attempt
    was cut short.  [logged] adds to a destination the list of its calls, for the
    statements.  The heartbeats to Temporal every 30 seconds are left out, and so is a
    destination that gives neither a result nor an error, on which [ProcessBatch] would
    dereference a nil pointer. *)

From S2P Require Import Prelude GoStrings Errors Float Value Protocol.

(** ** The context *)

Record Ctx := mkCtx {
  ctx_err : nat → option error;
  fed : nat → option nat;
  wait_done : nat → Z → bool;
  clock : nat → Z
}.

(** What [context] guarantees: a context that is done stays done, and the [Done] branch of a
    [select] is taken only when it is. *)
Class CtxLaws (cx : Ctx) : Prop := {
  err_stays n e : ctx_err cx n = Some e → ctx_err cx (S n) = Some e;
  fed_done n k : fed cx n = Some k → is_Some (ctx_err cx (S n));
  wait_done_err n d : wait_done cx n d = true → is_Some (ctx_err cx (S n))
}.

(** A context that is never done. *)
Definition background : Ctx := mkCtx (λ _, None) (λ _, None) (λ _ _, false) (λ n, Z.of_nat n).
#[global] Instance background_laws : CtxLaws background.
Proof. by split. Qed.

(** ** The worker *)

Record DeadLetterRecord := mkDeadLetter {
  dl_Record : Rec; dl_Error : string; dl_Attempts : Z; dl_Timestamp : Z
}.

Record LoadWorker := mkLoadWorker {
  lw_batchSize : Z; lw_maxRetries : Z; lw_baseDelay : Z; lw_maxDelay : Z;
  lw_deadLetter : list DeadLetterRecord
}.

Definition NewLoadWorker (batchSize maxRetries : Z) : LoadWorker :=
  mkLoadWorker (if batchSize <=? 0 then 1000 else batchSize)
               (if maxRetries <? 0 then 3 else maxRetries)
               (100 * millisecond) (30 * second) [].

Definition backoffDelay (lw : LoadWorker) (attempt : Z) : Z :=
  let delay := f_to_i64 (f_mul (f_of_Z (lw_baseDelay lw)) (pow2 attempt)) in
  if lw_maxDelay lw <? delay then lw_maxDelay lw else delay.

Definition with_dead (lw : LoadWorker) (dead : list DeadLetterRecord) : LoadWorker :=
  mkLoadWorker (lw_batchSize lw) (lw_maxRetries lw) (lw_baseDelay lw) (lw_maxDelay lw) dead.

Definition addToDeadLetter (records : list Rec) (errMsg : string) (now : Z) (lw : LoadWorker) : LoadWorker :=
  with_dead lw (lw_deadLetter lw ++
                map (λ r, mkDeadLetter r errMsg (lw_maxRetries lw +ᵢ 1) now) records).

(** The copy is a value; records themselves are not written to. *)
Definition DeadLetterRecords (lw : LoadWorker) : list DeadLetterRecord := lw_deadLetter lw.

Definition DrainDeadLetter (lw : LoadWorker) : list DeadLetterRecord * LoadWorker :=
  (lw_deadLetter lw, with_dead lw []).

Section worker.
Context {W : Type} (cx : Ctx).

Definition doWrite (dest : Destination W) (config : RawMessage) (catalog : ConfiguredCatalog)
    (records : list Rec) (now : nat) (w : W) : res WriteResult * W :=
  dst_Write dest config catalog
    (map record_message (match fed cx now with Some k => take k records | None => records end)) w.

Definition max_retries_error (lastErr : option error) : error :=
  match lastErr with
  | Some e => ErrWrapf "max retries exceeded" e
  | None => ErrText "max retries exceeded: %!w(<nil>)"
  end.

(** The attempts from number [attempt] on, [remaining] of them; [Ok None] is a nil result with a
    nil error. *)
Fixpoint retry_loop (remaining : nat) (lw : LoadWorker) (dest : Destination W) (config : RawMessage)
    (catalog : ConfiguredCatalog) (records : list Rec) (attempt : Z) (lastErr : option error)
    (now : nat) (w : W) : res (option WriteResult) * nat * W :=
  match remaining with
  | O => (Err (max_retries_error lastErr), now, w)
  | S remaining =>
      match ctx_err cx now with
      | Some e => (Err e, now, w)
      | None =>
          match doWrite dest config catalog records now w with
          | (Ok r, w) => (Ok (Some r), S now, w)
          | (Panic m, w) => (Panic m, S now, w)
          | (Err e, w) =>
              if negb (IsRetryable e) then (Err e, S now, w)
              else if wait_done cx now (backoffDelay lw attempt)
              then (match ctx_err cx (S now) with Some e => Err e | None => Ok None end, S now, w)
              else retry_loop remaining lw dest config catalog records (attempt + 1) (Some e) (S now) w
          end
      end
  end.

Definition writeBatchWithRetry (lw : LoadWorker) (dest : Destination W) (config : RawMessage)
    (catalog : ConfiguredCatalog) (records : list Rec) (now : nat) (w : W) :
    res (option WriteResult) * nat * W :=
  retry_loop (Z.to_nat (lw_maxRetries lw + 1)) lw dest config catalog records 0 None now w.

(** What a call of [ProcessBatch] works on. *)
Record lstate := mkLstate {
  ls_total : WriteResult; ls_lw : LoadWorker; ls_now : nat; ls_w : W
}.

(** A record the destination refused, taken from its error. *)
Definition refused_letter (lw : LoadWorker) (now : Z) (we : WriteError) : list DeadLetterRecord :=
  match we_Record we with
  | RawEmpty => []
  | d => [mkDeadLetter (mkRec "" "" d now) (we_Message we) (lw_maxRetries lw +ᵢ 1) now]
  end.

Definition add_result (t : WriteResult) (r : WriteResult) : WriteResult :=
  mkWriteResult (wr_RecordsWritten t +ᵢ wr_RecordsWritten r) (wr_Errors t ++ wr_Errors r)
                (wr_StateMessages t ++ wr_StateMessages r).

Definition process_one (dest : Destination W) (config : RawMessage) (catalog : ConfiguredCatalog)
    (s : lstate) (batch : list Rec) : res lstate :=
  let lw := ls_lw s in
  match writeBatchWithRetry lw dest config catalog batch (ls_now s) (ls_w s) with
  | (Panic m, _, _) => Panic m
  | (Ok None, _, _) => Panic "invalid memory address or nil pointer dereference"
  | (Err e, now, w) =>
      Ok (mkLstate (add_result (ls_total s)
                      (mkWriteResult 0 [mkWriteError (Error e) RawEmpty "BATCH_FAILED"] []))
                   (addToDeadLetter batch (Error e) (clock cx now) lw) now w)
  | (Ok (Some r), now, w) =>
      Ok (mkLstate (add_result (ls_total s) r)
                   (with_dead lw (lw_deadLetter lw ++
                                  concat (map (refused_letter lw (clock cx now)) (wr_Errors r)))) now w)
  end.

(** [records[start:end]] for [start = 0, batchSize, 2*batchSize, ...]. *)
Definition batches_of (lw : LoadWorker) (records : list Rec) : list (list Rec) :=
  slices_from (length records) 0 (Z.to_nat (lw_batchSize lw)) records.

Definition ProcessBatch (reg : connectorRegistry W) (lw : LoadWorker) (connectorName : string)
    (config : RawMessage) (catalog : ConfiguredCatalog) (records : list Rec) (now : nat) (w : W) :
    res lstate :=
  match GetDestination reg connectorName with
  | Err e => Err (NewConnectorError connectorName "get_destination" e)
  | Panic m => Panic m
  | Ok dest =>
      foldM (process_one dest config catalog) (mkLstate (mkWriteResult 0 [] []) lw now w)
            (batches_of lw records)
  end.
End worker.
Arguments lstate : clear implicits.
Arguments mkLstate {W}.
Arguments ls_total {W}. Arguments ls_lw {W}. Arguments ls_now {W}. Arguments ls_w {W}.

(** ** Backoff *)

Section backoff.
Variable lw : LoadWorker.
Hypothesis Hbase : lw_baseDelay lw = 100 * millisecond.
Hypothesis Hmax : lw_maxDelay lw = 30 * second.

Lemma backoff_float a :
  backoffDelay lw a =
  let d := f_to_i64 (f_mul (f_of_Z 100000000) (pow2 a)) in
  if 30000000000 <? d then 30000000000 else d.
Proof using Hbase Hmax. unfold backoffDelay. by rewrite Hbase, Hmax. Qed.

Lemma backoff_small a : 0 ≤ a ≤ 36 → backoffDelay lw a = Z.min (100000000 * 2 ^ a) 30000000000.
Proof using Hbase Hmax.
  intros Ha. rewrite backoff_float.
  assert (forallb (λ n, (let d := f_to_i64 (f_mul (f_of_Z 100000000) (pow2 (Z.of_nat n))) in
                         if 30000000000 <? d then 30000000000 else d)
                        =? Z.min (100000000 * 2 ^ Z.of_nat n) 30000000000) (seq 0 37) = true) as Hall
    by reflexivity.
  rewrite forallb_forall in Hall. specialize (Hall (Z.to_nat a)).
  rewrite Z2Nat.id in Hall by lia. apply Z.eqb_eq, Hall, in_seq. lia.
Qed.

(** From attempt 37 on, the product is past the range of [int64], and converts to its
    smallest value. *)
Lemma backoff_large a : 37 ≤ a → backoffDelay lw a = int64_min.
Proof using Hbase Hmax.
  intros Ha. rewrite backoff_float. destruct (Z.ltb_spec a 1024) as [Hs|Hs].
  - assert (forallb (λ n, f_to_i64 (f_mul (f_of_Z 100000000) (pow2 (Z.of_nat n))) =? int64_min)
              (seq 37 987) = true) as Hall by reflexivity.
    rewrite forallb_forall in Hall. specialize (Hall (Z.to_nat a)).
    rewrite Z2Nat.id, Z.eqb_eq in Hall by lia. cbv zeta.
    rewrite Hall; [done|]. apply in_seq. lia.
  - unfold pow2. destruct (Z.ltb_spec a 1024); [lia|]. reflexivity.
Qed.
End backoff.

(** The backoff of a worker starts at 100 ms, doubles with every attempt and stays at
    30 s once it has reached them, up to attempt 36; from attempt 37 on the float product
    is past the range of a duration and the delay is negative, so the wait ends at once. *)
Theorem backoffDelay_bounds batchSize maxRetries a :
  let delay := backoffDelay (NewLoadWorker batchSize maxRetries) in
  (0 ≤ a ≤ 8 → delay a = 100 * millisecond * 2 ^ a) ∧
  (9 ≤ a ≤ 36 → delay a = 30 * second) ∧
  (0 ≤ a ≤ 36 → 100 * millisecond ≤ delay a ≤ 30 * second) ∧
  (37 ≤ a → delay a = int64_min).
Proof.
  cbv zeta. unfold millisecond, second.
  split_and!; intros Ha; [..|by rewrite backoff_large]; rewrite backoff_small by (done || lia).
  - pose proof (Z.pow_le_mono_r 2 a 8). lia.
  - pose proof (Z.pow_le_mono_r 2 9 a). lia.
  - pose proof (Z.pow_pos_nonneg 2 a). lia.
Qed.

(** ** No record is lost *)

(** A call of a destination: the messages it was given and its answer. *)
Abbreviation call := (list Message * res WriteResult)%type.

(** The destination that also records its calls. *)
Definition logged {W} (d : Destination W) : Destination (W * list call) :=
  mkDestination (dst_Spec d) (dst_Check d)
    (λ cfg cat msgs w, let '(r, w') := dst_Write d cfg cat msgs w.1 in (r, (w', w.2 ++ [(msgs, r)])))
    (dst_Capabilities d).

Definition failed_call (c : call) : Prop := ∃ e, c.2 = Err e.
Definition retried_call (c : call) : Prop := ∃ e, c.2 = Err e ∧ IsRetryable e = true.

(** What became of a batch: after retryable failures a call with the whole batch succeeded,
    and the refused records are dead letters, or no call succeeded and every record is. *)
Inductive batch_fate (maxRetries : Z) (batch : list Rec) : list call → list DeadLetterRecord → Prop :=
| fate_written fails r dead :
    Z.of_nat (length fails) ≤ maxRetries → Forall retried_call fails →
    Forall (λ c, c.1 = map record_message batch) fails →
    map (λ d, rec_Data (dl_Record d)) dead =
      List.filter (λ d, match d with RawEmpty => false | _ => true end) (map we_Record (wr_Errors r)) →
    batch_fate maxRetries batch (fails ++ [(map record_message batch, Ok r)]) dead
| fate_dead calls dead :
    Z.of_nat (length calls) ≤ maxRetries + 1 → Forall failed_call calls →
    Forall (λ c, c.1 = map record_message batch) calls →
    map dl_Record dead = batch →
    batch_fate maxRetries batch calls dead.

Section no_loss.
Context {W : Type} (cx : Ctx) `{!CtxLaws cx}.
Context (d : Destination W) (config : RawMessage) (catalog : ConfiguredCatalog).
Hypothesis Hfed : ∀ n, fed cx n = None.
Hypothesis Hpanic : ∀ msgs w, match (dst_Write d config catalog msgs w).1 with Panic _ => False | _ => True end.

Lemma retry_loop_spec n lw batch a lastErr now w log r now' ws :
  retry_loop cx n lw (logged d) config catalog batch a lastErr now (w, log) = (r, now', ws) →
  ∃ calls, ws.2 = log ++ calls ∧ (length calls ≤ n)%nat ∧
    Forall (λ c, c.1 = map record_message batch) calls ∧
    match r with
    | Ok (Some x) => ∃ fails, calls = fails ++ [(map record_message batch, Ok x)] ∧ Forall retried_call fails
    | Err _ => Forall failed_call calls
    | _ => False
    end.
Proof using All.
  revert a lastErr now w log. induction n as [|n IH]; intros a lastErr now w log; cbn [retry_loop].
  { intros [= <- _ <-]. exists []. rewrite app_nil_r. split_and!; auto. }
  destruct (ctx_err cx now) as [e|].
  { intros [= <- _ <-]. exists []. rewrite app_nil_r. split_and!; auto. simpl. lia. }
  unfold doWrite. rewrite Hfed. cbn [logged dst_Write fst snd].
  pose proof (Hpanic (map record_message batch) w) as Hp.
  destruct (dst_Write d config catalog (map record_message batch) w) as [[x|e|m] w']; cbn [fst] in Hp; [| |done].
  { intros [= <- _ <-]. exists [(map record_message batch, Ok x)]. cbn [snd length].
    split_and!; [done|lia|by repeat constructor|]. by exists []. }
  destruct (IsRetryable e) eqn:Hr; cbn [negb].
  2: { intros [= <- _ <-]. exists [(map record_message batch, Err e)]. cbn [snd length].
       split_and!; [done|lia|by repeat constructor|]. constructor; [by eexists|done]. }
  destruct (wait_done cx now _) eqn:Hw.
  { apply wait_done_err in Hw as [e' He']. rewrite He'. intros [= <- _ <-].
    exists [(map record_message batch, Err e)]. cbn [snd length].
    split_and!; [done|lia|by repeat constructor|]. constructor; [by eexists|done]. }
  intros H. apply IH in H as (calls & -> & Hlen & Hmsgs & Hres).
  exists ((map record_message batch, Err e) :: calls). rewrite <- app_assoc. cbn [length].
  split_and!; [done|lia|by constructor|].
  destruct r as [[x|]|e'|m]; [|done| |done].
  - destruct Hres as (fails & -> & Hf). exists ((map record_message batch, Err e) :: fails).
    split; [done|]. constructor; [|done]. by exists e.
  - constructor; [by eexists|done].
Qed.

Lemma refused_letters_data lw now wes :
  map (λ l, rec_Data (dl_Record l)) (concat (map (refused_letter lw now) wes)) =
  List.filter (λ x, match x with RawEmpty => false | _ => true end) (map we_Record wes).
Proof.
  induction wes as [|we wes IH]; [done|]. cbn [map concat]. rewrite map_app, IH.
  unfold refused_letter. destruct we as [? [|?|?] ?]; reflexivity.
Qed.

Lemma process_one_spec (s s' : lstate (W * list call)) batch :
  0 ≤ lw_maxRetries (ls_lw s) →
  process_one cx (logged d) config catalog s batch = Ok s' →
  ∃ calls dead, (ls_w s').2 = (ls_w s).2 ++ calls ∧
    ls_lw s' = with_dead (ls_lw s) (lw_deadLetter (ls_lw s) ++ dead) ∧
    batch_fate (lw_maxRetries (ls_lw s)) batch calls dead.
Proof using All.
  intros Hm. destruct s as [tot lw now [w log]]. unfold process_one, writeBatchWithRetry.
  cbn [ls_lw ls_now ls_w ls_total snd] in *.
  destruct (retry_loop _ _ _ _ _ _ _ _ _ _ _) as [[r now'] ws] eqn:Hl.
  apply retry_loop_spec in Hl as (calls & Hlog & Hlen & Hmsgs & Hres).
  destruct r as [[x|]|e|m]; [|done| |done]; intros [= <-]; cbn [ls_lw ls_w].
  - destruct Hres as (fails & -> & Hf). rewrite length_app in Hlen. cbn [length] in Hlen.
    apply list.Forall_app in Hmsgs as [Hmsgs _].
    eexists (fails ++ [_]), _. split_and!; [done|done|].
    apply fate_written; [lia|done|done|]. apply refused_letters_data.
  - eexists calls, _. split_and!; [done|done|]. apply fate_dead; [lia|done|done|].
    rewrite map_map. by rewrite map_id.
Qed.

Lemma process_one_total (s : lstate (W * list call)) batch :
  is_ok (process_one cx (logged d) config catalog s batch) = true.
Proof using All.
  destruct s as [tot lw now [w log]]. unfold process_one, writeBatchWithRetry.
  cbn [ls_lw ls_now ls_w ls_total].
  destruct (retry_loop _ _ _ _ _ _ _ _ _ _ _) as [[r now'] ws] eqn:Hl.
  apply retry_loop_spec in Hl as (calls & _ & _ & _ & Hres).
  by destruct r as [[x|]|e|m].
Qed.

Lemma process_all_spec batches : ∀ (s : lstate (W * list call)),
  0 ≤ lw_maxRetries (ls_lw s) →
  ∃ s' groups, foldM (process_one cx (logged d) config catalog) s batches = Ok s' ∧
    (ls_w s').2 = (ls_w s).2 ++ concat groups.*1 ∧
    lw_deadLetter (ls_lw s') = lw_deadLetter (ls_lw s) ++ concat groups.*2 ∧
    Forall2 (λ b g, batch_fate (lw_maxRetries (ls_lw s)) b g.1 g.2) batches groups.
Proof using All.
  induction batches as [|b bs IH]; intros s Hm; cbn [foldM].
  { exists s, []. cbn. by rewrite !app_nil_r. }
  pose proof (process_one_total s b) as Ht.
  destruct (process_one cx (logged d) config catalog s b) as [s1|e|m] eqn:H1; [|done..].
  apply process_one_spec in H1 as (calls & dead & Hw & Hlw & Hfate); [|done].
  destruct (IH s1) as (s' & groups & -> & Hw' & Hd' & Hf); [by rewrite Hlw|].
  exists s', ((calls, dead) :: groups). rewrite !fmap_cons. cbn [concat fst snd].
  rewrite Hw', Hd', Hw, Hlw. cbn [with_dead lw_deadLetter]. rewrite <- !app_assoc. rewrite Hlw in Hf.
  repeat (split; [done|]). by constructor.
Qed.
End no_loss.

(** C19: no record is lost.  As long as the context does not interrupt the feeding of a
    batch, [ProcessBatch] always returns a result; the records are cut, in order, into
    batches of at most [batchSize], each written with at most [maxRetries + 1] calls of the
    destination, every call with the whole batch; a batch whose last call succeeded leaves
    the records refused one by one in the dead letter queue, and any other batch is there
    as a whole. *)
Theorem ProcessBatch_no_loss {W} (cx : Ctx) `{!CtxLaws cx} (d : Destination W) reg name config catalog
    batchSize maxRetries records now w :
  GetDestination reg name = Ok (logged d) →
  (∀ n, fed cx n = None) →
  (∀ msgs w, match (dst_Write d config catalog msgs w).1 with Panic _ => False | _ => True end) →
  let lw := NewLoadWorker batchSize maxRetries in
  ∃ s groups, ProcessBatch cx reg lw name config catalog records now (w, []) = Ok s ∧
    concat (batches_of lw records) = records ∧
    Forall (λ b, 0 < Z.of_nat (length b) ≤ lw_batchSize lw) (batches_of lw records) ∧
    (ls_w s).2 = concat groups.*1 ∧ lw_deadLetter (ls_lw s) = concat groups.*2 ∧
    Forall2 (λ b g, batch_fate (lw_maxRetries lw) b g.1 g.2) (batches_of lw records) groups.
Proof.
  intros Hreg Hfed Hp lw.
  assert (0 < lw_batchSize lw ∧ 0 ≤ lw_maxRetries lw) as [Hb Hm]
    by (unfold lw, NewLoadWorker; cbn [lw_batchSize lw_maxRetries];
        destruct (Z.leb_spec batchSize 0), (Z.ltb_spec maxRetries 0); lia).
  destruct (process_all_spec cx d config catalog Hfed Hp (batches_of lw records)
              (mkLstate (mkWriteResult 0 [] []) lw now (w, []))) as (s & groups & Hs & Hw & Hd & Hf); [done|].
  exists s, groups. unfold ProcessBatch. rewrite Hreg. split_and!; [done|..|done|done|done].
  - unfold batches_of. by rewrite slices_from_concat by lia.
  - unfold batches_of. pose proof (slices_from_length (length records) 0 (Z.to_nat (lw_batchSize lw)) records) as H.
    eapply list.Forall_impl; [apply H; lia|]. cbv beta. lia.
Qed.

(** A cancellation while a batch is fed loses records without a trace.  The feeding
    goroutine stops and closes the channel, so that a destination which writes what it is
    given answers with success, and the records it never saw are in no error and in no
    dead letter. *)
Theorem cancelled_feed_loses_records {W} (cx : Ctx) (d : Destination W) reg name config catalog lw records now w k :
  GetDestination reg name = Ok d →
  (∀ msgs w, (dst_Write d config catalog msgs w).1 = Ok (mkWriteResult (Z.of_nat (length msgs)) [] [])) →
  ctx_err cx now = None → fed cx now = Some k →
  0 ≤ lw_maxRetries lw → (k < length records)%nat → Z.of_nat (length records) ≤ lw_batchSize lw →
  in_i64 (Z.of_nat (length records)) →
  ∃ s, ProcessBatch cx reg lw name config catalog records now w = Ok s ∧
    ls_total s = mkWriteResult (Z.of_nat k) [] [] ∧ ls_lw s = lw.
Proof.
  intros Hreg Hd Hctx Hfed Hm Hk Hb Hin. unfold ProcessBatch. rewrite Hreg.
  assert (batches_of lw records = [records]) as ->.
  { unfold batches_of. destruct records as [|r rs]; [simpl in Hk; lia|].
    cbn [length slices_from]. rewrite decide_True by lia.
    unfold slice. rewrite drop_0, take_ge by (cbn [length] in *; lia). f_equal.
    destruct (length rs) eqn:Hl; [done|]. cbn [slices_from]. rewrite decide_False; [done|].
    cbn [length] in *. lia. }
  cbn [foldM]. unfold process_one, writeBatchWithRetry. cbn [ls_lw ls_now ls_w].
  replace (Z.to_nat (lw_maxRetries lw + 1)) with (S (Z.to_nat (lw_maxRetries lw))) by lia.
  cbn [retry_loop]. rewrite Hctx. unfold doWrite. rewrite Hfed.
  specialize (Hd (map record_message (take k records)) w).
  destruct (dst_Write _ _ _ _ _) as [r w']. cbn [fst] in Hd. subst r.
  eexists. split; [reflexivity|]. cbn [ls_total ls_lw]. unfold add_result. cbn. split.
  - f_equal. rewrite length_map, length_take, Nat.min_l by lia.
    rewrite i64_id; [done|]. unfold in_i64, int64_min, int64_max in *. lia.
  - destruct lw. unfold with_dead. cbn. by rewrite app_nil_r.
Qed.

(** ** Witnesses *)

(** A destination whose first call fails and may be retried; it counts its calls. *)
Definition flaky : Destination nat :=
  mkDestination (Err (ErrText "no spec")) (λ _, Err (ErrText "no check"))
    (λ _ _ msgs n, match n with
                   | O => (Err (ErrRetryable (ErrText "busy") 0), 1%nat)
                   | S n => (Ok (mkWriteResult (Z.of_nat (length msgs)) [] []), S (S n))
                   end) [].

Definition flaky_registry : connectorRegistry (nat * list call) :=
  mkRegistry ∅ {["warehouse" := logged flaky]} ∅ ∅.
Definition row (n : Z) : Rec := mkRec "rows" "" (RawDoc (JNum (NLit (pretty n) n 0))) n.
Definition no_catalog : ConfiguredCatalog := mkConfiguredCatalog [].

Lemma ProcessBatch_no_loss_witness :
  GetDestination flaky_registry "warehouse" = Ok (logged flaky) ∧
  ∃ s groups,
    ProcessBatch background flaky_registry (NewLoadWorker 2 3) "warehouse" RawEmpty no_catalog
      [row 1; row 2; row 3] 0 (0%nat, []) = Ok s ∧
    concat (batches_of (NewLoadWorker 2 3) [row 1; row 2; row 3]) = [row 1; row 2; row 3] ∧
    Forall (λ b, 0 < Z.of_nat (length b) ≤ 2) (batches_of (NewLoadWorker 2 3) [row 1; row 2; row 3]) ∧
    (ls_w s).2 = concat groups.*1 ∧ lw_deadLetter (ls_lw s) = concat groups.*2 ∧
    Forall2 (λ b g, batch_fate 3 b g.1 g.2) (batches_of (NewLoadWorker 2 3) [row 1; row 2; row 3]) groups.
Proof.
  split; [reflexivity|].
  apply (ProcessBatch_no_loss background flaky flaky_registry "warehouse" RawEmpty no_catalog 2 3
           [row 1; row 2; row 3] 0 0%nat); [reflexivity|reflexivity|].
  intros msgs [|n]; exact I.
Defined.

(** A context cancelled while the second of three records is fed. *)
Definition cancelled_in_feed : Ctx :=
  mkCtx (λ n, match n with O => None | S _ => Some (ErrText "context canceled") end)
        (λ n, match n with O => Some 1%nat | S _ => None end) (λ _ _, false) (λ n, Z.of_nat n).
#[global] Instance cancelled_in_feed_laws : CtxLaws cancelled_in_feed.
Proof. split; [intros [|n] e; simpl; by intros|intros [|n] k; simpl; by eauto|done]. Qed.

Definition writing : Destination unit :=
  mkDestination (Err (ErrText "no spec")) (λ _, Err (ErrText "no check"))
    (λ _ _ msgs w, (Ok (mkWriteResult (Z.of_nat (length msgs)) [] []), w)) [].
Definition writing_registry : connectorRegistry unit := mkRegistry ∅ {["warehouse" := writing]} ∅ ∅.

Lemma cancelled_feed_loses_records_witness :
  CtxLaws cancelled_in_feed ∧
  ∃ s, ProcessBatch cancelled_in_feed writing_registry (NewLoadWorker 10 3) "warehouse" RawEmpty no_catalog
         [row 1; row 2; row 3] 0 tt = Ok s ∧
    ls_total s = mkWriteResult 1 [] [] ∧ ls_lw s = NewLoadWorker 10 3.
Proof.
  split; [apply cancelled_in_feed_laws|].
  apply (cancelled_feed_loses_records cancelled_in_feed writing writing_registry "warehouse" RawEmpty
           no_catalog (NewLoadWorker 10 3) [row 1; row 2; row 3] 0 tt 1);
    try reflexivity; try (vm_compute; discriminate); try (cbn; lia).
  unfold in_i64, int64_min, int64_max. cbn. lia.
Defined.
