(* ===== verification/FlushBatcher.v ===== *)
(** * Load worker and batcher together: [FlushBatcher] of [internal/worker/load/worker.go]

    The caller adds the records to a batcher one after the other and closes it; every batch
    goes through [ProcessBatch], either in the caller or in a timer goroutine.  The relation
    [fstep] interleaves the caller with the timer, on the batcher [sys] of [Batcher], so that
    the invariants of the batcher hold of it.  A call of the flush function is one
    step: two calls at the same time keep apart the dead letters and the result with their
    mutexes, and their calls of the destination are interleaved by whole batches. *)

From S2P Require Import Prelude GoStrings Errors Value Protocol Batcher LoadWorker.

Section flush_batcher.
Context {W : Type} (cx : Ctx) (reg : connectorRegistry W) (connectorName : string)
  (config : RawMessage) (catalog : ConfiguredCatalog).

(** Where the caller is: before the next [Add] or [Close], flushing a batch it was given
    (by [Close] or not), closing [done], or returned. *)
Inductive caller :=
| AtCall
| AtFlush (closing : bool) (batch : list Rec)
| AtCloseDone (batch : list Rec)
| Returned.

Record fstate := mkFstate {
  f_sys : Batcher.sys Rec;
  f_todo : list Rec;
  f_caller : caller;
  totalResult : WriteResult;
  flushErrors : list error;
  f_lw : LoadWorker;
  f_now : nat;
  f_w : W
}.

Definition f_init (records : list Rec) (batchSize : Z) (lw : LoadWorker) (now : nat) (w : W) : fstate :=
  mkFstate (init batchSize second) records AtCall (mkWriteResult 0 [] []) [] lw now w.

Definition opt_list {A} (o : option A) : list A := match o with Some a => [a] | None => [] end.

(** The flush function: its result, and the state after it; [None] if it panics. *)
Definition flushFn (batch : list Rec) (s : fstate) : option (option error * fstate) :=
  match ProcessBatch cx reg (f_lw s) connectorName config catalog batch (f_now s) (f_w s) with
  | Panic _ => None
  | Err e => Some (Some e, s)
  | Ok r => Some (None, mkFstate (f_sys s) (f_todo s) (f_caller s) (add_result (totalResult s) (ls_total r))
                          (flushErrors s) (ls_lw r) (ls_now r) (ls_w r))
  end.

Definition f_with (s : fstate) (sys : Batcher.sys Rec) (c : caller) (errs : list error) : fstate :=
  mkFstate sys (f_todo s) c (totalResult s) (flushErrors s ++ errs) (f_lw s) (f_now s) (f_w s).

(** The loop calls [batcher.Add] for the next record. *)
Definition f_add (s : fstate) (r : Rec) (rs : list Rec) : fstate :=
  let s' := mkFstate (do_add (f_sys s) r) rs AtCall (totalResult s)
              (flushErrors s) (f_lw s) (f_now s) (f_w s) in
  match (Batcher.Add (bat (f_sys s)) r).1 with
  | Return e => f_with s' (f_sys s') AtCall (opt_list e)
  | FlushThenReturn batch => f_with s' (f_sys s') (AtFlush false batch) []
  end.

(** [batcher.Close()] after the last record. *)
Definition f_close (s : fstate) : fstate :=
  match (Batcher.Close (bat (f_sys s))).1 with
  | None => f_with s (do_close (f_sys s)) Returned []
  | Some batch => f_with s (do_close (f_sys s)) (AtCloseDone batch) []
  end.

(** Where the caller is after its batch has been flushed with result [r]. *)
Definition after_flush (closing : bool) : caller := if closing then Returned else AtCall.

Inductive fstep : fstate → fstate → Prop :=
| fstep_add s r rs : f_caller s = AtCall → f_todo s = r :: rs → fstep s (f_add s r rs)
| fstep_close s : f_caller s = AtCall → f_todo s = [] → fstep s (f_close s)
| fstep_flush s closing batch l1 l2 r s' :
    f_caller s = AtFlush closing batch → inflight (f_sys s) = l1 ++ PFlush false batch :: l2 →
    flushFn batch s = Some (r, s') →
    fstep s (f_with s' (do_resume (f_sys s) l1 (PFlush false batch) l2 r) (after_flush closing) (opt_list r))
| fstep_close_done s batch l1 l2 :
    f_caller s = AtCloseDone batch → inflight (f_sys s) = l1 ++ PCloseDone batch :: l2 →
    fstep s (f_with s (do_resume (f_sys s) l1 (PCloseDone batch) l2 None)
               (match batch with [] => Returned | _ => AtFlush true batch end) [])
| fstep_fire s : timerArmed (bat (f_sys s)) = true → fstep s (f_with s (do_fire (f_sys s)) (f_caller s) [])
| fstep_timer s p l1 l2 :
    inflight (f_sys s) = l1 ++ p :: l2 → (p = PTimer ∨ ∃ e, p = PSetErr e) →
    fstep s (f_with s (do_resume (f_sys s) l1 p l2 None) (f_caller s) [])
| fstep_timer_flush s batch l1 l2 r s' :
    inflight (f_sys s) = l1 ++ PFlush true batch :: l2 → flushFn batch s = Some (r, s') →
    fstep s (f_with s' (do_resume (f_sys s) l1 (PFlush true batch) l2 r) (f_caller s) []).

Inductive freachable (records : list Rec) (batchSize : Z) (lw : LoadWorker) (now : nat) (w : W) : fstate → Prop :=
| freach_init : freachable records batchSize lw now w (f_init records batchSize lw now w)
| freach_step s s' : freachable records batchSize lw now w s → fstep s s' →
    freachable records batchSize lw now w s'.

(** ** Every record is handed over *)

Lemma step_closed (s s' : Batcher.sys Rec) :
  inv s → Batcher.step s s' → closed (bat s) = true → closed (bat s') = true.
Proof.
  intros Hinv Hstep Hc. destruct Hstep as [s r|s|s|s _|s l1 p l2 r Hl]; [..|].
  - unfold do_add, Batcher.Add. by rewrite Hc.
  - unfold do_flush, Flush. by destruct (buffer _).
  - unfold do_close, Batcher.Close. by rewrite Hc.
  - done.
  - pose proof (inv_maxSize_pos _ Hinv) as Hpos. pose proof (inv_inflight _ Hinv) as Hif.
    rewrite Hl, list.Forall_app, list.Forall_cons in Hif. destruct Hif as (_ & Hok & _).
    unfold do_resume. destruct (resume _ _ _) as [[[b' new] out]|] eqn:Hres; [simpl|done].
    by destruct (resume_inv _ _ _ _ _ _ _ Hres eq_refl Hpos Hok) as (_ & -> & _).
Qed.

Lemma resume_accepted (s : Batcher.sys Rec) l1 p l2 r : accepted (do_resume s l1 p l2 r) = accepted s.
Proof. unfold do_resume. by destruct (resume _ _ _) as [[[? ?] ?]|]. Qed.

Lemma flushFn_keeps batch s r s' : flushFn batch s = Some (r, s') →
  f_todo s' = f_todo s ∧ flushErrors s' = flushErrors s ∧ f_sys s' = f_sys s ∧ f_caller s' = f_caller s.
Proof. unfold flushFn. intros H. by destruct (ProcessBatch _ _ _ _ _ _ _ _ _); simplify_eq/=. Qed.

Definition closing_caller (c : caller) : bool :=
  match c with AtCall | AtFlush false _ => false | _ => true end.

Record finv (records : list Rec) (batchSize : Z) (s : fstate) : Prop := {
  finv_sys : Batcher.reachable batchSize second (f_sys s);
  finv_recs : ∃ dropped, records ≡ₚ accepted (f_sys s) ++ dropped ++ f_todo s ∧
                (length dropped ≤ length (flushErrors s))%nat;
  finv_closing : closing_caller (f_caller s) = true → f_todo s = [] ∧ closed (bat (f_sys s)) = true
}.

(** A step of a goroutine that is not in a call of [Add] or [Close]. *)
Lemma goroutine_finv records m (s s' : fstate) sys' c errs :
  finv records m s → f_todo s' = f_todo s → flushErrors s' = flushErrors s →
  Batcher.step (f_sys s) sys' → accepted sys' = accepted (f_sys s) →
  (closing_caller c = true → closing_caller (f_caller s) = true) →
  finv records m (f_with s' sys' c errs).
Proof.
  intros [Hr (dropped & Hp & Hl) Hc] Ht He Hs Ha Hcc. split; cbn [f_with f_sys f_todo f_caller flushErrors].
  - by eapply reach_step.
  - exists dropped. rewrite Ha, Ht, He, length_app. split; [done|lia].
  - intros H. destruct (Hc (Hcc H)) as [? Hcl]. rewrite Ht. split; [done|].
    eapply step_closed; [by eapply reachable_inv|done|done].
Qed.

Lemma fstep_finv records m s s' : finv records m s → fstep s s' → finv records m s'.
Proof.
  intros Hinv Hstep. destruct Hstep as [s r rs Hc Ht|s Hc Ht|s closing batch l1 l2 r s' Hc Hl Hf|
    s batch l1 l2 Hc Hl|s Ht|s p l1 l2 Hl Hp|s batch l1 l2 r s' Hl Hf].
  - destruct Hinv as [Hr (dropped & Hp & Hl) _].
    assert (Batcher.reachable m second (do_add (f_sys s) r)) as Hr'
      by (eapply reach_step; [done|apply step_add]).
    rewrite Ht in Hp. unfold f_add. destruct (Batcher.Add (bat (f_sys s)) r) as [c b] eqn:Hadd. cbn [fst].
    assert (accepted (do_add (f_sys s) r) =
            if add_accepts c then accepted (f_sys s) ++ [r] else accepted (f_sys s)) as Ha
      by (unfold do_add; by rewrite Hadd).
    destruct c as [[e|]|batch]; (split; cbn [f_with f_sys f_todo f_caller flushErrors opt_list]; [done| |done]);
      rewrite Ha; cbn [add_accepts]; rewrite ?app_nil_r.
    + exists (dropped ++ [r]). rewrite !length_app. cbn [length]. split; [rewrite Hp; solve_Permutation|lia].
    + exists dropped. split; [rewrite Hp; solve_Permutation|done].
    + exists dropped. split; [rewrite Hp; solve_Permutation|done].
  - destruct Hinv as [Hr (dropped & Hp & Hl) _].
    assert (Batcher.reachable m second (do_close (f_sys s))) as Hr'
      by (eapply reach_step; [done|apply step_close]).
    assert (closed (bat (do_close (f_sys s))) = true ∧ accepted (do_close (f_sys s)) = accepted (f_sys s)) as [Hcl Ha].
    { unfold do_close, Batcher.Close. destruct (closed (bat (f_sys s))) eqn:Hcl; [done|].
      by destruct (buffer (bat (f_sys s))). }
    unfold f_close. destruct (Batcher.Close (bat (f_sys s))).1;
      (split; cbn [f_with f_sys f_todo f_caller flushErrors]; [done| |done]);
      exists dropped; by rewrite Ha, app_nil_r.
  - apply flushFn_keeps in Hf as (? & ? & ? & ?).
    apply (goroutine_finv records m s); [done..|by apply step_resume|apply resume_accepted|].
    rewrite Hc. by destruct closing.
  - apply (goroutine_finv records m s); [done..|by apply step_resume|apply resume_accepted|].
    by rewrite Hc.
  - by apply (goroutine_finv records m s); [..|apply step_fire| |].
  - by apply (goroutine_finv records m s); [..|apply step_resume|apply resume_accepted|].
  - apply flushFn_keeps in Hf as (? & ? & ? & Hc).
    apply (goroutine_finv records m s); [done..|by apply step_resume|apply resume_accepted|done].
Qed.

Lemma freachable_finv records m lw now w s : freachable records m lw now w s → finv records m s.
Proof.
  induction 1; [|by eapply fstep_finv]. split; cbn; [apply reach_init| |done].
  by exists [].
Qed.

(** [FlushBatcher] hands every record over.  When the caller has returned and no timer
    goroutine is left, each record is in exactly one batch given to [ProcessBatch], apart
    from dropped ones, of which there are at most as many as errors returned. *)
Theorem FlushBatcher_hands_over records batchSize lw now w s :
  freachable records batchSize lw now w s → f_caller s = Returned → inflight (f_sys s) = [] →
  ∃ dropped, records ≡ₚ concat (map fst (sink (f_sys s))) ++ dropped ∧
    (length dropped ≤ length (flushErrors s))%nat.
Proof.
  intros Hr Hc Hi. destruct (freachable_finv _ _ _ _ _ _ Hr) as [Hs (dropped & Hp & Hl) Hcl].
  destruct Hcl as [Ht Hclosed]; [by rewrite Hc|].
  pose proof (reachable_inv _ _ _ Hs) as [Ha _ _ _ _ Hb _ _].
  exists dropped. split; [|done].
  by rewrite Hp, Ht, Ha, Hi, (Hb Hclosed), !app_nil_r.
Qed.
End flush_batcher.
Arguments fstate : clear implicits.

(** ** Returning before the work is done *)

Section early.
Variables r1 r2 : Rec.

Let reach := freachable background writing_registry "warehouse" RawEmpty no_catalog [r1; r2] 10 (NewLoadWorker 10 3) 0 tt.

(** The timer has taken the first record when the caller closes. *)
Definition early_0 : fstate unit := f_init [r1; r2] 10 (NewLoadWorker 10 3) 0 tt.
Definition early_1 : fstate unit := f_add early_0 r1 [r2].
Definition early_2 : fstate unit := f_with early_1 (do_fire (f_sys early_1)) AtCall [].
Definition early_3 : fstate unit := f_with early_2 (do_resume (f_sys early_2) [] PTimer [] None) AtCall [].
Definition early_4 : fstate unit := f_close (f_add early_3 r2 []).
Definition early_5 : fstate unit :=
  f_with early_4 (do_resume (f_sys early_4) [PFlush true [r1]] (PCloseDone [r2]) [] None) (AtFlush true [r2]) [].

Lemma early_5_reachable : reach early_5.
Proof.
  apply (freach_step _ _ _ _ _ _ _ _ _ _ early_4);
    [|by apply (fstep_close_done _ _ _ _ _ early_4 [r2] [PFlush true [r1]] [])].
  apply (freach_step _ _ _ _ _ _ _ _ _ _ (f_add early_3 r2 [])); [|by apply fstep_close].
  apply (freach_step _ _ _ _ _ _ _ _ _ _ early_3); [|by apply fstep_add].
  apply (freach_step _ _ _ _ _ _ _ _ _ _ early_2);
    [|apply (fstep_timer _ _ _ _ _ early_2 PTimer [] []); [done|by left]].
  apply (freach_step _ _ _ _ _ _ _ _ _ _ early_1); [|by apply (fstep_fire _ _ _ _ _ early_1)].
  apply (freach_step _ _ _ _ _ _ _ _ _ _ early_0); [apply freach_init|by apply fstep_add].
Qed.

(** The state when the caller flushes the batch [Close] gave it, written out, and the
    states after the call of the flush function and after the return. *)
Definition early_batcher : Batcher Rec :=
  mkBatcher 10 second [] true true true None.
Definition early_lw : LoadWorker := mkLoadWorker 10 3 (100 * millisecond) (30 * second) [].
Definition early_5_nf : fstate unit :=
  mkFstate (mkSys early_batcher [PFlush true [r1]; PFlush false [r2]] [] [r1; r2] false) []
    (AtFlush true [r2]) (mkWriteResult 0 [] []) [] early_lw 0 tt.
Definition early_5_flushed : fstate unit :=
  mkFstate (mkSys early_batcher [PFlush true [r1]; PFlush false [r2]] [] [r1; r2] false) []
    (AtFlush true [r2]) (mkWriteResult 1 [] []) [] early_lw 1 tt.
Definition early_6 : fstate unit :=
  mkFstate (mkSys early_batcher [PFlush true [r1]] [([r2], None)] [r1; r2] false) []
    Returned (mkWriteResult 1 [] []) [] early_lw 1 tt.

Lemma early_5_eq : early_5 = early_5_nf.
Proof. reflexivity. Qed.
Lemma early_5_flush :
  flushFn background writing_registry "warehouse" RawEmpty no_catalog [r2] early_5_nf = Some (None, early_5_flushed).
Proof. reflexivity. Qed.

(** [FlushBatcher] may return before the work is done.  [Close] does not wait for a
    timer goroutine: with the first of two records in the batch of one, the caller returns
    without an error and with one record written. *)
Theorem FlushBatcher_returns_early :
  ∃ s, freachable background writing_registry "warehouse" RawEmpty no_catalog [r1; r2] 10
         (NewLoadWorker 10 3) 0 tt s ∧
    f_caller s = Returned ∧ flushErrors s = [] ∧ totalResult s = mkWriteResult 1 [] [] ∧
    inflight (f_sys s) = [PFlush true [r1]].
Proof.
  exists early_6. split; [|repeat split].
  apply (freach_step _ _ _ _ _ _ _ _ _ _ early_5); [apply early_5_reachable|]. rewrite early_5_eq.
  exact (fstep_flush _ _ _ _ _ early_5_nf true [r2] [PFlush true [r1]] [] None early_5_flushed
           eq_refl eq_refl early_5_flush).
Qed.
End early.

(** A timer flush that fails after the last [Add] is reported by nobody: [Close] does not
    look at the stored error. *)
Theorem FlushBatcher_swallows_timer_error r :
  ∃ s, freachable background (registry_init (W := unit)) "warehouse" RawEmpty no_catalog [r] 10
         (NewLoadWorker 10 3) 0 tt s ∧
    f_caller s = Returned ∧ flushErrors s = [] ∧ inflight (f_sys s) = [] ∧
    totalResult s = mkWriteResult 0 [] [] ∧ lw_deadLetter (f_lw s) = [].
Proof.
  set (s1 := f_add (f_init [r] 10 (NewLoadWorker 10 3) 0 tt) r []).
  set (s2 := f_with s1 (do_fire (f_sys s1)) AtCall []).
  set (s3 := f_with s2 (do_resume (f_sys s2) [] PTimer [] None) AtCall []).
  set (e := NewConnectorError "warehouse" "get_destination"
              (ErrText ("destination connector " +:+ quote "warehouse" +:+ " not registered"))).
  set (s4 := f_with s3 (do_resume (f_sys s3) [] (PFlush true [r]) [] (Some e)) AtCall []).
  set (s5 := f_with s4 (do_resume (f_sys s4) [] (PSetErr e) [] None) AtCall []).
  exists (f_with (f_close s5) (do_resume (f_sys (f_close s5)) [] (PCloseDone []) [] None) Returned []).
  split; [|repeat split].
  apply (freach_step _ _ _ _ _ _ _ _ _ _ (f_close s5)); [|by apply (fstep_close_done _ _ _ _ _ (f_close s5) [] [] [])].
  apply (freach_step _ _ _ _ _ _ _ _ _ _ s5); [|by apply fstep_close].
  apply (freach_step _ _ _ _ _ _ _ _ _ _ s4);
    [|apply (fstep_timer _ _ _ _ _ s4 (PSetErr e) [] []); [done|right; by exists e]].
  apply (freach_step _ _ _ _ _ _ _ _ _ _ s3); [|by apply (fstep_timer_flush _ _ _ _ _ s3 [r] [] [] (Some e) s3)].
  apply (freach_step _ _ _ _ _ _ _ _ _ _ s2);
    [|apply (fstep_timer _ _ _ _ _ s2 PTimer [] []); [done|by left]].
  apply (freach_step _ _ _ _ _ _ _ _ _ _ s1); [|by apply (fstep_fire _ _ _ _ _ s1)].
  eapply freach_step; [apply freach_init|by apply fstep_add].
Qed.

(** ** Witness *)

Definition drained_0 : fstate unit := f_init [row 1] 1 (NewLoadWorker 10 3) 0 tt.
Definition drained_1 : fstate unit := f_add drained_0 (row 1) [].
Definition drained_2 : fstate unit :=
  from_option (λ p, f_with p.2 (do_resume (f_sys drained_1) [] (PFlush false [row 1]) [] p.1) AtCall [])
    drained_1 (flushFn background writing_registry "warehouse" RawEmpty no_catalog [row 1] drained_1).
Definition drained_3 : fstate unit :=
  f_with (f_close drained_2) (do_resume (f_sys (f_close drained_2)) [] (PCloseDone []) [] None) Returned [].

Lemma FlushBatcher_hands_over_witness :
  freachable background writing_registry "warehouse" RawEmpty no_catalog [row 1] 1 (NewLoadWorker 10 3) 0 tt
    drained_3 ∧
  sink (f_sys drained_3) = [([row 1], None)] ∧
  ∃ dropped, [row 1] ≡ₚ concat (map fst (sink (f_sys drained_3))) ++ dropped ∧
    (length dropped ≤ length (flushErrors drained_3))%nat.
Proof.
  assert (freachable background writing_registry "warehouse" RawEmpty no_catalog [row 1] 1
            (NewLoadWorker 10 3) 0 tt drained_3) as Hr.
  { apply (freach_step _ _ _ _ _ _ _ _ _ _ (f_close drained_2));
      [|by apply (fstep_close_done _ _ _ _ _ (f_close drained_2) [] [] [])].
    apply (freach_step _ _ _ _ _ _ _ _ _ _ drained_2); [|by apply fstep_close].
    apply (freach_step _ _ _ _ _ _ _ _ _ _ drained_1);
      [|by apply (fstep_flush _ _ _ _ _ drained_1 false [row 1] [] [] None)].
    apply (freach_step _ _ _ _ _ _ _ _ _ _ drained_0); [apply freach_init|by apply fstep_add]. }
  split; [exact Hr|]. split; [reflexivity|].
  by eapply (FlushBatcher_hands_over _ _ _ _ _ _ _ _ _ _ _ Hr).
Defined.
