(* ===== verification/ExtractWorker.v ===== *)
(** * Extract worker: [internal/worker/extract/worker.go]

    One reading of a source at a time: the source runs in a goroutine and its messages
    arrive over a channel in order; control messages make the consumer wait and are not
    part of the result.  [cut] says after how many messages the deadline or the caller
    cancelled the read ([None]: never), as in [Protocol]. *)

From S2P Require Import Prelude GoStrings Errors Float Value Protocol.

Record ExtractWorker := mkExtractWorker {
  ew_batchSize : Z; ew_readTimeout : Z; ew_rateLimitDelay : Z; isRunning : bool
}.

Definition ew_second : Z := 1000000000.

Definition NewExtractWorker (batchSize readTimeout : Z) : ExtractWorker :=
  mkExtractWorker (if batchSize <=? 0 then 1000 else batchSize)
                  (if readTimeout <=? 0 then 5 * 60 * ew_second else readTimeout) (1 * ew_second) false.

Definition set_running (w : ExtractWorker) (b : bool) : ExtractWorker :=
  mkExtractWorker (ew_batchSize w) (ew_readTimeout w) (ew_rateLimitDelay w) b.

(** ** Control messages *)

(** Decoding into the field [retry_after_seconds]: the last value it is given, and whether
    a member of the wrong kind was seen. *)
Definition retry_after_member (l : list (string * json)) : float64 * bool :=
  foldl (λ acc e,
    if key_matches "retry_after_seconds" e.1
    then match e.2 with
         | JNull => acc
         | JNum n => match num_value n with Some f => (f, acc.2) | None => (acc.1, true) end
         | _ => (acc.1, true)
         end
    else acc) (SpecFloat.S754_zero false, false) l.

(** The decoded number; [None] for an error. *)
Definition retry_after (data : RawMessage) : option float64 :=
  match data with
  | RawDoc JNull => Some (SpecFloat.S754_zero false)
  | RawDoc (JObj l) => let '(f, bad) := retry_after_member l in if bad then None else Some f
  | _ => None
  end.

Definition parseRateLimitDelay (w : ExtractWorker) (data : RawMessage) : Z :=
  match data with
  | RawEmpty => ew_rateLimitDelay w
  | _ =>
      match retry_after data with
      | None => ew_rateLimitDelay w
      | Some f => if f_leb f (SpecFloat.S754_zero false) then ew_rateLimitDelay w
                  else f_to_i64 (f_mul f (f_of_Z ew_second))
      end
  end.

(** How long the consumer waits, unless the context ends first; [None]: not at all. *)
Definition handleControl (w : ExtractWorker) (ctrl : Control) : option Z :=
  match ctl_Type ctrl with
  | ControlTypeRateLimit => Some (parseRateLimitDelay w (ctl_Data ctrl))
  | ControlTypeBackpressure => Some (ew_rateLimitDelay w)
  | ControlTypePause => Some (30 * ew_second)
  | _ => None
  end.

(** ** Reading *)

(** The loop over the channel: the messages kept and the waits made. *)
Definition consume_step (w : ExtractWorker) (acc : list Message * list Z) (msg : Message) : list Message * list Z :=
  match msg_Control msg with
  | Some ctrl => (acc.1, match handleControl w ctrl with Some d => acc.2 ++ [d] | None => acc.2 end)
  | None => (acc.1 ++ [msg], acc.2)
  end.
Definition consume (w : ExtractWorker) (msgs : list Message) : list Message * list Z :=
  foldl (consume_step w) ([], []) msgs.

Section worker.
Context {W : Type} (reg : connectorRegistry W).

(** First critical section: refuse or mark as running. *)
Definition acquire (w : ExtractWorker) (connectorName : string) : option error * ExtractWorker :=
  if isRunning w
  then (Some (ErrText ("extract worker already running for connector " +:+ connectorName)), w)
  else (None, set_running w true).

(** From the registry to the result: what is between the two critical sections. *)
Definition read_all (w : ExtractWorker) (connectorName : string) (config : RawMessage)
    (catalog : ConfiguredCatalog) (state : state_map) (cut : option nat) :
    res (list Message * option error * list Z) :=
  match GetSource reg connectorName with
  | Err e => Err (NewConnectorError connectorName "get_source" e)
  | Panic m => Panic m
  | Ok src =>
      let '(sent, readErr) := src_Read src config catalog state cut in
      let '(messages, waits) := consume w sent in
      Ok (messages,
          match readErr with Some e => Some (NewConnectorError connectorName "read" e) | None => None end,
          waits)
  end.

(** Deferred: no longer running. *)
Definition release (w : ExtractWorker) : ExtractWorker := set_running w false.

(** The whole call: messages, error and waits, and the worker afterwards. *)
Definition ProcessBatch (w : ExtractWorker) (connectorName : string) (config : RawMessage)
    (catalog : ConfiguredCatalog) (state : state_map) (cut : option nat) :
    res (list Message * option error * list Z) * ExtractWorker :=
  match acquire w connectorName with
  | (Some e, w) => (Err e, w)
  | (None, w) => (read_all w connectorName config catalog state cut, release w)
  end.
End worker.

Definition CollectRecords (messages : list Message) : list Rec := omap msg_Record messages.
Definition CollectStates (messages : list Message) : list State := omap msg_State messages.

(** ** What a call returns *)

Definition kept (msg : Message) : bool := match msg_Control msg with None => true | Some _ => false end.
Definition waits_of (w : ExtractWorker) (msgs : list Message) : list Z :=
  omap (λ msg, c ← msg_Control msg; handleControl w c) msgs.

Lemma consume_kept_acc w msgs acc :
  foldl (consume_step w) acc msgs = (acc.1 ++ List.filter kept msgs, acc.2 ++ waits_of w msgs).
Proof.
  revert acc. induction msgs as [|m ms IH]; intros [a b]; cbn [foldl].
  { by rewrite !app_nil_r. }
  rewrite IH. unfold consume_step, waits_of, kept. cbn [List.filter omap list_omap fst snd].
  destruct (msg_Control m) as [c|]; cbn.
  - destruct (handleControl w c); cbn; by rewrite <- ?app_assoc.
  - by rewrite <- app_assoc.
Qed.

Lemma consume_kept w msgs : consume w msgs = (List.filter kept msgs, waits_of w msgs).
Proof. apply consume_kept_acc. Qed.

Lemma set_running_twice w b c : set_running (set_running w b) c = set_running w c.
Proof. done. Qed.

(** A call on an idle worker returns every message the source sent except the control
    messages, in order, together with the error of the source if it failed; for each
    control message that asks for it, there is one wait; the worker is idle again whatever
    happened, and a busy worker refuses the call. *)
Theorem ExtractWorker_ProcessBatch_spec {W} (reg : connectorRegistry W) w name config catalog state cut src :
  GetSource reg name = Ok src →
  ProcessBatch reg w name config catalog state cut =
    (if isRunning w
     then Err (ErrText ("extract worker already running for connector " +:+ name))
     else let '(sent, err) := src_Read src config catalog state cut in
          Ok (List.filter kept sent, NewConnectorError name "read" <$> err, waits_of (set_running w true) sent), w).
Proof.
  intros Hs. destruct w as [bs rt rl run]. unfold ProcessBatch, acquire. cbn [isRunning].
  destruct run; [done|]. unfold read_all. rewrite Hs. destruct (src_Read _ _ _ _ _) as [sent err].
  rewrite consume_kept. by destruct err.
Qed.

(** The records handed to the next phase are those the source sent outside of control
    messages. *)
Lemma CollectRecords_kept sent :
  CollectRecords (List.filter kept sent) =
  omap (λ m, match msg_Control m with None => msg_Record m | Some _ => None end) sent.
Proof.
  unfold CollectRecords, kept. induction sent as [|m ms IH]; [done|]. cbn.
  destruct (msg_Control m); cbn; [done|]. destruct (msg_Record m); cbn; [by f_equal|done].
Qed.

(** ** One reader at a time *)

(** Calls between their two critical sections, over a shared worker. *)
Inductive ewstep : ExtractWorker * nat → ExtractWorker * nat → Prop :=
| ew_acquire w n name w' : acquire w name = (None, w') → ewstep (w, n) (w', S n)
| ew_refuse w n name e w' : acquire w name = (Some e, w') → ewstep (w, n) (w', n)
| ew_release w n : ewstep (w, S n) (release w, n).

Definition ew_inv (s : ExtractWorker * nat) : Prop :=
  (s.2 ≤ 1)%nat ∧ isRunning s.1 = bool_decide (s.2 = 1%nat).

Lemma ewstep_inv s s' : ewstep s s' → ew_inv s → ew_inv s'.
Proof.
  unfold ew_inv. intros [w n name w' Ha|w n name e w' Ha|w n] [Hn Hr]; cbn [fst snd] in *.
  1, 2: unfold acquire in Ha; rewrite Hr in Ha; case_bool_decide; simplify_eq/=; auto.
  - assert (n = 0%nat) as -> by lia. auto.
  - assert (n = 0%nat) as -> by lia. auto.
Qed.

(** However the calls interleave, at most one is reading, and the flag says whether one is. *)
Lemma one_reader batchSize readTimeout w n :
  rtc ewstep (NewExtractWorker batchSize readTimeout, 0%nat) (w, n) →
  (n ≤ 1)%nat ∧ isRunning w = bool_decide (n = 1%nat).
Proof.
  intros H. change (ew_inv (w, n)).
  assert (ew_inv (NewExtractWorker batchSize readTimeout, 0%nat)) as H0 by (split; [simpl; lia|done]).
  induction H as [|s1 s2 s3 Hstep _ IH]; [done|]. eauto using ewstep_inv.
Qed.

(** ** Rate limits *)

(** A positive whole number of seconds up to 9223372036 is waited for exactly; one second
    more no longer fits a duration, and the wait is over at once. *)
Example rate_limit_wait w :
  handleControl w (mkControl ControlTypeRateLimit "" (RawDoc (JObj [("retry_after_seconds", JNum (NLit "30" 30 0))])))
    = Some (30 * ew_second) ∧
  handleControl w (mkControl ControlTypeRateLimit "" (RawDoc (JObj [("retry_after_seconds",
    JNum (NLit "9223372037" 9223372037 0))]))) = Some int64_min.
Proof. split; vm_compute; reflexivity. Qed.

(** ** Witness *)

Definition control_source : Source :=
  mkSource (Err (ErrText "no spec")) (λ _, Err (ErrText "no check")) (λ _, Err (ErrText "no catalog"))
    (λ _ _ _ _, ([record_message (mkRec "rows" "" RawEmpty 1);
                   control_message (mkControl ControlTypeBackpressure "" RawEmpty);
                   record_message (mkRec "rows" "" RawEmpty 2)], Some (ErrText "connection reset"))).

Lemma ExtractWorker_ProcessBatch_spec_witness :
  ProcessBatch (W := unit) (mkRegistry {["crm" := control_source]} ∅ ∅ ∅) (NewExtractWorker 10 0) "crm" RawEmpty
    (mkConfiguredCatalog []) ∅ None =
  (Ok ([record_message (mkRec "rows" "" RawEmpty 1); record_message (mkRec "rows" "" RawEmpty 2)],
       Some (NewConnectorError "crm" "read" (ErrText "connection reset")), [ew_second]),
   NewExtractWorker 10 0).
Proof.
  apply (ExtractWorker_ProcessBatch_spec (mkRegistry {["crm" := control_source]} ∅ ∅ ∅) (NewExtractWorker 10 0)
           "crm" RawEmpty (mkConfiguredCatalog []) ∅ None control_source).
  reflexivity.
Defined.
