(* ===== verification/EditDistance.v ===== *)
(** * Edit distance: [levenshteinDistance] of [internal/mapping/auto/automapper.go]

    The two-row dynamic program of the code, with its index loops and the swap of its rows,
    and the reference it computes: the length of a shortest edit script between the runes of
    two strings. *)

From S2P Require Import Prelude GoStrings.

(** ** The program *)

(** [cost], [ins], [del], [sub] and their minimum, at column [i] of a row. *)
Definition cell (ra : list Z) (b : Z) (prev curr : list Z) (i : nat) : Z :=
  let cost := if bool_decide (ra !!! (i - 1)%nat = b) then 0 else 1 in
  let ins := curr !!! (i - 1)%nat + 1 in
  let del := prev !!! i + 1 in
  let sub := prev !!! (i - 1)%nat + cost in
  let min := ins in
  let min := if del <? min then del else min in
  if sub <? min then sub else min.

(** [for i := 1; i <= la; i++], [n] columns from [i] on. *)
Fixpoint fill_row (n i : nat) (ra : list Z) (b : Z) (prev curr : list Z) : list Z :=
  match n with
  | O => curr
  | S n => fill_row n (S i) ra b prev (<[i := cell ra b prev curr i]> curr)
  end.

(** [for j := 1; j <= lb; j++]: the rows from [j] on, for the remaining runes of [rb]. *)
Fixpoint fill_rows (ra rb : list Z) (j : nat) (prev curr : list Z) : list Z :=
  match rb with
  | [] => prev
  | b :: rb =>
      let curr := fill_row (length ra) 1 ra b prev (<[0%nat := Z.of_nat j]> curr) in
      fill_rows ra rb (S j) curr prev
  end.

Definition rune_values (s : string) : list Z := map fst (runes s).

Definition levenshteinDistance (a b : string) : Z :=
  let ra := rune_values a in
  let rb := rune_values b in
  if bool_decide (length ra = 0%nat) then Z.of_nat (length rb)
  else if bool_decide (length rb = 0%nat) then Z.of_nat (length ra)
  else
    let '(ra, rb) := if bool_decide (length rb < length ra)%nat then (rb, ra) else (ra, rb) in
    let la := length ra in
    let prev := map Z.of_nat (seq 0 (la + 1)) in
    let curr := replicate (la + 1) 0 in
    fill_rows ra rb 1 prev curr !!! la.

(** ** The reference: edit scripts *)

(** Editing [x] into [y] with [n] insertions, deletions and replacements. *)
Inductive script {A} : list A → list A → nat → Prop :=
| script_nil : script [] [] 0
| script_keep a x y n : script x y n → script (a :: x) (a :: y) n
| script_replace a b x y n : script x y n → script (a :: x) (b :: y) (S n)
| script_insert b x y n : script x y n → script x (b :: y) (S n)
| script_delete a x y n : script x y n → script (a :: x) y (S n).

(** [n] edits are enough, and fewer are not. *)
Definition edit_distance {A} (x y : list A) (n : nat) : Prop :=
  script x y n ∧ ∀ m, script x y m → (n ≤ m)%nat.

Lemma script_app {A} (x y x' y' : list A) n m :
  script x y n → script x' y' m → script (x ++ x') (y ++ y') (n + m).
Proof. induction 1; intros; simpl; [done|by constructor; auto..]. Qed.

Lemma script_reverse {A} (x y : list A) n : script x y n → script (reverse x) (reverse y) n.
Proof.
  induction 1 as [|a x y n _ IH|a b x y n _ IH|b x y n _ IH|a x y n _ IH]; rewrite ?reverse_cons; [constructor|..].
  - rewrite <- (Nat.add_0_r n). apply script_app; [done|]. repeat constructor.
  - rewrite <- (Nat.add_1_r n). apply script_app; [done|]. repeat constructor.
  - rewrite <- (Nat.add_1_r n), <- (app_nil_r (reverse x)). apply script_app; [done|]. repeat constructor.
  - rewrite <- (Nat.add_1_r n), <- (app_nil_r (reverse y)). apply script_app; [done|]. repeat constructor.
Qed.

Lemma script_sym {A} (x y : list A) n : script x y n → script y x n.
Proof. induction 1; by constructor. Qed.

Lemma script_refl {A} (x : list A) : script x x 0.
Proof. induction x; by constructor. Qed.

Lemma script_to_nil {A} (x : list A) : script x [] (length x).
Proof. induction x; simpl; by constructor. Qed.

Lemma script_from_nil {A} (y : list A) : script [] y (length y).
Proof. apply script_sym, script_to_nil. Qed.

Lemma script_length {A} (x y : list A) n : script x y n →
  (length x ≤ length y + n ∧ length y ≤ length x + n)%nat.
Proof. induction 1; simpl; lia. Qed.

Lemma edit_distance_reverse {A} (x y : list A) n :
  edit_distance (reverse x) (reverse y) n → edit_distance x y n.
Proof.
  intros [Hs Hm]. split.
  - apply script_reverse in Hs. by rewrite !reverse_involutive in Hs.
  - intros m Hx. by apply Hm, script_reverse.
Qed.

Lemma edit_distance_sym {A} (x y : list A) n : edit_distance x y n → edit_distance y x n.
Proof. intros [Hs Hm]. split; [by apply script_sym|]. intros m H. by apply Hm, script_sym. Qed.

Lemma edit_distance_nil {A} (y : list A) : edit_distance [] y (length y).
Proof. split; [apply script_from_nil|]. intros m H. apply script_length in H. simpl in H. lia. Qed.

(** The recurrence on the first runes. *)
Lemma edit_distance_cons {A} `{EqDecision A} (a b : A) x y k1 k2 k3 :
  edit_distance x (b :: y) k1 → edit_distance (a :: x) y k2 → edit_distance x y k3 →
  edit_distance (a :: x) (b :: y)
    (Nat.min (Nat.min (S k1) (S k2)) (k3 + if bool_decide (a = b) then 0 else 1)).
Proof.
  intros [H1 M1] [H2 M2] [H3 M3]. set (d := (k3 + if bool_decide (a = b) then 0 else 1)%nat).
  assert (script (a :: x) (b :: y) d) as Hd.
  { subst d. case_bool_decide; subst; [rewrite Nat.add_0_r; by constructor|].
    rewrite Nat.add_1_r. by constructor. }
  split.
  - destruct (Nat.min_spec (Nat.min (S k1) (S k2)) d) as [[_ ->]|[_ ->]]; [|done].
    destruct (Nat.min_spec (S k1) (S k2)) as [[_ ->]|[_ ->]]; by constructor.
  - intros m Hm. inversion Hm as [|? ? ? ? Hs|? ? ? ? ? Hs|? ? ? ? Hs|? ? ? ? Hs]; subst; unfold d.
    + rewrite bool_decide_true by done. apply M3 in Hs. lia.
    + apply M3 in Hs. case_bool_decide; lia.
    + apply M2 in Hs. lia.
    + apply M1 in Hs. lia.
Qed.

(** The distance as a function, by recursion on the two lists. *)
Fixpoint edit (x : list Z) : list Z → nat :=
  match x with
  | [] => length
  | a :: x' => fix edit_a y :=
      match y with
      | [] => S (length x')
      | b :: y' => Nat.min (Nat.min (S (edit x' (b :: y'))) (S (edit_a y')))
                           (edit x' y' + if bool_decide (a = b) then 0 else 1)
      end
  end.

Lemma edit_correct x y : edit_distance x y (edit x y).
Proof.
  revert y. induction x as [|a x IHx]; intros y; [apply edit_distance_nil|].
  induction y as [|b y IHy]; [apply edit_distance_sym, (edit_distance_nil (a :: x))|].
  by apply edit_distance_cons.
Qed.

(** ** The program computes it *)

(** The distance of two prefixes. *)
Definition prefix_edit (ra rb : list Z) (i j : nat) : Z :=
  Z.of_nat (edit (reverse (take i ra)) (reverse (take j rb))).

Lemma prefix_edit_0_r ra rb i : (i ≤ length ra)%nat → prefix_edit ra rb i 0 = Z.of_nat i.
Proof.
  intros Hi. unfold prefix_edit. f_equal. destruct (reverse (take i ra)) as [|a x] eqn:Hx; simpl.
  - apply (f_equal length) in Hx. rewrite length_reverse, length_take in Hx. simpl in Hx. lia.
  - apply (f_equal length) in Hx. rewrite length_reverse, length_take in Hx. simpl in Hx. lia.
Qed.

Lemma prefix_edit_0_l ra rb j : (j ≤ length rb)%nat → prefix_edit ra rb 0 j = Z.of_nat j.
Proof. intros Hj. unfold prefix_edit. simpl. rewrite length_reverse, length_take. lia. Qed.

Lemma reverse_take_S (l : list Z) i :
  (i < length l)%nat → reverse (take (S i) l) = l !!! i :: reverse (take i l).
Proof.
  intros Hi. rewrite (take_S_r _ _ (l !!! i)) by (by apply list_lookup_lookup_total_lt).
  by rewrite reverse_app.
Qed.

Lemma prefix_edit_S ra rb i j : (i < length ra)%nat → (j < length rb)%nat →
  prefix_edit ra rb (S i) (S j) =
  Z.min (Z.min (prefix_edit ra rb i (S j) + 1) (prefix_edit ra rb (S i) j + 1))
        (prefix_edit ra rb i j + if bool_decide (ra !!! i = rb !!! j) then 0 else 1).
Proof.
  intros Hi Hj. unfold prefix_edit. rewrite !reverse_take_S by done.
  change (edit (ra !!! i :: reverse (take i ra)) (rb !!! j :: reverse (take j rb))) with
    (Nat.min (Nat.min (S (edit (reverse (take i ra)) (rb !!! j :: reverse (take j rb))))
                      (S (edit (ra !!! i :: reverse (take i ra)) (reverse (take j rb)))))
             (edit (reverse (take i ra)) (reverse (take j rb)) + if bool_decide (ra !!! i = rb !!! j) then 0 else 1)).
  case_bool_decide; lia.
Qed.

Lemma cell_spec ra rb i j prev curr : (i < length ra)%nat → (j < length rb)%nat →
  prev !!! i = prefix_edit ra rb i j → prev !!! S i = prefix_edit ra rb (S i) j →
  curr !!! i = prefix_edit ra rb i (S j) →
  cell ra (rb !!! j) prev curr (S i) = prefix_edit ra rb (S i) (S j).
Proof.
  intros Hi Hj H1 H2 H3. unfold cell. rewrite Nat.sub_succ, Nat.sub_0_r, H1, H2, H3.
  rewrite prefix_edit_S by done.
  destruct (Z.ltb_spec (prefix_edit ra rb (S i) j + 1) (prefix_edit ra rb i (S j) + 1));
    case_bool_decide; match goal with |- context [?a <? ?b] => destruct (Z.ltb_spec a b) end; lia.
Qed.

Lemma fill_row_spec ra rb j prev : ∀ n i curr,
  (j < length rb)%nat → (i + n = length ra)%nat →
  length curr = S (length ra) → length prev = S (length ra) →
  (∀ k, (k ≤ length ra)%nat → prev !!! k = prefix_edit ra rb k j) →
  (∀ k, (k ≤ i)%nat → curr !!! k = prefix_edit ra rb k (S j)) →
  length (fill_row n (S i) ra (rb !!! j) prev curr) = S (length ra) ∧
  ∀ k, (k ≤ length ra)%nat →
    fill_row n (S i) ra (rb !!! j) prev curr !!! k = prefix_edit ra rb k (S j).
Proof.
  induction n as [|n IH]; intros i curr Hj Hn Hlc Hlp Hp Hc; cbn [fill_row].
  { split; [done|]. intros k Hk. apply Hc. lia. }
  apply IH; [done|lia|by rewrite length_insert|done|done|].
  intros k Hk. destruct (decide (k = S i)) as [->|Hne].
  - rewrite list_lookup_total_insert_eq by lia.
    apply cell_spec; [lia|done|apply Hp; lia|apply Hp; lia|apply Hc; lia].
  - rewrite list_lookup_total_insert_ne by done. apply Hc. lia.
Qed.

Lemma fill_rows_spec ra : ∀ rest done_ prev curr rb,
  rb = done_ ++ rest →
  length curr = S (length ra) → length prev = S (length ra) →
  (∀ k, (k ≤ length ra)%nat → prev !!! k = prefix_edit ra rb k (length done_)) →
  fill_rows ra rest (S (length done_)) prev curr !!! length ra = prefix_edit ra rb (length ra) (length rb).
Proof.
  induction rest as [|b rest IH]; intros done_ prev curr rb Hrb Hlc Hlp Hp; cbn [fill_rows].
  { rewrite app_nil_r in Hrb. subst. by apply Hp. }
  assert (rb !!! length done_ = b) as Hb by (subst; by rewrite list_lookup_total_middle).
  assert (length done_ < length rb)%nat as Hlt by (subst; rewrite length_app; simpl; lia).
  destruct (fill_row_spec ra rb (length done_) prev (length ra) 0
              (<[0%nat := Z.of_nat (S (length done_))]> curr)) as [Hl Hrow];
    [done|lia|by rewrite length_insert|done|done| |].
  { intros k Hk. assert (k = 0%nat) as -> by lia.
    rewrite list_lookup_total_insert_eq by lia. rewrite prefix_edit_0_l; [done|lia]. }
  rewrite Hb in Hl, Hrow.
  replace (S (S (length done_))) with (S (length (done_ ++ [b]))) by (rewrite length_app; simpl; lia).
  apply (IH (done_ ++ [b])); [by rewrite <- app_assoc|done..|].
  intros k Hk. rewrite length_app, Nat.add_1_r. by apply Hrow.
Qed.

Lemma fill_rows_distance ra rb :
  edit_distance ra rb
    (Z.to_nat (fill_rows ra rb 1 (map Z.of_nat (seq 0 (length ra + 1))) (replicate (length ra + 1) 0)
                 !!! length ra)) ∧
  0 ≤ fill_rows ra rb 1 (map Z.of_nat (seq 0 (length ra + 1))) (replicate (length ra + 1) 0) !!! length ra.
Proof.
  rewrite (fill_rows_spec ra rb [] _ _ rb); [|done|by rewrite length_replicate; lia|
    by rewrite length_map, length_seq; lia|].
  - unfold prefix_edit. rewrite !take_ge, Nat2Z.id by lia. split; [|lia].
    apply edit_distance_reverse, edit_correct.
  - intros k Hk. rewrite prefix_edit_0_r by done. simpl.
    apply list_lookup_total_correct.
    change (map Z.of_nat) with (fmap (M := list) Z.of_nat).
    rewrite list_lookup_fmap, lookup_seq_lt by lia. done.
Qed.

(** C23: the two-row program computes the edit distance of the runes: some edit script of
    that length turns one string into the other, and no shorter one does. *)
Theorem levenshteinDistance_minimal a b :
  ∃ n, levenshteinDistance a b = Z.of_nat n ∧ edit_distance (rune_values a) (rune_values b) n.
Proof.
  unfold levenshteinDistance. set (ra := rune_values a). set (rb := rune_values b).
  case_bool_decide as Ha.
  { exists (length rb). split; [done|]. apply nil_length_inv in Ha. rewrite Ha. apply edit_distance_nil. }
  case_bool_decide as Hb.
  { exists (length ra). split; [done|]. apply nil_length_inv in Hb. rewrite Hb.
    apply edit_distance_sym, edit_distance_nil. }
  case_bool_decide.
  - destruct (fill_rows_distance rb ra) as [Hd Hp]. eexists. rewrite Z2Nat.id; [|exact Hp].
    split; [done|]. by apply edit_distance_sym.
  - destruct (fill_rows_distance ra rb) as [Hd Hp]. eexists. rewrite Z2Nat.id; [|exact Hp]. done.
Qed.

Example lev_kitten : levenshteinDistance "kitten" "sitting" = 3.
Proof. reflexivity. Qed.
