(* ===== verification/AutoMapper.v ===== *)
(** * Automatic field mapping: [internal/mapping/auto/automapper.go]

    Fields of two JSON schemas are paired by the similarity of their names (edit distance)
    and types, greedily by descending score.  [unicode.ToLower] is the parameter [tolower],
    [sort.Slice] (whose order of equal elements is unspecified) the parameter [sort_slice].
    The code ranges over Go maps when it reads a schema; the model takes the keys in order. *)

From Stdlib Require Import Sorted.
From S2P Require Import Prelude GoStrings Errors Float Value Protocol EditDistance.

Record FieldMapping := mkFieldMapping {
  fm_SourceField : string; fm_DestField : string; fm_Transform : string;
  fm_Confidence : float64; fm_AutoMatched : bool
}.

Record schemaField := mkSchemaField { sf_Path : string; sf_Type : string; sf_Name : string }.

Record AutoMapper := mkAutoMapper {
  MinConfidence : float64; TypeWeight : float64; NameWeight : float64
}.

Definition NewAutoMapper : AutoMapper :=
  mkAutoMapper (f_of_dec 3 (-1)) (f_of_dec 3 (-1)) (f_of_dec 7 (-1)).

(** [math.Round]: to the nearest integer, half away from zero. *)
Definition math_Round (x : float64) : float64 :=
  match x with
  | SpecFloat.S754_finite s m e =>
      if 0 <=? e then x
      else
        let d := 2 ^ (- e) in
        let q := if d <=? 2 * (Z.pos m mod d) then Z.pos m / d + 1 else Z.pos m / d in
        if q =? 0 then SpecFloat.S754_zero s else f_of_Z (if s then - q else q)
  | _ => x
  end.

(** ** Types *)

Definition compatible : list (string * string * float64) :=
  [("string", "number", f_of_dec 3 (-1)); ("number", "string", f_of_dec 5 (-1));
   ("string", "integer", f_of_dec 3 (-1)); ("integer", "string", f_of_dec 5 (-1));
   ("integer", "number", f_of_dec 9 (-1)); ("number", "integer", f_of_dec 7 (-1));
   ("boolean", "string", f_of_dec 4 (-1)); ("string", "boolean", f_of_dec 3 (-1));
   ("boolean", "integer", f_of_dec 3 (-1)); ("integer", "boolean", f_of_dec 3 (-1))].

Definition typeCompatibility (srcType destType : string) : float64 :=
  if bool_decide (srcType = destType) then f_of_Z 1
  else match List.find (λ e, bool_decide (e.1 = (srcType, destType))) compatible with
       | Some (_, score) => score
       | None => f_of_Z 0
       end.

Definition typeCoercionTransform (srcType destType : string) : string :=
  if bool_decide (destType = "string") then "to_string"
  else if bool_decide (destType = "integer") || bool_decide (destType = "number") then
    if bool_decide (srcType = "string") then "to_float"
    else if bool_decide (destType = "integer") then "to_int"
    else "to_float"
  else if bool_decide (destType = "boolean") then "to_bool"
  else "".

(** ** Reading a schema *)

(** Into [map[string]json.RawMessage]; [None] for an error. *)
Definition raw_map (j : json) : option (gmap string json) :=
  match j with
  | JNull => Some ∅
  | JObj l => Some (raw_members l ∅)
  | _ => None
  end.

(** The ["type"] of a field definition. *)
Definition field_type (fieldDef : gmap string json) : string :=
  match fieldDef !! "type" with
  | Some (JStr t) => t
  | Some JNull => ""
  | _ => "string"
  end.

(** [fuel] bounds the nesting of the schema. *)
Fixpoint extract_fields (fuel : nat) (schema : json) (prefix : string) : list schemaField :=
  match fuel with
  | O => []
  | S fuel =>
      match s ← raw_map schema; propsRaw ← s !! "properties"; raw_map propsRaw with
      | None => []
      | Some props =>
          concat (map (λ e : string * json,
            let path := if bool_decide (prefix = "") then e.1 else prefix +:+ "." +:+ e.1 in
            match raw_map e.2 with
            | None => [mkSchemaField path "string" e.1]
            | Some fieldDef =>
                let fieldType := field_type fieldDef in
                if bool_decide (fieldType = "object") then
                  match extract_fields fuel e.2 path with
                  | [] => [mkSchemaField path fieldType e.1]
                  | nested => nested
                  end
                else [mkSchemaField path fieldType e.1]
            end) (sorted_entries props))
      end
  end.

(** Nesting depth of a document. *)
Fixpoint jheight (j : json) : nat :=
  match j with
  | JArr l => S (foldr (λ j n, Nat.max (jheight j) n) 0%nat l)
  | JObj l => S (foldr (λ e n, Nat.max (jheight e.2) n) 0%nat l)
  | _ => 1%nat
  end.

Definition extractFields (schema : RawMessage) (prefix : string) : list schemaField :=
  match schema with
  | RawDoc j => extract_fields (jheight j) j prefix
  | _ => []
  end.

Section mapper.
Variable tolower : Z → Z.

(** ** Names *)

Definition is_separator (r : Z) : bool := (r =? 0x5F) || (r =? 0x2D) || (r =? 0x2E) || (r =? 0x20).

Definition normalizeName (name : string) : string :=
  of_bytes (concat (map (λ r, encode_rune (tolower r))
                        (List.filter (λ r, negb (is_separator r)) (rune_values name)))).

Definition nameSimilarity (a b : string) : float64 :=
  let na := normalizeName a in
  let nb := normalizeName b in
  if bool_decide (na = nb) then f_of_Z 1
  else if bool_decide (na = "") || bool_decide (nb = "") then f_of_Z 0
  else
    let dist := levenshteinDistance na nb in
    let maxLen := Z.max (Z.of_nat (String.length na)) (Z.of_nat (String.length nb)) in
    f_sub (f_of_Z 1) (f_div (f_of_Z dist) (f_of_Z maxLen)).

Variable am : AutoMapper.

Definition fieldScore (src dest : schemaField) : float64 :=
  f_add (f_mul (NameWeight am) (nameSimilarity (sf_Name src) (sf_Name dest)))
        (f_mul (TypeWeight am) (typeCompatibility (sf_Type src) (sf_Type dest))).

(** ** Matching *)

Record scoredPair := mkPair { srcIdx : nat; dstIdx : nat; score : float64 }.

Variable sort_slice : list scoredPair → list scoredPair.

(** All pairs of the two loops that reach the threshold. *)
Definition scored_pairs (srcFields destFields : list schemaField) : list scoredPair :=
  List.filter (λ p, f_leb (MinConfidence am) (score p))
    (concat (imap (λ si sf, imap (λ di df, mkPair si di (fieldScore sf df)) destFields) srcFields)).

(** The greedy loop: the pairs whose fields are both unused. *)
Fixpoint assign (pairs : list scoredPair) (usedSrc usedDst : gset nat) : list scoredPair :=
  match pairs with
  | [] => []
  | p :: pairs =>
      if bool_decide (srcIdx p ∈ usedSrc) || bool_decide (dstIdx p ∈ usedDst)
      then assign pairs usedSrc usedDst
      else p :: assign pairs ({[srcIdx p]} ∪ usedSrc) ({[dstIdx p]} ∪ usedDst)
  end.

Definition mapping_of (sf df : schemaField) (score : float64) : FieldMapping :=
  mkFieldMapping (sf_Path sf) (sf_Path df)
    (if negb (bool_decide (sf_Type sf = sf_Type df)) && negb (bool_decide (sf_Type sf = ""))
        && negb (bool_decide (sf_Type df = ""))
     then typeCoercionTransform (sf_Type sf) (sf_Type df) else "")
    (f_div (math_Round (f_mul score (f_of_Z 100))) (f_of_Z 100)) true.

Definition pair_mapping (srcFields destFields : list schemaField) (p : scoredPair) : option FieldMapping :=
  sf ← srcFields !! srcIdx p; df ← destFields !! dstIdx p; Some (mapping_of sf df (score p)).

Definition matchFields (srcFields destFields : list schemaField) : list FieldMapping :=
  omap (pair_mapping srcFields destFields)
    (assign (sort_slice (scored_pairs srcFields destFields)) ∅ ∅).

Definition SuggestStreamMappings (srcSchema destSchema : RawMessage) : list FieldMapping :=
  matchFields (extractFields srcSchema "") (extractFields destSchema "").

(** The first destination stream with the best positive similarity. *)
Definition best_stream (name : string) (streams : list Stream) : option Stream :=
  (foldl (λ acc dst,
     let score := nameSimilarity name (s_Name dst) in
     if f_ltb acc.2 score then (Some dst, score) else acc) (None, f_of_Z 0) streams).1.

Definition stream_mappings (dest : Catalog) (srcStream : Stream) : list FieldMapping :=
  match best_stream (s_Name srcStream) (cat_Streams dest) with
  | None => []
  | Some destStream => matchFields (extractFields (s_Schema srcStream) "") (extractFields (s_Schema destStream) "")
  end.

Definition SuggestMappings (source dest : option Catalog) : list FieldMapping * float64 :=
  match source, dest with
  | Some source, Some dest =>
      match cat_Streams source, cat_Streams dest with
      | [], _ | _, [] => ([], f_of_Z 0)
      | streams, _ =>
          let allMappings := concat (map (stream_mappings dest) streams) in
          if bool_decide (length allMappings = 0%nat) then ([], f_of_Z 0)
          else (allMappings,
                f_div (foldl (λ t m, f_add t (fm_Confidence m)) (f_of_Z 0) allMappings)
                      (f_of_Z (Z.of_nat (length allMappings))))
      end
  | _, _ => ([], f_of_Z 0)
  end.
End mapper.

(** ** The nesting bound is enough *)

Lemma raw_members_elem l : ∀ (m : gmap string json) k j,
  raw_members l m !! k = Some j → (k, j) ∈ l ∨ m !! k = Some j.
Proof.
  unfold raw_members. induction l as [|[k' j'] l IH]; intros m k j; cbn [foldl]; [by right|].
  intros [H|H]%IH; [left; by apply list_elem_of_further|]. cbn [fst snd] in H.
  destruct (decide (k' = k)) as [->|Hne].
  - rewrite lookup_insert_eq in H. simplify_eq. left. apply list_elem_of_here.
  - rewrite lookup_insert_ne in H by done. by right.
Qed.

Lemma jheight_member l k j : (k, j) ∈ l → (jheight j < jheight (JObj l))%nat.
Proof.
  cbn [jheight]. induction l as [|[k' j'] l IH]; intros H; [by apply elem_of_nil in H|].
  cbn [foldr snd]. apply elem_of_cons in H as [[= -> ->]|H]; [lia|]. specialize (IH H). lia.
Qed.

Lemma raw_map_height j m k j' : raw_map j = Some m → m !! k = Some j' → (jheight j' < jheight j)%nat.
Proof.
  destruct j as [| | | | |l]; try done; intros [= <-] H; [done|].
  apply raw_members_elem in H as [H|H]; [by eapply jheight_member|done].
Qed.

Lemma extract_fields_fuel : ∀ n n' j p, (jheight j ≤ n)%nat → (jheight j ≤ n')%nat →
  extract_fields n j p = extract_fields n' j p.
Proof.
  induction n as [|n IH]; intros n' j p Hn Hn'; [destruct j; simpl in Hn; lia|].
  destruct n' as [|n']; [destruct j; simpl in Hn'; lia|]. cbn [extract_fields].
  destruct (s ← raw_map j; propsRaw ← s !! "properties"; raw_map propsRaw) as [props|] eqn:Hp; [|done].
  apply bind_Some in Hp as (s & Hs & (pr & Hpr & Hprops)%bind_Some).
  f_equal. apply map_ext_in. intros [k f] Hin. cbn [fst snd].
  assert (jheight f < jheight j)%nat as Hh.
  { apply list_elem_of_In in Hin. rewrite sorted_entries_perm, elem_of_map_to_list in Hin.
    pose proof (raw_map_height _ _ _ _ Hs Hpr). pose proof (raw_map_height _ _ _ _ Hprops Hin). lia. }
  destruct (raw_map f); [|done]. case_bool_decide; [|done].
  by rewrite (IH n') by lia.
Qed.

(** Any greater bound reads the same fields. *)
Lemma extractFields_enough j p n : (jheight j ≤ n)%nat → extractFields (RawDoc j) p = extract_fields n j p.
Proof. intros H. by apply extract_fields_fuel. Qed.

(** ** The greedy matching *)

Lemma assign_elem ps : ∀ us ud p, p ∈ assign ps us ud → p ∈ ps ∧ srcIdx p ∉ us ∧ dstIdx p ∉ ud.
Proof.
  induction ps as [|q ps IH]; intros us ud p; cbn [assign]; [by intros ?%elem_of_nil|].
  destruct (bool_decide (srcIdx q ∈ us) || bool_decide (dstIdx q ∈ ud)) eqn:Hu.
  - intros (? & ? & ?)%IH. split_and!; [by apply list_elem_of_further|done..].
  - apply orb_false_iff in Hu as [Hs%bool_decide_eq_false Hd%bool_decide_eq_false].
    intros [->|(? & ? & ?)%IH]%elem_of_cons; [split_and!; [apply list_elem_of_here|done..]|].
    split_and!; [by apply list_elem_of_further|set_solver..].
Qed.

Lemma assign_nodup ps : ∀ us ud,
  NoDup (map srcIdx (assign ps us ud)) ∧ NoDup (map dstIdx (assign ps us ud)).
Proof.
  induction ps as [|q ps IH]; intros us ud; cbn [assign]; [split; constructor|].
  destruct (_ || _); [apply IH|]. destruct (IH ({[srcIdx q]} ∪ us) ({[dstIdx q]} ∪ ud)) as [H1 H2].
  split; cbn [map]; (constructor; [|done]);
    intros (p & Hp & (_ & ? & ?)%assign_elem)%list_elem_of_fmap; set_solver.
Qed.

Lemma assign_covers (R : scoredPair → scoredPair → Prop) ps : StronglySorted R ps → ∀ us ud p, p ∈ ps →
  srcIdx p ∈ us ∨ dstIdx p ∈ ud ∨
  ∃ q, q ∈ assign ps us ud ∧ (srcIdx q = srcIdx p ∨ dstIdx q = dstIdx p) ∧ (q = p ∨ R q p).
Proof.
  induction 1 as [|q ps Hs IH Hq]; intros us ud p Hp; [by apply elem_of_nil in Hp|]. cbn [assign].
  destruct (bool_decide (srcIdx q ∈ us) || bool_decide (dstIdx q ∈ ud)) eqn:Hu.
  - apply elem_of_cons in Hp as [->|Hp]; [|by apply IH].
    apply orb_true_iff in Hu as [?%bool_decide_eq_true|?%bool_decide_eq_true]; auto.
  - apply elem_of_cons in Hp as [->|Hp].
    { right; right. exists q. split; [apply list_elem_of_here|auto]. }
    rewrite list.Forall_forall in Hq. specialize (Hq p Hp).
    destruct (IH ({[srcIdx q]} ∪ us) ({[dstIdx q]} ∪ ud) p Hp) as [[?%elem_of_singleton|?]%elem_of_union|
      [[?%elem_of_singleton|?]%elem_of_union|(r & Hr & Hshare & HR)]]; auto; right; right.
    + exists q. split; [apply list_elem_of_here|auto].
    + exists q. split; [apply list_elem_of_here|auto].
    + exists r. split; [by apply list_elem_of_further|auto].
Qed.

(** What [sort.Slice] guarantees with the comparison of the code. *)
Definition not_less (p q : scoredPair) : Prop := f_ltb (score p) (score q) = false.
Definition sorts (sort : list scoredPair → list scoredPair) (l : list scoredPair) : Prop :=
  sort l ≡ₚ l ∧ StronglySorted not_less (sort l).

Lemma f_ltb_irrefl x : f_ltb x x = false.
Proof.
  unfold f_ltb, SpecFloat.SFltb. destruct x as [s|s| |s m e]; try done; simpl; destruct s; try done;
    by rewrite Z.compare_refl, Pcompare_refl.
Qed.

Section matching.
Context (tolower : Z → Z) (am : AutoMapper) (sort_slice : list scoredPair → list scoredPair).

Lemma scored_pairs_elem src dst p :
  p ∈ scored_pairs tolower am src dst ↔
  f_leb (MinConfidence am) (score p) = true ∧
  ∃ sf df, src !! srcIdx p = Some sf ∧ dst !! dstIdx p = Some df ∧ score p = fieldScore tolower am sf df.
Proof.
  unfold scored_pairs. rewrite list_elem_of_In, filter_In, <- list_elem_of_In. split.
  - intros [Hp Hf]. split; [done|].
    apply list_elem_of_In, in_concat in Hp as (row & Hrow & Hp).
    apply list_elem_of_In, elem_of_lookup_imap in Hrow as (si & sf & -> & Hsf).
    apply list_elem_of_In, elem_of_lookup_imap in Hp as (di & df & -> & Hdf). by exists sf, df.
  - intros [Hf (sf & df & Hsf & Hdf & Hs)]. split; [|done].
    apply list_elem_of_In, in_concat.
    exists (imap (λ di df, mkPair (srcIdx p) di (fieldScore tolower am sf df)) dst).
    split; apply list_elem_of_In, elem_of_lookup_imap; [by exists (srcIdx p), sf|].
    exists (dstIdx p), df. split; [|done]. destruct p. by simplify_eq/=.
Qed.

Lemma omap_Forall2 {A B} (f : A → option B) l :
  (∀ x, x ∈ l → is_Some (f x)) → Forall2 (λ x y, f x = Some y) l (omap f l).
Proof.
  induction l as [|x l IH]; intros H; [constructor|]. cbn.
  destruct (H x (list_elem_of_here _ _)) as [y Hy]. rewrite Hy. constructor; [done|].
  apply IH. intros z Hz. apply H. by apply list_elem_of_further.
Qed.

(** The suggested mapping is a greedy one-to-one matching.  No source or destination
    field is used twice; every mapping is of a pair of fields whose score reaches the
    threshold; and every such pair that is not mapped shares a field with a mapped pair
    whose score is not below its own. *)
Theorem matchFields_greedy src dst :
  sorts sort_slice (scored_pairs tolower am src dst) →
  ∃ chosen,
    Forall2 (λ p m, pair_mapping src dst p = Some m) chosen (matchFields tolower am sort_slice src dst) ∧
    NoDup (map srcIdx chosen) ∧ NoDup (map dstIdx chosen) ∧
    (∀ p, p ∈ chosen → f_leb (MinConfidence am) (score p) = true ∧
       ∃ sf df, src !! srcIdx p = Some sf ∧ dst !! dstIdx p = Some df ∧ score p = fieldScore tolower am sf df) ∧
    (∀ si di sf df, src !! si = Some sf → dst !! di = Some df →
       f_leb (MinConfidence am) (fieldScore tolower am sf df) = true →
       ∃ q, q ∈ chosen ∧ (srcIdx q = si ∨ dstIdx q = di) ∧
         f_ltb (score q) (fieldScore tolower am sf df) = false).
Proof.
  intros [Hperm Hsorted]. unfold matchFields.
  set (chosen := assign (sort_slice (scored_pairs tolower am src dst)) ∅ ∅).
  assert (∀ p, p ∈ chosen → p ∈ scored_pairs tolower am src dst) as Hc.
  { intros p (Hp & _)%assign_elem. by rewrite Hperm in Hp. }
  exists chosen. destruct (assign_nodup (sort_slice (scored_pairs tolower am src dst)) ∅ ∅) as [H1 H2].
  split_and!; [|done|done| |].
  - apply omap_Forall2. intros p (_ & sf & df & Hsf & Hdf & _)%Hc%scored_pairs_elem.
    unfold pair_mapping. rewrite Hsf. cbn. rewrite Hdf. by eexists.
  - intros p Hp. by apply scored_pairs_elem, Hc.
  - intros si di sf df Hsf Hdf Hmin.
    destruct (assign_covers _ _ Hsorted ∅ ∅ (mkPair si di (fieldScore tolower am sf df)))
      as [?|[?|(q & Hq & Hshare & Hr)]]; [|set_solver|set_solver|].
    + rewrite Hperm. apply scored_pairs_elem. split; [done|]. by exists sf, df.
    + exists q. split_and!; [done|done|]. destruct Hr as [->|Hr]; [apply f_ltb_irrefl|done].
Qed.
End matching.

(** ** Witness *)

Definition ascii_lower (r : Z) : Z := if (0x41 <=? r) && (r <=? 0x5A) then r + 32 else r.

Definition crm_fields : list schemaField :=
  [mkSchemaField "Email" "string" "Email"; mkSchemaField "user_id" "integer" "user_id"].
Definition table_fields : list schemaField :=
  [mkSchemaField "userId" "string" "userId"; mkSchemaField "e-mail" "string" "e-mail"].

(** Sorting by insertion, in descending order. *)
Fixpoint insert_pair (p : scoredPair) (l : list scoredPair) : list scoredPair :=
  match l with
  | [] => [p]
  | q :: l' => if f_ltb (score q) (score p) then p :: l else q :: insert_pair p l'
  end.
Definition insertion_sort (l : list scoredPair) : list scoredPair := foldr insert_pair [] l.

Lemma insertion_sort_perm l : insertion_sort l ≡ₚ l.
Proof.
  assert (∀ p l, insert_pair p l ≡ₚ p :: l) as Hi.
  { intros p l'. induction l' as [|q l' IH]; cbn [insert_pair]; [done|].
    destruct (f_ltb _ _); [done|]. rewrite IH. constructor. }
  induction l as [|p l IH]; cbn; [done|]. by rewrite Hi, IH.
Qed.

Lemma matchFields_greedy_witness :
  sorts insertion_sort (scored_pairs ascii_lower NewAutoMapper crm_fields table_fields) ∧
  map (λ m, (fm_SourceField m, fm_DestField m, fm_Transform m))
    (matchFields ascii_lower NewAutoMapper insertion_sort crm_fields table_fields) =
    [("Email", "e-mail", ""); ("user_id", "userId", "to_string")] ∧
  ∃ chosen,
    Forall2 (λ p m, pair_mapping crm_fields table_fields p = Some m) chosen
      (matchFields ascii_lower NewAutoMapper insertion_sort crm_fields table_fields) ∧
    NoDup (map srcIdx chosen) ∧ NoDup (map dstIdx chosen).
Proof.
  assert (sorts insertion_sort (scored_pairs ascii_lower NewAutoMapper crm_fields table_fields)) as Hs.
  { split; [apply insertion_sort_perm|]. vm_compute. repeat constructor. }
  split; [exact Hs|]. split; [vm_compute; reflexivity|].
  destruct (matchFields_greedy ascii_lower NewAutoMapper insertion_sort crm_fields table_fields Hs)
    as (chosen & H1 & H2 & H3 & _).
  exists chosen. exact (conj H1 (conj H2 H3)).
Defined.

(** The distance counts runes, but the length it is divided by counts bytes: two names
    without a common letter get the similarity one half. *)
Definition two_e_acute : string := of_bytes (concat (map encode_rune [233; 233])).
Example accents_look_similar :
  nameSimilarity ascii_lower two_e_acute "aa" = f_of_dec 5 (-1) ∧
  nameSimilarity ascii_lower "ee" "aa" = f_of_Z 0.
Proof. split; vm_compute; reflexivity. Qed.
