(* ===== verification/Lifecycle.v ===== *)
(** * Embedded integrations: [internal/embedded/lifecycle/manager.go]

    The in-memory repository keeps pointers: an integration lives at a location of the heap
    [cells], and [integrations] maps identifiers to locations.  [GetByID] gives a private
    copy, [Update] stores the pointer to such a copy in a new cell, [Delete] writes to the
    cell in place, so that the pointer [CreateIntegration] returned sees it.  Every method
    of the manager that changes an integration is two critical sections, a read and an
    update, which [step] interleaves.  Instants are nanoseconds, given by the caller. *)

From S2P Require Import Prelude GoStrings Errors Value AutoMapper.

Inductive IntegrationStatus := StatusCreated | StatusEnabled | StatusDisabled | StatusError | StatusDeleted.
#[global] Instance IntegrationStatus_eq_dec : EqDecision IntegrationStatus.
Proof. solve_decision. Defined.

Record SyncSchedule := mkSyncSchedule { CronExpression : string; IntervalMinutes : Z; Timezone : string }.

Record IntegrationConfig := mkIntegrationConfig {
  ic_ConnectorType : string; ic_AuthConfig : RawMessage; ic_StreamSelection : list string;
  ic_SyncSchedule : SyncSchedule; ic_FieldMappings : list FieldMapping
}.

Record Integration := mkIntegration {
  in_ID : string; in_TenantID : string; in_ConnectorType : string; in_Config : IntegrationConfig;
  in_Status : IntegrationStatus; in_ErrorMessage : string; in_CreatedAt : Z; in_UpdatedAt : Z;
  in_EnabledAt : option Z; in_LastSyncAt : option Z; in_SyncCount : Z
}.

(** ** The in-memory repository *)

Record InMemoryRepository := mkRepo {
  cells : list Integration;                 (** the heap; a location is a position *)
  integrations : gmap string nat;
  tenantIndex : gmap string (list string)
}.

Definition NewInMemoryRepository : InMemoryRepository := mkRepo [] ∅ ∅.

Definition index_of (r : InMemoryRepository) (tenant : string) : list string :=
  default [] (tenantIndex r !! tenant).

(** The integration a pointer of the map points to. *)
Definition deref (r : InMemoryRepository) (id : string) : option Integration :=
  l ← integrations r !! id; cells r !! l.

(** The new pointer is the location [length (cells r)]. *)
Definition repo_Create (i : Integration) (r : InMemoryRepository) : InMemoryRepository :=
  mkRepo (cells r ++ [i]) (<[in_ID i := length (cells r)]> (integrations r))
         (<[in_TenantID i := index_of r (in_TenantID i) ++ [in_ID i]]> (tenantIndex r)).

Definition err_integration_not_found (id : string) : error :=
  ErrText ("integration " +:+ quote id +:+ " not found").

Definition repo_GetByID (id : string) (r : InMemoryRepository) : res Integration :=
  match deref r id with
  | None => Err (err_integration_not_found id)
  | Some i => Ok i
  end.

Definition repo_Update (i : Integration) (r : InMemoryRepository) : InMemoryRepository :=
  mkRepo (cells r ++ [i]) (<[in_ID i := length (cells r)]> (integrations r)) (tenantIndex r).

Definition not_deleted (i : Integration) : bool := negb (bool_decide (in_Status i = StatusDeleted)).

Definition repo_ListByTenant (tenantID : string) (r : InMemoryRepository) : list Integration :=
  List.filter not_deleted (omap (deref r) (index_of r tenantID)).

Definition with_status (i : Integration) (s : IntegrationStatus) (now : Z) : Integration :=
  mkIntegration (in_ID i) (in_TenantID i) (in_ConnectorType i) (in_Config i) s (in_ErrorMessage i)
    (in_CreatedAt i) now (in_EnabledAt i) (in_LastSyncAt i) (in_SyncCount i).

(** [append(ids[:j], ids[j+1:]...)] at the first occurrence. *)
Fixpoint remove_first (id : string) (ids : list string) : list string :=
  match ids with
  | [] => []
  | tid :: ids => if bool_decide (tid = id) then ids else tid :: remove_first id ids
  end.

Definition repo_Delete (id : string) (now : Z) (r : InMemoryRepository) : option error * InMemoryRepository :=
  match integrations r !! id with
  | None => (Some (err_integration_not_found id), r)
  | Some l =>
      match cells r !! l with
      | None => (None, r)
      | Some i =>
          let ids := index_of r (in_TenantID i) in
          (None, mkRepo (<[l := with_status i StatusDeleted now]> (cells r)) (integrations r)
                   (if bool_decide (id ∈ ids)
                    then <[in_TenantID i := remove_first id ids]> (tenantIndex r) else tenantIndex r))
      end
  end.

(** ** The manager: guards and changes of the private copy *)

Definition new_integration (tenantID : string) (config : IntegrationConfig) (id : string) (now : Z) : Integration :=
  mkIntegration id tenantID (ic_ConnectorType config) config StatusCreated "" now now None None 0.

Definition CreateIntegration (tenantID : string) (config : IntegrationConfig) (id : string) (now : Z)
    (r : InMemoryRepository) : res nat * InMemoryRepository :=
  if bool_decide (tenantID = "") then (Err (ErrText "tenant ID is required"), r)
  else if bool_decide (ic_ConnectorType config = "") then (Err (ErrText "connector type is required"), r)
  else (Ok (length (cells r)), repo_Create (new_integration tenantID config id now) r).

Definition deleted_error (verb id : string) : error :=
  ErrText ("cannot " +:+ verb +:+ " deleted integration " +:+ quote id).

Definition is_deleted (i : Integration) : bool := bool_decide (in_Status i = StatusDeleted).

(** What each method makes of the copy it has read. *)
Definition EnableIntegration (id : string) (now : Z) (i : Integration) : res Integration :=
  if is_deleted i then Err (deleted_error "enable" id)
  else Ok (mkIntegration (in_ID i) (in_TenantID i) (in_ConnectorType i) (in_Config i) StatusEnabled ""
             (in_CreatedAt i) now (Some now) (in_LastSyncAt i) (in_SyncCount i)).

Definition DisableIntegration (id : string) (now : Z) (i : Integration) : res Integration :=
  if is_deleted i then Err (deleted_error "disable" id) else Ok (with_status i StatusDisabled now).

(** The number of records is not used. *)
Definition RecordSync (recordsProcessed : Z) (now : Z) (i : Integration) : res Integration :=
  Ok (mkIntegration (in_ID i) (in_TenantID i) (in_ConnectorType i) (in_Config i) (in_Status i)
        (in_ErrorMessage i) (in_CreatedAt i) now (in_EnabledAt i) (Some now) (in_SyncCount i +ᵢ 1)).

Definition SetError (errMsg : string) (now : Z) (i : Integration) : res Integration :=
  Ok (mkIntegration (in_ID i) (in_TenantID i) (in_ConnectorType i) (in_Config i) StatusError errMsg
        (in_CreatedAt i) now (in_EnabledAt i) (in_LastSyncAt i) (in_SyncCount i)).

Definition UpdateConfig (config : IntegrationConfig) (id : string) (now : Z) (i : Integration) : res Integration :=
  if is_deleted i then Err (deleted_error "update" id)
  else Ok (mkIntegration (in_ID i) (in_TenantID i) (in_ConnectorType i) config (in_Status i)
             (in_ErrorMessage i) (in_CreatedAt i) now (in_EnabledAt i) (in_LastSyncAt i) (in_SyncCount i)).

(** The methods that read, change and update. *)
Inductive method :=
| MEnable
| MDisable
| MRecordSync (recordsProcessed : Z)
| MSetError (errMsg : string)
| MUpdateConfig (config : IntegrationConfig).

Definition change (m : method) (id : string) (now : Z) (i : Integration) : res Integration :=
  match m with
  | MEnable => EnableIntegration id now i
  | MDisable => DisableIntegration id now i
  | MRecordSync n => RecordSync n now i
  | MSetError errMsg => SetError errMsg now i
  | MUpdateConfig config => UpdateConfig config id now i
  end.

(** The first critical section and the change: the copy to store, or the error. *)
Definition begin_method (m : method) (id : string) (now : Z) (r : InMemoryRepository) : res Integration :=
  i ← repo_GetByID id r; change m id now i.

(** A method called while nothing else runs. *)
Definition run_method (m : method) (id : string) (now : Z) (r : InMemoryRepository) :
    option error * InMemoryRepository :=
  match begin_method m id now r with
  | Ok i => (None, repo_Update i r)
  | Err e => (Some e, r)
  | Panic p => (Some (ErrText p), r)
  end.

Definition DeleteIntegration := repo_Delete.
Definition GetIntegration := repo_GetByID.
Definition ListByTenant := repo_ListByTenant.

(** ** Status *)

Record IntegrationStatusDetail := mkDetail {
  sd_Integration : Integration; sd_Health : string; sd_NextSyncAt : option Z; sd_RecordsTotal : Z
}.

Definition health (i : Integration) : string :=
  match in_Status i with
  | StatusEnabled => if bool_decide (in_ErrorMessage i = "") then "healthy" else "degraded"
  | StatusDisabled => "paused"
  | StatusError => "unhealthy"
  | StatusCreated => "pending"
  | StatusDeleted => "deleted"
  end.

Definition minute : Z := 60 * 1000000000.


Definition next_sync (i : Integration) : option Z :=
  let interval := IntervalMinutes (ic_SyncSchedule (in_Config i)) in
  if bool_decide (in_Status i = StatusEnabled) && (0 <? interval)
  then Some (match in_LastSyncAt i, in_EnabledAt i with
             | Some t, _ => t + interval *ᵢ minute
             | None, Some t => t + interval *ᵢ minute
             | None, None => zero_time
             end)
  else None.

Definition GetStatus (id : string) (r : InMemoryRepository) : res IntegrationStatusDetail :=
  i ← repo_GetByID id r; Ok (mkDetail i (health i) (next_sync i) 0).

(** ** Interleaved calls *)

(** The repository and the copies that calls in progress are about to store; [created]
    and [deleted] record the calls of [Create] and [Delete] that succeeded. *)
Record sys := mkSys {
  repo : InMemoryRepository;
  copies : list Integration;
  created : list (string * string);     (** tenant and identifier, in order *)
  deleted : list string
}.

Definition init : sys := mkSys NewInMemoryRepository [] [] [].

(** [uuid.New()] does not repeat an identifier. *)
Inductive step : sys → sys → Prop :=
| step_create s tenantID config id now l r :
    id ∉ (created s).*2 → CreateIntegration tenantID config id now (repo s) = (Ok l, r) →
    step s (mkSys r (copies s) (created s ++ [(tenantID, id)]) (deleted s))
| step_begin s m id now i :
    begin_method m id now (repo s) = Ok i → step s (mkSys (repo s) (copies s ++ [i]) (created s) (deleted s))
| step_update s l1 i l2 :
    copies s = l1 ++ i :: l2 → step s (mkSys (repo_Update i (repo s)) (l1 ++ l2) (created s) (deleted s))
| step_delete s id now r :
    DeleteIntegration id now (repo s) = (None, r) → step s (mkSys r (copies s) (created s) (id :: deleted s)).

Inductive reachable : sys → Prop :=
| reach_init : reachable init
| reach_step s s' : reachable s → step s s' → reachable s'.

(** ** The tenant index *)

(** The identifiers created for a tenant, in order, and those of them not deleted. *)
Definition ids_of (cs : list (string * string)) (t : string) : list string :=
  map snd (List.filter (λ c, bool_decide (c.1 = t)) cs).
Definition live (s : sys) (t : string) : list string :=
  List.filter (λ id, negb (bool_decide (id ∈ deleted s))) (ids_of (created s) t).

Lemma ids_of_elem cs t id : id ∈ ids_of cs t ↔ (t, id) ∈ cs.
Proof.
  unfold ids_of. rewrite list_elem_of_fmap. split.
  - intros ([t' id'] & -> & Hin). apply list_elem_of_In, filter_In in Hin as [Hin Ht].
    apply bool_decide_eq_true in Ht. simpl in *. subst. by apply list_elem_of_In.
  - intros Hin. exists (t, id). split; [done|]. apply list_elem_of_In, filter_In.
    split; [by apply list_elem_of_In|]. by apply bool_decide_eq_true.
Qed.

Lemma ids_of_nodup cs t : NoDup cs.*2 → NoDup (ids_of cs t).
Proof. intros H. eapply sublist_NoDup; [exact H|]. apply fmap_sublist, filter_sublist. Qed.

Lemma remove_first_filter id l : NoDup l →
  remove_first id l = List.filter (λ x, negb (bool_decide (x = id))) l.
Proof.
  induction 1 as [|x l Hx _ IH]; simpl; [done|]. case_bool_decide as He; simpl; [|by rewrite IH].
  subst. clear IH. induction l as [|y l IH]; simpl; [done|].
  rewrite bool_decide_false by set_solver. simpl. rewrite <- IH; [done|set_solver].
Qed.

Lemma filter_id {A} (f : A → bool) l : (∀ x, x ∈ l → f x = true) → List.filter f l = l.
Proof.
  induction l as [|x l IH]; intros H; simpl; [done|].
  rewrite (H x) by apply list_elem_of_here. f_equal. apply IH. intros y Hy. apply H. by right.
Qed.

Lemma live_delete s id r cp t :
  live (mkSys r cp (created s) (id :: deleted s)) t =
  List.filter (λ x, negb (bool_decide (x = id))) (live s t).
Proof.
  unfold live. cbn [created deleted]. induction (ids_of (created s) t) as [|x l IH]; simpl; [done|].
  destruct (decide (x ∈ deleted s)) as [Hd|Hd].
  - rewrite !bool_decide_true by set_solver. done.
  - rewrite (bool_decide_false (x ∈ deleted s)) by done. simpl.
    destruct (decide (x = id)) as [->|Hne].
    + rewrite !bool_decide_true by set_solver. done.
    + rewrite !bool_decide_false by set_solver. simpl. by rewrite IH.
Qed.

Lemma index_of_insert c m ti t t' l :
  index_of (mkRepo c m (<[t := l]> ti)) t' = if bool_decide (t' = t) then l else index_of (mkRepo c m ti) t'.
Proof.
  unfold index_of. cbn [tenantIndex]. case_bool_decide; subst.
  - by rewrite lookup_insert_eq.
  - by rewrite lookup_insert_ne.
Qed.

(** ** Invariant *)

(** What holds of every stored or copied integration. *)
Record sound (cs : list (string * string)) (ds : list string) (i : Integration) : Prop := {
  sound_created : (in_TenantID i, in_ID i) ∈ cs;
  sound_deleted : in_Status i = StatusDeleted → in_ID i ∈ ds;
  sound_enabled : in_Status i = StatusEnabled → in_ErrorMessage i = "" ∧ is_Some (in_EnabledAt i)
}.

Record inv (s : sys) : Prop := {
  inv_nodup : NoDup (created s).*2;
  inv_deleted : ∀ id, id ∈ deleted s → id ∈ (created s).*2;
  inv_stored : ∀ id l, integrations (repo s) !! id = Some l →
    ∃ i, cells (repo s) !! l = Some i ∧ in_ID i = id ∧ sound (created s) (deleted s) i;
  inv_known : ∀ id, id ∈ (created s).*2 → is_Some (integrations (repo s) !! id);
  inv_copies : Forall (sound (created s) (deleted s)) (copies s);
  inv_index : ∀ t, index_of (repo s) t = live s t
}.

Lemma change_sound cs ds m id now i i' : sound cs ds i → change m id now i = Ok i' →
  sound cs ds i' ∧ in_ID i' = in_ID i ∧ in_TenantID i' = in_TenantID i.
Proof.
  intros [H1 H2 H3] Hc. destruct m; cbv [change EnableIntegration DisableIntegration RecordSync SetError UpdateConfig is_deleted] in Hc;
    try (case_bool_decide; [done|]); simplify_eq/=;
    (split; [split; simpl; try done; try (intros; split; eauto); auto|done]).
Qed.

Lemma deref_inv s id i : inv s → deref (repo s) id = Some i → in_ID i = id ∧ sound (created s) (deleted s) i.
Proof.
  intros Hinv (l & Hl & Hc)%bind_Some. destruct (inv_stored s Hinv id l Hl) as (i' & Hc' & ? & ?).
  by simplify_eq.
Qed.

Lemma sound_mono cs ds cs' ds' i : sound cs ds i → (∀ c, c ∈ cs → c ∈ cs') →
  (∀ id, id ∈ ds → id ∈ ds') → sound cs' ds' i.
Proof. intros [H1 H2 H3] Hc Hd. split; auto. Qed.

Lemma create_inv s tenantID config id now l r :
  inv s → id ∉ (created s).*2 → CreateIntegration tenantID config id now (repo s) = (Ok l, r) →
  inv (mkSys r (copies s) (created s ++ [(tenantID, id)]) (deleted s)).
Proof.
  intros Hinv Hid Hc. unfold CreateIntegration in Hc. repeat case_bool_decide; try done.
  injection Hc as <- <-.
  assert (∀ i, sound (created s) (deleted s) i → sound (created s ++ [(tenantID, id)]) (deleted s) i) as Hmono.
  { intros i Hi. eapply sound_mono; [done|set_solver|done]. }
  split; cbn [created deleted repo copies repo_Create integrations cells].
  - rewrite fmap_app. apply list.NoDup_app. split_and!; [apply Hinv| |apply NoDup_singleton].
    intros x Hx Hx2. simpl in Hx2. apply list_elem_of_singleton in Hx2 as ->. done.
  - intros x Hx. rewrite fmap_app. apply elem_of_app. left. by apply (inv_deleted s).
  - intros id' l'. cbn [in_ID new_integration]. destruct (decide (id' = id)) as [->|Hne].
    + rewrite lookup_insert_eq. intros [= <-]. exists (new_integration tenantID config id now).
      split; [by apply list_lookup_middle|]. split; [done|].
      split; cbn; [set_solver|done|done].
    + rewrite lookup_insert_ne by done. intros Hl'.
      destruct (inv_stored s Hinv id' l' Hl') as (i & Hi & ? & ?). exists i. split_and!; [|done|auto].
      by apply lookup_app_l_Some.
  - intros x. cbn [in_ID new_integration]. rewrite fmap_app, elem_of_app. intros [Hx|Hx].
    + destruct (decide (x = id)) as [->|]; [by rewrite lookup_insert_eq|].
      rewrite lookup_insert_ne by done. by apply (inv_known s).
    + simpl in Hx. apply list_elem_of_singleton in Hx as ->. by rewrite lookup_insert_eq.
  - eapply list.Forall_impl; [apply Hinv|apply Hmono].
  - intros t. unfold repo_Create. cbn [in_TenantID in_ID new_integration]. rewrite index_of_insert.
    unfold live. cbn [created deleted]. unfold ids_of at 1. rewrite List.filter_app, map_app, List.filter_app.
    change (index_of (mkRepo _ _ (tenantIndex (repo s))) t) with (index_of (repo s) t).
    rewrite !(inv_index s Hinv). fold (ids_of (created s) t). fold (live s t).
    cbn [List.filter fst]. destruct (decide (t = tenantID)) as [->|Hne].
    + rewrite !bool_decide_true by done. cbn [map snd List.filter].
      rewrite bool_decide_false; [done|]. intros Hd. by apply Hid, (inv_deleted s).
    + rewrite !bool_decide_false by congruence. simpl. by rewrite app_nil_r.
Qed.

Lemma update_inv s l1 i l2 :
  inv s → copies s = l1 ++ i :: l2 → inv (mkSys (repo_Update i (repo s)) (l1 ++ l2) (created s) (deleted s)).
Proof.
  intros Hinv Hl. pose proof (inv_copies s Hinv) as Hcp. rewrite Hl, list.Forall_app, list.Forall_cons in Hcp.
  destruct Hcp as (Hcp1 & Hi & Hcp2).
  split; cbn [created deleted repo copies repo_Update integrations cells]; [apply Hinv|apply Hinv|..].
  - intros id' l'. destruct (decide (id' = in_ID i)) as [->|Hne].
    + rewrite lookup_insert_eq. intros [= <-]. exists i.
      split; [by apply list_lookup_middle|done].
    + rewrite lookup_insert_ne by done. intros Hl'.
      destruct (inv_stored s Hinv id' l' Hl') as (j & Hj & ? & ?). exists j. split_and!; [|done..].
      by apply lookup_app_l_Some.
  - intros id' Hid'. destruct (decide (id' = in_ID i)) as [->|]; [by rewrite lookup_insert_eq|].
    rewrite lookup_insert_ne by done. by apply (inv_known s).
  - by apply list.Forall_app.
  - apply (inv_index s Hinv).
Qed.

Lemma delete_inv s id now r :
  inv s → DeleteIntegration id now (repo s) = (None, r) → inv (mkSys r (copies s) (created s) (id :: deleted s)).
Proof.
  intros Hinv Hd. unfold DeleteIntegration, repo_Delete in Hd.
  destruct (integrations (repo s) !! id) as [l|] eqn:Hl; [|done].
  destruct (inv_stored s Hinv id l Hl) as (i & Hi & Hid & Hs). rewrite Hi in Hd. injection Hd as <-.
  assert (id ∈ (created s).*2) as Hcr.
  { apply list_elem_of_fmap. exists (in_TenantID i, in_ID i). split; [done|]. apply Hs. }
  set (s' := mkSys _ _ _ _).
  assert (∀ j, sound (created s) (deleted s) j → sound (created s) (id :: deleted s) j) as Hm
    by (intros j Hj; eapply sound_mono; [done|set_solver..]).
  split; cbn [s' created deleted repo copies integrations cells].
  - apply Hinv.
  - intros x [->|Hx]%elem_of_cons; [done|by apply (inv_deleted s)].
  - intros id' l' Hl'. destruct (inv_stored s Hinv id' l' Hl') as (j & Hj & Hjid & Hjs).
    destruct (decide (l' = l)) as [->|Hne].
    + simplify_eq. exists (with_status i StatusDeleted now). rewrite list_lookup_insert_eq by (by eapply lookup_lt_Some).
      split_and!; [done|done|]. split; cbn; [apply Hs|intros _; apply list_elem_of_here|done].
    + exists j. rewrite list_lookup_insert_ne by done. auto.
  - apply (inv_known s Hinv).
  - eapply list.Forall_impl; [apply Hinv|apply Hm].
  - intros t. subst s'. rewrite live_delete.
    assert (∀ t, index_of (repo s) t = live s t) as Hix by apply Hinv.
    assert (∀ t', id ∈ live s t' → t' = in_TenantID i) as Honly.
    { intros t' Hin. unfold live in Hin. apply list_elem_of_In, filter_In in Hin as [Hin _].
      apply list_elem_of_In, ids_of_elem in Hin.
      pose proof (sound_created _ _ _ Hs) as Hc. rewrite Hid in Hc.
      apply list_elem_of_lookup in Hin as [n1 Hn1], Hc as [n2 Hn2].
      assert (n1 = n2) as ->.
      { eapply NoDup_lookup; [apply (inv_nodup s Hinv)| |]; rewrite list_lookup_fmap; [by rewrite Hn1|by rewrite Hn2]. }
      congruence. }
    assert (NoDup (live s (in_TenantID i))) as Hnd.
    { eapply sublist_NoDup; [|apply filter_sublist]. apply ids_of_nodup, Hinv. }
    assert (∀ t', id ∉ live s t' → List.filter (λ x, negb (bool_decide (x = id))) (live s t') = live s t') as Hskip.
    { intros t' Hn. apply filter_id. intros x Hx. rewrite bool_decide_false; [done|]. by intros ->. }
    rewrite Hix. destruct (decide (id ∈ live s (in_TenantID i))) as [Hin|Hin].
    + rewrite (bool_decide_true (id ∈ _)), index_of_insert, remove_first_filter by done.
      destruct (decide (t = in_TenantID i)) as [->|Hne]; [by rewrite bool_decide_true|].
      rewrite bool_decide_false by done. change (index_of _ t) with (index_of (repo s) t).
      rewrite Hix, Hskip; [done|]. intros H. by apply Hne, Honly.
    + rewrite (bool_decide_false (id ∈ _)) by done.
      change (index_of _ t) with (index_of (repo s) t). rewrite Hix, Hskip; [done|].
      intros H. rewrite (Honly t H) in H. done.
Qed.

Lemma lifecycle_step_inv s s' : inv s → step s s' → inv s'.
Proof.
  intros Hinv Hstep. destruct Hstep as [s tid cfg id now l r Hid Hc|s m id now i Hb|s l1 i l2 Hl|s id now r Hd].
  - by eapply create_inv.
  - unfold begin_method, repo_GetByID in Hb. destruct (deref (repo s) id) as [i0|] eqn:H0; [|done].
    apply (deref_inv s) in H0 as [Hid Hs]; [|done]. eapply change_sound in Hb as (Hi & _ & _); [|done].
    destruct Hinv as [? ? ? ? Hcp ?]. split; cbn; try done.
    apply list.Forall_app. split; [done|]. by constructor.
  - by apply update_inv.
  - by eapply delete_inv.
Qed.

Lemma lifecycle_inv s : reachable s → inv s.
Proof.
  induction 1; [|by eapply lifecycle_step_inv].
  split; cbn; [constructor|by intros ? ?%elem_of_nil|done|by intros ? ?%elem_of_nil|constructor|done].
Qed.

(** ** Properties *)

Lemma created_tenant_unique s t t' id : inv s → (t, id) ∈ created s → (t', id) ∈ created s → t = t'.
Proof.
  intros Hinv [n1 Hn1]%list_elem_of_lookup [n2 Hn2]%list_elem_of_lookup.
  assert (n1 = n2) as ->; [|congruence].
  eapply NoDup_lookup; [apply (inv_nodup s Hinv)| |]; rewrite list_lookup_fmap; [by rewrite Hn1|by rewrite Hn2].
Qed.

(** A live identifier leads to its integration. *)
Lemma live_deref s t id : inv s → id ∈ live s t →
  ∃ i, deref (repo s) id = Some i ∧ in_ID i = id ∧ in_TenantID i = t ∧ not_deleted i = true.
Proof.
  intros Hinv Hin. unfold live in Hin. apply list_elem_of_In, filter_In in Hin as [Hin Hd].
  apply list_elem_of_In, ids_of_elem in Hin. apply negb_true_iff, bool_decide_eq_false in Hd.
  destruct (inv_known s Hinv id) as [l Hl]; [apply list_elem_of_fmap; by exists (t, id)|].
  destruct (inv_stored s Hinv id l Hl) as (i & Hi & Hid & Hs). exists i.
  split_and!; [unfold deref; by rewrite Hl|done| |].
  - pose proof (sound_created _ _ _ Hs) as Hc. rewrite Hid in Hc. by eapply created_tenant_unique.
  - unfold not_deleted. rewrite bool_decide_false; [done|]. intros Hst%(sound_deleted _ _ _ Hs). congruence.
Qed.

Lemma list_of_live s t : inv s → ∀ ids, (∀ id, id ∈ ids → id ∈ live s t) →
  map in_ID (List.filter not_deleted (omap (deref (repo s)) ids)) = ids ∧
  Forall (λ i, in_TenantID i = t ∧ in_Status i ≠ StatusDeleted)
    (List.filter not_deleted (omap (deref (repo s)) ids)).
Proof.
  intros Hinv. induction ids as [|id ids IH]; intros H; [split; [done|constructor]|].
  destruct (live_deref s t id Hinv (H id (list_elem_of_here _ _))) as (i & Hi & Hid & Ht & Hn).
  destruct IH as [IH1 IH2]; [intros x Hx; apply H; by apply list_elem_of_further|].
  cbn. rewrite Hi. cbn. rewrite Hn. cbn [map]. rewrite Hid. split; [by f_equal|].
  constructor; [|done]. split; [done|]. unfold not_deleted in Hn.
  by apply negb_true_iff, bool_decide_eq_false in Hn.
Qed.

(** The list of a tenant.  However the calls interleave, [ListByTenant] gives the
    integrations created for the tenant and not deleted, each once, in the order of their
    creation, and none of another tenant; in particular a deleted integration is never
    listed again, whatever a call that had read it before stores afterwards. *)
Theorem ListByTenant_live s t :
  reachable s →
  map in_ID (ListByTenant t (repo s)) = live s t ∧
  Forall (λ i, in_TenantID i = t ∧ in_Status i ≠ StatusDeleted) (ListByTenant t (repo s)).
Proof.
  intros Hr%lifecycle_inv. unfold ListByTenant, repo_ListByTenant. rewrite (inv_index s Hr).
  apply list_of_live; auto.
Qed.

(** An enabled integration has no error message and a time at which it was enabled, in
    every interleaving.  So its health is never reported as degraded, and its next sync is
    one interval after its last sync, or else after it was enabled. *)
Theorem GetStatus_enabled s id d :
  reachable s → GetStatus id (repo s) = Ok d →
  sd_Health d ≠ "degraded" ∧
  (in_Status (sd_Integration d) = StatusEnabled →
   let interval := IntervalMinutes (ic_SyncSchedule (in_Config (sd_Integration d))) in
   sd_Health d = "healthy" ∧
   ∃ t, in_EnabledAt (sd_Integration d) = Some t ∧
     sd_NextSyncAt d = if 0 <? interval
                       then Some (default t (in_LastSyncAt (sd_Integration d)) + interval *ᵢ minute) else None).
Proof.
  intros Hr%lifecycle_inv Hg. unfold GetStatus, repo_GetByID in Hg.
  destruct (deref (repo s) id) as [i|] eqn:Hi; [|done]. injection Hg as <-.
  apply (deref_inv s) in Hi as [_ Hs]; [|done]. cbn [sd_Health sd_Integration sd_NextSyncAt].
  unfold health, next_sync. destruct (in_Status i) eqn:Hst; try (split; [discriminate|done]).
  destruct (sound_enabled _ _ _ Hs Hst) as [-> [t Ht]]. split; [discriminate|]. intros _. cbv zeta.
  split; [done|]. exists t. rewrite Ht. split; [done|]. rewrite bool_decide_true by done. cbn [andb].
  destruct (0 <? _); [|done]. by destruct (in_LastSyncAt i).
Qed.

Lemma deref_update i r : deref (repo_Update i r) (in_ID i) = Some i.
Proof.
  unfold deref, repo_Update. cbn [integrations cells]. rewrite lookup_insert_eq. cbn.
  by apply list_lookup_middle.
Qed.

Lemma deref_delete r id i now : deref r id = Some i →
  (DeleteIntegration id now r).1 = None ∧
  deref (DeleteIntegration id now r).2 id = Some (with_status i StatusDeleted now).
Proof.
  intros (l & Hl & Hi)%bind_Some. unfold DeleteIntegration, repo_Delete. rewrite Hl, Hi. split; [done|].
  unfold deref. cbn [snd integrations cells]. rewrite Hl. cbn.
  apply list_lookup_insert_eq. by eapply lookup_lt_Some.
Qed.

Lemma run_method_ok m id now r j : begin_method m id now r = Ok j → in_ID j = id →
  (run_method m id now r).1 = None ∧ deref (run_method m id now r).2 id = Some j ∧
  tenantIndex (run_method m id now r).2 = tenantIndex r.
Proof.
  intros Hb <-. unfold run_method. rewrite Hb. split_and!; [done| |done]. apply deref_update.
Qed.

(** Deletion is not final.  Enabling a deleted integration is refused, but [SetError]
    is not: it moves the integration to the error state, from which it can be enabled
    again, without being listed for its tenant. *)
Theorem deleted_integration_revived r id i msg t1 t2 t3 :
  deref r id = Some i → in_ID i = id →
  let r1 := (DeleteIntegration id t1 r).2 in
  let r2 := (run_method (MSetError msg) id t2 r1).2 in
  let r3 := (run_method MEnable id t3 r2).2 in
  (run_method MEnable id t3 r1).1 = Some (deleted_error "enable" id) ∧
  (run_method (MSetError msg) id t2 r1).1 = None ∧ (run_method MEnable id t3 r2).1 = None ∧
  in_Status <$> deref r3 id = Some StatusEnabled ∧ tenantIndex r3 = tenantIndex r1.
Proof.
  intros Hi Hid r1 r2 r3. destruct (deref_delete r id i t1 Hi) as [_ H1]. fold r1 in H1.
  eassert (begin_method (MSetError msg) id t2 r1 = Ok _) as Hb2
    by (unfold begin_method, repo_GetByID; rewrite H1; reflexivity).
  destruct (run_method_ok _ _ _ _ _ Hb2 Hid) as (He2 & H2 & Hx2). fold r2 in H2, Hx2.
  eassert (begin_method MEnable id t3 r2 = Ok _) as Hb3
    by (unfold begin_method, repo_GetByID; rewrite H2; reflexivity).
  destruct (run_method_ok _ _ _ _ _ Hb3 Hid) as (He3 & H3 & Hx3). fold r3 in H3, Hx3.
  split_and!; [|done|done|by rewrite H3|congruence].
  unfold run_method, begin_method, repo_GetByID. rewrite H1. reflexivity.
Qed.

(** Two syncs recorded at the same time count as one.  Both calls read the integration
    before either stores its copy. *)
Theorem RecordSync_lost_update s id i (n1 n2 : Z) t1 t2 j1 j2 :
  copies s = [] → deref (repo s) id = Some i → in_ID i = id →
  begin_method (MRecordSync n1) id t1 (repo s) = Ok j1 →
  begin_method (MRecordSync n2) id t2 (repo s) = Ok j2 →
  let s' := mkSys (repo_Update j2 (repo_Update j1 (repo s))) [] (created s) (deleted s) in
  rtc step s s' ∧ in_SyncCount <$> deref (repo s') id = Some (in_SyncCount i +ᵢ 1).
Proof.
  intros Hc Hi Hid Hb1 Hb2 s'. split.
  - destruct s as [r cp cr de]. cbn [copies repo created deleted] in *. subst cp.
    eapply rtc_l; [by eapply (step_begin _ (MRecordSync n1) id t1)|].
    eapply rtc_l; [by eapply (step_begin _ (MRecordSync n2) id t2)|].
    eapply rtc_l; [by eapply (step_update _ [] j1 [j2])|].
    eapply rtc_l; [by eapply (step_update _ [] j2 [])|]. apply rtc_refl.
  - unfold begin_method, repo_GetByID in Hb2. rewrite Hi in Hb2. cbn in Hb2. injection Hb2 as Hj2.
    assert (in_ID j2 = id) as Hid2 by (by subst). cbn [s' repo]. rewrite <- Hid2, deref_update. by subst.
Qed.

(** ** Witnesses *)

Definition crm_config : IntegrationConfig := mkIntegrationConfig "crm" RawEmpty [] (mkSyncSchedule "" 15 "") [].
Definition demo_1 : sys :=
  mkSys (CreateIntegration "acme" crm_config "a" 0 NewInMemoryRepository).2 [] [("acme", "a")] [].
Definition demo_2 : sys :=
  mkSys (CreateIntegration "acme" crm_config "b" 1 (repo demo_1)).2 [] [("acme", "a"); ("acme", "b")] [].
(** Enabling the first integration has read it when it is deleted. *)
Definition demo_3 : sys :=
  mkSys (repo demo_2) [from_ok (new_integration "acme" crm_config "a" 0)
                         (begin_method MEnable "a" 2 (repo demo_2))] (created demo_2) [].
Definition demo_4 : sys := mkSys (DeleteIntegration "a" 3 (repo demo_3)).2 (copies demo_3) (created demo_3) ["a"].
Definition demo_5 : sys :=
  mkSys (repo_Update (from_ok (new_integration "acme" crm_config "a" 0)
                        (begin_method MEnable "a" 2 (repo demo_2))) (repo demo_4)) []
    (created demo_4) (deleted demo_4).

Lemma demo_5_reachable : reachable demo_5.
Proof.
  apply (reach_step demo_4); [|by apply (step_update demo_4 [] _ [])].
  apply (reach_step demo_3); [|by apply (step_delete demo_3 "a" 3)].
  apply (reach_step demo_2); [|by apply (step_begin demo_2 MEnable "a" 2)].
  apply (reach_step demo_1); [|apply (step_create demo_1 "acme" crm_config "b" 1 1%nat); [set_solver|done]].
  apply (reach_step init); [apply reach_init|].
  apply (step_create init "acme" crm_config "a" 0 0%nat); [apply not_elem_of_nil|done].
Qed.

Lemma ListByTenant_live_witness :
  map in_ID (ListByTenant "acme" (repo demo_5)) = ["b"] ∧
  Forall (λ i, in_TenantID i = "acme" ∧ in_Status i ≠ StatusDeleted) (ListByTenant "acme" (repo demo_5)).
Proof. exact (ListByTenant_live demo_5 "acme" demo_5_reachable). Defined.

(** The deleted integration is enabled again by the call that had read it before. *)
Lemma GetStatus_enabled_witness :
  ∃ d, GetStatus "a" (repo demo_5) = Ok d ∧ sd_Health d ≠ "degraded" ∧ sd_Health d = "healthy".
Proof.
  eexists. split; [reflexivity|].
  destruct (GetStatus_enabled demo_5 "a" _ demo_5_reachable eq_refl) as [H1 H2].
  split; [exact H1|]. by destruct (H2 eq_refl).
Defined.

Lemma deleted_integration_revived_witness :
  in_Status <$> deref (run_method MEnable "a" 9 (run_method (MSetError "boom") "a" 8
    (DeleteIntegration "a" 7 (repo demo_1)).2).2).2 "a" = Some StatusEnabled.
Proof.
  apply (deleted_integration_revived (repo demo_1) "a" (new_integration "acme" crm_config "a" 0) "boom" 7 8 9);
    reflexivity.
Defined.

Lemma RecordSync_lost_update_witness :
  ∃ s', rtc step demo_1 s' ∧ in_SyncCount <$> deref (repo s') "a" = Some 1.
Proof.
  eexists. exact (RecordSync_lost_update demo_1 "a" (new_integration "acme" crm_config "a" 0) 10 20 5 6 _ _
                    eq_refl eq_refl eq_refl eq_refl eq_refl).
Defined.
