(* ===== verification/Arrow.v ===== *)
(** * Columnar batches: [pkg/arrow/buffer.go]

    A batch keeps one column for each name of its schema; a record is taken apart into the
    columns and put together again.  A method holds the mutex throughout, so it is a
    function of the batch.  [sync.Pool] may give back any batch that was put into it, or
    make a new one. *)

From S2P Require Import Prelude GoStrings Errors Float Value.

Inductive DataType :=
| TypeBool | TypeInt32 | TypeInt64 | TypeFloat64 | TypeString | TypeBinary | TypeTimestamp | TypeJSON
| TypeOther (s : string).

Record Field := mkField { fd_Name : string; fd_Type : DataType; fd_Nullable : bool }.
Record Schema := mkSchema { Fields : list Field }.

Record Column := mkColumn { col_Name : string; col_Type : DataType; Values : list value; Nulls : list bool }.
Record Batch := mkBatch { columns : gmap string Column; rowCount : nat; schema : Schema }.

Definition empty_column (f : Field) : Column := mkColumn (fd_Name f) (fd_Type f) [] [].

Definition NewBatch (schema : Schema) : Batch :=
  mkBatch (foldl (λ cols f, <[fd_Name f := empty_column f]> cols) ∅ (Fields schema)) 0 schema.

Definition nil_deref {A} : res A := Panic "invalid memory address or nil pointer dereference".
Definition out_of_range {A} : res A := Panic "index out of range".

(** The value goes to its column, or a null. *)
Definition push (col : Column) (v : option value) : Column :=
  match v with
  | None | Some VNil => mkColumn (col_Name col) (col_Type col) (Values col ++ [VNil]) (Nulls col ++ [true])
  | Some v => mkColumn (col_Name col) (col_Type col) (Values col ++ [v]) (Nulls col ++ [false])
  end.

Definition append_field (row : obj) (cols : gmap string Column) (f : Field) : res (gmap string Column) :=
  match cols !! fd_Name f with
  | None => nil_deref
  | Some col => Ok (<[fd_Name f := push col (row !! fd_Name f)]> cols)
  end.

Definition AppendRecord (data : RawMessage) (b : Batch) : res Batch :=
  match unmarshal_map data with
  | Err e => Err (ErrWrapf "unmarshal record" e)
  | Panic m => Panic m
  | Ok row =>
      cols ← foldM (append_field row) (columns b) (Fields (schema b));
      Ok (mkBatch cols (S (rowCount b)) (schema b))
  end.

Definition RowCount (b : Batch) : nat := rowCount b.
Definition get_Column (name : string) (b : Batch) : option Column := columns b !! name.

(** Row [i]: the values that are not null. *)
Definition read_field (b : Batch) (i : nat) (row : obj) (f : Field) : res obj :=
  match columns b !! fd_Name f with
  | None => nil_deref
  | Some col =>
      match Nulls col !! i with
      | None => out_of_range
      | Some true => Ok row
      | Some false => match Values col !! i with
                      | None => out_of_range
                      | Some v => Ok (<[fd_Name f := v]> row)
                      end
      end
  end.

Definition to_record (b : Batch) (i : nat) : res RawMessage :=
  row ← foldM (read_field b i) ∅ (Fields (schema b));
  match marshal_map row with
  | Err e => Err (ErrWrapf ("marshal row " +:+ pretty (Z.of_nat i)) e)
  | r => r
  end.

Definition ToRecords (b : Batch) : res (list RawMessage) :=
  foldM (λ acc i, d ← to_record b i; Ok (acc ++ [d])) [] (seq 0 (rowCount b)).

(** [Put]: the batch as it goes back to the pool. *)
Definition Put (b : Batch) : Batch :=
  mkBatch ((λ col, mkColumn (col_Name col) (col_Type col) [] []) <$> columns b) 0 (schema b).

(** [Get]: the batch the pool kept, if it kept one. *)
Definition Get (schema : Schema) (kept : option Batch) : Batch :=
  match kept with Some b => b | None => NewBatch schema end.

Definition inferType (v : value) : DataType :=
  match v with
  | VBool _ => TypeBool
  | VFloat _ => TypeFloat64
  | VString _ => TypeString
  | VMap _ | VSlice _ => TypeJSON
  | _ => TypeString
  end.

(** The order of the fields is that of a traversal of the map; here, of the names. *)
Definition InferSchema (sample : RawMessage) : res Schema :=
  match unmarshal_map sample with
  | Err e => Err (ErrWrapf "unmarshal sample" e)
  | Panic m => Panic m
  | Ok row => Ok (mkSchema (map (λ e, mkField e.1 (inferType e.2) true) (sorted_entries row)))
  end.

(** ** Columns hold the records *)

Definition names (s : Schema) : list string := map fd_Name (Fields s).

(** What is kept of a record: the fields of the schema that are not null. *)
Definition kept_row (s : Schema) (row : obj) : obj :=
  filter (λ e, e.1 ∈ names s ∧ is_nil e.2 = false) row.

Definition null_at (row : obj) (name : string) : bool :=
  match row !! name with None | Some VNil => true | _ => false end.
Definition value_at (row : obj) (name : string) : value := default VNil (row !! name).

Lemma push_value col row name : push col (row !! name) =
  mkColumn (col_Name col) (col_Type col) (Values col ++ [value_at row name]) (Nulls col ++ [null_at row name]).
Proof. unfold push, value_at, null_at. by destruct (row !! name) as [[]|]. Qed.

(** The columns hold the rows, in order. *)
Record holds (rows : list obj) (b : Batch) : Prop := {
  holds_count : rowCount b = length rows;
  holds_column name : name ∈ names (schema b) → ∃ col, columns b !! name = Some col ∧
    Values col = map (λ row, value_at row name) rows ∧ Nulls col = map (λ row, null_at row name) rows
}.

Lemma append_fields_lookup row fs : NoDup (map fd_Name fs) → ∀ cols,
  (∀ f, f ∈ fs → is_Some (cols !! fd_Name f)) →
  ∃ cols', foldM (append_field row) cols fs = Ok cols' ∧
    ∀ name, cols' !! name = if decide (name ∈ map fd_Name fs)
                            then (λ col, push col (row !! name)) <$> cols !! name else cols !! name.
Proof.
  induction fs as [|f fs IH]; intros Hnd cols Hcols; cbn [foldM map] in *.
  { exists cols. split; [done|]. intros name. by rewrite decide_False by set_solver. }
  apply list.NoDup_cons in Hnd as [Hf Hnd]. unfold append_field at 1.
  destruct (Hcols f) as [col Hcol]; [apply list_elem_of_here|]. rewrite Hcol.
  destruct (IH Hnd (<[fd_Name f := push col (row !! fd_Name f)]> cols)) as (cols' & -> & Hl).
  { intros g Hg. destruct (decide (fd_Name g = fd_Name f)) as [->|]; [by rewrite lookup_insert_eq|].
    rewrite lookup_insert_ne by done. apply Hcols. by apply list_elem_of_further. }
  exists cols'. split; [done|]. intros name. rewrite Hl.
  destruct (decide (name = fd_Name f)) as [->|Hne].
  - rewrite decide_False, decide_True, lookup_insert_eq, Hcol by (set_solver || done). done.
  - rewrite lookup_insert_ne by done.
    destruct (decide (name ∈ map fd_Name fs)); [rewrite decide_True by set_solver|rewrite decide_False by set_solver]; done.
Qed.

Lemma NewBatch_holds s : holds [] (NewBatch s).
Proof.
  split; [done|]. unfold NewBatch, names. cbn [schema columns]. intros name.
  enough (∀ fs cols, (name ∈ map fd_Name fs ∨ ∃ col, cols !! name = Some col ∧ Values col = [] ∧ Nulls col = []) →
    ∃ col, foldl (λ cols f, <[fd_Name f := empty_column f]> cols) cols fs !! name = Some col ∧
      Values col = [] ∧ Nulls col = []) as H by (intros Hn; apply H; by left).
  induction fs as [|f fs IH]; intros cols H; cbn [foldl map] in *.
  { destruct H as [H|H]; [by apply elem_of_nil in H|done]. }
  apply IH. destruct (decide (name = fd_Name f)) as [->|Hne].
  - right. rewrite lookup_insert_eq. by eexists.
  - rewrite lookup_insert_ne by done. destruct H as [H|H]; [left|by right].
    by apply elem_of_cons in H as [H|H].
Qed.

Lemma AppendRecord_holds rows b data row :
  NoDup (names (schema b)) → holds rows b → unmarshal_map data = Ok row →
  ∃ b', AppendRecord data b = Ok b' ∧ schema b' = schema b ∧ holds (rows ++ [row]) b'.
Proof.
  intros Hnd [Hn Hc] Hd. unfold AppendRecord. rewrite Hd.
  destruct (append_fields_lookup row (Fields (schema b)) Hnd (columns b)) as (cols & -> & Hl).
  { intros f Hf. destruct (Hc (fd_Name f)) as (col & Hcol & _); [|by eexists].
    apply list_elem_of_fmap. by exists f. }
  eexists. split; [reflexivity|]. cbn [schema]. split; [done|]. split; cbn [rowCount columns schema].
  - rewrite length_app, Hn. simpl. lia.
  - intros name Hname. rewrite Hl, decide_True by done. destruct (Hc name Hname) as (col & -> & Hv & Hu).
    eexists. split; [reflexivity|]. rewrite push_value. cbn. by rewrite !map_app, Hv, Hu.
Qed.

(** All records of a list. *)
Definition append_all (b : Batch) (datas : list RawMessage) : res Batch := foldM (λ b d, AppendRecord d b) b datas.

Lemma append_all_holds s datas rows : NoDup (names s) → Forall2 (λ d row, unmarshal_map d = Ok row) datas rows →
  ∀ b done_rows, schema b = s → holds done_rows b →
  ∃ b', append_all b datas = Ok b' ∧ schema b' = s ∧ holds (done_rows ++ rows) b'.
Proof.
  intros Hnd. induction 1 as [|d row datas rows Hd _ IH]; intros b rs Hs Hh; cbn [append_all foldM].
  { exists b. by rewrite app_nil_r. }
  destruct (AppendRecord_holds rs b d row) as (b1 & Hb1 & Hs1 & Hh1); [by rewrite Hs|done|done|].
  cbv beta. rewrite Hb1. destruct (IH b1 (rs ++ [row])) as (b' & Hb' & ? & ?); [congruence|done|].
  exists b'. by rewrite <- app_assoc in *.
Qed.

Lemma read_fields_spec b rows i row : holds rows b → rows !! i = Some row → ∀ fs acc,
  (∀ f, f ∈ fs → fd_Name f ∈ names (schema b)) →
  ∃ acc', foldM (read_field b i) acc fs = Ok acc' ∧
    ∀ name, acc' !! name = if decide (name ∈ map fd_Name fs ∧ null_at row name = false)
                           then row !! name else acc !! name.
Proof.
  intros [Hn Hc] Hi. induction fs as [|f fs IH]; intros acc Hfs; cbn [foldM map].
  { exists acc. split; [done|]. intros name. rewrite decide_False; [done|]. by intros [?%elem_of_nil _]. }
  destruct (Hc (fd_Name f)) as (col & Hcol & Hv & Hu); [apply Hfs, list_elem_of_here|].
  unfold read_field at 1. rewrite Hcol, Hu. change (map (λ r, null_at r (fd_Name f)) rows) with
    ((λ r, null_at r (fd_Name f)) <$> rows). rewrite list_lookup_fmap, Hi. cbn [fmap option_fmap option_map].
  destruct (null_at row (fd_Name f)) eqn:Hnull.
  - destruct (IH acc) as (acc' & -> & Hl); [intros g Hg; apply Hfs; by apply list_elem_of_further|].
    exists acc'. split; [done|]. intros name. rewrite Hl.
    destruct (decide (name ∈ map fd_Name fs ∧ null_at row name = false)) as [[? ?]|Hno].
    + rewrite decide_True; [done|]. split; [by apply list_elem_of_further|done].
    + rewrite decide_False; [done|]. intros [[->|?]%elem_of_cons ?]; [congruence|]. by apply Hno.
  - rewrite Hv. change (map (λ r, value_at r (fd_Name f)) rows) with ((λ r, value_at r (fd_Name f)) <$> rows).
    rewrite list_lookup_fmap, Hi. cbn [fmap option_fmap option_map].
    destruct (IH (<[fd_Name f := value_at row (fd_Name f)]> acc)) as (acc' & -> & Hl);
      [intros g Hg; apply Hfs; by apply list_elem_of_further|].
    exists acc'. split; [done|]. intros name. rewrite Hl.
    destruct (decide (name ∈ map fd_Name fs ∧ null_at row name = false)) as [[? ?]|Hno].
    + rewrite decide_True; [done|]. split; [by apply list_elem_of_further|done].
    + destruct (decide (name = fd_Name f)) as [->|Hne].
      * rewrite lookup_insert_eq, decide_True by (split; [apply list_elem_of_here|done]).
        unfold value_at, null_at in *. by destruct (row !! fd_Name f).
      * rewrite lookup_insert_ne by done. rewrite decide_False; [done|].
        intros [[?|?]%elem_of_cons ?]; [done|]. by apply Hno.
Qed.

Lemma kept_row_lookup s row name :
  kept_row s row !! name = if decide (name ∈ names s ∧ null_at row name = false) then row !! name else None.
Proof.
  unfold kept_row. rewrite map_lookup_filter. unfold null_at.
  destruct (row !! name) as [v|] eqn:Hv; cbn.
  - destruct (decide (name ∈ names s ∧ _)) as [[Hn Hd]|Hno].
    + rewrite option_guard_True; [done|]. split; [done|]. by destruct v.
    + rewrite option_guard_False; [done|]. intros [? ?]. apply Hno. split; [done|]. by destruct v.
  - by destruct (decide _).
Qed.

Lemma to_record_spec s b rows i row :
  schema b = s → holds rows b → rows !! i = Some row → plain_obj row →
  ∃ d, to_record b i = Ok d ∧ marshal_map (kept_row s row) = Ok d ∧ unmarshal_map d = Ok (kept_row s row).
Proof.
  intros Hs Hh Hi Hp. unfold to_record. rewrite Hs.
  destruct (read_fields_spec b rows i row Hh Hi (Fields s) ∅) as (acc & -> & Hl).
  { intros f Hf. rewrite Hs. apply list_elem_of_fmap. by exists f. }
  assert (acc = kept_row s row) as ->.
  { apply map_eq. intros name. rewrite Hl, kept_row_lookup. unfold names. by rewrite lookup_empty. }
  destruct (marshal_unmarshal (kept_row s row)) as (d & Hd & Hu).
  { intros k v Hk. unfold kept_row in Hk. apply map_lookup_filter_Some in Hk as [Hk _]. by apply (Hp k). }
  exists d. cbn. by rewrite Hd.
Qed.

Lemma foldM_snoc_all {B} (f : nat → res B) (P : nat → B → Prop) n : ∀ start acc,
  (∀ i, (start ≤ i < start + n)%nat → ∃ d, f i = Ok d ∧ P i d) →
  ∃ ds, foldM (λ acc i, d ← f i; Ok (acc ++ [d])) acc (seq start n) = Ok (acc ++ ds) ∧
    length ds = n ∧ ∀ i d, ds !! i = Some d → P (start + i)%nat d.
Proof.
  induction n as [|n IH]; intros start acc H; cbn [seq foldM].
  { exists []. rewrite app_nil_r. split_and!; [done|done|]. by intros i d. }
  destruct (H start) as (d & Hd & HP); [lia|]. rewrite Hd. cbn.
  destruct (IH (S start) (acc ++ [d])) as (ds & -> & Hlen & Hds); [intros i Hi; apply H; lia|].
  exists (d :: ds). rewrite <- app_assoc. split_and!; [done|simpl; lia|].
  intros [|i] d' Hi; cbn in Hi; [simplify_eq; by rewrite Nat.add_0_r|].
  apply Hds in Hi. by rewrite <- Nat.add_succ_comm.
Qed.

Lemma batch_rows s datas rows :
  NoDup (names s) → Forall2 (λ d row, unmarshal_map d = Ok row) datas rows →
  ∃ b outs, append_all (NewBatch s) datas = Ok b ∧ RowCount b = length datas ∧ ToRecords b = Ok outs ∧
    Forall2 (λ out row, marshal_map (kept_row s row) = Ok out ∧ unmarshal_map out = Ok (kept_row s row)) outs rows.
Proof.
  intros Hnd Hd. destruct (append_all_holds s datas rows Hnd Hd (NewBatch s) [] eq_refl (NewBatch_holds s))
    as (b & Hb & Hs & Hh). cbn [app] in Hh.
  destruct (foldM_snoc_all (to_record b)
              (λ i d, ∀ row, rows !! i = Some row → marshal_map (kept_row s row) = Ok d ∧ unmarshal_map d = Ok (kept_row s row))
              (rowCount b) 0 []) as (outs & Houts & Hlen & Hall).
  { intros i Hi. rewrite (holds_count _ _ Hh) in Hi. destruct (lookup_lt_is_Some_2 rows i) as [row Hrow]; [lia|].
    destruct (to_record_spec s b rows i row Hs Hh Hrow) as (d & Hd' & Hu).
    { apply list_elem_of_lookup_2 in Hrow. eapply Forall2_Forall_r in Hd; [|by apply Forall_forall; intros d _ r; apply unmarshal_plain].
      rewrite list.Forall_forall in Hd. by apply Hd. }
    exists d. split; [done|]. intros row' ?. by simplify_eq. }
  exists b, outs. split_and!; [done| |exact Houts|].
  - unfold RowCount. rewrite (holds_count _ _ Hh). symmetry. by eapply Forall2_length.
  - apply Forall2_same_length_lookup. rewrite Hlen. split; [apply (holds_count _ _ Hh)|].
    intros i d row Hi Hrow. by apply (Hall i d Hi).
Qed.

Lemma batch_roundtrip s datas rows :
  NoDup (names s) → Forall2 (λ d row, unmarshal_map d = Ok row) datas rows →
  ∃ b outs, append_all (NewBatch s) datas = Ok b ∧ RowCount b = length datas ∧ ToRecords b = Ok outs ∧
    Forall2 (λ out row, unmarshal_map out = Ok (kept_row s row)) outs rows.
Proof.
  intros Hnd Hd. destruct (batch_rows s datas rows Hnd Hd) as (b & outs & ? & ? & ? & Ho). exists b, outs. split_and!; [done..|].
  eapply Forall2_impl; [|exact Ho]. by intros out row [_ ?].
Qed.

(** The document a batch makes of one. *)
Definition cut_document (s : Schema) (d : RawMessage) : res RawMessage :=
  row ← unmarshal_map d; marshal_map (kept_row s row).

Lemma cut_document_total s d row : unmarshal_map d = Ok row → ∃ out, cut_document s d = Ok out.
Proof.
  intros Hd. unfold cut_document. rewrite Hd. cbn [mbind outcome_bind].
  destruct (marshal_unmarshal (kept_row s row)) as (out & Ho & _); [|by exists out].
  intros k v Hk. unfold kept_row in Hk. apply map_lookup_filter_Some in Hk as [Hk _]. by apply (unmarshal_plain d row Hd k).
Qed.

Lemma batch_documents s datas outs :
  NoDup (names s) → Forall2 (λ d out, cut_document s d = Ok out) datas outs →
  ∃ b, append_all (NewBatch s) datas = Ok b ∧ ToRecords b = Ok outs.
Proof.
  intros Hnd Hd.
  assert (∃ rows, Forall2 (λ d row, unmarshal_map d = Ok row) datas rows ∧
                  Forall2 (λ out row, marshal_map (kept_row s row) = Ok out) outs rows) as (rows & Hrows & Houts).
  { induction Hd as [|d out datas outs H _ (rows & H1 & H2)]; [by exists []|].
    apply bind_ok in H as (row & Hr & Hm). exists (row :: rows). by split; constructor. }
  destruct (batch_rows s datas rows Hnd Hrows) as (b & outs' & Hb & _ & Ht & Ho). exists b. split; [done|].
  rewrite Ht. f_equal. clear -Houts Ho. revert outs Houts.
  induction Ho as [|o r os rs [H _] _ IH]; intros outs Houts; inversion Houts; subst; [done|]. f_equal; [congruence|by apply IH].
Qed.

(** C25: records survive the columns.  If the names of the schema are distinct and every
    document is an object, then appending them to a new batch and converting it back
    succeeds and gives, in order, one document for each record: the members named in the
    schema that are not null. *)
Theorem arrow_roundtrip s datas rows :
  NoDup (names s) → Forall2 (λ d row, unmarshal_map d = Ok row) datas rows →
  ∃ b outs, append_all (NewBatch s) datas = Ok b ∧ RowCount b = length datas ∧ ToRecords b = Ok outs ∧
    Forall2 (λ out row, unmarshal_map out = Ok (kept_row s row)) outs rows.
Proof. apply batch_roundtrip. Qed.

(** ** Reuse of batches *)

Definition reset_column (col : Column) : Column := mkColumn (col_Name col) (col_Type col) [] [].

Lemma append_field_reset row cols f cols' :
  append_field row cols f = Ok cols' → reset_column <$> cols' = reset_column <$> cols.
Proof.
  unfold append_field. destruct (cols !! fd_Name f) as [col|] eqn:Hc; [|done]. intros [= <-].
  rewrite fmap_insert, push_value. change (reset_column (mkColumn _ _ _ _)) with (reset_column col).
  apply insert_id. by rewrite lookup_fmap, Hc.
Qed.

Lemma AppendRecord_Put d b b' : AppendRecord d b = Ok b' → Put b' = Put b.
Proof.
  unfold AppendRecord. destruct (unmarshal_map d) as [row| |]; try done.
  intros (cols & Hc & [= <-])%bind_ok. unfold Put. cbn [columns schema]. f_equal.
  refine (foldM_inv _ (λ cs, reset_column <$> cs = reset_column <$> columns b) _ _ _ eq_refl _ Hc).
  intros cs f cs' H Hf%append_field_reset. by rewrite Hf.
Qed.

Lemma Put_NewBatch s : Put (NewBatch s) = NewBatch s.
Proof.
  unfold Put, NewBatch. cbn [columns schema]. f_equal.
  assert (∀ fs (cols : gmap string Column), reset_column <$> cols = cols →
    reset_column <$> foldl (λ cols f, <[fd_Name f := empty_column f]> cols) cols fs =
    foldl (λ cols f, <[fd_Name f := empty_column f]> cols) cols fs) as H; [|apply H, fmap_empty].
  induction fs as [|f fs IH]; intros cols Hc; cbn [foldl]; [done|]. apply IH.
  by rewrite fmap_insert, Hc.
Qed.

(** A batch that has been used and put back is a new batch. *)
Lemma pool_reuse s datas b : append_all (NewBatch s) datas = Ok b → Get s (Some (Put b)) = NewBatch s.
Proof.
  intros H. unfold Get. rewrite <- Put_NewBatch.
  refine (foldM_inv _ (λ b, Put b = Put (NewBatch s)) _ _ _ eq_refl _ H).
  intros b1 d b2 Hb Ha%AppendRecord_Put. congruence.
Qed.

(** ** Witnesses *)

Definition doc_of (ms : list (string * Z)) : RawMessage :=
  RawDoc (JObj (map (λ e, (e.1, JNum (NLit (pretty e.2) e.2 0))) ms)).

Definition xy_schema : Schema := mkSchema [mkField "x" TypeFloat64 true; mkField "y" TypeFloat64 true].

Lemma arrow_roundtrip_witness :
  ∃ b outs rows, append_all (NewBatch xy_schema) [doc_of [("x", 1); ("z", 9)]; doc_of [("y", 2); ("x", 3)]] = Ok b ∧
    RowCount b = 2%nat ∧ ToRecords b = Ok outs ∧
    Forall2 (λ out row, unmarshal_map out = Ok (kept_row xy_schema row)) outs rows.
Proof.
  destruct (arrow_roundtrip xy_schema [doc_of [("x", 1); ("z", 9)]; doc_of [("y", 2); ("x", 3)]]
    [from_ok ∅ (unmarshal_map (doc_of [("x", 1); ("z", 9)])); from_ok ∅ (unmarshal_map (doc_of [("y", 2); ("x", 3)]))])
    as (b & outs & H1 & H2 & H3 & H4).
  - apply (bool_decide_unpack (NoDup (names xy_schema))). vm_compute. exact I.
  - repeat constructor.
  - exists b, outs. eexists. exact (conj H1 (conj H2 (conj H3 H4))).
Defined.

(** With a name twice in the schema, every record adds two entries to the one column, and
    the second record reads the entry of the first. *)
Example repeated_name_misaligns :
  (b ← append_all (NewBatch (mkSchema [mkField "x" TypeFloat64 true; mkField "x" TypeFloat64 true]))
         [doc_of [("x", 1)]; doc_of [("x", 2)]];
   outs ← ToRecords b; Ok (map (λ out, unmarshal_map out) outs)) =
  Ok [Ok {["x" := VFloat (f_of_Z 1)]}; Ok {["x" := VFloat (f_of_Z 1)]}].
Proof. vm_compute. reflexivity. Qed.
