(* ===== verification/Coercer.v ===== *)
(** * Type coercion of the worker: [internal/worker/transform/coercer.go]

    The values of a record while it is transformed: documents, with maps behind
    locations of a heap (see [Mapper]), integers of both Go types and instants.  Instants
    and their formats are [time]'s (class [TimeLib]); [strconv.ParseFloat] and the Unicode
    lower case are parameters, and so is [sprint], the [%v] of a value, which needs the heap.
    Go types that neither [encoding/json] nor a converter gives ([int8], [int16], [int32],
    [float32], [[]byte], further [Stringer]s) have no constructor, so the cases of
    [toInt64], [toFloat64] and [toString] for them are left out. *)

From Stdlib Require Import Ascii.
From S2P Require Import Prelude GoStrings Errors Float Value.

(** What the code uses of [time]. *)
Class TimeLib (T : Type) := {
  time_Parse : string → string → option T;
  time_Unix : Z → T;
  time_RFC3339 : T → string;
  time_String : T → string;
  time_JSON : T → option string
}.

Section coercer.
Context {T : Type} `{Htime : TimeLib T}.

Inductive gval :=
| GNil
| GBool (b : bool)
| GInt (z : Z)
| GInt64 (z : Z)
| GFloat (f : float64)
| GString (s : string)
| GTime (t : T)
| GSlice (l : list gval)
| GMap (loc : nat)
| GNilMap.               (** a nil map in an interface *)

Definition is_gnil (v : gval) : bool := match v with GNil => true | _ => false end.

(** [%T]. *)
Definition type_name (v : gval) : string :=
  match v with
  | GNil => "<nil>" | GBool _ => "bool" | GInt _ => "int" | GInt64 _ => "int64" | GFloat _ => "float64"
  | GString _ => "string" | GTime _ => "time.Time" | GSlice _ => "[]interface {}"
  | GMap _ | GNilMap => "map[string]interface {}"
  end.

#[local] Abbreviation CoerceFunc := (gval → res gval).

Record TypeCoercer := mkCoercer { converters : gmap string CoerceFunc }.

Definition coercionKey (from to : string) : string := from +:+ "->" +:+ to.

Definition RegisterConverter (from to : string) (fn : CoerceFunc) (tc : TypeCoercer) : TypeCoercer :=
  mkCoercer (<[coercionKey from to := fn]> (converters tc)).

Section lib.
Context (parse_float : string → res float64) (to_lower : string → string) (sprint : gval → res string).

Definition normalizeType (t : string) : string :=
  let l := to_lower (TrimSpace t) in
  if bool_decide (l ∈ ["string"; "str"; "text"; "varchar"]) then "string"
  else if bool_decide (l ∈ ["int"; "int32"; "int64"; "integer"; "bigint"]) then "int"
  else if bool_decide (l ∈ ["float"; "float32"; "float64"; "double"; "decimal"; "number"]) then "float"
  else if bool_decide (l ∈ ["bool"; "boolean"]) then "bool"
  else if bool_decide (l ∈ ["time"; "timestamp"; "datetime"; "date"]) then "time"
  else l.

Definition Coerce (tc : TypeCoercer) (value : gval) (fromType toType : string) : res gval :=
  match value with
  | GNil => Ok GNil
  | _ =>
      let from := normalizeType fromType in
      let to := normalizeType toType in
      if bool_decide (from = to) then Ok value
      else match converters tc !! coercionKey from to with
           | None => Err (ErrText ("no converter registered for " +:+ from +:+ " -> " +:+ to))
           | Some fn => fn value
           end
  end.

(** ** Conversions to Go types *)

Definition toString (v : gval) : res string :=
  match v with
  | GString s => Ok s
  | GTime t => Ok (time_String t)
  | v => sprint v
  end.

Definition toInt64 (v : gval) : option Z :=
  match v with
  | GInt z | GInt64 z => Some z
  | GFloat f => Some (f_to_i64 f)
  | _ => None
  end.

Definition toFloat64 (v : gval) : option float64 :=
  match v with
  | GFloat f => Some f
  | GInt z | GInt64 z => Some (f_of_Z z)
  | _ => None
  end.

Definition cannot_convert (v : gval) (what : string) : error :=
  ErrText ("cannot convert " +:+ type_name v +:+ " to " +:+ what).

(** ** The converters *)

(** The error of [strconv.ParseInt]: digits that do not fit are a range error. *)
Definition parse_int_error (s : string) : error :=
  let ds := match bytes_of s with
            | "+"%char :: ds | "-"%char :: ds => ds
            | ds => ds
            end in
  let digits := match ds with [] => false | _ => match digits_loop ds 0 with Some _ => true | None => false end end in
  ErrText ("strconv.ParseInt: parsing " +:+ quote s +:+ ": "
           +:+ (if digits then "value out of range" else "invalid syntax")).

Definition string_to_int : CoerceFunc := λ v,
  s ← toString v;
  let s := TrimSpace s in
  match parse_int s with
  | Some i => Ok (GInt64 i)
  | None => match parse_float s with
            | Ok f => Ok (GInt64 (f_to_i64 f))
            | _ => Err (ErrWrapf ("cannot parse " +:+ quote s +:+ " as int") (parse_int_error s))
            end
  end.

Definition int_to_string : CoerceFunc := λ v,
  match toInt64 v with
  | Some i => Ok (GString (pretty i))
  | None => s ← sprint v; Ok (GString s)
  end.

Definition string_to_float : CoerceFunc := λ v,
  s ← toString v;
  match parse_float (TrimSpace s) with
  | Ok f => Ok (GFloat f)
  | Err e => Err (ErrWrapf ("cannot parse " +:+ quote s +:+ " as float") e)
  | Panic m => Panic m
  end.

Definition float_to_string : CoerceFunc := λ v,
  match toFloat64 v with
  | Some f => Ok (GString (FormatFloat_f f))
  | None => s ← sprint v; Ok (GString s)
  end.

Definition parse_bool_error (s : string) : error :=
  ErrText ("strconv.ParseBool: parsing " +:+ quote s +:+ ": invalid syntax").

Definition string_to_bool : CoerceFunc := λ v,
  s ← toString v;
  match parse_bool (TrimSpace s) with
  | Some b => Ok (GBool b)
  | None =>
      let lower := to_lower (TrimSpace s) in
      if bool_decide (lower ∈ ["yes"; "y"; "1"; "on"]) then Ok (GBool true)
      else if bool_decide (lower ∈ ["no"; "n"; "0"; "off"]) then Ok (GBool false)
      else Err (ErrWrapf ("cannot parse " +:+ quote s +:+ " as bool") (parse_bool_error (TrimSpace s)))
  end.

Definition bool_to_string : CoerceFunc := λ v,
  match v with
  | GBool b => Ok (GString (if b then "true" else "false"))
  | _ => s ← sprint v; Ok (GString s)
  end.

Definition time_formats : list string :=
  ["2006-01-02T15:04:05Z07:00"; "2006-01-02T15:04:05.999999999Z07:00"; "2006-01-02T15:04:05";
   "2006-01-02 15:04:05"; "2006-01-02"; "Mon, 02 Jan 2006 15:04:05 MST"; "Mon, 02 Jan 2006 15:04:05 -0700"].

Fixpoint parse_time (formats : list string) (s : string) : option T :=
  match formats with
  | [] => None
  | f :: formats => match time_Parse f s with Some t => Some t | None => parse_time formats s end
  end.

Definition string_to_time : CoerceFunc := λ v,
  s ← toString v;
  let s := TrimSpace s in
  match parse_time time_formats s with
  | Some t => Ok (GTime t)
  | None => match parse_int s with
            | Some ts => Ok (GTime (time_Unix ts))
            | None => Err (ErrText ("cannot parse " +:+ quote s +:+ " as time: no matching format"))
            end
  end.

Definition time_to_string : CoerceFunc := λ v,
  match v with
  | GTime t => Ok (GString (time_RFC3339 t))
  | GString s => Ok (GString s)
  | _ => s ← sprint v; Ok (GString s)
  end.

Definition int_to_float : CoerceFunc := λ v,
  match toInt64 v with
  | Some i => Ok (GFloat (f_of_Z i))
  | None => Err (cannot_convert v "int for float conversion")
  end.

Definition float_to_int : CoerceFunc := λ v,
  match toFloat64 v with
  | Some f => Ok (GInt64 (f_to_i64 f))
  | None => Err (cannot_convert v "float for int conversion")
  end.

Definition int_to_bool : CoerceFunc := λ v,
  match toInt64 v with
  | Some i => Ok (GBool (negb (i =? 0)))
  | None => Err (cannot_convert v "int for bool conversion")
  end.

Definition bool_to_int : CoerceFunc := λ v,
  match v with
  | GBool b => Ok (GInt64 (if b then 1 else 0))
  | _ => Err (cannot_convert v "bool for int conversion")
  end.

(** [f != 0]: a NaN is not zero. *)
Definition float_to_bool : CoerceFunc := λ v,
  match toFloat64 v with
  | Some f => Ok (GBool (negb (f_eqb f (f_of_Z 0))))
  | None => Err (cannot_convert v "float for bool conversion")
  end.

Definition bool_to_float : CoerceFunc := λ v,
  match v with
  | GBool b => Ok (GFloat (if b then f_of_Z 1 else f_of_Z 0))
  | _ => Err (cannot_convert v "bool for float conversion")
  end.

Definition registerBuiltins (tc : TypeCoercer) : TypeCoercer :=
  mkCoercer (list_to_map
    [("string->int", string_to_int); ("int->string", int_to_string);
     ("string->float", string_to_float); ("float->string", float_to_string);
     ("string->bool", string_to_bool); ("bool->string", bool_to_string);
     ("string->time", string_to_time); ("time->string", time_to_string);
     ("int->float", int_to_float); ("float->int", float_to_int);
     ("int->bool", int_to_bool); ("bool->int", bool_to_int);
     ("float->bool", float_to_bool); ("bool->float", bool_to_float)] ∪ converters tc).

Definition NewTypeCoercer : TypeCoercer := registerBuiltins (mkCoercer ∅).

(** ** What a conversion gives *)

Definition kind (v : gval) : string :=
  match v with
  | GBool _ => "bool" | GInt _ | GInt64 _ => "int" | GFloat _ => "float" | GString _ => "string"
  | GTime _ => "time" | _ => ""
  end.

(** The pairs of types with a built-in converter. *)
Definition convertible : list (string * string) :=
  [("string", "int"); ("int", "string"); ("string", "float"); ("float", "string"); ("string", "bool");
   ("bool", "string"); ("string", "time"); ("time", "string"); ("int", "float"); ("float", "int");
   ("int", "bool"); ("bool", "int"); ("float", "bool"); ("bool", "float")].

(** A converter of the pair gives a value of the target type, and accepts every value of
    the source type unless that is text. *)
Definition good_converter (from to : string) (fn : CoerceFunc) : Prop :=
  (∀ v w, fn v = Ok w → kind w = to) ∧
  (∀ v, kind v = from → from ≠ "string" → is_ok (fn v) = true).

Ltac converter_tac :=
  repeat match goal with
  | H : mbind _ _ = Ok _ |- _ => apply bind_ok in H as (? & ? & H)
  | H : context [match ?x with _ => _ end] |- _ => destruct x eqn:?; simplify_eq/=
  | H : context [if ?x then _ else _] |- _ => destruct x eqn:?; simplify_eq/=
  end; simplify_eq/=; try done.

Lemma builtin_converters from to : (from, to) ∈ convertible →
  ∃ fn, converters NewTypeCoercer !! coercionKey from to = Some fn ∧ good_converter from to fn.
Proof.
  intros H. unfold convertible in H.
  repeat (apply elem_of_cons in H as [[= -> ->]|H]; [eexists; split; [reflexivity|]; split|]);
    [..|by apply elem_of_nil in H].
  all: cbn [snd]; intros v; try (intros Hk Hs; first [by destruct (Hs eq_refl)|by destruct v]).
  all: intros w; cbv [string_to_int int_to_string string_to_float float_to_string string_to_bool
    bool_to_string string_to_time time_to_string int_to_float float_to_int int_to_bool bool_to_int
    float_to_bool bool_to_float]; intros Hw; by converter_tac.
Qed.
(** What the parameters are assumed to do: [unicode.ToLower] on the names of the types. *)
Definition lowers_names : Prop :=
  Forall (λ n, to_lower n = n) ["string"; "int"; "float"; "bool"; "time"].

Lemma coercionKey_none from to : (from, to) ∉ convertible →
  from ∈ ["string"; "int"; "float"; "bool"; "time"] → to ∈ ["string"; "int"; "float"; "bool"; "time"] →
  converters NewTypeCoercer !! coercionKey from to = None.
Proof.
  intros Hn Hf Ht.
  repeat (apply elem_of_cons in Hf as [->|Hf];
    [repeat (apply elem_of_cons in Ht as [->|Ht]; [first [reflexivity|exfalso; apply Hn; set_solver]|]);
     by apply elem_of_nil in Ht|]).
  by apply elem_of_nil in Hf.
Qed.

(** C39: conversions are well typed.  A conversion between two different types of the table
    gives a value of the target type whenever it succeeds, and succeeds on every value of
    the source type unless it reads text; a null stays a null, equal types leave the value
    as it is, and a pair of basic types that is not in the table is an error. *)
Theorem Coerce_typed v fromType toType :
  let from := normalizeType fromType in
  let to := normalizeType toType in
  Coerce NewTypeCoercer GNil fromType toType = Ok GNil ∧
  (from = to → Coerce NewTypeCoercer v fromType toType = Ok v) ∧
  ((from, to) ∈ convertible → v ≠ GNil →
     (∀ w, Coerce NewTypeCoercer v fromType toType = Ok w → kind w = to) ∧
     (kind v = from → from ≠ "string" → is_ok (Coerce NewTypeCoercer v fromType toType) = true)) ∧
  (from ≠ to → (from, to) ∉ convertible → v ≠ GNil →
     from ∈ ["string"; "int"; "float"; "bool"; "time"] → to ∈ ["string"; "int"; "float"; "bool"; "time"] →
     Coerce NewTypeCoercer v fromType toType =
       Err (ErrText ("no converter registered for " +:+ from +:+ " -> " +:+ to))).
Proof.
  cbv zeta. set (from := normalizeType fromType). set (to := normalizeType toType).
  assert (v ≠ GNil → Coerce NewTypeCoercer v fromType toType =
    if bool_decide (from = to) then Ok v
    else match converters NewTypeCoercer !! coercionKey from to with
         | None => Err (ErrText ("no converter registered for " +:+ from +:+ " -> " +:+ to))
         | Some fn => fn v
         end) as Hc by (intros Hv; by destruct v).
  split_and!; [done| | |].
  - intros He. destruct (decide (is_gnil v)) as [Hn|Hn]; [by destruct v|].
    rewrite Hc by (intros ->; by apply Hn). by rewrite bool_decide_true.
  - intros Hin Hv. rewrite Hc by done.
    assert (from ≠ to) as Hne.
    { intros He. rewrite He in Hin. revert Hin. clear. unfold convertible. clearbody to. intros Hin.
      repeat (apply elem_of_cons in Hin as [Hx|Hin]; [simplify_eq|]). by apply elem_of_nil in Hin. }
    rewrite bool_decide_false by done.
    destruct (builtin_converters from to Hin) as (fn & -> & Hty & Hok).
    split; [apply Hty|apply Hok].
  - intros Hne Hnin Hv Hf Ht. rewrite Hc by done. rewrite bool_decide_false by done.
    by rewrite coercionKey_none.
Qed.

(** Integers, booleans and texts survive a round trip through text: converting a 64-bit
    integer or a boolean to a string and back gives the same value. *)
Theorem Coerce_text_roundtrip v ty :
  lowers_names →
  (∃ i, v = GInt64 i ∧ in_i64 i ∧ ty = "int") ∨ (∃ b, v = GBool b ∧ ty = "bool") →
  (w ← Coerce NewTypeCoercer v ty "string"; Coerce NewTypeCoercer w "string" ty) = Ok v.
Proof.
  intros Hlow Hv. unfold lowers_names in Hlow. rewrite !list.Forall_cons in Hlow.
  destruct Hlow as (H1 & H2 & _ & H4 & _).
  assert (normalizeType "string" = "string" ∧ normalizeType "int" = "int" ∧ normalizeType "bool" = "bool")
    as (Ns & Ni & Nb).
  { unfold normalizeType. change (TrimSpace "string") with "string". change (TrimSpace "int") with "int".
    change (TrimSpace "bool") with "bool". rewrite H1, H2, H4. done. }
  destruct Hv as [(i & -> & Hi & ->)|(b & -> & ->)]; unfold Coerce; rewrite Ns, ?Ni, ?Nb.
  - change (converters NewTypeCoercer !! coercionKey "int" "string") with (Some int_to_string).
    change (converters NewTypeCoercer !! coercionKey "string" "int") with (Some string_to_int).
    change (string_to_int (GString (pretty i)) = Ok (GInt64 i)). unfold string_to_int.
    cbn [toString mbind outcome_bind]. by rewrite TrimSpace_pretty, parse_int_pretty.
  - change (converters NewTypeCoercer !! coercionKey "bool" "string") with (Some bool_to_string).
    change (converters NewTypeCoercer !! coercionKey "string" "bool") with (Some string_to_bool).
    by destruct b.
Qed.
End lib.
End coercer.
Arguments gval : clear implicits.

(** ** Witnesses *)

(** Instants as seconds, without any layout. *)
Definition plain_time : TimeLib Z := {|
  time_Parse _ _ := None; time_Unix z := z; time_RFC3339 z := pretty z; time_String z := pretty z;
  time_JSON z := Some (pretty z)
|}.

Definition no_float (s : string) : res float64 := Err (ErrText "invalid syntax").

Lemma Coerce_typed_witness :
  Coerce ToLower (NewTypeCoercer (Htime := plain_time) no_float ToLower (λ _, Ok "?")) (GFloat (f_of_dec 27 (-1)))
    "Number" "BIGINT" = Ok (GInt64 2) ∧ kind (GInt64 2 : gval Z) = "int".
Proof.
  split; [vm_compute; reflexivity|].
  apply (Coerce_typed (Htime := plain_time) no_float ToLower (λ _, Ok "?") (GFloat (f_of_dec 27 (-1))) "Number" "BIGINT").
  - vm_compute. set_solver.
  - discriminate.
  - vm_compute. reflexivity.
Defined.

Lemma Coerce_text_roundtrip_witness :
  (w ← Coerce ToLower (NewTypeCoercer (Htime := plain_time) no_float ToLower (λ _, Ok "?")) (GInt64 (-42)) "int" "string";
   Coerce ToLower (NewTypeCoercer (Htime := plain_time) no_float ToLower (λ _, Ok "?")) w "string" "int") = Ok (GInt64 (-42)).
Proof.
  apply (Coerce_text_roundtrip (Htime := plain_time) no_float ToLower (λ _, Ok "?") (GInt64 (-42)) "int").
  - repeat constructor.
  - left. exists (-42). split; [done|]. split; [|done]. unfold in_i64, int64_min, int64_max. lia.
Defined.
