(* ===== verification/Mapper.v ===== *)
(** * Field mapper of the worker: [internal/worker/transform/mapper.go]

    Maps are shared: a value taken from the source record and stored in the destination is
    the same map, and a later mapping may write into it.  So maps live in a heap; a default
    value that holds maps points into the heap the call starts with.  The maps that
    [setNestedValue] creates under the destination are reached from there only, and are a
    tree ([dval]); a write that meets a stored value goes on in the heap ([heap_set]).
    Following pointers is bounded by [heap_fuel], more than the nesting of any heap without
    a cycle; on a cycle, [json.Marshal] returns an error and [%v] never ends. *)

From Stdlib Require Import Ascii.
From S2P Require Import Prelude GoStrings Errors Float Value Coercer.

Inductive TransformType :=
| TransformRename | TransformCast | TransformExpression | TransformDefault | TransformOther (s : string).

Section mapper.
Context {T : Type} `{Htime : TimeLib T}.
Context (parse_float : string → res float64) (to_lower to_upper : string → string).

Record FieldMapping := mkFieldMapping {
  fm_SourceField : string; fm_DestField : string; fm_Transform : TransformType; fm_CastType : string;
  fm_Expression : string; fm_DefaultValue : gval T
}.

Definition cell : Type := gmap string (gval T).
Definition heap : Type := list cell.

(** ** Decoding and encoding *)

(** Building a decoded document in the heap. *)
Fixpoint load (v : value) (h : heap) : gval T * heap :=
  match v with
  | VNil => (GNil, h)
  | VBool b => (GBool b, h)
  | VFloat f => (GFloat f, h)
  | VInt z => (GInt64 z, h)
  | VString s => (GString s, h)
  | VSlice l =>
      let '(gs, h) := foldl (λ acc v, let '(g, h) := load v acc.2 in (acc.1 ++ [g], h)) ([], h) l in
      (GSlice gs, h)
  | VMap m =>
      let '(c, h) := map_fold (λ k v acc, let '(g, h) := load v acc.2 in (<[k := g]> acc.1, h)) (∅, h) m in
      (GMap (length h), h ++ [c])
  end.

(** [json.Unmarshal] into [map[string]interface{}]. *)
Definition unmarshal_record (record : RawMessage) (h : heap) : res (gval T * heap) :=
  match record with
  | RawDoc JNull => Ok (GNilMap, h)
  | _ => m ← unmarshal_map record; Ok (load (VMap m) h)
  end.

Fixpoint gsize (v : gval T) : nat :=
  match v with GSlice l => S (sum_list_with gsize l) | _ => 1%nat end.
Definition heap_fuel (h : heap) (v : gval T) : nat :=
  (gsize v + sum_list_with (λ c : cell, S (map_fold (λ _ x n, gsize x + n) 0 c)) h + 1)%nat.

(** [None]: an unsupported value, or a cycle. *)
Fixpoint gval_json (fuel : nat) (h : heap) (v : gval T) : option json :=
  match fuel with
  | O => None
  | S fuel =>
      match v with
      | GNil | GNilMap => Some JNull
      | GBool b => Some (JBool b)
      | GInt z | GInt64 z => Some (JNum (NLit (pretty z) z 0))
      | GFloat f => if f_is_finite f then Some (JNum (NPrint f)) else None
      | GString s => Some (JStr s)
      | GTime t => JStr <$> time_JSON t
      | GSlice l => JArr <$> mapO (gval_json fuel h) l
      | GMap loc => c ← h !! loc; (λ js, JObj (sorted_entries js)) <$> mapM (gval_json fuel h) c
      end
  end.

(** [fmt.Sprintf("%v", v)]; [None] for a cycle. *)
Fixpoint gval_text (fuel : nat) (h : heap) (v : gval T) : option string :=
  match fuel with
  | O => None
  | S fuel =>
      match v with
      | GNil => Some "<nil>"
      | GBool b => Some (if b then "true" else "false")
      | GInt z | GInt64 z => Some (pretty z)
      | GFloat f => Some (FormatFloat_g f)
      | GString s => Some s
      | GTime t => Some (time_String t)
      | GSlice l => ts ← mapO (gval_text fuel h) l; Some ("[" +:+ String.concat " " ts +:+ "]")
      | GNilMap => Some "map[]"
      | GMap loc =>
          c ← h !! loc; ts ← mapM (gval_text fuel h) c;
          Some ("map[" +:+ String.concat " " ((λ e, e.1 +:+ ":" +:+ e.2) <$> sorted_entries ts) +:+ "]")
      end
  end.

Definition sprint (h : heap) (v : gval T) : res string :=
  match gval_text (heap_fuel h v) h v with
  | Some s => Ok s
  | None => Panic "stack overflow"
  end.

(** ** Paths *)

(** [current] holds the bytes of the segment in reverse. *)
Definition flush (current : list ascii) (segments : list string) : list string :=
  match current with [] => segments | _ => segments ++ [of_bytes (reverse current)] end.

(** The bytes up to a closing bracket, whether there was one, and the bytes after it. *)
Fixpoint bracket (bs : list ascii) (acc : list ascii) : list ascii * bool * list ascii :=
  match bs with
  | [] => (reverse acc, false, [])
  | c :: bs => if bool_decide (c = "]"%char) then (reverse acc, true, bs) else bracket bs (c :: acc)
  end.

(** The loop over the bytes; [fuel] is the number of bytes left. *)
Fixpoint parse_segments (fuel : nat) (bs current : list ascii) (segments : list string) : list string :=
  match fuel, bs with
  | S fuel, ch :: bs =>
      if bool_decide (ch = "."%char) then parse_segments fuel bs [] (flush current segments)
      else if bool_decide (ch = "["%char) then
        let '(inside, closed, rest) := bracket bs [] in
        let seg := "["%char :: inside ++ (if closed then ["]"%char] else []) in
        parse_segments fuel rest [] (flush current segments ++ [of_bytes seg])
      else parse_segments fuel bs (ch :: current) segments
  | _, _ => flush current segments
  end.

Definition parsePath (path : string) : list string :=
  parse_segments (String.length path) (bytes_of path) [] [].

(** The text between the brackets of a segment ["[...]"]. *)
Definition index_segment (seg : string) : option string :=
  match bytes_of seg with
  | "["%char :: rest =>
      match reverse rest with
      | "]"%char :: inside => Some (of_bytes (reverse inside))
      | _ => None
      end
  | _ => None
  end.

Fixpoint walk (h : heap) (current : gval T) (segments : list string) : gval T :=
  match segments with
  | [] => current
  | seg :: segments =>
      match current with
      | GNil => GNil
      | _ =>
          match index_segment seg with
          | Some idxStr =>
              match parse_int idxStr, current with
              | Some idx, GSlice arr =>
                  if idx <? 0 then GNil
                  else match arr !! Z.to_nat idx with Some v => walk h v segments | None => GNil end
              | _, _ => GNil
              end
          | None =>
              match current with
              | GMap loc => match h !! loc ≫= lookup seg with Some v => walk h v segments | None => GNil end
              | _ => GNil
              end
          end
      end
  end.

Definition getNestedValue (h : heap) (data : gval T) (path : string) : gval T := walk h data (parsePath path).

(** ** Writing *)

Inductive dval :=
| DVal (v : gval T)
| DNew (m : gmap string dval).

Definition nil_map_write {A} : res A := Panic "assignment to entry in nil map".

(** Below a stored map: the maps on the way are in the heap, missing ones are added. *)
Fixpoint heap_set (h : heap) (loc : nat) (parts : list string) (value : gval T) : res heap :=
  match parts with
  | [] => Ok h
  | [k] => Ok (alter <[k := value]> loc h)
  | k :: parts =>
      match h !! loc ≫= lookup k with
      | Some (GMap next) => heap_set h next parts value
      | Some GNilMap => nil_map_write
      | _ => heap_set (alter <[k := GMap (length h)]> loc h ++ [∅]) (length h) parts value
      end
  end.

Fixpoint dest_set (data : gmap string dval) (parts : list string) (value : gval T) (h : heap) :
    res (gmap string dval * heap) :=
  match parts with
  | [] => Ok (data, h)
  | [k] => Ok (<[k := DVal value]> data, h)
  | k :: parts =>
      match data !! k with
      | Some (DNew m) => '(m, h) ← dest_set m parts value h; Ok (<[k := DNew m]> data, h)
      | Some (DVal (GMap loc)) => h ← heap_set h loc parts value; Ok (data, h)
      | Some (DVal GNilMap) => nil_map_write
      | _ => '(m, h) ← dest_set ∅ parts value h; Ok (<[k := DNew m]> data, h)
      end
  end.

Definition setNestedValue (data : gmap string dval) (path : string) (value : gval T) (h : heap) :
    res (gmap string dval * heap) :=
  dest_set data (Split path ".") value h.

(** ** Transformations *)

Definition inferTypeString (v : gval T) : string :=
  match v with
  | GString _ => "string" | GFloat _ => "float" | GInt _ | GInt64 _ => "int" | GBool _ => "bool" | _ => "string"
  end.

Definition evaluateExpression (h : heap) (expr : string) (val : gval T) : res (gval T) :=
  match val with
  | GNil => Ok GNil
  | _ =>
      let name := to_lower (TrimSpace expr) in
      if bool_decide (name = "upper") then
        Ok match val with GString s => GString (to_upper s) | _ => val end
      else if bool_decide (name = "lower") then
        Ok match val with GString s => GString (to_lower s) | _ => val end
      else if bool_decide (name = "trim") then
        Ok match val with GString s => GString (TrimSpace s) | _ => val end
      else if bool_decide (name = "negate") then
        Ok match val with
           | GFloat f => GFloat (f_neg f)
           | GInt z => GInt (i64 (- z))
           | GInt64 z => GInt64 (i64 (- z))
           | _ => val
           end
      else if bool_decide (name = "tostring") then s ← sprint h val; Ok (GString s)
      else if bool_decide (name = "length") then
        Ok match val with
           | GString s => GInt (Z.of_nat (String.length s))
           | GSlice l => GInt (Z.of_nat (length l))
           | _ => val
           end
      else Ok val
  end.

Definition coercer (h : heap) : TypeCoercer (T := T) := NewTypeCoercer parse_float to_lower (sprint h).

(** The value a mapping gives; nil is not written. *)
Definition mapped_value (h : heap) (src : gval T) (m : FieldMapping) : res (gval T) :=
  let val := getNestedValue h src (fm_SourceField m) in
  match fm_Transform m with
  | TransformRename => Ok val
  | TransformCast =>
      if negb (is_gnil val) && negb (bool_decide (fm_CastType m = "")) then
        match Coerce to_lower (coercer h) val (inferTypeString val) (fm_CastType m) with
        | Err e => Err (ErrWrapf ("cast " +:+ fm_SourceField m +:+ " to " +:+ fm_CastType m) e)
        | r => r
        end
      else Ok val
  | TransformExpression => evaluateExpression h (fm_Expression m) val
  | TransformDefault => Ok (if is_gnil val then fm_DefaultValue m else val)
  | TransformOther _ => Ok val
  end.

(** One mapping. *)
Definition apply_one (src : gval T) (s : gmap string dval * heap) (m : FieldMapping) :
    res (gmap string dval * heap) :=
  val ← mapped_value s.2 src m;
  if is_gnil val then Ok s else setNestedValue s.1 (fm_DestField m) val s.2.

(** The loop over the mappings; the writes made before an error remain. *)
Fixpoint apply_all (src : gval T) (dest : gmap string dval) (h : heap) (mappings : list FieldMapping) :
    res (gmap string dval) * heap :=
  match mappings with
  | [] => (Ok dest, h)
  | m :: mappings =>
      match apply_one src (dest, h) m with
      | Ok (dest, h) => apply_all src dest h mappings
      | Err e => (Err e, h)
      | Panic p => (Panic p, h)
      end
  end.

Fixpoint dval_json (h : heap) (d : dval) : option json :=
  match d with
  | DVal v => gval_json (heap_fuel h v) h v
  | DNew m =>
      js ← map_fold (λ k d acc, j ← dval_json h d; js ← acc; Some (<[k := j]> js)) (Some (∅ : gmap string json)) m;
      Some (JObj (sorted_entries js))
  end.

Definition Apply (record : RawMessage) (mappings : list FieldMapping) (h : heap) : res RawMessage * heap :=
  match unmarshal_record record h with
  | Err e => (Err (ErrWrapf "unmarshal source record" e), h)
  | Panic p => (Panic p, h)
  | Ok (src, h1) =>
      match apply_all src ∅ h1 mappings with
      | (Err e, h2) => (Err e, h2)
      | (Panic p, h2) => (Panic p, h2)
      | (Ok dest, h2) =>
          match dval_json h2 (DNew dest) with
          | Some j => (Ok (RawDoc j), h2)
          | None => (Err (ErrWrapf "marshal mapped record" err_unsupported), h2)
          end
      end
  end.

(** ** Where values are written *)

Fixpoint dest_at (data : gmap string dval) (parts : list string) : option dval :=
  match parts with
  | [] => None
  | [k] => data !! k
  | k :: parts => match data !! k with Some (DNew m) => dest_at m parts | _ => None end
  end.

(** A value is stored at a path. *)
Definition leaf (data : gmap string dval) (parts : list string) (w : gval T) : Prop :=
  dest_at data parts = Some (DVal w).

(** [q] goes on below [p]. *)
Definition below (p q : list string) : Prop := ∃ k ks, q = p ++ k :: ks.

Lemma below_cons k p q : below p q → below (k :: p) (k :: q).
Proof. intros (k' & ks & ->). by exists k', ks. Qed.

Lemma dest_at_cons data k parts : parts ≠ [] →
  dest_at data (k :: parts) = match data !! k with Some (DNew m) => dest_at m parts | _ => None end.
Proof. by destruct parts. Qed.

Lemma leaf_empty q w : ¬ leaf ∅ q w.
Proof.
  unfold leaf. destruct q as [|k [|k' q]]; [done| |]; cbn [dest_at]; by rewrite lookup_empty.
Qed.

(** The leaves after a value has replaced what was at a first segment. *)
Lemma leaf_insert data k d q w :
  leaf (<[k := d]> data) q w ↔
  match q with
  | [] => False
  | [k'] => if decide (k' = k) then d = DVal w else leaf data q w
  | k' :: q' => if decide (k' = k) then (match d with DNew m => leaf m q' w | _ => False end) else leaf data q w
  end.
Proof.
  unfold leaf. destruct q as [|k' [|k'' q]]; [done| |]; cbn [dest_at]; case_decide as Hk; subst;
    rewrite ?lookup_insert_eq, ?lookup_insert_ne by done; [split; [by intros [= ->]|by intros ->]|done| |done].
  destruct d; [split; [discriminate|done]|done].
Qed.

Lemma dest_set_leaf value h : ∀ parts data, parts ≠ [] →
  (∀ q w, leaf data q w → ¬ below q parts) → (∀ q w, leaf data q w → ¬ below parts q) →
  ∃ data', dest_set data parts value h = Ok (data', h) ∧
    ∀ q w, leaf data' q w ↔ (q = parts ∧ w = value) ∨ (q ≠ parts ∧ leaf data q w).
Proof.
  induction parts as [|k parts IH]; intros data Hne HA HB; [done|]. destruct parts as [|k2 parts].
  - eexists. split; [reflexivity|]. intros q w. rewrite leaf_insert.
    destruct q as [|k' [|k'' q]].
    + split; [done|]. intros [[? _]|[_ ?]]; [done|]. by cbv [leaf] in *.
    + case_decide as Hk; subst; split.
      * intros [= ->]. by left.
      * intros [[_ ->]|[? _]]; [done|done].
      * intros ?. right. split; [congruence|done].
      * intros [[? _]|[_ ?]]; [congruence|done].
    + case_decide as Hk; subst; split; [done| |intros ?; right; split; [discriminate|done]|].
      * intros [[? _]|[_ Hl]]; [discriminate|]. apply HB in Hl. exfalso. apply Hl. by exists k'', q.
      * intros [[? _]|[_ ?]]; [discriminate|done].
  - assert (∀ m, (∀ q w, leaf m q w → leaf data (k :: q) w) →
      ∃ m', dest_set m (k2 :: parts) value h = Ok (m', h) ∧
        ∀ q w, leaf m' q w ↔ (q = k2 :: parts ∧ w = value) ∨ (q ≠ k2 :: parts ∧ leaf m q w)) as Hrec.
    { intros m Hm. apply IH; [done| |]; intros q w Hq Hb; apply Hm in Hq.
      - by apply (HA _ _ Hq), below_cons.
      - by apply (HB _ _ Hq), below_cons. }
    assert (∃ m, (dest_set data (k :: k2 :: parts) value h =
      ('(m', h) ← dest_set m (k2 :: parts) value h; Ok (<[k := DNew m']> data, h))) ∧
      ∀ q w, q ≠ [] → leaf m q w ↔ leaf data (k :: q) w) as (m & Hset & Hm).
    { change (dest_set data (k :: k2 :: parts) value h) with
        (match data !! k with
         | Some (DNew m) => '(m, h) ← dest_set m (k2 :: parts) value h; Ok (<[k := DNew m]> data, h)
         | Some (DVal (GMap loc)) => h ← heap_set h loc (k2 :: parts) value; Ok (data, h)
         | Some (DVal GNilMap) => nil_map_write
         | _ => '(m, h) ← dest_set ∅ (k2 :: parts) value h; Ok (<[k := DNew m]> data, h)
         end).
      destruct (data !! k) as [[v|m]|] eqn:Hk.
      - exfalso. apply (HA [k] v); [done|]. by exists k2, parts.
      - exists m. split; [done|]. intros q w Hq. unfold leaf. rewrite dest_at_cons, Hk by done. done.
      - exists ∅. split; [done|]. intros q w Hq. unfold leaf. rewrite (dest_at_cons data), Hk by done.
        split; [intros H; by apply leaf_empty in H|done]. }
    destruct (Hrec m) as (m' & Hm' & Hleaf).
    { intros q w Hq. apply Hm; [|done]. by intros ->. }
    rewrite Hset, Hm'. cbn. eexists. split; [reflexivity|]. intros q w. rewrite leaf_insert.
    destruct q as [|k' [|k'' q]].
    + split; [done|]. intros [[? _]|[_ ?]]; [done|]. by cbv [leaf] in *.
    + case_decide as Hk; subst; split.
      * discriminate.
      * intros [[? _]|[_ Hl]]; [discriminate|]. exfalso. apply (HA _ _ Hl). by exists k2, parts.
      * intros ?. right. split; [discriminate|done].
      * intros [[? _]|[_ ?]]; [discriminate|done].
    + case_decide as Hk; subst.
      * rewrite Hleaf, Hm by done. split; (intros [[? ?]|[? ?]]; [left|right]); split; congruence || done.
      * split; [intros ?; right; split; [congruence|done]|]. intros [[? _]|[_ ?]]; [congruence|done].
Qed.

(** ** What the mappings give *)

Definition dest_path (m : FieldMapping) : list string := Split (fm_DestField m) ".".

(** No destination lies below another. *)
Definition no_overlap (ms : list FieldMapping) : Prop :=
  ∀ m1 m2, m1 ∈ ms → m2 ∈ ms → ¬ below (dest_path m1) (dest_path m2).

(** The value the last mapping to a path gives that is not nil, on the unchanged source. *)
Definition update_value (h : heap) (src : gval T) (p : list string) (acc : option (gval T)) (m : FieldMapping) :
    option (gval T) :=
  match mapped_value h src m with
  | Ok GNil => acc
  | Ok v => if decide (dest_path m = p) then Some v else acc
  | _ => acc
  end.
Definition last_value (h : heap) (src : gval T) (ms : list FieldMapping) (p : list string) : option (gval T) :=
  foldl (update_value h src p) None ms.

Lemma Split_nonempty s sep : Split s sep ≠ [].
Proof.
  unfold Split. generalize (@nil ascii) as cur. induction (bytes_of s) as [|c bs IH]; intros cur; cbn; [done|].
  by destruct (decide _).
Qed.

Lemma apply_one_spec all h src data (P : list string → option (gval T)) m v :
  no_overlap all → m ∈ all → mapped_value h src m = Ok v →
  (∀ p w, leaf data p w ↔ P p = Some w) →
  (∀ q w, leaf data q w → ∃ m, m ∈ all ∧ q = dest_path m) →
  ∃ data', apply_one src (data, h) m = Ok (data', h) ∧
    (∀ p w, leaf data' p w ↔ update_value h src p (P p) m = Some w) ∧
    (∀ q w, leaf data' q w → ∃ m, m ∈ all ∧ q = dest_path m).
Proof.
  intros Hno Hm Hv HP Hall. unfold apply_one, update_value. cbn [fst snd]. rewrite Hv. cbn [mbind outcome_bind].
  destruct (is_gnil v) eqn:Hn.
  { destruct v; try done. exists data. split_and!; [done|done|done]. }
  destruct (dest_set_leaf v h (dest_path m) data) as (data' & Hset & Hleaf).
  - apply Split_nonempty.
  - intros q w (m1 & Hm1 & ->)%Hall. by apply Hno.
  - intros q w (m1 & Hm1 & ->)%Hall. by apply Hno.
  - exists data'. split_and!; [exact Hset| |].
    + intros p w. rewrite Hleaf, HP.
      assert (match v with GNil => P p | _ => if decide (dest_path m = p) then Some v else P p end =
              if decide (dest_path m = p) then Some v else P p) as -> by (by destruct v).
      case_decide as Hp; [subst|]; split.
      * intros [[_ ->]|[? _]]; done.
      * intros [= ->]. by left.
      * intros [[? _]|[_ ?]]; [congruence|done].
      * intros ?. right. split; [congruence|done].
    + intros q w [[-> _]|[_ Hq]]%Hleaf; [by exists m|]. by apply (Hall q w).
Qed.

Lemma apply_all_leaves all h src : no_overlap all → ∀ ms data P,
  (∀ m, m ∈ ms → m ∈ all) → (∀ m, m ∈ ms → ∃ v, mapped_value h src m = Ok v) →
  (∀ p w, leaf data p w ↔ P p = Some w) →
  (∀ q w, leaf data q w → ∃ m, m ∈ all ∧ q = dest_path m) →
  ∃ dest, apply_all src data h ms = (Ok dest, h) ∧
    ∀ p w, leaf dest p w ↔ foldl (update_value h src p) (P p) ms = Some w.
Proof.
  intros Hno. induction ms as [|m ms IH]; intros data P Hin Hok HP Hall; cbn [apply_all foldl].
  { by exists data. }
  destruct (Hok m (list_elem_of_here _ _)) as [v Hv].
  destruct (apply_one_spec all h src data P m v Hno (Hin m (list_elem_of_here _ _)) Hv HP Hall)
    as (data' & -> & HP' & Hall').
  apply (IH data' (λ p, update_value h src p (P p) m)); [..|done|done];
    intros m' Hm'; [apply Hin|apply Hok]; by apply list_elem_of_further.
Qed.

Lemma apply_all_app src ms1 ms2 : ∀ data h,
  apply_all src data h (ms1 ++ ms2) =
  match apply_all src data h ms1 with (Ok d, h') => apply_all src d h' ms2 | r => r end.
Proof.
  induction ms1 as [|m ms1 IH]; intros data h; cbn [apply_all app]; [done|].
  destruct (apply_one src (data, h) m) as [[d h1]|e|p]; [apply IH|done..].
Qed.

(** Mappings to separate places do what they say.  If no destination path lies below
    another, then the mappings leave the source record (and every default value) as it was
    and, when each of them gives a value, the result holds exactly these values: at the path
    of each destination the value of the last mapping to it that is not nil, computed on
    the original record.  Otherwise the error is that of the first mapping that fails. *)
Theorem mapping_writes h src ms :
  no_overlap ms →
  ((∀ m, m ∈ ms → ∃ v, mapped_value h src m = Ok v) →
   ∃ dest, apply_all src ∅ h ms = (Ok dest, h) ∧
     ∀ p w, leaf dest p w ↔ last_value h src ms p = Some w) ∧
  (∀ ms1 m ms2 e, ms = ms1 ++ m :: ms2 → (∀ m, m ∈ ms1 → ∃ v, mapped_value h src m = Ok v) →
     mapped_value h src m = Err e → apply_all src ∅ h ms = (Err e, h)).
Proof.
  intros Hno. assert (∀ p w, leaf ∅ p w ↔ @None (gval T) = Some w) as H0.
  { intros p w. split; [by intros ?%leaf_empty|done]. }
  assert (∀ q w, leaf ∅ q w → ∃ m, m ∈ ms ∧ q = dest_path m) as H1 by (by intros q w ?%leaf_empty).
  split.
  - intros Hok. by apply (apply_all_leaves ms h src Hno ms ∅ (λ _, None)).
  - intros ms1 m ms2 e -> Hok He.
    destruct (apply_all_leaves _ h src Hno ms1 ∅ (λ _, None)) as (dest & Hd & _);
      [intros; apply elem_of_app; by left|done|done|done|].
    rewrite apply_all_app, Hd. cbn [apply_all]. unfold apply_one. cbn [snd]. by rewrite He.
Qed.
End mapper.

(** ** Examples and witness *)

Definition plain_mapping (source dest : string) : FieldMapping (T := Z) :=
  mkFieldMapping source dest TransformRename "" "" GNil.

Definition number (z : Z) : json := JNum (NLit (pretty z) z 0).

Definition apply_plain := Apply (Htime := plain_time) no_float ToLower ToLower.

(** Writing below a value that was moved changes the source record: the mapping of [x] to
    [b] gives a member that [x] does not have. *)
Example moved_map_is_shared :
  (r ← (apply_plain (RawDoc (JObj [("x", JObj [("y", number 1)]); ("z", number 2)]))
     [plain_mapping "x" "a"; plain_mapping "z" "a.w"; plain_mapping "x" "b"] []).1; unmarshal_map r) =
  unmarshal_map (RawDoc (JObj [("a", JObj [("w", number 2); ("y", number 1)]);
                               ("b", JObj [("w", number 2); ("y", number 1)])])).
Proof. vm_compute. reflexivity. Qed.

(** A default value that is a map is one map for all records: what the first record writes
    below it, the second record has as well. *)
Example default_map_leaks :
  let ms := [mkFieldMapping "none" "d" TransformDefault "" "" (GMap 0); plain_mapping "x" "d.x"] in
  let h1 := (apply_plain (RawDoc (JObj [("x", number 7)])) ms [∅]).2 in
  (r ← (apply_plain (RawDoc (JObj [])) ms h1).1; unmarshal_map r) =
  unmarshal_map (RawDoc (JObj [("d", JObj [("x", number 7)])])).
Proof. vm_compute. reflexivity. Qed.

(** The whole record below itself is a cycle, which cannot be encoded. *)
Example cycle_is_an_error :
  (apply_plain (RawDoc (JObj [("x", number 1)])) [plain_mapping "" "all"; plain_mapping "" "all.self"] []).1 =
  Err (ErrWrapf "marshal mapped record" err_unsupported).
Proof. vm_compute. reflexivity. Qed.

Example parse_path_example : parsePath "items[0].name..x[1" = ["items"; "[0]"; "name"; "x"; "[1"].
Proof. reflexivity. Qed.

Definition sample_mappings : list (FieldMapping (T := Z)) := [plain_mapping "user.name" "name"; plain_mapping "tags[1]" "first.tag"].
Definition sample_record : gval Z * heap (T := Z) :=
  load (VMap {["user" := VMap {["name" := VString "ada"]}; "tags" := VSlice [VString "x"; VString "y"]]}) [].

Lemma mapping_writes_witness :
  ∃ dest, apply_all (Htime := plain_time) no_float ToLower ToLower sample_record.1 ∅ sample_record.2 sample_mappings
            = (Ok dest, sample_record.2) ∧
    leaf dest ["first"; "tag"] (GString "y").
Proof.
  destruct (mapping_writes (Htime := plain_time) no_float ToLower ToLower sample_record.2 sample_record.1 sample_mappings)
    as [H _].
  - intros m1 m2 H1 H2 (k & ks & Hk). unfold sample_mappings in *.
    repeat (apply elem_of_cons in H1 as [->|H1]; [|]); [..|by apply elem_of_nil in H1];
      (repeat (apply elem_of_cons in H2 as [->|H2]; [|]); [..|by apply elem_of_nil in H2]); vm_compute in Hk; discriminate.
  - destruct H as (dest & Hd & Hl).
    + intros m Hm. unfold sample_mappings in Hm.
      repeat (apply elem_of_cons in Hm as [->|Hm]; [eexists; vm_compute; reflexivity|]). by apply elem_of_nil in Hm.
    + exists dest. split; [exact Hd|]. apply Hl. vm_compute. reflexivity.
Defined.
