(* ===== verification/TransformWorker.v ===== *)
(** * Transform worker: [internal/worker/transform/worker.go]

    Deduplication, then field mappings applied to chunks of the batch in parallel, by rows
    or through an Arrow batch.  The mapper is its function of one record for fixed
    mappings ([apply]), which it is as long as no default value holds a map (see
    [Mapper.default_map_leaks]); the filter of seen keys is an interface, of which [Bloom]
    gives the instance.  [ctx_err phase i] is what [ctx.Err()] gives before record [i] of
    the batch is appended ([true]) or mapped ([false]); [text] is the bytes of a document. *)

From S2P Require Import Prelude GoStrings Errors Value Protocol Bloom Arrow.

(** What the worker needs of the filter of seen keys. *)
Class KeyFilter (D : Type) := { is_duplicate : D → string → outcome string (bool * D) }.
#[global] Instance bloom_filter : KeyFilter Deduplicator := {| is_duplicate := IsDuplicate |}.

Definition set_data (r : Rec) (d : RawMessage) : Rec :=
  mkRec (rec_Stream r) (rec_Namespace r) d (rec_EmittedAt r).

Section worker.
Context {D : Type} `{KeyFilter D} (text : RawMessage → string) (ctx_err : bool → nat → option error).

Record TransformWorker := mkTransformWorker { tw_dedup : option D; concurrency : Z }.

Definition NewTransformWorker (concurrency : Z) (dedup : option D) : TransformWorker :=
  mkTransformWorker dedup (if concurrency <? 1 then 1 else concurrency).

(** The records whose data has not been seen, and the filter afterwards. *)
Fixpoint deduplicateRecords (records : list Rec) (d : D) : outcome string (list Rec * D) :=
  match records with
  | [] => Ok ([], d)
  | r :: records =>
      '(dup, d) ← is_duplicate d (text (rec_Data r));
      '(unique, d) ← deduplicateRecords records d;
      Ok (if dup : bool then unique else r :: unique, d)
  end.

Section mappings.
Variable apply : RawMessage → res RawMessage.

Definition at_record (what : string) (i : nat) (e : error) : error :=
  ErrWrapf (what +:+ " " +:+ pretty (Z.of_nat i)) e.

(** [start] is where the slice begins in the batch, [i] the index in the slice. *)
Fixpoint rowwise (start i : nat) (records : list Rec) : res (list Rec) :=
  match records with
  | [] => Ok []
  | r :: records =>
      match ctx_err false (start + i) with
      | Some e => Err e
      | None =>
          match apply (rec_Data r) with
          | Err e => Err (at_record "map record" i e)
          | Panic m => Panic m
          | Ok mapped => rest ← rowwise start (S i) records; Ok (set_data r mapped :: rest)
          end
      end
  end.
Definition applyMappingsRowwise (start : nat) (records : list Rec) : res (list Rec) := rowwise start 0 records.

Fixpoint append_records (start i : nat) (records : list Rec) (batch : Batch) : res Batch :=
  match records with
  | [] => Ok batch
  | r :: records =>
      match ctx_err true (start + i) with
      | Some e => Err e
      | None =>
          match AppendRecord (rec_Data r) batch with
          | Err e => Err (ErrWrapf ("append record " +:+ pretty (Z.of_nat i) +:+ " to batch") e)
          | Panic m => Panic m
          | Ok batch => append_records start (S i) records batch
          end
      end
  end.

Definition applyMappingsColumnar (schema : Schema) (start : nat) (records : list Rec) : res (list Rec) :=
  batch ← append_records start 0 records (NewBatch schema);
  match ToRecords batch with
  | Err e => Err (ErrWrapf "convert batch to records" e)
  | Panic m => Panic m
  | Ok rawRecords => rowwise start 0 (zip_with set_data records rawRecords)
  end.

Definition applyMappingsSlice (schema : option Schema) (start : nat) (records : list Rec) : res (list Rec) :=
  match schema, records with
  | Some s, _ :: _ => applyMappingsColumnar s start records
  | _, _ => applyMappingsRowwise start records
  end.

(** The result slots, filled by one goroutine each; a panic in one ends the program. *)
Definition chunk_result (schema : option Schema) (records : list Rec) (chunkSize i : nat) : res (list Rec) :=
  let start := (i * chunkSize)%nat in
  let end_ := Nat.min (start + chunkSize) (length records) in
  applyMappingsSlice schema start (slice start end_ records).

Definition combine (results : list (res (list Rec))) : res (list Rec) :=
  foldM (λ combined r, recs ← r; Ok (combined ++ recs)) [] results.

Definition first_panic (results : list (res (list Rec))) : option string :=
  head (omap (λ r, match r with Panic m => Some m | _ => None end) results).

Definition applyMappingsParallel (tw : TransformWorker) (schema : option Schema) (records : list Rec) :
    res (list Rec) :=
  let n := Z.of_nat (length records) in
  if n =? 0 then Ok []
  else if (concurrency tw <=? 1) || (n <? concurrency tw *ᵢ 2) then applyMappingsSlice schema 0 records
  else
    let chunkSize := Z.quot n (concurrency tw) in
    let chunkSize := if chunkSize <? 1 then 1 else chunkSize in
    let numChunks := Z.quot (n + chunkSize - 1) chunkSize in
    let results := map (chunk_result schema records (Z.to_nat chunkSize)) (seq 0 (Z.to_nat numChunks)) in
    match first_panic results with
    | Some m => Panic m
    | None => combine results
    end.

(** [noMappings]: whether the list of mappings is empty. *)
Definition ProcessBatch (tw : TransformWorker) (records : list Rec) (noMappings : bool) (schema : option Schema) :
    res (list Rec) * TransformWorker :=
  match records with
  | [] => (Ok [], tw)
  | _ =>
      match (match tw_dedup tw with
             | None => Ok (records, None)
             | Some d => '(unique, d) ← deduplicateRecords records d; Ok (unique, Some d)
             end) with
      | Panic m => (Panic m, tw)
      | Err e => (Err (ErrText e), tw)
      | Ok (deduped, d) =>
          let tw := mkTransformWorker d (concurrency tw) in
          if noMappings then (Ok deduped, tw)
          else (match applyMappingsParallel tw schema deduped with
                | Err e => Err (ErrWrapf "apply mappings" e)
                | r => r
                end, tw)
      end
  end.

(** ** Parallel and serial mapping *)

(** The reference: the records mapped one after the other, up to the first that fails, with
    its index and its error. *)
Fixpoint map_until (records : list Rec) : list Rec + nat * error :=
  match records with
  | [] => inl []
  | r :: records =>
      match apply (rec_Data r) with
      | Ok d => match map_until records with
                | inl outs => inl (set_data r d :: outs)
                | inr (k, e) => inr (S k, e)
                end
      | Err e => inr (0%nat, e)
      | Panic m => inr (0%nat, ErrText m)
      end
  end.

(** Its result, when failures bear the index [number k]. *)
Definition mapped_result (number : nat → nat) (r : list Rec + nat * error) : res (list Rec) :=
  match r with inl outs => Ok outs | inr (k, e) => Err (at_record "map record" (number k) e) end.

Lemma map_until_app a b :
  map_until (a ++ b) =
  match map_until a with
  | inl oa => match map_until b with inl ob => inl (oa ++ ob) | inr (k, e) => inr ((length a + k)%nat, e) end
  | inr f => inr f
  end.
Proof.
  induction a as [|r a IH]; cbn [map_until app]; [by destruct (map_until b) as [|[? ?]]|].
  destruct (apply (rec_Data r)); [|done..]. rewrite IH.
  destruct (map_until a) as [|[? ?]]; [|done]. by destruct (map_until b) as [|[? ?]].
Qed.

Lemma map_until_index records k e : map_until records = inr (k, e) → (k < length records)%nat.
Proof.
  revert k. induction records as [|r rs IH]; intros k; cbn [map_until length]; [done|].
  destruct (apply (rec_Data r)); [|intros [= <- _]; lia..].
  destruct (map_until rs) as [|[k' e']]; [done|]. intros [= <- ->]. specialize (IH k' eq_refl). lia.
Qed.

Hypothesis Hctx : ∀ b i, ctx_err b i = None.
Hypothesis Hpanic : ∀ d m, apply d ≠ Panic m.

Lemma rowwise_spec start : ∀ records i,
  rowwise start i records = mapped_result (λ k, i + k)%nat (map_until records).
Proof using Hctx Hpanic.
  induction records as [|r rs IH]; intros i; cbn [rowwise map_until]; [done|].
  rewrite Hctx. destruct (apply (rec_Data r)) as [d|e|m] eqn:Ha; cbn.
  - rewrite IH. destruct (map_until rs) as [outs|[k e]]; cbn; [done|]. by rewrite Nat.add_succ_r.
  - by rewrite Nat.add_0_r.
  - by destruct (Hpanic _ _ Ha).
Qed.

(** *** What the mapper is given *)

(** By rows the record itself, with a schema the document a batch makes of it. *)
Definition cut (schema : option Schema) (r : Rec) : res Rec :=
  match schema with
  | None => Ok r
  | Some s => d ← cut_document s (rec_Data r); Ok (set_data r d)
  end.

(** The reference: one record cut and mapped by itself. *)
Definition map_one (schema : option Schema) (r : Rec) : option Rec :=
  match cut schema r with
  | Ok c => match apply (rec_Data c) with Ok d => Some (set_data c d) | _ => None end
  | _ => None
  end.

Fixpoint map_each (schema : option Schema) (records : list Rec) : option (list Rec) :=
  match records with
  | [] => Some []
  | r :: records => out ← map_one schema r; outs ← map_each schema records; Some (out :: outs)
  end.

(** A schema whose names are distinct. *)
Definition distinct (schema : option Schema) : Prop := from_option (λ s, NoDup (names s)) True schema.

Lemma append_records_ok start records : ∀ i batch b,
  append_records start i records batch = Ok b → append_all batch (map rec_Data records) = Ok b.
Proof using Hctx.
  induction records as [|r rs IH]; intros i batch b; cbn [append_records map append_all foldM]; [done|].
  rewrite Hctx. destruct (AppendRecord (rec_Data r) batch) as [b1|e|m]; [|done..]. apply IH.
Qed.

Lemma append_records_all start records : ∀ i batch b,
  append_all batch (map rec_Data records) = Ok b → append_records start i records batch = Ok b.
Proof using Hctx.
  induction records as [|r rs IH]; intros i batch b; cbn [append_records map append_all foldM]; [done|].
  rewrite Hctx. destruct (AppendRecord (rec_Data r) batch) as [b1|e|m]; [|done..]. apply IH.
Qed.

Lemma append_all_cuts s records : ∀ batch b, append_all batch (map rec_Data records) = Ok b →
  ∃ cuts, Forall2 (λ r c, cut (Some s) r = Ok c) records cuts.
Proof using Type.
  induction records as [|r rs IH]; intros batch b; cbn [map append_all foldM]; [by exists []|].
  destruct (AppendRecord (rec_Data r) batch) as [b1|e|m] eqn:Ha; [|done..]. intros (cuts & Hcuts)%IH.
  unfold AppendRecord in Ha. destruct (unmarshal_map (rec_Data r)) as [row|e|m] eqn:Hu; [|done..].
  destruct (cut_document_total s _ _ Hu) as [d Hd]. exists (set_data r d :: cuts). constructor; [|done].
  unfold cut. by rewrite Hd.
Qed.

Lemma map_until_one records : ∀ outs, map_until records = inl outs ↔ map_each None records = Some outs.
Proof using Type.
  clear Hctx Hpanic text ctx_err.
  induction records as [|r rs IH]; intros outs; cbn [map_until map_each]; [naive_solver|]. unfold map_one at 1. cbn [cut].
  destruct (apply (rec_Data r)) as [d|e|m]; cbn [mbind option_bind]; [|done..]. destruct (map_until rs) as [o|[k e]].
  - rewrite (proj1 (IH o) eq_refl). cbn. naive_solver.
  - destruct (map_each None rs) as [o|]; [|done]. discriminate (proj2 (IH o) eq_refl).
Qed.

Lemma cuts_map_one schema records cuts :
  Forall2 (λ r c, cut schema r = Ok c) records cuts → map_each schema records = map_each None cuts.
Proof using Type.
  induction 1 as [|r c rs cs Hcut _ IH]; [done|]. cbn [map_each]. rewrite IH. unfold map_one. by rewrite Hcut.
Qed.

(** A slice whose records can be cut is the reference on their cuts. *)
Lemma slice_spec schema start records cuts : distinct schema →
  Forall2 (λ r c, cut schema r = Ok c) records cuts →
  applyMappingsSlice schema start records = mapped_result id (map_until cuts).
Proof using Hctx Hpanic.
  intros Hd Hcuts. unfold applyMappingsSlice, applyMappingsRowwise. destruct schema as [s|].
  - destruct records as [|r0 rs0]; [inversion Hcuts; subst; apply rowwise_spec|]. remember (r0 :: rs0) as records. clear Heqrecords.
    assert (∃ docs, Forall2 (λ r d, cut_document s (rec_Data r) = Ok d) records docs ∧ cuts = zip_with set_data records docs)
      as (docs & Hdocs & ->).
    { induction Hcuts as [|r c rs cs Hcut _ (docs & IH & ->)]; [by exists []|]. apply bind_ok in Hcut as (d & Hdd & [= <-]).
      exists (d :: docs). by split; [constructor|]. }
    destruct (batch_documents s (map rec_Data records) docs) as (b & Hb & Ht); [done|by apply Forall2_fmap_l|].
    unfold applyMappingsColumnar. rewrite (append_records_all _ _ _ _ _ Hb). cbn [mbind outcome_bind]. rewrite Ht. apply rowwise_spec.
  - assert (cuts = records) as -> by (induction Hcuts as [|r c rs cs [= ->] _ ->]; done).
    apply rowwise_spec.
Qed.

Lemma mapM_one_cuts schema records outs :
  map_each schema records = Some outs → ∃ cuts, Forall2 (λ r c, cut schema r = Ok c) records cuts.
Proof using Type.
  revert outs. induction records as [|r rs IH]; intros outs; [by exists []|]. cbn [map_each]. unfold map_one at 1.
  destruct (cut schema r) as [c|e|m] eqn:Hc; [|done..]. destruct (apply (rec_Data c)) as [d|e|m]; [|done..]. cbn.
  destruct (map_each schema rs) as [o|]; [|done]. intros _. destruct (IH o eq_refl) as [cuts ?].
  exists (c :: cuts). by constructor.
Qed.

(** Any slice succeeds exactly if every record of it does by itself, and does not panic. *)
Lemma slice_ok schema start records outs : distinct schema →
  applyMappingsSlice schema start records = Ok outs ↔ map_each schema records = Some outs.
Proof using Hctx Hpanic.
  intros Hd. assert (Hcut : ∀ cuts, Forall2 (λ r c, cut schema r = Ok c) records cuts →
    applyMappingsSlice schema start records = Ok outs ↔ map_each schema records = Some outs).
  { intros cuts Hcuts. rewrite (slice_spec _ _ _ _ Hd Hcuts), (cuts_map_one _ _ _ Hcuts), <- map_until_one.
    destruct (map_until cuts) as [o|[k e]]; cbn; naive_solver. }
  split; intros Hs; [|destruct (mapM_one_cuts _ _ _ Hs) as [cuts Hcuts]; by apply (Hcut cuts)].
  destruct schema as [s|]; [destruct records as [|r rs]|].
  - by apply (Hcut []).
  - pose proof Hs as Hs0. cbn [applyMappingsSlice] in Hs0. unfold applyMappingsColumnar in Hs0. apply bind_ok in Hs0 as (b & Hb & _). apply append_records_ok in Hb.
    destruct (append_all_cuts s _ _ _ Hb) as [cuts Hcuts]. by apply (Hcut cuts).
  - apply (Hcut records); [|done]. clear. by induction records; constructor.
Qed.

Lemma append_records_no_panic s start records : NoDup (names s) → ∀ i batch rows, schema batch = s → holds rows batch →
  ∀ m, append_records start i records batch ≠ Panic m.
Proof using Hctx.
  intros Hnd. induction records as [|r rs IH]; intros i batch rows Hs Hh m; cbn [append_records]; [done|]. rewrite Hctx.
  destruct (unmarshal_map (rec_Data r)) as [row|e|p] eqn:Hu.
  - destruct (AppendRecord_holds rows batch (rec_Data r) row) as (b & -> & Hs' & Hh'); [by rewrite Hs|done|done|].
    by apply (IH (S i) b (rows ++ [row])); [rewrite Hs'|].
  - unfold AppendRecord. by rewrite Hu.
  - exfalso. revert Hu. unfold unmarshal_map. by repeat case_match.
Qed.

Lemma slice_no_panic schema start records m : distinct schema → applyMappingsSlice schema start records ≠ Panic m.
Proof using Hctx Hpanic.
  intros Hd. unfold applyMappingsSlice. destruct schema as [s|]; [destruct records as [|r rs]|];
    try (unfold applyMappingsRowwise; rewrite rowwise_spec; by destruct (map_until _) as [|[? ?]]).
  unfold applyMappingsColumnar. intros Hp.
  destruct (append_records start 0 (r :: rs) (NewBatch s)) as [b|e|p] eqn:Hb; [|done|].
  - apply append_records_ok in Hb. destruct (append_all_cuts s _ _ _ Hb) as [cuts Hcuts].
    pose proof (slice_spec (Some s) start (r :: rs) cuts Hd Hcuts) as Hsl. cbn [applyMappingsSlice] in Hsl.
    unfold applyMappingsColumnar in Hsl. apply append_records_all with (start := start) (i := 0%nat) in Hb. rewrite Hb in Hsl.
    cbn [mbind outcome_bind] in Hsl, Hp. rewrite Hsl in Hp. by destruct (map_until cuts) as [|[? ?]].
  - by apply (append_records_no_panic s start (r :: rs) Hd 0 (NewBatch s) [] eq_refl (NewBatch_holds s) p).
Qed.

(** *** The chunks together *)

Lemma chunk_slice schema records c i :
  chunk_result schema records c i = applyMappingsSlice schema (i * c) (take c (drop (i * c) records)).
Proof using Type. unfold chunk_result. by rewrite slice_min. Qed.

Lemma no_panic schema records c idxs : distinct schema → first_panic (map (chunk_result schema records c) idxs) = None.
Proof using Hctx Hpanic.
  intros Hd. unfold first_panic. induction idxs as [|i idxs IH]; [done|]. cbn [map]. unfold omap in *. cbn [list_omap].
  destruct (chunk_result schema records c i) as [|e|m] eqn:Hc; [done..|]. rewrite chunk_slice in Hc.
  by apply slice_no_panic in Hc.
Qed.

Lemma combine_panic schema records c idxs m : combine (map (chunk_result schema records c) idxs) = Panic m →
  ∃ i, chunk_result schema records c i = Panic m.
Proof using Type.
  unfold combine. generalize (@nil Rec). induction idxs as [|i idxs IH]; intros acc; cbn [map foldM]; [done|].
  destruct (chunk_result schema records c i) as [o|e|p] eqn:Hi; cbn [mbind outcome_bind]; [apply IH|done|].
  intros [= ->]. by exists i.
Qed.

Lemma take_chunks {A} (records : list A) c i m :
  take (S m * c) (drop (i * c) records) = take c (drop (i * c) records) ++ take (m * c) (drop (S i * c) records).
Proof using Type.
  replace (S m * c)%nat with (c + m * c)%nat by lia. replace (S i * c)%nat with (i * c + c)%nat by lia.
  rewrite <- drop_drop. by rewrite take_take_drop.
Qed.

(** They succeed exactly if every record does by itself. *)
Lemma combine_ok schema records c outs : distinct schema → ∀ m i acc,
  foldM (λ combined r, recs ← r; Ok (combined ++ recs)) acc (map (chunk_result schema records c) (seq i m)) = Ok outs ↔
  ∃ o, map_each schema (take (m * c) (drop (i * c) records)) = Some o ∧ outs = acc ++ o.
Proof using Hctx Hpanic.
  intros Hd. induction m as [|m IH]; intros i acc; cbn [seq map foldM].
  { rewrite Nat.mul_0_l, take_0. cbn. split; [intros [= <-]; exists []; by rewrite app_nil_r|].
    intros (o & [= <-] & ->). by rewrite app_nil_r. }
  rewrite take_chunks, chunk_slice. set (a := take c (drop (i * c) records)).
  assert (Happ : ∀ b, map_each schema (a ++ b) =
    match map_each schema a with Some oa => match map_each schema b with Some ob => Some (oa ++ ob) | None => None end | None => None end).
  { intros b. clearbody a. induction a as [|x a IHa]; cbn [map_each app]; [by destruct (map_each schema b)|].
    destruct (map_one schema x); [|done]. cbn. rewrite IHa. destruct (map_each schema a); [|done]. cbn.
    by destruct (map_each schema b). }
  rewrite Happ. destruct (map_each schema a) as [oa|] eqn:Ha.
  - rewrite (proj2 (slice_ok schema (i * c) a oa Hd) Ha). cbn [mbind outcome_bind]. rewrite IH.
    destruct (map_each schema (take (m * c) (drop (S i * c) records))) as [ob|]; [|naive_solver].
    split; [intros (o & [= <-] & ->)|intros (o & [= <-] & ->)]; [exists (oa ++ ob)|exists ob]; by rewrite app_assoc.
  - destruct (applyMappingsSlice schema (i * c) a) as [o|e|p] eqn:Hs; [|naive_solver..].
    by rewrite (proj1 (slice_ok schema (i * c) a o Hd) Hs) in Ha.
Qed.

(** They are the reference on the cuts, with indices relative to the chunk. *)
Lemma combine_spec schema records cuts c : distinct schema → Forall2 (λ r c, cut schema r = Ok c) records cuts → (0 < c)%nat →
  ∀ m i acc, (i * c + m * c < length cuts + c)%nat →
  foldM (λ combined r, recs ← r; Ok (combined ++ recs)) acc (map (chunk_result schema records c) (seq i m)) =
  match mapped_result (λ k, k mod c)%nat (map_until (take (m * c) (drop (i * c) cuts))) with
  | Ok outs => Ok (acc ++ outs)
  | r => r
  end.
Proof using Hctx Hpanic.
  intros Hd Hcuts Hc. induction m as [|m IH]; intros i acc Hb; cbn [seq map foldM].
  { rewrite Nat.mul_0_l, take_0. cbn. by rewrite app_nil_r. }
  rewrite take_chunks, chunk_slice, (slice_spec schema (i * c) _ (take c (drop (i * c) cuts)) Hd) by (by apply Forall2_take, Forall2_drop).
  rewrite map_until_app. destruct (map_until (take c (drop (i * c) cuts))) as [o|[k e]] eqn:Hk;
    cbn [mapped_result mbind outcome_bind].
  - rewrite IH by lia.
    destruct (map_until (take (m * c) (drop (S i * c) cuts))) as [o'|[k e]] eqn:Hr; cbn [mapped_result];
      [by rewrite <- app_assoc|].
    apply map_until_index in Hr. rewrite length_take, length_drop in Hr.
    rewrite length_take, length_drop, Nat.min_l by lia.
    replace (c + k)%nat with (k + 1 * c)%nat by lia. by rewrite Nat.Div0.mod_add.
  - apply map_until_index in Hk. rewrite length_take in Hk. rewrite Nat.mod_small by lia. done.
Qed.

Lemma num_chunks_bounds n c : 0 < n → 0 < c →
  Z.of_nat (Z.to_nat (Z.quot (n + c - 1) c)) * c < n + c ∧ n ≤ Z.of_nat (Z.to_nat (Z.quot (n + c - 1) c)) * c.
Proof. intros Hn Hc. rewrite Z.quot_div_nonneg by lia. rewrite Z2Nat.id by (apply Z.div_pos; lia).
  pose proof (Z.div_mod (n + c - 1) c). pose proof (Z.mod_pos_bound (n + c - 1) c). nia.
Qed.

(** The size of the chunks of a parallel run. *)
Definition chunk_size (tw : TransformWorker) (n : nat) : nat :=
  Z.to_nat (Z.max 1 (Z.quot (Z.of_nat n) (concurrency tw))).

(** Whether a batch is mapped in one slice. *)
Definition serial (tw : TransformWorker) (n : nat) : bool := (concurrency tw <=? 1) || (Z.of_nat n <? concurrency tw * 2).

(** The slices of a run, and what they make of the batch. *)
Lemma parallel_chunks tw schema records : distinct schema → records ≠ [] → 1 ≤ concurrency tw → in_i64 (concurrency tw * 2) →
  applyMappingsParallel tw schema records =
  if serial tw (length records) then applyMappingsSlice schema 0 records
  else combine (map (chunk_result schema records (chunk_size tw (length records)))
                    (seq 0 (Z.to_nat (Z.quot (Z.of_nat (length records) + Z.of_nat (chunk_size tw (length records)) - 1)
                                             (Z.of_nat (chunk_size tw (length records))))))).
Proof using Hctx Hpanic.
  intros Hd Hne Hc Hi. unfold applyMappingsParallel.
  assert (0 < Z.of_nat (length records)) as Hn by (destruct records; [done|simpl; lia]).
  rewrite (proj2 (Z.eqb_neq _ _)) by lia. rewrite (i64_id (concurrency tw * 2)) by done.
  fold (serial tw (length records)). destruct (serial tw (length records)); [done|].
  unfold chunk_size. set (c := Z.max 1 (Z.quot (Z.of_nat (length records)) (concurrency tw))).
  assert ((if Z.quot (Z.of_nat (length records)) (concurrency tw) <? 1 then 1
           else Z.quot (Z.of_nat (length records)) (concurrency tw)) = c) as ->.
  { destruct (Z.ltb_spec (Z.quot (Z.of_nat (length records)) (concurrency tw)) 1); lia. }
  cbv zeta. rewrite no_panic by done. by rewrite Z2Nat.id by lia.
Qed.

Lemma chunk_size_pos tw n : (0 < chunk_size tw n)%nat.
Proof using Type. unfold chunk_size. lia. Qed.

(** C20: mapping in parallel is mapping in sequence, as long as the context is not cancelled, the mapper does
    not panic and the names of the schema, if there is one, are distinct.  Whatever the concurrency, both give
    each record as it is cut to the schema and mapped by itself, in order, or both fail, and neither panics.
    Without a schema, and with one when every record is an object, both then fail on the same record with the
    same error; only the index in the message differs: in a parallel run it counts from the start of the chunk.
    With a schema and a record that is no object they may fail on different records ([schema_error_differs]). *)
Theorem parallel_equals_serial tw schema records :
  distinct schema → records ≠ [] → 1 ≤ concurrency tw → in_i64 (concurrency tw * 2) →
  (∀ outs, (applyMappingsParallel tw schema records = Ok outs ↔ map_each schema records = Some outs) ∧
           (applyMappingsSlice schema 0 records = Ok outs ↔ map_each schema records = Some outs)) ∧
  (∀ m, applyMappingsParallel tw schema records ≠ Panic m ∧ applyMappingsSlice schema 0 records ≠ Panic m) ∧
  (∀ cuts, Forall2 (λ r c, cut schema r = Ok c) records cuts →
     applyMappingsSlice schema 0 records = mapped_result id (map_until cuts) ∧
     applyMappingsParallel tw schema records =
       mapped_result (if serial tw (length records) then id else λ k, k mod chunk_size tw (length records))%nat (map_until cuts)).
Proof using Hctx Hpanic.
  intros Hd Hne Hc Hi. pose proof (parallel_chunks tw schema records Hd Hne Hc Hi) as Hpar.
  pose proof (chunk_size_pos tw (length records)) as Hpos. set (c := chunk_size tw (length records)) in *.
  assert (0 < Z.of_nat (length records)) as Hn by (destruct records; [done|simpl; lia]).
  destruct (num_chunks_bounds (Z.of_nat (length records)) (Z.of_nat c)) as [H1 H2]; [lia..|].
  set (k := Z.to_nat (Z.quot _ _)) in *. rewrite Hpar. split_and!.
  - intros outs. split; [|by apply slice_ok]. destruct (serial tw (length records)); [by apply slice_ok|].
    unfold combine. rewrite combine_ok, Nat.mul_0_l, drop_0, take_ge by (done || nia). naive_solver.
  - intros m. split; [|by apply slice_no_panic]. destruct (serial tw (length records)); [by apply slice_no_panic|].
    intros [i Hi']%combine_panic. rewrite chunk_slice in Hi'. by apply slice_no_panic in Hi'.
  - intros cuts Hcuts. pose proof (slice_spec schema 0 records cuts Hd Hcuts) as Hs. rewrite Hs. split; [done|].
    destruct (serial tw (length records)); [done|]. assert (Hlen : length records = length cuts) by (by eapply Forall2_length).
    unfold combine. rewrite (combine_spec schema records cuts c Hd Hcuts) by (done || nia).
    rewrite Nat.mul_0_l, drop_0, take_ge by nia. by destruct (map_until cuts) as [|[? ?]].
Qed.
End mappings.

Lemma deduplicateRecords_sublist records : ∀ d unique d',
  deduplicateRecords records d = Ok (unique, d') → sublist unique records.
Proof.
  induction records as [|r rs IH]; intros d unique d'; cbn [deduplicateRecords].
  { intros [= <- _]. constructor. }
  intros ([dup d1] & _ & H1)%bind_ok. apply bind_ok in H1 as ([u d2] & Hu & H2). apply IH in Hu.
  destruct dup; simplify_eq; by constructor.
Qed.
End worker.

(** ** Witness *)

Definition keep_objects (d : RawMessage) : res RawMessage :=
  match d with RawDoc (JObj _) => Ok d | _ => Err (ErrText "not an object") end.
Definition rec_of (d : RawMessage) : Rec := mkRec "rows" "" d 0.

Definition demo_worker : TransformWorker (D := Deduplicator) := NewTransformWorker 2 None.
Definition demo_schema : Schema := mkSchema [mkField "x" TypeString true].
Definition demo_records : list Rec :=
  map (λ d, rec_of d) [RawDoc (JObj [("x", JStr "a")]); RawDoc (JObj []); RawDoc (JObj []); RawEmpty; RawDoc (JObj [])].

Lemma keep_objects_no_panic d m : keep_objects d ≠ Panic m.
Proof. by destruct d as [| |[]]. Qed.

(** The fourth of five records fails; it is the second of its chunk. *)
Lemma parallel_equals_serial_witness :
  applyMappingsParallel (λ _ _, None) keep_objects demo_worker None demo_records =
  Err (ErrWrapf "map record 1" (ErrText "not an object")) ∧
  applyMappingsSlice (λ _ _, None) keep_objects None 0 demo_records =
  Err (ErrWrapf "map record 3" (ErrText "not an object")).
Proof.
  destruct (parallel_equals_serial (λ _ _, None) keep_objects (fun _ _ => eq_refl) keep_objects_no_panic demo_worker None demo_records)
    as (_ & _ & Hcuts).
  - exact I.
  - discriminate.
  - vm_compute. discriminate.
  - vm_compute. split; discriminate.
  - destruct (Hcuts demo_records) as [-> ->]; [repeat constructor|by split; vm_compute].
Defined.

(** A mapper that refuses records with a member ["x"]. *)
Definition refuse_x (d : RawMessage) : res RawMessage :=
  match d with RawDoc (JObj (_ :: _)) => Err (ErrText "boom") | _ => Ok d end.

(** With a schema the two may fail on different records: in sequence every record of the batch is appended before
    the first is mapped, in parallel only those of the chunk. *)
Example schema_error_differs :
  applyMappingsParallel (λ _ _, None) refuse_x demo_worker (Some demo_schema) demo_records =
  Err (ErrWrapf "map record 0" (ErrText "boom")) ∧
  applyMappingsSlice (λ _ _, None) refuse_x (Some demo_schema) 0 demo_records =
  Err (ErrWrapf "append record 3 to batch" (ErrWrapf "unmarshal record" err_eof)).
Proof. split; vm_compute; reflexivity. Qed.
