(* ===== verification/JsonDecode.v ===== *)
(** * Decoding of JSON objects into structs, as [encoding/json] does it

    Members are taken in the order of the text; names match without regard to case; a [null] leaves a
    scalar as it is; after a member of the wrong type decoding goes on and its error, the
    first one, is reported at the end.  The texts of these errors depend on the release of the
    library: [type_error] gives them. *)

From S2P Require Import Prelude GoStrings Errors Float Value.

(** An integer, as [json.Marshal] writes it. *)
Definition int_json (z : Z) : json := JNum (NLit (pretty z) z 0).

Definition err_raw (e : string) : error :=
  ErrText ("json: error calling MarshalJSON for type json.RawMessage: " +:+ e).

(** A nil raw message is written as [null]. *)
Definition raw_json (r : RawMessage) : res json :=
  match r with RawEmpty => Ok JNull | RawInvalid e => Err (err_raw e) | RawDoc j => Ok j end.

(** A member with [omitempty]. *)
Definition omit_when (empty : bool) (k : string) (j : json) : list (string * json) := if empty then [] else [(k, j)].

(** A raw member with [omitempty]. *)
Definition omit_raw (k : string) (r : RawMessage) : res (list (string * json)) :=
  match r with RawEmpty => Ok [] | r => j ← raw_json r; Ok [(k, j)] end.

(** All of a list of results, or the first that is not one. *)
Fixpoint all_ok {A} (l : list (res A)) : res (list A) :=
  match l with
  | [] => Ok []
  | r :: l => a ← r; rest ← all_ok l; Ok (a :: rest)
  end.

Lemma all_ok_total {A} (l : list (res A)) : Forall (λ r, ∀ m, r ≠ Panic m) l → ∀ m, all_ok l ≠ Panic m.
Proof.
  induction 1 as [|r l Hr _ IH]; intros m; cbn; [done|]. destruct r as [a|e|m']; [|done|by destruct (Hr m')].
  cbn. destruct (all_ok l) as [?|?|m']; [done..|by destruct (IH m')].
Qed.

(** Decides which member a key names. *)
Ltac match_keys :=
  repeat match goal with
         | |- context [key_matches ?a ?b] =>
             let r := eval vm_compute in (key_matches a b) in change (key_matches a b) with r; cbv iota
         end.

Section decode.
Context (type_error : string → json → error).   (** the error for a field that has another type *)

Definition note (err : option error) (e : error) : option error :=
  match err with None => Some e | _ => err end.

Definition string_member (field : string) (old : string) (j : json) (err : option error) : string * option error :=
  match j with
  | JNull => (old, err)
  | JStr s => (s, err)
  | _ => (old, note err (type_error field j))
  end.

(** Integers are read from the text of the number. *)
Definition int_of (n : jnum) : option Z :=
  match n with NLit text _ _ => parse_int text | NPrint f => parse_int (FormatFloat_f f) end.

Definition int_member (field : string) (old : Z) (j : json) (err : option error) : Z * option error :=
  match j with
  | JNull => (old, err)
  | JNum n => match int_of n with Some z => (z, err) | None => (old, note err (type_error field j)) end
  | _ => (old, note err (type_error field j))
  end.

Definition float_member (field : string) (old : float64) (j : json) (err : option error) : float64 * option error :=
  match j with
  | JNull => (old, err)
  | JNum n => match num_value n with Some f => (f, err) | None => (old, note err (type_error field j)) end
  | _ => (old, note err (type_error field j))
  end.

Definition bool_member (field : string) (old : bool) (j : json) (err : option error) : bool * option error :=
  match j with
  | JNull => (old, err)
  | JBool b => (b, err)
  | _ => (old, note err (type_error field j))
  end.

(** A time, by the parser of its text. *)
Definition time_member (time_of : string → option Z) (field : string) (old : Z) (j : json) (err : option error) : Z * option error :=
  match j with
  | JNull => (old, err)
  | JStr s => match time_of s with Some t => (t, err) | None => (old, note err (type_error field j)) end
  | _ => (old, note err (type_error field j))
  end.

(** A slice, given the decoding of an element. *)
Definition list_member {A} (elem : json → option error → A * option error) (field : string) (old : list A) (j : json)
    (err : option error) : list A * option error :=
  match j with
  | JNull => ([], err)
  | JArr l => foldl (λ acc j, let '(a, err) := elem j acc.2 in (acc.1 ++ [a], err)) ([], err) l
  | _ => (old, note err (type_error field j))
  end.

(** A map, whose entries are added to the ones that are there. *)
Definition map_member {A} (elem : json → option error → A * option error) (field : string) (old : gmap string A)
    (j : json) (err : option error) : gmap string A * option error :=
  match j with
  | JNull => (∅, err)
  | JObj l => foldl (λ acc e, let '(a, err) := elem e.2 acc.2 in (<[e.1 := a]> acc.1, err)) (old, err) l
  | _ => (old, note err (type_error field j))
  end.

(** A struct, by its members. *)
Definition struct_member {A} (member : A * option error → string * json → A * option error) (field : string) (old : A)
    (j : json) (err : option error) : A * option error :=
  match j with
  | JNull => (old, err)
  | JObj l => foldl member (old, err) l
  | _ => (old, note err (type_error field j))
  end.

(** [json.Unmarshal] into a struct. *)
Definition unmarshal_struct {A} (zero : A) (member : A * option error → string * json → A * option error)
    (raw : RawMessage) : res A :=
  match raw with
  | RawEmpty => Err err_eof
  | RawInvalid e => Err (ErrText e)
  | RawDoc j => match struct_member member "" zero j None with
                | (a, None) => Ok a
                | (_, Some e) => Err e
                end
  end.

(** Decoding what was encoded. *)
Lemma int_decode field old z : in_i64 z → int_member field old (int_json z) None = (z, None).
Proof. intros Hz. cbn. by rewrite parse_int_pretty. Qed.

(** Decoding what was encoded, element by element. *)
Lemma list_member_map {A} (elem : json → option error → A * option error) (enc : A → json) field old l :
  (∀ a, a ∈ l → elem (enc a) None = (a, None)) →
  list_member elem field old (JArr (map enc l)) None = (l, None).
Proof.
  intros He. unfold list_member.
  assert (Hgo : ∀ acc, foldl (λ acc j, let '(a, err) := elem j acc.2 in (acc.1 ++ [a], err)) (acc, None) (map enc l)
                       = (acc ++ l, None)).
  { induction l as [|a l IH]; intros acc; cbn [map foldl]; [by rewrite app_nil_r|].
    cbn [snd fst]. rewrite He by apply list_elem_of_here. cbn [fst].
    rewrite IH; [by rewrite <- app_assoc|]. intros b Hb. apply He. by apply list_elem_of_further. }
  apply Hgo.
Qed.

Lemma map_member_entries {A} (elem : json → option error → A * option error) (enc : A → json) field (m : gmap string A) :
  (∀ k a, m !! k = Some a → elem (enc a) None = (a, None)) →
  map_member elem field ∅ (JObj (map (λ e, (e.1, enc e.2)) (sorted_entries m))) None = (m, None).
Proof.
  intros He. unfold map_member.
  assert (Hgo : ∀ (l : list (string * A)) (acc : gmap string A), (∀ e, e ∈ l → elem (enc e.2) None = (e.2, None)) → NoDup l.*1 → (∀ k, k ∈ l.*1 → acc !! k = None) →
    foldl (λ acc e, let '(a, err) := elem e.2 acc.2 in (<[e.1 := a]> acc.1, err)) (acc, None) (map (λ e, (e.1, enc e.2)) l)
    = (list_to_map l ∪ acc, None)).
  { induction l as [|[k a] l IH]; intros acc Hel Hnd Hacc; cbn [map foldl fst snd]; [by rewrite list_to_map_nil, (left_id_L ∅ (∪))|].
    rewrite fmap_cons in Hnd, Hacc. apply list.NoDup_cons in Hnd as [Hk Hnd].
    pose proof (Hel (k, a) (list_elem_of_here _ _)) as Hka. cbn [fst snd] in Hka. rewrite Hka. cbn [fst snd].
    rewrite IH; [|intros e ?; apply Hel; by apply list_elem_of_further|done|].
    - f_equal. cbn [list_to_map foldr uncurry fst snd]. rewrite <- insert_union_r; [by rewrite insert_union_l|].
      by apply not_elem_of_list_to_map_1.
    - intros j Hj. rewrite lookup_insert_ne by (by intros ->). apply Hacc. by apply list_elem_of_further. }
  rewrite Hgo; [|..].
  - rewrite sorted_entries_lookup. by rewrite (right_id_L ∅ (∪)).
  - intros [k a] Hin. apply (He k). apply elem_of_map_to_list. by rewrite <- sorted_entries_perm.
  - apply sorted_entries_nodup.
  - intros k _. apply lookup_empty.
Qed.
End decode.

(** A member that is left out when empty. *)
Lemma omit_decode {A B} (member : A * option error → string * json → A * option error) (x empty : B) (b : bool)
    (build : B → A) k j :
  (b = true → x = empty) → member (build empty, None) (k, j) = (build x, None) →
  foldl member (build empty, None) (omit_when b k j) = (build x, None).
Proof. intros Hb Hm. unfold omit_when. destruct b; [by rewrite Hb|done]. Qed.
