(* ===== verification/Urls.v ===== *)
(** * URLs and query strings: what the connectors use of [net/url]

    Query parameters are parsed and written as the library does: names and values are
    percent-encoded bytes, a parameter may occur several times, and [Encode] sorts the
    names.  Of the text of a URL only the cuts at the fragment and the query are
    interpreted; how the library reads and prints what is before the query (scheme, host, path)
    and the fragment are the operations of [UrlLib]. *)

From Stdlib Require Import Ascii.
From S2P Require Import Prelude GoStrings Value.

(** ** Percent encoding: [QueryEscape], [QueryUnescape] *)

Definition unreserved (c : ascii) : bool :=
  let b := byte_val c in
  ((97 <=? b) && (b <=? 122)) || ((65 <=? b) && (b <=? 90)) || ((48 <=? b) && (b <=? 57)) ||
  bool_decide (c ∈ bytes_of "-_.~").

Definition upper_hex (z : Z) : ascii := if z <? 10 then byte_chr (48 + z) else byte_chr (55 + z).

Definition escape_byte (c : ascii) : list ascii :=
  if decide (c = " "%char) then ["+"%char]
  else if unreserved c then [c]
  else ["%"%char; upper_hex (byte_val c / 16); upper_hex (byte_val c mod 16)].

Definition escape_bytes (bs : list ascii) : list ascii := concat (map escape_byte bs).
Definition QueryEscape (s : string) : string := of_bytes (escape_bytes (bytes_of s)).

Definition unhex (c : ascii) : option Z :=
  let b := byte_val c in
  if (48 <=? b) && (b <=? 57) then Some (b - 48)
  else if (97 <=? b) && (b <=? 102) then Some (b - 87)
  else if (65 <=? b) && (b <=? 70) then Some (b - 55)
  else None.

Fixpoint unescape_bytes (bs : list ascii) : option (list ascii) :=
  match bs with
  | [] => Some []
  | "%"%char :: rest =>
      match rest with
      | a :: b :: rest =>
          x ← unhex a; y ← unhex b; out ← unescape_bytes rest;
          Some (byte_chr (x * 16 + y) :: out)
      | _ => None
      end
  | c :: rest => out ← unescape_bytes rest; Some ((if decide (c = "+"%char) then " "%char else c) :: out)
  end.
Definition QueryUnescape (s : string) : option string := of_bytes <$> unescape_bytes (bytes_of s).

(** ** Query parameters: [url.Values] *)

Abbreviation Values := (gmap string (list string)).

(** [strings.Cut(s, sep)] for a one-byte separator: what is before it and what is after. *)
Fixpoint cut_bytes (sep : ascii) (bs : list ascii) : list ascii * list ascii :=
  match bs with
  | [] => ([], [])
  | b :: bs => if decide (b = sep) then ([], bs) else let '(x, y) := cut_bytes sep bs in (b :: x, y)
  end.
Definition Cut (s : string) (sep : ascii) : string * string :=
  let '(x, y) := cut_bytes sep (bytes_of s) in (of_bytes x, of_bytes y).

Definition values_of (m : Values) (k : string) : list string := default [] (m !! k).
Definition Values_Get (m : Values) (k : string) : string := default "" (head (values_of m k)).
Definition Values_Set (m : Values) (k v : string) : Values := <[k := [v]]> m.
Definition Values_Add (m : Values) (k v : string) : Values := <[k := values_of m k ++ [v]]> m.

(** One parameter; one that is malformed is left out (its error is dropped by [Query]). *)
Definition add_piece (m : Values) (piece : string) : Values :=
  if contains_byte piece ";" then m
  else if bool_decide (piece = "") then m
  else let '(k, v) := Cut piece "=" in
       match QueryUnescape k, QueryUnescape v with
       | Some k, Some v => Values_Add m k v
       | _, _ => m
       end.

Definition ParseQuery (query : string) : Values := foldl add_piece ∅ (Split query "&").

Definition pair_text (k v : string) : string := QueryEscape k +:+ "=" +:+ QueryEscape v.
Definition pieces (l : list (string * list string)) : list string :=
  concat (map (λ e, map (pair_text e.1) e.2) l).
Definition Encode (m : Values) : string := Join (pieces (sorted_entries m)) "&".

(** ** URLs *)

Class UrlLib := {
  url_head : string → option string;      (** reads what is before the query and prints it again *)
  url_fragment : string → option string   (** the same of a non-empty fragment *)
}.

Record URL := mkURL { u_head : string; u_ForceQuery : bool; u_RawQuery : string; u_fragment : string }.

Definition is_ctl (c : ascii) : bool := (byte_val c <? 32) || (byte_val c =? 127).

Section url.
Context `{UrlLib}.

Definition Parse (raw : string) : option URL :=
  let '(u, frag) := cut_bytes "#" (bytes_of raw) in
  if existsb is_ctl u then None
  else
    let '(h, q) := cut_bytes "?" u in
    let force := bool_decide (q = []) && bool_decide (list.last u = Some "?"%char) in
    h ← url_head (of_bytes h);
    f ← (if decide (frag = []) then Some "" else url_fragment (of_bytes frag));
    Some (mkURL h force (of_bytes q) f).

Definition Query (u : URL) : Values := ParseQuery (u_RawQuery u).
Definition with_query (u : URL) (q : Values) : URL := mkURL (u_head u) (u_ForceQuery u) (Encode q) (u_fragment u).

Definition URL_String (u : URL) : string :=
  u_head u
  +:+ (if u_ForceQuery u || negb (bool_decide (u_RawQuery u = "")) then "?" +:+ u_RawQuery u else "")
  +:+ (if bool_decide (u_fragment u = "") then "" else "#" +:+ u_fragment u).
End url.

(** The parameters a server reads in a request for the URL: those between the first [?] and
    the fragment. *)
Definition request_query (url : string) : Values := ParseQuery (Cut (Cut url "#").1 "?").2.

(** What the library prints is clean: the head has no [?], no [#] and no control character, all
    of which it escapes; and it reads what it printed. *)
Class UrlLaws `{UrlLib} : Prop := {
  head_clean raw h : url_head raw = Some h →
    "?"%char ∉ bytes_of h ∧ "#"%char ∉ bytes_of h ∧ existsb is_ctl (bytes_of h) = false ∧ url_head h = Some h;
  fragment_again raw f : url_fragment raw = Some f → url_fragment f = Some f
}.

(** ** Reading back what was encoded *)

Lemma unescape_escape_byte c rest :
  unescape_bytes (escape_byte c ++ rest) = out ← unescape_bytes rest; Some (c :: out).
Proof. by destruct c as [[] [] [] [] [] [] [] []]. Qed.

Lemma unescape_escape_bytes bs : unescape_bytes (escape_bytes bs) = Some bs.
Proof.
  induction bs as [|c bs IH]; [done|]. unfold escape_bytes. cbn [map concat].
  fold (escape_bytes bs). by rewrite unescape_escape_byte, IH.
Qed.

Lemma QueryUnescape_Escape s : QueryUnescape (QueryEscape s) = Some s.
Proof.
  unfold QueryUnescape, QueryEscape. rewrite String.list_ascii_of_string_of_list_ascii.
  rewrite unescape_escape_bytes. simpl. by rewrite of_bytes_of.
Qed.

(** Encoded text has none of the characters that separate parameters. *)
Definition separator (c : ascii) : bool := bool_decide (c ∈ bytes_of "&=;#?").

Lemma escape_byte_clean c : forallb (λ d, negb (separator d)) (escape_byte c) = true.
Proof. by destruct c as [[] [] [] [] [] [] [] []]. Qed.

Lemma escape_bytes_clean bs d : separator d = true → d ∉ escape_bytes bs.
Proof.
  intros Hd. induction bs as [|c bs IH]; [apply not_elem_of_nil|].
  unfold escape_bytes. cbn [map concat]. fold (escape_bytes bs).
  rewrite elem_of_app. intros [Hc|Hc]; [|done].
  pose proof (proj1 (forallb_forall _ _) (escape_byte_clean c) d) as Hf.
  cbv beta in Hf. rewrite Hd in Hf. rewrite list_elem_of_In in Hc. by specialize (Hf Hc).
Qed.

Lemma QueryEscape_bytes s : bytes_of (QueryEscape s) = escape_bytes (bytes_of s).
Proof. apply String.list_ascii_of_string_of_list_ascii. Qed.

Lemma cut_bytes_sep sep a b : sep ∉ a → cut_bytes sep (a ++ sep :: b) = (a, b).
Proof.
  induction a as [|c a IH]; simpl; intros Ha; [by rewrite decide_True|].
  apply not_elem_of_cons in Ha as [Hc Ha]. rewrite decide_False by congruence. by rewrite IH.
Qed.

Lemma cut_bytes_none sep a : sep ∉ a → cut_bytes sep a = (a, []).
Proof.
  induction a as [|c a IH]; simpl; intros Ha; [done|].
  apply not_elem_of_cons in Ha as [Hc Ha]. rewrite decide_False by congruence. by rewrite IH.
Qed.

Lemma pair_text_bytes k v :
  bytes_of (pair_text k v) = escape_bytes (bytes_of k) ++ "="%char :: escape_bytes (bytes_of v).
Proof. unfold pair_text. rewrite !bytes_of_app, !QueryEscape_bytes. done. Qed.

Lemma pair_text_clean k v d : separator d = true → d ≠ "="%char → d ∉ bytes_of (pair_text k v).
Proof.
  intros Hd Hne. rewrite pair_text_bytes, elem_of_app, elem_of_cons.
  intros [Hc|[Hc|Hc]]; [by eapply escape_bytes_clean in Hc|done|by eapply escape_bytes_clean in Hc].
Qed.

Lemma add_pair_text m k v : add_piece m (pair_text k v) = Values_Add m k v.
Proof.
  unfold add_piece, contains_byte. rewrite bool_decide_false by (by apply pair_text_clean).
  rewrite bool_decide_false.
  2:{ intros Hk. apply (f_equal bytes_of) in Hk. rewrite pair_text_bytes in Hk. by destruct (escape_bytes _). }
  unfold Cut. rewrite pair_text_bytes, cut_bytes_sep by (by apply escape_bytes_clean).
  fold (QueryEscape k) (QueryEscape v). by rewrite !QueryUnescape_Escape.
Qed.

Lemma pair_text_printable k v : existsb is_ctl (bytes_of (pair_text k v)) = false.
Proof.
  assert (Hb : ∀ c, existsb is_ctl (escape_byte c) = false).
  { intros c. by destruct c as [[] [] [] [] [] [] [] []]. }
  assert (Hbs : ∀ bs, existsb is_ctl (escape_bytes bs) = false).
  { induction bs as [|c bs IH]; [done|]. unfold escape_bytes. cbn [map concat]. by rewrite existsb_app, Hb. }
  rewrite pair_text_bytes, existsb_app. cbn [existsb]. by rewrite !Hbs.
Qed.

(** Splitting a joined list of pieces gives the pieces back. *)
Lemma split_bytes_none sep a cur : sep ∉ a → split_bytes sep a cur = [of_bytes (reverse cur ++ a)].
Proof.
  revert cur. induction a as [|c a IH]; intros cur Ha; simpl; [by rewrite app_nil_r|].
  apply not_elem_of_cons in Ha as [Hc Ha]. rewrite decide_False by congruence.
  rewrite IH by done. by rewrite reverse_cons, <- app_assoc.
Qed.

Lemma split_bytes_sep sep a b cur :
  sep ∉ a → split_bytes sep (a ++ sep :: b) cur = of_bytes (reverse cur ++ a) :: split_bytes sep b [].
Proof.
  revert cur. induction a as [|c a IH]; intros cur Ha; simpl.
  - rewrite decide_True by done. by rewrite app_nil_r.
  - apply not_elem_of_cons in Ha as [Hc Ha]. rewrite decide_False by congruence.
    rewrite IH by done. by rewrite reverse_cons, <- app_assoc.
Qed.

Lemma Split_Join (sep : ascii) (l : list string) :
  l ≠ [] → Forall (λ s, sep ∉ bytes_of s) l → Split (Join l (String sep "")) sep = l.
Proof.
  intros Hne Hl. unfold Split, Join. induction Hl as [|s l Hs Hl IH]; [done|].
  destruct l as [|t l].
  - simpl. rewrite split_bytes_none by done. simpl. by rewrite of_bytes_of.
  - change (String.concat (String sep "") (s :: t :: l)) with
      (s +:+ String sep "" +:+ String.concat (String sep "") (t :: l)).
    rewrite !bytes_of_app. change (bytes_of (String sep "")) with [sep]. cbn [app].
    rewrite split_bytes_sep by done. rewrite IH by done. simpl. by rewrite of_bytes_of.
Qed.

Lemma pieces_clean l : Forall (λ s, "&"%char ∉ bytes_of s) (pieces l).
Proof.
  induction l as [|[k vs] l IH]; [constructor|]. unfold pieces. cbn [map concat].
  apply list.Forall_app. split; [|done]. apply list.Forall_forall. intros s Hs.
  apply list_elem_of_fmap in Hs as (v & -> & _). by apply pair_text_clean.
Qed.

Lemma add_pieces_one m k vs : foldl add_piece m (map (pair_text k) vs) =
  match vs with [] => m | _ => <[k := values_of m k ++ vs]> m end.
Proof.
  revert m. induction vs as [|v vs IH]; intros m; [done|]. cbn [map foldl].
  rewrite add_pair_text, IH. unfold Values_Add, values_of. destruct vs as [|w vs]; [done|].
  rewrite lookup_insert_eq, insert_insert_eq. simpl. by rewrite <- app_assoc.
Qed.

Lemma add_pieces l m :
  NoDup l.*1 → (∀ k, k ∈ l.*1 → m !! k = None) → Forall (λ e, e.2 ≠ []) l →
  foldl add_piece m (pieces l) = list_to_map l ∪ m.
Proof.
  revert m. induction l as [|[k vs] l IH]; intros m Hnd Hm Hl.
  - simpl. by rewrite (left_id_L ∅ _).
  - apply list.NoDup_cons in Hnd as [Hk Hnd]. apply list.Forall_cons in Hl as [Hvs Hl].
    unfold pieces. cbn [map concat]. rewrite foldl_app. fold (pieces l). cbn [fst snd] in *.
    rewrite add_pieces_one. destruct vs as [|v vs]; [done|].
    unfold values_of. rewrite Hm by apply list_elem_of_here. cbn [default app].
    rewrite IH.
    + cbn [list_to_map foldr uncurry fst snd]. apply map_eq. intros j.
      rewrite !lookup_union. destruct (decide (j = k)) as [->|Hj].
      * rewrite !lookup_insert_eq. rewrite (not_elem_of_list_to_map_1 _ _ Hk).
        by destruct (m !! k).
      * rewrite !lookup_insert_ne by congruence. done.
    + done.
    + intros j Hj. rewrite lookup_insert_ne by (by intros ->). apply Hm. by apply list_elem_of_further.
    + done.
Qed.

(** Encoding the parameters and parsing the text again gives the same parameters. *)
Lemma ParseQuery_Encode m : map_Forall (λ _ vs, vs ≠ []) m → ParseQuery (Encode m) = m.
Proof.
  intros Hm. unfold ParseQuery, Encode.
  assert (Hs : foldl add_piece ∅ (pieces (sorted_entries m)) = m).
  { rewrite add_pieces.
    - rewrite sorted_entries_lookup. apply (right_id_L ∅ _).
    - apply sorted_entries_nodup.
    - done.
    - rewrite sorted_entries_perm. apply list.Forall_forall. intros [k vs] Hin%elem_of_map_to_list.
      apply (Hm _ _ Hin). }
  destruct (decide (pieces (sorted_entries m) = [])) as [He|He].
  - rewrite He in *. simpl. done.
  - rewrite Split_Join by (done || apply pieces_clean). done.
Qed.

(** Parameters of a parsed query have values. *)
Lemma add_piece_filled m piece :
  map_Forall (λ _ vs, vs ≠ []) m → map_Forall (λ _ vs, vs ≠ []) (add_piece m piece).
Proof.
  intros Hm. unfold add_piece. destruct (contains_byte _ _); [done|]. case_bool_decide; [done|].
  destruct (Cut piece "=") as [k v]. destruct (QueryUnescape k), (QueryUnescape v); try done.
  apply map_Forall_insert_2; [|done]. by destruct (values_of _ _).
Qed.

Lemma ParseQuery_filled q : map_Forall (λ _ vs, vs ≠ []) (ParseQuery q).
Proof.
  unfold ParseQuery. assert (Hm : map_Forall (λ _ vs, vs ≠ []) (∅ : Values)) by apply map_Forall_empty.
  revert Hm. generalize (∅ : Values). induction (Split q "&") as [|p ps IH]; intros m Hm; [done|].
  apply IH. by apply add_piece_filled.
Qed.

Lemma Values_Set_filled m k v :
  map_Forall (λ _ vs, vs ≠ []) m → map_Forall (λ _ vs, vs ≠ []) (Values_Set m k v).
Proof. intros Hm. by apply map_Forall_insert_2. Qed.

(** The text of encoded parameters has no fragment mark and no control character. *)
Lemma Join_amp (P : ascii → Prop) l :
  ¬ P "&"%char → Forall (λ s, ∀ c, P c → c ∉ bytes_of s) l → ∀ c, P c → c ∉ bytes_of (Join l "&").
Proof.
  unfold Join. intros Hamp Hl c Hc. induction Hl as [|s l Hs Hl IH]; [apply not_elem_of_nil|].
  destruct l as [|t l]; [by apply Hs|].
  change (String.concat "&" (s :: t :: l)) with (s +:+ "&" +:+ String.concat "&" (t :: l)).
  rewrite !bytes_of_app, !elem_of_app. intros [Hx|[Hx|Hx]]; [by apply Hs in Hx| |done].
  apply list_elem_of_singleton in Hx. by subst.
Qed.

Lemma pieces_Forall (P : string → Prop) l : (∀ k v, P (pair_text k v)) → Forall P (pieces l).
Proof.
  intros HP. induction l as [|[k vs] l IH]; [constructor|]. unfold pieces. cbn [map concat].
  apply list.Forall_app. split; [|done]. apply list.Forall_forall. intros s Hs.
  by apply list_elem_of_fmap in Hs as (v & -> & _).
Qed.

Lemma Encode_clean m : "#"%char ∉ bytes_of (Encode m).
Proof.
  apply (Join_amp (λ c, c = "#"%char)); [done| |done].
  apply pieces_Forall. intros k v c ->. by apply pair_text_clean.
Qed.

Lemma Encode_printable m : existsb is_ctl (bytes_of (Encode m)) = false.
Proof.
  apply not_true_is_false. intros (c & Hin & Hc)%existsb_exists. apply list_elem_of_In in Hin.
  revert Hin. apply (Join_amp (λ c, is_ctl c = true)); [done| |done].
  apply pieces_Forall. intros k v d Hd Hin. pose proof (pair_text_printable k v) as Hp.
  apply not_true_iff_false in Hp. apply Hp, existsb_exists. exists d. by rewrite <- list_elem_of_In.
Qed.

Section laws.
Context `{Hul : UrlLaws}.

Lemma Parse_head raw u : Parse raw = Some u →
  "?"%char ∉ bytes_of (u_head u) ∧ "#"%char ∉ bytes_of (u_head u) ∧
  existsb is_ctl (bytes_of (u_head u)) = false ∧ url_head (u_head u) = Some (u_head u) ∧
  (u_fragment u = "" ∨ url_fragment (u_fragment u) = Some (u_fragment u)).
Proof using Hul.
  unfold Parse. destruct (cut_bytes "#" (bytes_of raw)) as [a frag].
  destruct (existsb is_ctl a); [done|]. destruct (cut_bytes "?" a) as [h rest].
  destruct (url_head (of_bytes h)) as [h'|] eqn:Hh; [|done]. simpl.
  destruct (if decide (frag = []) then Some "" else url_fragment (of_bytes frag)) as [f|] eqn:Hf; [|done].
  simpl. intros [= <-]. simpl. apply head_clean in Hh as (? & ? & ? & ?). split_and!; try done.
  case_decide; [left; by injection Hf|right; by eapply fragment_again].
Qed.

(** The parts of the text of a URL with encoded parameters. *)
Lemma URL_String_cut raw u q : Parse raw = Some u →
  cut_bytes "#" (bytes_of (URL_String (with_query u q))) =
  (bytes_of (u_head u) ++ (if u_ForceQuery u || negb (bool_decide (Encode q = "")) then "?"%char :: bytes_of (Encode q) else []),
   bytes_of (u_fragment u)).
Proof using Hul.
  intros (_ & Hh & _ & _ & _)%Parse_head. unfold URL_String, with_query.
  cbn [u_head u_ForceQuery u_RawQuery u_fragment].
  set (qp := if u_ForceQuery u || _ then "?" +:+ Encode q else "").
  assert (Hq : bytes_of qp = if u_ForceQuery u || negb (bool_decide (Encode q = "")) then "?"%char :: bytes_of (Encode q) else []).
  { subst qp. by destruct (_ || _). }
  rewrite !bytes_of_app, <- Hq, app_assoc.
  assert (Hn : "#"%char ∉ bytes_of (u_head u) ++ bytes_of qp).
  { rewrite elem_of_app, Hq. intros [?|Hx]; [done|]. destruct (_ || _); [|by apply not_elem_of_nil in Hx].
    apply elem_of_cons in Hx as [?|Hx]; [done|]. by apply Encode_clean in Hx. }
  destruct (bool_decide_reflect (u_fragment u = "")) as [Hf|Hf].
  - rewrite Hf. change (bytes_of "") with (@nil ascii). rewrite app_nil_r. by apply cut_bytes_none.
  - rewrite bytes_of_app. simpl. by apply cut_bytes_sep.
Qed.

Lemma cut_query raw u q : Parse raw = Some u →
  cut_bytes "?" (bytes_of (u_head u) ++ (if u_ForceQuery u || negb (bool_decide (Encode q = ""))
                                         then "?"%char :: bytes_of (Encode q) else []))
  = (bytes_of (u_head u), bytes_of (Encode q)).
Proof using Hul.
  intros (Hh & _)%Parse_head. destruct (_ || _) eqn:Hf; [by apply cut_bytes_sep|].
  apply orb_false_iff in Hf as [_ Hf]. apply negb_false_iff, bool_decide_eq_true in Hf. rewrite Hf.
  rewrite app_nil_r. by apply cut_bytes_none.
Qed.

(** A server asked for the text of a URL reads the parameters that were set on it. *)
Lemma request_query_with_query raw u q :
  Parse raw = Some u → map_Forall (λ _ vs, vs ≠ []) q →
  request_query (URL_String (with_query u q)) = q.
Proof using Hul.
  intros Hp Hq. unfold request_query, Cut. rewrite (URL_String_cut _ _ _ Hp). cbn [fst].
  rewrite String.list_ascii_of_string_of_list_ascii, (cut_query _ _ _ Hp). cbn [snd].
  rewrite of_bytes_of. by apply ParseQuery_Encode.
Qed.

(** The text of a URL with encoded parameters parses. *)
Lemma Parse_with_query raw u q : Parse raw = Some u → is_Some (Parse (URL_String (with_query u q))).
Proof using Hul.
  intros Hp. destruct (Parse_head _ _ Hp) as (_ & _ & Hctl & Hhead & Hfrag).
  unfold Parse. rewrite (URL_String_cut _ _ _ Hp), existsb_app, Hctl, (cut_query _ _ _ Hp).
  assert (He : existsb is_ctl (if u_ForceQuery u || negb (bool_decide (Encode q = "")) then "?"%char :: bytes_of (Encode q) else []) = false).
  { destruct (_ || _); [|done]. apply (Encode_printable q). }
  rewrite He. cbn [orb]. rewrite !of_bytes_of, Hhead.
  destruct (decide (bytes_of (u_fragment u) = [])) as [Hd|Hd]; [by eexists|].
  destruct Hfrag as [Hf|Hf]; [by rewrite Hf in Hd|]. rewrite Hf. by eexists.
Qed.
End laws.

Example encode_example :
  Encode (Values_Set (ParseQuery "page=7&q=a%20b&bad=%zz&q=c+d&x;y=1") "page" "2") = "page=2&q=a+b&q=c+d".
Proof. vm_compute. reflexivity. Qed.
