(* ===== verification/Encoding.v ===== *)
(** * Text encodings of bytes: what the program uses of [encoding/hex] and [encoding/base64] *)

From Stdlib Require Import Ascii.
From S2P Require Import Prelude GoStrings Urls.

(** ** Hexadecimal *)

Definition EncodeToString (bs : list ascii) : string :=
  of_bytes (concat (map (λ c, [hex_digit (byte_val c / 16); hex_digit (byte_val c mod 16)]) bs)).

Fixpoint unhex_pairs (bs : list ascii) : option (list ascii) :=
  match bs with
  | [] => Some []
  | [_] => None
  | a :: b :: rest => x ← unhex a; y ← unhex b; out ← unhex_pairs rest; Some (byte_chr (x * 16 + y) :: out)
  end.
Definition DecodeString (s : string) : option (list ascii) := unhex_pairs (bytes_of s).

(** ** URL-safe base64 without padding: [base64.RawURLEncoding] *)

Definition base64_chr (z : Z) : ascii :=
  if z <? 26 then byte_chr (65 + z) else if z <? 52 then byte_chr (71 + z) else if z <? 62 then byte_chr (z - 4)
  else if z =? 62 then "-"%char else "_"%char.

Definition base64_val (c : ascii) : option Z :=
  let b := byte_val c in
  if (65 <=? b) && (b <=? 90) then Some (b - 65)
  else if (97 <=? b) && (b <=? 122) then Some (b - 71)
  else if (48 <=? b) && (b <=? 57) then Some (b + 4)
  else if b =? 45 then Some 62 else if b =? 95 then Some 63 else None.

Fixpoint encode64_bytes (bs : list ascii) : list ascii :=
  match bs with
  | [] => []
  | [a] => let x := byte_val a in [base64_chr (x / 4); base64_chr (x mod 4 * 16)]
  | [a; b] =>
      let x := byte_val a in let y := byte_val b in
      [base64_chr (x / 4); base64_chr (x mod 4 * 16 + y / 16); base64_chr (y mod 16 * 4)]
  | a :: b :: c :: rest =>
      let x := byte_val a in let y := byte_val b in let z := byte_val c in
      base64_chr (x / 4) :: base64_chr (x mod 4 * 16 + y / 16) :: base64_chr (y mod 16 * 4 + z / 64) :: base64_chr (z mod 64)
        :: encode64_bytes rest
  end.

(** Bits left over in the last character are ignored. *)
Fixpoint decode64_bytes (bs : list ascii) : option (list ascii) :=
  match bs with
  | [] => Some []
  | [_] => None
  | [a; b] => x ← base64_val a; y ← base64_val b; Some [byte_chr (x * 4 + y / 16)]
  | [a; b; c] =>
      x ← base64_val a; y ← base64_val b; z ← base64_val c;
      Some [byte_chr (x * 4 + y / 16); byte_chr (y mod 16 * 16 + z / 4)]
  | a :: b :: c :: d :: rest =>
      x ← base64_val a; y ← base64_val b; z ← base64_val c; w ← base64_val d; out ← decode64_bytes rest;
      Some (byte_chr (x * 4 + y / 16) :: byte_chr (y mod 16 * 16 + z / 4) :: byte_chr (z mod 4 * 64 + w) :: out)
  end.

(** Line breaks are skipped. *)
Definition is_break (c : ascii) : bool := (byte_val c =? 10) || (byte_val c =? 13).

Definition Base64Encode (bs : list ascii) : string := of_bytes (encode64_bytes bs).
Definition Base64Decode (s : string) : option (list ascii) :=
  decode64_bytes (List.filter (λ c, negb (is_break c)) (bytes_of s)).

(** ** Round trips *)

Lemma hex_pair c :
  (x ← unhex (hex_digit (byte_val c / 16)); y ← unhex (hex_digit (byte_val c mod 16)); Some (byte_chr (x * 16 + y))) = Some c.
Proof. by destruct c as [[] [] [] [] [] [] [] []]. Qed.

Lemma DecodeString_Encode bs : DecodeString (EncodeToString bs) = Some bs.
Proof.
  unfold DecodeString, EncodeToString. rewrite String.list_ascii_of_string_of_list_ascii.
  induction bs as [|c bs IH]; [done|]. cbn [map concat app unhex_pairs]. pose proof (hex_pair c) as Hc.
  destruct (unhex (hex_digit (byte_val c / 16))) as [x|]; [|done]. destruct (unhex (hex_digit (byte_val c mod 16))) as [y|]; [|done].
  injection Hc as Hc. cbn. rewrite IH. cbn. by rewrite Hc.
Qed.

#[export] Instance EncodeToString_inj : Inj (=) (=) EncodeToString.
Proof. intros a b H. apply (f_equal DecodeString) in H. rewrite !DecodeString_Encode in H. by injection H. Qed.

Lemma base64_val_chr z : 0 ≤ z < 64 → base64_val (base64_chr z) = Some z.
Proof.
  intros Hz. assert (Hall : forallb (λ n, bool_decide (base64_val (base64_chr (Z.of_nat n)) = Some (Z.of_nat n))) (seq 0 64) = true) by (vm_compute; reflexivity).
  rewrite forallb_forall in Hall. specialize (Hall (Z.to_nat z)). rewrite bool_decide_eq_true, Z2Nat.id in Hall by lia.
  apply Hall, in_seq. lia.
Qed.

#[local] Ltac Zify.zify_post_hook ::= Z.to_euclidean_division_equations.

Lemma three_ind {A} (P : list A → Prop) :
  P [] → (∀ a, P [a]) → (∀ a b, P [a; b]) → (∀ a b c l, P l → P (a :: b :: c :: l)) → ∀ l, P l.
Proof.
  intros H0 H1 H2 H3. fix IH 1. intros [|a [|b [|c l]]]; [exact H0|apply H1|apply H2|apply H3, IH].
Qed.

Lemma decode64_encode64 bs : decode64_bytes (encode64_bytes bs) = Some bs.
Proof.
  induction bs as [|a|a b|a b c l IH] using three_ind; [done|..]; cbn [encode64_bytes decode64_bytes].
  - pose proof (byte_val_range a). rewrite !base64_val_chr by lia. cbn.
    assert (Ha : byte_chr (byte_val a / 4 * 4 + byte_val a mod 4 * 16 / 16) = a)
      by (etrans; [|apply (byte_chr_val a)]; f_equal; lia).
    by rewrite Ha.
  - pose proof (byte_val_range a). pose proof (byte_val_range b). rewrite !base64_val_chr by lia. cbn.
    assert (Ha : byte_chr (byte_val a / 4 * 4 + (byte_val a mod 4 * 16 + byte_val b / 16) / 16) = a)
      by (etrans; [|apply (byte_chr_val a)]; f_equal; lia).
    assert (Hb : byte_chr ((byte_val a mod 4 * 16 + byte_val b / 16) mod 16 * 16 + byte_val b mod 16 * 4 / 4) = b)
      by (etrans; [|apply (byte_chr_val b)]; f_equal; lia).
    by rewrite Ha, Hb.
  - pose proof (byte_val_range a). pose proof (byte_val_range b). pose proof (byte_val_range c).
    rewrite !base64_val_chr by lia. cbn. rewrite IH. cbn. f_equal.
    assert (Ha : byte_chr (byte_val a / 4 * 4 + (byte_val a mod 4 * 16 + byte_val b / 16) / 16) = a)
      by (etrans; [|apply (byte_chr_val a)]; f_equal; lia).
    assert (Hb : byte_chr ((byte_val a mod 4 * 16 + byte_val b / 16) mod 16 * 16 + (byte_val b mod 16 * 4 + byte_val c / 64) / 4) = b)
      by (etrans; [|apply (byte_chr_val b)]; f_equal; lia).
    assert (Hc : byte_chr ((byte_val b mod 16 * 4 + byte_val c / 64) mod 4 * 64 + byte_val c mod 64) = c)
      by (etrans; [|apply (byte_chr_val c)]; f_equal; lia).
    by rewrite Ha, Hb, Hc.
Qed.

(** Encoded text has no line break and no dot. *)
Lemma base64_chr_plain z : 0 ≤ z < 64 → is_break (base64_chr z) = false ∧ base64_chr z ≠ "."%char.
Proof.
  intros Hz. pose proof (base64_val_chr z Hz) as Hv. split.
  - destruct (is_break (base64_chr z)) eqn:Hb; [|done]. unfold is_break in Hb. apply orb_true_iff in Hb.
    unfold base64_val in Hv. destruct Hb as [Hb%Z.eqb_eq|Hb%Z.eqb_eq]; rewrite Hb in Hv; done.
  - intros He. by rewrite He in Hv.
Qed.

Lemma encode64_plain bs : Forall (λ c, is_break c = false ∧ c ≠ "."%char) (encode64_bytes bs).
Proof.
  induction bs as [|a|a b|a b c l IH] using three_ind; cbn [encode64_bytes]; [constructor|..].
  - pose proof (byte_val_range a). repeat (constructor; [apply base64_chr_plain; lia|]). constructor.
  - pose proof (byte_val_range a). pose proof (byte_val_range b). repeat (constructor; [apply base64_chr_plain; lia|]). constructor.
  - pose proof (byte_val_range a). pose proof (byte_val_range b). pose proof (byte_val_range c).
    repeat (constructor; [apply base64_chr_plain; lia|]). exact IH.
Qed.

Lemma Base64Decode_Encode bs : Base64Decode (Base64Encode bs) = Some bs.
Proof.
  unfold Base64Decode, Base64Encode. rewrite String.list_ascii_of_string_of_list_ascii.
  rewrite <- (decode64_encode64 bs). f_equal. pose proof (encode64_plain bs) as Hp.
  induction Hp as [|c l [Hc _] _ IH]; [done|]. cbn. rewrite Hc. cbn. by rewrite IH.
Qed.

Lemma Base64Encode_no_dot bs : "."%char ∉ bytes_of (Base64Encode bs).
Proof.
  unfold Base64Encode. rewrite String.list_ascii_of_string_of_list_ascii. intros Hin.
  pose proof (encode64_plain bs) as Hp. rewrite list.Forall_forall in Hp. by destruct (Hp _ Hin).
Qed.

Example base64_example : Base64Encode (bytes_of "hi?>") = "aGk_Pg" ∧ Base64Decode "aGk_Ph" = Some (bytes_of "hi?>") ∧ Base64Decode "aGk=" = None.
Proof. vm_compute. done. Qed.
