(* ===== verification/Pagination.v ===== *)
(** * Pagination of API responses: [connectors/common/pagination.go]

    A paginator is asked for the next URL with the last response; the three strategies of the
    code are three instances of the class [Paginator], the interface of the same name.  A
    decoded body is an [obj]; a nil map reads as the empty one. *)

From Stdlib Require Import Ascii.
From Corelib Require Import SpecFloat.
From S2P Require Import Prelude GoStrings Errors Float Value Urls.

(** What the code uses of [http.Response]: the body is what reading it gives. *)
Abbreviation Header := (gmap string (list string)).
Record HTTPResponse := mkHTTPResponse { r_StatusCode : Z; r_Header : Header; r_Body : res string }.
Definition Header_Get (h : Header) (k : string) : string := default "" (head (default [] (h !! k))).

Class Paginator (P : Type) :=
  NextPage : P → option HTTPResponse → obj → P * (string * bool).

(** ** Values at a dotted path *)

(** The walk of [extractNestedString] and [extractNestedBool]. *)
Fixpoint walk (current : value) (parts : list string) : option value :=
  match parts with
  | [] => Some current
  | part :: parts =>
      match current with
      | VMap cm => match cm !! part with Some v => walk v parts | None => None end
      | _ => None
      end
  end.

(** [fmt.Sprintf("%.0f", v)]: the nearest integer, ties to even. *)
Definition format_0f (f : float64) : string :=
  match f with
  | S754_nan => "NaN"
  | S754_infinity s => if s then "-Inf" else "+Inf"
  | S754_zero s => if s then "-0" else "0"
  | S754_finite s m e =>
      let t := if 0 <=? e then Z.pos m * 2 ^ e
               else let q := Z.pos m / 2 ^ (- e) in
                    let r2 := 2 * (Z.pos m mod 2 ^ (- e)) in
                    if (2 ^ (- e) <? r2) || ((r2 =? 2 ^ (- e)) && Z.odd q) then q + 1 else q in
      (if s then "-" else "") +:+ pretty t
  end.

Definition extractNestedString (m : obj) (path : string) : string :=
  match walk (VMap m) (Split path ".") with
  | None => ""
  | Some (VString v) => v
  | Some (VFloat v) => format_0f v
  | Some v => sprint_v v
  end.

Definition extractNestedBool (m : obj) (path : string) : bool :=
  match walk (VMap m) (Split path ".") with
  | Some (VBool b) => b
  | _ => false
  end.

Section paginators.
Context `{UrlLib}.

(** Setting parameters of a base URL; a URL that does not parse is used as it is. *)
Definition set_params (base : string) (f : Values → Values) : string :=
  match Parse base with
  | None => base
  | Some u => URL_String (with_query u (f (Query u)))
  end.

(** ** Page numbers and offsets *)

Record OffsetPaginator := mkOffsetPaginator {
  op_BaseURL : string; op_PageParam : string; op_LimitParam : string; op_PageSize : Z;
  op_ResultsField : string; op_UseOffset : bool;
  currentPage : Z; currentOffset : Z; op_started : bool
}.

(** The value of the page parameter. *)
Definition position (p : OffsetPaginator) : Z := if op_UseOffset p then currentOffset p else currentPage p.

Definition offset_buildURL (p : OffsetPaginator) : string :=
  set_params (op_BaseURL p)
    (λ q, Values_Set (Values_Set q (op_PageParam p) (pretty (position p))) (op_LimitParam p) (pretty (op_PageSize p))).

Definition countResults (p : OffsetPaginator) (body : obj) : Z :=
  if bool_decide (op_ResultsField p = "") then 0
  else match body !! op_ResultsField p with
       | Some (VSlice arr) => Z.of_nat (length arr)
       | _ => 0
       end.

Definition at_position (p : OffsetPaginator) (page offset : Z) : OffsetPaginator :=
  mkOffsetPaginator (op_BaseURL p) (op_PageParam p) (op_LimitParam p) (op_PageSize p) (op_ResultsField p)
    (op_UseOffset p) page offset true.

Definition advance (p : OffsetPaginator) : OffsetPaginator :=
  if op_UseOffset p then at_position p (currentPage p) (currentOffset p +ᵢ op_PageSize p)
  else at_position p (currentPage p +ᵢ 1) (currentOffset p).

Definition offset_NextPage (p : OffsetPaginator) (resp : option HTTPResponse) (body : obj) :
    OffsetPaginator * (string * bool) :=
  if negb (op_started p) then let p := at_position p 1 0 in (p, (offset_buildURL p, true))
  else if countResults p body <? op_PageSize p then (p, ("", false))
  else let p := advance p in (p, (offset_buildURL p, true)).

#[global] Instance offset_paginator : Paginator OffsetPaginator := offset_NextPage.

(** ** Cursors *)

Record CursorPaginator := mkCursorPaginator {
  cp_BaseURL : string; cp_CursorParam : string; cp_CursorField : string; cp_LimitParam : string;
  cp_PageSize : Z; cp_HasMoreField : string; cp_started : bool
}.

Definition cursor_buildURL (p : CursorPaginator) (cursor : string) : string :=
  set_params (cp_BaseURL p) (λ q,
    let q := if bool_decide (cursor = "") then q else Values_Set q (cp_CursorParam p) cursor in
    if negb (bool_decide (cp_LimitParam p = "")) && (0 <? cp_PageSize p)
    then Values_Set q (cp_LimitParam p) (pretty (cp_PageSize p)) else q).

Definition cursor_start (p : CursorPaginator) : CursorPaginator :=
  mkCursorPaginator (cp_BaseURL p) (cp_CursorParam p) (cp_CursorField p) (cp_LimitParam p) (cp_PageSize p)
    (cp_HasMoreField p) true.

Definition cursor_NextPage (p : CursorPaginator) (resp : option HTTPResponse) (body : obj) :
    CursorPaginator * (string * bool) :=
  if negb (cp_started p) then let p := cursor_start p in (p, (cursor_buildURL p "", true))
  else
    let cursor := extractNestedString body (cp_CursorField p) in
    if bool_decide (cursor = "") then
      if negb (bool_decide (cp_HasMoreField p = "")) then
        if negb (extractNestedBool body (cp_HasMoreField p)) then (p, ("", false)) else (p, ("", false))
      else (p, ("", false))
    else if negb (bool_decide (cp_HasMoreField p = "")) && negb (extractNestedBool body (cp_HasMoreField p))
    then (p, ("", false))
    else (p, (cursor_buildURL p cursor, true)).

#[global] Instance cursor_paginator : Paginator CursorPaginator := cursor_NextPage.

(** ** Link headers *)

Record LinkHeaderPaginator := mkLinkHeaderPaginator { lp_BaseURL : string; lp_started : bool }.

Fixpoint skip_ws (bs : list ascii) : list ascii :=
  match bs with
  | c :: rest => if bool_decide (byte_val c ∈ [9; 10; 12; 13; 32]) then skip_ws rest else bs
  | [] => []
  end.

Definition rel_next : list ascii :=
  bytes_of "rel=" ++ [byte_chr 34] ++ bytes_of "next" ++ [byte_chr 34].

(** [linkRelNextRe] where the text starts with it, after the opening bracket: the group. *)
Definition link_match (bs : list ascii) : option (list ascii) :=
  let '(url, rest) := cut_bytes ">" bs in
  match url, rest with
  | _ :: _, ";"%char :: rest => if bool_decide (rel_next `prefix_of` skip_ws rest) then Some url else None
  | _, _ => None
  end.

(** The leftmost match of the expression. *)
Fixpoint find_link (bs : list ascii) : option (list ascii) :=
  match bs with
  | [] => None
  | c :: rest =>
      match (if decide (c = "<"%char) then link_match rest else None) with
      | Some url => Some url
      | None => find_link rest
      end
  end.

Definition link_NextPage (p : LinkHeaderPaginator) (resp : option HTTPResponse) (body : obj) :
    LinkHeaderPaginator * (string * bool) :=
  if negb (lp_started p) then (mkLinkHeaderPaginator (lp_BaseURL p) true, (lp_BaseURL p, true))
  else match resp with
       | None => (p, ("", false))
       | Some r =>
           let linkHeader := Header_Get (r_Header r) "Link" in
           if bool_decide (linkHeader = "") then (p, ("", false))
           else match find_link (bytes_of linkHeader) with
                | None => (p, ("", false))
                | Some url => (p, (of_bytes url, true))
                end
       end.

#[global] Instance link_paginator : Paginator LinkHeaderPaginator := link_NextPage.
End paginators.

(** ** Lemmas *)

(** The URL built for a parsed base asks the server for the parameters that were set. *)
Lemma set_params_query `{UrlLaws} base u f :
  Parse base = Some u →
  (∀ q, map_Forall (λ _ vs, vs ≠ []) q → map_Forall (λ _ vs, vs ≠ []) (f q)) →
  request_query (set_params base f) = f (Query u).
Proof.
  intros Hu Hf. unfold set_params. rewrite Hu.
  eapply request_query_with_query; [done|]. apply Hf. apply ParseQuery_filled.
Qed.

Lemma offset_query `{UrlLaws} p u :
  Parse (op_BaseURL p) = Some u →
  request_query (offset_buildURL p) =
  Values_Set (Values_Set (Query u) (op_PageParam p) (pretty (position p))) (op_LimitParam p) (pretty (op_PageSize p)).
Proof.
  intros Hu. unfold offset_buildURL. rewrite (set_params_query _ _ _ Hu); [done|].
  intros q Hq. by do 2 apply Values_Set_filled.
Qed.

Lemma cut_bytes_head sep bs : sep ∉ (cut_bytes sep bs).1.
Proof.
  induction bs as [|c bs IH]; simpl; [apply not_elem_of_nil|].
  case_decide; [apply not_elem_of_nil|]. destruct (cut_bytes sep bs) as [x y]. simpl in *.
  rewrite not_elem_of_cons. split; congruence.
Qed.

(** A URL taken from a [Link] header is not empty and stands in brackets before [rel="next"]. *)
Lemma find_link_spec bs url :
  find_link bs = Some url →
  ∃ pre rest, bs = pre ++ "<"%char :: url ++ ">"%char :: ";"%char :: rest ∧ url ≠ [] ∧ ">"%char ∉ url ∧
    rel_next `prefix_of` skip_ws rest.
Proof.
  induction bs as [|c bs IH]; [done|]. cbn [find_link].
  destruct (if decide (c = "<"%char) then link_match bs else None) as [u|] eqn:Hm.
  - intros [= ->]. destruct (decide (c = "<"%char)) as [->|]; [|done].
    unfold link_match in Hm. pose proof (cut_bytes_head ">" bs) as Hh.
    assert (Hcut : ∀ x y z, cut_bytes ">" bs = (x, y :: z) → bs = x ++ ">"%char :: y :: z).
    { clear. induction bs as [|c bs IH]; intros x y z; simpl; [done|].
      case_decide as Hc; [subst; by intros [= <- ->]|].
      destruct (cut_bytes ">" bs) as [x' y'] eqn:Hb. intros [= <- ->]. simpl. by rewrite (IH _ _ _ eq_refl). }
    destruct (cut_bytes ">" bs) as [x y] eqn:Hb. cbn [fst] in Hh.
    destruct x as [|x1 x]; [done|]. destruct y as [|y1 y]; [done|].
    destruct (decide (y1 = ";"%char)) as [->|Hy]; [|by destruct y1 as [[] [] [] [] [] [] [] []]].
    case_bool_decide as Hr; [|done]. injection Hm as <-.
    exists [], y. rewrite (Hcut _ _ _ eq_refl). repeat split; done.
  - intros Hf. destruct (IH Hf) as (pre & rest & -> & Hrest). by exists (c :: pre), rest.
Qed.

(** ** Examples *)

Example link_example :
  let dq := of_bytes [byte_chr 34] in
  find_link (bytes_of ("<https://api/x?page=1>; rel=" +:+ dq +:+ "prev" +:+ dq +:+ ", <https://api/x?page=3>; rel="
                         +:+ dq +:+ "next" +:+ dq))
  = Some (bytes_of "https://api/x?page=3").
Proof. vm_compute. reflexivity. Qed.

Example nested_example :
  (extractNestedString {[ "paging" := VMap {[ "next" := VMap {[ "after" := VFloat (f_of_dec 25 (-1)) ]} ]} ]} "paging.next.after",
   extractNestedString {[ "next" := VNil ]} "next",
   extractNestedBool {[ "more" := VBool true ]} "more") = ("2", "<nil>", true).
Proof. vm_compute. reflexivity. Qed.
