(* ===== verification/RestClient.v ===== *)
(** * The HTTP client the REST connectors share: [connectors/common/http_client.go]

    One call makes up to [maxRetries + 1] attempts: each waits (backoff, shared limiter, local
    rate limit), authenticates, sends, and judges the response.  The network, the token
    source and the shared limiter are functions of the world [W]; time passes in the world
    ([Runtime]).  A client is used by one goroutine at a time: its state is passed along.
    Logging is left out. *)

From Stdlib Require Import Ascii.
From S2P Require Import Prelude GoStrings Errors Float Value Urls Pagination.

(** Time and cancellation.  [select_wait d] is a [select] between [ctx.Done()] and
    [time.After(d)]: [Some e] is the former, with [ctx.Err()]; [poll] is the select with
    a default. *)
Class Runtime (W : Type) := {
  clock_of : W → Z;
  sleep : Z → W → W;
  select_wait : Z → W → option error * W;
  poll : W → option error
}.

(** A sleep takes at least its duration. *)
Class RuntimeLaws (W : Type) `{Runtime W} : Prop := {
  sleep_time d w : 0 ≤ d → clock_of w + d ≤ clock_of (sleep d w)
}.

Record Request := mkRequest {
  rq_Method : string; rq_URL : string; rq_Body : option RawMessage; rq_Header : gmap string string
}.

Record RESTClient (W : Type) := mkRESTClient {
  client : Request → W → res HTTPResponse * W;       (** [http.Client.Do] *)
  baseURL : string;
  maxRetries : Z;
  backoff : Z;
  rateLimit : float64;
  apiKey : string;
  apiKeyHdr : string;
  tokenSrc : option (W → res string * W);            (** the access token of [Token()] *)
  maxResponseSize : Z;
  distLimiter : option (W → option error * W);       (** [Wait(ctx)] *)
  adaptiveRate : float64;
  adaptiveInitial : float64;
  lastReq : Z
}.
Arguments mkRESTClient {W}. Arguments client {W}. Arguments baseURL {W}. Arguments maxRetries {W}.
Arguments backoff {W}. Arguments rateLimit {W}. Arguments apiKey {W}. Arguments apiKeyHdr {W}.
Arguments tokenSrc {W}. Arguments maxResponseSize {W}. Arguments distLimiter {W}.
Arguments adaptiveRate {W}. Arguments adaptiveInitial {W}. Arguments lastReq {W}.

Record Response := mkResponse {
  StatusCode : Z; Headers : Header; Body : option obj; RawBody : string; HTTPResp : HTTPResponse
}.

(** A nil map reads as the empty one. *)
Definition body_map (r : Response) : obj := default ∅ (Body r).

Definition defaultMaxResponseSize : Z := 50 * 1024 * 1024.

Section options.
Context {W : Type}.

(** Functional updates of the fields that change after construction. *)
Definition with_rate (c : RESTClient W) (adaptive limit : float64) : RESTClient W :=
  mkRESTClient (client c) (baseURL c) (maxRetries c) (backoff c) limit (apiKey c) (apiKeyHdr c) (tokenSrc c)
    (maxResponseSize c) (distLimiter c) adaptive (adaptiveInitial c) (lastReq c).
Definition with_lastReq (c : RESTClient W) (t : Z) : RESTClient W :=
  mkRESTClient (client c) (baseURL c) (maxRetries c) (backoff c) (rateLimit c) (apiKey c) (apiKeyHdr c) (tokenSrc c)
    (maxResponseSize c) (distLimiter c) (adaptiveRate c) (adaptiveInitial c) t.

Abbreviation ClientOption := (RESTClient W → RESTClient W).

Definition WithOAuth2 (ts : W → res string * W) : ClientOption := λ c,
  mkRESTClient (client c) (baseURL c) (maxRetries c) (backoff c) (rateLimit c) (apiKey c) (apiKeyHdr c) (Some ts)
    (maxResponseSize c) (distLimiter c) (adaptiveRate c) (adaptiveInitial c) (lastReq c).
Definition WithAPIKey (key header : string) : ClientOption := λ c,
  mkRESTClient (client c) (baseURL c) (maxRetries c) (backoff c) (rateLimit c) key header (tokenSrc c)
    (maxResponseSize c) (distLimiter c) (adaptiveRate c) (adaptiveInitial c) (lastReq c).
Definition WithRetry (maxR b : Z) : ClientOption := λ c,
  mkRESTClient (client c) (baseURL c) maxR b (rateLimit c) (apiKey c) (apiKeyHdr c) (tokenSrc c)
    (maxResponseSize c) (distLimiter c) (adaptiveRate c) (adaptiveInitial c) (lastReq c).
Definition WithRateLimit (reqPerSec : float64) : ClientOption := λ c, with_rate c (adaptiveRate c) reqPerSec.
Definition WithHTTPClient (hc : Request → W → res HTTPResponse * W) : ClientOption := λ c,
  mkRESTClient hc (baseURL c) (maxRetries c) (backoff c) (rateLimit c) (apiKey c) (apiKeyHdr c) (tokenSrc c)
    (maxResponseSize c) (distLimiter c) (adaptiveRate c) (adaptiveInitial c) (lastReq c).
Definition WithMaxResponseSize (bytes : Z) : ClientOption := λ c,
  mkRESTClient (client c) (baseURL c) (maxRetries c) (backoff c) (rateLimit c) (apiKey c) (apiKeyHdr c) (tokenSrc c)
    bytes (distLimiter c) (adaptiveRate c) (adaptiveInitial c) (lastReq c).
Definition WithAdaptiveRateLimit (initialRate : float64) : ClientOption := λ c,
  mkRESTClient (client c) (baseURL c) (maxRetries c) (backoff c) initialRate (apiKey c) (apiKeyHdr c) (tokenSrc c)
    (maxResponseSize c) (distLimiter c) initialRate initialRate (lastReq c).
Definition WithDistributedRateLimit (limiter : W → option error * W) : ClientOption := λ c,
  mkRESTClient (client c) (baseURL c) (maxRetries c) (backoff c) (rateLimit c) (apiKey c) (apiKeyHdr c) (tokenSrc c)
    (maxResponseSize c) (Some limiter) (adaptiveRate c) (adaptiveInitial c) (lastReq c).

(** [net] is the default [http.Client]. *)
Definition NewRESTClient (net : Request → W → res HTTPResponse * W) (base : string) (opts : list ClientOption) :
    RESTClient W :=
  foldl (λ c o, o c)
    (mkRESTClient net (TrimRight base "/") 3 (500 * millisecond) (f_of_Z 0) "" "" None 0 None (f_of_Z 0) (f_of_Z 0)
       zero_time) opts.

(** ** Adaptive rate: additive increase, multiplicative decrease *)

Definition half : float64 := f_of_dec 5 (-1).

Definition adaptiveDecrease (c : RESTClient W) : RESTClient W :=
  if f_leb (adaptiveInitial c) (f_of_Z 0) then c
  else let r := f_max (f_div (adaptiveRate c) (f_of_Z 2)) half in with_rate c r r.

Definition adaptiveIncrease (c : RESTClient W) : RESTClient W :=
  if f_leb (adaptiveInitial c) (f_of_Z 0) then c
  else if f_ltb (adaptiveRate c) (adaptiveInitial c)
  then let r := f_min (f_add (adaptiveRate c) half) (adaptiveInitial c) in with_rate c r r
  else c.
End options.

Section client.
Context {W : Type} `{Hrt : Runtime W} `{UrlLib}.
Context (json_doc : string → RawMessage).        (** the syntax tree of a JSON text *)
Context (url_error : string → error).            (** what [url.Parse] says of a text it refuses *)
Context (ParseTime : string → option Z).         (** [http.ParseTime], in nanoseconds *)

(** ** Rate limit and headers *)

Definition minInterval (c : RESTClient W) : Z := f_to_i64 (f_div (f_of_Z second) (rateLimit c)).

Definition waitForRateLimit (c : RESTClient W) (w : W) : RESTClient W * W :=
  if f_leb (rateLimit c) (f_of_Z 0) then (c, w)
  else
    let elapsed := time_sub (clock_of w) (lastReq c) in
    let w := if elapsed <? minInterval c then sleep (minInterval c -ᵢ elapsed) w else w in
    (with_lastReq c (clock_of w), w).

Definition applyAuth (c : RESTClient W) (r : Request) (w : W) : res Request * W :=
  match tokenSrc c with
  | Some token =>
      match token w with
      | (Ok tok, w) => (Ok (mkRequest (rq_Method r) (rq_URL r) (rq_Body r)
                              (<["Authorization" := "Bearer " +:+ tok]> (rq_Header r))), w)
      | (Err e, w) => (Err (ErrWrapf "get OAuth token" e), w)
      | (Panic m, w) => (Panic m, w)
      end
  | None =>
      (Ok (if bool_decide (apiKey c = "") then r
           else mkRequest (rq_Method r) (rq_URL r) (rq_Body r) (<[apiKeyHdr c := apiKey c]> (rq_Header r))), w)
  end.

Definition parseRetryAfter (val : string) (now : Z) : Z :=
  if bool_decide (val = "") then 0
  else match parse_int val with
       | Some secs => secs *ᵢ second
       | None =>
           match ParseTime val with
           | Some t => let d := time_sub t now in if 0 <? d then d else 0
           | None => 0
           end
       end.

(** ** One request with retries *)

(** [io.ReadAll(io.LimitReader(body, n))]. *)
Definition limit_read (n : Z) (body : string) : string :=
  if n <=? 0 then "" else if n <? Z.of_nat (String.length body) then String.substring 0 (Z.to_nat n) body else body.

Definition decode_body (text : string) : option obj :=
  match json_doc text with
  | RawDoc JNull => None
  | d => match unmarshal_map d with Ok m => Some m | _ => None end
  end.

Definition max_size (c : RESTClient W) : Z :=
  if maxResponseSize c <=? 0 then defaultMaxResponseSize else maxResponseSize c.

(** What an attempt ends in: another attempt, with the error to remember, or the call's result. *)
Inductive verdict :=
| Again (lastErr : error)
| Return (r : res Response).

(** The response of an attempt, from the reading of the body on. *)
Definition judge (c : RESTClient W) (resp : HTTPResponse) (w : W) : verdict * RESTClient W * W :=
  match r_Body resp with
  | Err e => (Again (ErrWrapf "read response" e), c, w)
  | Panic m => (Return (Panic m), c, w)
  | Ok text =>
      let respBody := limit_read (max_size c +ᵢ 1) text in
      if max_size c <? Z.of_nat (String.length respBody)
      then (Again (ErrText ("response body exceeds max size (" +:+ pretty (max_size c) +:+ " bytes)")), c, w)
      else if r_StatusCode resp =? 429 then
        let c := adaptiveDecrease c in
        let retryAfter := parseRetryAfter (Header_Get (r_Header resp) "Retry-After") (clock_of w) in
        if 0 <? retryAfter then
          match select_wait retryAfter w with
          | (Some e, w) => (Return (Err e), c, w)
          | (None, w) => (Again (ErrText "rate limited (429)"), c, w)
          end
        else (Again (ErrText "rate limited (429)"), c, w)
      else
        let c := adaptiveIncrease c in
        if 500 <=? r_StatusCode resp then (Again (ErrText ("server error: " +:+ pretty (r_StatusCode resp))), c, w)
        else if 400 <=? r_StatusCode resp
        then (Return (Err (ErrText ("API error " +:+ pretty (r_StatusCode resp) +:+ ": " +:+ respBody))), c, w)
        else (Return (Ok (mkResponse (r_StatusCode resp) (r_Header resp)
                            (if bool_decide (respBody = "") then None else decode_body respBody) respBody resp)), c, w)
  end.

Definition request_headers (body : option RawMessage) : gmap string string :=
  match body with
  | Some _ => {[ "Content-Type" := "application/json"; "Accept" := "application/json" ]}
  | None => {[ "Accept" := "application/json" ]}
  end.

(** Sending, from the shared limiter on. *)
Definition send (c : RESTClient W) (method fullURL : string) (body : option RawMessage) (w : W) :
    verdict * RESTClient W * W :=
  match (match distLimiter c with Some limiter => limiter w | None => (None, w) end) with
  | (Some e, w) => (Return (Err (ErrWrapf "distributed rate limiter" e)), c, w)
  | (None, w) =>
      let '(c, w) := waitForRateLimit c w in
      match Parse fullURL with
      | None => (Return (Err (ErrWrapf "create request" (url_error fullURL))), c, w)
      | Some _ =>
          match applyAuth c (mkRequest method fullURL body (request_headers body)) w with
          | (Err e, w) => (Return (Err (ErrWrapf "apply auth" e)), c, w)
          | (Panic m, w) => (Return (Panic m), c, w)
          | (Ok req, w) =>
              match client c req w with
              | (Err e, w) => (Again (ErrWrapf "http request" e), c, w)
              | (Panic m, w) => (Return (Panic m), c, w)
              | (Ok resp, w) => judge c resp w
              end
          end
      end
  end.

Definition wait_before (c : RESTClient W) (attempt : Z) (w : W) : option error * W :=
  if 0 <? attempt then select_wait (backoff c *ᵢ f_to_i64 (pow2 (attempt - 1))) w else (None, w).

Definition retries_exceeded (lastErr : option error) : error :=
  match lastErr with
  | Some e => ErrWrapf "max retries exceeded" e
  | None => ErrText "max retries exceeded: %!w(<nil>)"
  end.

(** The loop from attempt number [attempt] on, with [remaining] attempts left. *)
Fixpoint attempts (remaining : nat) (attempt : Z) (c : RESTClient W) (method fullURL : string)
    (body : option RawMessage) (lastErr : option error) (w : W) : res Response * RESTClient W * W :=
  match remaining with
  | O => (Err (retries_exceeded lastErr), c, w)
  | S remaining =>
      match wait_before c attempt w with
      | (Some e, w) => (Err e, c, w)
      | (None, w) =>
          match send c method fullURL body w with
          | (Again e, c, w) => attempts remaining (attempt + 1) c method fullURL body (Some e) w
          | (Return r, c, w) => (r, c, w)
          end
      end
  end.

Definition marshal_body (body : option value) : res (option RawMessage) :=
  match body with
  | None => Ok None
  | Some v => match to_json v with
              | Some j => Ok (Some (RawDoc j))
              | None => Err (ErrWrapf "marshal request body" err_unsupported)
              end
  end.

(** [do]. *)
Definition do_request (c : RESTClient W) (method path : string) (body : option value) (w : W) :
    res Response * RESTClient W * W :=
  match marshal_body body with
  | Ok bodyBytes =>
      attempts (Z.to_nat (maxRetries c + 1)) 0 c method (baseURL c +:+ path) bodyBytes None w
  | Err e => (Err e, c, w)
  | Panic m => (Panic m, c, w)
  end.

Definition Get (c : RESTClient W) (path : string) := do_request c "GET" path None.
Definition Post (c : RESTClient W) (path : string) (body : option value) := do_request c "POST" path body.
Definition Put (c : RESTClient W) (path : string) (body : option value) := do_request c "PUT" path body.
Definition Patch (c : RESTClient W) (path : string) (body : option value) := do_request c "PATCH" path body.
Definition Delete (c : RESTClient W) (path : string) := do_request c "DELETE" path None.

Definition raw_result (r : res Response * RESTClient W * W) : res (string * Header) * RESTClient W * W :=
  let '(r, c, w) := r in
  ((match r with Ok r => Ok (RawBody r, Headers r) | Err e => Err e | Panic m => Panic m end), c, w).
Definition GetRaw (c : RESTClient W) (path : string) (w : W) := raw_result (Get c path w).
Definition PostRaw (c : RESTClient W) (path : string) (body : option value) (w : W) := raw_result (Post c path body w).

(** ** Pages *)

(** The path of a page: the base URL of the client is cut off an absolute URL. *)
Definition page_path (c : RESTClient W) (nextURL : string) : string :=
  if HasPrefix nextURL "http://" || HasPrefix nextURL "https://" then TrimPrefix nextURL (baseURL c) else nextURL.

Section pages.
Context {P : Type} `{Hpg : Paginator P}.

(** The pages from [next] on are given to the handler; [None] when the fuel is used up. *)
Fixpoint stream_loop (fuel : nat) (c : RESTClient W) (p : P) (next : string * bool)
    (handler : obj → W → option error * W) (w : W) : option (res unit * RESTClient W * P * W) :=
  match fuel with
  | O => None
  | S fuel =>
      if negb next.2 then Some (Ok tt, c, p, w)
      else match poll w with
      | Some e => Some (Err e, c, p, w)
      | None =>
          match Get c (page_path c next.1) w with
          | (Err e, c, w) => Some (Err (ErrWrapf "fetch page" e), c, p, w)
          | (Panic m, c, w) => Some (Panic m, c, p, w)
          | (Ok resp, c, w) =>
              match (match Body resp with Some b => handler b w | None => (None, w) end) with
              | (Some e, w) => Some (Err (ErrWrapf "page handler" e), c, p, w)
              | (None, w) =>
                  let '(p, next) := NextPage p (Some (HTTPResp resp)) (body_map resp) in
                  stream_loop fuel c p next handler w
              end
          end
      end
  end.

Definition StreamPages (fuel : nat) (c : RESTClient W) (p : P) (handler : obj → W → option error * W) (w : W) :
    option (res unit * RESTClient W * P * W) :=
  let '(p, next) := NextPage p None ∅ in stream_loop fuel c p next handler w.

Fixpoint fetch_loop (fuel : nat) (c : RESTClient W) (p : P) (next : string * bool) (allPages : list obj) (w : W) :
    option (list obj * res unit * RESTClient W * P * W) :=
  match fuel with
  | O => None
  | S fuel =>
      if negb next.2 then Some (allPages, Ok tt, c, p, w)
      else match poll w with
      | Some e => Some (allPages, Err e, c, p, w)
      | None =>
          match Get c (page_path c next.1) w with
          | (Err e, c, w) => Some (allPages, Err (ErrWrapf "fetch page" e), c, p, w)
          | (Panic m, c, w) => Some (allPages, Panic m, c, p, w)
          | (Ok resp, c, w) =>
              let allPages := match Body resp with Some b => allPages ++ [b] | None => allPages end in
              let '(p, next) := NextPage p (Some (HTTPResp resp)) (body_map resp) in
              fetch_loop fuel c p next allPages w
          end
      end
  end.

Definition FetchAllPages (fuel : nat) (c : RESTClient W) (p : P) (w : W) :
    option (list obj * res unit * RESTClient W * P * W) :=
  let '(p, next) := NextPage p None ∅ in fetch_loop fuel c p next [] w.
End pages.

Fixpoint post_loop (fuel : nat) (c : RESTClient W) (path : string) (buildBody : string → option value)
    (cursorField cursor : string) (allPages : list obj) (w : W) : option (list obj * res unit * RESTClient W * W) :=
  match fuel with
  | O => None
  | S fuel =>
      match poll w with
      | Some e => Some (allPages, Err e, c, w)
      | None =>
          match Post c path (buildBody cursor) w with
          | (Err e, c, w) => Some (allPages, Err (ErrWrapf "fetch page" e), c, w)
          | (Panic m, c, w) => Some (allPages, Panic m, c, w)
          | (Ok resp, c, w) =>
              let allPages := match Body resp with Some b => allPages ++ [b] | None => allPages end in
              let nextCursor := extractNestedString (body_map resp) cursorField in
              if bool_decide (nextCursor = "") || bool_decide (nextCursor = cursor) then Some (allPages, Ok tt, c, w)
              else post_loop fuel c path buildBody cursorField nextCursor allPages w
          end
      end
  end.

Definition FetchAllPagesPost (fuel : nat) (c : RESTClient W) (path : string) (buildBody : string → option value)
    (cursorField : string) (w : W) : option (list obj * res unit * RESTClient W * W) :=
  post_loop fuel c path buildBody cursorField "" [] w.
End client.

(** ** The exchanges of a call

    [logged] records every request sent and what came of it. *)

Abbreviation exchange := (Request * res HTTPResponse)%type.

Section logged.
Context {W : Type} `{Hrt : Runtime W}.

#[local] Instance logged_runtime : Runtime (W * list exchange) := {
  clock_of w := clock_of w.1;
  sleep d w := (sleep d w.1, w.2);
  select_wait d w := let '(e, w') := select_wait d w.1 in (e, (w', w.2));
  poll w := poll w.1
}.

Definition lift {A} (f : W → A * W) (w : W * list exchange) : A * (W * list exchange) :=
  let '(x, w') := f w.1 in (x, (w', w.2)).

Definition logged_net (net : Request → W → res HTTPResponse * W) (r : Request) (w : W * list exchange) :
    res HTTPResponse * (W * list exchange) :=
  let '(x, w') := net r w.1 in (x, (w', w.2 ++ [(r, x)])).

Definition logged (c : RESTClient W) : RESTClient (W * list exchange) :=
  mkRESTClient (logged_net (client c)) (baseURL c) (maxRetries c) (backoff c) (rateLimit c) (apiKey c) (apiKeyHdr c)
    (lift <$> tokenSrc c) (maxResponseSize c) (lift <$> distLimiter c) (adaptiveRate c) (adaptiveInitial c) (lastReq c).
End logged.
#[global] Existing Instance logged_runtime.

(** What the outcome of an exchange means, for a limit on the size of bodies. *)
Definition fits (limit : Z) (t : string) : bool := Z.of_nat (String.length t) <=? limit.
Definition transient (limit : Z) (x : res HTTPResponse) : bool :=
  match x with
  | Ok h => match r_Body h with
            | Ok t => negb (fits limit t) || (r_StatusCode h =? 429) || (500 <=? r_StatusCode h)
            | Err _ => true
            | Panic _ => false
            end
  | Err _ => true
  | Panic _ => false
  end.
Definition refused (limit : Z) (x : res HTTPResponse) : bool :=
  match x with
  | Ok h => match r_Body h with
            | Ok t => fits limit t && (400 <=? r_StatusCode h) && (r_StatusCode h <? 500) && negb (r_StatusCode h =? 429)
            | _ => false
            end
  | _ => false
  end.
Definition answers (limit : Z) (h : HTTPResponse) (resp : Response) : Prop :=
  r_Body h = Ok (RawBody resp) ∧ fits limit (RawBody resp) = true ∧ r_StatusCode h < 400 ∧
  StatusCode resp = r_StatusCode h ∧ Headers resp = r_Header h.

(** The fields no call changes. *)
Definition same_setup {W} (c c' : RESTClient W) : Prop :=
  client c = client c' ∧ baseURL c = baseURL c' ∧ maxRetries c = maxRetries c' ∧ backoff c = backoff c' ∧
  tokenSrc c = tokenSrc c' ∧ maxResponseSize c = maxResponseSize c' ∧ distLimiter c = distLimiter c'.

#[global] Instance same_setup_equivalence W : Equivalence (@same_setup W).
Proof.
  unfold same_setup. split.
  - intros c. by split_and!.
  - intros c d Hcd. naive_solver.
  - intros c d e Hcd Hde. naive_solver congruence.
Qed.

Section facts.
Context {W : Type} `{Hrt : Runtime W} `{UrlLib}.
Context (json_doc : string → RawMessage) (url_error : string → error) (ParseTime : string → option Z).

Lemma same_with_rate (c : RESTClient W) a l : same_setup c (with_rate c a l).
Proof. by split_and!. Qed.
Lemma same_with_lastReq (c : RESTClient W) t : same_setup c (with_lastReq c t).
Proof. by split_and!. Qed.

Lemma adaptiveDecrease_same (c : RESTClient W) : same_setup c (adaptiveDecrease c).
Proof. unfold adaptiveDecrease. destruct (f_leb _ _); [done|apply same_with_rate]. Qed.
Lemma adaptiveIncrease_same (c : RESTClient W) : same_setup c (adaptiveIncrease c).
Proof.
  unfold adaptiveIncrease. destruct (f_leb _ _); [done|]. destruct (f_ltb _ _); [apply same_with_rate|done].
Qed.

Lemma limit_read_fits limit t :
  0 <= limit < int64_max →
  (limit <? Z.of_nat (String.length (limit_read (limit +ᵢ 1) t))) = negb (fits limit t) ∧
  (fits limit t = true → limit_read (limit +ᵢ 1) t = t).
Proof.
  intros Hl. rewrite i64_id by (unfold in_i64, int64_min, int64_max in *; lia).
  unfold limit_read, fits. rewrite (proj2 (Z.leb_gt (limit + 1) 0)) by lia.
  destruct (Z.ltb_spec (limit + 1) (Z.of_nat (String.length t))).
  - rewrite (proj2 (Z.leb_gt _ _)) by lia. split; [|done]. simpl.
    assert (Hs : ∀ n s, (n ≤ String.length s)%nat → String.length (String.substring 0 n s) = n).
    { clear. induction n as [|n IH]; intros [|ch s] Hn; simpl in *; [done|done|lia|]. by rewrite IH by lia. }
    rewrite Hs by lia. apply Z.ltb_lt. lia.
  - split; [|done]. destruct (Z.leb_spec (Z.of_nat (String.length t)) limit); simpl;
      [apply Z.ltb_ge|apply Z.ltb_lt]; lia.
Qed.

Lemma max_size_pos (c : RESTClient W) : 0 <= max_size c.
Proof. unfold max_size, defaultMaxResponseSize. destruct (Z.leb_spec (maxResponseSize c) 0); lia. Qed.

(** How a response is judged. *)
Lemma judge_spec (c : RESTClient W) h w v c' w' :
  max_size c < int64_max → judge json_doc ParseTime c h w = (v, c', w') →
  same_setup c c' ∧
  match v with
  | Again _ => transient (max_size c) (Ok h) = true
  | Return (Ok resp) => answers (max_size c) h resp
  | Return (Err _) => refused (max_size c) (Ok h) = true ∨
      (transient (max_size c) (Ok h) = true ∧ ∃ d e, (select_wait d w).1 = Some e)
  | Return (Panic _) => True
  end.
Proof.
  intros Hm. unfold judge, transient, refused, answers. destruct (r_Body h) as [t|e|m].
  2,3: intros [= <- <- <-]; done.
  destruct (limit_read_fits (max_size c) t) as [Hlen Hfull]; [split; [apply max_size_pos|done]|].
  rewrite Hlen. destruct (fits (max_size c) t) eqn:Hf; cbn [negb orb andb].
  2:{ intros [= <- <- <-]. done. }
  rewrite (Hfull eq_refl).
  destruct (r_StatusCode h =? 429) eqn:H429.
  - pose proof (adaptiveDecrease_same c) as Hd.
    destruct (0 <? parseRetryAfter _ _ _).
    + destruct (select_wait _ w) as [[e|] w1] eqn:Hw; intros [= <- <- <-]; split; auto.
      right. split; [done|]. eexists _, e. by rewrite Hw.
    + intros [= <- <- <-]. auto.
  - pose proof (adaptiveIncrease_same c) as Hi. cbn [orb].
    destruct (500 <=? r_StatusCode h) eqn:H500; [intros [= <- <- <-]; auto|].
    destruct (400 <=? r_StatusCode h) eqn:H400.
    + intros [= <- <- <-]. split; [done|]. left. rewrite (proj2 (Z.ltb_lt _ _)) by lia. done.
    + intros [= <- <- <-]. split; [done|]. simpl. split_and!; try done. lia.
Qed.

Lemma waitForRateLimit_same (c : RESTClient W) w : same_setup c (waitForRateLimit c w).1.
Proof.
  unfold waitForRateLimit. destruct (f_leb _ _); [done|]. simpl. apply same_with_lastReq.
Qed.
End facts.

Section exchanges.
Context {W : Type} `{Hrt : Runtime W} `{UrlLib}.
Context (json_doc : string → RawMessage) (url_error : string → error) (ParseTime : string → option Z).

(** Nothing outside the exchanges stops a call. *)
Definition calm (c : RESTClient W) (url : string) : Prop :=
  (∀ d w, (select_wait d w).1 = None) ∧
  (∀ f w, distLimiter c = Some f → (f w).1 = None) ∧
  (∀ f w, tokenSrc c = Some f → is_ok (f w).1 = true) ∧
  is_Some (Parse url).

Lemma calm_same (c c' : RESTClient W) url : same_setup c c' → calm c url → calm c' url.
Proof. unfold same_setup, calm. intros (_ & _ & _ & _ & -> & _ & ->). done. Qed.

Lemma max_size_same c c' : same_setup (W := W) c c' → max_size c = max_size c'.
Proof. unfold same_setup, max_size. intros (_ & _ & _ & _ & _ & -> & _). done. Qed.

(** The request every attempt sends, up to its headers. *)
Definition is_request (m u : string) (b : option RawMessage) (r : Request) : Prop :=
  rq_Method r = m ∧ rq_URL r = u ∧ rq_Body r = b.

Lemma adaptiveDecrease_logged (c : RESTClient W) : adaptiveDecrease (logged c) = logged (adaptiveDecrease c).
Proof. unfold adaptiveDecrease. cbn [logged adaptiveInitial]. by destruct (f_leb _ _). Qed.
Lemma adaptiveIncrease_logged (c : RESTClient W) : adaptiveIncrease (logged c) = logged (adaptiveIncrease c).
Proof.
  unfold adaptiveIncrease. cbn [logged adaptiveInitial adaptiveRate]. destruct (f_leb _ _); [done|].
  by destruct (f_ltb _ _).
Qed.

Lemma judge_logged (c : RESTClient W) h (w : W) (l : list exchange) :
  judge json_doc ParseTime (logged c) h (w, l) =
  let '(v, c', w') := judge json_doc ParseTime c h w in (v, logged c', (w', l)).
Proof.
  unfold judge. rewrite adaptiveDecrease_logged, adaptiveIncrease_logged.
  change (max_size (logged c)) with (max_size c). cbn [clock_of select_wait logged_runtime fst snd].
  destruct (r_Body h) as [t| |]; [|done..].
  destruct (_ <? _); [done|]. destruct (_ =? 429).
  - destruct (0 <? _); [|done]. by destruct (select_wait _ w) as [[|] ?].
  - destruct (500 <=? _); [done|]. by destruct (400 <=? _).
Qed.

Lemma waitForRateLimit_logged (c : RESTClient W) (w : W) (l : list exchange) :
  waitForRateLimit (logged c) (w, l) = let '(c', w') := waitForRateLimit c w in (logged c', (w', l)).
Proof.
  unfold waitForRateLimit. cbn [logged rateLimit lastReq clock_of sleep logged_runtime fst snd].
  destruct (f_leb _ _); [done|]. change (minInterval (logged c)) with (minInterval c).
  by destruct (_ <? _).
Qed.

(** One attempt sends at most one request. *)
Definition sent (c : RESTClient W) (m u : string) (b : option RawMessage) (v : verdict) (calls : list exchange) : Prop :=
  (length calls ≤ 1)%nat ∧ Forall (λ x, is_request m u b x.1) calls ∧
  match v with
  | Again _ => ∃ x, calls = [x] ∧ transient (max_size c) x.2 = true
  | Return (Ok resp) => ∃ r h, calls = [(r, Ok h)] ∧ answers (max_size c) h resp
  | Return (Err _) => (∃ x, calls = [x] ∧ refused (max_size c) x.2 = true) ∨
      (Forall (λ x, transient (max_size c) x.2 = true) calls ∧ ¬ calm c u)
  | Return (Panic _) => True
  end.

Lemma applyAuth_logged (c : RESTClient W) r (w : W) (l : list exchange) :
  applyAuth (logged c) r (w, l) = let '(x, w') := applyAuth c r w in (x, (w', l)).
Proof.
  unfold applyAuth. cbn [logged tokenSrc apiKey apiKeyHdr].
  destruct (tokenSrc c) as [ts|]; [|done]. cbn. unfold lift. cbn.
  by destruct (ts w) as [[tok|e|pm] w1].
Qed.

Lemma applyAuth_spec (c : RESTClient W) r (w : W) x w' :
  applyAuth c r w = (x, w') →
  match x with
  | Ok r' => rq_Method r' = rq_Method r ∧ rq_URL r' = rq_URL r ∧ rq_Body r' = rq_Body r
  | _ => ¬ (∀ f w, tokenSrc c = Some f → is_ok (f w).1 = true)
  end.
Proof.
  unfold applyAuth. destruct (tokenSrc c) as [ts|].
  - destruct (ts w) as [[tok|e|pm] w1] eqn:Ht; intros [= <- <-]; [done| |];
      intros Hok; specialize (Hok ts w eq_refl); by rewrite Ht in Hok.
  - intros [= <- <-]. by case_bool_decide.
Qed.

Lemma send_logged (c : RESTClient W) m u b (w : W) (l : list exchange) v c' w' :
  max_size c < int64_max →
  send json_doc url_error ParseTime (logged c) m u b (w, l) = (v, c', w') →
  ∃ c1 w1 calls, c' = logged c1 ∧ w' = (w1, l ++ calls) ∧ same_setup c c1 ∧ sent c m u b v calls.
Proof.
  intros Hmax. unfold send. cbn [logged distLimiter].
  assert (Hlim : ∃ x w0, match lift <$> distLimiter c with Some limiter => limiter (w, l) | None => (None, (w, l)) end
                         = (x, (w0, l)) ∧ (is_Some x → ¬ calm c u)).
  { destruct (distLimiter c) as [f|] eqn:Hd; cbn; [|by exists None, w; split; [|intros []]].
    unfold lift. cbn. destruct (f w) as [x w0] eqn:Hf. exists x, w0. split; [done|].
    intros [e ->] (_ & Hc & _). specialize (Hc f w Hd). by rewrite Hf in Hc. }
  destruct Hlim as (x & w0 & -> & Hx). destruct x as [e|].
  { intros [= <- <- <-]. exists c, w0, []. rewrite app_nil_r. split_and!; try done.
    split; [simpl; lia|]. split; [done|]. right. split; [constructor|]. by apply Hx. }
  clear Hx. rewrite waitForRateLimit_logged. pose proof (waitForRateLimit_same c w0) as Hs1.
  destruct (waitForRateLimit c w0) as [c1 w1]. cbn [fst] in Hs1.
  destruct (Parse u) as [url|] eqn:Hu.
  2:{ intros [= <- <- <-]. exists c1, w1, []. rewrite app_nil_r. split_and!; try done.
      split; [simpl; lia|]. split; [done|]. right. split; [constructor|].
      intros (_ & _ & _ & Hp). rewrite Hu in Hp. by destruct Hp. }
  rewrite applyAuth_logged. destruct (applyAuth c1 _ w1) as [ar w2] eqn:Ha.
  apply applyAuth_spec in Ha. cbn [rq_Method rq_URL rq_Body] in Ha.
  destruct ar as [req|e|pm].
  2:{ intros [= <- <- <-]. exists c1, w2, []. rewrite app_nil_r. split_and!; try done.
      split; [simpl; lia|]. split; [done|]. right. split; [constructor|].
      intros Hc. apply Ha. by apply (calm_same _ _ _ Hs1) in Hc as (_ & _ & Hc & _). }
  2:{ intros [= <- <- <-]. exists c1, w2, []. rewrite app_nil_r. split_and!; try done.
      split; [simpl; lia|]. done. }
  cbn [logged client]. unfold logged_net. cbn [fst snd].
  destruct (client c1 req w2) as [rsp w3]. destruct rsp as [h|e|pm].
  - rewrite judge_logged. destruct (judge _ _ c1 h w3) as [[v1 c2] w4] eqn:Hj. intros [= <- <- <-].
    apply judge_spec in Hj as [Hs2 Hv]; [|by rewrite <- (max_size_same _ _ Hs1)].
    rewrite <- (max_size_same _ _ Hs1) in Hv.
    exists c2, w4, [(req, Ok h)]. split_and!; [done|done|by etrans|].
    split; [simpl; lia|]. split; [constructor; [exact Ha|constructor]|].
    destruct v1 as [e|[resp|e|pm]]; [by eexists|by eexists _, _| |done].
    destruct Hv as [Hv|(Hv & d & e' & He)]; [left; by eexists|right].
    split; [by constructor|]. intros [Hc _]. rewrite (Hc d w3) in He. done.
  - intros [= <- <- <-]. exists c1, w3, [(req, Err e)]. split_and!; try done.
    split; [simpl; lia|]. split; [constructor; [exact Ha|constructor]|]. by eexists.
  - intros [= <- <- <-]. exists c1, w3, [(req, Panic pm)]. split_and!; try done.
    split; [simpl; lia|]. split; [constructor; [exact Ha|constructor]|]. done.
Qed.

Lemma attempts_logged n a (c : RESTClient W) m u b lastErr (w : W) (l : list exchange) r c' w' :
  max_size c < int64_max →
  attempts json_doc url_error ParseTime n a (logged c) m u b lastErr (w, l) = (r, c', w') →
  ∃ c1 w1 calls, c' = logged c1 ∧ w' = (w1, l ++ calls) ∧ same_setup c c1 ∧ (length calls ≤ n)%nat ∧
    Forall (λ x, is_request m u b x.1) calls ∧
    match r with
    | Ok resp => ∃ pre q h, calls = pre ++ [(q, Ok h)] ∧ Forall (λ x, transient (max_size c) x.2 = true) pre ∧
        answers (max_size c) h resp
    | Err _ => (∃ pre x, calls = pre ++ [x] ∧ Forall (λ x, transient (max_size c) x.2 = true) pre ∧
                  refused (max_size c) x.2 = true) ∨
        (Forall (λ x, transient (max_size c) x.2 = true) calls ∧ (calm c u → length calls = n))
    | Panic _ => True
    end.
Proof.
  revert a c lastErr w l. induction n as [|n IH]; intros a c lastErr w l Hmax; cbn [attempts].
  { intros [= <- <- <-]. exists c, w, []. rewrite app_nil_r. split_and!; try done.
    right. split; [constructor|done]. }
  assert (Hw : ∃ x w0, wait_before (logged c) a (w, l) = (x, (w0, l)) ∧ (is_Some x → ¬ calm c u)).
  { unfold wait_before. destruct (0 <? a); [|by exists None, w; split; [|intros []]].
    cbn [logged backoff select_wait logged_runtime fst snd].
    destruct (select_wait _ w) as [x w0] eqn:Hs. exists x, w0. split; [done|].
    intros [e ->] [Hc _]. specialize (Hc (backoff c *ᵢ f_to_i64 (pow2 (a - 1))) w). by rewrite Hs in Hc. }
  destruct Hw as (x & w0 & -> & Hx). destruct x as [e|].
  { intros [= <- <- <-]. exists c, w0, []. rewrite app_nil_r. split_and!; try done; [simpl; lia|].
    right. split; [constructor|]. intros Hc. by apply Hx in Hc. }
  destruct (send _ _ _ (logged c) m u b (w0, l)) as [[v c1] ws] eqn:Hsend.
  apply send_logged in Hsend as (c2 & w2 & calls & -> & -> & Hs & Hlen & Hreq & Hv); [|done].
  destruct v as [e|r1].
  - destruct Hv as (x & -> & Ht). intros Hrun.
    apply IH in Hrun as (c3 & w3 & calls & -> & -> & Hs3 & Hlen3 & Hreq3 & Hr).
    2:{ by rewrite <- (max_size_same _ _ Hs). }
    rewrite <- (max_size_same _ _ Hs) in Hr.
    exists c3, w3, (x :: calls). rewrite <- app_assoc. cbn [length].
    split_and!; [done|done|by etrans|lia|constructor; [by inversion Hreq|done]|].
    destruct r as [resp|e'|pm]; [| |done].
    + destruct Hr as (pre & q & h & -> & Hpre & Hh). exists (x :: pre), q, h. by split_and!; [|constructor|].
    + destruct Hr as [(pre & y & -> & Hpre & Hy)|[Hall Hc]].
      * left. exists (x :: pre), y. by split_and!; [|constructor|].
      * right. split; [by constructor|]. intros Hcalm. f_equal. apply Hc. by eapply calm_same.
  - intros [= <- <- <-]. exists c2, w2, calls. split_and!; [done|done|done|lia|done|].
    destruct r1 as [resp|e|pm]; [| |done].
    + destruct Hv as (q & h & -> & Hh). exists [], q, h. by split_and!.
    + destruct Hv as [(x & -> & Hx')|[Hall Hn]].
      * left. exists [], x. by split_and!.
      * right. split; [done|]. intros Hc. by apply Hn in Hc.
Qed.
End exchanges.

(** C5: the retries of a call.  All its requests are the same; there are at most
    [maxRetries + 1] of them, and every one but the last came to nothing (no response, an
    unreadable or oversized body, 429, or a server error).  A success is the last response,
    with a status below 400 and its full body; a failure ends in a client error, which is not
    tried again, or has used up all the attempts, unless the context, a limiter, the token
    source or the URL stopped it. *)
Theorem do_request_spec {W} `{Hrt : Runtime W} `{UrlLib} json_doc url_error ParseTime
    (c : RESTClient W) m path body w r c' w' log :
  0 <= maxRetries c → max_size c < int64_max →
  do_request json_doc url_error ParseTime (logged c) m path body (w, []) = (r, c', (w', log)) →
  let limit := max_size c in
  Z.of_nat (length log) <= maxRetries c + 1 ∧
  Forall (λ x, rq_Method x.1 = m ∧ rq_URL x.1 = baseURL c +:+ path ∧ marshal_body body = Ok (rq_Body x.1)) log ∧
  match r with
  | Ok resp => ∃ failed q h, log = failed ++ [(q, Ok h)] ∧
      Forall (λ x, transient limit x.2 = true) failed ∧ answers limit h resp
  | Err _ =>
      (∃ failed x, log = failed ++ [x] ∧ Forall (λ x, transient limit x.2 = true) failed ∧ refused limit x.2 = true) ∨
      (Forall (λ x, transient limit x.2 = true) log ∧
       (calm c (baseURL c +:+ path) → is_ok (marshal_body body) = true → Z.of_nat (length log) = maxRetries c + 1))
  | Panic _ => True
  end.
Proof.
  intros Hr Hmax Hdo limit. unfold do_request in Hdo.
  destruct (marshal_body body) as [b|e|pm] eqn:Hb.
  - apply attempts_logged in Hdo as (c1 & w1 & calls & -> & Hw & _ & Hlen & Hreq & Hres); [|done].
    injection Hw as -> ->. cbn [app logged maxRetries baseURL] in *. rewrite Nat2Z.inj_le in Hlen.
    rewrite Z2Nat.id in Hlen by lia. split; [done|]. split.
    { eapply list.Forall_impl; [exact Hreq|]. intros x (-> & -> & ->). done. }
    destruct r as [resp|e|pm]; [done| |done]. destruct Hres as [Hres|[Hall Hc]]; [by left|right].
    split; [done|]. intros Hcalm _. rewrite (Hc Hcalm). lia.
  - injection Hdo as <- _ _ <-. split; [simpl; lia|]. split; [constructor|]. right. split; [constructor|done].
  - injection Hdo as <- _ _ <-. split; [simpl; lia|]. by split; [constructor|].
Qed.
