(* ===== verification/PagedFetch.v ===== *)
(** * Reading a paginated API: the paginators driven by the client

    [RestClient.FetchAllPages] over the strategies of [Pagination], against servers described by what they
    answer.  An API that serves a list by page number or by offset is read completely; an API
    that repeats a cursor is read forever; an array at the root of a page is lost. *)

From Stdlib Require Import Ascii.
From S2P Require Import Prelude GoStrings Errors Float Value Urls Pagination RestClient.

(** ** A call that succeeds at its first attempt *)

Section first_attempt.
Context {W : Type} `{Hrt : Runtime W} `{Hurl : UrlLib}.
Context (json_doc : string → RawMessage) (url_error : string → error) (ParseTime : string → option Z).

(** No token source and no shared limiter. *)
Definition plain_client (c : RESTClient W) : Prop :=
  tokenSrc c = None ∧ distLimiter c = None ∧ 0 <= maxRetries c ∧ max_size c < int64_max.

Lemma plain_same c c' : same_setup (W := W) c c' → plain_client c → plain_client c'.
Proof.
  intros Hs. unfold plain_client. rewrite (max_size_same _ _ Hs).
  destruct Hs as (_ & _ & -> & _ & -> & _ & ->). done.
Qed.

Definition parsed (h : HTTPResponse) (t : string) : Response :=
  mkResponse (r_StatusCode h) (r_Header h) (if bool_decide (t = "") then None else decode_body json_doc t) t h.

Lemma judge_ok (c : RESTClient W) h t w :
  plain_client c → r_Body h = Ok t → fits (max_size c) t = true → r_StatusCode h < 400 →
  ∃ c', judge json_doc ParseTime c h w = (Return (Ok (parsed h t)), c', w) ∧ same_setup c c'.
Proof.
  intros (_ & _ & _ & Hmax) Ht Hf Hs. unfold judge. rewrite Ht.
  destruct (limit_read_fits (max_size c) t) as [Hl Hfull]; [split; [apply max_size_pos|done]|].
  rewrite Hl, Hf, (Hfull Hf). cbn [negb].
  rewrite (proj2 (Z.eqb_neq _ _)) by lia. rewrite (proj2 (Z.leb_gt 500 _)) by lia.
  rewrite (proj2 (Z.leb_gt 400 _)) by lia. eexists. split; [done|]. apply adaptiveIncrease_same.
Qed.

Lemma do_request_ok (c : RESTClient W) m path body b w (Q : HTTPResponse → string → Prop) :
  plain_client c → marshal_body body = Ok b → is_Some (Parse (baseURL c +:+ path)) →
  (∀ rq w, is_request m (baseURL c +:+ path) b rq → ∃ h t w', client c rq w = (Ok h, w') ∧
     r_Body h = Ok t ∧ fits (max_size c) t = true ∧ r_StatusCode h < 400 ∧ Q h t) →
  ∃ h t c' w', do_request json_doc url_error ParseTime c m path body w = (Ok (parsed h t), c', w') ∧
    same_setup c c' ∧ Q h t.
Proof.
  intros Hp Hb [u Hu] Hnet. pose proof Hp as (Htok & Hlim & Hr & _).
  unfold do_request. rewrite Hb. destruct (Z.to_nat (maxRetries c + 1)) as [|n] eqn:Hn; [lia|].
  cbn [attempts]. unfold wait_before. cbn [Z.ltb Z.compare]. unfold send. rewrite Hlim.
  pose proof (waitForRateLimit_same c w) as Hs1.
  destruct (waitForRateLimit c w) as [c1 w1]. cbn [fst] in Hs1. rewrite Hu.
  destruct (applyAuth c1 _ w1) as [ar w2] eqn:Ha. apply applyAuth_spec in Ha.
  assert (Hok : ∃ req, ar = Ok req).
  { destruct ar; [by eexists|exfalso..]; apply Ha; intros f ?;
      destruct Hs1 as (_ & _ & _ & _ & <- & _); by rewrite Htok. }
  destruct Hok as [req ->].
  assert (Hc : client c1 = client c) by (by destruct Hs1 as (-> & _)). rewrite Hc.
  destruct (Hnet req w2 Ha) as (h & t & w3 & -> & Ht & Hf & Hst & HQ).
  destruct (judge_ok c1 h t w3) as (c2 & -> & Hs2); [by eapply plain_same|done| |done|].
  { by rewrite <- (max_size_same _ _ Hs1). }
  exists h, t, c2, w3. split_and!; [done|by etrans|done].
Qed.
End first_attempt.

(** ** Absolute page URLs *)

(** A page below the base URL of the client is requested by its own URL. *)
Definition absolute (s : string) : bool := HasPrefix s "http://" || HasPrefix s "https://".

Lemma page_path_below {W} (c : RESTClient W) h r :
  absolute h = true → HasPrefix h (baseURL c) = true →
  baseURL c +:+ page_path c (h +:+ r) = h +:+ r.
Proof.
  intros Ha (x & ->)%HasPrefix_inv. unfold page_path.
  assert (Hab : absolute ((baseURL c +:+ x) +:+ r) = true).
  { unfold absolute in *. apply orb_true_iff in Ha. apply orb_true_iff.
    destruct Ha as [Ha|Ha]; [left|right]; apply HasPrefix_inv in Ha as (y & ->); rewrite string_app_assoc;
      apply HasPrefix_app. }
  unfold absolute in Hab. rewrite Hab, string_app_assoc. by rewrite TrimPrefix_app.
Qed.

(** ** Page numbers and offsets *)

(** The results in a page. *)
Definition results (field : string) (body : obj) : list value :=
  match body !! field with Some (VSlice l) => l | _ => [] end.

Section offset.
Context {W : Type} `{Hrt : Runtime W} `{Hul : UrlLaws}.
Context (json_doc : string → RawMessage) (url_error : string → error) (ParseTime : string → option Z).
Context (c0 : RESTClient W) (p0 : OffsetPaginator) (u0 : URL) (records : list value).

(** The index of the first record of the page at a position. *)
Definition first_index (p : OffsetPaginator) (pos : Z) : Z :=
  if op_UseOffset p then pos else (pos - 1) * op_PageSize p.

Definition page_at (p : OffsetPaginator) (pos : Z) : list value :=
  take (Z.to_nat (op_PageSize p)) (drop (Z.to_nat (first_index p pos)) records).

(** The server answers a request for a position with that page, whole and in time. *)
Definition serves_pages : Prop := ∀ rq w pos,
  rq_Method rq = "GET" →
  Values_Get (request_query (rq_URL rq)) (op_PageParam p0) = pretty pos →
  Values_Get (request_query (rq_URL rq)) (op_LimitParam p0) = pretty (op_PageSize p0) →
  0 <= pos →
  ∃ h t w', client c0 rq w = (Ok h, w') ∧ r_Body h = Ok t ∧ fits (max_size c0) t = true ∧ r_StatusCode h < 400 ∧
    t ≠ "" ∧ ∃ body, decode_body json_doc t = Some body ∧ body !! op_ResultsField p0 = Some (VSlice (page_at p0 pos)).

Hypothesis Hplain : plain_client c0.
Hypothesis Hpoll : ∀ w : W, poll w = None.
Hypothesis Hbase : Parse (op_BaseURL p0) = Some u0.
Hypothesis Hbelow : absolute (u_head u0) = true ∧ HasPrefix (u_head u0) (baseURL c0) = true.
Hypothesis Hparams : op_PageParam p0 ≠ op_LimitParam p0.
Hypothesis Hfield : op_ResultsField p0 ≠ "".
Hypothesis Hsize : 0 < op_PageSize p0.
Hypothesis Hsmall : Z.of_nat (length records) + op_PageSize p0 < int64_max.
Hypothesis Hserves : serves_pages.

Lemma offset_next p r b : NextPage (P := OffsetPaginator) p r b = offset_NextPage p r b.
Proof. done. Qed.

(** The paginator in the middle of a run: the settings of [p0] at some position. *)
Definition running (p : OffsetPaginator) : Prop :=
  p = at_position p0 (currentPage p) (currentOffset p).

Lemma fetch_page c p w :
  same_setup c0 c → running p → 0 <= position p →
  ∃ resp c' w' body, Get json_doc url_error ParseTime c (page_path c (offset_buildURL p)) w = (Ok resp, c', w') ∧
    same_setup c0 c' ∧ Body resp = Some body ∧
    body !! op_ResultsField p0 = Some (VSlice (page_at p0 (position p))).
Proof using All.
  intros Hs Hp Hpos. unfold Get.
  assert (Hpb : op_BaseURL p = op_BaseURL p0) by (by rewrite Hp).
  assert (Hpath : baseURL c +:+ page_path c (offset_buildURL p) = offset_buildURL p).
  { unfold offset_buildURL, set_params. rewrite Hpb, Hbase. unfold URL_String, with_query.
    cbn [u_head]. apply page_path_below; [apply Hbelow|]. destruct Hs as (_ & <- & _). apply Hbelow. }
  destruct (do_request_ok json_doc url_error ParseTime c "GET" (page_path c (offset_buildURL p)) None None w
    (λ h t, t ≠ "" ∧ ∃ body, decode_body json_doc t = Some body ∧
       body !! op_ResultsField p0 = Some (VSlice (page_at p0 (position p)))))
    as (h & t & c' & w' & -> & Hs' & Ht & body & Hd & Hb).
  - by eapply plain_same.
  - done.
  - rewrite Hpath. unfold offset_buildURL, set_params. rewrite Hpb, Hbase. by eapply Parse_with_query.
  - intros rq w1 (Hm & Hu & _). rewrite Hpath in Hu.
    rewrite <- (proj1 Hs), <- (max_size_same _ _ Hs).
    apply Hserves; [done| | |done]; rewrite Hu, (offset_query p u0) by (by rewrite Hpb); rewrite Hp; simpl;
      unfold Values_Get, values_of, Values_Set.
    + rewrite lookup_insert_ne by done. by rewrite lookup_insert_eq.
    + by rewrite lookup_insert_eq.
  - exists (parsed json_doc h t), c', w', body. split_and!; [done|by etrans| |done].
    unfold parsed. cbn [Body]. by rewrite bool_decide_false.
Qed.

Lemma countResults_page p body pos :
  running p → body !! op_ResultsField p0 = Some (VSlice (page_at p0 pos)) →
  countResults p body = Z.of_nat (length (page_at p0 pos)).
Proof using Hfield.
  intros Hp Hb. rewrite Hp. unfold countResults. cbn [at_position op_ResultsField].
  rewrite bool_decide_false by done. by rewrite Hb.
Qed.

Lemma page_at_length pos : 0 <= first_index p0 pos →
  Z.of_nat (length (page_at p0 pos)) =
  Z.min (op_PageSize p0) (Z.max 0 (Z.of_nat (length records) - first_index p0 pos)).
Proof using Hsize. intros Hi. unfold page_at. rewrite length_take, length_drop. lia. Qed.

Lemma advance_running p :
  running p → 0 <= first_index p0 (position p) → first_index p0 (position p) <= Z.of_nat (length records) →
  running (advance p) ∧ first_index p0 (position (advance p)) = first_index p0 (position p) + op_PageSize p0.
Proof using Hsize Hsmall.
  intros Hp H0 Hi. rewrite Hp in *. unfold running, advance, position, first_index in *. cbn [at_position op_UseOffset currentPage currentOffset] in *.
  destruct (op_UseOffset p0) eqn:Hu; cbn [at_position op_UseOffset currentPage currentOffset op_PageSize]; rewrite ?Hu.
  - split; [done|]. rewrite i64_id; [done|]. unfold in_i64, int64_min, int64_max in *. lia.
  - split; [done|]. rewrite i64_id; [lia|]. unfold in_i64, int64_min, int64_max in *. nia.
Qed.

Lemma fetch_loop_complete k : ∀ c p acc w fuel,
  same_setup c0 c → running p → 0 <= position p → 0 <= first_index p0 (position p) →
  Z.of_nat k * op_PageSize p0 <= Z.of_nat (length records) - first_index p0 (position p) < (Z.of_nat k + 1) * op_PageSize p0 →
  (k + 1 < fuel)%nat →
  ∃ pages c' p' w', fetch_loop json_doc url_error ParseTime fuel c p (offset_buildURL p, true) acc w
                    = Some (acc ++ pages, Ok tt, c', p', w') ∧ length pages = S k ∧
    concat (map (results (op_ResultsField p0)) pages) = drop (Z.to_nat (first_index p0 (position p))) records.
Proof using All.
  induction k as [|k IH]; intros c p acc w fuel Hs Hp Hpos Hi Hk Hfuel;
    (destruct fuel as [|fuel]; [lia|]); cbn [fetch_loop fst snd negb]; rewrite Hpoll;
    destruct (fetch_page c p w Hs Hp Hpos) as (resp & c1 & w1 & body & -> & Hs1 & Hbody & Hres);
    assert (Hbm : body_map resp = body) by (unfold body_map; by rewrite Hbody);
    rewrite Hbm, Hbody;
    pose proof (page_at_length (position p) Hi) as Hlen;
    assert (Hst : op_started p = true) by (by rewrite Hp);
    assert (Hn : op_PageSize p = op_PageSize p0) by (by rewrite Hp);
    rewrite offset_next; unfold offset_NextPage; rewrite Hst; cbn [negb];
    rewrite (countResults_page p body _ Hp Hres), Hn, Hlen.
  - rewrite (proj2 (Z.ltb_lt _ _)) by lia. destruct fuel as [|fuel]; [lia|]. cbn [fetch_loop fst snd negb].
    exists [body], c1, p, w1. split_and!; [done|done|]. cbn [map concat]. rewrite app_nil_r.
    unfold results. rewrite Hres. unfold page_at. rewrite take_ge; [done|]. rewrite length_drop. lia.
  - rewrite (proj2 (Z.ltb_ge _ _)) by lia. cbv beta iota zeta.
    destruct (advance_running p Hp Hi) as [Hp' Hi']; [lia|].
    destruct (IH c1 (advance p) (acc ++ [body]) w1 fuel) as (pages & c2 & p2 & w2 & Hrun & Hlp & Hcat);
      try done; try lia.
    { unfold first_index in *. destruct (op_UseOffset p0); [lia|nia]. }
    exists (body :: pages), c2, p2, w2. rewrite Hrun, <- app_assoc. split_and!; [done|cbn [length]; lia|].
    cbn [map concat]. rewrite Hcat, Hi'. unfold results at 1. rewrite Hres. unfold page_at.
    rewrite Z2Nat.inj_add, <- drop_drop by lia. apply take_drop.
Qed.

(** C4: an API that serves a list page by page, by page number or by offset, is read to its end:
    the collected pages hold every record once and in order, and the number of requests is
    the number of full pages and one more. *)
Theorem FetchAllPages_complete c w fuel :
  same_setup c0 c → op_started p0 = false →
  Z.of_nat (length records) / op_PageSize p0 + 2 <= Z.of_nat fuel →
  ∃ pages c' p' w',
    FetchAllPages json_doc url_error ParseTime fuel c p0 w = Some (pages, Ok tt, c', p', w') ∧
    concat (map (results (op_ResultsField p0)) pages) = records ∧
    Z.of_nat (length pages) = Z.of_nat (length records) / op_PageSize p0 + 1.
Proof using All.
  intros Hs Hst Hfuel. unfold FetchAllPages. rewrite offset_next. unfold offset_NextPage.
  rewrite Hst. cbn [negb]. set (p := at_position p0 1 0).
  assert (Hi : first_index p0 (position p) = 0).
  { unfold first_index, position, p. cbn. destruct (op_UseOffset p0) eqn:Hu; rewrite ?Hu; lia. }
  pose proof (Z.div_pos (Z.of_nat (length records)) (op_PageSize p0)) as Hd.
  pose proof (Z.mul_div_le (Z.of_nat (length records)) (op_PageSize p0) Hsize) as Hlo.
  pose proof (Z.mul_succ_div_gt (Z.of_nat (length records)) (op_PageSize p0) Hsize) as Hhi.
  destruct (fetch_loop_complete (Z.to_nat (Z.of_nat (length records) / op_PageSize p0)) c p [] w fuel)
    as (pages & c' & p' & w' & -> & Hlen & Hcat); rewrite ?Hi; try done; try lia.
  { unfold position, p. cbn. by destruct (op_UseOffset p0). }
  exists pages, c', p', w'. split_and!; [done|by rewrite Hcat, Hi|]. rewrite Hlen. lia.
Qed.
End offset.

(** ** Shortfalls *)

Section shortfalls.
Context {W : Type} `{Hrt : Runtime W} `{Hul : UrlLaws}.
Context (json_doc : string → RawMessage) (url_error : string → error) (ParseTime : string → option Z).

Section same_answer.
Context (c0 : RESTClient W) (h : HTTPResponse) (t : string).

(** The server gives the same answer to every request of the method. *)
Definition always (m : string) : Prop := ∀ rq w, rq_Method rq = m → ∃ w', client c0 rq w = (Ok h, w').

Hypothesis Hplain : plain_client c0.
Hypothesis Hpoll : ∀ w : W, poll w = None.
Hypothesis Hbody : r_Body h = Ok t ∧ fits (max_size c0) t = true ∧ r_StatusCode h < 400.

Lemma always_do c m path body b w :
  same_setup c0 c → always m → marshal_body body = Ok b → is_Some (Parse (baseURL c +:+ path)) →
  ∃ c' w', do_request json_doc url_error ParseTime c m path body w = (Ok (parsed json_doc h t), c', w') ∧ same_setup c0 c'.
Proof using Hplain Hbody.
  intros Hs Ha Hb Hu.
  destruct (do_request_ok json_doc url_error ParseTime c m path body b w (λ h' t', h' = h ∧ t' = t))
    as (h' & t' & c' & w' & -> & Hs' & -> & ->); [by eapply plain_same|done|done| |].
  - intros rq w1 (Hm & _). destruct (Ha rq w1 Hm) as [w' Hc]. exists h, t, w'.
    rewrite <- (proj1 Hs), <- (max_size_same _ _ Hs). destruct Hbody as (? & ? & ?). done.
  - exists c', w'. split; [done|]. by etrans.
Qed.
End same_answer.

Section repeated.
Context (c0 : RESTClient W) (h : HTTPResponse) (t : string) (body : obj) (p0 : CursorPaginator) (u0 : URL).
Hypothesis Hplain : plain_client c0.
Hypothesis Hpoll : ∀ w : W, poll w = None.
Hypothesis Hanswer : r_Body h = Ok t ∧ fits (max_size c0) t = true ∧ r_StatusCode h < 400.
Hypothesis Hdoc : t ≠ "" ∧ decode_body json_doc t = Some body.
Hypothesis Hbase : Parse (cp_BaseURL p0) = Some u0.
Hypothesis Hbelow : absolute (u_head u0) = true ∧ HasPrefix (u_head u0) (baseURL c0) = true.

Lemma parsed_body : Body (parsed json_doc h t) = Some body.
Proof using Hdoc. unfold parsed. cbn [Body]. destruct Hdoc. by rewrite bool_decide_false. Qed.

Lemma cursor_page c cursor w :
  same_setup c0 c → always c0 h "GET" →
  ∃ c' w', Get json_doc url_error ParseTime c (page_path c (cursor_buildURL (cursor_start p0) cursor)) w
           = (Ok (parsed json_doc h t), c', w') ∧ same_setup c0 c'.
Proof using Hplain Hanswer Hbase Hbelow Hul.
  intros Hs Ha. eapply always_do; [done..| |]; [done|].
  unfold cursor_buildURL, set_params. cbn [cursor_start cp_BaseURL]. rewrite Hbase.
  unfold URL_String at 1, with_query. cbn [u_head].
  rewrite page_path_below; [|apply Hbelow|destruct Hs as (_ & <- & _); apply Hbelow].
  by eapply (Parse_with_query (cp_BaseURL p0)).
Qed.

Lemma repeated_cursor_loop cursor : ∀ fuel c acc w,
  same_setup c0 c → always c0 h "GET" → extractNestedString body (cp_CursorField p0) ≠ "" →
  cp_HasMoreField p0 = "" ∨ extractNestedBool body (cp_HasMoreField p0) = true →
  fetch_loop json_doc url_error ParseTime fuel c (cursor_start p0) (cursor_buildURL (cursor_start p0) cursor, true) acc w = None.
Proof using All.
  intros fuel. revert cursor.
  induction fuel as [|fuel IH]; intros cursor c acc w Hs Ha Hcur Hmore; [done|].
  cbn [fetch_loop fst snd negb]. rewrite Hpoll.
  destruct (cursor_page c cursor w Hs Ha) as (c' & w' & -> & Hs'). rewrite parsed_body.
  change (NextPage (cursor_start p0)) with (cursor_NextPage (cursor_start p0)).
  assert (Hb : body_map (parsed json_doc h t) = body) by (unfold body_map; by rewrite parsed_body).
  rewrite Hb. unfold cursor_NextPage. cbn [cursor_start cp_started negb cp_CursorField cp_HasMoreField].
  rewrite bool_decide_false by done.
  assert (Hm : negb (bool_decide (cp_HasMoreField p0 = "")) && negb (extractNestedBool body (cp_HasMoreField p0)) = false).
  { destruct Hmore as [->| ->]; [done|]. apply andb_false_r. }
  rewrite Hm. fold (cursor_start p0). by apply IH.
Qed.
End repeated.
End shortfalls.

(** An API that answers every request with the same next cursor is read forever by
    [FetchAllPages]: no amount of fuel suffices.  [FetchAllPagesPost], which compares the cursor
    with the previous one, stops after the second such page. *)
Theorem repeated_cursor_never_ends {W} `{Hrt : Runtime W} `{Hul : UrlLaws} json_doc url_error ParseTime
    (c : RESTClient W) h t body (p : CursorPaginator) u path buildBody :
  plain_client c → (∀ w : W, poll w = None) →
  r_Body h = Ok t ∧ fits (max_size c) t = true ∧ r_StatusCode h < 400 →
  t ≠ "" ∧ decode_body json_doc t = Some body →
  Parse (cp_BaseURL p) = Some u → absolute (u_head u) = true ∧ HasPrefix (u_head u) (baseURL c) = true →
  always c h "GET" → always c h "POST" → is_Some (Parse (baseURL c +:+ path)) →
  (∀ cursor, is_ok (marshal_body (buildBody cursor)) = true) →
  cp_started p = false → cp_HasMoreField p = "" → extractNestedString body (cp_CursorField p) ≠ "" →
  (∀ fuel w, FetchAllPages json_doc url_error ParseTime fuel c p w = None) ∧
  (∀ fuel w, ∃ c' w', FetchAllPagesPost json_doc url_error ParseTime (S (S fuel)) c path buildBody (cp_CursorField p) w
     = Some ([body; body], Ok tt, c', w')).
Proof.
  intros Hplain Hpoll Hanswer Hdoc Hbase Hbelow Hget Hpost Hpath Hbuild Hst Hmore Hcur. split.
  - intros fuel w. unfold FetchAllPages. change (NextPage p) with (cursor_NextPage p).
    unfold cursor_NextPage. rewrite Hst. cbn [negb].
    eapply (repeated_cursor_loop json_doc url_error ParseTime c h t body p u); try done. by left.
  - intros fuel w. unfold FetchAllPagesPost. cbn [post_loop]. rewrite Hpoll.
    pose proof (parsed_body json_doc h t body Hdoc) as Hpb.
    assert (Hb : body_map (parsed json_doc h t) = body) by (unfold body_map; by rewrite Hpb).
    destruct (marshal_body (buildBody "")) as [b1| |] eqn:Hb1; [|by specialize (Hbuild ""); rewrite Hb1 in Hbuild..].
    destruct (always_do json_doc url_error ParseTime c h t Hplain Hanswer c "POST" path (buildBody "") b1 w)
      as (c1 & w1 & Hd1 & Hs1); [done..|].
    unfold Post. rewrite Hd1. rewrite Hpb, Hb. set (cur := extractNestedString _ _).
    rewrite (bool_decide_false (cur = "")) by done. cbn [orb].
    destruct (marshal_body (buildBody cur)) as [b2| |] eqn:Hb2; [|by specialize (Hbuild cur); rewrite Hb2 in Hbuild..].
    destruct (always_do json_doc url_error ParseTime c h t Hplain Hanswer c1 "POST" path (buildBody cur) b2 w1)
      as (c2 & w2 & Hd2 & Hs2); [done..| |]; [by destruct Hs1 as (_ & <- & _)|].
    rewrite Hpoll, Hd2, Hpb, Hb.
    fold cur. rewrite (bool_decide_false (cur = "")), (bool_decide_true (cur = cur)) by done.
    by exists c2, w2.
Qed.

(** A list that is the root of the answer is lost.  With no results field, which is documented as
    the root being the list, one page is requested, its records appear nowhere, and no
    error is reported. *)
Theorem root_array_lost {W} `{Hrt : Runtime W} `{Hul : UrlLaws} json_doc url_error ParseTime
    (c : RESTClient W) h t l (p : OffsetPaginator) u :
  plain_client c → (∀ w : W, poll w = None) →
  r_Body h = Ok t ∧ fits (max_size c) t = true ∧ r_StatusCode h < 400 → json_doc t = RawDoc (JArr l) →
  Parse (op_BaseURL p) = Some u → absolute (u_head u) = true ∧ HasPrefix (u_head u) (baseURL c) = true →
  always c h "GET" → op_started p = false → op_ResultsField p = "" → 0 < op_PageSize p →
  ∀ fuel w, ∃ c' p' w', FetchAllPages json_doc url_error ParseTime (S (S fuel)) c p w = Some ([], Ok tt, c', p', w').
Proof.
  intros Hplain Hpoll Hanswer Hdoc Hbase Hbelow Hget Hst Hfield Hsize fuel w.
  unfold FetchAllPages. change (NextPage p) with (offset_NextPage p). unfold offset_NextPage at 1.
  rewrite Hst. cbn [negb fetch_loop fst snd]. rewrite Hpoll.
  destruct (always_do json_doc url_error ParseTime c h t Hplain Hanswer c "GET"
              (page_path c (offset_buildURL (at_position p 1 0))) None None w) as (c1 & w1 & Hd & _); [done..| |].
  { unfold offset_buildURL, set_params. cbn [at_position op_BaseURL]. rewrite Hbase.
    unfold URL_String at 1, with_query. cbn [u_head]. rewrite page_path_below by apply Hbelow.
    by eapply (Parse_with_query (op_BaseURL p)). }
  unfold Get. rewrite Hd.
  assert (Hb : Body (parsed json_doc h t) = None).
  { unfold parsed. cbn [Body]. case_bool_decide; [done|]. unfold decode_body. by rewrite Hdoc. }
  unfold body_map. rewrite Hb. cbn [default].
  change (NextPage (at_position p 1 0)) with (offset_NextPage (at_position p 1 0)).
  unfold offset_NextPage. cbn [at_position op_started negb]. unfold countResults. cbn [at_position op_ResultsField op_PageSize].
  rewrite bool_decide_true by done. rewrite (proj2 (Z.ltb_lt _ _)) by done. by eexists _, _, _.
Qed.

(** Requests are spaced: with a rate limit, the call that follows takes note of a time at least
    one interval after the previous one. *)
Theorem waitForRateLimit_spacing {W} `{Hrt : Runtime W} `{!RuntimeLaws W} (c : RESTClient W) w :
  f_leb (rateLimit c) (f_of_Z 0) = false → lastReq c <= clock_of w →
  let '(c', w') := waitForRateLimit c w in
  lastReq c + minInterval c <= lastReq c' ∧ lastReq c' = clock_of w' ∧ same_setup c c'.
Proof.
  intros Hr Hc. unfold waitForRateLimit. rewrite Hr. cbn [with_lastReq lastReq].
  assert (Hmin : minInterval c <= int64_max).
  { pose proof (f_to_i64_range (f_div (f_of_Z second) (rateLimit c))) as H. unfold minInterval, in_i64 in *. lia. }
  split_and!; [|done|apply same_with_lastReq].
  assert (Hel : 0 <= time_sub (clock_of w) (lastReq c) <= clock_of w - lastReq c ∧
     (time_sub (clock_of w) (lastReq c) = clock_of w - lastReq c ∨ time_sub (clock_of w) (lastReq c) = int64_max)).
  { unfold time_sub, int64_min, int64_max in *. destruct (Z.ltb_spec (clock_of w - lastReq c) (-9223372036854775808)); [lia|].
    destruct (Z.ltb_spec 9223372036854775807 (clock_of w - lastReq c)); lia. }
  destruct Hel as [Hel Hor].
  destruct (Z.ltb_spec (time_sub (clock_of w) (lastReq c)) (minInterval c)).
  - rewrite i64_id by (unfold in_i64, int64_min, int64_max in *; lia).
    pose proof (sleep_time (minInterval c - time_sub (clock_of w) (lastReq c)) w). lia.
  - lia.
Qed.

(** ** Concrete runs *)

(** A world that is its clock. *)
#[local] Instance clock_runtime : Runtime Z := {
  clock_of w := w; sleep d w := w + Z.max 0 d; select_wait d w := (None, w + Z.max 0 d); poll w := None
}.
#[local] Instance clock_laws : RuntimeLaws Z.
Proof. split. intros d w Hd. simpl. lia. Qed.

(** A URL library for texts that need no change. *)
#[local] Instance plain_urls : UrlLib := {
  url_head h := if bool_decide ("?"%char ∉ bytes_of h ∧ "#"%char ∉ bytes_of h) && negb (existsb is_ctl (bytes_of h))
                then Some h else None;
  url_fragment f := Some f
}.
#[local] Instance plain_laws : UrlLaws.
Proof.
  split; [|done]. intros raw h. cbn [url_head plain_urls].
  destruct (bool_decide _ && _) eqn:Hb; [|done]. intros [= <-]. rewrite Hb.
  apply andb_true_iff in Hb as [Hb Hc]. apply bool_decide_eq_true in Hb as [Hq Hh].
  apply negb_true_iff in Hc. done.
Qed.

Definition resp200 (t : string) : HTTPResponse := mkHTTPResponse 200 ∅ (Ok t).
Definition no_url_error (s : string) : error := ErrText s.
Definition no_time (s : string) : option Z := None.

(** Three records by offset, two to a page. *)
Definition three_records : list value := [VString "r0"; VString "r1"; VString "r2"].
Definition page_doc (l : list string) : RawMessage := RawDoc (JObj [("results", JArr (map JStr l))]).
Definition three_docs (t : string) : RawMessage :=
  if bool_decide (t = "a") then page_doc ["r0"; "r1"] else if bool_decide (t = "b") then page_doc ["r1"; "r2"]
  else if bool_decide (t = "c") then page_doc ["r2"] else page_doc [].
Definition three_net (rq : Request) (w : Z) : res HTTPResponse * Z :=
  let v := Values_Get (request_query (rq_URL rq)) "offset" in
  (Ok (resp200 (if bool_decide (v = "0") then "a" else if bool_decide (v = "1") then "b"
                else if bool_decide (v = "2") then "c" else "d")), w + 1).
Definition by_offset : OffsetPaginator :=
  mkOffsetPaginator "https://api.test/items?sort=id" "offset" "limit" 2 "results" true 0 0 false.
Definition api_client (net : Request → Z → res HTTPResponse * Z) : RESTClient Z :=
  NewRESTClient net "https://api.test/" [].

Lemma three_net_serves : serves_pages three_docs (api_client three_net) by_offset three_records.
Proof.
  intros rq w pos _ Hpos _ H0. cbn [api_client NewRESTClient foldl client]. unfold three_net.
  cbn [by_offset op_PageParam] in Hpos. rewrite Hpos.
  assert (Hp : ∀ z, (pretty pos = pretty z) ↔ pos = z).
  { intros z. split; [by intros ?%(inj pretty)|by intros ->]. }
  assert (Hcase : pos = 0 ∨ pos = 1 ∨ pos = 2 ∨ 2 < pos) by lia.
  destruct Hcase as [->|[->|[->|Hbig]]].
  1-3: eexists _, _, _; split_and!; try (vm_compute; reflexivity); [done|eexists; split; vm_compute; reflexivity].
  change "0" with (pretty 0). change "1" with (pretty 1). change "2" with (pretty 2).
  rewrite !bool_decide_false by (rewrite Hp; lia).
  eexists _, _, _; split_and!; try (vm_compute; reflexivity); [done|]. eexists. split; [vm_compute; reflexivity|].
  unfold page_at, first_index. cbn [by_offset op_UseOffset]. rewrite drop_ge by (simpl; lia). vm_compute. reflexivity.
Qed.

Lemma FetchAllPages_complete_witness :
  ∃ pages c' p' w',
    FetchAllPages three_docs no_url_error no_time 3 (api_client three_net) by_offset 0 = Some (pages, Ok tt, c', p', w') ∧
    concat (map (results "results") pages) = three_records ∧ Z.of_nat (length pages) = 2.
Proof.
  eapply (FetchAllPages_complete three_docs no_url_error no_time (api_client three_net) by_offset
            (mkURL "https://api.test/items" false "sort=id" "") three_records).
  - split_and!; [done..|vm_compute; done|vm_compute; done].
  - done.
  - vm_compute. reflexivity.
  - split; vm_compute; reflexivity.
  - done.
  - done.
  - done.
  - vm_compute. reflexivity.
  - exact three_net_serves.
  - done.
  - done.
  - vm_compute. discriminate.
Defined.

(** An API that gives the same cursor again and again. *)
Definition cursor_docs (t : string) : RawMessage := RawDoc (JObj [("next", JStr "abc"); ("results", JArr [])]).
Definition same_net (t : string) (rq : Request) (w : Z) : res HTTPResponse * Z := (Ok (resp200 t), w + 1).
Definition by_cursor : CursorPaginator :=
  mkCursorPaginator "https://api.test/items" "cursor" "next" "" 0 "" false.
Definition cursor_page_body : obj := {[ "next" := VString "abc"; "results" := VSlice [] ]}.

Lemma repeated_cursor_never_ends_witness :
  FetchAllPages cursor_docs no_url_error no_time 1000 (api_client (same_net "x")) by_cursor 0 = None ∧
  ∃ c' w', FetchAllPagesPost cursor_docs no_url_error no_time 2 (api_client (same_net "x")) "/search" (λ _, None) "next" 0
    = Some ([cursor_page_body; cursor_page_body], Ok tt, c', w').
Proof.
  destruct (repeated_cursor_never_ends cursor_docs no_url_error no_time (api_client (same_net "x")) (resp200 "x") "x"
    cursor_page_body by_cursor (mkURL "https://api.test/items" false "" "") "/search" (λ _, None)) as [H1 H2].
  - split_and!; [done..|vm_compute; done|vm_compute; done].
  - done.
  - split_and!; vm_compute; reflexivity.
  - split; [done|vm_compute; reflexivity].
  - vm_compute. reflexivity.
  - split; vm_compute; reflexivity.
  - intros rq w _. by exists (w + 1).
  - intros rq w _. by exists (w + 1).
  - vm_compute. by eexists.
  - done.
  - done.
  - done.
  - vm_compute. discriminate.
  - split; [apply H1|apply (H2 0%nat)].
Defined.

Definition array_docs (t : string) : RawMessage := RawDoc (JArr [JObj [("id", JStr "r0")]]).
Definition root_pages : OffsetPaginator :=
  mkOffsetPaginator "https://api.test/items" "page" "limit" 1 "" false 0 0 false.

Lemma root_array_lost_witness :
  ∃ c' p' w', FetchAllPages array_docs no_url_error no_time 2 (api_client (same_net "x")) root_pages 0
    = Some ([], Ok tt, c', p', w').
Proof.
  apply (root_array_lost array_docs no_url_error no_time (api_client (same_net "x")) (resp200 "x") "x"
    [JObj [("id", JStr "r0")]] root_pages (mkURL "https://api.test/items" false "" "")).
  - split_and!; [done..|vm_compute; done|vm_compute; done].
  - done.
  - split_and!; vm_compute; reflexivity.
  - done.
  - vm_compute. reflexivity.
  - split; vm_compute; reflexivity.
  - intros rq w _. by exists (w + 1).
  - done.
  - done.
  - done.
Defined.

(** At 10 requests in a second the interval is 100 milliseconds. *)
Definition ten_per_second : RESTClient Z :=
  with_lastReq (NewRESTClient (same_net "x") "https://api.test" [WithRateLimit (f_of_Z 10)]) 1000.

Lemma waitForRateLimit_spacing_witness :
  minInterval ten_per_second = 100 * millisecond ∧
  let '(c', w') := waitForRateLimit ten_per_second 5000 in
  lastReq ten_per_second + minInterval ten_per_second <= lastReq c' ∧ lastReq c' = clock_of w' ∧ same_setup ten_per_second c'.
Proof.
  split; [vm_compute; reflexivity|].
  apply (waitForRateLimit_spacing ten_per_second 5000); [vm_compute; reflexivity|vm_compute; discriminate].
Defined.

(** A server that fails twice before it answers. *)
Definition flaky_net (rq : Request) (w : Z) : res HTTPResponse * Z :=
  (Ok (if w <? second then mkHTTPResponse 503 ∅ (Ok "busy") else resp200 "x"), w).

Lemma flaky_run :
  (let '(r, _, (_, log)) := do_request array_docs no_url_error no_time (logged (api_client flaky_net)) "GET" "/items" None (0, [])
   in (r, map (λ x, is_ok x.2) log, length log)) = (Ok (mkResponse 200 ∅ None "x" (resp200 "x")), [true; true; true], 3%nat).
Proof. vm_compute. reflexivity. Qed.

Lemma do_request_spec_witness :
  ∃ c' w' log, do_request array_docs no_url_error no_time (logged (api_client flaky_net)) "GET" "/items" None (0, [])
               = (Ok (mkResponse 200 ∅ None "x" (resp200 "x")), c', (w', log)) ∧
    length log = 3%nat ∧ Z.of_nat (length log) <= maxRetries (api_client flaky_net) + 1.
Proof.
  destruct (do_request _ _ _ _ _ _ _ _) as [[r c'] [w' log]] eqn:Hd.
  pose proof flaky_run as Hrun. rewrite Hd in Hrun. injection Hrun as -> _ Hlen.
  exists c', w', log. split; [reflexivity|]. split; [exact Hlen|].
  apply (do_request_spec array_docs no_url_error no_time (api_client flaky_net) "GET" "/items" None 0 (Ok (mkResponse 200 ∅ None "x" (resp200 "x"))) c' w' log);
    [discriminate|reflexivity|exact Hd].
Defined.

(** A limit on a call that is the largest integer reads nothing of any body. *)
Example max_size_overflow : limit_read (int64_max +ᵢ 1) "{}" = "".
Proof. vm_compute. reflexivity. Qed.

(** On 429, the rate of a client configured for one request in five seconds goes up. *)
Example adaptive_rate_rises :
  let c := NewRESTClient (W := Z) (same_net "x") "https://api.test" [WithAdaptiveRateLimit (f_of_dec 2 (-1))] in
  f_ltb (rateLimit c) (rateLimit (adaptiveDecrease c)) = true.
Proof. vm_compute. reflexivity. Qed.

(** The next page of a link header on another host is requested below the base URL. *)
Example other_host :
  let c := api_client (same_net "x") in
  baseURL c +:+ page_path c "https://eu.api.test/items?page=2" = "https://api.testhttps://eu.api.test/items?page=2".
Proof. vm_compute. reflexivity. Qed.

(** A null cursor is read as text. *)
Example null_cursor :
  (cursor_NextPage (cursor_start by_cursor) None {[ "next" := VNil ]}).2
  = ("https://api.test/items?cursor=%3Cnil%3E", true).
Proof. vm_compute. reflexivity. Qed.
