(* ===== verification/RestConnector.v ===== *)
(** * What the REST connectors share

    [connectors/common/oauth.go], and the code that HubSpot, Zendesk, Intercom, Gong, Chorus and Salesforce have a copy of each:
    the loop over the streams of a catalog, the loop over the pages of a stream ([read_pages], with what
    differs in a record [paging]), the buffers of a write ([write_message] and [write_rest] around a
    [flush]), conflicts and display names.  The output channel is the list of messages sent; a message carries the time
    of the world at which it was built.  A connector that ranges over a map (stream definitions,
    write buffers) does so in the order of the keys.  Token refreshing of the OAuth library and the texts of
    decoding errors of [encoding/json] are parameters. *)

From Stdlib Require Import Ascii.
From S2P Require Import Prelude GoStrings Errors Float Value Protocol JsonDecode Urls Pagination RestClient PagedFetch.

(** ** OAuth credentials: [connectors/common/oauth.go] *)

Record OAuthConfig := mkOAuthConfig {
  oc_ClientID : string; oc_ClientSecret : string; oc_RefreshToken : string; oc_AccessToken : string;
  oc_TokenURL : string; oc_AuthURL : string; oc_Scopes : list string; oc_Extra : gmap string string
}.
Definition empty_oauth : OAuthConfig := mkOAuthConfig "" "" "" "" "" "" [] ∅.

Definition with_TokenURL (oc : OAuthConfig) (u : string) : OAuthConfig :=
  mkOAuthConfig (oc_ClientID oc) (oc_ClientSecret oc) (oc_RefreshToken oc) (oc_AccessToken oc) u (oc_AuthURL oc)
    (oc_Scopes oc) (oc_Extra oc).
(** The URL of the tokens, unless the configuration has one. *)
Definition default_token_url (u : string) (oc : OAuthConfig) : OAuthConfig :=
  if bool_decide (oc_TokenURL oc = "") then with_TokenURL oc u else oc.

Section decode.
Context (type_error : string → json → error).   (** the error for a field that has another type *)

Definition oauth_member (acc : OAuthConfig * option error) (e : string * json) : OAuthConfig * option error :=
  let '(oc, err) := acc in
  let '(k, j) := e in
  let set old f := let '(s, err) := string_member type_error k old j err in (f s, err) in
  if key_matches "client_id" k then set (oc_ClientID oc) (λ s, mkOAuthConfig s (oc_ClientSecret oc) (oc_RefreshToken oc)
    (oc_AccessToken oc) (oc_TokenURL oc) (oc_AuthURL oc) (oc_Scopes oc) (oc_Extra oc))
  else if key_matches "client_secret" k then set (oc_ClientSecret oc) (λ s, mkOAuthConfig (oc_ClientID oc) s (oc_RefreshToken oc)
    (oc_AccessToken oc) (oc_TokenURL oc) (oc_AuthURL oc) (oc_Scopes oc) (oc_Extra oc))
  else if key_matches "refresh_token" k then set (oc_RefreshToken oc) (λ s, mkOAuthConfig (oc_ClientID oc) (oc_ClientSecret oc) s
    (oc_AccessToken oc) (oc_TokenURL oc) (oc_AuthURL oc) (oc_Scopes oc) (oc_Extra oc))
  else if key_matches "access_token" k then set (oc_AccessToken oc) (λ s, mkOAuthConfig (oc_ClientID oc) (oc_ClientSecret oc)
    (oc_RefreshToken oc) s (oc_TokenURL oc) (oc_AuthURL oc) (oc_Scopes oc) (oc_Extra oc))
  else if key_matches "token_url" k then set (oc_TokenURL oc) (λ s, mkOAuthConfig (oc_ClientID oc) (oc_ClientSecret oc)
    (oc_RefreshToken oc) (oc_AccessToken oc) s (oc_AuthURL oc) (oc_Scopes oc) (oc_Extra oc))
  else if key_matches "auth_url" k then set (oc_AuthURL oc) (λ s, mkOAuthConfig (oc_ClientID oc) (oc_ClientSecret oc)
    (oc_RefreshToken oc) (oc_AccessToken oc) (oc_TokenURL oc) s (oc_Scopes oc) (oc_Extra oc))
  else if key_matches "scopes" k then
    let '(scopes, err) := list_member type_error (string_member type_error k "") k (oc_Scopes oc) j err in
    (mkOAuthConfig (oc_ClientID oc) (oc_ClientSecret oc) (oc_RefreshToken oc) (oc_AccessToken oc) (oc_TokenURL oc)
       (oc_AuthURL oc) scopes (oc_Extra oc), err)
  else if key_matches "extra" k then
    let '(extra, err) := map_member type_error (string_member type_error k "") k (oc_Extra oc) j err in
    (mkOAuthConfig (oc_ClientID oc) (oc_ClientSecret oc) (oc_RefreshToken oc) (oc_AccessToken oc) (oc_TokenURL oc)
       (oc_AuthURL oc) (oc_Scopes oc) extra, err)
  else acc.

(** A member that is a pointer to credentials. *)
Definition oauth_pointer (k : string) (old : option OAuthConfig) (j : json) (err : option error) : option OAuthConfig * option error :=
  match j with
  | JNull => (None, err)
  | _ => let '(oc, err) := struct_member type_error oauth_member k (default empty_oauth old) j err in (Some oc, err)
  end.

(** The only text member [field] of a stored state, or the empty text. *)
Definition state_text (field : string) (raw : option RawMessage) : string :=
  match raw with
  | None => ""
  | Some raw =>
      match unmarshal_struct type_error "" (λ acc e, if key_matches field e.1
                                          then string_member type_error e.1 acc.1 e.2 acc.2 else acc) raw with
      | Ok s => s
      | _ => ""
      end
  end.

(** The property names of a JSON schema; [None] is a nil slice. *)
Definition extractPropertyNames (schema : RawMessage) : option (list string) :=
  match unmarshal_struct type_error (None : option obj)
          (λ acc e, if key_matches "properties" e.1 then
                      match e.2 with
                      | JNull => (None, acc.2)
                      | JObj l => match objO jvalue l (default ∅ acc.1) with
                                  | Some m => (Some m, acc.2)
                                  | None => (acc.1, note acc.2 err_number)
                                  end
                      | j => (acc.1, note acc.2 (type_error e.1 j))
                      end
                    else acc) schema with
  | Ok (Some m) => Some (sorted_entries m).*1
  | _ => None
  end.

Definition ParseOAuthConfig (config : RawMessage) : res OAuthConfig :=
  match unmarshal_struct type_error None (λ acc e, if key_matches "oauth" e.1
                                     then oauth_pointer e.1 acc.1 e.2 acc.2 else acc) config with
  | Ok (Some oc) => Ok oc
  | _ =>
      match unmarshal_struct type_error empty_oauth oauth_member config with
      | Ok oc => if bool_decide (oc_ClientID oc = "") && bool_decide (oc_AccessToken oc = "")
                 then Err (ErrText "OAuth config requires at least client_id or access_token") else Ok oc
      | Err e => Err (ErrWrapf "failed to parse OAuth config" e)
      | Panic m => Panic m
      end
  end.
End decode.

(** ** Records, schemas, names *)

Definition marshal_or_empty (m : obj) : RawMessage := match marshal_map m with Ok d => d | _ => RawEmpty end.

Definition item_message (stream : string) (now : Z) (rec : obj) : Message :=
  record_message (mkRec stream "" (marshal_or_empty rec) now).

(** The array under a key. *)
Definition extractArray (body : obj) (key : string) : list value :=
  match body !! key with Some (VSlice l) => l | _ => [] end.
(** The objects among the items of a page. *)
Definition page_objects (items : list value) : list obj := omap (λ v, match v with VMap rec => Some rec | _ => None end) items.
Definition vtext (v : option value) : string := match v with Some (VString s) => s | _ => "" end.

(** Comparison of strings by bytes, as [>] does. *)
Definition str_gt (a b : string) : bool := negb (String.leb a b).
(** The larger of a text and the text that a record has in a field. *)
Definition later_text (field : string) (cur : string) (rec : obj) : string :=
  match rec !! field with Some (VString t) => if str_gt t cur then t else cur | _ => cur end.

Definition error_log (stream : string) (e : error) (now : Z) : Message :=
  mkMessage MessageTypeLog None None None
    (Some (mkLog LogLevelError ("Error reading stream " +:+ stream +:+ ": " +:+ Error e) now RawEmpty)) None None None None.

(** The state of a stream with one text; nothing when the text is empty. *)
Definition text_state (stream field t : string) : list Message :=
  if bool_decide (t = "") then [] else [state_message (mkState StateTypeStream stream (RawDoc (JObj [(field, JStr t)])))].

Definition failed_writes (msg : string) (records : list obj) : list WriteError :=
  map (λ r, mkWriteError msg (marshal_or_empty r) "") records.

Definition type_entry (t : string) : value := VMap {[ "type" := VString t ]}.
Definition object_schema (properties : obj) : RawMessage :=
  marshal_or_empty {[ "type" := VString "object"; "properties" := VMap properties ]}.

Definition upper_byte (c : ascii) : ascii :=
  if (97 <=? byte_val c) && (byte_val c <=? 122) then byte_chr (byte_val c - 32) else c.
Definition capitalised (p : string) : string :=
  match p with String c rest => String (upper_byte c) rest | EmptyString => EmptyString end.
(** For ASCII names, as those of the streams are. *)
Definition formatDisplayName (name : string) : string := Join (map capitalised (Split name "_")) " ".

(** A stream whose schema is the same for all; without an incremental mode it has no cursor. *)
Definition static_stream (name : string) (schema : RawMessage) (incremental : bool) (cursor pk : string) : Stream :=
  mkStream name "" (formatDisplayName name) schema
    (SyncModeFullRefresh :: (if incremental then [SyncModeIncremental] else [])) (if incremental then [cursor] else [])
    (negb (bool_decide (pk = ""))) (if bool_decide (pk = "") then [] else [[pk]]).

(** Last write wins; the source wins a tie. *)
Definition Resolve (conflicts : list Conflict) : list Resolution :=
  map (λ c, mkResolution (cf_PrimaryKey c) ResolutionLastWrite
              (if cf_DestTS c <=? cf_SourceTS c then cf_SourceRecord c else cf_DestRecord c)) conflicts.

(** ** Reading *)

Section reading.
Context {W : Type} `{Hrt : Runtime W}.

(** What the reading of a stream leaves: its error or the end, the messages sent, the client and the world. *)
Abbreviation read_result A := (res A * list Message * RESTClient W * W)%type.

Definition connect_check {Cfg} (parsed : res Cfg) (get : Cfg → W → res Response * RESTClient W * W) (service : string) (w : W) :
    res CheckResult * W :=
  match parsed with
  | Err e => (Ok (mkCheckResult CheckStatusFailed (Error e)), w)
  | Panic m => (Panic m, w)
  | Ok cfg =>
      match get cfg w with
      | (Ok _, _, w) => (Ok (mkCheckResult CheckStatusSucceeded ("Connected to " +:+ service +:+ " successfully")), w)
      | (Err e, _, w) => (Ok (mkCheckResult CheckStatusFailed ("Failed to connect to " +:+ service +:+ ": " +:+ Error e)), w)
      | (Panic m, _, w) => (Panic m, w)
      end
  end.

(** The streams in the order of the catalog: those that [find] does not know are passed over, an error is
    logged as a message. *)
Fixpoint read_streams {D} (find : ConfiguredStream → option D)
    (read_stream : RESTClient W → ConfiguredStream → D → list Message → W → option (read_result unit))
    (c : RESTClient W) (streams : list ConfiguredStream) (out : list Message) (w : W) : option (res unit * list Message * W) :=
  match streams with
  | [] => Some (Ok tt, out, w)
  | cs :: streams =>
      match poll w with
      | Some e => Some (Err e, out, w)
      | None =>
          match find cs with
          | None => read_streams find read_stream c streams out w
          | Some def =>
              match read_stream c cs def out w with
              | None => None
              | Some (Ok _, out, c, w) => read_streams find read_stream c streams out w
              | Some (Err e, out, c, w) =>
                  read_streams find read_stream c streams (out ++ [error_log (s_Name (cs_Stream cs)) e (clock_of w)]) w
              | Some (Panic m, out, c, w) => Some (Panic m, out, w)
              end
          end
      end
  end.

(** *** The pages of a stream

    The loop keeps an [S] from page to page: a cursor, the largest date seen. *)
Record paging (S : Type) := mkPaging {
  pg_call : S → RESTClient W → W → res Response * RESTClient W * W;   (** the request of a page *)
  pg_items : obj → list value;                                       (** the records in its body *)
  pg_stops : bool;                                                   (** whether a page without records ends the loop at once *)
  pg_shape : obj → obj;                                              (** what is done to a record before it is sent *)
  pg_seen : S → obj → S;                                             (** what the loop notes of a record *)
  pg_next : S → obj → S * bool                                       (** the next page, and whether there is one *)
}.
Arguments pg_call {S}. Arguments pg_items {S}. Arguments pg_stops {S}. Arguments pg_shape {S}.
Arguments pg_seen {S}. Arguments pg_next {S}. Arguments mkPaging {S}.

Section pages.
Context {S : Type} (p : paging S) (stream : string).

Definition page_records (body : obj) : list obj := map (pg_shape p) (page_objects (pg_items p body)).
Definition page_ends (body : obj) : bool := pg_stops p && bool_decide (pg_items p body = []).

Fixpoint read_pages (fuel : nat) (s : S) (c : RESTClient W) (out : list Message) (w : W) : option (read_result S) :=
  match fuel with
  | O => None
  | Datatypes.S fuel =>
      match poll w with
      | Some e => Some (Err e, out, c, w)
      | None =>
          match pg_call p s c w with
          | (Err e, c, w) => Some (Err e, out, c, w)
          | (Panic m, c, w) => Some (Panic m, out, c, w)
          | (Ok resp, c, w) =>
              let body := body_map resp in
              if page_ends body then Some (Ok s, out, c, w)
              else
                let recs := page_records body in
                let out := out ++ map (item_message stream (clock_of w)) recs in
                match pg_next p (foldl (pg_seen p) s recs) body with
                | (s, true) => read_pages fuel s c out w
                | (s, false) => Some (Ok s, out, c, w)
                end
          end
      end
  end.

(** The messages that follow when the pages are through. *)
Definition then_send (r : option (read_result S)) (last : S → list Message) : option (read_result unit) :=
  match r with
  | None => None
  | Some (Ok s, out, c, w) => Some (Ok tt, out ++ last s, c, w)
  | Some (Err e, out, c, w) => Some (Err e, out, c, w)
  | Some (Panic m, out, c, w) => Some (Panic m, out, c, w)
  end.
End pages.

(** An error that a call is reported with. *)
Definition wrapping (text : string) (r : res Response * RESTClient W * W) : res Response * RESTClient W * W :=
  match r with (Err e, c, w) => (Err (ErrWrapf text e), c, w) | r => r end.

Lemma read_streams_no_error {D} (find : ConfiguredStream → option D) read_stream streams : ∀ c out w r msgs w',
  (∀ w : W, poll w = None) → read_streams find read_stream c streams out w = Some (r, msgs, w') → ∀ e, r ≠ Err e.
Proof.
  induction streams as [|cs streams IH]; intros c out w r msgs w' Hp; cbn [read_streams].
  { by intros [= <- <- <-] e. }
  rewrite Hp. destruct (find cs) as [def|]; [|by apply IH].
  destruct (read_stream c cs def out w) as [[[[[u|e|m] out1] c1] w1]|]; [by apply IH..| |done].
  by intros [= <- <- <-] e'.
Qed.

(** *** What the reading of a catalog gives *)

(** One stream: the messages sent for it, its result, the time it ended. *)
Record stream_run := mkRun { run_stream : ConfiguredStream; run_sent : list Message; run_result : res unit; run_at : Z }.

(** What the consumer gets of it: the messages, and the error if it failed. *)
Definition run_messages (r : stream_run) : list Message :=
  run_sent r ++ match run_result r with Err e => [error_log (s_Name (cs_Stream (run_stream r))) e (run_at r)] | _ => [] end.

(** The streams read one after the other, each with the client and the world that the one before left. *)
Inductive stream_runs {D} (find : ConfiguredStream → option D)
    (read_stream : RESTClient W → ConfiguredStream → D → list Message → W → option (read_result unit)) :
    RESTClient W → W → list stream_run → W → Prop :=
| runs_nil c w : stream_runs find read_stream c w [] w
| runs_cons c w cs def r sent c1 w1 rest w2 :
    find cs = Some def → read_stream c cs def [] w = Some (r, sent, c1, w1) → (∀ m, r ≠ Panic m) →
    stream_runs find read_stream c1 w1 rest w2 → stream_runs find read_stream c w (mkRun cs sent r (clock_of w1) :: rest) w2.

(** Messages that were there before. *)
Definition prepend {A} (out : list Message) (r : option (read_result A)) : option (read_result A) :=
  match r with Some (x, sent, c, w) => Some (x, out ++ sent, c, w) | None => None end.

Lemma prepend_app {A} o1 o2 (r : option (read_result A)) : prepend o1 (prepend o2 r) = prepend (o1 ++ o2) r.
Proof. destruct r as [[[[x sent] c] w]|]; [|done]. cbn. by rewrite app_assoc. Qed.

Lemma read_streams_runs {D} (find : ConfiguredStream → option D) read_stream :
  (∀ w : W, poll w = None) → (∀ c cs def out w, read_stream c cs def out w = prepend out (read_stream c cs def [] w)) →
  ∀ streams c out w r msgs w', read_streams find read_stream c streams out w = Some (r, msgs, w') →
  match r with
  | Ok _ => ∃ runs, stream_runs find read_stream c w runs w' ∧
      map run_stream runs = List.filter (λ cs, bool_decide (is_Some (find cs))) streams ∧ msgs = out ++ concat (map run_messages runs)
  | Err _ => False
  | Panic m => ∃ c1 cs def w1 sent c2, read_stream c1 cs def [] w1 = Some (Panic m, sent, c2, w')
  end.
Proof.
  intros Hp Hpre. induction streams as [|cs streams IH]; intros c out w r msgs w'; cbn [read_streams List.filter].
  { intros [= <- <- <-]. exists []. split_and!; [constructor|done|]. by rewrite app_nil_r. }
  rewrite Hp. destruct (find cs) as [def|] eqn:Hf; [|by apply IH]. rewrite (bool_decide_true (is_Some (Some def))) by done.
  rewrite Hpre. destruct (read_stream c cs def [] w) as [[[[r1 sent] c1] w1]|] eqn:Hr; cbn [prepend]; [|done].
  assert (Hcons : ∀ more, (∀ m, r1 ≠ Panic m) → more = run_messages (mkRun cs sent r1 (clock_of w1)) →
    read_streams find read_stream c1 streams (out ++ more) w1 = Some (r, msgs, w') →
    match r with
    | Ok _ => ∃ runs, stream_runs find read_stream c w runs w' ∧
        map run_stream runs = cs :: List.filter (λ cs, bool_decide (is_Some (find cs))) streams ∧ msgs = out ++ concat (map run_messages runs)
    | Err _ => False
    | Panic m => ∃ c1 cs def w1 sent c2, read_stream c1 cs def [] w1 = Some (Panic m, sent, c2, w')
    end).
  { intros more Hno -> Hrest. apply IH in Hrest. destruct r as [[]| |]; [|done..]. destruct Hrest as (runs & Hruns & Hm & ->).
    exists (mkRun cs sent r1 (clock_of w1) :: runs). split_and!; [by econstructor|cbn; by rewrite Hm|]. cbn [map concat]. by rewrite app_assoc. }
  destruct r1 as [u|e|m].
  - apply Hcons; [done|]. unfold run_messages. cbn. by rewrite app_nil_r.
  - rewrite <- app_assoc. by apply Hcons.
  - intros [= <- <- <-]. by exists c, cs, def, w, sent, c1.
Qed.

(** The stream and the data of a record message. *)
Definition sent_record (m : Message) : option (string * RawMessage) := (λ r, (rec_Stream r, rec_Data r)) <$> msg_Record m.

Lemma sent_items stream now recs :
  map sent_record (map (item_message stream now) recs) = map (λ f, Some (stream, marshal_or_empty f)) recs.
Proof. rewrite map_map. by apply map_ext. Qed.

(** What every call keeps, the loop keeps. *)
Lemma read_pages_keeps {S} (p : paging S) stream (I : RESTClient W → Prop) (Q : W → W → Prop) `{!PreOrder Q} :
  (∀ s c w r c' w', I c → pg_call p s c w = (r, c', w') → I c' ∧ Q w w') →
  ∀ fuel s c out w r out' c' w', I c → read_pages p stream fuel s c out w = Some (r, out', c', w') → I c' ∧ Q w w'.
Proof.
  intros Hcall. induction fuel as [|fuel IH]; intros s c out w r out' c' w' Hc; [done|]. cbn [read_pages].
  destruct (poll w); [by intros [= <- <- <- <-]|].
  destruct (pg_call p s c w) as [[[resp|e|m] c1] w1] eqn:Hr; apply Hcall in Hr as [Hc1 H1]; try done;
    [|by intros [= <- <- <- <-]..].
  cbv zeta. destruct (page_ends _ _); [by intros [= <- <- <- <-]|].
  destruct (pg_next p _ _) as [s1 [|]]; [|by intros [= <- <- <- <-]].
  intros Hrun. apply IH in Hrun as [Hc' H2]; [|done]. split; [done|]. by etrans.
Qed.

(** *** A listing read to its end

    [pages c0 p s recs s' n]: from [s] on, the API gives the records [recs] on [n] pages, after which the loop
    has noted [s']. *)
Section complete.
Context (c0 : RESTClient W).

Definition page_given {S} (p : paging S) (s : S) (body : obj) : Prop := ∀ c w, same_setup c0 c →
  ∃ resp c' w', pg_call p s c w = (Ok resp, c', w') ∧ same_setup c0 c' ∧ body_map resp = body.

Inductive pages {S} (p : paging S) : S → list obj → S → nat → Prop :=
| pages_none s body : page_given p s body → page_ends p body = true → pages p s [] s 1
| pages_last s body s' : page_given p s body → page_ends p body = false →
    pg_next p (foldl (pg_seen p) s (page_records p body)) body = (s', false) → pages p s (page_records p body) s' 1
| pages_more s body s1 recs s' n : page_given p s body → page_ends p body = false →
    pg_next p (foldl (pg_seen p) s (page_records p body)) body = (s1, true) → pages p s1 recs s' n →
    pages p s (page_records p body ++ recs) s' (Datatypes.S n).

Lemma read_pages_complete {S} (p : paging S) stream s recs s' n :
  (∀ w : W, poll w = None) → pages p s recs s' n → ∀ fuel c out w, same_setup c0 c → (n ≤ fuel)%nat →
  ∃ msgs c' w', read_pages p stream fuel s c out w = Some (Ok s', out ++ msgs, c', w') ∧
    map sent_record msgs = map (λ f, Some (stream, marshal_or_empty f)) recs.
Proof.
  intros Hpoll.
  induction 1 as [s body Hg He|s body s' Hg He Hn|s body s1 recs s' n Hg He Hn Hl IH];
    intros [|fuel] c out w Hs Hf; [lia| |lia| |lia|]; cbn [read_pages]; rewrite Hpoll;
    destruct (Hg c w Hs) as (resp & c' & w' & -> & Hs' & ->); cbv zeta; rewrite He.
  - exists [], c', w'. by rewrite app_nil_r.
  - rewrite Hn. eexists _, c', w'. split; [done|]. apply sent_items.
  - rewrite Hn. destruct (IH fuel c' (out ++ map (item_message stream (clock_of w')) (page_records p body)) w' Hs')
      as (msgs & c2 & w2 & -> & Hm); [lia|].
    eexists _, c2, w2. rewrite <- app_assoc. split; [done|]. by rewrite !map_app, sent_items, Hm.
Qed.

(** A loop whose next page is the same again does not end. *)
Lemma read_pages_stuck {S} (p : paging S) stream s body :
  (∀ w : W, poll w = None) → page_given p s body → page_ends p body = false →
  pg_next p (foldl (pg_seen p) s (page_records p body)) body = (s, true) →
  ∀ fuel c out w, same_setup c0 c → read_pages p stream fuel s c out w = None.
Proof.
  intros Hpoll Hg He Hn. induction fuel as [|fuel IH]; intros c out w Hs; [done|].
  cbn [read_pages]. rewrite Hpoll. destruct (Hg c w Hs) as (resp & c' & w' & -> & Hs' & ->).
  cbv zeta. rewrite He, Hn. by apply IH.
Qed.
End complete.
End reading.
Arguments pg_call {W S}. Arguments pg_items {W S}. Arguments pg_stops {W S}. Arguments pg_shape {W S}.
Arguments pg_seen {W S}. Arguments pg_next {W S}. Arguments mkPaging {W S}.

(** ** Writing in batches *)

Section writing.
Context {W : Type}.
Context (flush : RESTClient W → string → list obj → W → res (Z * list WriteError) * RESTClient W * W).
Context (batch_size : nat).

(** The state of a write: the result so far, the buffer of each stream, the client and the world. *)
Record wstate := mkWstate {
  ws_written : Z; ws_errors : list WriteError; ws_buffers : gmap string (list obj); ws_client : RESTClient W; ws_world : W
}.

Definition flush_into (s : wstate) (stream : string) (records : list obj) (buffers : gmap string (list obj)) : res wstate :=
  match flush (ws_client s) stream records (ws_world s) with
  | (Ok (written, errs), c, w) =>
      Ok (mkWstate (ws_written s +ᵢ written) (ws_errors s ++ errs) buffers c w)
  | (Err e, _, _) => Err e
  | (Panic m, _, _) => Panic m
  end.

Definition write_message (s : wstate) (m : Message) : res wstate :=
  match msg_Record m with
  | None => Ok s
  | Some r =>
      match unmarshal_map (rec_Data r) with
      | Err e => Ok (mkWstate (ws_written s) (ws_errors s ++ [mkWriteError ("unmarshal record: " +:+ Error e) (rec_Data r) ""])
                       (ws_buffers s) (ws_client s) (ws_world s))
      | Panic p => Panic p
      | Ok rec =>
          let buffer := default [] (ws_buffers s !! rec_Stream r) ++ [rec] in
          if (batch_size <=? length buffer)%nat
          then flush_into s (rec_Stream r) buffer (<[rec_Stream r := []]> (ws_buffers s))
          else Ok (mkWstate (ws_written s) (ws_errors s) (<[rec_Stream r := buffer]> (ws_buffers s)) (ws_client s) (ws_world s))
      end
  end.

Definition write_rest (s : wstate) (e : string * list obj) : res wstate :=
  if bool_decide (e.2 = []) then Ok s else flush_into s e.1 e.2 (ws_buffers s).

Definition write_all (c : RESTClient W) (input : list Message) (w : W) : res WriteResult :=
  s ← foldM write_message (mkWstate 0 [] ∅ c w) input;
  s ← foldM write_rest s (sorted_entries (ws_buffers s));
  Ok (mkWriteResult (ws_written s) (ws_errors s) []).

(** *** What holds of the batches holds of the write

    [P n e k]: of [k] records [n] are counted as written and [e] errors are reported. *)
Class Tally (P : Z → Z → Z → Prop) : Prop := {
  tally_none : P 0 0 0;
  tally_error : P 0 1 1;
  tally_add n e k n' e' k' : P n e k → P n' e' k' → P (n + n') (e + e') (k + k');
  tally_bounds n e k : P n e k → 0 <= n <= k
}.

Context (P : Z → Z → Z → Prop) `{HP : !Tally P} (inv : RESTClient W → Prop).
Hypothesis Hflush : ∀ c stream records w n errs c' w', inv c → Z.of_nat (length records) < int64_max →
  flush c stream records w = (Ok (n, errs), c', w') → inv c' ∧ P n (Z.of_nat (length errs)) (Z.of_nat (length records)).

(** The records in buffers. *)
Definition buffered (l : list (string * list obj)) : Z := foldr (λ e n, Z.of_nat (length e.2) + n) 0 l.

Lemma buffered_perm l1 l2 : l1 ≡ₚ l2 → buffered l1 = buffered l2.
Proof. unfold buffered. induction 1; simpl; lia. Qed.

Lemma buffered_nonneg l : 0 <= buffered l.
Proof. induction l as [|e l IH]; simpl; lia. Qed.

Lemma buffered_set (m : gmap string (list obj)) k b :
  buffered (map_to_list (<[k := b]> m)) =
  buffered (map_to_list m) - Z.of_nat (length (default [] (m !! k))) + Z.of_nat (length b).
Proof.
  rewrite <- insert_delete_eq. rewrite (buffered_perm _ _ (map_to_list_insert _ _ _ (lookup_delete_eq m k))).
  simpl. destruct (m !! k) as [x|] eqn:Hk; simpl.
  - rewrite <- (insert_delete_id m k x Hk) at 2.
    rewrite (buffered_perm _ _ (map_to_list_insert _ _ _ (lookup_delete_eq m k))). simpl. lia.
  - rewrite delete_id by done. lia.
Qed.

(** [k] records have left the buffers. *)
Definition tallied (k : Z) (s : wstate) : Prop := inv (ws_client s) ∧ P (ws_written s) (Z.of_nat (length (ws_errors s))) k.
Definition ws_ok (total : Z) (s : wstate) : Prop := tallied (total - buffered (map_to_list (ws_buffers s))) s.

Lemma flush_into_ok s stream records buffers k s' :
  tallied k s → k + Z.of_nat (length records) < int64_max → flush_into s stream records buffers = Ok s' →
  tallied (k + Z.of_nat (length records)) s' ∧ ws_buffers s' = buffers.
Proof using Hflush HP.
  intros [Hon HPs] Hsmall. unfold flush_into.
  destruct (flush _ _ _ _) as [[[[n errs]|e|m] c'] w'] eqn:Hf; [|done..].
  pose proof (tally_bounds _ _ _ HPs). apply Hflush in Hf as [Hon' HPf]; [|done|lia].
  intros [= <-]. split; [|done]. split; [done|]. cbn. pose proof (tally_bounds _ _ _ HPf).
  rewrite length_app, Nat2Z.inj_add, i64_id by (unfold in_i64, int64_min, int64_max in *; lia). by apply tally_add.
Qed.

Definition is_record (m : Message) : bool := match msg_Record m with Some _ => true | None => false end.

Lemma write_message_ok s m total s' :
  ws_ok total s → total + 1 < int64_max → write_message s m = Ok s' → ws_ok (total + zcount is_record [m]) s'.
Proof using Hflush HP.
  intros Hs Hsmall. unfold write_message. cbn [zcount]. unfold is_record.
  destruct (msg_Record m) as [r|]; [|intros [= <-]; by rewrite Z.add_0_r].
  set (b := buffered (map_to_list (ws_buffers s))). pose proof (buffered_nonneg (map_to_list (ws_buffers s))).
  destruct (unmarshal_map (rec_Data r)) as [rec|e|p]; [| |done].
  - set (buffer := default [] (ws_buffers s !! rec_Stream r) ++ [rec]).
    assert (Hset : ∀ l, buffered (map_to_list (<[rec_Stream r := l]> (ws_buffers s))) =
                        b - Z.of_nat (length buffer) + 1 + Z.of_nat (length l)).
    { intros l. rewrite buffered_set. unfold buffer. rewrite length_app. cbn [length]. fold b. lia. }
    pose proof (buffered_nonneg (map_to_list (<[rec_Stream r := []]> (ws_buffers s)))) as Hnn. rewrite Hset in Hnn. cbn in Hnn.
    destruct (_ <=? _)%nat.
    + intros Hf. apply (flush_into_ok _ _ _ _ (total - b)) in Hf as [Hf Hb]; [|done|lia].
      unfold ws_ok. rewrite Hb, Hset. cbn [length]. refine (eq_ind _ (λ k, tallied k s') Hf _ _). lia.
    + intros [= <-]. unfold ws_ok, tallied. cbn. rewrite Hset. refine (eq_ind _ (λ k, tallied k s) Hs _ _). fold b. lia.
  - intros [= <-]. destruct Hs as [Hon HPs]. split; [done|]. cbn. fold b in HPs |- *.
    rewrite length_app, Nat2Z.inj_add. replace (total + (1 + 0) - b) with (total - b + 1) by lia.
    rewrite <- (Z.add_0_r (ws_written s)). by apply tally_add; [|apply tally_error].
Qed.

Lemma write_messages_ok input : ∀ s total s',
  ws_ok total s → total + zcount is_record input < int64_max →
  foldM write_message s input = Ok s' → ws_ok (total + zcount is_record input) s'.
Proof using Hflush HP.
  induction input as [|m input IH]; intros s total s' Hs Hsmall; cbn [foldM].
  { intros [= <-]. by rewrite Z.add_0_r. }
  destruct (write_message s m) as [s1|e|p] eqn:H1; [|done..].
  pose proof (zcount_bounds is_record input) as Hb. cbn [zcount] in *.
  assert (Hk : 0 <= (if is_record m then 1 else 0) <= 1) by (destruct (is_record m); lia).
  intros Hrun. destruct (decide (total + 1 < int64_max)) as [Hlt|Hge].
  - apply (write_message_ok s m total) in H1; [|done|done]. cbn [zcount] in H1. rewrite Z.add_0_r in H1.
    apply (IH s1 (total + (if is_record m then 1 else 0)) s') in Hrun; [|done|lia].
    by rewrite Z.add_assoc.
  - assert (Hm : is_record m = false) by (destruct (is_record m); [lia|done]).
    assert (Hs1 : s1 = s).
    { unfold write_message, is_record in *. destruct (msg_Record m); [done|]. by injection H1. }
    subst s1. rewrite Hm in *. rewrite Z.add_0_l in *. by apply (IH s total s') in Hrun.
Qed.

Lemma write_rests_ok l : ∀ s k s',
  tallied k s → k + buffered l < int64_max → foldM write_rest s l = Ok s' → tallied (k + buffered l) s'.
Proof using Hflush HP.
  induction l as [|[stream records] l IH]; intros s k s' Hs Hsmall; cbn [foldM].
  { intros [= <-]. cbn. by rewrite Z.add_0_r. }
  cbn [buffered foldr] in *. fold (buffered l) in *. unfold write_rest at 1. cbn [fst snd] in *.
  pose proof (buffered_nonneg l). destruct (bool_decide_reflect (records = [])) as [->|Hr].
  - intros Hrun. by apply (IH s k) in Hrun.
  - destruct (flush_into s stream records (ws_buffers s)) as [s1|e|p] eqn:Hf; [|done..].
    apply (flush_into_ok _ _ _ _ k) in Hf as [Hs1 _]; [|done|lia]. intros Hrun.
    apply (IH _ _ _ Hs1) in Hrun; [by rewrite Z.add_assoc|lia].
Qed.

Lemma write_all_tallied c input w result :
  inv c → zcount is_record input < int64_max → write_all c input w = Ok result →
  P (wr_RecordsWritten result) (Z.of_nat (length (wr_Errors result))) (zcount is_record input).
Proof using Hflush HP.
  intros Hc Hsmall. unfold write_all.
  destruct (foldM _ (mkWstate _ _ _ _ _) input) as [s|e|m] eqn:Hm; [|done..].
  apply (write_messages_ok _ _ 0) in Hm; [| |lia].
  2:{ unfold ws_ok. cbn. rewrite map_to_list_empty. split; [exact Hc|apply tally_none]. }
  cbn [mbind outcome_bind]. destruct (foldM _ s _) as [s'|e|m] eqn:Hr; [|done..].
  unfold ws_ok in Hm. rewrite (buffered_perm _ _ (symmetry (sorted_entries_perm (ws_buffers s)))) in Hm.
  apply (write_rests_ok _ _ _ _ Hm) in Hr as [_ Hr]; [|lia]. intros [= <-]. cbn.
  refine (eq_ind _ (P _ _) Hr _ _). lia.
Qed.
End writing.
Arguments mkWstate {W}. Arguments ws_written {W}. Arguments ws_errors {W}. Arguments ws_buffers {W}.
Arguments ws_client {W}. Arguments ws_world {W}.

(** Every record is written or reported by an error of its own. *)
Definition each_accounted (n e k : Z) : Prop := 0 <= n ∧ 0 <= e ∧ n + e = k.
#[export] Instance each_accounted_tally : Tally each_accounted.
Proof. unfold each_accounted. split; lia. Qed.

(** Without an error every record is written. *)
Definition none_lost (n e k : Z) : Prop := 0 <= n <= k ∧ 0 <= e ∧ (e = 0 → n = k).
#[export] Instance none_lost_tally : Tally none_lost.
Proof. unfold none_lost. split; lia. Qed.

(** ** Calls of the shared client *)

(** A body that is a list of objects under a key, as it is sent. *)
Lemma marshal_list key (rs : list obj) b :
  marshal_body (Some (VMap {[ key := VSlice (map VMap rs) ]})) = Ok b →
  ∃ l, b = Some (RawDoc (JObj [(key, JArr l)])) ∧ length l = length rs.
Proof.
  unfold marshal_body. cbn [to_json]. rewrite mapM_singleton.
  destruct (to_json (VSlice (map VMap rs))) as [j|] eqn:Hj; [|done].
  cbn [fmap option_fmap option_map]. intros [= <-]. cbn [to_json] in Hj.
  destruct (mapO to_json (map VMap rs)) as [js|] eqn:Hm; [|done].
  injection Hj as <-. exists js. split.
  - by rewrite sorted_entries_singleton.
  - revert js Hm. induction rs as [|r rs IH]; intros js; cbn [map mapO]; [by intros [= <-]|].
    destruct (to_json (VMap r)); [|done]. destruct (mapO to_json (map VMap rs)) as [js'|]; [|done].
    intros [= <-]. simpl. f_equal. by apply IH.
Qed.

Section calls.
Context {W : Type} `{Hrt : Runtime W} `{Hurl : UrlLib}.
Context (json_doc : string → RawMessage) (url_error : string → error) (ParseTime : string → option Z).
Context (refreshing : OAuthConfig → W → res string * W).         (** [oauth2.Config.TokenSource] *)

(** A static source without a refresh token. *)
Definition TokenSource (oc : OAuthConfig) : W → res string * W :=
  if bool_decide (oc_RefreshToken oc = "") then λ w, (Ok (oc_AccessToken oc), w) else refreshing oc.
End calls.

Section answered.
Context {W : Type} `{Hrt : Runtime W} `{Hurl : UrlLib}.
Context (json_doc : string → RawMessage) (url_error : string → error) (ParseTime : string → option Z).
Context (c0 : RESTClient W).
Hypothesis Hplain : plain_client c0.

(** The server answers a request at its first attempt with a document. *)
Definition gives (m u : string) (b : option RawMessage) (body : obj) : Prop :=
  is_Some (Parse u) ∧
  ∀ rq w, is_request m u b rq → ∃ h t w', client c0 rq w = (Ok h, w') ∧ r_Body h = Ok t ∧
    fits (max_size c0) t = true ∧ r_StatusCode h < 400 ∧ t ≠ "" ∧ decode_body json_doc t = Some body.

Lemma given c m path body b doc w :
  same_setup c0 c → marshal_body body = Ok b → gives m (baseURL c0 +:+ path) b doc →
  ∃ resp c' w', do_request json_doc url_error ParseTime c m path body w = (Ok resp, c', w') ∧ same_setup c0 c' ∧
    body_map resp = doc.
Proof using Hplain.
  intros Hs Hb [Hu Hg].
  assert (Hbase : baseURL c = baseURL c0) by (by destruct Hs as (_ & <- & _)).
  destruct (do_request_ok json_doc url_error ParseTime c m path body b w
              (λ h t, t ≠ "" ∧ decode_body json_doc t = Some doc)) as (h & t & c' & w' & -> & Hs' & Ht & Hd).
  - by eapply plain_same.
  - done.
  - by rewrite Hbase.
  - intros rq w1 Hrq. rewrite Hbase in Hrq. rewrite <- (proj1 Hs), <- (max_size_same _ _ Hs).
    destruct (Hg rq w1 Hrq) as (h & t & w' & ? & ? & ? & ? & ? & ?). by exists h, t, w'.
  - eexists _, c', w'. split; [done|]. split; [by etrans|].
    unfold body_map, parsed. cbn [Body]. by rewrite bool_decide_false, Hd.
Qed.


Lemma get_given path doc c w :
  gives "GET" (baseURL c0 +:+ path) None doc → same_setup c0 c →
  ∃ resp c' w', Get json_doc url_error ParseTime c path w = (Ok resp, c', w') ∧ same_setup c0 c' ∧ body_map resp = doc.
Proof using Hplain. intros Hg Hs. by apply (given c "GET" path None None doc w). Qed.
End answered.

Section result.
Context {W : Type} `{Hrt : Runtime W} `{Hurl : UrlLib}.
Context (json_doc : string → RawMessage) (url_error : string → error) (ParseTime : string → option Z).

(** A successful call gives the decoded body of an answer to its request, and ends with it. *)
Definition from_answer (c : RESTClient W) (m u : string) (b : option RawMessage) (resp : Response) (w' : W) : Prop :=
  ∃ rq w h t, is_request m u b rq ∧ client c rq w = (Ok h, w') ∧ r_StatusCode h < 400 ∧ r_Body h = Ok t ∧
    StatusCode resp = r_StatusCode h ∧ RawBody resp = t ∧
    body_map resp = if bool_decide (t = "") then ∅ else default ∅ (decode_body json_doc t).

Lemma judge_result (c : RESTClient W) h w resp c' w' :
  max_size c < int64_max → judge json_doc ParseTime c h w = (Return (Ok resp), c', w') →
  w' = w ∧ ∃ t, r_Body h = Ok t ∧ r_StatusCode h < 400 ∧ resp = parsed json_doc h t.
Proof.
  intros Hm. unfold judge. destruct (r_Body h) as [t|e|m]; [|done..].
  destruct (limit_read_fits (max_size c) t) as [Hlen Hfull]; [split; [apply max_size_pos|done]|].
  rewrite Hlen. destruct (fits (max_size c) t) eqn:Hf; cbn [negb]; [|done]. rewrite (Hfull eq_refl).
  destruct (r_StatusCode h =? 429).
  { destruct (0 <? _); [|done]. by destruct (select_wait _ w) as [[e|] ?]. }
  destruct (500 <=? r_StatusCode h); [done|]. destruct (400 <=? r_StatusCode h) eqn:H4; [done|].
  intros [= <- _ <-]. split; [done|]. exists t. split_and!; [done|lia|done].
Qed.

Lemma send_result (c : RESTClient W) m u b w v c' w' :
  max_size c < int64_max → send json_doc url_error ParseTime c m u b w = (v, c', w') →
  same_setup c c' ∧ ∀ resp, v = Return (Ok resp) → from_answer c m u b resp w'.
Proof.
  intros Hmax. unfold send.
  destruct (match distLimiter c with Some limiter => limiter w | None => (None, w) end) as [[e|] w0];
    [by intros [= <- <- <-]|].
  pose proof (waitForRateLimit_same c w0) as Hs1. destruct (waitForRateLimit c w0) as [c1 w1]. cbn [fst] in Hs1.
  destruct (Parse u); [|by intros [= <- <- <-]].
  destruct (applyAuth c1 _ w1) as [ar w2] eqn:Ha. apply applyAuth_spec in Ha. cbn [rq_Method rq_URL rq_Body] in Ha.
  destruct ar as [req|e|pm]; [|by intros [= <- <- <-]..].
  destruct (client c1 req w2) as [[h|e|pm] w3] eqn:Hc; [|by intros [= <- <- <-]..].
  destruct (judge _ _ c1 h w3) as [[v1 c2] w4] eqn:Hj. intros [= <- <- <-].
  assert (Hm1 : max_size c1 < int64_max) by (by rewrite <- (max_size_same _ _ Hs1)).
  split.
  - destruct (judge_spec json_doc ParseTime c1 h w3 v1 c2 w4 Hm1 Hj) as [Hs2 _]. by etrans.
  - intros resp ->. destruct (judge_result _ _ _ _ _ _ Hm1 Hj) as (-> & t & Ht & Hst & ->).
    exists req, w2, h, t. split_and!; [done| |done|done|done|done|].
    + by rewrite (proj1 Hs1).
    + unfold body_map, parsed. cbn [Body]. by case_bool_decide.
Qed.

Lemma attempts_result n a (c : RESTClient W) m u b lastErr w r c' w' :
  max_size c < int64_max → attempts json_doc url_error ParseTime n a c m u b lastErr w = (r, c', w') →
  same_setup c c' ∧ ∀ resp, r = Ok resp → from_answer c m u b resp w'.
Proof.
  revert a c lastErr w. induction n as [|n IH]; intros a c lastErr w Hmax; cbn [attempts]; [by intros [= <- <- <-]|].
  destruct (wait_before c a w) as [[e|] w0]; [by intros [= <- <- <-]|].
  destruct (send _ _ _ c m u b w0) as [[v c1] w1] eqn:Hs.
  apply send_result in Hs as [Hs1 Hv]; [|done]. destruct v as [e|r1].
  - intros Hrun. apply IH in Hrun as [Hs2 Hr]; [|by rewrite <- (max_size_same _ _ Hs1)].
    split; [by etrans|]. intros resp Hresp. destruct (Hr resp Hresp) as (rq & w2 & h & t & ? & Hc & ?).
    exists rq, w2, h, t. by rewrite (proj1 Hs1).
  - intros [= <- <- <-]. split; [done|]. intros resp ->. by apply Hv.
Qed.

Lemma do_request_result (c : RESTClient W) m path body w r c' w' :
  max_size c < int64_max → do_request json_doc url_error ParseTime c m path body w = (r, c', w') →
  same_setup c c' ∧ ∀ resp, r = Ok resp → ∃ b, marshal_body body = Ok b ∧
    from_answer c m (baseURL c +:+ path) b resp w'.
Proof.
  intros Hmax. unfold do_request. destruct (marshal_body body) as [b|e|pm]; [|by intros [= <- <- <-]..].
  intros Hrun. apply attempts_result in Hrun as [Hs Hr]; [|done]. split; [done|].
  intros resp Hresp. exists b. split; [done|]. by apply Hr.
Qed.
End result.

(** ** What a call does to the world

    [R n w w'] says that the world may go from [w] to [w'] with [n] exchanges on the network: waiting, tokens and the
    shared limiter are steps without any. *)
Class Exchanges {W} `{Hrt : Runtime W} (R : nat → W → W → Prop) : Prop := {
  R_none w : R 0%nat w w;
  R_join i j w w1 w2 : R i w w1 → R j w1 w2 → R (i + j)%nat w w2;
  R_sleep d w : R 0%nat w (sleep d w);
  R_wait d w : R 0%nat w (select_wait d w).2
}.
Arguments Exchanges W {_} R.

Section exchanges.
Context {W : Type} `{Hrt : Runtime W} `{Hurl : UrlLib}.
Context (json_doc : string → RawMessage) (url_error : string → error) (ParseTime : string → option Z).
Context (R : nat → W → W → Prop) `{HR : !Exchanges W R}.

(** The parts of a client are such steps. *)
Definition steps_by (c : RESTClient W) : Prop :=
  (∀ rq w, R 1 w (client c rq w).2) ∧ (∀ f w, tokenSrc c = Some f → R 0 w (f w).2) ∧
  (∀ f w, distLimiter c = Some f → R 0 w (f w).2).

Lemma steps_by_same c c' : same_setup c c' → steps_by c → steps_by c'.
Proof. unfold same_setup, steps_by. by intros (-> & _ & _ & _ & -> & _ & ->). Qed.

Lemma R_then j w w1 w2 : R 0 w w1 → R j w1 w2 → R j w w2.
Proof using HR. apply (R_join 0). Qed.
Lemma R_after i w w1 w2 : R i w w1 → R 0 w1 w2 → R i w w2.
Proof using HR. intros H1 H2. rewrite <- (Nat.add_0_r i). by eapply R_join. Qed.

Lemma judge_steps (c : RESTClient W) h w v c' w' :
  judge json_doc ParseTime c h w = (v, c', w') → same_setup c c' ∧ R 0 w w'.
Proof using HR.
  pose proof (adaptiveDecrease_same c). pose proof (adaptiveIncrease_same c). pose proof (R_none w).
  unfold judge. destruct (r_Body h) as [t|e|m]; [|by intros [= <- <- <-]..].
  destruct (_ <? _); [by intros [= <- <- <-]|]. destruct (_ =? 429).
  - destruct (0 <? _); [|by intros [= <- <- <-]].
    match goal with |- context [select_wait ?d w] => pose proof (R_wait d w); destruct (select_wait d w) as [[e|] w1] end;
      by intros [= <- <- <-].
  - destruct (500 <=? _); [by intros [= <- <- <-]|]. destruct (400 <=? _); by intros [= <- <- <-].
Qed.

Lemma send_steps (c : RESTClient W) m u b w v c' w' : steps_by c → send json_doc url_error ParseTime c m u b w = (v, c', w') →
  same_setup c c' ∧ ∃ k, (k ≤ 1)%nat ∧ R k w w'.
Proof using HR.
  intros (Hnet & Htok & Hlim). unfold send.
  assert (H0 : ∀ l w0, match distLimiter c with Some f => f w | None => (None, w) end = (l, w0) → R 0 w w0).
  { destruct (distLimiter c) as [f|]; [|intros l w0 [= _ <-]; apply R_none].
    intros l w0 Hf. pose proof (Hlim f w eq_refl) as Hr. by rewrite Hf in Hr. }
  destruct (match distLimiter c with Some limiter => limiter w | None => (None, w) end) as [[e|] w0];
    specialize (H0 _ _ eq_refl); [intros [= <- <- <-]; split; [done|by exists O; auto]|].
  pose proof (waitForRateLimit_same c w0) as Hs1.
  assert (H1 : R 0 w0 (waitForRateLimit c w0).2).
  { unfold waitForRateLimit. destruct (f_leb _ _); [apply R_none|]. cbn [snd]. destruct (_ <? _); [apply R_sleep|apply R_none]. }
  destruct (waitForRateLimit c w0) as [c1 w1]. cbn [fst snd] in *.
  assert (H2 : R 0 w w1) by (by eapply R_then).
  destruct (Parse u); [|by intros [= <- <- <-]; split; [|exists O; auto]].
  assert (H3 : ∀ rq, R 0 w1 (applyAuth c1 rq w1).2).
  { intros rq. unfold applyAuth. destruct (tokenSrc c1) as [f|] eqn:Hf; [|apply R_none].
    assert (Hr : R 0 w1 (f w1).2) by (apply Htok; by rewrite <- Hf; destruct Hs1 as (_ & _ & _ & _ & -> & _)).
    by destruct (f w1) as [[t|e|pm] w2]. }
  specialize (H3 (mkRequest m u b (request_headers b))).
  destruct (applyAuth c1 _ w1) as [ar w2]. cbn [snd] in H3. assert (H4 : R 0 w w2) by (by eapply R_then).
  destruct ar as [req|e|pm]; [|by intros [= <- <- <-]; split; [|exists O; auto]..].
  assert (H5 : R 1 w2 (client c1 req w2).2) by (rewrite <- (proj1 Hs1); apply Hnet).
  destruct (client c1 req w2) as [[h|e|pm] w3]; cbn [snd] in H5; assert (H6 : R 1 w w3) by (by eapply R_then);
    [|by intros [= <- <- <-]; split; [|exists 1%nat; auto]..].
  destruct (judge _ _ c1 h w3) as [[v1 c2] w4] eqn:Hj. apply judge_steps in Hj as [Hs2 H7].
  intros [= <- <- <-]. split; [by etrans|]. exists 1%nat. split; [done|]. by eapply R_after.
Qed.

Lemma attempts_steps n a (c : RESTClient W) m u b lastErr w r c' w' :
  steps_by c → attempts json_doc url_error ParseTime n a c m u b lastErr w = (r, c', w') →
  same_setup c c' ∧ ∃ k, (k ≤ n)%nat ∧ R k w w'.
Proof using HR.
  revert a c lastErr w. induction n as [|n IH]; intros a c lastErr w Hc; cbn [attempts].
  { intros [= <- <- <-]. split; [done|]. exists O. split; [done|apply R_none]. }
  assert (H0 : R 0 w (wait_before c a w).2) by (unfold wait_before; destruct (0 <? a); [apply R_wait|apply R_none]).
  destruct (wait_before c a w) as [[e|] w0]; cbn [snd] in H0; [intros [= <- <- <-]; split; [done|exists O; split; [lia|done]]|].
  destruct (send _ _ _ c m u b w0) as [[v c1] w1] eqn:Hs. apply send_steps in Hs as [Hs (k & Hk & H1)]; [|done].
  assert (H2 : R k w w1) by (by eapply R_then). destruct v as [e|r1].
  - intros Hrun. apply IH in Hrun as [Hs2 (k2 & Hk2 & H3)]; [|by eapply steps_by_same].
    split; [by etrans|]. exists (k + k2)%nat. split; [lia|by eapply R_join].
  - intros [= <- <- <-]. split; [done|]. exists k. split; [lia|done].
Qed.

(** A call makes at most an exchange for each of its attempts. *)
Lemma do_request_steps (c : RESTClient W) m path body w r c' w' :
  steps_by c → do_request json_doc url_error ParseTime c m path body w = (r, c', w') →
  same_setup c c' ∧ ∃ k, (k ≤ Z.to_nat (maxRetries c + 1))%nat ∧ R k w w'.
Proof using HR.
  intros Hc. unfold do_request. destruct (marshal_body body) as [b|e|pm]; [by apply attempts_steps| |];
    intros [= <- <- <-]; (split; [done|]); exists O; (split; [lia|apply R_none]).
Qed.
End exchanges.
