(* ===== verification/HubSpot.v ===== *)
(** * The HubSpot connector: [connectors/hubspot/hubspot.go]

    A bidirectional connector on the shared client: it lists or searches CRM objects page by
    page and writes records in batches ([RestConnector]).  The property names of a schema are taken in the order
    of the keys. *)

From Stdlib Require Import Ascii.
From S2P Require Import Prelude GoStrings Errors Float Value Protocol JsonDecode Urls Pagination RestClient PagedFetch RestConnector.

Definition connectorName : string := "hubspot".
Definition hs_baseURL : string := "https://api.hubapi.com".
Definition maxBatchSize : nat := 100.

Record streamDef := mkStreamDef { objectType : string; pk : string; hasSearch : bool }.

Definition searchable (name : string) : streamDef := mkStreamDef name "id" true.
Definition streamDefs : gmap string streamDef :=
  {[ "contacts" := searchable "contacts"; "companies" := searchable "companies"; "deals" := searchable "deals";
     "tickets" := searchable "tickets"; "line_items" := searchable "line_items"; "products" := searchable "products";
     "engagements" := mkStreamDef "engagements" "id" false; "owners" := mkStreamDef "owners" "id" false ]}.

(** ** Configuration *)

Record hsConfig := mkHsConfig { hc_OAuth : option OAuthConfig; hc_APIKey : string }.

Section decode.
Context (type_error : string → json → error).   (** the error for a field that has another type *)

Definition hs_member (acc : hsConfig * option error) (e : string * json) : hsConfig * option error :=
  let '(cfg, err) := acc in
  let '(k, j) := e in
  if key_matches "oauth" k then
    let '(oc, err) := oauth_pointer type_error k (hc_OAuth cfg) j err in (mkHsConfig oc (hc_APIKey cfg), err)
  else if key_matches "api_key" k then
    let '(s, err) := string_member type_error k (hc_APIKey cfg) j err in (mkHsConfig (hc_OAuth cfg) s, err)
  else acc.

Definition parseHSConfig (raw : RawMessage) : res hsConfig :=
  match unmarshal_struct type_error (mkHsConfig None "") hs_member raw with
  | Err e => Err (NewConnectorError connectorName "parse_config" e)
  | Panic m => Panic m
  | Ok cfg =>
      match hc_OAuth cfg with
      | None => if bool_decide (hc_APIKey cfg = "")
                then Err (NewConnectorError connectorName "parse_config"
                            (ErrText "either oauth or api_key must be provided"))
                else Ok cfg
      | Some oc => Ok (mkHsConfig (Some (default_token_url "https://api.hubapi.com/oauth/v1/token" oc)) (hc_APIKey cfg))
      end
  end.

End decode.

(** ** Records and pages *)

(** The properties of an object at top level, with its id. *)
Definition flatten (rec : obj) : obj :=
  let id := default VNil (rec !! "id") in
  match rec !! "properties" with
  | Some (VMap props) => props ∪ {[ "id" := id ]}
  | _ => {[ "id" := id ]}
  end.

(** The objects among the items of a page, flattened. *)
Definition flat_items (items : list value) : list obj :=
  omap (λ v, match v with VMap rec => Some (flatten rec) | _ => None end) items.

Definition page_results (body : obj) : list value := extractArray body "results".

(** The cursor of the next page. *)
Definition next_after (body : obj) : option string :=
  match body !! "paging" with
  | Some (VMap paging) =>
      match paging !! "next" with
      | Some (VMap next) =>
          match next !! "after" with
          | Some (VString a) => if bool_decide (a = "") then None else Some a
          | _ => None
          end
      | _ => None
      end
  | _ => None
  end.

Definition max_modified : string → obj → string := later_text "hs_lastmodifieddate".

Definition vstrings (l : option (list string)) : value :=
  match l with Some l => VSlice (map VString l) | None => VNil end.

Definition buildSearchRequest (properties : option (list string)) (lastModified after : string) : obj :=
  let body : obj := {[ "limit" := VInt 100; "properties" := vstrings properties;
                       "sorts" := VSlice [VMap {[ "propertyName" := VString "hs_lastmodifieddate"; "direction" := VString "ASCENDING" ]}] ]} in
  let body := if bool_decide (lastModified = "") then body
              else <["filterGroups" := VSlice [VMap {[ "filters" :=
                       VSlice [VMap {[ "propertyName" := VString "hs_lastmodifieddate"; "operator" := VString "GTE";
                                       "value" := VString lastModified ]}] ]}]]> body in
  if bool_decide (after = "") then body else <["after" := VString after]> body.

Definition list_path (def : streamDef) (properties : option (list string)) (after : string) : string :=
  let propParam := match properties with
                   | Some (p :: ps) => "&properties=" +:+ Join (p :: ps) ","
                   | _ => ""
                   end in
  "/crm/v3/objects/" +:+ objectType def +:+ "?limit=100" +:+ propParam
  +:+ (if bool_decide (after = "") then "" else "&after=" +:+ after).

Definition search_path (def : streamDef) : string := "/crm/v3/objects/" +:+ objectType def +:+ "/search".

(** ** The connector *)

Section connector.
Context {W : Type} `{Hrt : Runtime W} `{Hurl : UrlLib}.
Context (json_doc : string → RawMessage) (url_error : string → error) (ParseTime : string → option Z).
Context (type_error : string → json → error).
Context (net : Request → W → res HTTPResponse * W).              (** the default [http.Client] *)
Context (refreshing : OAuthConfig → W → res string * W).         (** [oauth2.Config.TokenSource] *)

Definition buildClient (cfg : hsConfig) : RESTClient W :=
  NewRESTClient net hs_baseURL
    ([WithRetry 3 (500 * millisecond); WithRateLimit (f_of_Z 10)] ++
     match hc_OAuth cfg with
     | Some oc => [WithOAuth2 (TokenSource refreshing oc)]
     | None => if bool_decide (hc_APIKey cfg = "") then []
               else [WithAPIKey ("Bearer " +:+ hc_APIKey cfg) "Authorization"]
     end).

Abbreviation hub_get := (Get json_doc url_error ParseTime).
Abbreviation hub_post := (Post json_doc url_error ParseTime).

Definition Check (config : RawMessage) (w : W) : res CheckResult * W :=
  connect_check (parseHSConfig type_error config)
    (λ cfg w, hub_get (buildClient cfg) "/crm/v3/objects/contacts?limit=1" w) "HubSpot" w.

(** *** Reading *)

(** What a stream's reading leaves: its error or the end, and the messages sent. *)
Definition read_result : Type := res unit * list Message * RESTClient W * W.

Fixpoint list_loop (fuel : nat) (c : RESTClient W) (cs : ConfiguredStream) (def : streamDef)
    (properties : option (list string)) (after : string) (out : list Message) (w : W) : option read_result :=
  match fuel with
  | O => None
  | S fuel =>
      match poll w with
      | Some e => Some (Err e, out, c, w)
      | None =>
          match hub_get c (list_path def properties after) w with
          | (Err e, c, w) => Some (Err (ErrWrapf "list API" e), out, c, w)
          | (Panic m, c, w) => Some (Panic m, out, c, w)
          | (Ok resp, c, w) =>
              let results := page_results (body_map resp) in
              if bool_decide (results = []) then Some (Ok tt, out, c, w)
              else
                let out := out ++ map (item_message (s_Name (cs_Stream cs)) (clock_of w)) (flat_items results) in
                match next_after (body_map resp) with
                | None => Some (Ok tt, out, c, w)
                | Some after => list_loop fuel c cs def properties after out w
                end
          end
      end
  end.

Definition readViaList (fuel : nat) (c : RESTClient W) (cs : ConfiguredStream) (def : streamDef) (out : list Message)
    (w : W) : option read_result :=
  list_loop fuel c cs def (extractPropertyNames type_error (s_Schema (cs_Stream cs))) "" out w.

(** The state is sent when the pages are through. *)
Definition search_end (stream maxModified : string) (out : list Message) : list Message :=
  out ++ text_state stream "hs_lastmodifieddate" maxModified.

Fixpoint search_loop (fuel : nat) (c : RESTClient W) (stream : string) (def : streamDef)
    (properties : option (list string)) (lastModified after maxModified : string) (out : list Message) (w : W) :
    option read_result :=
  match fuel with
  | O => None
  | S fuel =>
      match poll w with
      | Some e => Some (Err e, out, c, w)
      | None =>
          match hub_post c (search_path def) (Some (VMap (buildSearchRequest properties lastModified after))) w with
          | (Err e, c, w) => Some (Err (ErrWrapf "search API" e), out, c, w)
          | (Panic m, c, w) => Some (Panic m, out, c, w)
          | (Ok resp, c, w) =>
              let results := page_results (body_map resp) in
              if bool_decide (results = []) then Some (Ok tt, search_end stream maxModified out, c, w)
              else
                let flats := flat_items results in
                let out := out ++ map (item_message stream (clock_of w)) flats in
                let maxModified := foldl max_modified maxModified flats in
                match next_after (body_map resp) with
                | None => Some (Ok tt, search_end stream maxModified out, c, w)
                | Some after => search_loop fuel c stream def properties lastModified after maxModified out w
                end
          end
      end
  end.

Definition readViaSearch (fuel : nat) (c : RESTClient W) (cs : ConfiguredStream) (def : streamDef) (state : state_map)
    (out : list Message) (w : W) : option read_result :=
  let stream := s_Name (cs_Stream cs) in
  search_loop fuel c stream def (extractPropertyNames type_error (s_Schema (cs_Stream cs)))
    (state_text type_error "hs_lastmodifieddate" (state !! stream)) "" "" out w.

Definition readStream (fuel : nat) (c : RESTClient W) (cs : ConfiguredStream) (def : streamDef) (state : state_map)
    (out : list Message) (w : W) : option read_result :=
  if bool_decide (cs_SyncMode cs = SyncModeIncremental) && hasSearch def
  then readViaSearch fuel c cs def state out w
  else readViaList fuel c cs def out w.

Definition Read (fuel : nat) (config : RawMessage) (catalog : ConfiguredCatalog) (state : state_map) (w : W) :
    option (res unit * list Message * W) :=
  match parseHSConfig type_error config with
  | Err e => Some (Err e, [], w)
  | Panic m => Some (Panic m, [], w)
  | Ok cfg => read_streams (λ cs, streamDefs !! s_Name (cs_Stream cs)) (λ c cs def out w, readStream fuel c cs def state out w)
                (buildClient cfg) (cc_Streams catalog) [] w
  end.

(** *** Writing *)

Definition batch_input (rec : obj) : obj :=
  let input : obj := {[ "properties" := VMap (delete "id" rec) ]} in
  match rec !! "id" with Some id => <["id" := id]> input | None => input end.

Definition error_messages (errorsRaw : list value) : list WriteError :=
  omap (λ v, match v with
             | VMap e => Some (mkWriteError (match e !! "message" with Some (VString m) => m | _ => "" end) RawEmpty "")
             | _ => None
             end) errorsRaw.

Definition parseHSBatchResults (body : obj) (records : list obj) : Z * list WriteError :=
  let complete := match body !! "status" with Some (VString s) => bool_decide (s = "COMPLETE") | _ => false end in
  if complete then
    match body !! "results" with
    | Some (VSlice results) => (Z.of_nat (length results), [])
    | _ => (Z.of_nat (length records), [])
    end
  else
    (match body !! "results" with Some (VSlice results) => Z.of_nat (length results) | _ => 0 end,
     match body !! "errors" with Some (VSlice errorsRaw) => error_messages errorsRaw | _ => [] end).

Definition flushBatch (c : RESTClient W) (stream : string) (records : list obj) (w : W) :
    res (Z * list WriteError) * RESTClient W * W :=
  match streamDefs !! stream with
  | None => (Ok (0, failed_writes ("unknown stream: " +:+ stream) records), c, w)
  | Some def =>
      let body : obj := {[ "inputs" := VSlice (map (λ r, VMap (batch_input r)) records) ]} in
      match hub_post c ("/crm/v3/objects/" +:+ objectType def +:+ "/batch/create") (Some (VMap body)) w with
      | (Ok resp, c, w) => (Ok (parseHSBatchResults (body_map resp) records), c, w)
      | (Err e, c, w) => (Ok (0, failed_writes ("batch API error: " +:+ Error e) records), c, w)
      | (Panic m, c, w) => (Panic m, c, w)
      end
  end.

Definition Write (config : RawMessage) (input : list Message) (w : W) : res WriteResult :=
  cfg ← parseHSConfig type_error config; write_all flushBatch maxBatchSize (buildClient cfg) input w.

Definition Capabilities : list DestinationSyncMode := [DestSyncModeAppend; DestSyncModeUpsert].
End connector.

(** *** Discovery *)

Definition hsTypeToJSON (hsType : string) : string :=
  if bool_decide (hsType = "number") then "number"
  else if bool_decide (hsType = "bool") then "boolean"
  else "string".

(** The properties an API answer lists, added to a map. *)
Definition add_properties (props : list value) (m : obj) : obj :=
  foldl (λ m p, match p with
                | VMap prop => let name := vtext (prop !! "name") in
                               if bool_decide (name = "") then m
                               else <[name := type_entry (hsTypeToJSON (vtext (prop !! "type")))]> m
                | _ => m
                end) m props.

Section discovery.
Context {W : Type} `{Hrt : Runtime W} `{Hurl : UrlLib}.
Context (json_doc : string → RawMessage) (url_error : string → error) (ParseTime : string → option Z).
Context (type_error : string → json → error) (net : Request → W → res HTTPResponse * W).
Context (refreshing : OAuthConfig → W → res string * W).

Definition fetchPropertiesSchema (c : RESTClient W) (objectType : string) (w : W) : res RawMessage * RESTClient W * W :=
  match Get json_doc url_error ParseTime c ("/crm/v3/properties/" +:+ objectType) w with
  | (Err _, c, w) => (Ok (object_schema {[ "id" := type_entry "string" ]}), c, w)
  | (Panic m, c, w) => (Panic m, c, w)
  | (Ok resp, c, w) =>
      (Ok (object_schema (add_properties (page_results (body_map resp)) {[ "id" := type_entry "string" ]})), c, w)
  end.

Definition fetchObjectSchema (c : RESTClient W) (objectType : string) (w : W) : res RawMessage * RESTClient W * W :=
  match Get json_doc url_error ParseTime c ("/crm/v3/schemas/" +:+ objectType) w with
  | (Err _, c, w) => fetchPropertiesSchema c objectType w
  | (Panic m, c, w) => (Panic m, c, w)
  | (Ok resp, c, w) =>
      (Ok (object_schema (add_properties (match body_map resp !! "properties" with Some (VSlice l) => l | _ => [] end) ∅)), c, w)
  end.

Definition discover_stream (acc : list Stream * RESTClient W * W) (e : string * streamDef) :
    res (list Stream * RESTClient W * W) :=
  let '(streams, c, w) := acc in
  match fetchObjectSchema c (objectType e.2) w with
  | (Ok schema, c, w) =>
      Ok (streams ++ [mkStream e.1 "" (formatDisplayName e.1) schema [SyncModeFullRefresh; SyncModeIncremental]
                        ["hs_lastmodifieddate"] true [[pk e.2]]], c, w)
  | (Err er, _, _) => Err er
  | (Panic m, _, _) => Panic m
  end.

Definition Discover (config : RawMessage) (w : W) : res Catalog :=
  cfg ← parseHSConfig type_error config;
  '(streams, _, _) ← foldM discover_stream ([], buildClient net refreshing cfg, w) (sorted_entries streamDefs);
  Ok (mkCatalog streams).
End discovery.

(** *** Webhooks *)

(** Whether an event of a payload has members of the types of the struct. *)
Definition event_member_ok (e : string * json) : bool :=
  if existsb (λ n, key_matches n e.1) ["eventId"; "objectId"; "occurredAt"]
  then match e.2 with JNull => true | JNum n => bool_decide (is_Some (int_of n)) | _ => false end
  else if existsb (λ n, key_matches n e.1) ["subscriptionType"; "propertyName"; "changeSource"]
  then match e.2 with JNull | JStr _ => true | _ => false end
  else true.

Definition event_ok (j : json) : bool :=
  match j with JNull => true | JObj l => forallb event_member_ok l | _ => false end.

(** [decode_error] is the error of [json.Unmarshal] for a payload of another shape. *)
Definition WebhookHandler (decode_error : RawMessage → error) (body : RawMessage) : option error :=
  let empty := Some (NewConnectorError connectorName "webhook_validate" (ErrText "empty webhook payload")) in
  match body with
  | RawDoc JNull => empty
  | RawDoc (JArr l) =>
      if forallb event_ok l then (if bool_decide (l = []) then empty else None)
      else Some (NewConnectorError connectorName "webhook_parse" (decode_error body))
  | _ => Some (NewConnectorError connectorName "webhook_parse" (decode_error body))
  end.

(** ** Reading a listing to its end

    [listing answers after items n]: from the cursor [after] on, the API gives [items] in [n] pages.
    A page without results ends the reading whatever its cursor says. *)

Inductive listing (answers : string → obj → Prop) : string → list value → nat → Prop :=
| listing_empty after body : answers after body → page_results body = [] → listing answers after [] 1
| listing_last after body : answers after body → page_results body ≠ [] → next_after body = None →
    listing answers after (page_results body) 1
| listing_more after body after' items n : answers after body → page_results body ≠ [] →
    next_after body = Some after' → listing answers after' items n →
    listing answers after (page_results body ++ items) (S n).

Lemma flat_items_app l1 l2 : flat_items (l1 ++ l2) = flat_items l1 ++ flat_items l2.
Proof. unfold flat_items. apply omap_app. Qed.

Section reading.
Context {W : Type} `{Hrt : Runtime W} `{Hurl : UrlLib}.
Context (json_doc : string → RawMessage) (url_error : string → error) (ParseTime : string → option Z).
Context (type_error : string → json → error).
Context (c0 : RESTClient W).
Hypothesis Hplain : plain_client c0.
Hypothesis Hpoll : ∀ w : W, poll w = None.

Definition list_answers (def : streamDef) (properties : option (list string)) (after : string) (body : obj) : Prop :=
  gives json_doc c0 "GET" (baseURL c0 +:+ list_path def properties after) None body.

Lemma list_loop_complete cs def properties after items n :
  listing (list_answers def properties) after items n →
  ∀ fuel c out w, same_setup c0 c → (n ≤ fuel)%nat →
  ∃ msgs c' w', list_loop json_doc url_error ParseTime fuel c cs def properties after out w
                = Some (Ok tt, out ++ msgs, c', w') ∧
    map sent_record msgs = map (λ f, Some (s_Name (cs_Stream cs), marshal_or_empty f)) (flat_items items).
Proof using Hplain Hpoll.
  induction 1 as [after body Ha He|after body Ha He Hn|after body after' items n Ha He Hn Hl IH];
    intros [|fuel] c out w Hs Hf; [lia| |lia| |lia|]; cbn [list_loop]; rewrite Hpoll;
    destruct (given json_doc url_error ParseTime c0 Hplain c "GET" (list_path def properties after) None None body w Hs eq_refl Ha)
      as (resp & c' & w' & Hd & Hs' & Hb); unfold Get; rewrite Hd, Hb.
  - rewrite bool_decide_true by done. exists [], c', w'. by rewrite app_nil_r.
  - rewrite bool_decide_false by done. rewrite Hn. eexists _, c', w'. split; [done|]. apply sent_items.
  - rewrite bool_decide_false by done. rewrite Hn.
    destruct (IH fuel c' (out ++ map (item_message (s_Name (cs_Stream cs)) (clock_of w')) (flat_items (page_results body))) w' Hs')
      as (msgs & c2 & w2 & -> & Hm); [lia|].
    eexists _, c2, w2. rewrite <- app_assoc. split; [done|].
    by rewrite map_app, sent_items, Hm, flat_items_app, map_app.
Qed.

Definition search_answers (def : streamDef) (properties : option (list string)) (lastModified after : string) (body : obj) : Prop :=
  ∃ b, marshal_body (Some (VMap (buildSearchRequest properties lastModified after))) = Ok b ∧
    gives json_doc c0 "POST" (baseURL c0 +:+ search_path def) b body.

Lemma search_loop_complete stream def properties lastModified after items n :
  listing (search_answers def properties lastModified) after items n →
  ∀ fuel c maxModified out w, same_setup c0 c → (n ≤ fuel)%nat →
  ∃ msgs c' w', search_loop json_doc url_error ParseTime fuel c stream def properties lastModified after maxModified out w
                = Some (Ok tt, search_end stream (foldl max_modified maxModified (flat_items items)) (out ++ msgs), c', w') ∧
    map sent_record msgs = map (λ f, Some (stream, marshal_or_empty f)) (flat_items items).
Proof using Hplain Hpoll.
  induction 1 as [after body Ha He|after body Ha He Hn|after body after' items n Ha He Hn Hl IH];
    intros [|fuel] c mm out w Hs Hf; [lia| |lia| |lia|]; cbn [search_loop]; rewrite Hpoll;
    destruct Ha as (b & Hb & Ha);
    destruct (given json_doc url_error ParseTime c0 Hplain c "POST" (search_path def) _ b body w Hs Hb Ha) as (resp & c' & w' & Hd & Hs' & Hbody);
    unfold Post; rewrite Hd, Hbody.
  - rewrite bool_decide_true by done. exists [], c', w'. by rewrite app_nil_r.
  - rewrite bool_decide_false by done. rewrite Hn. eexists _, c', w'. split; [done|]. apply sent_items.
  - rewrite bool_decide_false by done. rewrite Hn.
    destruct (IH fuel c' (foldl max_modified mm (flat_items (page_results body)))
      (out ++ map (item_message stream (clock_of w')) (flat_items (page_results body))) w' Hs')
      as (msgs & c2 & w2 & -> & Hm); [lia|].
    eexists _, c2, w2. rewrite <- app_assoc, flat_items_app, foldl_app. split; [done|].
    by rewrite map_app, sent_items, Hm, map_app.
Qed.

(** C9: reading a stream of the CRM gives every object once, in the order of the API, flattened and
    tagged with the stream, whether it is listed or searched; after a search the state sent
    is the largest modification date among them, if any has one. *)
Theorem readStream_complete cs def state items n fuel c out w :
  let name := s_Name (cs_Stream cs) in
  let properties := extractPropertyNames type_error (s_Schema (cs_Stream cs)) in
  let search := bool_decide (cs_SyncMode cs = SyncModeIncremental) && hasSearch def in
  same_setup c0 c → (n ≤ fuel)%nat →
  listing (if search then search_answers def properties (state_text type_error "hs_lastmodifieddate" (state !! name))
           else list_answers def properties) "" items n →
  ∃ msgs c' w',
    readStream json_doc url_error ParseTime type_error fuel c cs def state out w =
      Some (Ok tt, if search then search_end name (foldl max_modified "" (flat_items items)) (out ++ msgs) else out ++ msgs, c', w') ∧
    map sent_record msgs = map (λ f, Some (name, marshal_or_empty f)) (flat_items items).
Proof using Hplain Hpoll.
  intros name properties search Hs Hf Hl. unfold readStream. fold search. destruct search.
  - by eapply search_loop_complete.
  - by eapply list_loop_complete.
Qed.
End reading.

(** ** Errors of a stream are only logged *)

Section errors.
Context {W : Type} `{Hrt : Runtime W} `{Hurl : UrlLib}.
Context (json_doc : string → RawMessage) (url_error : string → error) (ParseTime : string → option Z).
Context (type_error : string → json → error).

Lemma list_loop_prepend fuel : ∀ c cs def properties after o out (w : W),
  list_loop json_doc url_error ParseTime fuel c cs def properties after (o ++ out) w =
  prepend o (list_loop json_doc url_error ParseTime fuel c cs def properties after out w).
Proof.
  induction fuel as [|fuel IH]; intros c cs def properties after o out w; cbn [list_loop]; [done|].
  destruct (poll w); [done|]. destruct (Get _ _ _ c _ w) as [[[resp|e|m] c1] w1]; [|done..]. cbv zeta.
  case_bool_decide; [done|]. rewrite <- app_assoc. destruct (next_after _); [apply IH|done].
Qed.

Lemma search_loop_prepend fuel : ∀ c stream def properties lastModified after maxModified o out (w : W),
  search_loop json_doc url_error ParseTime fuel c stream def properties lastModified after maxModified (o ++ out) w =
  prepend o (search_loop json_doc url_error ParseTime fuel c stream def properties lastModified after maxModified out w).
Proof.
  induction fuel as [|fuel IH]; intros c stream def properties lastModified after maxModified o out w; cbn [search_loop]; [done|].
  destruct (poll w); [done|]. destruct (Post _ _ _ c _ _ w) as [[[resp|e|m] c1] w1]; [|done..]. cbv zeta. unfold search_end.
  case_bool_decide; [cbn; by rewrite <- app_assoc|]. rewrite <- (app_assoc o). destruct (next_after _); [apply IH|].
  cbn. by rewrite <- !app_assoc.
Qed.

Lemma readStream_prepend fuel c cs def state out (w : W) :
  readStream json_doc url_error ParseTime type_error fuel c cs def state out w =
  prepend out (readStream json_doc url_error ParseTime type_error fuel c cs def state [] w).
Proof.
  unfold readStream, readViaSearch, readViaList.
  by destruct (_ && _); rewrite <- (app_nil_r out) at 1; [apply search_loop_prepend|apply list_loop_prepend].
Qed.

(** C40: [Read] reports success although streams failed, and says so in log messages only.  With a valid configuration
    and a live context it never returns an error, whatever the API answers.  When it returns, every stream of
    the catalog that the connector knows was read, in order, each after the one before, and the messages are, stream
    by stream, what its reading has sent and, if that failed, its error as a log message; the only other end is a
    panic of the reading of a stream. *)
Theorem Read_reports_success net refreshing fuel config cfg catalog state (w : W) r msgs w' :
  (∀ w : W, poll w = None) → parseHSConfig type_error config = Ok cfg →
  Read json_doc url_error ParseTime type_error net refreshing fuel config catalog state w = Some (r, msgs, w') →
  let find cs := streamDefs !! s_Name (cs_Stream cs) in
  let read c cs def out w := readStream json_doc url_error ParseTime type_error fuel c cs def state out w in
  match r with
  | Ok _ => ∃ runs, stream_runs find read (buildClient net refreshing cfg) w runs w' ∧
      map run_stream runs = List.filter (λ cs, bool_decide (is_Some (find cs))) (cc_Streams catalog) ∧
      msgs = concat (map run_messages runs)
  | Err _ => False
  | Panic m => ∃ c1 cs def w1 sent c2, read c1 cs def [] w1 = Some (Panic m, sent, c2, w')
  end.
Proof.
  intros Hp Hc Hr find read. unfold Read in Hr. rewrite Hc in Hr.
  refine (read_streams_runs find read Hp _ _ _ _ _ _ _ _ Hr). intros c cs def out w1. apply readStream_prepend.
Qed.
End errors.

(** ** Every record written is accounted for *)

Lemma marshal_inputs records b :
  marshal_body (Some (VMap {[ "inputs" := VSlice (map (λ r, VMap (batch_input r)) records) ]})) = Ok b →
  ∃ l, b = Some (RawDoc (JObj [("inputs", JArr l)])) ∧ length l = length records.
Proof.
  rewrite <- (length_map batch_input records), <- (map_map batch_input VMap). apply marshal_list.
Qed.

(** An API that takes a batch as a whole says so, with a result for each of its inputs if it lists any. *)
Definition honest {W} (json_doc : string → RawMessage) (net : Request → W → res HTTPResponse * W) : Prop :=
  ∀ rq w h w' t l, net rq w = (Ok h, w') → r_StatusCode h < 400 → r_Body h = Ok t →
    rq_Body rq = Some (RawDoc (JObj [("inputs", JArr l)])) →
    t ≠ "" ∧ ∃ body, decode_body json_doc t = Some body ∧ body !! "status" = Some (VString "COMPLETE") ∧
      ∀ results, body !! "results" = Some (VSlice results) → length results = length l.

Section writing.
Context {W : Type} `{Hrt : Runtime W} `{Hurl : UrlLib}.
Context (json_doc : string → RawMessage) (url_error : string → error) (ParseTime : string → option Z).
Context (type_error : string → json → error) (net : Request → W → res HTTPResponse * W).
Context (refreshing : OAuthConfig → W → res string * W).
Hypothesis Hhonest : honest json_doc net.

Definition on_net (c : RESTClient W) : Prop := client c = net ∧ max_size c < int64_max.

Lemma flushBatch_accounts c stream records w n errs c' w' :
  on_net c → flushBatch json_doc url_error ParseTime c stream records w = (Ok (n, errs), c', w') →
  on_net c' ∧ 0 <= n ∧ n + Z.of_nat (length errs) = Z.of_nat (length records).
Proof using Hhonest.
  intros [Hc Hm]. unfold flushBatch.
  assert (Hfw : ∀ msg, Z.of_nat (length (failed_writes msg records)) = Z.of_nat (length records)).
  { intros msg. unfold failed_writes. by rewrite length_map. }
  destruct (streamDefs !! stream) as [def|]; [|intros [= <- <- <- <-]; by rewrite Hfw].
  unfold Post. destruct (do_request _ _ _ c "POST" _ _ w) as [[r c1] w1] eqn:Hd.
  apply do_request_result in Hd as [Hs Hr]; [|done].
  assert (Hon : on_net c1).
  { split; [by rewrite <- (proj1 Hs)|by rewrite <- (max_size_same _ _ Hs)]. }
  destruct r as [resp|e|pm]; [| |done].
  2:{ intros [= <- <- <- <-]. by rewrite Hfw. }
  intros [= Hp <- <-]. split; [done|].
  destruct (Hr resp eq_refl) as (b & Hb & rq & w2 & h & t & Hrq & Hcl & Hst & Ht & _ & _ & Hbody).
  apply marshal_inputs in Hb as (l & -> & Hl). rewrite Hc in Hcl. destruct Hrq as (_ & _ & Hrb).
  destruct (Hhonest rq w2 h w1 t l Hcl Hst Ht Hrb) as (Hne & body & Hdec & Hstat & Hres).
  rewrite bool_decide_false, Hdec in Hbody by done. cbn [default] in Hbody. rewrite Hbody in Hp.
  unfold parseHSBatchResults in Hp. cbn in Hp. rewrite Hstat in Hp.
  rewrite bool_decide_true in Hp by done.
  destruct (body !! "results") as [v|] eqn:Hv; [|injection Hp as <- <-; simpl; lia].
  destruct v; injection Hp as <- <-; simpl; try lia.
  rewrite (Hres _ eq_refl), Hl. simpl. lia.
Qed.

Lemma buildClient_on_net cfg : on_net (buildClient net refreshing cfg).
Proof.
  unfold on_net, buildClient, NewRESTClient. destruct (hc_OAuth cfg) as [oc|]; [by vm_compute|].
  case_bool_decide; by vm_compute.
Qed.

(** C10: no record is lost in writing: against an API that takes its batches as a whole, the records
    counted as written and the errors reported are together as many as the records of the
    input, those that could not be decoded and those of unknown streams included. *)
Theorem Write_accounts config input w result :
  zcount is_record input < int64_max →
  Write json_doc url_error ParseTime type_error net refreshing config input w = Ok result →
  wr_RecordsWritten result + Z.of_nat (length (wr_Errors result)) = zcount is_record input.
Proof using Hhonest.
  intros Hsmall. unfold Write.
  destruct (parseHSConfig type_error config) as [cfg|e|m]; [|done..]. cbn [mbind outcome_bind].
  intros Hw. apply (write_all_tallied _ _ each_accounted on_net) in Hw; [apply Hw| |apply buildClient_on_net|done].
  intros c stream records w0 n errs c' w' Hon _ Hf. unfold each_accounted.
  destruct (flushBatch_accounts _ _ _ _ _ _ _ _ Hon Hf) as (? & ? & ?). split; [done|lia].
Qed.
End writing.

(** ** Concrete runs *)

#[local] Existing Instance clock_runtime.
#[local] Existing Instance plain_urls.
#[local] Existing Instance plain_laws.

Definition no_type_error (field : string) (j : json) : error := ErrText ("cannot unmarshal " +:+ json_kind j).
Definition no_refresh (oc : OAuthConfig) (w : Z) : res string * Z := (Err (ErrText "oauth2: no token"), w).
Definition key_config : RawMessage := RawDoc (JObj [("api_key", JStr "pat-1")]).

(** Owners on two pages. *)
Definition owner (id name : string) : json := JObj [("id", JStr id); ("properties", JObj [("name", JStr name)])].
Definition owner_docs (t : string) : RawMessage :=
  if bool_decide (t = "p1")
  then RawDoc (JObj [("results", JArr [owner "1" "Ada"]); ("paging", JObj [("next", JObj [("after", JStr "17")])])])
  else RawDoc (JObj [("results", JArr [owner "2" "Bob"])]).
Definition owner_net (rq : Request) (w : Z) : res HTTPResponse * Z :=
  (Ok (resp200 (if bool_decide (rq_URL rq = "https://api.hubapi.com/crm/v3/objects/owners?limit=100") then "p1" else "p2")), w + 1).
Definition owners : ConfiguredStream :=
  mkConfiguredStream (mkStream "owners" "" "Owners" RawEmpty [] [] true []) SyncModeIncremental DestSyncModeAppend [] [].
Definition owners_def : streamDef := mkStreamDef "owners" "id" false.
Definition owner_client : RESTClient Z := buildClient owner_net no_refresh (mkHsConfig None "pat-1").
Definition owner_page (t : string) : obj := default ∅ (decode_body owner_docs t).

Lemma owner_client_fields : client owner_client = owner_net ∧ max_size owner_client = defaultMaxResponseSize.
Proof. by split; vm_compute. Qed.

Lemma owner_answers (after t : string) :
  is_Some (Parse (baseURL owner_client +:+ list_path owners_def None after)) →
  (owner_net (mkRequest "" (baseURL owner_client +:+ list_path owners_def None after) None ∅) 0).1 = Ok (resp200 t) →
  fits defaultMaxResponseSize t = true → t ≠ "" → is_Some (decode_body owner_docs t) →
  list_answers owner_docs owner_client owners_def None after (owner_page t).
Proof.
  intros Hu Hn Hf Ht [body Hb]. split; [exact Hu|]. intros rq w (_ & Hurl & _).
  destruct owner_client_fields as [-> ->].
  exists (resp200 t), t, (w + 1). unfold owner_page. rewrite Hb.
  split_and!; [|done|done|done|done|done]. unfold owner_net in *. rewrite Hurl.
  exact (f_equal (λ x, (x, w + 1)) Hn).
Qed.

Lemma readStream_complete_witness :
  ∃ msgs c' w',
    readStream owner_docs no_url_error no_time no_type_error 2 owner_client owners owners_def ∅ [] 0 = Some (Ok tt, msgs, c', w') ∧
    map sent_record msgs = map (λ f, Some ("owners", marshal_or_empty f))
      (flat_items (page_results (owner_page "p1") ++ page_results (owner_page "p2"))).
Proof.
  apply (λ Hp Hq, readStream_complete owner_docs no_url_error no_time no_type_error owner_client Hp Hq owners owners_def ∅
           (page_results (owner_page "p1") ++ page_results (owner_page "p2")) 2 2 owner_client [] 0).
  - split_and!; [done|done|vm_compute; discriminate|vm_compute; reflexivity].
  - done.
  - done.
  - done.
  - cbv zeta. change (bool_decide (cs_SyncMode owners = SyncModeIncremental) && hasSearch owners_def) with false. cbv iota.
    eapply (listing_more _ "" (owner_page "p1") "17").
    + apply owner_answers; [vm_compute; by eexists|vm_compute; reflexivity|vm_compute; reflexivity|discriminate|vm_compute; by eexists].
    + vm_compute. discriminate.
    + vm_compute. reflexivity.
    + apply listing_last.
      * apply owner_answers; [vm_compute; by eexists|vm_compute; reflexivity|vm_compute; reflexivity|discriminate|vm_compute; by eexists].
      * vm_compute. discriminate.
      * vm_compute. reflexivity.
Defined.

(** The network is down: four attempts, and success with a log message. *)
Definition down_net (rq : Request) (w : Z) : res HTTPResponse * Z := (Err (ErrText "connection refused"), w).

Lemma hs_never_cancelled (w : Z) : poll w = None.
Proof. done. Qed.

Lemma Read_reports_success_witness :
  ∃ runs, map run_stream runs = [owners] ∧
    [error_log "owners" (ErrWrapf "list API" (ErrWrapf "max retries exceeded"
       (ErrWrapf "http request" (ErrText "connection refused")))) 3500000000] = concat (map run_messages runs).
Proof.
  assert (Hrun : Read owner_docs no_url_error no_time no_type_error down_net no_refresh 1 key_config
    (mkConfiguredCatalog [owners]) ∅ 0
  = Some (Ok tt, [error_log "owners" (ErrWrapf "list API" (ErrWrapf "max retries exceeded"
                    (ErrWrapf "http request" (ErrText "connection refused")))) 3500000000], 3500000000))
    by (vm_compute; reflexivity).
  destruct (Read_reports_success owner_docs no_url_error no_time no_type_error down_net no_refresh 1 key_config
    (mkHsConfig None "pat-1") (mkConfiguredCatalog [owners]) ∅ 0 _ _ _ hs_never_cancelled ltac:(vm_compute; reflexivity) Hrun)
    as (runs & _ & Hs & Hm).
  exists runs. split; [exact Hs|exact Hm].
Defined.

(** A record that is written, one that is not JSON, one of an unknown stream. *)
Definition complete_docs (t : string) : RawMessage := RawDoc (JObj [("status", JStr "COMPLETE")]).
Definition three_messages : list Message :=
  [record_message (mkRec "contacts" "" (RawDoc (JObj [("id", JStr "7"); ("email", JStr "a@b.c")])) 0);
   record_message (mkRec "contacts" "" (RawInvalid "unexpected end of JSON input") 0);
   record_message (mkRec "invoices" "" (RawDoc (JObj [("id", JStr "8")])) 0)].

Lemma complete_honest : honest complete_docs (same_net "x").
Proof.
  intros rq w h w' t l [= <- _] _ [= <-] _. split; [discriminate|]. eexists. split; [vm_compute; reflexivity|].
  split; [vm_compute; reflexivity|]. intros results H. by vm_compute in H.
Qed.

Lemma Write_accounts_witness :
  let result := Write complete_docs no_url_error no_time no_type_error (same_net "x") no_refresh key_config three_messages 0 in
  ∃ r, result = Ok r ∧ wr_RecordsWritten r = 1 ∧ wr_RecordsWritten r + Z.of_nat (length (wr_Errors r)) = 3.
Proof.
  cbv zeta. destruct (Write _ _ _ _ _ _ _ _ _) as [r|e|m] eqn:Hr.
  2,3: exfalso; vm_compute in Hr; discriminate.
  exists r. split; [reflexivity|]. split.
  - assert (Hw : wr_RecordsWritten <$> Write complete_docs no_url_error no_time no_type_error (same_net "x") no_refresh key_config three_messages 0 = Ok 1)
      by (vm_compute; reflexivity).
    rewrite Hr in Hw. by injection Hw.
  - apply (Write_accounts complete_docs no_url_error no_time no_type_error (same_net "x") no_refresh complete_honest
             key_config three_messages 0 r); [vm_compute; reflexivity|exact Hr].
Defined.
