(* ===== verification/Chorus.v ===== *)
(** * The Chorus connector: [connectors/chorus/chorus.go]

    A source: streams are read by offset, a hundred records a page, or on a single page. *)

From S2P Require Import Prelude GoStrings Errors Float Value Protocol JsonDecode Urls Pagination RestClient PagedFetch RestConnector.

Definition connectorName : string := "chorus".
Definition ch_baseURL : string := "https://chorus.ai/api/v1".
Definition pageSize : nat := 100.

Record chorusStreamDef := mkStreamDef { listPath : string; resultsField : string; pk : string; dateFilter : string; hasPagination : bool }.
Definition streamDefs : gmap string chorusStreamDef :=
  {[ "meetings" := mkStreamDef "/meetings" "meetings" "id" "updatedAfter" true;
     "calls" := mkStreamDef "/calls" "calls" "id" "updatedAfter" true;
     "trackers" := mkStreamDef "/trackers" "trackers" "id" "" false;
     "insights" := mkStreamDef "/insights" "insights" "id" "fromDate" true;
     "participants" := mkStreamDef "/participants" "participants" "id" "updatedAfter" true ]}.

(** The page, and the largest date seen. *)
Abbreviation position := (nat * string)%type.

Definition offset_path (def : chorusStreamDef) (dateParam : string) (page : nat) : string :=
  let params := (if hasPagination def then ["offset=" +:+ pretty (page * pageSize)%nat; "limit=" +:+ pretty pageSize] else [])
                ++ (if bool_decide (dateParam = "") || bool_decide (dateFilter def = "") then []
                    else [dateFilter def +:+ "=" +:+ dateParam]) in
  listPath def +:+ (if bool_decide (params = []) then "" else "?" +:+ Join params "&").

Section connector.
Context {W : Type} `{Hrt : Runtime W} `{Hurl : UrlLib}.
Context (json_doc : string → RawMessage) (url_error : string → error) (ParseTime : string → option Z).
Context (type_error : string → json → error).
Context (net : Request → W → res HTTPResponse * W).              (** the default [http.Client] *)

(** The configuration is the API token. *)
Definition parseChorusConfig (raw : RawMessage) : res string :=
  match unmarshal_struct type_error "" (λ acc e, if key_matches "api_token" e.1
                                      then string_member type_error e.1 acc.1 e.2 acc.2 else acc) raw with
  | Ok t => if bool_decide (t = "") then Err (NewConnectorError connectorName "parse_config" (ErrText "api_token is required"))
            else Ok t
  | Err e => Err (NewConnectorError connectorName "parse_config" e)
  | Panic m => Panic m
  end.

Definition buildClient (token : string) : RESTClient W :=
  NewRESTClient net ch_baseURL [WithAPIKey ("Bearer " +:+ token) "Authorization"; WithRetry 3 second; WithRateLimit (f_of_Z 5)].

Abbreviation get := (Get json_doc url_error ParseTime).

Definition Check (config : RawMessage) (w : W) : res CheckResult * W :=
  connect_check (parseChorusConfig config) (λ t w, get (buildClient t) "/trackers" w) "Chorus" w.

Definition Discover : Catalog :=
  mkCatalog (map (λ e, static_stream e.1 (object_schema {[ "id" := type_entry "string" ]})
                         (negb (bool_decide (dateFilter e.2 = ""))) "updatedAt" (pk e.2)) (sorted_entries streamDefs)).

Definition by_offset (def : chorusStreamDef) (dateParam : string) : paging (W := W) position := {|
  pg_call := λ s c w, let path := offset_path def dateParam s.1 in wrapping ("GET " +:+ path) (get c path w);
  pg_items := λ body, extractArray body (resultsField def);
  pg_stops := true;
  pg_shape := λ rec, rec;
  pg_seen := λ s rec, (s.1, later_text "updatedAt" s.2 rec);
  pg_next := λ s body, if negb (hasPagination def) || (length (extractArray body (resultsField def)) <? pageSize)%nat
                       then (s, false) else ((s.1 + 1, s.2)%nat, true)
|}.

Definition readStream (fuel : nat) (c : RESTClient W) (cs : ConfiguredStream) (def : chorusStreamDef) (state : state_map)
    (out : list Message) (w : W) : option (res unit * list Message * RESTClient W * W) :=
  let stream := s_Name (cs_Stream cs) in
  let dateParam := if bool_decide (cs_SyncMode cs = SyncModeIncremental) && negb (bool_decide (dateFilter def = ""))
                   then state_text type_error "updatedAt" (state !! stream) else "" in
  then_send (read_pages (by_offset def dateParam) stream fuel (O, "") c out w) (λ s, text_state stream "updatedAt" s.2).

Definition Read (fuel : nat) (config : RawMessage) (catalog : ConfiguredCatalog) (state : state_map) (w : W) :
    option (res unit * list Message * W) :=
  match parseChorusConfig config with
  | Err e => Some (Err e, [], w)
  | Panic m => Some (Panic m, [], w)
  | Ok token => read_streams (λ cs, streamDefs !! s_Name (cs_Stream cs)) (λ c cs def out w, readStream fuel c cs def state out w)
                  (buildClient token) (cc_Streams catalog) [] w
  end.
End connector.

(** ** Reading by offset *)

Section offsets.
Context {W : Type} `{Hrt : Runtime W} `{Hurl : UrlLib}.
Context (json_doc : string → RawMessage) (url_error : string → error) (ParseTime : string → option Z).
Context (type_error : string → json → error) (c0 : RESTClient W).
Hypothesis Hplain : plain_client c0.
Context (def : chorusStreamDef) (dateParam : string) (L : list value).
Hypothesis Hpaged : hasPagination def = true.

(** The API gives the part of [L] that a page asks for. *)
Definition serves : Prop := ∀ page, (page * pageSize ≤ length L)%nat → ∃ body,
  gives json_doc c0 "GET" (baseURL c0 +:+ offset_path def dateParam page) None body ∧
  extractArray body (resultsField def) = take pageSize (drop (page * pageSize) L).

Lemma page_answered page m body :
  gives json_doc c0 "GET" (baseURL c0 +:+ offset_path def dateParam page) None body →
  page_given c0 (by_offset json_doc url_error ParseTime def dateParam) (page, m) body.
Proof using Hplain.
  intros Hg c w Hs. destruct (get_given json_doc url_error ParseTime c0 Hplain _ _ c w Hg Hs) as (resp & c' & w' & He & Hs' & Hb).
  exists resp, c', w'. split; [|done]. cbn [pg_call by_offset fst]. by rewrite He.
Qed.

Lemma page_objects_app l1 l2 : page_objects (l1 ++ l2) = page_objects l1 ++ page_objects l2.
Proof. apply omap_app. Qed.

Lemma seen_foldl recs page m :
  foldl (pg_seen (by_offset json_doc url_error ParseTime def dateParam)) (page, m) recs = (page, foldl (later_text "updatedAt") m recs).
Proof. revert m. induction recs as [|r recs IH]; intros m; [done|apply IH]. Qed.

Lemma offset_pages : serves → ∀ k page m, (page * pageSize ≤ length L)%nat → (length (drop (page * pageSize) L) / pageSize = k)%nat →
  ∃ page', pages c0 (by_offset json_doc url_error ParseTime def dateParam) (page, m) (page_objects (drop (page * pageSize) L))
             (page', foldl (later_text "updatedAt") m (page_objects (drop (page * pageSize) L))) (S k).
Proof using Hplain Hpaged.
  intros Hserves k. induction k as [|k IH]; intros page m Hle Hk; destruct (Hserves page Hle) as (body & Hg & Hi);
    pose proof (page_answered page m body Hg) as Hp; set (rest := drop (page * pageSize) L) in *;
    assert (Hrecs : page_records (by_offset json_doc url_error ParseTime def dateParam) body = page_objects (take pageSize rest))
      by (unfold page_records; cbn; by rewrite map_id, Hi).
  - assert (Hshort : (length rest < pageSize)%nat) by (apply Nat.div_small_iff in Hk; [done|discriminate]).
    rewrite take_ge in Hrecs, Hi by lia. exists page. destruct (decide (rest = [])) as [He|He].
    + rewrite He. apply (pages_none c0 _ _ body); [done|]. unfold page_ends. cbn. rewrite Hi, He. done.
    + rewrite <- Hrecs. apply pages_last; [done|unfold page_ends; cbn; rewrite Hi; by apply bool_decide_eq_false|].
      rewrite seen_foldl. cbn [pg_next by_offset]. rewrite Hpaged, Hi. cbn [negb orb].
      by rewrite (proj2 (Nat.ltb_lt _ _) Hshort).
  - assert (Hlong : (pageSize ≤ length rest)%nat).
    { destruct (decide (pageSize ≤ length rest)%nat) as [|Hn]; [done|].
      rewrite Nat.div_small in Hk by lia. discriminate. }
    assert (Hdrop : drop pageSize rest = drop (S page * pageSize) L).
    { unfold rest. rewrite drop_drop. f_equal. lia. }
    destruct (IH (S page) (foldl (later_text "updatedAt") m (page_objects (take pageSize rest)))) as [page' IHp].
    { unfold rest in Hlong. rewrite length_drop in Hlong. lia. }
    { rewrite <- Hdrop, length_drop. replace (length rest) with (length rest - pageSize + 1 * pageSize)%nat in Hk by lia.
      rewrite Nat.div_add, Nat.add_1_r in Hk by discriminate. by injection Hk. }
    rewrite <- Hdrop in IHp. exists page'. rewrite <- (take_drop pageSize rest) at 1 2.
    rewrite page_objects_app, foldl_app, <- Hrecs. eapply pages_more; [done| | |].
    + unfold page_ends. cbn. rewrite Hi. apply bool_decide_eq_false. intros Ht. apply (f_equal length) in Ht.
      rewrite length_take, Nat.min_l in Ht by done. discriminate Ht.
    + rewrite seen_foldl. cbn [pg_next by_offset]. rewrite Hpaged, Hi, length_take. cbn [negb orb].
      rewrite (proj2 (Nat.ltb_ge _ _)) by lia. cbn [fst snd]. rewrite Nat.add_1_r. reflexivity.
    + by rewrite Hrecs.
Qed.

(** Reading a stream by offset gives every object of the API's list once and in its order, in one request for
    every full page and one more, and then the largest date among them as the state of the stream. *)
Theorem chorus_read_complete cs state fuel c out w :
  (∀ w : W, poll w = None) → same_setup c0 c → (length L / pageSize < fuel)%nat →
  let name := s_Name (cs_Stream cs) in
  dateParam = (if bool_decide (cs_SyncMode cs = SyncModeIncremental) && negb (bool_decide (dateFilter def = ""))
               then state_text type_error "updatedAt" (state !! name) else "") →
  serves →
  ∃ msgs c' w', readStream json_doc url_error ParseTime type_error fuel c cs def state out w =
      Some (Ok tt, (out ++ msgs) ++ text_state name "updatedAt" (foldl (later_text "updatedAt") "" (page_objects L)), c', w') ∧
    map sent_record msgs = map (λ f, Some (name, marshal_or_empty f)) (page_objects L).
Proof using Hplain Hpaged.
  intros Hpoll Hs Hf name Hd Hserves. subst name. unfold readStream. cbv zeta. rewrite <- Hd.
  destruct (offset_pages Hserves _ O "" (Nat.le_0_l _) eq_refl) as [page' Hp]. cbn [Nat.mul drop] in Hp.
  destruct (read_pages_complete c0 _ (s_Name (cs_Stream cs)) _ _ _ _ Hpoll Hp fuel c out w Hs) as (msgs & c' & w' & Hr & Hm).
  { exact Hf. }
  exists msgs, c', w'. split; [|done]. by rewrite Hr.
Qed.
End offsets.

(** ** Concrete runs *)

#[local] Existing Instance clock_runtime.
#[local] Existing Instance plain_urls.
#[local] Existing Instance plain_laws.

Definition call_doc (id at_ : string) : json := JObj [("id", JStr id); ("updatedAt", JStr at_)].
Definition many_calls : list json := call_doc "0" "2024-03-01" :: replicate 99 (JObj []).
Definition call_docs (t : string) : RawMessage :=
  RawDoc (JObj [("calls", JArr (if bool_decide (t = "p1") then many_calls else [call_doc "2" "2024-02-01"]))]).
Definition calls_net (rq : Request) (w : Z) : res HTTPResponse * Z :=
  (Ok (resp200 (if bool_decide (rq_URL rq = "https://chorus.ai/api/v1/calls?offset=0&limit=100") then "p1" else "p2")), w + 1).
Definition calls_def : chorusStreamDef := mkStreamDef "/calls" "calls" "id" "updatedAfter" true.
Definition calls_stream : ConfiguredStream :=
  mkConfiguredStream (mkStream "calls" "" "Calls" RawEmpty [] [] true []) SyncModeFullRefresh DestSyncModeAppend [] [].
Definition calls_client : RESTClient Z := buildClient calls_net "t".
Definition call_page (t : string) : obj := default ∅ (decode_body call_docs t).
Definition call_list : list value := extractArray (call_page "p1") "calls" ++ extractArray (call_page "p2") "calls".

Lemma calls_served : serves call_docs calls_client calls_def "" call_list.
Proof.
  intros page Hle. assert (Hc : page = O ∨ page = 1%nat).
  { assert (Hl : length call_list = 101%nat) by (vm_compute; reflexivity). rewrite Hl in Hle. unfold pageSize in Hle. lia. }
  destruct Hc as [->| ->]; [exists (call_page "p1")|exists (call_page "p2")]; (split; [|vm_compute; reflexivity]).
  all: split; [vm_compute; by eexists|]; intros rq w (_ & Hurl & _); eexists _, _, _; split_and!;
    [unfold calls_client, buildClient, NewRESTClient; cbn; unfold calls_net; rewrite Hurl; reflexivity|reflexivity|vm_compute; reflexivity..| |];
    [discriminate|vm_compute; reflexivity].
Qed.

(** A hundred calls and one more: two requests, and the largest date as the state. *)
Lemma chorus_read_complete_witness :
  ∃ msgs c' w', readStream call_docs no_url_error no_time (λ f j, ErrText f) 2 calls_client calls_stream calls_def ∅ [] 0 =
      Some (Ok tt, msgs ++ text_state "calls" "updatedAt" "2024-03-01", c', w') ∧
    map sent_record msgs = map (λ f, Some ("calls", marshal_or_empty f)) (page_objects call_list) ∧ length msgs = 101%nat.
Proof.
  destruct (chorus_read_complete call_docs no_url_error no_time (λ f j, ErrText f) calls_client
              ltac:(split_and!; [done|done|vm_compute; discriminate|vm_compute; reflexivity]) calls_def "" call_list eq_refl
              calls_stream ∅ 2 calls_client [] 0 (λ _, eq_refl) ltac:(done) ltac:(vm_compute; lia) eq_refl calls_served)
    as (msgs & c' & w' & Hr & Hm).
  assert (Hs : foldl (later_text "updatedAt") "" (page_objects call_list) = "2024-03-01") by (vm_compute; reflexivity).
  exists msgs, c', w'. split_and!; [rewrite <- Hs; exact Hr|exact Hm|].
  apply (f_equal length) in Hm. rewrite !length_map in Hm. rewrite Hm. vm_compute. reflexivity.
Defined.
