(* ===== verification/Gong.v ===== *)
(** * The Gong connector: [connectors/gong/gong.go]

    A source: streams are searched or listed with a cursor; a counter of the requests of the day, which the worker may
    give the connector, is asked before each page. *)

From Stdlib Require Import Ascii.
From S2P Require Import Prelude GoStrings Encoding Errors Float Value Protocol JsonDecode Urls Pagination RestClient PagedFetch RestConnector.

Definition connectorName : string := "gong".
Definition go_baseURL : string := "https://api.gong.io".
Definition dailyLimit : Z := 10000.

Record gongStreamDef := mkStreamDef {
  listPath : string; cursorField : string; resultsField : string; pk : string; usePOST : bool; bodyKey : string
}.
Definition streamDefs : gmap string gongStreamDef :=
  {[ "calls" := mkStreamDef "/v2/calls" "records.cursor" "calls" "id" true "filter";
     "users" := mkStreamDef "/v2/users" "records.cursor" "users" "id" false "";
     "meetings" := mkStreamDef "/v2/meetings" "records.cursor" "meetings" "id" true "filter";
     "scorecards" := mkStreamDef "/v2/settings/scorecards" "" "scorecards" "scorecardId" false "";
     "trackers" := mkStreamDef "/v2/settings/trackers" "" "trackers" "trackerId" false "";
     "stats" := mkStreamDef "/v2/stats/activity/aggregate" "records.cursor" "stats" "" true "filter" ]}.

Record gongConfig := mkConfig { AccessKey : string; AccessSecret : string }.

(** [Increment key delta limit]: the new total, and an error if the limit would be exceeded. *)
Definition DailyLimiter (W : Type) : Type := string → Z → Z → W → (Z * option error) * W.

(** The cursor that a page gives, unless it is the one the page was asked with. *)
Definition next_cursor (cursor : string) (body : obj) : option string :=
  match body !! "records" with
  | Some (VMap records) =>
      let next := vtext (records !! "cursor") in
      if bool_decide (next = "") || bool_decide (next = cursor) then None else Some next
  | _ => None
  end.

Definition cursor_path (path cursor : string) : string :=
  if bool_decide (cursor = "") then path
  else path +:+ (if contains_byte path "?"%char then "&" else "?") +:+ "cursor=" +:+ cursor.

Section connector.
Context {W : Type} `{Hrt : Runtime W} `{Hurl : UrlLib}.
Context (json_doc : string → RawMessage) (url_error : string → error) (ParseTime : string → option Z).
Context (type_error : string → json → error).
Context (time_text : Z → string)                                 (** [Format(time.RFC3339)] *)
        (net : Request → W → res HTTPResponse * W)               (** the default [http.Client] *)
        (limiter : option (DailyLimiter W)).

Definition config_member (acc : gongConfig * option error) (e : string * json) : gongConfig * option error :=
  let '(cfg, err) := acc in
  if key_matches "access_key" e.1
  then let '(s, err) := string_member type_error e.1 (AccessKey cfg) e.2 err in (mkConfig s (AccessSecret cfg), err)
  else if key_matches "access_secret" e.1
  then let '(s, err) := string_member type_error e.1 (AccessSecret cfg) e.2 err in (mkConfig (AccessKey cfg) s, err)
  else acc.

Definition parseGongConfig (raw : RawMessage) : res gongConfig :=
  match unmarshal_struct type_error (mkConfig "" "") config_member raw with
  | Ok cfg => if bool_decide (AccessKey cfg = "") || bool_decide (AccessSecret cfg = "")
              then Err (NewConnectorError connectorName "parse_config" (ErrText "access_key and access_secret are required"))
              else Ok cfg
  | Err e => Err (NewConnectorError connectorName "parse_config" e)
  | Panic m => Panic m
  end.

Definition buildClient (cfg : gongConfig) : RESTClient W :=
  let creds := Base64Encode (bytes_of (AccessKey cfg +:+ ":" +:+ AccessSecret cfg)) in
  NewRESTClient net go_baseURL
    [WithAPIKey ("Basic " +:+ creds) "Authorization"; WithRetry 3 (500 * millisecond); WithRateLimit (f_of_Z 3)].

Definition checkDailyLimit (w : W) : option error * W :=
  match limiter with
  | None => (None, w)
  | Some Increment =>
      match Increment "gong:daily" 1 dailyLimit w with
      | ((count, Some e), w) =>
          (Some (ErrWrapf ("gong daily limit exceeded (" +:+ pretty count +:+ "/" +:+ pretty dailyLimit +:+ ")") e), w)
      | ((_, None), w) => (None, w)
      end
  end.

(** A call behind the counter. *)
Definition counted_call (c : RESTClient W) (call : W → res Response * RESTClient W * W) (w : W) : res Response * RESTClient W * W :=
  match checkDailyLimit w with
  | (Some e, w) => (Err e, c, w)
  | (None, w) => call w
  end.

Definition Check (config : RawMessage) (w : W) : res CheckResult * W :=
  connect_check (parseGongConfig config) (λ cfg w, Get json_doc url_error ParseTime (buildClient cfg) "/v2/users" w) "Gong" w.

Definition Discover : Catalog :=
  mkCatalog (map (λ e, static_stream e.1 (object_schema {[ "id" := type_entry "string" ]}) (usePOST e.2) "started" (pk e.2))
               (sorted_entries streamDefs)).

Definition search_body (def : gongStreamDef) (fromDateTime cursor : string) (now : Z) : obj :=
  let filter : obj := if bool_decide (fromDateTime = "") then ∅ else {[ "fromDateTime" := VString fromDateTime ]} in
  let filter := <["toDateTime" := VString (time_text now)]> filter in
  let body : obj := {[ bodyKey def := VMap filter ]} in
  if bool_decide (cursor = "") then body else <["cursor" := VString cursor]> body.

(** The cursor, and the largest time seen. *)
Definition by_search (def : gongStreamDef) (fromDateTime : string) : paging (W := W) (string * string) := {|
  pg_call := λ s c w, let body := search_body def fromDateTime s.1 (clock_of w) in
    counted_call c (λ w, wrapping ("POST " +:+ listPath def)
                           (Post json_doc url_error ParseTime c (listPath def) (Some (VMap body)) w)) w;
  pg_items := λ body, extractArray body (resultsField def);
  pg_stops := false;
  pg_shape := λ rec, rec;
  pg_seen := λ s rec, (s.1, later_text "started" s.2 rec);
  pg_next := λ s body, match next_cursor s.1 body with Some next => ((next, s.2), true) | None => (s, false) end
|}.

Definition by_list (def : gongStreamDef) : paging (W := W) string := {|
  pg_call := λ cursor c w, let path := cursor_path (listPath def) cursor in
    counted_call c (λ w, wrapping ("GET " +:+ path) (Get json_doc url_error ParseTime c path w)) w;
  pg_items := λ body, extractArray body (resultsField def);
  pg_stops := false;
  pg_shape := λ rec, rec;
  pg_seen := λ cursor _, cursor;
  pg_next := λ cursor body, if bool_decide (cursorField def = "") then (cursor, false)
                            else match next_cursor cursor body with Some next => (next, true) | None => (cursor, false) end
|}.

Abbreviation read_result := (option (res unit * list Message * RESTClient W * W)).

Definition readViaPOST (fuel : nat) (c : RESTClient W) (stream : string) (def : gongStreamDef) (fromDateTime : string)
    (out : list Message) (w : W) : read_result :=
  then_send (read_pages (by_search def fromDateTime) stream fuel ("", "") c out w) (λ s, text_state stream "fromDateTime" s.2).

Definition readViaGET (fuel : nat) (c : RESTClient W) (stream : string) (def : gongStreamDef) (out : list Message) (w : W) : read_result :=
  then_send (read_pages (by_list def) stream fuel "" c out w) (λ _, []).

Definition readStream (fuel : nat) (c : RESTClient W) (cs : ConfiguredStream) (def : gongStreamDef) (state : state_map)
    (out : list Message) (w : W) : read_result :=
  let stream := s_Name (cs_Stream cs) in
  let fromDateTime := if bool_decide (cs_SyncMode cs = SyncModeIncremental)
                      then state_text type_error "fromDateTime" (state !! stream) else "" in
  if usePOST def then readViaPOST fuel c stream def fromDateTime out w else readViaGET fuel c stream def out w.

Definition Read (fuel : nat) (config : RawMessage) (catalog : ConfiguredCatalog) (state : state_map) (w : W) :
    option (res unit * list Message * W) :=
  match parseGongConfig config with
  | Err e => Some (Err e, [], w)
  | Panic m => Some (Panic m, [], w)
  | Ok cfg => read_streams (λ cs, streamDefs !! s_Name (cs_Stream cs)) (λ c cs def out w, readStream fuel c cs def state out w)
                (buildClient cfg) (cc_Streams catalog) [] w
  end.
End connector.

(** ** The limit of the day

    [sent] counts the exchanges on the network and [counted] what the limiter has counted. *)
Section limit.
Context {W : Type} `{Hrt : Runtime W} `{Hurl : UrlLib}.
Context (json_doc : string → RawMessage) (url_error : string → error) (ParseTime : string → option Z).
Context (type_error : string → json → error) (time_text : Z → string) (net : Request → W → res HTTPResponse * W).
Context (Increment : DailyLimiter W) (sent counted : W → Z).

Definition exchanged (n : nat) (w w' : W) : Prop := sent w' = sent w + Z.of_nat n ∧ counted w' = counted w.
Context `{HR : !Exchanges W exchanged}.

(** The limiter counts up to its limit, and only what it allows. *)
Definition counts : Prop := ∀ key limit w total err w', Increment key 1 limit w = ((total, err), w') → sent w' = sent w ∧
  match err with None => counted w' = counted w + 1 ∧ counted w' ≤ limit | Some _ => counted w' = counted w end.

(** Four exchanges, the attempts of a call, for what is counted once. *)
Definition within (w w' : W) : Prop :=
  sent w' - sent w ≤ 4 * (counted w' - counted w) ∧ counted w ≤ counted w' ∧ counted w' ≤ Z.max (counted w) dailyLimit.

#[local] Instance within_preorder : PreOrder within.
Proof. split; [intros w|intros w1 w2 w3]; unfold within; lia. Qed.

Definition fair (c : RESTClient W) : Prop := steps_by exchanged c ∧ maxRetries c = 3.

Lemma counted_call_within c text m path body w r c' w' :
  counts → fair c →
  counted_call (Some Increment) c (λ w, wrapping text (do_request json_doc url_error ParseTime c m path body w)) w = (r, c', w') →
  fair c' ∧ within w w'.
Proof using HR.
  intros Hcount [Hsteps Hr]. unfold counted_call, checkDailyLimit.
  destruct (Increment _ _ _ w) as [[count err] w1] eqn:Hi. apply Hcount in Hi as [Hsent Hi].
  destruct err as [e|]; [intros [= <- <- <-]; split; [done|]; unfold within; lia|].
  destruct (do_request _ _ _ _ _ _ _ w1) as [[r1 c1] w2] eqn:Hd.
  pose proof (do_request_steps json_doc url_error ParseTime exchanged c _ _ _ _ _ _ _ Hsteps Hd) as [Hs (k & Hk & H1 & H2)].
  rewrite Hr in Hk. assert (Hf : fair c1).
  { split; [by eapply steps_by_same|]. by destruct Hs as (_ & _ & <- & _). }
  assert (Hw : within w w2) by (unfold within; cbn in Hk; lia).
  destruct r1; by intros [= <- <- <-].
Qed.

Lemma then_send_world {S} (r : option (res S * list Message * RESTClient W * W)) last r' out' c' w' :
  then_send r last = Some (r', out', c', w') → ∃ r0 out0, r = Some (r0, out0, c', w').
Proof. destruct r as [[[[[s|e|m] out] c] w]|]; intros [= <- <- <- <-]; by eexists _, _. Qed.

(** A stream sends at most four requests for every one that the limiter counts, and none beyond the limit is
    counted: reading keeps within four times the daily limit, whatever the API answers. *)
Theorem gong_daily_limit fuel c cs def state out w r out' c' w' :
  counts → fair c →
  readStream json_doc url_error ParseTime type_error time_text (Some Increment) fuel c cs def state out w = Some (r, out', c', w') →
  sent w' - sent w ≤ 4 * (counted w' - counted w) ∧ counted w' ≤ Z.max (counted w) dailyLimit.
Proof using HR.
  intros Hcount Hc Hrun. assert (Hw : fair c' ∧ within w w'); [|unfold within in Hw; lia].
  unfold readStream in Hrun. destruct (usePOST def); apply then_send_world in Hrun as (r0 & out0 & Hrun).
  all: revert Hrun; apply (read_pages_keeps _ _ fair within); [|done].
  all: intros s c1 w1 r1 c2 w2 Hc1; by apply counted_call_within.
Qed.
End limit.

(** ** A concrete run *)

#[local] Existing Instance plain_urls.

(** A world with a clock and the two counters. *)
Record day := mkDay { d_clock : Z; d_sent : Z; d_counted : Z }.
#[local] Instance day_runtime : Runtime day := {
  clock_of := d_clock;
  sleep d w := mkDay (d_clock w + d) (d_sent w) (d_counted w);
  select_wait d w := (None, mkDay (d_clock w + d) (d_sent w) (d_counted w));
  poll _ := None
}.
Definition day_limiter : DailyLimiter day := λ _ delta limit w,
  if limit <? d_counted w + delta then ((d_counted w, Some (ErrText "limit")), w)
  else ((d_counted w + delta, None), mkDay (d_clock w) (d_sent w) (d_counted w + delta)).

(** Three server errors before each answer. *)
Definition flaky_users (rq : Request) (w : day) : res HTTPResponse * day :=
  (Ok (mkHTTPResponse (if Z.rem (d_sent w) 4 =? 3 then 200 else 503) ∅ (Ok "users")), mkDay (d_clock w) (d_sent w + 1) (d_counted w)).
Definition user_docs (_ : string) : RawMessage := RawDoc (JObj [("users", JArr [JObj [("id", JStr "1")]])]).
Definition users_def : gongStreamDef := mkStreamDef "/v2/users" "records.cursor" "users" "id" false "".
Definition users_stream : ConfiguredStream :=
  mkConfiguredStream (mkStream "users" "" "Users" RawEmpty [] [] true []) SyncModeFullRefresh DestSyncModeAppend [] [].

#[local] Instance day_exchanges : Exchanges day (exchanged d_sent d_counted).
Proof.
  split; [intros w|intros i j w w1 w2|intros d w|intros d w]; unfold exchanged; cbn [sleep select_wait day_runtime snd d_sent d_counted];
    lia.
Qed.

Lemma day_limiter_counts : counts day_limiter d_sent d_counted.
Proof.
  intros key limit w total err w'. unfold day_limiter. destruct (Z.ltb_spec limit (d_counted w + 1)); intros [= <- <- <-];
    [done|]. split; [done|]. cbn. lia.
Qed.

Definition gong_config : gongConfig := mkConfig "k" "s".
Lemma gong_client_fair : fair d_sent d_counted (buildClient flaky_users gong_config).
Proof. split; [|vm_compute; reflexivity]. split_and!; [intros rq w; split; cbn; lia|done|done]. Qed.

(** Four requests are sent, one is counted. *)
Lemma gong_daily_limit_witness :
  ∃ r out c' w', readStream user_docs no_url_error no_time (λ f j, ErrText f) (λ _, "") (Some day_limiter) 1
      (buildClient flaky_users gong_config) users_stream users_def ∅ [] (mkDay 0 0 0) = Some (r, out, c', w') ∧
    d_sent w' = 4 ∧ d_counted w' = 1 ∧ d_sent w' ≤ 4 * d_counted w' ∧ d_counted w' ≤ dailyLimit.
Proof.
  destruct (readStream _ _ _ _ _ _ _ _ _ _ _ _ _) as [[[[r out] c'] w']|] eqn:Hrun; [|vm_compute in Hrun; discriminate].
  exists r, out, c', w'. split; [done|].
  destruct (gong_daily_limit user_docs no_url_error no_time (λ f j, ErrText f) (λ _, "") day_limiter d_sent d_counted
              1 _ _ _ _ _ _ _ _ _ _ day_limiter_counts gong_client_fair Hrun) as [H1 H2].
  assert (Hw : (λ x, (d_sent x.2, d_counted x.2)) <$>
    readStream user_docs no_url_error no_time (λ f j, ErrText f) (λ _, "") (Some day_limiter) 1
      (buildClient flaky_users gong_config) users_stream users_def ∅ [] (mkDay 0 0 0) = Some (4, 1)) by (vm_compute; reflexivity).
  rewrite Hrun in Hw. injection Hw as Hw1 Hw2. rewrite Hw1, Hw2 in *. split_and!; [done|done|lia|done].
Defined.
