(* ===== verification/Zendesk.v ===== *)
(** * The Zendesk connector: [connectors/zendesk/zendesk.go]

    A bidirectional connector: streams are exported from a cursor on or listed page by page; records are written in
    batches by jobs whose status is polled. *)

From Stdlib Require Import Ascii.
From S2P Require Import Prelude GoStrings Errors Float Value Protocol JsonDecode Urls Pagination RestClient PagedFetch RestConnector.

Definition connectorName : string := "zendesk".
Definition maxJobBatchSize : nat := 100.

Record zdStreamDef := mkStreamDef {
  listPath : string; incrementalPath : string; resultsField : string; pk : string; supportsIncremental : bool;
  writePath : string; updatePath : string
}.
(** The streams that can be exported and written have paths of one form. *)
Definition writable (name : string) : zdStreamDef :=
  mkStreamDef ("/api/v2/" +:+ name +:+ ".json") ("/api/v2/incremental/" +:+ name +:+ "/cursor.json") name "id" true
    ("/api/v2/" +:+ name +:+ "/create_many.json") ("/api/v2/" +:+ name +:+ "/update_many.json").
Definition listed (path field : string) : zdStreamDef := mkStreamDef path "" field "id" false "" "".
Definition streamDefs : gmap string zdStreamDef :=
  {[ "tickets" := writable "tickets"; "users" := writable "users"; "organizations" := writable "organizations";
     "groups" := listed "/api/v2/groups.json" "groups"; "ticket_comments" := listed "/api/v2/ticket_audits.json" "audits";
     "ticket_fields" := listed "/api/v2/ticket_fields.json" "ticket_fields";
     "satisfaction_ratings" := listed "/api/v2/satisfaction_ratings.json" "satisfaction_ratings" ]}.

Record zdConfig := mkZdConfig { Subdomain : string; OAuth : option OAuthConfig; Email : string; APIToken : string }.

Definition zd_baseURL (cfg : zdConfig) : string := "https://" +:+ Subdomain cfg +:+ ".zendesk.com".

(** The text from [n] bytes after the first occurrence of [sep] on. *)
Definition after_first (sep : string) (n : nat) (s : string) : option string :=
  (λ i, String.substring (i + n) (String.length s - (i + n)) s) <$> String.index 0 sep s.

Definition extractPath (fullURL : string) : string :=
  match after_first ".com" 4 fullURL with
  | Some p => p
  | None => match after_first ".zendesk.com" 12 fullURL with Some p => p | None => fullURL end
  end.

Section decode.
Context (type_error : string → json → error).

Definition config_member (acc : zdConfig * option error) (e : string * json) : zdConfig * option error :=
  let '(cfg, err) := acc in
  if key_matches "subdomain" e.1
  then let '(s, err) := string_member type_error e.1 (Subdomain cfg) e.2 err in (mkZdConfig s (OAuth cfg) (Email cfg) (APIToken cfg), err)
  else if key_matches "oauth" e.1
  then let '(oc, err) := oauth_pointer type_error e.1 (OAuth cfg) e.2 err in (mkZdConfig (Subdomain cfg) oc (Email cfg) (APIToken cfg), err)
  else if key_matches "email" e.1
  then let '(s, err) := string_member type_error e.1 (Email cfg) e.2 err in (mkZdConfig (Subdomain cfg) (OAuth cfg) s (APIToken cfg), err)
  else if key_matches "api_token" e.1
  then let '(s, err) := string_member type_error e.1 (APIToken cfg) e.2 err in (mkZdConfig (Subdomain cfg) (OAuth cfg) (Email cfg) s, err)
  else acc.

Definition parseZDConfig (raw : RawMessage) : res zdConfig :=
  let refused e := Err (NewConnectorError connectorName "parse_config" e) in
  match unmarshal_struct type_error (mkZdConfig "" None "" "") config_member raw with
  | Ok cfg =>
      if bool_decide (Subdomain cfg = "") then refused (ErrText "subdomain is required")
      else match OAuth cfg with
           | None => if bool_decide (APIToken cfg = "") then refused (ErrText "either oauth or api_token+email must be provided") else Ok cfg
           | Some _ => Ok cfg
           end
  | Err e => refused e
  | Panic m => Panic m
  end.

Definition zd_state_member (acc : (string * string) * option error) (e : string * json) : (string * string) * option error :=
  let '((cursor, start), err) := acc in
  if key_matches "cursor" e.1
  then let '(s, err) := string_member type_error e.1 cursor e.2 err in ((s, start), err)
  else if key_matches "start_time" e.1
  then let '(s, err) := string_member type_error e.1 start e.2 err in ((cursor, s), err)
  else acc.

(** Where an export starts: the cursor of the state, or its time, or the beginning. *)
Definition resume_at (raw : option RawMessage) : string * string :=
  match unmarshal_struct type_error ("", "") zd_state_member <$> raw with
  | Some (Ok (cursor, start)) =>
      if bool_decide (cursor = "") then ("", if bool_decide (start = "") then "0" else start) else (cursor, "0")
  | _ => ("", "0")
  end.
End decode.

(** What an export notes: its cursor, the latest change, the last cursor it was given. *)
Record export := mkExport { x_cursor : string; x_maxUpdated : string; x_lastCursor : string }.

Definition export_path (def : zdStreamDef) (startTime cursor : string) : string :=
  incrementalPath def +:+ (if bool_decide (cursor = "") then "?start_time=" +:+ startTime else "?cursor=" +:+ cursor).

Definition next_export (s : export) (body : obj) : export * bool :=
  let endOfStream := match body !! "end_of_stream" with Some (VBool b) => b | _ => false end in
  let after := vtext (body !! "after_cursor") in
  let last := if bool_decide (after = "") then x_lastCursor s else after in
  if endOfStream || bool_decide (after = "") then (mkExport (x_cursor s) (x_maxUpdated s) last, false)
  else (mkExport after (x_maxUpdated s) last, true).

(** The state of an export: the cursor and the time it has. *)
Definition export_state (s : export) : list (string * json) :=
  omit_when (bool_decide (x_lastCursor s = "")) "cursor" (JStr (x_lastCursor s)) ++
  omit_when (bool_decide (x_maxUpdated s = "")) "start_time" (JStr (x_maxUpdated s)).
Definition state_messages (stream : string) (s : export) : list Message :=
  match export_state s with
  | [] => []
  | members => [state_message (mkState StateTypeStream stream (RawDoc (JObj members)))]
  end.

Section connector.
Context {W : Type} `{Hrt : Runtime W} `{Hurl : UrlLib}.
Context (json_doc : string → RawMessage) (url_error : string → error) (ParseTime : string → option Z).
Context (type_error : string → json → error).
Context (net : Request → W → res HTTPResponse * W)               (** the default [http.Client] *)
        (refreshing : OAuthConfig → W → res string * W).         (** [oauth2.Config.TokenSource] *)

Definition buildClientWithRate (cfg : zdConfig) (ratePerSec : float64) : RESTClient W :=
  NewRESTClient net (zd_baseURL cfg)
    ([WithRetry 3 (500 * millisecond); WithRateLimit ratePerSec] ++
     match OAuth cfg with
     | Some oc => [WithOAuth2 (TokenSource refreshing (default_token_url (zd_baseURL cfg +:+ "/oauth/tokens") oc))]
     | None => if bool_decide (APIToken cfg = "") then [] else [WithAPIKey ("Bearer " +:+ APIToken cfg) "Authorization"]
     end).
Definition buildClient (cfg : zdConfig) : RESTClient W := buildClientWithRate cfg (f_of_Z 10).
(** Ten requests a minute. *)
Definition buildIncrementalClient (cfg : zdConfig) : RESTClient W := buildClientWithRate cfg (f_div (f_of_Z 10) (f_of_Z 60)).

Abbreviation get := (Get json_doc url_error ParseTime).
Abbreviation read_result := (option (res unit * list Message * RESTClient W * W)).

Definition Check (config : RawMessage) (w : W) : res CheckResult * W :=
  connect_check (parseZDConfig type_error config) (λ cfg w, get (buildClient cfg) "/api/v2/users/me.json" w) "Zendesk" w.

Definition Discover : Catalog :=
  mkCatalog (map (λ e, static_stream e.1 (object_schema {[ "id" := type_entry "integer" ]}) (supportsIncremental e.2)
                         "updated_at" (pk e.2)) (sorted_entries streamDefs)).

(** *** Reading *)

Definition by_export (def : zdStreamDef) (startTime : string) : paging (W := W) export := {|
  pg_call := λ s c w, wrapping "incremental export" (get c (export_path def startTime (x_cursor s)) w);
  pg_items := λ body, extractArray body (resultsField def);
  pg_stops := false;
  pg_shape := λ rec, rec;
  pg_seen := λ s rec, mkExport (x_cursor s) (later_text "updated_at" (x_maxUpdated s) rec) (x_lastCursor s);
  pg_next := next_export
|}.

Definition readIncremental (fuel : nat) (c : RESTClient W) (stream : string) (def : zdStreamDef) (state : state_map)
    (out : list Message) (w : W) : read_result :=
  let '(cursor, startTime) := resume_at type_error (state !! stream) in
  then_send (read_pages (by_export def startTime) stream fuel (mkExport cursor "" "") c out w) (state_messages stream).

(** A listing keeps the path of its page. *)
Definition by_list (def : zdStreamDef) : paging (W := W) string := {|
  pg_call := λ path c w, wrapping "list API" (get c path w);
  pg_items := λ body, extractArray body (resultsField def);
  pg_stops := false;
  pg_shape := λ rec, rec;
  pg_seen := λ path _, path;
  pg_next := λ _ body, let next := vtext (body !! "next_page") in
                       let path := if bool_decide (next = "") then "" else extractPath next in
                       (path, negb (bool_decide (path = "")))
|}.

Definition readFullRefresh (fuel : nat) (c : RESTClient W) (stream : string) (def : zdStreamDef) (out : list Message) (w : W) :
    read_result :=
  if bool_decide (listPath def = "") then Some (Ok tt, out, c, w)
  else then_send (read_pages (by_list def) stream fuel (listPath def) c out w) (λ _, []).

(** An export has a client of its own, which is dropped when the stream is through. *)
Definition readStream (fuel : nat) (cfg : zdConfig) (c : RESTClient W) (cs : ConfiguredStream) (def : zdStreamDef)
    (state : state_map) (out : list Message) (w : W) : read_result :=
  let stream := s_Name (cs_Stream cs) in
  if bool_decide (cs_SyncMode cs = SyncModeIncremental) && supportsIncremental def then
    match readIncremental fuel (buildIncrementalClient cfg) stream def state out w with
    | Some (r, out, _, w) => Some (r, out, c, w)
    | None => None
    end
  else readFullRefresh fuel c stream def out w.

Definition Read (fuel : nat) (config : RawMessage) (catalog : ConfiguredCatalog) (state : state_map) (w : W) :
    option (res unit * list Message * W) :=
  match parseZDConfig type_error config with
  | Err e => Some (Err e, [], w)
  | Panic m => Some (Panic m, [], w)
  | Ok cfg => read_streams (λ cs, streamDefs !! s_Name (cs_Stream cs)) (λ c cs def out w, readStream fuel cfg c cs def state out w)
                (buildClient cfg) (cc_Streams catalog) [] w
  end.

(** *** Writing *)

Definition jobWait : Z := 2 * second.
Definition pollTime : Z := 300 * second.
(** The polls of a job: more than fit into its time ([polling_ends]). *)
Definition pollLimit : nat := 151.

(** What a status says of a job; [None] when it is not finished. *)
Definition job_result (body : obj) : option (Z * list WriteError) :=
  match body !! "job_status" with
  | Some (VMap js) =>
      let status := vtext (js !! "status") in
      if bool_decide (status = "completed")
      then Some (match js !! "total" with Some (VFloat total) => f_to_i64 total | _ => 0 end, [])
      else if bool_decide (status = "failed") || bool_decide (status = "killed")
      then Some (0, [mkWriteError ("job " +:+ status +:+ ": " +:+ vtext (js !! "message")) RawEmpty ""])
      else None
  | _ => None
  end.

Definition timed_out : Z * list WriteError := (0, [mkWriteError "job timed out after 5 minutes" RawEmpty ""]).

Fixpoint poll_job (fuel : nat) (c : RESTClient W) (statusPath : string) (deadline : Z) (w : W) :
    res (Z * list WriteError) * RESTClient W * W :=
  match fuel with
  | O => (Ok timed_out, c, w)
  | S fuel =>
      if clock_of w <? deadline then
        match select_wait jobWait w with
        | (Some _, w) => (Ok (0, [mkWriteError "context cancelled while waiting for job" RawEmpty ""]), c, w)
        | (None, w) =>
            match get c statusPath w with
            | (Err _, c, w) => poll_job fuel c statusPath deadline w
            | (Panic m, c, w) => (Panic m, c, w)
            | (Ok resp, c, w) =>
                match job_result (body_map resp) with
                | Some r => (Ok r, c, w)
                | None => poll_job fuel c statusPath deadline w
                end
            end
        end
      else (Ok timed_out, c, w)
  end.

Definition submitJob (c : RESTClient W) (path resourceKey : string) (records : list obj) (w : W) :
    res (Z * list WriteError) * RESTClient W * W :=
  let accepted := (Z.of_nat (length records), []) in
  match Post json_doc url_error ParseTime c path (Some (VMap {[ resourceKey := VSlice (map VMap records) ]})) w with
  | (Err e, c, w) => (Ok (0, failed_writes ("job submit error: " +:+ Error e) records), c, w)
  | (Panic m, c, w) => (Panic m, c, w)
  | (Ok resp, c, w) =>
      match body_map resp !! "job_status" with
      | Some (VMap jobStatus) =>
          let statusURL := vtext (jobStatus !! "url") in
          if bool_decide (statusURL = "") then (Ok accepted, c, w)
          else poll_job pollLimit c (extractPath statusURL) (clock_of w + pollTime) w
      | _ => (Ok accepted, c, w)
      end
  end.

Definition has_id (rec : obj) : bool := bool_decide (is_Some (rec !! "id")).

(** A job for the records of one kind, if there are any and the stream has a path for them. *)
Definition submit_some (acc : Z * list WriteError) (c : RESTClient W) (path resourceKey : string) (records : list obj) (w : W) :
    res (Z * list WriteError) * RESTClient W * W :=
  if bool_decide (records = []) || bool_decide (path = "") then (Ok acc, c, w)
  else match submitJob c path resourceKey records w with
       | (Ok (n, errs), c, w) => (Ok (acc.1 +ᵢ n, acc.2 ++ errs), c, w)
       | r => r
       end.

Definition flushBatch (c : RESTClient W) (stream : string) (records : list obj) (w : W) :
    res (Z * list WriteError) * RESTClient W * W :=
  let refused := (Ok (0, failed_writes ("stream " +:+ stream +:+ " does not support writes") records), c, w) in
  match streamDefs !! stream with
  | None => refused
  | Some def =>
      if bool_decide (writePath def = "") then refused
      else
        match submit_some (0, []) c (writePath def) (resultsField def) (filter (λ r, has_id r = false) records) w with
        | (Ok acc, c, w) => submit_some acc c (updatePath def) (resultsField def) (filter (λ r, has_id r = true) records) w
        | r => r
        end
  end.

Definition Write (config : RawMessage) (input : list Message) (w : W) : res WriteResult :=
  cfg ← parseZDConfig type_error config; write_all flushBatch maxJobBatchSize (buildClient cfg) input w.

Definition Capabilities : list DestinationSyncMode := [DestSyncModeAppend; DestSyncModeUpsert].
End connector.

(** *** Webhooks *)

Definition hook_member (type_error : string → json → error) (acc : string * option error) (e : string * json) : string * option error :=
  if key_matches "ticket_id" e.1 then (acc.1, match jvalue e.2 with Some _ => acc.2 | None => note acc.2 err_number end)
  else if key_matches "event_type" e.1 then string_member type_error e.1 acc.1 e.2 acc.2
  else acc.

Definition WebhookHandler (type_error : string → json → error) (body : RawMessage) : option error :=
  match unmarshal_struct type_error "" (hook_member type_error) body with
  | Ok eventType => if bool_decide (eventType = "")
                    then Some (NewConnectorError connectorName "webhook_validate" (ErrText "missing event_type in webhook payload"))
                    else None
  | Err e => Some (NewConnectorError connectorName "webhook_parse" e)
  | Panic m => None
  end.

(** ** Exports go on where they ended *)


Section exports.
Context {W : Type} `{Hrt : Runtime W} `{Hurl : UrlLib}.
Context (json_doc : string → RawMessage) (url_error : string → error) (ParseTime : string → option Z).
Context (type_error : string → json → error) (c0 : RESTClient W).
Hypothesis Hpoll : ∀ w : W, poll w = None.




(** A listing whose next page is the page itself is read for ever. *)
Theorem same_next_page_never_ends def stream body fuel c out w :
  plain_client c0 → listPath def ≠ "" → gives json_doc c0 "GET" (baseURL c0 +:+ listPath def) None body →
  vtext (body !! "next_page") ≠ "" → extractPath (vtext (body !! "next_page")) = listPath def → same_setup c0 c →
  readFullRefresh json_doc url_error ParseTime fuel c stream def out w = None.
Proof using Hpoll.
  intros Hplain Hpath Hg Hne Hnext Hs. unfold readFullRefresh. rewrite bool_decide_false by done.
  rewrite (read_pages_stuck c0 _ stream (listPath def) body Hpoll); [done| |done| |done].
  - intros c1 w1 Hs1. destruct (get_given json_doc url_error ParseTime c0 Hplain _ _ c1 w1 Hg Hs1) as (resp & c' & w' & He & Hs' & Hb).
    exists resp, c', w'. split; [|done]. cbn [pg_call by_list]. by rewrite He.
  - cbn [pg_next by_list]. rewrite (bool_decide_false (vtext _ = "")), Hnext by done. cbv zeta. rewrite bool_decide_false by done.
    f_equal. 
Qed.
End exports.

(** ** Jobs *)

Section jobs.
Context {W : Type} `{Hrt : Runtime W} `{Hurl : UrlLib}.
Context (json_doc : string → RawMessage) (url_error : string → error) (ParseTime : string → option Z).

(** Time does not go back, and waiting takes its time. *)
Definition later (n : nat) (w w' : W) : Prop := clock_of w ≤ clock_of w'.
Context `{HR : !Exchanges W later}.
Hypothesis Hwait : ∀ d (w : W), (select_wait d w).1 = None → clock_of w + d ≤ clock_of (select_wait d w).2.

Lemma poll_time fuel : ∀ k c path deadline w, steps_by later c → deadline ≤ clock_of w + Z.of_nat fuel * jobWait →
  poll_job json_doc url_error ParseTime (fuel + k) c path deadline w = poll_job json_doc url_error ParseTime fuel c path deadline w.
Proof using HR Hwait.
  induction fuel as [|fuel IH]; intros k c path deadline w Hc Ht.
  { cbn [Nat.add poll_job]. destruct k as [|k]; [done|]. cbn [poll_job]. by rewrite (proj2 (Z.ltb_ge _ _)) by lia. }
  cbn [Nat.add poll_job]. destruct (Z.ltb_spec (clock_of w) deadline); [|done].
  pose proof (Hwait jobWait w) as Hw. destruct (select_wait jobWait w) as [[e|] w1]; [done|]. specialize (Hw eq_refl). cbn [snd] in Hw.
  destruct (Get json_doc url_error ParseTime c path w1) as [[r c2] w2] eqn:Hg.
  apply (do_request_steps json_doc url_error ParseTime later) in Hg as [Hs (n & _ & Hl)]; [|done]. unfold later in Hl.
  assert (Hgo : ∀ k, poll_job json_doc url_error ParseTime (fuel + k) c2 path deadline w2
                     = poll_job json_doc url_error ParseTime fuel c2 path deadline w2).
  { intros k'. apply IH; [by eapply steps_by_same|lia]. }
  destruct r as [resp|e|m]; [|apply Hgo|done]. destruct (job_result (body_map resp)); [done|apply Hgo].
Qed.

(** Polling a job ends: in its five minutes it asks less often than the bound of the polls, so that more of them would
    change nothing. *)
Theorem polling_ends c path w k : steps_by later c →
  poll_job json_doc url_error ParseTime (pollLimit + k) c path (clock_of w + pollTime) w =
  poll_job json_doc url_error ParseTime pollLimit c path (clock_of w + pollTime) w.
Proof using HR Hwait. intros Hc. apply poll_time; [done|]. unfold pollTime, jobWait, pollLimit, second. lia. Qed.
End jobs.

(** ** What a write counts

    [jobs w path] is the number of records of the job whose status is at [path]. *)
Section accounts.
Context {W : Type} `{Hrt : Runtime W} `{Hurl : UrlLib}.
Context (json_doc : string → RawMessage) (url_error : string → error) (ParseTime : string → option Z).
Context (type_error : string → json → error) (net : Request → W → res HTTPResponse * W).
Context (refreshing : OAuthConfig → W → res string * W) (jobs : W → string → option Z) (base : string).

(** Jobs stay what they are. *)
Definition kept (n : nat) (w w' : W) : Prop := ∀ path k, jobs w path = Some k → jobs w' path = Some k.
Context `{HR : !Exchanges W kept}.
Hypothesis Hkept : ∀ rq (w : W), kept 1 w (net rq w).2.
Hypothesis Hrefresh : ∀ oc (w : W), kept 0 w (refreshing oc w).2.

Definition answer_body (t : string) : obj := if bool_decide (t = "") then ∅ else default ∅ (decode_body json_doc t).

(** A batch that is accepted without a job has been written; otherwise the job is for all of its records, and when it
    has completed it says so with their number. *)
Definition honest_jobs : Prop := ∀ rq w h w' t, net rq w = (Ok h, w') → r_StatusCode h < 400 → r_Body h = Ok t →
  (∀ key l js, rq_Body rq = Some (RawDoc (JObj [(key, JArr l)])) → answer_body t !! "job_status" = Some (VMap js) →
     vtext (js !! "url") = "" ∨ jobs w' (extractPath (vtext (js !! "url"))) = Some (Z.of_nat (length l))) ∧
  (∀ path k, rq_URL rq = base +:+ path → jobs w' path = Some k →
     ∀ js, answer_body t !! "job_status" = Some (VMap js) → vtext (js !! "status") = "completed" →
     ∃ total, js !! "total" = Some (VFloat total) ∧ f_to_i64 total = k).
Hypothesis Hhonest : honest_jobs.

Definition on_net (c : RESTClient W) : Prop :=
  client c = net ∧ max_size c < int64_max ∧ baseURL c = base ∧ steps_by kept c.

Lemma zd_on_net_same c c' : same_setup c c' → on_net c → on_net c'.
Proof.
  intros Hs (Hc & Hm & Hb & Hst). split_and!; [by rewrite <- (proj1 Hs)|by rewrite <- (max_size_same _ _ Hs)| |by eapply steps_by_same].
  by rewrite <- (proj1 (proj2 Hs)).
Qed.

Lemma poll_job_none_lost fuel : ∀ c path deadline k w n errs c' w',
  on_net c → 0 ≤ k → jobs w path = Some k →
  poll_job json_doc url_error ParseTime fuel c path deadline w = (Ok (n, errs), c', w') →
  on_net c' ∧ none_lost n (Z.of_nat (length errs)) k.
Proof using HR Hhonest.
  assert (Hone : ∀ k msg, 0 ≤ k → none_lost 0 (Z.of_nat (length [mkWriteError msg RawEmpty ""])) k)
    by (intros k msg Hk; unfold none_lost; cbn; lia).
  induction fuel as [|fuel IH]; intros c path deadline k w n errs c' w' Hc Hk Hj; cbn [poll_job].
  { intros [= <- <- <- _]. auto. }
  destruct (_ <? _); [|by intros [= <- <- <- _]; auto].
  pose proof (R_wait jobWait w path k Hj) as Hj1. destruct (select_wait jobWait w) as [[e|] w1]; [by intros [= <- <- <- _]; auto|].
  cbn [snd] in Hj1. destruct (Get json_doc url_error ParseTime c path w1) as [[r c2] w2] eqn:Hg.
  pose proof Hc as (Hnet & Hmax & Hbase & Hsteps).
  destruct (do_request_steps json_doc url_error ParseTime kept c _ _ _ _ _ _ _ Hsteps Hg) as [Hs (m & _ & Hl)].
  assert (Hj2 := Hl path k Hj1). assert (Hc2 : on_net c2) by (by eapply zd_on_net_same).
  assert (Hgo := IH c2 path deadline k w2 n errs c' w' Hc2 Hk Hj2).
  destruct r as [resp|e|pm]; [|exact Hgo|done].
  destruct (job_result (body_map resp)) as [[n' errs']|] eqn:Hres; [|exact Hgo]. intros [= <- <- <- _]. split; [done|].
  apply (do_request_result json_doc url_error ParseTime) in Hg as [_ Hans]; [|done].
  destruct (Hans resp eq_refl) as (b & _ & rq & w3 & h & t & (_ & Hu & _) & Hcl & Hst & Ht & _ & _ & Hbody).
  rewrite Hnet in Hcl. rewrite Hbase in Hu. destruct (Hhonest rq w3 h w2 t Hcl Hst Ht) as [_ Hstatus].
  specialize (Hstatus path k Hu Hj2). unfold answer_body in Hstatus. rewrite <- Hbody in Hstatus.
  unfold job_result in Hres. destruct (body_map resp !! "job_status") as [v|]; [|done]. destruct v as [| | | | | |js]; try done.
  destruct (bool_decide_reflect (vtext (js !! "status") = "completed")) as [Hdone|_].
  - destruct (Hstatus js eq_refl Hdone) as (total & Htotal & Hn). rewrite Htotal in Hres. injection Hres as <- <-.
    unfold none_lost. rewrite Hn. cbn. lia.
  - destruct (_ || _); [|done]. injection Hres as <- <-. by apply Hone.
Qed.

Lemma submitJob_none_lost c path key records w n errs c' w' :
  on_net c → submitJob json_doc url_error ParseTime c path key records w = (Ok (n, errs), c', w') →
  on_net c' ∧ none_lost n (Z.of_nat (length errs)) (Z.of_nat (length records)).
Proof using HR Hhonest.
  intros Hc. unfold submitJob. destruct (Post _ _ _ c path _ w) as [[r c2] w2] eqn:Hp.
  pose proof Hc as (Hnet & Hmax & Hbase & Hsteps).
  destruct (do_request_steps json_doc url_error ParseTime kept c _ _ _ _ _ _ _ Hsteps Hp) as [Hs _].
  assert (Hc2 : on_net c2) by (by eapply zd_on_net_same).
  assert (Hall : none_lost (Z.of_nat (length records)) 0 (Z.of_nat (length records))) by (unfold none_lost; lia).
  destruct r as [resp|e|pm]; [| |done].
  2:{ intros [= <- <- <- _]. split; [done|]. unfold failed_writes. rewrite length_map. unfold none_lost. lia. }
  apply (do_request_result json_doc url_error ParseTime) in Hp as [_ Hans]; [|done].
  destruct (Hans resp eq_refl) as (b & Hb & rq & w3 & h & t & (_ & _ & Hrb) & Hcl & Hst & Ht & _ & _ & Hbody).
  apply marshal_list in Hb as (l & -> & Hl). rewrite Hnet in Hcl.
  destruct (Hhonest rq w3 h w2 t Hcl Hst Ht) as [Hjob _]. unfold answer_body in Hjob. rewrite <- Hbody in Hjob.
  destruct (body_map resp !! "job_status") as [v|]; [|by intros [= <- <- <- _]].
  destruct v as [| | | | | |js]; [by intros [= <- <- <- _]..|].
  destruct (bool_decide_reflect (vtext (js !! "url") = "")) as [|Hne]; [by intros [= <- <- <- _]|].
  destruct (Hjob key l js Hrb eq_refl) as [?|Hj]; [done|]. rewrite Hl in Hj.
  apply poll_job_none_lost; [done|lia|exact Hj].
Qed.

Lemma submit_some_none_lost n0 errs0 k c path key records w n errs c' w' :
  on_net c → none_lost n0 (Z.of_nat (length errs0)) k → path ≠ "" → k + Z.of_nat (length records) < int64_max →
  submit_some json_doc url_error ParseTime (n0, errs0) c path key records w = (Ok (n, errs), c', w') →
  on_net c' ∧ none_lost n (Z.of_nat (length errs)) (k + Z.of_nat (length records)).
Proof using HR Hhonest.
  intros Hc Hacc Hpath Hsmall. unfold submit_some. rewrite (bool_decide_false (path = "")), orb_false_r by done.
  destruct (bool_decide_reflect (records = [])) as [->|Hne].
  { intros [= <- <- <- _]. split; [done|]. cbn. by rewrite Z.add_0_r. }
  destruct (submitJob _ _ _ c path key records w) as [[[[n1 errs1]|e|m] c1] w1] eqn:Hj; [|done..].
  apply submitJob_none_lost in Hj as [Hc1 H1]; [|done]. intros [= <- <- <- _]. split; [done|]. cbn [fst snd].
  pose proof (tally_bounds _ _ _ H1). pose proof (tally_bounds _ _ _ Hacc).
  rewrite length_app, Nat2Z.inj_add, i64_id by (unfold in_i64, int64_min, int64_max in *; lia). by apply tally_add.
Qed.

Lemma flushBatch_none_lost c stream records w n errs c' w' :
  on_net c → Z.of_nat (length records) < int64_max →
  flushBatch json_doc url_error ParseTime c stream records w = (Ok (n, errs), c', w') →
  on_net c' ∧ none_lost n (Z.of_nat (length errs)) (Z.of_nat (length records)).
Proof using HR Hhonest.
  intros Hc Hsmall. unfold flushBatch.
  assert (Hrefused : none_lost 0 (Z.of_nat (length (failed_writes ("stream " +:+ stream +:+ " does not support writes") records)))
                       (Z.of_nat (length records))).
  { unfold failed_writes, none_lost. rewrite length_map. lia. }
  destruct (streamDefs !! stream) as [def|] eqn:Hd; [|by intros [= <- <- <- _]].
  destruct (bool_decide_reflect (writePath def = "")) as [|Hwp]; [by intros [= <- <- <- _]|].
  assert (Hup : updatePath def ≠ "").
  { assert (Hdefs : map_Forall (λ _ d, writePath d = "" ∨ updatePath d ≠ "") streamDefs) by (apply (bool_decide_unpack _); vm_compute; exact I).
    by destruct (Hdefs _ _ Hd). }
  set (creates := filter (λ r, has_id r = false) records). set (updates := filter (λ r, has_id r = true) records).
  assert (Hlen : (length creates + length updates = length records)%nat).
  { unfold creates, updates. clear. induction records as [|r records IH]; [done|]. rewrite !filter_cons. cbn [length].
    destruct (has_id r); repeat case_decide; try done; cbn [length]; lia. }
  destruct (submit_some _ _ _ (0, []) c _ _ creates w) as [[[[n1 errs1]|e|m] c1] w1] eqn:H1; [|done..].
  apply (submit_some_none_lost 0 [] 0) in H1 as [Hc1 H1]; [|done|apply tally_none|done|lia].
  intros H2. apply (submit_some_none_lost _ _ (0 + Z.of_nat (length creates))) in H2 as [Hc2 H2]; [|done|done|done|lia].
  split; [done|]. refine (eq_ind _ (none_lost _ _) H2 _ _). lia.
Qed.

Lemma zd_buildClient_on_net cfg : TrimRight (zd_baseURL cfg) "/" = base → on_net (buildClient net refreshing cfg).
Proof using HR Hkept Hrefresh.
  intros Hbase. assert (Hsteps : ∀ c : RESTClient W, client c = net → distLimiter c = None →
    (tokenSrc c = None ∨ ∃ oc, tokenSrc c = Some (TokenSource refreshing oc)) → steps_by kept c).
  { intros c Hc Hd Ht. split_and!; [intros rq w; rewrite Hc; apply Hkept| |intros f w; by rewrite Hd].
    intros f w Hf. destruct Ht as [Ht|[oc Ht]]; rewrite Ht in Hf; [done|]. injection Hf as <-.
    unfold TokenSource. case_bool_decide; [apply R_none|apply Hrefresh]. }
  unfold on_net, buildClient, buildClientWithRate, NewRESTClient. destruct (OAuth cfg) as [oc|].
  - split_and!; [done|by vm_compute|exact Hbase|]. apply Hsteps; [done|done|]. right. by eexists.
  - case_bool_decide; (split_and!; [done|by vm_compute|exact Hbase|]); apply Hsteps; try done; by left.
Qed.

(** A write that reports no error counts every record of its input as written, when jobs keep their word: the records
    of failed, killed and overdue jobs, of streams that cannot be written and those that could not be decoded all show
    as errors.  This is the count the connector gives, not what the API has stored: a record refused within a
    completed job is counted all the same ([refused_records_count]). *)
Theorem zendesk_counts_records config cfg input w result :
  parseZDConfig type_error config = Ok cfg → TrimRight (zd_baseURL cfg) "/" = base → zcount is_record input < int64_max →
  Write json_doc url_error ParseTime type_error net refreshing config input w = Ok result →
  wr_Errors result = [] → wr_RecordsWritten result = zcount is_record input.
Proof using HR Hkept Hrefresh Hhonest.
  intros Hcfg Hbase Hsmall. unfold Write. rewrite Hcfg. cbn [mbind outcome_bind]. intros Hw He.
  apply (write_all_tallied _ _ none_lost on_net) in Hw; [|intros; eapply flushBatch_none_lost; eassumption|by apply zd_buildClient_on_net|done].
  destruct Hw as (_ & _ & Hw). apply Hw. by rewrite He.
Qed.
End accounts.

(** ** Concrete runs *)

#[local] Existing Instance clock_runtime.
#[local] Existing Instance plain_urls.
#[local] Existing Instance plain_laws.

Lemma clock_poll (w : Z) : poll w = None.
Proof. done. Qed.

Definition no_type_error (field : string) (j : json) : error := ErrText field.
Definition no_refresh (oc : OAuthConfig) (w : Z) : res string * Z := (Ok "", w).
Definition acme : zdConfig := mkZdConfig "acme" None "" "t".
Definition acme_config : RawMessage := RawDoc (JObj [("subdomain", JStr "acme"); ("api_token", JStr "t")]).

(** An API whose answers are named by its URLs. *)
Definition echo_net (rq : Request) (w : Z) : res HTTPResponse * Z := (Ok (resp200 (rq_URL rq)), w + 1).
Definition ticket (id at_ : string) : json := JObj [("id", JStr id); ("updated_at", JStr at_)].
Definition export_doc (id at_ after : string) : RawMessage :=
  RawDoc (JObj [("tickets", JArr [ticket id at_]); ("after_cursor", JStr after); ("end_of_stream", JBool true)]).
Definition acme_docs (url : string) : RawMessage :=
  if bool_decide (url = "https://acme.zendesk.com/api/v2/incremental/tickets/cursor.json?start_time=0") then export_doc "1" "2024-01-01" "c1"
  else if bool_decide (url = "https://acme.zendesk.com/api/v2/incremental/tickets/cursor.json?cursor=c1") then export_doc "2" "2024-02-02" "c2"
  else RawDoc (JObj [("tickets", JArr [ticket "1" "2024-01-01"]); ("next_page", JStr "https://acme.zendesk.com/api/v2/tickets.json")]).
Definition acme_client : RESTClient Z := buildClient echo_net no_refresh acme.
Definition acme_body (url : string) : obj := default ∅ (decode_body acme_docs url).

Lemma acme_plain : plain_client acme_client.
Proof. split_and!; [done|done|vm_compute; discriminate|vm_compute; reflexivity]. Qed.

Lemma acme_gives path : is_Some (Parse (baseURL acme_client +:+ path)) → fits defaultMaxResponseSize (baseURL acme_client +:+ path) = true →
  is_Some (decode_body acme_docs (baseURL acme_client +:+ path)) →
  gives acme_docs acme_client "GET" (baseURL acme_client +:+ path) None (acme_body (baseURL acme_client +:+ path)).
Proof.
  intros Hp Hf [b Hb]. split; [done|]. intros rq w (_ & Hu & _). exists (resp200 (baseURL acme_client +:+ path)), (baseURL acme_client +:+ path), (w + 1).
  unfold acme_body. rewrite Hb. split_and!.
  { change (client acme_client) with echo_net. unfold echo_net. by rewrite Hu. }
  all: done || exact Hf.
Qed.


Definition tickets : zdStreamDef := writable "tickets".



Lemma same_next_page_never_ends_witness :
  readFullRefresh acme_docs no_url_error no_time 1000 acme_client "tickets" tickets [] 0 = None.
Proof.
  apply (same_next_page_never_ends acme_docs no_url_error no_time acme_client clock_poll tickets "tickets"
           (acme_body "https://acme.zendesk.com/api/v2/tickets.json")).
  - exact acme_plain.
  - discriminate.
  - apply (acme_gives "/api/v2/tickets.json"); [apply (bool_decide_unpack _); vm_compute; exact I|vm_compute; reflexivity|apply (bool_decide_unpack _); vm_compute; exact I].
  - vm_compute. discriminate.
  - vm_compute. reflexivity.
  - done.
Defined.

#[local] Instance clock_later : Exchanges Z later.
Proof. split; intros; unfold later in *; cbn in *; lia. Qed.
Lemma clock_waits d (w : Z) : (select_wait d w).1 = None → clock_of w + d ≤ clock_of (select_wait d w).2.
Proof. intros _. cbn. lia. Qed.

(** A job that is never finished is given up after its time. *)
Definition busy_docs (_ : string) : RawMessage := RawDoc (JObj [("job_status", JObj [("status", JStr "working")])]).
Lemma polling_ends_witness :
  (poll_job busy_docs no_url_error no_time (pollLimit + 50) acme_client "/j" (0 + pollTime) 0).1.1 = Ok timed_out.
Proof.
  rewrite (polling_ends busy_docs no_url_error no_time clock_waits acme_client "/j" 0 50).
  - vm_compute. reflexivity.
  - split_and!; [intros rq w; change (client acme_client) with echo_net; unfold later; cbn; lia|done|done].
Defined.

(** A job of two tickets. *)
Definition job_docs (t : string) : RawMessage :=
  if bool_decide (t = "job") then RawDoc (JObj [("job_status", JObj [("url", JStr "https://acme.zendesk.com/job/1")])])
  else if bool_decide (t = "done")
  then RawDoc (JObj [("job_status", JObj [("status", JStr "completed"); ("total", JNum (NLit "2" 2 0))])])
  else RawDoc (JObj []).
Definition is_two (b : option RawMessage) : bool :=
  match b with Some (RawDoc (JObj [(_, JArr [_; _])])) => true | _ => false end.
Definition job_net (rq : Request) (w : Z) : res HTTPResponse * Z :=
  (Ok (resp200 (if is_two (rq_Body rq) then "job"
                else if bool_decide (rq_URL rq = "https://acme.zendesk.com/job/1") then "done" else "other")), w + 1).
Definition one_job (w : Z) (path : string) : option Z := if bool_decide (path = "/job/1") then Some 2 else None.
#[local] Instance one_job_kept : Exchanges Z (kept one_job).
Proof. split; intros; unfold kept in *; auto. Qed.
Lemma job_net_kept rq (w : Z) : kept one_job 1 w (job_net rq w).2.
Proof. intros path k H. exact H. Qed.
Lemma no_refresh_kept oc (w : Z) : kept one_job 0 w (no_refresh oc w).2.
Proof. intros path k H. exact H. Qed.
Definition two_tickets : list Message :=
  map (λ s, record_message (mkRec "tickets" "" (RawDoc (JObj [("subject", JStr s)])) 0)) ["a"; "b"].

Lemma job_given : answer_body job_docs "job" !! "job_status" = Some (VMap {[ "url" := VString "https://acme.zendesk.com/job/1" ]}).
Proof. vm_compute. reflexivity. Qed.
Lemma job_done :
  answer_body job_docs "done" !! "job_status" = Some (VMap {[ "status" := VString "completed"; "total" := VFloat (f_of_dec 2 0) ]}).
Proof. vm_compute. reflexivity. Qed.

Lemma job_net_honest : honest_jobs job_docs job_net one_job "https://acme.zendesk.com".
Proof.
  intros rq w h w' t [= <- <-] _ [= <-]. split.
  - intros key l js -> Hj. destruct l as [|j1 [|j2 [|j3 l]]]; cbn [is_two] in Hj |- *.
    3: right; vm_compute in Hj; injection Hj as <-; vm_compute; reflexivity.
    all: destruct (bool_decide_reflect (rq_URL rq = "https://acme.zendesk.com/job/1")); vm_compute in Hj; [|done];
      injection Hj as <-; left; vm_compute; reflexivity.
  - intros path k Hu Hj. unfold one_job in Hj. destruct (bool_decide_reflect (path = "/job/1")) as [->|]; [|done].
    injection Hj as <-. rewrite bool_decide_true by done. intros js Hjs Hc. destruct (is_two (rq_Body rq)).
    + rewrite job_given in Hjs. injection Hjs as <-. rewrite lookup_singleton_ne in Hc by done. discriminate Hc.
    + rewrite job_done in Hjs. injection Hjs as <-. exists (f_of_dec 2 0). split; [|vm_compute; reflexivity].
      by rewrite lookup_insert_ne, lookup_singleton_eq.
Qed.

Lemma zendesk_counts_records_witness :
  ∃ result, Write job_docs no_url_error no_time no_type_error job_net no_refresh acme_config two_tickets 0 = Ok result ∧
    wr_RecordsWritten result = 2.
Proof.
  destruct (Write _ _ _ _ _ _ _ _ _) as [result|e|m] eqn:Hw; [|exfalso; vm_compute in Hw; discriminate..].
  exists result. split; [done|].
  change 2 with (zcount is_record two_tickets).
  refine (zendesk_counts_records job_docs no_url_error no_time no_type_error job_net no_refresh one_job "https://acme.zendesk.com"
            job_net_kept no_refresh_kept job_net_honest acme_config acme two_tickets 0 result _ _ _ Hw _); [vm_compute; reflexivity..|].
  assert (He : wr_Errors <$> Write job_docs no_url_error no_time no_type_error job_net no_refresh acme_config two_tickets 0 = Ok [])
    by (vm_compute; reflexivity).
  rewrite Hw in He. by injection He.
Defined.

(** A failed job gives one error for all of its records, without any of them. *)
Definition failed_docs (t : string) : RawMessage :=
  if bool_decide (t = "done") then RawDoc (JObj [("job_status", JObj [("status", JStr "failed"); ("message", JStr "invalid")])]) else job_docs t.
Example failed_job_one_error :
  Write failed_docs no_url_error no_time no_type_error job_net no_refresh acme_config two_tickets 0 =
  Ok (mkWriteResult 0 [mkWriteError "job failed: invalid" RawEmpty ""] []).
Proof. vm_compute. reflexivity. Qed.

(** The records a completed job has refused are counted as written, and so is a batch that is accepted without a job. *)
Definition refused_docs (t : string) : RawMessage :=
  if bool_decide (t = "done")
  then RawDoc (JObj [("job_status", JObj [("status", JStr "completed"); ("total", JNum (NLit "2" 2 0));
         ("results", JArr [JObj [("id", JNum (NLit "1" 1 0))]; JObj [("error", JStr "RecordInvalid")]])])])
  else job_docs t.
Definition no_job_docs (t : string) : RawMessage := RawDoc (JObj [("error", JStr "RecordInvalid")]).
Example refused_records_count :
  Write refused_docs no_url_error no_time no_type_error job_net no_refresh acme_config two_tickets 0 = Ok (mkWriteResult 2 [] []) ∧
  Write no_job_docs no_url_error no_time no_type_error job_net no_refresh acme_config two_tickets 0 = Ok (mkWriteResult 2 [] []).
Proof. split; vm_compute; reflexivity. Qed.

(** The next page of a host whose name has .com within it is asked for at a path that does not exist. *)
Example extractPath_cuts_host :
  extractPath "https://help.comet.zendesk.com/api/v2/tickets.json?page=2" = "et.zendesk.com/api/v2/tickets.json?page=2" ∧
  extractPath "https://acme.zendesk.com/api/v2/tickets.json?page=2" = "/api/v2/tickets.json?page=2".
Proof. vm_compute. done. Qed.
