(* ===== verification/Intercom.v ===== *)
(** * The Intercom connector: [connectors/intercom/intercom.go]

    A bidirectional connector: streams are searched, scrolled or listed; contacts are written in bulk, other records one
    by one. *)

From Stdlib Require Import Ascii.
From S2P Require Import Prelude GoStrings Errors Float Value Protocol JsonDecode Urls Pagination RestClient PagedFetch RestConnector.

Definition connectorName : string := "intercom".
Definition ic_baseURL : string := "https://api.intercom.io".
Definition scrollPageSize : nat := 50.

Record icStreamDef := mkStreamDef {
  listPath : string; resultsField : string; pk : string; useScroll : bool; searchPath : string; batchWrite : bool; writePath : string
}.
Definition listed (name field : string) : icStreamDef := mkStreamDef ("/" +:+ name) field "id" false "" false "".
Definition streamDefs : gmap string icStreamDef :=
  {[ "contacts" := mkStreamDef "/contacts" "data" "id" true "/contacts/search" true "";
     "companies" := mkStreamDef "/companies" "data" "id" true "" false "/companies";
     "conversations" := listed "conversations" "conversations"; "admins" := listed "admins" "admins";
     "tags" := listed "tags" "data"; "segments" := listed "segments" "segments";
     "articles" := mkStreamDef "/articles" "data" "id" false "" false "/articles" ]}.

Record icConfig := mkIcConfig { OAuth : option OAuthConfig; AccessToken : string }.

Section decode.
Context (type_error : string → json → error).

Definition config_member (acc : icConfig * option error) (e : string * json) : icConfig * option error :=
  let '(cfg, err) := acc in
  if key_matches "oauth" e.1
  then let '(oc, err) := oauth_pointer type_error e.1 (OAuth cfg) e.2 err in (mkIcConfig oc (AccessToken cfg), err)
  else if key_matches "access_token" e.1
  then let '(s, err) := string_member type_error e.1 (AccessToken cfg) e.2 err in (mkIcConfig (OAuth cfg) s, err)
  else acc.

Definition parseICConfig (raw : RawMessage) : res icConfig :=
  match unmarshal_struct type_error (mkIcConfig None "") config_member raw with
  | Ok cfg =>
      match OAuth cfg with
      | None => if bool_decide (AccessToken cfg = "")
                then Err (NewConnectorError connectorName "parse_config" (ErrText "either oauth or access_token must be provided"))
                else Ok cfg
      | Some _ => Ok cfg
      end
  | Err e => Err (NewConnectorError connectorName "parse_config" e)
  | Panic m => Panic m
  end.

(** The time of a stored state, if it is positive. *)
Definition last_updated (raw : option RawMessage) : Z :=
  match unmarshal_struct type_error 0 (λ acc e, if key_matches "updated_at" e.1
                                     then int_member type_error e.1 acc.1 e.2 acc.2 else acc) <$> raw with
  | Some (Ok t) => Z.max 0 t
  | _ => 0
  end.
End decode.

(** The cursor of the next page: [pages.next.starting_after]. *)
Definition ic_next_after (body : obj) : option string :=
  match body !! "pages" with
  | Some (VMap pages) =>
      match pages !! "next" with
      | Some (VMap next) => let after := vtext (next !! "starting_after") in if bool_decide (after = "") then None else Some after
      | _ => None
      end
  | _ => None
  end.

Definition search_body (lastUpdated : Z) (startingAfter : string) : obj :=
  let pagination : obj := {[ "per_page" := VInt 50 ]} in
  {[ "query" := VMap {[ "field" := VString "updated_at"; "operator" := VString ">"; "value" := VInt lastUpdated ]};
     "sort" := VMap {[ "field" := VString "updated_at"; "order" := VString "ascending" ]};
     "pagination" := VMap (if bool_decide (startingAfter = "") then pagination
                           else <["starting_after" := VString startingAfter]> pagination) ]}.

Definition later_time (cur : Z) (rec : obj) : Z :=
  match rec !! "updated_at" with Some (VFloat t) => if cur <? f_to_i64 t then f_to_i64 t else cur | _ => cur end.

Definition time_state (stream : string) (t : Z) : list Message :=
  if 0 <? t then [state_message (mkState StateTypeStream stream (RawDoc (JObj [("updated_at", int_json t)])))] else [].

(** The path of a page with a parameter, if it has a value. *)
Definition with_param (path param v : string) : string :=
  if bool_decide (v = "") then path else path +:+ (if contains_byte path "?"%char then "&" else "?") +:+ param +:+ "=" +:+ v.

Section connector.
Context {W : Type} `{Hrt : Runtime W} `{Hurl : UrlLib}.
Context (json_doc : string → RawMessage) (url_error : string → error) (ParseTime : string → option Z).
Context (type_error : string → json → error).
Context (net : Request → W → res HTTPResponse * W)               (** the default [http.Client] *)
        (refreshing : OAuthConfig → W → res string * W).         (** [oauth2.Config.TokenSource] *)

Definition buildClient (cfg : icConfig) : RESTClient W :=
  NewRESTClient net ic_baseURL
    ([WithRetry 3 (500 * millisecond); WithRateLimit (f_of_Z 15)] ++
     match OAuth cfg with
     | Some oc => [WithOAuth2 (TokenSource refreshing (default_token_url "https://api.intercom.io/auth/eagle/token" oc))]
     | None => if bool_decide (AccessToken cfg = "") then [] else [WithAPIKey ("Bearer " +:+ AccessToken cfg) "Authorization"]
     end).

Abbreviation get := (Get json_doc url_error ParseTime).
Abbreviation post := (Post json_doc url_error ParseTime).
Abbreviation put := (Put json_doc url_error ParseTime).
Abbreviation read_result := (option (res unit * list Message * RESTClient W * W)).

Definition Check (config : RawMessage) (w : W) : res CheckResult * W :=
  connect_check (parseICConfig type_error config) (λ cfg w, get (buildClient cfg) "/me" w) "Intercom" w.

Definition Discover : Catalog :=
  mkCatalog (map (λ e, static_stream e.1 (object_schema {[ "id" := type_entry "string"; "type" := type_entry "string" ]})
                         (useScroll e.2 || negb (bool_decide (searchPath e.2 = ""))) "updated_at" (pk e.2))
               (sorted_entries streamDefs)).

(** *** Reading *)

(** The cursor, and the largest time seen. *)
Definition by_search (def : icStreamDef) (lastUpdated : Z) : paging (W := W) (string * Z) := {|
  pg_call := λ s c w, wrapping "search API" (post c (searchPath def) (Some (VMap (search_body lastUpdated s.1))) w);
  pg_items := λ body, extractArray body (resultsField def);
  pg_stops := true;
  pg_shape := λ rec, rec;
  pg_seen := λ s rec, (s.1, later_time s.2 rec);
  pg_next := λ s body, match ic_next_after body with Some after => ((after, s.2), true) | None => (s, false) end
|}.

Definition by_scroll (def : icStreamDef) : paging (W := W) string := {|
  pg_call := λ scroll c w, wrapping "scroll API"
    (get c (listPath def +:+ "/scroll" +:+ (if bool_decide (scroll = "") then "" else "?scroll_param=" +:+ scroll)) w);
  pg_items := λ body, extractArray body (resultsField def);
  pg_stops := true;
  pg_shape := λ rec, rec;
  pg_seen := λ scroll _, scroll;
  pg_next := λ scroll body, let next := vtext (body !! "scroll_param") in
    if bool_decide (next = "") || bool_decide (next = scroll) then (scroll, false) else (next, true)
|}.

Definition by_cursor (def : icStreamDef) : paging (W := W) string := {|
  pg_call := λ after c w, wrapping "list API" (get c (with_param (listPath def) "starting_after" after) w);
  pg_items := λ body, extractArray body (resultsField def);
  pg_stops := true;
  pg_shape := λ rec, rec;
  pg_seen := λ after _, after;
  pg_next := λ after body, match ic_next_after body with Some after => (after, true) | None => (after, false) end
|}.

Definition readViaSearch (fuel : nat) (c : RESTClient W) (stream : string) (def : icStreamDef) (state : state_map)
    (out : list Message) (w : W) : read_result :=
  then_send (read_pages (by_search def (last_updated type_error (state !! stream))) stream fuel ("", 0) c out w)
    (λ s, time_state stream s.2).
Definition readViaScroll (fuel : nat) (c : RESTClient W) (stream : string) (def : icStreamDef) (out : list Message) (w : W) : read_result :=
  then_send (read_pages (by_scroll def) stream fuel "" c out w) (λ _, []).
Definition readViaCursorPagination (fuel : nat) (c : RESTClient W) (stream : string) (def : icStreamDef) (out : list Message) (w : W) :
    read_result :=
  then_send (read_pages (by_cursor def) stream fuel "" c out w) (λ _, []).

Definition readStream (fuel : nat) (c : RESTClient W) (cs : ConfiguredStream) (def : icStreamDef) (state : state_map)
    (out : list Message) (w : W) : read_result :=
  let stream := s_Name (cs_Stream cs) in
  if bool_decide (cs_SyncMode cs = SyncModeIncremental) && negb (bool_decide (searchPath def = ""))
  then readViaSearch fuel c stream def state out w
  else if useScroll def then readViaScroll fuel c stream def out w
  else readViaCursorPagination fuel c stream def out w.

Definition Read (fuel : nat) (config : RawMessage) (catalog : ConfiguredCatalog) (state : state_map) (w : W) :
    option (res unit * list Message * W) :=
  match parseICConfig type_error config with
  | Err e => Some (Err e, [], w)
  | Panic m => Some (Panic m, [], w)
  | Ok cfg => read_streams (λ cs, streamDefs !! s_Name (cs_Stream cs)) (λ c cs def out w, readStream fuel c cs def state out w)
                (buildClient cfg) (cc_Streams catalog) [] w
  end.

(** *** Writing *)

Definition bulk_item (contact : obj) : value :=
  VMap {[ "data" := VMap contact; "method" := VString (if bool_decide (is_Some (contact !! "id")) then "put" else "post");
          "data_type" := VString "contact" ]}.

(** The answer to a bulk request only says that it was accepted. *)
Definition flushContactBatch (c : RESTClient W) (contacts : list obj) (w : W) : res (Z * list WriteError) * RESTClient W * W :=
  match post c "/bulk/contacts" (Some (VMap {[ "items" := VSlice (map bulk_item contacts) ]})) w with
  | (Err e, c, w) => (Ok (0, failed_writes ("bulk API error: " +:+ Error e) contacts), c, w)
  | (Panic m, c, w) => (Panic m, c, w)
  | (Ok resp, c, w) =>
      (Ok (if (StatusCode resp =? 200) || (StatusCode resp =? 202) then (Z.of_nat (length contacts), [])
           else (0, [mkWriteError ("unexpected status: " +:+ pretty (StatusCode resp)) RawEmpty ""])), c, w)
  end.

Definition writeIndividual (c : RESTClient W) (stream : string) (def : icStreamDef) (rec : obj) (w : W) :
    res (Z * list WriteError) * RESTClient W * W :=
  let '(verb, r) := match rec !! "id" with
                    | Some id => ("update ", put c (writePath def +:+ "/" +:+ sprint_v id) (Some (VMap rec)) w)
                    | None => ("create ", post c (writePath def) (Some (VMap rec)) w)
                    end in
  match r with
  | (Ok _, c, w) => (Ok (1, []), c, w)
  | (Err e, c, w) => (Ok (0, failed_writes (verb +:+ stream +:+ ": " +:+ Error e) [rec]), c, w)
  | (Panic m, c, w) => (Panic m, c, w)
  end.

(** A write: the result so far, the contacts that wait, the client and the world. *)
Record icwrite := mkWrite { iw_written : Z; iw_errors : list WriteError; iw_contacts : list obj; iw_client : RESTClient W; iw_world : W }.

Definition ic_add_result (s : icwrite) (contacts : list obj) (r : res (Z * list WriteError) * RESTClient W * W) : res icwrite :=
  match r with
  | (Ok (n, errs), c, w) => Ok (mkWrite (iw_written s +ᵢ n) (iw_errors s ++ errs) contacts c w)
  | (Err e, _, _) => Err e
  | (Panic m, _, _) => Panic m
  end.
Definition add_error (s : icwrite) (msg : string) (data : RawMessage) : icwrite :=
  mkWrite (iw_written s) (iw_errors s ++ [mkWriteError msg data ""]) (iw_contacts s) (iw_client s) (iw_world s).

Definition ic_write_message (s : icwrite) (m : Message) : res icwrite :=
  match msg_Record m with
  | None => Ok s
  | Some r =>
      match unmarshal_map (rec_Data r) with
      | Err e => Ok (add_error s ("unmarshal record: " +:+ Error e) (rec_Data r))
      | Panic p => Panic p
      | Ok rec =>
          match streamDefs !! rec_Stream r with
          | None => Ok (add_error s ("unknown stream: " +:+ rec_Stream r) (rec_Data r))
          | Some def =>
              if batchWrite def then
                let contacts := iw_contacts s ++ [rec] in
                if (scrollPageSize <=? length contacts)%nat
                then ic_add_result s [] (flushContactBatch (iw_client s) contacts (iw_world s))
                else Ok (mkWrite (iw_written s) (iw_errors s) contacts (iw_client s) (iw_world s))
              else if bool_decide (writePath def = "")
              then Ok (add_error s ("stream " +:+ rec_Stream r +:+ " does not support writes") (rec_Data r))
              else ic_add_result s (iw_contacts s) (writeIndividual (iw_client s) (rec_Stream r) def rec (iw_world s))
          end
      end
  end.

Definition Write (config : RawMessage) (input : list Message) (w : W) : res WriteResult :=
  cfg ← parseICConfig type_error config;
  s ← foldM ic_write_message (mkWrite 0 [] [] (buildClient cfg) w) input;
  s ← (if bool_decide (iw_contacts s = []) then Ok s
       else ic_add_result s [] (flushContactBatch (iw_client s) (iw_contacts s) (iw_world s)));
  Ok (mkWriteResult (iw_written s) (iw_errors s) []).

Definition Capabilities : list DestinationSyncMode := [DestSyncModeAppend; DestSyncModeUpsert].
End connector.

(** *** Webhooks *)

Definition hook_member (type_error : string → json → error) (acc : string * option error) (e : string * json) : string * option error :=
  if key_matches "topic" e.1 then string_member type_error e.1 acc.1 e.2 acc.2
  else if key_matches "type" e.1 || key_matches "app_id" e.1 then (acc.1, (string_member type_error e.1 "" e.2 acc.2).2)
  else if key_matches "data" e.1 then
    (acc.1, match e.2 with
            | JNull => acc.2
            | JObj _ => match jvalue e.2 with Some _ => acc.2 | None => note acc.2 err_number end
            | j => note acc.2 (type_error e.1 j)
            end)
  else acc.

Definition WebhookHandler (type_error : string → json → error) (body : RawMessage) : option error :=
  match unmarshal_struct type_error "" (hook_member type_error) body with
  | Ok topic => if bool_decide (topic = "")
                then Some (NewConnectorError connectorName "webhook_validate" (ErrText "missing topic in webhook payload"))
                else None
  | Err e => Some (NewConnectorError connectorName "webhook_parse" e)
  | Panic m => None
  end.

(** ** Every record is accounted for

    if bulk requests that do not fail are accepted. *)
Section writing.
Context {W : Type} `{Hrt : Runtime W} `{Hurl : UrlLib}.
Context (json_doc : string → RawMessage) (url_error : string → error) (ParseTime : string → option Z).
Context (type_error : string → json → error) (net : Request → W → res HTTPResponse * W).
Context (refreshing : OAuthConfig → W → res string * W).

Definition accepts : Prop := ∀ rq w h w', net rq w = (Ok h, w') → r_StatusCode h < 400 →
  rq_URL rq = ic_baseURL +:+ "/bulk/contacts" → r_StatusCode h = 200 ∨ r_StatusCode h = 202.
Hypothesis Haccepts : accepts.

Definition on_net (c : RESTClient W) : Prop := client c = net ∧ max_size c < int64_max ∧ baseURL c = ic_baseURL.

Lemma ic_on_net_same c c' : same_setup c c' → on_net c → on_net c'.
Proof.
  intros Hs (Hc & Hm & Hb). split_and!; [by rewrite <- (proj1 Hs)|by rewrite <- (max_size_same _ _ Hs)|].
  by rewrite <- (proj1 (proj2 Hs)).
Qed.

Lemma flushContactBatch_accounts c contacts w n errs c' w' :
  on_net c → flushContactBatch json_doc url_error ParseTime c contacts w = (Ok (n, errs), c', w') →
  on_net c' ∧ each_accounted n (Z.of_nat (length errs)) (Z.of_nat (length contacts)).
Proof using Haccepts.
  intros Hc. unfold flushContactBatch. destruct (Post _ _ _ c _ _ w) as [[r c2] w2] eqn:Hp.
  pose proof Hc as (Hnet & Hmax & Hbase). apply (do_request_result json_doc url_error ParseTime) in Hp as [Hs Hans]; [|done].
  assert (Hc2 : on_net c2) by (by eapply ic_on_net_same). unfold each_accounted, failed_writes.
  destruct r as [resp|e|pm]; [|intros [= <- <- <- _]; rewrite length_map; split; [done|lia]|done].
  destruct (Hans resp eq_refl) as (b & _ & rq & w3 & h & t & (_ & Hu & _) & Hcl & Hst & _ & Hcode & _).
  rewrite Hnet in Hcl. rewrite Hbase in Hu. rewrite Hcode.
  destruct (Haccepts rq w3 h w2 Hcl Hst Hu) as [-> | ->]; intros [= <- <- <- _]; (split; [done|]); cbn; lia.
Qed.

Lemma writeIndividual_accounts c stream def rec w n errs c' w' :
  on_net c → writeIndividual json_doc url_error ParseTime c stream def rec w = (Ok (n, errs), c', w') →
  on_net c' ∧ each_accounted n (Z.of_nat (length errs)) 1.
Proof.
  intros Hc. unfold writeIndividual.
  assert (H : ∀ m path body r c1 w1, do_request json_doc url_error ParseTime c m path body w = (r, c1, w1) → on_net c1).
  { intros m path body r c1 w1 Hd. apply do_request_result in Hd as [Hs _]; [by eapply ic_on_net_same|apply Hc]. }
  unfold each_accounted. destruct (rec !! "id") as [id|].
  - unfold Put. destruct (do_request _ _ _ _ _ _ _ w) as [[[resp|e|m] c1] w1] eqn:Hd; [| |done];
      apply H in Hd; intros [= <- <- <- _]; (split; [done|]); cbn; lia.
  - unfold Post. destruct (do_request _ _ _ _ _ _ _ w) as [[[resp|e|m] c1] w1] eqn:Hd; [| |done];
      apply H in Hd; intros [= <- <- <- _]; (split; [done|]); cbn; lia.
Qed.

(** [k] records have been written or reported. *)
Definition done_with (k : Z) (s : icwrite (W := W)) : Prop :=
  on_net (iw_client s) ∧ each_accounted (iw_written s) (Z.of_nat (length (iw_errors s))) k.
Definition iw_ok (total : Z) (s : icwrite (W := W)) : Prop := done_with (total - Z.of_nat (length (iw_contacts s))) s.

Lemma ic_add_result_ok s contacts k n errs c w s' j :
  done_with k s → on_net c → each_accounted n (Z.of_nat (length errs)) j → k + j < int64_max →
  ic_add_result s contacts (Ok (n, errs), c, w) = Ok s' → done_with (k + j) s' ∧ iw_contacts s' = contacts.
Proof.
  unfold done_with, each_accounted. intros [_ Hs] Hc Hn Hsmall [= <-]. split; [|done]. split; [done|]. cbn.
  rewrite length_app, Nat2Z.inj_add, i64_id by (unfold in_i64, int64_min, int64_max in *; lia). lia.
Qed.

Lemma add_error_ok s msg data total : iw_ok total s → iw_ok (total + 1) (add_error s msg data).
Proof.
  unfold iw_ok, done_with, each_accounted. intros [Hc Hs]. split; [done|]. cbn. rewrite length_app. cbn [length]. lia.
Qed.

Lemma ic_write_message_ok s m total s' :
  iw_ok total s → total + 1 < int64_max → ic_write_message json_doc url_error ParseTime s m = Ok s' →
  iw_ok (total + zcount is_record [m]) s'.
Proof using Haccepts.
  intros Hs Hsmall. unfold ic_write_message. cbn [zcount]. unfold is_record. rewrite Z.add_0_r.
  destruct (msg_Record m) as [r|]; [|intros [= <-]; by rewrite Z.add_0_r].
  destruct (unmarshal_map (rec_Data r)) as [rec|e|p]; [| |done].
  2:{ intros [= <-]. by apply add_error_ok. }
  destruct (streamDefs !! rec_Stream r) as [def|]; [|intros [= <-]; by apply add_error_ok].
  destruct (batchWrite def).
  - destruct (_ <=? _)%nat eqn:Hfull.
    + destruct (flushContactBatch _ _ _ _ _ _) as [[[[n errs]|e|p] c] w] eqn:Hf; [|done..].
      apply flushContactBatch_accounts in Hf as [Hc Hn]; [|apply Hs]. intros Ha.
      apply (ic_add_result_ok _ _ _ _ _ _ _ _ _ Hs Hc Hn) in Ha as [Ha Hb]; [|rewrite length_app; cbn [length]; lia].
      unfold iw_ok. rewrite Hb. rewrite length_app in Ha. cbn [length] in *. refine (eq_ind _ (λ k, done_with k s') Ha _ _). lia.
    + intros [= <-]. unfold iw_ok, done_with in *. cbn. rewrite length_app. cbn [length].
      refine (eq_ind _ (λ k, on_net _ ∧ each_accounted _ _ k) Hs _ _). lia.
  - destruct (bool_decide (writePath def = "")); [intros [= <-]; by apply add_error_ok|].
    destruct (writeIndividual _ _ _ _ _ _ _ _) as [[[[n errs]|e|p] c] w] eqn:Hf; [|done..].
    apply writeIndividual_accounts in Hf as [Hc Hn]; [|apply Hs]. intros Ha.
    apply (ic_add_result_ok _ _ _ _ _ _ _ _ _ Hs Hc Hn) in Ha as [Ha Hb]; [|lia].
    unfold iw_ok. rewrite Hb. refine (eq_ind _ (λ k, done_with k s') Ha _ _). lia.
Qed.

Lemma ic_write_messages_ok input : ∀ s total s', iw_ok total s → total + zcount is_record input < int64_max →
  foldM (ic_write_message json_doc url_error ParseTime) s input = Ok s' → iw_ok (total + zcount is_record input) s'.
Proof using Haccepts.
  induction input as [|m input IH]; intros s total s' Hs Hsmall; cbn [foldM].
  { intros [= <-]. by rewrite Z.add_0_r. }
  destruct (ic_write_message _ _ _ s m) as [s1|e|p] eqn:H1; [|done..].
  pose proof (zcount_bounds is_record input) as Hb. cbn [zcount] in *.
  assert (Hk : 0 <= (if is_record m then 1 else 0) <= 1) by (destruct (is_record m); lia).
  intros Hrun. destruct (is_record m) eqn:Hm.
  - apply (ic_write_message_ok s m total) in H1; [|done|lia]. cbn [zcount] in H1. rewrite Hm, Z.add_0_r in H1.
    apply (IH s1 (total + 1) s') in Hrun; [by rewrite Z.add_assoc|done|lia].
  - assert (s1 = s) as ->.
    { unfold ic_write_message, is_record in *. destruct (msg_Record m); [done|]. by injection H1. }
    rewrite Z.add_0_l in *. by apply (IH s total s') in Hrun.
Qed.

Lemma ic_buildClient_on_net cfg : on_net (buildClient net refreshing cfg).
Proof.
  unfold on_net, buildClient, NewRESTClient. destruct (OAuth cfg) as [oc|]; [by vm_compute|]. case_bool_decide; by vm_compute.
Qed.

(** Every record of the input is counted as written or reported by an error of its own, whether it waited for a bulk
    request, was written by itself, could not be decoded or belongs to no stream. *)
Theorem intercom_write_accounts config input w result :
  zcount is_record input < int64_max →
  Write json_doc url_error ParseTime type_error net refreshing config input w = Ok result →
  wr_RecordsWritten result + Z.of_nat (length (wr_Errors result)) = zcount is_record input.
Proof using Haccepts.
  intros Hsmall. unfold Write. destruct (parseICConfig type_error config) as [cfg|e|m]; [|done..]. cbn [mbind outcome_bind].
  destruct (foldM _ (mkWrite _ _ _ _ _) input) as [s|e|m] eqn:Hm; [|done..].
  apply (ic_write_messages_ok _ _ 0) in Hm; [| |lia].
  2:{ split; [apply ic_buildClient_on_net|]. unfold each_accounted. cbn. lia. }
  cbn [mbind outcome_bind]. rewrite Z.add_0_l in Hm. destruct (bool_decide_reflect (iw_contacts s = [])) as [He|He].
  - intros [= <-]. destruct Hm as [_ Hm]. rewrite He in Hm. unfold each_accounted in Hm. cbn in *. lia.
  - destruct (flushContactBatch _ _ _ _ _ _) as [[[[n errs]|e|p] c] w1] eqn:Hf; [|done..].
    apply flushContactBatch_accounts in Hf as [Hc Hn]; [|apply Hm].
    destruct (ic_add_result s [] _) as [s'|e|p] eqn:Ha; [|done..]. intros [= <-].
    apply (ic_add_result_ok _ _ _ _ _ _ _ _ _ Hm Hc Hn) in Ha as [[_ Ha] _]; [|lia]. unfold each_accounted in Ha. cbn. lia.
Qed.
End writing.

(** ** Concrete runs *)

#[local] Existing Instance clock_runtime.
#[local] Existing Instance plain_urls.

Definition no_type_error (field : string) (j : json) : error := ErrText field.
Definition no_refresh (oc : OAuthConfig) (w : Z) : res string * Z := (Ok "", w).
Definition token_config : RawMessage := RawDoc (JObj [("access_token", JStr "t")]).
Definition accepting_net (rq : Request) (w : Z) : res HTTPResponse * Z := (Ok (mkHTTPResponse 202 ∅ (Ok "")), w + 1).
Definition no_docs (_ : string) : RawMessage := RawEmpty.
Definition record_of (stream : string) (l : list (string * json)) : Message := record_message (mkRec stream "" (RawDoc (JObj l)) 0).
Definition four_records : list Message :=
  [record_of "contacts" [("email", JStr "a@b.c")]; record_of "companies" [("id", JStr "7")]; record_of "tags" [];
   record_message (mkRec "contacts" "" (RawInvalid "unexpected end of JSON input") 0)].

Lemma intercom_write_accounts_witness :
  ∃ result, Write no_docs no_url_error no_time no_type_error accepting_net no_refresh token_config four_records 0 = Ok result ∧
    wr_RecordsWritten result = 2 ∧ wr_RecordsWritten result + Z.of_nat (length (wr_Errors result)) = 4.
Proof.
  destruct (Write _ _ _ _ _ _ _ _ _) as [result|e|m] eqn:Hw; [|exfalso; vm_compute in Hw; discriminate..].
  exists result. split; [done|]. split.
  - assert (He : wr_RecordsWritten <$> Write no_docs no_url_error no_time no_type_error accepting_net no_refresh token_config four_records 0 = Ok 2)
      by (vm_compute; reflexivity).
    rewrite Hw in He. by injection He.
  - change 4 with (zcount is_record four_records).
    refine (intercom_write_accounts no_docs no_url_error no_time no_type_error accepting_net no_refresh _ token_config four_records 0 result _ Hw).
    + intros rq w h w' [= <- _] _ _. by right.
    + vm_compute. reflexivity.
Defined.

(** An identifier that is a number is written in scientific notation. *)
Definition seen_url (rq : Request) (w : Z) : res HTTPResponse * Z := (Err (ErrText (rq_URL rq)), w).
Example numeric_id_mangled :
  (writeIndividual no_docs no_url_error no_time (buildClient seen_url no_refresh (mkIcConfig None "t")) "companies"
     (mkStreamDef "/companies" "data" "id" true "" false "/companies") {[ "id" := VFloat (f_of_Z 12345678) ]} 0).1.1 =
  Ok (0, [mkWriteError "update companies: max retries exceeded: http request: https://api.intercom.io/companies/1.2345678e+07"
            (RawDoc (JObj [("id", JNum (NPrint (f_of_Z 12345678)))])) ""]).
Proof. vm_compute. reflexivity. Qed.
