(* ===== verification/Salesforce.v ===== *)
(** * The Salesforce connector: [connectors/salesforce/salesforce.go]

    A bidirectional connector: objects are queried with SOQL, whose pages name the path of the next one, and written in
    batches by the composite API, which answers with a result for each record.  Names of objects are
    ASCII, as those of the API are. *)

From Stdlib Require Import Ascii.
From S2P Require Import Prelude GoStrings Errors Float Value Protocol JsonDecode Urls Pagination RestClient PagedFetch RestConnector.

Definition connectorName : string := "salesforce".
Definition apiVersion : string := "v59.0".
Definition maxCompositeSize : nat := 200.
Definition supportedStreams : list string := ["Account"; "Contact"; "Lead"; "Opportunity"; "Task"; "Event"; "Case"; "Campaign"].

Record sfConfig := mkSfConfig { InstanceURL : string; OAuth : option OAuthConfig; CustomObjects : list string; BulkThreshold : Z }.

Section decode.
Context (type_error : string → json → error).

Definition config_member (acc : sfConfig * option error) (e : string * json) : sfConfig * option error :=
  let '(cfg, err) := acc in
  if key_matches "instance_url" e.1
  then let '(s, err) := string_member type_error e.1 (InstanceURL cfg) e.2 err in
       (mkSfConfig s (OAuth cfg) (CustomObjects cfg) (BulkThreshold cfg), err)
  else if key_matches "oauth" e.1
  then let '(oc, err) := oauth_pointer type_error e.1 (OAuth cfg) e.2 err in
       (mkSfConfig (InstanceURL cfg) oc (CustomObjects cfg) (BulkThreshold cfg), err)
  else if key_matches "custom_objects" e.1
  then let '(l, err) := list_member type_error (string_member type_error e.1 "") e.1 (CustomObjects cfg) e.2 err in
       (mkSfConfig (InstanceURL cfg) (OAuth cfg) l (BulkThreshold cfg), err)
  else if key_matches "bulk_threshold" e.1
  then let '(n, err) := int_member type_error e.1 (BulkThreshold cfg) e.2 err in
       (mkSfConfig (InstanceURL cfg) (OAuth cfg) (CustomObjects cfg) n, err)
  else acc.

Definition parseSFConfig (raw : RawMessage) : res sfConfig :=
  let refused e := Err (NewConnectorError connectorName "parse_config" e) in
  match unmarshal_struct type_error (mkSfConfig "" None [] 0) config_member raw with
  | Ok cfg =>
      if bool_decide (InstanceURL cfg = "") then refused (ErrText "instance_url is required")
      else match OAuth cfg with
           | None => refused (ErrText "oauth credentials are required")
           | Some oc =>
               Ok (mkSfConfig (InstanceURL cfg) (Some (default_token_url "https://login.salesforce.com/services/oauth2/token" oc))
                     (CustomObjects cfg) (if BulkThreshold cfg <=? 0 then 10000 else BulkThreshold cfg))
           end
  | Err e => refused e
  | Panic m => Panic m
  end.
End decode.

(** ** Names, types and queries *)

Definition allStreams (cfg : sfConfig) : list string := supportedStreams ++ CustomObjects cfg.

Definition EqualFold (s t : string) : bool := key_matches s t.

(** A stream name back to the object's name: the first one that differs in case only. *)
Definition sfObjectAPIName (stream : string) (cfg : sfConfig) : string :=
  match find (λ s, EqualFold s stream) supportedStreams with
  | Some s => s
  | None => match find (λ s, EqualFold s stream) (CustomObjects cfg) with Some co => co | None => capitalised stream end
  end.

Definition sfTypeToJSON (sfType : string) : string :=
  if bool_decide (sfType = "int") || bool_decide (sfType = "integer") then "integer"
  else if bool_decide (sfType = "double") || bool_decide (sfType = "currency") || bool_decide (sfType = "percent") then "number"
  else if bool_decide (sfType = "boolean") then "boolean"
  else "string".

Definition buildSchemaFromDescribe (body : obj) : obj :=
  foldl (λ props f, let name := vtext (f !! "name") in
                    if bool_decide (name = "") then props
                    else <[name := type_entry (sfTypeToJSON (vtext (f !! "type")))]> props)
    ∅ (page_objects (extractArray body "fields")).

Definition soql_byte (c : ascii) : list ascii :=
  if decide (c = " "%char) then bytes_of "+"
  else if decide (c = "'"%char) then bytes_of "%27"
  else if decide (c = ">"%char) then bytes_of "%3E"
  else if decide (c = "<"%char) then bytes_of "%3C"
  else if decide (c = "="%char) then bytes_of "%3D"
  else [c].
Definition soqlEncode (s : string) : string := of_bytes (concat (map soql_byte (bytes_of s))).

Definition extractFieldNames (type_error : string → json → error) (schema : RawMessage) : list string :=
  default [] (extractPropertyNames type_error schema).

(** The query of a stream; an empty cursor is none. *)
Definition soql_text (fields : list string) (objName cursor : string) : string :=
  "SELECT " +:+ Join (if bool_decide (fields = []) then ["Id"] else fields) ", " +:+ " FROM " +:+ objName
  +:+ (if bool_decide (cursor = "") then "" else " WHERE LastModifiedDate > " +:+ cursor) +:+ " ORDER BY LastModifiedDate ASC".
Definition query_path (soql : string) : string := "/services/data/" +:+ apiVersion +:+ "/query?q=" +:+ soqlEncode soql.

(** The answer to a batch: [array_error] says why a text is not an array. *)
Definition composite_result (records : list obj) (i : nat) (v : value) : Z * list WriteError :=
  match v with
  | VMap r =>
      if match r !! "success" with Some (VBool b) => b | _ => false end then (1, [])
      else
        let msg := match extractArray r "errors" with
                   | VMap e :: _ => vtext (e !! "message")
                   | _ => "unknown error"
                   end in
        (0, [mkWriteError msg (match records !! i with Some rec => marshal_or_empty rec | None => RawEmpty end) ""])
  | _ => (0, [])
  end.

Definition parseCompositeResults (array_error : RawMessage → error) (raw : RawMessage) (records : list obj) : Z * list WriteError :=
  let failed e := (0, [mkWriteError ("parse composite response: " +:+ Error e) RawEmpty ""]) in
  match raw with
  | RawDoc JNull => (0, [])
  | RawDoc (JArr l) =>
      match mapO jvalue l with
      | Some results =>
          foldl (λ acc r, (acc.1 + r.1, acc.2 ++ r.2)) (0, []) (imap (composite_result records) results)
      | None => failed err_number
      end
  | _ => failed (array_error raw)
  end.

Section connector.
Context {W : Type} `{Hrt : Runtime W} `{Hurl : UrlLib}.
Context (json_doc : string → RawMessage) (url_error : string → error) (ParseTime : string → option Z).
Context (type_error : string → json → error) (array_error : RawMessage → error).
Context (net : Request → W → res HTTPResponse * W)               (** the default [http.Client] *)
        (refreshing : OAuthConfig → W → res string * W).         (** [oauth2.Config.TokenSource] *)

(** A configuration that was parsed has credentials. *)
Definition buildClient (cfg : sfConfig) : RESTClient W :=
  NewRESTClient net (TrimRight (InstanceURL cfg) "/")
    [WithOAuth2 (TokenSource refreshing (default empty_oauth (OAuth cfg))); WithRetry 3 (500 * millisecond); WithRateLimit (f_of_Z 20)].

Abbreviation get := (Get json_doc url_error ParseTime).
Abbreviation read_result := (option (res unit * list Message * RESTClient W * W)).

Definition Check (config : RawMessage) (w : W) : res CheckResult * W :=
  connect_check (parseSFConfig type_error config) (λ cfg w, get (buildClient cfg) "/services/data/" w) "Salesforce" w.

(** Objects that cannot be described are left out. *)
Definition discover_object (acc : list Stream * RESTClient W * W) (objName : string) : res (list Stream * RESTClient W * W) :=
  let '(streams, c, w) := acc in
  match get c ("/services/data/" +:+ apiVersion +:+ "/sobjects/" +:+ objName +:+ "/describe") w with
  | (Err _, c, w) => Ok (streams, c, w)
  | (Panic m, _, _) => Panic m
  | (Ok resp, c, w) =>
      Ok (streams ++ [mkStream (ToLower objName) "" objName (object_schema (buildSchemaFromDescribe (body_map resp)))
                        [SyncModeFullRefresh; SyncModeIncremental] ["LastModifiedDate"] true [["Id"]]], c, w)
  end.
Definition Discover (config : RawMessage) (w : W) : res Catalog :=
  cfg ← parseSFConfig type_error config;
  '(streams, _, _) ← foldM discover_object ([], buildClient cfg, w) (allStreams cfg);
  Ok (mkCatalog streams).

(** The path of a page, and the latest change. *)
Definition by_query : paging (W := W) (string * string) := {|
  pg_call := λ s c w, wrapping "SOQL query" (get c s.1 w);
  pg_items := λ body, extractArray body "records";
  pg_stops := false;
  pg_shape := delete "attributes";
  pg_seen := λ s rec, (s.1, later_text "LastModifiedDate" s.2 rec);
  pg_next := λ s body, let next := vtext (body !! "nextRecordsUrl") in ((next, s.2), negb (bool_decide (next = "")))
|}.

Definition readStream (fuel : nat) (c : RESTClient W) (cs : ConfiguredStream) (objName : string) (state : state_map)
    (out : list Message) (w : W) : read_result :=
  let stream := s_Name (cs_Stream cs) in
  let cursor := if bool_decide (cs_SyncMode cs = SyncModeIncremental)
                then state_text type_error "LastModifiedDate" (state !! stream) else "" in
  let soql := soql_text (extractFieldNames type_error (s_Schema (cs_Stream cs))) objName cursor in
  then_send (read_pages by_query stream fuel (query_path soql, "") c out w) (λ s, text_state stream "LastModifiedDate" s.2).

Definition Read (fuel : nat) (config : RawMessage) (catalog : ConfiguredCatalog) (state : state_map) (w : W) :
    option (res unit * list Message * W) :=
  match parseSFConfig type_error config with
  | Err e => Some (Err e, [], w)
  | Panic m => Some (Panic m, [], w)
  | Ok cfg => read_streams (λ cs, Some (sfObjectAPIName (s_Name (cs_Stream cs)) cfg))
                (λ c cs objName out w, readStream fuel c cs objName state out w) (buildClient cfg) (cc_Streams catalog) [] w
  end.

Definition composite_body (objName : string) (records : list obj) : obj :=
  {[ "allOrNone" := VBool false;
     "records" := VSlice (map VMap (map (<["attributes" := VMap {[ "type" := VString objName ]}]>) records)) ]}.

Definition flushBatch (cfg : sfConfig) (c : RESTClient W) (stream : string) (records : list obj) (w : W) :
    res (Z * list WriteError) * RESTClient W * W :=
  match Patch json_doc url_error ParseTime c ("/services/data/" +:+ apiVersion +:+ "/composite/sobjects")
          (Some (VMap (composite_body (sfObjectAPIName stream cfg) records))) w with
  | (Ok resp, c, w) => (Ok (parseCompositeResults array_error (json_doc (RawBody resp)) records), c, w)
  | (Err e, c, w) => (Ok (0, failed_writes ("composite API error: " +:+ Error e) records), c, w)
  | (Panic m, c, w) => (Panic m, c, w)
  end.

Definition Write (config : RawMessage) (input : list Message) (w : W) : res WriteResult :=
  cfg ← parseSFConfig type_error config; write_all (flushBatch cfg) maxCompositeSize (buildClient cfg) input w.

Definition Capabilities : list DestinationSyncMode := [DestSyncModeAppend; DestSyncModeUpsert].
End connector.

(** *** Webhooks *)

Definition hook_record (type_error : string → json → error) (k : string) (j : json) (err : option error) : unit * option error :=
  (tt, match j with
       | JNull => err
       | JObj _ => match jvalue j with Some _ => err | None => note err err_number end
       | j => note err (type_error k j)
       end).
Definition hook_member (type_error : string → json → error) (acc : string * option error) (e : string * json) : string * option error :=
  if key_matches "sobject_type" e.1 then string_member type_error e.1 acc.1 e.2 acc.2
  else if key_matches "action" e.1 then (acc.1, (string_member type_error e.1 "" e.2 acc.2).2)
  else if key_matches "records" e.1 then (acc.1, (list_member type_error (hook_record type_error e.1) e.1 [] e.2 acc.2).2)
  else acc.

Definition WebhookHandler (type_error : string → json → error) (body : RawMessage) : option error :=
  match unmarshal_struct type_error "" (hook_member type_error) body with
  | Ok sobject => if bool_decide (sobject = "")
                  then Some (NewConnectorError connectorName "webhook_validate" (ErrText "missing sobject_type in webhook payload"))
                  else None
  | Err e => Some (NewConnectorError connectorName "webhook_parse" e)
  | Panic m => None
  end.

(** ** Queries on their way *)

Definition plus_to_blank (c : ascii) : ascii := if decide (c = "+"%char) then " "%char else c.

Lemma soql_byte_read c rest : c ≠ "%"%char →
  unescape_bytes (soql_byte c ++ rest) = out ← unescape_bytes rest; Some (plus_to_blank c :: out).
Proof. intros Hc. destruct c as [[] [] [] [] [] [] [] []]; (reflexivity || by destruct Hc). Qed.

(** A query text without a percent sign arrives with every plus sign turned into a blank: exactly as it is sent if it has
    none.  The dates of Salesforce end in +0000. *)
Theorem soql_arrives s : "%"%char ∉ bytes_of s →
  QueryUnescape (soqlEncode s) = Some (of_bytes (map plus_to_blank (bytes_of s))) ∧
  (QueryUnescape (soqlEncode s) = Some s ↔ "+"%char ∉ bytes_of s).
Proof.
  intros Hs. assert (H : QueryUnescape (soqlEncode s) = Some (of_bytes (map plus_to_blank (bytes_of s)))).
  { unfold QueryUnescape, soqlEncode. rewrite bytes_of_bytes.
    assert (He : unescape_bytes (concat (map soql_byte (bytes_of s))) = Some (map plus_to_blank (bytes_of s))); [|by rewrite He].
    induction (bytes_of s) as [|c bs IH]; [done|]. apply not_elem_of_cons in Hs as [Hc Hbs].
    cbn [map concat]. rewrite soql_byte_read by congruence. by rewrite IH. }
  split; [done|]. rewrite H. split.
  - intros [= He] Hp. apply (f_equal bytes_of) in He. rewrite bytes_of_bytes in He.
    assert (Hb : "+"%char ∈ map plus_to_blank (bytes_of s)) by (by rewrite He). clear -Hb.
    apply list_elem_of_In, in_map_iff in Hb as (c & Hc & _). unfold plus_to_blank in Hc. by case_decide.
  - intros Hp. f_equal. rewrite <- (of_bytes_of s) at 2. f_equal. clear H Hs.
    induction (bytes_of s) as [|c bs IH]; [done|]. apply not_elem_of_cons in Hp as [Hc Hbs]. cbn [map]. rewrite IH by done.
    unfold plus_to_blank. by rewrite decide_False.
Qed.

(** ** Names *)

Lemma lower_fold r : fold_rune (lower_rune r) = fold_rune r ∨ 128 ≤ r.
Proof. unfold fold_rune, lower_rune. destruct (Z.leb_spec 128 r); [by right|left]. repeat case_match; lia. Qed.

Lemma ToLower_ascii s : Forall is_ascii (bytes_of s) →
  bytes_of (ToLower s) = map (λ c, byte_chr (lower_rune (byte_val c))) (bytes_of s).
Proof.
  intros Ha. unfold ToLower. rewrite runes_ascii, map_map, bytes_of_bytes by done. cbn [fst snd].
  induction Ha as [|c bs Hc Hbs IH]; [done|]. cbn [map concat]. rewrite IH. change (?x :: ?l) with ([x] ++ l). f_equal.
  case_decide as Hd; [by rewrite Hd, byte_chr_val|]. unfold lower_rune in *.
  destruct ((0x41 <=? byte_val c) && (byte_val c <=? 0x5A)) eqn:Hu.
  - rewrite <- (encode_ascii (byte_chr (byte_val c + 32))); f_equal; unfold is_ascii; rewrite byte_val_chr; try lia.
    apply Is_true_true. lia.
  - unfold is_ascii in Hc. apply Is_true_true, Z.ltb_lt in Hc. exfalso. revert Hd. by repeat case_match; try lia.
Qed.

Lemma EqualFold_lower s : Forall is_ascii (bytes_of s) → EqualFold s (ToLower s) = true.
Proof.
  intros Ha. unfold EqualFold, key_matches. apply bool_decide_eq_true. rewrite (runes_ascii s Ha).
  rewrite runes_ascii; rewrite ToLower_ascii by done.
  - rewrite !map_map. apply map_ext_in. intros c Hc%list_elem_of_In. cbn [fst].
    rewrite list.Forall_forall in Ha. specialize (Ha c Hc). unfold is_ascii in Ha. apply Is_true_true, Z.ltb_lt in Ha.
    pose proof (byte_val_range c). destruct (lower_fold (byte_val c)) as [Hl|]; [|lia].
    rewrite byte_val_chr; [done|]. unfold lower_rune. repeat case_match; lia.
  - apply List.Forall_map. eapply list.Forall_impl; [exact Ha|]. intros c Hc. unfold is_ascii in *.
    apply Is_true_true, Z.ltb_lt in Hc. apply Is_true_true, Z.ltb_lt. pose proof (byte_val_range c).
    rewrite byte_val_chr; unfold lower_rune; repeat case_match; lia.
Qed.

Lemma find_matching {A} (f : A → bool) l x : x ∈ l → f x = true → (∀ y, y ∈ l → f y = true → y = x) → find f l = Some x.
Proof.
  intros Hx Hf Huniq. destruct (find f l) as [y|] eqn:Hy.
  - apply find_some in Hy as [Hin Hfy]. f_equal. apply Huniq; [by apply list_elem_of_In|done].
  - apply list_elem_of_In in Hx. by rewrite (find_none _ _ Hy x Hx) in Hf.
Qed.

(** The stream of every object leads back to it, when no two objects differ in case only. *)
Theorem object_of_its_stream cfg obj :
  (∀ s, s ∈ allStreams cfg → Forall is_ascii (bytes_of s)) →
  (∀ s t, s ∈ allStreams cfg → t ∈ allStreams cfg → EqualFold s t = true → s = t) →
  obj ∈ allStreams cfg → sfObjectAPIName (ToLower obj) cfg = obj.
Proof.
  intros Ha Huniq Hobj. pose proof (EqualFold_lower obj (Ha obj Hobj)) as Hl.
  assert (Hsame : ∀ s, s ∈ allStreams cfg → EqualFold s (ToLower obj) = true → s = obj).
  { intros s Hs Hf. apply Huniq; [done..|]. unfold EqualFold, key_matches in *.
    apply bool_decide_eq_true in Hf, Hl. apply bool_decide_eq_true. congruence. }
  unfold sfObjectAPIName. unfold allStreams in *. apply elem_of_app in Hobj as [Hobj|Hobj].
  - rewrite (find_matching _ _ obj); [done|done|done|]. intros y Hy. apply Hsame, elem_of_app. by left.
  - destruct (find _ supportedStreams) as [s|] eqn:Hs.
    + apply find_some in Hs as [Hin Hf]. apply Hsame; [|done]. apply elem_of_app. left. by apply list_elem_of_In.
    + rewrite (find_matching _ _ obj); [done|done|done|]. intros y Hy. apply Hsame, elem_of_app. by right.
Qed.

(** ** Every record is accounted for *)

(** The records of a body. *)
Definition body_records (b : option RawMessage) : option (list json) :=
  match b with
  | Some (RawDoc (JObj l)) => match (list_to_map l : gmap string json) !! "records" with Some (JArr l) => Some l | _ => None end
  | _ => None
  end.

Lemma composite_records objName records b : marshal_body (Some (VMap (composite_body objName records))) = Ok b →
  ∃ l, body_records b = Some l ∧ length l = length records.
Proof.
  unfold marshal_body. cbn [to_json]. destruct (mapM to_json (composite_body objName records)) as [js|] eqn:Hm; [|done].
  intros [= <-]. cbn [body_records]. rewrite sorted_entries_lookup, (mapM_lookup _ _ _ Hm). unfold composite_body.
  rewrite lookup_insert_ne, lookup_singleton_eq by done. cbn [mbind option_bind to_json].
  set (rs := map (<["attributes" := _]>) records). rewrite <- (length_map (<["attributes" := VMap {[ "type" := VString objName ]}]>) records).
  fold rs. destruct (mapO to_json (map VMap rs)) as [l|] eqn:Hl.
  - exists l. split; [done|]. clear -Hl. revert l Hl. induction rs as [|r rs IH]; intros l; cbn [map mapO]; [by intros [= <-]|].
    destruct (to_json (VMap r)); [|done]. destruct (mapO to_json (map VMap rs)) as [l'|]; [|done].
    intros [= <-]. cbn. f_equal. by apply IH.
  - destruct (mapM_defined _ _ _ Hm "records" (VSlice (map VMap rs))) as [j Hj]; [by unfold composite_body; rewrite lookup_insert_ne, lookup_singleton_eq|].
    cbn [to_json] in Hj. by rewrite Hl in Hj.
Qed.

Lemma composite_tally records results : ∀ i n errs, Forall (λ v, ∃ m, v = VMap m) results →
  let '(n', errs') := foldl (λ acc r, (acc.1 + r.1, acc.2 ++ r.2)) (n, errs) (imap (λ k, composite_result records (i + k)) results) in
  n ≤ n' ∧ n' + Z.of_nat (length errs') = n + Z.of_nat (length errs) + Z.of_nat (length results).
Proof.
  induction results as [|v results IH]; intros i n errs Hall; [cbn; lia|].
  apply list.Forall_cons in Hall as [[m ->] Hall]. rewrite imap_cons. cbn [foldl fst snd].
  set (r := composite_result records (i + 0) (VMap m)).
  assert (Hr : 0 ≤ r.1 ∧ r.1 + Z.of_nat (length r.2) = 1).
  { unfold r, composite_result. case_match; cbn; lia. }
  specialize (IH (S i) (n + r.1) (errs ++ r.2) Hall).
  rewrite (imap_ext _ (λ k, composite_result records (S i + k))) by (intros k v Hk; cbn; f_equal; lia).
  destruct (foldl _ _ _) as [n' errs']. rewrite length_app in IH. cbn [length]. lia.
Qed.

Section accounts.
Context {W : Type} `{Hrt : Runtime W} `{Hurl : UrlLib}.
Context (json_doc : string → RawMessage) (url_error : string → error) (ParseTime : string → option Z).
Context (type_error : string → json → error) (array_error : RawMessage → error).
Context (net : Request → W → res HTTPResponse * W) (refreshing : OAuthConfig → W → res string * W).

(** A batch is answered with an object for each of its records. *)
Definition answers_each : Prop := ∀ rq w h w' t l, net rq w = (Ok h, w') → r_StatusCode h < 400 → r_Body h = Ok t →
  body_records (rq_Body rq) = Some l →
  ∃ r, json_doc t = RawDoc (JArr r) ∧ length r = length l ∧ Forall (λ j, ∃ m, jvalue j = Some (VMap m)) r.
Hypothesis Hanswers : answers_each.

Definition on_net (c : RESTClient W) : Prop := client c = net ∧ max_size c < int64_max.

Lemma mapO_objects l : Forall (λ j, ∃ m, jvalue j = Some (VMap m)) l →
  ∃ results, mapO jvalue l = Some results ∧ length results = length l ∧ Forall (λ v, ∃ m, v = VMap m) results.
Proof.
  induction 1 as [|j l [m Hm] _ (results & Hr & Hlen & Hall)]; [by exists []|].
  exists (VMap m :: results). cbn [mapO]. rewrite Hm, Hr. split_and!; [done|by cbn; rewrite Hlen|].
  constructor; [by exists m|done].
Qed.

Lemma sf_flushBatch_accounts cfg c stream records w n errs c' w' :
  on_net c → flushBatch json_doc url_error ParseTime array_error cfg c stream records w = (Ok (n, errs), c', w') →
  on_net c' ∧ each_accounted n (Z.of_nat (length errs)) (Z.of_nat (length records)).
Proof using Hanswers.
  intros [Hnet Hmax]. unfold flushBatch. destruct (Patch _ _ _ c _ _ w) as [[r c2] w2] eqn:Hp.
  apply (do_request_result json_doc url_error ParseTime) in Hp as [Hs Hans]; [|done].
  assert (Hc2 : on_net c2).
  { split; [by rewrite <- (proj1 Hs)|by rewrite <- (max_size_same _ _ Hs)]. }
  unfold each_accounted, failed_writes.
  destruct r as [resp|e|pm]; [|intros [= <- <- <- _]; rewrite length_map; split; [done|lia]|done].
  destruct (Hans resp eq_refl) as (b & Hb & rq & w3 & h & t & (_ & _ & Hrb) & Hcl & Hst & Ht & _ & Hraw & _).
  apply composite_records in Hb as (l & Hl & Hlen). rewrite <- Hrb in Hl. rewrite Hnet in Hcl. rewrite Hraw.
  destruct (Hanswers rq w3 h w2 t l Hcl Hst Ht Hl) as (r & Hr & Hrl & Hall).
  apply mapO_objects in Hall as (results & Hres & Hresl & Hobj). rewrite Hr. cbn [parseCompositeResults]. rewrite Hres.
  pose proof (composite_tally records results 0 0 [] Hobj) as Ht'. cbn [Nat.add] in Ht'.
  intros [= Hf <- _]. split; [done|]. change (λ k, composite_result records k) with (composite_result records) in Ht'.
  rewrite Hf in Ht'. cbn in Ht'. lia.
Qed.

(** Every record of the input is counted as written or reported by an error of its own, when each batch is answered with
    a result for every record. *)
Theorem salesforce_write_accounts config input w result :
  zcount is_record input < int64_max →
  Write json_doc url_error ParseTime type_error array_error net refreshing config input w = Ok result →
  wr_RecordsWritten result + Z.of_nat (length (wr_Errors result)) = zcount is_record input.
Proof using Hanswers.
  intros Hsmall. unfold Write. destruct (parseSFConfig type_error config) as [cfg|e|m]; [|done..]. cbn [mbind outcome_bind].
  intros Hw. apply (write_all_tallied _ _ each_accounted on_net) in Hw; [apply Hw| | |done].
  - intros c stream records w0 n errs c' w' Hon _. by apply sf_flushBatch_accounts.
  - split; by vm_compute.
Qed.
End accounts.

(** ** Concrete runs *)

#[local] Existing Instance clock_runtime.
#[local] Existing Instance plain_urls.

Definition no_type_error (field : string) (j : json) : error := ErrText field.
Definition no_array (_ : RawMessage) : error := ErrText "json: cannot unmarshal object into Go value of type []interface {}".
Definition no_refresh (oc : OAuthConfig) (w : Z) : res string * Z := (Ok "", w).
Definition sf_config : RawMessage :=
  RawDoc (JObj [("instance_url", JStr "https://na1.salesforce.com/"); ("oauth", JObj [("access_token", JStr "t")])]).
(** Of a batch of two the second fails; other batches are answered with nothing. *)
Definition two_results (t : string) : RawMessage :=
  if bool_decide (t = "two")
  then RawDoc (JArr [JObj [("success", JBool true)]; JObj [("success", JBool false); ("errors", JArr [JObj [("message", JStr "DUPLICATE")]])]])
  else RawDoc (JArr []).
Definition two_net (rq : Request) (w : Z) : res HTTPResponse * Z :=
  match body_records (rq_Body rq) with
  | Some [_; _] => (Ok (resp200 "two"), w + 1)
  | Some [] => (Ok (resp200 "none"), w + 1)
  | _ => (Err (ErrText "refused"), w + 1)
  end.
Definition contact (name : string) : Message := record_message (mkRec "contact" "" (RawDoc (JObj [("Name", JStr name)])) 0).

Lemma two_net_answers : answers_each two_results two_net.
Proof.
  intros rq w h w' t l Hn _ Ht Hl. unfold two_net in Hn. rewrite Hl in Hn. destruct l as [|j1 [|j2 [|j3 l]]]; [|done| |done].
  - injection Hn as <- _. injection Ht as <-. exists []. split_and!; [vm_compute; reflexivity|done|constructor].
  - injection Hn as <- _. injection Ht as <-. eexists. split; [vm_compute; reflexivity|]. split; [done|].
    repeat constructor; eexists; vm_compute; reflexivity.
Qed.

Lemma salesforce_write_accounts_witness :
  ∃ result, Write two_results no_url_error no_time no_type_error no_array two_net no_refresh sf_config [contact "a"; contact "b"] 0 = Ok result ∧
    wr_RecordsWritten result = 1 ∧ wr_RecordsWritten result + Z.of_nat (length (wr_Errors result)) = 2.
Proof.
  destruct (Write _ _ _ _ _ _ _ _ _ _) as [result|e|m] eqn:Hw; [|exfalso; vm_compute in Hw; discriminate..].
  exists result. split; [done|]. split.
  - assert (He : wr_RecordsWritten <$> Write two_results no_url_error no_time no_type_error no_array two_net no_refresh sf_config
                                         [contact "a"; contact "b"] 0 = Ok 1) by (vm_compute; reflexivity).
    rewrite Hw in He. by injection He.
  - change 2 with (zcount is_record [contact "a"; contact "b"]).
    refine (salesforce_write_accounts two_results no_url_error no_time no_type_error no_array two_net no_refresh two_net_answers
              sf_config [contact "a"; contact "b"] 0 result _ Hw). vm_compute. reflexivity.
Defined.

(** Records for which an answer has no result are neither counted nor reported. *)
Definition short_net (rq : Request) (w : Z) : res HTTPResponse * Z := (Ok (resp200 "none"), w + 1).
Example short_answer_loses :
  Write two_results no_url_error no_time no_type_error no_array short_net no_refresh sf_config [contact "a"; contact "b"] 0 =
  Ok (mkWriteResult 0 [] []).
Proof. vm_compute. reflexivity. Qed.

(** The state of a sync spoils the query of the next one. *)
Definition leads (mode : SyncMode) : ConfiguredStream :=
  mkConfiguredStream (mkStream "lead" "" "Lead" RawEmpty [] [] true []) mode DestSyncModeAppend [] [].
Definition lead_state : state_map := {[ "lead" := RawDoc (JObj [("LastModifiedDate", JStr "2024-01-01T00:00:00.000+0000")]) ]}.
Definition seen_query (rq : Request) (w : Z) : res HTTPResponse * Z :=
  (Err (ErrText (default "" (head (values_of (request_query (rq_URL rq)) "q")))), w).
Example incremental_query_spoiled :
  (λ r, r.1.1.1) <$> readStream two_results no_url_error no_time no_type_error 1
    (buildClient seen_query no_refresh (mkSfConfig "https://na1.salesforce.com" None [] 0)) (leads SyncModeIncremental) "Lead" lead_state [] 0 =
  Some (Err (ErrWrapf "SOQL query" (ErrWrapf "max retries exceeded" (ErrWrapf "http request"
    (ErrText "SELECT Id FROM Lead WHERE LastModifiedDate > 2024-01-01T00:00:00.000 0000 ORDER BY LastModifiedDate ASC"))))).
Proof. vm_compute. reflexivity. Qed.

Lemma soql_arrives_witness : QueryUnescape (soqlEncode "SELECT Id FROM Lead") = Some "SELECT Id FROM Lead".
Proof.
  assert (Hp : "%"%char ∉ bytes_of "SELECT Id FROM Lead") by (apply (bool_decide_unpack _); vm_compute; exact I).
  apply (proj2 (proj2 (soql_arrives _ Hp))). apply (bool_decide_unpack _). vm_compute. exact I.
Defined.

Definition invoices : sfConfig := mkSfConfig "" None ["Invoice__c"] 0.
Lemma object_of_its_stream_witness : sfObjectAPIName (ToLower "Invoice__c") invoices = "Invoice__c".
Proof.
  apply (object_of_its_stream invoices "Invoice__c").
  - apply list.Forall_forall. apply (bool_decide_unpack _). vm_compute. exact I.
  - assert (H : Forall (λ s, Forall (λ t, EqualFold s t = true → s = t) (allStreams invoices)) (allStreams invoices))
      by (apply (bool_decide_unpack _); vm_compute; exact I).
    intros s t Hs Ht. rewrite list.Forall_forall in H. specialize (H s Hs). rewrite list.Forall_forall in H. by apply H.
  - apply (bool_decide_unpack _). vm_compute. exact I.
Defined.
