(* ===== verification/Zoom.v ===== *)
(** * The Zoom connector: [connectors/zoom/zoom.go]

    A source with a client of its own, which keeps a token and retries.  Streams are read page by page; resources of the
    items of a page (participants, registrants) are read before the next page.  The answer to a token request is the first
    document of its body ([json_first]). *)

From Stdlib Require Import Ascii.
From S2P Require Import Prelude GoStrings Errors Float Value Protocol JsonDecode Urls Encoding Pagination RestClient PagedFetch RestConnector.

Definition connectorName : string := "zoom".
Definition zoomAPIBase : string := "https://api.zoom.us/v2".
Definition zoomTokenURL : string := "https://zoom.us/oauth/token".
Definition maxRetries : nat := 5.
Definition retryBaseDelay : Z := second.

Record ZoomConfig := mkZoomConfig { AccountID : string; ClientID : string; ClientSecret : string; StartDate : string; EndDate : string }.

Definition validate (c : ZoomConfig) : option error :=
  let missing field := Some (ErrValidation (mkValidationError field (field +:+ " is required"))) in
  if bool_decide (AccountID c = "") then missing "account_id"
  else if bool_decide (ClientID c = "") then missing "client_id"
  else if bool_decide (ClientSecret c = "") then missing "client_secret"
  else None.

(** ** Streams *)

Record subResource := mkSub { sub_Name : string; sub_Endpoint : string → string; sub_ResponseKey : string; ParentIDKey : string; sub_Schema : RawMessage }.
Record streamDef := mkDef {
  sd_Name : string; Endpoint : string; ResponseKey : string; Schema : RawMessage; SubResources : list subResource; DateFiltered : bool
}.

Definition typed_as (t : string) : json := JObj [("type", JStr t)].
(** The schema of an object whose properties have these types. *)
Definition schema_of (properties : list (string * json)) : RawMessage :=
  RawDoc (JObj [("type", JStr "object"); ("properties", JObj properties)]).
Definition texts (names : list string) : list (string * json) := map (λ n, (n, typed_as "string")) names.
Definition number (name : string) : list (string * json) := [(name, typed_as "integer")].

Definition user_schema : RawMessage :=
  schema_of (texts ["id"; "first_name"; "last_name"; "email"] ++ number "type" ++ texts ["status"; "created_at"; "last_login_time"; "timezone"; "dept"]
             ++ number "pmi" ++ texts ["role_name"]).
Definition event_fields : list (string * json) :=
  number "id" ++ texts ["uuid"; "topic"] ++ number "type" ++ texts ["start_time"] ++ number "duration"
  ++ texts ["timezone"; "agenda"; "created_at"; "join_url"; "host_id"].
Definition registrants (name path parent : string) : subResource :=
  mkSub name (λ id, "/" +:+ path +:+ "/" +:+ id +:+ "/registrants") "registrants" "id"
    (schema_of (texts ["id"; "email"; "first_name"; "last_name"; "status"; "create_time"; "join_url"] ++ number parent)).
Definition participants : subResource :=
  mkSub "participants" (λ id, "/past_meetings/" +:+ id +:+ "/participants") "participants" "uuid"
    (schema_of (texts ["id"; "user_id"; "name"; "user_email"; "join_time"; "leave_time"] ++ number "duration" ++ texts ["meeting_id"])).

Definition allStreams : list streamDef := [
  mkDef "users" "/users" "users" user_schema [] false;
  mkDef "meetings" "/users/me/meetings" "meetings" (schema_of (event_fields ++ texts ["status"]))
    [participants; registrants "registrants" "meetings" "meeting_id"] false;
  mkDef "webinars" "/users/me/webinars" "webinars" (schema_of event_fields) [registrants "webinar_registrants" "webinars" "webinar_id"] false;
  mkDef "recordings" "/users/me/recordings" "meetings"
    (schema_of (number "id" ++ texts ["uuid"; "topic"; "start_time"] ++ number "duration" ++ number "total_size" ++ number "recording_count"
                ++ number "type" ++ texts ["host_id"; "host_email"]
                ++ [("recording_files", JObj [("type", JStr "array"); ("items", typed_as "object")])])) [] true ].

Definition Discover : Catalog :=
  mkCatalog (concat (map (λ sd,
    mkStream (sd_Name sd) "zoom" "" (Schema sd) [SyncModeFullRefresh; SyncModeIncremental] ["created_at"] false []
    :: map (λ sub, mkStream (sub_Name sub) "zoom" "" (sub_Schema sub) [SyncModeFullRefresh] [] false []) (SubResources sd)) allStreams)).

(** [url.PathEscape]. *)
Definition escape_path_byte (c : ascii) : list ascii :=
  if unreserved c || bool_decide (c ∈ bytes_of "$&+=:@") then [c]
  else ["%"%char; upper_hex (byte_val c / 16); upper_hex (byte_val c mod 16)].
Definition PathEscape (s : string) : string := of_bytes (concat (map escape_path_byte (bytes_of s))).

(** ** Pages *)

Definition decode_error (type_error : string → json → error) (raw : RawMessage) : error :=
  match raw with RawEmpty => err_eof | RawInvalid e => ErrText e | RawDoc j => type_error "" j end.

(** Into [map[string]json.RawMessage] and [[]map[string]interface{}]. *)
Definition decode_page (type_error : string → json → error) (raw : RawMessage) : res (gmap string json) :=
  match raw with
  | RawDoc JNull => Ok ∅
  | RawDoc (JObj l) => Ok (raw_members l ∅)
  | _ => Err (decode_error type_error raw)
  end.
(** An item that is [null] is a nil map. *)
Definition item_member (type_error : string → json → error) (j : json) (err : option error) : option obj * option error :=
  match j with
  | JNull => (None, err)
  | JObj l => match objO jvalue l ∅ with Some m => (Some m, err) | None => (Some ∅, note err err_number) end
  | j => (None, note err (type_error "" j))
  end.
Definition decode_items (type_error : string → json → error) (j : json) : res (list (option obj)) :=
  match list_member type_error (item_member type_error) "" [] j None with
  | (items, None) => Ok items
  | (_, Some e) => Err e
  end.
(** The token of the next page, if there is one that is not empty. *)
Definition token_after (page : gmap string json) : option string :=
  match page !! "next_page_token" with Some (JStr t) => if bool_decide (t = "") then None else Some t | _ => None end.

Definition item_data (item : option obj) : RawMessage := match item with Some m => marshal_or_empty m | None => RawDoc JNull end.
Definition zoom_record (stream : string) (now : Z) (item : option obj) : Message :=
  record_message (mkRec stream "zoom" (item_data item) now).
Definition log_message (level : LogLevel) (text : string) (now : Z) : Message :=
  mkMessage MessageTypeLog None None None (Some (mkLog level text now RawEmpty)) None None None None.

(** The text an item has in the cursor field, or the one before. *)
Definition last_cursor (field : string) (cur : string) (item : option obj) : string :=
  match item ≫= (.!! field) with Some (VString s) => s | _ => cur end.

(** The items of a resource, sent with the id of their parent; a nil map cannot take it. *)
Fixpoint send_children (stream parentID : string) (items : list (option obj)) (now : Z) (out : list Message) : res unit * list Message :=
  match items with
  | [] => (Ok tt, out)
  | None :: _ => (Panic "assignment to entry in nil map", out)
  | Some item :: items =>
      send_children stream parentID items now (out ++ [zoom_record stream now (Some (<["_parent_id" := VString parentID]> item))])
  end.

Record tokenCache := mkTokenCache { token : string; expiresAt : Z }.
Definition no_token : tokenCache := mkTokenCache "" zero_time.

Section connector.
Context {W : Type} `{Hrt : Runtime W} `{Hurl : UrlLib}.
Context (json_doc json_first : string → RawMessage) (url_error : string → error) (type_error : string → json → error).
Context (parse_duration : string → option Z)                     (** [time.ParseDuration] *)
        (date_text : Z → string) (half_a_year_before : Z → Z)    (** [Format("2006-01-02")], [AddDate(0, -6, 0)] *)
        (net : Request → W → res HTTPResponse * W)               (** the client's [Do] *)
        (post_form : string → string → W → res HTTPResponse * W) (** the same for a form with its Authorization *)
        (limiter : W → option error * W).                        (** [Limiter.Wait] *)

Definition config_member (acc : ZoomConfig * option error) (e : string * json) : ZoomConfig * option error :=
  let '(c, err) := acc in
  let text old := string_member type_error e.1 old e.2 err in
  if key_matches "account_id" e.1
  then let '(s, err) := text (AccountID c) in (mkZoomConfig s (ClientID c) (ClientSecret c) (StartDate c) (EndDate c), err)
  else if key_matches "client_id" e.1
  then let '(s, err) := text (ClientID c) in (mkZoomConfig (AccountID c) s (ClientSecret c) (StartDate c) (EndDate c), err)
  else if key_matches "client_secret" e.1
  then let '(s, err) := text (ClientSecret c) in (mkZoomConfig (AccountID c) (ClientID c) s (StartDate c) (EndDate c), err)
  else if key_matches "start_date" e.1
  then let '(s, err) := text (StartDate c) in (mkZoomConfig (AccountID c) (ClientID c) (ClientSecret c) s (EndDate c), err)
  else if key_matches "end_date" e.1
  then let '(s, err) := text (EndDate c) in (mkZoomConfig (AccountID c) (ClientID c) (ClientSecret c) (StartDate c) s, err)
  else acc.

Definition parseConfig (raw : RawMessage) : res ZoomConfig :=
  match unmarshal_struct type_error (mkZoomConfig "" "" "" "" "") config_member raw with
  | Ok cfg => match validate cfg with
              | Some e => Err (NewConnectorError connectorName "validate_config" e)
              | None => Ok cfg
              end
  | Err e => Err (NewConnectorError connectorName "parse_config" e)
  | Panic m => Panic m
  end.

(** *** Requests *)

Definition grant_member (acc : (string * Z) * option error) (e : string * json) : (string * Z) * option error :=
  let '((tok, expires), err) := acc in
  if key_matches "access_token" e.1
  then let '(s, err) := string_member type_error e.1 tok e.2 err in ((s, expires), err)
  else if key_matches "token_type" e.1 then ((tok, expires), (string_member type_error e.1 "" e.2 err).2)
  else if key_matches "expires_in" e.1
  then let '(n, err) := int_member type_error e.1 expires e.2 err in ((tok, n), err)
  else acc.

Definition token_form (cfg : ZoomConfig) : string :=
  Encode (Values_Set (Values_Set ∅ "grant_type" "account_credentials") "account_id" (AccountID cfg)).

(** The cached token, or a new one, which is taken to expire a minute early. *)
Definition getAccessToken (cfg : ZoomConfig) (cache : tokenCache) (w : W) : res string * tokenCache * W :=
  if negb (bool_decide (token cache = "")) && (clock_of w <? expiresAt cache) then (Ok (token cache), cache, w)
  else
    match post_form (token_form cfg) ("Basic " +:+ Base64Encode (bytes_of (ClientID cfg +:+ ":" +:+ ClientSecret cfg))) w with
    | (Err e, w) => (Err (ErrWrapf "token request failed" e), cache, w)
    | (Panic m, w) => (Panic m, cache, w)
    | (Ok resp, w) =>
        if negb (r_StatusCode resp =? 200)
        then (Err (ErrText ("token request returned " +:+ pretty (r_StatusCode resp) +:+ ": "
                            +:+ match r_Body resp with Ok t => t | _ => "" end)), cache, w)
        else
          match (match r_Body resp with
                 | Ok t => unmarshal_struct type_error ("", 0) grant_member (json_first t)
                 | Err e => Err e
                 | Panic m => Panic m
                 end) with
          | Ok (tok, expires) => (Ok tok, mkTokenCache tok (clock_of w + (expires -ᵢ 60) *ᵢ second), w)
          | Err e => (Err (ErrWrapf "decode token response" e), cache, w)
          | Panic m => (Panic m, cache, w)
          end
    end.

(** What follows an answer: another attempt, or the call's result. *)
Definition judge (attempt : Z) (cache : tokenCache) (resp : HTTPResponse) (w : W) : (error + res RawMessage) * tokenCache * W :=
  match r_Body resp with
  | Err e => (inl e, cache, w)
  | Panic m => (inr (Panic m), cache, w)
  | Ok body =>
      let status := r_StatusCode resp in
      if status =? 200 then (inr (Ok (json_doc body)), cache, w)
      else if status =? 429 then
        let header := Header_Get (r_Header resp) "Retry-After" in
        let wait := match (if bool_decide (header = "") then None else parse_duration (header +:+ "s")) with
                    | Some d => d
                    | None => retryBaseDelay * (attempt + 1) * 2
                    end in
        (inl (ErrRetryable (ErrText "rate limited (429)") (Z.quot wait second)), cache, sleep wait w)
      else if status =? 401 then (inl (ErrText ("unauthorized (401): " +:+ body)), no_token, w)
      else if 500 <=? status
      then (inl (ErrRetryable (ErrText ("server error " +:+ pretty status +:+ ": " +:+ body)) 0), cache, sleep (retryBaseDelay * (attempt + 1)) w)
      else (inr (Err (ErrText ("API returned " +:+ pretty status +:+ ": " +:+ body))), cache, w)
  end.

(** The attempts from number [attempt] on; [lastErr] is set after the first. *)
Fixpoint get_attempts (remaining : nat) (attempt : Z) (cfg : ZoomConfig) (fullURL : string) (lastErr : error) (cache : tokenCache) (w : W) :
    res RawMessage * tokenCache * W :=
  match remaining with
  | O => (Err (ErrWrapf "max retries exceeded" lastErr), cache, w)
  | S remaining =>
      match poll w with
      | Some e => (Err e, cache, w)
      | None =>
          match getAccessToken cfg cache w with
          | (Err e, cache, w) => (Err (ErrWrapf "get access token" e), cache, w)
          | (Panic m, cache, w) => (Panic m, cache, w)
          | (Ok tok, cache, w) =>
              match Parse fullURL with
              | None => (Err (ErrWrapf "create request" (url_error fullURL)), cache, w)
              | Some _ =>
                  match net (mkRequest "GET" fullURL None {[ "Authorization" := "Bearer " +:+ tok; "Accept" := "application/json" ]}) w with
                  | (Err e, w) => get_attempts remaining (attempt + 1) cfg fullURL e cache (sleep (retryBaseDelay * (attempt + 1)) w)
                  | (Panic m, w) => (Panic m, cache, w)
                  | (Ok resp, w) =>
                      match judge attempt cache resp w with
                      | (inl e, cache, w) => get_attempts remaining (attempt + 1) cfg fullURL e cache w
                      | (inr r, cache, w) => (r, cache, w)
                      end
                  end
              end
          end
      end
  end.

Definition doGet (cfg : ZoomConfig) (endpoint : string) (params : Values) (cache : tokenCache) (w : W) : res RawMessage * tokenCache * W :=
  match limiter w with
  | (Some e, w) => (Err (ErrWrapf "rate limiter" e), cache, w)
  | (None, w) =>
      let fullURL := zoomAPIBase +:+ endpoint +:+ (if bool_decide (params = ∅) then "" else "?" +:+ Encode params) in
      get_attempts (S maxRetries) 0 cfg fullURL (ErrText "") cache w
  end.

Definition Check (config : RawMessage) (w : W) : res CheckResult * W :=
  match parseConfig config with
  | Err e => (Ok (mkCheckResult CheckStatusFailed (Error e)), w)
  | Panic m => (Panic m, w)
  | Ok cfg =>
      match doGet cfg "/users/me" ∅ no_token w with
      | (Ok _, _, w) => (Ok (mkCheckResult CheckStatusSucceeded "Successfully connected to Zoom API"), w)
      | (Err e, _, w) => (Ok (mkCheckResult CheckStatusFailed ("connection check failed: " +:+ Error e)), w)
      | (Panic m, _, w) => (Panic m, w)
      end
  end.

(** *** Reading *)

Definition page_params (token : string) : Values :=
  let params := Values_Set ∅ "page_size" "300" in
  if bool_decide (token = "") then params else Values_Set params "next_page_token" token.

(** The resources of one parent: errors end them, with a log message or without. *)
Fixpoint sub_pages (fuel : nat) (cfg : ZoomConfig) (sub : subResource) (endpoint parentID token : string) (cache : tokenCache)
    (out : list Message) (w : W) : option (res unit * list Message * tokenCache * W) :=
  match fuel with
  | O => None
  | S fuel =>
      match doGet cfg endpoint (page_params token) cache w with
      | (Panic m, cache, w) => Some (Panic m, out, cache, w)
      | (Err e, cache, w) =>
          Some (Ok tt, out ++ [log_message LogLevelWarn ("skipping sub-resource " +:+ sub_Name sub +:+ " for parent " +:+ parentID +:+ ": " +:+ Error e)
                                 (clock_of w)], cache, w)
      | (Ok body, cache, w) =>
          match decode_page type_error body with
          | Ok page =>
              match decode_items type_error <$> page !! sub_ResponseKey sub with
              | Some (Ok items) =>
                  match send_children (sub_Name sub) parentID items (clock_of w) out, token_after page with
                  | (Ok _, out), Some token => sub_pages fuel cfg sub endpoint parentID token cache out w
                  | (r, out), _ => Some (r, out, cache, w)
                  end
              | _ => Some (Ok tt, out, cache, w)
              end
          | _ => Some (Ok tt, out, cache, w)
          end
      end
  end.

Fixpoint readSubResource (fuel : nat) (cfg : ZoomConfig) (sub : subResource) (parents : list (option obj)) (cache : tokenCache)
    (out : list Message) (w : W) : option (res unit * list Message * tokenCache * W) :=
  match parents with
  | [] => Some (Ok tt, out, cache, w)
  | parent :: parents =>
      match poll w with
      | Some e => Some (Err e, out, cache, w)
      | None =>
          let parentID := match parent ≫= (.!! ParentIDKey sub) with Some v => sprint_v v | None => "" end in
          if bool_decide (parentID = "") then readSubResource fuel cfg sub parents cache out w
          else
            match sub_pages fuel cfg sub (sub_Endpoint sub (PathEscape (PathEscape parentID))) parentID "" cache out w with
            | Some (Ok _, out, cache, w) => readSubResource fuel cfg sub parents cache out w
            | r => r
            end
      end
  end.

(** The selected resources of the items of a page. *)
Fixpoint onPage (fuel : nat) (cfg : ZoomConfig) (subs : list subResource) (items : list (option obj)) (cache : tokenCache)
    (out : list Message) (w : W) : option (res unit * list Message * tokenCache * W) :=
  match subs with
  | [] => Some (Ok tt, out, cache, w)
  | sub :: subs =>
      match readSubResource fuel cfg sub items cache out w with
      | Some (Err e, out, cache, w) =>
          onPage fuel cfg subs items cache
            (out ++ [log_message LogLevelError ("error reading sub-resource " +:+ sub_Name sub +:+ ": " +:+ Error e) (clock_of w)]) w
      | Some (Ok _, out, cache, w) => onPage fuel cfg subs items cache out w
      | r => r
      end
  end.

(** The parameters of a page: the date range, and over its start the value of the cursor in the state. *)
Definition stream_params (cfg : ZoomConfig) (sd : streamDef) (cs : ConfiguredStream) (state : state_map) (token : string) (now : Z) : Values :=
  let params := page_params token in
  let params := if DateFiltered sd
                then Values_Set (Values_Set params "from" (if bool_decide (StartDate cfg = "") then date_text (half_a_year_before now) else StartDate cfg))
                       "to" (if bool_decide (EndDate cfg = "") then date_text now else EndDate cfg)
                else params in
  match cs_CursorField cs with
  | field :: _ =>
      if bool_decide (cs_SyncMode cs = SyncModeIncremental) then
        match state !! sd_Name sd with
        | Some (RawDoc j) =>
            match map_member type_error (string_member type_error "" "") "" ∅ j None with
            | (m, None) => match m !! field with Some from => Values_Set params "from" from | None => params end
            | _ => params
            end
        | _ => params
        end
      else params
  | [] => params
  end.

Definition page_state (sd : streamDef) (cs : ConfiguredStream) (emitRecords : bool) (items : list (option obj)) : list Message :=
  match cs_CursorField cs with
  | field :: _ =>
      let last := foldl (last_cursor field) "" items in
      if bool_decide (cs_SyncMode cs = SyncModeIncremental) && negb (bool_decide (last = "")) && emitRecords
      then [state_message (mkState StateTypeStream (sd_Name sd) (RawDoc (JObj [(field, JStr last)])))]
      else []
  | [] => []
  end.

Fixpoint readZoomStream (fuel : nat) (cfg : ZoomConfig) (sd : streamDef) (cs : ConfiguredStream) (state : state_map) (emitRecords : bool)
    (subs : list subResource) (token : string) (cache : tokenCache) (out : list Message) (w : W) :
    option (res unit * list Message * tokenCache * W) :=
  match fuel with
  | O => None
  | S fuel' =>
      match poll w with
      | Some e => Some (Err e, out, cache, w)
      | None =>
          match doGet cfg (Endpoint sd) (stream_params cfg sd cs state token (clock_of w)) cache w with
          | (Err e, cache, w) => Some (Err (ErrWrapf ("fetch " +:+ sd_Name sd) e), out, cache, w)
          | (Panic m, cache, w) => Some (Panic m, out, cache, w)
          | (Ok body, cache, w) =>
              match decode_page type_error body with
              | Err e => Some (Err (ErrWrapf ("decode " +:+ sd_Name sd +:+ " page") e), out, cache, w)
              | Panic m => Some (Panic m, out, cache, w)
              | Ok page =>
                  match decode_items type_error <$> page !! ResponseKey sd with
                  | None => Some (Ok tt, out, cache, w)
                  | Some (Err e) => Some (Err (ErrWrapf ("decode " +:+ sd_Name sd +:+ " items") e), out, cache, w)
                  | Some (Panic m) => Some (Panic m, out, cache, w)
                  | Some (Ok items) =>
                      let out := if emitRecords then out ++ map (zoom_record (sd_Name sd) (clock_of w)) items else out in
                      match onPage fuel cfg subs items cache out w with
                      | Some (Ok _, out, cache, w) =>
                          let out := out ++ page_state sd cs emitRecords items in
                          match token_after page with
                          | Some token => readZoomStream fuel' cfg sd cs state emitRecords subs token cache out w
                          | None => Some (Ok tt, out, cache, w)
                          end
                      | r => r
                      end
                  end
              end
          end
      end
  end.

(** A stream that is not selected has no configuration. *)
Definition not_configured : ConfiguredStream := mkConfiguredStream (mkStream "" "" "" RawEmpty [] [] false []) (SyncModeOther "") (DestSyncModeOther "") [] [].

(** The streams in their own order, whether they or some of their resources are selected. *)
Fixpoint read_defs (fuel : nat) (cfg : ZoomConfig) (defs : list streamDef) (selected : gmap string ConfiguredStream) (state : state_map)
    (cache : tokenCache) (out : list Message) (w : W) : option (res unit * list Message * W) :=
  match defs with
  | [] => Some (Ok tt, out, w)
  | sd :: defs =>
      let subs := filter (λ sub, is_Some (selected !! sub_Name sub)) (SubResources sd) in
      let cs := selected !! sd_Name sd in
      if bool_decide (cs = None) && bool_decide (subs = []) then read_defs fuel cfg defs selected state cache out w
      else
        match poll w with
        | Some e => Some (Err e, out, w)
        | None =>
            match readZoomStream fuel cfg sd (default not_configured cs) state (bool_decide (is_Some cs)) subs "" cache out w with
            | None => None
            | Some (Ok _, out, cache, w) => read_defs fuel cfg defs selected state cache out w
            | Some (Err e, out, cache, w) =>
                read_defs fuel cfg defs selected state cache
                  (out ++ [log_message LogLevelError ("error reading stream " +:+ sd_Name sd +:+ ": " +:+ Error e) (clock_of w)]) w
            | Some (Panic m, out, _, w) => Some (Panic m, out, w)
            end
        end
  end.

Definition Read (fuel : nat) (config : RawMessage) (catalog : ConfiguredCatalog) (state : state_map) (w : W) :
    option (res unit * list Message * W) :=
  match parseConfig config with
  | Err e => Some (Err e, [], w)
  | Panic m => Some (Panic m, [], w)
  | Ok cfg =>
      let selected := foldl (λ m cs, <[s_Name (cs_Stream cs) := cs]> m) ∅ (cc_Streams catalog) in
      read_defs fuel cfg allStreams selected state no_token [] w
  end.
End connector.

(** ** Properties *)

Section facts.
Context {W : Type} `{Hrt : Runtime W} `{Hurl : UrlLib}.
Context (json_doc json_first : string → RawMessage) (url_error : string → error) (type_error : string → json → error).
Context (parse_duration : string → option Z) (date_text : Z → string) (half_a_year_before : Z → Z).
Context (net : Request → W → res HTTPResponse * W) (post_form : string → string → W → res HTTPResponse * W)
        (limiter : W → option error * W).
Notation getAccessToken := (getAccessToken json_first type_error post_form).
Notation doGet := (doGet json_doc json_first url_error type_error parse_duration net post_form limiter).
Notation Read := (Read json_doc json_first url_error type_error parse_duration date_text half_a_year_before net post_form limiter).
Notation read_defs := (read_defs json_doc json_first url_error type_error parse_duration date_text half_a_year_before net post_form limiter).
Notation readZoomStream := (readZoomStream json_doc json_first url_error type_error parse_duration date_text half_a_year_before net post_form limiter).
Notation stream_params := (stream_params type_error date_text half_a_year_before).
Context (Hpoll : ∀ w : W, poll w = None).

(** Whatever happens to its streams, a run that is not cancelled ends without an error. *)
Lemma read_defs_no_error cfg fuel selected state defs : ∀ cache out w r msgs w',
  read_defs fuel cfg defs selected state cache out w = Some (r, msgs, w') → ∀ e, r ≠ Err e.
Proof using Hpoll.
  induction defs as [|sd defs IH]; intros cache out w r msgs w'; cbn [Zoom.read_defs].
  { by intros [= <- <- <-] e. }
  cbv zeta. destruct (bool_decide _ && _); [by apply IH|]. rewrite Hpoll.
  destruct (readZoomStream _ _ _ _ _ _ _ _ _ _ _) as [[[[[u|e|m] out1] cache1] w1]|]; [by apply IH..| |done].
  by intros [= <- <- <-] e.
Qed.

Theorem zoom_errors_are_logs fuel config catalog state w r msgs w' :
  (∃ cfg, parseConfig type_error config = Ok cfg) →
  Read fuel config catalog state w = Some (r, msgs, w') → r = Ok tt ∨ ∃ m, r = Panic m.
Proof using Hpoll.
  intros [cfg Hc]. unfold Zoom.Read. rewrite Hc. intros Hr.
  pose proof (read_defs_no_error _ _ _ _ _ _ _ _ _ _ _ Hr) as He.
  destruct r as [[]|e|m]; [by left|by destruct (He e)|right; by exists m].
Qed.

(** *** A stream read to its end *)

Definition page_answered (cfg : ZoomConfig) (sd : streamDef) (cs : ConfiguredStream) (state : state_map) (token : string)
    (page : gmap string json) : Prop :=
  ∀ cache w, ∃ body cache' w', doGet cfg (Endpoint sd) (stream_params cfg sd cs state token (clock_of w)) cache w = (Ok body, cache', w') ∧
    decode_page type_error body = Ok page.

(** From [token] on, the API gives these items on so many pages. *)
Inductive zoom_pages (cfg : ZoomConfig) (sd : streamDef) (cs : ConfiguredStream) (state : state_map) :
    string → list (option obj) → nat → Prop :=
| zoom_last token page j items : page_answered cfg sd cs state token page → page !! ResponseKey sd = Some j →
    decode_items type_error j = Ok items → token_after page = None → zoom_pages cfg sd cs state token items 1
| zoom_more token page j items next rest n : page_answered cfg sd cs state token page → page !! ResponseKey sd = Some j →
    decode_items type_error j = Ok items → token_after page = Some next → zoom_pages cfg sd cs state next rest n →
    zoom_pages cfg sd cs state token (items ++ rest) (S n).

Lemma sent_zoom stream now items :
  omap sent_record (map (zoom_record stream now) items) = map (λ i, (stream, item_data i)) items.
Proof. induction items as [|i items IH]; [done|]. cbn. f_equal. exact IH. Qed.

Lemma sent_state sd cs b items : omap sent_record (page_state sd cs b items) = [].
Proof. unfold page_state. destruct (cs_CursorField cs); [done|]. cbv zeta. by destruct (_ && _). Qed.

Theorem zoom_stream_complete cfg sd cs state token items n :
  zoom_pages cfg sd cs state token items n → ∀ fuel cache out w, (n ≤ fuel)%nat →
  ∃ msgs cache' w', readZoomStream fuel cfg sd cs state true [] token cache out w = Some (Ok tt, out ++ msgs, cache', w') ∧
    omap sent_record msgs = map (λ i, (sd_Name sd, item_data i)) items.
Proof using Hpoll.
  induction 1 as [token page j items Hp Hk Hi Hn|token page j items next rest n Hp Hk Hi Hn Hrest IH];
    intros [|fuel] cache out w Hf; [lia| |lia|]; cbn [Zoom.readZoomStream onPage]; rewrite Hpoll;
    destruct (Hp cache w) as (body & cache1 & w1 & -> & ->); rewrite Hk; cbn [fmap option_fmap option_map]; rewrite Hi; cbv zeta;
    rewrite Hn.
  - rewrite <- app_assoc. eexists _, _, _. split; [done|]. rewrite omap_app, sent_zoom, sent_state. apply app_nil_r.
  - destruct (IH fuel cache1 ((out ++ map (zoom_record (sd_Name sd) (clock_of w1)) items) ++ page_state sd cs true items) w1)
      as (msgs & cache2 & w2 & -> & Hm); [lia|].
    rewrite <- !app_assoc. eexists _, _, _. split; [done|]. by rewrite !omap_app, sent_zoom, sent_state, Hm, map_app.
Qed.

(** A request that the API answers, given that the limiter lets it through and that tokens are given. *)
Lemma doGet_answered cfg endpoint params t :
  (∀ w, (limiter w).1 = None) → (∀ cache w, ∃ tok cache' w', getAccessToken cfg cache w = (Ok tok, cache', w')) →
  let url := zoomAPIBase +:+ endpoint +:+ (if bool_decide (params = ∅) then "" else "?" +:+ Encode params) in
  is_Some (Parse url) → (∀ rq w, rq_URL rq = url → ∃ h w', net rq w = (Ok (mkHTTPResponse 200 h (Ok t)), w')) →
  ∀ cache w, ∃ cache' w', doGet cfg endpoint params cache w = (Ok (json_doc t), cache', w').
Proof using Hpoll.
  intros Hl Ht url [u Hu] Hn cache w. unfold Zoom.doGet. pose proof (Hl w) as Hlw. destruct (limiter w) as [o w0]. cbn in Hlw. subst o.
  fold url. cbv zeta. unfold maxRetries. cbn [get_attempts]. rewrite Hpoll. destruct (Ht cache w0) as (tok & cache1 & w1 & ->).
  rewrite Hu. edestruct Hn as (h & w2 & ->); [done|]. cbn. by eexists _, _.
Qed.

(** *** Tokens *)

(** A token from the cache is not expired; one that was asked for is kept until a minute before its end. *)
Theorem zoom_token_fresh cfg cache w tok cache' w' :
  getAccessToken cfg cache w = (Ok tok, cache', w') →
  tok = token cache' ∧
  ((cache' = cache ∧ w' = w ∧ tok ≠ "" ∧ clock_of w < expiresAt cache) ∨
   ((token cache = "" ∨ expiresAt cache ≤ clock_of w) ∧
    ∃ resp t n, post_form (token_form cfg) ("Basic " +:+ Base64Encode (bytes_of (ClientID cfg +:+ ":" +:+ ClientSecret cfg))) w = (Ok resp, w') ∧
      r_StatusCode resp = 200 ∧ r_Body resp = Ok t ∧
      unmarshal_struct type_error ("", 0) (grant_member type_error) (json_first t) = Ok (tok, n) ∧
      expiresAt cache' = clock_of w' + (n -ᵢ 60) *ᵢ second)).
Proof using Type.
  unfold Zoom.getAccessToken. destruct (negb _ && _) eqn:Hc.
  - intros [= <- <- <-]. apply andb_true_iff in Hc as [Hc Ht]. apply negb_true_iff, bool_decide_eq_false in Hc. apply Z.ltb_lt in Ht.
    split; [done|]. by left.
  - destruct (post_form _ _ w) as [[resp|e|m] w1] eqn:Hpf; [|done..].
    destruct (r_StatusCode resp =? 200) eqn:Hs; [|done]. cbn [negb]. destruct (r_Body resp) as [t|e|m] eqn:Hb; [|done..].
    destruct (unmarshal_struct _ _ _ _) as [[tok1 n]|e|m] eqn:Hu; [|done..]. intros [= <- <- <-]. split; [done|]. right. split.
    + apply andb_false_iff in Hc as [Hc|Hc]; [left|right].
      * apply negb_false_iff, bool_decide_eq_true in Hc. done.
      * apply Z.ltb_ge in Hc. done.
    + exists resp, t, n. split_and!; [done|by apply Z.eqb_eq|done|done|done].
Qed.
End facts.

(** ** Concrete runs *)

#[local] Existing Instance clock_runtime.
#[local] Existing Instance plain_urls.

Definition zoom_type_error (field : string) (j : json) : error := ErrText ("cannot unmarshal " +:+ json_kind j).
Definition no_duration (s : string) : option Z := None.
Definition some_day (now : Z) : string := "2024-06-30".
Definition account : ZoomConfig := mkZoomConfig "acc" "id" "secret" "" "".
Definition zoom_config : RawMessage :=
  RawDoc (JObj [("account_id", JStr "acc"); ("client_id", JStr "id"); ("client_secret", JStr "secret")]).
(** Tokens of an hour; the limiter never waits. *)
Definition token_doc (t : string) : RawMessage := RawDoc (JObj [("access_token", JStr t); ("expires_in", int_json 3600)]).
Definition token_post (form auth : string) (w : Z) : res HTTPResponse * Z := (Ok (resp200 "tok"), w + 1).
Definition no_limit (w : Z) : option error * Z := (None, w).

(** Meetings on two pages, of which the second is older. *)
Definition meeting (id : Z) (uuid created : string) : json := JObj [("id", int_json id); ("uuid", JStr uuid); ("created_at", JStr created)].
Definition zoom_docs (t : string) : RawMessage :=
  if bool_decide (t = "p1")
  then RawDoc (JObj [("meetings", JArr [meeting 81234567890 "u/1" "2024-03-02"]); ("next_page_token", JStr "n2")])
  else if bool_decide (t = "p2") then RawDoc (JObj [("meetings", JArr [meeting 5 "u2" "2024-03-01"]); ("next_page_token", JStr "")])
  else if bool_decide (t = "null") then RawDoc (JObj [("registrants", JArr [JNull])])
  else RawDoc (JObj [("registrants", JArr [])]).
Definition first_page : string := "https://api.zoom.us/v2/users/me/meetings?page_size=300".
Definition second_page : string := "https://api.zoom.us/v2/users/me/meetings?next_page_token=n2&page_size=300".
Definition zoom_net (rq : Request) (w : Z) : res HTTPResponse * Z :=
  (Ok (resp200 (if bool_decide (rq_URL rq = first_page) then "p1"
                else if bool_decide (rq_URL rq = second_page) then "p2" else "none")), w).
Definition zoom_stream (name : string) : ConfiguredStream :=
  mkConfiguredStream (mkStream name "zoom" "" RawEmpty [] [] true []) SyncModeIncremental DestSyncModeAppend ["created_at"] [].
Definition meetings_def : streamDef := nth 1 allStreams (mkDef "" "" "" RawEmpty [] false).
Definition zoom_page (t : string) : gmap string json :=
  match decode_page zoom_type_error (zoom_docs t) with Ok page => page | _ => ∅ end.
Definition zoom_items (t : string) : list (option obj) :=
  match decode_items zoom_type_error <$> zoom_page t !! "meetings" with Some (Ok items) => items | _ => [] end.
Definition zoom_key (t : string) : json := default JNull (zoom_page t !! "meetings").

Lemma zoom_poll (w : Z) : poll w = None.
Proof. done. Qed.
Lemma no_limit_ends w : (no_limit w).1 = None.
Proof. done. Qed.

Lemma tokens_given cfg (cache : tokenCache) (w : Z) :
  ∃ tok cache' w', getAccessToken token_doc zoom_type_error token_post cfg cache w = (Ok tok, cache', w').
Proof. unfold getAccessToken. destruct (_ && _); [by eexists _, _, _|]. cbn [token_post]. eexists _, _, _. vm_compute. reflexivity. Qed.

Lemma page_params_set token : page_params token ≠ ∅.
Proof. unfold page_params, Values_Set. destruct (bool_decide _); apply insert_non_empty. Qed.

Lemma zoom_answers token t url :
  zoomAPIBase +:+ Endpoint meetings_def +:+ "?" +:+ Encode (page_params token) = url →
  is_Some (Parse url) → zoom_net (mkRequest "" url None ∅) 0 = (Ok (resp200 t), 0) →
  decode_page zoom_type_error (zoom_docs t) = Ok (zoom_page t) →
  page_answered zoom_docs token_doc no_url_error zoom_type_error no_duration some_day id zoom_net token_post no_limit account meetings_def
    (zoom_stream "meetings") ∅ token (zoom_page t).
Proof.
  intros Hurl Hu Hn Hd cache w. pose proof (page_params_set token) as Hp.
  assert (Hpar : stream_params zoom_type_error some_day id account meetings_def (zoom_stream "meetings") ∅ token (clock_of w) = page_params token)
    by reflexivity.
  rewrite Hpar.
  destruct (doGet_answered zoom_docs token_doc no_url_error zoom_type_error no_duration zoom_net token_post no_limit zoom_poll
    account (Endpoint meetings_def) (page_params token) t no_limit_ends (tokens_given account)) with (cache := cache) (w := w) as (cache' & w' & H).
  - rewrite bool_decide_eq_false_2 by exact Hp. rewrite Hurl. exact Hu.
  - rewrite bool_decide_eq_false_2 by exact Hp. rewrite Hurl. intros rq w1 Hrq. exists ∅, w1. revert Hn. unfold zoom_net. rewrite Hrq.
    cbn [rq_URL]. generalize (if bool_decide (url = first_page) then "p1" else if bool_decide (url = second_page) then "p2" else "none").
    intros x [= ->]. reflexivity.
  - eexists _, cache', w'. split; [exact H|exact Hd].
Qed.

Lemma zoom_stream_complete_witness :
  ∃ msgs cache' w',
    readZoomStream zoom_docs token_doc no_url_error zoom_type_error no_duration some_day id zoom_net token_post no_limit 2 account meetings_def
      (zoom_stream "meetings") ∅ true [] "" no_token [] 0 = Some (Ok tt, msgs, cache', w') ∧
    omap sent_record msgs = map (λ i, ("meetings", item_data i)) (zoom_items "p1" ++ zoom_items "p2").
Proof.
  refine (zoom_stream_complete zoom_docs token_doc no_url_error zoom_type_error no_duration some_day id zoom_net token_post no_limit zoom_poll
    account meetings_def (zoom_stream "meetings") ∅ "" (zoom_items "p1" ++ zoom_items "p2") 2 _ 2 no_token [] 0 (le_n 2)).
  refine (zoom_more _ _ _ _ _ _ _ _ _ _ _ _ _ _ "" (zoom_page "p1") (zoom_key "p1") (zoom_items "p1") "n2" (zoom_items "p2") 1 _ _ _ _ _).
  - refine (zoom_answers "" "p1" first_page _ _ _ _).
    1: vm_compute; reflexivity.
    1: apply (bool_decide_unpack _); vm_compute; exact I.
    1: vm_compute; reflexivity.
    vm_compute; reflexivity.
  - vm_compute. reflexivity.
  - vm_compute. reflexivity.
  - vm_compute. reflexivity.
  - refine (zoom_last _ _ _ _ _ _ _ _ _ _ _ _ _ _ "n2" (zoom_page "p2") (zoom_key "p2") (zoom_items "p2") _ _ _ _).
    + refine (zoom_answers "n2" "p2" second_page _ _ _ _).
    1: vm_compute; reflexivity.
    1: apply (bool_decide_unpack _); vm_compute; exact I.
    1: vm_compute; reflexivity.
    vm_compute; reflexivity.
    + vm_compute. reflexivity.
    + vm_compute. reflexivity.
    + vm_compute. reflexivity.
Defined.

(** The state that is left is that of the last item, not the largest. *)
Definition states (msgs : list Message) : list RawMessage := omap (λ m, st_Data <$> msg_State m) msgs.
Example state_goes_back :
  (λ r, states r.1.1.2) <$>
    readZoomStream zoom_docs token_doc no_url_error zoom_type_error no_duration some_day id zoom_net token_post no_limit 2 account meetings_def
      (zoom_stream "meetings") ∅ true [] "" no_token [] 0 =
  Some [RawDoc (JObj [("created_at", JStr "2024-03-02")]); RawDoc (JObj [("created_at", JStr "2024-03-01")])].
Proof. vm_compute. reflexivity. Qed.

(** The network is down: six attempts, and success with a log message. *)
Definition zoom_down (rq : Request) (w : Z) : res HTTPResponse * Z := (Err (ErrText "connection refused"), w).
Lemma zoom_errors_are_logs_witness :
  ∃ msgs, Read zoom_docs token_doc no_url_error zoom_type_error no_duration some_day id zoom_down token_post no_limit 1 zoom_config
            (mkConfiguredCatalog [zoom_stream "meetings"]) ∅ 0 = Some (Ok tt, msgs, 21 * second + 1) ∧
    ((Ok tt : res unit) = Ok tt ∨ ∃ m, (Ok tt : res unit) = Panic m).
Proof.
  eexists. split; [vm_compute; reflexivity|].
  refine (zoom_errors_are_logs zoom_docs token_doc no_url_error zoom_type_error no_duration some_day id zoom_down token_post no_limit zoom_poll
    1 zoom_config (mkConfiguredCatalog [zoom_stream "meetings"]) ∅ 0 (Ok tt) _ (21 * second + 1) _ _).
  - eexists. vm_compute. reflexivity.
  - vm_compute. reflexivity.
Defined.

Lemma zoom_token_fresh_witness :
  "tok" = token (mkTokenCache "tok" (3540 * second + 1)) ∧
  ((mkTokenCache "tok" (3540 * second + 1) = no_token ∧ 1 = 0 ∧ "tok" ≠ "" ∧ 0 < expiresAt no_token) ∨
   ((token no_token = "" ∨ expiresAt no_token ≤ 0) ∧
    ∃ resp t n, token_post (token_form account) ("Basic " +:+ Base64Encode (bytes_of "id:secret")) 0 = (Ok resp, 1) ∧
      r_StatusCode resp = 200 ∧ r_Body resp = Ok t ∧
      unmarshal_struct zoom_type_error ("", 0) (grant_member zoom_type_error) (token_doc t) = Ok ("tok", n) ∧
      3540 * second + 1 = 1 + (n -ᵢ 60) *ᵢ second)).
Proof.
  refine (zoom_token_fresh token_doc zoom_type_error token_post account no_token 0 "tok" (mkTokenCache "tok" (3540 * second + 1)) 1 _).
  vm_compute. reflexivity.
Defined.

(** A token that the API no longer takes is dropped, and another one asked for. *)
Definition token_by_time (form auth : string) (w : Z) : res HTTPResponse * Z := (Ok (resp200 ("tok" +:+ pretty w)), w + 1).
Definition only_new (rq : Request) (w : Z) : res HTTPResponse * Z :=
  (Ok (if bool_decide (rq_Header rq !! "Authorization" = Some "Bearer tok7") then resp200 "p2" else mkHTTPResponse 401 ∅ (Ok "revoked")), w).
Example revoked_token_replaced :
  doGet zoom_docs token_doc no_url_error zoom_type_error no_duration only_new token_by_time no_limit account "/users/me/meetings" ∅
    (mkTokenCache "old" (100 * second)) 7 = (Ok (zoom_docs "p2"), mkTokenCache "tok7" (3540 * second + 8), 8).
Proof. vm_compute. reflexivity. Qed.

(** A numeric id is put into the path as a floating-point text. *)
Definition path_net (rq : Request) (w : Z) : res HTTPResponse * Z :=
  (Ok (mkHTTPResponse 404 ∅ (Ok (rq_URL rq))), w).
Example numeric_ids_mangled :
  (λ r, map (λ m, log_Message <$> msg_Log m) r.1.1.2) <$>
    readSubResource zoom_docs token_doc no_url_error zoom_type_error no_duration path_net token_post no_limit 1 account
      (registrants "registrants" "meetings" "meeting_id") (zoom_items "p1") no_token [] 0 =
  Some [Some ("skipping sub-resource registrants for parent 8.123456789e+10: API returned 404: "
              +:+ "https://api.zoom.us/v2/meetings/8.123456789e+10/registrants?page_size=300")].
Proof. vm_compute. reflexivity. Qed.

(** An item that is [null] stops the program when its parent is noted in it. *)
Definition null_net (rq : Request) (w : Z) : res HTTPResponse * Z := (Ok (resp200 "null"), w).
Example null_child_panics :
  (λ r, r.1.1.1) <$>
    readSubResource zoom_docs token_doc no_url_error zoom_type_error no_duration null_net token_post no_limit 1 account
      (registrants "registrants" "meetings" "meeting_id") (zoom_items "p1") no_token [] 0 =
  Some (Panic "assignment to entry in nil map").
Proof. vm_compute. reflexivity. Qed.
