(* ===== verification/ConfigManager.v ===== *)
(** * Configuration manager: [internal/controlplane/config/manager.go], connector configurations

    Configurations are encrypted at rest and cached in the clear.  The repository and the cache are
    interfaces over a world [W]; the cipher is the class [AEAD] of [Encryption].  A configuration
    is its bytes, [json_doc] their syntax tree.  The two methods are compositions of the steps at
    which other calls can come in between; [run] interleaves calls by a schedule.  Sync
    configurations are in [SyncConfig]; logging is left out. *)

From Stdlib Require Import Ascii.
From S2P Require Import Prelude GoStrings Errors Value Encryption.

(** ** Interfaces *)

Class ConnectorConfigRepository (W : Type) := {
  GetEncryptedConfig : string → W → res bytes * W;
  SaveEncryptedConfig : string → bytes → W → option error * W
}.

(** [Get] gives the entry, if there is one. *)
Record ConfigCache (W : Type) := mkConfigCache {
  cache_Get : string → W → (error + option bytes) * W;
  cache_Set : string → bytes → W → option error * W;
  cache_Invalidate : string → W → option error * W
}.
Arguments mkConfigCache {W}. Arguments cache_Get {W}. Arguments cache_Set {W}. Arguments cache_Invalidate {W}.

(** ** Encryptor *)

Record Encryptor (G : Type) := mkEncryptor { gcm : option G }.
Arguments mkEncryptor {G}. Arguments gcm {G}.

Section encryptor.
Context {K G : Type} `{Hops : AEAD K G}.
Context (new_cipher : bytes → res K).      (** [aes.NewCipher] *)

Definition NewEncryptor (key : bytes) : res (Encryptor G) :=
  if bool_decide (key = []) then Ok (mkEncryptor None)
  else if negb (bool_decide (length key = 32%nat))
  then Err (ErrText ("encryption key must be exactly 32 bytes, got " +:+ pretty (Z.of_nat (length key))))
  else match new_cipher key with
       | Err e => Err (ErrWrapf "failed to create AES cipher" e)
       | Panic m => Panic m
       | Ok block =>
           match new_gcm block with
           | Err e => Err (ErrWrapf "failed to create GCM" e)
           | Panic m => Panic m
           | Ok g => Ok (mkEncryptor (Some g))
           end
       end.

(** [rand] is what the random source gives for a number of bytes. *)
Definition Encrypt (e : Encryptor G) (rand : nat → res bytes) (plaintext : bytes) : res bytes :=
  match gcm e with
  | None => Ok plaintext
  | Some g =>
      match rand (NonceSize g) with
      | Ok nonce => Ok (nonce ++ Seal g nonce plaintext [])
      | Err err => Err (ErrWrapf "failed to generate nonce" err)
      | Panic m => Panic m
      end
  end.

Definition Decrypt (e : Encryptor G) (ciphertext : bytes) : res bytes :=
  match gcm e with
  | None => Ok ciphertext
  | Some g =>
      if (length ciphertext <? NonceSize g)%nat
      then Err (ErrText ("ciphertext too short: " +:+ pretty (Z.of_nat (length ciphertext)) +:+ " bytes"))
      else match Open g (take (NonceSize g) ciphertext) (drop (NonceSize g) ciphertext) [] with
           | Some p => Ok p
           | None => Err (ErrWrapf "decryption failed" err_open)
           end
  end.

Lemma Decrypt_Encrypt `{!AEADLaws K G} e rand p c :
  (∀ n bs, rand n = Ok bs → length bs = n) → Encrypt e rand p = Ok c → Decrypt e c = Ok p.
Proof.
  intros Hrand. unfold Encrypt, Decrypt. destruct (gcm e) as [g|]; [|by intros [= <-]].
  destruct (rand (NonceSize g)) as [n| |] eqn:Hn; [|done..]. apply Hrand in Hn. intros [= <-].
  rewrite length_app, Hn. rewrite (proj2 (Nat.ltb_ge _ _)) by lia.
  rewrite take_app_length', drop_app_length' by done. by rewrite open_seal.
Qed.
End encryptor.

(** ** The manager *)

Section manager.
Context {W K G : Type} `{Hrepo : ConnectorConfigRepository W} `{Hops : AEAD K G}.
Context (json_doc : bytes → RawMessage).

Record ConfigManager := mkConfigManager { cache : option (ConfigCache W); encryptor : Encryptor G }.

Definition json_Valid (config : bytes) : bool := match json_doc config with RawDoc _ => true | _ => false end.

Definition required (what : string) : error := ErrWrapf (what +:+ " is required") (ErrSentinel ErrInvalidConfig).

(** *** The steps of [GetConnectorConfig] *)

(** The cache; a failing cache reads as a miss. *)
Definition read_cache (cm : ConfigManager) (id : string) (w : W) : option bytes * W :=
  match cache cm with
  | None => (None, w)
  | Some ch => match cache_Get ch id w with
               | (inr found, w) => (found, w)
               | (inl _, w) => (None, w)
               end
  end.

Definition load_config (cm : ConfigManager) (id : string) (w : W) : res bytes * W :=
  match GetEncryptedConfig id w with
  | (Err e, w) => (Err (ErrWrapf ("failed to read connector config " +:+ id) e), w)
  | (Panic m, w) => (Panic m, w)
  | (Ok encrypted, w) =>
      (match Decrypt (encryptor cm) encrypted with
       | Err e => Err (ErrWrapf ("failed to decrypt connector config " +:+ id) e)
       | r => r
       end, w)
  end.

Definition fill_cache (cm : ConfigManager) (id : string) (config : bytes) (w : W) : W :=
  match cache cm with None => w | Some ch => (cache_Set ch id config w).2 end.

Definition GetConnectorConfig (cm : ConfigManager) (id : string) (w : W) : res bytes * W :=
  if bool_decide (id = "") then (Err (required "connectorID"), w)
  else match read_cache cm id w with
       | (Some cached, w) => (Ok cached, w)
       | (None, w) =>
           match load_config cm id w with
           | (Ok config, w) => (Ok config, fill_cache cm id config w)
           | r => r
           end
       end.

(** *** The steps of [SaveConnectorConfig] *)

(** The checks, the encryption and the write. *)
Definition store_config (cm : ConfigManager) (rand : nat → res bytes) (id : string) (config : bytes) (w : W) :
    res unit * W :=
  if bool_decide (id = "") then (Err (required "connectorID"), w)
  else if bool_decide (config = []) then (Err (required "config"), w)
  else if negb (json_Valid config) then (Err (ErrWrapf "config is not valid JSON" (ErrSentinel ErrInvalidConfig)), w)
  else match Encrypt (encryptor cm) rand config with
       | Err e => (Err (ErrWrapf ("failed to encrypt connector config " +:+ id) e), w)
       | Panic m => (Panic m, w)
       | Ok encrypted =>
           match SaveEncryptedConfig id encrypted w with
           | (Some e, w) => (Err (ErrWrapf ("failed to save connector config " +:+ id) e), w)
           | (None, w) => (Ok tt, w)
           end
       end.

(** A failing invalidation is only logged. *)
Definition drop_cache (cm : ConfigManager) (id : string) (w : W) : W :=
  match cache cm with None => w | Some ch => (cache_Invalidate ch id w).2 end.

Definition SaveConnectorConfig (cm : ConfigManager) (rand : nat → res bytes) (id : string) (config : bytes) (w : W) :
    res unit * W :=
  match store_config cm rand id config w with
  | (Ok _, w) => (Ok tt, drop_cache cm id w)
  | r => r
  end.

Definition ValidateConfig (connectorType : string) (config : bytes) : option error :=
  if bool_decide (connectorType = "") then Some (required "connectorType")
  else if bool_decide (config = []) then Some (required "config")
  else if negb (json_Valid config)
  then Some (ErrWrapf "config is not valid JSON" (ErrSentinel ErrSchemaValidation))
  else match unmarshal_map (json_doc config) with
       | Ok m => if bool_decide (m = ∅)
                 then Some (ErrValidation (mkValidationError "config"
                        ("connector type " +:+ quote connectorType +:+ " config must be a non-empty JSON object")))
                 else None
       | _ => Some (ErrWrapf "config is not a JSON object" (ErrSentinel ErrSchemaValidation))
       end.

(** *** Concurrent calls *)

Inductive call :=
| GetIdle (id : string)
| GetMissed (id : string)
| GetLoaded (id : string) (config : bytes)
| GetDone (r : res bytes)
| SaveIdle (rand : nat → res bytes) (id : string) (config : bytes)
| SaveStored (id : string)
| SaveDone (r : res unit).

(** A call goes on to its next access of the cache or the repository. *)
Definition advance (cm : ConfigManager) (c : call) (w : W) : call * W :=
  match c with
  | GetIdle id =>
      if bool_decide (id = "") then (GetDone (Err (required "connectorID")), w)
      else match read_cache cm id w with
           | (Some cached, w) => (GetDone (Ok cached), w)
           | (None, w) => (GetMissed id, w)
           end
  | GetMissed id =>
      match load_config cm id w with
      | (Ok config, w) => (GetLoaded id config, w)
      | (r, w) => (GetDone r, w)
      end
  | GetLoaded id config => (GetDone (Ok config), fill_cache cm id config w)
  | SaveIdle rand id config =>
      match store_config cm rand id config w with
      | (Ok _, w) => (SaveStored id, w)
      | (r, w) => (SaveDone r, w)
      end
  | SaveStored id => (SaveDone (Ok tt), drop_cache cm id w)
  | GetDone _ | SaveDone _ => (c, w)
  end.

(** A schedule names the call that goes on next. *)
Fixpoint run (cm : ConfigManager) (schedule : list nat) (calls : list call) (w : W) : list call * W :=
  match schedule with
  | [] => (calls, w)
  | i :: schedule =>
      match calls !! i with
      | None => run cm schedule calls w
      | Some c => let '(c, w) := advance cm c w in run cm schedule (<[i := c]> calls) w
      end
  end.

(** Undisturbed, a call does what the method does. *)
Lemma run_get_alone cm id w :
  run cm [0; 0; 0]%nat [GetIdle id] w = let '(r, w') := GetConnectorConfig cm id w in ([GetDone r], w').
Proof.
  unfold GetConnectorConfig. cbn [run lookup list_lookup advance insert list_insert].
  case_bool_decide; [done|]. destruct (read_cache cm id w) as [[c|] w1]; [done|].
  cbn [advance]. by destruct (load_config cm id w1) as [[c|e|m] w2].
Qed.

Lemma run_save_alone cm rand id config w :
  run cm [0; 0]%nat [SaveIdle rand id config] w =
  let '(r, w') := SaveConnectorConfig cm rand id config w in ([SaveDone r], w').
Proof.
  unfold SaveConnectorConfig. cbn [run lookup list_lookup advance insert list_insert].
  by destruct (store_config cm rand id config w) as [[u|e|m] w1].
Qed.
End manager.
Arguments ConfigManager : clear implicits.
Arguments mkConfigManager {W G}.

(** ** What the manager promises

    [stored] and [cached] are what the repository and the cache hold.  A repository that fails
    to save leaves the entry as it was; a cache may lose entries at any time.  A cache call that
    fails may have done nothing: an entry survives a failed [Invalidate], and an entry that
    [Set] should replace survives a failed [Set]. *)

Class StoreLaws (W : Type) `{ConnectorConfigRepository W} (ch : option (ConfigCache W)) := {
  stored : W → gmap string bytes;
  cached : W → gmap string bytes;
  no_cache w : ch = None → cached w = ∅;
  get_stored id w r w' : GetEncryptedConfig id w = (r, w') →
    stored w' = stored w ∧ cached w' ⊆ cached w ∧ match r with Ok b => stored w !! id = Some b | _ => True end;
  save_stored id b w r w' : SaveEncryptedConfig id b w = (r, w') →
    cached w' ⊆ cached w ∧ stored w' = match r with None => <[id := b]> (stored w) | Some _ => stored w end;
  cache_get_entry c id w r w' : ch = Some c → cache_Get c id w = (r, w') →
    stored w' = stored w ∧ cached w' ⊆ cached w ∧ match r with inr (Some b) => cached w !! id = Some b | _ => True end;
  cache_set_entry c id b w r w' : ch = Some c → cache_Set c id b w = (r, w') →
    stored w' = stored w ∧ ∀ j x, cached w' !! j = Some x → cached w !! j = Some x ∨ (j = id ∧ x = b);
  cache_drop_entry c id w r w' : ch = Some c → cache_Invalidate c id w = (r, w') →
    stored w' = stored w ∧ cached w' ⊆ match r with None => delete id (cached w) | Some _ => cached w end
}.

Lemma drop_cache_cases {W G} (cm : ConfigManager W G) id w :
  (cache cm = None ∧ drop_cache cm id w = w) ∨
  ∃ c, cache cm = Some c ∧ drop_cache cm id w = (cache_Invalidate c id w).2.
Proof. unfold drop_cache. destruct (cache cm) as [c|]; [right; by exists c|by left]. Qed.

Section correctness.
Context {W K G : Type} `{Hrepo : ConnectorConfigRepository W} `{Hops : AEAD K G} `{Hlaws : !AEADLaws K G}.
Context (json_doc : bytes → RawMessage) (cm : ConfigManager W G) `{!StoreLaws W (cache cm)}.
Context (rand : nat → res bytes).
Hypothesis Hrand : ∀ n bs, rand n = Ok bs → length bs = n.

Abbreviation held := (stored (ch := cache cm)).
Abbreviation kept := (cached (ch := cache cm)).

(** The configurations a get may return: the newest first, then those saved before it whose
    cache entries have not been invalidated for certain. *)
Abbreviation versions := (gmap string (list bytes)).
Definition versions_of (m : versions) (id : string) : list bytes := default [] (m !! id).

(** Every cached configuration is one of them. *)
Definition coherent (m : versions) (w : W) : Prop :=
  ∀ id config, kept w !! id = Some config → config ∈ versions_of m id.

(** The store holds the newest ones. *)
Definition holds (m : versions) (w : W) : Prop :=
  ∀ id, match versions_of m id with
        | config :: _ => ∃ enc, held w !! id = Some enc ∧ Decrypt (encryptor cm) enc = Ok config
        | [] => held w !! id = None
        end.

Lemma coherent_shrink m w w' : kept w' ⊆ kept w → coherent m w → coherent m w'.
Proof. intros Hc Hw id config Hk. apply Hw. by eapply lookup_weaken. Qed.

Lemma load_config_spec id w r w' m :
  load_config cm id w = (r, w') → coherent m w → holds m w →
  coherent m w' ∧ holds m w' ∧ ∀ config, r = Ok config → config ∈ versions_of m id.
Proof using Type.
  unfold load_config. destruct (GetEncryptedConfig id w) as [r0 w0] eqn:Hg.
  pose proof (get_stored (ch := cache cm) _ _ _ _ Hg) as (Hs & Hc & Hr). intros Hl Hco Hm.
  assert (Hw : w' = w0) by (by destruct r0; injection Hl). subst w0.
  split; [by eapply coherent_shrink|]. split; [intros j; rewrite Hs; apply Hm|].
  intros config ->. destruct r0 as [enc|e|p]; [|by injection Hl..]. injection Hl as Hdec.
  specialize (Hm id). destruct (versions_of m id) as [|config' old].
  - by rewrite Hr in Hm.
  - destruct Hm as (enc' & He & Hd). rewrite Hr in He. injection He as <-. rewrite Hd in Hdec. injection Hdec as ->.
    apply list_elem_of_here.
Qed.

Lemma read_cache_spec id w r w' m :
  read_cache cm id w = (r, w') → coherent m w → holds m w →
  coherent m w' ∧ holds m w' ∧ ∀ config, r = Some config → config ∈ versions_of m id.
Proof using Type.
  unfold read_cache. destruct (option_cases (cache cm)) as [Hch|[c Hch]]; rewrite Hch; [by intros [= <- <-]|].
  destruct (cache_Get c id w) as [r0 w0] eqn:Hg. intros Hl Hco Hm.
  pose proof (cache_get_entry (ch := cache cm) _ _ _ _ _ Hch Hg) as (Hs & Hc & Hr).
  assert (Hw : w' = w0) by (by destruct r0; injection Hl). subst w0.
  split; [by eapply coherent_shrink|]. split; [intros j; rewrite Hs; apply Hm|].
  intros config ->. destruct r0 as [e|found]; [done|]. injection Hl as ->. by apply Hco.
Qed.

Lemma fill_cache_spec id config w m :
  config ∈ versions_of m id → coherent m w → holds m w →
  coherent m (fill_cache cm id config w) ∧ holds m (fill_cache cm id config w).
Proof using Type.
  unfold fill_cache. destruct (option_cases (cache cm)) as [Hch|[c Hch]]; rewrite Hch; [done|]. intros Hid Hco Hm.
  destruct (cache_Set c id config w) as [r w'] eqn:Hg. cbn [snd].
  pose proof (cache_set_entry (ch := cache cm) _ _ _ _ _ _ Hch Hg) as (Hs & Hc).
  split; [|intros j; rewrite Hs; apply Hm].
  intros j cfg [Hk|[-> ->]]%Hc; [by apply Hco|done].
Qed.

Lemma GetConnectorConfig_spec id w r w' m :
  GetConnectorConfig cm id w = (r, w') → coherent m w → holds m w →
  coherent m w' ∧ holds m w' ∧ ∀ config, r = Ok config → config ∈ versions_of m id.
Proof using Type.
  unfold GetConnectorConfig. case_bool_decide; [by intros [= <- <-]|]. intros Hg Hco Hm.
  destruct (read_cache cm id w) as [r0 w0] eqn:Hr. apply (read_cache_spec _ _ _ _ m) in Hr as (Hco0 & Hm0 & Hc0); [|done..].
  destruct r0 as [c|]; [injection Hg as <- <-; split_and!; [done|done|intros cfg [= ->]; by apply Hc0]|].
  destruct (load_config cm id w0) as [r1 w1] eqn:Hl. apply (load_config_spec _ _ _ _ m) in Hl as (Hco1 & Hm1 & Hc1); [|done..].
  destruct r1 as [c|e|p]; [|injection Hg as <- <-; by split_and!..].
  injection Hg as <- <-. destruct (fill_cache_spec id c w1 m (Hc1 _ eq_refl) Hco1 Hm1).
  split_and!; [done|done|]. intros cfg [= ->]. by apply Hc1.
Qed.

(** Whether the cache cannot be invalidated, and whether that happens to a save that stores its configuration. *)
Definition drop_fails (id : string) (w : W) : bool :=
  match cache cm with Some ch => bool_decide (is_Some (cache_Invalidate ch id w).1) | None => false end.
Definition left_in_cache (id : string) (config : bytes) (w : W) : bool :=
  match store_config json_doc cm rand id config w with (Ok _, w) => drop_fails id w | _ => false end.

(** What a save makes of the versions. *)
Definition save_version (m : versions) (id : string) (config : bytes) (r : res unit) (inv_failed : bool) : versions :=
  match r with
  | Ok _ => <[id := config :: if inv_failed then versions_of m id else []]> m
  | _ => m
  end.

Lemma config_versions_insert m id l j : versions_of (<[id := l]> m) j = if bool_decide (j = id) then l else versions_of m j.
Proof using Type. unfold versions_of. case_bool_decide as Hj; [subst; by rewrite lookup_insert_eq|by rewrite lookup_insert_ne]. Qed.

Lemma drop_cache_spec id w :
  held (drop_cache cm id w) = held w ∧
  kept (drop_cache cm id w) ⊆ (if drop_fails id w then kept w else delete id (kept w)).
Proof using Type.
  destruct (drop_cache_cases cm id w) as [[Hch ->]|(c & Hch & ->)].
  - split; [done|]. rewrite no_cache by done. apply map_empty_subseteq.
  - assert (Hf : drop_fails id w = bool_decide (is_Some (cache_Invalidate c id w).1)) by (unfold drop_fails; by rewrite Hch).
    rewrite Hf. destruct (cache_Invalidate c id w) as [r1 w1] eqn:Hd. cbn [fst snd].
    pose proof (cache_drop_entry (ch := cache cm) _ _ _ _ _ Hch Hd) as (Hs1 & Hc1).
    split; [done|]. by destruct r1.
Qed.

Lemma SaveConnectorConfig_spec id config w r w' m :
  SaveConnectorConfig json_doc cm rand id config w = (r, w') → coherent m w → holds m w →
  let m' := save_version m id config r (left_in_cache id config w) in coherent m' w' ∧ holds m' w'.
Proof using All.
  unfold SaveConnectorConfig, left_in_cache. destruct (store_config json_doc cm rand id config w) as [r0 w0] eqn:Hst.
  unfold store_config in Hst.
  case_bool_decide; [injection Hst as <- <-; by intros [= <- <-]|]. case_bool_decide; [injection Hst as <- <-; by intros [= <- <-]|].
  destruct (negb _); [injection Hst as <- <-; by intros [= <- <-]|].
  destruct (Encrypt (encryptor cm) rand config) as [enc|e|p] eqn:He; [|injection Hst as <- <-; by intros [= <- <-]..].
  destruct (SaveEncryptedConfig id enc w) as [[e|] w1] eqn:Hs; injection Hst as <- <-.
  - pose proof (save_stored (ch := cache cm) _ _ _ _ _ Hs) as (Hc & Hst'). intros [= <- <-] Hco Hm.
    split; [by eapply coherent_shrink|]. intros j. rewrite Hst'. apply Hm.
  - pose proof (save_stored (ch := cache cm) _ _ _ _ _ Hs) as (Hc & Hst'). intros [= <- <-] Hco Hm.
    destruct (drop_cache_spec id w1) as [Hh Hk].
    assert (Hdec : Decrypt (encryptor cm) enc = Ok config) by (by eapply Decrypt_Encrypt). cbn [save_version]. split.
    + intros j cfg Hj. rewrite config_versions_insert. eapply lookup_weaken in Hj; [|exact Hk].
      case_bool_decide as Hji; [subst j|].
      * destruct (drop_fails id w1); [|by rewrite lookup_delete_eq in Hj].
        apply list_elem_of_further, Hco. by eapply lookup_weaken.
      * apply Hco. eapply lookup_weaken; [|exact Hc].
        destruct (drop_fails id w1); [done|]. by rewrite lookup_delete_ne in Hj.
    + intros j. rewrite config_versions_insert, Hh, Hst'. case_bool_decide as Hji; [subst j|].
      * rewrite lookup_insert_eq. by exists enc.
      * rewrite lookup_insert_ne by done. apply Hm.
Qed.

(** *** Refinement of a map *)

Inductive op := OpGet (id : string) | OpSave (id : string) (config : bytes).

(** [inv_failed]: the cache reported that it could not invalidate the entry, which the save only logs. *)
Inductive call_event := Got (id : string) (r : res bytes) | Saved (id : string) (config : bytes) (r : res unit) (inv_failed : bool).

(** Calls one after the other, and what came of each. *)
Fixpoint execute (ops : list op) (w : W) : list call_event * W :=
  match ops with
  | [] => ([], w)
  | OpGet id :: ops =>
      let '(r, w) := GetConnectorConfig cm id w in
      let '(es, w) := execute ops w in (Got id r :: es, w)
  | OpSave id config :: ops =>
      let inv_failed := left_in_cache id config w in
      let '(r, w) := SaveConnectorConfig json_doc cm rand id config w in
      let '(es, w) := execute ops w in (Saved id config r inv_failed :: es, w)
  end.

(** The specification: a map that successful saves write and successful gets read.  A save that
    could not invalidate the cache leaves the older versions readable beside its own. *)
Fixpoint follows_map (m : versions) (es : list call_event) : Prop :=
  match es with
  | [] => True
  | Got id r :: es => (∀ config, r = Ok config → config ∈ versions_of m id) ∧ follows_map m es
  | Saved id config r inv_failed :: es => follows_map (save_version m id config r inv_failed) es
  end.

(** C13: the manager refines a map.  Called one after the other, a successful get returns the
    configuration of the last successful save, decrypted, whether it comes from the cache or the
    store; where the cache could not be invalidated after a save, which the manager only logs, it
    may instead return one saved before, back to the last save whose invalidation worked.
    Failing saves and gets change nothing, given that a failing repository does not. *)
Theorem config_refines_map ops w m :
  coherent m w → holds m w → follows_map m (execute ops w).1.
Proof using All.
  revert w m. induction ops as [|[id|id config] ops IH]; intros w m Hco Hm; cbn [execute]; [done| |].
  - destruct (GetConnectorConfig cm id w) as [r w1] eqn:Hg.
    apply (GetConnectorConfig_spec _ _ _ _ m) in Hg as (Hco1 & Hm1 & Hr); [|done..].
    specialize (IH w1 m Hco1 Hm1). destruct (execute ops w1) as [es w2]. by split.
  - destruct (SaveConnectorConfig json_doc cm rand id config w) as [r w1] eqn:Hg.
    apply (SaveConnectorConfig_spec _ _ _ _ _ m) in Hg as (Hco1 & Hm1); [|done..].
    specialize (IH w1 _ Hco1 Hm1). by destruct (execute ops w1) as [es w2].
Qed.

(** As long as every invalidation works there is one version of each configuration: the last one saved. *)
Lemma save_version_last m id config : versions_of (save_version m id config (Ok tt) false) id = [config].
Proof using Type. cbn. by rewrite config_versions_insert, bool_decide_true. Qed.
End correctness.

(** ** A store and a cache in memory *)

Record memory := mkMemory { m_repo : gmap string bytes; m_cache : gmap string bytes }.

#[global] Instance memory_repository : ConnectorConfigRepository memory := {
  GetEncryptedConfig id w :=
    (match m_repo w !! id with Some b => Ok b | None => Err (ErrSentinel ErrNotFound) end, w);
  SaveEncryptedConfig id b w := (None, mkMemory (<[id := b]> (m_repo w)) (m_cache w))
}.
Definition memory_cache : ConfigCache memory := mkConfigCache
  (λ id w, (inr (m_cache w !! id), w))
  (λ id b w, (None, mkMemory (m_repo w) (<[id := b]> (m_cache w))))
  (λ id w, (None, mkMemory (m_repo w) (delete id (m_cache w)))).

#[global] Instance memory_laws : StoreLaws memory (Some memory_cache).
Proof.
  refine {| stored := m_repo; cached := m_cache |}.
  - done.
  - intros id w r w' [= <- <-]. destruct (m_repo w !! id) eqn:Hk; by rewrite ?Hk.
  - by intros id b w r w' [= <- <-].
  - intros c id w r w' [= <-] [= <- <-]. split_and!; [done|done|]. by destruct (m_cache w !! id).
  - intros c id b w r w' [= <-] [= <- <-]. split; [done|]. cbn. intros j x Hj.
    apply lookup_insert_Some in Hj as [[<- <-]|[_ Hj]]; [by right|by left].
  - by intros c id w r w' [= <-] [= <- <-].
Defined.

(** A cache whose [Invalidate] always fails. *)
Definition stuck_cache : ConfigCache memory := mkConfigCache
  (cache_Get memory_cache) (cache_Set memory_cache) (λ _ w, (Some (ErrText "redis: connection refused"), w)).

#[global] Instance stuck_laws : StoreLaws memory (Some stuck_cache).
Proof.
  refine {| stored := m_repo; cached := m_cache |}.
  - done.
  - intros id w r w' [= <- <-]. destruct (m_repo w !! id) eqn:Hk; by rewrite ?Hk.
  - by intros id b w r w' [= <- <-].
  - intros c id w r w' [= <-] [= <- <-]. split_and!; [done|done|]. by destruct (m_cache w !! id).
  - intros c id b w r w' [= <-] [= <- <-]. split; [done|]. cbn. intros j x Hj.
    apply lookup_insert_Some in Hj as [[<- <-]|[_ Hj]]; [by right|by left].
  - by intros c id w r w' [= <-] [= <- <-].
Defined.

(** Concurrent calls can leave a stale configuration in the cache.  A get that missed the cache
    and read the store before a save writes its old configuration into the cache after the
    save has invalidated it; the save succeeded and the store is new, but every later get
    returns the old configuration. *)
Theorem stale_configuration_cached {K G} `{AEAD K G} json_doc (e : Encryptor G) rand id old new enc_old enc_new w :
  id ≠ "" → new ≠ [] → json_Valid json_doc new = true → Encrypt e rand new = Ok enc_new →
  m_repo w !! id = Some enc_old → Decrypt e enc_old = Ok old → m_cache w !! id = None →
  let cm := mkConfigManager (Some memory_cache) e in
  let '(calls, w') := run json_doc cm [0; 0; 1; 1; 0]%nat [GetIdle id; SaveIdle rand id new] w in
  calls = [GetDone (Ok old); SaveDone (Ok tt)] ∧ m_repo w' !! id = Some enc_new ∧
  GetConnectorConfig cm id w' = (Ok old, w').
Proof.
  intros Hid Hnew Hj Henc Hold Hdec Hmiss cm.
  assert (Hg : bool_decide (id = "") = false) by (by apply bool_decide_false).
  assert (Hs : store_config json_doc cm rand id new w = (Ok tt, mkMemory (<[id := enc_new]> (m_repo w)) (m_cache w))).
  { unfold store_config. rewrite Hg, (bool_decide_false (new = [])), Hj by done. cbn [negb encryptor cm]. by rewrite Henc. }
  assert (Hl : load_config cm id w = (Ok old, w)).
  { unfold load_config. cbn [GetEncryptedConfig memory_repository encryptor cm]. by rewrite Hold, Hdec. }
  assert (Hr : read_cache cm id w = (None, w)) by (unfold read_cache; cbn; by rewrite Hmiss).
  cbn [run lookup list_lookup advance insert list_insert]. rewrite Hg, Hr.
  cbn [advance]. rewrite Hl. cbn [advance]. rewrite Hs. cbn [advance].
  split; [done|]. cbn. split; [by rewrite lookup_insert_eq|].
  unfold GetConnectorConfig. rewrite Hg. unfold read_cache. cbn. by rewrite lookup_insert_eq.
Qed.

(** ** Concrete runs *)

Section examples.

(** A cipher that only appends a mark, under the key ["k"]. *)
#[local] Instance mark_aead : AEAD string string := {|
  derive_key s := Ok s; new_gcm s := Ok s; NonceSize _ := 2%nat; Overhead _ := 1%nat;
  Seal _ _ p _ := p ++ ["#"%char];
  Open _ _ c _ := Some (take (length c - 1) c)
|}.
#[local] Instance mark_laws : AEADLaws string string.
Proof.
  split.
  - intros g nonce p ad _. cbn. f_equal. rewrite length_app. cbn. apply take_app_length'. lia.
  - intros g nonce p ad. cbn. by rewrite length_app.
Qed.

Definition example_encryptor : Encryptor string := mkEncryptor (Some "k").
Definition example_manager : ConfigManager memory string := mkConfigManager (Some memory_cache) example_encryptor.
Definition zero_nonce (n : nat) : res bytes := Ok (replicate n "0"%char).
Definition valid_doc (b : bytes) : RawMessage := RawDoc (JObj []).

Definition stuck_manager : ConfigManager memory string := mkConfigManager (Some stuck_cache) example_encryptor.
Definition example_calls : list op :=
  [OpSave "c" (bytes_of "{a}"); OpGet "c"; OpGet "c"; OpSave "c" (bytes_of "{b}"); OpGet "c"].

Lemma config_refines_map_witness :
  let es := (execute valid_doc example_manager zero_nonce example_calls (mkMemory ∅ ∅)).1 in
  es = [Saved "c" (bytes_of "{a}") (Ok tt) false; Got "c" (Ok (bytes_of "{a}")); Got "c" (Ok (bytes_of "{a}"));
        Saved "c" (bytes_of "{b}") (Ok tt) false; Got "c" (Ok (bytes_of "{b}"))] ∧ follows_map ∅ es.
Proof.
  split; [vm_compute; reflexivity|].
  apply (config_refines_map valid_doc example_manager zero_nonce).
  - intros n bs [= <-]. apply length_replicate.
  - intros id config Hk. cbn in Hk. by rewrite lookup_empty in Hk.
  - intros id. unfold versions_of. rewrite lookup_empty. cbn. apply lookup_empty.
Defined.

(** With a failing [Invalidate] the save succeeds and the old configuration stays readable. *)
Example stale_after_failed_invalidation :
  (execute valid_doc stuck_manager zero_nonce example_calls (mkMemory ∅ ∅)).1 =
  [Saved "c" (bytes_of "{a}") (Ok tt) true; Got "c" (Ok (bytes_of "{a}")); Got "c" (Ok (bytes_of "{a}"));
   Saved "c" (bytes_of "{b}") (Ok tt) true; Got "c" (Ok (bytes_of "{a}"))].
Proof. vm_compute. reflexivity. Qed.

Lemma stale_configuration_cached_witness :
  let w := mkMemory {[ "c" := bytes_of "00old#" ]} ∅ in
  let '(calls, w') := run valid_doc example_manager [0; 0; 1; 1; 0]%nat [GetIdle "c"; SaveIdle zero_nonce "c" (bytes_of "new")] w in
  calls = [GetDone (Ok (bytes_of "old")); SaveDone (Ok tt)] ∧ m_repo w' !! "c" = Some (bytes_of "00new#") ∧
  GetConnectorConfig example_manager "c" w' = (Ok (bytes_of "old"), w').
Proof.
  apply (stale_configuration_cached valid_doc example_encryptor zero_nonce "c" (bytes_of "old") (bytes_of "new") (bytes_of "00old#"));
    [discriminate|discriminate|reflexivity|vm_compute; reflexivity|vm_compute; reflexivity|vm_compute; reflexivity|reflexivity].
Defined.
End examples.
