(* ===== verification/SyncConfig.v ===== *)
(** * Sync configurations: the other half of [internal/controlplane/config/manager.go]

    A sync configuration is a struct written and read with [encoding/json].  Nil and empty slices and
    maps are not told apart, except for raw messages: [RawEmpty] is the nil one.  The repository is
    an interface over a world [W]; logging is left out. *)

From S2P Require Import Prelude GoStrings Errors Float Value Protocol JsonDecode.

(** ** Data *)

Record RetryPolicy := mkRetryPolicy {
  rp_MaxRetries : Z; rp_InitialBackoff : string; rp_MaxBackoff : string; rp_BackoffFactor : float64
}.
Record StreamConfig := mkStreamConfig {
  sc_StreamName : string; sc_SyncMode : SyncMode; sc_DestinationSyncMode : DestinationSyncMode;
  sc_CursorField : list string; sc_PrimaryKey : list (list string)
}.
Record FieldMapping := mkFieldMapping { fm_SourceField : string; fm_DestField : string; fm_CoerceType : string }.
Record SyncConfig := mkSyncConfig {
  c_SourceConnectorID : string; c_DestConnectorID : string; c_SourceConfig : RawMessage; c_DestConfig : RawMessage;
  c_StreamConfigs : list StreamConfig; c_FieldMappings : gmap string (list FieldMapping);
  c_Schedule : string; c_BatchSize : Z; c_RetryPolicy : option RetryPolicy
}.

(** The texts of the string types. *)
Definition SyncMode_text (m : SyncMode) : string :=
  match m with SyncModeFullRefresh => "full_refresh" | SyncModeIncremental => "incremental" | SyncModeOther s => s end.
Definition SyncMode_of (s : string) : SyncMode :=
  if bool_decide (s = "full_refresh") then SyncModeFullRefresh
  else if bool_decide (s = "incremental") then SyncModeIncremental else SyncModeOther s.
Definition DestMode_text (m : DestinationSyncMode) : string :=
  match m with
  | DestSyncModeAppend => "append" | DestSyncModeUpsert => "upsert" | DestSyncModeMerge => "merge"
  | DestSyncModeSoftDelete => "soft_delete" | DestSyncModeOther s => s
  end.
Definition DestMode_of (s : string) : DestinationSyncMode :=
  if bool_decide (s = "append") then DestSyncModeAppend
  else if bool_decide (s = "upsert") then DestSyncModeUpsert
  else if bool_decide (s = "merge") then DestSyncModeMerge
  else if bool_decide (s = "soft_delete") then DestSyncModeSoftDelete else DestSyncModeOther s.

(** ** [json.Marshal] *)

Definition strings_json (l : list string) : json := JArr (map JStr l).

Definition stream_json (s : StreamConfig) : json :=
  JObj ([("stream_name", JStr (sc_StreamName s)); ("sync_mode", JStr (SyncMode_text (sc_SyncMode s)));
         ("destination_sync_mode", JStr (DestMode_text (sc_DestinationSyncMode s)))]
        ++ omit_when (bool_decide (sc_CursorField s = [])) "cursor_field" (strings_json (sc_CursorField s))
        ++ omit_when (bool_decide (sc_PrimaryKey s = [])) "primary_key" (JArr (map strings_json (sc_PrimaryKey s)))).

Definition mapping_json (m : FieldMapping) : json :=
  JObj ([("source_field", JStr (fm_SourceField m)); ("dest_field", JStr (fm_DestField m))]
        ++ omit_when (bool_decide (fm_CoerceType m = "")) "coerce_type" (JStr (fm_CoerceType m))).

(** A float that is not finite is refused. *)
Definition retry_json (p : RetryPolicy) : res json :=
  if f_is_finite (rp_BackoffFactor p)
  then Ok (JObj [("max_retries", int_json (rp_MaxRetries p)); ("initial_backoff", JStr (rp_InitialBackoff p));
                 ("max_backoff", JStr (rp_MaxBackoff p)); ("backoff_factor", JNum (NPrint (rp_BackoffFactor p)))])
  else Err err_unsupported.

Definition config_json (c : SyncConfig) : res json :=
  src ← raw_json (c_SourceConfig c);
  dst ← raw_json (c_DestConfig c);
  retry ← match c_RetryPolicy c with
          | None => Ok []
          | Some p => j ← retry_json p; Ok [("retry_policy", j)]
          end;
  Ok (JObj ([("source_connector_id", JStr (c_SourceConnectorID c)); ("dest_connector_id", JStr (c_DestConnectorID c));
             ("source_config", src); ("dest_config", dst); ("stream_configs", JArr (map stream_json (c_StreamConfigs c)))]
            ++ omit_when (bool_decide (c_FieldMappings c = ∅)) "field_mappings"
                 (JObj (map (λ e, (e.1, JArr (map mapping_json e.2))) (sorted_entries (c_FieldMappings c))))
            ++ omit_when (bool_decide (c_Schedule c = "")) "schedule" (JStr (c_Schedule c))
            ++ [("batch_size", int_json (c_BatchSize c))] ++ retry)).

(** ** [json.Unmarshal] *)

Section unmarshal.
Context (type_error : string → json → error).

Abbreviation acc_of A := (A * option error)%type.

Definition retry_member (acc : acc_of RetryPolicy) (e : string * json) : acc_of RetryPolicy :=
  let '(p, err) := acc in
  let '(k, j) := e in
  if key_matches "max_retries" k then
    let '(z, err) := int_member type_error k (rp_MaxRetries p) j err in
    (mkRetryPolicy z (rp_InitialBackoff p) (rp_MaxBackoff p) (rp_BackoffFactor p), err)
  else if key_matches "initial_backoff" k then
    let '(s, err) := string_member type_error k (rp_InitialBackoff p) j err in
    (mkRetryPolicy (rp_MaxRetries p) s (rp_MaxBackoff p) (rp_BackoffFactor p), err)
  else if key_matches "max_backoff" k then
    let '(s, err) := string_member type_error k (rp_MaxBackoff p) j err in
    (mkRetryPolicy (rp_MaxRetries p) (rp_InitialBackoff p) s (rp_BackoffFactor p), err)
  else if key_matches "backoff_factor" k then
    let '(f, err) := float_member type_error k (rp_BackoffFactor p) j err in
    (mkRetryPolicy (rp_MaxRetries p) (rp_InitialBackoff p) (rp_MaxBackoff p) f, err)
  else acc.

Definition stream_member (acc : acc_of StreamConfig) (e : string * json) : acc_of StreamConfig :=
  let '(s, err) := acc in
  let '(k, j) := e in
  if key_matches "stream_name" k then
    let '(x, err) := string_member type_error k (sc_StreamName s) j err in
    (mkStreamConfig x (sc_SyncMode s) (sc_DestinationSyncMode s) (sc_CursorField s) (sc_PrimaryKey s), err)
  else if key_matches "sync_mode" k then
    let '(x, err) := string_member type_error k (SyncMode_text (sc_SyncMode s)) j err in
    (mkStreamConfig (sc_StreamName s) (SyncMode_of x) (sc_DestinationSyncMode s) (sc_CursorField s) (sc_PrimaryKey s), err)
  else if key_matches "destination_sync_mode" k then
    let '(x, err) := string_member type_error k (DestMode_text (sc_DestinationSyncMode s)) j err in
    (mkStreamConfig (sc_StreamName s) (sc_SyncMode s) (DestMode_of x) (sc_CursorField s) (sc_PrimaryKey s), err)
  else if key_matches "cursor_field" k then
    let '(x, err) := list_member type_error (string_member type_error k "") k (sc_CursorField s) j err in
    (mkStreamConfig (sc_StreamName s) (sc_SyncMode s) (sc_DestinationSyncMode s) x (sc_PrimaryKey s), err)
  else if key_matches "primary_key" k then
    let '(x, err) := list_member type_error (list_member type_error (string_member type_error k "") k []) k (sc_PrimaryKey s) j err in
    (mkStreamConfig (sc_StreamName s) (sc_SyncMode s) (sc_DestinationSyncMode s) (sc_CursorField s) x, err)
  else acc.

Definition mapping_member (acc : acc_of FieldMapping) (e : string * json) : acc_of FieldMapping :=
  let '(m, err) := acc in
  let '(k, j) := e in
  if key_matches "source_field" k then
    let '(x, err) := string_member type_error k (fm_SourceField m) j err in
    (mkFieldMapping x (fm_DestField m) (fm_CoerceType m), err)
  else if key_matches "dest_field" k then
    let '(x, err) := string_member type_error k (fm_DestField m) j err in
    (mkFieldMapping (fm_SourceField m) x (fm_CoerceType m), err)
  else if key_matches "coerce_type" k then
    let '(x, err) := string_member type_error k (fm_CoerceType m) j err in
    (mkFieldMapping (fm_SourceField m) (fm_DestField m) x, err)
  else acc.

Definition zero_retry : RetryPolicy := mkRetryPolicy 0 "" "" (f_of_Z 0).
Definition zero_stream : StreamConfig := mkStreamConfig "" (SyncModeOther "") (DestSyncModeOther "") [] [].
Definition zero_mapping : FieldMapping := mkFieldMapping "" "" "".
Definition zero_config : SyncConfig := mkSyncConfig "" "" RawEmpty RawEmpty [] ∅ "" 0 None.

Definition config_member (acc : acc_of SyncConfig) (e : string * json) : acc_of SyncConfig :=
  let '(c, err) := acc in
  let '(k, j) := e in
  if key_matches "source_connector_id" k then
    let '(x, err) := string_member type_error k (c_SourceConnectorID c) j err in
    (mkSyncConfig x (c_DestConnectorID c) (c_SourceConfig c) (c_DestConfig c) (c_StreamConfigs c) (c_FieldMappings c)
       (c_Schedule c) (c_BatchSize c) (c_RetryPolicy c), err)
  else if key_matches "dest_connector_id" k then
    let '(x, err) := string_member type_error k (c_DestConnectorID c) j err in
    (mkSyncConfig (c_SourceConnectorID c) x (c_SourceConfig c) (c_DestConfig c) (c_StreamConfigs c) (c_FieldMappings c)
       (c_Schedule c) (c_BatchSize c) (c_RetryPolicy c), err)
  else if key_matches "source_config" k then
    (mkSyncConfig (c_SourceConnectorID c) (c_DestConnectorID c) (RawDoc j) (c_DestConfig c) (c_StreamConfigs c) (c_FieldMappings c)
       (c_Schedule c) (c_BatchSize c) (c_RetryPolicy c), err)
  else if key_matches "dest_config" k then
    (mkSyncConfig (c_SourceConnectorID c) (c_DestConnectorID c) (c_SourceConfig c) (RawDoc j) (c_StreamConfigs c) (c_FieldMappings c)
       (c_Schedule c) (c_BatchSize c) (c_RetryPolicy c), err)
  else if key_matches "stream_configs" k then
    let '(x, err) := list_member type_error (struct_member type_error stream_member k zero_stream) k (c_StreamConfigs c) j err in
    (mkSyncConfig (c_SourceConnectorID c) (c_DestConnectorID c) (c_SourceConfig c) (c_DestConfig c) x (c_FieldMappings c)
       (c_Schedule c) (c_BatchSize c) (c_RetryPolicy c), err)
  else if key_matches "field_mappings" k then
    let '(x, err) := map_member type_error (list_member type_error (struct_member type_error mapping_member k zero_mapping) k [])
                       k (c_FieldMappings c) j err in
    (mkSyncConfig (c_SourceConnectorID c) (c_DestConnectorID c) (c_SourceConfig c) (c_DestConfig c) (c_StreamConfigs c) x
       (c_Schedule c) (c_BatchSize c) (c_RetryPolicy c), err)
  else if key_matches "schedule" k then
    let '(x, err) := string_member type_error k (c_Schedule c) j err in
    (mkSyncConfig (c_SourceConnectorID c) (c_DestConnectorID c) (c_SourceConfig c) (c_DestConfig c) (c_StreamConfigs c) (c_FieldMappings c)
       x (c_BatchSize c) (c_RetryPolicy c), err)
  else if key_matches "batch_size" k then
    let '(x, err) := int_member type_error k (c_BatchSize c) j err in
    (mkSyncConfig (c_SourceConnectorID c) (c_DestConnectorID c) (c_SourceConfig c) (c_DestConfig c) (c_StreamConfigs c) (c_FieldMappings c)
       (c_Schedule c) x (c_RetryPolicy c), err)
  else if key_matches "retry_policy" k then
    let '(x, err) := match j with
                     | JNull => (None, err)
                     | _ => let '(p, err) := struct_member type_error retry_member k (default zero_retry (c_RetryPolicy c)) j err in (Some p, err)
                     end in
    (mkSyncConfig (c_SourceConnectorID c) (c_DestConnectorID c) (c_SourceConfig c) (c_DestConfig c) (c_StreamConfigs c) (c_FieldMappings c)
       (c_Schedule c) (c_BatchSize c) x, err)
  else acc.
End unmarshal.

(** ** The manager *)

Class SyncConfigRepository (W : Type) := {
  repo_GetSyncConfig : string → W → res RawMessage * W;
  repo_SaveSyncConfig : string → RawMessage → W → option error * W
}.

Definition default_batch (c : SyncConfig) : SyncConfig :=
  if c_BatchSize c <=? 0
  then mkSyncConfig (c_SourceConnectorID c) (c_DestConnectorID c) (c_SourceConfig c) (c_DestConfig c) (c_StreamConfigs c)
         (c_FieldMappings c) (c_Schedule c) 1000 (c_RetryPolicy c)
  else c.

Section manager.
Context {W : Type} `{Hrepo : SyncConfigRepository W} (type_error : string → json → error).

Definition GetSyncConfig (syncID : string) (w : W) : res SyncConfig * W :=
  if bool_decide (syncID = "") then (Err (ErrWrapf "syncID is required" (ErrSentinel ErrInvalidConfig)), w)
  else match repo_GetSyncConfig syncID w with
       | (Err e, w) => (Err (ErrWrapf ("failed to read sync config " +:+ syncID) e), w)
       | (Panic m, w) => (Panic m, w)
       | (Ok raw, w) =>
           (match unmarshal_struct type_error zero_config (config_member type_error) raw with
            | Ok cfg => Ok (default_batch cfg)
            | Err e => Err (ErrWrapf ("failed to parse sync config " +:+ syncID) e)
            | Panic m => Panic m
            end, w)
       end.

Definition missing (b : bool) (field msg : string) : list ValidationError :=
  if b then [mkValidationError field msg] else [].

Definition config_errors (c : SyncConfig) : list ValidationError :=
  missing (bool_decide (c_SourceConnectorID c = "")) "source_connector_id" "required"
  ++ missing (bool_decide (c_DestConnectorID c = "")) "dest_connector_id" "required"
  ++ missing (match c_StreamConfigs c with [] => true | _ => false end) "stream_configs" "at least one stream must be configured".

(** [None] is a nil pointer.  The batch size of the caller's struct is set as well: the configuration is
    returned. *)
Definition SaveSyncConfig (syncID : string) (config : option SyncConfig) (w : W) : res unit * option SyncConfig * W :=
  if bool_decide (syncID = "") then (Err (ErrWrapf "syncID is required" (ErrSentinel ErrInvalidConfig)), config, w)
  else match config with
  | None => (Err (ErrWrapf "config is required" (ErrSentinel ErrInvalidConfig)), config, w)
  | Some c =>
      match config_errors c with
      | v :: vs => (Err (ErrValidations v vs), config, w)
      | [] =>
          let c := default_batch c in
          match config_json c with
          | Err e => (Err (ErrWrapf "failed to marshal sync config" e), Some c, w)
          | Panic m => (Panic m, Some c, w)
          | Ok j =>
              match repo_SaveSyncConfig syncID (RawDoc j) w with
              | (Some e, w) => (Err (ErrWrapf ("failed to save sync config " +:+ syncID) e), Some c, w)
              | (None, w) => (Ok tt, Some c, w)
              end
          end
      end
  end.
End manager.

(** ** Reading back what was saved *)

(** What JSON does not tell apart: a nil raw message comes back as [null], and an unset batch size as
    the default. *)
Definition raw_back (r : RawMessage) : RawMessage := match r with RawEmpty => RawDoc JNull | _ => r end.
Definition read_back (c : SyncConfig) : SyncConfig :=
  let c := default_batch c in
  mkSyncConfig (c_SourceConnectorID c) (c_DestConnectorID c) (raw_back (c_SourceConfig c)) (raw_back (c_DestConfig c))
    (c_StreamConfigs c) (c_FieldMappings c) (c_Schedule c) (c_BatchSize c) (c_RetryPolicy c).

(** Mode texts are not those of the other modes, and integers are machine integers. *)
Definition regular (c : SyncConfig) : Prop :=
  Forall (λ s, SyncMode_of (SyncMode_text (sc_SyncMode s)) = sc_SyncMode s ∧
               DestMode_of (DestMode_text (sc_DestinationSyncMode s)) = sc_DestinationSyncMode s) (c_StreamConfigs c) ∧
  in_i64 (c_BatchSize c) ∧ from_option (λ p, in_i64 (rp_MaxRetries p)) True (c_RetryPolicy c).

(** Runs the decoding of a concrete list of members. *)
Ltac step_members :=
  repeat (progress (cbn [foldl struct_member stream_member mapping_member retry_member config_member string_member
    zero_stream zero_mapping zero_retry zero_config float_member num_value
    sc_StreamName sc_SyncMode sc_DestinationSyncMode sc_CursorField sc_PrimaryKey
    fm_SourceField fm_DestField fm_CoerceType rp_MaxRetries rp_InitialBackoff rp_MaxBackoff rp_BackoffFactor
    c_SourceConnectorID c_DestConnectorID c_SourceConfig c_DestConfig c_StreamConfigs c_FieldMappings c_Schedule
    c_BatchSize c_RetryPolicy]; match_keys)).

Section roundtrip.
Context (type_error : string → json → error).

Lemma strings_decode field k l : list_member type_error (string_member type_error k "") field [] (strings_json l) None = (l, None).
Proof. by apply list_member_map. Qed.

Lemma stream_decode field s :
  SyncMode_of (SyncMode_text (sc_SyncMode s)) = sc_SyncMode s →
  DestMode_of (DestMode_text (sc_DestinationSyncMode s)) = sc_DestinationSyncMode s →
  struct_member type_error (stream_member type_error) field zero_stream (stream_json s) None = (s, None).
Proof.
  intros Hm Hd. destruct s as [name sm dm cf pk]. cbn [sc_SyncMode sc_DestinationSyncMode] in *.
  unfold stream_json. cbn [struct_member]. rewrite !foldl_app. step_members. rewrite Hm, Hd.
  rewrite (omit_decode _ cf [] _ (λ cf, mkStreamConfig name sm dm cf [])).
  - apply (omit_decode _ pk [] _ (λ pk, mkStreamConfig name sm dm cf pk)); [apply bool_decide_eq_true_1|].
    step_members. rewrite list_member_map; [done|]. intros l _. apply strings_decode.
  - apply bool_decide_eq_true_1.
  - step_members. by rewrite strings_decode.
Qed.

Lemma mapping_decode field m :
  struct_member type_error (mapping_member type_error) field zero_mapping (mapping_json m) None = (m, None).
Proof.
  destruct m as [s d c]. unfold mapping_json. cbn [struct_member]. rewrite foldl_app. step_members.
  apply (omit_decode _ c "" _ (λ c, mkFieldMapping s d c)); [apply bool_decide_eq_true_1|]. by step_members.
Qed.

Lemma retry_decode field p j :
  in_i64 (rp_MaxRetries p) → retry_json p = Ok j →
  struct_member type_error (retry_member type_error) field zero_retry j None = (p, None).
Proof.
  intros Hz. unfold retry_json. destruct (f_is_finite (rp_BackoffFactor p)) eqn:Hf; [|done]. intros [= <-].
  destruct p as [z a b f]. cbn [rp_MaxRetries rp_BackoffFactor] in *.
  step_members. rewrite int_decode by done. step_members. by rewrite Hf.
Qed.

Lemma config_decode c j :
  regular c → config_json c = Ok j →
  unmarshal_struct type_error zero_config (config_member type_error) (RawDoc j)
  = Ok (mkSyncConfig (c_SourceConnectorID c) (c_DestConnectorID c)
          (raw_back (c_SourceConfig c)) (raw_back (c_DestConfig c))
          (c_StreamConfigs c) (c_FieldMappings c) (c_Schedule c) (c_BatchSize c) (c_RetryPolicy c)).
Proof.
  intros (Hs & Hb & Hr). destruct c as [src dst sc dc streams maps sched batch retry].
  cbn [c_StreamConfigs c_BatchSize c_RetryPolicy] in *. unfold config_json.
  cbn [c_SourceConnectorID c_DestConnectorID c_SourceConfig c_DestConfig c_StreamConfigs c_FieldMappings c_Schedule
       c_BatchSize c_RetryPolicy].
  destruct (raw_json sc) as [sj|e|m] eqn:Hsj; [|done..]. destruct (raw_json dc) as [dj|e|m] eqn:Hdj; [|done..].
  cbn [mbind outcome_bind]. intros Hj.
  assert (Hraw : ∀ r x, raw_json r = Ok x → RawDoc x = raw_back r).
  { intros [|e|x0] x; simpl; [by intros [= <-]|done|by intros [= <-]]. }
  rewrite <- (Hraw _ _ Hsj), <- (Hraw _ _ Hdj). clear Hraw Hsj Hdj.
  assert (Hst : ∀ k, list_member type_error (struct_member type_error (stream_member type_error) k zero_stream) k []
                      (JArr (map stream_json streams)) None = (streams, None)).
  { intros k. apply list_member_map. intros s Hin. rewrite list.Forall_forall in Hs. destruct (Hs s Hin). by apply stream_decode. }
  assert (Hmp : ∀ k, map_member type_error (list_member type_error (struct_member type_error (mapping_member type_error) k zero_mapping) k [])
                      k ∅ (JObj (map (λ e, (e.1, JArr (map mapping_json e.2))) (sorted_entries maps))) None = (maps, None)).
  { intros k. apply (map_member_entries type_error _ (λ l, JArr (map mapping_json l))). intros k' l _.
    apply list_member_map. intros m _. apply mapping_decode. }
  assert (Hend : ∃ tail, j = JObj ([("source_connector_id", JStr src); ("dest_connector_id", JStr dst);
             ("source_config", sj); ("dest_config", dj); ("stream_configs", JArr (map stream_json streams))]
            ++ omit_when (bool_decide (maps = ∅)) "field_mappings"
                 (JObj (map (λ e, (e.1, JArr (map mapping_json e.2))) (sorted_entries maps)))
            ++ omit_when (bool_decide (sched = "")) "schedule" (JStr sched)
            ++ [("batch_size", int_json batch)] ++ tail) ∧
            (tail = [] ∧ retry = None ∨ ∃ p rj, tail = [("retry_policy", rj)] ∧ retry = Some p ∧ retry_json p = Ok rj)).
  { destruct retry as [p|].
    - destruct (retry_json p) as [rj|e|m] eqn:Hp; [|done..]. injection Hj as <-.
      eexists. split; [done|]. right. by exists p, rj.
    - injection Hj as <-. eexists. split; [done|by left]. }
  clear Hj. destruct Hend as (tail & -> & Htail).
  unfold unmarshal_struct. cbn [struct_member]. rewrite !foldl_app. step_members. rewrite Hst. step_members.
  rewrite (omit_decode _ maps ∅ _ (λ maps, mkSyncConfig src dst (RawDoc sj) (RawDoc dj) streams maps "" 0 None)).
  2:{ apply bool_decide_eq_true_1. }
  2:{ step_members. by rewrite Hmp. }
  rewrite (omit_decode _ sched "" _ (λ sched, mkSyncConfig src dst (RawDoc sj) (RawDoc dj) streams maps sched 0 None)).
  2:{ apply bool_decide_eq_true_1. }
  2:{ by step_members. }
  step_members. rewrite int_decode by done.
  destruct Htail as [[-> ->]|(p & rj & -> & -> & Hp)]; step_members; [done|].
  assert (Hobj : ∃ l, rj = JObj l).
  { unfold retry_json in Hp. destruct (f_is_finite _); [|done]. injection Hp as <-. by eexists. }
  destruct Hobj as [l ->]. cbn [from_option default id]. by rewrite (retry_decode _ _ _ Hr Hp).
Qed.
End roundtrip.

(** C15: a sync configuration comes back as it was saved.  When saving succeeds and the store
    returns what was stored, reading gives the configuration of the caller, with the batch size
    defaulted and a nil raw configuration as [null]; and what was saved named both
    connectors and at least one stream. *)
Theorem sync_config_roundtrip {W} `{SyncConfigRepository W} type_error id c w c' w' :
  regular c →
  (∀ raw w1 w2, repo_SaveSyncConfig id raw w1 = (None, w2) → (repo_GetSyncConfig id w2).1 = Ok raw) →
  SaveSyncConfig id (Some c) w = (Ok tt, c', w') →
  (GetSyncConfig type_error id w').1 = Ok (read_back c) ∧ c' = Some (default_batch c) ∧ 0 < c_BatchSize (default_batch c) ∧
  c_SourceConnectorID c ≠ "" ∧ c_DestConnectorID c ≠ "" ∧ c_StreamConfigs c ≠ [].
Proof.
  intros Hreg Hstore. unfold SaveSyncConfig, GetSyncConfig. case_bool_decide as Hid; [done|].
  destruct (config_errors c) as [|v vs] eqn:Herr; [|done].
  destruct (config_json (default_batch c)) as [j|e|m] eqn:Hj; [|done..].
  destruct (repo_SaveSyncConfig id (RawDoc j) w) as [[e|] w2] eqn:Hs; [done|]. intros [= <- <-].
  apply Hstore in Hs. destruct (repo_GetSyncConfig id w2) as [r w3]. cbn [fst] in Hs. subst r.
  assert (Hpos : 0 < c_BatchSize (default_batch c)).
  { unfold default_batch. destruct (Z.leb_spec (c_BatchSize c) 0); cbn; lia. }
  assert (Hreg' : regular (default_batch c)).
  { unfold default_batch. destruct (c_BatchSize c <=? 0); [|done]. destruct Hreg as (? & _ & ?).
    split_and!; [done| |done]. unfold in_i64, int64_min, int64_max. cbn. lia. }
  rewrite (config_decode type_error _ _ Hreg' Hj). cbn [fst].
  split_and!; [|done|done|..].
  - f_equal. unfold default_batch at 1. cbn [c_BatchSize]. rewrite (proj2 (Z.leb_gt _ _)) by done. done.
  - intros Hn. unfold config_errors in Herr. by rewrite Hn in Herr.
  - intros Hn. unfold config_errors in Herr. rewrite Hn in Herr. by destruct (missing _ _ _).
  - intros Hn. unfold config_errors in Herr. rewrite Hn in Herr. by destruct (missing _ _ _), (missing _ _ _).
Qed.

(** A store that is the last document saved. *)
#[local] Instance last_document : SyncConfigRepository RawMessage := {
  repo_GetSyncConfig id w := (Ok w, w);
  repo_SaveSyncConfig id raw w := (None, raw)
}.

Definition example_config : SyncConfig :=
  mkSyncConfig "hubspot" "postgres" (RawDoc (JObj [("api_key", JStr "k")])) RawEmpty
    [mkStreamConfig "contacts" SyncModeIncremental DestSyncModeUpsert ["updated"] [["id"]]]
    {[ "contacts" := [mkFieldMapping "email" "mail" ""; mkFieldMapping "age" "age" "int"] ]} "0 * * * *" 0
    (Some (mkRetryPolicy 3 "1s" "5m" (f_of_Z 2))).

Lemma sync_config_roundtrip_witness :
  (SaveSyncConfig "s1" (Some example_config) RawEmpty).1.1 = Ok tt ∧
  (GetSyncConfig (λ _ _, err_number) "s1" (SaveSyncConfig "s1" (Some example_config) RawEmpty).2).1 = Ok (read_back example_config).
Proof.
  split; [vm_compute; reflexivity|].
  eapply (sync_config_roundtrip (λ _ _, err_number) "s1" example_config RawEmpty (Some (default_batch example_config))).
  - split_and!; [by repeat constructor|vm_compute; split; discriminate|vm_compute; split; discriminate].
  - by intros raw w1 w2 [= <-].
  - vm_compute. reflexivity.
Defined.
