(* ===== verification/AuditLog.v ===== *)
(** * Audit log: [internal/security/audit/audit.go]

    Events are buffered and written to a store in batches; a batch that cannot be written goes back
    to the front of the buffer, which is capped.  The methods are sequential functions over a
    store of the class [AuditStore]; [step] interleaves the critical sections of any number of
    goroutines that log and flush.  The ticker calls [flush] like any other caller; log output is left out. *)

From S2P Require Import Prelude GoStrings Errors Value.

Record AuditEvent := mkAuditEvent {
  ae_ID : string; ae_TenantID : string; ae_UserID : string; ae_Action : string; ae_ResourceType : string;
  ae_ResourceID : string; ae_Details : RawMessage; ae_Timestamp : Z; ae_IP : string; ae_UserAgent : string
}.

Record AuditFilter := mkAuditFilter {
  af_TenantID : string; af_UserID : string; af_Action : string; af_ResourceType : string; af_ResourceID : string;
  af_Since : option Z; af_Until : option Z; af_Limit : Z; af_Offset : Z
}.

Class AuditStore (S : Type) := {
  WriteEvents : list AuditEvent → S → option error * S;
  QueryEvents : AuditFilter → S → res (list AuditEvent)
}.

Record AuditLogger := mkAuditLogger { al_BatchSize : Z; al_FlushInterval : Z; al_buffer : list AuditEvent; al_stopped : bool }.

(** Batch size and flush interval. *)
Definition DefaultAuditLoggerConfig : Z * Z := (100, 5 * second).

Definition NewAuditLogger (batchSize flushInterval : Z) : AuditLogger :=
  mkAuditLogger (if batchSize <=? 0 then 100 else batchSize)
                (if flushInterval <=? 0 then 5 * second else flushInterval) [] false.

Definition with_buffer (al : AuditLogger) (b : list AuditEvent) : AuditLogger :=
  mkAuditLogger (al_BatchSize al) (al_FlushInterval al) b (al_stopped al).

(** ** Critical sections *)

(** The defaults [Log] sets; [tenant] and [user] are those of the context. *)
Definition complete_event (tenant user : string) (now : Z) (e : AuditEvent) : AuditEvent :=
  mkAuditEvent (ae_ID e)
    (if bool_decide (ae_TenantID e = "") then tenant else ae_TenantID e)
    (if bool_decide (ae_UserID e = "") then user else ae_UserID e)
    (ae_Action e) (ae_ResourceType e) (ae_ResourceID e)
    (match ae_Details e with RawEmpty => RawDoc (JObj []) | d => d end)
    (if ae_Timestamp e =? zero_time then now else ae_Timestamp e)
    (ae_IP e) (ae_UserAgent e).

Definition append_event (e : AuditEvent) (al : AuditLogger) : bool * AuditLogger :=
  let b := al_buffer al ++ [e] in (al_BatchSize al <=? Z.of_nat (length b), with_buffer al b).

(** The batch to write, if the buffer is not empty. *)
Definition take_batch (al : AuditLogger) : option (list AuditEvent) * AuditLogger :=
  match al_buffer al with [] => (None, al) | b => (Some b, with_buffer al []) end.

(** After a failure: the batch goes back, and the oldest events beyond ten batches are dropped (the
    product is taken not to overflow). *)
Definition overflow (al : AuditLogger) (b : list AuditEvent) : nat :=
  if al_BatchSize al * 10 <? Z.of_nat (length b) then (length b - Z.to_nat (al_BatchSize al * 10))%nat else 0%nat.
Definition give_back (events : list AuditEvent) (al : AuditLogger) : AuditLogger :=
  let b := events ++ al_buffer al in with_buffer al (drop (overflow al b) b).

(** ** Methods *)

Section logger.
Context {S : Type} `{Hstore : AuditStore S}.

Definition flush (al : AuditLogger) (s : S) : AuditLogger * S :=
  match take_batch al with
  | (None, al) => (al, s)
  | (Some events, al) =>
      match WriteEvents events s with
      | (None, s) => (al, s)
      | (Some _, s) => (give_back events al, s)
      end
  end.

Definition Log (tenant user : string) (now : Z) (e : AuditEvent) (al : AuditLogger) (s : S) : AuditLogger * S :=
  let '(shouldFlush, al) := append_event (complete_event tenant user now e) al in
  if shouldFlush then flush al s else (al, s).

Definition Query (f : AuditFilter) (al : AuditLogger) (s : S) : res (list AuditEvent) * AuditLogger * S :=
  let '(al, s) := flush al s in (QueryEvents f s, al, s).

Definition Flush := flush.

(** Closing twice closes a closed channel. *)
Definition Close (al : AuditLogger) (s : S) : res unit * AuditLogger * S :=
  if al_stopped al then (Panic "close of closed channel", al, s)
  else let '(al, s) := flush (mkAuditLogger (al_BatchSize al) (al_FlushInterval al) (al_buffer al) true) s in (Ok tt, al, s).
End logger.

(** ** The store in memory *)

Definition matchesFilter (e : AuditEvent) (f : AuditFilter) : bool :=
  if negb (bool_decide (af_TenantID f = "")) && negb (bool_decide (ae_TenantID e = af_TenantID f)) then false
  else if negb (bool_decide (af_UserID f = "")) && negb (bool_decide (ae_UserID e = af_UserID f)) then false
  else if negb (bool_decide (af_Action f = "")) && negb (bool_decide (ae_Action e = af_Action f)) then false
  else if negb (bool_decide (af_ResourceType f = "")) && negb (bool_decide (ae_ResourceType e = af_ResourceType f)) then false
  else if negb (bool_decide (af_ResourceID f = "")) && negb (bool_decide (ae_ResourceID e = af_ResourceID f)) then false
  else if match af_Since f with Some t => ae_Timestamp e <? t | None => false end then false
  else if match af_Until f with Some t => t <? ae_Timestamp e | None => false end then false
  else true.

(** The loop over the events from the last to the first. *)
Fixpoint collect_matches (f : AuditFilter) (newest_first : list AuditEvent) : list AuditEvent :=
  match newest_first with
  | [] => []
  | e :: es => if negb (matchesFilter e f) then collect_matches f es else e :: collect_matches f es
  end.

Definition page_of (f : AuditFilter) (results : list AuditEvent) : list AuditEvent :=
  let results := if 0 <? af_Offset f
                 then if Z.of_nat (length results) <=? af_Offset f then [] else drop (Z.to_nat (af_Offset f)) results
                 else results in
  if (0 <? af_Limit f) && (af_Limit f <? Z.of_nat (length results)) then take (Z.to_nat (af_Limit f)) results else results.

#[global] Instance InMemoryAuditStore : AuditStore (list AuditEvent) := {
  WriteEvents events s := (None, s ++ events);
  QueryEvents f s := Ok (page_of f (collect_matches f (reverse s)))
}.

Definition NewEvent (action resourceType resourceID : string) (details : option obj) (now : Z) : AuditEvent :=
  let detailsJSON := match details with
                     | None => RawDoc (JObj [])
                     | Some d => match marshal_map d with
                                 | Ok j => j
                                 | Err e => RawDoc (JObj [("marshal_error", JStr (Error e))])
                                 | Panic m => RawInvalid m
                                 end
                     end in
  mkAuditEvent "" "" "" action resourceType resourceID detailsJSON now "" "".

(** ** Goroutines *)

(** The logger with the batches being written, and for the statements all the events logged, stored
    and dropped, in order. *)
Record sys := mkSys {
  lg : AuditLogger; flights : list (list AuditEvent);
  logged : list AuditEvent; stored : list AuditEvent; dropped : list AuditEvent
}.

Definition init (batchSize flushInterval : Z) : sys := mkSys (NewAuditLogger batchSize flushInterval) [] [] [] [].

Inductive step : sys → sys → Prop :=
| step_log s e : step s (mkSys (append_event e (lg s)).2 (flights s) (logged s ++ [e]) (stored s) (dropped s))
| step_take s b al : take_batch (lg s) = (Some b, al) →
    step s (mkSys al (flights s ++ [b]) (logged s) (stored s) (dropped s))
| step_written s i b : flights s !! i = Some b →
    step s (mkSys (lg s) (delete i (flights s)) (logged s) (stored s ++ b) (dropped s))
| step_failed s i b : flights s !! i = Some b →
    step s (mkSys (give_back b (lg s)) (delete i (flights s)) (logged s) (stored s)
              (dropped s ++ take (overflow (lg s) (b ++ al_buffer (lg s))) (b ++ al_buffer (lg s)))).

(** Steps where a batch is taken only when no other is being written. *)
Inductive serial_step : sys → sys → Prop :=
| serial s s' : step s s' → (length (flights s') ≤ 1)%nat → serial_step s s'.

Lemma take_batch_some al b al' : take_batch al = (Some b, al') → b = al_buffer al ∧ b ≠ [] ∧ al' = with_buffer al [].
Proof. unfold take_batch. destruct (al_buffer al) eqn:Hb; [done|]. by intros [= <- <-]. Qed.

Lemma concat_delete {A} (l : list (list A)) i b : l !! i = Some b → concat l ≡ₚ b ++ concat (delete i l).
Proof.
  revert i. induction l as [|x l IH]; intros [|i] Hi; simpl in *; try done; [by injection Hi as ->|].
  rewrite (IH _ Hi). rewrite !app_assoc. by rewrite (Permutation_app_comm x b).
Qed.

(** An invariant of the steps holds of what is reachable. *)
Lemma rtc_keeps {A} (R : relation A) (P : A → Prop) x y :
  (∀ a b, R a b → P a → P b) → P x → rtc R x y → P y.
Proof. intros HR Hx Hr. induction Hr as [|a b c Hab _ IH]; eauto. Qed.

Lemma batch_size_kept s s' : step s s' → al_BatchSize (lg s') = al_BatchSize (lg s).
Proof. intros [?|? ? al Ht|?|?]; try done. by apply take_batch_some in Ht as (_ & _ & ->). Qed.

Lemma batch_size_positive batchSize flushInterval s :
  rtc step (init batchSize flushInterval) s → 0 < al_BatchSize (lg s).
Proof.
  apply (rtc_keeps step (λ s, 0 < al_BatchSize (lg s))).
  - intros a b Hab. by rewrite (batch_size_kept _ _ Hab).
  - cbn. destruct (Z.leb_spec batchSize 0); lia.
Qed.

Definition accounted (s : sys) : Prop :=
  logged s ≡ₚ stored s ++ concat (flights s) ++ al_buffer (lg s) ++ dropped s.

Lemma accounted_step s s' : step s s' → accounted s → accounted s'.
Proof.
  unfold accounted. intros [s0 e|s0 b al Ht|s0 i b Hi|s0 i b Hi] IH; cbn.
  - rewrite IH. solve_Permutation.
  - apply take_batch_some in Ht as (-> & _ & ->). rewrite IH, concat_app. cbn. solve_Permutation.
  - rewrite IH, (concat_delete _ _ _ Hi). solve_Permutation.
  - rewrite IH, (concat_delete _ _ _ Hi).
    set (full := b ++ al_buffer (lg s0)). set (n := overflow (lg s0) full).
    transitivity (stored s0 ++ concat (delete i (flights s0)) ++ full ++ dropped s0).
    { unfold full. solve_Permutation. }
    rewrite <- (take_drop n full) at 1. solve_Permutation.
Qed.

(** C38: no audit event is lost silently.  However goroutines log and flush, the events logged are those
    stored, those of batches being written, those buffered and those dropped; events are
    dropped only when a failed batch leaves more than ten batches buffered, and then ten
    batches, the newest, are kept. *)
Theorem audit_conserved batchSize flushInterval s :
  rtc step (init batchSize flushInterval) s →
  logged s ≡ₚ stored s ++ concat (flights s) ++ al_buffer (lg s) ++ dropped s ∧
  ∀ s', step s s' → dropped s' = dropped s ∨
    ∃ b lost, b ∈ flights s ∧ b ++ al_buffer (lg s) = lost ++ al_buffer (lg s') ∧ dropped s' = dropped s ++ lost ∧
      Z.of_nat (length (al_buffer (lg s'))) = 10 * al_BatchSize (lg s).
Proof.
  intros Hr. split.
  - change (accounted s). revert Hr. apply (rtc_keeps step accounted); [apply accounted_step|].
    unfold accounted. reflexivity.
  - apply batch_size_positive in Hr. intros s' Hs. destruct Hs as [s0 e|s0 b al Ht|s0 i b Hi|s0 i b Hi]; [by left..|]. cbn.
    unfold overflow.
    destruct (Z.ltb_spec (al_BatchSize (lg s0) * 10) (Z.of_nat (length (b ++ al_buffer (lg s0))))).
    + right. eexists b, _. split_and!; [by eapply list_elem_of_lookup_2|symmetry; apply take_drop|done|].
      rewrite length_drop. lia.
    + left. cbn. by rewrite app_nil_r.
Qed.

(** When flushes do not overlap, the store receives the events in the order in which they were
    logged, and what is not stored yet follows in that order. *)
Theorem audit_in_order batchSize flushInterval s :
  rtc serial_step (init batchSize flushInterval) s →
  sublist (stored s ++ concat (flights s) ++ al_buffer (lg s)) (logged s).
Proof.
  intros Hr.
  assert (Hinv : (length (flights s) ≤ 1)%nat ∧ sublist (stored s ++ concat (flights s) ++ al_buffer (lg s)) (logged s)).
  2: apply Hinv.
  revert Hr. apply (rtc_keeps serial_step (λ s, (length (flights s) ≤ 1)%nat ∧
    sublist (stored s ++ concat (flights s) ++ al_buffer (lg s)) (logged s))); [|by split; [cbn; lia|]].
  clear. intros _ _ [s s' Hstep Hone] [Hlen IH]. split; [done|].
  destruct Hstep as [s e|s b al Ht|s i b Hi|s i b Hi]; cbn in *.
  - rewrite !app_assoc in *. by apply sublist_app.
  - apply take_batch_some in Ht as (-> & _ & ->). cbn. rewrite concat_app. cbn. by rewrite !app_nil_r.
  - destruct (flights s) as [|x [|y l]] eqn:Hf; [done| |simpl in Hlen; lia].
    destruct i as [|i]; [|done]. injection Hi as ->. cbn in *. by rewrite app_nil_r, <- app_assoc in *.
  - destruct (flights s) as [|x [|y l]] eqn:Hf; [done| |simpl in Hlen; lia].
    destruct i as [|i]; [|done]. injection Hi as ->. cbn in *. rewrite app_nil_r in IH.
    etrans; [|exact IH]. apply sublist_app; [done|]. apply sublist_drop.
Qed.

(** ** The log seen by a single goroutine *)

Inductive audit_op :=
| OpLog (tenant user : string) (now : Z) (e : AuditEvent)
| OpFlush
| OpQuery (f : AuditFilter).

Definition run_op {S} `{AuditStore S} (op : audit_op) (st : AuditLogger * S) : AuditLogger * S :=
  match op with
  | OpLog tenant user now e => Log tenant user now e st.1 st.2
  | OpFlush => Flush st.1 st.2
  | OpQuery f => let '(_, al, s) := Query f st.1 st.2 in (al, s)
  end.
Definition run_ops {S} `{AuditStore S} (ops : list audit_op) (st : AuditLogger * S) : AuditLogger * S :=
  foldl (λ st op, run_op op st) st ops.

(** The abstract log: the list of completed events, oldest first. *)
Definition audit_trail (ops : list audit_op) : list AuditEvent :=
  omap (λ op, match op with
              | OpLog tenant user now e => Some (complete_event tenant user now e)
              | _ => None
              end) ops.

Lemma collect_matches_filter f l : collect_matches f l = base.filter (λ e, matchesFilter e f = true) l.
Proof. induction l as [|e l IH]; [done|]. rewrite list.filter_cons. cbn [collect_matches]. rewrite IH.
  by destruct (matchesFilter e f). Qed.

Lemma memory_flush al (s : list AuditEvent) : flush al s = (with_buffer al [], s ++ al_buffer al).
Proof. unfold flush, take_batch. destruct al as [b i [|e l] c]; cbn; [by rewrite app_nil_r|done]. Qed.

Definition trail (st : AuditLogger * list AuditEvent) : list AuditEvent := st.2 ++ al_buffer st.1.

Lemma memory_op op (st : AuditLogger * list AuditEvent) :
  trail (run_op op st) = trail st ++ audit_trail [op].
Proof.
  destruct st as [al s], op as [tenant user now e| |f]; unfold trail; cbn.
  - unfold Log, append_event. destruct (_ <=? _); [rewrite memory_flush|]; cbn; by rewrite ?app_nil_r, app_assoc.
  - unfold Flush. rewrite memory_flush. cbn. by rewrite !app_nil_r.
  - unfold Query. rewrite memory_flush. cbn. by rewrite !app_nil_r.
Qed.

Lemma memory_ops ops (st : AuditLogger * list AuditEvent) :
  trail (run_ops ops st) = trail st ++ audit_trail ops.
Proof.
  revert st. induction ops as [|op ops IH]; intros st; cbn; [by rewrite app_nil_r|].
  unfold run_ops in IH. rewrite IH, memory_op, <- app_assoc. f_equal. by destruct op.
Qed.

(** Buffering cannot be seen by one goroutine.  After any calls of [Log], [Flush] and [Query] on a
    logger over the store in memory, a query returns the requested page of the matching completed events, the latest
    first, whatever the batch size; a page is never longer than the limit. *)
Theorem Query_sees_trail batchSize flushInterval ops f :
  let '(al, s) := run_ops ops (NewAuditLogger batchSize flushInterval, @nil AuditEvent) in
  let found := page_of f (base.filter (λ e, matchesFilter e f = true) (reverse (audit_trail ops))) in
  (Query f al s).1.1 = Ok found ∧ (0 < af_Limit f → Z.of_nat (length found) ≤ af_Limit f).
Proof.
  pose proof (memory_ops ops (NewAuditLogger batchSize flushInterval, [])) as Ht.
  destruct (run_ops _ _) as [al s]. unfold trail in Ht. cbn in Ht. split.
  - unfold Query. rewrite memory_flush. cbn. by rewrite collect_matches_filter, Ht.
  - intros Hl. unfold page_of. set (p := if 0 <? af_Offset f then _ else _).
    destruct (Z.ltb_spec 0 (af_Limit f)); [|lia]. cbn.
    destruct (Z.ltb_spec (af_Limit f) (Z.of_nat (length p))); [rewrite length_take|]; lia.
Qed.

(** A query that meets the flush of another goroutine does not: the event has left the buffer, so
    the query's own flush has nothing to write, and it is not in the store yet. *)
Theorem query_misses_batch_in_flight e flushInterval :
  ∃ s, rtc step (init 1 flushInterval) s ∧ logged s = [e] ∧ (take_batch (lg s)).1 = None ∧ stored s = [].
Proof.
  exists (mkSys (NewAuditLogger 1 flushInterval) [[e]] [e] [] []). split; [|done].
  eapply rtc_l; [apply (step_log _ e)|]. apply rtc_once. by refine (step_take _ [e] (NewAuditLogger 1 _) _).
Qed.

(** [Close] reports success whatever becomes of the last batch: when the store refuses it, the
    events stay in a buffer that nothing flushes any more. *)
Theorem Close_hides_failure {S} `{AuditStore S} al (s : S) err :
  al_stopped al = false → al_buffer al ≠ [] → (WriteEvents (al_buffer al) s).1 = Some err →
  (Close al s).1.1 = Ok tt ∧
  (Z.of_nat (length (al_buffer al)) ≤ al_BatchSize al * 10 → al_buffer (Close al s).1.2 = al_buffer al).
Proof.
  intros Hs Hb Hw. unfold Close, flush, take_batch. rewrite Hs. cbn [al_buffer].
  destruct (al_buffer al) as [|e l] eqn:He; [done|]. destruct (WriteEvents (e :: l) s) as [[err'|] s']; [|done]. cbn.
  split; [done|]. intros Hlen. unfold overflow. cbn. rewrite app_nil_r.
  destruct (Z.ltb_spec (al_BatchSize al * 10) (Z.of_nat (Datatypes.S (length l)))); [cbn in Hlen; lia|done].
Qed.

(** A store that refuses everything, and a logger with one event. *)
#[local] Instance down_store : AuditStore unit := {
  WriteEvents _ s := (Some (ErrText "connection refused"), s); QueryEvents _ _ := Ok [] }.
Definition login_event : AuditEvent := mkAuditEvent "" "" "" "login" "session" "s1" RawEmpty zero_time "" "".

Lemma audit_conserved_witness :
  let s := mkSys (NewAuditLogger 1 0) [[login_event]] [login_event] [] [] in
  rtc step (init 1 0) s ∧ logged s ≡ₚ stored s ++ concat (flights s) ++ al_buffer (lg s) ++ dropped s.
Proof.
  cbv zeta. set (s := mkSys _ _ _ _ _). assert (Hr : rtc step (init 1 0) s).
  { eapply rtc_l; [apply (step_log _ login_event)|]. apply rtc_once. by refine (step_take _ [login_event] (NewAuditLogger 1 _) _). }
  split; [done|]. by apply (audit_conserved 1 0).
Defined.

Lemma audit_in_order_witness :
  let s := mkSys (NewAuditLogger 1 0) [[login_event]] [login_event] [] [] in
  rtc serial_step (init 1 0) s ∧ sublist (stored s ++ concat (flights s) ++ al_buffer (lg s)) (logged s).
Proof.
  cbv zeta. set (s := mkSys _ _ _ _ _). assert (Hr : rtc serial_step (init 1 0) s).
  { eapply rtc_l; [apply serial; [apply (step_log _ login_event)|cbn; lia]|].
    apply rtc_once, serial; [by refine (step_take _ [login_event] (NewAuditLogger 1 _) _)|cbn; lia]. }
  split; [done|]. by apply (audit_in_order 1 0).
Defined.

Lemma Close_hides_failure_witness :
  (Close (mkAuditLogger 100 second [login_event] false) tt).1.1 = Ok tt ∧
  (1 ≤ 1000 → al_buffer (Close (mkAuditLogger 100 second [login_event] false) tt).1.2 = [login_event]).
Proof. apply (Close_hides_failure (mkAuditLogger 100 second [login_event] false) tt (ErrText "connection refused")); [reflexivity|discriminate|reflexivity]. Defined.

Lemma Query_sees_trail_witness :
  let f := mkAuditFilter "acme" "" "" "" "" None None 10 0 in
  (Query f (NewAuditLogger 1 0) []).1.1 = Ok [] ∧ (0 < 10 → 0 ≤ 10).
Proof. exact (Query_sees_trail 1 0 [] (mkAuditFilter "acme" "" "" "" "" None None 10 0)). Defined.
