(* ===== verification/Tenant.v ===== *)
(** * Tenants: [internal/controlplane/tenant/manager.go]

    The manager over its three interfaces: the repository is a class over a world [W], the cache and
    the provisioner are optional records of operations.  Quotas are stored as JSON; machine integers
    are [Z].  Records and tenants are values: the pointers that the repository and the cache hand
    out are taken not to be shared.  Logging is left out. *)

From S2P Require Import Prelude GoStrings Errors Float Value JsonDecode SyncConfig.

(** ** Data *)

Definition StatusActive := "active".
Definition StatusSuspended := "suspended".
Definition StatusDeleted := "deleted".

Record ResourceQuotas := mkResourceQuotas {
  MaxConnectors : Z; MaxSyncs : Z; MaxRecordsPerMonth : Z; MaxStorageBytes : Z
}.

Record Tenant := mkTenant {
  t_ID : string; t_Name : string; t_Namespace : string; t_Quotas : ResourceQuotas; t_Status : string;
  t_NeonProjectID : string; t_Region : string; t_DBSchemaVersion : Z; t_CreatedAt : Z; t_UpdatedAt : Z
}.

Record TenantRecord := mkTenantRecord {
  tr_ID : string; tr_Name : string; tr_Namespace : string; tr_Config : RawMessage; tr_ResourceQuotas : RawMessage;
  tr_NeonProjectID : string; tr_ConnectionURIEncrypted : string; tr_Region : string; tr_DBSchemaVersion : Z;
  tr_CreatedAt : Z; tr_UpdatedAt : Z
}.

Record TenantDatabase := mkTenantDatabase {
  ProjectID : string; ConnectionURI : string; Host : string; DBName : string; RoleName : string; Region : string
}.

(** ** Interfaces *)

Class TenantRepository (W : Type) := {
  Create : TenantRecord → W → res TenantRecord * W;
  GetByID : string → W → res TenantRecord * W;
  Update : TenantRecord → W → res TenantRecord * W;
  List : Z → Z → W → res (list TenantRecord) * W;
  CountConnectors : string → W → res Z * W;
  CountSyncs : string → W → res Z * W;
  GetMonthlyRecordCount : string → W → res Z * W;
  GetStorageBytes : string → W → res Z * W
}.

(** [Get] gives the entry, if there is one. *)
Record TenantCache (W : Type) := mkTenantCache {
  tc_Get : string → W → (error + option Tenant) * W;
  tc_Set : string → Tenant → W → option error * W;
  tc_Invalidate : string → W → option error * W
}.
Arguments mkTenantCache {W}. Arguments tc_Get {W}. Arguments tc_Set {W}. Arguments tc_Invalidate {W}.

Record DatabaseProvisioner (W : Type) := mkDatabaseProvisioner {
  dp_ProvisionDatabase : string → string → W → res TenantDatabase * W;
  dp_DeprovisionDatabase : string → W → res unit * W;
  dp_GetConnectionURI : string → W → res string * W
}.
Arguments mkDatabaseProvisioner {W}. Arguments dp_ProvisionDatabase {W}. Arguments dp_DeprovisionDatabase {W}.
Arguments dp_GetConnectionURI {W}.

Record TenantManager (W : Type) := mkTenantManager {
  tm_cache : option (TenantCache W); tm_provisioner : option (DatabaseProvisioner W)
}.
Arguments mkTenantManager {W}. Arguments tm_cache {W}. Arguments tm_provisioner {W}.

(** ** Quotas as JSON *)

Definition quotas_json (q : ResourceQuotas) : RawMessage :=
  RawDoc (JObj [("max_connectors", int_json (MaxConnectors q)); ("max_syncs", int_json (MaxSyncs q));
                ("max_records_per_month", int_json (MaxRecordsPerMonth q)); ("max_storage_bytes", int_json (MaxStorageBytes q))]).

Definition positive_or (default z : Z) : Z := if z <=? 0 then default else z.
Definition default_quotas (q : ResourceQuotas) : ResourceQuotas :=
  mkResourceQuotas (positive_or 10 (MaxConnectors q)) (positive_or 20 (MaxSyncs q))
    (positive_or 10000000 (MaxRecordsPerMonth q)) (positive_or (10 * 1024 * 1024 * 1024) (MaxStorageBytes q)).

Definition zero_quotas : ResourceQuotas := mkResourceQuotas 0 0 0 0.

Section records.
Context (type_error : string → json → error).

Definition quotas_member (acc : ResourceQuotas * option error) (e : string * json) : ResourceQuotas * option error :=
  let '(q, err) := acc in
  let '(k, j) := e in
  if key_matches "max_connectors" k then
    let '(z, err) := int_member type_error k (MaxConnectors q) j err in
    (mkResourceQuotas z (MaxSyncs q) (MaxRecordsPerMonth q) (MaxStorageBytes q), err)
  else if key_matches "max_syncs" k then
    let '(z, err) := int_member type_error k (MaxSyncs q) j err in
    (mkResourceQuotas (MaxConnectors q) z (MaxRecordsPerMonth q) (MaxStorageBytes q), err)
  else if key_matches "max_records_per_month" k then
    let '(z, err) := int_member type_error k (MaxRecordsPerMonth q) j err in
    (mkResourceQuotas (MaxConnectors q) (MaxSyncs q) z (MaxStorageBytes q), err)
  else if key_matches "max_storage_bytes" k then
    let '(z, err) := int_member type_error k (MaxStorageBytes q) j err in
    (mkResourceQuotas (MaxConnectors q) (MaxSyncs q) (MaxRecordsPerMonth q) z, err)
  else acc.

(** The error of the decoder is ignored: what was decoded before it counts. *)
Definition record_quotas (raw : RawMessage) : ResourceQuotas :=
  match raw with
  | RawDoc j => (struct_member type_error quotas_member "" zero_quotas j None).1
  | _ => zero_quotas
  end.

Definition recordToTenant (r : TenantRecord) : Tenant :=
  mkTenant (tr_ID r) (tr_Name r) (tr_Namespace r) (record_quotas (tr_ResourceQuotas r)) StatusActive
    (tr_NeonProjectID r) (tr_Region r) (tr_DBSchemaVersion r) (tr_CreatedAt r) (tr_UpdatedAt r).

Definition with_quotas (r : TenantRecord) (q : RawMessage) : TenantRecord :=
  mkTenantRecord (tr_ID r) (tr_Name r) (tr_Namespace r) (tr_Config r) q (tr_NeonProjectID r)
    (tr_ConnectionURIEncrypted r) (tr_Region r) (tr_DBSchemaVersion r) (tr_CreatedAt r) (tr_UpdatedAt r).
Definition with_database (r : TenantRecord) (d : TenantDatabase) : TenantRecord :=
  mkTenantRecord (tr_ID r) (tr_Name r) (tr_Namespace r) (tr_Config r) (tr_ResourceQuotas r) (ProjectID d)
    (ConnectionURI d) (Region d) (tr_DBSchemaVersion r) (tr_CreatedAt r) (tr_UpdatedAt r).

(** ** The manager *)

Section manager.
Context {W : Type} `{Hrepo : TenantRepository W}.

Definition tenant_required : error := ErrWrapf "tenantID is required" (ErrSentinel ErrInvalidConfig).

(** A failing invalidation is only logged. *)
Definition drop_tenant (tm : TenantManager W) (id : string) (w : W) : W :=
  match tm_cache tm with None => w | Some c => (tc_Invalidate c id w).2 end.

Definition updateDatabaseInfo (tm : TenantManager W) (id : string) (d : TenantDatabase) (w : W) : res unit * W :=
  match GetByID id w with
  | (Err e, w) => (Err (ErrWrapf "get tenant for db info update" e), w)
  | (Panic m, w) => (Panic m, w)
  | (Ok record, w) =>
      match Update (with_database record d) w with
      | (Err e, w) => (Err (ErrWrapf "update tenant db info" e), w)
      | (Panic m, w) => (Panic m, w)
      | (Ok _, w) => (Ok tt, drop_tenant tm id w)
      end
  end.

Definition input_errors (name namespace : string) : list ValidationError :=
  missing (bool_decide (name = "")) "name" "required" ++ missing (bool_decide (namespace = "")) "namespace" "required".

Definition new_record (name namespace : string) (quotas : ResourceQuotas) : TenantRecord :=
  mkTenantRecord "" name namespace (RawDoc (JObj [])) (quotas_json (default_quotas quotas)) "" "" "" 0 zero_time zero_time.

(** The database of a new tenant; failures are only logged. *)
Definition provision (tm : TenantManager W) (t : Tenant) (w : W) : res Tenant * W :=
  match tm_provisioner tm with
  | None => (Ok t, w)
  | Some p =>
      match dp_ProvisionDatabase p (t_ID t) (t_Name t) w with
      | (Err _, w) => (Ok t, w)
      | (Panic m, w) => (Panic m, w)
      | (Ok d, w) =>
          let t := mkTenant (t_ID t) (t_Name t) (t_Namespace t) (t_Quotas t) (t_Status t) (ProjectID d) (Region d)
                     (t_DBSchemaVersion t) (t_CreatedAt t) (t_UpdatedAt t) in
          match updateDatabaseInfo tm (t_ID t) d w with
          | (Panic m, w) => (Panic m, w)
          | (_, w) => (Ok t, w)
          end
      end
  end.

Definition CreateTenant (tm : TenantManager W) (name namespace : string) (quotas : ResourceQuotas) (w : W) : res Tenant * W :=
  match input_errors name namespace with
  | v :: vs => (Err (ErrValidations v vs), w)
  | [] =>
      match Create (new_record name namespace quotas) w with
      | (Err e, w) => (Err (ErrWrapf "failed to create tenant" e), w)
      | (Panic m, w) => (Panic m, w)
      | (Ok created, w) => provision tm (recordToTenant created) w
      end
  end.

(** The cache; a failing cache reads as a miss. *)
Definition cached_tenant (tm : TenantManager W) (id : string) (w : W) : option Tenant * W :=
  match tm_cache tm with
  | None => (None, w)
  | Some c => match tc_Get c id w with
              | (inr found, w) => (found, w)
              | (inl _, w) => (None, w)
              end
  end.

Definition GetTenant (tm : TenantManager W) (id : string) (w : W) : res Tenant * W :=
  if bool_decide (id = "") then (Err tenant_required, w)
  else match cached_tenant tm id w with
       | (Some t, w) => (Ok t, w)
       | (None, w) =>
           match GetByID id w with
           | (Err e, w) => (Err (ErrWrapf ("failed to get tenant " +:+ id) e), w)
           | (Panic m, w) => (Panic m, w)
           | (Ok record, w) =>
               let t := recordToTenant record in
               (Ok t, match tm_cache tm with None => w | Some c => (tc_Set c id t w).2 end)
           end
       end.

Definition UpdateQuotas (tm : TenantManager W) (id : string) (quotas : ResourceQuotas) (w : W) : res unit * W :=
  if bool_decide (id = "") then (Err tenant_required, w)
  else match GetByID id w with
       | (Err e, w) => (Err (ErrWrapf ("failed to get tenant " +:+ id +:+ " for quota update") e), w)
       | (Panic m, w) => (Panic m, w)
       | (Ok record, w) =>
           match Update (with_quotas record (quotas_json quotas)) w with
           | (Err e, w) => (Err (ErrWrapf ("failed to update tenant " +:+ id +:+ " quotas") e), w)
           | (Panic m, w) => (Panic m, w)
           | (Ok _, w) => (Ok tt, drop_tenant tm id w)
           end
       end.

(** One case of the switch: the usage is counted and compared with the limit. *)
Definition check_usage (count : res Z * W) (limit : Z) (counting : string) (reached : error) : res unit * W :=
  match count with
  | (Err e, w) => (Err (ErrWrapf counting e), w)
  | (Panic m, w) => (Panic m, w)
  | (Ok n, w) => (if limit <=? n then Err reached else Ok tt, w)
  end.

Definition limit_reached (id what : string) (limit : Z) (unit : string) : error :=
  ErrWrapf ("tenant " +:+ id +:+ " has reached the " +:+ what +:+ " (" +:+ pretty limit +:+ unit +:+ ")") (ErrSentinel ErrRateLimited).

Definition CheckQuota (tm : TenantManager W) (id resource : string) (w : W) : res unit * W :=
  if bool_decide (id = "") then (Err tenant_required, w)
  else match GetTenant tm id w with
  | (Err e, w) => (Err (ErrWrapf "failed to check quota" e), w)
  | (Panic m, w) => (Panic m, w)
  | (Ok t, w) =>
      let q := t_Quotas t in
      if negb (bool_decide (t_Status t = StatusActive))
      then (Err (ErrWrapf ("tenant " +:+ id +:+ " is " +:+ t_Status t) (ErrSentinel ErrForbidden)), w)
      else if bool_decide (resource = "connectors") then
        check_usage (CountConnectors id w) (MaxConnectors q) ("failed to count connectors for tenant " +:+ id)
          (limit_reached id "maximum number of connectors" (MaxConnectors q) "")
      else if bool_decide (resource = "syncs") then
        check_usage (CountSyncs id w) (MaxSyncs q) ("failed to count syncs for tenant " +:+ id)
          (limit_reached id "maximum number of syncs" (MaxSyncs q) "")
      else if bool_decide (resource = "records") then
        check_usage (GetMonthlyRecordCount id w) (MaxRecordsPerMonth q) ("failed to get monthly record count for tenant " +:+ id)
          (limit_reached id "monthly record limit" (MaxRecordsPerMonth q) "")
      else if bool_decide (resource = "storage") then
        check_usage (GetStorageBytes id w) (MaxStorageBytes q) ("failed to get storage usage for tenant " +:+ id)
          (limit_reached id "storage limit" (MaxStorageBytes q) " bytes")
      else (Err (ErrText ("unknown resource type " +:+ quote resource)), w)
  end.
End manager.
End records.

Definition TemporalNamespace (tenantID : string) : string := "tenant-" +:+ tenantID.
Definition S3Prefix (tenantID : string) : string := "tenants/" +:+ tenantID +:+ "/".
Definition RedisKeyPrefix (tenantID purpose : string) : string := "flowforge:" +:+ tenantID +:+ ":" +:+ purpose +:+ ":".

(** ** What the manager promises *)

(** [tenants], [kept] and [used] are the repository's records, the cache's entries and the usage of each
    resource.  The repository gives new records an id of their own and may set the times of a record it
    stores; the cache may lose entries at any time.  A cache call that fails may have done nothing: an
    entry survives a failed [Invalidate], and one that [Set] should replace survives a failed [Set]. *)
Class TenantLaws (W : Type) `{TenantRepository W} (tc : option (TenantCache W)) (dp : option (DatabaseProvisioner W)) := {
  tenants : W → gmap string TenantRecord;
  kept : W → gmap string Tenant;
  used : string → string → W → Z;
  no_cache w : tc = None → kept w = ∅;
  record_id w id r : tenants w !! id = Some r → tr_ID r = id;
  get_law id w r w' : GetByID id w = (r, w') →
    tenants w' = tenants w ∧ kept w' ⊆ kept w ∧ match r with Ok rec => tenants w !! id = Some rec | _ => True end;
  create_law rec w r w' : Create rec w = (r, w') →
    kept w' ⊆ kept w ∧
    match r with
    | Ok c => tr_ResourceQuotas c = tr_ResourceQuotas rec ∧ tenants w !! tr_ID c = None ∧ tenants w' = <[tr_ID c := c]> (tenants w)
    | _ => tenants w' = tenants w
    end;
  update_law rec w r w' : Update rec w = (r, w') →
    kept w' ⊆ kept w ∧
    match r with
    | Ok _ => ∃ rec', tr_ResourceQuotas rec' = tr_ResourceQuotas rec ∧ tenants w' = <[tr_ID rec := rec']> (tenants w)
    | _ => tenants w' = tenants w
    end;
  count_law resource count : In (resource, count)
      [("connectors", CountConnectors); ("syncs", CountSyncs); ("records", GetMonthlyRecordCount); ("storage", GetStorageBytes)] →
    ∀ id w r w', count id w = (r, w') →
    tenants w' = tenants w ∧ kept w' ⊆ kept w ∧ match r with Ok n => n = used resource id w' | _ => True end;
  cache_get_law c id w r w' : tc = Some c → tc_Get c id w = (r, w') →
    tenants w' = tenants w ∧ kept w' ⊆ kept w ∧ match r with inr (Some t) => kept w !! id = Some t | _ => True end;
  cache_set_law c id t w r w' : tc = Some c → tc_Set c id t w = (r, w') →
    tenants w' = tenants w ∧ ∀ j x, kept w' !! j = Some x → kept w !! j = Some x ∨ (j = id ∧ x = t);
  cache_drop_law c id w r w' : tc = Some c → tc_Invalidate c id w = (r, w') →
    tenants w' = tenants w ∧ kept w' ⊆ match r with None => delete id (kept w) | Some _ => kept w end;
  provision_law p id name w r w' : dp = Some p → dp_ProvisionDatabase p id name w = (r, w') →
    tenants w' = tenants w ∧ kept w' ⊆ kept w
}.

Definition quota_of (resource : string) (q : ResourceQuotas) : option Z :=
  if bool_decide (resource = "connectors") then Some (MaxConnectors q)
  else if bool_decide (resource = "syncs") then Some (MaxSyncs q)
  else if bool_decide (resource = "records") then Some (MaxRecordsPerMonth q)
  else if bool_decide (resource = "storage") then Some (MaxStorageBytes q) else None.

Definition quotas_in_range (q : ResourceQuotas) : Prop :=
  in_i64 (MaxConnectors q) ∧ in_i64 (MaxSyncs q) ∧ in_i64 (MaxRecordsPerMonth q) ∧ in_i64 (MaxStorageBytes q).

Lemma record_quotas_json type_error q : quotas_in_range q → record_quotas type_error (quotas_json q) = q.
Proof.
  intros (H1 & H2 & H3 & H4). destruct q as [a b c d]. cbn [MaxConnectors MaxSyncs MaxRecordsPerMonth MaxStorageBytes] in *.
  unfold record_quotas, quotas_json. cbn [struct_member foldl quotas_member MaxConnectors MaxSyncs MaxRecordsPerMonth MaxStorageBytes].
  match_keys. rewrite int_decode by done. cbn [quotas_member MaxConnectors MaxSyncs MaxRecordsPerMonth MaxStorageBytes].
  match_keys. rewrite int_decode by done. cbn [quotas_member MaxConnectors MaxSyncs MaxRecordsPerMonth MaxStorageBytes].
  match_keys. rewrite int_decode by done. cbn [quotas_member MaxConnectors MaxSyncs MaxRecordsPerMonth MaxStorageBytes].
  match_keys. by rewrite int_decode by done.
Qed.

Lemma default_quotas_positive q :
  0 < MaxConnectors (default_quotas q) ∧ 0 < MaxSyncs (default_quotas q) ∧
  0 < MaxRecordsPerMonth (default_quotas q) ∧ 0 < MaxStorageBytes (default_quotas q).
Proof.
  unfold default_quotas, positive_or. cbn.
  repeat match goal with |- context [?a <=? 0] => destruct (Z.leb_spec a 0) end; lia.
Qed.

Lemma default_quotas_range q : quotas_in_range q → quotas_in_range (default_quotas q).
Proof.
  unfold quotas_in_range, in_i64, int64_min, int64_max, default_quotas, positive_or. cbn.
  intros (? & ? & ? & ?). repeat match goal with |- context [?a <=? 0] => destruct (Z.leb_spec a 0) end; lia.
Qed.

Lemma drop_tenant_cases {W} (tm : TenantManager W) id w :
  (tm_cache tm = None ∧ drop_tenant tm id w = w) ∨
  ∃ c, tm_cache tm = Some c ∧ drop_tenant tm id w = (tc_Invalidate c id w).2.
Proof. unfold drop_tenant. destruct (tm_cache tm) as [c|]; [right; by exists c|by left]. Qed.

Section correctness.
Context (type_error : string → json → error) {W : Type} `{Hrepo : TenantRepository W}.
Context (tm : TenantManager W) `{!TenantLaws W (tm_cache tm) (tm_provisioner tm)}.

Abbreviation recs := (tenants (tc := tm_cache tm) (dp := tm_provisioner tm)).
Abbreviation entries := (kept (tc := tm_cache tm) (dp := tm_provisioner tm)).
Abbreviation usage := (used (tc := tm_cache tm) (dp := tm_provisioner tm)).

(** The quotas of the records. *)
Definition quotas_of (w : W) : gmap string ResourceQuotas :=
  (λ rec, record_quotas type_error (tr_ResourceQuotas rec)) <$> recs w.

(** The quotas a tenant may be held to: the newest first, then those set before it whose cache entries have
    not been invalidated for certain. *)
Abbreviation versions := (gmap string (list ResourceQuotas)).
Definition versions_of (m : versions) (id : string) : list ResourceQuotas := default [] (m !! id).

(** The records hold the newest ones, and every cached tenant is active and has some. *)
Definition holds (m : versions) (w : W) : Prop := ∀ id, quotas_of w !! id = head (versions_of m id).
Definition may_be (m : versions) (id : string) (t : Tenant) : Prop := t_Status t = StatusActive ∧ t_Quotas t ∈ versions_of m id.
Definition coherent (m : versions) (w : W) : Prop := ∀ id t, entries w !! id = Some t → may_be m id t.
Definition stands (m : versions) (w : W) : Prop := coherent m w ∧ holds m w.

Lemma stands_shrink m w w' : recs w' = recs w → entries w' ⊆ entries w → stands m w → stands m w'.
Proof.
  intros Ht Hk [Hc Hh]. split; [|intros id; unfold quotas_of; rewrite Ht; apply Hh].
  intros id t Hid. apply Hc. by eapply lookup_weaken.
Qed.

Lemma cached_tenant_spec m id w r w' :
  cached_tenant tm id w = (r, w') → stands m w → stands m w' ∧ from_option (may_be m id) True r.
Proof.
  unfold cached_tenant. intros Hl Hst.
  destruct (option_cases (tm_cache tm)) as [Hc|[c Hc]]; rewrite Hc in Hl; [by injection Hl as <- <-|].
  destruct (tc_Get c id w) as [r0 w0] eqn:Hg.
  pose proof (cache_get_law (tc := tm_cache tm) (dp := tm_provisioner tm) _ _ _ _ _ Hc Hg) as (Hs & Hk & Hr).
  assert (Hw : w' = w0) by (by destruct r0; injection Hl). subst w0.
  split; [by eapply stands_shrink|]. destruct r as [t|]; [|done].
  destruct r0 as [e|found]; [done|]. injection Hl as ->. by apply Hst.
Qed.

Lemma GetTenant_spec m id w r w' :
  GetTenant type_error tm id w = (r, w') → stands m w →
  stands m w' ∧ match r with Ok t => may_be m id t | _ => True end.
Proof.
  unfold GetTenant. case_bool_decide; [by intros [= <- <-]|]. intros Hg Hst.
  destruct (cached_tenant tm id w) as [r0 w0] eqn:H0. apply (cached_tenant_spec m) in H0 as (Hst0 & Hr0); [|done].
  destruct r0 as [t|]; [by injection Hg as <- <-|].
  destruct (GetByID id w0) as [r1 w1] eqn:H1.
  pose proof (get_law (tc := tm_cache tm) (dp := tm_provisioner tm) _ _ _ _ H1) as (Hs1 & Hk1 & Hr1).
  assert (Hst1 : stands m w1) by (by eapply stands_shrink).
  destruct r1 as [rec|e|p]; [|injection Hg as <- <-; by split..].
  injection Hg as <- Hw.
  assert (Hread : may_be m id (recordToTenant type_error rec)).
  { split; [done|]. destruct Hst0 as [_ Hh]. specialize (Hh id). unfold quotas_of in Hh. rewrite lookup_fmap, Hr1 in Hh.
    destruct (versions_of m id) as [|q qs]; [done|]. injection Hh as <-. apply list_elem_of_here. }
  split; [|done].
  destruct (option_cases (tm_cache tm)) as [Hc|[c Hc]]; rewrite Hc in Hw; subst w'; [done|].
  destruct (tc_Set c id _ w1) as [r2 w2] eqn:H2. cbn [snd].
  pose proof (cache_set_law (tc := tm_cache tm) (dp := tm_provisioner tm) _ _ _ _ _ _ Hc H2) as (Hs2 & Hk2). destruct Hst1 as [Hc1 Hh1].
  split; [|intros j; unfold quotas_of; rewrite Hs2; apply Hh1].
  intros j t [Hj|[-> ->]]%Hk2; [by apply Hc1|done].
Qed.

(** The counting method of a resource. *)
Definition counting (resource : string) : option (string → W → res Z * W) :=
  if bool_decide (resource = "connectors") then Some CountConnectors
  else if bool_decide (resource = "syncs") then Some CountSyncs
  else if bool_decide (resource = "records") then Some GetMonthlyRecordCount
  else if bool_decide (resource = "storage") then Some GetStorageBytes else None.

Lemma counting_law resource count id w r w' :
  counting resource = Some count → count id w = (r, w') →
  recs w' = recs w ∧ entries w' ⊆ entries w ∧ match r with Ok n => n = usage resource id w' | _ => True end.
Proof.
  intros Hc. eapply (count_law (tc := tm_cache tm) (dp := tm_provisioner tm)). revert Hc. unfold counting.
  repeat case_bool_decide; subst; intros [= <-]; clear; cbn; tauto.
Qed.

Lemma check_usage_eq count limit counting_failed reached (w w' : W) r :
  check_usage (count, w) limit counting_failed reached = (r, w') →
  w' = w ∧ match count with
           | Ok n => r = if limit <=? n then Err reached else Ok tt
           | _ => r ≠ Ok tt
           end.
Proof. unfold check_usage. by destruct count; intros [= <- <-]. Qed.

(** [CheckQuota] after the tenant was read. *)
Lemma CheckQuota_active id resource w t w1 r w' :
  GetTenant type_error tm id w = (Ok t, w1) → t_Status t = StatusActive → id ≠ "" →
  CheckQuota type_error tm id resource w = (r, w') →
  match counting resource, quota_of resource (t_Quotas t) with
  | Some count, Some limit => ∃ n, count id w1 = (n, w') ∧
      match n with
      | Ok n => (r = Ok tt ↔ n < limit) ∧ (limit ≤ n → ∃ what unit, r = Err (limit_reached id what limit unit))
      | _ => r ≠ Ok tt
      end
  | _, _ => r = Err (ErrText ("unknown resource type " +:+ quote resource)) ∧ w' = w1
  end.
Proof.
  intros Hg Ha Hid. unfold CheckQuota. rewrite Hg, bool_decide_eq_false_2 by done. cbn beta zeta iota.
  rewrite Ha, (bool_decide_eq_true_2 (StatusActive = StatusActive)) by done. cbn [negb].
  unfold counting, quota_of.
  assert (Hone : ∀ count limit what unit failed, check_usage (count id w1) limit failed (limit_reached id what limit unit) = (r, w') →
    ∃ n, count id w1 = (n, w') ∧
      match n with
      | Ok n => (r = Ok tt ↔ n < limit) ∧ (limit ≤ n → ∃ what unit, r = Err (limit_reached id what limit unit))
      | _ => r ≠ Ok tt
      end).
  { intros count limit what unit failed. destruct (count id w1) as [n w2]. intros [-> Hr]%check_usage_eq.
    exists n. split; [done|]. destruct n as [n| |]; [|done..]. subst r.
    destruct (Z.leb_spec limit n); split; [|eauto| |lia]; split; done || lia. }
  repeat (case_bool_decide; [apply Hone|]). by intros [= <- <-].
Qed.

Lemma CheckQuota_spec m id resource w r w' :
  stands m w → CheckQuota type_error tm id resource w = (r, w') →
  stands m w' ∧
  (r = Ok tt → ∃ q limit, q ∈ versions_of m id ∧ quota_of resource q = Some limit ∧ usage resource id w' < limit).
Proof.
  intros Hco Hq. destruct (decide (id = "")) as [->|Hid].
  { unfold CheckQuota in Hq. rewrite bool_decide_eq_true_2 in Hq by done. by injection Hq as <- <-. }
  destruct (GetTenant type_error tm id w) as [r1 w1] eqn:Hg.
  pose proof (GetTenant_spec m _ _ _ _ Hg Hco) as (Hco1 & Hr1).
  destruct r1 as [t|e|p].
  2,3: unfold CheckQuota in Hq; rewrite bool_decide_eq_false_2, Hg in Hq by done; by injection Hq as <- <-.
  destruct Hr1 as (Ha & Hqs).
  pose proof (CheckQuota_active _ _ _ _ _ _ _ Hg Ha Hid Hq) as Hc.
  destruct (counting resource) as [count|] eqn:Hcount; [|destruct Hc as [-> ->]; by split_and!].
  destruct (quota_of resource (t_Quotas t)) as [limit|] eqn:Hlim; [|destruct Hc as [-> ->]; by split_and!].
  destruct Hc as (n & Hn & Hc).
  pose proof (counting_law _ _ _ _ _ _ Hcount Hn) as (Hs2 & Hk2 & Hu).
  split; [by eapply stands_shrink|]. intros ->.
  exists (t_Quotas t), limit. split_and!; [done|done|].
  destruct n as [n| |]; [|done..]. rewrite <- Hu. by apply Hc.
Qed.

Lemma quota_versions_insert m id l j : versions_of (<[id := l]> m) j = if bool_decide (j = id) then l else versions_of m j.
Proof. unfold versions_of. case_bool_decide as Hj; [subst; by rewrite lookup_insert_eq|by rewrite lookup_insert_ne]. Qed.

(** Whether the cache cannot be invalidated. *)
Definition drop_fails (id : string) (w : W) : bool :=
  match tm_cache tm with Some c => bool_decide (is_Some (tc_Invalidate c id w).1) | None => false end.

Lemma drop_tenant_spec id w :
  recs (drop_tenant tm id w) = recs w ∧
  entries (drop_tenant tm id w) ⊆ (if drop_fails id w then entries w else delete id (entries w)).
Proof.
  destruct (drop_tenant_cases tm id w) as [[Hc ->]|(c & Hc & ->)].
  - split; [done|]. rewrite no_cache by done. apply map_empty_subseteq.
  - assert (Hf : drop_fails id w = bool_decide (is_Some (tc_Invalidate c id w).1)) by (unfold drop_fails; by rewrite Hc).
    rewrite Hf. destruct (tc_Invalidate c id w) as [r w'] eqn:H. cbn [fst snd].
    pose proof (cache_drop_law (tc := tm_cache tm) (dp := tm_provisioner tm) _ _ _ _ _ Hc H) as (Hs & Hk).
    split; [done|]. by destruct r.
Qed.

Lemma drop_tenant_stands m id w : stands m w → stands m (drop_tenant tm id w).
Proof.
  destruct (drop_tenant_spec id w) as [Hs Hk]. apply stands_shrink; [done|]. etrans; [exact Hk|].
  destruct (drop_fails id w); [done|apply delete_subseteq].
Qed.

(** Whether an update that stores its quotas leaves the entry of the cache. *)
Definition left_in_cache (id : string) (q : ResourceQuotas) (w : W) : bool :=
  match GetByID id w with
  | (Ok record, w) =>
      match Update (with_quotas record (quotas_json q)) w with (Ok _, w) => drop_fails id w | _ => false end
  | _ => false
  end.

(** What an update makes of the versions. *)
Definition update_version (m : versions) (id : string) (q : ResourceQuotas) (r : res unit) (inv_failed : bool) : versions :=
  match r with
  | Ok _ => <[id := q :: if inv_failed then versions_of m id else []]> m
  | _ => m
  end.

Lemma UpdateQuotas_spec m id q w r w' :
  UpdateQuotas tm id q w = (r, w') → stands m w → quotas_in_range q →
  stands (update_version m id q r (left_in_cache id q w)) w'.
Proof.
  unfold UpdateQuotas, left_in_cache. case_bool_decide as Hid; [by intros [= <- <-]|]. intros Hu Hst Hq.
  destruct (GetByID id w) as [r1 w1] eqn:H1.
  pose proof (get_law (tc := tm_cache tm) (dp := tm_provisioner tm) _ _ _ _ H1) as (Hs1 & Hk1 & Hr1).
  assert (Hst1 : stands m w1) by (by eapply stands_shrink).
  destruct r1 as [rec|e|p]; [|by injection Hu as <- <-..].
  destruct (Update _ w1) as [r2 w2] eqn:H2.
  pose proof (update_law (tc := tm_cache tm) (dp := tm_provisioner tm) _ _ _ _ H2) as (Hk2 & Hs2).
  destruct r2 as [u|e|p]; [|injection Hu as <- <-; by eapply stands_shrink..].
  injection Hu as <- <-. destruct Hs2 as (rec' & Hquo & Hs2). destruct (drop_tenant_spec id w2) as [Hs3 Hk3].
  cbn [tr_ID with_quotas] in Hs2. rewrite (record_id (tc := tm_cache tm) (dp := tm_provisioner tm) _ _ _ Hr1) in Hs2.
  destruct Hst1 as [Hc1 Hh1]. cbn [update_version]. split.
  - intros j t Hj. eapply lookup_weaken in Hj; [|exact Hk3]. unfold may_be. rewrite quota_versions_insert. case_bool_decide as Hji; [subst j|].
    + destruct (drop_fails id w2); [|by rewrite lookup_delete_eq in Hj].
      destruct (Hc1 id t) as [Ha Hin]; [by eapply lookup_weaken|]. split; [done|by apply list_elem_of_further].
    + apply Hc1. eapply lookup_weaken; [|exact Hk2]. destruct (drop_fails id w2); [done|]. by rewrite lookup_delete_ne in Hj.
  - intros j. rewrite quota_versions_insert. unfold quotas_of. rewrite Hs3, Hs2, lookup_fmap. case_bool_decide as Hji; [subst j|].
    + rewrite lookup_insert_eq. cbn. rewrite Hquo. cbn [tr_ResourceQuotas with_quotas]. by rewrite record_quotas_json.
    + rewrite lookup_insert_ne, <- lookup_fmap by done. apply Hh1.
Qed.

(** *** Creating tenants *)

(** The record of a database keeps the quotas. *)
Lemma updateDatabaseInfo_spec m id d w r w' : updateDatabaseInfo tm id d w = (r, w') → stands m w → stands m w'.
Proof.
  unfold updateDatabaseInfo. intros Hu Hst.
  destruct (GetByID id w) as [r1 w1] eqn:H1.
  pose proof (get_law (tc := tm_cache tm) (dp := tm_provisioner tm) _ _ _ _ H1) as (Hs1 & Hk1 & Hr1).
  assert (Hst1 : stands m w1) by (by eapply stands_shrink).
  destruct r1 as [rec|e|p]; [|by injection Hu as <- <-..].
  destruct (Update _ w1) as [r2 w2] eqn:H2.
  pose proof (update_law (tc := tm_cache tm) (dp := tm_provisioner tm) _ _ _ _ H2) as (Hk2 & Hs2).
  destruct r2 as [u|e|p]; [|injection Hu as <- <-; by eapply stands_shrink..].
  injection Hu as <- <-. apply drop_tenant_stands. destruct Hs2 as (rec' & Hquo & Hs2).
  cbn [tr_ID with_database] in Hs2. rewrite (record_id (tc := tm_cache tm) (dp := tm_provisioner tm) _ _ _ Hr1) in Hs2.
  destruct Hst1 as [Hc1 Hh1]. split; [intros j t Hj; apply Hc1; by eapply lookup_weaken|].
  intros j. rewrite <- Hh1. unfold quotas_of. rewrite Hs2, !lookup_fmap. destruct (decide (j = id)) as [->|Hne].
  - rewrite lookup_insert_eq, Hs1, Hr1. cbn. by rewrite Hquo.
  - by rewrite lookup_insert_ne.
Qed.

Lemma provision_spec m t w r w' : provision tm t w = (r, w') → stands m w → stands m w'.
Proof.
  unfold provision. intros Hp Hst.
  destruct (option_cases (tm_provisioner tm)) as [Hd|[p Hd]]; rewrite Hd in Hp; [by injection Hp as <- <-|].
  destruct (dp_ProvisionDatabase p _ _ w) as [r1 w1] eqn:H1.
  pose proof (provision_law (tc := tm_cache tm) (dp := tm_provisioner tm) _ _ _ _ _ _ Hd H1) as (Hs1 & Hk1).
  assert (Hst1 : stands m w1) by (by eapply stands_shrink).
  destruct r1 as [d|e|x]; [|by injection Hp as <- <-..].
  cbn [t_ID] in Hp.
  destruct (updateDatabaseInfo tm (t_ID t) d w1) as [r2 w2] eqn:H2. apply (updateDatabaseInfo_spec m) in H2; [|done].
  by destruct r2; injection Hp as <- <-.
Qed.

(** The id of the record that a creation makes. *)
Definition created_id (name namespace : string) (q : ResourceQuotas) (w : W) : option string :=
  match input_errors name namespace, Create (new_record name namespace q) w with
  | [], (Ok c, _) => Some (tr_ID c)
  | _, _ => None
  end.

Definition create_version (m : versions) (q : ResourceQuotas) (made : option string) : versions :=
  match made with Some id => <[id := [default_quotas q]]> m | None => m end.

Lemma CreateTenant_stands m name namespace q w r w' :
  CreateTenant type_error tm name namespace q w = (r, w') → stands m w → quotas_in_range q →
  stands (create_version m q (created_id name namespace q w)) w'.
Proof.
  unfold CreateTenant, created_id. intros Hc Hst Hq. destruct (input_errors name namespace); [|by injection Hc as <- <-].
  destruct (Create _ w) as [r1 w1] eqn:H1.
  pose proof (create_law (tc := tm_cache tm) (dp := tm_provisioner tm) _ _ _ _ H1) as (Hk1 & Hs1).
  destruct r1 as [c|e|p]; [|injection Hc as <- <-; by eapply stands_shrink..].
  destruct Hs1 as (Hquo & Hnew & Hs1). eapply provision_spec; [exact Hc|]. destruct Hst as [Hc0 Hh0].
  assert (Hnone : versions_of m (tr_ID c) = []).
  { specialize (Hh0 (tr_ID c)). unfold quotas_of in Hh0. rewrite lookup_fmap, Hnew in Hh0. by destruct (versions_of m (tr_ID c)). }
  cbn [create_version]. split.
  - intros j t Hj. eapply lookup_weaken in Hj; [|exact Hk1]. destruct (Hc0 j t Hj) as [Ha Hin].
    split; [done|]. rewrite quota_versions_insert. case_bool_decide as Hji; [|done]. subst j. rewrite Hnone in Hin. by apply not_elem_of_nil in Hin.
  - intros j. rewrite quota_versions_insert. unfold quotas_of. rewrite Hs1, lookup_fmap. case_bool_decide as Hji; [subst j|].
    + rewrite lookup_insert_eq. cbn. rewrite Hquo. cbn [tr_ResourceQuotas new_record].
      by rewrite record_quotas_json by (by apply default_quotas_range).
    + rewrite lookup_insert_ne, <- lookup_fmap by done. apply Hh0.
Qed.

(** *** Calls one after the other *)

Inductive op :=
| OpCreate (name namespace : string) (q : ResourceQuotas)
| OpGet (id : string)
| OpCheck (id resource : string)
| OpUpdate (id : string) (q : ResourceQuotas).

(** [made]: the id of the record that was made; [inv_failed]: the cache reported that it could not invalidate the entry. *)
Inductive call_event :=
| Created (q : ResourceQuotas) (made : option string)
| Checked (id resource : string) (r : res unit) (usage_then : Z)
| Updated (id : string) (q : ResourceQuotas) (r : res unit) (inv_failed : bool).

Fixpoint execute (ops : list op) (w : W) : list call_event * W :=
  match ops with
  | [] => ([], w)
  | OpCreate name namespace q :: ops =>
      let made := created_id name namespace q w in
      let '(_, w) := CreateTenant type_error tm name namespace q w in
      let '(es, w') := execute ops w in (Created q made :: es, w')
  | OpGet id :: ops => let '(_, w) := GetTenant type_error tm id w in execute ops w
  | OpCheck id resource :: ops =>
      let '(r, w) := CheckQuota type_error tm id resource w in
      let '(es, w') := execute ops w in (Checked id resource r (usage resource id w) :: es, w')
  | OpUpdate id q :: ops =>
      let inv_failed := left_in_cache id q w in
      let '(r, w) := UpdateQuotas tm id q w in
      let '(es, w') := execute ops w in (Updated id q r inv_failed :: es, w')
  end.

(** The specification: a map of quotas that creations and successful updates write; a check passes only below a
    limit of the map.  An update that could not invalidate the cache leaves the older quotas beside its own. *)
Fixpoint respects (m : versions) (es : list call_event) : Prop :=
  match es with
  | [] => True
  | Created q made :: es => respects (create_version m q made) es
  | Checked id resource r n :: es =>
      (r = Ok tt → ∃ q limit, q ∈ versions_of m id ∧ quota_of resource q = Some limit ∧ n < limit) ∧ respects m es
  | Updated id q r inv_failed :: es => respects (update_version m id q r inv_failed) es
  end.

Definition op_in_range (o : op) : Prop :=
  match o with OpUpdate _ q | OpCreate _ _ q => quotas_in_range q | _ => True end.

(** C14: quotas are enforced.  Whatever calls of the manager came before, one after the other, [CheckQuota] lets
    a request pass only when the usage of a known resource is below the limit of the quotas last set, by creation
    or update, whether they come from the cache or the store.  Where the cache could not be invalidated after an
    update, which the manager only logs, a limit set before may still apply, back to the last update whose
    invalidation worked. *)
Theorem quotas_enforced ops w m :
  stands m w → Forall op_in_range ops → respects m (execute ops w).1.
Proof.
  intros Hco Hops. revert w m Hco.
  induction Hops as [|[name ns q|id|id resource|id q] ops Hop Hops IH]; intros w m Hco; cbn [execute]; [done|..].
  - destruct (CreateTenant type_error tm name ns q w) as [r w1] eqn:Hg. apply (CreateTenant_stands m) in Hg; [|done..].
    specialize (IH w1 _ Hg). by destruct (execute ops w1) as [es w2].
  - destruct (GetTenant type_error tm id w) as [r w1] eqn:Hg. apply (GetTenant_spec m) in Hg as (Hco1 & _); [|done].
    by apply IH.
  - destruct (CheckQuota type_error tm id resource w) as [r w1] eqn:Hg.
    apply (CheckQuota_spec m) in Hg as (Hco1 & Hr); [|done]. specialize (IH w1 m Hco1).
    by destruct (execute ops w1) as [es w2].
  - destruct (UpdateQuotas tm id q w) as [r w1] eqn:Hg. apply (UpdateQuotas_spec m) in Hg; [|done..].
    specialize (IH w1 _ Hg). by destruct (execute ops w1) as [es w2].
Qed.

(** Suspension is not enforced.  Every tenant the manager returns is active, since records hold no status:
    the check of [CheckQuota] for suspended tenants never refuses one. *)
Theorem tenants_always_active m id w t w' :
  stands m w → GetTenant type_error tm id w = (Ok t, w') → t_Status t = StatusActive.
Proof. intros Hco Hg. by apply (GetTenant_spec m) in Hg as (_ & Ha & _). Qed.
End correctness.

(** Creating a tenant.  With a name and a namespace, a repository that stores the record gives an active tenant
    of that name with the requested quotas, every limit that is not positive replaced by its default, even
    when provisioning the database fails; otherwise nothing is written. *)
Theorem CreateTenant_spec (type_error : string → json → error) {W} `{TenantRepository W} (tm : TenantManager W) name namespace q w r w' :
  (∀ rec w c w', Create rec w = (Ok c, w') → tr_Name c = tr_Name rec ∧ tr_ResourceQuotas c = tr_ResourceQuotas rec) →
  quotas_in_range q →
  CreateTenant type_error tm name namespace q w = (r, w') →
  match r with
  | Ok t => t_Name t = name ∧ t_Status t = StatusActive ∧ t_Quotas t = default_quotas q ∧ name ≠ "" ∧ namespace ≠ ""
  | Err _ => name = "" ∨ namespace = "" ∨ ∃ e, r = Err (ErrWrapf "failed to create tenant" e)
  | Panic _ => True
  end ∧ (name = "" ∨ namespace = "" → w' = w).
Proof.
  intros Hcreate Hq. unfold CreateTenant, input_errors, missing.
  case_bool_decide as Hn; cbn [app]; [intros [= <- <-]; split; [by left|done]|].
  case_bool_decide as Hns; cbn [app]; [intros [= <- <-]; split; [by right; left|done]|].
  destruct (Create _ w) as [[c|e|m] w1] eqn:Hc; [|intros [= <- <-]; (split; [eauto 6|by intros [|]])..].
  apply Hcreate in Hc as [Hname Hquo]. intros Hp. split; [|by intros [|]].
  assert (Hok : ∀ t, r = Ok t → t_Name t = tr_Name c ∧ t_Status t = StatusActive ∧ t_Quotas t = record_quotas type_error (tr_ResourceQuotas c)).
  { intros t ->. unfold provision in Hp. destruct (tm_provisioner tm) as [p|]; [|by simplify_eq].
    destruct (dp_ProvisionDatabase p _ _ w1) as [[d|e|m] w2]; [|by simplify_eq|done].
    destruct (updateDatabaseInfo tm _ d w2) as [[u|e|m] w3]; by simplify_eq. }
  destruct r as [t|e|m]; [|exfalso|done].
  - destruct (Hok t eq_refl) as (-> & -> & ->). rewrite Hname, Hquo. cbn [tr_Name tr_ResourceQuotas new_record].
    rewrite record_quotas_json by (by apply default_quotas_range). done.
  - unfold provision in Hp. destruct (tm_provisioner tm) as [p|]; [|done].
    destruct (dp_ProvisionDatabase p _ _ w1) as [[d|e'|m] w2]; [|done..].
    by destruct (updateDatabaseInfo tm _ d w2) as [[u|e'|m] w3].
Qed.

(** ** A store in memory *)

Record memory := mkMemory {
  m_records : gmap string TenantRecord; m_cached : gmap string Tenant; m_used : gmap (string * string) Z
}.

Definition with_id (r : TenantRecord) (id : string) : TenantRecord :=
  mkTenantRecord id (tr_Name r) (tr_Namespace r) (tr_Config r) (tr_ResourceQuotas r) (tr_NeonProjectID r)
    (tr_ConnectionURIEncrypted r) (tr_Region r) (tr_DBSchemaVersion r) (tr_CreatedAt r) (tr_UpdatedAt r).

#[local] Instance memory_repository : TenantRepository memory := {
  Create r m :=
    match m_records m !! tr_Namespace r with
    | Some _ => (Err (ErrText "duplicate tenant"), m)
    | None => (Ok (with_id r (tr_Namespace r)),
               mkMemory (<[tr_Namespace r := with_id r (tr_Namespace r)]> (m_records m)) (m_cached m) (m_used m))
    end;
  GetByID id m := (match m_records m !! id with Some r => Ok (with_id r id) | None => Err (ErrSentinel ErrNotFound) end, m);
  Update r m := (Ok r, mkMemory (<[tr_ID r := r]> (m_records m)) (m_cached m) (m_used m));
  List _ _ m := (Ok [], m);
  CountConnectors id m := (Ok (default 0 (m_used m !! ("connectors", id))), m);
  CountSyncs id m := (Ok (default 0 (m_used m !! ("syncs", id))), m);
  GetMonthlyRecordCount id m := (Ok (default 0 (m_used m !! ("records", id))), m);
  GetStorageBytes id m := (Ok (default 0 (m_used m !! ("storage", id))), m)
}.

(** A manager whose cache answers an invalidation with [inv] and then removes the entry unless that is an error. *)
Definition memory_manager (inv : option error) : TenantManager memory := mkTenantManager (Some (mkTenantCache
  (λ id m, (inr (m_cached m !! id), m))
  (λ id t m, (None, mkMemory (m_records m) (<[id := t]> (m_cached m)) (m_used m)))
  (λ id m, (inv, match inv with None => mkMemory (m_records m) (delete id (m_cached m)) (m_used m) | Some _ => m end)))) None.

#[local] Instance memory_laws inv : TenantLaws memory (tm_cache (memory_manager inv)) (tm_provisioner (memory_manager inv)).
Proof.
  refine {| tenants m := map_imap (λ id r, Some (with_id r id)) (m_records m); kept := m_cached;
            used resource id m := default 0 (m_used m !! (resource, id)) |}.
  - done.
  - intros m id r Hr. rewrite map_lookup_imap in Hr. destruct (m_records m !! id); [|done]. by injection Hr as <-.
  - intros id m r m' [= <- <-]. rewrite map_lookup_imap. by destruct (m_records m !! id).
  - intros rec m r m' Hr. cbn in Hr. destruct (m_records m !! tr_Namespace rec) eqn:Hn; injection Hr as <- <-; [done|].
    split_and!; [done|done|by rewrite map_lookup_imap; cbn; rewrite Hn|].
    apply map_eq. intros j. cbn [m_records tr_ID with_id]. rewrite map_lookup_imap. destruct (decide (j = tr_Namespace rec)) as [->|Hne].
    + by rewrite !lookup_insert_eq.
    + by rewrite !lookup_insert_ne, map_lookup_imap.
  - intros rec m r m' [= <- <-]. split; [done|]. exists (with_id rec (tr_ID rec)). split; [done|].
    apply map_eq. intros j. cbn [m_records]. rewrite map_lookup_imap. destruct (decide (j = tr_ID rec)) as [->|Hne].
    + by rewrite !lookup_insert_eq.
    + by rewrite !lookup_insert_ne, map_lookup_imap.
  - intros resource count Hin id m r m' Hr. cbn in Hin.
    destruct_or! Hin; injection Hin as <- <-; by injection Hr as <- <-.
  - intros c id m r m' [= <-] [= <- <-]. cbn. split_and!; [done..|]. by destruct (m_cached m !! id) eqn:?.
  - intros c id t m r m' [= <-] [= <- <-]. split; [done|]. cbn. intros j x Hj.
    apply lookup_insert_Some in Hj as [[<- <-]|[_ Hj]]; [by right|by left].
  - intros c id m r m' [= <-] [= <- <-]. by destruct inv.
  - done.
Defined.

Definition small_quotas : ResourceQuotas := mkResourceQuotas 2 0 0 0.
Definition acme_memory : memory :=
  mkMemory {[ "t1" := with_id (new_record "Acme" "acme" zero_quotas) "t1" ]} ∅ {[ ("connectors", "t1") := 2 ]}.
#[local] Abbreviation no_type_error := (λ (field : string) (_ : json), ErrText field).

Definition example_calls : list op :=
  [OpCreate "Beta" "beta" zero_quotas; OpCheck "beta" "syncs"; OpCheck "t1" "connectors"; OpUpdate "t1" small_quotas; OpCheck "t1" "connectors"].

(** With two connectors, the default limit of ten lets the first check pass, the lower limit refuses the second. *)
Example quotas_run :
  (execute no_type_error (memory_manager None) example_calls acme_memory).1
  = [Created zero_quotas (Some "beta");
     Checked "beta" "syncs" (Ok tt) 0;
     Checked "t1" "connectors" (Ok tt) 2;
     Updated "t1" small_quotas (Ok tt) false;
     Checked "t1" "connectors" (Err (limit_reached "t1" "maximum number of connectors" 2 "")) 2].
Proof. vm_compute. reflexivity. Qed.

(** When the cache cannot be invalidated the update succeeds and the limit of ten stays in force. *)
Example quotas_after_failed_invalidation :
  (execute no_type_error (memory_manager (Some (ErrText "redis: connection refused"))) example_calls acme_memory).1
  = [Created zero_quotas (Some "beta");
     Checked "beta" "syncs" (Ok tt) 0;
     Checked "t1" "connectors" (Ok tt) 2;
     Updated "t1" small_quotas (Ok tt) true;
     Checked "t1" "connectors" (Ok tt) 2].
Proof. vm_compute. reflexivity. Qed.

Definition acme_versions : gmap string (list ResourceQuotas) := {[ "t1" := [default_quotas zero_quotas] ]}.

Lemma acme_stands inv : stands no_type_error (memory_manager inv) acme_versions acme_memory.
Proof.
  split; [by intros id t Hid|]. intros id. unfold quotas_of, versions_of, acme_versions. rewrite lookup_fmap.
  cbn [tenants memory_laws acme_memory m_records]. rewrite map_lookup_imap.
  destruct (decide (id = "t1")) as [->|Hne]; [vm_compute; reflexivity|]. by rewrite !lookup_singleton_ne.
Qed.

Lemma quotas_enforced_witness :
  respects acme_versions (execute no_type_error (memory_manager None) example_calls acme_memory).1.
Proof.
  apply (quotas_enforced no_type_error (memory_manager None) example_calls acme_memory acme_versions);
    [apply acme_stands|repeat constructor; by vm_compute].
Defined.

Lemma CreateTenant_spec_witness :
  ∃ t, (CreateTenant no_type_error (memory_manager None) "Acme" "acme" small_quotas acme_memory).1 = Ok t ∧
    t_Quotas t = mkResourceQuotas 2 20 10000000 10737418240.
Proof.
  destruct (CreateTenant no_type_error (memory_manager None) "Acme" "acme" small_quotas acme_memory) as [r w'] eqn:Hc.
  pose proof (CreateTenant_spec no_type_error (memory_manager None) "Acme" "acme" small_quotas acme_memory r w') as Hs.
  assert (Hr : r = (CreateTenant no_type_error (memory_manager None) "Acme" "acme" small_quotas acme_memory).1) by by rewrite Hc.
  vm_compute in Hr. subst r. eexists. split; [reflexivity|].
  refine (proj1 (proj2 (proj2 (proj1 (Hs _ _ Hc))))).
  - intros rec w c w0 Hr. cbn in Hr. destruct (m_records w !! tr_Namespace rec); [done|]. by injection Hr as <- <-.
  - repeat split; by vm_compute.
Defined.

Lemma tenants_always_active_witness :
  ∃ t w', GetTenant no_type_error (memory_manager None) "t1" acme_memory = (Ok t, w') ∧ t_Status t = StatusActive.
Proof.
  eexists _, _. split; [reflexivity|].
  apply (tenants_always_active no_type_error (memory_manager None) acme_versions "t1" acme_memory _ _ (acme_stands None) eq_refl).
Defined.
