(* ===== verification/Files.v ===== *)
(** * Paths and files

    The functions of [path/filepath] the code uses, on Unix, and the file system as a class over a world
    [W] whose files have contents of type [C].  What is not there is told apart from what cannot be read. *)

From Stdlib Require Import Ascii.
From S2P Require Import Prelude GoStrings Errors.

Class FileSystem (C W : Type) := {
  MkdirAll : string → W → option error * W;
  WriteFile : string → C → W → option error * W;
  ReadFile : string → W → res (option C);
  ReadDir : string → W → res (option (list (string * bool)));   (** names, and whether they are directories *)
  Remove : string → W → res bool * W                            (** whether there was one *)
}.

(** A file that was written is read back, one that was removed is not there, and other files are as they
    were, also after a failure. *)
Class FileSystemLaws (C W : Type) `{FileSystem C W} : Prop := {
  read_written path data w w' : WriteFile path data w = (None, w') → ReadFile path w' = Ok (Some data);
  write_frame path data w other : other ≠ path → ReadFile other (WriteFile path data w).2 = ReadFile other w;
  mkdir_frame dir w path : ReadFile path (MkdirAll dir w).2 = ReadFile path w;
  read_removed path w b w' : Remove path w = (Ok b, w') → ReadFile path w' = Ok None;
  remove_frame path w other : other ≠ path → ReadFile other (Remove path w).2 = ReadFile other w
}.

(** ** Paths *)

Definition slash : ascii := "/".

(** Segments are taken one by one; the stack holds the ones kept, the last on top. *)
Definition clean_step (rooted : bool) (stack : list string) (seg : string) : list string :=
  if bool_decide (seg = "") || bool_decide (seg = ".") then stack
  else if bool_decide (seg = "..") then
    match stack with
    | [] => if rooted then [] else [".."]
    | top :: rest => if bool_decide (top = "..") then ".." :: stack else rest
    end
  else seg :: stack.

Definition resolve (rooted : bool) (stack : list string) (segs : list string) : list string := foldl (clean_step rooted) stack segs.

Definition is_rooted (path : string) : bool := HasPrefix path "/".

(** The segments of the cleaned path. *)
Definition segments (path : string) : list string := reverse (resolve (is_rooted path) [] (Split path slash)).

Definition Clean (path : string) : string :=
  if is_rooted path then "/" +:+ Join (segments path) "/"
  else match segments path with [] => "." | segs => Join segs "/" end.

(** [filepath.Join] of two elements. *)
Definition PathJoin (a b : string) : string :=
  if negb (bool_decide (a = "")) then Clean (a +:+ "/" +:+ b)
  else if negb (bool_decide (b = "")) then Clean b else "".

Fixpoint drop_until (c : ascii) (bs : list ascii) : list ascii :=
  match bs with
  | [] => []
  | b :: rest => if Ascii.eqb b c then bs else drop_until c rest
  end.
Definition Dir (path : string) : string := Clean (of_bytes (reverse (drop_until slash (reverse (bytes_of path))))).

(** The last element of a path that is not empty and does not end in a slash. *)
Definition PathBase (path : string) : string := List.last (Split path slash) "".

Example clean_examples :
  map Clean ["a/b/../../c//./d"; "/../a/.."; "../../x"; ""; "a/../.."] = ["c/d"; "/"; "../../x"; "."; ".."].
Proof. reflexivity. Qed.
Example join_examples : (PathJoin "/base" "../etc/x", PathJoin "" "a", PathJoin "b/" "") = ("/etc/x", "a", "b").
Proof. reflexivity. Qed.
Example dir_examples : (Dir "/a/b/c.enc", Dir "c", Dir "/c") = ("/a/b", ".", "/").
Proof. reflexivity. Qed.

(** *** Segments of composed paths *)

Lemma split_bytes_app sep xs ys cur :
  split_bytes sep (xs ++ sep :: ys) cur = split_bytes sep xs cur ++ split_bytes sep ys [].
Proof.
  revert cur. induction xs as [|x xs IH]; intros cur; cbn; [by rewrite decide_True|].
  destruct (decide (x = sep)); cbn; [f_equal|]; apply IH.
Qed.

Lemma Split_sep a (sep : ascii) b : Split (a +:+ String sep b) sep = Split a sep ++ Split b sep.
Proof. unfold Split. rewrite bytes_of_app. apply split_bytes_app. Qed.

Lemma split_bytes_plain sep xs cur : sep ∉ xs → split_bytes sep xs cur = [of_bytes (reverse cur ++ xs)].
Proof.
  revert cur. induction xs as [|x xs IH]; intros cur; cbn; [by rewrite app_nil_r|].
  intros [Hx Hxs]%not_elem_of_cons. rewrite decide_False by congruence. rewrite IH by done.
  by rewrite reverse_cons, <- app_assoc.
Qed.

(** A segment holds no slash. *)
Definition no_slash (s : string) : Prop := slash ∉ bytes_of s.

Lemma Split_plain s : no_slash s → Split s slash = [s].
Proof. intros Hs. unfold Split. rewrite split_bytes_plain by done. cbn. by rewrite of_bytes_of. Qed.

Lemma split_bytes_no_slash xs cur : slash ∉ cur → Forall no_slash (split_bytes slash xs cur).
Proof.
  revert cur. induction xs as [|x xs IH]; intros cur Hcur; cbn.
  - constructor; [|constructor]. unfold no_slash. rewrite bytes_of_bytes. by rewrite elem_of_reverse.
  - destruct (decide (x = slash)).
    + constructor; [unfold no_slash; by rewrite bytes_of_bytes, elem_of_reverse|]. apply IH. apply not_elem_of_nil.
    + apply IH. by apply not_elem_of_cons.
Qed.

Lemma Split_Join_slash segs : Forall no_slash segs → segs ≠ [] → Split (Join segs "/") slash = segs.
Proof.
  induction 1 as [|s segs Hs Hsegs IH]; [done|]. intros _. destruct segs as [|t segs]; [by apply Split_plain|].
  assert (Join (s :: t :: segs) "/" = s +:+ String slash (Join (t :: segs) "/")) as -> by done.
  rewrite Split_sep, Split_plain, IH by done. done.
Qed.

(** A segment that is kept as it is. *)
Definition is_name (s : string) : Prop := s ≠ "" ∧ s ≠ "." ∧ s ≠ "..".

Lemma resolve_names rooted stack segs : Forall is_name segs → resolve rooted stack segs = reverse segs ++ stack.
Proof.
  intros Hs. revert stack. induction Hs as [|s segs (H1 & H2 & H3) _ IH]; intros stack; [done|]. cbn [resolve foldl].
  unfold clean_step at 2. rewrite !bool_decide_eq_false_2 by done. cbn [orb].
  fold (resolve rooted (s :: stack) segs). rewrite IH, reverse_cons, <- app_assoc. done.
Qed.

(** What remains: names on top of the [..] that could not be resolved. *)
Definition resolved (rooted : bool) (stack : list string) : Prop :=
  ∃ names n, stack = names ++ replicate n ".." ∧ Forall is_name names ∧ (rooted = true → n = 0%nat).

Lemma clean_step_resolved rooted stack seg : resolved rooted stack → resolved rooted (clean_step rooted stack seg).
Proof.
  intros (names & n & -> & Hn & Hr). unfold clean_step.
  case_bool_decide as H1; cbn [orb]; [by exists names, n|]. case_bool_decide as H2; cbn [orb]; [by exists names, n|].
  case_bool_decide as H3; [|exists (seg :: names), n; split_and!; [done|by constructor|done]].
  destruct names as [|s names]; cbn [app].
  - destruct n as [|n]; cbn [replicate].
    + destruct rooted; [by exists [], 0%nat|by exists [], 1%nat].
    + rewrite bool_decide_eq_true_2 by done. exists [], (S (S n)). split_and!; [done|done|]. intros Hroot. by specialize (Hr Hroot).
  - inversion Hn as [|? ? (Ha & Hb & Hc) Hns]; subst. rewrite bool_decide_eq_false_2 by done. by exists names, n.
Qed.

Lemma resolve_resolved rooted stack segs : resolved rooted stack → resolved rooted (resolve rooted stack segs).
Proof. revert stack. induction segs as [|s segs IH]; intros stack Hs; [done|]. cbn. by apply IH, clean_step_resolved. Qed.

Lemma resolve_no_slash rooted stack segs :
  Forall no_slash stack → Forall no_slash segs → Forall no_slash (resolve rooted stack segs).
Proof.
  intros Hst Hs. revert stack Hst. induction Hs as [|s segs Hs _ IH]; intros stack Hst; [done|]. cbn. apply IH.
  unfold clean_step. destruct (_ || _); [done|]. case_bool_decide; [|by constructor].
  assert (Hdd : no_slash "..") by (by apply (bool_decide_unpack _)).
  destruct stack as [|t stack]; [destruct rooted; by repeat constructor|].
  case_bool_decide; [by constructor|]. by inversion Hst.
Qed.

Lemma segments_no_slash p : Forall no_slash (segments p).
Proof.
  unfold segments. apply Forall_reverse. apply resolve_no_slash; [constructor|]. apply split_bytes_no_slash, not_elem_of_nil.
Qed.

(** Segments that do not begin with [..] are names. *)
Lemma segments_names p : head (segments p) ≠ Some ".." → Forall is_name (segments p).
Proof.
  unfold segments. destruct (resolve_resolved (is_rooted p) [] (Split p slash)) as (names & n & -> & Hn & _); [by exists [], 0%nat|].
  rewrite reverse_app. destruct n as [|n]; [intros _; rewrite app_nil_l; by apply Forall_reverse|].
  rewrite reverse_replicate. done.
Qed.

Lemma Join_last_app l s e : Join (l ++ [s]) "/" +:+ e = Join (l ++ [s +:+ e]) "/".
Proof.
  induction l as [|t l IH]; [done|].
  assert (Hj : ∀ x, Join ((t :: l) ++ [x]) "/" = t +:+ "/" +:+ Join (l ++ [x]) "/").
  { intros x. unfold Join. cbn [app String.concat]. by destruct l. }
  rewrite !Hj, <- IH. by rewrite !string_app_assoc.
Qed.

(** A path under a rooted directory: cleaned names put below it. *)
Definition below (dir path : string) : Prop :=
  ∃ rest, rest ≠ [] ∧ Forall is_name rest ∧ path = "/" +:+ Join (segments dir ++ rest) "/".

Lemma is_rooted_app a b : is_rooted a = true → is_rooted (a +:+ b) = true.
Proof. unfold is_rooted, HasPrefix. destruct a as [|c a]; [done|]. change (String c a +:+ b) with (String c (a +:+ b)).
  cbn [String.prefix]. destruct (ascii_dec "/" c); [by intros _; destruct (a +:+ b)|done].
Qed.

(** Joining a rooted directory and a path whose segments, apart from empty ones, are names. *)
Lemma PathJoin_below dir p names :
  is_rooted dir = true → names ≠ [] → Forall is_name names →
  (Split p slash = names ∨ Split p slash = "" :: names) → below dir (PathJoin dir p).
Proof.
  intros Hdir Hne Hnames Hp. exists names. split_and!; [done..|].
  unfold PathJoin. rewrite bool_decide_eq_false_2 by (by intros ->). cbn [negb].
  unfold Clean, segments. rewrite is_rooted_app by done. do 2 f_equal.
  change (dir +:+ "/" +:+ p) with (dir +:+ String slash p). rewrite Split_sep.
  unfold resolve. rewrite foldl_app. fold (resolve true [] (Split dir slash)). rewrite Hdir.
  set (st := resolve true [] (Split dir slash)).
  assert (Hfold : foldl (clean_step true) st (Split p slash) = reverse names ++ st).
  { rewrite <- (resolve_names true st names Hnames). unfold resolve. by destruct Hp as [->| ->]. }
  by rewrite Hfold, reverse_app, reverse_involutive.
Qed.

(** The path with an extension that makes its last segment a name. *)
Lemma Split_Clean_ext path ext :
  (∀ s, is_name (s +:+ ext)) → no_slash ext → head (segments path) ≠ Some ".." →
  ∃ names, names ≠ [] ∧ Forall is_name names ∧
    (Split (Clean path +:+ ext) slash = names ∨ Split (Clean path +:+ ext) slash = "" :: names).
Proof.
  intros Hext Hsl Hh. pose proof (segments_names _ Hh) as Hn. pose proof (segments_no_slash path) as Hns.
  assert (Hdot : no_slash ("." +:+ ext)).
  { unfold no_slash. rewrite bytes_of_app. intros [Hin|Hin]%list.elem_of_app; [by apply list_elem_of_singleton in Hin|done]. }
  unfold Clean. destruct (segments path) as [|s0 segs0] eqn:Hseg; clear Hh.
  - exists [(if is_rooted path then "" else ".") +:+ ext]. split_and!; [done|by constructor|].
    destruct (is_rooted path); [right|left; by apply Split_plain].
    change (("/" +:+ Join [] "/") +:+ ext) with ("" +:+ String slash ext). by rewrite Split_sep, (Split_plain ext).
  - destruct (List.exists_last (l := s0 :: segs0)) as (l & x & Hl); [done|]. rewrite Hl in *.
    apply list.Forall_app in Hn as [Hn _]. apply list.Forall_app in Hns as [Hns [Hx _]%list.Forall_cons].
    exists (l ++ [x +:+ ext]). split_and!; [by destruct l|by apply list.Forall_app; split; [|constructor]|].
    assert (Hsp : Split (Join (l ++ [x]) "/" +:+ ext) slash = l ++ [x +:+ ext]).
    { rewrite Join_last_app. apply Split_Join_slash; [|by destruct l]. apply list.Forall_app. split; [done|].
      constructor; [|constructor]. unfold no_slash. rewrite bytes_of_app.
      intros [Hi|Hi]%list.elem_of_app; [by apply Hx|by apply Hsl]. }
    destruct (is_rooted path); [right|left].
    + change (("/" +:+ Join (l ++ [x]) "/") +:+ ext) with ("" +:+ String slash (Join (l ++ [x]) "/" +:+ ext)).
      by rewrite Split_sep, Hsp.
    + rewrite <- Hsp. by destruct l.
Qed.

(** The file for a path that does not climb is below the directory. *)
Lemma PathJoin_ext_below dir path ext :
  is_rooted dir = true → (∀ s, is_name (s +:+ ext)) → no_slash ext → head (segments path) ≠ Some ".." →
  below dir (PathJoin dir (Clean path +:+ ext)).
Proof.
  intros Hdir Hext Hsl Hh. destruct (Split_Clean_ext path ext) as (names & Hne & Hn & Hs); [done..|].
  by eapply PathJoin_below.
Qed.

(** ** A disk in memory *)

#[local] Instance memory_disk (C : Type) : FileSystem C (gmap string C) := {
  MkdirAll _ w := (None, w);
  WriteFile p d w := (None, <[p := d]> w);
  ReadFile p w := Ok (w !! p);
  ReadDir _ w := Ok (Some (map (λ e, (PathBase e.1, false)) (map_to_list w)));
  Remove p w := (Ok (bool_decide (is_Some (w !! p))), delete p w)
}.
#[local] Instance memory_disk_laws (C : Type) : FileSystemLaws C (gmap string C).
Proof.
  split; cbn.
  - intros p d w w' [= <-]. by rewrite lookup_insert_eq.
  - intros p d w o Ho. by rewrite lookup_insert_ne.
  - done.
  - intros p w b w' [= <- <-]. by rewrite lookup_delete_eq.
  - intros p w o Ho. by rewrite lookup_delete_ne.
Qed.
