(* ===== verification/Visual.v ===== *)
(** * Visual mapping: [internal/mapping/visual/model.go]

    Fields of a source and a destination, and the connections between them that the user draws.  The
    model is a value; a method that changes it returns the new one. *)

From S2P Require Import Prelude GoStrings Errors Float AutoMapper.

Record FieldInfo := mkFieldInfo {
  fi_Path : string; fi_DisplayName : string; fi_Type : string; fi_Required : bool; fi_Description : string
}.

Record Connection := mkConnection {
  cn_ID : string; cn_SourceField : string; cn_DestField : string; cn_Transform : string; cn_Validated : bool
}.

Record VisualMapping := mkVisualMapping {
  SourceFields : list FieldInfo; DestFields : list FieldInfo; Connections : list Connection
}.

Record ValidationError := mkValidationError { ve_ConnectionID : string; ve_Field : string; ve_Message : string }.

Definition NewVisualMapping : VisualMapping := mkVisualMapping [] [] [].

Definition with_connections (vm : VisualMapping) (cs : list Connection) : VisualMapping :=
  mkVisualMapping (SourceFields vm) (DestFields vm) cs.

Definition AddSourceField (f : FieldInfo) (vm : VisualMapping) : VisualMapping :=
  mkVisualMapping (SourceFields vm ++ [f]) (DestFields vm) (Connections vm).
Definition AddDestField (f : FieldInfo) (vm : VisualMapping) : VisualMapping :=
  mkVisualMapping (SourceFields vm) (DestFields vm ++ [f]) (Connections vm).

(** ** Connecting *)

Fixpoint has_path (path : string) (fs : list FieldInfo) : bool :=
  match fs with
  | [] => false
  | f :: fs => if bool_decide (fi_Path f = path) then true else has_path path fs
  end.
Definition hasSourceField (vm : VisualMapping) (path : string) : bool := has_path path (SourceFields vm).
Definition hasDestField (vm : VisualMapping) (path : string) : bool := has_path path (DestFields vm).

Definition connects (sourceField destField : string) (c : Connection) : bool :=
  bool_decide (cn_SourceField c = sourceField) && bool_decide (cn_DestField c = destField).

Definition connection_id (sourceField destField : string) : string := sourceField +:+ "->" +:+ destField.

Definition Connect (sourceField destField transform : string) (vm : VisualMapping) : res unit * VisualMapping :=
  if negb (hasSourceField vm sourceField) then (Err (ErrText ("source field " +:+ quote sourceField +:+ " not found")), vm)
  else if negb (hasDestField vm destField) then (Err (ErrText ("destination field " +:+ quote destField +:+ " not found")), vm)
  else if existsb (connects sourceField destField) (Connections vm)
  then (Err (ErrText ("connection from " +:+ quote sourceField +:+ " to " +:+ quote destField +:+ " already exists")), vm)
  else (Ok tt, with_connections vm (Connections vm
          ++ [mkConnection (connection_id sourceField destField) sourceField destField transform true])).

(** The list without the first connection of the two fields, if there is one. *)
Fixpoint disconnect_first (sourceField destField : string) (cs : list Connection) : option (list Connection) :=
  match cs with
  | [] => None
  | c :: cs => if connects sourceField destField c then Some cs
               else (λ rest, c :: rest) <$> disconnect_first sourceField destField cs
  end.

Definition Disconnect (sourceField destField : string) (vm : VisualMapping) : bool * VisualMapping :=
  match disconnect_first sourceField destField (Connections vm) with
  | Some cs => (true, with_connections vm cs)
  | None => (false, vm)
  end.

(** ** Validation *)

(** Fields by path; of several with one path the last. *)
Definition field_index (fs : list FieldInfo) : gmap string FieldInfo := foldl (λ m f, <[fi_Path f := f]> m) ∅ fs.

Definition connected_dests (cs : list Connection) : gset string := list_to_set (map cn_DestField cs).
Definition connected_sources (cs : list Connection) : gset string := list_to_set (map cn_SourceField cs).

Definition required_errors (vm : VisualMapping) : list ValidationError :=
  concat (map (λ f, if fi_Required f && negb (bool_decide (fi_Path f ∈ connected_dests (Connections vm)))
                    then [mkValidationError "" (fi_Path f) ("required destination field " +:+ quote (fi_Path f) +:+ " has no mapping")]
                    else []) (DestFields vm)).

Definition error_when (b : bool) (c : Connection) (field msg : string) : list ValidationError :=
  if b then [mkValidationError (cn_ID c) field msg] else [].

Definition index_type (ix : gmap string FieldInfo) (path : string) : string := from_option fi_Type "" (ix !! path).

Definition mismatch (src dst : gmap string FieldInfo) (c : Connection) : bool :=
  let srcType := index_type src (cn_SourceField c) in
  let dstType := index_type dst (cn_DestField c) in
  negb (bool_decide (srcType = "")) && negb (bool_decide (dstType = "")) && negb (bool_decide (srcType = dstType))
  && bool_decide (cn_Transform c = "").

(** One connection: its errors, and whether it still counts as valid. *)
Definition check_connection (src dst : gmap string FieldInfo) (destUsed : gset string) (c : Connection) :
    list ValidationError * Connection :=
  let no_src := bool_decide (src !! cn_SourceField c = None) in
  let no_dst := bool_decide (dst !! cn_DestField c = None) in
  let validated := cn_Validated c && negb no_src && negb no_dst in
  (error_when no_src c (cn_SourceField c) ("source field " +:+ quote (cn_SourceField c) +:+ " does not exist")
   ++ error_when no_dst c (cn_DestField c) ("destination field " +:+ quote (cn_DestField c) +:+ " does not exist")
   ++ error_when (bool_decide (cn_DestField c ∈ destUsed)) c (cn_DestField c)
        ("destination field " +:+ quote (cn_DestField c) +:+ " has multiple source mappings")
   ++ error_when (validated && mismatch src dst c) c (cn_SourceField c)
        ("type mismatch " +:+ quote (index_type src (cn_SourceField c)) +:+ " -> " +:+ quote (index_type dst (cn_DestField c))
         +:+ " without transform"),
   mkConnection (cn_ID c) (cn_SourceField c) (cn_DestField c) (cn_Transform c) validated).

Fixpoint check_connections (src dst : gmap string FieldInfo) (destUsed : gset string) (cs : list Connection) :
    list ValidationError * list Connection :=
  match cs with
  | [] => ([], [])
  | c :: cs =>
      let '(errs, c') := check_connection src dst destUsed c in
      let '(errs', cs') := check_connections src dst ({[cn_DestField c]} ∪ destUsed) cs in
      (errs ++ errs', c' :: cs')
  end.

Definition Validate (vm : VisualMapping) : list ValidationError * VisualMapping :=
  let '(errs, cs) := check_connections (field_index (SourceFields vm)) (field_index (DestFields vm)) ∅ (Connections vm) in
  (required_errors vm ++ errs, with_connections vm cs).

(** ** Conversion *)

Definition ToFieldMappings (vm : VisualMapping) : list FieldMapping :=
  map (λ c, mkFieldMapping (cn_SourceField c) (cn_DestField c) (cn_Transform c) (f_of_Z 1) false) (Connections vm).

Definition path_set (fs : list FieldInfo) : gset string := list_to_set (map fi_Path fs).

Definition FromFieldMappings (mappings : list FieldMapping) (vm : VisualMapping) : VisualMapping :=
  with_connections vm (map (λ m,
    mkConnection (connection_id (fm_SourceField m) (fm_DestField m)) (fm_SourceField m) (fm_DestField m) (fm_Transform m)
      (bool_decide (fm_SourceField m ∈ path_set (SourceFields vm)) && bool_decide (fm_DestField m ∈ path_set (DestFields vm))))
    mappings).

Definition UnmappedSourceFields (vm : VisualMapping) : list FieldInfo :=
  List.filter (λ f, negb (bool_decide (fi_Path f ∈ connected_sources (Connections vm)))) (SourceFields vm).
Definition UnmappedDestFields (vm : VisualMapping) : list FieldInfo :=
  List.filter (λ f, negb (bool_decide (fi_Path f ∈ connected_dests (Connections vm)))) (DestFields vm).

Definition nl := String (Ascii.ascii_of_nat 10) "".
Definition summary_line (c : Connection) : string :=
  let status := if cn_Validated c then "valid" else "INVALID" in
  if negb (bool_decide (cn_Transform c = ""))
  then "  " +:+ cn_SourceField c +:+ " -> " +:+ cn_DestField c +:+ " [" +:+ cn_Transform c +:+ "] (" +:+ status +:+ ")" +:+ nl
  else "  " +:+ cn_SourceField c +:+ " -> " +:+ cn_DestField c +:+ " (" +:+ status +:+ ")" +:+ nl.
Definition Summary (vm : VisualMapping) : string :=
  "Visual Mapping: " +:+ pretty (Z.of_nat (length (SourceFields vm))) +:+ " source fields, "
  +:+ pretty (Z.of_nat (length (DestFields vm))) +:+ " dest fields, "
  +:+ pretty (Z.of_nat (length (Connections vm))) +:+ " connections" +:+ nl
  +:+ String.concat "" (map summary_line (Connections vm)).

(** ** What the editor keeps *)

Inductive edit :=
| EAddSource (f : FieldInfo) | EAddDest (f : FieldInfo)
| EConnect (s d t : string) | EDisconnect (s d : string) | EValidate.

Definition apply_edit (vm : VisualMapping) (e : edit) : VisualMapping :=
  match e with
  | EAddSource f => AddSourceField f vm
  | EAddDest f => AddDestField f vm
  | EConnect s d t => (Connect s d t vm).2
  | EDisconnect s d => (Disconnect s d vm).2
  | EValidate => (Validate vm).2
  end.
Definition edited (es : list edit) : VisualMapping := foldl apply_edit NewVisualMapping es.

Definition ends (c : Connection) : string * string := (cn_SourceField c, cn_DestField c).

Definition well_drawn (vm : VisualMapping) : Prop :=
  Forall (λ c, hasSourceField vm (cn_SourceField c) = true ∧ hasDestField vm (cn_DestField c) = true ∧
               cn_ID c = connection_id (cn_SourceField c) (cn_DestField c) ∧ cn_Validated c = true) (Connections vm) ∧
  NoDup (map ends (Connections vm)).

Lemma has_path_elem p fs : has_path p fs = true ↔ p ∈ map fi_Path fs.
Proof.
  induction fs as [|f fs IH]; cbn; [by split; [|intros ?%list.elem_of_nil]|]. rewrite list.elem_of_cons, <- IH.
  case_bool_decide; naive_solver.
Qed.

Lemma has_path_app p fs f : has_path p fs = true → has_path p (fs ++ [f]) = true.
Proof. rewrite !has_path_elem, map_app, list.elem_of_app. by left. Qed.

Lemma has_path_set p fs : has_path p fs = bool_decide (p ∈ path_set fs).
Proof.
  unfold path_set. apply eq_true_iff_eq. rewrite bool_decide_eq_true, elem_of_list_to_set. apply has_path_elem.
Qed.

Lemma field_index_none fs p : field_index fs !! p = None ↔ has_path p fs = false.
Proof.
  rewrite <- not_true_iff_false, has_path_elem. unfold field_index.
  induction fs as [|f fs IH] using rev_ind; [by split; [intros _ ?%list.elem_of_nil|]|].
  rewrite foldl_app. cbn [foldl]. rewrite lookup_insert_None, IH, map_app, list.elem_of_app. cbn [map].
  rewrite list_elem_of_singleton. naive_solver.
Qed.

Lemma disconnect_sublist s d cs cs' : disconnect_first s d cs = Some cs' → sublist cs' cs.
Proof.
  revert cs'. induction cs as [|c cs IH]; intros cs'; cbn; [done|]. destruct (connects s d c).
  - intros [= <-]. by apply sublist_cons.
  - intros (rest & Hr & ->)%fmap_Some. apply sublist_skip. by apply IH.
Qed.

Lemma check_connections_keep src dst used cs :
  Forall (λ c, src !! cn_SourceField c ≠ None ∧ dst !! cn_DestField c ≠ None) cs →
  (check_connections src dst used cs).2 = cs.
Proof.
  intros Hcs. revert used. induction Hcs as [|c cs [Hs Hd] _ IH]; intros used; cbn; [done|].
  specialize (IH ({[cn_DestField c]} ∪ used)). destruct (check_connections src dst _ cs) as [errs cs']. cbn in *.
  rewrite IH, !bool_decide_eq_false_2 by done. destruct c. cbn. by rewrite !andb_true_r.
Qed.

Lemma apply_edit_well_drawn vm e : well_drawn vm → well_drawn (apply_edit vm e).
Proof.
  intros [Hall Hnd]. destruct e as [f|f|s d t|s d|]; cbn [apply_edit].
  - split; [|done]. eapply list.Forall_impl; [exact Hall|]. intros c (H1 & H2 & H3 & H4). split_and!; [by apply has_path_app|done..].
  - split; [|done]. eapply list.Forall_impl; [exact Hall|]. intros c (H1 & H2 & H3 & H4). split_and!; [done|by apply has_path_app|done..].
  - unfold Connect. destruct (hasSourceField vm s) eqn:Hs; [|done]. destruct (hasDestField vm d) eqn:Hd; [|done].
    destruct (existsb _ _) eqn:He; [done|]. split; cbn.
    + apply list.Forall_app. split; [done|]. by constructor; [|constructor].
    + rewrite map_app. apply list.NoDup_app. split_and!; [done| |apply list.NoDup_singleton].
      intros p Hp Hp'. apply list_elem_of_singleton in Hp' as ->. apply list_elem_of_fmap in Hp as (c & Hc & Hin).
      apply not_true_iff_false in He. apply He. apply existsb_exists. exists c. split; [by apply list_elem_of_In|].
      injection Hc as -> ->. unfold connects. by rewrite !bool_decide_eq_true_2.
  - unfold Disconnect. destruct (disconnect_first s d _) as [cs|] eqn:Hc; [|done]. apply disconnect_sublist in Hc.
    split; cbn.
    + apply list.Forall_forall. intros c Hin. apply (proj1 (list.Forall_forall _ _) Hall). by eapply elem_of_sublist.
    + eapply sublist_NoDup; [exact Hnd|]. by apply map_sublist.
  - unfold Validate. pose proof (check_connections_keep (field_index (SourceFields vm)) (field_index (DestFields vm)) ∅ (Connections vm)) as Hk.
    destruct (check_connections _ _ _ _) as [errs cs]. cbn in *. rewrite Hk; [by destruct vm|].
    eapply list.Forall_impl; [exact Hall|]. intros c (H1 & H2 & _). by rewrite !field_index_none, !not_false_iff_true.
Qed.

Lemma edited_well_drawn es : well_drawn (edited es).
Proof.
  unfold edited. assert (H0 : well_drawn NewVisualMapping) by (split; constructor). revert H0.
  generalize NewVisualMapping. induction es as [|e es IH]; intros vm Hvm; [done|]. cbn. by apply IH, apply_edit_well_drawn.
Qed.

(** What the user draws survives the way to the engine and back.  After any edits every connection joins two
    existing fields, no two connections join the same ones, and reading back the field mappings of the
    model gives the model; whatever mappings are read, they are written back as they were, up to
    the confidence. *)
Theorem visual_roundtrip es ms :
  well_drawn (edited es) ∧ FromFieldMappings (ToFieldMappings (edited es)) (edited es) = edited es ∧
  ToFieldMappings (FromFieldMappings ms (edited es)) =
    map (λ m, mkFieldMapping (fm_SourceField m) (fm_DestField m) (fm_Transform m) (f_of_Z 1) false) ms.
Proof.
  pose proof (edited_well_drawn es) as Hw. split_and!; [done| |].
  - destruct (edited es) as [src dst cs]. destruct Hw as [Hall _]. cbn in *.
    unfold FromFieldMappings, ToFieldMappings, with_connections. cbn. f_equal. rewrite map_map. cbn.
    induction Hall as [|c cs (Hs & Hd & Hid & Hv) _ IH]; cbn; [done|]. rewrite IH. f_equal.
    unfold hasSourceField, hasDestField in Hs, Hd. rewrite has_path_set in Hs, Hd. unfold path_set in Hs, Hd. cbn [SourceFields DestFields] in Hs, Hd.
    rewrite Hs, Hd, <- Hid.
    destruct c. cbn in *. by subst.
  - unfold FromFieldMappings, ToFieldMappings. cbn. by rewrite map_map.
Qed.

(** ** What [Validate] accepts *)

Lemma error_when_nil b c f m : error_when b c f m = [] ↔ b = false.
Proof. by destruct b. Qed.

Definition types_fit (vm : VisualMapping) (c : Connection) : Prop :=
  mismatch (field_index (SourceFields vm)) (field_index (DestFields vm)) c = false.

Lemma check_connections_nil src dst used cs :
  (check_connections src dst used cs).1 = [] ↔
  Forall (λ c, src !! cn_SourceField c ≠ None ∧ dst !! cn_DestField c ≠ None ∧
               (cn_Validated c = true → mismatch src dst c = false)) cs ∧
  NoDup (map cn_DestField cs) ∧ ∀ c, c ∈ cs → cn_DestField c ∉ used.
Proof.
  revert used. induction cs as [|c cs IH]; intros used; cbn; [by split; [repeat split; [constructor..|intros c ?%list.elem_of_nil]|]|].
  specialize (IH ({[cn_DestField c]} ∪ used)). destruct (check_connections src dst _ cs) as [errs cs']. cbn in *.
  rewrite app_nil, IH, !app_nil, !error_when_nil, list.Forall_cons, list.NoDup_cons, !bool_decide_eq_false.
  setoid_rewrite list.elem_of_cons.
  destruct (decide (src !! cn_SourceField c = None)) as [Hs|Hs]; [naive_solver|].
  destruct (decide (dst !! cn_DestField c = None)) as [Hd|Hd]; [naive_solver|].
  rewrite !(bool_decide_eq_false_2 _) by done. cbn. rewrite !andb_true_r, andb_false_iff.
  assert (Hin : cn_DestField c ∈ map cn_DestField cs ↔ ∃ c', c' ∈ cs ∧ cn_DestField c' = cn_DestField c).
  { rewrite list_elem_of_fmap. naive_solver. }
  rewrite Hin. destruct (cn_Validated c); set_solver.
Qed.

Lemma required_errors_nil vm :
  required_errors vm = [] ↔
  Forall (λ f, fi_Required f = true → fi_Path f ∈ map cn_DestField (Connections vm)) (DestFields vm).
Proof.
  unfold required_errors, connected_dests. induction (DestFields vm) as [|f fs IH]; cbn; [by split|].
  rewrite app_nil, IH, list.Forall_cons. destruct (fi_Required f); cbn; [|naive_solver].
  case_bool_decide as Hin; rewrite elem_of_list_to_set in Hin; naive_solver.
Qed.

(** [Validate] reports nothing exactly when every required destination field has a connection, every
    connection joins existing fields, no destination is used twice, and the types of each connection
    that counts as valid agree or a transform is given. *)
Theorem Validate_accepts vm :
  (Validate vm).1 = [] ↔
  Forall (λ f, fi_Required f = true → fi_Path f ∈ map cn_DestField (Connections vm)) (DestFields vm) ∧
  Forall (λ c, hasSourceField vm (cn_SourceField c) = true ∧ hasDestField vm (cn_DestField c) = true ∧
               (cn_Validated c = true → types_fit vm c)) (Connections vm) ∧
  NoDup (map cn_DestField (Connections vm)).
Proof.
  unfold Validate, types_fit. pose proof (check_connections_nil (field_index (SourceFields vm)) (field_index (DestFields vm)) ∅ (Connections vm)) as Hc.
  destruct (check_connections _ _ _ _) as [errs cs]. cbn in *. rewrite app_nil, required_errors_nil, Hc.
  assert (Hends : ∀ c, (field_index (SourceFields vm) !! cn_SourceField c ≠ None ↔ hasSourceField vm (cn_SourceField c) = true) ∧
                       (field_index (DestFields vm) !! cn_DestField c ≠ None ↔ hasDestField vm (cn_DestField c) = true)).
  { intros c. by rewrite !field_index_none, !not_false_iff_true. }
  rewrite !list.Forall_forall. set_solver.
Qed.

(** A connection read before its fields were added stays marked as not valid: once they are there, it
    passes validation although the types differ and there is no transform. *)
Example late_fields_unchecked :
  let m := mkFieldMapping "age" "age" "" (f_of_Z 1) false in
  let vm := AddDestField (mkFieldInfo "age" "" "string" true "")
              (AddSourceField (mkFieldInfo "age" "" "integer" false "") (FromFieldMappings [m] NewVisualMapping)) in
  (Validate vm).1 = [] ∧ map cn_Validated (Connections (Validate vm).2) = [false].
Proof. by vm_compute. Qed.

(** Different connections can have one id. *)
Example ids_collide : connection_id "a->b" "c" = connection_id "a" "b->c".
Proof. reflexivity. Qed.

(** Mapped and unmapped fields are all fields. *)
Lemma unmapped_complement vm f :
  f ∈ DestFields vm → (f ∈ UnmappedDestFields vm ↔ ∀ c, c ∈ Connections vm → cn_DestField c ≠ fi_Path f).
Proof.
  intros Hf. unfold UnmappedDestFields, connected_dests. rewrite list_elem_of_In, filter_In, <- list_elem_of_In.
  rewrite negb_true_iff, bool_decide_eq_false, elem_of_list_to_set, list_elem_of_fmap. naive_solver.
Qed.
