(* ===== verification/Templates.v ===== *)
(** * Mapping templates: [internal/mapping/templates/templates.go]

    Named lists of field mappings, in memory and, with a directory, in one JSON file per template.  The files
    of [FileSystem] hold JSON here; [time_text] and [time_of] are the JSON form of times.  Methods run one at a time, under the store's lock. *)

From Stdlib Require Import Sorted.
From S2P Require Import Prelude GoStrings Errors Float Value JsonDecode AutoMapper Files.

Record TemplateInfo := mkTemplateInfo {
  ti_Name : string; ti_Description : string; ti_FieldCount : Z; ti_CreatedAt : Z; ti_UpdatedAt : Z; ti_BuiltIn : bool
}.
Record storedTemplate := mkStoredTemplate { Info : TemplateInfo; Mappings : list FieldMapping }.

Record TemplateStore := mkTemplateStore { templates : gmap string storedTemplate; storeDir : string }.

(** ** Built-in templates *)

Definition plain (s d : string) (confidence : Z) : FieldMapping := mkFieldMapping s d "" (f_of_dec confidence (-2)) false.
Definition converted (s d t : string) (confidence : Z) : FieldMapping := mkFieldMapping s d t (f_of_dec confidence (-2)) false.

Definition salesforce_to_hubspot_contacts (now : Z) : storedTemplate :=
  mkStoredTemplate
    (mkTemplateInfo "salesforce_to_hubspot_contacts" "Maps Salesforce Contact fields to HubSpot Contact properties" 12 now now true)
    [plain "FirstName" "firstname" 100; plain "LastName" "lastname" 100; plain "Email" "email" 100; plain "Phone" "phone" 100;
     plain "MobilePhone" "mobilephone" 95; plain "Title" "jobtitle" 85; plain "Account.Name" "company" 90;
     plain "MailingStreet" "address" 85; plain "MailingCity" "city" 95; plain "MailingState" "state" 95;
     plain "MailingPostalCode" "zip" 80; plain "MailingCountry" "country" 95].

Definition bigquery_to_snowflake (now : Z) : storedTemplate :=
  mkStoredTemplate
    (mkTemplateInfo "bigquery_to_snowflake" "Maps BigQuery table columns to Snowflake table columns with type conversions" 8 now now true)
    [converted "STRING" "VARCHAR" "to_string" 100; converted "INT64" "NUMBER" "to_int" 95; converted "FLOAT64" "FLOAT" "to_float" 95;
     plain "BOOL" "BOOLEAN" 100; converted "TIMESTAMP" "TIMESTAMP_NTZ" "format_date" 90; plain "DATE" "DATE" 100;
     plain "BYTES" "BINARY" 90; plain "JSON" "VARIANT" 85].

Definition builtins (now : Z) : gmap string storedTemplate :=
  <["bigquery_to_snowflake" := bigquery_to_snowflake now]>
    {[ "salesforce_to_hubspot_contacts" := salesforce_to_hubspot_contacts now ]}.

Definition NewTemplateStore (dir : string) (now : Z) : TemplateStore := mkTemplateStore (builtins now) dir.

(** ** JSON *)

Section json.
Context (type_error : string → json → error) (time_text : Z → string) (time_of : string → option Z).

Definition mapping_json (m : FieldMapping) : json :=
  JObj ([("source_field", JStr (fm_SourceField m)); ("dest_field", JStr (fm_DestField m))]
        ++ omit_when (bool_decide (fm_Transform m = "")) "transform" (JStr (fm_Transform m))
        ++ [("confidence", JNum (NPrint (fm_Confidence m))); ("auto_matched", JBool (fm_AutoMatched m))]).

Definition info_json (i : TemplateInfo) : json :=
  JObj ([("name", JStr (ti_Name i))]
        ++ omit_when (bool_decide (ti_Description i = "")) "description" (JStr (ti_Description i))
        ++ [("field_count", int_json (ti_FieldCount i)); ("created_at", JStr (time_text (ti_CreatedAt i)));
            ("updated_at", JStr (time_text (ti_UpdatedAt i))); ("built_in", JBool (ti_BuiltIn i))]).

(** A confidence that is not finite is refused. *)
Definition template_json (st : storedTemplate) : res json :=
  if forallb (λ m, f_is_finite (fm_Confidence m)) (Mappings st)
  then Ok (JObj [("info", info_json (Info st)); ("mappings", JArr (map mapping_json (Mappings st)))])
  else Err err_unsupported.

Abbreviation acc_of A := (A * option error)%type.

Definition mapping_member (acc : acc_of FieldMapping) (e : string * json) : acc_of FieldMapping :=
  let '(m, err) := acc in
  let '(k, j) := e in
  if key_matches "source_field" k then
    let '(x, err) := string_member type_error k (fm_SourceField m) j err in
    (mkFieldMapping x (fm_DestField m) (fm_Transform m) (fm_Confidence m) (fm_AutoMatched m), err)
  else if key_matches "dest_field" k then
    let '(x, err) := string_member type_error k (fm_DestField m) j err in
    (mkFieldMapping (fm_SourceField m) x (fm_Transform m) (fm_Confidence m) (fm_AutoMatched m), err)
  else if key_matches "transform" k then
    let '(x, err) := string_member type_error k (fm_Transform m) j err in
    (mkFieldMapping (fm_SourceField m) (fm_DestField m) x (fm_Confidence m) (fm_AutoMatched m), err)
  else if key_matches "confidence" k then
    let '(x, err) := float_member type_error k (fm_Confidence m) j err in
    (mkFieldMapping (fm_SourceField m) (fm_DestField m) (fm_Transform m) x (fm_AutoMatched m), err)
  else if key_matches "auto_matched" k then
    let '(x, err) := bool_member type_error k (fm_AutoMatched m) j err in
    (mkFieldMapping (fm_SourceField m) (fm_DestField m) (fm_Transform m) (fm_Confidence m) x, err)
  else acc.

Definition info_member (acc : acc_of TemplateInfo) (e : string * json) : acc_of TemplateInfo :=
  let '(i, err) := acc in
  let '(k, j) := e in
  if key_matches "name" k then
    let '(x, err) := string_member type_error k (ti_Name i) j err in
    (mkTemplateInfo x (ti_Description i) (ti_FieldCount i) (ti_CreatedAt i) (ti_UpdatedAt i) (ti_BuiltIn i), err)
  else if key_matches "description" k then
    let '(x, err) := string_member type_error k (ti_Description i) j err in
    (mkTemplateInfo (ti_Name i) x (ti_FieldCount i) (ti_CreatedAt i) (ti_UpdatedAt i) (ti_BuiltIn i), err)
  else if key_matches "field_count" k then
    let '(x, err) := int_member type_error k (ti_FieldCount i) j err in
    (mkTemplateInfo (ti_Name i) (ti_Description i) x (ti_CreatedAt i) (ti_UpdatedAt i) (ti_BuiltIn i), err)
  else if key_matches "created_at" k then
    let '(x, err) := time_member type_error time_of k (ti_CreatedAt i) j err in
    (mkTemplateInfo (ti_Name i) (ti_Description i) (ti_FieldCount i) x (ti_UpdatedAt i) (ti_BuiltIn i), err)
  else if key_matches "updated_at" k then
    let '(x, err) := time_member type_error time_of k (ti_UpdatedAt i) j err in
    (mkTemplateInfo (ti_Name i) (ti_Description i) (ti_FieldCount i) (ti_CreatedAt i) x (ti_BuiltIn i), err)
  else if key_matches "built_in" k then
    let '(x, err) := bool_member type_error k (ti_BuiltIn i) j err in
    (mkTemplateInfo (ti_Name i) (ti_Description i) (ti_FieldCount i) (ti_CreatedAt i) (ti_UpdatedAt i) x, err)
  else acc.

Definition zero_info : TemplateInfo := mkTemplateInfo "" "" 0 zero_time zero_time false.
Definition zero_mapping : FieldMapping := mkFieldMapping "" "" "" (f_of_Z 0) false.
Definition zero_template : storedTemplate := mkStoredTemplate zero_info [].

Definition template_member (acc : acc_of storedTemplate) (e : string * json) : acc_of storedTemplate :=
  let '(st, err) := acc in
  let '(k, j) := e in
  if key_matches "info" k then
    let '(x, err) := struct_member type_error info_member k (Info st) j err in (mkStoredTemplate x (Mappings st), err)
  else if key_matches "mappings" k then
    let '(x, err) := list_member type_error (struct_member type_error mapping_member k zero_mapping) k (Mappings st) j err in
    (mkStoredTemplate (Info st) x, err)
  else acc.

Definition read_template : RawMessage → res storedTemplate := unmarshal_struct type_error zero_template template_member.

(** ** The store *)

Section store.
Context {W : Type} `{FileSystem RawMessage W}.

Definition with_templates (ts : TemplateStore) (m : gmap string storedTemplate) : TemplateStore := mkTemplateStore m (storeDir ts).

Definition template_path (ts : TemplateStore) (name : string) : string := PathJoin (storeDir ts) (name +:+ ".json").

Definition persistLocked (ts : TemplateStore) (name : string) (st : storedTemplate) (w : W) : res unit * W :=
  match MkdirAll (storeDir ts) w with
  | (Some e, w) => (Err (ErrWrapf "create store dir" e), w)
  | (None, w) =>
      match template_json st with
      | Err e => (Err (ErrWrapf ("marshal template " +:+ quote name) e), w)
      | Panic m => (Panic m, w)
      | Ok data =>
          match WriteFile (template_path ts name) (RawDoc data) w with
          | (Some e, w) => (Err (ErrWrapf ("write template " +:+ quote name) e), w)
          | (None, w) => (Ok tt, w)
          end
      end
  end.

Definition new_template (name : string) (mappings : list FieldMapping) (now : Z) (existing : option storedTemplate) : storedTemplate :=
  mkStoredTemplate
    (mkTemplateInfo name "" (Z.of_nat (length mappings))
       (from_option (λ st, ti_CreatedAt (Info st)) now existing) now (from_option (λ st, ti_BuiltIn (Info st)) false existing))
    mappings.

Definition Save (name : string) (mappings : list FieldMapping) (now : Z) (ts : TemplateStore) (w : W) : res unit * TemplateStore * W :=
  if bool_decide (name = "") then (Err (ErrText "template name cannot be empty"), ts, w)
  else
    let st := new_template name mappings now (templates ts !! name) in
    let ts := with_templates ts (<[name := st]> (templates ts)) in
    if negb (bool_decide (storeDir ts = "")) then
      let '(r, w) := persistLocked ts name st w in (r, ts, w)
    else (Ok tt, ts, w).

Definition loadFromDisk (name : string) (ts : TemplateStore) (w : W) : res storedTemplate * TemplateStore :=
  match ReadFile (template_path ts name) w with
  | Err e => (Err e, ts)
  | Panic m => (Panic m, ts)
  | Ok None => (Err (ErrText "no such file or directory"), ts)
  | Ok (Some data) =>
      match read_template data with
      | Ok st => (Ok st, with_templates ts (<[name := st]> (templates ts)))
      | r => (r, ts)
      end
  end.

Definition Load (name : string) (ts : TemplateStore) (w : W) : res (list FieldMapping) * TemplateStore :=
  let not_found := Err (ErrText ("template " +:+ quote name +:+ " not found")) in
  match templates ts !! name with
  | Some st => (Ok (Mappings st), ts)
  | None =>
      if negb (bool_decide (storeDir ts = "")) then
        match loadFromDisk name ts w with
        | (Ok st, ts) => (Ok (Mappings st), ts)
        | (Err _, ts) => (not_found, ts)
        | (Panic m, ts) => (Panic m, ts)
        end
      else (not_found, ts)
  end.

(** Sorted by name; the code sorts by the name in the info, unstably where two are equal. *)
Definition List (sort_slice : list TemplateInfo → list TemplateInfo) (ts : TemplateStore) : list TemplateInfo :=
  sort_slice (map (λ e, Info e.2) (map_to_list (templates ts))).

Definition Delete (name : string) (ts : TemplateStore) (w : W) : res unit * TemplateStore * W :=
  match templates ts !! name with
  | None => (Err (ErrText ("template " +:+ quote name +:+ " not found")), ts, w)
  | Some st =>
      if ti_BuiltIn (Info st) then (Err (ErrText ("cannot delete built-in template " +:+ quote name)), ts, w)
      else
        (Ok tt, with_templates ts (delete name (templates ts)),
         if negb (bool_decide (storeDir ts = "")) then (Remove (template_path ts name) w).2 else w)
  end.

(** One file of the directory. *)
Definition load_entry (w : W) (ts : TemplateStore) (entry : string * bool) : TemplateStore :=
  if entry.2 || negb (HasSuffix entry.1 ".json") then ts
  else
    let name := TrimSuffix entry.1 ".json" in
    match ReadFile (PathJoin (storeDir ts) entry.1) w with
    | Ok (Some data) =>
        match read_template data with
        | Ok st => if from_option (λ t, ti_BuiltIn (Info t)) false (templates ts !! name) then ts
                   else with_templates ts (<[name := st]> (templates ts))
        | _ => ts
        end
    | _ => ts
    end.

Definition LoadAllFromDisk (ts : TemplateStore) (w : W) : res unit * TemplateStore :=
  if bool_decide (storeDir ts = "") then (Ok tt, ts)
  else match ReadDir (storeDir ts) w with
       | Err e => (Err (ErrWrapf "read template dir" e), ts)
       | Panic m => (Panic m, ts)
       | Ok None => (Ok tt, ts)
       | Ok (Some entries) => (Ok tt, foldl (load_entry w) ts entries)
       end.
End store.
End json.

(** ** Templates on disk *)

Section disk.
Context (type_error : string → json → error) (time_text : Z → string) (time_of : string → option Z).

(** A time that its text gives back. *)
Definition printable (t : Z) : Prop := time_of (time_text t) = Some t.

(** Decodes the members one by one; the keys decide by computation. *)
Ltac member_by_member :=
  repeat (cbn [foldl mapping_member info_member template_member string_member bool_member time_member struct_member float_member num_value
               fm_SourceField fm_DestField fm_Transform fm_Confidence fm_AutoMatched fst snd
               ti_Name ti_Description ti_FieldCount ti_CreatedAt ti_UpdatedAt ti_BuiltIn Info Mappings]; match_keys).

Lemma template_mapping_decode field m :
  f_is_finite (fm_Confidence m) = true →
  struct_member type_error (mapping_member type_error) field zero_mapping (mapping_json m) None = (m, None).
Proof.
  intros Hf. destruct m as [s d t c a]. cbn [fm_Confidence] in Hf. unfold mapping_json, zero_mapping. cbn [struct_member].
  rewrite !foldl_app. member_by_member.
  rewrite (omit_decode _ t "" _ (λ t, mkFieldMapping s d t (f_of_Z 0) false)); [|apply bool_decide_eq_true_1|by member_by_member].
  member_by_member. by rewrite Hf.
Qed.

Lemma info_decode field i :
  in_i64 (ti_FieldCount i) → printable (ti_CreatedAt i) → printable (ti_UpdatedAt i) →
  struct_member type_error (info_member type_error time_of) field zero_info (info_json time_text i) None = (i, None).
Proof.
  unfold printable. intros Hz Hc Hu. destruct i as [n d z c u b]. cbn [ti_FieldCount ti_CreatedAt ti_UpdatedAt] in *. unfold info_json, zero_info. cbn [struct_member].
  rewrite !foldl_app. member_by_member.
  rewrite (omit_decode _ d "" _ (λ d, mkTemplateInfo n d 0 zero_time zero_time false)); [|apply bool_decide_eq_true_1|by member_by_member].
  member_by_member. rewrite int_decode by done. member_by_member.
  rewrite Hc. member_by_member. rewrite Hu. by member_by_member.
Qed.

Lemma template_decode st j :
  in_i64 (ti_FieldCount (Info st)) → printable (ti_CreatedAt (Info st)) → printable (ti_UpdatedAt (Info st)) →
  template_json time_text st = Ok j → read_template type_error time_of (RawDoc j) = Ok st.
Proof.
  intros Hz Hc Hu. unfold template_json. destruct (forallb _ _) eqn:Hf; [|done]. intros [= <-].
  unfold read_template, unmarshal_struct, zero_template. destruct st as [i ms]. cbn [Info Mappings] in *. member_by_member.
  rewrite info_decode by done. member_by_member.
  rewrite (list_member_map _ _ mapping_json); [done|]. intros m Hm. apply template_mapping_decode.
  rewrite forallb_forall in Hf. by apply Hf, list_elem_of_In.
Qed.

Context {W : Type} `{Hfs : FileSystem RawMessage W} `{Hlaws : !FileSystemLaws RawMessage W}.

Abbreviation saves := (Save time_text).
Abbreviation loads := (Load type_error time_of).

Lemma Save_persists name ms now ts w ts' w' :
  saves name ms now ts w = (Ok tt, ts', w') → storeDir ts ≠ "" →
  name ≠ "" ∧ templates ts' = <[name := new_template name ms now (templates ts !! name)]> (templates ts) ∧
  ∃ j, template_json time_text (new_template name ms now (templates ts !! name)) = Ok j ∧
       ReadFile (PathJoin (storeDir ts) (name +:+ ".json")) w' = Ok (Some (RawDoc j)).
Proof using Hlaws.
  unfold Save, persistLocked, template_path. case_bool_decide as Hn; [done|]. intros Hs Hd. cbn [storeDir with_templates] in Hs.
  rewrite bool_decide_eq_false_2 in Hs by done. cbn [negb] in Hs.
  destruct (MkdirAll _ w) as [[e|] w1]; [done|]. destruct (template_json _ _) as [j|e|m]; [|done..].
  destruct (WriteFile _ _ w1) as [[e|] w2] eqn:Hw; [done|]. injection Hs as <- <-. split_and!; [done..|].
  exists j. split; [done|]. by eapply read_written.
Qed.

(** A saved template outlives the process.  When [Save] succeeds with a directory, a store opened on
    that directory later loads the mappings that were saved, unless the name is that of a built-in template:
    then it loads the built-in mappings, and what was saved is lost. *)
Theorem saved_template_reloaded name ms now later ts w ts' w' :
  storeDir ts ≠ "" → in_i64 (Z.of_nat (length ms)) → printable now →
  (∀ st, templates ts !! name = Some st → printable (ti_CreatedAt (Info st))) → saves name ms now ts w = (Ok tt, ts', w') →
  (loads name ts' w').1 = Ok ms ∧
  (loads name (NewTemplateStore (storeDir ts) later) w').1 =
    Ok (match builtins later !! name with Some st => Mappings st | None => ms end).
Proof using Hlaws.
  intros Hd Hz Hnow Hcreated Hs. destruct (Save_persists _ _ _ _ _ _ _ Hs Hd) as (Hn & Ht & j & Hj & Hr). split.
  - unfold Load. by rewrite Ht, lookup_insert_eq.
  - unfold Load. cbn [templates storeDir NewTemplateStore]. destruct (builtins later !! name) as [st|]; [done|].
    rewrite bool_decide_eq_false_2 by done. cbn [negb]. unfold loadFromDisk, template_path. cbn [storeDir NewTemplateStore].
    rewrite Hr, (template_decode (new_template name ms now (templates ts !! name)) j); [done|done| |done|done].
    cbn. destruct (templates ts !! name); cbn; auto.
Qed.

(** *** Built-in templates stay *)

Inductive call :=
| CSave (name : string) (ms : list FieldMapping) (now : Z) | CLoad (name : string) | CDelete (name : string) | CLoadAll.

Definition run_call (c : call) (st : TemplateStore * W) : TemplateStore * W :=
  match c with
  | CSave name ms now => let '(_, ts, w) := saves name ms now st.1 st.2 in (ts, w)
  | CLoad name => let '(_, ts) := loads name st.1 st.2 in (ts, st.2)
  | CDelete name => let '(_, ts, w) := Delete name st.1 st.2 in (ts, w)
  | CLoadAll => let '(_, ts) := LoadAllFromDisk type_error time_of st.1 st.2 in (ts, st.2)
  end.

Definition has_builtins (ts : TemplateStore) : Prop :=
  ∀ name, name ∈ ["salesforce_to_hubspot_contacts"; "bigquery_to_snowflake"] →
    from_option (λ t, ti_BuiltIn (Info t)) false (templates ts !! name) = true.

Lemma builtins_insert ts name st :
  (from_option (λ t, ti_BuiltIn (Info t)) false (templates ts !! name) = true → ti_BuiltIn (Info st) = true) →
  has_builtins ts → has_builtins (with_templates ts (<[name := st]> (templates ts))).
Proof.
  intros Hst Hts n Hn. specialize (Hts n Hn). cbn. destruct (decide (n = name)) as [->|Hne].
  - rewrite lookup_insert_eq. by apply Hst.
  - by rewrite lookup_insert_ne.
Qed.

Lemma load_entry_builtins w ts entry : has_builtins ts → has_builtins (load_entry type_error time_of w ts entry).
Proof.
  intros Hts. unfold load_entry. destruct (_ || _); [done|]. destruct (ReadFile _ w) as [[d|]|e|m]; [|done..].
  destruct (read_template _ _ d) as [st|e|m]; [|done..].
  destruct (from_option _ false _) eqn:Hb; [done|]. apply builtins_insert; [|done]. by rewrite Hb.
Qed.

Lemma run_call_builtins c st : has_builtins st.1 → has_builtins (run_call c st).1.
Proof.
  destruct st as [ts w], c as [name ms now|name|name|]; cbn; intros Hts.
  - unfold Save. case_bool_decide; [done|]. set (ts' := with_templates ts _).
    assert (Hts' : has_builtins ts').
    { apply builtins_insert; [|done]. cbn. by destruct (templates ts !! name). }
    destruct (negb _); [|done]. by destruct (persistLocked _ _ _ _ w).
  - unfold Load, loadFromDisk. destruct (templates ts !! name) eqn:Ht; [done|]. destruct (negb _); [|done].
    destruct (ReadFile _ w) as [[d|]|e|m]; [|done..]. destruct (read_template _ _ d); [|done..].
    apply builtins_insert; [|done]. by rewrite Ht.
  - unfold Delete. destruct (templates ts !! name) as [st|] eqn:Ht; [|done]. destruct (ti_BuiltIn (Info st)) eqn:Hb; [done|].
    intros n Hn. cbn. rewrite lookup_delete_ne; [by apply Hts|]. intros <-. specialize (Hts _ Hn).
    rewrite Ht in Hts. cbn in Hts. congruence.
  - unfold LoadAllFromDisk. case_bool_decide; [done|]. destruct (ReadDir _ w) as [[es|]|e|m]; [|done..]. cbn.
    clear - Hts. revert ts Hts. induction es as [|e es IH]; intros ts Hts; cbn; [done|]. by apply IH, load_entry_builtins.
Qed.

Lemma builtins_present dir now : has_builtins (NewTemplateStore dir now).
Proof. intros n [->|[->|[]%list.elem_of_nil]%list.elem_of_cons]%list.elem_of_cons; by vm_compute. Qed.

(** Whatever is saved, loaded or deleted, from whatever files, the built-in templates stay in the store
    and cannot be deleted. *)
Theorem builtins_stay dir now calls w name :
  let '(ts, w') := foldl (λ st c, run_call c st) (NewTemplateStore dir now, w) calls in
  name ∈ ["salesforce_to_hubspot_contacts"; "bigquery_to_snowflake"] →
  (∃ ms, (loads name ts w').1 = Ok ms) ∧
  Delete name ts w' = (Err (ErrText ("cannot delete built-in template " +:+ quote name)), ts, w').
Proof.
  assert (Hall : ∀ st, has_builtins st.1 → has_builtins (foldl (λ st c, run_call c st) st calls).1).
  { induction calls as [|c calls IH]; intros st Hst; cbn; [done|]. by apply IH, run_call_builtins. }
  specialize (Hall (NewTemplateStore dir now, w) (builtins_present dir now)).
  destruct (foldl _ _ calls) as [ts w']. intros Hn. specialize (Hall name Hn). cbn in Hall.
  unfold Load, Delete. destruct (templates ts !! name) as [st|]; [|done]. cbn in Hall. rewrite Hall. eauto.
Qed.
End disk.

(** ** A disk in memory *)

#[local] Existing Instances memory_disk memory_disk_laws.

#[local] Abbreviation no_type_error := (λ (field : string) (_ : json), ErrText field).
Definition lead_mapping : FieldMapping := plain "Email" "email" 100.
Definition opened : TemplateStore := NewTemplateStore "/templates" 1.

Lemma saved_template_reloaded_witness :
  let '(r, ts, w) := Save pretty "leads" [lead_mapping] 2 opened ∅ in
  r = Ok tt ∧ (Load no_type_error parse_int "leads" (NewTemplateStore "/templates" 3) w).1 = Ok [lead_mapping].
Proof.
  destruct (Save pretty "leads" [lead_mapping] 2 opened ∅) as [[r ts] w] eqn:Hs.
  assert (Hr : r = (Save pretty "leads" [lead_mapping] 2 opened ∅).1.1) by by rewrite Hs.
  vm_compute in Hr. subst r. split; [reflexivity|].
  refine (proj2 (saved_template_reloaded no_type_error pretty parse_int "leads" [lead_mapping] 2 3 opened ∅ ts w _ _ _ _ Hs));
    [done|by vm_compute|by vm_compute|by intros st Hst].
Defined.

Lemma builtins_stay_witness :
  let ts := (run_call no_type_error pretty parse_int (CDelete "bigquery_to_snowflake") (opened, ∅)).1 in
  Delete "bigquery_to_snowflake" ts ∅ =
    (Err (ErrText ("cannot delete built-in template " +:+ quote "bigquery_to_snowflake")), ts, ∅).
Proof.
  refine (proj2 (builtins_stay no_type_error pretty parse_int "/templates" 1 [CDelete "bigquery_to_snowflake"] ∅ "bigquery_to_snowflake" _)).
  by right; left.
Defined.

(** Changes to a built-in template are saved, and gone in the next process, even when all files are read. *)
Example builtin_changes_lost :
  let '(r, ts, w) := Save pretty "bigquery_to_snowflake" [lead_mapping] 2 opened ∅ in
  let ts' := (LoadAllFromDisk no_type_error parse_int (NewTemplateStore "/templates" 3) w).2 in
  r = Ok tt ∧ ((λ st, length (Mappings st)) <$> templates ts !! "bigquery_to_snowflake") = Some 1%nat ∧
  ((λ st, length (Mappings st)) <$> templates ts' !! "bigquery_to_snowflake") = Some 8%nat.
Proof. by vm_compute. Qed.

(** A name with a path in it writes outside the directory. *)
Example name_leaves_directory : template_path opened "../etc/cron" = "/etc/cron.json".
Proof. reflexivity. Qed.
