(* ===== verification/Secrets.v ===== *)
(** * Secrets: [internal/security/secrets/manager.go], [vault.go]

    One interface, [SecretManager], with two implementations: encrypted files, and the key-value engine of
    a Vault server.  The cipher is the class [AEAD]; [json_text] and [json_doc] are the bytes of a document
    and back; SHA-256 is a parameter.  The Vault library is the class [VaultLogical].  Methods run one at a
    time, under the locks. *)

From S2P Require Import Prelude GoStrings Errors Value Encryption Files.

(** ** The interface *)

Class SecretManager (M W : Type) := {
  Store : M → (nat → res bytes) → string → obj → W → res unit * W;   (** the function is the random source *)
  Get : M → string → W → res obj * W;
  Delete : M → string → W → res unit * W;
  Rotate : M → (nat → res bytes) → string → obj → W → res unit * W
}.

Definition ConnectorCredentialPath (tenantID connectorID : string) : string :=
  "tenants/" +:+ tenantID +:+ "/connectors/" +:+ connectorID +:+ "/credentials".

(** ** Encrypted files *)

Section local.
Context {K G W : Type} `{Hops : AEAD K G} `{Hfs : FileSystem bytes W}.
Context (sha256 : bytes → bytes) (new_cipher : bytes → res K).
Context (json_text : json → bytes) (json_doc : bytes → RawMessage).

Record LocalSecretManager := mkLocalSecretManager { baseDir : string; gcm : G }.

Definition NewLocalSecretManager (dir : string) (encryptionKey : string) (w : W) : res LocalSecretManager * W :=
  if bool_decide (encryptionKey = "") then (Err (ErrText "encryption key is required for local secret manager"), w)
  else match MkdirAll dir w with
       | (Some e, w) => (Err (ErrWrapf "creating secret store directory" e), w)
       | (None, w) =>
           (match new_cipher (sha256 (bytes_of encryptionKey)) with
            | Err e => Err (ErrWrapf "creating AES cipher" e)
            | Panic m => Panic m
            | Ok block =>
                match new_gcm block with
                | Err e => Err (ErrWrapf "creating GCM cipher" e)
                | Panic m => Panic m
                | Ok g => Ok (mkLocalSecretManager dir g)
                end
            end, w)
       end.

Definition filePath (m : LocalSecretManager) (path : string) : string := PathJoin (baseDir m) (Clean path +:+ ".enc").

Definition encrypt (m : LocalSecretManager) (rand : nat → res bytes) (plaintext : bytes) : res bytes :=
  match rand (NonceSize (gcm m)) with
  | Err e => Err (ErrWrapf "generating nonce" e)
  | Panic p => Panic p
  | Ok nonce => Ok (nonce ++ Seal (gcm m) nonce plaintext [])
  end.

Definition decrypt (m : LocalSecretManager) (ciphertext : bytes) : res bytes :=
  let n := NonceSize (gcm m) in
  if (length ciphertext <? n)%nat then Err (ErrText "ciphertext too short")
  else match Open (gcm m) (take n ciphertext) (drop n ciphertext) [] with
       | Some plaintext => Ok plaintext
       | None => Err (ErrWrapf "decrypting secret" err_open)
       end.

Definition local_Store (m : LocalSecretManager) (rand : nat → res bytes) (path : string) (data : obj) (w : W) : res unit * W :=
  match marshal_map data with
  | Ok (RawDoc j) =>
      match encrypt m rand (json_text j) with
      | Err e => (Err e, w)
      | Panic p => (Panic p, w)
      | Ok encrypted =>
          match MkdirAll (Dir (filePath m path)) w with
          | (Some e, w) => (Err (ErrWrapf "creating directory for secret" e), w)
          | (None, w) =>
              match WriteFile (filePath m path) encrypted w with
              | (Some e, w) => (Err (ErrWrapf "writing encrypted secret" e), w)
              | (None, w) => (Ok tt, w)
              end
          end
      end
  | Ok _ => (Panic "no document", w)
  | Err e => (Err (ErrWrapf "marshaling secret data" e), w)
  | Panic p => (Panic p, w)
  end.

Definition not_found (path : string) : error := ErrText ("secret not found at path " +:+ path).

Definition local_Get (m : LocalSecretManager) (path : string) (w : W) : res obj * W :=
  (match ReadFile (filePath m path) w with
   | Ok None => Err (not_found path)
   | Err e => Err (ErrWrapf "reading encrypted secret" e)
   | Panic p => Panic p
   | Ok (Some encrypted) =>
       plaintext ← decrypt m encrypted;
       match unmarshal_map (json_doc plaintext) with
       | Err e => Err (ErrWrapf "unmarshaling secret data" e)
       | r => r
       end
   end, w).

Definition local_Delete (m : LocalSecretManager) (path : string) (w : W) : res unit * W :=
  match Remove (filePath m path) w with
  | (Ok true, w) => (Ok tt, w)
  | (Ok false, w) => (Err (not_found path), w)
  | (Err e, w) => (Err (ErrWrapf "deleting secret file" e), w)
  | (Panic p, w) => (Panic p, w)
  end.

#[global] Instance local_manager : SecretManager LocalSecretManager W := {
  Store := local_Store; Get := local_Get; Delete := local_Delete; Rotate := local_Store
}.
End local.
Arguments LocalSecretManager : clear implicits.
Arguments mkLocalSecretManager {G}.

(** ** Vault *)

(** Writing, reading and deleting at a path; what is read is the data of the answer, [None] without one. *)
Class VaultLogical (W : Type) := {
  lg_Write : string → obj → W → res unit * W;
  lg_Read : string → W → res (option obj) * W;
  lg_Delete : string → W → res unit * W;
  sys_Health : W → res bool * W                     (** whether the server is sealed *)
}.

Section vault.
Context {W : Type} `{Hv : VaultLogical W}.

Record VaultClient := mkVaultClient { mountPath : string }.

Definition WithMountPath (path : string) (vc : VaultClient) : VaultClient := mkVaultClient path.

(** [new_client] says whether the library accepts the address. *)
Definition NewVaultClient (new_client : string → option error) (addr token : string) (opts : list (VaultClient → VaultClient)) :
    res VaultClient :=
  if bool_decide (addr = "") then Err (ErrText "vault address is required")
  else if bool_decide (token = "") then Err (ErrText "vault token is required")
  else match new_client addr with
       | Some e => Err (ErrWrapf "creating vault client" e)
       | None => Ok (foldl (λ vc opt, opt vc) (mkVaultClient "secret") opts)
       end.

Definition kvDataPath (v : VaultClient) (path : string) : string := mountPath v +:+ "/data/" +:+ path.
Definition kvMetadataPath (v : VaultClient) (path : string) : string := mountPath v +:+ "/metadata/" +:+ path.

Definition StoreSecret (v : VaultClient) (path : string) (data : obj) (w : W) : res unit * W :=
  match lg_Write (kvDataPath v path) {[ "data" := VMap data ]} w with
  | (Err e, w) => (Err (ErrWrapf ("writing secret to vault path " +:+ path) e), w)
  | r => r
  end.

Definition GetSecret (v : VaultClient) (path : string) (w : W) : res obj * W :=
  match lg_Read (kvDataPath v path) w with
  | (Err e, w) => (Err (ErrWrapf ("reading secret from vault path " +:+ path) e), w)
  | (Panic p, w) => (Panic p, w)
  | (Ok None, w) => (Err (not_found path), w)
  | (Ok (Some answer), w) =>
      (match answer !! "data" with
       | Some (VMap data) => Ok data
       | _ => Err (ErrText ("unexpected data format at vault path " +:+ path))
       end, w)
  end.

Definition DeleteSecret (v : VaultClient) (path : string) (w : W) : res unit * W :=
  match lg_Delete (kvMetadataPath v path) w with
  | (Err e, w) => (Err (ErrWrapf ("deleting secret at vault path " +:+ path) e), w)
  | r => r
  end.

Definition RotateSecret := StoreSecret.

Definition HealthCheck (w : W) : res unit * W :=
  match sys_Health w with
  | (Err e, w) => (Err (ErrWrapf "vault health check failed" e), w)
  | (Panic p, w) => (Panic p, w)
  | (Ok sealed, w) => (if sealed then Err (ErrText "vault is sealed") else Ok tt, w)
  end.

(** The manager only wraps the client. *)
#[global] Instance vault_manager : SecretManager VaultClient W := {
  Store v _ := StoreSecret v; Get := GetSecret; Delete := DeleteSecret; Rotate v _ := RotateSecret v
}.
End vault.

(** ** What a secret manager promises

    [place] is where a path is kept: paths with the same place name the same secret.  The random source
    gives as many bytes as are asked for. *)

Definition sized (rand : nat → res bytes) : Prop := ∀ n bs, rand n = Ok bs → length bs = n.

Class SecretLaws {M W : Type} `{SecretManager M W} (m : M) := {
  place : string → string;
  get_place p q w : place p = place q → ∀ d, (Get m p w).1 = Ok d ↔ (Get m q w).1 = Ok d;
  store_get rand p d w w' : sized rand → plain_obj d → Store m rand p d w = (Ok tt, w') → (Get m p w').1 = Ok d;
  store_frame rand p d w q : place q ≠ place p → (Get m q (Store m rand p d w).2).1 = (Get m q w).1;
  delete_get p w w' d : Delete m p w = (Ok tt, w') → (Get m p w').1 ≠ Ok d;
  delete_frame p w q : place q ≠ place p → (Get m q (Delete m p w).2).1 = (Get m q w).1;
  get_frame p w q : (Get m q (Get m p w).2).1 = (Get m q w).1;
  rotate_store rand p d w : Rotate m rand p d w = Store m rand p d w
}.

Section history.
Context {M W : Type} `{Hm : SecretManager M W} (m : M) `{Hlaws : !SecretLaws m} (rand : nat → res bytes).

Inductive op := OpStore (p : string) (d : obj) | OpRotate (p : string) (d : obj) | OpGet (p : string) | OpDelete (p : string).
Inductive outcome_of := Stored (p : string) (d : obj) (r : res unit) | Got (p : string) (r : res obj) | Deleted (p : string) (r : res unit).

Fixpoint execute (ops : list op) (w : W) : list outcome_of :=
  match ops with
  | [] => []
  | OpStore p d :: ops => let '(r, w) := Store m rand p d w in Stored p d r :: execute ops w
  | OpRotate p d :: ops => let '(r, w) := Rotate m rand p d w in Stored p d r :: execute ops w
  | OpGet p :: ops => let '(r, w) := Get m p w in Got p r :: execute ops w
  | OpDelete p :: ops => let '(r, w) := Delete m p w in Deleted p r :: execute ops w
  end.

(** What is known of a place: the secret it holds, or that it holds none; nothing after a failure. *)
Fixpoint faithful (known : gmap string (option obj)) (es : list outcome_of) : Prop :=
  match es with
  | [] => True
  | Stored p d r :: es => faithful (match r with Ok _ => <[place p := Some d]> known | _ => delete (place p) known end) es
  | Deleted p r :: es => faithful (match r with Ok _ => <[place p := None]> known | _ => delete (place p) known end) es
  | Got p r :: es =>
      match known !! place p with
      | Some (Some d) => r = Ok d
      | Some None => ∀ d, r ≠ Ok d
      | None => True
      end ∧ faithful known es
  end.

Definition knows (w : W) (known : gmap string (option obj)) : Prop :=
  ∀ p, match known !! place p with
       | Some (Some d) => (Get m p w).1 = Ok d
       | Some None => ∀ d, (Get m p w).1 ≠ Ok d
       | None => True
       end.

Lemma knows_frame w w' known p :
  knows w known → (∀ q, place q ≠ place p → (Get m q w').1 = (Get m q w).1) → knows w' (delete (place p) known).
Proof.
  intros Hk Hf q. destruct (decide (place q = place p)) as [He|Hne]; [by rewrite He, lookup_delete_eq|].
  rewrite lookup_delete_ne by done. rewrite Hf by done. apply Hk.
Qed.

Lemma knows_store r w w' known p d :
  knows w known → plain_obj d → sized rand → Store m rand p d w = (r, w') →
  knows w' (match r with Ok _ => <[place p := Some d]> known | _ => delete (place p) known end).
Proof.
  intros Hk Hd Hr Hs.
  assert (Hf : ∀ q, place q ≠ place p → (Get m q w').1 = (Get m q w).1).
  { intros q Hq. pose proof (store_frame rand p d w q Hq) as H. by rewrite Hs in H. }
  destruct r as [[]|e|s]; [|by apply (knows_frame w)..].
  intros q. destruct (decide (place q = place p)) as [He|Hne].
  - rewrite He, lookup_insert_eq. apply (get_place q p w' He). by eapply store_get.
  - rewrite lookup_insert_ne by done. rewrite Hf by done. apply Hk.
Qed.

(** Secrets are kept.  Whatever the calls, a get of a path returns what the last successful store or
    rotation put in its place, and nothing after a deletion. *)
Theorem secrets_kept ops w :
  sized rand → Forall (λ o, match o with OpStore _ d | OpRotate _ d => plain_obj d | _ => True end) ops →
  faithful ∅ (execute ops w).
Proof.
  intros Hr Hops. assert (Hk : knows w ∅) by (intros p; by rewrite lookup_empty). revert w Hk. generalize (∅ : gmap string (option obj)).
  induction Hops as [|[p d|p d|p|p] ops Hop Hops IH]; intros known w Hk; cbn [execute]; [done|..].
  - destruct (Store m rand p d w) as [r w'] eqn:Hs. by apply IH, (knows_store _ w).
  - rewrite rotate_store. destruct (Store m rand p d w) as [r w'] eqn:Hs. by apply IH, (knows_store _ w).
  - pose proof (get_frame p w) as Hf. pose proof (Hk p) as Hp. destruct (Get m p w) as [r w'] eqn:Hg. cbn in *.
    split; [done|]. apply IH. intros q. rewrite Hf. apply Hk.
  - pose proof (delete_frame p w) as Hf. pose proof (λ w' d, delete_get p w w' d) as Hd.
    destruct (Delete m p w) as [r w'] eqn:Hg. cbn in *. apply IH. destruct r as [[]|e|s]; [|by apply (knows_frame w)..].
    intros q. destruct (decide (place q = place p)) as [He|Hne].
    + rewrite He, lookup_insert_eq. intros d Hq. apply (get_place q p w' He) in Hq. by eapply Hd.
    + rewrite lookup_insert_ne by done. rewrite Hf by done. apply Hk.
Qed.
End history.

(** ** The implementations keep the promise *)

Lemma decrypt_encrypt {K G} `{Hops : AEAD K G} `{!AEADLaws K G} (m : LocalSecretManager G) rand p c :
  sized rand → encrypt m rand p = Ok c → decrypt m c = Ok p.
Proof.
  intros Hr. unfold encrypt, decrypt. destruct (rand _) as [n|e|s] eqn:Hn; [|done..]. apply Hr in Hn. intros [= <-].
  rewrite length_app, Hn. rewrite (proj2 (Nat.ltb_ge _ _)) by lia.
  by rewrite take_app_length', drop_app_length', open_seal.
Qed.

#[global] Instance local_laws {K G W} `{Hops : AEAD K G} `{!AEADLaws K G} `{Hfs : FileSystem bytes W} `{!FileSystemLaws bytes W}
    (json_text : json → bytes) (json_doc : bytes → RawMessage) (m : LocalSecretManager G) (Hjson : ∀ j, json_doc (json_text j) = RawDoc j) :
  @SecretLaws (LocalSecretManager G) W (local_manager json_text json_doc) m.
Proof.
  refine (@Build_SecretLaws _ _ (local_manager json_text json_doc) m (filePath m) _ _ _ _ _ _ _).
  - intros p q w Hpq d. cbn. unfold local_Get. rewrite Hpq. by destruct (ReadFile _ w) as [[e|]|e|s].
  - intros rand p d w w' Hr Hd Hs. cbn in *. unfold local_Store in Hs.
    destruct (marshal_unmarshal d Hd) as (doc & Hm & Hu). rewrite Hm in Hs. destruct doc as [|e|j]; [done..|].
    destruct (encrypt m rand (json_text j)) as [enc|e|s] eqn:He; [|done..].
    destruct (MkdirAll _ w) as [[e|] w1]; [done|].
    destruct (WriteFile (filePath m p) enc w1) as [[e|] w2] eqn:Hw; [done|]. injection Hs as <-.
    unfold local_Get. rewrite (read_written _ _ _ _ Hw), (decrypt_encrypt m rand _ _ Hr He). cbn.
    by rewrite Hjson, Hu.
  - intros rand p d w q Hq. cbn. unfold local_Get. cbn. enough (ReadFile (filePath m q) (local_Store json_text m rand p d w).2 = ReadFile (filePath m q) w) as -> by done.
    unfold local_Store. destruct (marshal_map d) as [[|e|j]|e|s]; [done..| |done|done].
    destruct (encrypt m rand (json_text j)) as [enc|e|s]; [|done..].
    pose proof (mkdir_frame (Dir (filePath m p)) w (filePath m q)) as Hmk.
    destruct (MkdirAll _ w) as [[e|] w1]; [done|]. cbn in Hmk. rewrite <- Hmk.
    rewrite <- (write_frame (filePath m p) enc w1 (filePath m q)) by done.
    by destruct (WriteFile (filePath m p) enc w1) as [[e|] w2].
  - intros p w w' d Hs. cbn in *. unfold local_Delete in Hs.
    destruct (Remove (filePath m p) w) as [[[]|e|s] w1] eqn:Hw; [|done..]. injection Hs as <-.
    unfold local_Get. by rewrite (read_removed _ _ _ _ Hw).
  - intros p w q Hq. cbn. unfold local_Get. cbn. enough (ReadFile (filePath m q) (local_Delete m p w).2 = ReadFile (filePath m q) w) as -> by done.
    unfold local_Delete. rewrite <- (remove_frame (filePath m p) w (filePath m q)) by done.
    by destruct (Remove (filePath m p) w) as [[[]|e|s] w1].
  - done.
  - done.
Defined.

(** The key-value engine, version 2: what is written is the data of the next answer, deleting the metadata
    removes it, other paths are as they were. *)
Class VaultLaws {W : Type} `{VaultLogical W} (mount : string) : Prop := {
  kv_written p d w w' : plain_obj d → lg_Write (mount +:+ "/data/" +:+ p) {[ "data" := VMap d ]} w = (Ok tt, w') →
    ∃ answer, (lg_Read (mount +:+ "/data/" +:+ p) w').1 = Ok (Some answer) ∧ answer !! "data" = Some (VMap d);
  kv_write_frame p d w q : q ≠ p →
    (lg_Read (mount +:+ "/data/" +:+ q) (lg_Write (mount +:+ "/data/" +:+ p) d w).2).1 = (lg_Read (mount +:+ "/data/" +:+ q) w).1;
  kv_deleted p w w' : lg_Delete (mount +:+ "/metadata/" +:+ p) w = (Ok tt, w') → (lg_Read (mount +:+ "/data/" +:+ p) w').1 = Ok None;
  kv_delete_frame p w q : q ≠ p →
    (lg_Read (mount +:+ "/data/" +:+ q) (lg_Delete (mount +:+ "/metadata/" +:+ p) w).2).1 = (lg_Read (mount +:+ "/data/" +:+ q) w).1;
  kv_read_frame p w q : (lg_Read (mount +:+ "/data/" +:+ q) (lg_Read (mount +:+ "/data/" +:+ p) w).2).1 = (lg_Read (mount +:+ "/data/" +:+ q) w).1
}.

Lemma GetSecret_ext {W} `{VaultLogical W} v p w w' :
  (lg_Read (kvDataPath v p) w').1 = (lg_Read (kvDataPath v p) w).1 → (GetSecret v p w').1 = (GetSecret v p w).1.
Proof.
  unfold GetSecret. destruct (lg_Read _ w') as [r w1], (lg_Read _ w) as [r' w2]. cbn. intros ->. by destruct r' as [[a|]|e|s].
Qed.

#[global] Instance vault_laws {W} `{Hv : VaultLogical W} (m : VaultClient) `{!VaultLaws (mountPath m)} : SecretLaws m.
Proof.
  refine (@Build_SecretLaws _ _ _ m (λ p, p) _ _ _ _ _ _ _).
  - by intros p q w <- d.
  - intros rand p d w w' _ Hd Hs. cbn in *. unfold StoreSecret in Hs.
    destruct (lg_Write _ _ w) as [[[]|e|s] w1] eqn:Hw; [|done..]. injection Hs as <-.
    destruct (kv_written _ _ _ _ Hd Hw) as (answer & Hr & Ha). unfold GetSecret. unfold kvDataPath.
    destruct (lg_Read _ w1) as [r w2]. cbn in Hr. subst r. cbn. by rewrite Ha.
  - intros rand p d w q Hq. cbn. apply GetSecret_ext. unfold StoreSecret, kvDataPath.
    rewrite <- (kv_write_frame p {[ "data" := VMap d ]} w q Hq). by destruct (lg_Write _ _ w) as [[[]|e|s] w1].
  - intros p w w' d Hs. cbn in *. unfold DeleteSecret, kvMetadataPath in Hs.
    destruct (lg_Delete _ w) as [[[]|e|s] w1] eqn:Hw; [|done..]. injection Hs as <-.
    apply kv_deleted in Hw. unfold GetSecret, kvDataPath. destruct (lg_Read _ w1) as [r w2]. cbn in Hw. by subst r.
  - intros p w q Hq. cbn. apply GetSecret_ext. unfold DeleteSecret, kvDataPath, kvMetadataPath.
    rewrite <- (kv_delete_frame p w q Hq). by destruct (lg_Delete _ w) as [[[]|e|s] w1].
  - intros p w q. cbn. apply GetSecret_ext. unfold GetSecret, kvDataPath. rewrite <- (kv_read_frame p w q).
    destruct (lg_Read (mountPath m +:+ "/data/" +:+ p) w) as [[[a|]|e|s] w1]; done.
  - done.
Defined.

(** ** Where the files are *)

Lemma enc_name s : is_name (s +:+ ".enc").
Proof.
  assert (Hlen : ∀ x, x = s +:+ ".enc" → (4 ≤ length (bytes_of x))%nat).
  { intros x ->. rewrite bytes_of_app, length_app. cbn. lia. }
  split_and!; intros Hx; apply eq_sym, Hlen in Hx; cbn in Hx; lia.
Qed.

(** The file of a secret is below the base directory, whatever [.] and [..] its path has, provided the path
    does not climb above its own start; one that does is not stopped. *)
Theorem filePath_below {G} (m : LocalSecretManager G) path :
  is_rooted (baseDir m) = true → head (segments path) ≠ Some ".." → below (baseDir m) (filePath m path).
Proof. intros Hd Hp. apply PathJoin_ext_below; [done|apply enc_name| |done]. by apply (bool_decide_unpack _). Qed.

Lemma filePath_below_witness :
  below "/var/secrets" (filePath (mkLocalSecretManager "/var/secrets" tt) "tenants/a/../../tenants/b").
Proof. apply (filePath_below (mkLocalSecretManager "/var/secrets" tt)); [reflexivity|by vm_compute]. Defined.

Example filePath_escapes : filePath (mkLocalSecretManager "/var/secrets" tt) "../../etc/cron.d/job" = "/etc/cron.d/job.enc".
Proof. reflexivity. Qed.

(** A server in memory, with one engine. *)
#[local] Instance memory_vault : VaultLogical (gmap string obj) := {
  lg_Write p d w := (Ok tt, <[p := d]> w);
  lg_Read p w := (Ok (w !! p), w);
  lg_Delete p w := (Ok tt, delete ("secret/data/" +:+ TrimPrefix p "secret/metadata/") w);
  sys_Health w := (Ok false, w)
}.

#[local] Instance memory_vault_laws : VaultLaws (W := gmap string obj) "secret".
Proof.
  assert (Hdel : ∀ p, TrimPrefix ("secret" +:+ "/metadata/" +:+ p) "secret/metadata/" = p).
  { intros p. apply (TrimPrefix_app "secret/metadata/"). }
  split; cbn [lg_Write lg_Read lg_Delete memory_vault fst snd]; [|intros p d w q Hq|intros p w w'|intros p w q Hq|done].
  - intros p d w w' _ [= <-]. eexists. split; [by rewrite lookup_insert_eq|apply lookup_singleton_eq].
  - rewrite lookup_insert_ne; [done|]. intros Hpq. apply Hq. by injection Hpq.
  - rewrite Hdel. intros [= <-]. f_equal. apply lookup_delete_eq.
  - rewrite Hdel, lookup_delete_ne; [done|]. intros Hpq. apply Hq. by injection Hpq.
Qed.

Lemma secrets_kept_witness :
  faithful (mkVaultClient "secret") ∅
    (execute (mkVaultClient "secret") (λ n, Ok (replicate n Ascii.zero))
       [OpStore "a" {[ "password" := VString "x" ]}; OpGet "a"; OpRotate "a" {[ "password" := VString "y" ]}; OpDelete "b"; OpGet "a"]
       (∅ : gmap string obj)).
Proof.
  apply (secrets_kept (mkVaultClient "secret") (λ n, Ok (replicate n Ascii.zero))
    [OpStore "a" {[ "password" := VString "x" ]}; OpGet "a"; OpRotate "a" {[ "password" := VString "y" ]}; OpDelete "b"; OpGet "a"] ∅).
  - intros n bs [= <-]. apply length_replicate.
  - repeat constructor; by apply map_Forall_singleton.
Defined.
