(* ===== verification/ProtocolJson.v ===== *)
(** * JSON of the protocol messages: the struct tags of [pkg/protocol/protocol.go]

    What [json.Marshal] and [json.Unmarshal] make of the messages that tools pass in and out.  A slice that is empty is taken to
    be nil, which is written as [null]; [time_text] and [time_of] are the JSON form of times. *)

From S2P Require Import Prelude GoStrings Errors Value Protocol JsonDecode SyncConfig.

(** ** Encoding *)

Definition StateType_text (t : StateType) : string :=
  match t with StateTypeStream => "STREAM" | StateTypeGlobal => "GLOBAL" | StateTypeOther s => s end.
Definition StateType_of (s : string) : StateType :=
  if bool_decide (s = "STREAM") then StateTypeStream else if bool_decide (s = "GLOBAL") then StateTypeGlobal else StateTypeOther s.
Definition CheckStatus_text (s : CheckStatus) : string :=
  match s with CheckStatusSucceeded => "SUCCEEDED" | CheckStatusFailed => "FAILED" | CheckStatusOther s => s end.

Definition slice_json (l : list json) : json := match l with [] => JNull | _ => JArr l end.
Definition omit_slice (k : string) (l : list json) : list (string * json) := match l with [] => [] | _ => [(k, JArr l)] end.
Definition omit_string (k s : string) : list (string * json) := omit_when (bool_decide (s = "")) k (JStr s).
Definition paths_json (l : list (list string)) : list json := map (λ p, slice_json (map JStr p)) l.

Definition pstream_json (s : Stream) : res json :=
  schema ← raw_json (s_Schema s);
  Ok (JObj ([("name", JStr (s_Name s))] ++ omit_string "namespace" (s_Namespace s) ++ omit_string "display_name" (s_DisplayName s)
            ++ [("json_schema", schema); ("supported_sync_modes", slice_json (map (λ m, JStr (SyncMode_text m)) (s_SupportedSyncModes s)))]
            ++ omit_slice "default_cursor_field" (map JStr (s_DefaultCursorField s))
            ++ omit_when (negb (s_SourceDefinedPK s)) "source_defined_primary_key" (JBool (s_SourceDefinedPK s))
            ++ omit_slice "primary_key" (paths_json (s_PrimaryKey s)))).

Definition catalog_json (c : Catalog) : res json :=
  streams ← all_ok (map pstream_json (cat_Streams c)); Ok (JObj [("streams", slice_json streams)]).

Definition check_json (r : CheckResult) : json :=
  JObj ([("status", JStr (CheckStatus_text (cr_Status r)))] ++ omit_string "message" (cr_Message r)).

Definition state_json (s : State) : res json :=
  data ← raw_json (st_Data s);
  Ok (JObj ([("type", JStr (StateType_text (st_Type s)))] ++ omit_string "stream" (st_Stream s) ++ [("data", data)])).

Definition write_error_json (e : WriteError) : res json :=
  rec ← omit_raw "record" (we_Record e);
  Ok (JObj ([("message", JStr (we_Message e))] ++ rec ++ omit_string "error_code" (we_ErrorCode e))).

Definition write_result_json (r : WriteResult) : res json :=
  errs ← all_ok (map write_error_json (wr_Errors r));
  states ← all_ok (map state_json (wr_StateMessages r));
  Ok (JObj ([("records_written", int_json (wr_RecordsWritten r))] ++ omit_slice "errors" errs ++ omit_slice "state_messages" states)).

Section times.
Context (type_error : string → json → error) (time_text : Z → string) (time_of : string → option Z).

Definition record_json (r : Rec) : res json :=
  data ← raw_json (rec_Data r);
  Ok (JObj ([("stream", JStr (rec_Stream r))] ++ omit_string "namespace" (rec_Namespace r)
            ++ [("data", data); ("emitted_at", JStr (time_text (rec_EmittedAt r)))])).

(** ** Decoding *)

Abbreviation acc_of A := (A * option error)%type.

Definition strings_member (field : string) (old : list string) (j : json) (err : option error) : list string * option error :=
  list_member type_error (string_member type_error field "") field old j err.
Definition paths_member (field : string) (old : list (list string)) (j : json) (err : option error) : list (list string) * option error :=
  list_member type_error (strings_member field []) field old j err.

Definition pstream_member (acc : acc_of Stream) (e : string * json) : acc_of Stream :=
  let '(s, err) := acc in
  let '(k, j) := e in
  if key_matches "name" k then
    let '(x, err) := string_member type_error k (s_Name s) j err in
    (mkStream x (s_Namespace s) (s_DisplayName s) (s_Schema s) (s_SupportedSyncModes s) (s_DefaultCursorField s) (s_SourceDefinedPK s) (s_PrimaryKey s), err)
  else if key_matches "namespace" k then
    let '(x, err) := string_member type_error k (s_Namespace s) j err in
    (mkStream (s_Name s) x (s_DisplayName s) (s_Schema s) (s_SupportedSyncModes s) (s_DefaultCursorField s) (s_SourceDefinedPK s) (s_PrimaryKey s), err)
  else if key_matches "display_name" k then
    let '(x, err) := string_member type_error k (s_DisplayName s) j err in
    (mkStream (s_Name s) (s_Namespace s) x (s_Schema s) (s_SupportedSyncModes s) (s_DefaultCursorField s) (s_SourceDefinedPK s) (s_PrimaryKey s), err)
  else if key_matches "json_schema" k then
    (mkStream (s_Name s) (s_Namespace s) (s_DisplayName s) (RawDoc j) (s_SupportedSyncModes s) (s_DefaultCursorField s) (s_SourceDefinedPK s) (s_PrimaryKey s), err)
  else if key_matches "supported_sync_modes" k then
    let '(x, err) := strings_member k (map SyncMode_text (s_SupportedSyncModes s)) j err in
    (mkStream (s_Name s) (s_Namespace s) (s_DisplayName s) (s_Schema s) (map SyncMode_of x) (s_DefaultCursorField s) (s_SourceDefinedPK s) (s_PrimaryKey s), err)
  else if key_matches "default_cursor_field" k then
    let '(x, err) := strings_member k (s_DefaultCursorField s) j err in
    (mkStream (s_Name s) (s_Namespace s) (s_DisplayName s) (s_Schema s) (s_SupportedSyncModes s) x (s_SourceDefinedPK s) (s_PrimaryKey s), err)
  else if key_matches "source_defined_primary_key" k then
    let '(x, err) := bool_member type_error k (s_SourceDefinedPK s) j err in
    (mkStream (s_Name s) (s_Namespace s) (s_DisplayName s) (s_Schema s) (s_SupportedSyncModes s) (s_DefaultCursorField s) x (s_PrimaryKey s), err)
  else if key_matches "primary_key" k then
    let '(x, err) := paths_member k (s_PrimaryKey s) j err in
    (mkStream (s_Name s) (s_Namespace s) (s_DisplayName s) (s_Schema s) (s_SupportedSyncModes s) (s_DefaultCursorField s) (s_SourceDefinedPK s) x, err)
  else acc.

Definition zero_stream : Stream := mkStream "" "" "" RawEmpty [] [] false [].
Definition zero_configured : ConfiguredStream := mkConfiguredStream zero_stream (SyncModeOther "") (DestSyncModeOther "") [] [].
Definition zero_record : Rec := mkRec "" "" RawEmpty zero_time.

Definition configured_member (acc : acc_of ConfiguredStream) (e : string * json) : acc_of ConfiguredStream :=
  let '(c, err) := acc in
  let '(k, j) := e in
  if key_matches "stream" k then
    let '(x, err) := struct_member type_error pstream_member k (cs_Stream c) j err in
    (mkConfiguredStream x (cs_SyncMode c) (cs_DestinationSyncMode c) (cs_CursorField c) (cs_PrimaryKey c), err)
  else if key_matches "sync_mode" k then
    let '(x, err) := string_member type_error k (SyncMode_text (cs_SyncMode c)) j err in
    (mkConfiguredStream (cs_Stream c) (SyncMode_of x) (cs_DestinationSyncMode c) (cs_CursorField c) (cs_PrimaryKey c), err)
  else if key_matches "destination_sync_mode" k then
    let '(x, err) := string_member type_error k (DestMode_text (cs_DestinationSyncMode c)) j err in
    (mkConfiguredStream (cs_Stream c) (cs_SyncMode c) (DestMode_of x) (cs_CursorField c) (cs_PrimaryKey c), err)
  else if key_matches "cursor_field" k then
    let '(x, err) := strings_member k (cs_CursorField c) j err in
    (mkConfiguredStream (cs_Stream c) (cs_SyncMode c) (cs_DestinationSyncMode c) x (cs_PrimaryKey c), err)
  else if key_matches "primary_key" k then
    let '(x, err) := paths_member k (cs_PrimaryKey c) j err in
    (mkConfiguredStream (cs_Stream c) (cs_SyncMode c) (cs_DestinationSyncMode c) (cs_CursorField c) x, err)
  else acc.

Definition record_member (acc : acc_of Rec) (e : string * json) : acc_of Rec :=
  let '(r, err) := acc in
  let '(k, j) := e in
  if key_matches "stream" k then
    let '(x, err) := string_member type_error k (rec_Stream r) j err in (mkRec x (rec_Namespace r) (rec_Data r) (rec_EmittedAt r), err)
  else if key_matches "namespace" k then
    let '(x, err) := string_member type_error k (rec_Namespace r) j err in (mkRec (rec_Stream r) x (rec_Data r) (rec_EmittedAt r), err)
  else if key_matches "data" k then (mkRec (rec_Stream r) (rec_Namespace r) (RawDoc j) (rec_EmittedAt r), err)
  else if key_matches "emitted_at" k then
    let '(x, err) := time_member type_error time_of k (rec_EmittedAt r) j err in (mkRec (rec_Stream r) (rec_Namespace r) (rec_Data r) x, err)
  else acc.

(** ** Round trips *)

(** A raw message that can be written comes back, nil as [null]. *)
Lemma raw_roundtrip r j : raw_json r = Ok j → RawDoc j = raw_back r.
Proof. by destruct r as [|e|j']; intros [= <-]. Qed.

Lemma strings_roundtrip k l : strings_member k [] (JArr (map JStr l)) None = (l, None).
Proof. apply list_member_map. done. Qed.

Lemma strings_slice k l : strings_member k [] (slice_json (map JStr l)) None = (l, None).
Proof. destruct l as [|s l]; [done|]. apply (strings_roundtrip k (s :: l)). Qed.

Lemma paths_roundtrip k l : paths_member k [] (JArr (paths_json l)) None = (l, None).
Proof. apply list_member_map. intros p _. apply strings_slice. Qed.

Lemma SyncMode_back m : SyncMode_of (SyncMode_text m) = match m with SyncModeOther s => SyncMode_of s | m => m end.
Proof. by destruct m. Qed.

(** A mode that is not the text of another constructor. *)
Definition regular_mode (m : SyncMode) : Prop := SyncMode_of (SyncMode_text m) = m.
Definition regular_dest (m : DestinationSyncMode) : Prop := DestMode_of (DestMode_text m) = m.

Definition stream_back (s : Stream) : Stream :=
  mkStream (s_Name s) (s_Namespace s) (s_DisplayName s) (raw_back (s_Schema s)) (s_SupportedSyncModes s) (s_DefaultCursorField s) (s_SourceDefinedPK s) (s_PrimaryKey s).

Lemma modes_back ms : Forall regular_mode ms → map SyncMode_of (map SyncMode_text ms) = ms.
Proof. induction 1 as [|m ms Hm _ IH]; cbn; [done|]. by rewrite Hm, IH. Qed.

(** Decoding member by member. *)
Lemma step_member {A} (member : acc_of A → string * json → acc_of A) acc e acc' l r :
  member acc e = acc' → foldl member acc' l = r → foldl member acc (e :: l) = r.
Proof. by intros <-. Qed.

Lemma step_omit {A B} (member : acc_of A → string * json → acc_of A) (x empty : B) (build : B → A) (b : bool) k j l r :
  (b = true → x = empty) → member (build empty, None) (k, j) = (build x, None) →
  foldl member (build x, None) l = r → foldl member (build empty, None) (omit_when b k j ++ l) = r.
Proof. intros Hb Hm Hr. by rewrite foldl_app, (omit_decode member x empty b build). Qed.

Lemma step_slice {A B} (member : acc_of A → string * json → acc_of A) (x : list B) (build : list B → A) (enc : list B → list json) k l r :
  (enc x = [] → x = []) → member (build [], None) (k, JArr (enc x)) = (build x, None) →
  foldl member (build x, None) l = r → foldl member (build [], None) (omit_slice k (enc x) ++ l) = r.
Proof.
  intros He Hm <-. rewrite foldl_app. f_equal. unfold omit_slice. destruct (enc x) as [|j js] eqn:Hx; [by rewrite He|exact Hm].
Qed.

(** Streams survive the wire.  A stream that can be written is read back as it was, a nil schema as [null]. *)
Theorem stream_roundtrip s j :
  Forall regular_mode (s_SupportedSyncModes s) → pstream_json s = Ok j →
  struct_member type_error pstream_member "" zero_stream j None = (stream_back s, None).
Proof.
  intros Hm. unfold pstream_json. destruct (raw_json (s_Schema s)) as [schema|?|?] eqn:Hs; [|done..]. cbn [mbind outcome_bind]. intros [= <-].
  apply raw_roundtrip in Hs. rewrite <- (app_nil_r (omit_slice "primary_key" _)). cbn [struct_member].
  eapply step_member; [unfold pstream_member; match_keys; reflexivity|]. unfold omit_string.
  apply (step_omit pstream_member (s_Namespace s) "" (λ x, mkStream (s_Name s) x "" RawEmpty [] [] false []));
    [by intros ?%bool_decide_eq_true|by unfold pstream_member; match_keys|].
  apply (step_omit pstream_member (s_DisplayName s) "" (λ x, mkStream (s_Name s) (s_Namespace s) x RawEmpty [] [] false []));
    [by intros ?%bool_decide_eq_true|by unfold pstream_member; match_keys|].
  eapply step_member; [unfold pstream_member; match_keys; reflexivity|].
  eapply step_member; [unfold pstream_member; match_keys; rewrite <- (map_map SyncMode_text JStr); cbn [s_SupportedSyncModes map]; rewrite strings_slice, modes_back by done; reflexivity|].
  apply (step_slice pstream_member (s_DefaultCursorField s) (λ x, mkStream (s_Name s) (s_Namespace s) (s_DisplayName s) (RawDoc schema) (s_SupportedSyncModes s) x false []) (map JStr));
    [by intros ?%map_eq_nil|unfold pstream_member; match_keys; by rewrite strings_roundtrip|].
  apply (step_omit pstream_member (s_SourceDefinedPK s) false (λ x, mkStream (s_Name s) (s_Namespace s) (s_DisplayName s) (RawDoc schema) (s_SupportedSyncModes s) (s_DefaultCursorField s) x []));
    [by destruct (s_SourceDefinedPK s)|by unfold pstream_member; match_keys|].
  apply (step_slice pstream_member (s_PrimaryKey s) (λ x, mkStream (s_Name s) (s_Namespace s) (s_DisplayName s) (RawDoc schema) (s_SupportedSyncModes s) (s_DefaultCursorField s) (s_SourceDefinedPK s) x) paths_json);
    [by intros ?%map_eq_nil|unfold pstream_member; match_keys; by rewrite paths_roundtrip|].
  cbn. unfold stream_back. by rewrite Hs.
Qed.

(** Records survive the wire, when their time does; no data is read back as [null]. *)
Theorem record_roundtrip r j :
  time_of (time_text (rec_EmittedAt r)) = Some (rec_EmittedAt r) → record_json r = Ok j →
  struct_member type_error record_member "" zero_record j None =
    (mkRec (rec_Stream r) (rec_Namespace r) (raw_back (rec_Data r)) (rec_EmittedAt r), None).
Proof.
  intros Ht. unfold record_json. destruct (raw_json (rec_Data r)) as [data|?|?] eqn:Hd; [|done..]. cbn [mbind outcome_bind]. intros [= <-].
  apply raw_roundtrip in Hd. cbn [struct_member].
  eapply step_member; [unfold record_member; match_keys; reflexivity|]. unfold omit_string.
  apply (step_omit record_member (rec_Namespace r) "" (λ x, mkRec (rec_Stream r) x RawEmpty zero_time));
    [by intros ?%bool_decide_eq_true|by unfold record_member; match_keys|].
  eapply step_member; [unfold record_member; match_keys; reflexivity|].
  eapply step_member; [unfold record_member; match_keys; cbn [time_member]; rewrite Ht; reflexivity|]. cbn. by rewrite Hd.
Qed.
End times.

(** ** Concrete messages *)

Lemma stream_roundtrip_witness :
  let s := mkStream "users" "" "Users" RawEmpty [SyncModeIncremental] [] true [["id"]; []] in
  ∃ j, pstream_json s = Ok j ∧ struct_member (λ field _, ErrText field) (pstream_member (λ field _, ErrText field)) "" zero_stream j None = (stream_back s, None).
Proof.
  cbv zeta. eexists. split; [vm_compute; reflexivity|].
  apply (stream_roundtrip (λ field _, ErrText field) (mkStream "users" "" "Users" RawEmpty [SyncModeIncremental] [] true [["id"]; []]));
    [constructor; [reflexivity|constructor]|vm_compute; reflexivity].
Defined.

Lemma record_roundtrip_witness :
  let r := mkRec "users" "eu" (RawDoc (JNum (NLit "1" 1 0))) 5 in
  ∃ j, record_json pretty r = Ok j ∧
    struct_member (λ field _, ErrText field) (record_member (λ field _, ErrText field) parse_int) "" zero_record j None = (r, None).
Proof.
  cbv zeta. eexists. split; [vm_compute; reflexivity|].
  apply (record_roundtrip (λ field _, ErrText field) pretty parse_int (mkRec "users" "eu" (RawDoc (JNum (NLit "1" 1 0))) 5)); vm_compute; reflexivity.
Defined.
