(* ===== verification/McpSecurity.v ===== *)
(** * Security of the MCP gateway: [internal/mcp/security/auth.go]

    Tokens, permission rules, scopes and rate limits.  Every method is one critical section; times are
    nanoseconds.  The order in which a Go map is walked is left open: [Authenticate] walks any listing. *)

From Stdlib Require Import Ascii.
From S2P Require Import Prelude GoStrings Errors.

(** ** Tokens *)

Record AgentIdentity := mkAgentIdentity {
  ai_AgentID : string; ai_TenantID : string; ai_Scopes : list string; ai_IssuedAt : Z; ai_ExpiresAt : Z
}.

Abbreviation MCPAuthenticator := (gmap string AgentIdentity).
Definition NewMCPAuthenticator : MCPAuthenticator := ∅.
Definition RegisterToken (token : string) (identity : AgentIdentity) (a : MCPAuthenticator) : MCPAuthenticator := <[token := identity]> a.
Definition RevokeToken (token : string) (a : MCPAuthenticator) : MCPAuthenticator := delete token a.

(** The loop over the tokens, in some order. *)
Fixpoint find_token (token : string) (now : Z) (stored : list (string * AgentIdentity)) : res AgentIdentity :=
  match stored with
  | [] => Err (ErrSentinel ErrUnauthorized)
  | (s, identity) :: stored =>
      if bool_decide (token = s) then
        if negb (ai_ExpiresAt identity =? zero_time) && (ai_ExpiresAt identity <? now)
        then Err (ErrNoted (ErrSentinel ErrUnauthorized) "token expired")
        else Ok identity
      else find_token token now stored
  end.
Definition Authenticate (token : string) (now : Z) (a : MCPAuthenticator) : res AgentIdentity :=
  find_token token now (map_to_list a).

(** ** Permission rules *)

Record PermissionRule := mkPermissionRule { ToolPattern : string; Allow : bool }.
Abbreviation PermissionChecker := (gmap string (list PermissionRule)).
Definition NewPermissionChecker : PermissionChecker := ∅.
Definition SetRules (agentID : string) (rules : list PermissionRule) (p : PermissionChecker) : PermissionChecker := <[agentID := rules]> p.

Definition matchPattern (pattern name : string) : bool :=
  if bool_decide (pattern = "*") then true
  else if negb (contains_byte pattern "*") then bool_decide (pattern = name)
  else if HasSuffix pattern "*" then HasPrefix name (TrimSuffix pattern "*")
  else if HasPrefix pattern "*" then HasSuffix name (TrimPrefix pattern "*")
  else match SplitN2 pattern "*" with
       | [before; after] => HasPrefix name before && HasSuffix name after
       | _ => false    (* not reached: the pattern has a star *)
       end.

(** The last rule that matches decides. *)
Definition Check (p : PermissionChecker) (agentID toolName : string) : bool :=
  match p !! agentID with
  | None | Some [] => false
  | Some rules => foldl (λ allowed rule, if matchPattern (ToolPattern rule) toolName then Allow rule else allowed) false rules
  end.

(** ** Scopes *)

Abbreviation ScopeEnforcer := (gmap string (list string)).
Definition NewScopeEnforcer : ScopeEnforcer := ∅.
Definition SetToolScopes (toolName : string) (required : list string) (s : ScopeEnforcer) : ScopeEnforcer := <[toolName := required]> s.

Definition scope_granted (agentSet : gset string) (req : string) : bool :=
  bool_decide (req ∈ agentSet)
  || match SplitN2 req ":" with
     | [area; _] => bool_decide (area +:+ ":*" ∈ agentSet)
     | _ => false
     end
  || bool_decide ("*" ∈ agentSet).

Fixpoint enforce_loop (toolName : string) (agentSet : gset string) (required : list string) : res unit :=
  match required with
  | [] => Ok tt
  | req :: required =>
      if scope_granted agentSet req then enforce_loop toolName agentSet required
      else Err (ErrNoted (ErrSentinel ErrForbidden) ("missing scope " +:+ quote req +:+ " for tool " +:+ quote toolName))
  end.
Definition Enforce (s : ScopeEnforcer) (toolName : string) (agentScopes : list string) : res unit :=
  enforce_loop toolName (list_to_set agentScopes) (default [] (s !! toolName)).

(** ** Rate limits *)

Record rateLimitWindow := mkWindow { count : Z; windowStart : Z }.
Record RateLimiter := mkRateLimiter { windows : gmap string rateLimitWindow; limit : Z; interval : Z }.
Definition NewRateLimiter (requestsPerMinute : Z) : RateLimiter := mkRateLimiter ∅ requestsPerMinute (60 * second).

Definition with_windows (r : RateLimiter) (ws : gmap string rateLimitWindow) : RateLimiter := mkRateLimiter ws (limit r) (interval r).

(** The interval is printed by [time.Duration.String]. *)
Definition exceeded (duration_text : Z → string) (r : RateLimiter) (agentID : string) : error :=
  ErrNoted (ErrSentinel ErrRateLimited)
    ("agent " +:+ agentID +:+ " exceeded " +:+ pretty (limit r) +:+ " requests per " +:+ duration_text (interval r)).

Section limiter.
Context (duration_text : Z → string).

Definition Limit_Allow (agentID : string) (now : Z) (r : RateLimiter) : res unit * RateLimiter :=
  let fresh := (Ok tt, with_windows r (<[agentID := mkWindow 1 now]> (windows r))) in
  match windows r !! agentID with
  | None => fresh
  | Some w =>
      if interval r <=? time_sub now (windowStart w) then fresh
      else
        let w := mkWindow (count w + 1) (windowStart w) in
        (if limit r <? count w then Err (exceeded duration_text r agentID) else Ok tt,
         with_windows r (<[agentID := w]> (windows r)))
  end.
End limiter.

Definition Limit_Reset (agentID : string) (r : RateLimiter) : RateLimiter := with_windows r (delete agentID (windows r)).

Definition Cleanup (now : Z) (r : RateLimiter) : RateLimiter :=
  with_windows r (omap (λ w, if interval r * 2 <=? time_sub now (windowStart w) then None else Some w) (windows r)).

(** ** Tokens: what authenticates *)

Lemma find_token_lookup token now (l : list (string * AgentIdentity)) (a : MCPAuthenticator) :
  NoDup l.*1 → (list_to_map l : MCPAuthenticator) = a →
  find_token token now l =
    match a !! token with
    | None => Err (ErrSentinel ErrUnauthorized)
    | Some i => if negb (ai_ExpiresAt i =? zero_time) && (ai_ExpiresAt i <? now)
                then Err (ErrNoted (ErrSentinel ErrUnauthorized) "token expired") else Ok i
    end.
Proof.
  intros Hnd <-. induction l as [|[s i] l IH]; [done|]. cbn [find_token].
  rewrite list_to_map_cons. apply list.NoDup_cons in Hnd as [_ Hnd]. case_bool_decide as Hs.
  - subst s. by rewrite lookup_insert_eq.
  - by rewrite IH, lookup_insert_ne.
Qed.

(** A token authenticates as an identity exactly when it was registered with it last, was not revoked and
    has not expired, in whatever order the tokens are walked; otherwise the error is an unauthorized one. *)
Theorem Authenticate_spec token now (a : MCPAuthenticator) listing :
  listing ≡ₚ map_to_list a →
  find_token token now listing = Authenticate token now a ∧
  (∀ i, Authenticate token now a = Ok i ↔
     a !! token = Some i ∧ (ai_ExpiresAt i = zero_time ∨ now ≤ ai_ExpiresAt i)) ∧
  (∀ e, Authenticate token now a = Err e → errors_Is e ErrUnauthorized = true).
Proof.
  intros Hl. unfold Authenticate.
  assert (Hnd : NoDup listing.*1) by (rewrite Hl; apply NoDup_fst_map_to_list).
  rewrite (find_token_lookup _ _ listing a Hnd) by (by rewrite (list_to_map_proper _ _ Hnd Hl), list_to_map_to_list).
  rewrite (find_token_lookup _ _ (map_to_list a) a) by (apply NoDup_fst_map_to_list || apply list_to_map_to_list).
  split; [done|]. destruct (a !! token) as [i|]; [|naive_solver].
  destruct (Z.eqb_spec (ai_ExpiresAt i) zero_time), (Z.ltb_spec (ai_ExpiresAt i) now); cbn; naive_solver lia.
Qed.

Lemma Authenticate_spec_witness :
  let a := RegisterToken "t" (mkAgentIdentity "agent" "tenant" [] 0 zero_time) NewMCPAuthenticator in
  Authenticate "t" 5 a = Ok (mkAgentIdentity "agent" "tenant" [] 0 zero_time).
Proof.
  cbv zeta. apply (Authenticate_spec "t" 5 (RegisterToken "t" (mkAgentIdentity "agent" "tenant" [] 0 zero_time) NewMCPAuthenticator) _ (reflexivity _)).
  split; [reflexivity|by left].
Defined.

(** ** Patterns: the documented meaning *)

(** [*] stands for any bytes, everything else for itself. *)
Inductive glob : list ascii → list ascii → Prop :=
| glob_nil : glob [] []
| glob_char c p n : c ≠ "*"%char → glob p n → glob (c :: p) (c :: n)
| glob_star mid p n : glob p n → glob ("*"%char :: p) (mid ++ n).

Lemma glob_literal p n : "*"%char ∉ p → glob p n ↔ n = p.
Proof.
  intros Hp. split.
  - induction 1 as [|c p n Hc _ IH|mid p n _ IH]; [done| |by exfalso; apply Hp; left].
    f_equal. apply IH. by intros ?; apply Hp; right.
  - intros ->. induction p as [|c p IH]; [constructor|]. apply not_elem_of_cons in Hp as [Hc Hp]. constructor; [congruence|by apply IH].
Qed.

Lemma glob_prefix a p n : "*"%char ∉ a → glob (a ++ p) n ↔ ∃ n', n = a ++ n' ∧ glob p n'.
Proof.
  intros Ha. revert n. induction a as [|c a IH]; intros n; cbn; [naive_solver|].
  apply not_elem_of_cons in Ha as [Hc Ha]. split.
  - intros Hg. inversion Hg as [|? ? ? ? Hr|]; subst; [|congruence]. apply IH in Hr as (n' & -> & Hn'); [|done]. eauto.
  - intros (n' & -> & Hn'). constructor; [congruence|]. apply IH; eauto.
Qed.

Lemma glob_one_star a b n :
  "*"%char ∉ a → "*"%char ∉ b → glob (a ++ "*"%char :: b) n ↔ ∃ mid, n = a ++ mid ++ b.
Proof.
  intros Ha Hb. rewrite glob_prefix by done. split.
  - intros (n' & -> & Hg). inversion Hg as [| |mid ? ? Hr]; subst; [done|]. apply glob_literal in Hr as ->; [|done]. eauto.
  - intros (mid & ->). eexists. split; [done|]. constructor. by apply glob_literal.
Qed.

Lemma contains_star a b : contains_byte (a +:+ String "*" b) "*" = true.
Proof.
  unfold contains_byte. rewrite bool_decide_eq_true, bytes_of_app. apply list.elem_of_app. right. apply list_elem_of_here.
Qed.

(** A pattern with one star: the name begins and ends as the pattern does. *)
Lemma matchPattern_one_star a b name :
  "*"%char ∉ bytes_of a → "*"%char ∉ bytes_of b →
  matchPattern (a +:+ String "*" b) name = HasPrefix name a && HasSuffix name b.
Proof.
  intros Ha Hb. unfold matchPattern. rewrite contains_star. cbn [negb].
  assert (Hp0 : ∀ s, HasPrefix s "" = true) by (intros s; apply HasPrefix_iff; by exists s).
  assert (Hs0 : ∀ s, HasSuffix s "" = true).
  { intros s. apply HasSuffix_iff. exists s. apply bytes_inj. by rewrite bytes_of_app, app_nil_r. }
  case_bool_decide as Hstar.
  { destruct a as [|c a]; [|exfalso; apply (f_equal (λ s, length (bytes_of s))) in Hstar; rewrite bytes_of_app, length_app in Hstar; cbn in Hstar; lia].
    destruct b; [|done]. by rewrite Hp0, Hs0. }
  destruct (HasSuffix (a +:+ String "*" b) "*") eqn:Hsuf.
  - assert (b = "") as ->.
    { apply HasSuffix_iff in Hsuf as [r Hr]. apply (f_equal (λ s, reverse (bytes_of s))) in Hr.
      rewrite !bytes_of_app in Hr. cbn in Hr. rewrite !reverse_app, reverse_cons in Hr. cbn in Hr.
      destruct (reverse (bytes_of b)) as [|c l] eqn:Hrev.
      - apply bytes_inj. cbn. by rewrite <- (reverse_involutive (bytes_of b)), Hrev.
      - injection Hr as -> _. exfalso. apply Hb. apply elem_of_reverse. rewrite Hrev. by left. }
    rewrite Hs0, andb_true_r. by rewrite (TrimSuffix_app a "*").
  - destruct (HasPrefix (a +:+ String "*" b) "*") eqn:Hpre.
    + assert (a = "") as ->.
      { destruct a as [|c a]; [done|]. exfalso. apply HasPrefix_iff in Hpre as [r Hr]. injection Hr as -> _. by destruct Ha; left. }
      rewrite Hp0. cbn [andb]. change ("" +:+ String "*" b) with ("*" +:+ b). by rewrite TrimPrefix_app.
    + by rewrite SplitN2_sep.
Qed.

(** What patterns allow.  A pattern without a star matches its own name.  One with a star matches the names that begin
    and end as it does; that is the documented meaning ([*] for any bytes) for the names long enough to
    hold both parts, and a shorter name whose ends overlap is matched although it should not be. *)
Theorem matchPattern_spec a b name :
  "*"%char ∉ bytes_of a → "*"%char ∉ bytes_of b →
  (matchPattern a name = true ↔ glob (bytes_of a) (bytes_of name)) ∧
  (glob (bytes_of (a +:+ String "*" b)) (bytes_of name) ↔
     matchPattern (a +:+ String "*" b) name = true ∧ (String.length a + String.length b ≤ String.length name)%nat).
Proof.
  intros Ha Hb. split.
  - rewrite glob_literal by done. unfold matchPattern. case_bool_decide as Hs; [subst a; by destruct Ha; left|].
    unfold contains_byte. rewrite bool_decide_eq_false_2 by done. cbn [negb]. rewrite bool_decide_eq_true.
    split; [by intros ->|]. intros Hn. by apply bytes_inj.
  - rewrite matchPattern_one_star, bytes_of_app by done. cbn [bytes_of String.list_ascii_of_string].
    rewrite (glob_one_star (bytes_of a) (bytes_of b)) by done.
    rewrite andb_true_iff, HasPrefix_iff, HasSuffix_iff, !length_bytes. split.
    + intros (mid & Hm). split_and!.
      * exists (of_bytes mid +:+ b). apply bytes_inj. rewrite !bytes_of_app, Hm. by rewrite bytes_of_bytes.
      * exists (a +:+ of_bytes mid). apply bytes_inj. by rewrite !bytes_of_app, Hm, bytes_of_bytes, app_assoc.
      * rewrite Hm, !length_app. lia.
    + intros [[[r ->] [r' Hr']] Hlen]. rewrite bytes_of_app in *. rewrite length_app in Hlen.
      apply (f_equal bytes_of) in Hr'. rewrite !bytes_of_app in Hr'.
      exists (take (length (bytes_of r) - length (bytes_of b)) (bytes_of r)). f_equal.
      rewrite <- (take_drop (length (bytes_of r) - length (bytes_of b)) (bytes_of r)) at 1. f_equal.
      apply (f_equal (λ l, drop (length l - length (bytes_of b)) l)) in Hr'.
      rewrite !length_app in Hr'. replace (length (bytes_of r') + _ - _)%nat with (length (bytes_of r')) in Hr' by lia.
      rewrite drop_app_length in Hr'. etrans; [|exact Hr']. rewrite drop_app_ge by lia. f_equal. lia.
Qed.

Lemma matchPattern_spec_witness :
  (matchPattern "list" "list" = true ↔ glob (bytes_of "list") (bytes_of "list")) ∧
  (glob (bytes_of "pg_*_rw") (bytes_of "pg_rw") ↔ matchPattern "pg_*_rw" "pg_rw" = true ∧ (6 ≤ 5)%nat).
Proof.
  split; [apply (matchPattern_spec "list" "" "list"); by apply (bool_decide_unpack _)
         |apply (matchPattern_spec "pg_" "_rw" "pg_rw"); by apply (bool_decide_unpack _)].
Defined.

(** The overlap, and a pattern with two stars. *)
Example overlap_matches : matchPattern "pg_*_rw" "pg_rw" = true.
Proof. reflexivity. Qed.
Example two_stars : (matchPattern "a*b*" "axby", matchPattern "a*b*" "a*b and more") = (false, true).
Proof. reflexivity. Qed.

(** ** Rules and scopes: who may call *)

Lemma check_loop rules name acc :
  foldl (λ allowed rule, if matchPattern (ToolPattern rule) name then Allow rule else allowed) acc rules = true ↔
  (acc = true ∧ Forall (λ r, matchPattern (ToolPattern r) name = false) rules) ∨
  ∃ before rule after, rules = before ++ rule :: after ∧ matchPattern (ToolPattern rule) name = true ∧ Allow rule = true ∧
    Forall (λ r, matchPattern (ToolPattern r) name = false) after.
Proof.
  induction rules as [|rule rules IH] using rev_ind; cbn.
  - split; [intros ->; by left|]. intros [[-> _]|(before & rule & after & Hr & _)]; [done|by destruct before].
  - rewrite foldl_app. cbn. destruct (matchPattern (ToolPattern rule) name) eqn:Hm.
    + split.
      * intros Ha. right. by exists rules, rule, [].
      * intros [[_ Hf]|(before & rule' & after & Hr & Hm' & Ha & Hf)].
        { apply list.Forall_app in Hf as [_ [Hf _]%list.Forall_cons]. congruence. }
        destruct after as [|x after _] using rev_ind; [by apply app_inj_2 in Hr as [_ [= ->]]|].
        rewrite app_comm_cons, app_assoc in Hr. apply app_inj_2 in Hr as [_ [= ->]]; [|done].
        apply list.Forall_app in Hf as [_ [Hf _]%list.Forall_cons]. congruence.
    + rewrite IH, list.Forall_app, list.Forall_cons. split.
      * intros [[-> Hf]|(before & rule' & after & -> & Hm' & Ha & Hf)]; [left; by repeat constructor|right].
        exists before, rule', (after ++ [rule]). rewrite list.Forall_app. split_and!; [by rewrite <- app_assoc|done..|by constructor].
      * intros [[-> [Hf _]]|(before & rule' & after & Hr & Hm' & Ha & Hf)]; [by left|right].
        destruct after as [|x after _] using rev_ind; [apply app_inj_2 in Hr as [_ [= ->]]; [congruence|done]|].
        rewrite app_comm_cons, app_assoc in Hr. apply app_inj_2 in Hr as [-> [= ->]]; [|done].
        apply list.Forall_app in Hf as [Hf _]. by exists before, rule', after.
Qed.

(** A call is permitted exactly when, of the agent's rules that match the tool, the last one allows it; an
    agent without rules may call nothing. *)
Theorem Check_last_rule p agentID toolName :
  Check p agentID toolName = true ↔
  ∃ before rule after, p !! agentID = Some (before ++ rule :: after) ∧
    matchPattern (ToolPattern rule) toolName = true ∧ Allow rule = true ∧
    Forall (λ r, matchPattern (ToolPattern r) toolName = false) after.
Proof.
  unfold Check. destruct (p !! agentID) as [[|r rules]|].
  - split; [done|]. intros (before & rule & after & [= Hr] & _). by destruct before.
  - rewrite check_loop. split; [intros [[? _]|(b & ru & a & -> & H)]; [done|by exists b, ru, a]|].
    intros (b & ru & a & [= ->] & H). right. by exists b, ru, a.
  - split; [done|]. by intros (b & ru & a & [=] & _).
Qed.

(** Scopes are enforced.  A tool may be called exactly when each scope it requires is held, as it is, by the
    wildcard of its area or by the wildcard of everything; a refusal is a forbidden error. *)
Theorem Enforce_spec s toolName agentScopes :
  (Enforce s toolName agentScopes = Ok tt ↔
    Forall (λ req, req ∈ agentScopes ∨ "*" ∈ agentScopes ∨
                   ∃ area rest, SplitN2 req ":" = [area; rest] ∧ area +:+ ":*" ∈ agentScopes) (default [] (s !! toolName))) ∧
  (∀ e, Enforce s toolName agentScopes = Err e → errors_Is e ErrForbidden = true).
Proof.
  unfold Enforce. induction (default [] (s !! toolName)) as [|req required [IH IHe]]; cbn; [done|].
  assert (Hg : scope_granted (list_to_set agentScopes) req = true ↔
    req ∈ agentScopes ∨ "*" ∈ agentScopes ∨ ∃ area rest, SplitN2 req ":" = [area; rest] ∧ area +:+ ":*" ∈ agentScopes).
  { unfold scope_granted. rewrite !orb_true_iff, !bool_decide_eq_true, !elem_of_list_to_set.
    destruct (SplitN2 req ":") as [|area [|rest [|x l]]]; try naive_solver.
    rewrite bool_decide_eq_true, elem_of_list_to_set. naive_solver. }
  rewrite list.Forall_cons, <- Hg. destruct (scope_granted _ req).
  - split; [rewrite IH; naive_solver|done].
  - split; [naive_solver|by intros e [= <-]].
Qed.

(** ** How much the rate limiter lets through *)

Section bound.
Context (duration_text : Z → string).

Inductive limiter_op := LAllow (agentID : string) (now : Z) | LReset (agentID : string) | LCleanup (now : Z).

Definition limiter_step (r : RateLimiter) (o : limiter_op) : RateLimiter :=
  match o with
  | LAllow id now => (Limit_Allow duration_text id now r).2
  | LReset id => Limit_Reset id r
  | LCleanup now => Cleanup now r
  end.

Definition passes (r : res unit) : bool := match r with Ok _ => true | _ => false end.

(** How many of the requests that arrive are let through for one agent. *)
Fixpoint granted (agentID : string) (arrivals : list (string * Z)) (r : RateLimiter) : Z :=
  match arrivals with
  | [] => 0
  | (id, now) :: arrivals =>
      (if bool_decide (id = agentID) && passes (Limit_Allow duration_text id now r).1 then 1 else 0)
      + granted agentID arrivals (Limit_Allow duration_text id now r).2
  end.

Definition counted (r : RateLimiter) : Prop := map_Forall (λ _ w, 1 ≤ count w) (windows r).

Lemma limiter_step_same r o : limit (limiter_step r o) = limit r ∧ interval (limiter_step r o) = interval r.
Proof. destruct o as [id now|id|now]; [|done..]. cbn. unfold Limit_Allow. destruct (windows r !! id); [|done]. by destruct (_ <=? _). Qed.

Lemma limiter_step_counted r o : counted r → counted (limiter_step r o).
Proof.
  unfold counted. intros Hr. destruct o as [id now|id|now]; cbn.
  - unfold Limit_Allow. destruct (windows r !! id) as [w|] eqn:Hw; [|apply map_Forall_insert_2; [cbn; lia|done]].
    destruct (_ <=? _); apply map_Forall_insert_2; cbn; [lia|done| |done]. specialize (Hr id w Hw). cbn in Hr. lia.
  - by apply map_Forall_delete.
  - intros i w. rewrite lookup_omap. destruct (windows r !! i) as [w'|] eqn:Hw; [|done]. cbn.
    destruct (_ <=? _); [done|]. intros [= <-]. by apply (Hr i).
Qed.

Lemma not_over r now start :
  interval r = 60 * second → now < start + 60 * second → (interval r <=? time_sub now start) = false.
Proof.
  intros -> Hn. apply Z.leb_gt. unfold time_sub, int64_min, int64_max, second.
  destruct (Z.ltb_spec (now - start) (-9223372036854775808)); [lia|].
  destruct (Z.ltb_spec 9223372036854775807 (now - start)); unfold second in Hn; lia.
Qed.

Lemma allow_other id agentID now r : id ≠ agentID → windows (Limit_Allow duration_text id now r).2 !! agentID = windows r !! agentID.
Proof.
  intros Hne. unfold Limit_Allow. destruct (windows r !! id) as [w|]; [destruct (_ <=? _)|]; cbn; by rewrite lookup_insert_ne.
Qed.

(** In a window that does not end during the arrivals, what is left of the limit. *)
Lemma granted_in_window agentID arrivals r w t0 :
  interval r = 60 * second → windows r !! agentID = Some w → t0 ≤ windowStart w →
  Forall (λ a, a.2 < t0 + 60 * second) arrivals → granted agentID arrivals r ≤ Z.max 0 (limit r - count w).
Proof.
  intros Hi Hw Ht Ha. revert r w Hi Hw Ht. induction Ha as [|[id now] arrivals Hnow _ IH]; intros r w Hi Hw Ht; cbn [granted]; [lia|].
  destruct (limiter_step_same r (LAllow id now)) as [Hl Hi']. cbn [limiter_step] in Hl, Hi'.
  case_bool_decide as Hid; cbn [andb].
  - subst id. specialize (IH (Limit_Allow duration_text agentID now r).2 (mkWindow (count w + 1) (windowStart w))).
    rewrite Hl in IH. unfold Limit_Allow in *. rewrite Hw, not_over in * by (cbn in Hnow; lia || done). cbn [snd fst windows with_windows count windowStart interval] in *.
    specialize (IH Hi ltac:(by rewrite lookup_insert_eq) Ht).
    destruct (Z.ltb_spec (limit r) (count w + 1)); cbn [passes]; lia.
  - rewrite <- Hl. apply IH; [by rewrite Hi'|by rewrite allow_other|done].
Qed.

(** C8: the rate limit bounds bursts.  Whatever happened before, within any minute at most twice the limit
    less one requests of an agent are let through (one, when the limit is not positive); what other
    agents do has no influence. *)
Theorem rate_limit_bound requestsPerMinute before agentID arrivals t0 :
  let r := foldl limiter_step (NewRateLimiter requestsPerMinute) before in
  Forall (λ a, t0 ≤ a.2 < t0 + 60 * second) arrivals →
  granted agentID arrivals r ≤ Z.max 1 (2 * requestsPerMinute - 1).
Proof.
  intros r. assert (Hr : interval r = 60 * second ∧ limit r = requestsPerMinute ∧ counted r).
  { subst r. assert (H0 : interval (NewRateLimiter requestsPerMinute) = 60 * second ∧ limit (NewRateLimiter requestsPerMinute) = requestsPerMinute ∧
                          counted (NewRateLimiter requestsPerMinute)) by (split_and!; [done..|apply map_Forall_empty]).
    revert H0. generalize (NewRateLimiter requestsPerMinute). induction before as [|o before IH]; intros r H0; [done|]. cbn. apply IH.
    destruct (limiter_step_same r o) as [-> ->], H0 as (? & ? & ?). split_and!; [done..|by apply limiter_step_counted]. }
  destruct Hr as (Hi & Hl & Hc). rewrite <- Hl. clearbody r. clear Hl requestsPerMinute before. intros Ha.
  assert (Hgo : granted agentID arrivals r ≤
    match windows r !! agentID with Some w => Z.max 0 (limit r - count w) + Z.max 1 (limit r) | None => Z.max 1 (limit r) end).
  2: { destruct (windows r !! agentID) as [w|] eqn:Hw; [|lia]. specialize (Hc _ _ Hw). cbn in Hc. lia. }
  revert r Hi Hc. induction Ha as [|[id now] arrivals Hnow Ha IH]; intros r Hi Hc; cbn [granted].
  { destruct (windows r !! agentID); lia. }
  destruct (limiter_step_same r (LAllow id now)) as [Hl' Hi']. pose proof (limiter_step_counted r (LAllow id now) Hc) as Hc'.
  cbn [limiter_step] in Hl', Hi', Hc'. case_bool_decide as Hid; cbn [andb].
  - subst id. cbn in Hnow.
    assert (Hfresh : granted agentID arrivals (with_windows r (<[agentID := mkWindow 1 now]> (windows r))) ≤ Z.max 0 (limit r - 1)).
    { apply (granted_in_window agentID arrivals (with_windows r (<[agentID := mkWindow 1 now]> (windows r))) (mkWindow 1 now) t0); [done|cbn; by rewrite lookup_insert_eq|cbn; lia|].
      eapply list.Forall_impl; [exact Ha|]. cbn. lia. }
    specialize (IH (Limit_Allow duration_text agentID now r).2). rewrite Hi', Hl' in IH. specialize (IH Hi Hc').
    unfold Limit_Allow in *. destruct (windows r !! agentID) as [w|] eqn:Hw; cbn [fst snd windows with_windows count windowStart] in *.
    + destruct (_ <=? time_sub _ _) eqn:Hover; cbn [fst snd windows with_windows count windowStart] in *.
      * cbn [passes]. lia.
      * rewrite lookup_insert_eq in IH. cbn [count] in IH.
        destruct (Z.ltb_spec (limit r) (count w + 1)); cbn [passes]; lia.
    + cbn [passes]. lia.
  - specialize (IH (Limit_Allow duration_text id now r).2). rewrite allow_other, Hl', Hi' in IH by done. by apply IH.
Qed.

(** Removing the windows that are over does not change what is let through. *)
Lemma Cleanup_invisible r now later agentID :
  interval r = 60 * second → now ≤ later → (Limit_Allow duration_text agentID later (Cleanup now r)).1 = (Limit_Allow duration_text agentID later r).1.
Proof.
  intros Hi Hn. unfold Limit_Allow, Cleanup. cbn [windows with_windows interval limit]. rewrite lookup_omap.
  destruct (windows r !! agentID) as [w|]; [|done]. cbn [mbind option_bind]. rewrite Hi.
  destruct (Z.leb_spec (60 * second * 2) (time_sub now (windowStart w))) as [Ho|Ho]; [|by destruct (60 * second <=? time_sub later (windowStart w))].
  assert (Hover : 60 * second ≤ time_sub later (windowStart w)).
  { revert Ho. unfold time_sub, int64_min, int64_max, second.
    repeat match goal with |- context [?a <? ?b] => destruct (Z.ltb_spec a b) end; lia. }
  by rewrite (proj2 (Z.leb_le _ _) Hover).
Qed.
End bound.

Lemma rate_limit_bound_witness :
  granted (λ _, "1m0s") "a" [("a", 60 * second); ("a", 61 * second)]
    (foldl (limiter_step (λ _, "1m0s")) (NewRateLimiter 2) [LAllow "a" (30 * second); LAllow "a" (59 * second)]) ≤ Z.max 1 (2 * 2 - 1).
Proof. apply (rate_limit_bound (λ _, "1m0s") 2 [LAllow "a" (30 * second); LAllow "a" (59 * second)] "a" [("a", 60 * second); ("a", 61 * second)] (45 * second)).
  repeat (constructor; [cbn; unfold second; lia|]). constructor.
Defined.

(** The window is fixed, not sliding: with a limit of three, five requests pass within two seconds. *)
Example burst_across_windows :
  granted (λ _, "1m0s") "a" (map (λ t, ("a", t * second)) [59; 59; 60; 60; 60]) (foldl (limiter_step (λ _, "1m0s")) (NewRateLimiter 3) [LAllow "a" 0]) = 5.
Proof. reflexivity. Qed.
