(* ===== verification/Sandbox.v ===== *)
(** * Tool registry and sandbox of the MCP gateway: [internal/mcp/tools/registry.go], [internal/mcp/security/sandbox.go]

    A tool's handler works on a world [W]; what it returns is a text.  [Execute] runs it in a goroutine and waits for it, for
    the deadline or for the caller's cancellation, whichever comes first; which one does is part of the environment of
    a call, with the clock and the memory in use.  A handler that is not waited for any more still has its
    effects.  Logging is left out. *)

From Stdlib Require Import Sorted.
From stdpp Require Import sorting.
From S2P Require Import Prelude GoStrings Errors Value.

(** ** Tools *)

Record ToolDefinition (W : Type) := mkToolDefinition {
  td_Name : string; td_Description : string; td_InputSchema : RawMessage; td_Category : string; td_Connector : string;
  td_Handler : RawMessage → W → res string * W
}.
Arguments mkToolDefinition {W}. Arguments td_Name {W}. Arguments td_Description {W}. Arguments td_InputSchema {W}.
Arguments td_Category {W}. Arguments td_Connector {W}. Arguments td_Handler {W}.

Record ToolFilter := mkToolFilter { tf_Category : string; tf_Connector : string; tf_Prefix : string }.

Section registry.
Context {W : Type}.

Abbreviation ToolRegistry := (gmap string (ToolDefinition W)).
Definition NewToolRegistry : ToolRegistry := ∅.
Definition RegisterTool (tool : ToolDefinition W) (r : ToolRegistry) : ToolRegistry := <[td_Name tool := tool]> r.
Definition RegisterTools (tools : list (ToolDefinition W)) (r : ToolRegistry) : ToolRegistry := foldl (λ r t, <[td_Name t := t]> r) r tools.
Definition UnregisterTool (name : string) (r : ToolRegistry) : ToolRegistry := delete name r.
Definition GetTool (name : string) (r : ToolRegistry) : option (ToolDefinition W) := r !! name.

Definition tool_selected (filter : ToolFilter) (t : ToolDefinition W) : bool :=
  if negb (bool_decide (tf_Category filter = "")) && negb (bool_decide (td_Category t = tf_Category filter)) then false
  else if negb (bool_decide (tf_Connector filter = "")) && negb (bool_decide (td_Connector t = tf_Connector filter)) then false
  else if negb (bool_decide (tf_Prefix filter = "")) && negb (HasPrefix (td_Name t) (tf_Prefix filter)) then false
  else true.

(** The tools in the order of their names, which are the keys. *)
Definition ListTools (filter : ToolFilter) (r : ToolRegistry) : list (ToolDefinition W) :=
  List.filter (tool_selected filter) (map snd (sorted_entries r)).
Definition Count (r : ToolRegistry) : Z := Z.of_nat (size r).
End registry.

(** ** Sandbox *)

Definition DefaultMaxDuration : Z := 30 * second.
Definition DefaultMaxOutputSize : Z := 1048576.
Definition DefaultMaxMemoryMB : Z := 256.

Record SandboxConfig := mkSandboxConfig { MaxDuration : Z; MaxOutputSize : Z; MaxMemoryMB : Z }.

Record AuditEntry := mkAuditEntry {
  en_Timestamp : Z; en_AgentID : string; en_TenantID : string; en_ToolName : string; en_Params : RawMessage;
  en_DurationMS : Z; en_OutputSize : Z; en_Success : bool; en_Error : string
}.

Record Sandbox (W : Type) := mkSandbox {
  sb_config : SandboxConfig; auditLogger : option (AuditEntry → W → W); auditLog : list AuditEntry; execCount : Z
}.
Arguments mkSandbox {W}. Arguments sb_config {W}. Arguments auditLogger {W}. Arguments auditLog {W}. Arguments execCount {W}.

(** What the call waits for first, and the readings of a call. *)
Inductive first_event := Finished | TimedOut | CallerDone (err : error).
Record call_env := mkCallEnv { ce_start : Z; ce_end : Z; ce_alloc : Z; ce_first : first_event }.

Section sandbox.
Context {W : Type} (duration_text : Z → string).

Definition nonzero_or (default z : Z) : Z := if z =? 0 then default else z.

Definition NewSandbox (config : SandboxConfig) : Sandbox W :=
  mkSandbox (mkSandboxConfig (nonzero_or DefaultMaxDuration (MaxDuration config)) (nonzero_or DefaultMaxOutputSize (MaxOutputSize config))
               (nonzero_or DefaultMaxMemoryMB (MaxMemoryMB config))) None [] 0.

Definition SetAuditLogger (logger : option (AuditEntry → W → W)) (s : Sandbox W) : Sandbox W :=
  mkSandbox (sb_config s) logger (auditLog s) (execCount s).

Definition recordAudit (entry : AuditEntry) (s : Sandbox W) (w : W) : Sandbox W * W :=
  (mkSandbox (sb_config s) (auditLogger s) (auditLog s ++ [entry]) (execCount s),
   match auditLogger s with Some logger => logger entry w | None => w end).

(** A panic of the handler becomes an error. *)
Definition recovered (tool : ToolDefinition W) (r : res string) : res string :=
  match r with
  | Panic m => Err (ErrText ("tool " +:+ td_Name tool +:+ " panicked: " +:+ m))
  | r => r
  end.

(** The body of [Execute] up to its deferred function. *)
Definition run_tool (s : Sandbox W) (tool : ToolDefinition W) (params : RawMessage) (env : call_env) (w : W) : res string * W :=
  let currentMB := ce_alloc env / (1024 * 1024) in
  if MaxMemoryMB (sb_config s) <? currentMB
  then (Err (ErrText ("memory limit exceeded: current " +:+ pretty currentMB +:+ "MB > max " +:+ pretty (MaxMemoryMB (sb_config s)) +:+ "MB")), w)
  else
    let '(r, w) := td_Handler tool params w in
    (match ce_first env with
     | CallerDone e => Err e
     | TimedOut => Err (ErrText ("tool " +:+ td_Name tool +:+ " execution timed out after " +:+ duration_text (MaxDuration (sb_config s))))
     | Finished =>
         match recovered tool r with
         | Ok data =>
             let size := Z.of_nat (String.length data) in
             if MaxOutputSize (sb_config s) <? size
             then Err (ErrText ("tool " +:+ td_Name tool +:+ " output size " +:+ pretty size +:+ " exceeds limit " +:+ pretty (MaxOutputSize (sb_config s))))
             else Ok data
         | r => r
         end
     end, w).

Definition entry_of (tool : ToolDefinition W) (params : RawMessage) (agentID tenantID : string) (env : call_env) (r : res string) : AuditEntry :=
  mkAuditEntry (ce_start env) agentID tenantID (td_Name tool) params (Z.quot (time_sub (ce_end env) (ce_start env)) millisecond)
    (match r with Ok data => Z.of_nat (String.length data) | _ => 0 end)
    (match r with Ok _ => true | _ => false end)
    (match r with Err e => Error e | _ => "" end).

Definition Execute (s : Sandbox W) (tool : ToolDefinition W) (params : RawMessage) (agentID tenantID : string) (env : call_env) (w : W) :
    res string * Sandbox W * W :=
  let s := mkSandbox (sb_config s) (auditLogger s) (auditLog s) (execCount s +ᵢ 1) in
  let '(r, w) := run_tool s tool params env w in
  let '(s, w) := recordAudit (entry_of tool params agentID tenantID env r) s w in
  (r, s, w).

Definition AuditLog (s : Sandbox W) : list AuditEntry := auditLog s.

Definition RecentAuditLog (n : Z) (s : Sandbox W) : res (list AuditEntry) :=
  let len := Z.of_nat (length (auditLog s)) in
  let n := if len <? n then len else n in
  if n <? 0 then Panic "runtime error: makeslice: len out of range"
  else Ok (drop (Z.to_nat (len - n)) (auditLog s)).

Definition ExecutionCount (s : Sandbox W) : Z := execCount s.
End sandbox.

(** ** The registry lists its tools once, by name *)

Section listing.
Context {W : Type}.

Definition keyed (r : gmap string (ToolDefinition W)) : Prop := map_Forall (λ k t, td_Name t = k) r.

Inductive registry_op := RRegister (t : ToolDefinition W) | RRegisterAll (ts : list (ToolDefinition W)) | RUnregister (name : string).
Definition registry_step (r : gmap string (ToolDefinition W)) (o : registry_op) : gmap string (ToolDefinition W) :=
  match o with RRegister t => RegisterTool t r | RRegisterAll ts => RegisterTools ts r | RUnregister n => UnregisterTool n r end.

Lemma registry_step_keyed r o : keyed r → keyed (registry_step r o).
Proof.
  unfold keyed. destruct o as [t|ts|n]; cbn; intros Hr; [by apply map_Forall_insert_2| |by apply map_Forall_delete].
  unfold RegisterTools. revert r Hr. induction ts as [|t ts IH]; intros r Hr; cbn; [done|]. by apply IH, map_Forall_insert_2.
Qed.

Lemma registry_keyed ops : keyed (foldl registry_step NewToolRegistry ops).
Proof.
  assert (H0 : keyed NewToolRegistry) by apply map_Forall_empty. revert H0. generalize (@NewToolRegistry W).
  induction ops as [|o ops IH]; intros r Hr; cbn; [done|]. by apply IH, registry_step_keyed.
Qed.

#[local] Instance key_le_total {A} : Total (@key_le A).
Proof. intros a b. unfold key_le. apply String.leb_total. Qed.

Lemma sorted_entries_sorted {A} (m : gmap string A) : Sorted key_le (sorted_entries m).
Proof. apply Sorted_merge_sort. apply _. Qed.

Lemma elem_of_sorted_entries {A} (m : gmap string A) e : e ∈ sorted_entries m ↔ m !! e.1 = Some e.2.
Proof. rewrite sorted_entries_perm. destruct e. apply elem_of_map_to_list. Qed.

(** The listing.  After any registrations, [ListTools] gives exactly the registered tools that pass the filter,
    each name once, and without a filter all of them in the order of their names. *)
Theorem ListTools_spec ops filter :
  let r := foldl registry_step NewToolRegistry ops in
  (∀ t, t ∈ ListTools filter r ↔ GetTool (td_Name t) r = Some t ∧ tool_selected filter t = true) ∧
  NoDup (map td_Name (ListTools filter r)) ∧
  Sorted (λ a b, String.leb a b = true) (map td_Name (ListTools (mkToolFilter "" "" "") r)).
Proof.
  intros r. pose proof (registry_keyed ops) as Hk. fold r in Hk. unfold keyed in Hk.
  assert (Hnames : map td_Name (map snd (sorted_entries r)) = (sorted_entries r).*1).
  { rewrite map_map. apply map_ext_in. intros [k t] Hin. apply list_elem_of_In, elem_of_sorted_entries in Hin. by apply Hk in Hin. }
  split_and!.
  - intros t. unfold ListTools, GetTool. rewrite list_elem_of_In, filter_In, <- list_elem_of_In, list_elem_of_fmap.
    split; intros [Ht Hs]; (split; [|done]).
    + destruct Ht as ([k t'] & -> & Hin%elem_of_sorted_entries). cbn in *. by rewrite (Hk _ _ Hin).
    + exists (td_Name t, t). split; [done|]. by apply elem_of_sorted_entries.
  - unfold ListTools. eapply sublist_NoDup; [|apply map_sublist, filter_sublist]. rewrite Hnames. apply sorted_entries_nodup.
  - unfold ListTools. rewrite filter_all; [|done]. rewrite Hnames.
    pose proof (sorted_entries_sorted r) as Hs. clear Hnames. induction Hs as [|e l _ IH He]; [constructor|]. cbn. constructor; [exact IH|].
    destruct He; cbn; by constructor.
Qed.
End listing.

(** ** What the sandbox guarantees *)

Section guarantees.
Context {W : Type} (duration_text : Z → string).

Record tool_call := mkToolCall {
  tc_tool : ToolDefinition W; tc_params : RawMessage; tc_agent : string; tc_tenant : string; tc_env : call_env
}.

Fixpoint execute_all (calls : list tool_call) (s : Sandbox W) (w : W) : list (res string) * Sandbox W * W :=
  match calls with
  | [] => ([], s, w)
  | c :: calls =>
      let '(r, s, w) := Execute duration_text s (tc_tool c) (tc_params c) (tc_agent c) (tc_tenant c) (tc_env c) w in
      let '(rs, s, w) := execute_all calls s w in (r :: rs, s, w)
  end.

(** A result that keeps within the limits. *)
Definition contained (s : Sandbox W) (r : res string) : Prop :=
  match r with
  | Ok data => Z.of_nat (String.length data) ≤ MaxOutputSize (sb_config s)
  | Err _ => True
  | Panic _ => False
  end.

Lemma run_tool_contained s tool params env w : contained s (run_tool duration_text s tool params env w).1.
Proof.
  unfold run_tool. destruct (_ <? _); [done|]. destruct (td_Handler tool params w) as [r w']. cbn.
  destruct (ce_first env); [|done..]. destruct r as [d|e|m]; [|done..]. cbn.
  destruct (Z.ltb_spec (MaxOutputSize (sb_config s)) (Z.of_nat (String.length d))); unfold contained; [done|lia].
Qed.

(** An entry that tells the truth about a call and its result. *)
Definition truthful (c : tool_call) (r : res string) (e : AuditEntry) : Prop :=
  en_ToolName e = td_Name (tc_tool c) ∧ en_AgentID e = tc_agent c ∧ en_TenantID e = tc_tenant c ∧ en_Params e = tc_params c ∧
  match r with
  | Ok data => en_Success e = true ∧ en_Error e = "" ∧ en_OutputSize e = Z.of_nat (String.length data)
  | Err err => en_Success e = false ∧ en_Error e = Error err ∧ en_OutputSize e = 0
  | Panic _ => False
  end.

Lemma Execute_log s c w r s' w' :
  Execute duration_text s (tc_tool c) (tc_params c) (tc_agent c) (tc_tenant c) (tc_env c) w = (r, s', w') →
  sb_config s' = sb_config s ∧ contained s r ∧ execCount s' = execCount s +ᵢ 1 ∧
  ∃ e, auditLog s' = auditLog s ++ [e] ∧ truthful c r e.
Proof.
  unfold Execute, recordAudit. set (s0 := mkSandbox (sb_config s) _ _ _).
  pose proof (run_tool_contained s0 (tc_tool c) (tc_params c) (tc_env c) w) as Hc.
  destruct (run_tool duration_text s0 _ _ _ w) as [r0 w0]. intros [= <- <- <-]. cbn in *. split_and!; [done..|].
  eexists. split; [done|]. unfold truthful. cbn. by destruct r0.
Qed.

(** The sandbox contains every call and records it.  Whatever the tools do, fail or panic, and whatever is waited for, no
    call panics, no output exceeds the limit, and the log has exactly one entry per call, in order, that
    says what was called by whom and how it ended; the counter counts the calls. *)
Theorem sandbox_accounts calls s w rs s' w' :
  execute_all calls s w = (rs, s', w') →
  Forall (contained s) rs ∧
  (∃ entries, auditLog s' = auditLog s ++ entries ∧
     Forall2 (λ cr e, truthful cr.1 cr.2 e) (zip calls rs) entries ∧ length entries = length calls) ∧
  (0 ≤ execCount s → execCount s + Z.of_nat (length calls) ≤ int64_max → execCount s' = execCount s + Z.of_nat (length calls)).
Proof.
  revert s w rs. induction calls as [|c calls IH]; intros s w rs; cbn [execute_all].
  { intros [= <- <- <-]. split_and!; [constructor|exists []; rewrite app_nil_r; by repeat constructor|cbn; lia]. }
  destruct (Execute _ s _ _ _ _ _ w) as [[r s1] w1] eqn:He. apply Execute_log in He as (Hcfg & Hc & Hn & e & Hl & Ht).
  destruct (execute_all calls s1 w1) as [[rs1 s2] w2] eqn:Hrest. intros [= <- <- <-].
  apply IH in Hrest as (Hcs & (es & Hes & Hts & Hlen) & Hcount).
  split_and!.
  - constructor; [done|]. eapply list.Forall_impl; [exact Hcs|]. intros x. unfold contained. by rewrite Hcfg.
  - exists (e :: es). rewrite Hes, Hl, <- app_assoc. cbn. split_and!; [done|by constructor|by rewrite Hlen].
  - intros H0 Hmax. rewrite Hn in Hcount. cbn [length] in *.
    assert (Hadd : execCount s +ᵢ 1 = execCount s + 1) by (apply i64_id; unfold in_i64, int64_min; lia).
    rewrite Hadd in Hcount. rewrite Hcount; lia.
Qed.

(** The recent part of the log: the last entries, all of them when there are fewer; a negative number panics. *)
Theorem RecentAuditLog_spec n (s : Sandbox W) :
  if n <? 0 then RecentAuditLog n s = Panic "runtime error: makeslice: len out of range"
  else ∃ older recent, RecentAuditLog n s = Ok recent ∧ auditLog s = older ++ recent ∧
         Z.of_nat (length recent) = Z.min n (Z.of_nat (length (auditLog s))).
Proof.
  unfold RecentAuditLog. destruct (Z.ltb_spec n 0).
  - destruct (Z.ltb_spec (Z.of_nat (length (auditLog s))) n); [lia|]. by rewrite (proj2 (Z.ltb_lt n 0)).
  - set (len := Z.of_nat (length (auditLog s))).
    assert (Hmin : (if len <? n then len else n) = Z.min n len) by (destruct (Z.ltb_spec len n); lia).
    rewrite Hmin, (proj2 (Z.ltb_ge (Z.min n len) 0)) by lia.
    exists (take (Z.to_nat (len - Z.min n len)) (auditLog s)). eexists. split; [done|].
    split; [by rewrite take_drop|]. rewrite length_drop. lia.
Qed.
End guarantees.

(** Three tools: one that answers, one that answers too much, one that panics. *)
Definition tool_named (name : string) (r : res string) : ToolDefinition unit :=
  mkToolDefinition name "" RawEmpty "" "" (λ _ w, (r, w)).
Definition sample_call (r : res string) (first : first_event) : tool_call (W := unit) :=
  mkToolCall (tool_named "t" r) RawEmpty "agent" "tenant" (mkCallEnv 0 (5 * millisecond) 1048576 first).
Definition small_sandbox : Sandbox unit := NewSandbox (mkSandboxConfig 0 4 0).

Lemma sandbox_accounts_witness :
  let calls := [sample_call (Ok "ok") Finished; sample_call (Ok "too long") Finished; sample_call (Panic "boom") Finished; sample_call (Ok "late") TimedOut] in
  let '(rs, s', _) := execute_all (λ _, "30s") calls small_sandbox tt in
  Forall (contained small_sandbox) rs ∧ map en_Success (auditLog s') = [true; false; false; false].
Proof.
  cbv zeta. set (calls := [sample_call (Ok "ok") Finished; _; _; _]).
  destruct (execute_all (λ _, "30s") calls small_sandbox tt) as [[rs s'] w'] eqn:He. split.
  - apply (sandbox_accounts (λ _, "30s") calls small_sandbox tt rs s' w' He).
  - by vm_compute in He; injection He as <- <- <-.
Defined.
