(* ===== verification/Transports.v ===== *)
(** * Transports of the MCP gateway: [internal/mcp/gateway/transport]

    The JSON-RPC messages and the three transports that carry them.  A handler works on a state [S] and gets the
    environment [E] of a request (its context and clock).  The stdio transport is two goroutines joined by a
    channel; its steps are labelled by who moves.  Of HTTP the model has methods, bodies and replies. *)

From S2P Require Import Prelude GoStrings Errors Value JsonDecode.

(** ** Messages *)

Definition JSONRPCVersion : string := "2.0".
Definition CodeParseError : Z := -32700.
Definition CodeInvalidRequest : Z := -32600.
Definition CodeMethodNotFound : Z := -32601.
Definition CodeInvalidParams : Z := -32602.
Definition CodeInternalError : Z := -32603.

Record JSONRPCRequest := mkRequest { rq_JSONRPC : string; rq_ID : RawMessage; rq_Method : string; rq_Params : RawMessage }.
Record JSONRPCError := mkRpcError { er_Code : Z; er_Message : string; er_Data : RawMessage }.
Record JSONRPCResponse := mkResponse {
  rp_JSONRPC : string; rp_ID : RawMessage; rp_Result : RawMessage; rp_Error : option JSONRPCError
}.

(** [json.Marshal] of the result may fail. *)
Definition NewResponse (id : RawMessage) (result : res json) : res JSONRPCResponse :=
  data ← result; Ok (mkResponse JSONRPCVersion id (RawDoc data) None).

Definition NewErrorResponse (id : RawMessage) (code : Z) (message : string) (data : option (res json)) : JSONRPCResponse :=
  mkResponse JSONRPCVersion id RawEmpty
    (Some (mkRpcError code message (match data with Some (Ok raw) => RawDoc raw | _ => RawEmpty end))).

Definition error_json (e : JSONRPCError) : res json :=
  data ← omit_raw "data" (er_Data e);
  Ok (JObj ([("code", int_json (er_Code e)); ("message", JStr (er_Message e))] ++ data)).

Definition response_json (r : JSONRPCResponse) : res json :=
  id ← omit_raw "id" (rp_ID r);
  result ← omit_raw "result" (rp_Result r);
  err ← match rp_Error r with None => Ok [] | Some e => j ← error_json e; Ok [("error", j)] end;
  Ok (JObj ([("jsonrpc", JStr (rp_JSONRPC r))] ++ id ++ result ++ err)).

Section decode.
Context (type_error : string → json → error).

Definition request_member (acc : JSONRPCRequest * option error) (e : string * json) : JSONRPCRequest * option error :=
  let '(q, err) := acc in
  let '(k, j) := e in
  if key_matches "jsonrpc" k then
    let '(s, err) := string_member type_error k (rq_JSONRPC q) j err in (mkRequest s (rq_ID q) (rq_Method q) (rq_Params q), err)
  else if key_matches "id" k then (mkRequest (rq_JSONRPC q) (RawDoc j) (rq_Method q) (rq_Params q), err)
  else if key_matches "method" k then
    let '(s, err) := string_member type_error k (rq_Method q) j err in (mkRequest (rq_JSONRPC q) (rq_ID q) s (rq_Params q), err)
  else if key_matches "params" k then (mkRequest (rq_JSONRPC q) (rq_ID q) (rq_Method q) (RawDoc j), err)
  else acc.

Definition zero_request : JSONRPCRequest := mkRequest "" RawEmpty "" RawEmpty.
Definition unmarshal_request (raw : RawMessage) : res JSONRPCRequest := unmarshal_struct type_error zero_request request_member raw.
End decode.

(** ** Handlers *)

Section transports.
Context {S E : Type} (type_error : string → json → error) (json_doc : string → RawMessage).

Abbreviation RequestHandler := (E → JSONRPCRequest → S → res JSONRPCResponse * S).

(** A response to whatever the handler returns; [Panic] when it panics. *)
Definition respond (handler : RequestHandler) (e : E) (req : JSONRPCRequest) (s : S) : res JSONRPCResponse * S :=
  match handler e req s with
  | (Err err, s) => (Ok (NewErrorResponse (rq_ID req) CodeInternalError (Error err) None), s)
  | r => r
  end.

(** What a message is: a request, or refused with a response. *)
Definition incoming (message : string) : JSONRPCRequest + JSONRPCResponse :=
  match unmarshal_request type_error (json_doc message) with
  | Ok req =>
      if negb (bool_decide (rq_JSONRPC req = JSONRPCVersion))
      then inr (NewErrorResponse (rq_ID req) CodeInvalidRequest "invalid JSON-RPC version" None)
      else inl req
  | _ => inr (NewErrorResponse RawEmpty CodeParseError "invalid JSON" None)
  end.

Definition answer (handler : RequestHandler) (e : E) (message : string) (s : S) : res JSONRPCResponse * S :=
  match incoming message with
  | inl req => respond handler e req s
  | inr resp => (Ok resp, s)
  end.

(** ** Standard input and output *)

Definition lineCh_cap : nat := 16.

Record Stdio := mkStdio {
  unread : list string;            (** what the scanner has yet to give *)
  read_error : option error;       (** how it ends *)
  lineCh : list string; closed : bool;
  errCh : option error; err_sent : bool;
  cancelled : option error;        (** the context's error *)
  written : list json;
  loop_result : option (res unit);
  hstate : S
}.

Definition stdio_init (lines : list string) (end_error : option error) (s : S) : Stdio :=
  mkStdio lines end_error [] false None false None [] None s.

Inductive stdio_label :=
| Cancel (err : error)                               (** the context ends *)
| Scan                                               (** the reader: a line *)
| ScanStop                                           (** the reader: the context has ended *)
| ScanError | ScanEnd                                (** the reader: after the last line *)
| LoopCancelled | LoopError | LoopClosed             (** the loop: what its select takes *)
| LoopLine (e : E) (write_error : option error).

Definition finished (st : Stdio) (r : res unit) : Stdio :=
  mkStdio (unread st) (read_error st) (lineCh st) (closed st) (errCh st) (err_sent st) (cancelled st) (written st) (Some r) (hstate st).

Definition scan_step (l : stdio_label) (st : Stdio) : option Stdio :=
  let with_reader unread lineCh closed errCh err_sent :=
    mkStdio unread (read_error st) lineCh closed errCh err_sent (cancelled st) (written st) (loop_result st) (hstate st) in
  if closed st then None
  else match l, unread st with
       | Scan, "" :: rest => Some (with_reader rest (lineCh st) false (errCh st) (err_sent st))
       | Scan, line :: rest =>
           if bool_decide (length (lineCh st) < lineCh_cap)%nat
           then Some (with_reader rest (lineCh st ++ [line]) false (errCh st) (err_sent st)) else None
       | ScanStop, line :: rest =>
           if negb (bool_decide (line = "")) && negb (bool_decide (cancelled st = None))
           then Some (with_reader rest (lineCh st) true (errCh st) (err_sent st)) else None
       | ScanError, [] =>
           if negb (err_sent st) && negb (bool_decide (read_error st = None))
           then Some (with_reader [] (lineCh st) false (read_error st) true) else None
       | ScanEnd, [] =>
           if err_sent st || bool_decide (read_error st = None)
           then Some (with_reader [] (lineCh st) true (errCh st) (err_sent st)) else None
       | _, _ => None
       end.

Definition loop_step (handler : RequestHandler) (l : stdio_label) (st : Stdio) : option Stdio :=
  match loop_result st, l with
  | None, LoopCancelled => err ← cancelled st; Some (finished st (Err err))
  | None, LoopError => err ← errCh st; Some (finished st (Err (ErrWrapf "stdio read error" err)))
  | None, LoopClosed => if closed st && bool_decide (lineCh st = []) then Some (finished st (Ok tt)) else None
  | None, LoopLine e write_error =>
      match lineCh st with
      | [] => None
      | line :: rest =>
          let '(resp, s) := answer handler e line (hstate st) in
          let st := mkStdio (unread st) (read_error st) rest (closed st) (errCh st) (err_sent st) (cancelled st) (written st) None s in
          Some (match resp with
                | Panic m => finished st (Panic m)
                | Err err => finished st (Err (ErrWrapf "stdio write error" err))    (* not reached *)
                | Ok resp =>
                    match response_json resp, write_error with
                    | Ok data, None =>
                        mkStdio (unread st) (read_error st) rest (closed st) (errCh st) (err_sent st) (cancelled st) (written st ++ [data]) None s
                    | Ok _, Some err | Err err, _ => finished st (Err (ErrWrapf "stdio write error" err))
                    | Panic m, _ => finished st (Panic m)
                    end
                end)
      end
  | _, _ => None
  end.

Definition stdio_step (handler : RequestHandler) (l : stdio_label) (st : Stdio) : option Stdio :=
  match l with
  | Cancel err =>
      if bool_decide (cancelled st = None)
      then Some (mkStdio (unread st) (read_error st) (lineCh st) (closed st) (errCh st) (err_sent st) (Some err) (written st) (loop_result st) (hstate st))
      else None
  | Scan | ScanStop | ScanError | ScanEnd => scan_step l st
  | _ => loop_step handler l st
  end.

Fixpoint stdio_run (handler : RequestHandler) (ls : list stdio_label) (st : Stdio) : option Stdio :=
  match ls with
  | [] => Some st
  | l :: ls => st ← stdio_step handler l st; stdio_run handler ls st
  end.

(** ** Server-sent events *)

Definition sse_events_cap : nat := 64.
Definition sseMaxRequestBody : nat := 1048576.

Inductive http_body := BodyNone | BodyText (s : string) | BodyJson (j : json).
Record http_reply := mkReply { hr_status : Z; hr_body : http_body }.

(** A connection, with what has been written to it. *)
Record sseClient := mkSseClient { sc_events : list json; sc_sent : list http_body }.
Record SSETransport := mkSSE { clients : gmap string sseClient; nextID : Z }.
Definition NewSSETransport : SSETransport := mkSSE ∅ 0.

Definition writeJSONError (status : Z) (message : string) : http_reply :=
  mkReply status (match response_json (NewErrorResponse RawEmpty CodeInvalidRequest message None) with Ok j => BodyJson j | _ => BodyNone end).

(** The beginning of [handleSSE]: the connection that is registered, or a refusal. *)
Definition handleSSE (method : string) (can_flush : bool) (t : SSETransport) : (string + http_reply) * SSETransport :=
  if negb (bool_decide (method = "GET")) then (inr (mkReply 405 (BodyText "method not allowed")), t)
  else if negb can_flush then (inr (mkReply 500 (BodyText "streaming not supported")), t)
  else
    let n := nextID t +ᵤ 1 in
    let clientID := "sse_" +:+ pretty n in
    let endpoint := BodyText ("/message?client_id=" +:+ clientID) in
    (inl clientID, mkSSE (<[clientID := mkSseClient [] [endpoint]]> (clients t)) n).

(** The loop of [handleSSE] takes an event of its client. *)
Definition sse_deliver (clientID : string) (t : SSETransport) : SSETransport :=
  match clients t !! clientID with
  | Some (mkSseClient (data :: events) sent) => mkSSE (<[clientID := mkSseClient events (sent ++ [BodyJson data])]> (clients t)) (nextID t)
  | _ => t
  end.

(** The connection ends. *)
Definition sse_disconnect (clientID : string) (t : SSETransport) : SSETransport := mkSSE (delete clientID (clients t)) (nextID t).
Definition SSE_Stop (t : SSETransport) : SSETransport := mkSSE ∅ (nextID t).

(** A full buffer drops the response. *)
Definition sse_push (clientID : string) (data : json) (t : SSETransport) : SSETransport :=
  if bool_decide (clientID = "") then t
  else match clients t !! clientID with
       | Some c =>
           if bool_decide (length (sc_events c) < sse_events_cap)%nat
           then mkSSE (<[clientID := mkSseClient (sc_events c ++ [data]) (sc_sent c)]> (clients t)) (nextID t)
           else t
       | None => t
       end.

(** [body] is what can be read of the request's body. *)
Definition handleMessage (handler : RequestHandler) (method clientID : string) (body : res string) (e : E) (s : S) (t : SSETransport) :
    res http_reply * S * SSETransport :=
  if bool_decide (method = "OPTIONS") then (Ok (mkReply 204 BodyNone), s, t)
  else if negb (bool_decide (method = "POST")) then (Ok (mkReply 405 (BodyText "method not allowed")), s, t)
  else match body with
       | Ok body =>
           match unmarshal_request type_error (json_doc (String.substring 0 sseMaxRequestBody body)) with
           | Ok req =>
               if negb (bool_decide (rq_JSONRPC req = JSONRPCVersion)) then (Ok (writeJSONError 400 "invalid JSON-RPC version"), s, t)
               else
                 let '(resp, s) := respond handler e req s in
                 match resp with
                 | Panic m => (Panic m, s, t)
                 | Err err => (Err err, s, t)    (* not reached *)
                 | Ok resp =>
                     match response_json resp with
                     | Ok data => (Ok (mkReply 200 (BodyJson data)), s, sse_push clientID data t)
                     | _ => (Ok (writeJSONError 500 "failed to marshal response"), s, t)
                     end
                 end
           | _ => (Ok (writeJSONError 400 "invalid JSON-RPC request"), s, t)
           end
       | _ => (Ok (writeJSONError 400 "failed to read request body"), s, t)
       end.

(** ** WebSocket

    A connection: the messages the read loop has yet to take, the requests whose goroutines have not answered, and what
    was written.  A goroutine's call of the handler is one step. *)

Record wsConn := mkWs { ws_unread : list string; ws_running : list JSONRPCRequest; ws_written : list json; ws_state : S }.

Inductive ws_label := WRead (write_ok : bool) | WFinish (i : nat) (e : E) (write_ok : bool).

(** A write that fails is only logged. *)
Definition writeJSON (resp : JSONRPCResponse) (write_ok : bool) (written : list json) : list json :=
  match response_json resp with Ok data => if write_ok then written ++ [data] else written | _ => written end.

Definition ws_step (handler : RequestHandler) (l : ws_label) (c : wsConn) : option (res wsConn) :=
  match l with
  | WRead write_ok =>
      match ws_unread c with
      | [] => None
      | message :: rest =>
          Some (Ok (match incoming message with
                    | inl req => mkWs rest (ws_running c ++ [req]) (ws_written c) (ws_state c)
                    | inr resp => mkWs rest (ws_running c) (writeJSON resp write_ok (ws_written c)) (ws_state c)
                    end))
      end
  | WFinish i e write_ok =>
      req ← ws_running c !! i;
      let '(resp, s) := respond handler e req (ws_state c) in
      Some (resp ← resp; Ok (mkWs (ws_unread c) (delete i (ws_running c)) (writeJSON resp write_ok (ws_written c)) s))
  end.

Fixpoint ws_run (handler : RequestHandler) (ls : list ws_label) (c : wsConn) : option (res wsConn) :=
  match ls with
  | [] => Some (Ok c)
  | l :: ls =>
      match ws_step handler l c with
      | Some (Ok c) => ws_run handler ls c
      | r => r
      end
  end.
End transports.

(** ** The stdio transport answers every line once, in order *)

Section stdio_proofs.
Context {S E : Type} (type_error : string → json → error) (json_doc : string → RawMessage).
Context (handler : E → JSONRPCRequest → S → res JSONRPCResponse * S).

Abbreviation answer := (answer type_error json_doc handler).
Abbreviation stdio_step := (stdio_step type_error json_doc handler).
Abbreviation stdio_run := (stdio_run type_error json_doc handler).

(** What the transport is meant to do: the lines one after the other. *)
Fixpoint serve (calls : list (E * string)) (s : S) : option (list json * S) :=
  match calls with
  | [] => Some ([], s)
  | (e, line) :: calls =>
      match answer e line s with
      | (Ok resp, s) => match response_json resp with Ok d => '(ds, s) ← serve calls s; Some (d :: ds, s) | _ => None end
      | _ => None
      end
  end.

Lemma serve_snoc calls s ds s1 e line resp s2 d :
  serve calls s = Some (ds, s1) → answer e line s1 = (Ok resp, s2) → response_json resp = Ok d →
  serve (calls ++ [(e, line)]) s = Some (ds ++ [d], s2).
Proof.
  revert s ds. induction calls as [|[e' l'] calls IH]; intros s ds Hs Ha Hd; cbn [serve app] in *.
  - injection Hs as <- <-. by rewrite Ha, Hd.
  - destruct (answer e' l' s) as [[r|?|?] s']; [|done..]. destruct (response_json r) as [d'|?|?]; [|done..].
    destruct (serve calls s') as [[ds' s'']|] eqn:Hrest; [|done]. injection Hs as <- ->. by erewrite IH.
Qed.

Definition requests (lines : list string) : list string := List.filter (λ l, negb (bool_decide (l = ""))) lines.

Record stdio_inv (lines : list string) (s0 : S) (st : Stdio) (calls : list (E * string)) (lost rest : list string) (s' : S) : Prop := {
  inv_lines : requests lines = map snd calls ++ lost ++ lineCh st ++ rest;
  inv_open : closed st = false → rest = requests (unread st);
  inv_closed : closed st = true → cancelled st = None → rest = [] ∧ unread st = [];
  inv_served : serve calls s0 = Some (written st, s');
  inv_kept : loop_result st = None ∨ loop_result st = Some (Ok tt) → lost = [] ∧ s' = hstate st;
  inv_done : loop_result st = Some (Ok tt) → closed st = true ∧ lineCh st = [];
  inv_cap : (length (lineCh st) ≤ lineCh_cap)%nat
}.

Lemma scan_step_inv lines s0 (l : stdio_label (E := E)) st st' calls lost rest s' :
  scan_step l st = Some st' → stdio_inv lines s0 st calls lost rest s' → ∃ rest', stdio_inv lines s0 st' calls lost rest' s'.
Proof.
  intros Hstep [Hl Ho Hc Hs Hk Hd Hcap]. unfold scan_step in Hstep. destruct (closed st) eqn:Hcl; [done|].
  specialize (Ho eq_refl). subst rest.
  assert (Hnd : loop_result st ≠ Some (Ok tt)) by (intros Hr; by destruct (Hd Hr)).
  destruct l, (unread st) as [|line rest] eqn:Hun; try done.
  - destruct line as [|c line].
    + injection Hstep as <-. exists (requests rest). by split; cbn in *.
    + destruct (bool_decide_reflect (length (lineCh st) < lineCh_cap)%nat); [|done]. injection Hstep as <-.
      exists (requests rest). split; cbn in *; [|done..|rewrite length_app; cbn; lia]. by rewrite Hl, <- !app_assoc.
  - destruct (bool_decide_reflect (line = "")); [done|]. case_bool_decide as Hcan; [done|]. injection Hstep as <-.
    exists (requests (line :: rest)). by split; cbn.
  - destruct (_ && _); [|done]. injection Hstep as <-. exists []. by split; cbn in *.
  - destruct (_ || _); [|done]. injection Hstep as <-. exists []. by split; cbn in *.
Qed.

Lemma finished_inv lines s0 (st : Stdio (S := S)) calls rest s' line chan (hs : S) r :
  requests lines = map snd calls ++ line :: chan ++ rest → serve calls s0 = Some (written st, s') →
  (closed st = false → rest = requests (unread st)) → (closed st = true → cancelled st = None → rest = [] ∧ unread st = []) →
  r ≠ Ok tt → (length chan ≤ lineCh_cap)%nat →
  stdio_inv lines s0
    (finished (mkStdio (unread st) (read_error st) chan (closed st) (errCh st) (err_sent st) (cancelled st) (written st) None hs) r)
    calls [line] rest s'.
Proof. intros Hl Hs Ho Hc Hr Hcap. split; cbn; [done..| | |done]; [intros [|[=]]|intros [=]]; done. Qed.

Lemma loop_step_inv lines s0 (l : stdio_label (E := E)) st st' calls lost rest s' :
  loop_step type_error json_doc handler l st = Some st' → stdio_inv lines s0 st calls lost rest s' →
  ∃ calls lost s', stdio_inv lines s0 st' calls lost rest s'.
Proof.
  intros Hstep [Hl Ho Hc Hs Hk Hd Hcap]. unfold loop_step in Hstep. destruct (loop_result st) as [r|] eqn:Hr; [done|].
  destruct Hk as [-> ->]; [by left|]. cbn [app] in Hl.
  assert (Hend : ∀ r, r ≠ Ok tt → stdio_inv lines s0 (finished st r) calls [] rest (hstate st)).
  { intros r Hne. split; cbn; [done..| |done]; intros [= ->]; done. }
  destruct l as [e| | | | | | | |e werr]; try done.
  - destruct (cancelled st); [|done]. injection Hstep as <-. exists calls, [], (hstate st). by apply Hend.
  - destruct (errCh st); [|done]. injection Hstep as <-. exists calls, [], (hstate st). by apply Hend.
  - destruct (closed st) eqn:Hcl; [|done]. cbn in Hstep. case_bool_decide as Hq; [|done]. injection Hstep as <-.
    exists calls, [], (hstate st). split; cbn; rewrite ?Hcl; done.
  - destruct (lineCh st) as [|line chan] eqn:Hq; [done|]. cbn in Hcap.
    assert (Hcap' : (length chan ≤ lineCh_cap)%nat) by lia.
    destruct (answer e line (hstate st)) as [[resp|err|m] s2] eqn:Ha.
    + destruct (response_json resp) as [d|err|m] eqn:Hd'; [destruct werr as [we|]|..]; injection Hstep as <-;
        try (exists calls, [line], (hstate st); by apply finished_inv).
      exists (calls ++ [(e, line)]), [], s2. split; cbn; [by rewrite Hl, map_app, <- app_assoc|done|done|by eapply serve_snoc|done..].
    + injection Hstep as <-. exists calls, [line], (hstate st). by apply finished_inv.
    + injection Hstep as <-. exists calls, [line], (hstate st). by apply finished_inv.
Qed.

Definition stdio_ok (lines : list string) (s0 : S) (st : Stdio) : Prop := ∃ calls lost rest s', stdio_inv lines s0 st calls lost rest s'.

Lemma stdio_step_inv lines s0 l st st' : stdio_step l st = Some st' → stdio_ok lines s0 st → stdio_ok lines s0 st'.
Proof.
  intros Hstep (calls & lost & rest & s' & Hi).
  assert (Hscan : scan_step l st = Some st' → stdio_ok lines s0 st').
  { intros Hs. destruct (scan_step_inv _ _ _ _ _ _ _ _ _ Hs Hi) as [rest' ?]. by exists calls, lost, rest', s'. }
  assert (Hloop : loop_step type_error json_doc handler l st = Some st' → stdio_ok lines s0 st').
  { intros Hs. destruct (loop_step_inv _ _ _ _ _ _ _ _ _ Hs Hi) as (c' & l' & s'' & ?). by exists c', l', rest, s''. }
  destruct l; try exact (Hscan Hstep); try exact (Hloop Hstep).
  cbn in Hstep. case_bool_decide; [|done]. injection Hstep as <-. destruct Hi. exists calls, lost, rest, s'. by split; cbn.
Qed.

Lemma stdio_run_ok lines s0 ls st st' : stdio_run ls st = Some st' → stdio_ok lines s0 st → stdio_ok lines s0 st'.
Proof.
  revert st. induction ls as [|l ls IH]; intros st Hrun Hi; cbn in Hrun; [by injection Hrun as <-|].
  destruct (stdio_step l st) as [st1|] eqn:Hs; [|done]. eapply IH; [exact Hrun|]. by eapply stdio_step_inv.
Qed.

Lemma stdio_init_ok lines end_error s0 : stdio_ok lines s0 (stdio_init lines end_error s0).
Proof. exists [], [], (requests lines), s0. split; cbn; try done. lia. Qed.

(** C32: the stdio transport refines the loop over the lines.  However the reader and the loop interleave, what is written is what the
    handler answers to the first lines, one response to each, in order and with the handler's state passed along;
    and when the transport ends without an error and was not cancelled, every line has been answered. *)
Theorem stdio_refines lines end_error s0 ls st :
  stdio_run ls (stdio_init lines end_error s0) = Some st →
  ∃ calls s', map snd calls `prefix_of` requests lines ∧ serve calls s0 = Some (written st, s') ∧
    (loop_result st = Some (Ok tt) → cancelled st = None → map snd calls = requests lines ∧ s' = hstate st).
Proof.
  intros Hrun. destruct (stdio_run_ok lines s0 _ _ _ Hrun (stdio_init_ok _ _ _)) as (calls & lost & rest & s' & [Hl Ho Hc Hs Hk Hd _]).
  exists calls, s'. split_and!; [by eexists|done|]. intros Hr Hcan.
  destruct Hk as [-> ->]; [by right|]. destruct (Hd Hr) as [Hcl Hq]. destruct (Hc Hcl Hcan) as [-> _].
  by rewrite Hl, Hq, !app_nil_r.
Qed.
End stdio_proofs.

(** ** It also gets there *)

Section stdio_progress.
Context {S E : Type} (type_error : string → json → error) (json_doc : string → RawMessage).
Context (handler : E → JSONRPCRequest → S → res JSONRPCResponse * S).

Abbreviation stdio_run := (stdio_run type_error json_doc handler).

(** The handler neither panics nor gives a result that cannot be marshalled. *)
Definition always_answers : Prop :=
  ∀ e line s, ∃ resp s' d, answer type_error json_doc handler e line s = (Ok resp, s') ∧ response_json resp = Ok d.

Lemma stdio_run_app ls1 ls2 st st' : stdio_run ls1 st = Some st' → stdio_run (ls1 ++ ls2) st = stdio_run ls2 st'.
Proof.
  revert st. induction ls1 as [|l ls1 IH]; intros st; cbn; [by intros [= ->]|].
  destruct (stdio_step _ _ _ l st); [|done]. apply IH.
Qed.

(** What progress keeps: the loop is running and the context has not ended. *)
Definition running (st : Stdio (S := S)) : Prop := loop_result st = None ∧ cancelled st = None.

Lemma drain (e : E) (Ha : always_answers) n st :
  running st → length (lineCh st) = n →
  ∃ ls st', stdio_run ls st = Some st' ∧ running st' ∧ lineCh st' = [] ∧ unread st' = unread st ∧ read_error st' = read_error st ∧
    closed st' = closed st ∧ err_sent st' = err_sent st.
Proof.
  revert st. induction n as [|n IH]; intros st [Hr Hc] Hn.
  { exists [], st. apply nil_length_inv in Hn. by split_and!. }
  destruct (lineCh st) as [|line chan] eqn:Hq; [done|]. injection Hn as Hn.
  destruct (Ha e line (hstate st)) as (resp & s' & d & Hans & Hd).
  destruct (IH (mkStdio (unread st) (read_error st) chan (closed st) (errCh st) (err_sent st) (cancelled st) (written st ++ [d]) None s'))
    as (ls & st' & Hrun & Hr' & Hrest); [done|done|].
  exists (LoopLine e None :: ls), st'. split; [|by split]. cbn. unfold loop_step. by rewrite Hr, Hq, Hans, Hd.
Qed.

Lemma scan_all (e : E) (Ha : always_answers) lines st :
  running st → lineCh st = [] → closed st = false → unread st = lines →
  ∃ ls st', stdio_run ls st = Some st' ∧ running st' ∧ lineCh st' = [] ∧ unread st' = [] ∧ read_error st' = read_error st ∧
    closed st' = false ∧ err_sent st' = err_sent st.
Proof.
  revert st. induction lines as [|line lines IH]; intros st [Hr Hc] Hq Hcl Hun; [by exists [], st|].
  set (st1 := mkStdio lines (read_error st) (if bool_decide (line = "") then [] else [line]) false (errCh st) (err_sent st) (cancelled st) (written st) None (hstate st)).
  assert (Hstep : stdio_step type_error json_doc handler Scan st = Some st1).
  { cbn. unfold scan_step. rewrite Hcl, Hun, Hr, Hq. by destruct line. }
  destruct (drain e Ha _ st1 (conj eq_refl Hc) eq_refl) as (ls1 & st2 & Hrun1 & Hr2 & Hq2 & Hun2 & Hre2 & Hcl2 & Hes2).
  destruct (IH st2 Hr2 Hq2 Hcl2 Hun2) as (ls2 & st3 & Hrun2 & Hr3 & Hq3 & Hun3 & Hre3 & Hcl3 & Hes3).
  exists (Scan :: ls1 ++ ls2), st3. cbn [Transports.stdio_run]. rewrite Hstep. cbn. rewrite (stdio_run_app _ _ _ _ Hrun1).
  split_and!; [done..|by rewrite Hre3|done|by rewrite Hes3].
Qed.

(** The reader's last steps and the loop's. *)
Lemma close_down (e : E) st :
  running st → lineCh st = [] → unread st = [] →
  ∃ ls st', stdio_run ls st = Some st' ∧ loop_result st' = Some (Ok tt) ∧ cancelled st' = None.
Proof.
  intros [Hr Hc] Hq Hun. destruct (closed st) eqn:Hcl.
  { exists [LoopClosed], (finished st (Ok tt)). cbn. unfold loop_step. rewrite Hr, Hcl, Hq. done. }
  assert (Hready : ∀ st, running st → lineCh st = [] → unread st = [] → closed st = false → err_sent st = true ∨ read_error st = None →
            ∃ st', stdio_run [ScanEnd; LoopClosed] st = Some st' ∧ loop_result st' = Some (Ok tt) ∧ cancelled st' = None).
  { clear. intros st [Hr Hc] Hq Hun Hcl Hready. eexists. cbn. unfold scan_step. rewrite Hcl, Hun.
    replace (err_sent st || _) with true by (destruct Hready as [->| ->]; [done|]; by rewrite orb_comm). cbn. unfold loop_step. cbn.
    rewrite Hr, Hq. cbn. by split. }
  destruct (err_sent st) eqn:Hes; [destruct (Hready st) as (st' & ?); [done..|by left|]; by eexists _, st'|].
  destruct (read_error st) as [err|] eqn:Hre; [|destruct (Hready st) as (st' & ?); [done..|by right|]; by eexists _, st'].
  set (st1 := mkStdio [] (read_error st) [] false (read_error st) true (cancelled st) (written st) (loop_result st) (hstate st)).
  destruct (Hready st1) as (st' & Hrun & ?); [done..|by left|]. exists [ScanError; ScanEnd; LoopClosed], st'. split; [|done].
  change (stdio_run (ScanError :: ?ls) st) with (st ← stdio_step type_error json_doc handler ScanError st; stdio_run ls st).
  cbn [stdio_step]. unfold scan_step. rewrite Hcl, Hun, Hes, Hre. cbn [negb andb bool_decide]. rewrite Hq. subst st1. rewrite Hre in Hrun. exact Hrun.
Qed.

(** The stdio transport can always finish.  From every state it reaches without being cancelled while its loop runs, it can
    go on to end without an error with every line answered in order; nothing it does on the way
    closes that path. *)
Theorem stdio_completes (e : E) lines end_error s0 ls st :
  always_answers → stdio_run ls (stdio_init lines end_error s0) = Some st → loop_result st = None → cancelled st = None →
  ∃ more st', stdio_run more st = Some st' ∧ loop_result st' = Some (Ok tt) ∧
    ∃ calls, map snd calls = requests lines ∧ serve type_error json_doc handler calls s0 = Some (written st', hstate st').
Proof.
  intros Ha Hrun Hr Hc. pose proof (stdio_run_ok _ _ _ _ s0 _ _ _ Hrun (stdio_init_ok _ _ _ _ _ _)) as Hok.
  destruct (drain e Ha _ st (conj Hr Hc) eq_refl) as (ls1 & st1 & Hrun1 & Hr1 & Hq1 & _).
  assert (Hok1 := stdio_run_ok _ _ _ _ s0 _ _ _ Hrun1 Hok).
  assert (∃ ls2 st2, stdio_run ls2 st1 = Some st2 ∧ running st2 ∧ lineCh st2 = [] ∧ unread st2 = []) as (ls2 & st2 & Hrun2 & Hr2 & Hq2 & Hun2).
  { destruct (closed st1) eqn:Hcl.
    - destruct Hok1 as (? & ? & ? & ? & Hi). exists [], st1. split_and!; [done..|]. by apply (inv_closed _ _ _ _ _ _ _ _ _ _ Hi Hcl (proj2 Hr1)).
    - destruct (scan_all e Ha _ st1 Hr1 Hq1 Hcl eq_refl) as (ls2 & st2 & ? & ? & ? & ? & _). by exists ls2, st2. }
  destruct (close_down e st2 Hr2 Hq2 Hun2) as (ls3 & st3 & Hrun3 & Hr3 & Hc3).
  exists (ls1 ++ ls2 ++ ls3), st3. rewrite (stdio_run_app _ _ _ _ Hrun1), (stdio_run_app _ _ _ _ Hrun2). split_and!; [done..|].
  assert (Hok3 := stdio_run_ok _ _ _ _ s0 _ _ _ Hrun3 (stdio_run_ok _ _ _ _ s0 _ _ _ Hrun2 Hok1)).
  destruct Hok3 as (calls & lost & rest & s' & [Hl _ Hcl Hs Hk Hd _]). destruct Hk as [-> ->]; [by right|]. destruct (Hd Hr3) as [Hcl3 Hq3].
  destruct (Hcl Hcl3 Hc3) as [-> _]. exists calls. by rewrite Hl, Hq3, !app_nil_r.
Qed.
End stdio_progress.

(** ** Event streams *)

Section sse_proofs.
Context {S E : Type} (type_error : string → json → error) (json_doc : string → RawMessage).
Context (handler : E → JSONRPCRequest → S → res JSONRPCResponse * S).

Inductive sse_op :=
| OConnect (method : string) (can_flush : bool)
| OMessage (method clientID : string) (body : res string) (e : E)
| ODeliver (clientID : string)
| ODisconnect (clientID : string)
| OStop.

(** The transport, the handler's state and the answers given so far, each with the client it names. *)
Record sse_world := mkSseWorld { sw_sse : SSETransport; sw_state : S; sw_posts : list (string * json) }.

Definition sse_step (w : sse_world) (o : sse_op) : sse_world :=
  match o with
  | OConnect method can_flush => mkSseWorld (handleSSE method can_flush (sw_sse w)).2 (sw_state w) (sw_posts w)
  | OMessage method clientID body e =>
      let '(r, s, t) := handleMessage type_error json_doc handler method clientID body e (sw_state w) (sw_sse w) in
      mkSseWorld t s (sw_posts w ++ match r with Ok (mkReply 200 (BodyJson d)) => [(clientID, d)] | _ => [] end)
  | ODeliver clientID => mkSseWorld (sse_deliver clientID (sw_sse w)) (sw_state w) (sw_posts w)
  | ODisconnect clientID => mkSseWorld (sse_disconnect clientID (sw_sse w)) (sw_state w) (sw_posts w)
  | OStop => mkSseWorld (SSE_Stop (sw_sse w)) (sw_state w) (sw_posts w)
  end.

(** The answers meant for a client. *)
Definition posted_for (id : string) (posts : list (string * json)) : list json :=
  map snd (List.filter (λ p, bool_decide (p.1 = id)) posts).

Lemma posted_for_app id posts posts' : posted_for id (posts ++ posts') = posted_for id posts ++ posted_for id posts'.
Proof. unfold posted_for. by rewrite List.filter_app, map_app. Qed.

Definition stream_ok (posts : list (string * json)) (id : string) (c : sseClient) : Prop :=
  (length (sc_events c) ≤ sse_events_cap)%nat ∧
  ∃ delivered, sc_sent c = BodyText ("/message?client_id=" +:+ id) :: map BodyJson delivered ∧
    sublist (delivered ++ sc_events c) (posted_for id posts).

Definition streams_ok (w : sse_world) : Prop := map_Forall (stream_ok (sw_posts w)) (clients (sw_sse w)).

Lemma stream_ok_more posts posts' id c : stream_ok posts id c → stream_ok (posts ++ posts') id c.
Proof.
  intros (Hcap & d & Hs & Hsub). split; [done|]. exists d. split; [done|]. rewrite posted_for_app.
  by apply sublist_inserts_r.
Qed.

(** How an answer that is given changes the streams. *)
Lemma sse_push_ok posts t id d :
  map_Forall (stream_ok posts) (clients t) → map_Forall (stream_ok (posts ++ [(id, d)])) (clients (sse_push id d t)).
Proof.
  intros Ht. assert (Hmore : map_Forall (stream_ok (posts ++ [(id, d)])) (clients t)).
  { intros i c Hi. by apply stream_ok_more, Ht. }
  unfold sse_push. case_bool_decide; [done|]. destruct (clients t !! id) as [c|] eqn:Hc; [|done].
  case_bool_decide as Hcap; [|done]. cbn. apply map_Forall_insert_2; [|done].
  destruct (Ht id c Hc) as (_ & del & Hs & Hsub). split; cbn; [rewrite length_app; cbn; lia|]. exists del. split; [done|].
  rewrite posted_for_app, app_assoc. apply sublist_app; [done|]. unfold posted_for. cbn. by rewrite bool_decide_eq_true_2.
Qed.

Lemma handleMessage_cases method id body e s t r s' t' :
  handleMessage type_error json_doc handler method id body e s t = (r, s', t') →
  (∃ d, r = Ok (mkReply 200 (BodyJson d)) ∧ t' = sse_push id d t) ∨ (t' = t ∧ ∀ d, r ≠ Ok (mkReply 200 (BodyJson d))).
Proof.
  unfold handleMessage. case_bool_decide; [intros [= <- <- <-]; by right|]. case_bool_decide; cbn [negb]; [|intros [= <- <- <-]; by right].
  destruct body as [body|?|?]; [|intros [= <- <- <-]; by right..].
  destruct (unmarshal_request _ _) as [req|?|?]; [|intros [= <- <- <-]; by right..].
  case_bool_decide; cbn [negb]; [|intros [= <- <- <-]; by right].
  destruct (respond handler e req s) as [[resp|?|?] s1]; [|intros [= <- <- <-]; by right..].
  destruct (response_json resp) as [d|?|?]; [|intros [= <- <- <-]; by right..].
  intros [= <- <- <-]. left. by exists d.
Qed.

Lemma sse_step_ok w o : streams_ok w → streams_ok (sse_step w o).
Proof.
  unfold streams_ok. intros Hw. destruct o as [method fl|method id body e|id|id|]; cbn.
  - unfold handleSSE. case_bool_decide; cbn [negb]; [|done]. destruct fl; [|done]. cbn. apply map_Forall_insert_2; [|done].
    split; cbn; [lia|]. exists []. split; [done|apply sublist_nil_l].
  - destruct (handleMessage _ _ _ _ _ _ _ _ _) as [[r s'] t'] eqn:Hm. cbn.
    apply handleMessage_cases in Hm as [(d & -> & ->)|[-> Hr]]; [by apply sse_push_ok|].
    intros i c Hi. by apply stream_ok_more, Hw.
  - unfold sse_deliver. destruct (clients (sw_sse w) !! id) as [[[|d events] sent]|] eqn:Hc; [done| |done]. cbn.
    apply map_Forall_insert_2; [|done]. destruct (Hw id _ Hc) as (Hcap & del & Hs & Hsub). cbn in *. split; cbn; [lia|].
    exists (del ++ [d]). rewrite Hs, map_app, <- app_assoc. done.
  - by apply map_Forall_delete.
  - apply map_Forall_empty.
Qed.

(** Event streams are in order.  Whatever connects, posts, is delivered, disconnects and stops, a client has been sent its
    endpoint and then answers to what was posted for it, in the order of the posts and none twice; at most 64
    more wait, and what finds the buffer full is left out of the stream though not of the reply. *)
Theorem sse_streams_in_order ops s :
  let w := foldl sse_step (mkSseWorld NewSSETransport s []) ops in
  ∀ id c, clients (sw_sse w) !! id = Some c →
    (length (sc_events c) ≤ sse_events_cap)%nat ∧
    ∃ delivered, sc_sent c = BodyText ("/message?client_id=" +:+ id) :: map BodyJson delivered ∧
      sublist (delivered ++ sc_events c) (posted_for id (sw_posts w)).
Proof.
  intros w. change (streams_ok w). subst w.
  assert (H0 : streams_ok (mkSseWorld NewSSETransport s [])) by apply map_Forall_empty. revert H0.
  generalize (mkSseWorld NewSSETransport s []). induction ops as [|o ops IH]; intros w H0; [done|]. by apply IH, sse_step_ok.
Qed.

(** A post is answered.  The reply to a request that can be read is the handler's response, whatever the state of the stream
    it names; the stream gets the same response when it exists and has room, and no other stream changes. *)
Theorem handleMessage_spec clientID body e s t req resp s' d :
  unmarshal_request type_error (json_doc (String.substring 0 sseMaxRequestBody body)) = Ok req → rq_JSONRPC req = JSONRPCVersion →
  respond handler e req s = (Ok resp, s') → response_json resp = Ok d →
  ∃ t', handleMessage type_error json_doc handler "POST" clientID (Ok body) e s t = (Ok (mkReply 200 (BodyJson d)), s', t') ∧
    (∀ id, id ≠ clientID → clients t' !! id = clients t !! id) ∧
    (∀ c, clientID ≠ "" → clients t !! clientID = Some c →
       clients t' !! clientID = Some (if bool_decide (length (sc_events c) < sse_events_cap)%nat then mkSseClient (sc_events c ++ [d]) (sc_sent c) else c)).
Proof.
  intros Hq Hv Hr Hd. exists (sse_push clientID d t). unfold handleMessage.
  rewrite (bool_decide_eq_false_2 ("POST" = "OPTIONS")), (bool_decide_eq_true_2 ("POST" = "POST")) by done. cbn [negb].
  rewrite Hq, (bool_decide_eq_true_2 _ Hv). cbn [negb]. rewrite Hr, Hd. split_and!; [done|..].
  - intros id Hid. unfold sse_push. case_bool_decide; [done|]. destruct (clients t !! clientID); [|done].
    case_bool_decide; [|done]. cbn. by rewrite lookup_insert_ne.
  - intros c Hne Hc. unfold sse_push. rewrite bool_decide_eq_false_2, Hc by done. case_bool_decide; cbn; [by rewrite lookup_insert_eq|done].
Qed.
End sse_proofs.

(** ** WebSocket connections *)

Section ws_proofs.
Context {S E : Type} (type_error : string → json → error) (json_doc : string → RawMessage).
Context (handler : E → JSONRPCRequest → S → res JSONRPCResponse * S).

(** The id a message is answered with. *)
Definition id_of (message : string) : RawMessage :=
  match incoming type_error json_doc message with inl req => rq_ID req | inr resp => rp_ID resp end.

(** A handler that answers with the request's id, with a result that can be marshalled, whenever the id can be. *)
Definition keeps_ids : Prop :=
  ∀ e req s, is_ok (omit_raw "id" (rq_ID req)) = true →
             match respond handler e req s with
             | (Ok resp, _) => rp_ID resp = rq_ID req ∧ is_ok (response_json resp) = true
             | _ => False
             end.

Definition carries (id : RawMessage) (d : json) : Prop := ∃ resp, rp_ID resp = id ∧ response_json resp = Ok d.

Definition ws_ok (messages : list string) (c : wsConn (S := S)) : Prop :=
  ∃ taken answered, messages = taken ++ ws_unread c ∧ answered ++ map rq_ID (ws_running c) ≡ₚ map id_of taken ∧
    Forall2 carries answered (ws_written c).

Definition ids_parsed (c : wsConn (S := S)) : Prop := Forall (λ req, is_ok (omit_raw "id" (rq_ID req)) = true) (ws_running c).

Definition ws_writes (l : ws_label (E := E)) : bool := match l with WRead ok => ok | WFinish _ _ ok => ok end.

Lemma writeJSON_ok resp written answered :
  is_ok (response_json resp) = true → Forall2 carries answered written →
  Forall2 carries (answered ++ [rp_ID resp]) (writeJSON resp true written).
Proof.
  unfold writeJSON. intros Hok Hf. destruct (response_json resp) as [d|?|?] eqn:Hd; [|done..].
  apply List.Forall2_app; [done|]. constructor; [|done]. by exists resp.
Qed.

Lemma refusal_marshals id code message : is_ok (omit_raw "id" id) = true → is_ok (response_json (NewErrorResponse id code message None)) = true.
Proof. unfold response_json. cbn. by destruct (omit_raw "id" id). Qed.

(** An id that was parsed can be written. *)
Lemma parsed_id raw req : unmarshal_request type_error raw = Ok req → is_ok (omit_raw "id" (rq_ID req)) = true.
Proof.
  unfold unmarshal_request, unmarshal_struct. destruct raw as [| |j]; [done..|].
  assert (Hm : ∀ l acc, is_ok (omit_raw "id" (rq_ID acc.1)) = true → is_ok (omit_raw "id" (rq_ID (foldl (request_member type_error) acc l).1)) = true).
  { induction l as [|[k v] l IH]; intros [q err] Hq; cbn [foldl]; [done|]. apply IH. cbn [fst] in Hq. unfold request_member.
    destruct (key_matches "jsonrpc" k); [by destruct (string_member _ _ _ _ _)|]. destruct (key_matches "id" k); [done|].
    destruct (key_matches "method" k); [by destruct (string_member _ _ _ _ _)|]. by destruct (key_matches "params" k). }
  unfold struct_member. destruct j as [| | | | |l]; cbn; try done; [by intros [= <-]|].
  specialize (Hm l (zero_request, None) eq_refl). destruct (foldl _ _ _) as [q [err|]]; [done|]. by intros [= <-].
Qed.

Lemma incoming_refusal message resp : incoming type_error json_doc message = inr resp → is_ok (response_json resp) = true.
Proof.
  unfold incoming. destruct (unmarshal_request _ _) as [req|?|?] eqn:Hq; [|intros [= <-]; done..].
  case_bool_decide; cbn; [done|]. intros [= <-]. apply refusal_marshals. by eapply parsed_id.
Qed.

Lemma incoming_parsed message req : incoming type_error json_doc message = inl req → is_ok (omit_raw "id" (rq_ID req)) = true.
Proof.
  unfold incoming. destruct (unmarshal_request _ _) as [q|?|?] eqn:Hq; [|done..]. case_bool_decide; cbn; [|done].
  intros [= <-]. by eapply parsed_id.
Qed.

Lemma ws_step_ok messages l c c' :
  keeps_ids → ws_writes l = true → ws_step type_error json_doc handler l c = Some (Ok c') → ws_ok messages c ∧ ids_parsed c →
  ws_ok messages c' ∧ ids_parsed c'.
Proof.
  unfold ids_parsed. intros Hk Hw Hstep [(taken & answered & Hm & Hp & Hf) Hids]. destruct l as [ok|i e ok]; cbn in Hw; subst ok; cbn in Hstep.
  - destruct (ws_unread c) as [|message rest] eqn:Hun; [done|]. injection Hstep as <-.
    destruct (incoming type_error json_doc message) as [req|resp] eqn:Hin; cbn.
    + split; [|apply list.Forall_app; split; [done|by constructor; [eapply incoming_parsed|]]].
      exists (taken ++ [message]), answered. cbn. rewrite Hm, <- app_assoc. split_and!; [done| |done].
      rewrite !map_app, app_assoc, Hp. cbn. unfold id_of at 3. by rewrite Hin.
    + split; [|done]. exists (taken ++ [message]), (answered ++ [rp_ID resp]). cbn. rewrite Hm, <- app_assoc. split_and!; [done| |].
      * rewrite map_app, <- Hp. cbn. unfold id_of. rewrite Hin, <- !app_assoc. cbn. apply Permutation_app_head, Permutation_cons_append.
      * apply writeJSON_ok; [|done]. by eapply incoming_refusal.
  - destruct (ws_running c !! i) as [req|] eqn:Hi; [|done]. cbn in Hstep.
    specialize (Hk e req (ws_state c) (proj1 (list.Forall_lookup _ _) Hids i req Hi)).
    destruct (respond handler e req (ws_state c)) as [[resp|?|?] s']; [|done..]. destruct Hk as [Hid Hok]. injection Hstep as <-. cbn.
    split; [|by apply list.Forall_delete].
    exists taken, (answered ++ [rp_ID resp]). cbn. split_and!; [done| |by apply writeJSON_ok].
    rewrite <- Hp, <- app_assoc, Hid. apply Permutation_app_head. change ([rq_ID req] ++ ?l) with (map rq_ID (req :: delete i (ws_running c))).
    apply Permutation_map. symmetry. by apply delete_Permutation.
Qed.

(** A WebSocket connection answers each message once.  Whatever the order in which the goroutines finish, while writes succeed
    the written responses carry, together with the requests still running, exactly the ids of the messages read. *)
Theorem ws_answers_each_once ls messages s c :
  keeps_ids → forallb ws_writes ls = true → ws_run type_error json_doc handler ls (mkWs messages [] [] s) = Some (Ok c) →
  ∃ taken answered, messages = taken ++ ws_unread c ∧ answered ++ map rq_ID (ws_running c) ≡ₚ map id_of taken ∧
    Forall2 carries answered (ws_written c).
Proof.
  intros Hk Hw. enough (Hgo : ∀ c0, ws_ok messages c0 ∧ ids_parsed c0 → ws_run type_error json_doc handler ls c0 = Some (Ok c) → ws_ok messages c).
  { apply Hgo. split; [exists [], []; split_and!; [done..|constructor]|constructor]. }
  induction ls as [|l ls IH]; intros c0 H0; cbn; [intros [= <-]; exact (proj1 H0)|].
  apply andb_true_iff in Hw as [Hl Hw]. destruct (ws_step _ _ _ l c0) as [[c1|?|?]|] eqn:Hs; [|done..].
  apply IH; [done|]. by eapply ws_step_ok.
Qed.
End ws_proofs.

(** ** Concrete runs *)

(** A handler that counts its calls, two requests, an empty line and text that is not JSON. *)
Definition echo (_ : unit) (req : JSONRPCRequest) (n : Z) : res JSONRPCResponse * Z := (NewResponse (rq_ID req) (Ok (JObj [])), n + 1).
Definition ping_doc (id : string) : json := JObj [("jsonrpc", JStr "2.0"); ("id", JStr id); ("method", JStr "ping")].
Definition sample_doc (line : string) : RawMessage :=
  if bool_decide (line = "one") then RawDoc (ping_doc "1") else if bool_decide (line = "two") then RawDoc (ping_doc "2") else RawInvalid "invalid character".
Definition no_type_error (field : string) (j : json) : error := ErrText field.
Definition sample_lines : list string := ["one"; ""; "bad"; "two"].

Definition pong (id : string) : json := JObj [("jsonrpc", JStr "2.0"); ("id", JStr id); ("result", JObj [])].
Definition parse_error_json : json := JObj [("jsonrpc", JStr "2.0"); ("error", JObj [("code", int_json (-32700)); ("message", JStr "invalid JSON")])].

Definition sample_run : list (stdio_label (E := unit)) :=
  [Scan; Scan; Scan; LoopLine tt None; Scan; ScanError; LoopLine tt None; ScanEnd; LoopLine tt None; LoopClosed].

(** A read error that comes with the end of the input may be lost: the loop takes the closed channel and ends without an error.
    Or it is taken first, and the lines that were read before it are not answered. *)
Example read_error_lost :
  (λ st, (loop_result st, written st)) <$> stdio_run no_type_error sample_doc echo sample_run (stdio_init sample_lines (Some (ErrText "token too long")) 0)
  = Some (Some (Ok tt), [pong "1"; parse_error_json; pong "2"]).
Proof. vm_compute. reflexivity. Qed.
Example lines_lost :
  (λ st, (loop_result st, written st)) <$>
    stdio_run no_type_error sample_doc echo [Scan; Scan; Scan; Scan; ScanError; LoopError] (stdio_init sample_lines (Some (ErrText "token too long")) 0)
  = Some (Some (Err (ErrWrapf "stdio read error" (ErrText "token too long"))), []).
Proof. vm_compute. reflexivity. Qed.

Lemma stdio_refines_witness :
  ∃ st calls s', stdio_run no_type_error sample_doc echo sample_run (stdio_init sample_lines None 0) = None ∧
    stdio_run no_type_error sample_doc echo (List.filter (λ l, match l with ScanError => false | _ => true end) sample_run) (stdio_init sample_lines None 0) = Some st ∧
    map snd calls = ["one"; "bad"; "two"] ∧ serve no_type_error sample_doc echo calls 0 = Some (written st, s') ∧ hstate st = 2.
Proof.
  set (ls := List.filter _ sample_run).
  destruct (stdio_run no_type_error sample_doc echo ls (stdio_init sample_lines None 0)) as [st|] eqn:Hrun; [|vm_compute in Hrun; discriminate].
  destruct (stdio_refines no_type_error sample_doc echo sample_lines None 0 ls st Hrun) as (calls & s' & _ & Hs & Hdone).
  vm_compute in Hrun. injection Hrun as <-. destruct Hdone as [Hc _]; [done..|].
  exists (mkStdio [] None [] true None false None [pong "1"; parse_error_json; pong "2"] (Some (Ok tt)) 2), calls, s'.
  split_and!; [by vm_compute|done|exact Hc|exact Hs|done].
Defined.

Lemma echo_answers : always_answers no_type_error sample_doc echo.
Proof.
  intros [] line n. unfold answer. destruct (incoming no_type_error sample_doc line) as [req|resp] eqn:Hin.
  - cbn. destruct (rq_ID req) as [|e|j] eqn:Hid; [do 3 eexists; by split| |do 3 eexists; by split]. exfalso.
    unfold incoming in Hin. destruct (unmarshal_request _ _) as [q|?|?] eqn:Hq; [|done..]. case_bool_decide; [|done]. cbn in Hin. injection Hin as ->.
    apply parsed_id in Hq. by rewrite Hid in Hq.
  - apply incoming_refusal in Hin. destruct (response_json resp) as [d|?|?] eqn:Hd; [|done..]. do 3 eexists; by split.
Qed.

Lemma stdio_completes_witness :
  ∃ more st', stdio_run no_type_error sample_doc echo more (stdio_init sample_lines (Some (ErrText "token too long")) 0) = Some st' ∧ loop_result st' = Some (Ok tt).
Proof.
  destruct (stdio_completes no_type_error sample_doc echo tt sample_lines (Some (ErrText "token too long")) 0 [] _ echo_answers eq_refl eq_refl eq_refl)
    as (more & st' & Hrun & Hr & _). by exists more, st'.
Defined.

Lemma handleMessage_spec_witness :
  ∃ t', handleMessage no_type_error sample_doc echo "POST" "sse_1" (Ok "one") tt 0 (handleSSE "GET" true NewSSETransport).2
        = (Ok (mkReply 200 (BodyJson (pong "1"))), 1, t') ∧ is_Some (clients t' !! "sse_1").
Proof.
  destruct (handleMessage_spec no_type_error sample_doc echo "sse_1" "one" tt 0 (handleSSE "GET" true NewSSETransport).2
    (mkRequest "2.0" (RawDoc (JStr "1")) "ping" RawEmpty) (mkResponse "2.0" (RawDoc (JStr "1")) (RawDoc (JObj [])) None) 1 (pong "1")
    ltac:(vm_compute; reflexivity) eq_refl eq_refl ltac:(vm_compute; reflexivity)) as (t' & Hm & _ & Hc).
  exists t'. split; [exact Hm|]. rewrite (Hc (mkSseClient [] [BodyText "/message?client_id=sse_1"])); [by eexists|done|by vm_compute].
Defined.

Lemma echo_keeps : keeps_ids echo.
Proof. intros e req n Hid. cbn. split; [done|]. unfold response_json. cbn. by destruct (omit_raw "id" (rq_ID req)). Qed.

Lemma ws_answers_each_once_witness :
  ∃ (c : wsConn (S := Z)) taken answered, ["one"; "bad"; "two"] = taken ++ ws_unread c ∧ answered ++ map rq_ID (ws_running c) ≡ₚ map (id_of no_type_error sample_doc) taken ∧
    ws_written c = [parse_error_json; pong "2"].
Proof.
  destruct (ws_run no_type_error sample_doc echo [WRead true; WRead true; WRead true; WFinish 1 tt true] (mkWs ["one"; "bad"; "two"] [] [] 0))
    as [[c|?|?]|] eqn:Hrun; [|vm_compute in Hrun; discriminate..].
  destruct (ws_answers_each_once no_type_error sample_doc echo [WRead true; WRead true; WRead true; WFinish 1 tt true] _ _ c echo_keeps eq_refl Hrun) as (taken & answered & Hm & Hp & _).
  exists c, taken, answered. split_and!; [done..|]. vm_compute in Hrun. by injection Hrun as <-.
Defined.
