(* ===== verification/Gateway.v ===== *)
(** * MCP gateway: [internal/mcp/gateway/gateway.go], [internal/mcp/builder/builder.go]

    Routing of requests, the checks before a tool runs, middlewares, the start and stop of the transports, and the
    builder.  The handlers work on the gateway's state and on the world [W] the tools act on.  A request's environment
    [gctx] holds what its context carries and the clock.  [json_text] is the printer of encoding/json.  The sandbox
    is never nil: [NewGateway] sets one and the builder replaces it only by another. *)

From Stdlib Require Import Ascii.
From S2P Require Import Prelude GoStrings Errors Value JsonDecode McpSecurity Sandbox Transports.

Definition mcpProtocolVersion : string := "2024-11-05".

Record gctx := mkGctx { cx_UserID : string; cx_TenantID : string; cx_Scopes : list string; cx_now : Z; cx_call : call_env }.

Record gstate (W : Type) := mkGstate {
  g_name : string;
  g_registry : gmap string (ToolDefinition W);
  g_auth : option (gmap string AgentIdentity);
  g_permissions : option (gmap string (list PermissionRule));
  g_scopes : option (gmap string (list string));
  g_rateLimiter : option RateLimiter;
  g_sandbox : Sandbox W
}.
Arguments mkGstate {W}. Arguments g_name {W}. Arguments g_registry {W}. Arguments g_auth {W}. Arguments g_permissions {W}.
Arguments g_scopes {W}. Arguments g_rateLimiter {W}. Arguments g_sandbox {W}.

(** ** Parameters of the methods *)

Record InitializeParams := mkInitializeParams {
  ip_ProtocolVersion : string; ip_Roots : option bool; ip_Sampling : bool; ip_ClientName : string; ip_ClientVersion : string
}.
Record ToolCallParams := mkToolCallParams { tp_Name : string; tp_Arguments : RawMessage }.

Section params.
Context (type_error : string → json → error).

(** A pointer to a struct: [null] clears it. *)
Definition pointer_member {A} (member : A * option error → string * json → A * option error) (zero : A) (field : string) (old : option A)
    (j : json) (err : option error) : option A * option error :=
  match j with
  | JNull => (None, err)
  | _ => let '(a, err) := struct_member type_error member field (default zero old) j err in (Some a, err)
  end.

Definition roots_member (acc : bool * option error) (e : string * json) : bool * option error :=
  let '(b, err) := acc in
  if key_matches "listChanged" e.1 then bool_member type_error e.1 b e.2 err else acc.

Definition capabilities_member (acc : (option bool * option unit) * option error) (e : string * json) : (option bool * option unit) * option error :=
  let '((roots, sampling), err) := acc in
  if key_matches "roots" e.1 then
    let '(roots, err) := pointer_member roots_member false e.1 roots e.2 err in ((roots, sampling), err)
  else if key_matches "sampling" e.1 then
    let '(sampling, err) := pointer_member (λ acc _, acc) tt e.1 sampling e.2 err in ((roots, sampling), err)
  else acc.

Definition client_member (acc : (string * string) * option error) (e : string * json) : (string * string) * option error :=
  let '((name, version), err) := acc in
  if key_matches "name" e.1 then let '(name, err) := string_member type_error e.1 name e.2 err in ((name, version), err)
  else if key_matches "version" e.1 then let '(version, err) := string_member type_error e.1 version e.2 err in ((name, version), err)
  else acc.

Definition initialize_member (acc : InitializeParams * option error) (e : string * json) : InitializeParams * option error :=
  let '(p, err) := acc in
  if key_matches "protocolVersion" e.1 then
    let '(v, err) := string_member type_error e.1 (ip_ProtocolVersion p) e.2 err in
    (mkInitializeParams v (ip_Roots p) (ip_Sampling p) (ip_ClientName p) (ip_ClientVersion p), err)
  else if key_matches "capabilities" e.1 then
    let '((roots, sampling), err) :=
      struct_member type_error capabilities_member e.1 (ip_Roots p, if ip_Sampling p then Some tt else None) e.2 err in
    (mkInitializeParams (ip_ProtocolVersion p) roots (bool_decide (sampling = Some tt)) (ip_ClientName p) (ip_ClientVersion p), err)
  else if key_matches "clientInfo" e.1 then
    let '((name, version), err) := struct_member type_error client_member e.1 (ip_ClientName p, ip_ClientVersion p) e.2 err in
    (mkInitializeParams (ip_ProtocolVersion p) (ip_Roots p) (ip_Sampling p) name version, err)
  else acc.

Definition call_member (acc : ToolCallParams * option error) (e : string * json) : ToolCallParams * option error :=
  let '(p, err) := acc in
  if key_matches "name" e.1 then
    let '(n, err) := string_member type_error e.1 (tp_Name p) e.2 err in (mkToolCallParams n (tp_Arguments p), err)
  else if key_matches "arguments" e.1 then (mkToolCallParams (tp_Name p) (RawDoc e.2), err)
  else acc.

Definition uri_member (acc : string * option error) (e : string * json) : string * option error :=
  let '(uri, err) := acc in
  if key_matches "uri" e.1 then string_member type_error e.1 uri e.2 err else acc.
End params.

Section gateway.
Context {W : Type} (type_error : string → json → error) (json_text : json → string) (duration_text : Z → string).

Abbreviation state := (gstate W).

Definition invalid_params (req : JSONRPCRequest) (message : string) : res JSONRPCResponse :=
  Ok (NewErrorResponse (rq_ID req) CodeInvalidParams message None).
Definition internal_error (req : JSONRPCRequest) (message : string) : res JSONRPCResponse :=
  Ok (NewErrorResponse (rq_ID req) CodeInternalError message None).

(** ** Handlers that only read *)

Definition no_params (req : JSONRPCRequest) : bool := match rq_Params req with RawEmpty => true | _ => false end.

(** The members of maps in the order of their keys. *)
Definition initialize_result (g : state) : json :=
  JObj [("capabilities", JObj [("logging", JObj []); ("prompts", JObj [("listChanged", JBool false)]);
                               ("resources", JObj [("listChanged", JBool true); ("subscribe", JBool false)]);
                               ("tools", JObj [("listChanged", JBool true)])]);
        ("protocolVersion", JStr mcpProtocolVersion);
        ("serverInfo", JObj [("name", JStr (g_name g)); ("version", JStr "1.0.0")])].

Definition handleInitialize (g : state) (req : JSONRPCRequest) : res JSONRPCResponse :=
  if negb (no_params req) &&
     negb (is_ok (unmarshal_struct type_error (mkInitializeParams "" None false "" "") (initialize_member type_error) (rq_Params req)))
  then invalid_params req "invalid initialize params"
  else NewResponse (rq_ID req) (Ok (initialize_result g)).

Definition tool_entry (t : ToolDefinition W) : res json :=
  schema ← raw_json (match td_InputSchema t with RawEmpty => RawDoc (JObj [("type", JStr "object")]) | schema => schema end);
  Ok (JObj ([("name", JStr (td_Name t))] ++ omit_when (bool_decide (td_Description t = "")) "description" (JStr (td_Description t))
            ++ [("inputSchema", schema)])).

(** The cursor is parsed and not used. *)
Definition handleToolsList (g : state) (req : JSONRPCRequest) : res JSONRPCResponse :=
  NewResponse (rq_ID req)
    (entries ← all_ok (map tool_entry (ListTools (mkToolFilter "" "" "") (g_registry g))); Ok (JObj [("tools", JArr entries)])).

Definition resource_json (connector : string) : json :=
  JObj [("uri", JStr ("flowforge://connector/" +:+ connector)); ("name", JStr connector);
        ("description", JStr ("FlowForge " +:+ connector +:+ " connector")); ("mimeType", JStr "application/json")].

(** The connectors of the tools, each once. *)
Definition resource_loop (connectorTools : list (ToolDefinition W)) : list string :=
  (foldl (λ acc t, if negb (bool_decide (td_Connector t = "")) && negb (bool_decide (td_Connector t ∈ acc.1))
                   then ({[td_Connector t]} ∪ acc.1, acc.2 ++ [td_Connector t]) else acc) (∅ : gset string, []) connectorTools).2.

(** A nil slice is written as [null]. *)
Definition handleResourcesList (g : state) (req : JSONRPCRequest) : res JSONRPCResponse :=
  let resources := map resource_json (resource_loop (ListTools (mkToolFilter "connector" "" "") (g_registry g))) in
  NewResponse (rq_ID req) (Ok (JObj [("resources", match resources with [] => JNull | _ => JArr resources end)])).

Definition connector_prefix : string := "flowforge://connector/".

Definition handleResourcesRead (g : state) (req : JSONRPCRequest) : res JSONRPCResponse :=
  match unmarshal_struct type_error "" (uri_member type_error) (rq_Params req) with
  | Ok uri =>
      if negb (HasPrefix uri connector_prefix) then invalid_params req ("unsupported resource URI scheme: " +:+ uri)
      else
        let connectorName := TrimPrefix uri connector_prefix in
        match ListTools (mkToolFilter "" connectorName "") (g_registry g) with
        | [] => invalid_params req ("connector " +:+ quote connectorName +:+ " not found")
        | connectorTools =>
            let summaries := map (λ t, JObj [("name", JStr (td_Name t)); ("description", JStr (td_Description t))]) connectorTools in
            let info := json_text (JObj [("connector", JStr connectorName); ("tools", JArr summaries)]) in
            NewResponse (rq_ID req)
              (Ok (JObj [("contents", JArr [JObj [("mimeType", JStr "application/json"); ("text", JStr info); ("uri", JStr uri)]])]))
        end
  | _ => invalid_params req "invalid resource read params"
  end.

Definition handlePromptsList (req : JSONRPCRequest) : res JSONRPCResponse := NewResponse (rq_ID req) (Ok (JObj [("prompts", JArr [])])).
Definition handlePing (req : JSONRPCRequest) : res JSONRPCResponse := NewResponse (rq_ID req) (Ok (JObj [])).

(** ** Calling a tool *)

Definition with_limiter (g : state) (rl : option RateLimiter) : state :=
  mkGstate (g_name g) (g_registry g) (g_auth g) (g_permissions g) (g_scopes g) rl (g_sandbox g).
Definition with_sandbox (g : state) (sb : Sandbox W) : state :=
  mkGstate (g_name g) (g_registry g) (g_auth g) (g_permissions g) (g_scopes g) (g_rateLimiter g) sb.

(** The checks: the message of a refusal, and the limiter as they leave it. *)
Definition check_limit (g : state) (ctx : gctx) : option string * state :=
  match g_rateLimiter g with
  | Some rl =>
      if bool_decide (cx_UserID ctx = "") then (None, g)
      else let '(r, rl) := Limit_Allow duration_text (cx_UserID ctx) (cx_now ctx) rl in
           (match r with Err e => Some (Error e) | _ => None end, with_limiter g (Some rl))
  | None => (None, g)
  end.

Definition check_permission (g : state) (ctx : gctx) (toolName : string) : option string :=
  match g_permissions g with
  | Some perms =>
      if bool_decide (cx_UserID ctx = "") then None
      else if McpSecurity.Check perms (cx_UserID ctx) toolName then None
      else Some ("agent " +:+ quote (cx_UserID ctx) +:+ " does not have permission to call tool " +:+ quote toolName)
  | None => None
  end.

Definition check_scopes (g : state) (ctx : gctx) (toolName : string) : option string :=
  match g_scopes g, g_auth g with
  | Some scopes, Some _ =>
      if bool_decide (cx_UserID ctx = "") then None
      else match Enforce scopes toolName (cx_Scopes ctx) with Err e => Some (Error e) | _ => None end
  | _, _ => None
  end.

(** The output in the format of the protocol. *)
Definition call_result (r : res string) : json :=
  match r with
  | Ok output => JObj [("content", JArr [JObj [("text", JStr output); ("type", JStr "text")]])]
  | Err err => JObj [("content", JArr [JObj [("text", JStr ("Error: " +:+ Error err)); ("type", JStr "text")]]); ("isError", JBool true)]
  | Panic m => JNull    (* not reached: the sandbox recovers panics *)
  end.

(** No arguments are an empty object. *)
Definition call_arguments (args : RawMessage) : RawMessage := match args with RawEmpty => RawDoc (JObj []) | args => args end.

Definition run_call (g : state) (ctx : gctx) (req : JSONRPCRequest) (tool : ToolDefinition W) (args : RawMessage) (w : W) :
    res JSONRPCResponse * (state * W) :=
  let '(r, sb, w) := Execute duration_text (g_sandbox g) tool (call_arguments args) (cx_UserID ctx) (cx_TenantID ctx) (cx_call ctx) w in
  (match r with Panic m => Panic m | r => NewResponse (rq_ID req) (Ok (call_result r)) end, (with_sandbox g sb, w)).

Definition handleToolsCall (ctx : gctx) (req : JSONRPCRequest) (s : state * W) : res JSONRPCResponse * (state * W) :=
  let '(g, w) := s in
  match unmarshal_struct type_error (mkToolCallParams "" RawEmpty) (call_member type_error) (rq_Params req) with
  | Ok params =>
      if bool_decide (tp_Name params = "") then (invalid_params req "tool name is required", s)
      else match GetTool (tp_Name params) (g_registry g) with
           | None => (invalid_params req ("tool " +:+ quote (tp_Name params) +:+ " not found"), s)
           | Some tool =>
               match check_limit g ctx with
               | (Some message, g) => (internal_error req message, (g, w))
               | (None, g) =>
                   match check_permission g ctx (tp_Name params) with
                   | Some message => (internal_error req message, (g, w))
                   | None =>
                       match check_scopes g ctx (tp_Name params) with
                       | Some message => (internal_error req message, (g, w))
                       | None => run_call g ctx req tool (tp_Arguments params) w
                       end
                   end
               end
           end
  | _ => (invalid_params req "invalid tool call params", s)
  end.

(** ** Routing and middlewares *)

Abbreviation Handler := (gctx → JSONRPCRequest → state * W → res JSONRPCResponse * (state * W)).

Definition routeRequest : Handler := λ ctx req s,
  let '(g, w) := s in
  let m := rq_Method req in
  if bool_decide (m = "initialize") then (handleInitialize g req, s)
  else if bool_decide (m = "tools/list") then (handleToolsList g req, s)
  else if bool_decide (m = "tools/call") then handleToolsCall ctx req s
  else if bool_decide (m = "resources/list") then (handleResourcesList g req, s)
  else if bool_decide (m = "resources/read") then (handleResourcesRead g req, s)
  else if bool_decide (m = "prompts/list") then (handlePromptsList req, s)
  else if bool_decide (m = "ping") then (handlePing req, s)
  else if bool_decide (m = "notifications/initialized") then (NewResponse (rq_ID req) (Ok (JObj [])), s)
  else (Ok (NewErrorResponse (rq_ID req) CodeMethodNotFound ("method " +:+ quote m +:+ " not found") None), s).

(** A transport, as the gateway sees it. *)
Record Transport := mkTransport { tr_Name : string; tr_Stop : W → option error * W }.

Record Gateway := mkGateway { gw_state : state; gw_transports : list Transport; gw_middlewares : list (Handler → Handler); gw_started : bool }.

Definition NewGateway (serviceName : string) : Gateway :=
  mkGateway (mkGstate serviceName NewToolRegistry None None None None (NewSandbox (mkSandboxConfig 0 0 0))) [] [] false.

Definition with_state (g : Gateway) (s : state) : Gateway := mkGateway s (gw_transports g) (gw_middlewares g) (gw_started g).

Definition AddTransport (t : Transport) (g : Gateway) : Gateway := mkGateway (gw_state g) (gw_transports g ++ [t]) (gw_middlewares g) (gw_started g).
Definition AddMiddleware (mw : Handler → Handler) (g : Gateway) : Gateway := mkGateway (gw_state g) (gw_transports g) (gw_middlewares g ++ [mw]) (gw_started g).
Definition Gateway_RegisterTool (t : ToolDefinition W) (g : Gateway) : Gateway :=
  let s := gw_state g in
  with_state g (mkGstate (g_name s) (RegisterTool t (g_registry s)) (g_auth s) (g_permissions s) (g_scopes s) (g_rateLimiter s) (g_sandbox s)).
Definition SetAuthenticator a (g : Gateway) : Gateway :=
  let s := gw_state g in with_state g (mkGstate (g_name s) (g_registry s) a (g_permissions s) (g_scopes s) (g_rateLimiter s) (g_sandbox s)).
Definition SetPermissionChecker p (g : Gateway) : Gateway :=
  let s := gw_state g in with_state g (mkGstate (g_name s) (g_registry s) (g_auth s) p (g_scopes s) (g_rateLimiter s) (g_sandbox s)).
Definition SetScopeEnforcer sc (g : Gateway) : Gateway :=
  let s := gw_state g in with_state g (mkGstate (g_name s) (g_registry s) (g_auth s) (g_permissions s) sc (g_rateLimiter s) (g_sandbox s)).
Definition SetRateLimiter rl (g : Gateway) : Gateway := with_state g (with_limiter (gw_state g) rl).
Definition SetSandbox sb (g : Gateway) : Gateway := with_state g (with_sandbox (gw_state g) sb).

(** The loop goes from the last middleware to the first. *)
Definition buildHandler (g : Gateway) : Handler := foldl (λ handler mw, mw handler) routeRequest (rev (gw_middlewares g)).

Definition HandleRequest (ctx : gctx) (req : JSONRPCRequest) (g : Gateway) (w : W) : res JSONRPCResponse * (Gateway * W) :=
  let '(r, (s, w)) := buildHandler g ctx req (gw_state g, w) in (r, (with_state g s, w)).

(** A tick of [runCleanup]. *)
Definition cleanup_tick (now : Z) (g : Gateway) : Gateway :=
  SetRateLimiter (Cleanup now <$> g_rateLimiter (gw_state g)) g.

(** ** Start and stop *)

Definition with_started (g : Gateway) (b : bool) : Gateway := mkGateway (gw_state g) (gw_transports g) (gw_middlewares g) b.

Fixpoint stop_loop (ts : list Transport) (firstErr : option error) (w : W) : option error * W :=
  match ts with
  | [] => (firstErr, w)
  | t :: ts =>
      let '(err, w) := tr_Stop t w in
      stop_loop ts (match firstErr with None => err | e => e end) w
  end.

Definition Gateway_Stop (g : Gateway) (w : W) : option error * Gateway * W :=
  let g := with_started g false in
  let '(err, w) := stop_loop (gw_transports g) None w in (err, g, w).

(** What ends the wait of [Start]: its context, or a transport that failed; [None] while neither happens. *)
Inductive start_event := ContextDone | TransportFailed (name : string) (err : error).

Definition Start (g : Gateway) (event : option start_event) (w : W) : option (option error) * Gateway * W :=
  if gw_started g then (Some (Some (ErrText "gateway already started")), g, w)
  else
    let g := with_started g true in
    match gw_transports g with
    | [] => (Some (Some (ErrText "no transports configured")), g, w)
    | _ =>
        match event with
        | None => (None, g, w)
        | Some ContextDone => let '(err, g, w) := Gateway_Stop g w in (Some err, g, w)
        | Some (TransportFailed name err) =>
            let '(_, g, w) := Gateway_Stop g w in (Some (Some (ErrWrapf ("transport " +:+ name) err)), g, w)
        end
    end.
End gateway.

(** ** Every request is answered *)

Section answers.
Context {W : Type} (type_error : string → json → error) (json_text : json → string) (duration_text : Z → string).

Abbreviation route := (routeRequest (W := W) type_error json_text duration_text).

(** A response to [req] that can be sent: the version, the request's id and either a result or an error. *)
Definition answers (req : JSONRPCRequest) (resp : JSONRPCResponse) : Prop :=
  rp_JSONRPC resp = JSONRPCVersion ∧ rp_ID resp = rq_ID req ∧
  ((∃ j, rp_Result resp = RawDoc j ∧ rp_Error resp = None) ∨
   (∃ code message, rp_Result resp = RawEmpty ∧ rp_Error resp = Some (mkRpcError code message RawEmpty))).

Definition answered (req : JSONRPCRequest) (r : res JSONRPCResponse) : Prop :=
  match r with Ok resp => answers req resp | Err _ => True | Panic _ => False end.

Lemma answered_result req r : (∀ m, r ≠ Panic m) → answered req (NewResponse (rq_ID req) r).
Proof. intros Hr. destruct r as [j|e|m]; [|done|by destruct (Hr m)]. split_and!; [done..|]. left. by exists j. Qed.

Lemma answered_error req code message : answered req (Ok (NewErrorResponse (rq_ID req) code message None)).
Proof. split_and!; [done..|]. right. by exists code, message. Qed.

Lemma Execute_total (sb : Sandbox W) tool params agentID tenantID env w m : (Execute duration_text sb tool params agentID tenantID env w).1.1 ≠ Panic m.
Proof.
  unfold Execute. match goal with |- context [run_tool ?d ?s ?t ?p ?e ?w] => pose proof (run_tool_contained d s t p e w) as Hc; destruct (run_tool d s t p e w) as [r w1] end.
  cbn in *. by destruct r.
Qed.

Lemma run_call_answered (g : gstate W) ctx req tool args w : answered req (run_call duration_text g ctx req tool args w).1.
Proof.
  unfold run_call. destruct (Execute _ _ _ _ _ _ _ _) as [[r sb] w1] eqn:He.
  assert (Hr : ∀ m, r ≠ Panic m) by (intros m; generalize (Execute_total (g_sandbox g) tool (call_arguments args) (cx_UserID ctx) (cx_TenantID ctx) (cx_call ctx) w m); by rewrite He).
  destruct r as [out|e|m]; [by apply answered_result..|by destruct (Hr m)].
Qed.

Lemma route_answered ctx req s : answered req (route ctx req s).1.
Proof.
  unfold routeRequest. destruct s as [g w].
  repeat (case_bool_decide; [cbn [fst]|]); [| | | | | | | |apply answered_error].
  - unfold handleInitialize. case_match; [apply answered_error|by apply answered_result].
  - apply answered_result. intros m. pose proof (all_ok_total (map tool_entry (ListTools (mkToolFilter "" "" "") (g_registry g)))) as Ht.
    destruct (all_ok _) as [l|e|m']; [done..|]. exfalso. apply (Ht ltac:(clear; apply list.Forall_forall; intros r Hr m; apply list_elem_of_fmap in Hr as (t & -> & _); unfold tool_entry; by destruct (td_InputSchema t)) m' eq_refl).
  - unfold handleToolsCall. destruct (unmarshal_struct _ _ _ _) as [p|?|?]; [|apply answered_error..].
    case_bool_decide; [apply answered_error|]. destruct (GetTool _ _) as [tool|]; [|apply answered_error].
    destruct (check_limit _ _ _) as [[msg|] g1]; [apply answered_error|]. destruct (check_permission _ _ _); [apply answered_error|].
    destruct (check_scopes _ _ _); [apply answered_error|]. apply run_call_answered.
  - by apply answered_result.
  - unfold handleResourcesRead. destruct (unmarshal_struct _ _ _ _) as [uri|?|?]; [|apply answered_error..].
    case_match; [apply answered_error|]. destruct (ListTools _ _); [apply answered_error|by apply answered_result].
  - by apply answered_result.
  - by apply answered_result.
  - by apply answered_result.
Qed.

(** The answer to a message, whatever it is. *)
Lemma respond_answers ctx req s : ∃ resp, (respond route ctx req s).1 = Ok resp ∧ answers req resp.
Proof.
  unfold respond. pose proof (route_answered ctx req s) as Ha. destruct (route ctx req s) as [[resp|e|m] s']; cbn in *; [by exists resp| |done].
  eexists. split; [done|]. split_and!; [done..|]. right. by eexists _, _.
Qed.

Lemma answers_marshal req resp : answers req resp → is_ok (omit_raw "id" (rq_ID req)) = true → is_ok (response_json resp) = true.
Proof.
  intros (_ & Hid & Hr) Hok. unfold response_json. rewrite Hid. destruct (omit_raw "id" (rq_ID req)); [|done..].
  destruct Hr as [(j & -> & ->)|(code & message & -> & ->)]; done.
Qed.

Lemma gateway_answers json_doc : always_answers type_error json_doc route.
Proof.
  intros ctx line s. unfold answer. destruct (incoming type_error json_doc line) as [req|resp] eqn:Hin.
  - destruct (respond_answers ctx req s) as (resp & Hr & Ha). destruct (respond route ctx req s) as [r s']. cbn in Hr. subst r.
    apply answers_marshal in Ha; [|by eapply incoming_parsed]. destruct (response_json resp) as [d|?|?] eqn:Hd; [|done..]. by exists resp, s', d.
  - apply incoming_refusal in Hin. destruct (response_json resp) as [d|?|?] eqn:Hd; [|done..]. by exists resp, s, d.
Qed.

(** Every request is answered.  Whatever the method, its parameters, the caller and the tools do, the gateway's answer, as a transport
    sends it, has the protocol's version and the id of the request, and a result or an error but not both; it
    never panics, and the answer can be marshalled whenever the id can. *)
Theorem every_request_answered ctx req s :
  ∃ resp s', respond route ctx req s = (Ok resp, s') ∧ answers req resp ∧
    (is_ok (omit_raw "id" (rq_ID req)) = true → is_ok (response_json resp) = true).
Proof.
  destruct (respond_answers ctx req s) as (resp & Hr & Ha). destruct (respond route ctx req s) as [r s']. cbn in Hr. subst r.
  exists resp, s'. split_and!; [done..|]. by apply answers_marshal.
Qed.

(** The gateway over standard input.  From whatever its transport has reached, while it runs and is not cancelled, it can go on
    to end without an error with every line answered, in order. *)
Theorem gateway_over_stdio json_doc (ctx : gctx) lines end_error s0 ls st :
  stdio_run type_error json_doc route ls (stdio_init lines end_error s0) = Some st → loop_result st = None → cancelled st = None →
  ∃ more st', stdio_run type_error json_doc route more st = Some st' ∧ loop_result st' = Some (Ok tt) ∧
    length (written st') = length (requests lines).
Proof.
  intros Hrun Hr Hc.
  destruct (stdio_completes type_error json_doc route ctx lines end_error s0 ls st (gateway_answers json_doc) Hrun Hr Hc)
    as (more & st' & Hmore & Hr' & calls & Hcalls & Hs).
  exists more, st'. split_and!; [done..|]. rewrite <- Hcalls, length_map. symmetry. clear -Hs. revert Hs. generalize (written st'). revert s0.
  induction calls as [|[e l] calls IH]; intros s0 ds; cbn; [by intros [= <-]|].
  destruct (answer _ _ _ e l s0) as [[resp|?|?] s1]; [|done..]. destruct (response_json resp) as [d|?|?]; [|done..].
  destruct (serve _ _ _ calls s1) as [[ds' s2]|] eqn:Hs; [|done]. intros [= <- ->]. cbn. f_equal. by apply (IH s1).
Qed.
End answers.

(** ** Who may call a tool *)

Section authorization.
Context {W : Type} (type_error : string → json → error) (json_text : json → string) (duration_text : Z → string).

Abbreviation route := (routeRequest (W := W) type_error json_text duration_text).
Abbreviation call_params raw := (unmarshal_struct type_error (mkToolCallParams "" RawEmpty) (call_member type_error) raw).

(** A caller without an id may call everything.  Another needs what the configured checks ask. *)
Definition authorised (g : gstate W) (ctx : gctx) (toolName : string) : Prop :=
  cx_UserID ctx = "" ∨
  ((∀ rl, g_rateLimiter g = Some rl → (Limit_Allow duration_text (cx_UserID ctx) (cx_now ctx) rl).1 = Ok tt) ∧
   (∀ perms, g_permissions g = Some perms → McpSecurity.Check perms (cx_UserID ctx) toolName = true) ∧
   (∀ sc a, g_scopes g = Some sc → g_auth g = Some a → Enforce sc toolName (cx_Scopes ctx) = Ok tt)).

(** What a request leaves as it is. *)
Definition same_config (g g' : gstate W) : Prop :=
  g_name g' = g_name g ∧ g_registry g' = g_registry g ∧ g_auth g' = g_auth g ∧ g_permissions g' = g_permissions g ∧ g_scopes g' = g_scopes g.

Lemma check_limit_spec (g : gstate W) ctx :
  let '(refused, g') := check_limit duration_text g ctx in
  (refused = None ↔ cx_UserID ctx = "" ∨ ∀ rl, g_rateLimiter g = Some rl → (Limit_Allow duration_text (cx_UserID ctx) (cx_now ctx) rl).1 = Ok tt) ∧
  same_config g g' ∧ g_sandbox g' = g_sandbox g.
Proof.
  unfold check_limit, same_config. destruct (g_rateLimiter g) as [rl|] eqn:Hrl; [|split_and!; [split; [by right|done]|done..]].
  case_bool_decide; [split_and!; [split; [by left|done]|done..]|].
  assert (Htt : ∀ r : res unit, match r with Err e => Some (Error e) | _ => None end = None ∧ (∀ m, r ≠ Panic m) → r = Ok tt) by (intros [[]|?|m] [Hr Hm]; [done..|by destruct (Hm m)]).
  assert (Hp : ∀ m, (Limit_Allow duration_text (cx_UserID ctx) (cx_now ctx) rl).1 ≠ Panic m).
  { intros m. unfold Limit_Allow. destruct (windows rl !! _); [|done]. destruct (_ <=? _); [done|]. by destruct (_ <? _). }
  destruct (Limit_Allow duration_text (cx_UserID ctx) (cx_now ctx) rl) as [r rl'] eqn:Hl. cbn in *. split_and!; [|done..]. split.
  - intros Hr. right. intros ? [= <-]. rewrite Hl. by apply Htt.
  - intros [?|Hr]; [done|]. specialize (Hr rl eq_refl). rewrite Hl in Hr. cbn in Hr. by subst r.
Qed.

Lemma check_permission_spec (g : gstate W) ctx toolName :
  check_permission g ctx toolName = None ↔
  cx_UserID ctx = "" ∨ ∀ perms, g_permissions g = Some perms → McpSecurity.Check perms (cx_UserID ctx) toolName = true.
Proof.
  unfold check_permission. destruct (g_permissions g) as [p|]; [|split; [by right|done]]. case_bool_decide; [split; [by left|done]|].
  destruct (McpSecurity.Check p (cx_UserID ctx) toolName) eqn:Hc; [split; [intros _; right; by intros ? [= <-]|done]|].
  split; [done|]. intros [?|Hr]; [done|]. specialize (Hr p eq_refl). congruence.
Qed.

Lemma enforce_total sc toolName scopes m : Enforce sc toolName scopes ≠ Panic m.
Proof. unfold Enforce. induction (default [] (sc !! toolName)) as [|req l IH]; cbn; [done|]. by destruct (scope_granted _ req). Qed.

Lemma check_scopes_spec (g : gstate W) ctx toolName :
  check_scopes g ctx toolName = None ↔
  cx_UserID ctx = "" ∨ ∀ sc a, g_scopes g = Some sc → g_auth g = Some a → Enforce sc toolName (cx_Scopes ctx) = Ok tt.
Proof.
  unfold check_scopes. destruct (g_scopes g) as [sc|]; [|split; [by right|done]]. destruct (g_auth g) as [a|]; [|split; [by right|done]].
  case_bool_decide; [split; [by left|done]|].
  destruct (Enforce sc toolName (cx_Scopes ctx)) as [[]|e|m] eqn:He; [|split; [done|]|by apply enforce_total in He].
  - split; [intros _; right; by intros ?? [= <-]|done].
  - intros [?|Hr]; [done|]. specialize (Hr sc a eq_refl eq_refl). congruence.
Qed.

(** The three checks together. *)
Lemma checks_spec (g : gstate W) ctx toolName :
  let '(limited, g') := check_limit duration_text g ctx in
  (limited = None ∧ check_permission g' ctx toolName = None ∧ check_scopes g' ctx toolName = None ↔ authorised g ctx toolName) ∧
  same_config g g' ∧ g_sandbox g' = g_sandbox g.
Proof.
  pose proof (check_limit_spec g ctx) as Hl. destruct (check_limit duration_text g ctx) as [limited g'].
  destruct Hl as (Hl & Hc & Hsb). split_and!; [|done..]. unfold authorised. rewrite Hl, check_permission_spec, check_scopes_spec.
  destruct Hc as (_ & _ & -> & -> & ->). clear. tauto.
Qed.

(** What a tool call does.  For a registered tool: an authorised call runs it once in the sandbox, with no arguments read as an empty
    object, and gives its output or its error as a result; any other call is refused with an error and touches neither
    the world nor the sandbox.  Either way only the rate limiter's counts may change besides. *)
Theorem tools_call_spec ctx req (g : gstate W) w p tool :
  call_params (rq_Params req) = Ok p → tp_Name p ≠ "" → GetTool (tp_Name p) (g_registry g) = Some tool →
  let '(r, (g', w')) := handleToolsCall type_error duration_text ctx req (g, w) in
  same_config g g' ∧
  (authorised g ctx (tp_Name p) →
     ∃ out, Execute duration_text (g_sandbox g) tool (call_arguments (tp_Arguments p))
              (cx_UserID ctx) (cx_TenantID ctx) (cx_call ctx) w = (out, g_sandbox g', w') ∧
       r = Ok (mkResponse JSONRPCVersion (rq_ID req) (RawDoc (call_result out)) None)) ∧
  (¬ authorised g ctx (tp_Name p) →
     w' = w ∧ g_sandbox g' = g_sandbox g ∧ ∃ message, r = Ok (NewErrorResponse (rq_ID req) CodeInternalError message None)).
Proof.
  intros Hp Hn Ht. unfold handleToolsCall. rewrite Hp, bool_decide_eq_false_2, Ht by done.
  pose proof (checks_spec g ctx (tp_Name p)) as Hc. destruct (check_limit duration_text g ctx) as [[msg|] g1]; destruct Hc as (Hc & Hs & Hsb).
  { split_and!; [done|intros [? _]%Hc; done|]. intros _. by eauto. }
  destruct (check_permission g1 ctx (tp_Name p)) as [msg|].
  { split_and!; [done|intros (_ & ? & _)%Hc; done|]. intros _. by eauto. }
  destruct (check_scopes g1 ctx (tp_Name p)) as [msg|].
  { split_and!; [done|intros (_ & _ & ?)%Hc; done|]. intros _. by eauto. }
  unfold run_call. rewrite Hsb.
  pose proof (Execute_total duration_text (g_sandbox g) tool (call_arguments (tp_Arguments p))
                (cx_UserID ctx) (cx_TenantID ctx) (cx_call ctx) w) as Hne.
  destruct (Execute _ _ _ _ _ _ _ _) as [[out sb] w1] eqn:He. cbn. split_and!; [done| |intros Hna; destruct Hna; by apply Hc].
  intros _. exists out. split; [done|]. cbn in Hne. by destruct out as [|?|m]; [..|destruct (Hne m)].
Qed.

(** What the checks come to.  The limiter: the agent has no window, its window is over, or it has room for one more call. *)
Definition within_limit (rl : RateLimiter) (agentID : string) (now : Z) : Prop :=
  match windows rl !! agentID with
  | None => True
  | Some w => interval rl ≤ time_sub now (windowStart w) ∨ count w + 1 ≤ limit rl
  end.

(** The permissions: of the agent's rules that match the tool the last one allows it. *)
Definition last_rule_allows (perms : gmap string (list PermissionRule)) (agentID toolName : string) : Prop :=
  ∃ before rule after, perms !! agentID = Some (before ++ rule :: after) ∧
    matchPattern (ToolPattern rule) toolName = true ∧ Allow rule = true ∧
    Forall (λ r, matchPattern (ToolPattern r) toolName = false) after.

(** The scopes: each one required is held, as it is, by the wildcard of its area or by the wildcard of everything. *)
Definition holds_scopes (required agentScopes : list string) : Prop :=
  Forall (λ req, req ∈ agentScopes ∨ "*" ∈ agentScopes ∨
                 ∃ area rest, SplitN2 req ":"%char = [area; rest] ∧ area +:+ ":*" ∈ agentScopes) required.

(** What a caller with an id needs to call a tool, of the checks that are configured; one without an id needs nothing. *)
Definition may_call (g : gstate W) (ctx : gctx) (toolName : string) : Prop :=
  cx_UserID ctx ≠ "" →
  (∀ rl, g_rateLimiter g = Some rl → within_limit rl (cx_UserID ctx) (cx_now ctx)) ∧
  (∀ perms, g_permissions g = Some perms → last_rule_allows perms (cx_UserID ctx) toolName) ∧
  (∀ sc a, g_scopes g = Some sc → g_auth g = Some a → holds_scopes (default [] (sc !! toolName)) (cx_Scopes ctx)).

Lemma Limit_Allow_within agentID now rl : (Limit_Allow duration_text agentID now rl).1 = Ok tt ↔ within_limit rl agentID now.
Proof.
  unfold Limit_Allow, within_limit. destruct (windows rl !! agentID) as [w|]; [|done].
  destruct (Z.leb_spec (interval rl) (time_sub now (windowStart w))); [split; [by left|done]|].
  cbn [fst count]. destruct (Z.ltb_spec (limit rl) (count w + 1)); split; try done; [intros [?|?]; lia|by right].
Qed.

Lemma authorised_may_call g ctx toolName : authorised g ctx toolName → may_call g ctx toolName.
Proof.
  intros [?|(Hl & Hp & Hs)] Hid; [done|]. split_and!.
  - intros rl Hrl. by apply Limit_Allow_within, Hl.
  - intros perms Hperms. by apply Check_last_rule, Hp.
  - intros sc a Hsc Ha. by apply Enforce_spec, (Hs sc a).
Qed.

(** C36: only calls that may be made reach a tool.  If a request changes the world or the sandbox, it is a call of a registered
    tool, the change is what the sandbox does with that tool and the arguments of the call, and a caller with a user id has a last
    matching permission rule that allows the tool, holds the scopes it requires and is within the rate limit, as far as
    permissions, scopes and an authenticator, and a limiter are configured.  A caller without a user id is not checked at
    all ([anonymous_runs]). *)
Theorem only_authorised_calls_run ctx req g w r g' w' :
  route ctx req (g, w) = (r, (g', w')) →
  (w' = w ∧ g_sandbox g' = g_sandbox g) ∨
  ∃ p tool out, rq_Method req = "tools/call" ∧ call_params (rq_Params req) = Ok p ∧ GetTool (tp_Name p) (g_registry g) = Some tool ∧
    (cx_UserID ctx ≠ "" →
     (∀ rl, g_rateLimiter g = Some rl → within_limit rl (cx_UserID ctx) (cx_now ctx)) ∧
     (∀ perms, g_permissions g = Some perms → last_rule_allows perms (cx_UserID ctx) (tp_Name p)) ∧
     (∀ sc a, g_scopes g = Some sc → g_auth g = Some a → holds_scopes (default [] (sc !! tp_Name p)) (cx_Scopes ctx))) ∧
    Execute duration_text (g_sandbox g) tool (call_arguments (tp_Arguments p)) (cx_UserID ctx) (cx_TenantID ctx) (cx_call ctx) w =
      (out, g_sandbox g', w').
Proof.
  unfold routeRequest. repeat (case_bool_decide; [try (intros [= _ <- <-]; by left)|]); [|intros [= _ <- <-]; by left].
  unfold handleToolsCall. destruct (call_params (rq_Params req)) as [p|?|?]; [|intros [= _ <- <-]; by left..].
  case_bool_decide; [intros [= _ <- <-]; by left|]. destruct (GetTool _ _) as [tool|] eqn:Ht; [|intros [= _ <- <-]; by left].
  pose proof (checks_spec g ctx (tp_Name p)) as Hc. destruct (check_limit duration_text g ctx) as [[msg|] g1]; destruct Hc as (Hc & Hs & Hsb); [intros [= _ <- <-]; by left|].
  destruct (check_permission g1 ctx (tp_Name p)); [intros [= _ <- <-]; by left|]. destruct (check_scopes g1 ctx (tp_Name p)); [intros [= _ <- <-]; by left|].
  unfold run_call. destruct (Execute _ _ _ _ _ _ _ _) as [[out sb] w1] eqn:He. intros [= _ <- <-]. right. rewrite Hsb in He.
  exists p, tool, out. split_and!; [done..|by apply authorised_may_call, Hc|exact He].
Qed.

Definition with_auth (g : gstate W) (a : gmap string AgentIdentity) : gstate W :=
  mkGstate (g_name g) (g_registry g) (Some a) (g_permissions g) (g_scopes g) (g_rateLimiter g) (g_sandbox g).

(** Tokens are never consulted.  Which tokens are registered, and for whom, has no influence on what any request does: the authenticator
    is only asked for being there. *)
Theorem tokens_never_consulted ctx req g w a1 a2 :
  let '(r1, (g1, w1)) := route ctx req (with_auth g a1, w) in
  route ctx req (with_auth g a2, w) = (r1, (with_auth g1 a2, w1)).
Proof.
  unfold routeRequest. repeat (case_bool_decide; [try reflexivity|]); [|reflexivity].
  unfold handleToolsCall. destruct (call_params (rq_Params req)) as [p|?|?]; [|reflexivity..]. case_bool_decide; [reflexivity|].
  cbn [g_registry with_auth]. destruct (GetTool _ _) as [tool|]; [|reflexivity].
  unfold check_limit. cbn [g_rateLimiter with_auth]. 
  assert (Hrest : ∀ rl, let '(r1, (g1, w1)) :=
      match check_permission (with_limiter (with_auth g a1) rl) ctx (tp_Name p) with
      | Some message => (internal_error req message, (with_limiter (with_auth g a1) rl, w))
      | None => match check_scopes (with_limiter (with_auth g a1) rl) ctx (tp_Name p) with
                | Some message => (internal_error req message, (with_limiter (with_auth g a1) rl, w))
                | None => run_call duration_text (with_limiter (with_auth g a1) rl) ctx req tool (tp_Arguments p) w
                end
      end in
      match check_permission (with_limiter (with_auth g a2) rl) ctx (tp_Name p) with
      | Some message => (internal_error req message, (with_limiter (with_auth g a2) rl, w))
      | None => match check_scopes (with_limiter (with_auth g a2) rl) ctx (tp_Name p) with
                | Some message => (internal_error req message, (with_limiter (with_auth g a2) rl, w))
                | None => run_call duration_text (with_limiter (with_auth g a2) rl) ctx req tool (tp_Arguments p) w
                end
      end = (r1, (with_auth g1 a2, w1))).
  { intros rl. unfold check_permission, check_scopes. cbn. destruct (match g_permissions g with Some _ => _ | None => None end); [reflexivity|].
    destruct (match g_scopes g with Some _ => _ | None => None end); [reflexivity|]. unfold run_call. cbn.
    by destruct (Execute _ _ _ _ _ _ _ _) as [[out sb] w1]. }
  destruct (g_rateLimiter g) as [rl|] eqn:Hrl.
  - case_bool_decide.
    + specialize (Hrest (Some rl)). unfold with_limiter, with_auth in *. cbn in Hrest. by rewrite Hrl.
    + destruct (Limit_Allow _ _ _ rl) as [[u|e|m] rl']; [apply (Hrest (Some rl'))|reflexivity|apply (Hrest (Some rl'))].
  - specialize (Hrest None). unfold with_limiter, with_auth in *. cbn in Hrest. by rewrite Hrl.
Qed.
End authorization.

(** ** The builder *)

Section builder.
Context {W : Type} (type_error : string → json → error) (json_text : json → string) (duration_text : Z → string).

Abbreviation Handler := (gctx → JSONRPCRequest → gstate W * W → res JSONRPCResponse * (gstate W * W)).

Record Builder := mkBuilder {
  b_config : option string;    (** the configured service name *)
  b_transports : list (Transport (W := W)); b_toolDefs : list (ToolDefinition W);
  b_authenticator : option (gmap string AgentIdentity); b_permissions : option (gmap string (list PermissionRule));
  b_scopes : option (gmap string (list string)); b_rateLimiter : option RateLimiter; b_sandbox : option (Sandbox W);
  b_middlewares : list (Handler → Handler); b_errors : list error
}.

Definition New (cfg : option string) : Builder := mkBuilder cfg [] [] None None None None None [] [].

Definition with_error (b : Builder) (e : error) : Builder :=
  mkBuilder (b_config b) (b_transports b) (b_toolDefs b) (b_authenticator b) (b_permissions b) (b_scopes b) (b_rateLimiter b) (b_sandbox b)
    (b_middlewares b) (b_errors b ++ [e]).
Definition with_tools (b : Builder) (ts : list (ToolDefinition W)) : Builder :=
  mkBuilder (b_config b) (b_transports b) (b_toolDefs b ++ ts) (b_authenticator b) (b_permissions b) (b_scopes b) (b_rateLimiter b) (b_sandbox b)
    (b_middlewares b) (b_errors b).

(** A nil transport, handler or middleware is [None]. *)
Definition WithTransport (t : option Transport) (b : Builder) : Builder :=
  match t with
  | None => with_error b (ErrText "transport must not be nil")
  | Some t => mkBuilder (b_config b) (b_transports b ++ [t]) (b_toolDefs b) (b_authenticator b) (b_permissions b) (b_scopes b) (b_rateLimiter b)
                (b_sandbox b) (b_middlewares b) (b_errors b)
  end.

(** A definition whose handler may be missing. *)
Record tool_arg := mkToolArg { ta_tool : ToolDefinition W; ta_has_handler : bool }.

Definition WithTool (a : tool_arg) (b : Builder) : Builder :=
  if bool_decide (td_Name (ta_tool a) = "") then with_error b (ErrText "tool name must not be empty")
  else if negb (ta_has_handler a) then with_error b (ErrText ("tool " +:+ quote (td_Name (ta_tool a)) +:+ " must have a handler"))
  else with_tools b [ta_tool a].
Definition WithTools (l : list tool_arg) (b : Builder) : Builder := foldl (λ b a, WithTool a b) b l.

Definition WithAuth a (b : Builder) : Builder :=
  mkBuilder (b_config b) (b_transports b) (b_toolDefs b) a (b_permissions b) (b_scopes b) (b_rateLimiter b) (b_sandbox b) (b_middlewares b) (b_errors b).
Definition WithPermissions p (b : Builder) : Builder :=
  mkBuilder (b_config b) (b_transports b) (b_toolDefs b) (b_authenticator b) p (b_scopes b) (b_rateLimiter b) (b_sandbox b) (b_middlewares b) (b_errors b).
Definition WithScopes s (b : Builder) : Builder :=
  mkBuilder (b_config b) (b_transports b) (b_toolDefs b) (b_authenticator b) (b_permissions b) s (b_rateLimiter b) (b_sandbox b) (b_middlewares b) (b_errors b).
Definition WithRateLimit (requestsPerMinute : Z) (b : Builder) : Builder :=
  if requestsPerMinute <=? 0 then with_error b (ErrText "rate limit must be positive")
  else mkBuilder (b_config b) (b_transports b) (b_toolDefs b) (b_authenticator b) (b_permissions b) (b_scopes b)
         (Some (NewRateLimiter requestsPerMinute)) (b_sandbox b) (b_middlewares b) (b_errors b).
Definition WithSandbox sb (b : Builder) : Builder :=
  mkBuilder (b_config b) (b_transports b) (b_toolDefs b) (b_authenticator b) (b_permissions b) (b_scopes b) (b_rateLimiter b) sb (b_middlewares b) (b_errors b).
Definition WithSandboxConfig (cfg : SandboxConfig) (b : Builder) : Builder := WithSandbox (Some (NewSandbox cfg)) b.
Definition WithMiddleware (mw : option (Handler → Handler)) (b : Builder) : Builder :=
  match mw with
  | None => with_error b (ErrText "middleware must not be nil")
  | Some mw => mkBuilder (b_config b) (b_transports b) (b_toolDefs b) (b_authenticator b) (b_permissions b) (b_scopes b) (b_rateLimiter b)
                 (b_sandbox b) (b_middlewares b ++ [mw]) (b_errors b)
  end.

(** The generated tools, which the registry of connectors gives. *)
Definition WithConnectorTools (generated : list (ToolDefinition W)) (b : Builder) : Builder := with_tools b generated.
Definition WithSystemTools (system : list (ToolDefinition W)) (b : Builder) : Builder :=
  with_tools b (ListTools (mkToolFilter "system" "" "") (RegisterTools system NewToolRegistry)).

(** [%v] of the errors. *)
Definition errors_text (es : list error) : string := "[" +:+ String.concat " " (map Error es) +:+ "]".

Definition when_set {A} (o : option A) (f : Gateway (W := W) → Gateway) (g : Gateway) : Gateway := match o with Some _ => f g | None => g end.

Definition Build (b : Builder) : res (Gateway (W := W)) :=
  match b_errors b with
  | [] =>
      match b_config b with
      | None => Err (ErrText "config is required")
      | Some name =>
          let gw := NewGateway name in
          let gw := foldl (λ gw t, AddTransport t gw) gw (b_transports b) in
          let gw := foldl (λ gw t, Gateway_RegisterTool t gw) gw (b_toolDefs b) in
          let gw := when_set (b_authenticator b) (SetAuthenticator (b_authenticator b)) gw in
          let gw := when_set (b_permissions b) (SetPermissionChecker (b_permissions b)) gw in
          let gw := when_set (b_scopes b) (SetScopeEnforcer (b_scopes b)) gw in
          let gw := when_set (b_rateLimiter b) (SetRateLimiter (b_rateLimiter b)) gw in
          let gw := match b_sandbox b with Some sb => SetSandbox sb gw | None => gw end in
          Ok (foldl (λ gw mw, AddMiddleware (λ next, mw next) gw) gw (b_middlewares b))
      end
  | es => Err (ErrText ("builder configuration errors: " +:+ errors_text es))
  end.

Lemma add_transports ts (g : Gateway (W := W)) :
  foldl (λ gw t, AddTransport t gw) g ts = mkGateway (gw_state g) (gw_transports g ++ ts) (gw_middlewares g) (gw_started g).
Proof. revert g. induction ts as [|t ts IH]; intros []; cbn; [by rewrite app_nil_r|]. rewrite IH. cbn. by rewrite <- app_assoc. Qed.

Lemma add_middlewares mws (g : Gateway (W := W)) :
  foldl (λ gw mw, AddMiddleware (λ next, mw next) gw) g mws = mkGateway (gw_state g) (gw_transports g) (gw_middlewares g ++ mws) (gw_started g).
Proof. revert g. induction mws as [|t mws IH]; intros []; cbn; [by rewrite app_nil_r|]. rewrite IH. cbn. by rewrite <- app_assoc. Qed.

Lemma foldl_rev {A B} (f : A → B → B) b (l : list A) : foldl (λ b a, f a b) b (rev l) = foldr f b l.
Proof. induction l as [|a l IH]; cbn; [done|]. by rewrite foldl_app, IH. Qed.

Lemma register_tools ts (g : Gateway (W := W)) :
  let g' := foldl (λ gw t, Gateway_RegisterTool t gw) g ts in
  gw_transports g' = gw_transports g ∧ gw_middlewares g' = gw_middlewares g ∧ gw_started g' = gw_started g ∧
  g_registry (gw_state g') = RegisterTools ts (g_registry (gw_state g)) ∧ g_name (gw_state g') = g_name (gw_state g) ∧
  g_auth (gw_state g') = g_auth (gw_state g) ∧ g_permissions (gw_state g') = g_permissions (gw_state g) ∧ g_scopes (gw_state g') = g_scopes (gw_state g) ∧
  g_rateLimiter (gw_state g') = g_rateLimiter (gw_state g) ∧ g_sandbox (gw_state g') = g_sandbox (gw_state g).
Proof.
  revert g. induction ts as [|t ts IH]; intros g; cbn; [by split_and!|]. destruct (IH (Gateway_RegisterTool t g)) as (? & ? & ? & Hr & ? & ? & ? & ? & ? & ?).
  by split_and!.
Qed.

(** What the builder builds.  It fails exactly when a call before was given something it refuses, or no configuration; otherwise the
    gateway has the transports in order, of the tools the last one under each name, the security parts that were set, the given
    sandbox or a default one, and handles a request by the middlewares, the first added outermost, around the router. *)
Theorem Build_spec (b : Builder) :
  match Build b with
  | Err _ => b_errors b ≠ [] ∨ b_config b = None
  | Panic _ => False
  | Ok gw =>
      b_errors b = [] ∧ b_config b = Some (g_name (gw_state gw)) ∧ gw_started gw = false ∧ gw_transports gw = b_transports b ∧
      (∀ name, GetTool name (g_registry (gw_state gw)) = list.last (List.filter (λ t, bool_decide (td_Name t = name)) (b_toolDefs b))) ∧
      g_auth (gw_state gw) = b_authenticator b ∧ g_permissions (gw_state gw) = b_permissions b ∧ g_scopes (gw_state gw) = b_scopes b ∧
      g_rateLimiter (gw_state gw) = b_rateLimiter b ∧ g_sandbox (gw_state gw) = default (NewSandbox (mkSandboxConfig 0 0 0)) (b_sandbox b) ∧
      buildHandler type_error json_text duration_text gw = foldr (λ mw handler, mw handler) (routeRequest type_error json_text duration_text) (b_middlewares b)
  end.
Proof.
  unfold Build. destruct (b_errors b) as [|e es]; [|by left]. destruct (b_config b) as [name|]; [|by right].
  assert (Hlast : ∀ ts name (r : gmap string (ToolDefinition W)), GetTool name (RegisterTools ts r) =
            match list.last (List.filter (λ t, bool_decide (td_Name t = name)) ts) with Some t => Some t | None => r !! name end).
  { clear. intros ts name. unfold RegisterTools, GetTool. induction ts as [|t ts IH] using rev_ind; intros r; [done|].
    rewrite foldl_app, List.filter_app. cbn. case_bool_decide as Hn; [rewrite Hn, lookup_insert_eq; by rewrite last_snoc|].
    rewrite lookup_insert_ne, app_nil_r by done. apply IH. }
  rewrite add_middlewares, add_transports. unfold buildHandler. cbn [gw_middlewares].
  match goal with |- context [foldl ?f ?g0 (b_toolDefs b)] => pose proof (register_tools (b_toolDefs b) g0) as Hr; set (g1 := foldl f g0 (b_toolDefs b)) in * end.
  cbn in Hr. destruct Hr as (Ht & Hm & Hst & Hreg & Hn & Ha & Hp & Hs & Hl & Hsb). cbn in *.
  destruct (b_authenticator b), (b_permissions b), (b_scopes b), (b_rateLimiter b), (b_sandbox b); cbn;
    rewrite ?Ht, ?Hm, ?Hreg, ?Ha, ?Hp, ?Hs, ?Hl, ?Hsb; (split_and!; try done; [by rewrite Hn|intros name'; rewrite Hlast; by destruct (list.last _)|]);
    apply foldl_rev.
Qed.
End builder.

(** ** Starting and stopping *)

Section lifecycle.
Context {W : Type}.

(** What every transport's [Stop] does, one after the other. *)
Fixpoint stops (ts : list (Transport (W := W))) (w : W) : list (option error) * W :=
  match ts with
  | [] => ([], w)
  | t :: ts => let '(err, w) := tr_Stop t w in let '(errs, w) := stops ts w in (err :: errs, w)
  end.

Lemma stop_loop_stops ts first (w : W) :
  stop_loop ts first w = (match first with Some e => Some e | None => head (omap id (stops ts w).1) end, (stops ts w).2).
Proof.
  revert first w. induction ts as [|t ts IH]; intros first w; cbn; [by destruct first|].
  destruct (tr_Stop t w) as [err w1]. rewrite IH. destruct (stops ts w1) as [errs w2]. destruct first, err; done.
Qed.

(** Starting and stopping.  [Stop] stops every transport, in order, even after some fail, returns the first failure and lets the gateway be
    started again; a start that ends, by its context or by a transport that fails, does the same, and returns that
    transport's error.  While it runs another start is refused. *)
Theorem Start_Stop_spec (g : Gateway (W := W)) event w :
  (Gateway_Stop g w = (head (omap id (stops (gw_transports g) w).1), with_started g false, (stops (gw_transports g) w).2)) ∧
  (gw_started g = true → Start g event w = (Some (Some (ErrText "gateway already started")), g, w)) ∧
  (gw_started g = false → gw_transports g ≠ [] →
     match event with
     | None => Start g event w = (None, with_started g true, w)
     | Some ev => Start g event w =
         (Some (match ev with ContextDone => head (omap id (stops (gw_transports g) w).1) | TransportFailed name err => Some (ErrWrapf ("transport " +:+ name) err) end),
          with_started g false, (stops (gw_transports g) w).2)
     end).
Proof.
  assert (Hstop : ∀ g : Gateway (W := W), Gateway_Stop g w = (head (omap id (stops (gw_transports g) w).1), with_started g false, (stops (gw_transports g) w).2)).
  { intros g'. unfold Gateway_Stop. cbn. by rewrite stop_loop_stops. }
  split_and!; [apply Hstop|unfold Start; by intros ->|]. unfold Start. intros -> Hne. cbn. destruct (gw_transports g) as [|t ts] eqn:Hts; [done|].
  destruct event as [[|name err]|]; [..|done]; rewrite Hstop; unfold with_started; cbn; by rewrite ?Hts.
Qed.

(** A failed start sticks.  Starting a gateway without transports fails and still marks it started: after a transport is added, every start is
    refused as a second one until [Stop] is called. *)
Theorem start_without_transports_sticks (g : Gateway (W := W)) event event' w t :
  gw_started g = false → gw_transports g = [] →
  let '(r, g1, w1) := Start g event w in
  r = Some (Some (ErrText "no transports configured")) ∧
  Start (AddTransport t g1) event' w1 = (Some (Some (ErrText "gateway already started")), AddTransport t g1, w1).
Proof. intros Hs Ht. unfold Start. rewrite Hs. cbn. by rewrite Ht. Qed.
End lifecycle.

(** ** Concrete gateways *)

(** A gateway with a tool, a limit of no calls and no rules for anyone. *)
Definition counter_tool : ToolDefinition Z := mkToolDefinition "count" "" RawEmpty "connector" "crm" (λ _ n, (Ok "1", n + 1)).
Definition strict_builder : Builder (W := Z) :=
  WithPermissions (Some (SetRules "agent" [mkPermissionRule "list_*" true] NewPermissionChecker))
    (WithRateLimit 1 (WithTool (mkToolArg counter_tool true) (New (Some "flowforge")))).
Definition call_of (tool : string) : JSONRPCRequest :=
  mkRequest "2.0" (RawDoc (JStr "1")) "tools/call" (RawDoc (JObj [("name", JStr tool)])).
Definition ctx_of (user : string) : gctx := mkGctx user "tenant" [] 0 (mkCallEnv 0 millisecond 0 Finished).
Definition strict_call (user : string) : res JSONRPCResponse * Z :=
  match Build strict_builder with
  | Ok gw => let '(r, (_, w)) := HandleRequest no_type_error (λ _, "") (λ _, "") (ctx_of user) (call_of "count") gw 0 in (r, w)
  | _ => (Panic "not built", 0)
  end.

(** A caller without an id runs the tool that a known agent may not. *)
Example anonymous_runs : strict_call "" = (Ok (mkResponse "2.0" (RawDoc (JStr "1")) (RawDoc (call_result (Ok "1"))) None), 1).
Proof. vm_compute. reflexivity. Qed.
Example agent_refused :
  strict_call "agent" = (Ok (NewErrorResponse (RawDoc (JStr "1")) CodeInternalError ("agent " +:+ quote "agent" +:+ " does not have permission to call tool " +:+ quote "count") None), 0).
Proof. vm_compute. reflexivity. Qed.

Lemma tools_call_spec_witness :
  let g := mkGstate "flowforge" {["count" := counter_tool]} None None None None (NewSandbox (mkSandboxConfig 0 0 0)) in
  let '(r, (g', w')) := handleToolsCall no_type_error (λ _, "") (ctx_of "") (call_of "count") (g, 0) in
  same_config g g' ∧ w' = 1.
Proof.
  cbv zeta. set (g := mkGstate "flowforge" _ _ _ _ _ _).
  pose proof (tools_call_spec no_type_error (λ _, "") (ctx_of "") (call_of "count") g 0 (mkToolCallParams "count" RawEmpty) counter_tool
    ltac:(vm_compute; reflexivity) ltac:(discriminate) ltac:(vm_compute; reflexivity)) as Ht.
  assert (Hw : (handleToolsCall no_type_error (λ _, "") (ctx_of "") (call_of "count") (g, 0)).2.2 = 1) by (vm_compute; reflexivity).
  destruct (handleToolsCall _ _ _ _ _) as [r [g' w']]. split; [apply Ht|exact Hw].
Defined.

(** An agent whose rules allow the tool. *)
Lemma only_authorised_calls_run_witness :
  let perms := SetRules "agent" [mkPermissionRule "list_*" false; mkPermissionRule "count" true] NewPermissionChecker in
  let g := mkGstate "flowforge" {["count" := counter_tool]} None (Some perms) None None (NewSandbox (mkSandboxConfig 0 0 0)) in
  (routeRequest no_type_error (λ _, "") (λ _, "") (ctx_of "agent") (call_of "count") (g, 0)).2.2 = 1 ∧
  last_rule_allows perms "agent" "count".
Proof.
  cbv zeta. split; [vm_compute; reflexivity|].
  set (perms := SetRules _ _ _).
  pose (g := mkGstate (W := Z) "flowforge" {["count" := counter_tool]} None (Some perms) None None (NewSandbox (mkSandboxConfig 0 0 0))).
  assert (Hw : (routeRequest no_type_error (λ _, "") (λ _, "") (ctx_of "agent") (call_of "count") (g, 0)).2.2 = 1) by (vm_compute; reflexivity).
  destruct (routeRequest no_type_error (λ _, "") (λ _, "") (ctx_of "agent") (call_of "count") (g, 0)) as [r [g' w']] eqn:Hr.
  destruct (only_authorised_calls_run _ _ _ _ _ _ _ _ _ _ Hr) as [[Hs _]|(p & tool & out & _ & Hp & _ & Ha & _)].
  - exfalso. cbn in Hw. rewrite Hs in Hw. discriminate Hw.
  - vm_compute in Hp. injection Hp as <-. apply Ha; [discriminate|reflexivity].
Defined.

Lemma gateway_over_stdio_witness :
  let route := routeRequest (W := Z) no_type_error (λ _, "") (λ _, "") in
  let s0 := (mkGstate "flowforge" ∅ None None None None (NewSandbox (mkSandboxConfig 0 0 0)), 0) in
  ∃ more st', stdio_run no_type_error sample_doc route more (stdio_init sample_lines None s0) = Some st' ∧ length (written st') = 3%nat.
Proof.
  cbv zeta.
  destruct (gateway_over_stdio no_type_error (λ _, "") (λ _, "") sample_doc (ctx_of "") sample_lines None
    (mkGstate "flowforge" ∅ None None None None (NewSandbox (mkSandboxConfig 0 0 0)), 0) [] _ eq_refl eq_refl eq_refl) as (more & st' & Hrun & _ & Hlen).
  by exists more, st'.
Defined.

Lemma start_without_transports_sticks_witness :
  let g := NewGateway (W := Z) "flowforge" in
  let t := mkTransport "stdio" (λ w, (None, w)) in
  (Start (AddTransport t (Start g None 0).1.2) None 0).1.1 = Some (Some (ErrText "gateway already started")).
Proof.
  cbv zeta. pose proof (start_without_transports_sticks (NewGateway (W := Z) "flowforge") None None 0 (mkTransport "stdio" (λ w, (None, w))) eq_refl eq_refl) as H.
  destruct (Start (NewGateway (W := Z) "flowforge") None 0) as [[r g1] w1] eqn:Hs. destruct H as [_ H]. cbn [fst snd].
  injection Hs as _ <- <-. exact (f_equal (λ x, x.1.1) H).
Defined.

(** The resource list of a gateway without connector tools is [null], and the empty connector name stands for all of them. *)
Definition crm_gateway : gstate Z :=
  mkGstate "flowforge" {["count" := counter_tool]} None None None None (NewSandbox (mkSandboxConfig 0 0 0)).
Example resources_null :
  handleResourcesList (mkGstate (W := Z) "flowforge" ∅ None None None None (NewSandbox (mkSandboxConfig 0 0 0))) (call_of "") =
  NewResponse (RawDoc (JStr "1")) (Ok (JObj [("resources", JNull)])).
Proof. vm_compute. reflexivity. Qed.
Example empty_connector_lists_all :
  is_ok (handleResourcesRead no_type_error (λ _, "") crm_gateway
           (mkRequest "2.0" RawEmpty "resources/read" (RawDoc (JObj [("uri", JStr "flowforge://connector/")])))) = true ∧
  map td_Name (ListTools (mkToolFilter "" "" "") (g_registry crm_gateway)) = ["count"].
Proof. split; vm_compute; reflexivity. Qed.
