(* ===== verification/McpTools.v ===== *)
(** * Tools of the MCP gateway: [internal/mcp/tools/connector_tools.go], [internal/mcp/tools/system_tools.go]

    The tools generated for the registered connectors and the built-in ones.  They work on a world that holds the registry of
    connectors, the statuses of the triggered syncs and the destinations' world [W].  A status is shared between the map
    and the goroutine that runs the sync, so statuses are cells of a store.  [json_text] prints JSON,
    [time_text] and [time_of] are the JSON form of times, [sort_slice] is [sort.Slice]. *)

From S2P Require Import Prelude GoStrings Errors Float Value ExprFuncs Protocol JsonDecode SyncConfig ProtocolJson Sandbox.

(** ** The world of the tools *)

Record SyncStatus := mkSyncStatus {
  ss_ID : string; ss_Connector : string; ss_Stream : string; ss_Status : string; ss_RecordCount : Z;
  ss_StartedAt : Z; ss_UpdatedAt : Z; ss_Error : string
}.

(** What a sync does to its status, in order. *)
Inductive sync_update := UFail (err : string) | UCount (count : Z) | UDone (count : Z) (err : option error).

(** A goroutine of [runSync]: the cell of its status and what it runs, or what it has left to record. *)
Record sync_job := mkSyncJob { jb_cell : nat; jb_connector : string; jb_stream : string; jb_mode : string; jb_updates : option (list sync_update) }.

Record mcp_world (W : Type) := mkMcpWorld {
  mw_registry : connectorRegistry W;
  mw_syncs : gmap string nat;         (** [globalSyncState], by the cells *)
  mw_cells : list SyncStatus;
  mw_jobs : list sync_job;
  mw_now : Z;
  mw_ext : W
}.
Arguments mkMcpWorld {W}. Arguments mw_registry {W}. Arguments mw_syncs {W}. Arguments mw_cells {W}. Arguments mw_jobs {W}.
Arguments mw_now {W}. Arguments mw_ext {W}.

Section tools.
Context {W : Type} (type_error : string → json → error) (json_text : json → string) (time_text : Z → string) (time_of : string → option Z).

Abbreviation world := (mcp_world W).

Definition marshal (r : res json) : res string := j ← r; Ok (json_text j).

(** [fmt.Errorf("invalid parameters: %w", err)] and the like. *)
Definition wrapped {A} (prefix : string) (r : res A) : res A :=
  match r with Err e => Err (ErrWrapf prefix e) | r => r end.
Definition parameters {A} (zero : A) (member : A * option error → string * json → A * option error) (raw : RawMessage) : res A :=
  wrapped "invalid parameters" (unmarshal_struct type_error zero member raw).

(** ** Connector tools *)

Record ToolInput := mkToolInput {
  in_Config : RawMessage; in_Streams : list ConfiguredStream; in_State : gmap string RawMessage; in_Records : list Rec
}.
Definition zero_input : ToolInput := mkToolInput RawEmpty [] ∅ [].

Definition config_member (acc : ToolInput * option error) (e : string * json) : ToolInput * option error :=
  let '(i, err) := acc in
  if key_matches "config" e.1 then (mkToolInput (RawDoc e.2) (in_Streams i) (in_State i) (in_Records i), err) else acc.

Definition streams_member (acc : ToolInput * option error) (e : string * json) : ToolInput * option error :=
  let '(i, err) := acc in
  if key_matches "streams" e.1 then
    let '(x, err) := list_member type_error (struct_member type_error (configured_member type_error) e.1 zero_configured) e.1 (in_Streams i) e.2 err in
    (mkToolInput (in_Config i) x (in_State i) (in_Records i), err)
  else config_member acc e.

Definition read_member (acc : ToolInput * option error) (e : string * json) : ToolInput * option error :=
  let '(i, err) := acc in
  if key_matches "state" e.1 then
    let '(x, err) := map_member type_error (λ j err, (RawDoc j, err)) e.1 (in_State i) e.2 err in
    (mkToolInput (in_Config i) (in_Streams i) x (in_Records i), err)
  else streams_member acc e.

Definition write_member (acc : ToolInput * option error) (e : string * json) : ToolInput * option error :=
  let '(i, err) := acc in
  if key_matches "records" e.1 then
    let '(x, err) := list_member type_error (struct_member type_error (record_member type_error time_of) e.1 zero_record) e.1 (in_Records i) e.2 err in
    (mkToolInput (in_Config i) (in_Streams i) (in_State i) x, err)
  else streams_member acc e.

Definition handle_discover (connectorName : string) (params : RawMessage) (w : world) : res string * world :=
  (input ← parameters zero_input config_member params;
   src ← wrapped ("connector " +:+ connectorName +:+ " not available as source") (GetSource (mw_registry w) connectorName);
   catalog ← wrapped ("discover failed for " +:+ connectorName) (src_Discover src (in_Config input));
   marshal (catalog_json catalog), w).

Definition message_records (msgs : list Message) : list Rec := omap msg_Record msgs.

(** [cancel]: after how many messages the call's context ends. *)
Definition handle_read (cancel : option nat) (connectorName : string) (params : RawMessage) (w : world) : res string * world :=
  (input ← parameters zero_input read_member params;
   src ← wrapped ("connector " +:+ connectorName +:+ " not available as source") (GetSource (mw_registry w) connectorName);
   let '(msgs, err) := src_Read src (in_Config input) (mkConfiguredCatalog (in_Streams input)) (in_State input) cancel in
   match err with
   | Some e => Err (ErrWrapf ("read failed for " +:+ connectorName) e)
   | None =>
       let records := message_records msgs in
       marshal (js ← all_ok (map (record_json time_text) records);
                Ok (JObj [("records", slice_json js); ("count", int_json (Z.of_nat (length records)))]))
   end, w).

Definition handle_write (connectorName : string) (params : RawMessage) (w : world) : res string * world :=
  match parameters zero_input write_member params with
  | Ok input =>
      match wrapped ("connector " +:+ connectorName +:+ " not available as destination") (GetDestination (mw_registry w) connectorName) with
      | Ok dest =>
          let '(r, ext) := dst_Write dest (in_Config input) (mkConfiguredCatalog (in_Streams input)) (map record_message (in_Records input)) (mw_ext w) in
          (result ← wrapped ("write failed for " +:+ connectorName) r; marshal (write_result_json result),
           mkMcpWorld (mw_registry w) (mw_syncs w) (mw_cells w) (mw_jobs w) (mw_now w) ext)
      | Err e => (Err e, w)
      | Panic m => (Panic m, w)
      end
  | Err e => (Err e, w)
  | Panic m => (Panic m, w)
  end.

(** As a source first, then as a destination. *)
Definition handle_check (connectorName : string) (params : RawMessage) (w : world) : res string * world :=
  (input ← parameters zero_input config_member params;
   match GetSource (mw_registry w) connectorName with
   | Ok src => result ← wrapped ("check failed for " +:+ connectorName) (src_Check src (in_Config input)); marshal (Ok (check_json result))
   | _ =>
       dest ← wrapped ("connector " +:+ connectorName +:+ " not registered") (GetDestination (mw_registry w) connectorName);
       result ← wrapped ("check failed for " +:+ connectorName) (dst_Check dest (in_Config input));
       marshal (Ok (check_json result))
   end, w).

(** The schemas of the parameters. *)
Definition typed (t d : string) : json := JObj [("type", JStr t); ("description", JStr d)].
Definition objects (d : string) : json := JObj [("type", JStr "array"); ("description", JStr d); ("items", JObj [("type", JStr "object")])].
Definition input_schema (properties : list (string * json)) (required : list string) : RawMessage :=
  RawDoc (JObj ([("type", JStr "object"); ("properties", JObj properties)]
                ++ match required with [] => [] | _ => [("required", JArr (map JStr required))] end)).

Definition makeDiscoverTool (connectorName : string) (meta : ConnectorMeta) : ToolDefinition world :=
  mkToolDefinition (connectorName +:+ "_discover") ("Discover available streams and schemas from the " +:+ cm_DisplayName meta +:+ " connector")
    (input_schema [("config", typed "object" "Connector configuration")] ["config"]) "connector" connectorName (handle_discover connectorName).
Definition makeReadTool (connectorName : string) (meta : ConnectorMeta) : ToolDefinition world :=
  mkToolDefinition (connectorName +:+ "_read") ("Read data records from the " +:+ cm_DisplayName meta +:+ " connector")
    (input_schema [("config", typed "object" "Connector configuration"); ("streams", objects "Configured streams to read from");
                   ("state", typed "object" "State checkpoint for incremental reads")] ["config"; "streams"])
    "connector" connectorName (handle_read None connectorName).
Definition makeWriteTool (connectorName : string) (meta : ConnectorMeta) : ToolDefinition world :=
  mkToolDefinition (connectorName +:+ "_write") ("Write data records to the " +:+ cm_DisplayName meta +:+ " connector")
    (input_schema [("config", typed "object" "Connector configuration"); ("streams", objects "Configured streams for writing");
                   ("records", objects "Records to write")] ["config"; "streams"; "records"])
    "connector" connectorName (handle_write connectorName).
Definition makeCheckTool (connectorName : string) (meta : ConnectorMeta) : ToolDefinition world :=
  mkToolDefinition (connectorName +:+ "_check") ("Check connectivity and credentials for the " +:+ cm_DisplayName meta +:+ " connector")
    (input_schema [("config", typed "object" "Connector configuration to validate")] ["config"]) "connector" connectorName (handle_check connectorName).

Definition GenerateConnectorTools (connectorName : string) (meta : ConnectorMeta) : list (ToolDefinition world) :=
  if bool_decide (cm_Type meta = "source") then
    [makeDiscoverTool connectorName meta; makeReadTool connectorName meta; makeCheckTool connectorName meta]
  else if bool_decide (cm_Type meta = "destination") then
    [makeWriteTool connectorName meta; makeCheckTool connectorName meta]
  else if bool_decide (cm_Type meta = "bidirectional") then
    [makeDiscoverTool connectorName meta; makeReadTool connectorName meta; makeWriteTool connectorName meta; makeCheckTool connectorName meta]
  else [].

(** Over the registered connectors, in the order the map gives them. *)
Definition GenerateAllConnectorTools (connectors : list ConnectorMeta) : list (ToolDefinition world) :=
  concat (map (λ meta, GenerateConnectorTools (cm_Name meta) meta) connectors).

(** ** System tools: connectors and schemas *)

Definition meta_json (m : ConnectorMeta) : json :=
  JObj ([("name", JStr (cm_Name m)); ("display_name", JStr (cm_DisplayName m)); ("version", JStr (cm_Version m)); ("type", JStr (cm_Type m));
         ("category", JStr (cm_Category m))] ++ omit_string "icon" (cm_Icon m)).

Definition two_strings_member (first second : string) (acc : (string * string) * option error) (e : string * json) : (string * string) * option error :=
  let '((a, b), err) := acc in
  if key_matches first e.1 then let '(a, err) := string_member type_error e.1 a e.2 err in ((a, b), err)
  else if key_matches second e.1 then let '(b, err) := string_member type_error e.1 b e.2 err in ((a, b), err)
  else acc.

Definition meta_selected (type category : string) (c : ConnectorMeta) : bool :=
  if negb (bool_decide (type = "")) && negb (bool_decide (cm_Type c = type)) then false
  else if negb (bool_decide (category = "")) && negb (bool_decide (cm_Category c = category)) then false
  else true.

Definition handle_list_connectors (sort_slice : list ConnectorMeta → list ConnectorMeta) (params : RawMessage) (w : world) : res string * world :=
  (filter ← match params with RawEmpty => Ok ("", "") | params => parameters ("", "") (two_strings_member "type" "category") params end;
   let filtered := sort_slice (List.filter (meta_selected filter.1 filter.2) (ListConnectors (mw_registry w))) in
   marshal (Ok (JObj [("connectors", slice_json (map meta_json filtered)); ("count", int_json (Z.of_nat (length filtered)))])), w).

Definition not_found (message : string) : res json := Ok (JObj [("error", JStr "not_found"); ("message", JStr message)]).

Fixpoint find_stream (name : string) (streams : list Stream) : option Stream :=
  match streams with
  | [] => None
  | s :: streams => if bool_decide (s_Name s = name) then Some s else find_stream name streams
  end.

Definition schema_info_json (connector : string) (s : Stream) : res json :=
  schema ← raw_json (s_Schema s);
  Ok (JObj ([("connector", JStr connector); ("stream", JStr (s_Name s)); ("schema", schema);
             ("supported_sync_modes", slice_json (map (λ m, JStr (SyncMode_text m)) (s_SupportedSyncModes s)))]
            ++ omit_slice "primary_key" (paths_json (s_PrimaryKey s)) ++ omit_slice "default_cursor_field" (map JStr (s_DefaultCursorField s)))).

Definition empty_config : RawMessage := RawDoc (JObj []).

Definition handle_schema_info (params : RawMessage) (w : world) : res string * world :=
  (input ← parameters ("", "") (two_strings_member "connector" "stream") params;
   if bool_decide (input.1 = "") || bool_decide (input.2 = "") then Err (ErrText "connector and stream are required")
   else
     src ← wrapped ("connector " +:+ input.1 +:+ " not available") (GetSource (mw_registry w) input.1);
     catalog ← wrapped "discover failed" (src_Discover src empty_config);
     match find_stream input.2 (cat_Streams catalog) with
     | Some s => marshal (schema_info_json input.1 s)
     | None => marshal (not_found ("stream " +:+ input.2 +:+ " not found in connector " +:+ input.1))
     end, w).

(** ** System tools: syncs *)

Definition status_json (s : SyncStatus) : json :=
  JObj ([("id", JStr (ss_ID s)); ("connector", JStr (ss_Connector s)); ("stream", JStr (ss_Stream s)); ("status", JStr (ss_Status s));
         ("record_count", int_json (ss_RecordCount s)); ("started_at", JStr (time_text (ss_StartedAt s))); ("updated_at", JStr (time_text (ss_UpdatedAt s)))]
        ++ omit_string "error" (ss_Error s)).

Definition sync_id_member (acc : string * option error) (e : string * json) : string * option error :=
  let '(s, err) := acc in if key_matches "sync_id" e.1 then string_member type_error e.1 s e.2 err else acc.

Definition lookup_sync (syncID : string) (w : world) : option SyncStatus := mw_syncs w !! syncID ≫= λ cell, mw_cells w !! cell.

Definition handle_sync_status (params : RawMessage) (w : world) : res string * world :=
  (syncID ← parameters "" sync_id_member params;
   if bool_decide (syncID = "") then Err (ErrText "sync_id is required")
   else match lookup_sync syncID w with
        | Some status => marshal (Ok (status_json status))
        | None => marshal (not_found ("sync " +:+ syncID +:+ " not found"))
        end, w).

Record TriggerInput := mkTriggerInput { ti_Connector : string; ti_Stream : string; ti_SyncMode : string }.

Definition trigger_member (acc : TriggerInput * option error) (e : string * json) : TriggerInput * option error :=
  let '(i, err) := acc in
  if key_matches "connector" e.1 then
    let '(x, err) := string_member type_error e.1 (ti_Connector i) e.2 err in (mkTriggerInput x (ti_Stream i) (ti_SyncMode i), err)
  else if key_matches "stream" e.1 then
    let '(x, err) := string_member type_error e.1 (ti_Stream i) e.2 err in (mkTriggerInput (ti_Connector i) x (ti_SyncMode i), err)
  else if key_matches "sync_mode" e.1 then
    let '(x, err) := string_member type_error e.1 (ti_SyncMode i) e.2 err in (mkTriggerInput (ti_Connector i) (ti_Stream i) x, err)
  else acc.

Definition sync_id (i : TriggerInput) (now : Z) : string := "sync_" +:+ ti_Connector i +:+ "_" +:+ ti_Stream i +:+ "_" +:+ pretty now.

(** The two readings of the clock are taken as one. *)
Definition start_sync (i : TriggerInput) (w : world) : world :=
  let syncID := sync_id i (mw_now w) in
  let status := mkSyncStatus syncID (ti_Connector i) (ti_Stream i) "running" 0 (mw_now w) (mw_now w) "" in
  let cell := length (mw_cells w) in
  let mode := if bool_decide (ti_SyncMode i = "") then "full_refresh" else ti_SyncMode i in
  mkMcpWorld (mw_registry w) (<[syncID := cell]> (mw_syncs w)) (mw_cells w ++ [status])
    (mw_jobs w ++ [mkSyncJob cell (ti_Connector i) (ti_Stream i) mode None]) (mw_now w) (mw_ext w).

Definition handle_trigger_sync (params : RawMessage) (w : world) : res string * world :=
  match parameters (mkTriggerInput "" "" "") trigger_member params with
  | Ok i =>
      if bool_decide (ti_Connector i = "") || bool_decide (ti_Stream i = "") then (Err (ErrText "connector and stream are required"), w)
      else match wrapped ("connector " +:+ ti_Connector i +:+ " not found") (GetMeta (mw_registry w) (ti_Connector i)) with
           | Ok _ =>
               (marshal (Ok (JObj [("started_at", JStr (time_text (mw_now w))); ("status", JStr "running"); ("sync_id", JStr (sync_id i (mw_now w)))])),
                start_sync i w)
           | Err e => (Err e, w)
           | Panic m => (Panic m, w)
           end
  | Err e => (Err e, w)
  | Panic m => (Panic m, w)
  end.

(** The counts that are recorded while the messages come, and the last one. *)
Fixpoint count_updates (msgs : list Message) (count : Z) : list sync_update * Z :=
  match msgs with
  | [] => ([], count)
  | m :: msgs =>
      match msg_Record m with
      | None => count_updates msgs count
      | Some _ =>
          let count := count +ᵢ 1 in
          let '(us, last) := count_updates msgs count in
          (if Z.rem count 100 =? 0 then UCount count :: us else us, last)
      end
  end.

Definition configured (s : Stream) (syncMode : string) : ConfiguredCatalog :=
  mkConfiguredCatalog [mkConfiguredStream s (if bool_decide (syncMode = "incremental") then SyncModeIncremental else SyncModeFullRefresh)
                         (DestSyncModeOther "") [] []].

(** [runSync]: what it records.  [cancel]: after how many messages its context ends. *)
Definition runSync (r : connectorRegistry W) (connectorName stream syncMode : string) (cancel : option nat) : res (list sync_update) :=
  match GetSource r connectorName with
  | Err e => Ok [UFail (Error e)]
  | Panic m => Panic m
  | Ok src =>
      match src_Discover src empty_config with
      | Err e => Ok [UFail ("discover failed: " +:+ Error e)]
      | Panic m => Panic m
      | Ok catalog =>
          match find_stream stream (cat_Streams catalog) with
          | None => Ok [UFail ("stream " +:+ stream +:+ " not found in connector " +:+ connectorName)]
          | Some s =>
              let '(msgs, readErr) := src_Read src empty_config (configured s syncMode) ∅ cancel in
              let '(us, count) := count_updates msgs 0 in
              Ok (us ++ [UDone count readErr])
          end
      end
  end.

Definition apply_update (u : sync_update) (now : Z) (s : SyncStatus) : SyncStatus :=
  match u with
  | UFail err => mkSyncStatus (ss_ID s) (ss_Connector s) (ss_Stream s) "failed" (ss_RecordCount s) (ss_StartedAt s) now err
  | UCount count => mkSyncStatus (ss_ID s) (ss_Connector s) (ss_Stream s) (ss_Status s) count (ss_StartedAt s) now (ss_Error s)
  | UDone count None => mkSyncStatus (ss_ID s) (ss_Connector s) (ss_Stream s) "completed" count (ss_StartedAt s) now (ss_Error s)
  | UDone count (Some e) => mkSyncStatus (ss_ID s) (ss_Connector s) (ss_Stream s) "failed" count (ss_StartedAt s) now (Error e)
  end.

Definition with_jobs (w : world) (jobs : list sync_job) (cells : list SyncStatus) : world :=
  mkMcpWorld (mw_registry w) (mw_syncs w) cells jobs (mw_now w) (mw_ext w).

(** A goroutine begins to run, or makes its next update. *)
Definition job_start (i : nat) (cancel : option nat) (w : world) : option (res world) :=
  match mw_jobs w !! i with
  | Some (mkSyncJob cell connector stream mode None) =>
      Some (us ← runSync (mw_registry w) connector stream mode cancel;
            Ok (with_jobs w (<[i := mkSyncJob cell connector stream mode (Some us)]> (mw_jobs w)) (mw_cells w)))
  | _ => None
  end.

Definition job_update (i : nat) (w : world) : option world :=
  match mw_jobs w !! i with
  | Some (mkSyncJob cell connector stream mode (Some (u :: us))) =>
      Some (with_jobs w (<[i := mkSyncJob cell connector stream mode (Some us)]> (mw_jobs w)) (alter (apply_update u (mw_now w)) cell (mw_cells w)))
  | _ => None
  end.

(** ** System tools: suggestions of field mappings *)

Record schemaField := mkSchemaField { sf_Name : string; sf_Type : string }.
Record Suggestion := mkSuggestion { sg_Source : string; sg_Dest : string; sg_Confidence : float64; sg_Reason : string }.

Definition type_member (acc : string * option error) (e : string * json) : string * option error :=
  let '(s, err) := acc in if key_matches "type" e.1 then string_member type_error e.1 s e.2 err else acc.
Definition properties_member (acc : gmap string string * option error) (e : string * json) : gmap string string * option error :=
  let '(m, err) := acc in
  if key_matches "properties" e.1 then map_member type_error (λ j err, struct_member type_error type_member e.1 "" j err) e.1 m e.2 err else acc.

(** The fields by name; none when the schema does not have the form. *)
Definition extractFields (schema : RawMessage) : list schemaField :=
  match unmarshal_struct type_error ∅ properties_member schema with
  | Ok props => map (λ e, mkSchemaField e.1 e.2) (sorted_entries props)
  | _ => []
  end.

(** An underscore before each upper case letter but the first rune. *)
Fixpoint split_camel (at_start : bool) (rs : list Z) : list Z :=
  match rs with
  | [] => []
  | r :: rs => (if negb at_start && (0x41 <=? r) && (r <=? 0x5A) then [0x5F; r] else [r]) ++ split_camel false rs
  end.

Definition normalizeFieldName (tolower : Z → Z) (name : string) : string :=
  let s := string_of_codes (split_camel true (codes name)) in
  let s := string_of_codes (map tolower (codes s)) in
  TrimSpace (ReplaceAll (ReplaceAll s "-" "") "_" "").

(** The first destination that is free and passes the test. *)
Fixpoint first_free (test : schemaField → bool) (destUsed : gset string) (destFields : list schemaField) : option schemaField :=
  match destFields with
  | [] => None
  | df :: rest =>
      if bool_decide (sf_Name df ∈ destUsed) then first_free test destUsed rest
      else if test df then Some df else first_free test destUsed rest
  end.

Definition suggested (mappings : list Suggestion) (sf : schemaField) : bool :=
  existsb (λ m, bool_decide (sg_Source m = sf_Name sf)) mappings.

(** A pass over the sources: [skip] those that have a mapping already. *)
Definition match_pass (skip : bool) (test : schemaField → schemaField → bool) (make : schemaField → schemaField → Suggestion)
    (sourceFields destFields : list schemaField) (acc : list Suggestion * gset string) : list Suggestion * gset string :=
  foldl (λ acc sf,
    if skip && suggested acc.1 sf then acc
    else match first_free (test sf) acc.2 destFields with
         | Some df => (acc.1 ++ [make sf df], {[sf_Name df]} ∪ acc.2)
         | None => acc
         end) acc sourceFields.

Definition exact_match (sf df : schemaField) : Suggestion :=
  if bool_decide (sf_Type sf = sf_Type df) then mkSuggestion (sf_Name sf) (sf_Name df) (f_of_Z 1) "exact name and type match"
  else mkSuggestion (sf_Name sf) (sf_Name df) (f_of_dec 9 (-1)) "exact name match".
Definition normalized_match (sf df : schemaField) : Suggestion :=
  if bool_decide (sf_Type sf = sf_Type df) then mkSuggestion (sf_Name sf) (sf_Name df) (f_of_dec 8 (-1)) "normalized name and type match"
  else mkSuggestion (sf_Name sf) (sf_Name df) (f_of_dec 7 (-1)) "normalized name match".
Definition type_match (sf df : schemaField) : Suggestion := mkSuggestion (sf_Name sf) (sf_Name df) (f_of_dec 3 (-1)) "type match only".

Definition suggestions (tolower : Z → Z) (sourceFields destFields : list schemaField) : list Suggestion :=
  let acc := match_pass false (λ sf df, bool_decide (sf_Name sf = sf_Name df)) exact_match sourceFields destFields ([], ∅) in
  let acc := match_pass true (λ sf df, bool_decide (normalizeFieldName tolower (sf_Name sf) = normalizeFieldName tolower (sf_Name df)))
               normalized_match sourceFields destFields acc in
  (match_pass true (λ sf df, bool_decide (sf_Type sf = sf_Type df) && negb (bool_decide (sf_Type sf = ""))) type_match sourceFields destFields acc).1.

Definition suggestion_json (s : Suggestion) : json :=
  JObj [("source_field", JStr (sg_Source s)); ("dest_field", JStr (sg_Dest s)); ("confidence", JNum (NPrint (sg_Confidence s))); ("reason", JStr (sg_Reason s))].

Definition schemas_member (acc : (RawMessage * RawMessage) * option error) (e : string * json) : (RawMessage * RawMessage) * option error :=
  let '((a, b), err) := acc in
  if key_matches "source_schema" e.1 then ((RawDoc e.2, b), err)
  else if key_matches "dest_schema" e.1 then ((a, RawDoc e.2), err)
  else acc.

Definition handle_field_mapping (tolower : Z → Z) (sort_slice : list Suggestion → list Suggestion) (params : RawMessage) (w : world) : res string * world :=
  (input ← parameters (RawEmpty, RawEmpty) schemas_member params;
   let mappings := sort_slice (suggestions tolower (extractFields input.1) (extractFields input.2)) in
   marshal (Ok (JObj [("mappings", slice_json (map suggestion_json mappings)); ("count", int_json (Z.of_nat (length mappings)))])), w).

(** ** The built-in tools *)

Definition enumerated (d : string) (values : list string) (rest : list (string * json)) : json :=
  JObj ([("type", JStr "string"); ("description", JStr d); ("enum", JArr (map JStr values))] ++ rest).

Definition system_tool (name description : string) (schema : RawMessage) (handler : RawMessage → world → res string * world) : ToolDefinition world :=
  mkToolDefinition name description schema "system" "" handler.

Definition RegisterSystemTools (tolower : Z → Z) (sort_meta : list ConnectorMeta → list ConnectorMeta) (sort_suggestions : list Suggestion → list Suggestion)
    (registry : gmap string (ToolDefinition world)) : gmap string (ToolDefinition world) :=
  RegisterTools
    [system_tool "list_connectors" "List all registered connectors with their metadata, type, and capabilities"
       (input_schema [("type", enumerated "Filter by connector type: source, destination, or bidirectional" ["source"; "destination"; "bidirectional"] []);
                      ("category", typed "string" "Filter by connector category")] []) (handle_list_connectors sort_meta);
     system_tool "sync_status" "Get the current status of a sync operation by its ID"
       (input_schema [("sync_id", typed "string" "The unique identifier of the sync operation")] ["sync_id"]) handle_sync_status;
     system_tool "trigger_sync" "Trigger a new sync operation for a connector and stream"
       (input_schema [("connector", typed "string" "Name of the connector to sync"); ("stream", typed "string" "Name of the stream to sync");
                      ("sync_mode", enumerated "Sync mode: full_refresh or incremental" ["full_refresh"; "incremental"] [("default", JStr "full_refresh")])]
                     ["connector"; "stream"]) handle_trigger_sync;
     system_tool "schema_info" "Get the schema definition for a specific stream of a connector"
       (input_schema [("connector", typed "string" "Name of the connector"); ("stream", typed "string" "Name of the stream to get schema for")]
                     ["connector"; "stream"]) handle_schema_info;
     system_tool "field_mapping_suggest" "Suggest field mappings between a source and destination stream based on schema similarity"
       (input_schema [("source_schema", typed "object" "JSON Schema of the source stream"); ("dest_schema", typed "object" "JSON Schema of the destination stream")]
                     ["source_schema"; "dest_schema"]) (handle_field_mapping tolower sort_suggestions)]
    registry.
End tools.

(** ** The generated tools fit the registry *)

Section generated.
Context {W : Type} (type_error : string → json → error) (json_text : json → string) (time_text : Z → string) (time_of : string → option Z).

Abbreviation tools_of := (GenerateAllConnectorTools (W := W) type_error json_text time_text time_of).

(** A registration under the name of the metadata. *)
Definition own_name (c : registration (W := W)) : Prop :=
  match c with RegS n m _ | RegD n m _ | RegB n m _ => cm_Name m = n end.

(** What the metadata says of a connector is there. *)
Definition meta_true (r : connectorRegistry W) : Prop :=
  map_Forall (λ name m, cm_Name m = name ∧
    ((cm_Type m = "source" ∧ is_Some (sources r !! name)) ∨
     (cm_Type m = "destination" ∧ is_Some (destinations r !! name)) ∨
     (cm_Type m = "bidirectional" ∧ is_Some (sources r !! name) ∧ is_Some (destinations r !! name)))) (meta r).

Lemma register_meta_true r c : own_name c → meta_true r → meta_true (register r c).
Proof.
  intros Hn Hr. assert (Hkeep : ∀ (A : Type) (m : gmap string A) n x k, is_Some (m !! k) → is_Some (<[n := x]> m !! k)).
  { intros A m n x k Hk. destruct (decide (n = k)) as [->|]; [rewrite lookup_insert_eq; by eexists|by rewrite lookup_insert_ne]. }
  assert (Hnew : ∀ (A : Type) (m : gmap string A) n x, is_Some (<[n := x]> m !! n)) by (intros; rewrite lookup_insert_eq; by eexists).
  destruct c as [n m s|n m d|n m b]; cbn in *; apply map_Forall_insert_2; cbn; try (split; [done|]); auto;
    intros k mk Hk; destruct (Hr k mk Hk) as [? [[? ?]|[[? ?]|(? & ? & ?)]]]; (split; [done|]); auto 10.
Qed.

Lemma meta_true_all cs : Forall own_name cs → meta_true (foldl register registry_init cs).
Proof.
  intros Hcs. assert (H0 : meta_true registry_init) by apply map_Forall_empty. revert H0. generalize (@registry_init W).
  induction Hcs as [|c cs Hc _ IH]; intros r H0; cbn; [done|]. by apply IH, register_meta_true.
Qed.

(** The operation a generated tool is for. *)
Inductive tool_op := OpDiscover | OpRead | OpWrite | OpCheck.
Definition op_suffix (o : tool_op) : string := match o with OpDiscover => "_discover" | OpRead => "_read" | OpWrite => "_write" | OpCheck => "_check" end.
Definition op_served (o : tool_op) (r : connectorRegistry W) (name : string) : Prop :=
  match o with
  | OpDiscover | OpRead => is_ok (GetSource r name) = true
  | OpWrite => is_ok (GetDestination r name) = true
  | OpCheck => is_ok (GetSource r name) = true ∨ is_ok (GetDestination r name) = true
  end.

(** The generated tools work.  After any registrations under the connectors' own names, and in whatever order the registry lists
    them, every generated tool is called after a connector and an operation, is of the category of connectors, and the
    registry serves that connector in the role the operation needs. *)
Theorem generated_tools_served cs listing :
  Forall own_name cs → let r := foldl register registry_init cs in
  listing ≡ₚ ListConnectors r →
  Forall (λ t, ∃ o, td_Name t = td_Connector t +:+ op_suffix o ∧ td_Category t = "connector" ∧ op_served o r (td_Connector t)) (tools_of listing).
Proof.
  intros Hcs r Hl. apply list.Forall_forall. intros t Ht. unfold GenerateAllConnectorTools in Ht.
  apply list_elem_of_In, in_concat in Ht as (ts & Hts & Ht). apply in_map_iff in Hts as (m & <- & Hm).
  apply list_elem_of_In in Hm. rewrite Hl in Hm. unfold ListConnectors in Hm. apply list_elem_of_fmap in Hm as ([k m'] & Heq & Hm). cbn in Heq. subst m'.
  apply elem_of_map_to_list in Hm. destruct (meta_true_all cs Hcs k m Hm) as [Hk Hr]. fold r in Hr.
  assert (Hs : is_Some (sources r !! k) → is_ok (GetSource r k) = true) by (unfold GetSource, lookup_or; intros [s ->]; done).
  assert (Hd : is_Some (destinations r !! k) → is_ok (GetDestination r k) = true) by (unfold GetDestination, lookup_or; intros [s ->]; done).
  unfold GenerateConnectorTools in Ht. rewrite Hk in Ht.
  destruct Hr as [[Hty ?]|[[Hty ?]|(Hty & ? & ?)]]; rewrite Hty in Ht; cbn in Ht; repeat destruct Ht as [<-|Ht]; try done;
    first [exists OpDiscover; split_and!; [done|done|by apply Hs]|exists OpRead; split_and!; [done|done|by apply Hs]
          |exists OpWrite; split_and!; [done|done|by apply Hd]|exists OpCheck; split_and!; [done|done|cbn; auto]].
Qed.
End generated.

(** ** From one connector to another through JSON *)

Section relay.
Context {W : Type} (type_error : string → json → error) (json_text : json → string) (time_text : Z → string) (time_of : string → option Z).

Definition record_back (r : Rec) : Rec := mkRec (rec_Stream r) (rec_Namespace r) (raw_back (rec_Data r)) (rec_EmittedAt r).

(** The parameters of a write: a configuration and the records of a read. *)
Definition write_params (config records : json) : RawMessage := RawDoc (JObj [("config", config); ("records", records)]).

Lemma records_back records js :
  Forall (λ r, time_of (time_text (rec_EmittedAt r)) = Some (rec_EmittedAt r)) records →
  all_ok (map (record_json time_text) records) = Ok js →
  list_member type_error (struct_member type_error (record_member type_error time_of) "records" zero_record) "records" [] (slice_json js) None
  = (map record_back records, None).
Proof.
  intros Ht Hjs.
  assert (Hgo : ∀ acc, foldl (λ acc j, let '(a, err) := struct_member type_error (record_member type_error time_of) "records" zero_record j acc.2 in (acc.1 ++ [a], err)) (acc, None) js
                       = (acc ++ map record_back records, None)).
  { revert js Hjs. induction Ht as [|r records Hr _ IH]; intros js Hjs acc; cbn in Hjs; [injection Hjs as <-; cbn; by rewrite app_nil_r|].
    destruct (record_json time_text r) as [j|?|?] eqn:Hj; [|done..]. cbn in Hjs. destruct (all_ok (map _ records)) as [js'|?|?]; [|done..].
    injection Hjs as <-. cbn [foldl snd fst].
    assert (Hb : struct_member type_error (record_member type_error time_of) "records" zero_record j None = (record_back r, None)).
    { etrans; [|exact (record_roundtrip type_error time_text time_of r j Hr Hj)].
      unfold record_json in Hj. destruct (raw_json (rec_Data r)); [|done..]. cbn in Hj. injection Hj as <-. reflexivity. }
    rewrite Hb. cbn [fst]. rewrite IH by done. by rewrite <- app_assoc. }
  unfold list_member. destruct js as [|j js]; cbn [slice_json]; [|apply (Hgo [])].
  specialize (Hgo []). cbn in Hgo. by rewrite <- Hgo.
Qed.

(** Records are relayed.  What the read tool of one connector reports, given to the write tool of another, reaches its destination
    as the same records in the same order: names, namespaces, times and data, where a record without data has [null]. *)
Theorem records_relayed (w : mcp_world W) source target params input src msgs dest config js :
  parameters type_error zero_input (read_member type_error) params = Ok input →
  GetSource (mw_registry w) source = Ok src →
  src_Read src (in_Config input) (mkConfiguredCatalog (in_Streams input)) (in_State input) None = (msgs, None) →
  Forall (λ r, time_of (time_text (rec_EmittedAt r)) = Some (rec_EmittedAt r)) (message_records msgs) →
  all_ok (map (record_json time_text) (message_records msgs)) = Ok js →
  GetDestination (mw_registry w) target = Ok dest →
  (handle_read type_error json_text time_text None source params w).1 =
    Ok (json_text (JObj [("records", slice_json js); ("count", int_json (Z.of_nat (length (message_records msgs))))])) ∧
  mw_ext (handle_write type_error json_text time_of target (write_params config (slice_json js)) w).2 =
    (dst_Write dest (RawDoc config) (mkConfiguredCatalog []) (map record_message (map record_back (message_records msgs))) (mw_ext w)).2.
Proof.
  intros Hp Hs Hr Ht Hjs Hd. split.
  - unfold handle_read. rewrite Hp. cbn. rewrite Hs. cbn. by rewrite Hr, Hjs.
  - unfold handle_write, parameters, write_params, unmarshal_struct. cbn [struct_member foldl].
    unfold write_member at 2, streams_member, config_member. cbn [fst snd]. match_keys. unfold write_member. cbn [fst snd]. match_keys.
    cbn [in_Records zero_input in_Config in_Streams in_State]. rewrite (records_back _ js Ht Hjs). cbn [wrapped]. rewrite Hd. cbn [wrapped in_Config in_Streams in_Records].
    by destruct (dst_Write _ _ _ _ _).
Qed.
End relay.

(** ** The life of a sync *)

Section syncs.
Context {W : Type} (type_error : string → json → error) (json_text : json → string) (time_text : Z → string).

Abbreviation world := (mcp_world W).

(** What happens: a call of the tool that triggers syncs, the goroutines, and whatever else changes the world. *)
Inductive sync_op :=
| OTrigger (params : RawMessage)
| OStart (i : nat) (cancel : option nat)
| OUpdate (i : nat)
| OOther (r : connectorRegistry W) (now : Z) (ext : W).

(** [None]: the step cannot be taken, or a source panicked and the process ended. *)
Definition sync_step (o : sync_op) (w : world) : option world :=
  match o with
  | OTrigger params => Some (handle_trigger_sync type_error json_text time_text params w).2
  | OStart i cancel => match job_start i cancel w with Some (Ok w) => Some w | _ => None end
  | OUpdate i => job_update i w
  | OOther r now ext => Some (mkMcpWorld r (mw_syncs w) (mw_cells w) (mw_jobs w) now ext)
  end.

Fixpoint sync_run (ops : list sync_op) (w : world) : option world :=
  match ops with
  | [] => Some w
  | o :: ops => w ← sync_step o w; sync_run ops w
  end.

Definition sync_world (r : connectorRegistry W) (now : Z) (ext : W) : world := mkMcpWorld r ∅ [] [] now ext.

(** Counts, then one last word. *)
Definition final_update (u : sync_update) : Prop := match u with UCount _ => False | _ => True end.
Definition well_formed (us : list sync_update) : Prop := ∃ counts u, us = map UCount counts ++ [u] ∧ final_update u.

Definition ended (s : SyncStatus) : Prop := ss_Status s = "completed" ∧ ss_Error s = "" ∨ ss_Status s = "failed".

(** How far a job is, and what its status says. *)
Definition job_phase (j : sync_job) (s : SyncStatus) : Prop :=
  match jb_updates j with
  | Some [] => ended s
  | Some us => well_formed us ∧ ss_Status s = "running" ∧ ss_Error s = ""
  | None => ss_Status s = "running" ∧ ss_Error s = ""
  end.

Record syncs_ok (w : world) : Prop := {
  ok_ids : map_Forall (λ id cell, ∃ s, mw_cells w !! cell = Some s ∧ ss_ID s = id) (mw_syncs w);
  ok_jobs : Forall2 (λ j s, job_phase j s) (mw_jobs w) (mw_cells w);
  ok_cells : ∀ i j, mw_jobs w !! i = Some j → jb_cell j = i
}.

Lemma count_updates_counts msgs count : ∃ counts, (count_updates msgs count).1 = map UCount counts.
Proof.
  revert count. induction msgs as [|m msgs IH]; intros count; cbn; [by exists []|]. destruct (msg_Record m); [|apply IH].
  destruct (IH (count +ᵢ 1)) as [cs Hcs]. destruct (count_updates msgs (count +ᵢ 1)) as [us last]. cbn in *. subst us.
  destruct (_ =? 0); [by exists ((count +ᵢ 1) :: cs)|by exists cs].
Qed.

Lemma runSync_well_formed (r : connectorRegistry W) connector stream mode cancel us : runSync r connector stream mode cancel = Ok us → well_formed us.
Proof.
  unfold runSync. assert (H1 : ∀ u, final_update u → well_formed [u]) by (intros u Hu; by exists [], u).
  destruct (GetSource r connector) as [src|e|?]; [|by intros [= <-]; apply H1|done].
  destruct (src_Discover src empty_config) as [catalog|e|?]; [|by intros [= <-]; apply H1|done].
  destruct (find_stream stream (cat_Streams catalog)) as [s|]; [|by intros [= <-]; apply H1].
  destruct (src_Read _ _ _ _ _) as [msgs err]. destruct (count_updates_counts msgs 0) as [cs Hcs].
  destruct (count_updates msgs 0) as [us0 count]. cbn in Hcs. subst us0. intros [= <-]. by exists cs, (UDone count err).
Qed.

Lemma apply_update_phase u us now s :
  well_formed (u :: us) → ss_Status s = "running" → ss_Error s = "" →
  job_phase (mkSyncJob 0 "" "" "" (Some us)) (apply_update u now s).
Proof.
  intros (counts & u' & Heq & Hu) Hs He. destruct counts as [|c counts]; cbn in Heq; injection Heq as -> ->.
  - cbn. destruct u' as [err|?|count [e|]]; cbn; [by right|done|by right|by left].
  - cbn. destruct (map UCount counts ++ [u']) as [|u0 us'] eqn:Hus; [by destruct counts|]. split; [by exists counts, u'|done].
Qed.

Lemma alter_insert {A} (f : A → A) (l : list A) i x : l !! i = Some x → alter f i l = <[i := f x]> l.
Proof. revert i. induction l as [|y l IH]; intros [|i]; cbn; [done..|by intros [= ->]|]. intros Hi. f_equal. by apply IH. Qed.

Lemma ok_ids_kept (syncs : gmap string nat) (cells : list SyncStatus) i f :
  (∀ s, ss_ID (f s) = ss_ID s) →
  map_Forall (λ id cell, ∃ s, cells !! cell = Some s ∧ ss_ID s = id) syncs →
  map_Forall (λ id cell, ∃ s, alter f i cells !! cell = Some s ∧ ss_ID s = id) syncs.
Proof.
  intros Hf Hs id cell Hc. destruct (Hs id cell Hc) as (s & Hcell & Hid). destruct (decide (i = cell)) as [->|Hne].
  - exists (f s). by rewrite list_lookup_alter_eq, Hcell, Hf.
  - exists s. by rewrite list_lookup_alter_ne.
Qed.

Lemma job_start_ok i cancel w w' : syncs_ok w → job_start i cancel w = Some (Ok w') → syncs_ok w'.
Proof.
  intros [Hid Hj Hc] Hs. unfold job_start in Hs. destruct (mw_jobs w !! i) as [[cell c s m [us|]]|] eqn:Hi; [done| |done].
  destruct (runSync _ c s m cancel) as [us|?|?] eqn:Hr; [|done..]. injection Hs as <-. split; cbn; [done| |].
  - destruct (list.Forall2_lookup_l _ _ _ _ _ Hj Hi) as (st & Hst & Hp). rewrite <- (list_insert_id (mw_cells w) i st) by done.
    apply Forall2_insert; [done|]. apply runSync_well_formed in Hr. cbn in *. destruct us; [destruct Hr as ([|] & ? & ? & _); done|by split].
  - intros k j. destruct (decide (i = k)) as [<-|]; [|rewrite list_lookup_insert_ne by done; apply Hc].
    rewrite list_lookup_insert_eq by (by eapply lookup_lt_Some). intros [= <-]. by apply (Hc i) in Hi.
Qed.

Lemma job_update_ok i w w' : syncs_ok w → job_update i w = Some w' → syncs_ok w'.
Proof.
  intros [Hid Hj Hc] Hs. unfold job_update in Hs. destruct (mw_jobs w !! i) as [[cell c s m [[|u us]|]]|] eqn:Hi; [done| |done..].
  injection Hs as <-. specialize (Hc i _ Hi) as Hcell. cbn in Hcell. subst cell. split; cbn.
  - apply ok_ids_kept; [|done]. by intros st; destruct u as [?|?|? [?|]].
  - destruct (list.Forall2_lookup_l _ _ _ _ _ Hj Hi) as (st & Hst & Hp). rewrite (alter_insert _ _ _ st) by done.
    apply Forall2_insert; [done|]. cbn in Hp. destruct Hp as (Hw & Hrun & Herr). by apply (apply_update_phase u us (mw_now w) st).
  - intros k j. destruct (decide (i = k)) as [<-|]; [|rewrite list_lookup_insert_ne by done; apply Hc].
    rewrite list_lookup_insert_eq by (by eapply lookup_lt_Some). by intros [= <-].
Qed.

Lemma start_sync_ok i w : syncs_ok w → syncs_ok (start_sync i w).
Proof.
  intros [Hid Hj Hc]. assert (Hlen : length (mw_jobs w) = length (mw_cells w)) by (by eapply Forall2_length). split; cbn.
  - apply map_Forall_insert_2.
    + eexists. split; [by apply list_lookup_middle|done].
    + intros id cell Hcell. destruct (Hid id cell Hcell) as (s & Hs & ?). exists s. split; [by apply lookup_app_l_Some|done].
  - apply List.Forall2_app; [done|]. by repeat constructor.
  - intros k j. rewrite lookup_app_Some. intros [Hk|[Hk Hj']]; [by apply Hc|].
    destruct (k - length (mw_jobs w))%nat as [|n] eqn:Hn; [|by destruct n]. cbn in Hj'. injection Hj' as <-. cbn. lia.
Qed.

Lemma sync_step_ok o w w' : syncs_ok w → sync_step o w = Some w' → syncs_ok w'.
Proof.
  intros Hok. destruct o as [params|i cancel|i|r now ext]; cbn.
  - intros [= <-]. unfold handle_trigger_sync. destruct (parameters _ _ _ params) as [inp|?|?]; [|done..].
    destruct (_ || _); [done|]. destruct (wrapped _ _); [|done..]. by apply start_sync_ok.
  - destruct (job_start i cancel w) as [[w1|?|?]|] eqn:Hs; [|done..]. intros [= <-]. by eapply job_start_ok.
  - by apply job_update_ok.
  - intros [= <-]. destruct Hok. by split.
Qed.

Lemma sync_run_ok ops w w' : syncs_ok w → sync_run ops w = Some w' → syncs_ok w'.
Proof.
  revert w. induction ops as [|o ops IH]; intros w Hok; cbn; [by intros [= <-]|].
  destruct (sync_step o w) as [w1|] eqn:Hs; [|done]. apply IH. by eapply sync_step_ok.
Qed.

Lemma sync_world_ok r now ext : syncs_ok (sync_world r now ext).
Proof. by split; cbn. Qed.

(** What [sync_status] reports.  However calls, goroutines and the rest of the world interleave, the status kept under an id has that id, and
    says running without an error while its goroutine has work left, and completed without an error or failed once it has none. *)
Theorem status_tells_truth ops r now ext w syncID s :
  sync_run ops (sync_world r now ext) = Some w → lookup_sync syncID w = Some s →
  ss_ID s = syncID ∧
  ∃ job, mw_jobs w !! jb_cell job = Some job ∧ mw_cells w !! jb_cell job = Some s ∧
    match jb_updates job with Some [] => ended s | _ => ss_Status s = "running" ∧ ss_Error s = "" end.
Proof.
  intros Hrun Hs. destruct (sync_run_ok _ _ _ (sync_world_ok r now ext) Hrun) as [Hid Hj Hc].
  unfold lookup_sync in Hs. destruct (mw_syncs w !! syncID) as [cell|] eqn:Hcell; [|done]. cbn in Hs.
  destruct (Hid _ _ Hcell) as (s' & Hs' & Hn). assert (s' = s) as -> by congruence. split; [done|].
  destruct (list.Forall2_lookup_r _ _ _ _ _ Hj Hs) as (job & Hjob & Hp). exists job. rewrite (Hc _ _ Hjob). split_and!; [done..|].
  unfold job_phase in Hp. destruct (jb_updates job) as [[|u us]|]; [done|by destruct Hp|done].
Qed.

(** A sync that has ended stays as it ended.  Whatever happens afterwards, a status that is not running any more is not changed. *)
Theorem ended_is_final before ops r now ext w w' cell s :
  sync_run before (sync_world r now ext) = Some w → sync_run ops w = Some w' →
  mw_cells w !! cell = Some s → ss_Status s ≠ "running" → mw_cells w' !! cell = Some s.
Proof.
  intros Hbefore. assert (Hok : syncs_ok w) by exact (sync_run_ok _ _ _ (sync_world_ok r now ext) Hbefore). clear Hbefore before.
  intros Hrun Hs Hne. revert w Hok Hrun Hs. induction ops as [|o ops IH]; intros w Hok Hrun Hs; cbn in Hrun; [by injection Hrun as <-|].
  destruct (sync_step o w) as [w1|] eqn:Hstep; [|done]. specialize (sync_step_ok _ _ _ Hok Hstep) as Hok1. apply (IH w1 Hok1 Hrun).
  destruct Hok as [_ Hj Hc]. destruct o as [params|i cancel|i|r' now' ext']; cbn in Hstep.
  - injection Hstep as <-. unfold handle_trigger_sync. destruct (parameters _ _ _ params) as [inp|?|?]; [|done..].
    destruct (_ || _); [done|]. destruct (wrapped _ _); [|done..]. cbn. by apply lookup_app_l_Some.
  - unfold job_start in Hstep. destruct (mw_jobs w !! i) as [[? ? ? ? [?|]]|]; [done| |done].
    destruct (runSync _ _ _ _ _); [|done..]. by injection Hstep as <-.
  - unfold job_update in Hstep. destruct (mw_jobs w !! i) as [[cell' ? ? ? [[|u us]|]]|] eqn:Hi; [done| |done..]. injection Hstep as <-. cbn.
    specialize (Hc i _ Hi). cbn in Hc. subst cell'. rewrite list_lookup_alter_ne; [done|]. intros ->.
    destruct (list.Forall2_lookup_l _ _ _ _ _ Hj Hi) as (s' & Hs' & Hp). cbn in Hp. naive_solver.
  - by injection Hstep as <-.
Qed.

(** The updates in turn, each at its time. *)
Definition apply_updates (us : list (sync_update * Z)) (s : SyncStatus) : SyncStatus := foldl (λ s u, apply_update u.1 u.2 s) s us.

Lemma message_records_cons m msgs :
  message_records (m :: msgs) = match msg_Record m with Some r => r :: message_records msgs | None => message_records msgs end.
Proof. unfold message_records. cbn. by destruct (msg_Record m). Qed.

Lemma count_updates_total msgs count :
  0 ≤ count → count + Z.of_nat (length (message_records msgs)) ≤ int64_max →
  (count_updates msgs count).2 = count + Z.of_nat (length (message_records msgs)).
Proof.
  revert count. induction msgs as [|m msgs IH]; intros count H0 Hmax; [cbn; lia|]. rewrite message_records_cons in *. cbn [count_updates].
  destruct (msg_Record m) as [rec|]; [|by apply IH].
  cbn [length] in *. assert (Hc : count +ᵢ 1 = count + 1) by (apply i64_id; unfold in_i64, int64_min; lia).
  rewrite Hc. specialize (IH (count + 1)). destruct (count_updates msgs (count + 1)). cbn [snd] in *. rewrite IH; lia.
Qed.

Lemma apply_counts counts times s :
  length times = length counts →
  let s' := apply_updates (zip (map UCount counts) times) s in
  ss_Status s' = ss_Status s ∧ ss_Error s' = ss_Error s ∧ ss_ID s' = ss_ID s.
Proof.
  revert times s. induction counts as [|c counts IH]; intros [|t times] s; cbn; try done. intros [= Hl]. by apply (IH times (apply_update (UCount c) t s)).
Qed.

(** The outcome of a sync.  When the source finds the stream, the sync ends as completed exactly when the read succeeds, with the number of
    records the source sent; otherwise it ends as failed with the error. *)
Theorem sync_outcome (r : connectorRegistry W) connector stream mode cancel src catalog st msgs err us times s :
  GetSource r connector = Ok src → src_Discover src empty_config = Ok catalog → find_stream stream (cat_Streams catalog) = Some st →
  src_Read src empty_config (configured st mode) ∅ cancel = (msgs, err) → Z.of_nat (length (message_records msgs)) ≤ int64_max →
  runSync r connector stream mode cancel = Ok us → length times = length us →
  ss_Status s = "running" → ss_Error s = "" →
  let s' := apply_updates (zip us times) s in
  ss_Status s' = (match err with None => "completed" | Some _ => "failed" end) ∧
  ss_Error s' = (match err with None => "" | Some e => Error e end) ∧
  ss_RecordCount s' = Z.of_nat (length (message_records msgs)).
Proof.
  intros Hs Hd Hf Hr Hmax. unfold runSync. rewrite Hs, Hd, Hf, Hr. assert (Hn : (count_updates msgs 0).2 = Z.of_nat (length (message_records msgs))) by (by apply count_updates_total).
  destruct (count_updates_counts msgs 0) as [counts Hc]. destruct (count_updates msgs 0) as [us0 count]. cbn in Hn, Hc. subst us0 count.
  intros [= <-] Hlen Hrun Herr. rewrite length_app, length_map in Hlen. cbn in Hlen.
  destruct times as [|t times _] using rev_ind; [cbn in Hlen; lia|]. rewrite length_app in Hlen. cbn in Hlen.
  assert (Hl : length times = length counts) by lia. cbv zeta. rewrite zip_with_app by (by rewrite length_map). unfold apply_updates. rewrite foldl_app. cbn.
  destruct (apply_counts counts times s Hl) as (H1 & H2 & _). unfold apply_updates in *. destruct err as [e|]; cbn; [done|]. by rewrite H2.
Qed.
End syncs.

(** ** Suggested mappings *)

Section suggest.
Context (tolower : Z → Z).

(** Why a pair may be suggested. *)
Definition justified (m : Suggestion) (sf df : schemaField) : Prop :=
  (sf_Name sf = sf_Name df ∧ m = exact_match sf df) ∨
  (normalizeFieldName tolower (sf_Name sf) = normalizeFieldName tolower (sf_Name df) ∧ m = normalized_match sf df) ∨
  (sf_Type sf = sf_Type df ∧ sf_Type sf ≠ "" ∧ m = type_match sf df).

Lemma first_free_spec test used dests df :
  first_free test used dests = Some df → df ∈ dests ∧ sf_Name df ∉ used ∧ test df = true.
Proof.
  induction dests as [|d dests IH]; cbn; [done|]. case_bool_decide.
  - intros Hf. destruct (IH Hf) as (? & ? & ?). split_and!; [by right|done..].
  - destruct (test d) eqn:Ht; [intros [= <-]; split_and!; [by left|done..]|]. intros Hf. destruct (IH Hf) as (? & ? & ?). split_and!; [by right|done..].
Qed.

Lemma first_free_none test used dests df :
  first_free test used dests = None → df ∈ dests → sf_Name df ∉ used → test df = false.
Proof.
  induction dests as [|d dests IH]; cbn; [by intros _ ?%not_elem_of_nil|]. intros Hf Hin Hu. apply elem_of_cons in Hin as [->|Hin].
  - rewrite bool_decide_eq_false_2 in Hf by done. by destruct (test d).
  - apply IH; [|done..]. case_bool_decide; [done|]. by destruct (test d).
Qed.

Lemma suggested_iff mappings sf : suggested mappings sf = true ↔ sf_Name sf ∈ map sg_Source mappings.
Proof.
  unfold suggested. rewrite existsb_exists, list_elem_of_In, in_map_iff. split.
  - intros (m & Hm & Hs). apply bool_decide_eq_true in Hs. by exists m.
  - intros (m & Hs & Hm). exists m. split; [done|]. by apply bool_decide_eq_true.
Qed.

Section pass.
Context (skip : bool) (test : schemaField → schemaField → bool) (make : schemaField → schemaField → Suggestion) (src dst : list schemaField).
Context (J : Suggestion → schemaField → schemaField → Prop).
Hypothesis make_names : ∀ sf df, sg_Source (make sf df) = sf_Name sf ∧ sg_Dest (make sf df) = sf_Name df.
Hypothesis make_justified : ∀ sf df, test sf df = true → J (make sf df) sf df.

Definition good (all : list schemaField) (acc : list Suggestion * gset string) : Prop :=
  NoDup (map sg_Source acc.1) ∧ NoDup (map sg_Dest acc.1) ∧ acc.2 = list_to_set (map sg_Dest acc.1) ∧
  Forall (λ m, ∃ sf df, sf ∈ all ∧ df ∈ dst ∧ J m sf df) acc.1.

(** A pass adds suggestions, each source at most once; a free pair that passes the test does not remain. *)
Lemma match_pass_spec all acc :
  good all acc → NoDup (map sf_Name src) → (∀ sf, sf ∈ src → sf ∈ all) →
  (skip = true ∨ ∀ sf, sf ∈ src → sf_Name sf ∉ map sg_Source acc.1) →
  let acc' := match_pass skip test make src dst acc in
  good all acc' ∧ (∃ more, acc'.1 = acc.1 ++ more ∧ ∀ m, m ∈ more → sg_Source m ∈ map sf_Name src) ∧
  (∀ sf df, sf ∈ src → df ∈ dst → sf_Name sf ∉ map sg_Source acc'.1 → sf_Name df ∉ acc'.2 → test sf df = false).
Proof using make_names make_justified.
  revert acc. induction src as [|sf rest IH]; intros acc Hg Hnd Hin Hskip; cbn.
  { split_and!; [done|exists []; rewrite app_nil_r; by split; [|intros ? ?%not_elem_of_nil]|by intros ?? ?%not_elem_of_nil]. }
  cbn in Hnd. apply list.NoDup_cons in Hnd as [Hsf Hnd].
  assert (Hrest : ∀ sf', sf' ∈ rest → sf' ∈ all) by (intros; apply Hin; by right).
  set (acc1 := if skip && suggested acc.1 sf then acc else match first_free (test sf) acc.2 dst with Some df => (acc.1 ++ [make sf df], {[sf_Name df]} ∪ acc.2) | None => acc end).
  assert (Hstep : good all acc1 ∧ (∃ more, acc1.1 = acc.1 ++ more ∧ ∀ m, m ∈ more → sg_Source m = sf_Name sf) ∧ acc.2 ⊆ acc1.2 ∧
            (sf_Name sf ∈ map sg_Source acc1.1 ∨ first_free (test sf) acc.2 dst = None)).
  { subst acc1. destruct (skip && suggested acc.1 sf) eqn:Hs.
    { apply andb_true_iff in Hs as [_ Hs%suggested_iff]. split_and!; [done|exists []; rewrite app_nil_r; by split; [|intros ? ?%not_elem_of_nil]|done|by left]. }
    destruct (first_free (test sf) acc.2 dst) as [df|] eqn:Hf;
      [|split_and!; [done|exists []; rewrite app_nil_r; by split; [|intros ? ?%not_elem_of_nil]|done|by right]].
    apply first_free_spec in Hf as (Hdf & Hfree & Ht). destruct (make_names sf df) as [Hms Hmd], Hg as (Hg1 & Hg2 & Hg3 & Hg4).
    assert (Hnew : sf_Name sf ∉ map sg_Source acc.1).
    { destruct Hskip as [->|Hskip]; [|apply Hskip; by left]. cbn in Hs. intros ?%suggested_iff. congruence. }
    split_and!.
    - unfold good. cbn. rewrite !map_app. cbn. rewrite Hms, Hmd. split_and!.
      + apply list.NoDup_app. split_and!; [done| |apply list.NoDup_singleton]. intros x Hx ->%list_elem_of_singleton. done.
      + apply list.NoDup_app. split_and!; [done| |apply list.NoDup_singleton]. intros x Hx ->%list_elem_of_singleton. apply Hfree. rewrite Hg3. by apply elem_of_list_to_set.
      + rewrite list_to_set_app_L, Hg3. cbn. set_solver.
      + apply list.Forall_app. split; [done|]. constructor; [|done]. exists sf, df. split_and!; [apply Hin; by left|done|by apply make_justified].
    - exists [make sf df]. split; [done|]. by intros m ->%list_elem_of_singleton.
    - cbn. set_solver.
    - left. cbn. rewrite map_app, list.elem_of_app. right. cbn. rewrite Hms. by left. }
  destruct Hstep as (Hg1 & (more & Hm & Hms) & Hsub & Hdone).
  destruct (IH acc1 Hg1 Hnd Hrest) as (Hg' & (more' & Hm' & Hms') & Hleft).
  { destruct Hskip as [->|Hskip]; [by left|right]. intros sf' Hsf'. rewrite Hm, map_app, not_elem_of_app. split; [apply Hskip; by right|].
    intros Hx. apply list_elem_of_fmap in Hx as (m & Heq & Hm0). apply Hsf. rewrite <- (Hms m Hm0), <- Heq. apply list_elem_of_fmap. by exists sf'. }
  split_and!; [exact Hg'|..].
  - exists (more ++ more'). change (match_pass _ _ _ rest dst acc1) with (match_pass skip test make rest dst acc1) in Hm'.
    change (foldl _ acc1 rest) with (match_pass skip test make rest dst acc1). rewrite Hm', Hm, <- app_assoc. split; [done|].
    intros m [Hx|Hx]%list.elem_of_app; [rewrite (Hms m Hx); by left|]. right. by apply Hms'.
  - intros sf' df Hsf' Hdf Hns Hnu. apply elem_of_cons in Hsf' as [->|Hsf']; [|by apply Hleft].
    destruct Hdone as [Hd|Hd].
    + exfalso. apply Hns. change (foldl _ acc1 rest) with (match_pass skip test make rest dst acc1). rewrite Hm', map_app. apply list.elem_of_app. by left.
    + eapply first_free_none; [exact Hd|done|]. intros Hx. apply Hnu. apply Hsub in Hx.
      change (foldl _ acc1 rest) with (match_pass skip test make rest dst acc1). destruct Hg' as (_ & _ & -> & _). rewrite Hm', map_app, list_to_set_app_L.
      destruct Hg1 as (_ & _ & Hset & _). rewrite Hset in Hx. set_solver.
Qed.
End pass.

Lemma exact_names sf df : sg_Source (exact_match sf df) = sf_Name sf ∧ sg_Dest (exact_match sf df) = sf_Name df.
Proof. unfold exact_match. by case_bool_decide. Qed.
Lemma normalized_names sf df : sg_Source (normalized_match sf df) = sf_Name sf ∧ sg_Dest (normalized_match sf df) = sf_Name df.
Proof. unfold normalized_match. by case_bool_decide. Qed.

Lemma name_inj (l : list schemaField) x y : NoDup (map sf_Name l) → x ∈ l → y ∈ l → sf_Name x = sf_Name y → x = y.
Proof.
  induction l as [|z l IH]; [by intros _ ?%not_elem_of_nil|]. cbn. intros [Hz Hnd]%list.NoDup_cons [->|Hx]%elem_of_cons [->|Hy]%elem_of_cons Heq; try done.
  - destruct Hz. rewrite Heq. apply list_elem_of_fmap. by exists y.
  - destruct Hz. rewrite <- Heq. apply list_elem_of_fmap. by exists x.
  - by apply IH.
Qed.

Lemma suggestions_of_fields src dst :
  NoDup (map sf_Name src) → NoDup (map sf_Name dst) →
  let ms := suggestions tolower src dst in
  NoDup (map sg_Source ms) ∧ NoDup (map sg_Dest ms) ∧
  Forall (λ m, ∃ sf df, sf ∈ src ∧ df ∈ dst ∧ justified m sf df) ms ∧
  (∀ sf df, sf ∈ src → df ∈ dst → sf_Name sf = sf_Name df → exact_match sf df ∈ ms) ∧
  (∀ sf df, sf ∈ src → df ∈ dst → sf_Name sf ∉ map sg_Source ms → sf_Name df ∉ map sg_Dest ms →
     sf_Name sf ≠ sf_Name df ∧ normalizeFieldName tolower (sf_Name sf) ≠ normalizeFieldName tolower (sf_Name df) ∧ (sf_Type sf = sf_Type df → sf_Type sf = "")).
Proof.
  intros Hs Hd. unfold suggestions.
  set (t1 := λ sf df, bool_decide (sf_Name sf = sf_Name df)).
  set (t2 := λ sf df, bool_decide (normalizeFieldName tolower (sf_Name sf) = normalizeFieldName tolower (sf_Name df))).
  set (t3 := λ sf df, bool_decide (sf_Type sf = sf_Type df) && negb (bool_decide (sf_Type sf = ""))).
  set (J1 := λ m sf df, sf_Name sf = sf_Name df ∧ m = exact_match sf df).
  destruct (match_pass_spec false t1 exact_match src dst J1 exact_names) with (all := src) (acc := ([] : list Suggestion, ∅ : gset string))
    as (Hg1 & (m1 & Hm1 & Hs1) & Hl1); [by intros ?? ?%bool_decide_eq_true|..|done|done|by right; intros ? _ ?%not_elem_of_nil|].
  { split_and!; [apply base.NoDup_nil_2|apply base.NoDup_nil_2|done|constructor]. }
  set (a1 := match_pass false t1 exact_match src dst ([], ∅)) in *. cbn [fst app] in Hm1. destruct Hg1 as (Hg1a & Hg1b & Hg1c & Hg1d).
  destruct (match_pass_spec true t2 normalized_match src dst justified normalized_names) with (all := src) (acc := a1)
    as (Hg2 & (m2 & Hm2 & Hs2) & Hl2); [intros ?? ?%bool_decide_eq_true; by right; left|..|done|done|by left|].
  { split_and!; [done..|]. eapply list.Forall_impl; [exact Hg1d|]. intros m (sf & df & ? & ? & ?). exists sf, df. split_and!; [done..|by left]. }
  set (a2 := match_pass true t2 normalized_match src dst a1) in *. destruct Hg2 as (Hg2a & Hg2b & Hg2c & Hg2d).
  destruct (match_pass_spec true t3 type_match src dst justified) with (all := src) (acc := a2)
    as ((Hg3a & Hg3b & Hg3c & Hg3d) & (m3 & Hm3 & Hs3) & Hl3); [done| |done|done|done|by left|].
  { intros sf df Ht. unfold t3 in Ht. right. right. apply andb_true_iff in Ht as [H1%bool_decide_eq_true H2]. split_and!; [done| |done].
    intros H3. by rewrite bool_decide_eq_true_2 in H2. }
  set (a3 := match_pass true t3 type_match src dst a2) in *. cbv zeta. split_and!; [done..| |].
  - intros sf df Hsf Hdf Hn. rewrite Hm3, Hm2. apply list.elem_of_app. left. apply list.elem_of_app. left.
    assert (Hex : ∃ m, m ∈ a1.1 ∧ (sg_Source m = sf_Name sf ∨ sg_Dest m = sf_Name df)).
    { destruct (decide (sf_Name sf ∈ map sg_Source a1.1)) as [Hin|Hnin]; [apply list_elem_of_fmap in Hin as (m & ? & ?); exists m; by auto|].
      destruct (decide (sf_Name df ∈ a1.2)) as [Hin|Hnin'].
      - rewrite Hg1c, elem_of_list_to_set in Hin. apply list_elem_of_fmap in Hin as (m & ? & ?). exists m; by auto.
      - specialize (Hl1 sf df Hsf Hdf Hnin Hnin'). unfold t1 in Hl1. by rewrite bool_decide_eq_true_2 in Hl1. }
    destruct Hex as (m & Hm & Hor). destruct (proj1 (list.Forall_forall _ _) Hg1d m Hm) as (sf' & df' & Hsf' & Hdf' & Hn' & ->).
    destruct (exact_names sf' df') as [Hes Hed]. rewrite Hes, Hed in Hor.
    assert (sf' = sf) as -> by (apply (name_inj src); [done..|destruct Hor; congruence]).
    assert (df' = df) as -> by (apply (name_inj dst); [done..|destruct Hor; congruence]). exact Hm.
  - intros sf df Hsf Hdf Hns Hnd.
    assert (Hin2 : ∀ (f : Suggestion → string) x, x ∉ map f a3.1 → x ∉ map f a2.1) by (intros f x; rewrite Hm3, map_app, not_elem_of_app; by intros [? _]).
    assert (Hin1 : ∀ (f : Suggestion → string) x, x ∉ map f a2.1 → x ∉ map f a1.1) by (intros f x; rewrite Hm2, map_app, not_elem_of_app; by intros [? _]).
    assert (H1 := Hl1 sf df Hsf Hdf (Hin1 _ _ (Hin2 _ _ Hns)) ltac:(rewrite Hg1c, elem_of_list_to_set; auto)).
    assert (H2 := Hl2 sf df Hsf Hdf (Hin2 _ _ Hns) ltac:(rewrite Hg2c, elem_of_list_to_set; auto)).
    assert (H3 := Hl3 sf df Hsf Hdf Hns ltac:(rewrite Hg3c, elem_of_list_to_set; auto)).
    unfold t1, t2, t3 in *. apply bool_decide_eq_false in H1, H2. split_and!; [done..|]. intros Ht. rewrite bool_decide_eq_true_2 in H3 by done.
    cbn in H3. apply negb_false_iff, bool_decide_eq_true in H3. done.
Qed.

Lemma extractFields_nodup type_error schema : NoDup (map sf_Name (extractFields type_error schema)).
Proof.
  unfold extractFields. destruct (unmarshal_struct _ _ _ _) as [props|?|?]; [|apply base.NoDup_nil_2..].
  rewrite map_map. apply sorted_entries_nodup.
Qed.

(** Suggested mappings are a matching.  Of any two schemas, no source and no destination field is suggested twice; every suggestion is of
    two of the fields and says truly why; two fields of the same name are suggested together; and what is left has no pair of the
    same name, normalized name or, when it is known, type. *)
Theorem suggestions_matching type_error source_schema dest_schema :
  let src := extractFields type_error source_schema in
  let dst := extractFields type_error dest_schema in
  let ms := suggestions tolower src dst in
  NoDup (map sg_Source ms) ∧ NoDup (map sg_Dest ms) ∧
  Forall (λ m, ∃ sf df, sf ∈ src ∧ df ∈ dst ∧ justified m sf df) ms ∧
  (∀ sf df, sf ∈ src → df ∈ dst → sf_Name sf = sf_Name df → exact_match sf df ∈ ms) ∧
  (∀ sf df, sf ∈ src → df ∈ dst → sf_Name sf ∉ map sg_Source ms → sf_Name df ∉ map sg_Dest ms →
     sf_Name sf ≠ sf_Name df ∧ normalizeFieldName tolower (sf_Name sf) ≠ normalizeFieldName tolower (sf_Name df) ∧ (sf_Type sf = sf_Type df → sf_Type sf = "")).
Proof. intros src dst. apply suggestions_of_fields; apply extractFields_nodup. Qed.
End suggest.

(** ** Concrete runs *)

Definition no_type_error (field : string) (j : json) : error := ErrText field.
Definition users : Stream := mkStream "users" "" "Users" RawEmpty [SyncModeIncremental] [] true [["id"]].
Definition users_source : Source :=
  mkSource (Err (ErrText "no specification")) (λ _, Ok (mkCheckResult CheckStatusSucceeded "")) (λ _, Ok (mkCatalog [users]))
    (λ _ _ _ _, ([record_message (mkRec "users" "" (RawDoc JNull) 5); record_message (mkRec "users" "eu" RawEmpty 7)], None)).
Definition counting_dest : Destination Z :=
  mkDestination (Err (ErrText "no specification")) (λ _, Ok (mkCheckResult CheckStatusSucceeded ""))
    (λ _ _ msgs n, (Ok (mkWriteResult (Z.of_nat (length msgs)) [] []), n + Z.of_nat (length msgs))) [].
Definition meta_of (name : string) : ConnectorMeta := mkConnectorMeta name name "1" "" "crm" "".
Definition sample_registrations : list (registration (W := Z)) :=
  [RegS "crm" (meta_of "crm") users_source; RegD "lake" (meta_of "lake") counting_dest].
Definition sample_registry : connectorRegistry Z := foldl register registry_init sample_registrations.
Definition sample_world : mcp_world Z := sync_world sample_registry 100 0.

Lemma generated_tools_served_witness :
  Forall (λ t, ∃ o, td_Name t = td_Connector t +:+ op_suffix o ∧ td_Category t = "connector" ∧ op_served o sample_registry (td_Connector t))
    (GenerateAllConnectorTools (W := Z) no_type_error (λ _, "") pretty parse_int (ListConnectors sample_registry)).
Proof.
  apply (generated_tools_served no_type_error (λ _, "") pretty parse_int sample_registrations (ListConnectors sample_registry)); [|reflexivity].
  constructor; [reflexivity|constructor; [reflexivity|constructor]].
Defined.

Definition users_records : list Rec := [mkRec "users" "" (RawDoc JNull) 5; mkRec "users" "eu" RawEmpty 7].
Definition users_json : list json :=
  [JObj [("stream", JStr "users"); ("data", JNull); ("emitted_at", JStr "5")];
   JObj [("stream", JStr "users"); ("namespace", JStr "eu"); ("data", JNull); ("emitted_at", JStr "7")]].

Lemma records_relayed_witness :
  mw_ext (handle_write no_type_error (λ _, "") parse_int "lake" (write_params JNull (slice_json users_json)) sample_world).2 = 2.
Proof.
  rewrite (proj2 (records_relayed no_type_error (λ _, "") pretty parse_int sample_world "crm" "lake" (RawDoc (JObj [])) zero_input users_source
    (map record_message users_records) counting_dest JNull users_json
    eq_refl eq_refl eq_refl ltac:(constructor; [reflexivity|constructor; [reflexivity|constructor]]) ltac:(vm_compute; reflexivity) eq_refl)).
  reflexivity.
Defined.

Definition trigger_params : RawMessage := RawDoc (JObj [("connector", JStr "crm"); ("stream", JStr "users")]).
Definition users_run : list (sync_op (W := Z)) := [OTrigger trigger_params; OStart 0 None; OUpdate 0].
Definition users_status : SyncStatus := mkSyncStatus "sync_crm_users_100" "crm" "users" "completed" 2 100 100 "".

Example users_completed :
  (λ w, lookup_sync "sync_crm_users_100" w) <$> sync_run no_type_error (λ _, "") pretty users_run sample_world = Some (Some users_status).
Proof. vm_compute. reflexivity. Qed.

(** The context of the tool's call ends with the call, so a source that looks at it stops at once and the sync fails. *)
Definition careful_source : Source :=
  mkSource (Err (ErrText "no specification")) (λ _, Ok (mkCheckResult CheckStatusSucceeded "")) (λ _, Ok (mkCatalog [users]))
    (λ _ _ _ cancel, match cancel with Some _ => ([], Some (ErrText "context canceled")) | None => (map record_message users_records, None) end).
Example cancelled_with_its_call :
  (λ w, ss_Status <$> lookup_sync "sync_crm_users_100" w) <$>
    sync_run no_type_error (λ _, "") pretty [OTrigger trigger_params; OStart 0 (Some 0%nat); OUpdate 0]
      (sync_world (foldl register registry_init [RegS "crm" (meta_of "crm") careful_source]) 100 0) = Some (Some "failed").
Proof. vm_compute. reflexivity. Qed.

(** Two syncs triggered in the same nanosecond have the same id: the first one can no longer be asked for. *)
Example same_instant_same_id :
  (λ w, (length (mw_cells w), size (mw_syncs w))) <$>
    sync_run no_type_error (λ _, "") pretty [OTrigger trigger_params; OTrigger trigger_params] sample_world = Some (2%nat, 1%nat).
Proof. vm_compute. reflexivity. Qed.

Lemma status_tells_truth_witness :
  ∃ w s, lookup_sync (W := Z) "sync_crm_users_100" w = Some s ∧ ss_ID s = "sync_crm_users_100".
Proof.
  destruct (sync_run no_type_error (λ _, "") pretty users_run sample_world) as [w|] eqn:Hrun; [|vm_compute in Hrun; discriminate].
  assert (Hl : lookup_sync "sync_crm_users_100" w = Some users_status) by (vm_compute in Hrun; injection Hrun as <-; reflexivity).
  exists w, users_status. split; [exact Hl|].
  exact (proj1 (status_tells_truth no_type_error (λ _, "") pretty users_run sample_registry 100 0 w _ _ Hrun Hl)).
Defined.

Lemma ended_is_final_witness :
  ∃ w', sync_run no_type_error (λ _, "") pretty (users_run ++ [OTrigger trigger_params]) sample_world = Some w' ∧ mw_cells w' !! 0%nat = Some users_status.
Proof.
  destruct (sync_run no_type_error (λ _, "") pretty users_run sample_world) as [w|] eqn:Hrun; [|vm_compute in Hrun; discriminate].
  destruct (sync_run no_type_error (λ _, "") pretty [OTrigger trigger_params] w) as [w'|] eqn:Hmore; [|discriminate].
  exists w'. split; [|].
  - vm_compute in Hrun. injection Hrun as <-. exact Hmore.
  - assert (Hc : mw_cells w !! 0%nat = Some users_status) by (vm_compute in Hrun; injection Hrun as <-; reflexivity).
    exact (ended_is_final no_type_error (λ _, "") pretty users_run [OTrigger trigger_params] sample_registry 100 0 w w' 0 users_status Hrun Hmore Hc ltac:(discriminate)).
Defined.

Lemma sync_outcome_witness :
  ss_RecordCount (apply_updates [(UDone 2 None, 9)] (mkSyncStatus "id" "crm" "users" "running" 0 1 1 "")) = 2.
Proof.
  apply (sync_outcome (W := Z) sample_registry "crm" "users" "full_refresh" None users_source (mkCatalog [users]) users (map record_message users_records) None
    [UDone 2 None] [9] (mkSyncStatus "id" "crm" "users" "running" 0 1 1 "")); reflexivity || (vm_compute; discriminate).
Defined.

(** Splitting camel case has no effect: the underscores are taken out again. *)
Example camel_case : normalizeFieldName lower_rune "firstName" = "firstname" ∧ normalizeFieldName lower_rune "First_name" = "firstname".
Proof. split; vm_compute; reflexivity. Qed.
