(* ===== verification/ApiKeys.v ===== *)
(** * API keys: [internal/security/auth/auth.go]

    The service generates, validates and revokes API keys over an [APIKeyStore].  The store is an interface:
    the theorems about the service are proved against the class [APIKeyStoreLaws], which the in-memory store of
    the program meets.  SHA-256 is the function [sha256]; random bytes and times are arguments.  A request
    context is only handed on to the store and does not appear. *)

From Stdlib Require Import Ascii.
From S2P Require Import Prelude GoStrings Errors Rbac Encoding.

(** ** Scopes of a principal *)

Definition HasScope (p : Principal) (scope : string) : bool :=
  existsb (λ s, bool_decide (s = "*") || bool_decide (s = scope)) (pr_Scopes p).
Definition HasAnyScope (p : Principal) (scopes : list string) : bool := existsb (HasScope p) scopes.

(** ** Records *)

Record APIKeyRecord := mkAPIKeyRecord {
  rec_ID : string; rec_TenantID : string; rec_Name : string; KeyHash : string; KeyPrefix : string;
  rec_Scopes : list string; rec_ExpiresAt : option Z; CreatedAt : Z; RevokedAt : option Z
}.

#[export] Instance APIKeyRecord_eq_dec : EqDecision APIKeyRecord.
Proof. solve_decision. Defined.

Definition IsExpired (r : APIKeyRecord) (now : Z) : bool :=
  match rec_ExpiresAt r with None => false | Some t => t <? now end.
Definition IsRevoked (r : APIKeyRecord) : bool := match RevokedAt r with None => false | Some _ => true end.

(** [record.RevokedAt = &now]. *)
Definition revoked_at (now : Z) (r : APIKeyRecord) : APIKeyRecord :=
  mkAPIKeyRecord (rec_ID r) (rec_TenantID r) (rec_Name r) (KeyHash r) (KeyPrefix r) (rec_Scopes r) (rec_ExpiresAt r)
    (CreatedAt r) (Some now).

(** ** The store *)

Class APIKeyStore (St : Type) := {
  SaveAPIKey : APIKeyRecord → St → option error * St;
  GetAPIKeyByHash : string → St → res APIKeyRecord;
  GetAPIKeyByID : string → St → res APIKeyRecord;
  store_RevokeAPIKey : string → Z → St → option error * St;
  ListAPIKeys : string → St → res (list APIKeyRecord)
}.

(** What the service relies on.  [stored] gives the records by their identifiers, in the states that are [sound]. *)
Class APIKeyStoreLaws (St : Type) `{APIKeyStore St} := {
  sound : St → Prop;
  stored : St → gmap string APIKeyRecord;
  save_law st r : sound st →
    let '(err, st') := SaveAPIKey r st in
    sound st' ∧ stored st' = match err with None => <[rec_ID r := r]> (stored st) | Some _ => stored st end;
  id_law st id r : sound st → stored st !! id = Some r → rec_ID r = id;
  by_hash_law st h r : sound st → GetAPIKeyByHash h st = Ok r → stored st !! rec_ID r = Some r;
  revoke_law st id now : sound st →
    let '(err, st') := store_RevokeAPIKey id now st in
    sound st' ∧
    match err with
    | None => is_Some (stored st !! id) ∧ stored st' = alter (revoked_at now) id (stored st)
    | Some _ => stored st' = stored st
    end
}.

(** The in-memory store.  The maps hold pointers to the records, and the revocation writes through them. *)
Record InMemoryAPIKeyStore := mkInMemoryAPIKeyStore { keys : gmap string APIKeyRecord; byHash : gmap string string }.

Definition NewInMemoryAPIKeyStore : InMemoryAPIKeyStore := mkInMemoryAPIKeyStore ∅ ∅.

Definition mem_SaveAPIKey (record : APIKeyRecord) (s : InMemoryAPIKeyStore) : option error * InMemoryAPIKeyStore :=
  (None, mkInMemoryAPIKeyStore (<[rec_ID record := record]> (keys s)) (<[KeyHash record := rec_ID record]> (byHash s))).

Definition mem_GetAPIKeyByHash (keyHash : string) (s : InMemoryAPIKeyStore) : res APIKeyRecord :=
  match byHash s !! keyHash with
  | None => Err (ErrSentinel ErrNotFound)
  | Some id => match keys s !! id with None => Err (ErrSentinel ErrNotFound) | Some record => Ok record end
  end.

Definition mem_GetAPIKeyByID (keyID : string) (s : InMemoryAPIKeyStore) : res APIKeyRecord :=
  match keys s !! keyID with None => Err (ErrSentinel ErrNotFound) | Some record => Ok record end.

Definition mem_RevokeAPIKey (keyID : string) (now : Z) (s : InMemoryAPIKeyStore) : option error * InMemoryAPIKeyStore :=
  match keys s !! keyID with
  | None => (Some (ErrSentinel ErrNotFound), s)
  | Some record => (None, mkInMemoryAPIKeyStore (<[keyID := revoked_at now record]> (keys s)) (byHash s))
  end.

(** The order is that of [map_to_list]; Go leaves it open. *)
Definition mem_ListAPIKeys (tenantID : string) (s : InMemoryAPIKeyStore) : res (list APIKeyRecord) :=
  Ok (filter (λ record, rec_TenantID record = tenantID) (map_to_list (keys s)).*2).

#[export] Instance InMemoryAPIKeyStore_ops : APIKeyStore InMemoryAPIKeyStore := {
  SaveAPIKey := mem_SaveAPIKey;
  GetAPIKeyByHash := mem_GetAPIKeyByHash;
  GetAPIKeyByID := mem_GetAPIKeyByID;
  store_RevokeAPIKey := mem_RevokeAPIKey;
  ListAPIKeys := mem_ListAPIKeys
}.

(** Records are kept under their own identifiers. *)
Definition mem_sound (s : InMemoryAPIKeyStore) : Prop := map_Forall (λ id r, rec_ID r = id) (keys s).

#[export] Program Instance InMemoryAPIKeyStore_laws : APIKeyStoreLaws InMemoryAPIKeyStore := {
  sound := mem_sound;
  stored := keys
}.
Next Obligation. intros s r Hs. cbn. split; [|done]. by apply map_Forall_insert_2. Qed.
Next Obligation. intros s id r Hs Hr. by apply (Hs _ _ Hr). Qed.
Next Obligation.
  intros s h r Hs. cbn. unfold mem_GetAPIKeyByHash. destruct (byHash s !! h) as [id|]; [|done].
  destruct (keys s !! id) as [r'|] eqn:Hid; [|done]. intros [= ->]. by rewrite (Hs _ _ Hid).
Qed.
Next Obligation.
  intros s id now Hs. cbn. unfold mem_RevokeAPIKey. destruct (keys s !! id) as [r|] eqn:Hid; [|done]. cbn. split.
  - apply map_Forall_insert_2; [by apply (Hs _ _ Hid)|done].
  - split; [eauto|]. apply map_eq. intros id'. destruct (decide (id' = id)) as [->|Hne].
    + by rewrite lookup_insert_eq, lookup_alter_eq, Hid.
    + by rewrite lookup_insert_ne, lookup_alter_ne.
Qed.

(** ** The service *)

Definition apiKeyPrefix : string := "ffk_".
Definition apiKeyBytes : nat := 32.

Definition unauthorized (prefix : string) : error := ErrWrapf prefix (ErrSentinel ErrUnauthorized).

Section service.
Context (sha256 : string → list ascii).

Definition hashAPIKey (key : string) : string := EncodeToString (sha256 key).

Context `{APIKeyStore St}.

(** The record of a generated key; a slice of a text that is too short is a panic. *)
Definition new_record (rawKey idBytes : list ascii) (now : Z) (tenantID name : string) (scopes : list string)
    (expiresAt : option Z) : res APIKeyRecord :=
  let plaintext := apiKeyPrefix +:+ EncodeToString rawKey in
  let n := (String.length apiKeyPrefix + 8)%nat in
  if (n <=? String.length plaintext)%nat
  then Ok (mkAPIKeyRecord (EncodeToString idBytes) tenantID name (hashAPIKey plaintext)
             (of_bytes (take n (bytes_of plaintext))) scopes expiresAt now None)
  else Panic "slice bounds out of range".

(** [rand] gives the bytes of the two reads. *)
Definition GenerateAPIKey (rand : nat → nat → res (list ascii)) (now : Z) (tenantID name : string) (scopes : list string)
    (expiresAt : option Z) (st : St) : res string * St :=
  if bool_decide (tenantID = "") then (Err (unauthorized "tenant ID is required"), st)
  else if bool_decide (name = "") then (Err (unauthorized "key name is required"), st)
  else if bool_decide (scopes = []) then (Err (unauthorized "at least one scope is required"), st)
  else match rand 0%nat apiKeyBytes with
       | Err e => (Err (ErrWrapf "generating random key" e), st)
       | Panic m => (Panic m, st)
       | Ok rawKey =>
           match rand 1%nat 16%nat with
           | Err e => (Err (ErrWrapf "generating key ID" e), st)
           | Panic m => (Panic m, st)
           | Ok idBytes =>
               match new_record rawKey idBytes now tenantID name scopes expiresAt with
               | Err e => (Err e, st)
               | Panic m => (Panic m, st)
               | Ok record =>
                   match SaveAPIKey record st with
                   | (Some e, st) => (Err (ErrWrapf "saving API key" e), st)
                   | (None, st) => (Ok (apiKeyPrefix +:+ EncodeToString rawKey), st)
                   end
               end
           end
       end.

(** The comparison takes the same time whatever the bytes are; what it decides is equality. *)
Definition ValidateAPIKey (st : St) (now : Z) (key : string) : res Principal :=
  if bool_decide (key = "") then Err (unauthorized "empty API key")
  else
    let keyHash := hashAPIKey key in
    match GetAPIKeyByHash keyHash st with
    | Panic m => Panic m
    | Err e => if errors_Is e ErrNotFound then Err (unauthorized "invalid API key") else Err (ErrWrapf "looking up API key" e)
    | Ok record =>
        if IsRevoked record then Err (unauthorized "API key has been revoked")
        else if IsExpired record now then Err (unauthorized "API key has expired")
        else match DecodeString (KeyHash record) with
             | None => Err (unauthorized "corrupt key hash in store")
             | Some storedHash =>
                 match DecodeString keyHash with
                 | None => Err (unauthorized "computing key hash")
                 | Some computedHash =>
                     if bool_decide (storedHash = computedHash)
                     then Ok (mkPrincipal (rec_ID record) (rec_TenantID record) "" (rec_Scopes record) PrincipalAPIKey)
                     else Err (unauthorized "API key mismatch")
                 end
             end
    end.

Definition RevokeAPIKey (now : Z) (keyID : string) (st : St) : option error * St :=
  if bool_decide (keyID = "") then (Some (unauthorized "key ID is required"), st)
  else match store_RevokeAPIKey keyID now st with
       | (None, st) => (None, st)
       | (Some e, st) =>
           (Some (if errors_Is e ErrNotFound then ErrWrapf "API key not found" (ErrSentinel ErrNotFound)
                  else ErrWrapf "revoking API key" e), st)
       end.

(** ** Histories *)

(** A call that changes the store, with its random bytes and its time. *)
Inductive key_call :=
| CallGenerate (rand : nat → nat → res (list ascii)) (now : Z) (tenantID name : string) (scopes : list string) (expiresAt : option Z)
| CallRevoke (now : Z) (keyID : string).

Definition run_call (st : St) (c : key_call) : St :=
  match c with
  | CallGenerate rand now t n sc ex => (GenerateAPIKey rand now t n sc ex st).2
  | CallRevoke now id => (RevokeAPIKey now id st).2
  end.
Definition run_calls (st : St) (cs : list key_call) : St := foldl run_call st cs.

(** The call makes this record. *)
Definition makes (c : key_call) (r : APIKeyRecord) : Prop :=
  match c with
  | CallGenerate rand now t n sc ex =>
      t ≠ "" ∧ n ≠ "" ∧ sc ≠ [] ∧
      ∃ rawKey idBytes, rand 0%nat apiKeyBytes = Ok rawKey ∧ rand 1%nat 16%nat = Ok idBytes ∧
        new_record rawKey idBytes now t n sc ex = Ok r
  | CallRevoke _ _ => False
  end.
End service.

(** ** What the calls do *)

Section generation.
Context (sha256 : string → list ascii) `{APIKeyStore St}.

(** A call makes at most one record, which is not revoked. *)
Lemma makes_live c r : makes sha256 c r → RevokedAt r = None.
Proof.
  destruct c as [rand now t n sc ex|]; [|done]. intros (_ & _ & _ & rawKey & idBytes & _ & _ & Hr).
  unfold new_record in Hr. case_match; [|done]. by injection Hr as <-.
Qed.

(** A generation either leaves the store alone or saves the record it makes. *)
Lemma GenerateAPIKey_cases rand now t n sc ex (st : St) :
  let '(out, st') := GenerateAPIKey sha256 rand now t n sc ex st in
  (st' = st ∧ ∀ key, out ≠ Ok key) ∨
  ∃ r rawKey, makes sha256 (CallGenerate rand now t n sc ex) r ∧ rand 0%nat apiKeyBytes = Ok rawKey ∧
    st' = (SaveAPIKey r st).2 ∧ (∀ key, out = Ok key ↔ (SaveAPIKey r st).1 = None ∧ key = apiKeyPrefix +:+ EncodeToString rawKey).
Proof.
  unfold GenerateAPIKey. do 3 (case_bool_decide; [by left|]).
  destruct (rand 0%nat apiKeyBytes) as [rawKey|e|m] eqn:Hraw; [|by left..].
  destruct (rand 1%nat 16%nat) as [idBytes|e|m] eqn:Hid; [|by left..].
  destruct (new_record sha256 rawKey idBytes now t n sc ex) as [r|e|m] eqn:Hr; [|by left..].
  destruct (SaveAPIKey r st) as [[e|] st'] eqn:Hs; right; exists r, rawKey; rewrite Hs;
    (split; [by split_and!; eauto|]); (split; [done|]); (split; [done|]); cbn.
  - naive_solver.
  - intros key. split; [by intros [= <-]|by intros [_ ->]].
Qed.
End generation.

Section service_laws.
Context (sha256 : string → list ascii) `{APIKeyStoreLaws St}.

Lemma run_call_sound c (st : St) : sound st → sound (run_call sha256 st c).
Proof.
  intros Hs. destruct c as [rand now t n sc ex|now id]; cbn [run_call].
  - pose proof (GenerateAPIKey_cases sha256 rand now t n sc ex st) as Hg.
    destruct (GenerateAPIKey _ _ _ _ _ _ _ st) as [out st']. cbn. destruct Hg as [[-> _]|(r & raw & _ & _ & -> & _)]; [done|].
    pose proof (save_law st r Hs) as Hl. destruct (SaveAPIKey r st) as [err st'']. by destruct Hl.
  - unfold RevokeAPIKey. case_bool_decide; [done|]. pose proof (revoke_law st id now Hs) as Hl.
    destruct (store_RevokeAPIKey id now st) as [[e|] st']; by destruct Hl.
Qed.

Lemma run_calls_sound cs (st : St) : sound st → sound (run_calls sha256 st cs).
Proof.
  revert st. induction cs as [|c cs IH]; intros st Hs; [done|]. apply IH, run_call_sound, Hs.
Qed.

(** What one call does to the records. *)
Lemma run_call_stored c (st : St) : sound st →
  stored (run_call sha256 st c) = stored st ∨
  (∃ r, makes sha256 c r ∧ stored (run_call sha256 st c) = <[rec_ID r := r]> (stored st)) ∨
  (∃ now id, c = CallRevoke now id ∧ stored (run_call sha256 st c) = alter (revoked_at now) id (stored st)).
Proof.
  intros Hs. destruct c as [rand now t n sc ex|now id]; cbn [run_call].
  - pose proof (GenerateAPIKey_cases sha256 rand now t n sc ex st) as Hg.
    destruct (GenerateAPIKey _ _ _ _ _ _ _ st) as [out st']. cbn. destruct Hg as [[-> _]|(r & raw & Hm & _ & -> & _)]; [by left|].
    pose proof (save_law st r Hs) as Hl. destruct (SaveAPIKey r st) as [[e|] st'']; destruct Hl as [_ Hl]; cbn; eauto.
  - unfold RevokeAPIKey. case_bool_decide; [by left|]. pose proof (revoke_law st id now Hs) as Hl.
    destruct (store_RevokeAPIKey id now st) as [[e|] st']; destruct Hl as [_ Hl]; [by left|]. destruct Hl as [_ Hl]. cbn. eauto 6.
Qed.

(** Where a record that is not revoked comes from: the last call that made one with its identifier; each later
    revocation of it reported an error. *)
Definition live_since (st0 : St) (cs : list key_call) (r : APIKeyRecord) : Prop :=
  ∃ pre c post, cs = pre ++ c :: post ∧ makes sha256 c r ∧
    ∀ p1 p2 now, post = p1 ++ CallRevoke now (rec_ID r) :: p2 →
      (RevokeAPIKey now (rec_ID r) (run_calls sha256 st0 (pre ++ c :: p1))).1 ≠ None.

Lemma live_since_snoc st0 cs c r :
  live_since st0 cs r →
  (∀ now, c = CallRevoke now (rec_ID r) → (RevokeAPIKey now (rec_ID r) (run_calls sha256 st0 cs)).1 ≠ None) →
  live_since st0 (cs ++ [c]) r.
Proof.
  intros (pre & c0 & post & -> & Hm & Hp) Hc. exists pre, c0, (post ++ [c]).
  split; [by rewrite <- app_assoc|]. split; [done|]. intros p1 p2 now Heq.
  destruct p2 as [|c' p2 _] using rev_ind.
  - apply app_inj_tail in Heq as [-> ->]. by apply Hc.
  - rewrite app_comm_cons, app_assoc in Heq. apply app_inj_tail in Heq as [-> _]. by apply (Hp p1 p2).
Qed.

Lemma live_records (st0 : St) cs id r :
  sound st0 → stored st0 = ∅ → stored (run_calls sha256 st0 cs) !! id = Some r → RevokedAt r = None → live_since st0 cs r.
Proof.
  intros Hs Hnil. revert id r. induction cs as [|c cs IH] using rev_ind; intros id r.
  { cbn. by rewrite Hnil, lookup_empty. }
  unfold run_calls. rewrite foldl_app. cbn [foldl]. fold (run_calls sha256 st0 cs). intros Hr Hlive.
  pose proof (run_calls_sound cs st0 Hs) as Hsound. pose proof (run_call_stored c _ Hsound) as Hc.
  destruct (decide (stored (run_calls sha256 st0 cs) !! id = Some r)) as [Hbefore|Hnew].
  - apply live_since_snoc; [by apply (IH id)|]. intros now -> Hnone.
    pose proof (id_law _ _ _ Hsound Hbefore) as Hid. unfold RevokeAPIKey in Hnone, Hr. cbn in Hr.
    unfold RevokeAPIKey in Hr. case_bool_decide; [done|]. pose proof (revoke_law _ (rec_ID r) now Hsound) as Hl.
    destruct (store_RevokeAPIKey _ _ _) as [[e|] st']; [done|]. destruct Hl as (_ & _ & Hl). cbn in Hr.
    rewrite Hl, Hid, lookup_alter_eq, Hbefore in Hr. cbn in Hr. injection Hr as Hr. by rewrite <- Hr in Hlive.
  - destruct Hc as [Hc|[(r' & Hm & Hc)|(now & id' & -> & Hc)]]; rewrite Hc in Hr.
    + done.
    + destruct (decide (id = rec_ID r')) as [->|Hne]; [|by rewrite lookup_insert_ne in Hr].
      rewrite lookup_insert_eq in Hr. injection Hr as ->. exists cs, c, []. split; [done|]. split; [done|].
      intros [|] ? ? ?; done.
    + destruct (decide (id = id')) as [->|Hne]; [|by rewrite lookup_alter_ne in Hr].
      rewrite lookup_alter_eq in Hr. destruct (stored _ !! id'); [|done]. injection Hr as <-. done.
Qed.

(** C7: A key that validates is one that was issued: some call generated a key with the same hash, for the tenant, with
    the identifier and the scopes of the principal; that key has not expired, and every later revocation of it
    reported an error to its caller. *)
Theorem validated_key_was_issued (st0 : St) cs key now p :
  sound st0 → stored st0 = ∅ → ValidateAPIKey sha256 (run_calls sha256 st0 cs) now key = Ok p →
  ∃ pre rand t tenant name scopes expiresAt post rawKey idBytes,
    cs = pre ++ CallGenerate rand t tenant name scopes expiresAt :: post ∧
    rand 0%nat apiKeyBytes = Ok rawKey ∧ rand 1%nat 16%nat = Ok idBytes ∧
    sha256 (apiKeyPrefix +:+ EncodeToString rawKey) = sha256 key ∧
    tenant ≠ "" ∧ scopes ≠ [] ∧ p = mkPrincipal (EncodeToString idBytes) tenant "" scopes PrincipalAPIKey ∧
    (∀ t, expiresAt = Some t → now ≤ t) ∧
    ∀ p1 p2 at_, post = p1 ++ CallRevoke at_ (pr_ID p) :: p2 →
      (RevokeAPIKey at_ (pr_ID p) (run_calls sha256 st0 (pre ++ CallGenerate rand t tenant name scopes expiresAt :: p1))).1 ≠ None.
Proof.
  intros Hs Hnil Hv. unfold ValidateAPIKey in Hv. case_bool_decide; [done|].
  pose proof (run_calls_sound cs st0 Hs) as Hsound.
  destruct (GetAPIKeyByHash _ _) as [r|e|m] eqn:Hget; [|by destruct (errors_Is e ErrNotFound)|done].
  apply by_hash_law in Hget; [|done]. unfold IsRevoked in Hv. destruct (RevokedAt r) eqn:Hlive; [done|].
  destruct (IsExpired r now) eqn:Hexp; [done|]. unfold hashAPIKey in Hv. rewrite DecodeString_Encode in Hv.
  destruct (DecodeString (KeyHash r)) as [h|] eqn:Hh; [|done]. case_bool_decide as Heq; [|done]. injection Hv as <-. subst h.
  destruct (live_records st0 cs _ r Hs Hnil Hget Hlive) as (pre & c & post & -> & Hm & Hpost).
  destruct c as [rand t tenant name scopes expiresAt|]; [|done].
  destruct Hm as (Ht & _ & Hsc & rawKey & idBytes & Hraw & Hid & Hr).
  exists pre, rand, t, tenant, name, scopes, expiresAt, post, rawKey, idBytes.
  unfold new_record in Hr. case_match; [|done]. injection Hr as <-. cbn in Hlive, Hpost. cbn [KeyHash] in Hh.
  unfold hashAPIKey in Hh. rewrite DecodeString_Encode in Hh. injection Hh as Hh.
  unfold IsExpired in Hexp. cbn in Hexp. split_and!; try done.
  intros t' ->. apply Z.ltb_ge in Hexp. done.
Qed.
End service_laws.

(** ** The in-memory store keeps a key usable *)

Section in_memory.
Context (sha256 : string → list ascii).

(** The call does not disturb the record: it does not revoke it and makes no record with its identifier or its hash. *)
Definition leaves (r : APIKeyRecord) (c : key_call) : Prop :=
  (∀ now, c ≠ CallRevoke now (rec_ID r)) ∧
  ∀ r', makes sha256 c r' → rec_ID r' ≠ rec_ID r ∧ KeyHash r' ≠ KeyHash r.

Definition found (r : APIKeyRecord) (s : InMemoryAPIKeyStore) : Prop :=
  keys s !! rec_ID r = Some r ∧ byHash s !! KeyHash r = Some (rec_ID r).

Lemma found_step r c s : leaves r c → found r s → found r (run_call sha256 s c).
Proof.
  intros [Hrev Hgen] [Hk Hh]. destruct c as [rand now t n sc ex|now id]; cbn [run_call].
  - pose proof (GenerateAPIKey_cases sha256 rand now t n sc ex s) as Hg.
    destruct (GenerateAPIKey _ _ _ _ _ _ _ s) as [out s']. cbn. destruct Hg as [[-> _]|(r' & raw & Hm & _ & -> & _)]; [done|].
    apply Hgen in Hm as [Hne Hnh]. split; cbn; by rewrite lookup_insert_ne.
  - assert (id ≠ rec_ID r) by (intros ->; by apply (Hrev now)).
    unfold RevokeAPIKey. case_bool_decide; [done|]. cbn. unfold mem_RevokeAPIKey.
    destruct (keys s !! id) as [r'|]; [|done]. split; cbn; [by rewrite lookup_insert_ne|done].
Qed.

Lemma found_validates r s now key :
  found r s → key ≠ "" → KeyHash r = hashAPIKey sha256 key → RevokedAt r = None → IsExpired r now = false →
  ValidateAPIKey sha256 s now key = Ok (mkPrincipal (rec_ID r) (rec_TenantID r) "" (rec_Scopes r) PrincipalAPIKey).
Proof.
  intros [Hk Hh] Hne Hhash Hlive Hexp. unfold ValidateAPIKey. rewrite bool_decide_eq_false_2 by done.
  cbn [GetAPIKeyByHash InMemoryAPIKeyStore_ops]. unfold mem_GetAPIKeyByHash. rewrite <- Hhash, Hh, Hk.
  unfold IsRevoked. rewrite Hlive, Hexp. rewrite Hhash. unfold hashAPIKey at 1 2. rewrite DecodeString_Encode.
  by rewrite bool_decide_eq_true_2.
Qed.

(** A key that was given out validates, as long as it has not expired and nothing revoked it, whatever
    other keys are generated and revoked; its principal has the tenant and the scopes it was generated for. *)
Theorem generated_key_validates s0 rand t tenant name scopes expiresAt key s1 cs now :
  GenerateAPIKey sha256 rand t tenant name scopes expiresAt s0 = (Ok key, s1) →
  (∀ t', expiresAt = Some t' → now ≤ t') →
  (∀ c r, c ∈ cs → makes sha256 (CallGenerate rand t tenant name scopes expiresAt) r → leaves r c) →
  ∃ rawKey idBytes, rand 0%nat apiKeyBytes = Ok rawKey ∧ rand 1%nat 16%nat = Ok idBytes ∧
    key = apiKeyPrefix +:+ EncodeToString rawKey ∧
    ValidateAPIKey sha256 (run_calls sha256 s1 cs) now key =
      Ok (mkPrincipal (EncodeToString idBytes) tenant "" scopes PrincipalAPIKey).
Proof.
  intros Hg Hexp Hcs. pose proof (GenerateAPIKey_cases sha256 rand t tenant name scopes expiresAt s0) as Hc.
  rewrite Hg in Hc. destruct Hc as [[_ Hno]|(r & rawKey & Hm & Hraw & Hs1 & Hout)]; [by destruct (Hno key)|].
  destruct (proj1 (Hout key) eq_refl) as [_ ->]. pose proof (makes_live _ _ _ Hm) as Hlive.
  assert (Hf : found r (run_calls sha256 s1 cs)).
  { assert (Hall : ∀ c, c ∈ cs → leaves r c) by (intros c Hin; by apply Hcs).
    assert (Hf1 : found r s1) by (subst s1; split; cbn; by rewrite lookup_insert_eq). clear -Hall Hf1.
    revert s1 Hf1. induction cs as [|c cs IH]; intros s1 Hf1; [done|]. cbn. apply IH.
    - intros c' Hin. apply Hall. by right.
    - apply found_step; [apply Hall; by left|done]. }
  pose proof Hm as (_ & _ & _ & rawKey' & idBytes & Hraw' & Hid & Hr). rewrite Hraw in Hraw'. injection Hraw' as <-.
  exists rawKey, idBytes. split_and!; [done..|].
  unfold new_record in Hr. case_match; [|done]. injection Hr as Hr.
  rewrite (found_validates r); [by rewrite <- Hr|done|done|by rewrite <- Hr|done|].
  rewrite <- Hr. unfold IsExpired. cbn. destruct expiresAt as [t'|]; [|done]. apply Z.ltb_ge. by apply Hexp.
Qed.
End in_memory.

(** ** Examples *)

(** A hash for examples: the bytes of the text. *)
Definition toy_hash (s : string) : list ascii := bytes_of s.
Definition key_rand (a b : ascii) (i n : nat) : res (list ascii) := Ok (replicate n (if (i =? 0)%nat then a else b)).

Definition sample_calls : list key_call :=
  [CallGenerate (key_rand "a" "1") 10 "acme" "ci" ["sync:read"] (Some 1000);
   CallGenerate (key_rand "b" "2") 20 "other" "ops" ["*"] None; CallRevoke 30 (EncodeToString (replicate 16 "2"%char))].
Definition sample_key (a : ascii) : string := apiKeyPrefix +:+ EncodeToString (replicate 32 a).

Example sample_validations :
  let s := run_calls toy_hash NewInMemoryAPIKeyStore sample_calls in
  ValidateAPIKey toy_hash s 1000 (sample_key "a") =
    Ok (mkPrincipal (EncodeToString (replicate 16 "1"%char)) "acme" "" ["sync:read"] PrincipalAPIKey) ∧
  ValidateAPIKey toy_hash s 1001 (sample_key "a") = Err (unauthorized "API key has expired") ∧
  ValidateAPIKey toy_hash s 40 (sample_key "b") = Err (unauthorized "API key has been revoked") ∧
  ValidateAPIKey toy_hash s 40 (sample_key "c") = Err (unauthorized "invalid API key").
Proof. vm_compute. done. Qed.

Lemma validated_key_was_issued_witness :
  ∃ pre rand t tenant name scopes expiresAt post rawKey idBytes,
    sample_calls = pre ++ CallGenerate rand t tenant name scopes expiresAt :: post ∧
    rand 0%nat apiKeyBytes = Ok rawKey ∧ rand 1%nat 16%nat = Ok idBytes ∧
    toy_hash (apiKeyPrefix +:+ EncodeToString rawKey) = toy_hash (sample_key "a") ∧
    tenant ≠ "" ∧ scopes ≠ [] ∧
    mkPrincipal (EncodeToString (replicate 16 "1"%char)) "acme" "" ["sync:read"] PrincipalAPIKey =
      mkPrincipal (EncodeToString idBytes) tenant "" scopes PrincipalAPIKey ∧
    (∀ t, expiresAt = Some t → 1000 ≤ t) ∧
    ∀ p1 p2 at_, post = p1 ++ CallRevoke at_ (EncodeToString (replicate 16 "1"%char)) :: p2 →
      (RevokeAPIKey at_ (EncodeToString (replicate 16 "1"%char))
         (run_calls toy_hash NewInMemoryAPIKeyStore (pre ++ CallGenerate rand t tenant name scopes expiresAt :: p1))).1 ≠ None.
Proof.
  refine (validated_key_was_issued toy_hash NewInMemoryAPIKeyStore sample_calls (sample_key "a") 1000 _ _ _ _);
    [by apply map_Forall_empty|reflexivity|vm_compute; reflexivity].
Defined.

Lemma generated_key_validates_witness :
  ∃ rawKey idBytes, key_rand "a" "1" 0%nat apiKeyBytes = Ok rawKey ∧ key_rand "a" "1" 1%nat 16%nat = Ok idBytes ∧
    sample_key "a" = apiKeyPrefix +:+ EncodeToString rawKey ∧
    ValidateAPIKey toy_hash
      (run_calls toy_hash (GenerateAPIKey toy_hash (key_rand "a" "1") 10 "acme" "ci" ["sync:read"] (Some 1000) NewInMemoryAPIKeyStore).2
         [CallRevoke 30 "missing"]) 999 (sample_key "a") =
      Ok (mkPrincipal (EncodeToString idBytes) "acme" "" ["sync:read"] PrincipalAPIKey).
Proof.
  refine (generated_key_validates toy_hash NewInMemoryAPIKeyStore (key_rand "a" "1") 10 "acme" "ci" ["sync:read"] (Some 1000)
            (sample_key "a") _ [CallRevoke 30 "missing"] 999 _ _ _).
  - vm_compute. reflexivity.
  - intros t [= <-]. lia.
  - intros c r Hc Hm. apply list_elem_of_singleton in Hc as ->. split; [|done].
    intros now [= _ Hid]. destruct Hm as (_ & _ & _ & raw & idb & Hraw & Hidb & Hr).
    injection Hraw as <-. injection Hidb as <-. vm_compute in Hr. injection Hr as <-. vm_compute in Hid. discriminate Hid.
Defined.
