(* ===== verification/Jwt.v ===== *)
(** * JSON Web Tokens: [internal/security/auth/jwt.go] and [internal/api/middleware/auth.go]

    The token service signs and parses tokens with a library, which is the class [JwtLib] with its documented
    behaviour in [JwtLaws].  The middleware reads tokens itself; there HMAC-SHA256 is the function [hmac] and the
    parser of JSON texts is [json_doc].  Times are nanoseconds. *)

From Stdlib Require Import Ascii.
From S2P Require Import Prelude GoStrings Errors Float Value JsonDecode Rbac Encoding ApiKeys.

(** ** The token service *)

Record RegisteredClaims := mkRegistered {
  iss : string; sub : string; aud : list string; exp : option Z; nbf : option Z; iat : option Z; jti : string
}.
Record Claims := mkClaims {
  c_PrincipalID : string; c_TenantID : string; c_UserID : string; c_Scopes : list string; registered : RegisteredClaims
}.

Record ParserOptions := mkOptions { opt_issuer : string; opt_methods : list string; opt_audience : option string }.

(** The registered claims pass: an expiry is required, the issuer is the one asked for, and the audience asked for is named. *)
Definition registered_ok (o : ParserOptions) (now : Z) (r : RegisteredClaims) : Prop :=
  (∃ t, exp r = Some t ∧ now < t) ∧ (∀ t, nbf r = Some t → t ≤ now) ∧
  iss r = opt_issuer o ∧ (∀ a, opt_audience o = Some a → a ∈ aud r ∧ aud r ≠ [""]).

Section service.
Context {RSAPriv RSAPub ECPriv ECPub : Type} (rsa_public : RSAPriv → RSAPub) (ec_public : ECPriv → ECPub).

Inductive signing_key := HMACSign (secret : string) | RSASign (k : RSAPriv) | ECDSASign (k : ECPriv).
Inductive verification_key := HMACVerify (secret : string) | RSAVerify (k : RSAPub) | ECDSAVerify (k : ECPub).

Definition public_of (k : signing_key) : verification_key :=
  match k with HMACSign s => HMACVerify s | RSASign k => RSAVerify (rsa_public k) | ECDSASign k => ECDSAVerify (ec_public k) end.

(** The library.  Parsing gives the claims and whether the token is valid; [keyfunc] gives the key for an algorithm. *)
Class JwtLib := {
  NewNumericDate : Z → Z;
  SignedString : string → Claims → signing_key → res string;
  ParseWithClaims : ParserOptions → (string → res verification_key) → Z → string → res (Claims * bool)
}.

(** [carries tok alg vk c]: the token has these claims and a signature of this algorithm that the key verifies.
    [writable c]: JSON carries the texts of the claims unchanged. *)
Class JwtLaws `{JwtLib} := {
  carries : string → string → verification_key → Claims → Prop;
  writable : Claims → Prop;
  date_law t : NewNumericDate t = t / second * second;
  sign_law alg c sk tok : SignedString alg c sk = Ok tok → writable c →
    carries tok alg (public_of sk) c ∧ " "%char ∉ bytes_of tok ∧ tok ≠ "";
  carries_law tok alg vk c alg' vk' c' : carries tok alg vk c → carries tok alg' vk' c' → c = c';
  parse_total o keyfunc now tok m : (∀ alg m', keyfunc alg ≠ Panic m') → ParseWithClaims o keyfunc now tok ≠ Panic m;
  parse_law o keyfunc now tok c v : opt_issuer o ≠ "" →
    ParseWithClaims o keyfunc now tok = Ok (c, v) ↔
    v = true ∧ registered_ok o now (registered c) ∧
      ∃ alg vk, alg ∈ opt_methods o ∧ keyfunc alg = Ok vk ∧ carries tok alg vk c
}.

(** A signing method is its algorithm name; keys and methods are nil where they are not given. *)
Record JWTConfig := mkJWTConfig {
  SigningMethod : option string; HMACSecret : string;
  RSAPrivateKey : option RSAPriv; RSAPublicKey : option RSAPub;
  ECDSAPrivateKey : option ECPriv; ECDSAPublicKey : option ECPub;
  Issuer : string; Audience : list string
}.

Inductive family := FamilyHMAC | FamilyRSA | FamilyECDSA.
Definition family_of (alg : string) : option family :=
  if decide (alg ∈ ["HS256"; "HS384"; "HS512"]) then Some FamilyHMAC
  else if decide (alg ∈ ["RS256"; "RS384"; "RS512"]) then Some FamilyRSA
  else if decide (alg ∈ ["ES256"; "ES384"; "ES512"]) then Some FamilyECDSA
  else None.

Definition with_public (c : JWTConfig) (rp : option RSAPub) (ep : option ECPub) : JWTConfig :=
  mkJWTConfig (SigningMethod c) (HMACSecret c) (RSAPrivateKey c) rp (ECDSAPrivateKey c) ep (Issuer c) (Audience c).

Definition with_issuer (c : JWTConfig) : JWTConfig :=
  if bool_decide (Issuer c = "") then
    mkJWTConfig (SigningMethod c) (HMACSecret c) (RSAPrivateKey c) (RSAPublicKey c) (ECDSAPrivateKey c) (ECDSAPublicKey c) "flowforge" (Audience c)
  else c.

(** The configuration the service keeps. *)
Definition NewJWTService (config : JWTConfig) : res JWTConfig :=
  match SigningMethod config with
  | None => Err (ErrText "signing method is required")
  | Some alg =>
      match family_of alg with
      | Some FamilyHMAC =>
          if (String.length (HMACSecret config) <? 32)%nat then Err (ErrText "HMAC secret must be at least 32 bytes")
          else Ok (with_issuer config)
      | Some FamilyRSA =>
          match RSAPrivateKey config with
          | None => Err (ErrText "RSA private key is required for RS256 signing")
          | Some k =>
              let pub := match RSAPublicKey config with None => Some (rsa_public k) | p => p end in
              Ok (with_issuer (with_public config pub (ECDSAPublicKey config)))
          end
      | Some FamilyECDSA =>
          match ECDSAPrivateKey config with
          | None => Err (ErrText "ECDSA private key is required for ES256 signing")
          | Some k =>
              let pub := match ECDSAPublicKey config with None => Some (ec_public k) | p => p end in
              Ok (with_issuer (with_public config (RSAPublicKey config) pub))
          end
      | None => Err (ErrText ("unsupported signing method: " +:+ alg))
      end
  end.

Definition NewHMACJWTService (secret : string) : res JWTConfig :=
  NewJWTService (mkJWTConfig (Some "HS256") secret None None None None "flowforge" []).

(** The address of a field of a nil pointer is a panic. *)
Definition NewRSAJWTService (privateKey : option RSAPriv) : res JWTConfig :=
  match privateKey with
  | None => Panic "invalid memory address or nil pointer dereference"
  | Some k => NewJWTService (mkJWTConfig (Some "RS256") "" (Some k) (Some (rsa_public k)) None None "flowforge" [])
  end.

Definition signingKey (s : JWTConfig) (alg : string) : res signing_key :=
  match family_of alg with
  | Some FamilyHMAC => Ok (HMACSign (HMACSecret s))
  | Some FamilyRSA => match RSAPrivateKey s with None => Err (ErrText "RSA private key not configured") | Some k => Ok (RSASign k) end
  | Some FamilyECDSA => match ECDSAPrivateKey s with None => Err (ErrText "ECDSA private key not configured") | Some k => Ok (ECDSASign k) end
  | None => Err (ErrText ("unsupported signing method: " +:+ alg))
  end.

Definition verificationKey (s : JWTConfig) (alg : string) : res verification_key :=
  match family_of alg with
  | Some FamilyHMAC => Ok (HMACVerify (HMACSecret s))
  | Some FamilyRSA => match RSAPublicKey s with None => Err (ErrText "RSA public key not configured") | Some k => Ok (RSAVerify k) end
  | Some FamilyECDSA => match ECDSAPublicKey s with None => Err (ErrText "ECDSA public key not configured") | Some k => Ok (ECDSAVerify k) end
  | None => Err (ErrText ("unsupported signing method: " +:+ alg))
  end.

Context `{JwtLib}.

(** The claims of a token for a principal. *)
Definition token_claims (s : JWTConfig) (p : Principal) (now ttl : Z) : Claims :=
  mkClaims (pr_ID p) (pr_TenantID p) (pr_UserID p) (pr_Scopes p)
    (mkRegistered (Issuer s) (pr_UserID p) (Audience s) (Some (NewNumericDate (now + ttl))) (Some (NewNumericDate now))
       (Some (NewNumericDate now)) (pr_ID p)).

(** A principal that is not given is nil; the service has a signing method, and calling one that is nil is a panic. *)
Definition GenerateToken (s : JWTConfig) (now : Z) (principal : option Principal) (ttl : Z) : res string :=
  match principal with
  | None => Err (ErrText "principal is required")
  | Some p =>
      if ttl <=? 0 then Err (ErrText "TTL must be positive")
      else match SigningMethod s with
           | None => Panic "invalid memory address or nil pointer dereference"
           | Some alg =>
               match signingKey s alg with
               | Err e => Err (ErrWrapf "getting signing key" e)
               | Panic m => Panic m
               | Ok sk =>
                   match SignedString alg (token_claims s p now ttl) sk with
                   | Err e => Err (ErrWrapf "signing JWT" e)
                   | r => r
                   end
               end
           end
  end.

Definition parser_options (s : JWTConfig) (alg : string) : ParserOptions := mkOptions (Issuer s) [alg] (head (Audience s)).

(** The key for the algorithm a token names. *)
Definition keyfunc (s : JWTConfig) (alg token_alg : string) : res verification_key :=
  if bool_decide (token_alg = alg) then verificationKey s alg
  else Err (ErrText ("unexpected signing method: " +:+ token_alg)).

Definition ValidateToken (s : JWTConfig) (now : Z) (tokenStr : string) : res Claims :=
  if bool_decide (tokenStr = "") then Err (ErrText "token string is empty")
  else match SigningMethod s with
       | None => Panic "invalid memory address or nil pointer dereference"
       | Some alg =>
           match ParseWithClaims (parser_options s alg) (keyfunc s alg) now tokenStr with
           | Err e => Err (ErrWrapf "parsing JWT" e)
           | Panic m => Panic m
           | Ok (claims, valid) =>
               if negb valid then Err (ErrText "token is invalid")
               else if bool_decide (c_PrincipalID claims = "") then Err (ErrText "token missing principal ID")
               else if bool_decide (c_TenantID claims = "") then Err (ErrText "token missing tenant ID")
               else Ok claims
           end
       end.

(** [AuthService.ValidateJWT]; of the context it reads the tenant. *)
Definition ValidateJWT (s : JWTConfig) (ctxTenant : string) (now : Z) (token : string) : res Principal :=
  if bool_decide (token = "") then Err (unauthorized "empty token")
  else
    let token := TrimPrefix (TrimPrefix token "Bearer ") "bearer " in
    match ValidateToken s now token with
    | Err _ => Err (unauthorized "invalid JWT")
    | Panic m => Panic m
    | Ok claims =>
        if negb (bool_decide (ctxTenant = "")) && negb (bool_decide (ctxTenant = c_TenantID claims))
        then Err (ErrWrapf "JWT tenant mismatch" (ErrSentinel ErrForbidden))
        else Ok (mkPrincipal (c_PrincipalID claims) (c_TenantID claims) (c_UserID claims) (c_Scopes claims) PrincipalJWT)
    end.
End service.
Arguments signing_key : clear implicits.
Arguments verification_key : clear implicits.
Arguments JWTConfig : clear implicits.
Arguments carries {_ _ _ _ _ _ _ _} _ _ _ _.
Arguments writable {_ _ _ _ _ _ _ _} _.

(** ** What tokens mean *)

Section tokens.
Context {RSAPriv RSAPub ECPriv ECPub : Type} (rsa_public : RSAPriv → RSAPub) (ec_public : ECPriv → ECPub).
Abbreviation config := (JWTConfig RSAPriv RSAPub ECPriv ECPub).

(** The public keys of a configuration are those of its private keys. *)
Definition keys_match (c : config) : Prop :=
  (∀ k pk, RSAPrivateKey c = Some k → RSAPublicKey c = Some pk → pk = rsa_public k) ∧
  (∀ k pk, ECDSAPrivateKey c = Some k → ECDSAPublicKey c = Some pk → pk = ec_public k).

(** A service has a signing method it knows, an issuer, and the keys of its method. *)
Lemma NewJWTService_ok (c s : config) :
  NewJWTService rsa_public ec_public c = Ok s → keys_match c →
  Issuer s ≠ "" ∧ Audience s = Audience c ∧
  ∃ alg sk, SigningMethod s = Some alg ∧ signingKey s alg = Ok sk ∧ verificationKey s alg = Ok (public_of rsa_public ec_public sk).
Proof.
  intros Hs [Hr He]. unfold NewJWTService in Hs. destruct (SigningMethod c) as [alg|] eqn:Halg; [|done].
  assert (Hi : ∀ c' : config, Issuer (with_issuer c') ≠ "" ∧ SigningMethod (with_issuer c') = SigningMethod c' ∧ Audience (with_issuer c') = Audience c' ∧
    HMACSecret (with_issuer c') = HMACSecret c' ∧ RSAPrivateKey (with_issuer c') = RSAPrivateKey c' ∧
    RSAPublicKey (with_issuer c') = RSAPublicKey c' ∧ ECDSAPrivateKey (with_issuer c') = ECDSAPrivateKey c' ∧
    ECDSAPublicKey (with_issuer c') = ECDSAPublicKey c').
  { intros c'. unfold with_issuer. by case_bool_decide. }
  destruct (family_of alg) as [[]|] eqn:Hf; [..|done].
  - destruct (_ <? 32)%nat; [done|]. injection Hs as <-. destruct (Hi c) as (H1 & H2 & H3 & H4 & _). split; [done|]. split; [done|].
    exists alg, (HMACSign (HMACSecret c)). unfold signingKey, verificationKey. rewrite Hf, H4, H2. done.
  - destruct (RSAPrivateKey c) as [k|] eqn:Hk; [|done]. injection Hs as <-. edestruct Hi as (H1 & H2 & H3 & H4 & H5 & H6 & _).
    split; [exact H1|]. split; [exact H3|]. exists alg, (RSASign k). unfold signingKey, verificationKey.
    rewrite Hf, H5, H6, H2. cbn. rewrite Hk. split; [done|]. split; [done|].
    destruct (RSAPublicKey c) as [pk|] eqn:Hpk; [|done]. by rewrite (Hr k pk).
  - destruct (ECDSAPrivateKey c) as [k|] eqn:Hk; [|done]. injection Hs as <-. edestruct Hi as (H1 & H2 & H3 & H4 & _ & _ & H5 & H6).
    split; [exact H1|]. split; [exact H3|]. exists alg, (ECDSASign k). unfold signingKey, verificationKey.
    rewrite Hf, H5, H6, H2. cbn. rewrite Hk. split; [done|]. split; [done|].
    destruct (ECDSAPublicKey c) as [pk|] eqn:Hpk; [|done]. by rewrite (He k pk).
Qed.

Context `{Hlaws : JwtLaws RSAPriv RSAPub ECPriv ECPub rsa_public ec_public}.

(** Parsing with the options of the service. *)
Lemma ValidateToken_iff (s : config) alg now tok c : Issuer s ≠ "" → SigningMethod s = Some alg →
  ValidateToken s now tok = Ok c ↔
  tok ≠ "" ∧ c_PrincipalID c ≠ "" ∧ c_TenantID c ≠ "" ∧ registered_ok (parser_options s alg) now (registered c) ∧
  ∃ vk, verificationKey s alg = Ok vk ∧ carries tok alg vk c.
Proof using Hlaws.
  intros Hi Halg. unfold ValidateToken. rewrite Halg.
  assert (Hp : ∀ v, ParseWithClaims (parser_options s alg) (keyfunc s alg) now tok = Ok (c, v) ↔
    v = true ∧ registered_ok (parser_options s alg) now (registered c) ∧ ∃ vk, verificationKey s alg = Ok vk ∧ carries tok alg vk c).
  { intros v. rewrite parse_law by done. cbn. unfold keyfunc.
    split; [intros (-> & Hok & a & vk & ->%list_elem_of_singleton & Hk & Hc)|intros (-> & Hok & vk & Hk & Hc)].
    - rewrite bool_decide_eq_true_2 in Hk by done. eauto.
    - do 2 (split; [done|]). exists alg, vk. by rewrite list_elem_of_singleton, bool_decide_eq_true_2. }
  case_bool_decide as Htok; [naive_solver|].
  destruct (ParseWithClaims _ _ _ _) as [[c' v]|e|m] eqn:Heq; [|split; [done|intros (_ & _ & _ & Hr); discriminate (proj2 (Hp true) (conj eq_refl Hr))]..].
  split.
  - intros Hv. assert (c' = c) as -> by (destruct (negb v); [done|]; repeat case_bool_decide; congruence).
    destruct (proj1 (Hp v) eq_refl) as (-> & Hok & Hk). cbn in Hv. repeat case_bool_decide; naive_solver.
  - intros (_ & H1 & H2 & Hr). pose proof (proj2 (Hp true) (conj eq_refl Hr)) as He. injection He as -> ->. cbn. by rewrite !bool_decide_eq_false_2.
Qed.

Lemma ValidateToken_total (s : config) alg now tok m : SigningMethod s = Some alg → ValidateToken s now tok ≠ Panic m.
Proof using Hlaws.
  intros Halg. unfold ValidateToken. rewrite Halg. case_bool_decide; [done|].
  destruct (ParseWithClaims _ _ _ _) as [[c v]|e|m'] eqn:Hp; [by repeat case_match|done|].
  exfalso. revert Hp. change (ParseWithClaims (parser_options s alg) (keyfunc s alg) now tok ≠ Panic m').
  apply (parse_total rsa_public ec_public). intros a m''. unfold keyfunc, verificationKey. by repeat case_match.
Qed.

Lemma no_bearer tok p : " "%char ∈ bytes_of p → " "%char ∉ bytes_of tok → TrimPrefix tok p = tok.
Proof.
  intros Hp Ht. unfold TrimPrefix, HasPrefix. destruct (String.prefix p tok) eqn:Hpre; [|done]. exfalso. apply Ht.
  clear Ht. revert tok Hpre. induction p as [|c p IH]; intros [|c' tok] Hpre; cbn in *; try done; try by apply not_elem_of_nil in Hp.
  destruct (Ascii.ascii_dec c c') as [->|]; [|done].
  apply list.elem_of_cons in Hp as [->|Hp]; [by left|]. right. by apply IH.
Qed.

Lemma head_audience o (l : list string) a : head l = Some a → a ≠ "" → o = head l → ∀ b, o = Some b → b ∈ l ∧ l ≠ [""].
Proof.
  intros Hl Ha -> b Hb. rewrite Hl in Hb. injection Hb as <-. destruct l as [|x l]; [done|]. injection Hl as ->.
  split; [left|congruence].
Qed.

(** The claims that [GenerateToken] writes pass the checks until they expire. *)
Lemma token_claims_ok (s : config) alg p t ttl now :
  head (Audience s) ≠ Some "" → t ≤ now →
  registered_ok (parser_options s alg) now (registered (token_claims s p t ttl)) ↔ now < (t + ttl) / second * second.
Proof using Hlaws.
  intros Ha Ht. unfold registered_ok. cbn. rewrite !(date_law rsa_public ec_public). split; [intros ((e & [= <-] & ?) & _); done|].
  intros He. split_and!; [eauto| |done|].
  - intros u [= <-]. unfold second in *. pose proof (Z.mod_pos_bound t 1000000000). pose proof (Z.div_mod t 1000000000). lia.
  - destruct (head (Audience s)) as [a|] eqn:Hh; [|done]. apply (head_audience _ _ a); [done|congruence|done].
Qed.

(** C22: generated tokens.  The token that a service generates for a principal gives back the principal, with or without
    a bearer prefix, as long as it has not expired, to a request of no tenant or of the same one; from the second of the
    expiry on it is refused. *)
Theorem jwt_round_trip (c s : config) t p ttl tok now ctxTenant prefix :
  NewJWTService rsa_public ec_public c = Ok s → keys_match c → head (Audience c) ≠ Some "" →
  GenerateToken s t (Some p) ttl = Ok tok → writable (token_claims s p t ttl) →
  pr_ID p ≠ "" → pr_TenantID p ≠ "" → t ≤ now →
  prefix ∈ [""; "Bearer "; "bearer "] → ctxTenant = "" ∨ ctxTenant = pr_TenantID p →
  ValidateJWT s ctxTenant now (prefix +:+ tok) =
    if now <? (t + ttl) / second * second
    then Ok (mkPrincipal (pr_ID p) (pr_TenantID p) (pr_UserID p) (pr_Scopes p) PrincipalJWT)
    else Err (unauthorized "invalid JWT").
Proof using Hlaws.
  intros Hs Hk Ha Hg Hw Hid Hten Ht Hpre Hctx.
  destruct (NewJWTService_ok _ _ Hs Hk) as (Hi & Hau & alg & sk & Halg & Hsk & Hvk). rewrite <- Hau in Ha. clear Hs Hk.
  unfold GenerateToken in Hg. destruct (ttl <=? 0); [done|]. rewrite Halg, Hsk in Hg.
  destruct (SignedString _ _ _) as [tok'|e|m] eqn:Hsig; [|done..]. injection Hg as ->.
  destruct (sign_law rsa_public ec_public _ _ _ _ Hsig Hw) as (Hc & Hsp & Hne).
  assert (Hstrip : TrimPrefix (TrimPrefix (prefix +:+ tok) "Bearer ") "bearer " = tok ∧ prefix +:+ tok ≠ "").
  { assert (Hb : ∀ q, q ∈ ["Bearer "; "bearer "] → TrimPrefix tok q = tok).
    { intros q Hq. apply no_bearer; [|done]. repeat (apply list.elem_of_cons in Hq as [->|Hq]; [set_solver|]). by apply not_elem_of_nil in Hq. }
    repeat (apply list.elem_of_cons in Hpre as [->|Hpre]); [..|by apply not_elem_of_nil in Hpre].
    - change ("" +:+ tok) with tok. by rewrite !Hb by set_solver.
    - rewrite TrimPrefix_app, Hb by set_solver. done.
    - split; [|done]. assert (Hno : TrimPrefix ("bearer " +:+ tok) "Bearer " = "bearer " +:+ tok) by done.
      rewrite Hno. apply TrimPrefix_app. }
  destruct Hstrip as [Hstrip Hne']. unfold ValidateJWT. rewrite bool_decide_eq_false_2 by done. rewrite Hstrip.
  destruct (Z.ltb_spec now ((t + ttl) / second * second)) as [Hlt|Hge].
  - assert (Hv : ValidateToken s now tok = Ok (token_claims s p t ttl)).
    { apply (ValidateToken_iff s alg); [done..|]. split_and!; [done..|by apply token_claims_ok|eauto]. }
    rewrite Hv. cbn. destruct Hctx as [->| ->]; [done|]. rewrite (bool_decide_eq_true_2 (pr_TenantID p = pr_TenantID p)) by done. by rewrite andb_false_r.
  - destruct (ValidateToken s now tok) as [c'|e|m] eqn:Hv; [|done|].
    + apply (ValidateToken_iff s alg) in Hv as (_ & _ & _ & Hr & vk & Hvk' & Hc'); [|done..]. rewrite Hvk in Hvk'. injection Hvk' as <-.
      assert (c' = token_claims s p t ttl) as -> by (eapply carries_law; eauto). apply token_claims_ok in Hr; [lia|done..].
    + by apply (ValidateToken_total s alg) in Hv.
Qed.

(** A principal comes only from a token that carries it under the method and the key of the service, whose dates, issuer
    and audience pass, and only to a request of no tenant or of the token's. *)
Theorem validated_jwt_is_signed (c s : config) ctxTenant now tok p :
  NewJWTService rsa_public ec_public c = Ok s → keys_match c → ValidateJWT s ctxTenant now tok = Ok p →
  ∃ alg vk cl, SigningMethod s = Some alg ∧ verificationKey s alg = Ok vk ∧
    carries (TrimPrefix (TrimPrefix tok "Bearer ") "bearer ") alg vk cl ∧ registered_ok (parser_options s alg) now (registered cl) ∧
    p = mkPrincipal (c_PrincipalID cl) (c_TenantID cl) (c_UserID cl) (c_Scopes cl) PrincipalJWT ∧
    pr_ID p ≠ "" ∧ pr_TenantID p ≠ "" ∧ (ctxTenant = "" ∨ ctxTenant = pr_TenantID p).
Proof using Hlaws.
  intros Hs Hk Hv. destruct (NewJWTService_ok _ _ Hs Hk) as (Hi & _ & alg & sk & Halg & _ & Hvk).
  unfold ValidateJWT in Hv. case_bool_decide; [done|]. destruct (ValidateToken _ _ _) as [cl|e|m] eqn:Ht; [|done..].
  apply (ValidateToken_iff s alg) in Ht as (_ & Hid & Hten & Hr & vk & Hvk' & Hc); [|done..].
  destruct (negb _ && negb _) eqn:Hctx; [done|]. injection Hv as <-. exists alg, vk, cl. split_and!; try done.
  cbn. repeat case_bool_decide; naive_solver.
Qed.
End tokens.

(** ** A library for examples

    Its tokens are the bits of the signed data; a private key is a number and its public key the next one. *)

Module Toy.

Definition toy_public (k : Z) : Z := k + 1.
Abbreviation toy_key := (verification_key Z Z).

#[export] Instance toy_key_eq_dec : EqDecision toy_key.
Proof. solve_decision. Defined.
#[export] Instance Registered_eq_dec : EqDecision RegisteredClaims.
Proof. solve_decision. Defined.
#[export] Instance Claims_eq_dec : EqDecision Claims.
Proof. solve_decision. Defined.

#[export] Instance toy_key_countable : Countable toy_key.
Proof.
  refine (inj_countable' (λ k, match k with HMACVerify s => inl s | RSAVerify k => inr (inl k) | ECDSAVerify k => inr (inr k) end)
            (λ x, match x with inl s => HMACVerify s | inr (inl k) => RSAVerify k | inr (inr k) => ECDSAVerify k end) _).
  by intros [].
Defined.
#[export] Instance Claims_countable : Countable Claims.
Proof.
  refine (inj_countable' (λ c, let r := registered c in
              (c_PrincipalID c, c_TenantID c, c_UserID c, c_Scopes c, (iss r, sub r, aud r, exp r, nbf r, iat r, jti r)))
            (λ x, let '(p, t, u, sc, (i, su, a, e, n, ia, j)) := x in mkClaims p t u sc (mkRegistered i su a e n ia j)) _).
  by intros [? ? ? ? []].
Defined.

Fixpoint bits (p : positive) : string :=
  match p with xH => "" | xO p => String "0" (bits p) | xI p => String "1" (bits p) end.
Fixpoint of_bits (s : string) : positive :=
  match s with EmptyString => xH | String c s => if decide (c = "0"%char) then xO (of_bits s) else xI (of_bits s) end.

Lemma of_bits_bits p : of_bits (bits p) = p.
Proof. induction p as [p IH|p IH|]; cbn; by rewrite ?IH. Qed.
Lemma bits_plain p : " "%char ∉ bytes_of (bits p).
Proof. induction p as [p IH|p IH|]; cbn; intros Hin; [apply list.elem_of_cons in Hin as [|]; [discriminate|done]..|by apply not_elem_of_nil in Hin]. Qed.

Definition token (alg : string) (k : toy_key) (c : Claims) : string := "ey" +:+ bits (encode (alg, k, c)).
Definition read (tok : string) : option (string * toy_key * Claims) := decode (of_bits (TrimPrefix tok "ey")).

Definition registered_okb (o : ParserOptions) (now : Z) (r : RegisteredClaims) : bool :=
  match exp r with Some t => now <? t | None => false end && match nbf r with Some t => t <=? now | None => true end &&
  bool_decide (iss r = opt_issuer o) && match opt_audience o with Some a => bool_decide (a ∈ aud r ∧ aud r ≠ [""]) | None => true end.

Lemma registered_okb_spec o now r : registered_okb o now r = true ↔ registered_ok o now r.
Proof.
  unfold registered_okb, registered_ok. rewrite !andb_true_iff, bool_decide_eq_true.
  destruct (exp r) as [e|], (nbf r) as [n|], (opt_audience o) as [a|]; rewrite ?Z.ltb_lt, ?Z.leb_le, ?bool_decide_eq_true; naive_solver.
Qed.

Definition toy_parse (o : ParserOptions) (keyfunc : string → res toy_key) (now : Z) (tok : string) : res (Claims * bool) :=
  match read tok with
  | Some (alg, k, c) =>
      if bool_decide (tok = token alg k c ∧ alg ∈ opt_methods o) && registered_okb o now (registered c) then
        match keyfunc alg with
        | Ok k' => if bool_decide (k = k') then Ok (c, true) else Err (ErrText "token signature is invalid")
        | Err e => Err e
        | Panic m => Panic m
        end
      else Err (ErrText "token has invalid claims")
  | None => Err (ErrText "token is malformed")
  end.

#[export] Instance toy_jwt : JwtLib (RSAPriv := Z) (RSAPub := Z) (ECPriv := Z) (ECPub := Z) := {
  NewNumericDate t := t / second * second;
  SignedString alg c sk := Ok (token alg (public_of toy_public toy_public sk) c);
  ParseWithClaims := toy_parse
}.

Lemma read_token alg k c : read (token alg k c) = Some (alg, k, c).
Proof. unfold read, token. by rewrite TrimPrefix_app, of_bits_bits, decode_encode. Qed.

#[export] Program Instance toy_jwt_laws : JwtLaws toy_public toy_public := {
  carries tok alg vk c := tok = token alg vk c;
  writable _ := True
}.
Next Obligation. done. Qed.
Next Obligation.
  intros alg c sk tok [= <-] _. split; [done|]. split; [|done]. unfold token. change (" "%char ∉ "e"%char :: "y"%char :: bytes_of (bits (encode (alg, public_of toy_public toy_public sk, c)))).
  intros Hin. do 2 (apply list.elem_of_cons in Hin as [|Hin]; [discriminate|]). by apply bits_plain in Hin.
Qed.
Next Obligation.
  intros tok alg vk c alg' vk' c' -> Heq. apply (f_equal read) in Heq. rewrite !read_token in Heq. by injection Heq.
Qed.
Next Obligation.
  intros o kf now tok m Hk Hp. cbn in Hp. unfold toy_parse in Hp. destruct (read tok) as [[[alg k] c]|]; [|done].
  destruct (_ && _); [|done]. destruct (kf alg) as [k'|e|m'] eqn:Hf; [by case_bool_decide|done|]. by apply Hk in Hf.
Qed.
Next Obligation.
  intros o kf now tok c v _. cbn. unfold toy_parse. split.
  - destruct (read tok) as [[[alg k] c']|]; [|done].
    destruct (bool_decide _ && _) eqn:Hb; [|done]. apply andb_true_iff in Hb as [[Htok Halg]%bool_decide_eq_true Hr%registered_okb_spec].
    destruct (kf alg) as [k'|e|m] eqn:Hf; [|done..]. case_bool_decide as Hk; [|done]. intros [= -> <-]. subst k'. eauto 8.
  - intros (-> & Hr & alg & vk & Halg & Hf & ->). rewrite read_token.
    rewrite bool_decide_eq_true_2 by done. apply registered_okb_spec in Hr. rewrite Hr. cbn. rewrite Hf. by rewrite bool_decide_eq_true_2.
Qed.

End Toy.
Import Toy.

Definition toy_secret : string := "0123456789abcdef0123456789abcdef".
Definition toy_principal : Principal := mkPrincipal "p1" "acme" "u1" ["sync:read"] PrincipalService.
Definition toy_config : JWTConfig Z Z Z Z := mkJWTConfig (Some "HS256") toy_secret None None None None "" ["api"].
Definition toy_service : JWTConfig Z Z Z Z := from_ok toy_config (NewJWTService toy_public toy_public toy_config).
Definition toy_token : string := from_ok "" (GenerateToken toy_service (5 * second + 7) (Some toy_principal) (60 * second)).

(** A token that lives for less than the rest of its second has expired when it is given out. *)
Example short_lived_token :
  let t := 5 * second + 100 in
  ∃ tok, GenerateToken toy_service t (Some toy_principal) (second / 2) = Ok tok ∧ ValidateJWT toy_service "" t tok = Err (unauthorized "invalid JWT").
Proof. eexists. split; [vm_compute; reflexivity|]. vm_compute. reflexivity. Qed.

Lemma jwt_round_trip_witness :
  ValidateJWT toy_service "acme" (6 * second) ("Bearer " +:+ toy_token) = Ok (mkPrincipal "p1" "acme" "u1" ["sync:read"] PrincipalJWT) ∧
  ValidateJWT toy_service "" (65 * second) toy_token = Err (unauthorized "invalid JWT").
Proof.
  split.
  - refine (jwt_round_trip toy_public toy_public toy_config toy_service (5 * second + 7) toy_principal (60 * second) toy_token
              (6 * second) "acme" "Bearer " _ _ _ _ _ _ _ _ _ _); first [done | vm_compute; reflexivity | right; left | by right].
  - refine (jwt_round_trip toy_public toy_public toy_config toy_service (5 * second + 7) toy_principal (60 * second) toy_token
              (65 * second) "" "" _ _ _ _ _ _ _ _ _ _); first [done | vm_compute; reflexivity | by left | left].
Defined.

Lemma validated_jwt_is_signed_witness :
  ∃ alg vk cl, SigningMethod toy_service = Some alg ∧ verificationKey toy_service alg = Ok vk ∧
    carries (TrimPrefix (TrimPrefix toy_token "Bearer ") "bearer ") alg vk cl ∧
    registered_ok (parser_options toy_service alg) (6 * second) (registered cl) ∧
    mkPrincipal "p1" "acme" "u1" ["sync:read"] PrincipalJWT =
      mkPrincipal (c_PrincipalID cl) (c_TenantID cl) (c_UserID cl) (c_Scopes cl) PrincipalJWT ∧
    "p1" ≠ "" ∧ "acme" ≠ "" ∧ ("" = "" ∨ "" = "acme").
Proof.
  refine (validated_jwt_is_signed toy_public toy_public toy_config toy_service "" (6 * second) toy_token
            (mkPrincipal "p1" "acme" "u1" ["sync:read"] PrincipalJWT) _ _ _); [reflexivity|done|vm_compute; reflexivity].
Defined.
