(* ===== verification/Http.v ===== *)
(** * HTTP middleware: [internal/api/middleware]

    A handler answers a request with the calls it makes on the response writer, in order, a new world and a panic
    if it ends in one; [observe] is what the server sends for such calls.  A middleware is a function from handlers
    to handlers.  JSON bodies stay Go values.  The handler of a request is one step: buckets shared by
    requests that run at the same time are not interleaved. *)

From Stdlib Require Import Ascii.
From S2P Require Import Prelude GoStrings Errors Float Value JsonDecode Urls Encoding.

(** ** Requests and responses *)

(** The values the packages keep in a context. *)
Record Ctx := mkCtx { ctx_TenantID : string; ctx_UserID : string; ctx_CorrelationID : string; ctx_Scopes : list string }.

Definition WithTenantID (c : Ctx) (t : string) : Ctx := mkCtx t (ctx_UserID c) (ctx_CorrelationID c) (ctx_Scopes c).
Definition WithUserID (c : Ctx) (u : string) : Ctx := mkCtx (ctx_TenantID c) u (ctx_CorrelationID c) (ctx_Scopes c).
Definition WithCorrelationID (c : Ctx) (i : string) : Ctx := mkCtx (ctx_TenantID c) (ctx_UserID c) i (ctx_Scopes c).
Definition withScopes (c : Ctx) (s : list string) : Ctx := mkCtx (ctx_TenantID c) (ctx_UserID c) (ctx_CorrelationID c) s.
Definition TenantIDFrom (c : Ctx) : string := ctx_TenantID c.
Definition UserIDFrom (c : Ctx) : string := ctx_UserID c.
Definition CorrelationIDFrom (c : Ctx) : string := ctx_CorrelationID c.
Definition ScopesFrom (c : Ctx) : list string := ctx_Scopes c.

(** Headers have their first values, under canonical names. *)
Record Request := mkRequest {
  req_Method : string; req_Path : string; req_RawQuery : string; req_Header : gmap string string;
  req_RemoteAddr : string; req_Body : string; req_Ctx : Ctx
}.
Definition header (r : Request) (k : string) : string := default "" (req_Header r !! k).
Definition WithContext (r : Request) (c : Ctx) : Request :=
  mkRequest (req_Method r) (req_Path r) (req_RawQuery r) (req_Header r) (req_RemoteAddr r) (req_Body r) c.

Inductive body (P : Type) :=
| ErrorBody (code message : string) (details : list ValidationError)    (** [{"error": ...}] *)
| DataBody (data : P)                                                   (** [{"data": ...}] *)
| PageBody (data : P) (total page pageSize pages : Z)
| TextBody (text : string)
| ValueBody (value : P).                                                (** the value by itself *)
Arguments ErrorBody {P}. Arguments DataBody {P}. Arguments PageBody {P}. Arguments TextBody {P}. Arguments ValueBody {P}.

(** The calls on the response writer. *)
Inductive event (P : Type) := SetHeader (k v : string) | WriteHeader (status : Z) | Write (b : body P).
Arguments SetHeader {P}. Arguments WriteHeader {P}. Arguments Write {P}.

(** What is sent: the first status counts, 200 if something is written before there is one; headers are those at that time. *)
Record response (P : Type) := mkResponse { w_Header : gmap string string; w_Sent : option (Z * gmap string string); w_Body : list (body P) }.
Arguments mkResponse {P}. Arguments w_Header {P}. Arguments w_Sent {P}. Arguments w_Body {P}.

Definition apply_event {P} (w : response P) (e : event P) : response P :=
  match e with
  | SetHeader k v => mkResponse (<[k := v]> (w_Header w)) (w_Sent w) (w_Body w)
  | WriteHeader s => mkResponse (w_Header w) (match w_Sent w with None => Some (s, w_Header w) | x => x end) (w_Body w)
  | Write b => mkResponse (w_Header w) (match w_Sent w with None => Some (200, w_Header w) | x => x end) (w_Body w ++ [b])
  end.
Definition observe {P} (es : list (event P)) : response P := foldl apply_event (mkResponse ∅ None []) es.

(** The status a recorder sees, [http.StatusOK] as long as there is none. *)
Fixpoint statusCode {P} (es : list (event P)) : Z :=
  match es with [] => 200 | SetHeader _ _ :: es => statusCode es | WriteHeader s :: _ => s | Write _ :: _ => 200 end.

Definition json_type : string := "application/json; charset=utf-8".

(** A status with an error body. *)
Definition error_events {P} (status : Z) (message code : string) : list (event P) :=
  [SetHeader "Content-Type" json_type; WriteHeader status; Write (ErrorBody code message [])].
Definition writeAuthError {P} (status : Z) (message code : string) : list (event P) := error_events status message code.

Definition handler (P W : Type) : Type := Request → W → list (event P) * W * option string.
Definition middleware (P W : Type) : Type := handler P W → handler P W.

(** ** Authentication *)

Definition lower_byte (c : ascii) : ascii := if (65 <=? byte_val c) && (byte_val c <=? 90) then byte_chr (byte_val c + 32) else c.

(** [strings.EqualFold] with a word of letters other than [k] and [s], which alone fold with runes outside of ASCII. *)
Definition EqualFold (s word : string) : bool := bool_decide (map lower_byte (bytes_of s) = map lower_byte (bytes_of word)).

(** The token of an [Authorization] header. *)
Definition bearer (authHeader : string) : option string :=
  match SplitN2 authHeader " " with
  | [scheme; token] => if EqualFold scheme "Bearer" then Some token else None
  | _ => None
  end.

Definition authenticated (r : Request) (tenantID userID : string) (scopes : list string) : Request :=
  WithContext r (withScopes (WithUserID (WithTenantID (req_Ctx r) tenantID) userID) scopes).

Section auth.
Context {P W : Type}.

Definition APIKeyAuth (Validate : Ctx → string → res (string * string * list string)) : middleware P W := λ next r w,
  let authHeader := header r "Authorization" in
  if bool_decide (authHeader = "") then (writeAuthError 401 "missing Authorization header" "AUTH_MISSING", w, None)
  else match bearer authHeader with
       | None => (writeAuthError 401 "invalid Authorization format, expected: Bearer <token>" "AUTH_INVALID_FORMAT", w, None)
       | Some token =>
           match Validate (req_Ctx r) token with
           | Err _ => (writeAuthError 401 "invalid API key" "AUTH_INVALID_KEY", w, None)
           | Panic m => ([], w, Some m)
           | Ok (tenantID, userID, scopes) => next (authenticated r tenantID userID scopes) w
           end
       end.

Record JWTConfig := mkJWT { Secret : string; Issuer : string; Audience : string; ClockSkew : Z }.
Record jwtHeader := mkHeader { Alg : string; Typ : string }.
Record jwtClaims := mkJwtClaims {
  Sub : string; TenantID : string; Iss : string; Aud : string; Exp : Z; Iat : Z; j_Scopes : list string
}.

Context (type_error : string → json → error) (json_doc : string → RawMessage) (hmac : string → string → list ascii).

Definition header_member (acc : jwtHeader * option error) (e : string * json) : jwtHeader * option error :=
  let '(h, err) := acc in
  let '(k, j) := e in
  if key_matches "alg" k then let '(x, err) := string_member type_error k (Alg h) j err in (mkHeader x (Typ h), err)
  else if key_matches "typ" k then let '(x, err) := string_member type_error k (Typ h) j err in (mkHeader (Alg h) x, err)
  else acc.

Definition claims_member (acc : jwtClaims * option error) (e : string * json) : jwtClaims * option error :=
  let '(c, err) := acc in
  let '(k, j) := e in
  let 'mkJwtClaims s t i a ex ia sc := c in
  if key_matches "sub" k then let '(x, err) := string_member type_error k s j err in (mkJwtClaims x t i a ex ia sc, err)
  else if key_matches "tenant_id" k then let '(x, err) := string_member type_error k t j err in (mkJwtClaims s x i a ex ia sc, err)
  else if key_matches "iss" k then let '(x, err) := string_member type_error k i j err in (mkJwtClaims s t x a ex ia sc, err)
  else if key_matches "aud" k then let '(x, err) := string_member type_error k a j err in (mkJwtClaims s t i x ex ia sc, err)
  else if key_matches "exp" k then let '(x, err) := int_member type_error k ex j err in (mkJwtClaims s t i a x ia sc, err)
  else if key_matches "iat" k then let '(x, err) := int_member type_error k ia j err in (mkJwtClaims s t i a ex x sc, err)
  else if key_matches "scopes" k then
    let '(x, err) := list_member type_error (string_member type_error k "") k sc j err in (mkJwtClaims s t i a ex ia x, err)
  else acc.

Definition unmarshal_header (bs : list ascii) : res jwtHeader :=
  unmarshal_struct type_error (mkHeader "" "") header_member (json_doc (of_bytes bs)).
Definition unmarshal_claims (bs : list ascii) : res jwtClaims :=
  unmarshal_struct type_error (mkJwtClaims "" "" "" "" 0 0 []) claims_member (json_doc (of_bytes bs)).

(** [time.Duration.Seconds]. *)
Definition Seconds (d : Z) : float64 := f_add (f_of_Z (Z.quot d second)) (f_div (f_of_Z (Z.rem d second)) (f_of_Z 1000000000)).

Definition errInvalidToken {A} (msg : string) : res A := Err (ErrText msg).

(** The checks of the claims; [now] is a time. *)
Definition check_claims (cfg : JWTConfig) (now : Z) (claims : jwtClaims) : res jwtClaims :=
  let skewSec := f_to_i64 (Seconds (ClockSkew cfg)) in
  if (0 <? Exp claims) && (Exp claims +ᵢ skewSec <? now / second) then errInvalidToken "token has expired"
  else if negb (bool_decide (Issuer cfg = "")) && negb (bool_decide (Iss claims = Issuer cfg)) then errInvalidToken "invalid issuer"
  else if negb (bool_decide (Audience cfg = "")) && negb (bool_decide (Aud claims = Audience cfg)) then errInvalidToken "invalid audience"
  else Ok claims.

Definition validateJWT (tokenStr : string) (cfg : JWTConfig) (now : Z) : res jwtClaims :=
  match Split tokenStr "." with
  | [h; p; s] =>
      match Base64Decode h with
      | None => errInvalidToken "invalid header encoding"
      | Some headerBytes =>
          match unmarshal_header headerBytes with
          | Err _ => errInvalidToken "invalid header JSON"
          | Panic m => Panic m
          | Ok hd =>
              if negb (bool_decide (Alg hd = "HS256")) then errInvalidToken ("unsupported algorithm: " +:+ Alg hd)
              else match Base64Decode p with
                   | None => errInvalidToken "invalid payload encoding"
                   | Some payloadBytes =>
                       match Base64Decode s with
                       | None => errInvalidToken "invalid signature encoding"
                       | Some signatureBytes =>
                           if negb (bool_decide (signatureBytes = hmac (Secret cfg) (h +:+ "." +:+ p)))
                           then errInvalidToken "signature verification failed"
                           else match unmarshal_claims payloadBytes with
                                | Err _ => errInvalidToken "invalid claims JSON"
                                | Panic m => Panic m
                                | Ok claims => check_claims cfg now claims
                                end
                       end
                   end
          end
      end
  | _ => errInvalidToken "malformed JWT: expected 3 segments"
  end.

Definition JWTAuth (clock : W → Z) (cfg : JWTConfig) : middleware P W := λ next r w,
  let authHeader := header r "Authorization" in
  if bool_decide (authHeader = "") then (writeAuthError 401 "missing Authorization header" "AUTH_MISSING", w, None)
  else match bearer authHeader with
       | None => (writeAuthError 401 "invalid Authorization format" "AUTH_INVALID_FORMAT", w, None)
       | Some token =>
           match validateJWT token cfg (clock w) with
           | Err e => (writeAuthError 401 ("invalid JWT token: " +:+ Error e) "AUTH_INVALID_JWT", w, None)
           | Panic m => ([], w, Some m)
           | Ok claims => next (authenticated r (TenantID claims) (Sub claims) (j_Scopes claims)) w
           end
       end.

(** ** Tenants *)

Definition TenantIsolation : middleware P W := λ next r w,
  if bool_decide (TenantIDFrom (req_Ctx r) = "")
  then (error_events 403 "tenant context is required for this operation" "TENANT_REQUIRED", w, None)
  else next r w.

Definition TenantHeader : middleware P W := λ next r w,
  let tenantID := header r "X-Tenant-ID" in
  next (if bool_decide (tenantID = "") then r else WithContext r (WithTenantID (req_Ctx r) tenantID)) w.

(** ** Recovery and logging *)

(** [log_panic] records the panic; the answer comes after whatever was written before. *)
Definition Recovery (log_panic : string → Request → W → W) : middleware P W := λ next r w,
  let '(es, w, out) := next r w in
  match out with
  | None => (es, w, None)
  | Some m => (es ++ error_events 500 "an unexpected error occurred" "INTERNAL_ERROR", log_panic m r w, None)
  end.

Record log_entry := mkEntry {
  le_status : Z; le_bytes : Z; le_correlation : string; le_remote : string; le_tenant : string; le_user : string;
  le_query : string; le_level : Z
}.

Definition level_of (status : Z) : Z := if 500 <=? status then 8 else if 400 <=? status then 4 else 0.
End auth.

(** The address before the first comma. *)
Fixpoint before_comma (bs : list ascii) : list ascii :=
  match bs with [] => [] | c :: bs => if decide (c = ","%char) then [] else c :: before_comma bs end.
Definition realIP (r : Request) : string :=
  let xff := header r "X-Forwarded-For" in
  if bool_decide (xff = "") then
    let xri := header r "X-Real-IP" in
    if bool_decide (xri = "") then req_RemoteAddr r else xri
  else of_bytes (before_comma (bytes_of xff)).

Section logging.
Context {P W : Type} (body_size : body P → Z) (log : log_entry → W → W).

Fixpoint bytesWritten (es : list (event P)) : Z :=
  match es with [] => 0 | Write b :: es => body_size b + bytesWritten es | _ :: es => bytesWritten es end.

(** A tenant, a user or a query that is empty is not an attribute of the entry.  A handler that panics is not logged. *)
Definition RequestLogger (new_uuid : W → string * W) : middleware P W := λ next r w,
  let '(correlationID, w) := if bool_decide (header r "X-Correlation-ID" = "") then new_uuid w else (header r "X-Correlation-ID", w) in
  let r := WithContext r (WithCorrelationID (req_Ctx r) correlationID) in
  let '(es, w, out) := next r w in
  let first := SetHeader "X-Correlation-ID" correlationID in
  match out with
  | Some m => (first :: es, w, Some m)
  | None =>
      (first :: es,
       log (mkEntry (statusCode es) (bytesWritten es) correlationID (realIP r) (TenantIDFrom (req_Ctx r)) (UserIDFrom (req_Ctx r))
              (req_RawQuery r) (level_of (statusCode es))) w, None)
  end.
End logging.

(** ** Rate limits *)

Record tokenBucket := mkBucket { tokens : float64; maxTokens : float64; refillRate : float64; lastRefill : Z }.

Definition newTokenBucket (requestsPerMinute now : Z) : tokenBucket :=
  mkBucket (f_of_Z requestsPerMinute) (f_of_Z requestsPerMinute) (f_div (f_of_Z requestsPerMinute) (f_of_Z 60)) now.

Definition bucket_allow (tb : tokenBucket) (now : Z) : bool * float64 * tokenBucket :=
  let elapsed := Seconds (time_sub now (lastRefill tb)) in
  let t := f_min (maxTokens tb) (f_add (tokens tb) (f_mul elapsed (refillRate tb))) in
  if f_leb (f_of_Z 1) t
  then (true, f_of_Z 0, mkBucket (f_sub t (f_of_Z 1)) (maxTokens tb) (refillRate tb) now)
  else (false, f_div (f_sub (f_of_Z 1) t) (refillRate tb), mkBucket t (maxTokens tb) (refillRate tb) now).

Abbreviation rateLimiterStore := (gmap string tokenBucket).

Definition getBucket (s : rateLimiterStore) (requestsPerMinute now : Z) (tenantID : string) : tokenBucket * rateLimiterStore :=
  match s !! tenantID with
  | Some tb => (tb, s)
  | None => let tb := newTokenBucket requestsPerMinute now in (tb, <[tenantID := tb]> s)
  end.

(** One tick of the cleanup. *)
Definition cleanup (s : rateLimiterStore) (now : Z) : rateLimiterStore :=
  filter (λ e, ¬ (600 * second < time_sub now (lastRefill e.2))) s.

Definition ceil_int (x : float64) : Z :=
  match f_ceil x with Some z => if decide (in_i64 z) then z else int64_min | None => int64_min end.

Section rate.
Context {P W : Type} (clock : W → Z) (store : W → rateLimiterStore) (with_store : rateLimiterStore → W → W).

Definition limit_key (r : Request) : string :=
  if bool_decide (TenantIDFrom (req_Ctx r) = "") then realIP r else TenantIDFrom (req_Ctx r).

Definition RateLimit (requestsPerMinute : Z) : middleware P W := λ next r w,
  let key := limit_key r in
  let '(bucket, s) := getBucket (store w) requestsPerMinute (clock w) key in
  let '(allowed, retryAfter, bucket) := bucket_allow bucket (clock w) in
  let w := with_store (<[key := bucket]> s) w in
  let remaining := f_to_i64 (f_max (f_of_Z 0) (tokens bucket)) in
  let headers := [SetHeader "X-RateLimit-Limit" (pretty requestsPerMinute); SetHeader "X-RateLimit-Remaining" (pretty remaining)] in
  if allowed : bool then
    let '(es, w, out) := next r w in (headers ++ es, w, out)
  else
    let retrySeconds := Z.max 1 (ceil_int retryAfter) in
    (headers ++ SetHeader "Retry-After" (pretty retrySeconds) ::
       error_events 429 ("rate limit exceeded, retry after " +:+ pretty retrySeconds +:+ " seconds") "RATE_LIMITED", w, None).
End rate.

(** ** Tokens of the middleware *)

Section tokens.
Context (type_error : string → json → error) (json_doc : string → RawMessage) (hmac : string → string → list ascii).
Abbreviation validate := (validateJWT type_error json_doc hmac).

(** The claims pass: they have not expired with the clock skew, and the issuer and the audience are the ones asked for. *)
Definition claims_pass (cfg : JWTConfig) (now : Z) (c : jwtClaims) : Prop :=
  (Exp c ≤ 0 ∨ now / second ≤ Exp c +ᵢ f_to_i64 (Seconds (ClockSkew cfg))) ∧
  (Issuer cfg = "" ∨ Iss c = Issuer cfg) ∧ (Audience cfg = "" ∨ Aud c = Audience cfg).

Lemma check_claims_iff cfg now c c' : check_claims cfg now c = Ok c' ↔ c' = c ∧ claims_pass cfg now c.
Proof.
  unfold check_claims, claims_pass, errInvalidToken. destruct (Z.ltb_spec 0 (Exp c)), (Z.ltb_spec (Exp c +ᵢ f_to_i64 (Seconds (ClockSkew cfg))) (now / second));
    cbn; repeat case_bool_decide; cbn; naive_solver lia.
Qed.

(** A token is accepted exactly when it has three segments, a header that names HS256, the MAC of the first two segments
    under the secret, and claims that pass. *)
Theorem validateJWT_iff tok cfg now c :
  validate tok cfg now = Ok c ↔
  ∃ h p s hb pb hd, Split tok "." = [h; p; s] ∧ Base64Decode h = Some hb ∧ Base64Decode p = Some pb ∧
    unmarshal_header type_error json_doc hb = Ok hd ∧ Alg hd = "HS256" ∧ Base64Decode s = Some (hmac (Secret cfg) (h +:+ "." +:+ p)) ∧
    unmarshal_claims type_error json_doc pb = Ok c ∧ claims_pass cfg now c.
Proof.
  unfold validateJWT. split.
  - destruct (Split tok ".") as [|h [|p [|s [|]]]] eqn:Hs; try done.
    destruct (Base64Decode h) as [hb|] eqn:Hh; [|done].
    destruct (unmarshal_header _ _ hb) as [hd|e|m] eqn:Hhd; [|done..]. case_bool_decide as Halg; [|done]. cbn.
    destruct (Base64Decode p) as [pb|] eqn:Hp; [|done]. destruct (Base64Decode s) as [sb|] eqn:Hsb; [|done].
    case_bool_decide as Hmac; [|done]. cbn. destruct (unmarshal_claims _ _ pb) as [c'|e|m] eqn:Hc; [|done..].
    intros [-> Hpass]%check_claims_iff. subst sb. eauto 15.
  - intros (h & p & s & hb & pb & hd & Hs & Hh & Hp & Hhd & Halg & Hsb & Hc & Hpass). rewrite Hs, Hh, Hhd, Halg. cbn.
    rewrite Hp, Hsb, !bool_decide_eq_true_2 by done. cbn. rewrite Hc. by apply check_claims_iff.
Qed.

(** A token over a header and claims. *)
Definition signed (secret : string) (hb pb : list ascii) : string :=
  let input := Base64Encode hb +:+ "." +:+ Base64Encode pb in input +:+ "." +:+ Base64Encode (hmac secret input).

Lemma Split_signed secret hb pb :
  Split (signed secret hb pb) "." =
    [Base64Encode hb; Base64Encode pb; Base64Encode (hmac secret (Base64Encode hb +:+ "." +:+ Base64Encode pb))].
Proof.
  set (m := Base64Encode (hmac _ _)).
  assert (Hj : signed secret hb pb = Join [Base64Encode hb; Base64Encode pb; m] ".").
  { unfold signed. fold m. unfold Join. cbn [String.concat]. by rewrite !string_app_assoc. }
  rewrite Hj. apply Split_Join; [done|]. repeat constructor; apply Base64Encode_no_dot.
Qed.

(** A token that was signed with the secret gives its claims as long as they pass; with another secret it is accepted
    only where the MACs agree. *)
Theorem signed_token_accepted cfg now secret hb pb hd c :
  unmarshal_header type_error json_doc hb = Ok hd → Alg hd = "HS256" → unmarshal_claims type_error json_doc pb = Ok c →
  let input := Base64Encode hb +:+ "." +:+ Base64Encode pb in
  validate (signed secret hb pb) cfg now = Ok c ↔ hmac secret input = hmac (Secret cfg) input ∧ claims_pass cfg now c.
Proof.
  intros Hhd Halg Hc input. rewrite validateJWT_iff. rewrite Split_signed. split.
  - intros (h & p & s & hb' & pb' & hd' & [= <- <- <-] & Hh & Hp & _ & _ & Hs & Hc' & Hpass).
    rewrite Base64Decode_Encode in Hs. injection Hs as Hs. done.
  - intros [Hmac Hpass]. do 3 eexists. exists hb, pb, hd. rewrite !Base64Decode_Encode. split_and!; try done.
    f_equal. exact Hmac.
Qed.
End tokens.

(** ** Handlers behind the middleware *)

Lemma observe_app {P} (a b : list (event P)) : observe (a ++ b) = foldl apply_event (observe a) b.
Proof. unfold observe. by rewrite foldl_app. Qed.

(** A status that was sent stays. *)
Lemma sent_stays {P} (es : list (event P)) w x : w_Sent w = Some x → w_Sent (foldl apply_event w es) = Some x.
Proof.
  revert w. induction es as [|e es IH]; intros w Hw; [done|]. apply IH. destruct e; cbn; by rewrite Hw.
Qed.

(** What a recorder saw is what was sent. *)
Lemma statusCode_sent {P} (es : list (event P)) : statusCode es = match w_Sent (observe es) with Some (s, _) => s | None => 200 end.
Proof.
  unfold observe. generalize (∅ : gmap string string) as h, (@nil (body P)) as b. induction es as [|e es IH]; intros h b; [done|].
  destruct e as [k v|s|x]; cbn [foldl apply_event w_Header w_Sent w_Body statusCode]; [apply IH|..].
  - by rewrite (sent_stays es _ (s, h)).
  - by rewrite (sent_stays es _ (200, h)).
Qed.

Section behind.
Context {P W : Type} (next : handler P W).

(** Nothing panics out of the recovery; a handler that panics before it sends a status is answered with status 500, one that
    panics later keeps its status and headers, and the error document follows what it wrote. *)
Theorem Recovery_spec (log_panic : string → Request → W → W) r w es w' out :
  next r w = (es, w', out) →
  ∃ es', Recovery log_panic next r w = (es', match out with None => w' | Some m => log_panic m r w' end, None) ∧
    (out = None → es' = es) ∧
    (∀ m, out = Some m →
       w_Sent (observe es') = match w_Sent (observe es) with
                              | Some x => Some x
                              | None => Some (500, <["Content-Type" := json_type]> (w_Header (observe es)))
                              end ∧
       w_Body (observe es') = w_Body (observe es) ++ [ErrorBody "INTERNAL_ERROR" "an unexpected error occurred" []]).
Proof.
  intros Hn. unfold Recovery. rewrite Hn. destruct out as [m|].
  - eexists. split; [done|]. split; [done|]. intros m' [= <-]. rewrite observe_app. cbn. by destruct (w_Sent (observe es)).
  - eexists. split; [done|]. done.
Qed.

Context (type_error : string → json → error) (json_doc : string → RawMessage) (hmac : string → string → list ascii).

Lemma unmarshal_struct_total {A} (zero : A) member raw m : unmarshal_struct type_error zero member raw ≠ Panic m.
Proof. unfold unmarshal_struct. destruct raw; [done..|]. by destruct (struct_member _ _ _ _ _ _) as [? []]. Qed.

Lemma validateJWT_total tok cfg now m : validateJWT type_error json_doc hmac tok cfg now ≠ Panic m.
Proof.
  unfold validateJWT, errInvalidToken.
  repeat (first [done | case_match]); unfold check_claims, errInvalidToken in *; repeat case_match; try done;
    match goal with H : _ = Panic _ |- _ => exfalso; revert H; unfold unmarshal_header, unmarshal_claims; apply unmarshal_struct_total end.
Qed.

(** The handler behind the token middleware runs exactly for the requests with a bearer token that is accepted, and runs
    under the tenant, the user and the scopes of its claims; every other request is answered with status 401 and
    leaves the world alone.  This holds at every world with the time [now]. *)
Lemma JWTAuth_cases now cfg r :
  (∃ tok c, bearer (header r "Authorization") = Some tok ∧ validateJWT type_error json_doc hmac tok cfg now = Ok c ∧
     ∀ w, JWTAuth type_error json_doc hmac (λ _, now) cfg next r w = next (authenticated r (TenantID c) (Sub c) (j_Scopes c)) w) ∨
  ((∀ tok c, bearer (header r "Authorization") = Some tok → validateJWT type_error json_doc hmac tok cfg now ≠ Ok c) ∧
   ∃ message code, ∀ w, JWTAuth type_error json_doc hmac (λ _, now) cfg next r w = (writeAuthError 401 message code, w, None)).
Proof.
  unfold JWTAuth. case_bool_decide as Hempty.
  - right. split; [|eauto]. rewrite Hempty. intros tok c Hb. vm_compute in Hb. done.
  - destruct (bearer _) as [tok|]; [|right; split; [done|eauto]].
    destruct (validateJWT _ _ _ tok cfg now) as [c|e|m] eqn:Hv.
    + left. eauto.
    + right. split; [intros ? ? [= <-]; by rewrite Hv|eauto].
    + by apply validateJWT_total in Hv.
Qed.

(** The same for the key middleware, of any validator that does not panic. *)
Theorem APIKeyAuth_guard Validate r w :
  (∀ c k m, Validate c k ≠ Panic m) →
  (∃ tok t u sc, bearer (header r "Authorization") = Some tok ∧ Validate (req_Ctx r) tok = Ok (t, u, sc) ∧
     APIKeyAuth Validate next r w = next (authenticated r t u sc) w) ∨
  ((∀ tok x, bearer (header r "Authorization") = Some tok → Validate (req_Ctx r) tok ≠ Ok x) ∧
   ∃ message code, APIKeyAuth Validate next r w = (writeAuthError 401 message code, w, None)).
Proof.
  intros Hv. unfold APIKeyAuth. case_bool_decide as Hempty.
  - right. split; [|eauto]. rewrite Hempty. intros tok c Hb. vm_compute in Hb. done.
  - destruct (bearer _) as [tok|]; [|right; split; [done|eauto]].
    destruct (Validate (req_Ctx r) tok) as [[[t u] sc]|e|m] eqn:Hval.
    + left. eauto 8.
    + right. split; [intros ? ? [= <-]; by rewrite Hval|eauto].
    + by apply Hv in Hval.
Qed.

(** Whoever authenticated the request, the entry that the logger writes has the tenant and the user of the
    context the request came with, and the status that is sent. *)
Theorem logged_before_auth (body_size : body P → Z) log new_uuid r w es w' :
  req_Ctx r = mkCtx "" "" "" [] →
  RequestLogger body_size log new_uuid next r w = (es, w', None) →
  ∃ e w1, w' = log e w1 ∧ le_tenant e = "" ∧ le_user e = "" ∧
    le_status e = match w_Sent (observe es) with Some (s, _) => s | None => 200 end.
Proof.
  intros Hctx. unfold RequestLogger.
  set (p := if bool_decide (header r "X-Correlation-ID" = "") then new_uuid w else (header r "X-Correlation-ID", w)).
  destruct p as [i w0]. destruct (next _ w0) as [[es1 w1] [m|]] eqn:Hn; [done|]. intros [= <- <-].
  eexists _, w1. split; [done|]. cbn. rewrite Hctx. do 2 (split; [done|]).
  exact (statusCode_sent (SetHeader "X-Correlation-ID" i :: es1)).
Qed.
End behind.

(** A header with the scheme in any case. *)
Lemma bearer_header scheme tok :
  EqualFold scheme "Bearer" = true → " "%char ∉ bytes_of scheme → bearer (scheme +:+ String " " tok) = Some tok.
Proof. intros He Hs. unfold bearer. rewrite SplitN2_sep by done. by rewrite He. Qed.

(** ** Examples *)

(** For examples: JSON texts by name, and the MAC of a text is the secret before it. *)
Definition toy_doc (s : string) : RawMessage :=
  if bool_decide (s = "H") then RawDoc (JObj [("alg", JStr "HS256"); ("typ", JStr "JWT")])
  else if bool_decide (s = "C") then RawDoc (JObj [("sub", JStr "u1"); ("tenant_id", JStr "acme"); ("exp", int_json 100); ("scopes", JArr [JStr "a"])])
  else if bool_decide (s = "N") then RawDoc (JObj [("tenant_id", JStr "acme"); ("exp", int_json (-5))])
  else RawInvalid "invalid character".
Definition toy_type_error (k : string) (j : json) : error := ErrText k.
Definition toy_hmac (secret text : string) : list ascii := bytes_of (secret +:+ text).
Definition toy_jwt_config : JWTConfig := mkJWT "s3cret" "" "" (30 * second).
Definition toy_claims : jwtClaims := mkJwtClaims "u1" "acme" "" "" 100 0 ["a"].
Definition claims_token : string := signed toy_hmac "s3cret" (bytes_of "H") (bytes_of "C").

Lemma signed_token_accepted_witness :
  validateJWT toy_type_error toy_doc toy_hmac claims_token toy_jwt_config (130 * second) = Ok toy_claims.
Proof.
  refine (proj2 (signed_token_accepted toy_type_error toy_doc toy_hmac toy_jwt_config (130 * second) "s3cret" (bytes_of "H") (bytes_of "C")
            (mkHeader "HS256" "JWT") toy_claims _ _ _) _).
  - vm_compute. reflexivity.
  - reflexivity.
  - vm_compute. reflexivity.
  - split; [reflexivity|]. split; [right; vm_compute; discriminate|]. split; by left.
Defined.

(** A token whose expiry is not positive is accepted at any time. *)
Example never_expires :
  validateJWT toy_type_error toy_doc toy_hmac (signed toy_hmac "s3cret" (bytes_of "H") (bytes_of "N")) toy_jwt_config int64_max =
    Ok (mkJwtClaims "" "acme" "" "" (-5) 0 []).
Proof. vm_compute. reflexivity. Qed.

Lemma Recovery_spec_witness :
  ∃ es', Recovery (λ _ _ w, w + 1) (λ _ w, ([SetHeader "a" "b"], w, Some "boom")) (mkRequest "GET" "/" "" ∅ "" "" (mkCtx "" "" "" [])) 0 =
           (es', 1, None) ∧
    (Some "boom" = None → es' = [SetHeader "a" "b"]) ∧
    (∀ m, Some "boom" = Some m →
       w_Sent (observe es') = Some (500, <["Content-Type" := json_type]> {["a" := "b"]}) ∧
       w_Body (observe es') = [] ++ [@ErrorBody unit "INTERNAL_ERROR" "an unexpected error occurred" []]).
Proof.
  refine (Recovery_spec (λ _ w, ([SetHeader "a" "b"], w, Some "boom")) (λ _ _ w, w + 1) _ 0 [SetHeader "a" "b"] 0 (Some "boom") _). reflexivity.
Defined.

Lemma APIKeyAuth_guard_witness :
  let V (_ : Ctx) (k : string) : res (string * string * list string) := if bool_decide (k = "k") then Ok ("acme", "", []) else Err (ErrText "no") in
  let next : handler unit Z := λ r w, ([WriteHeader 200], w + 1, None) in
  let r := mkRequest "GET" "/" "" {["Authorization" := "bearer k"]} "" "" (mkCtx "" "" "" []) in
  (∃ tok t u sc, bearer (header r "Authorization") = Some tok ∧ V (req_Ctx r) tok = Ok (t, u, sc) ∧
     APIKeyAuth V next r 0 = next (authenticated r t u sc) 0) ∨
  ((∀ tok x, bearer (header r "Authorization") = Some tok → V (req_Ctx r) tok ≠ Ok x) ∧
   ∃ message code, APIKeyAuth V next r 0 = (writeAuthError 401 message code, 0, None)).
Proof.
  intros V next r. apply (APIKeyAuth_guard next V r 0). intros c k m. unfold V. case_bool_decide; discriminate.
Defined.

Lemma logged_before_auth_witness :
  let next : handler unit (list log_entry) := JWTAuth toy_type_error toy_doc toy_hmac (λ _, 0) toy_jwt_config (λ r w, ([WriteHeader 201], w, None)) in
  let r := mkRequest "GET" "/" "" {["Authorization" := "Bearer " +:+ claims_token]} "10.0.0.1:80" "" (mkCtx "" "" "" []) in
  ∃ e w1, [mkEntry 201 0 "id" "10.0.0.1:80" "" "" "" 0] = e :: w1 ∧ le_tenant e = "" ∧ le_user e = "" ∧ le_status e = 201.
Proof.
  intros next r.
  refine (logged_before_auth next (λ _, 0) cons (λ w, ("id", w)) r [] [SetHeader "X-Correlation-ID" "id"; WriteHeader 201] _ _ _).
  - reflexivity.
  - vm_compute. reflexivity.
Defined.

(** Three requests a minute: three at once, and the next one after twenty seconds. *)
Fixpoint run_bucket (tb : tokenBucket) (times : list Z) : list bool :=
  match times with [] => [] | t :: ts => let '(ok, _, tb) := bucket_allow tb t in ok :: run_bucket tb ts end.
Example bucket_burst :
  run_bucket (newTokenBucket 3 0) [0; 0; 0; 0; 19 * second; 21 * second; 21 * second] = [true; true; true; false; false; true; false].
Proof. vm_compute. reflexivity. Qed.
