(* ===== verification/OAuth.v ===== *)
(** * OAuth flows: [internal/embedded/oauth/manager.go]

    The authorization code flow of embedded integrations.  The critical sections of the methods are functions
    of the manager; what a method does outside of them (the token request) is a function of the world.  The
    provider is the function [post]; random bytes are the function [rand].  Times are nanoseconds; a stored
    token set may be nil, as its pointer. *)

From Stdlib Require Import Ascii.
From S2P Require Import Prelude GoStrings Errors Value JsonDecode Urls Encoding.

(** ** Data *)

Record OAuthConfig := mkOAuthConfig {
  ClientID : string; ClientSecret : string; RedirectURI : string; Scopes : list string; AuthURL : string; TokenURL : string
}.

Record OAuthTokens := mkOAuthTokens {
  AccessToken : string; t_RefreshToken : string; TokenType : string; ExpiresAt : Z; t_Scopes : list string; ConnectorType : string
}.

Definition IsExpired (t : OAuthTokens) (now : Z) : bool := ExpiresAt t + -60 * second <? now.

Record pendingFlow := mkPendingFlow { pf_state : string; connectorType : string; pf_config : OAuthConfig; createdAt : Z }.

Record OAuthManager := mkOAuthManager {
  pendingFlows : gmap string pendingFlow;
  tokens : gmap string (option OAuthTokens);
  configs : gmap string OAuthConfig
}.

Definition NewOAuthManager : OAuthManager := mkOAuthManager ∅ ∅ ∅.

Definition with_flows (om : OAuthManager) (f : gmap string pendingFlow) : OAuthManager := mkOAuthManager f (tokens om) (configs om).

Definition RegisterConnectorConfig (om : OAuthManager) (connectorType : string) (config : OAuthConfig) : OAuthManager :=
  mkOAuthManager (pendingFlows om) (tokens om) (<[connectorType := config]> (configs om)).
Definition GetConfig (om : OAuthManager) (connectorType : string) : option OAuthConfig := configs om !! connectorType.
Definition StoreTokens (om : OAuthManager) (integrationID : string) (t : option OAuthTokens) : OAuthManager :=
  mkOAuthManager (pendingFlows om) (<[integrationID := t]> (tokens om)) (configs om).
Definition GetTokens (om : OAuthManager) (integrationID : string) : option (option OAuthTokens) := tokens om !! integrationID.

(** ** Starting a flow *)

Definition flow_window : Z := 600 * second.

Definition generateState (rand : nat → res (list ascii)) : res string := bs ← rand 32%nat; Ok (EncodeToString bs).

Definition add_flow (om : OAuthManager) (flow : pendingFlow) : OAuthManager :=
  with_flows om (<[pf_state flow := flow]> (pendingFlows om)).

Section start.
Context `{UrlLib} (parse_error : string → error).

Definition auth_query (config : OAuthConfig) (state : string) (q : Values) : Values :=
  let q := Values_Set q "client_id" (ClientID config) in
  let q := Values_Set q "redirect_uri" (RedirectURI config) in
  let q := Values_Set q "response_type" "code" in
  let q := Values_Set q "state" state in
  if (0 <? length (Scopes config))%nat then Values_Set q "scope" (Join (Scopes config) " ") else q.

(** The URL to send the user to. *)
Definition authorization_url (config : OAuthConfig) (state : string) : res string :=
  match Parse (AuthURL config) with
  | None => Err (ErrWrapf "parse auth URL" (parse_error (AuthURL config)))
  | Some u => Ok (URL_String (with_query u (auth_query config state (Query u))))
  end.

(** The third component: whether a cleanup is started, which runs in its own goroutine. *)
Definition StartOAuthFlow (om : OAuthManager) (rand : nat → res (list ascii)) (now : Z) (ctype : string) (config : OAuthConfig) :
    res string * OAuthManager * bool :=
  if bool_decide (AuthURL config = "") then (Err (ErrText "auth URL is required"), om, false)
  else if bool_decide (ClientID config = "") then (Err (ErrText "client ID is required"), om, false)
  else if bool_decide (RedirectURI config = "") then (Err (ErrText "redirect URI is required"), om, false)
  else match generateState rand with
       | Err e => (Err (ErrWrapf "generate state" e), om, false)
       | Panic m => (Panic m, om, false)
       | Ok state => (authorization_url config state, add_flow om (mkPendingFlow state ctype config now), true)
       end.
End start.

Definition cleanupExpiredFlows (om : OAuthManager) (now : Z) : OAuthManager :=
  let cutoff := now + - flow_window in
  with_flows om (filter (λ e, ¬ (createdAt e.2 < cutoff)) (pendingFlows om)).

(** ** Token requests *)

Record tokenResponse := mkTokenResponse {
  tr_AccessToken : string; tr_RefreshToken : string; tr_TokenType : string; ExpiresIn : Z; tr_Scope : string;
  tr_Error : string; ErrorDesc : string
}.

Record TokenPost := mkTokenPost { tp_url : string; tp_body : string; tp_header : gmap string string }.

(** What comes of a request: the URL is refused, it is not answered, the answer breaks off, or it has a status and a body. *)
Inductive token_reply :=
| BadRequest (e : error) | SendFailed (e : error) | ReadFailed (e : error) | Answer (status : Z) (body : string).

Definition form_headers : gmap string string :=
  <["Content-Type" := "application/x-www-form-urlencoded"]> {["Accept" := "application/json"]}.

Section requests.
Context {W : Type} (clock : W → Z) (post : TokenPost → W → token_reply * W).
Context (type_error : string → json → error) (json_doc : string → RawMessage).

Definition token_member (acc : tokenResponse * option error) (e : string * json) : tokenResponse * option error :=
  let '(t, err) := acc in
  let '(k, j) := e in
  let text (old : string) (put : string → tokenResponse) :=
    let '(s, err) := string_member type_error k old j err in (put s, err) in
  let 'mkTokenResponse a r ty ex sc er de := t in
  if key_matches "access_token" k then text a (λ s, mkTokenResponse s r ty ex sc er de)
  else if key_matches "refresh_token" k then text r (λ s, mkTokenResponse a s ty ex sc er de)
  else if key_matches "token_type" k then text ty (λ s, mkTokenResponse a r s ex sc er de)
  else if key_matches "expires_in" k then
    let '(n, err) := int_member type_error k ex j err in (mkTokenResponse a r ty n sc er de, err)
  else if key_matches "scope" k then text sc (λ s, mkTokenResponse a r ty ex s er de)
  else if key_matches "error" k then text er (λ s, mkTokenResponse a r ty ex sc s de)
  else if key_matches "error_description" k then text de (λ s, mkTokenResponse a r ty ex sc er s)
  else acc.

Definition unmarshal_token (body : string) : res tokenResponse :=
  unmarshal_struct type_error (mkTokenResponse "" "" "" 0 "" "" "") token_member (json_doc body).

(** The error for an answer with another status. *)
Definition status_error (status : Z) (body : string) : error :=
  let plain := ErrText ("token request failed with status " +:+ pretty status +:+ ": " +:+ body) in
  match unmarshal_token body with
  | Ok r => if bool_decide (tr_Error r = "") then plain else ErrText ("OAuth error: " +:+ tr_Error r +:+ " - " +:+ ErrorDesc r)
  | _ => plain
  end.

Definition expiry (now expiresIn : Z) : Z :=
  if bool_decide (expiresIn = 0) then now + 3600 * second else now + (expiresIn *ᵢ second).

Definition tokens_of (tr : tokenResponse) (now : Z) : OAuthTokens :=
  mkOAuthTokens (tr_AccessToken tr) (tr_RefreshToken tr) (tr_TokenType tr) (expiry now (ExpiresIn tr))
    (if bool_decide (tr_Scope tr = "") then [] else Split (tr_Scope tr) " ") "".

Definition read_tokens (status : Z) (body : string) (now : Z) : res OAuthTokens :=
  if negb (status =? 200) then Err (status_error status body)
  else match unmarshal_token body with
       | Err e => Err (ErrWrapf "parse token response" e)
       | Panic m => Panic m
       | Ok tr =>
           if bool_decide (tr_AccessToken tr = "") then Err (ErrText "token response missing access_token")
           else Ok (tokens_of tr now)
       end.

Definition doTokenRequest (tokenURL : string) (data : Values) (w : W) : res OAuthTokens * W :=
  match post (mkTokenPost tokenURL (Encode data) form_headers) w with
  | (BadRequest e, w) => (Err (ErrWrapf "create request" e), w)
  | (SendFailed e, w) => (Err (ErrWrapf "token request" e), w)
  | (ReadFailed e, w) => (Err (ErrWrapf "read token response" e), w)
  | (Answer status body, w) => (read_tokens status body (clock w), w)
  end.

Definition form (l : list (string * string)) : Values := list_to_map (map (λ e, (e.1, [e.2])) l).

Definition code_form (config : OAuthConfig) (code : string) : Values :=
  form [("grant_type", "authorization_code"); ("code", code); ("redirect_uri", RedirectURI config);
        ("client_id", ClientID config); ("client_secret", ClientSecret config)].
Definition exchangeCode (config : OAuthConfig) (code : string) (w : W) : res OAuthTokens * W :=
  doTokenRequest (TokenURL config) (code_form config code) w.

Definition refresh_form (config : OAuthConfig) (refreshToken : string) : Values :=
  form [("grant_type", "refresh_token"); ("refresh_token", refreshToken);
        ("client_id", ClientID config); ("client_secret", ClientSecret config)].
Definition doRefresh (config : OAuthConfig) (refreshToken : string) (w : W) : res OAuthTokens * W :=
  doTokenRequest (TokenURL config) (refresh_form config refreshToken) w.

(** ** The callback *)

(** The critical section: the flow of the state is taken. *)
Definition take_flow (om : OAuthManager) (state : string) : option pendingFlow * OAuthManager :=
  match pendingFlows om !! state with
  | Some flow => (Some flow, with_flows om (delete state (pendingFlows om)))
  | None => (None, om)
  end.

Definition for_connector (ctype : string) (t : OAuthTokens) : OAuthTokens :=
  mkOAuthTokens (AccessToken t) (t_RefreshToken t) (TokenType t) (ExpiresAt t) (t_Scopes t) ctype.

(** After it. *)
Definition finish_callback (flow : option pendingFlow) (code : string) (w : W) : res OAuthTokens * W :=
  match flow with
  | None => (Err (ErrText "invalid or expired OAuth state"), w)
  | Some flow =>
      if flow_window <? time_sub (clock w) (createdAt flow) then (Err (ErrText "OAuth flow expired"), w)
      else match exchangeCode (pf_config flow) code w with
           | (Err e, w) => (Err (ErrWrapf "exchange code" e), w)
           | (Panic m, w) => (Panic m, w)
           | (Ok t, w) => (Ok (for_connector (connectorType flow) t), w)
           end
  end.

Definition HandleCallback (om : OAuthManager) (state code : string) (w : W) : res OAuthTokens * OAuthManager * W :=
  if bool_decide (state = "") then (Err (ErrText "state parameter is required"), om, w)
  else if bool_decide (code = "") then (Err (ErrText "authorization code is required"), om, w)
  else let '(flow, om) := take_flow om state in
       let '(r, w) := finish_callback flow code w in (r, om, w).

(** ** Refreshing *)

(** What is to be refreshed and how.  The tokens are read under one lock and the configuration under another: the
    managers may be two. *)
Definition refreshable (om om' : OAuthManager) (integrationID : string) : res (OAuthTokens * OAuthConfig) :=
  match tokens om !! integrationID with
  | None => Err (ErrText ("no tokens found for integration " +:+ quote integrationID))
  | Some None => Panic "nil pointer dereference"
  | Some (Some existing) =>
      if bool_decide (t_RefreshToken existing = "")
      then Err (ErrText ("no refresh token available for integration " +:+ quote integrationID))
      else if bool_decide (ConnectorType existing = "")
      then Err (ErrText ("no connector type associated with tokens for integration " +:+ quote integrationID))
      else match configs om' !! ConnectorType existing with
           | None => Err (ErrText ("no OAuth config registered for connector type " +:+ quote (ConnectorType existing)))
           | Some config => Ok (existing, config)
           end
  end.

Definition keep_refresh (old : string) (t : OAuthTokens) : OAuthTokens :=
  mkOAuthTokens (AccessToken t) (if bool_decide (t_RefreshToken t = "") then old else t_RefreshToken t)
    (TokenType t) (ExpiresAt t) (t_Scopes t) (ConnectorType t).

Definition refreshed (r : res (OAuthTokens * OAuthConfig)) (w : W) : res OAuthTokens * W :=
  match r with
  | Err e => (Err e, w)
  | Panic m => (Panic m, w)
  | Ok (existing, config) =>
      match doRefresh config (t_RefreshToken existing) w with
      | (Err e, w) => (Err (ErrWrapf "refresh token" e), w)
      | (Panic m, w) => (Panic m, w)
      | (Ok t, w) => (Ok (keep_refresh (t_RefreshToken existing) t), w)
      end
  end.

Definition RefreshToken (om : OAuthManager) (integrationID : string) (w : W) : res OAuthTokens * OAuthManager * W :=
  match refreshed (refreshable om om integrationID) w with
  | (Ok t, w) => (Ok t, StoreTokens om integrationID (Some t), w)
  | (r, w) => (r, om, w)
  end.
End requests.

(** ** Histories

    The critical sections of a manager, in the order of its lock. *)
Inductive move :=
| Started (flow : pendingFlow)
| Taken (state : string)
| Cleaned (now : Z)
| Stored (integrationID : string) (t : option OAuthTokens)
| Registered (ctype : string) (config : OAuthConfig).

Definition apply_move (om : OAuthManager) (m : move) : OAuthManager :=
  match m with
  | Started flow => add_flow om flow
  | Taken state => (take_flow om state).2
  | Cleaned now => cleanupExpiredFlows om now
  | Stored id t => StoreTokens om id t
  | Registered ct config => RegisterConnectorConfig om ct config
  end.
Definition history (ms : list move) : OAuthManager := foldl apply_move NewOAuthManager ms.

(** ** The flow a callback finds *)

Lemma history_app ms m : history (ms ++ [m]) = apply_move (history ms) m.
Proof. unfold history. by rewrite foldl_app. Qed.

(** A pending flow was started under its state, and neither taken nor replaced since. *)
Lemma pending_started ms state flow :
  pendingFlows (history ms) !! state = Some flow →
  ∃ ms1 ms2, ms = ms1 ++ Started flow :: ms2 ∧ pf_state flow = state ∧ Taken state ∉ ms2 ∧
             ∀ flow', Started flow' ∈ ms2 → pf_state flow' ≠ state.
Proof.
  revert flow. induction ms as [|m ms IH] using rev_ind; intros flow; [done|]. rewrite history_app.
  assert (Hkeep : pendingFlows (history ms) !! state = Some flow → m ≠ Taken state →
    (∀ f, m = Started f → pf_state f ≠ state) →
    ∃ ms1 ms2, ms ++ [m] = ms1 ++ Started flow :: ms2 ∧ pf_state flow = state ∧ Taken state ∉ ms2 ∧
               ∀ flow', Started flow' ∈ ms2 → pf_state flow' ≠ state).
  { intros (ms1 & ms2 & -> & Hs & Ht & Hf)%IH Hm Hm'. exists ms1, (ms2 ++ [m]). rewrite <- app_assoc. split_and!; try done.
    - rewrite elem_of_app, list_elem_of_singleton. intros [?|?]; congruence.
    - intros f. rewrite elem_of_app, list_elem_of_singleton. intros [?|?]; eauto. }
  destruct m as [f|st|now|id t|ct config]; cbn.
  - destruct (decide (pf_state f = state)) as [Hs|Hs].
    + rewrite Hs, lookup_insert_eq. intros [= ->]. exists ms, []. split_and!; try done; [apply not_elem_of_nil|].
      intros ? []%not_elem_of_nil.
    + rewrite lookup_insert_ne by done. intros Hp. apply Hkeep; [done|done|]. by intros ? [= <-].
  - unfold take_flow. destruct (pendingFlows (history ms) !! st) as [f|] eqn:Hst; cbn.
    + rewrite lookup_delete_Some. intros [Hne Hp]. apply Hkeep; [done|congruence|done].
    + intros Hp. apply Hkeep; [done|congruence|done].
  - rewrite map_lookup_filter_Some. intros [Hp _]. by apply Hkeep.
  - intros Hp. by apply Hkeep.
  - intros Hp. by apply Hkeep.
Qed.

(** ** Forms *)

Lemma form_filled l : map_Forall (λ _ vs, vs ≠ []) (form l).
Proof.
  unfold form. induction l as [|[k v] l IH]; [apply map_Forall_empty|]. cbn. by apply map_Forall_insert_2.
Qed.

(** The provider parses from the body the form that was sent. *)
Lemma form_read l : ParseQuery (Encode (form l)) = form l.
Proof. apply ParseQuery_Encode, form_filled. Qed.

(** ** Authorization requests *)

(** What the provider reads in a request for an authorization URL. *)
Record authorizes (config : OAuthConfig) (state : string) (base q : Values) : Prop := {
  auth_client : Values_Get q "client_id" = ClientID config;
  auth_redirect : Values_Get q "redirect_uri" = RedirectURI config;
  auth_type : Values_Get q "response_type" = "code";
  auth_state : Values_Get q "state" = state;
  auth_scope : Values_Get q "scope" = if decide (Scopes config = []) then Values_Get base "scope" else Join (Scopes config) " ";
  auth_others k : k ∉ ["client_id"; "redirect_uri"; "response_type"; "state"; "scope"] → values_of q k = values_of base k
}.

Lemma auth_query_filled config state q :
  map_Forall (λ _ vs, vs ≠ []) q → map_Forall (λ _ vs, vs ≠ []) (auth_query config state q).
Proof.
  intros Hq. unfold auth_query. destruct (_ <? _)%nat; repeat apply Values_Set_filled; done.
Qed.

Lemma auth_query_authorizes config state base : authorizes config state base (auth_query config state base).
Proof.
  unfold auth_query, Values_Set. destruct (Scopes config) as [|s l] eqn:Hs; cbn [length Nat.ltb Nat.leb].
  all: split; unfold Values_Get, values_of.
  all: try (repeat first [rewrite lookup_insert_eq | rewrite lookup_insert_ne by done]; by rewrite ?Hs).
  all: intros k Hk; rewrite !not_elem_of_cons in Hk; destruct Hk as (? & ? & ? & ? & ? & _).
  all: repeat rewrite lookup_insert_ne by congruence; done.
Qed.

(** What a method of the manager returns when it fails, and the tokens it gives. *)
Definition only_ok {A} (r : res A) : option A := match r with Ok a => Some a | _ => None end.

Section theorems.
Context {W : Type} (clock : W → Z) (post : TokenPost → W → token_reply * W).
Context (type_error : string → json → error) (json_doc : string → RawMessage).

(** A flow that starts has a state of 32 random bytes in hexadecimal, under which it is pending with its connector
    type, its configuration and the current time; a request for the URL that is returned asks for a code for this
    client, redirect URI and state, with the scopes if there are any, and has the other parameters of the
    configured URL. *)
Theorem StartOAuthFlow_spec `{UrlLaws} parse_error om rand now ctype config text om' cleanup :
  StartOAuthFlow parse_error om rand now ctype config = (Ok text, om', cleanup) →
  ∃ bs u, rand 32%nat = Ok bs ∧ Parse (AuthURL config) = Some u ∧ cleanup = true ∧
    let state := EncodeToString bs in
    om' = add_flow om (mkPendingFlow state ctype config now) ∧
    authorizes config state (Query u) (request_query text).
Proof.
  unfold StartOAuthFlow. repeat (case_bool_decide; [done|]). unfold generateState.
  destruct (rand 32%nat) as [bs|e|m]; [|done..]. cbn [mbind outcome_bind]. unfold authorization_url.
  destruct (Parse (AuthURL config)) as [u|] eqn:Hu; [|done]. intros [= <- <- <-].
  exists bs, u. split_and!; [done..|].
  rewrite (request_query_with_query _ _ _ Hu); [apply auth_query_authorizes|].
  apply auth_query_filled, ParseQuery_filled.
Qed.

(** A flow that could not be started because of its URL stays pending. *)
Theorem failed_start_stays_pending `{UrlLib} parse_error om rand now ctype config bs :
  AuthURL config ≠ "" → ClientID config ≠ "" → RedirectURI config ≠ "" →
  rand 32%nat = Ok bs → Parse (AuthURL config) = None →
  ∃ e, StartOAuthFlow parse_error om rand now ctype config =
       (Err e, add_flow om (mkPendingFlow (EncodeToString bs) ctype config now), true).
Proof.
  intros H1 H2 H3 Hr Hp. unfold StartOAuthFlow, generateState, authorization_url.
  rewrite !bool_decide_false, Hr by done. cbn. rewrite Hp. eauto.
Qed.

(** ** Token requests *)

Lemma read_tokens_ok status body now t :
  read_tokens type_error json_doc status body now = Ok t ↔
  status = 200 ∧ ∃ tr, unmarshal_token type_error json_doc body = Ok tr ∧ tr_AccessToken tr ≠ "" ∧ t = tokens_of tr now.
Proof.
  unfold read_tokens. destruct (Z.eqb_spec status 200) as [->|Hs]; cbn [negb].
  - destruct (unmarshal_token _ _ _) as [tr|e|m].
    + case_bool_decide as Ha; split; try done; [by intros (_ & ? & [= <-] & ? & _)| |].
      * intros [= <-]. eauto 6.
      * by intros (_ & ? & [= <-] & _ & ->).
    + split; [done|]. by intros (_ & ? & ? & _).
    + split; [done|]. by intros (_ & ? & ? & _).
  - split; [done|]. by intros [? _].
Qed.

(** A token request that gives tokens was one POST of the form, and was answered with them. *)
Lemma doTokenRequest_ok url data w t w' :
  doTokenRequest clock post type_error json_doc url data w = (Ok t, w') ↔
  ∃ body tr, post (mkTokenPost url (Encode data) form_headers) w = (Answer 200 body, w') ∧
    unmarshal_token type_error json_doc body = Ok tr ∧ tr_AccessToken tr ≠ "" ∧ t = tokens_of tr (clock w').
Proof.
  unfold doTokenRequest. destruct (post _ w) as [[e|e|e|status body] w1]; try (split; [done|]; by intros (? & ? & ? & _)).
  split.
  - intros [= Hr <-]. apply read_tokens_ok in Hr as (-> & tr & ? & ? & ?). eauto 7.
  - intros (b & tr & [= -> -> ->] & Hu & Ha & ->). f_equal. apply read_tokens_ok. eauto.
Qed.

(** The expiry of tokens whose life is given and does not overflow. *)
Lemma expiry_given now n : 0 < n ≤ 9223372036 → expiry now n = now + n * second.
Proof.
  intros Hn. unfold expiry. rewrite bool_decide_false by lia. f_equal. apply i64_id.
  unfold in_i64, int64_min, int64_max, second. lia.
Qed.

(** ** Callbacks *)

(** C21: A callback that gives tokens uses up a pending flow: in a history of the manager's critical sections the
    flow was started under this very state at most ten minutes ago and not taken since; the code went in one POST
    to the flow's token endpoint, with the flow's redirect URI and credentials, and the tokens are the ones the
    endpoint answered with, for the flow's connector type.  The same state does not give tokens again. *)
Theorem callback_needs_fresh_flow ms state code w t om' w' :
  HandleCallback clock post type_error json_doc (history ms) state code w = (Ok t, om', w') →
  ∃ ms1 ms2 flow body tr,
    ms = ms1 ++ Started flow :: ms2 ∧ pf_state flow = state ∧ Taken state ∉ ms2 ∧
    time_sub (clock w) (createdAt flow) ≤ flow_window ∧
    (let req := mkTokenPost (TokenURL (pf_config flow)) (Encode (code_form (pf_config flow) code)) form_headers in
     post req w = (Answer 200 body, w') ∧ ParseQuery (tp_body req) = code_form (pf_config flow) code) ∧
    unmarshal_token type_error json_doc body = Ok tr ∧ tr_AccessToken tr ≠ "" ∧
    t = for_connector (connectorType flow) (tokens_of tr (clock w')) ∧
    om' = history (ms ++ [Taken state]) ∧
    ∀ code' w2, only_ok (HandleCallback clock post type_error json_doc om' state code' w2).1.1 = None.
Proof.
  unfold HandleCallback. case_bool_decide; [done|]. case_bool_decide; [done|].
  destruct (take_flow (history ms) state) as [flow om1] eqn:Ht.
  assert (Hom : om1 = history (ms ++ [Taken state])) by (rewrite history_app; cbn; by rewrite Ht).
  unfold take_flow in Ht. destruct (pendingFlows (history ms) !! state) as [f|] eqn:Hp; [|by injection Ht as <- <-].
  injection Ht as <- Hom1. cbn [finish_callback]. destruct (flow_window <? _) eqn:Hw; [done|].
  destruct (exchangeCode _ _ _ _ _ code w) as [[t1|e|m] w1] eqn:He; [|done..]. intros [= <- <- <-].
  apply doTokenRequest_ok in He as (body & tr & Hpost & Hun & Ha & ->).
  apply pending_started in Hp as (ms1 & ms2 & -> & Hs & Hn & _).
  exists ms1, ms2, f, body, tr. split_and!; try done; [lia|apply form_read|].
  intros code' w2. case_bool_decide; [done|].
  unfold take_flow. rewrite <- Hom1. cbn. by rewrite lookup_delete_eq.
Qed.

(** ** Cleaning up *)

Lemma cleaned_lookup om now state :
  pendingFlows (cleanupExpiredFlows om now) !! state =
  f ← pendingFlows om !! state; if decide (createdAt f < now - flow_window) then None else Some f.
Proof.
  cbn. rewrite map_lookup_filter. destruct (pendingFlows om !! state) as [f|]; [|done]. cbn.
  unfold guard. by repeat case_decide.
Qed.

(** Cleaning up changes no callback but in the text of its error: while the clock does not go back, a
    callback gives the same tokens and leaves the same flows, but for the cleaned ones, whether the
    manager was cleaned up or not. *)
Theorem cleanup_invisible om now state code w :
  now ≤ clock w →
  let '(r, om1, w1) := HandleCallback clock post type_error json_doc om state code w in
  let '(r', om1', w1') := HandleCallback clock post type_error json_doc (cleanupExpiredFlows om now) state code w in
  only_ok r' = only_ok r ∧ om1' = cleanupExpiredFlows om1 now ∧ w1' = w1.
Proof.
  intros Hnow. unfold HandleCallback. case_bool_decide; [done|]. case_bool_decide; [done|].
  unfold take_flow. rewrite cleaned_lookup. destruct (pendingFlows om !! state) as [f|] eqn:Hp; cbn [mbind option_bind]; [|done].
  assert (Hdel : delete state (filter (λ e, ¬ (createdAt e.2 < now + - flow_window)) (pendingFlows om)) =
                 filter (λ e, ¬ (createdAt e.2 < now + - flow_window)) (delete state (pendingFlows om)))
    by (symmetry; apply map_filter_delete).
  case_decide as Hold.
  - cbn [finish_callback].
    assert (Hlate : flow_window <? time_sub (clock w) (createdAt f) = true).
    { apply Z.ltb_lt. unfold time_sub, flow_window, second, int64_min, int64_max in *. repeat case_match; lia. }
    rewrite Hlate. cbn. split_and!; [done| |done]. unfold cleanupExpiredFlows, with_flows. cbn. f_equal.
    rewrite <- Hdel. rewrite delete_id; [done|]. rewrite map_lookup_filter_None. right. intros x. rewrite Hp. intros [= <-]. cbn. lia.
  - destruct (finish_callback _ _ _ _ (Some f) code w) as [r w1]. split_and!; [done| |done].
    unfold cleanupExpiredFlows, with_flows. cbn. f_equal. exact Hdel.
Qed.

(** ** Refreshing *)

(** A refresh that gives tokens sent the stored refresh token to the token endpoint of the connector type's
    configuration; it stores what it returns, which has a refresh token. *)
Lemma RefreshToken_ok om id w t om' w' :
  RefreshToken clock post type_error json_doc om id w = (Ok t, om', w') →
  ∃ existing config body tr, tokens om !! id = Some (Some existing) ∧ t_RefreshToken existing ≠ "" ∧
    configs om !! ConnectorType existing = Some config ∧
    post (mkTokenPost (TokenURL config) (Encode (refresh_form config (t_RefreshToken existing))) form_headers) w = (Answer 200 body, w') ∧
    unmarshal_token type_error json_doc body = Ok tr ∧
    t = keep_refresh (t_RefreshToken existing) (tokens_of tr (clock w')) ∧ om' = StoreTokens om id (Some t).
Proof.
  unfold RefreshToken, refreshable. destruct (tokens om !! id) as [[ex|]|] eqn:Hid; [|done..].
  case_bool_decide; [done|]. case_bool_decide; [done|]. destruct (configs om !! ConnectorType ex) as [cfg|] eqn:Hc; [|done].
  cbn [refreshed]. destruct (doRefresh _ _ _ _ cfg _ w) as [[t1|e|m] w1] eqn:Hr; [|done..]. intros [= <- <- <-].
  apply doTokenRequest_ok in Hr as (body & tr & ? & ? & ? & ->). eauto 12.
Qed.

(** Tokens can be refreshed once.  A refresh that gives tokens stores them with a refresh token, the
    old one if the provider sent no new one, but without their connector type; every later
    refresh of the integration fails, and asks the provider nothing, until tokens are stored anew. *)
Theorem refreshed_only_once om id w t om' w' :
  RefreshToken clock post type_error json_doc om id w = (Ok t, om', w') →
  GetTokens om' id = Some (Some t) ∧ t_RefreshToken t ≠ "" ∧
  ∀ w2, RefreshToken clock post type_error json_doc om' id w2 =
        (Err (ErrText ("no connector type associated with tokens for integration " +:+ quote id)), om', w2).
Proof.
  intros (ex & cfg & body & tr & Hid & Hrt & Hc & _ & _ & -> & ->)%RefreshToken_ok.
  assert (Hk : t_RefreshToken (keep_refresh (t_RefreshToken ex) (tokens_of tr (clock w'))) ≠ "").
  { cbn. by case_bool_decide. }
  unfold GetTokens. cbn [StoreTokens tokens]. rewrite lookup_insert_eq. split_and!; try done.
  intros w2. unfold RefreshToken, refreshable. cbn [StoreTokens tokens]. rewrite lookup_insert_eq.
  rewrite bool_decide_false by done. done.
Qed.
End theorems.

(** ** Witnesses *)

(** A URL library for texts that need no change. *)
#[local] Instance auth_urls : UrlLib := {
  url_head h := if bool_decide ("?"%char ∉ bytes_of h ∧ "#"%char ∉ bytes_of h) && negb (existsb is_ctl (bytes_of h))
                then Some h else None;
  url_fragment f := Some f
}.
#[local] Instance auth_urls_laws : UrlLaws.
Proof.
  split; [|done]. intros raw h. cbn [url_head auth_urls]. destruct (bool_decide _ && _) eqn:Hb; [|done].
  intros [= <-]. rewrite Hb. apply andb_true_iff in Hb as [Hb Hc].
  apply bool_decide_eq_true in Hb as [Hq Hh]. by apply negb_true_iff in Hc.
Qed.

Definition crm_oauth : OAuthConfig :=
  mkOAuthConfig "client" "secret" "https://app/cb" ["crm.read"; "crm.write"] "https://crm/authorize?tenant=7" "https://crm/token".
Definition fixed_rand (n : nat) : res (list ascii) := Ok (replicate n "Z"%char).
Definition state_text : string := EncodeToString (replicate 32 "Z"%char).

(** The provider gives tokens to whom sends a code or a refresh token; the world is the clock. *)
Definition crm_post (r : TokenPost) (w : Z) : token_reply * Z := (Answer 200 (tp_body r), w + second).
Definition crm_doc (_ : string) : RawMessage :=
  RawDoc (JObj [("access_token", JStr "at"); ("token_type", JStr "Bearer"); ("expires_in", int_json 1800); ("scope", JStr "crm.read crm.write")]).
Definition crm_type_error (f : string) (_ : json) : error := ErrText f.

Lemma StartOAuthFlow_spec_witness :
  ∃ bs u, fixed_rand 32%nat = Ok bs ∧ Parse (AuthURL crm_oauth) = Some u ∧ true = true ∧
    let state := EncodeToString bs in
    (StartOAuthFlow ErrText NewOAuthManager fixed_rand 5 "crm" crm_oauth).1.2 =
      add_flow NewOAuthManager (mkPendingFlow state "crm" crm_oauth 5) ∧
    authorizes crm_oauth state (Query u)
      (request_query ("https://crm/authorize?client_id=client&redirect_uri=https%3A%2F%2Fapp%2Fcb&response_type=code&scope=crm.read+crm.write&state="
        +:+ state_text +:+ "&tenant=7")).
Proof. apply (StartOAuthFlow_spec ErrText NewOAuthManager fixed_rand 5 "crm" crm_oauth). vm_compute. reflexivity. Defined.

Lemma failed_start_stays_pending_witness :
  ∃ e, StartOAuthFlow ErrText NewOAuthManager fixed_rand 5 "crm"
         (mkOAuthConfig "client" "" "https://app/cb" [] (String "010" "bad") "") =
       (Err e, add_flow NewOAuthManager (mkPendingFlow (EncodeToString (replicate 32 "Z"%char)) "crm"
                 (mkOAuthConfig "client" "" "https://app/cb" [] (String "010" "bad") "") 5), true).
Proof. by apply (failed_start_stays_pending ErrText NewOAuthManager fixed_rand 5 "crm"). Defined.

Definition crm_flow : pendingFlow := mkPendingFlow state_text "crm" crm_oauth 5.
Definition crm_moves : list move := [Registered "crm" crm_oauth; Started crm_flow; Cleaned 5].

Lemma callback_needs_fresh_flow_witness :
  ∃ ms1 ms2 flow body tr,
    crm_moves = ms1 ++ Started flow :: ms2 ∧ pf_state flow = state_text ∧ Taken state_text ∉ ms2 ∧
    time_sub 10 (createdAt flow) ≤ flow_window ∧
    (let req := mkTokenPost (TokenURL (pf_config flow)) (Encode (code_form (pf_config flow) "c0de")) form_headers in
     crm_post req 10 = (Answer 200 body, 1000000010) ∧ ParseQuery (tp_body req) = code_form (pf_config flow) "c0de") ∧
    unmarshal_token crm_type_error crm_doc body = Ok tr ∧ tr_AccessToken tr ≠ "" ∧
    mkOAuthTokens "at" "" "Bearer" 1801000000010 ["crm.read"; "crm.write"] "crm" = for_connector (connectorType flow) (tokens_of tr 1000000010) ∧
    (HandleCallback id crm_post crm_type_error crm_doc (history crm_moves) state_text "c0de" 10).1.2 =
      history (crm_moves ++ [Taken state_text]) ∧
    ∀ code' w2, only_ok (HandleCallback id crm_post crm_type_error crm_doc
      (HandleCallback id crm_post crm_type_error crm_doc (history crm_moves) state_text "c0de" 10).1.2 state_text code' w2).1.1 = None.
Proof.
  apply (callback_needs_fresh_flow id crm_post crm_type_error crm_doc crm_moves state_text "c0de" 10). vm_compute. reflexivity.
Defined.

Lemma cleanup_invisible_witness :
  let '(r, om1, w1) := HandleCallback id crm_post crm_type_error crm_doc (history crm_moves) state_text "c0de" 10 in
  let '(r', om1', w1') := HandleCallback id crm_post crm_type_error crm_doc
                            (cleanupExpiredFlows (history crm_moves) 7) state_text "c0de" 10 in
  only_ok r' = only_ok r ∧ om1' = cleanupExpiredFlows om1 7 ∧ w1' = w1.
Proof. apply (cleanup_invisible id crm_post crm_type_error crm_doc (history crm_moves) 7 state_text "c0de" 10). by vm_compute. Defined.

Definition crm_tokens : OAuthTokens := mkOAuthTokens "old" "rt" "Bearer" 0 [] "crm".
Definition crm_manager : OAuthManager := StoreTokens (history crm_moves) "int-1" (Some crm_tokens).

Lemma refreshed_only_once_witness :
  let t := mkOAuthTokens "at" "rt" "Bearer" 1801000000010 ["crm.read"; "crm.write"] "" in
  let om' := StoreTokens crm_manager "int-1" (Some t) in
  GetTokens om' "int-1" = Some (Some t) ∧ t_RefreshToken t ≠ "" ∧
  ∀ w2, RefreshToken id crm_post crm_type_error crm_doc om' "int-1" w2 =
        (Err (ErrText ("no connector type associated with tokens for integration " +:+ quote "int-1")), om', w2).
Proof.
  apply (refreshed_only_once id crm_post crm_type_error crm_doc crm_manager "int-1" 10 _ _ 1000000010). vm_compute. reflexivity.
Defined.

(** Tokens expire a minute early. *)
Example expires_early : IsExpired (mkOAuthTokens "at" "" "" (100 * second) [] "") (41 * second) = true ∧
                        IsExpired (mkOAuthTokens "at" "" "" (100 * second) [] "") (40 * second) = false.
Proof. done. Qed.

(** A life of more than 292 years wraps around: the tokens are expired when they arrive. *)
Example long_life_expires : expiry 0 9223372037 = -9223372036709551616.
Proof. reflexivity. Qed.
