(* ===== verification/MessageHandler.v ===== *)
(** * Routing of protocol messages: [internal/connector/protocol/handler.go]

    A handler counts the messages of a connector and passes their payloads to callbacks; records may be collected in
    batches.  A method is a critical section of the mutex followed by at most one callback, which runs without
    the lock: the sections are functions of the handler and return the call to make.  Callbacks are functions of a state
    [C]; in the concurrent system they are recorded as calls. *)

From Stdlib Require Import Ascii.
From S2P Require Import Prelude GoStrings Errors Value Protocol JsonDecode SyncConfig ProtocolJson.

(** ** The handler *)

Record MessageHandler (C : Type) := mkHandler {
  onRecord : option (Rec → C → C);
  onState : option (State → C → C);
  onLog : option (Log → C → C);
  onControl : option (Control → C → C);
  onSchema : option (SchemaMessage → C → C);
  batchSize : Z;
  batchTimeout : Z;
  batchBuf : list Rec;
  batchTimer : bool;       (** whether it is set *)
  timerArmed : bool;       (** whether it will fire *)
  batchFlush : option (list Rec → C → C);
  recordCount : Z; stateCount : Z; logCount : Z; controlCount : Z; schemaCount : Z; errorCount : Z
}.
Arguments mkHandler {C}. Arguments onRecord {C}. Arguments onState {C}. Arguments onLog {C}. Arguments onControl {C}.
Arguments onSchema {C}. Arguments batchSize {C}. Arguments batchTimeout {C}. Arguments batchBuf {C}.
Arguments batchTimer {C}. Arguments timerArmed {C}. Arguments batchFlush {C}. Arguments recordCount {C}.
Arguments stateCount {C}. Arguments logCount {C}. Arguments controlCount {C}. Arguments schemaCount {C}.
Arguments errorCount {C}.

Record MessageStats := mkStats { Records : Z; States : Z; Logs : Z; Controls : Z; Schemas : Z; ms_Errors : Z }.

(** What is left to do when the lock is released. *)
Inductive call :=
| CallRecord (r : Rec) | CallState (s : State) | CallLog (l : Log) | CallControl (c : Control)
| CallSchema (s : SchemaMessage) | CallFlush (batch : list Rec).

(** The result of a section: the error to return, if any, or the call to make first. *)
Abbreviation section_result C := (option error * option call * MessageHandler C)%type.

Section handler.
Context {C : Type}.
Abbreviation handler := (MessageHandler C).
Abbreviation HandlerOption := (handler → res handler).

Definition WithRecordHandler (fn : Rec → C → C) : HandlerOption := λ h,
  Ok (mkHandler (Some fn) (onState h) (onLog h) (onControl h) (onSchema h) (batchSize h) (batchTimeout h) (batchBuf h)
        (batchTimer h) (timerArmed h) (batchFlush h) (recordCount h) (stateCount h) (logCount h) (controlCount h) (schemaCount h) (errorCount h)).
Definition WithStateHandler (fn : State → C → C) : HandlerOption := λ h,
  Ok (mkHandler (onRecord h) (Some fn) (onLog h) (onControl h) (onSchema h) (batchSize h) (batchTimeout h) (batchBuf h)
        (batchTimer h) (timerArmed h) (batchFlush h) (recordCount h) (stateCount h) (logCount h) (controlCount h) (schemaCount h) (errorCount h)).
Definition WithLogHandler (fn : Log → C → C) : HandlerOption := λ h,
  Ok (mkHandler (onRecord h) (onState h) (Some fn) (onControl h) (onSchema h) (batchSize h) (batchTimeout h) (batchBuf h)
        (batchTimer h) (timerArmed h) (batchFlush h) (recordCount h) (stateCount h) (logCount h) (controlCount h) (schemaCount h) (errorCount h)).
Definition WithControlHandler (fn : Control → C → C) : HandlerOption := λ h,
  Ok (mkHandler (onRecord h) (onState h) (onLog h) (Some fn) (onSchema h) (batchSize h) (batchTimeout h) (batchBuf h)
        (batchTimer h) (timerArmed h) (batchFlush h) (recordCount h) (stateCount h) (logCount h) (controlCount h) (schemaCount h) (errorCount h)).
Definition WithSchemaHandler (fn : SchemaMessage → C → C) : HandlerOption := λ h,
  Ok (mkHandler (onRecord h) (onState h) (onLog h) (onControl h) (Some fn) (batchSize h) (batchTimeout h) (batchBuf h)
        (batchTimer h) (timerArmed h) (batchFlush h) (recordCount h) (stateCount h) (logCount h) (controlCount h) (schemaCount h) (errorCount h)).

(** [make] refuses a negative capacity. *)
Definition WithBatchAccumulation (size timeout : Z) (flushFn : list Rec → C → C) : HandlerOption := λ h,
  if size <? 0 then Panic "makeslice: cap out of range"
  else Ok (mkHandler (onRecord h) (onState h) (onLog h) (onControl h) (onSchema h) size timeout []
             (batchTimer h) (timerArmed h) (Some flushFn) (recordCount h) (stateCount h) (logCount h) (controlCount h) (schemaCount h) (errorCount h)).

Definition new_handler : handler := mkHandler None None None None None 0 0 [] false false None 0 0 0 0 0 0.
Definition NewMessageHandler (opts : list HandlerOption) : res handler := foldM (λ h opt, opt h) new_handler opts.

Definition Stats (h : handler) : MessageStats :=
  mkStats (recordCount h) (stateCount h) (logCount h) (controlCount h) (schemaCount h) (errorCount h).

Definition with_counts (h : handler) (r s l c sc e : Z) : handler :=
  mkHandler (onRecord h) (onState h) (onLog h) (onControl h) (onSchema h) (batchSize h) (batchTimeout h) (batchBuf h)
    (batchTimer h) (timerArmed h) (batchFlush h) r s l c sc e.
Definition with_batch (h : handler) (buf : list Rec) (timer armed : bool) : handler :=
  mkHandler (onRecord h) (onState h) (onLog h) (onControl h) (onSchema h) (batchSize h) (batchTimeout h) buf
    timer armed (batchFlush h) (recordCount h) (stateCount h) (logCount h) (controlCount h) (schemaCount h) (errorCount h).

Definition count_error (h : handler) (text : string) : section_result C :=
  (Some (ErrText text), None,
   with_counts h (recordCount h) (stateCount h) (logCount h) (controlCount h) (schemaCount h) (errorCount h + 1)).

(** Up to the release of the lock: the batch to flush. *)
Definition flushBatchLocked (h : handler) : option (list Rec) * handler :=
  match batchFlush h, batchBuf h with
  | None, _ | _, [] => (None, h)
  | Some _, buf =>
      let '(timer, armed) := if batchTimer h then (false, false) else (batchTimer h, timerArmed h) in
      (Some buf, with_batch h [] timer armed)
  end.

Definition FlushBatch (h : handler) : section_result C :=
  let '(batch, h) := flushBatchLocked h in (None, CallFlush <$> batch, h).

Definition batching (h : handler) : bool := bool_decide (is_Some (batchFlush h)) && (0 <? batchSize h).

Definition handleRecord (h : handler) (msg : Message) : section_result C :=
  match msg_Record msg with
  | None => count_error h "RECORD message has nil record payload"
  | Some rec =>
      let h := with_counts h (recordCount h + 1) (stateCount h) (logCount h) (controlCount h) (schemaCount h) (errorCount h) in
      if batching h then
        let h := with_batch h (batchBuf h ++ [rec]) (batchTimer h) (timerArmed h) in
        if batchSize h <=? Z.of_nat (length (batchBuf h)) then
          let '(batch, h) := flushBatchLocked h in (None, CallFlush <$> batch, h)
        else if negb (batchTimer h) && (0 <? batchTimeout h) then (None, None, with_batch h (batchBuf h) true true)
        else (None, None, h)
      else (None, if onRecord h then Some (CallRecord rec) else None, h)
  end.

Definition handleState (h : handler) (msg : Message) : section_result C :=
  match msg_State msg with
  | None => count_error h "STATE message has nil state payload"
  | Some s =>
      (None, if onState h then Some (CallState s) else None,
       with_counts h (recordCount h) (stateCount h + 1) (logCount h) (controlCount h) (schemaCount h) (errorCount h))
  end.

Definition handleLog (h : handler) (msg : Message) : section_result C :=
  match msg_Log msg with
  | None => count_error h "LOG message has nil log payload"
  | Some l =>
      (None, if onLog h then Some (CallLog l) else None,
       with_counts h (recordCount h) (stateCount h) (logCount h + 1) (controlCount h) (schemaCount h) (errorCount h))
  end.

Definition handleControl (h : handler) (msg : Message) : section_result C :=
  match msg_Control msg with
  | None => count_error h "CONTROL message has nil control payload"
  | Some c =>
      (None, if onControl h then Some (CallControl c) else None,
       with_counts h (recordCount h) (stateCount h) (logCount h) (controlCount h + 1) (schemaCount h) (errorCount h))
  end.

Definition handleSchema (h : handler) (msg : Message) : section_result C :=
  match msg_Schema msg with
  | None => count_error h "SCHEMA message has nil schema payload"
  | Some s =>
      (None, if onSchema h then Some (CallSchema s) else None,
       with_counts h (recordCount h) (stateCount h) (logCount h) (controlCount h) (schemaCount h + 1) (errorCount h))
  end.

Definition MessageType_text (t : MessageType) : string :=
  match t with
  | MessageTypeSpec => "SPEC" | MessageTypeCheck => "CHECK" | MessageTypeDiscover => "DISCOVER" | MessageTypeRead => "READ"
  | MessageTypeWrite => "WRITE" | MessageTypeRecord => "RECORD" | MessageTypeState => "STATE" | MessageTypeSchema => "SCHEMA"
  | MessageTypeLog => "LOG" | MessageTypeControl => "CONTROL" | MessageTypeMCPToolCall => "MCP_TOOL_CALL"
  | MessageTypeMCPToolResult => "MCP_TOOL_RESULT" | MessageTypeOther s => s
  end.

Definition RouteMessage (h : handler) (msg : Message) : section_result C :=
  match msg_Type msg with
  | MessageTypeRecord => handleRecord h msg
  | MessageTypeState => handleState h msg
  | MessageTypeLog => handleLog h msg
  | MessageTypeControl => handleControl h msg
  | MessageTypeSchema => handleSchema h msg
  | t => count_error h ("unhandled message type: " +:+ MessageType_text t)
  end.

Definition make_call (h : handler) (k : call) (c : C) : C :=
  match k with
  | CallRecord r => default (λ c, c) (onRecord h ≫= λ f, Some (f r)) c
  | CallState s => default (λ c, c) (onState h ≫= λ f, Some (f s)) c
  | CallLog l => default (λ c, c) (onLog h ≫= λ f, Some (f l)) c
  | CallControl s => default (λ c, c) (onControl h ≫= λ f, Some (f s)) c
  | CallSchema s => default (λ c, c) (onSchema h ≫= λ f, Some (f s)) c
  | CallFlush b => default (λ c, c) (batchFlush h ≫= λ f, Some (f b)) c
  end.

(** A whole method: the section, then the callback. *)
Definition complete (x : section_result C) (c : C) : option error * handler * C :=
  let '(err, k, h) := x in (err, h, match k with Some k => make_call h k c | None => c end).

(** On the messages a channel gives before it is closed, by one goroutine, no timer firing meanwhile. *)
Fixpoint ProcessChannel (ch : list Message) (h : handler) (c : C) : option error * handler * C :=
  match ch with
  | [] => complete (FlushBatch h) c
  | msg :: ch =>
      match complete (RouteMessage h msg) c with
      | (Some e, h, c) => (Some e, h, c)
      | (None, h, c) => ProcessChannel ch h c
      end
  end.
End handler.

(** ** Decoding messages *)

(** [Read] of the reader the decoder is given. *)
Definition jsonReader_Read (r : list ascii * nat) (n : nat) : option (list ascii * (list ascii * nat)) :=
  let '(data, pos) := r in
  if (length data <=? pos)%nat then None
  else let p := take n (drop pos data) in Some (p, (data, (pos + length p)%nat)).

Section decode.
Context (type_error : string → json → error) (time_of : string → option Z).

Abbreviation acc_of A := (A * option error)%type.

Definition MessageType_of (s : string) : MessageType :=
  default (MessageTypeOther s)
    (list_find (λ t, MessageType_text t = s)
       [MessageTypeSpec; MessageTypeCheck; MessageTypeDiscover; MessageTypeRead; MessageTypeWrite; MessageTypeRecord;
        MessageTypeState; MessageTypeSchema; MessageTypeLog; MessageTypeControl; MessageTypeMCPToolCall;
        MessageTypeMCPToolResult] ≫= λ x, Some x.2).

Definition SchemaChange_text (c : SchemaChange) : string :=
  match c with
  | SchemaChangeNone => "" | SchemaChangeNewColumn => "NEW_COLUMN" | SchemaChangeRemovedColumn => "REMOVED_COLUMN"
  | SchemaChangeTypeChange => "TYPE_CHANGE" | SchemaChangeOther s => s
  end.
Definition SchemaChange_of (s : string) : SchemaChange :=
  if bool_decide (s = "") then SchemaChangeNone else if bool_decide (s = "NEW_COLUMN") then SchemaChangeNewColumn
  else if bool_decide (s = "REMOVED_COLUMN") then SchemaChangeRemovedColumn
  else if bool_decide (s = "TYPE_CHANGE") then SchemaChangeTypeChange else SchemaChangeOther s.

Definition LogLevel_text (l : LogLevel) : string :=
  match l with LogLevelDebug => "DEBUG" | LogLevelInfo => "INFO" | LogLevelWarn => "WARN" | LogLevelError => "ERROR" | LogLevelOther s => s end.
Definition LogLevel_of (s : string) : LogLevel :=
  if bool_decide (s = "DEBUG") then LogLevelDebug else if bool_decide (s = "INFO") then LogLevelInfo
  else if bool_decide (s = "WARN") then LogLevelWarn else if bool_decide (s = "ERROR") then LogLevelError else LogLevelOther s.

Definition ControlType_text (t : ControlType) : string :=
  match t with
  | ControlTypeRateLimit => "RATE_LIMIT" | ControlTypeBackpressure => "BACKPRESSURE" | ControlTypePause => "PAUSE"
  | ControlTypeResume => "RESUME" | ControlTypeOther s => s
  end.
Definition ControlType_of (s : string) : ControlType :=
  if bool_decide (s = "RATE_LIMIT") then ControlTypeRateLimit else if bool_decide (s = "BACKPRESSURE") then ControlTypeBackpressure
  else if bool_decide (s = "PAUSE") then ControlTypePause else if bool_decide (s = "RESUME") then ControlTypeResume else ControlTypeOther s.

Definition state_member (acc : acc_of State) (e : string * json) : acc_of State :=
  let '(s, err) := acc in
  let '(k, j) := e in
  if key_matches "type" k then
    let '(x, err) := string_member type_error k (StateType_text (st_Type s)) j err in (mkState (StateType_of x) (st_Stream s) (st_Data s), err)
  else if key_matches "stream" k then
    let '(x, err) := string_member type_error k (st_Stream s) j err in (mkState (st_Type s) x (st_Data s), err)
  else if key_matches "data" k then (mkState (st_Type s) (st_Stream s) (RawDoc j), err)
  else acc.

Definition schema_member (acc : acc_of SchemaMessage) (e : string * json) : acc_of SchemaMessage :=
  let '(s, err) := acc in
  let '(k, j) := e in
  if key_matches "stream" k then
    let '(x, err) := string_member type_error k (sm_Stream s) j err in (mkSchemaMessage x (sm_Schema s) (sm_Change s), err)
  else if key_matches "schema" k then (mkSchemaMessage (sm_Stream s) (RawDoc j) (sm_Change s), err)
  else if key_matches "change" k then
    let '(x, err) := string_member type_error k (SchemaChange_text (sm_Change s)) j err in
    (mkSchemaMessage (sm_Stream s) (sm_Schema s) (SchemaChange_of x), err)
  else acc.

Definition log_member (acc : acc_of Log) (e : string * json) : acc_of Log :=
  let '(l, err) := acc in
  let '(k, j) := e in
  if key_matches "level" k then
    let '(x, err) := string_member type_error k (LogLevel_text (log_Level l)) j err in
    (mkLog (LogLevel_of x) (log_Message l) (log_Timestamp l) (log_Data l), err)
  else if key_matches "message" k then
    let '(x, err) := string_member type_error k (log_Message l) j err in (mkLog (log_Level l) x (log_Timestamp l) (log_Data l), err)
  else if key_matches "timestamp" k then
    let '(x, err) := time_member type_error time_of k (log_Timestamp l) j err in (mkLog (log_Level l) (log_Message l) x (log_Data l), err)
  else if key_matches "data" k then (mkLog (log_Level l) (log_Message l) (log_Timestamp l) (RawDoc j), err)
  else acc.

Definition control_member (acc : acc_of Control) (e : string * json) : acc_of Control :=
  let '(c, err) := acc in
  let '(k, j) := e in
  if key_matches "type" k then
    let '(x, err) := string_member type_error k (ControlType_text (ctl_Type c)) j err in
    (mkControl (ControlType_of x) (ctl_Message c) (ctl_Data c), err)
  else if key_matches "message" k then
    let '(x, err) := string_member type_error k (ctl_Message c) j err in (mkControl (ctl_Type c) x (ctl_Data c), err)
  else if key_matches "data" k then (mkControl (ctl_Type c) (ctl_Message c) (RawDoc j), err)
  else acc.

Definition spec_member (acc : acc_of Spec) (e : string * json) : acc_of Spec :=
  let '(s, err) := acc in
  let '(k, j) := e in
  if key_matches "documentation_url" k then
    let '(x, err) := string_member type_error k (DocumentationURL s) j err in (mkSpec x (ConfigSchema s), err)
  else if key_matches "config_schema" k then (mkSpec (DocumentationURL s) (RawDoc j), err)
  else acc.

Definition toolcall_member (acc : acc_of MCPToolCall) (e : string * json) : acc_of MCPToolCall :=
  let '(t, err) := acc in
  let '(k, j) := e in
  let 'mkToolCall i tool ps ag ten := t in
  let text (old : string) (put : string → MCPToolCall) :=
    let '(x, err) := string_member type_error k old j err in (put x, err) in
  if key_matches "id" k then text i (λ x, mkToolCall x tool ps ag ten)
  else if key_matches "tool" k then text tool (λ x, mkToolCall i x ps ag ten)
  else if key_matches "parameters" k then (mkToolCall i tool (RawDoc j) ag ten, err)
  else if key_matches "agent_id" k then text ag (λ x, mkToolCall i tool ps x ten)
  else if key_matches "tenant_id" k then text ten (λ x, mkToolCall i tool ps ag x)
  else acc.

Definition toolresult_member (acc : acc_of MCPToolResult) (e : string * json) : acc_of MCPToolResult :=
  let '(t, err) := acc in
  let '(k, j) := e in
  if key_matches "call_id" k then
    let '(x, err) := string_member type_error k (tr_CallID t) j err in (mkToolResult x (tr_Content t) (tr_IsError t), err)
  else if key_matches "content" k then (mkToolResult (tr_CallID t) (RawDoc j) (tr_IsError t), err)
  else if key_matches "is_error" k then
    let '(x, err) := bool_member type_error k (tr_IsError t) j err in (mkToolResult (tr_CallID t) (tr_Content t) x, err)
  else acc.

(** A pointer to a struct: [null] sets it to nil, an object is decoded into what it points to. *)
Definition pointer_member {A} (member : acc_of A → string * json → acc_of A) (zero : A) (field : string)
    (old : option A) (j : json) (err : option error) : acc_of (option A) :=
  match j with
  | JNull => (None, err)
  | _ => let '(x, err) := struct_member type_error member field (default zero old) j err in (Some x, err)
  end.

Definition message_member (acc : acc_of Message) (e : string * json) : acc_of Message :=
  let '(m, err) := acc in
  let '(k, j) := e in
  let 'mkMessage ty r st sc lg ct sp tc tr := m in
  if key_matches "type" k then
    let '(x, err) := string_member type_error k (MessageType_text ty) j err in (mkMessage (MessageType_of x) r st sc lg ct sp tc tr, err)
  else if key_matches "record" k then
    let '(x, err) := pointer_member (record_member type_error time_of) zero_record k r j err in (mkMessage ty x st sc lg ct sp tc tr, err)
  else if key_matches "state" k then
    let '(x, err) := pointer_member state_member (mkState (StateTypeOther "") "" RawEmpty) k st j err in (mkMessage ty r x sc lg ct sp tc tr, err)
  else if key_matches "schema" k then
    let '(x, err) := pointer_member schema_member (mkSchemaMessage "" RawEmpty SchemaChangeNone) k sc j err in (mkMessage ty r st x lg ct sp tc tr, err)
  else if key_matches "log" k then
    let '(x, err) := pointer_member log_member (mkLog (LogLevelOther "") "" zero_time RawEmpty) k lg j err in (mkMessage ty r st sc x ct sp tc tr, err)
  else if key_matches "control" k then
    let '(x, err) := pointer_member control_member (mkControl (ControlTypeOther "") "" RawEmpty) k ct j err in (mkMessage ty r st sc lg x sp tc tr, err)
  else if key_matches "spec" k then
    let '(x, err) := pointer_member spec_member (mkSpec "" RawEmpty) k sp j err in (mkMessage ty r st sc lg ct x tc tr, err)
  else if key_matches "mcp_tool_call" k then
    let '(x, err) := pointer_member toolcall_member (mkToolCall "" "" RawEmpty "" "") k tc j err in (mkMessage ty r st sc lg ct sp x tr, err)
  else if key_matches "mcp_tool_result" k then
    let '(x, err) := pointer_member toolresult_member (mkToolResult "" RawEmpty false) k tr j err in (mkMessage ty r st sc lg ct sp tc x, err)
  else acc.

Definition zero_message : Message := mkMessage (MessageTypeOther "") None None None None None None None None.

(** The library's scanner: the document a text starts with and the text after it. *)
Context (scan : string → res (json * string)).

(** [More] at the top level: what follows the white space is neither the end nor a closing bracket. *)
Fixpoint skip_json_space (bs : list ascii) : list ascii :=
  match bs with
  | c :: rest => if bool_decide (byte_val c ∈ [32; 9; 10; 13]) then skip_json_space rest else bs
  | [] => []
  end.
Definition More (text : string) : bool :=
  match skip_json_space (bytes_of text) with
  | [] => false
  | c :: _ => negb (bool_decide (c = "]"%char)) && negb (bool_decide (c = "}"%char))
  end.

Fixpoint decode_loop (fuel : nat) (text : string) (messages : list Message) : option (list Message * option error) :=
  if negb (More text) then Some (messages, None)
  else match fuel with
       | O => None
       | S fuel =>
           match scan text with
           | Err e => Some (messages, Some (ErrWrapf "decode protocol message" e))
           | Panic _ => None
           | Ok (j, rest) =>
               match unmarshal_struct type_error zero_message message_member (RawDoc j) with
               | Ok msg => decode_loop fuel rest (messages ++ [msg])
               | Err e => Some (messages, Some (ErrWrapf "decode protocol message" e))
               | Panic _ => None
               end
           end
       end.

Definition DecodeMessages (data : string) : option (list Message * option error) :=
  decode_loop (String.length data) data [].
End decode.

(** ** What a message carries *)

(** The payload a message of its type must have; [None] for a message that is refused. *)
Definition payload (msg : Message) : option call :=
  match msg_Type msg with
  | MessageTypeRecord => CallRecord <$> msg_Record msg
  | MessageTypeState => CallState <$> msg_State msg
  | MessageTypeLog => CallLog <$> msg_Log msg
  | MessageTypeControl => CallControl <$> msg_Control msg
  | MessageTypeSchema => CallSchema <$> msg_Schema msg
  | _ => None
  end.

Definition records_in (k : call) : list Rec := match k with CallRecord r => [r] | CallFlush b => b | _ => [] end.
Definition records_of (msgs : list Message) : list Rec := concat (map (λ m, from_option records_in [] (payload m)) msgs).

Definition stats_add (s : MessageStats) (msg : Message) : MessageStats :=
  let 'mkStats r st l c sc e := s in
  match payload msg with
  | None => mkStats r st l c sc (e + 1)
  | Some (CallRecord _) | Some (CallFlush _) => mkStats (r + 1) st l c sc e
  | Some (CallState _) => mkStats r (st + 1) l c sc e
  | Some (CallLog _) => mkStats r st (l + 1) c sc e
  | Some (CallControl _) => mkStats r st l (c + 1) sc e
  | Some (CallSchema _) => mkStats r st l c (sc + 1) e
  end.

Section routing.
Context {C : Type}.
Abbreviation handler := (MessageHandler C).

(** The parts of a handler that stay. *)
Definition same_handler (h h' : handler) : Prop :=
  onRecord h' = onRecord h ∧ onState h' = onState h ∧ onLog h' = onLog h ∧ onControl h' = onControl h ∧
  onSchema h' = onSchema h ∧ batchSize h' = batchSize h ∧ batchTimeout h' = batchTimeout h ∧ batchFlush h' = batchFlush h.

Definition wanted (h : handler) (k : call) : bool :=
  match k with
  | CallRecord _ => bool_decide (is_Some (onRecord h))
  | CallState _ => bool_decide (is_Some (onState h))
  | CallLog _ => bool_decide (is_Some (onLog h))
  | CallControl _ => bool_decide (is_Some (onControl h))
  | CallSchema _ => bool_decide (is_Some (onSchema h))
  | CallFlush _ => bool_decide (is_Some (batchFlush h))
  end.

Definition is_record (k : call) : bool := match k with CallRecord _ | CallFlush _ => true | _ => false end.

(** The invariant of the buffer and its timer, [fired] timers waiting for the lock. *)
Record buffered (fired : nat) (h : handler) : Prop := {
  buf_size : batchBuf h = [] ∨ Z.of_nat (length (batchBuf h)) < batchSize h;
  buf_on : batchBuf h ≠ [] → batching h = true;
  buf_timer : batchTimer h = true → batchBuf h ≠ [];
  buf_alive : 0 < batchTimeout h → batchBuf h ≠ [] → batchTimer h = true ∧ (timerArmed h = true ∨ (0 < fired)%nat)
}.

(** What a section that takes the message of a payload does. *)
Definition section_spec (h : handler) (msg : Message) (x : section_result C) : Prop :=
  let '(err, k, h') := x in
  same_handler h h' ∧ Stats h' = stats_add (Stats h) msg ∧
  match payload msg with
  | None => is_Some err ∧ k = None ∧ batchBuf h' = batchBuf h
  | Some (CallRecord r) =>
      err = None ∧
      if batching h
      then (k = None ∧ batchBuf h' = batchBuf h ++ [r]) ∨
           (k = Some (CallFlush (batchBuf h ++ [r])) ∧ batchBuf h' = [] ∧ batchSize h ≤ Z.of_nat (length (batchBuf h ++ [r])))
      else k = (if onRecord h then Some (CallRecord r) else None) ∧ batchBuf h' = batchBuf h
  | Some p => err = None ∧ k = (if wanted h p then Some p else None) ∧ batchBuf h' = batchBuf h
  end.

Lemma batching_spec (h : handler) : batching h = true → is_Some (batchFlush h) ∧ 0 < batchSize h.
Proof. unfold batching. intros [?%bool_decide_eq_true ?]%andb_true_iff. split; [done|lia]. Qed.

(** A full buffer is handed over. *)
Lemma flush_some (h : handler) : batching h = true → batchBuf h ≠ [] →
  ∃ timer armed, flushBatchLocked h = (Some (batchBuf h), with_batch h [] timer armed) ∧ timer = false.
Proof.
  intros [[f Hf] _]%batching_spec Hb. unfold flushBatchLocked. rewrite Hf.
  destruct (batchBuf h); [done|]. destruct (batchTimer h) eqn:Ht; eauto.
Qed.

Lemma is_Some_if {A B} (o : option A) (x y : B) : (if bool_decide (is_Some o) then x else y) = if o then x else y.
Proof. by destruct o. Qed.

Lemma snoc_not_nil {A} (l : list A) x : l ++ [x] ≠ [].
Proof. by destruct l. Qed.

Lemma RouteMessage_section fired (h : handler) msg :
  buffered fired h → section_spec h msg (RouteMessage h msg) ∧ buffered fired (RouteMessage h msg).2.
Proof.
  intros Hb. unfold RouteMessage, section_spec, stats_add, payload, handleState, handleLog, handleControl, handleSchema, count_error.
  destruct (msg_Type msg); cbn.
  6: { unfold handleRecord. destruct (msg_Record msg) as [r|]; cbn; [|by split; [|destruct Hb]].
    change (batching (with_counts h _ _ _ _ _ _)) with (batching h). destruct (batching h) eqn:Hon.
    - set (h1 := with_batch _ (batchBuf h ++ [r]) _ _).
      assert (Hn : batchBuf h1 ≠ []) by (cbn; apply snoc_not_nil).
      cbn [batchSize batchBuf with_batch with_counts].
      destruct (Z.leb_spec (batchSize h) (Z.of_nat (length (batchBuf h ++ [r])))) as [Hf|Hf].
      + destruct (flush_some h1 Hon Hn) as (timer & armed & -> & ->). cbn. split; [by split_and!; auto|].
        split; cbn; try done. by left.
      + destruct (negb _ && _) eqn:Ht; cbn; (split; [by split_and!; auto|]); split; cbn; try done; auto.
        * intros Hpos _. apply andb_false_iff in Ht as [Ht%negb_false_iff|Ht]; [|cbn in Ht; lia]. split; [done|].
          destruct Hb as [_ _ Htm Hal]. by apply Hal, Htm.
    - split; [by split_and!|]. by destruct Hb. }
  all: try (split; [by split_and!|by destruct Hb]).
  all: destruct (msg_State msg), (msg_Log msg), (msg_Control msg), (msg_Schema msg); cbn; rewrite ?is_Some_if; (split; [by (repeat split)|by destruct Hb]).
Qed.

Lemma FlushBatch_section fired (h : handler) :
  buffered fired h →
  let '(err, k, h') := FlushBatch h in
  err = None ∧ same_handler h h' ∧ Stats h' = Stats h ∧ batchBuf h' = [] ∧
  k = match batchBuf h with [] => None | b => Some (CallFlush b) end ∧
  ∀ fired', buffered fired' h'.
Proof.
  intros Hb. unfold FlushBatch. destruct (decide (batchBuf h = [])) as [He|He].
  - unfold flushBatchLocked. rewrite He. assert (Hf : (match batchFlush h with Some _ | _ => (None : option (list Rec), h) end) = (None, h)) by (by destruct (batchFlush h)).
    destruct (batchFlush h); cbn; (split_and!; try done); intros fired'; destruct Hb as [Hs Ho Ht Ha]; split; rewrite ?He; try done; auto; naive_solver.
  - destruct (flush_some h (buf_on _ _ Hb He) He) as (timer & armed & -> & ->). cbn.
    split_and!; try done; [by destruct (batchBuf h)|]. intros fired'. split; cbn; try done. by left.
Qed.
End routing.

(** ** Concurrent callers and timers

    Any number of goroutines route messages; each, and each timer that fires, has one section and then makes
    its call. *)
Section system.
Context {C : Type}.
Abbreviation handler := (MessageHandler C).

Record hsys := mkHsys {
  hd : handler;
  pending : list call;          (** calls about to be made *)
  fired : nat;                  (** timers that fired and wait for the lock *)
  calls : list call;            (** calls made *)
  routed : list Message         (** messages routed *)
}.

Definition sys_init (h : handler) : hsys := mkHsys h [] 0 [] [].

Definition add_call (k : option call) (l : list call) : list call := match k with Some k => l ++ [k] | None => l end.

Definition do_route (s : hsys) (msg : Message) : hsys :=
  let '(_, k, h) := RouteMessage (hd s) msg in
  mkHsys h (add_call k (pending s)) (fired s) (calls s) (routed s ++ [msg]).
Definition do_flush (s : hsys) (fired : nat) : hsys :=
  let '(_, k, h) := FlushBatch (hd s) in
  mkHsys h (add_call k (pending s)) fired (calls s) (routed s).
Definition do_fire (s : hsys) : hsys :=
  mkHsys (with_batch (hd s) (batchBuf (hd s)) (batchTimer (hd s)) false) (pending s) (S (fired s)) (calls s) (routed s).

Inductive hstep : hsys → hsys → Prop :=
| step_route s msg : hstep s (do_route s msg)
| step_flush s : hstep s (do_flush s (fired s))
| step_fire s : timerArmed (hd s) = true → hstep s (do_fire s)
| step_timer s n : fired s = S n → hstep s (do_flush s n)
| step_call s l1 k l2 : pending s = l1 ++ k :: l2 →
    hstep s (mkHsys (hd s) (l1 ++ l2) (fired s) (calls s ++ [k]) (routed s)).

Definition hreachable (h : handler) : hsys → Prop := rtc hstep (sys_init h).

(** A handler as options make it. *)
Definition fresh (h : handler) : Prop :=
  batchBuf h = [] ∧ batchTimer h = false ∧ Stats h = mkStats 0 0 0 0 0 0.

Definition batch_of (k : call) : Prop := match k with CallFlush b => b ≠ [] | _ => True end.
Definition fits (size : Z) (k : call) : Prop := match k with CallFlush b => 0 < Z.of_nat (length b) ≤ size | _ => True end.
Definition carried (ks : list call) : list Rec := concat (map records_in ks).

Record hinv (h0 : handler) (s : hsys) : Prop := {
  h_same : same_handler h0 (hd s);
  h_buf : buffered (fired s) (hd s);
  h_stats : Stats (hd s) = foldl stats_add (mkStats 0 0 0 0 0 0) (routed s);
  h_recs : records_of (routed s) ≡ₚ carried (calls s) ++ carried (pending s) ++ batchBuf (hd s);
  h_fits : Forall (fits (batchSize h0)) (calls s ++ pending s);
  h_other : List.filter (λ k, negb (is_record k)) (omap payload (routed s)) ≡ₚ
            List.filter (λ k, negb (is_record k)) (calls s ++ pending s)
}.

Lemma carried_app ks ks' : carried (ks ++ ks') = carried ks ++ carried ks'.
Proof. unfold carried. by rewrite map_app, concat_app. Qed.
Lemma carried_add k ks : carried (add_call k ks) = carried ks ++ from_option records_in [] k.
Proof. destruct k as [k|]; unfold add_call; [|by rewrite app_nil_r]. rewrite carried_app. f_equal. apply app_nil_r. Qed.
Lemma records_of_snoc msgs m : records_of (msgs ++ [m]) = records_of msgs ++ from_option records_in [] (payload m).
Proof. unfold records_of. rewrite map_app, concat_app. f_equal. apply app_nil_r. Qed.
Lemma same_trans (h h' h'' : handler) : same_handler h h' → same_handler h' h'' → same_handler h h''.
Proof. intros (?&?&?&?&?&?&?&?) (?&?&?&?&?&?&?&?). unfold same_handler. split_and!; congruence. Qed.
Lemma batching_same (h h' : handler) : same_handler h h' → batching h' = batching h.
Proof. intros (?&?&?&?&?&Hs&?&Hf). unfold batching. by rewrite Hs, Hf. Qed.
Lemma wanted_same (h h' : handler) k : same_handler h h' → wanted h' k = wanted h k.
Proof. intros (E1&E2&E3&E4&E5&_&_&E6). destruct k; cbn; by rewrite ?E1, ?E2, ?E3, ?E4, ?E5, ?E6. Qed.
Lemma same_refl (h : handler) : same_handler h h.
Proof. by repeat split. Qed.

(** All callbacks are there and records are batched. *)
Definition listens (h : handler) : Prop := batching h = true ∧ ∀ k, is_record k = false → wanted h k = true.

Lemma payload_cases m p : payload m = Some p → (∃ r, p = CallRecord r) ∨ is_record p = false.
Proof.
  unfold payload. destruct (msg_Type m); try done; intros Hp;
    destruct (msg_Record m), (msg_State m), (msg_Log m), (msg_Control m), (msg_Schema m); cbn in Hp; try done;
    injection Hp as <-; cbn; eauto.
Qed.

Lemma add_call_perm (l1 : list call) k l2 l : l1 ++ k :: l2 = l → l1 ++ l2 ++ [k] ≡ₚ l.
Proof. intros <-. apply Permutation_app_head. symmetry. apply Permutation_cons_append. Qed.

#[local] Instance list_filter_perm {A} (f : A → bool) : Proper ((≡ₚ) ==> (≡ₚ)) (List.filter f).
Proof.
  intros l k. induction 1 as [|x l k _ IH|x y l|l1 l2 l3 _ IH1 _ IH2]; cbn; repeat case_match; auto using perm_swap.
  all: by etrans.
Qed.

Lemma hinv_route h0 s msg : listens h0 → hinv h0 s → hinv h0 (do_route s msg).
Proof.
  intros [Hon Hw] [Hsame Hbuf Hst Hrecs Hfits Hother].
  destruct (RouteMessage_section (fired s) (hd s) msg Hbuf) as [Hspec Hbuf']. unfold do_route.
  destruct (RouteMessage (hd s) msg) as [[err k] h']. destruct Hspec as (Hs & Hstats & Hp). cbn [snd] in Hbuf'.
  assert (Hon' : batching (hd s) = true) by (by rewrite (batching_same _ _ Hsame)).
  split; cbn [hd pending fired calls routed]; [by eapply same_trans|done| | | |].
  - by rewrite foldl_app, <- Hst.
  - rewrite records_of_snoc, carried_add, Hrecs. destruct (payload msg) as [p|] eqn:Hpay; cbn [from_option].
    2:{ destruct Hp as (_ & -> & ->). cbn. by rewrite !app_nil_r. }
    destruct (payload_cases _ _ Hpay) as [[r ->]|Hnr].
    + rewrite Hon' in Hp. destruct Hp as (_ & [[-> ->]|(-> & -> & _)]); cbn; rewrite ?app_nil_r, <- ?app_assoc; done.
    + assert (Hpb : (k = None ∨ k = Some p) ∧ batchBuf h' = batchBuf (hd s)).
      { destruct p; try done; destruct Hp as (_ & -> & ->); (split; [|done]); destruct (wanted _ _); auto. }
      destruct Hpb as [[-> | ->] ->]; (destruct p; try done); cbn; by rewrite !app_nil_r.
  - rewrite list.Forall_app in Hfits. destruct Hfits as [Hf1 Hf2]. apply list.Forall_app. split; [done|].
    destruct k as [k|]; cbn; [|done]. apply list.Forall_app. split; [done|]. constructor; [|done].
    destruct (payload msg) as [p|] eqn:Hpay; [|by destruct Hp as (_ & ? & _)].
    destruct (payload_cases _ _ Hpay) as [[r ->]|Hnr].
    + rewrite Hon' in Hp. destruct Hp as (_ & [[? _]|([= ->] & _ & Hlen)]); [done|]. cbn.
      apply batching_spec in Hon' as [_ Hpos]. destruct Hsame as (_&_&_&_&_&Hsz&_). rewrite <- Hsz.
      rewrite length_app in *. cbn in *. destruct (buf_size _ _ Hbuf) as [He|He]; [rewrite He in *; cbn in *|]; lia.
    + destruct p; try done; destruct Hp as (_ & Hk & _); (destruct (wanted _ _); [by injection Hk as ->|done]).
  - rewrite omap_app, List.filter_app, Hother. rewrite !List.filter_app.
    assert (Hk : List.filter (λ k, negb (is_record k)) (omap payload [msg]) =
                 List.filter (λ k, negb (is_record k)) (add_call k [])).
    { cbn. destruct (payload msg) as [p|] eqn:Hpay; [|by destruct Hp as (_ & -> & _)].
      destruct (payload_cases _ _ Hpay) as [[r ->]|Hnr].
      - rewrite Hon' in Hp. by destruct Hp as (_ & [[-> _]|(-> & _ & _)]).
      - assert (Hkp : k = Some p); [|by rewrite Hkp].
        destruct p; try done; destruct Hp as (_ & -> & _); by rewrite (wanted_same _ _ _ Hsame), Hw. }
    rewrite Hk. destruct k; cbn [add_call]; rewrite ?List.filter_app; cbn; by rewrite ?app_nil_r, ?app_assoc.
Qed.

Lemma hinv_flush h0 s n : hinv h0 s → hinv h0 (do_flush s n).
Proof.
  intros [Hsame Hbuf Hst Hrecs Hfits Hother]. unfold do_flush.
  pose proof (FlushBatch_section (fired s) (hd s) Hbuf) as Hf.
  destruct (FlushBatch (hd s)) as [[err k] h']. destruct Hf as (_ & Hs & Hstats & Hb & Hk & Hbuf').
  split; cbn [hd pending fired calls routed]; [by eapply same_trans|done| | | |].
  - by rewrite Hstats.
  - rewrite carried_add, Hrecs, Hb, Hk. destruct (batchBuf (hd s)); cbn; by rewrite ?app_nil_r.
  - rewrite list.Forall_app in Hfits. destruct Hfits as [Hf1 Hf2]. apply list.Forall_app. split; [done|].
    rewrite Hk. destruct (batchBuf (hd s)) as [|r rs] eqn:Hbs; [done|]. apply list.Forall_app. split; [done|]. constructor; [|done].
    destruct Hsame as (_&_&_&_&_&Hsz&_). destruct (buf_size _ _ Hbuf) as [He|He]; rewrite Hbs in He; [done|].
    rewrite Hsz in He. cbn in *. lia.
  - rewrite Hother, Hk. destruct (batchBuf (hd s)); cbn [add_call]; [done|].
    rewrite !List.filter_app. cbn. by rewrite app_nil_r.
Qed.

Lemma hinv_step h0 s s' : listens h0 → hinv h0 s → hstep s s' → hinv h0 s'.
Proof.
  intros Hl Hinv Hstep. destruct Hstep as [s msg|s|s Ha|s n Hn|s l1 k l2 Hp].
  - by apply hinv_route.
  - by apply hinv_flush.
  - destruct Hinv as [Hsame [B1 B2 B3 B4] Hst Hrecs Hfits Hother]. split; try done.
    split; cbn; try done. intros H1 H2. split; [by apply B4|right; lia].
  - by apply hinv_flush.
  - destruct Hinv as [Hsame Hbuf Hst Hrecs Hfits Hother].
    assert (Hperm : (calls s ++ [k]) ++ l1 ++ l2 ≡ₚ calls s ++ pending s).
    { rewrite Hp, <- app_assoc. apply Permutation_app_head. cbn. apply Permutation_middle. }
    split; cbn [hd pending fired calls routed]; try done.
    + rewrite Hrecs, !app_assoc, <- !carried_app. apply Permutation_app_tail. unfold carried. by rewrite <- Hperm.
    + by rewrite Hperm.
    + by rewrite Hother, Hperm.
Qed.

(** C12: nothing a connector sends is lost or given twice, with any number of goroutines routing messages and
    with the flush timer racing them.  In every reachable state of a handler that batches records, the counters count the
    messages routed, and the refused ones as errors; the records given to the flush callback, the ones in a batch about to be given and
    the ones in the buffer are the records received; the other payloads are given, or about to be, to their
    callbacks; batches are not empty and have at most [batchSize] records; and records in the
    buffer are not forgotten: the timer will fire or has fired, if there is a timeout. *)
Theorem messages_accounted h s :
  fresh h → listens h → hreachable h s →
  Stats (hd s) = foldl stats_add (mkStats 0 0 0 0 0 0) (routed s) ∧
  records_of (routed s) ≡ₚ carried (calls s) ++ carried (pending s) ++ batchBuf (hd s) ∧
  List.filter (λ k, negb (is_record k)) (omap payload (routed s)) ≡ₚ
    List.filter (λ k, negb (is_record k)) (calls s ++ pending s) ∧
  Forall (fits (batchSize h)) (calls s ++ pending s) ∧
  (0 < batchTimeout h → batchBuf (hd s) ≠ [] → timerArmed (hd s) = true ∨ (0 < fired s)%nat).
Proof.
  intros (Hb & Ht & Hst) Hl Hr.
  assert (Hinit : hinv h (sys_init h)).
  { split; cbn; rewrite ?Hb; try done. split; rewrite ?Hb; try done; [by left|by rewrite Ht]. }
  assert (Hinv : hinv h s) by (clear - Hr Hinit Hl; revert Hinit; induction Hr as [|x y z Hxy Hyz IH]; [done|eauto using hinv_step]).
  destruct Hinv as [Hsame Hbuf Hstats Hrecs Hfits Hother]. split_and!; try done.
  intros Hto Hne. destruct Hsame as (_&_&_&_&_&_&Hto'&_). by apply (buf_alive _ _ Hbuf); [rewrite Hto'|].
Qed.
End system.

(** ** One goroutine *)
Section sequential.
Context {C : Type}.
Abbreviation handler := (MessageHandler C).

Definition make_calls (h : handler) (ks : list call) (c : C) : C := foldl (λ c k, make_call h k c) c ks.

Lemma make_call_same (h h' : handler) k c : same_handler h h' → make_call h' k c = make_call h k c.
Proof. intros (E1&E2&E3&E4&E5&_&_&E6). destruct k; cbn; by rewrite ?E1, ?E2, ?E3, ?E4, ?E5, ?E6. Qed.

Definition full (size : Z) (k : call) : Prop := match k with CallFlush b => Z.of_nat (length b) = size | _ => True end.

(** The calls [ks] and the buffer [buf] that come of the messages [msgs], after [buf0]. *)
Record batched (h : handler) (buf0 : list Rec) (msgs : list Message) (ks : list call) (buf : list Rec) : Prop := {
  bt_recs : buf0 ++ records_of msgs = carried ks ++ buf;
  bt_full : Forall (full (batchSize h)) ks;
  bt_other : List.filter (λ k, negb (is_record k)) ks = List.filter (λ k, negb (is_record k)) (omap payload msgs)
}.

Lemma batched_step (h : handler) msg k buf0 buf1 msgs ks buf :
  buf0 ++ records_of [msg] = from_option records_in [] k ++ buf1 →
  from_option (full (batchSize h)) True k →
  List.filter (λ k, negb (is_record k)) (add_call k []) = List.filter (λ k, negb (is_record k)) (omap payload [msg]) →
  batched h buf1 msgs ks buf → batched h buf0 (msg :: msgs) (add_call k [] ++ ks) buf.
Proof.
  intros H1 H2 H3 [B1 B2 B3]. split.
  - change (msg :: msgs) with ([msg] ++ msgs). unfold records_of in *. rewrite map_app, concat_app, app_assoc, H1.
    rewrite carried_app, <- !app_assoc, B1. destruct k; unfold carried; cbn; by rewrite ?app_nil_r.
  - apply list.Forall_app. split; [|done]. destruct k; cbn; [by constructor|done].
  - rewrite List.filter_app, H3, B3. change (msg :: msgs) with ([msg] ++ msgs). by rewrite omap_app, List.filter_app.
Qed.

(** One goroutine that feeds a channel to a handler with batches.  If every message has its payload there is no
    error, the records reach the flush callback in order, in batches of [batchSize] but for the last, which
    holds the rest, the other payloads reach their callbacks in order, and the buffer ends empty.
    Otherwise the messages before the first bad one are handled like this, except that the records that do not fill
    a batch stay in the buffer, the error is returned and what follows is not read. *)
Theorem ProcessChannel_spec (h : handler) msgs c err h' c' :
  buffered 0 h → listens h → ProcessChannel msgs h c = (err, h', c') →
  ∃ ks buf pre, batched h (batchBuf h) pre ks buf ∧ (buf = [] ∨ Z.of_nat (length buf) < batchSize h) ∧
    match err with
    | None => pre = msgs ∧ Forall (λ m, is_Some (payload m)) msgs ∧ batchBuf h' = [] ∧
              c' = make_calls h (ks ++ match buf with [] => [] | _ => [CallFlush buf] end) c
    | Some _ => batchBuf h' = buf ∧ c' = make_calls h ks c ∧
                ∃ bad post, msgs = pre ++ bad :: post ∧ payload bad = None ∧ Forall (λ m, is_Some (payload m)) pre
    end.
Proof.
  revert h c. induction msgs as [|msg msgs IH]; intros h c Hbuf [Hon Hw]; cbn [ProcessChannel].
  - pose proof (FlushBatch_section 0 h Hbuf) as Hf. destruct (FlushBatch h) as [[e k] h1].
    destruct Hf as (-> & Hsame & _ & Hb & -> & _). cbn. intros [= <- <- <-].
    exists [], (batchBuf h), []. split; [by split; unfold records_of, carried; cbn; rewrite ?app_nil_r|].
    split; [apply Hbuf|]. split_and!; try done.
    destruct (batchBuf h); [done|]. cbn [app make_calls foldl]. by rewrite (make_call_same h h1).
  - destruct (RouteMessage_section 0 h msg Hbuf) as [Hspec Hbuf1].
    destruct (RouteMessage h msg) as [[e k] h1] eqn:Hroute. destruct Hspec as (Hsame & _ & Hp). cbn [snd] in Hbuf1.
    assert (Hsz : batchSize h1 = batchSize h) by apply Hsame.
    destruct (payload msg) as [p|] eqn:Hpay.
    2:{ destruct Hp as ([e' ->] & -> & Hb). cbn. intros [= <- <- <-]. exists [], (batchBuf h), [].
        split; [by split; unfold records_of, carried; cbn; rewrite ?app_nil_r|]. split; [apply Hbuf|].
        split_and!; try done. by exists msg, msgs. }
    assert (Hk : e = None ∧ batchBuf h ++ records_of [msg] = from_option records_in [] k ++ batchBuf h1 ∧
                 from_option (full (batchSize h)) True k ∧
                 List.filter (λ k, negb (is_record k)) (add_call k []) = List.filter (λ k, negb (is_record k)) (omap payload [msg])).
    { unfold records_of. cbn. rewrite Hpay. cbn. rewrite app_nil_r. destruct (payload_cases _ _ Hpay) as [[r ->]|Hnr].
      - rewrite Hon in Hp. destruct Hp as (-> & [[-> ->]|(-> & -> & Hlen)]); cbn; [done|]. rewrite app_nil_r. split_and!; try done.
        rewrite length_app in *. cbn in *. apply batching_spec in Hon as [_ Hpos].
        destruct (buf_size _ _ Hbuf) as [He|He]; [rewrite He in *; cbn in *|]; lia.
      - assert (Hkp : e = None ∧ k = Some p ∧ batchBuf h1 = batchBuf h).
        { destruct p; try done; destruct Hp as (-> & -> & ->); by rewrite Hw. }
        destruct Hkp as (-> & -> & ->). destruct p; try done; cbn; by rewrite app_nil_r. }
    destruct Hk as (-> & Hr1 & Hr2 & Hr3). cbn [complete]. intros Hrest.
    apply IH in Hrest as (ks & buf & pre & Hbt & Hsize & Hcase); [|done|].
    2:{ split; [by rewrite (batching_same _ _ Hsame)|]. intros k' Hk'. rewrite (wanted_same _ _ _ Hsame). auto. }
    exists (add_call k [] ++ ks), buf, (msg :: pre). rewrite Hsz in Hsize. split_and!; [|done|].
    { apply (batched_step h msg k _ (batchBuf h1)); try done. destruct Hbt as [B1 B2 B3]. split; try done. by rewrite <- Hsz. }
    assert (Hcalls : ∀ l c, make_calls h1 l c = make_calls h l c).
    { intros l. induction l as [|x l IHl]; intros c0; [done|]. cbn [make_calls foldl]. fold (make_calls h1 l) (make_calls h l).
      rewrite (make_call_same h h1) by done. apply IHl. }
    assert (Hfirst : ∀ l, make_calls h (add_call k [] ++ l) c = make_calls h l (match k with Some k => make_call h1 k c | None => c end)).
    { intros l. destruct k; [|done]. cbn. by rewrite (make_call_same h h1). }
    destruct err as [er|].
    + destruct Hcase as (Hb & -> & bad & post & -> & Hbad & Hall). rewrite Hcalls. split_and!; [done|by rewrite Hfirst|].
      exists bad, post. split_and!; try done. constructor; [by rewrite Hpay|done].
    + destruct Hcase as (-> & Hall & Hb & ->). rewrite Hcalls. split_and!; [done|constructor; [by rewrite Hpay|done]|done|].
      by rewrite <- app_assoc, Hfirst.
Qed.

(** A checkpoint overtakes the records it covers: with a batch under way, a state message reaches its callback
    while the records before it are still in the buffer. *)
Theorem state_before_its_records (h : handler) r s onst fl c :
  batchFlush h = Some fl → onState h = Some onst → Z.of_nat (length (batchBuf h)) + 1 < batchSize h →
  ∃ h', ProcessChannel [record_message r; state_message s] h c = (None, h', fl (batchBuf h ++ [r]) (onst s c)).
Proof.
  intros Hf Hs Hl. cbn [ProcessChannel]. unfold RouteMessage. cbn [msg_Type record_message state_message].
  unfold handleRecord, batching. cbn [msg_Record record_message batchFlush with_counts batchSize with_batch batchBuf].
  rewrite Hf. rewrite bool_decide_true by eauto. cbn [andb].
  assert (Hpos : 0 <? batchSize h = true) by (apply Z.ltb_lt; lia). rewrite Hpos.
  assert (Hlt : batchSize h <=? Z.of_nat (length (batchBuf h ++ [r])) = false).
  { apply Z.leb_gt. rewrite length_app. cbn. lia. }
  rewrite Hlt. unfold FlushBatch, flushBatchLocked, handleState. destruct (negb _ && _); cbn; rewrite Hs, Hf; cbn.
  all: destruct (batchBuf h ++ [r]) as [|x l] eqn:Hb; [exfalso; by apply (snoc_not_nil (batchBuf h) r)|].
  all: repeat case_match; simplify_eq; eexists; simpl; unfold default; rewrite ?Hf, ?Hs; simpl; rewrite ?Hf, ?Hs; reflexivity.
Qed.
End sequential.

(** ** Decoding *)

Section decoding.
Context (type_error : string → json → error) (time_of : string → option Z) (time_text : Z → string).
Context (scan : string → res (json * string)).

Lemma unmarshal_message_total j :
  (∃ m, unmarshal_struct type_error zero_message (message_member type_error time_of) (RawDoc j) = Ok m) ∨
  (∃ e, unmarshal_struct type_error zero_message (message_member type_error time_of) (RawDoc j) = Err e).
Proof. cbn. destruct (struct_member _ _ _ _ _ _) as [a [e|]]; eauto. Qed.

(** Decoding ends on every text. *)
Theorem DecodeMessages_total data :
  (∀ t p, scan t ≠ Panic p) → (∀ t j rest, scan t = Ok (j, rest) → (String.length rest < String.length t)%nat) →
  DecodeMessages type_error time_of scan data ≠ None.
Proof.
  intros Hnp Hless. unfold DecodeMessages.
  cut (∀ fuel data ms, (String.length data ≤ fuel)%nat → decode_loop type_error time_of scan fuel data ms ≠ None); [auto|].
  clear data. induction fuel as [|fuel IH]; intros data ms Hf; cbn [decode_loop].
  - destruct (More data) eqn:Hm; cbn [negb]; [|done]. destruct data; [done|cbn in Hf; lia].
  - destruct (More data); cbn [negb]; [|done].
    destruct (scan data) as [[j rest]|e|p] eqn:Hs; [|done|by destruct (Hnp data p)].
    destruct (unmarshal_message_total j) as [[m ->]|[e ->]]; [|done]. apply Hless in Hs. apply IH. lia.
Qed.

(** A closing bracket between messages ends the decoding, and is not reported. *)
Theorem decoding_stops_at_bracket data c rest :
  skip_json_space (bytes_of data) = c :: rest → c = "]"%char ∨ c = "}"%char →
  DecodeMessages type_error time_of scan data = Some ([], None).
Proof.
  intros Hs Hc. unfold DecodeMessages. assert (Hm : More data = false) by (unfold More; rewrite Hs; by destruct Hc as [-> | ->]).
  destruct (String.length data); cbn [decode_loop]; by rewrite Hm.
Qed.

(** What [json.Marshal] makes of a record message. *)
Definition message_json (r : Rec) : res json :=
  j ← record_json time_text r; Ok (JObj [("type", JStr "RECORD"); ("record", j)]).
Definition record_back (r : Rec) : Rec := mkRec (rec_Stream r) (rec_Namespace r) (raw_back (rec_Data r)) (rec_EmittedAt r).

Lemma message_decode r j :
  time_of (time_text (rec_EmittedAt r)) = Some (rec_EmittedAt r) → message_json r = Ok j →
  unmarshal_struct type_error zero_message (message_member type_error time_of) (RawDoc j) = Ok (record_message (record_back r)).
Proof.
  intros Ht. unfold message_json. destruct (record_json time_text r) as [jr|?|?] eqn:Hr; [|done..]. cbn [mbind outcome_bind]. intros [= <-].
  pose proof (record_roundtrip type_error time_text time_of r jr Ht Hr) as Hback.
  cbn [unmarshal_struct struct_member foldl]. unfold message_member at 2, zero_message. match_keys.
  cbn [string_member]. unfold message_member. match_keys.
  unfold pointer_member. assert (Hobj : ∃ l, jr = JObj l).
  { unfold record_json in Hr. destruct (raw_json _); [|done..]. injection Hr as <-. eauto. }
  destruct Hobj as [l ->]. cbn [default]. cbn [struct_member] in *. by rewrite Hback.
Qed.

Definition newline : string := String "010" "".
Definition encode_lines (text : json → string) (docs : list json) : string :=
  String.concat "" (map (λ j, text j +:+ newline) docs).

Lemma string_length_app a b : String.length (a +:+ b) = (String.length a + String.length b)%nat.
Proof. induction a as [|x a IH]; [done|]. change (S (String.length (a +:+ b)) = S (String.length a + String.length b)%nat). by rewrite IH. Qed.

Lemma string_app_empty s : s +:+ "" = s.
Proof. induction s as [|x s IH]; [done|]. change (String x s +:+ "") with (String x (s +:+ "")). by rewrite IH. Qed.

Lemma encode_lines_cons text j docs : encode_lines text (j :: docs) = text j +:+ newline +:+ encode_lines text docs.
Proof.
  rewrite <- string_app_assoc. destruct docs as [|d docs]; [|reflexivity]. unfold encode_lines. cbn. by rewrite string_app_empty.
Qed.

(** Records written a message to a line are read back as they were (no data as [null]), however many there are.
    It is relied on that the library reads the text of a document it wrote, up to the line break after it and
    past one before it, and that such a text starts with a brace. *)
Theorem DecodeMessages_lines (text : json → string) recs docs :
  Forall (λ r, time_of (time_text (rec_EmittedAt r)) = Some (rec_EmittedAt r)) recs →
  Forall2 (λ r j, message_json r = Ok j) recs docs →
  (∀ pre j rest, pre = "" ∨ pre = newline → j ∈ docs →
     scan (pre +:+ text j +:+ newline +:+ rest) = Ok (j, newline +:+ rest) ∧ ∃ t, text j = String "{" t) →
  DecodeMessages type_error time_of scan (encode_lines text docs) =
    Some (map (λ r, record_message (record_back r)) recs, None).
Proof.
  intros Ht H2 Hscan. unfold DecodeMessages.
  assert (Hgen : ∀ fuel pre ms, pre = "" ∨ pre = newline → (length docs ≤ fuel)%nat →
    decode_loop type_error time_of scan fuel (pre +:+ encode_lines text docs) ms =
    Some (ms ++ map (λ r, record_message (record_back r)) recs, None)).
  { revert recs Ht H2. induction docs as [|j docs IH]; intros recs Ht H2 fuel pre ms Hpre Hf.
    - apply Forall2_nil_inv_r in H2 as ->. cbn. rewrite app_nil_r. by destruct fuel, Hpre as [-> | ->].
    - apply Forall2_cons_inv_r in H2 as (r & recs' & Hr & H2 & ->). apply list.Forall_cons in Ht as [Hrt Ht].
      destruct fuel as [|fuel]; [cbn in Hf; lia|].
      destruct (Hscan pre j (encode_lines text docs) Hpre) as [Hs [t Htext]]; [apply list_elem_of_here|].
      rewrite encode_lines_cons.
      assert (Hm : More (pre +:+ text j +:+ newline +:+ encode_lines text docs) = true) by (rewrite Htext; by destruct Hpre as [-> | ->]).
      cbn [decode_loop]. rewrite Hm, Hs, (message_decode r j) by done. cbn [negb].
      rewrite (IH (λ pre j rest Hpre Hj, Hscan pre j rest Hpre (list_elem_of_further _ _ _ Hj)) recs' Ht H2); [|by right|cbn in Hf; lia].
      cbn. by rewrite <- app_assoc. }
  apply (Hgen _ "" []); [by left|]. clear - text. induction docs as [|j docs IH]; [cbn; lia|].
  rewrite encode_lines_cons. rewrite !string_length_app. cbn. lia.
Qed.
End decoding.

(** ** Witnesses *)

(** A handler that notes its calls, with batches of two records. *)
Definition noting (size timeout : Z) : res (MessageHandler (list call)) :=
  NewMessageHandler
    [WithRecordHandler (λ r c, c ++ [CallRecord r]); WithStateHandler (λ s c, c ++ [CallState s]);
     WithLogHandler (λ l c, c ++ [CallLog l]); WithControlHandler (λ k c, c ++ [CallControl k]);
     WithSchemaHandler (λ s c, c ++ [CallSchema s]);
     WithBatchAccumulation size timeout (λ b c, c ++ [CallFlush b])].
Definition pairs : MessageHandler (list call) := from_ok new_handler (noting 2 (5 * second)).

Definition row (s : string) : Rec := mkRec "users" "" (RawDoc (JStr s)) 0.
Definition checkpoint : State := mkState StateTypeStream "users" (RawDoc (JNum (NLit "7" 7 0))).

Lemma pairs_listens : listens pairs.
Proof. split; [reflexivity|]. intros [r|s|l|c|s|b] Hk; try done; reflexivity. Qed.

Lemma pairs_buffered : buffered 0 pairs.
Proof. split; try done. by left. Qed.

(** A batch of two is on its way, a third record waits, its timer has fired. *)
Definition busy : hsys := do_fire (do_route (do_route (do_route (do_route (sys_init pairs) (record_message (row "a")))
  (state_message checkpoint)) (record_message (row "b"))) (record_message (row "c"))).

Lemma messages_accounted_witness :
  Stats (hd busy) = foldl stats_add (mkStats 0 0 0 0 0 0) (routed busy) ∧
  records_of (routed busy) ≡ₚ carried (calls busy) ++ carried (pending busy) ++ batchBuf (hd busy) ∧
  List.filter (λ k, negb (is_record k)) (omap payload (routed busy)) ≡ₚ
    List.filter (λ k, negb (is_record k)) (calls busy ++ pending busy) ∧
  Forall (fits (batchSize pairs)) (calls busy ++ pending busy) ∧
  (0 < batchTimeout pairs → batchBuf (hd busy) ≠ [] → timerArmed (hd busy) = true ∨ (0 < fired busy)%nat).
Proof.
  apply (messages_accounted pairs busy); [done|apply pairs_listens|]. unfold busy, hreachable.
  eapply rtc_l; [apply (step_route _ (record_message (row "a")))|]. eapply rtc_l; [apply (step_route _ (state_message checkpoint))|].
  eapply rtc_l; [apply (step_route _ (record_message (row "b")))|]. eapply rtc_l; [apply (step_route _ (record_message (row "c")))|].
  apply rtc_once, step_fire. reflexivity.
Defined.

Definition three_rows : list Message :=
  [record_message (row "a"); state_message checkpoint; record_message (row "b"); record_message (row "c")].

(** The checkpoint comes before the record that precedes it. *)
Example calls_of_three_rows :
  (ProcessChannel three_rows pairs []).2 =
    [CallState checkpoint; CallFlush [row "a"; row "b"]; CallFlush [row "c"]].
Proof. vm_compute. reflexivity. Qed.

Definition three_done : option error * MessageHandler (list call) * list call := ProcessChannel three_rows pairs [].

Lemma ProcessChannel_spec_witness :
  ∃ ks buf pre, batched pairs (batchBuf pairs) pre ks buf ∧ (buf = [] ∨ Z.of_nat (length buf) < batchSize pairs) ∧
    pre = three_rows ∧ Forall (λ m, is_Some (payload m)) three_rows ∧ batchBuf three_done.1.2 = [] ∧
    three_done.2 = make_calls pairs (ks ++ match buf with [] => [] | _ => [CallFlush buf] end) [].
Proof.
  refine (ProcessChannel_spec pairs three_rows [] None three_done.1.2 three_done.2 pairs_buffered pairs_listens _).
  vm_compute. reflexivity.
Defined.

Lemma state_before_its_records_witness :
  ∃ h', ProcessChannel [record_message (row "a"); state_message checkpoint] pairs [] =
        (None, h', [CallState checkpoint] ++ [CallFlush [row "a"]]).
Proof.
  apply (state_before_its_records pairs (row "a") checkpoint (λ s c, c ++ [CallState s]) (λ b c, c ++ [CallFlush b]) []); reflexivity.
Defined.

(** After a bad message the records in the buffer stay there. *)
Example error_leaves_buffer :
  let '(err, h, c) := ProcessChannel [record_message (row "a"); mkMessage MessageTypeState None None None None None None None None] pairs [] in
  err = Some (ErrText "STATE message has nil state payload") ∧ batchBuf h = [row "a"] ∧ c = [] ∧
  Stats h = mkStats 1 0 0 0 0 1.
Proof. vm_compute. done. Qed.

Definition a_text : string := "{a}".
Definition row_doc : json :=
  JObj [("type", JStr "RECORD"); ("record", JObj [("stream", JStr "users"); ("data", JStr "a"); ("emitted_at", JStr "t0")])].
Definition field_error (f : string) (_ : json) : error := ErrText f.
(** A scanner for texts of this one document. *)
Definition row_scan (s : string) : res (json * string) :=
  if HasPrefix s a_text then Ok (row_doc, TrimPrefix s a_text)
  else if HasPrefix s (newline +:+ a_text) then Ok (row_doc, TrimPrefix s (newline +:+ a_text)) else Err (ErrText "invalid character").

Lemma row_scan_spec pre rest : pre = "" ∨ pre = newline → row_scan (pre +:+ a_text +:+ newline +:+ rest) = Ok (row_doc, newline +:+ rest).
Proof.
  intros [-> | ->]; unfold row_scan.
  - change ("" +:+ a_text +:+ newline +:+ rest) with (a_text +:+ newline +:+ rest).
    by rewrite HasPrefix_app, TrimPrefix_app.
  - rewrite <- (string_app_assoc newline a_text). rewrite HasPrefix_app, TrimPrefix_app. reflexivity.
Qed.

Lemma DecodeMessages_lines_witness :
  DecodeMessages field_error (λ _, Some 0) row_scan (encode_lines (λ _, a_text) [row_doc; row_doc]) =
    Some (map (λ r, record_message (record_back r)) [row "a"; row "a"], None).
Proof.
  apply (DecodeMessages_lines field_error (λ _, Some 0) (λ _, "t0") row_scan (λ _, a_text) [row "a"; row "a"] [row_doc; row_doc]).
  - by repeat constructor.
  - by repeat constructor.
  - intros pre j rest Hpre Hj. assert (j = row_doc) as -> by (repeat (apply elem_of_cons in Hj as [->|Hj]; [done|]); by apply not_elem_of_nil in Hj).
    split; [by apply row_scan_spec|by eexists].
Defined.
