(* ===== verification/ConnRuntime.v ===== *)
(** * The connector runtime: [internal/connector/runtime]

    Operations of connectors run in a sandbox that bounds their time, and are tracked while they run.  A context is
    given by when and why it ends, as it turns out; the result of an operation under a race is the list of what
    may come of it, with the time it comes.  A read is three goroutines joined by channels: its steps are
    labelled by who moves.  Channels have a capacity of at least one (a batch size of zero would make them
    unbuffered).  In a read the connector returns; one that panics is covered for the other operations
    only. *)

From Stdlib Require Import Ascii.
From S2P Require Import Prelude GoStrings Errors Value Protocol Urls.

(** ** The sandbox: [sandbox.go] *)

Record SandboxConfig := mkSandboxConfig { MaxMemoryBytes : Z; MaxDuration : Z; MaxRecords : Z }.

Definition DefaultSandboxConfig : SandboxConfig := mkSandboxConfig (512 * 1024 * 1024) (300 * second) 1000000.

(** The cause is an error or the text of a panic value. *)
Record SandboxError := mkSandboxError { se_Connector : string; se_Op : string; Cause : error + string; Stack : string }.

Definition SandboxError_Error (e : SandboxError) : string :=
  let place := "sandbox [" +:+ se_Connector e +:+ "/" +:+ se_Op e +:+ "]" in
  match Cause e with
  | inl err => place +:+ ": " +:+ Error err
  | inr v => place +:+ " panic: " +:+ v +:+ String "010"%char "" +:+ Stack e
  end.
Definition SandboxError_Unwrap (e : SandboxError) : option error := match Cause e with inl err => Some err | inr _ => None end.

(** As an error value. *)
Definition as_error (e : SandboxError) : error :=
  match SandboxError_Unwrap e with
  | Some err => ErrWrapf ("sandbox [" +:+ se_Connector e +:+ "/" +:+ se_Op e +:+ "]") err
  | None => ErrText (SandboxError_Error e)
  end.
Definition exec_error (connector : string) (cause : error) : error := as_error (mkSandboxError connector "exec" (inl cause) "").

Inductive ctx_reason := DeadlineExceeded | Canceled.

Definition Ctx : Type := option (Z * ctx_reason).   (** when and why it ends *)

Definition WithTimeout (ctx : Ctx) (d now : Z) : Z * ctx_reason :=
  match ctx with
  | Some (t, r) => if t <=? now + d then (t, r) else (now + d, DeadlineExceeded)
  | None => (now + d, DeadlineExceeded)
  end.

Definition ctx_error (connector : string) (r : ctx_reason) : error :=
  exec_error connector (ErrSentinel match r with DeadlineExceeded => ErrTimeout | Canceled => ErrCancelled end).

(** What the function returned, to the caller of the sandbox.  A panic is one of the goroutine the function runs in. *)
Definition fn_result {A} (connector : string) (r : res A) : res A :=
  match r with Err e => Err (exec_error connector e) | r => r end.

(** [fn] gets its context and takes a time, or never returns; the result is what may be returned, and when. *)
Definition RunInSandbox {A} (connector : string) (cfg : SandboxConfig) (ctx : Ctx) (now : Z)
    (fn : Ctx → option Z * res A) : list (Z * res A) :=
  let exec := WithTimeout ctx (MaxDuration cfg) now in
  let ends := Z.max now exec.1 in
  let '(takes, r) := fn (Some exec) in
  match takes with
  | None => [(ends, Err (ctx_error connector exec.2))]
  | Some d =>
      (if now + d <=? ends then [(now + d, fn_result connector r)] else [])
      ++ (if ends <=? now + d then [(ends, Err (ctx_error connector exec.2))] else [])
  end.

(** The memory limit of the process is set by each run and put back when it ends. *)
Record mem := mkMem { limit : Z; previous : gmap nat Z }.
Inductive mem_event := Enter (run : nat) | Leave (run : nat).
Definition mem_step (cfg : SandboxConfig) (m : mem) (e : mem_event) : mem :=
  if 0 <? MaxMemoryBytes cfg then
    match e with
    | Enter i => mkMem (MaxMemoryBytes cfg) (<[i := limit m]> (previous m))
    | Leave i => match previous m !! i with
                 | Some prev => mkMem prev (delete i (previous m))
                 | None => m
                 end
    end
  else m.

(** ** Tracking: [runtime.go] *)

Record ExecutionStats := mkStats {
  RecordsProcessed : Z; BytesProcessed : Z; Duration : Z; StartedAt : Z; CompletedAt : Z; es_ConnectorName : string; Operation : string
}.

Record executionTracker := mkTracker {
  tr_id : string; tr_connector : string; tr_op : string; tr_startedAt : Z; tr_records : Z; tr_bytes : Z;
  tr_cancelled : bool   (** whether [cancel] was called *)
}.

Record RuntimeConfig := mkRuntimeConfig { RequestTimeout : Z; BatchSize : Z }.
Record Runtime := mkRuntime {
  rt_cfg : RuntimeConfig; defaultSandbox : SandboxConfig; activeExecs : gmap string executionTracker; execCounter : Z
}.

Definition NewRuntime (cfg : RuntimeConfig) : Runtime :=
  mkRuntime cfg (mkSandboxConfig (512 * 1024 * 1024) (RequestTimeout cfg) (BatchSize cfg *ᵢ 1000)) ∅ 0.

Definition with_execs (r : Runtime) (m : gmap string executionTracker) : Runtime :=
  mkRuntime (rt_cfg r) (defaultSandbox r) m (execCounter r).

Definition ActiveExecutions (r : Runtime) : nat := size (activeExecs r).

Definition running_stats (now : Z) (t : executionTracker) : ExecutionStats :=
  mkStats (tr_records t) (tr_bytes t) (time_sub now (tr_startedAt t)) (tr_startedAt t) zero_time (tr_connector t) (tr_op t).
Definition Stats (r : Runtime) (now : Z) : list ExecutionStats := map (running_stats now) (map_to_list (activeExecs r)).*2.

Definition exec_id (connector op : string) (n : Z) : string := connector +:+ "-" +:+ op +:+ "-" +:+ pretty n.

Definition startExecution (r : Runtime) (ctx : Ctx) (connector op : string) (now : Z) : Ctx * executionTracker * Runtime :=
  let n := execCounter r +ᵤ 1 in
  let tracker := mkTracker (exec_id connector op n) connector op now 0 0 false in
  (Some (WithTimeout ctx (MaxDuration (defaultSandbox r)) now), tracker,
   mkRuntime (rt_cfg r) (defaultSandbox r) (<[tr_id tracker := tracker]> (activeExecs r)) n).

Definition finishExecution (r : Runtime) (tracker : executionTracker) (now : Z) : ExecutionStats * Runtime :=
  (mkStats (tr_records tracker) (tr_bytes tracker) (time_sub now (tr_startedAt tracker)) (tr_startedAt tracker) now
     (tr_connector tracker) (tr_op tracker),
   with_execs r (delete (tr_id tracker) (activeExecs r))).

Definition cancel (t : executionTracker) : executionTracker :=
  mkTracker (tr_id t) (tr_connector t) (tr_op t) (tr_startedAt t) (tr_records t) (tr_bytes t) true.
Definition CancelExecution (r : Runtime) (executionID : string) : bool * Runtime :=
  match activeExecs r !! executionID with
  | None => (false, r)
  | Some t => (true, with_execs r (<[executionID := cancel t]> (activeExecs r)))
  end.
Definition Shutdown (r : Runtime) : Runtime := with_execs r (cancel <$> activeExecs r).

(** ** Operations *)

Definition as_connector_error {A} (connector op : string) (r : res A) : res A :=
  match r with Err e => Err (NewConnectorError connector op e) | r => r end.

(** An operation, tracked: what may be returned, when, and the runtime then. *)
Definition tracked {A} (r : Runtime) (ctx : Ctx) (connector op : string) (now : Z) (fn : Ctx → option Z * res A) :
    list (Z * res A * Runtime) :=
  let '(sctx, tracker, r) := startExecution r ctx connector op now in
  map (λ x, (x.1, as_connector_error connector op x.2, (finishExecution r tracker x.1).2))
    (RunInSandbox connector (defaultSandbox r) sctx now fn).

Section operations.
Context {W : Type} (reg : connectorRegistry W).

(** [takes] is the time the connector needs under a context. *)
Definition ExecuteCheck (r : Runtime) (ctx : Ctx) (name : string) (config : RawMessage) (takes : Ctx → option Z) (now : Z) :
    list (Z * res CheckResult * Runtime) :=
  match GetSource reg name, GetDestination reg name with
  | Ok src, _ => tracked r ctx name "check" now (λ c, (takes c, src_Check src config))
  | _, Ok dst => tracked r ctx name "check" now (λ c, (takes c, dst_Check dst config))
  | _, _ => [(now, Err (NewConnectorError name "check" (ErrText "connector not found")), r)]
  end.

Definition ExecuteDiscover (r : Runtime) (ctx : Ctx) (name : string) (config : RawMessage) (takes : Ctx → option Z) (now : Z) :
    list (Z * res Catalog * Runtime) :=
  match GetSource reg name with
  | Ok src => tracked r ctx name "discover" now (λ c, (takes c, src_Discover src config))
  | Err e => [(now, Err (NewConnectorError name "discover" e), r)]
  | Panic m => [(now, Panic m, r)]
  end.

(** A write.  The first form is an unknown destination; in the second the input is passed on whole; in the third
    the context of the execution ends while messages are passed on: the tracked channel is closed after the first [k],
    and the destination returns before the end of the sandbox's context, which follows, is seen. *)
Inductive ExecuteWrite (r : Runtime) (ctx : Ctx) (name : string) (config : RawMessage) (cat : ConfiguredCatalog)
    (input : list Message) (takes : Ctx → list Message → option Z) (w : W) (now : Z) : Z * res WriteResult * Runtime → Prop :=
| write_unknown e :
    GetDestination reg name = Err e →
    ExecuteWrite r ctx name config cat input takes w now (now, Err (NewConnectorError name "write" e), r)
| write_whole dst x :
    GetDestination reg name = Ok dst →
    x ∈ tracked r ctx name "write" now (λ c, (takes c input, (dst_Write dst config cat input w).1)) →
    ExecuteWrite r ctx name config cat input takes w now x
| write_cut dst k t :
    GetDestination reg name = Ok dst → (k < length input)%nat →
    let ends := WithTimeout ctx (MaxDuration (defaultSandbox r)) now in
    t = Z.max now ends.1 → takes (Some ends) (take k input) = Some (t - now) →
    let '(_, tracker, r') := startExecution r ctx name "write" now in
    ExecuteWrite r ctx name config cat input takes w now
      (t, as_connector_error name "write" (fn_result name (dst_Write dst config cat (take k input) w).1),
       (finishExecution r' tracker t).2).
End operations.

(** ** Reading *)

Inductive forward_pc :=
| FIdle                      (** ranges over the connector's channel *)
| FPut (m : Message)         (** sends a message on, or gives up when the context ends *)
| FLimit                     (** sends the notice that the limit is reached *)
| FErr (e : error)           (** sends the notice of a read error *)
| FDone.                     (** the channel is closed and the execution finished *)

Record rsys := mkRsys {
  src_left : list Message;               (** what the connector has yet to send *)
  fn_done : option (option error);       (** what its function returned *)
  connOut : list Message; conn_closed : bool;
  box : option (option error);           (** what the sandbox returned *)
  parent : option ctx_reason;            (** the end of the execution's context ... *)
  child : option ctx_reason;             (** ... and of the sandbox's, which follows *)
  fpc : forward_pc;
  out : list Message;
  taken : list Message;                  (** what the consumer received *)
  nrecords : Z; nbytes : Z;              (** the counters of the tracker *)
  expired : bool;                        (** the context ended before the read did *)
  crashed : bool                         (** send on a closed channel *)
}.

Section read.
Context (connector : string) (batch : nat) (maxRecords : Z) (raw_len : RawMessage → Z) (src_result : option error) (now : Z).

Definition cap : nat := Nat.max 1 batch.

Definition limit_log : Message :=
  mkMessage MessageTypeLog None None None
    (Some (mkLog LogLevelWarn ("max records limit (" +:+ pretty maxRecords +:+ ") reached, stopping read") now RawEmpty)) None None None None.
Definition error_log (e : error) : Message :=
  mkMessage MessageTypeLog None None None
    (Some (mkLog LogLevelError ("read error: " +:+ Error e) now RawEmpty)) None None None None.

Definition read_init (msgs : list Message) : rsys := mkRsys msgs None [] false None None None FIdle [] [] 0 0 false false.

Inductive read_label :=
| SrcSend | SrcReturn | SrcStop (e : option error)   (** the connector; it may stop early when its context ends *)
| Expire (r : ctx_reason) | Propagate                (** the contexts *)
| BoxFn | BoxCtx                                     (** the select of the sandbox *)
| FTake | FSent | FGiveUp | FLimitSent | FEnd | FErrSent   (** the forwarding goroutine *)
| Consume.                                           (** the consumer *)

Definition room (l : list Message) : bool := bool_decide (length l < cap)%nat.

Definition src_step (l : read_label) (s : rsys) : option rsys :=
  let 'mkRsys lf fd co cc bx pa ch pc ou tk nr nb ex cr := s in
  match l, lf, fd with
  | SrcSend, m :: rest, None =>
      if cc then Some (mkRsys lf fd co cc bx pa ch pc ou tk nr nb ex true)
      else if room co then Some (mkRsys rest fd (co ++ [m]) cc bx pa ch pc ou tk nr nb ex cr) else None
  | SrcReturn, [], None => Some (mkRsys [] (Some src_result) co cc bx pa ch pc ou tk nr nb ex cr)
  | SrcStop e, _, None =>
      match ch with Some _ => Some (mkRsys lf (Some e) co cc bx pa ch pc ou tk nr nb ex cr) | None => None end
  | _, _, _ => None
  end.

(** The sandbox returns, then the connector's channel is closed. *)
Definition box_step (l : read_label) (s : rsys) : option rsys :=
  let 'mkRsys lf fd co cc bx pa ch pc ou tk nr nb ex cr := s in
  match l, bx, fd, ch with
  | BoxFn, None, Some e, _ => Some (mkRsys lf fd co true (Some (exec_error connector <$> e)) pa ch pc ou tk nr nb ex cr)
  | BoxCtx, None, _, Some r => Some (mkRsys lf fd co true (Some (Some (ctx_error connector r))) pa ch pc ou tk nr nb ex cr)
  | _, _, _, _ => None
  end.

Definition ctx_step (l : read_label) (s : rsys) : option rsys :=
  let 'mkRsys lf fd co cc bx pa ch pc ou tk nr nb ex cr := s in
  match l, pa, ch with
  | Expire r, None, _ => Some (mkRsys lf fd co cc bx (Some r) ch pc ou tk nr nb true cr)
  | Propagate, Some r, None => Some (mkRsys lf fd co cc bx pa (Some r) pc ou tk nr nb ex cr)
  | _, _, _ => None
  end.

Definition cancelled (pa : option ctx_reason) : option ctx_reason := match pa with None => Some Canceled | _ => pa end.

Definition forward_step (l : read_label) (s : rsys) : option rsys :=
  let 'mkRsys lf fd co cc bx pa ch pc ou tk nr nb ex cr := s in
  match l, pc with
  | FTake, FIdle =>
      match co with
      | [] => None
      | m :: co =>
          match msg_Record m with
          | None => Some (mkRsys lf fd co cc bx pa ch (FPut m) ou tk nr nb ex cr)
          | Some rec =>
              let count := nr + 1 in
              let bytes := nb + raw_len (rec_Data rec) in
              if (0 <? maxRecords) && (maxRecords <? count)
              then Some (mkRsys lf fd co cc bx pa ch FLimit ou tk count bytes ex cr)
              else Some (mkRsys lf fd co cc bx pa ch (FPut m) ou tk count bytes ex cr)
          end
      end
  | FSent, FPut m => if room ou then Some (mkRsys lf fd co cc bx pa ch FIdle (ou ++ [m]) tk nr nb ex cr) else None
  | FGiveUp, FPut m =>
      match pa with Some _ => Some (mkRsys lf fd co cc bx pa ch FDone ou tk nr nb ex cr) | None => None end
  | FLimitSent, FLimit =>
      if room ou then Some (mkRsys lf fd co cc bx (cancelled pa) ch FDone (ou ++ [limit_log]) tk nr nb ex cr) else None
  | FEnd, FIdle =>
      match co, bx with
      | [], Some None => Some (mkRsys lf fd co cc bx (cancelled pa) ch FDone ou tk nr nb ex cr)
      | [], Some (Some e) => Some (mkRsys lf fd co cc bx pa ch (FErr e) ou tk nr nb ex cr)
      | _, _ => None
      end
  | FErrSent, FErr e =>
      if room ou then Some (mkRsys lf fd co cc bx (cancelled pa) ch FDone (ou ++ [error_log e]) tk nr nb ex cr) else None
  | Consume, _ =>
      match ou with m :: ou => Some (mkRsys lf fd co cc bx pa ch pc ou (tk ++ [m]) nr nb ex cr) | [] => None end
  | _, _ => None
  end.

(** A process that crashed does nothing more. *)
Definition read_step (l : read_label) (s : rsys) : option rsys :=
  if crashed s then None
  else match l with
       | SrcSend | SrcReturn | SrcStop _ => src_step l s
       | Expire _ | Propagate => ctx_step l s
       | BoxFn | BoxCtx => box_step l s
       | _ => forward_step l s
       end.

Definition read_run (ls : list read_label) (s : rsys) : option rsys := foldl (λ s l, s ≫= read_step l) (Some s) ls.
End read.

(** [ExecuteRead]: an error, or the execution that is tracked and the goroutines it starts. *)
Definition ExecuteRead {W} (reg : connectorRegistry W) (r : Runtime) (ctx : Ctx) (name : string) (config : RawMessage)
    (cat : ConfiguredCatalog) (state : state_map) (now : Z) : res (executionTracker * rsys * option error) * Runtime :=
  match GetSource reg name with
  | Err e => (Err (NewConnectorError name "read" e), r)
  | Panic m => (Panic m, r)
  | Ok src =>
      let '(_, tracker, r) := startExecution r ctx name "read" now in
      let '(msgs, err) := src_Read src config cat state None in
      (Ok (tracker, read_init msgs, err), r)
  end.

(** ** The sandbox keeps its time *)

Lemma WithTimeout_bound ctx d now : (WithTimeout ctx d now).1 ≤ now + d.
Proof. unfold WithTimeout. destruct ctx as [[t r]|]; [destruct (Z.leb_spec t (now + d))|]; cbn; lia. Qed.

(** Whatever a connector does, a run of the sandbox returns, no later than its limit allows; it gives the function's own result
    only if that came in time, and a timeout or a cancellation only when the context had ended. *)
Lemma RunInSandbox_spec {A} connector cfg ctx now (fn : Ctx → option Z * res A) :
  let exec := WithTimeout ctx (MaxDuration cfg) now in
  RunInSandbox connector cfg ctx now fn ≠ [] ∧
  ∀ t r, (t, r) ∈ RunInSandbox connector cfg ctx now fn →
    t ≤ now + Z.max 0 (MaxDuration cfg) ∧
    ((∃ d, (fn (Some exec)).1 = Some d ∧ t = now + d ∧ r = fn_result connector (fn (Some exec)).2) ∨
     (exec.1 ≤ t ∧ r = Err (ctx_error connector exec.2))).
Proof.
  cbn zeta. unfold RunInSandbox. pose proof (WithTimeout_bound ctx (MaxDuration cfg) now) as Hb.
  set (exec := WithTimeout ctx (MaxDuration cfg) now) in *. destruct (fn (Some exec)) as [[d|] r0] eqn:Hfn; cbn [snd].
  - split.
    { destruct (Z.leb_spec (now + d) (Z.max now exec.1)); [done|]. by destruct (Z.leb_spec (Z.max now exec.1) (now + d)); [|lia]. }
    intros t r. rewrite elem_of_app. intros [Hin|Hin].
    + destruct (Z.leb_spec (now + d) (Z.max now exec.1)); [|by apply not_elem_of_nil in Hin].
      apply list_elem_of_singleton in Hin as [= -> ->]. split; [lia|]. left. by exists d.
    + destruct (Z.leb_spec (Z.max now exec.1) (now + d)); [|by apply not_elem_of_nil in Hin].
      apply list_elem_of_singleton in Hin as [= -> ->]. split; [lia|]. right. split; [lia|done].
  - split; [done|]. intros t r Hin. apply list_elem_of_singleton in Hin as [= -> ->]. split; [lia|]. right. split; [lia|done].
Qed.

(** A panic of the function is not recovered: the process crashes. *)
Theorem panic_not_recovered {A} connector cfg ctx now d m :
  0 ≤ d → now + d ≤ (WithTimeout ctx (MaxDuration cfg) now).1 →
  (now + d, Panic m : res A) ∈ RunInSandbox connector cfg ctx now (λ _, (Some d, Panic m)).
Proof.
  intros Hd Hle. unfold RunInSandbox. apply elem_of_app. left.
  destruct (Z.leb_spec (now + d) (Z.max now (WithTimeout ctx (MaxDuration cfg) now).1)); [|lia]. by apply list_elem_of_singleton.
Qed.

Lemma SandboxError_text connector cause :
  Error (exec_error connector cause) = SandboxError_Error (mkSandboxError connector "exec" (inl cause) "").
Proof. done. Qed.

(** *** The memory limit *)

(** Runs that follow or contain one another. *)
Inductive nested : list mem_event → Prop :=
| nested_nil : nested []
| nested_run i es es' : nested es → Enter i ∉ es → Leave i ∉ es → nested es' → nested (Enter i :: es ++ Leave i :: es').

Lemma foldl_mem_frame cfg es m i :
  Enter i ∉ es → Leave i ∉ es → previous (foldl (mem_step cfg) m es) !! i = previous m !! i.
Proof.
  revert m. induction es as [|e es IH]; intros m He Hl; [done|]. apply not_elem_of_cons in He as [He ?], Hl as [Hl ?].
  cbn [foldl]. rewrite IH by done. unfold mem_step. destruct (0 <? _); [|done]. destruct e as [j|j].
  - cbn. rewrite lookup_insert_ne; [done|congruence].
  - destruct (previous m !! j); [|done]. cbn. rewrite lookup_delete_ne; [done|congruence].
Qed.

(** The limit is put back by runs that nest. *)
Theorem nested_runs_restore_limit cfg es m : nested es → limit (foldl (mem_step cfg) m es) = limit m.
Proof.
  intros Hn. revert m. induction Hn as [|i es es' Hn IH Hei Hli Hn' IH']; intros m; [done|].
  cbn [foldl]. rewrite foldl_app. cbn [foldl]. rewrite IH'. unfold mem_step at 1.
  destruct (Z.ltb_spec 0 (MaxMemoryBytes cfg)) as [Hp|Hp].
  - rewrite foldl_mem_frame by done. unfold mem_step. destruct (Z.ltb_spec 0 (MaxMemoryBytes cfg)); [|lia]. cbn.
    by rewrite lookup_insert_eq.
  - rewrite IH. unfold mem_step. by destruct (Z.ltb_spec 0 (MaxMemoryBytes cfg)); [lia|].
Qed.

(** Two runs that overlap leave the limit of the sandbox behind, and the second runs without it. *)
Theorem overlapping_runs_keep_limit cfg m i j :
  0 < MaxMemoryBytes cfg → i ≠ j → limit m ≠ MaxMemoryBytes cfg →
  limit (foldl (mem_step cfg) m [Enter i; Enter j; Leave i]) = limit m ∧
  limit (foldl (mem_step cfg) m [Enter i; Enter j; Leave i; Leave j]) = MaxMemoryBytes cfg.
Proof.
  intros Hp Hij Hm. cbn [foldl]. unfold mem_step. destruct (Z.ltb_spec 0 (MaxMemoryBytes cfg)); [|lia].
  cbn. rewrite !lookup_insert_ne, !lookup_insert_eq by congruence. cbn.
  rewrite lookup_delete_ne, lookup_insert_eq by congruence. done.
Qed.

(** ** Executions *)

Lemma digits_no_dash (n : Z) : 0 ≤ n → "-"%char ∉ bytes_of (pretty n).
Proof.
  intros Hn Hin. destruct n as [|p|p]; [|..|lia].
  - cbn in Hin. by apply list_elem_of_singleton in Hin.
  - change (pretty (Z.pos p)) with (pretty (N.pos p)) in Hin. destruct (pretty_N_digits (N.pos p)) as [Hd _].
    apply digits_loop_chars in Hd. rewrite list.Forall_forall in Hd. apply Hd in Hin. vm_compute in Hin. naive_solver.
Qed.

Lemma exec_id_number c op n c' op' n' :
  in_u64 n → in_u64 n' → exec_id c op n = exec_id c' op' n' → n = n'.
Proof.
  intros [Hn _] [Hn' _] H. apply (f_equal bytes_of) in H. unfold exec_id in H.
  rewrite !bytes_of_app in H. change (bytes_of "-") with ["-"%char] in H.
  assert (Hrev : ∀ (c op : string) (n : Z), reverse (bytes_of c ++ ["-"%char] ++ bytes_of op ++ ["-"%char] ++ bytes_of (pretty n)) =
            reverse (bytes_of (pretty n)) ++ "-"%char :: reverse (bytes_of c ++ ["-"%char] ++ bytes_of op)).
  { intros. rewrite !app_assoc, reverse_app, reverse_snoc. done. }
  apply (f_equal reverse) in H. rewrite !Hrev in H. apply (f_equal (cut_bytes "-")) in H.
  assert (Hd : ∀ z : Z, 0 ≤ z → "-"%char ∉ reverse (bytes_of (pretty z))).
  { intros z Hz Hin. rewrite elem_of_reverse in Hin. by apply digits_no_dash in Hin. }
  rewrite !cut_bytes_sep in H by auto. injection H as H _. apply (inj reverse) in H.
  apply (f_equal of_bytes) in H. rewrite !of_bytes_of in H. by apply (inj pretty) in H.
Qed.

(** Every active execution was started, under the number it has, and is the tracker of its id. *)
Definition tracked_inv (r : Runtime) : Prop :=
  0 ≤ execCounter r ∧
  map_Forall (λ id t, tr_id t = id ∧ ∃ n, 0 < n ≤ execCounter r ∧ id = exec_id (tr_connector t) (tr_op t) n) (activeExecs r).

Lemma start_fresh r c op :
  tracked_inv r → execCounter r + 1 < two64 →
  activeExecs r !! exec_id c op (execCounter r +ᵤ 1) = None.
Proof.
  intros [Hc Hm] Hlt. destruct (activeExecs r !! _) as [t|] eqn:Ht; [|done]. exfalso.
  apply Hm in Ht as [_ (n & Hn & Hid)]. unfold two64 in *.
  rewrite u64_id in Hid by (unfold in_u64, two64; lia).
  apply exec_id_number in Hid; unfold in_u64, two64; lia.
Qed.

Lemma tracked_inv_NewRuntime cfg : tracked_inv (NewRuntime cfg).
Proof. split; [cbn; lia|]. apply map_Forall_empty. Qed.

(** An execution that starts has an id of its own; when it finishes, the others are as they were. *)
Lemma start_finish r ctx c op now :
  tracked_inv r → execCounter r + 1 < two64 →
  let '(_, t, r') := startExecution r ctx c op now in
  activeExecs r !! tr_id t = None ∧ activeExecs r' = <[tr_id t := t]> (activeExecs r) ∧ tracked_inv r' ∧
  ActiveExecutions r' = S (ActiveExecutions r) ∧ ∀ now', activeExecs (finishExecution r' t now').2 = activeExecs r.
Proof.
  intros Hinv Hlt. pose proof (start_fresh r c op Hinv Hlt) as Hf. destruct Hinv as [Hc Hm]. cbn.
  split_and!; [done|done| | |].
  - rewrite u64_id in * by (unfold in_u64, two64 in *; lia). split; cbn; [lia|]. apply map_Forall_insert_2.
    + split; [done|]. exists (execCounter r + 1). split; [lia|done].
    + eapply map_Forall_impl; [exact Hm|]. cbn. intros id t (Hid & n & Hn & He). split; [done|]. exists n. split; [lia|done].
  - unfold ActiveExecutions. cbn. by rewrite map_size_insert_None.
  - intros _. by rewrite delete_insert_id.
Qed.

Lemma cancel_inv r id : tracked_inv r → tracked_inv (CancelExecution r id).2.
Proof.
  intros [Hc Hm]. unfold CancelExecution. destruct (activeExecs r !! id) as [t|] eqn:Ht; [|done]. split; [done|].
  apply map_Forall_insert_2; [|done]. by apply Hm in Ht.
Qed.

Lemma shutdown_inv r : tracked_inv r → tracked_inv (Shutdown r).
Proof. intros [Hc Hm]. split; [done|]. intros id t. cbn. rewrite lookup_fmap_Some. intros (t' & <- & Ht). by apply Hm in Ht. Qed.

Lemma finish_inv r t now : tracked_inv r → tracked_inv (finishExecution r t now).2.
Proof. intros [Hc Hm]. split; [done|]. by apply map_Forall_delete. Qed.

(** What comes of an operation. *)
Lemma tracked_spec {A} r ctx name op now (fn : Ctx → option Z * res A) t x r' :
  tracked_inv r → execCounter r + 1 < two64 → (t, x, r') ∈ tracked r ctx name op now fn →
  activeExecs r' = activeExecs r ∧ t ≤ now + Z.max 0 (MaxDuration (defaultSandbox r)) ∧
  match x with
  | Ok a => ∃ c d, fn c = (Some d, Ok a) ∧ t = now + d
  | Err e => ∃ cause, e = NewConnectorError name op (ErrWrapf ("sandbox [" +:+ name +:+ "/exec]") cause)
  | Panic m => ∃ c d, fn c = (Some d, Panic m) ∧ t = now + d
  end.
Proof.
  intros Hinv Hlt. pose proof (start_finish r ctx name op now Hinv Hlt) as Hs. unfold tracked.
  destruct (startExecution r ctx name op now) as [[sctx tr] r1] eqn:Hst. destruct Hs as (_ & _ & _ & _ & Hfin).
  assert (Hbox : defaultSandbox r1 = defaultSandbox r) by (by injection Hst as <- <- <-). rewrite Hbox.
  assert (Hsame : ∀ t, activeExecs (finishExecution r1 tr t).2 = activeExecs r) by apply Hfin. clear Hfin.
  rewrite list_elem_of_fmap. intros ([t' y] & [= -> -> ->] & Hin). cbn [fst snd].
  destruct (RunInSandbox_spec name (defaultSandbox r) sctx now fn) as [_ Hspec].
  apply Hspec in Hin as [Ht Hcase]. split_and!; [apply (Hsame t')|done|].
  destruct Hcase as [(d & Hd & -> & ->)|[_ ->]].
  - destruct (fn _) as [tk y'] eqn:Hfn. cbn in Hd |- *. subst tk. destruct y' as [a|e|m]; cbn; eauto.
  - cbn. eexists. done.
Qed.

Section operations.
Context {W : Type} (reg : connectorRegistry W).

(** What the connector of a name answers to a check: the source, or the destination if there is no source. *)
Definition check_answer (name : string) (config : RawMessage) : option (res CheckResult) :=
  match GetSource reg name, GetDestination reg name with
  | Ok src, _ => Some (src_Check src config)
  | _, Ok dst => Some (dst_Check dst config)
  | _, _ => None
  end.

(** The connector's answer, or an error of the connector. *)
Definition answered {A} (name op : string) (answer : option (res A)) (x : res A) : Prop :=
  match x with Err e => ∃ cause, e = NewConnectorError name op cause | x => answer = Some x end.

Lemma tracked_answered {A} r ctx name op takes now (r0 : res A) t x r' :
  tracked_inv r → execCounter r + 1 < two64 → (t, x, r') ∈ tracked r ctx name op now (λ c, (takes c, r0)) →
  activeExecs r' = activeExecs r ∧ t ≤ now + Z.max 0 (MaxDuration (defaultSandbox r)) ∧ answered name op (Some r0) x.
Proof.
  intros Hinv Hlt Hin. apply tracked_spec in Hin as (? & ? & Hx); [|done..]. split_and!; [done|done|].
  destruct x as [c|e|m]; [destruct Hx as (? & ? & [= _ ->] & _)|destruct Hx as [cause ->]|destruct Hx as (? & ? & [= _ ->] & _)].
  all: cbn; eauto.
Qed.

(** A check that is executed asks the source of that name, or the destination if there is no source; it gives the
    connector's answer if it came in time and otherwise an error of the connector; it returns within the limit
    whatever the connector does, and is tracked no longer than it runs. *)
Theorem ExecuteCheck_spec r ctx name config takes now t x r' :
  tracked_inv r → execCounter r + 1 < two64 → (t, x, r') ∈ ExecuteCheck reg r ctx name config takes now →
  activeExecs r' = activeExecs r ∧ t ≤ now + Z.max 0 (MaxDuration (defaultSandbox r)) ∧
  answered name "check" (check_answer name config) x.
Proof.
  intros Hinv Hlt. unfold ExecuteCheck, check_answer.
  destruct (GetSource reg name), (GetDestination reg name); try by apply tracked_answered.
  all: intros [= -> -> ->]%list_elem_of_singleton; split_and!; [done|lia|cbn; eauto].
Qed.

(** The same of a discovery, which needs a source. *)
Theorem ExecuteDiscover_spec r ctx name config takes now t x r' :
  tracked_inv r → execCounter r + 1 < two64 → (t, x, r') ∈ ExecuteDiscover reg r ctx name config takes now →
  activeExecs r' = activeExecs r ∧ t ≤ now + Z.max 0 (MaxDuration (defaultSandbox r)) ∧
  answered name "discover" (match sources reg !! name with Some src => Some (src_Discover src config) | None => None end) x.
Proof.
  intros Hinv Hlt. unfold ExecuteDiscover, GetSource, lookup_or. destruct (sources reg !! name); [by apply tracked_answered|].
  intros [= -> -> ->]%list_elem_of_singleton. split_and!; [done|lia|cbn; eauto].
Qed.

(** A write reports success only for what the destination did: with the whole input, or, when the context ended while
    it was passed on, with a part of it cut off at any message; nothing tells the two apart. *)
Theorem ExecuteWrite_spec r ctx name config cat input takes w now t res r' :
  tracked_inv r → execCounter r + 1 < two64 → ExecuteWrite reg r ctx name config cat input takes w now (t, Ok res, r') →
  activeExecs r' = activeExecs r ∧ t ≤ now + Z.max 0 (MaxDuration (defaultSandbox r)) ∧
  ∃ dst k, GetDestination reg name = Ok dst ∧ (dst_Write dst config cat (take k input) w).1 = Ok res ∧
           ((k < length input)%nat → (WithTimeout ctx (MaxDuration (defaultSandbox r)) now).1 ≤ t).
Proof.
  intros Hinv Hlt Hw. inversion Hw as [|dst x Hd Hin|dst k t0 Hd Hk ends Ht Htk]; subst; clear Hw.
  - apply tracked_spec in Hin as (? & ? & Hx); [|done..]. destruct Hx as (c & d & [= _ Hr] & _). split_and!; [done..|].
    exists dst, (length input). rewrite firstn_all. split_and!; [done|done|lia].
  - pose proof (start_finish r ctx name "write" now Hinv Hlt) as Hs.
    destruct (startExecution r ctx name "write" now) as [[sctx tr] r1] eqn:Hst. destruct Hs as (_ & _ & _ & _ & Hfin).
    injection Hst as <- <- <-. split; [apply (Hfin now)|].
    pose proof (WithTimeout_bound ctx (MaxDuration (defaultSandbox r)) now) as Hb. subst ends. split; [lia|].
    exists dst, k. split_and!; [done| |intros _; lia].
    destruct (dst_Write dst config cat (take k input) w).1; cbn in H0; [by injection H0 as ->|done..].
Qed.
End operations.

(** ** Reading *)
Section reading.
Context (connector : string) (batch : nat) (maxRecords : Z) (raw_len : RawMessage → Z) (src_result : option error) (now : Z).
Context (msgs : list Message).

Abbreviation step := (read_step connector batch maxRecords raw_len src_result now).
Abbreviation run := (read_run connector batch maxRecords raw_len src_result now).

Definition records_of (l : list Message) : list Message := List.filter (λ m, bool_decide (is_Some (msg_Record m))) l.
Definition count (l : list Message) : Z := Z.of_nat (length (records_of l)).

Definition in_hand (pc : forward_pc) : list Message := match pc with FPut m => [m] | _ => [] end.

(** The notice a read ends with. *)
Definition is_notice (m : Message) : Prop := m = limit_log maxRecords now ∨ ∃ e, m = error_log now e.

(** What the consumer got or will get is a part of what the connector sent, and after it at most one notice. *)
Record read_inv (s : rsys) : Prop := {
  ri_flow : ∃ fwd logs rest, taken s ++ out s = fwd ++ logs ∧ msgs = fwd ++ in_hand (fpc s) ++ rest ∧
      (fpc s ≠ FDone → logs = []) ∧ (logs = [] ∨ ∃ m, logs = [m] ∧ is_notice m) ∧
      (0 < maxRecords → count (fwd ++ in_hand (fpc s)) ≤ maxRecords) ∧
      (fpc s = FIdle ∨ (∃ m, fpc s = FPut m) → rest = connOut s ++ src_left s ∧ nrecords s = count (fwd ++ in_hand (fpc s)));
  ri_closed : conn_closed s = true ↔ is_Some (box s)
}.

Lemma count_app l k : count (l ++ k) = count l + count k.
Proof. unfold count, records_of. rewrite List.filter_app, length_app. lia. Qed.

Lemma read_inv_init : read_inv (read_init msgs).
Proof.
  split; cbn; [|split; [done|by intros []]]. exists [], [], msgs. split_and!; auto. unfold count; cbn; lia.
Qed.

Ltac inv_flow H := let F := fresh "F" in let G := fresh "G" in
  destruct H as [(fwd & logs & rest & Htk & Hmsgs & Hlogs & Hnotice & Hmax & Hlive) Hclosed];
  cbn [src_left fn_done connOut conn_closed box parent child fpc out taken nrecords nbytes expired crashed] in *.

Lemma count_one m : count [m] = if bool_decide (is_Some (msg_Record m)) then 1 else 0.
Proof. unfold count, records_of. cbn. by destruct (bool_decide _). Qed.

(** The same messages, with another hand. *)
Ltac flow f l r := split; cbn; [exists f, l, r; split_and!|first [assumption|by split; eauto]]; try done; rewrite ?app_nil_r; try (intros [?|[? ?]]; done); auto.

Lemma forward_inv l s s' : read_inv s → forward_step batch maxRecords raw_len now l s = Some s' → read_inv s'.
Proof.
  intros Hinv. destruct s as [lf fd co cc bx pa ch pc ou tk nr nb ex cr]. inv_flow Hinv.
  destruct l; cbn; try done; intros Hs.
  - destruct pc; try done. destruct co as [|m co]; [done|].
    specialize (Hlive (or_introl eq_refl)) as [-> ->]. cbn [in_hand] in *. rewrite app_nil_r in *. rewrite (Hlogs ltac:(done)) in *.
    destruct (msg_Record m) as [rec|] eqn:Hr; [destruct (_ && _) eqn:Hlim|]; injection Hs as <-.
    + flow fwd (@nil Message) (m :: co ++ lf).
    + assert (Hc : count (fwd ++ [m]) = count fwd + 1) by (rewrite count_app, count_one, bool_decide_true by eauto; done).
      flow fwd (@nil Message) (co ++ lf).
      intros Hpos. rewrite Hc. destruct (Z.ltb_spec 0 maxRecords), (Z.ltb_spec maxRecords (count fwd + 1)); try done; lia.
    + assert (Hc : count (fwd ++ [m]) = count fwd) by (rewrite count_app, count_one, bool_decide_false; [lia|rewrite Hr; by intros []]).
      flow fwd (@nil Message) (co ++ lf). intros Hpos. rewrite Hc. auto.
  - destruct pc as [|m| | |]; try done. destruct (room batch ou); [|done]. injection Hs as <-.
    destruct (Hlive (or_intror (ex_intro _ m eq_refl))) as [-> ->]. rewrite (Hlogs ltac:(done)) in *. cbn [in_hand] in *.
    rewrite app_nil_r in Htk. flow (fwd ++ [m]) (@nil Message) (co ++ lf); [by rewrite app_assoc, Htk|by rewrite Hmsgs, <- app_assoc].
  - destruct pc as [|m| | |]; try done. destruct pa; [|done]. injection Hs as <-. cbn [in_hand] in *.
    flow fwd logs (m :: rest). intros Hpos. specialize (Hmax Hpos). rewrite count_app in Hmax. unfold count in *. lia.
  - destruct pc; try done. destruct (room batch ou); [|done]. injection Hs as <-. rewrite (Hlogs ltac:(done)) in *. rewrite app_nil_r in Htk.
    flow fwd [limit_log maxRecords now] rest; [by rewrite app_assoc, Htk|right; eexists; split; [done|by left]].
  - destruct pc; try done. destruct co; [|done]. destruct bx as [[e|]|]; [| |done]; injection Hs as <-.
    + rewrite (Hlogs ltac:(done)) in *. flow fwd (@nil Message) rest.
    + flow fwd logs rest.
  - destruct pc as [| | |e|]; try done. destruct (room batch ou); [|done]. injection Hs as <-. rewrite (Hlogs ltac:(done)) in *. rewrite app_nil_r in Htk.
    flow fwd [error_log now e] rest; [by rewrite app_assoc, Htk|right; eexists; split; [done|right; eauto]].
  - destruct ou as [|m ou]; [done|]. assert (Hs' : s' = mkRsys lf fd co cc bx pa ch pc ou (tk ++ [m]) nr nb ex cr) by (by destruct pc; injection Hs as <-).
    subst s'. flow fwd logs rest. by rewrite <- app_assoc.
Qed.

Lemma read_inv_step l s s' : read_inv s → step l s = Some s' → read_inv s'.
Proof.
  intros Hinv. unfold read_step. destruct (crashed s); [done|].
  destruct l; try by apply forward_inv.
  all: destruct s as [lf fd co cc bx pa ch pc ou tk nr nb ex cr]; inv_flow Hinv; cbn; intros Hs; repeat case_match; simplify_eq; cbn in *.
  all: try (flow fwd logs rest; done).
  flow fwd logs rest. intros Hpc. destruct (Hlive Hpc) as [-> ->]. by rewrite <- app_assoc.
Qed.

Lemma run_snoc ls l s : run (ls ++ [l]) s = run ls s ≫= step l.
Proof. unfold read_run. by rewrite foldl_app. Qed.

Lemma run_inv ls s : run ls (read_init msgs) = Some s → read_inv s.
Proof.
  revert s. induction ls as [|l ls IH] using rev_ind; intros s; [intros [= <-]; apply read_inv_init|].
  rewrite run_snoc. destruct (run ls _) as [s1|]; [|done]. intros Hs. by eapply read_inv_step; [apply IH|].
Qed.

(** What the consumer of a read receives is, whatever the goroutines, the contexts and the connector do, a prefix of
    what the connector sent, in order, with no more records than the limit, and then at most one notice. *)
Theorem read_forwards_prefix ls s :
  run ls (read_init msgs) = Some s →
  ∃ fwd logs, taken s ++ out s = fwd ++ logs ∧ fwd `prefix_of` msgs ∧ (logs = [] ∨ ∃ m, logs = [m] ∧ is_notice m) ∧
              (0 < maxRecords → count fwd ≤ maxRecords).
Proof.
  intros Hr. apply run_inv in Hr as [(fwd & logs & rest & Htk & Hmsgs & _ & Hnotice & Hmax & _) _].
  exists fwd, logs. split_and!; [done|by eexists|done|]. intros Hp. specialize (Hmax Hp). rewrite count_app in Hmax. unfold count in *. lia.
Qed.

(** *** Undisturbed reads *)

(** All messages and the error of the connector, if any; or as many as the limit allows. *)
Definition all_given (l : list Message) : Prop :=
  l = msgs ++ match src_result with None => [] | Some e => [error_log now (exec_error connector e)] end.
Definition limit_reached (l : list Message) : Prop :=
  ∃ fwd m rest, l = fwd ++ [limit_log maxRecords now] ∧ msgs = fwd ++ m :: rest ∧ is_Some (msg_Record m) ∧
                0 < maxRecords ∧ count fwd = maxRecords.

Definition on_course (s : rsys) : Prop :=
  parent s = None ∧ child s = None ∧ crashed s = false ∧
  (∀ e, fn_done s = Some e → src_left s = [] ∧ e = src_result) ∧
  (∀ b, box s = Some b → is_Some (fn_done s) ∧ b = exec_error connector <$> src_result).

Definition quiet_inv (s : rsys) : Prop :=
  let got := taken s ++ out s in
  match fpc s with
  | FIdle | FPut _ => on_course s
  | FLimit => on_course s ∧ ∃ m rest, msgs = got ++ m :: rest ∧ is_Some (msg_Record m) ∧ 0 < maxRecords ∧ count got = maxRecords
  | FErr e => crashed s = false ∧ got = msgs ∧ Some e = exec_error connector <$> src_result ∧ is_Some (fn_done s)
  | FDone => (all_given got ∧ is_Some (fn_done s) ∧ crashed s = false) ∨ limit_reached got
  end.

Lemma expired_mono l s s' : step l s = Some s' → expired s' = false → expired s = false.
Proof.
  unfold read_step. destruct s as [lf fd co cc bx pa ch pc ou tk nr nb ex cr]. cbn [crashed expired]. destruct cr; [done|].
  destruct l; cbn; intros Hs; repeat case_match; simplify_eq; cbn; done.
Qed.

(** Steps that leave the forwarding goroutine and what it has sent. *)
Lemma quiet_same s s' :
  quiet_inv s → fpc s' = fpc s → taken s' ++ out s' = taken s ++ out s → (on_course s → on_course s') →
  (is_Some (fn_done s) → crashed s = false → is_Some (fn_done s') ∧ crashed s' = false) → quiet_inv s'.
Proof.
  unfold quiet_inv. intros Hq -> -> Hc Hd. destruct (fpc s); [naive_solver..|].
  destruct Hq as [(Hall & Hf & Hcr)|Hl]; [left|by right]. destruct (Hd Hf Hcr). by split_and!.
Qed.

Lemma quiet_source l s s' : read_inv s → quiet_inv s → expired s' = false →
  match l with SrcSend | SrcReturn | SrcStop _ => src_step batch src_result l s | Expire _ | Propagate => ctx_step l s
             | _ => box_step connector l s end = Some s' →
  fpc s' = fpc s ∧ taken s' ++ out s' = taken s ++ out s ∧ (on_course s → on_course s') ∧
  (is_Some (fn_done s) → crashed s = false → is_Some (fn_done s') ∧ crashed s' = false).
Proof.
  intros [_ Hclosed] _ Hex. destruct s as [lf fd co cc bx pa ch pc ou tk nr nb ex cr].
  cbn [conn_closed box] in Hclosed. destruct l; cbn; intros Hs; repeat case_match; simplify_eq; cbn in *; try done.
  all: split_and!; try done; try (by intros [? [=]]); unfold on_course; cbn; intros (-> & Hch & -> & Hfn & Hbox); simplify_eq.
  - destruct (proj1 Hclosed eq_refl) as [b Hb]. destruct (Hbox b Hb) as [[e He] _]. discriminate He.
  - by split_and!.
  - split_and!; try done; [by intros ? [= <-]|]. intros b Hb. destruct (Hbox b Hb) as [_ ->]. split; [by eexists|done].
  - by split_and!.
  - split_and!; try done. intros b [= <-]. split; [by eexists|]. by destruct (Hfn _ eq_refl) as [_ ->].
Qed.

Lemma quiet_forward l s s' : read_inv s → quiet_inv s → forward_step batch maxRecords raw_len now l s = Some s' → quiet_inv s'.
Proof.
  intros Hinv Hq Hs. assert (Hnext : read_inv s') by (by eapply forward_inv).
  destruct s as [lf fd co cc bx pa ch pc ou tk nr nb ex cr]. inv_flow Hinv. unfold quiet_inv in Hq. cbn in Hq.
  destruct l; cbn in Hs; try done.
  - destruct pc; try done. destruct co as [|m co]; [done|].
    destruct (Hlive (or_introl eq_refl)) as [-> ->]. cbn [in_hand] in *. rewrite (Hlogs ltac:(done)), ?app_nil_r in *.
    destruct (msg_Record m) as [rec|] eqn:Hr; [destruct (_ && _) eqn:Hlim|]; injection Hs as <-; try exact Hq.
    split; [exact Hq|]. cbn. rewrite Htk. exists m, (co ++ lf). apply andb_true_iff in Hlim as [H1%Z.ltb_lt H2%Z.ltb_lt].
    split_and!; [done|by rewrite Hr|done|]. specialize (Hmax H1). lia.
  - destruct pc; try done. destruct (room batch ou); [|done]. by injection Hs as <-.
  - destruct pc; try done. destruct pa; [|done]. by destruct Hq as (? & _).
  - destruct pc; try done. destruct (room batch ou); [|done]. injection Hs as <-. destruct Hq as [_ (m & r & Hm & ? & ? & ?)].
    right. cbn. exists (tk ++ ou), m, r. by rewrite app_assoc.
  - destruct pc; try done. destruct co as [|]; [|done]. destruct (Hlive (or_introl eq_refl)) as [-> _].
    cbn [in_hand] in *. rewrite (Hlogs ltac:(done)), ?app_nil_r in *.
    destruct Hq as (Hpa & Hch & Hcr & Hfn & Hbox). cbn in *.
    assert (Hall : ∀ b, bx = Some b → tk ++ ou = msgs ∧ b = exec_error connector <$> src_result).
    { intros b Hb. destruct (Hbox b Hb) as [[e He] ->]. destruct (Hfn e He) as [-> _]. by rewrite Htk, Hmsgs, app_nil_r. }
    destruct bx as [[e|]|]; [| |done]; injection Hs as <-; destruct (Hall _ eq_refl) as [Hgot Hb].
    + destruct (Hbox _ eq_refl) as [Hfd _]. by split_and!.
    + left. destruct (Hbox _ eq_refl) as [Hfd _]. split_and!; [|done..].
      unfold all_given. cbn. rewrite Hgot. destruct src_result; [done|]. by rewrite app_nil_r.
  - destruct pc as [| | |e|]; try done. destruct (room batch ou); [|done]. injection Hs as <-. destruct Hq as (Hcr & Hgot & He & Hfd).
    left. split_and!; [|done..]. unfold all_given. cbn. rewrite app_assoc, Hgot. destruct src_result as [e'|]; [|done]. by injection He as ->.
  - destruct ou as [|m ou]; [done|].
    assert (Hs' : s' = mkRsys lf fd co cc bx pa ch pc ou (tk ++ [m]) nr nb ex cr) by (by destruct pc; injection Hs as <-).
    subst s'. unfold quiet_inv. cbn. rewrite <- app_assoc. exact Hq.
Qed.

Lemma run_quiet ls s : run ls (read_init msgs) = Some s → expired s = false → quiet_inv s.
Proof.
  revert s. induction ls as [|l ls IH] using rev_ind; intros s.
  { intros [= <-] _. unfold quiet_inv, on_course. cbn. by split_and!. }
  rewrite run_snoc. destruct (run ls _) as [s1|] eqn:H1; [|done]. intros Hs Hex.
  assert (Hq : quiet_inv s1) by (apply IH; [done|by eapply expired_mono]). apply run_inv in H1.
  cbn in Hs. unfold read_step in Hs. destruct (crashed s1); [done|].
  pose proof (quiet_source l s1 s H1 Hq Hex) as Hsrc.
  destruct l; try (by eapply quiet_forward); destruct (Hsrc Hs) as (? & ? & ? & ?); by eapply quiet_same.
Qed.

(** C11: A read whose context does not end before it is done gives everything the connector sent and then its error,
    if any, or exactly as many records as the limit allows and the notice that it was reached.  It does not crash
    before that, nor after it unless the limit was reached: the end of a limited read cancels the context while the
    connector may still be sending ([limited_read_crashes]). *)
Theorem read_complete ls s :
  run ls (read_init msgs) = Some s → expired s = false →
  match fpc s with
  | FDone => (all_given (taken s ++ out s) ∧ crashed s = false) ∨ limit_reached (taken s ++ out s)
  | _ => crashed s = false
  end.
Proof.
  intros Hr Hex. pose proof (run_quiet _ _ Hr Hex) as Hq. unfold quiet_inv, on_course in Hq.
  destruct (fpc s); naive_solver.
Qed.

(** *** Reads end *)

Definition fpc_weight (pc : forward_pc) : nat :=
  match pc with FIdle => 3 | FPut _ => 5 | FLimit => 5 | FErr _ => 2 | FDone => 0 end%nat.
Definition unset {A} (o : option A) : nat := match o with None => 1 | Some _ => 0 end%nat.
Definition measure (s : rsys) : nat :=
  (4 * length (src_left s) + 3 * length (connOut s) + length (out s) + fpc_weight (fpc s) + unset (fn_done s) +
   unset (box s) + unset (parent s) + unset (child s) + (if crashed s then 0 else 1))%nat.

Lemma measure_step l s s' : step l s = Some s' → (measure s' < measure s)%nat.
Proof.
  unfold read_step, measure. destruct s as [lf fd co cc bx pa ch pc ou tk nr nb ex cr]. cbn [crashed]. destruct cr; [done|].
  destruct l; cbn; intros Hs; repeat case_match; simplify_eq; cbn; rewrite ?length_app; cbn; try lia.
  all: destruct pa; cbn; lia.
Qed.

(** The moves other than the end of the execution's context and an early stop. *)
Definition own_moves : list read_label :=
  [SrcSend; SrcReturn; BoxFn; FTake; FSent; FLimitSent; FEnd; FErrSent; Consume].

Lemma read_progress s :
  crashed s = false → read_inv s → fpc s ≠ FDone ∨ out s ≠ [] → Exists (λ l, is_Some (step l s)) own_moves.
Proof.
  intros Hcr [_ Hclosed] Hleft. unfold own_moves. rewrite !List.Exists_cons. unfold read_step. rewrite Hcr.
  destruct s as [lf fd co cc bx pa ch pc ou tk nr nb ex cr]. cbn in *.
  destruct ou as [|m ou]; [|by do 8 right; left; destruct pc; eexists].
  assert (Hroom : room batch [] = true) by (unfold room, cap; apply bool_decide_eq_true; cbn; lia).
  rewrite Hroom. destruct pc; [|by do 4 right; left; eexists|by do 5 right; left; eexists|by do 7 right; left; eexists|by destruct Hleft].
  destruct co as [|m co].
  - destruct bx as [[e|]|]; [by do 6 right; left; eexists..|].
    destruct fd as [e|]; [by do 2 right; left; eexists|].
    destruct lf as [|m lf]; [by right; left; eexists|]. left. rewrite Hroom. by destruct cc; eexists.
  - do 3 right. left. destruct (msg_Record m); [|by eexists]. by destruct (_ && _); eexists.
Qed.

(** C33: A read ends: no run has more than [4n + 8] steps for [n] messages, and as long as it has not crashed, is not done or has something
    left for the consumer, something other than the end of a context can happen. *)
Theorem read_ends ls s :
  run ls (read_init msgs) = Some s →
  (length ls ≤ 4 * length msgs + 8)%nat ∧
  (crashed s = false → fpc s ≠ FDone ∨ out s ≠ [] → Exists (λ l, is_Some (step l s)) own_moves).
Proof.
  intros Hr. split; [|intros; apply read_progress; [done|by eapply run_inv|done]].
  assert (Hm : (length ls + measure s ≤ measure (read_init msgs))%nat).
  { revert s Hr. induction ls as [|l ls IH] using rev_ind; intros s; [by intros [= <-]|].
    rewrite run_snoc. destruct (run ls _) as [s1|]; [|done]. intros Hs. apply measure_step in Hs.
    specialize (IH _ eq_refl). rewrite length_app. cbn [length]. lia. }
  assert (Hi : measure (read_init msgs) = (4 * length msgs + 8)%nat).
  { unfold measure, read_init. cbn [src_left connOut out fpc fn_done box parent child crashed length fpc_weight unset]. lia. }
  lia.
Qed.

(** *** What goes wrong when the context ends *)

(** A message sent after the sandbox gave up is a send on a closed channel: the process crashes. *)
Theorem late_send_crashes m rest reason :
  msgs = m :: rest → ∃ s, run [Expire reason; Propagate; BoxCtx; SrcSend] (read_init msgs) = Some s ∧ crashed s = true.
Proof. intros ->. eexists. by split. Qed.

(** A read may be cut off without any notice. *)
Theorem cut_read_is_silent m rest reason :
  msgs = m :: rest → msg_Record m = None →
  ∃ s, run [SrcSend; FTake; Expire reason; FGiveUp] (read_init msgs) = Some s ∧ fpc s = FDone ∧ taken s ++ out s = [].
Proof.
  intros -> Hm. unfold read_run, read_step. cbn. unfold room, cap. rewrite bool_decide_true by (cbn; lia). cbn. rewrite Hm. cbn.
  eexists. done.
Qed.

(** A notice is sent without regard to the context: when the consumer has gone, the execution stays active. *)
Theorem notice_waits_for_consumer ls s s' :
  (fpc s = FLimit ∨ ∃ e, fpc s = FErr e) → room batch (out s) = false → Consume ∉ ls → run ls s = Some s' →
  fpc s' = fpc s ∧ out s' = out s.
Proof.
  intros Hpc Hroom. revert s'. induction ls as [|l ls IH] using rev_ind; intros s' Hno; [by intros [= <-]|].
  rewrite not_elem_of_app, list_elem_of_singleton in Hno. destruct Hno as [Hno Hl].
  rewrite run_snoc. destruct (run ls s) as [s1|]; [|done]. destruct (IH s1 Hno eq_refl) as [Hpc1 Hout1].
  rewrite <- Hpc1 in Hpc. rewrite <- Hout1 in Hroom. rewrite <- Hpc1, <- Hout1. clear IH Hpc1 Hout1.
  cbn. unfold read_step. destruct s1 as [lf fd co cc bx pa ch pc ou tk nr nb ex cr]. cbn in *. destruct cr; [done|].
  destruct l; cbn; try done; destruct Hpc as [-> | [? ->]]; rewrite ?Hroom; intros Hs; repeat case_match; simplify_eq; done.
Qed.
End reading.

(** ** Witnesses *)

Definition demo_record (n : string) : Message := record_message (mkRec "users" "" (RawDoc (JStr n)) 0).
Definition demo_msgs : list Message := [demo_record "a"; demo_record "b"; demo_record "c"].
Definition no_len (_ : RawMessage) : Z := 0.

(** Everything the connector sends passes through, then its error. *)
Definition demo_moves : list read_label :=
  [SrcSend; FTake; SrcSend; FSent; SrcSend; SrcReturn; BoxFn; FTake; FSent; FTake; Consume; FSent; FEnd; FErrSent].
Definition demo_final : rsys := default (read_init []) (read_run "crm" 10 5 no_len (Some (ErrText "eof")) 0 demo_moves (read_init demo_msgs)).

Lemma read_forwards_prefix_witness :
  ∃ fwd logs, taken demo_final ++ out demo_final = fwd ++ logs ∧ fwd `prefix_of` demo_msgs ∧
    (logs = [] ∨ ∃ m, logs = [m] ∧ is_notice 5 0 m) ∧ (0 < 5 → count fwd ≤ 5).
Proof.
  apply (read_forwards_prefix "crm" 10 5 no_len (Some (ErrText "eof")) 0 demo_msgs demo_moves demo_final). vm_compute. reflexivity.
Defined.

Lemma read_complete_witness :
  match fpc demo_final with
  | FDone => (all_given "crm" (Some (ErrText "eof")) 0 demo_msgs (taken demo_final ++ out demo_final) ∧ crashed demo_final = false) ∨
             limit_reached 5 0 demo_msgs (taken demo_final ++ out demo_final)
  | _ => crashed demo_final = false
  end.
Proof.
  apply (read_complete "crm" 10 5 no_len (Some (ErrText "eof")) 0 demo_msgs demo_moves demo_final); vm_compute; reflexivity.
Defined.

Example demo_read_done : fpc demo_final = FDone ∧ length (taken demo_final ++ out demo_final) = 4%nat.
Proof. vm_compute. done. Qed.

(** A limit of two: the third record is replaced by the notice. *)
Example demo_limit :
  let s := default (read_init [])
             (read_run "crm" 10 2 no_len None 0 [SrcSend; FTake; FSent; SrcSend; FTake; FSent; SrcSend; FTake; FLimitSent] (read_init demo_msgs)) in
  out s = [demo_record "a"; demo_record "b"; limit_log 2 0] ∧ fpc s = FDone.
Proof. vm_compute. done. Qed.

(** A read that reaches its limit may crash the process: its end cancels the context, the sandbox gives up and closes the
    channel, and the connector sends its next record. *)
Example limited_read_crashes :
  let s := default (read_init [])
             (read_run "crm" 10 1 no_len None 0 [SrcSend; FTake; FSent; SrcSend; FTake; FLimitSent; Propagate; BoxCtx; SrcSend] (read_init demo_msgs)) in
  out s = [demo_record "a"; limit_log 1 0] ∧ expired s = false ∧ crashed s = true.
Proof. vm_compute. done. Qed.

Lemma read_ends_witness :
  (length demo_moves ≤ 4 * length demo_msgs + 8)%nat ∧
  (crashed demo_final = false → fpc demo_final ≠ FDone ∨ out demo_final ≠ [] →
   Exists (λ l, is_Some (read_step "crm" 10 5 no_len (Some (ErrText "eof")) 0 l demo_final)) own_moves).
Proof.
  apply (read_ends "crm" 10 5 no_len (Some (ErrText "eof")) 0 demo_msgs demo_moves demo_final). vm_compute. reflexivity.
Defined.

Definition demo_source : Source :=
  mkSource (Ok (mkSpec "" RawEmpty)) (λ _, Ok (mkCheckResult CheckStatusSucceeded "")) (λ _, Ok (mkCatalog [])) (λ _ _ _ _, (demo_msgs, None)).
Definition counting_dest : Destination Z :=
  mkDestination (Ok (mkSpec "" RawEmpty)) (λ _, Err (ErrText "down")) 
    (λ _ _ msgs w, (Ok (mkWriteResult (Z.of_nat (length msgs)) [] []), w + 1)) [].
Definition demo_reg : connectorRegistry Z :=
  RegisterDestination "db" (mkConnectorMeta "db" "" "" "" "" "") counting_dest
    (RegisterSource "crm" (mkConnectorMeta "crm" "" "" "" "" "") demo_source registry_init).
Definition demo_rt : Runtime := NewRuntime (mkRuntimeConfig (30 * second) 1000).
Definition rt_next : Runtime := mkRuntime (rt_cfg demo_rt) (defaultSandbox demo_rt) ∅ 1.

Lemma ExecuteCheck_spec_witness :
  activeExecs rt_next = activeExecs demo_rt ∧ 105 ≤ 100 + Z.max 0 (MaxDuration (defaultSandbox demo_rt)) ∧
  answered "crm" "check" (check_answer demo_reg "crm" RawEmpty) (Ok (mkCheckResult CheckStatusSucceeded "")).
Proof.
  apply (ExecuteCheck_spec demo_reg demo_rt None "crm" RawEmpty (λ _, Some 5) 100 105 _ rt_next).
  - apply tracked_inv_NewRuntime.
  - by vm_compute.
  - apply list_elem_of_singleton. vm_compute. reflexivity.
Defined.

(** The write is cut after one of three messages when the time is up, and succeeds. *)
Lemma ExecuteWrite_spec_witness :
  activeExecs rt_next = activeExecs demo_rt ∧ 30000000100 ≤ 100 + Z.max 0 (MaxDuration (defaultSandbox demo_rt)) ∧
  ∃ dst k, GetDestination demo_reg "db" = Ok dst ∧
    (dst_Write dst RawEmpty (mkConfiguredCatalog []) (take k demo_msgs) 0).1 = Ok (mkWriteResult 1 [] []) ∧
    ((k < length demo_msgs)%nat → (WithTimeout None (MaxDuration (defaultSandbox demo_rt)) 100).1 ≤ 30000000100).
Proof.
  apply (ExecuteWrite_spec demo_reg demo_rt None "db" RawEmpty (mkConfiguredCatalog []) demo_msgs (λ _ _, Some 30000000000) 0 100 30000000100 _ rt_next).
  - apply tracked_inv_NewRuntime.
  - by vm_compute.
  - apply (write_cut demo_reg demo_rt None "db" RawEmpty (mkConfiguredCatalog []) demo_msgs (λ _ _, Some 30000000000) 0 100 counting_dest 1 30000000100);
      [reflexivity|cbn; lia|reflexivity|reflexivity].
Defined.

Lemma ExecuteDiscover_spec_witness :
  activeExecs demo_rt = activeExecs demo_rt ∧ 100 ≤ 100 + Z.max 0 (MaxDuration (defaultSandbox demo_rt)) ∧
  answered "db" "discover" (match sources demo_reg !! "db" with Some src => Some (src_Discover src RawEmpty) | None => None end)
    (Err (NewConnectorError "db" "discover" (ErrText ("source connector " +:+ quote "db" +:+ " not registered")))).
Proof.
  apply (ExecuteDiscover_spec demo_reg demo_rt None "db" RawEmpty (λ _, None) 100 100 _ demo_rt).
  - apply tracked_inv_NewRuntime.
  - by vm_compute.
  - apply list_elem_of_singleton. vm_compute. reflexivity.
Defined.

Lemma overlapping_runs_keep_limit_witness :
  limit (foldl (mem_step DefaultSandboxConfig) (mkMem int64_max ∅) [Enter 0; Enter 1; Leave 0])%nat = int64_max ∧
  limit (foldl (mem_step DefaultSandboxConfig) (mkMem int64_max ∅) [Enter 0; Enter 1; Leave 0; Leave 1])%nat = 512 * 1024 * 1024.
Proof. apply (overlapping_runs_keep_limit DefaultSandboxConfig (mkMem int64_max ∅) 0 1); by vm_compute. Defined.

Lemma nested_runs_restore_limit_witness :
  limit (foldl (mem_step DefaultSandboxConfig) (mkMem int64_max ∅) [Enter 0; Enter 1; Leave 1; Leave 0])%nat = int64_max.
Proof.
  apply (nested_runs_restore_limit DefaultSandboxConfig [Enter 0; Enter 1; Leave 1; Leave 0]%nat (mkMem int64_max ∅)).
  apply (nested_run 0 [Enter 1; Leave 1]%nat []); [|set_solver..|constructor].
  apply (nested_run 1 [] []); [constructor|set_solver..|constructor].
Defined.

(** The runtime keeps accepting executions after [Shutdown], and does not wait for the active ones. *)
Example shutdown_does_not_wait :
  let '(_, _, r) := startExecution demo_rt None "crm" "read" 0 in
  ActiveExecutions (Shutdown r) = 1%nat ∧ ActiveExecutions (startExecution (Shutdown r) None "crm" "check" 1).2 = 2%nat.
Proof. vm_compute. done. Qed.
