(* ===== verification/ConnRegistry.v ===== *)
(** * The dynamic connector registry: [internal/connector/registry/registry.go]

    Connectors described by files, beside the ones registered in the program, and their health.  A health entry is an
    object that callers keep a pointer to: pointers are numbers and [heap] holds the objects.  A health check
    releases the lock between its parts, which are functions of their own.  Iterations over maps take the order of
    [map_to_list]. *)

From Stdlib Require Import Ascii.
From S2P Require Import Prelude GoStrings Errors Value Protocol JsonDecode Files.

(** ** Data *)

Record ConnectorConfig := mkConnectorConfig {
  Name : string; DisplayName : string; Version : string; cc_Type : string; Category : string; Icon : string; Enabled : bool
}.

Inductive HealthStatus := HealthStatusHealthy | HealthStatusUnhealthy | HealthStatusUnknown.

Record ConnectorHealth := mkHealth {
  ch_Name : string; Status : HealthStatus; ch_Message : string; LastCheck : Z; CheckCount : Z
}.

Record DynamicRegistry := mkDynamicRegistry {
  configDir : string;
  configs : gmap string ConnectorConfig;
  health : gmap string nat;
  heap : gmap nat ConnectorHealth;
  next : nat;                          (** the next pointer *)
  lastRefresh : Z
}.

Definition NewDynamicRegistry (dir : string) : DynamicRegistry := mkDynamicRegistry dir ∅ ∅ ∅ 0 zero_time.

(** A new object becomes the health of a name. *)
Definition put_health (dr : DynamicRegistry) (name : string) (h : ConnectorHealth) : DynamicRegistry :=
  mkDynamicRegistry (configDir dr) (configs dr) (<[name := next dr]> (health dr)) (<[next dr := h]> (heap dr)) (S (next dr)) (lastRefresh dr).
Definition put_config (dr : DynamicRegistry) (c : ConnectorConfig) : DynamicRegistry :=
  mkDynamicRegistry (configDir dr) (<[Name c := c]> (configs dr)) (health dr) (heap dr) (next dr) (lastRefresh dr).

(** [filepath.Ext], from the end of the path. *)
Fixpoint ext_loop (rbs acc : list ascii) : list ascii :=
  match rbs with
  | [] => []
  | c :: rest => if Ascii.eqb c "/" then [] else if Ascii.eqb c "." then c :: acc else ext_loop rest (c :: acc)
  end.
Definition Ext (path : string) : string := of_bytes (ext_loop (reverse (bytes_of path)) []).

(** ** Loading *)

Section registry.
Context {W X : Type} `{FileSystem string X} (reg : connectorRegistry W).
Context (type_error : string → json → error) (json_doc : string → RawMessage) (not_exist : string → error).

Definition config_member (acc : ConnectorConfig * option error) (e : string * json) : ConnectorConfig * option error :=
  let '(c, err) := acc in
  let '(k, j) := e in
  let 'mkConnectorConfig n d v t ca ic en := c in
  let text (old : string) (put : string → ConnectorConfig) :=
    let '(s, err) := string_member type_error k old j err in (put s, err) in
  if key_matches "name" k then text n (λ s, mkConnectorConfig s d v t ca ic en)
  else if key_matches "display_name" k then text d (λ s, mkConnectorConfig n s v t ca ic en)
  else if key_matches "version" k then text v (λ s, mkConnectorConfig n d s t ca ic en)
  else if key_matches "type" k then text t (λ s, mkConnectorConfig n d v s ca ic en)
  else if key_matches "category" k then text ca (λ s, mkConnectorConfig n d v t s ic en)
  else if key_matches "icon" k then text ic (λ s, mkConnectorConfig n d v t ca s en)
  else if key_matches "enabled" k then
    let '(b, err) := bool_member type_error k en j err in (mkConnectorConfig n d v t ca ic b, err)
  else acc.

Definition unmarshal_config (data : string) : res ConnectorConfig :=
  unmarshal_struct type_error (mkConnectorConfig "" "" "" "" "" "" false) config_member (json_doc data).

(** What comes of an entry of the directory; [None] for one that is passed over. *)
Definition load_entry (path : string) (x : X) (entry : string * bool) : option (res ConnectorConfig) :=
  let '(name, is_dir) := entry in
  if is_dir || negb (bool_decide (Ext name = ".json")) then None
  else
    let fullPath := PathJoin path name in
    Some (match ReadFile fullPath x with
          | Ok (Some data) =>
              match unmarshal_config data with
              | Err e => Err (ErrWrapf ("parse " +:+ fullPath) e)
              | Panic m => Panic m
              | Ok cfg => if bool_decide (Name cfg = "") then Err (ErrText ("config " +:+ fullPath +:+ ": missing name")) else Ok cfg
              end
          | Ok None => Err (ErrWrapf ("read " +:+ fullPath) (not_exist fullPath))
          | Err e => Err (ErrWrapf ("read " +:+ fullPath) e)
          | Panic m => Panic m
          end).

Definition load_step (path : string) (x : X) (acc : DynamicRegistry * list error) (entry : string * bool) :
    res (DynamicRegistry * list error) :=
  let '(dr, errs) := acc in
  match load_entry path x entry with
  | None => Ok (dr, errs)
  | Some (Err e) => Ok (dr, errs ++ [e])
  | Some (Panic m) => Panic m
  | Some (Ok cfg) =>
      Ok (put_health (put_config dr cfg) (Name cfg) (mkHealth (Name cfg) HealthStatusUnknown "" zero_time 0), errs)
  end.

Definition refreshed_at (dr : DynamicRegistry) (now : Z) : DynamicRegistry :=
  mkDynamicRegistry (configDir dr) (configs dr) (health dr) (heap dr) (next dr) now.

Definition LoadFromConfig (dr : DynamicRegistry) (path : string) (x : X) (now : Z) : res unit * DynamicRegistry :=
  match ReadDir path x with
  | Err e => (Err (ErrWrapf ("read config directory " +:+ path) e), dr)
  | Ok None => (Err (ErrWrapf ("read config directory " +:+ path) (not_exist path)), dr)
  | Panic m => (Panic m, dr)
  | Ok (Some entries) =>
      match foldM (load_step path x) (dr, []) entries with
      | Panic m => (Panic m, dr)
      | Err e => (Err e, dr)
      | Ok (dr, errs) =>
          (match errs with
           | [] => Ok tt
           | e :: _ => Err (ErrWrapf ("loaded with " +:+ pretty (Z.of_nat (length errs)) +:+ " errors; first") e)
           end, refreshed_at dr now)
      end
  end.

Definition Refresh (dr : DynamicRegistry) (x : X) (now : Z) : res unit * DynamicRegistry := LoadFromConfig dr (configDir dr) x now.
Definition LastRefreshTime (dr : DynamicRegistry) : Z := lastRefresh dr.

(** ** Listing *)

Definition GetConfig (dr : DynamicRegistry) (name : string) : option ConnectorConfig := configs dr !! name.
Definition ListConfigs (dr : DynamicRegistry) : list ConnectorConfig := (map_to_list (configs dr)).*2.

Definition meta_of (c : ConnectorConfig) : ConnectorMeta :=
  mkConnectorMeta (Name c) (DisplayName c) (Version c) (cc_Type c) (Category c) (Icon c).
Definition ListAll (dr : DynamicRegistry) : list ConnectorMeta :=
  let static := ListConnectors reg in
  let seen := map cm_Name static in
  static ++ map meta_of (List.filter (λ c, negb (bool_decide (Name c ∈ seen))) (ListConfigs dr)).

Definition registered (name : string) : bool := is_ok (GetSource reg name) || is_ok (GetDestination reg name).

Definition IsEnabled (dr : DynamicRegistry) (name : string) : bool :=
  match configs dr !! name with Some cfg => Enabled cfg | None => registered name end.

(** ** Health *)

(** The entry of a name, which is made for a connector that is only registered in the program. *)
Definition find_health (dr : DynamicRegistry) (name : string) : res nat * DynamicRegistry :=
  match health dr !! name with
  | Some p => (Ok p, dr)
  | None =>
      if registered name
      then (Ok (next dr), put_health dr name (mkHealth name HealthStatusUnknown "" zero_time 0))
      else (Err (ErrText ("connector " +:+ quote name +:+ " not found")), dr)
  end.

Definition spec_health (r : res Spec) : res (HealthStatus * string) :=
  match r with
  | Ok _ => Ok (HealthStatusHealthy, "connector registered and available")
  | Err e => Ok (HealthStatusUnhealthy, "spec error: " +:+ Error e)
  | Panic m => Panic m
  end.

Definition judge (dr : DynamicRegistry) (name : string) : res (HealthStatus * string) :=
  match GetSource reg name, GetDestination reg name with
  | Ok src, _ => spec_health (src_Spec src)
  | _, Ok dst => spec_health (dst_Spec dst)
  | _, _ =>
      Ok (match configs dr !! name with
          | Some cfg =>
              if Enabled cfg then (HealthStatusUnknown, "connector configured but not loaded into CDK registry")
              else (HealthStatusUnhealthy, "connector is disabled")
          | None => (HealthStatusUnhealthy, "connector not found in any registry")
          end)
  end.

Definition store_health (dr : DynamicRegistry) (p : nat) (status : HealthStatus) (message : string) (now : Z) : DynamicRegistry :=
  mkDynamicRegistry (configDir dr) (configs dr) (health dr)
    (alter (λ h, mkHealth (ch_Name h) status message now (CheckCount h + 1)) p (heap dr)) (next dr) (lastRefresh dr).

Definition HealthCheck (dr : DynamicRegistry) (name : string) (now : Z) : res nat * DynamicRegistry :=
  match find_health dr name with
  | (Ok p, dr) =>
      match judge dr name with
      | Ok (status, message) => (Ok p, store_health dr p status message now)
      | Err e => (Err e, dr)
      | Panic m => (Panic m, dr)
      end
  | r => r
  end.

(** The names to check: the configured ones, then the registered ones that are not among them. *)
Definition known_names (dr : DynamicRegistry) : list string :=
  foldl (λ names m, if bool_decide (cm_Name m ∈ names) then names else names ++ [cm_Name m])
    (map_to_list (configs dr)).*1 (ListConnectors reg).

Definition check_step (now : Z) (acc : gmap string nat * DynamicRegistry) (name : string) : res (gmap string nat * DynamicRegistry) :=
  let '(results, dr) := acc in
  match HealthCheck dr name now with
  | (Ok p, dr) => Ok (<[name := p]> results, dr)
  | (Err e, dr) =>
      let dr' := mkDynamicRegistry (configDir dr) (configs dr) (health dr)
                   (<[next dr := mkHealth name HealthStatusUnhealthy (Error e) now 0]> (heap dr)) (S (next dr)) (lastRefresh dr) in
      Ok (<[name := next dr]> results, dr')
  | (Panic m, _) => Panic m
  end.

Definition HealthCheckAll (dr : DynamicRegistry) (now : Z) : res (gmap string nat * DynamicRegistry) :=
  foldM (check_step now) (∅, dr) (known_names dr).
End registry.

(** ** What a directory holds *)

Section theorems.
Context {W X : Type} `{FileSystem string X} (reg : connectorRegistry W).
Context (type_error : string → json → error) (json_doc : string → RawMessage) (not_exist : string → error).

Abbreviation entry_of := (load_entry type_error json_doc not_exist).
Abbreviation load := (LoadFromConfig type_error json_doc not_exist).

(** The valid configurations of a directory and the errors of the others, in the order of the entries. *)
Definition loaded (path : string) (x : X) (entries : list (string * bool)) : list ConnectorConfig :=
  omap (λ e, match entry_of path x e with Some (Ok c) => Some c | _ => None end) entries.
Definition load_errors (path : string) (x : X) (entries : list (string * bool)) : list error :=
  omap (λ e, match entry_of path x e with Some (Err e) => Some e | _ => None end) entries.

Definition latest_config (name : string) (l : list ConnectorConfig) : option ConnectorConfig :=
  list.last (List.filter (λ c, bool_decide (Name c = name)) l).

(** The health of a name. *)
Definition status_of (dr : DynamicRegistry) (name : string) : option ConnectorHealth := health dr !! name ≫= λ p, heap dr !! p.
Definition unchecked (name : string) : ConnectorHealth := mkHealth name HealthStatusUnknown "" zero_time 0.

(** Configurations are under their names and have a health entry; entries are objects that say their name. *)
Record registry_ok (dr : DynamicRegistry) : Prop := {
  rg_names : map_Forall (λ n c, Name c = n) (configs dr);
  rg_health n : is_Some (configs dr !! n) → is_Some (health dr !! n);
  rg_heap n p : health dr !! n = Some p → ∃ h, heap dr !! p = Some h ∧ ch_Name h = n;
  rg_next p : is_Some (heap dr !! p) → (p < next dr)%nat
}.

Lemma registry_ok_new dir : registry_ok (NewDynamicRegistry dir).
Proof. split; cbn; [apply map_Forall_empty|by intros n []|done|by intros p []]. Qed.

Lemma put_health_ok dr name h : ch_Name h = name → registry_ok dr → registry_ok (put_health dr name h).
Proof.
  intros Hh [H1 H2 H3 H4]. split; cbn; [done| | |].
  - intros n Hn. destruct (decide (n = name)) as [->|Hne]; [rewrite lookup_insert_eq; eauto|rewrite lookup_insert_ne by done; auto].
  - intros n p. destruct (decide (n = name)) as [->|Hne].
    + rewrite lookup_insert_eq. intros [= <-]. rewrite lookup_insert_eq. eauto.
    + rewrite lookup_insert_ne by done. intros Hp. destruct (H3 n p Hp) as (h' & Hh' & Hn).
      rewrite lookup_insert_ne; [eauto|]. intros <-. assert (next dr < next dr)%nat by eauto. lia.
  - intros p. destruct (decide (p = next dr)) as [->|Hne]; [lia|]. rewrite lookup_insert_ne by done. intros Hp. specialize (H4 p Hp). lia.
Qed.

Lemma status_of_put dr name h n :
  registry_ok dr → status_of (put_health dr name h) n = if decide (n = name) then Some h else status_of dr n.
Proof.
  intros [_ _ H3 H4]. unfold status_of. cbn. case_decide as Hn.
  - subst. by rewrite lookup_insert_eq; cbn; rewrite lookup_insert_eq.
  - rewrite lookup_insert_ne by done. destruct (health dr !! n) as [p|] eqn:Hp; [|done]. cbn.
    rewrite lookup_insert_ne; [done|]. intros <-. destruct (H3 n _ Hp) as (h' & Hh' & _).
    assert (next dr < next dr)%nat by eauto. lia.
Qed.

(** A configuration that is loaded replaces what was there, and its health starts anew. *)
Definition load_one (dr : DynamicRegistry) (c : ConnectorConfig) : DynamicRegistry := put_health (put_config dr c) (Name c) (unchecked (Name c)).

Lemma load_one_ok dr c : registry_ok dr → registry_ok (load_one dr c).
Proof.
  intros Hok. unfold load_one, put_config. destruct Hok as [H1 H2 H3 H4]. split; cbn.
  - by apply map_Forall_insert_2.
  - intros n. destruct (decide (n = Name c)) as [->|Hne]; [rewrite !lookup_insert_eq; eauto|rewrite !lookup_insert_ne by done; auto].
  - intros n p. destruct (decide (n = Name c)) as [->|Hne].
    + rewrite lookup_insert_eq. intros [= <-]. rewrite lookup_insert_eq. by eexists.
    + rewrite lookup_insert_ne by done. intros Hp. destruct (H3 n p Hp) as (h' & Hh' & Hn).
      rewrite lookup_insert_ne; [eauto|]. intros <-. assert (next dr < next dr)%nat by eauto. lia.
  - intros p. destruct (decide (p = next dr)) as [->|Hne]; [lia|]. rewrite lookup_insert_ne by done. intros Hp. specialize (H4 p Hp). lia.
Qed.

Lemma load_fold path x entries dr errs :
  (∀ e m, entry_of path x e ≠ Some (Panic m)) →
  foldM (load_step type_error json_doc not_exist path x) (dr, errs) entries =
  Ok (foldl load_one dr (loaded path x entries), errs ++ load_errors path x entries).
Proof.
  intros Hnp. revert dr errs. induction entries as [|e entries IH]; intros dr errs; [cbn; by rewrite app_nil_r|].
  cbn [foldM]. unfold load_step at 1, loaded, load_errors. cbn [omap list_omap].
  destruct (entry_of path x e) as [[c|er|m]|] eqn:He; [| |by destruct (Hnp e m)|].
  - rewrite IH. done.
  - rewrite IH. by rewrite <- app_assoc.
  - rewrite IH. done.
Qed.

Lemma latest_config_cons name c l :
  latest_config name (c :: l) = match latest_config name l with
                                | Some c' => Some c'
                                | None => if decide (Name c = name) then Some c else None
                                end.
Proof.
  unfold latest_config. cbn. destruct (decide (Name c = name)) as [Hn|Hn].
  - rewrite bool_decide_true by done. destruct (List.filter _ l) eqn:Hf; [done|]. cbn [list.last]. 
    destruct (list.last (c0 :: l0)) eqn:Hl; [done|]. by apply last_None in Hl.
  - rewrite bool_decide_false by done. by destruct (list.last _).
Qed.

Lemma load_all l dr :
  registry_ok dr →
  registry_ok (foldl load_one dr l) ∧
  (∀ n, configs (foldl load_one dr l) !! n = match latest_config n l with Some c => Some c | None => configs dr !! n end) ∧
  (∀ n, status_of (foldl load_one dr l) n = if latest_config n l then Some (unchecked n) else status_of dr n).
Proof.
  revert dr. induction l as [|c l IH]; intros dr Hok; [done|]. cbn [foldl].
  destruct (IH (load_one dr c) (load_one_ok dr c Hok)) as (Hok' & Hc & Hs). split_and!; [done| |].
  - intros n. rewrite Hc, latest_config_cons. destruct (latest_config n l); [done|]. cbn. case_decide as Hn.
    + subst. by rewrite lookup_insert_eq.
    + by rewrite lookup_insert_ne.
  - intros n. rewrite Hs, latest_config_cons. destruct (latest_config n l); [done|]. unfold load_one.
    assert (Hpc : ∀ h, status_of (put_health (put_config dr c) (Name c) h) n = status_of (put_health dr (Name c) h) n) by done.
    rewrite Hpc, status_of_put by done. case_decide as Hn; case_decide as Hn'; congruence || by subst.
Qed.

(** Loading a directory makes the last valid file that names a connector its configuration, leaves the other
    configurations as they were, also those whose file has gone, and starts the health of every loaded connector anew; it reports how many files
    could not be loaded, and the first reason. *)
Theorem LoadFromConfig_spec dr path x now entries :
  registry_ok dr → ReadDir path x = Ok (Some entries) → (∀ e m, entry_of path x e ≠ Some (Panic m)) →
  let '(r, dr') := load dr path x now in
  registry_ok dr' ∧ LastRefreshTime dr' = now ∧
  (∀ n, GetConfig dr' n = match latest_config n (loaded path x entries) with Some c => Some c | None => GetConfig dr n end) ∧
  (∀ n, status_of dr' n = if latest_config n (loaded path x entries) then Some (unchecked n) else status_of dr n) ∧
  match load_errors path x entries with
  | [] => r = Ok tt
  | e :: es => r = Err (ErrWrapf ("loaded with " +:+ pretty (Z.of_nat (S (length es))) +:+ " errors; first") e)
  end.
Proof.
  intros Hok Hdir Hnp. unfold LoadFromConfig. rewrite Hdir, load_fold by done. cbn [app].
  destruct (load_all (loaded path x entries) dr Hok) as ([H1 H2 H3 H4] & Hc & Hs).
  split_and!; [by split|done|exact Hc|exact Hs|]. by destruct (load_errors path x entries).
Qed.

(** ** Health checks *)

(** What the registered connector of a name says of its specification: the source, or else the destination. *)
Definition spec_of (name : string) : option (res Spec) :=
  match sources reg !! name with Some s => Some (src_Spec s) | None => dst_Spec <$> destinations reg !! name end.

Definition enabled_config (dr : DynamicRegistry) (name : string) : bool := from_option Enabled false (configs dr !! name).

Lemma judge_iff dr name :
  (∀ m, spec_of name ≠ Some (Panic m)) →
  ∃ st msg, judge reg dr name = Ok (st, msg) ∧
    (st = HealthStatusHealthy ↔ ∃ s, spec_of name = Some (Ok s)) ∧
    (st = HealthStatusUnknown ↔ spec_of name = None ∧ enabled_config dr name = true).
Proof.
  intros Hnp. unfold judge, spec_of, enabled_config, GetSource, GetDestination, lookup_or in *.
  assert (Hiffs : ∀ (o : option (res Spec)) (b : bool) (st : HealthStatus),
    (match o with
     | Some (Ok _) => st = HealthStatusHealthy
     | Some (Err _) => st = HealthStatusUnhealthy
     | Some (Panic _) => False
     | None => st = if b then HealthStatusUnknown else HealthStatusUnhealthy
     end) →
    (st = HealthStatusHealthy ↔ ∃ s, o = Some (Ok s)) ∧ (st = HealthStatusUnknown ↔ o = None ∧ b = true)).
  { intros [[s|e|m]|] b st Hst; [..|destruct b]; subst; try done; split; split; try done; eauto.
    all: by intros [? ?]. }
  destruct (sources reg !! name) as [s|].
  { destruct (src_Spec s) as [sp|e|m]; cbn; [| |by destruct (Hnp m)]; eexists _, _; (split; [done|]); by apply Hiffs. }
  destruct (destinations reg !! name) as [d|]; cbn in *.
  { destruct (dst_Spec d) as [sp|e|m]; cbn; [| |by destruct (Hnp m)]; eexists _, _; (split; [done|]); by apply Hiffs. }
  destruct (configs dr !! name) as [c|]; [destruct (Enabled c) eqn:He|]; eexists _, _; (split; [done|]); apply Hiffs; cbn; by rewrite ?He.
Qed.

Lemma registered_spec name : registered reg name = true ↔ is_Some (spec_of name).
Proof.
  unfold registered, spec_of, GetSource, GetDestination, lookup_or.
  destruct (sources reg !! name), (destinations reg !! name); cbn; split; first [done|by eexists|by intros []].
Qed.

Lemma find_health_ok dr name p dr' :
  registry_ok dr → find_health reg dr name = (Ok p, dr') →
  registry_ok dr' ∧ health dr' !! name = Some p ∧ configs dr' = configs dr ∧
  (∃ h, heap dr' !! p = Some h ∧ ch_Name h = name ∧ CheckCount h = from_option CheckCount 0 (status_of dr name)) ∧
  ∀ n, n ≠ name → status_of dr' n = status_of dr n.
Proof.
  intros Hok. unfold find_health. destruct (health dr !! name) as [p'|] eqn:Hp.
  - intros [= <- <-]. split_and!; try done. destruct (rg_heap _ Hok _ _ Hp) as (h & Hh & Hn).
    exists h. split_and!; [done..|]. unfold status_of. by rewrite Hp; cbn; rewrite Hh.
  - destruct (registered reg name); [|done]. intros [= <- <-]. split_and!.
    + by apply put_health_ok.
    + cbn. apply lookup_insert_eq.
    + done.
    + exists (unchecked name). split_and!; [cbn; apply lookup_insert_eq|done|]. unfold status_of. by rewrite Hp.
    + intros n Hn. rewrite status_of_put by done. by rewrite decide_False.
Qed.

(** A health check of a connector that is configured or registered counts up its entry and tells the time; it says healthy
    exactly if the connector is registered and its specification is there, and unknown exactly if it is only configured, and
    enabled; other entries stay as they are.  Of any other name it is an error and nothing changes. *)
Lemma HealthCheck_spec dr name now :
  registry_ok dr → (∀ m, spec_of name ≠ Some (Panic m)) →
  let '(r, dr') := HealthCheck reg dr name now in
  registry_ok dr' ∧
  match r with
  | Ok p => health dr' !! name = Some p ∧
            ∃ h, heap dr' !! p = Some h ∧ ch_Name h = name ∧ LastCheck h = now ∧
                 CheckCount h = from_option CheckCount 0 (status_of dr name) + 1 ∧
                 (Status h = HealthStatusHealthy ↔ ∃ s, spec_of name = Some (Ok s)) ∧
                 (Status h = HealthStatusUnknown ↔ spec_of name = None ∧ enabled_config dr name = true) ∧
                 ∀ n, n ≠ name → status_of dr' n = status_of dr n
  | Err _ => dr' = dr ∧ health dr !! name = None ∧ spec_of name = None
  | Panic _ => False
  end.
Proof.
  intros Hok Hnp. unfold HealthCheck. destruct (find_health reg dr name) as [[p|e|m] dr1] eqn:Hf.
  - destruct (find_health_ok _ _ _ _ Hok Hf) as ([H1 H2 H3 H4] & Hp & Hc & (h & Hh & Hn & Hcount) & Hother).
    destruct (judge_iff dr1 name Hnp) as (st & msg & -> & Hhealthy & Hunknown).
    split.
    + split; cbn; [done|done| |].
      * intros n q Hq. destruct (H3 n q Hq) as (h' & Hh' & Hn'). destruct (decide (q = p)) as [->|Hne].
        -- rewrite lookup_alter_eq, Hh'. by eexists.
        -- rewrite lookup_alter_ne by done. eauto.
      * intros q Hq. apply H4. destruct (decide (q = p)) as [->|Hne]; [eauto|by rewrite lookup_alter_ne in Hq].
    + split; [done|]. eexists. cbn. rewrite lookup_alter_eq, Hh. cbn. split_and!; try done.
      * by rewrite Hcount.
      * unfold enabled_config in *. by rewrite Hc in Hunknown.
      * intros n Hne. rewrite <- (Hother n Hne). unfold status_of. cbn. destruct (health dr1 !! n) as [q|] eqn:Hq; [|done]. cbn.
        rewrite lookup_alter_ne; [done|]. intros <-. destruct (H3 n p Hq) as (h' & Hh' & Hn'). congruence.
  - unfold find_health in Hf. destruct (health dr !! name) eqn:Hp; [done|]. destruct (registered reg name) eqn:Hr; [done|].
    injection Hf as <- <-. split_and!; try done. destruct (spec_of name) eqn:Hs; [|done].
    assert (registered reg name = true) by (apply registered_spec; eauto). congruence.
  - unfold find_health in Hf. destruct (health dr !! name); [done|]. by destruct (registered reg name).
Qed.

End theorems.

(** ** All connectors *)

Section listing.
Context {W : Type} (reg : connectorRegistry W).

Lemma known_names_elem dr n :
  n ∈ known_names reg dr ↔ is_Some (configs dr !! n) ∨ n ∈ map cm_Name (ListConnectors reg).
Proof.
  unfold known_names. assert (Hb : n ∈ (map_to_list (configs dr)).*1 ↔ is_Some (configs dr !! n)).
  { rewrite list_elem_of_fmap. split.
    - intros ([k c] & -> & Hin). apply elem_of_map_to_list in Hin. cbn. eauto.
    - intros [c Hc]. exists (n, c). split; [done|]. by apply elem_of_map_to_list. }
  rewrite <- Hb. clear Hb. generalize (map_to_list (configs dr)).*1. induction (ListConnectors reg) as [|m ms IH]; intros names; cbn [foldl map].
  - split; [by left|]. intros [?|Hin]; [done|]. by apply not_elem_of_nil in Hin.
  - rewrite IH, elem_of_cons. case_bool_decide as Hm; [naive_solver|]. rewrite elem_of_app, list_elem_of_singleton. tauto.
Qed.

(** Objects stay: a check changes the time of one, at most. *)
Definition objects_kept (now : Z) (dr dr' : DynamicRegistry) : Prop :=
  ∀ p h, heap dr !! p = Some h → ∃ h', heap dr' !! p = Some h' ∧ ch_Name h' = ch_Name h ∧ (LastCheck h' = LastCheck h ∨ LastCheck h' = now).

Lemma HealthCheck_kept dr name now r dr' : registry_ok dr → HealthCheck reg dr name now = (r, dr') → objects_kept now dr dr' ∧ configs dr' = configs dr.
Proof.
  intros Hok. unfold HealthCheck. destruct (find_health reg dr name) as [fr dr1] eqn:Hf.
  assert (H1 : (∀ p h, heap dr !! p = Some h → heap dr1 !! p = Some h) ∧ configs dr1 = configs dr).
  { unfold find_health in Hf. destruct (health dr !! name); [by injection Hf as <- <-|]. destruct (registered reg name); injection Hf as <- <-; [|done].
    split; [|done]. intros p h Hp. cbn. rewrite lookup_insert_ne; [done|]. intros <-. assert (next dr < next dr)%nat by (eapply rg_next; eauto). lia. }
  destruct H1 as [H1 H2]. assert (Hsame : objects_kept now dr dr1) by (intros p h Hp; exists h; auto).
  destruct fr as [p|e|m]; [|by intros [= <- <-]..].
  destruct (judge reg dr1 name) as [[st msg]|e|m]; intros [= <- <-]; [|done..]. split; [|done].
  intros q h Hq. cbn. destruct (decide (q = p)) as [->|Hne].
  - rewrite lookup_alter_eq, (H1 _ _ Hq). eexists. split_and!; [done|done|by right].
  - rewrite lookup_alter_ne by done. exists h. auto.
Qed.

Definition checked (now : Z) (results : gmap string nat) (dr : DynamicRegistry) : Prop :=
  ∀ n p, results !! n = Some p → ∃ h, heap dr !! p = Some h ∧ ch_Name h = n ∧ LastCheck h = now.

Lemma checked_kept now results dr dr' : objects_kept now dr dr' → checked now results dr → checked now results dr'.
Proof.
  intros Hk Hc n p Hp. destruct (Hc n p Hp) as (h & Hh & Hn & Hl). destruct (Hk p h Hh) as (h' & Hh' & Hn' & Hl').
  exists h'. split_and!; [done|congruence|]. destruct Hl'; congruence.
Qed.

Lemma check_fold now names dr results :
  registry_ok dr → (∀ n m, spec_of reg n ≠ Some (Panic m)) → checked now results dr →
  ∃ results' dr', foldM (check_step reg now) (results, dr) names = Ok (results', dr') ∧
    registry_ok dr' ∧ checked now results' dr' ∧ configs dr' = configs dr ∧
    ∀ n, is_Some (results' !! n) ↔ is_Some (results !! n) ∨ n ∈ names.
Proof.
  intros Hok Hnp. revert dr results Hok. induction names as [|n names IH]; intros dr results Hok Hch; cbn [foldM].
  { exists results, dr. split_and!; try done. intros k. rewrite elem_of_nil. tauto. }
  unfold check_step at 1. pose proof (HealthCheck_spec reg dr n now Hok (Hnp n)) as Hs.
  destruct (HealthCheck reg dr n now) as [r dr1] eqn:Hc. destruct Hs as [Hok1 Hr].
  destruct (HealthCheck_kept _ _ _ _ _ Hok Hc) as [Hkept Hcfg].
  assert (Hnext : ∀ p dr2, registry_ok dr2 → configs dr2 = configs dr → checked now (<[n := p]> results) dr2 →
    ∃ results' dr', foldM (check_step reg now) (<[n := p]> results, dr2) names = Ok (results', dr') ∧
    registry_ok dr' ∧ checked now results' dr' ∧ configs dr' = configs dr ∧
    ∀ k, is_Some (results' !! k) ↔ is_Some (results !! k) ∨ k ∈ n :: names).
  { intros p dr2 Hok2 Hcfg2 Hch2. destruct (IH dr2 _ Hok2 Hch2) as (res & dr' & Hf & Hok' & Hch' & Hcfg' & Hdom).
    exists res, dr'. split_and!; [done..|congruence|]. intros k. rewrite Hdom, elem_of_cons.
    destruct (decide (k = n)) as [->|Hne]; [rewrite lookup_insert_eq; split; eauto|rewrite lookup_insert_ne by done; tauto]. }
  destruct r as [p|e|m]; [|..|done].
  - destruct Hr as (_ & h & Hh & Hn & Hl & _). apply Hnext; [done|done|]. intros k q Hq. destruct (decide (k = n)) as [->|Hne].
    + rewrite lookup_insert_eq in Hq. injection Hq as <-. eauto.
    + rewrite lookup_insert_ne in Hq by done. by eapply checked_kept.
  - destruct Hr as (-> & _ & _). apply Hnext; [|done|].
    + destruct Hok as [H1 H2 H3 H4]. split; cbn; [done|done| |].
      * intros k q Hq. destruct (H3 k q Hq) as (h & Hh & Hk). rewrite lookup_insert_ne; [eauto|]. intros <-.
        assert (next dr < next dr)%nat by eauto. lia.
      * intros q. destruct (decide (q = next dr)) as [->|Hne]; [lia|]. rewrite lookup_insert_ne by done. intros Hq. specialize (H4 q Hq). lia.
    + intros k q. cbn. destruct (decide (k = n)) as [->|Hne].
      * rewrite lookup_insert_eq. intros [= <-]. eexists. by rewrite lookup_insert_eq.
      * rewrite lookup_insert_ne by done. intros Hq. destruct (Hch k q Hq) as (h & Hh & Hk). exists h. rewrite lookup_insert_ne; [done|].
        intros <-. assert (next dr < next dr)%nat by (eapply rg_next; eauto). lia.
Qed.

(** Checking all covers every connector that is configured or registered, and no other; each gets a
    result under its name, of this very check. *)
Theorem HealthCheckAll_spec dr now :
  registry_ok dr → (∀ n m, spec_of reg n ≠ Some (Panic m)) →
  ∃ results dr', HealthCheckAll reg dr now = Ok (results, dr') ∧ registry_ok dr' ∧ configs dr' = configs dr ∧
    (∀ n, is_Some (results !! n) ↔ is_Some (GetConfig dr n) ∨ n ∈ map cm_Name (ListConnectors reg)) ∧
    ∀ n p, results !! n = Some p → ∃ h, heap dr' !! p = Some h ∧ ch_Name h = n ∧ LastCheck h = now.
Proof.
  intros Hok Hnp. destruct (check_fold now (known_names reg dr) dr ∅ Hok Hnp) as (res & dr' & Hf & Hok' & Hch & Hcfg & Hdom); [done|].
  exists res, dr'. split_and!; try done. intros n. rewrite Hdom, known_names_elem, lookup_empty. unfold GetConfig.
  split; [intros [[? [=]]|?]; done|by right].
Qed.

(** The connectors listed: the registered ones, and the configured ones that are not registered under the same name, each
    once; disabled ones are listed as well. *)
Theorem ListAll_spec dr :
  registry_ok dr → NoDup (map cm_Name (ListConnectors reg)) →
  NoDup (map cm_Name (ListAll reg dr)) ∧
  ∀ n, n ∈ map cm_Name (ListAll reg dr) ↔ n ∈ map cm_Name (ListConnectors reg) ∨ is_Some (GetConfig dr n).
Proof.
  intros [Hn _ _ _] Hnd. unfold ListAll. cbn zeta. set (static := ListConnectors reg) in *.
  set (dyn := List.filter _ (ListConfigs dr)).
  assert (Hcfg : ∀ c, c ∈ ListConfigs dr ↔ configs dr !! Name c = Some c).
  { intros c. unfold ListConfigs. rewrite list_elem_of_fmap. split.
    - intros ([k c'] & -> & Hin). apply elem_of_map_to_list in Hin. cbn. by rewrite (Hn _ _ Hin).
    - intros Hc. exists (Name c, c). split; [done|]. by apply elem_of_map_to_list. }
  assert (Hdyn : ∀ c, c ∈ dyn ↔ configs dr !! Name c = Some c ∧ Name c ∉ map cm_Name static).
  { intros c. unfold dyn. rewrite list_elem_of_In, filter_In, <- list_elem_of_In, Hcfg, negb_true_iff, bool_decide_eq_false. done. }
  assert (Hnames : map Name (ListConfigs dr) = (map_to_list (configs dr)).*1).
  { unfold ListConfigs. rewrite map_map. apply map_ext_in. intros [k c] Hin%list_elem_of_In. apply elem_of_map_to_list in Hin. cbn. by apply Hn in Hin. }
  assert (Hmeta : map cm_Name (map meta_of dyn) = map Name dyn) by (by rewrite map_map).
  rewrite map_app, Hmeta. split.
  - apply list.NoDup_app. split_and!; [done| |].
    + intros n Hs Hd. apply list_elem_of_fmap in Hd as (c & -> & Hc). apply Hdyn in Hc as [_ ?]. done.
    + eapply sublist_NoDup; [|apply map_sublist, filter_sublist]. rewrite Hnames. apply NoDup_fst_map_to_list.
  - intros n. rewrite elem_of_app. unfold GetConfig. split.
    + intros [?|Hd]; [by left|]. apply list_elem_of_fmap in Hd as (c & -> & Hc). apply Hdyn in Hc as [Hc _]. rewrite Hc. right. by eexists.
    + intros [?|[c Hc]]; [by left|]. destruct (decide (n ∈ map cm_Name static)) as [?|Hns]; [by left|]. right.
      pose proof (Hn _ _ Hc) as <-. apply list_elem_of_fmap. exists c. split; [done|]. by apply Hdyn.
Qed.

(** A connector is enabled as its configuration says, or, without one, if it is registered. *)
Theorem IsEnabled_spec dr name :
  IsEnabled reg dr name = true ↔
  match GetConfig dr name with Some c => Enabled c = true | None => is_Some (spec_of reg name) end.
Proof. unfold IsEnabled, GetConfig. destruct (configs dr !! name); [done|]. apply registered_spec. Qed.
End listing.

(** ** Witnesses *)

(** A disk whose directory lists every file. *)
#[local] Instance config_disk : FileSystem string (gmap string string) := {
  MkdirAll _ w := (None, w);
  WriteFile p d w := (None, <[p := d]> w);
  ReadFile p w := Ok (w !! p);
  ReadDir _ w := Ok (Some (map (λ e, (PathBase e.1, false)) (map_to_list w)));
  Remove p w := (Ok (bool_decide (is_Some (w !! p))), delete p w)
}.

Definition crm_json (enabled : bool) : json := JObj [("name", JStr "crm"); ("type", JStr "source"); ("enabled", JBool enabled)].
Definition config_doc (s : string) : RawMessage :=
  if bool_decide (s = "on") then RawDoc (crm_json true) else if bool_decide (s = "off") then RawDoc (crm_json false) else RawInvalid "bad".
Definition field_error (f : string) (_ : json) : error := ErrText f.
Definition config_files : gmap string string := <["/etc/c/crm.json" := "on"]> (<["/etc/c/bad.json" := "?"]> {["/etc/c/note.txt" := "on"]}).
Definition crm_config : ConnectorConfig := mkConnectorConfig "crm" "" "" "source" "" "" true.
Definition dyn0 : DynamicRegistry := NewDynamicRegistry "/etc/c".
Definition dyn1 : DynamicRegistry := (Refresh field_error config_doc ErrText dyn0 config_files 7).2.

Example refresh_example :
  (Refresh field_error config_doc ErrText dyn0 config_files 7).1 =
    Err (ErrWrapf "loaded with 1 errors; first" (ErrWrapf "parse /etc/c/bad.json" (ErrText "bad"))) ∧
  GetConfig dyn1 "crm" = Some crm_config ∧ status_of dyn1 "crm" = Some (unchecked "crm").
Proof. vm_compute. done. Qed.

Lemma LoadFromConfig_spec_witness :
  let entries := map (λ e, (PathBase e.1, false)) (map_to_list config_files) in
  let loaded := loaded field_error config_doc ErrText "/etc/c" config_files entries in
  let '(r, dr') := LoadFromConfig field_error config_doc ErrText dyn0 "/etc/c" config_files 7 in
  registry_ok dr' ∧ LastRefreshTime dr' = 7 ∧
  (∀ n, GetConfig dr' n = match latest_config n loaded with Some c => Some c | None => GetConfig dyn0 n end) ∧
  (∀ n, status_of dr' n = if latest_config n loaded then Some (unchecked n) else status_of dyn0 n) ∧
  match load_errors field_error config_doc ErrText "/etc/c" config_files entries with
  | [] => r = Ok tt
  | e :: es => r = Err (ErrWrapf ("loaded with " +:+ pretty (Z.of_nat (S (length es))) +:+ " errors; first") e)
  end.
Proof.
  apply (LoadFromConfig_spec field_error config_doc ErrText dyn0 "/etc/c" config_files 7); [apply registry_ok_new|reflexivity|].
  intros [n d] m. unfold load_entry. destruct (_ || _); [done|]. cbn. destruct (config_files !! _) as [s|]; [|done].
  unfold unmarshal_config, config_doc. case_bool_decide; [|case_bool_decide]; [..|done]; by vm_compute.
Defined.

Definition registered_crm : connectorRegistry unit :=
  RegisterSource "crm" (mkConnectorMeta "crm" "" "" "" "" "")
    (mkSource (Ok (mkSpec "" RawEmpty)) (λ _, Ok (mkCheckResult CheckStatusSucceeded "")) (λ _, Ok (mkCatalog [])) (λ _ _ _ _, ([], None)))
    registry_init.

Lemma HealthCheckAll_spec_witness :
  ∃ results dr', HealthCheckAll registered_crm dyn0 9 = Ok (results, dr') ∧ registry_ok dr' ∧ configs dr' = configs dyn0 ∧
    (∀ n, is_Some (results !! n) ↔ is_Some (GetConfig dyn0 n) ∨ n ∈ map cm_Name (ListConnectors registered_crm)) ∧
    ∀ n p, results !! n = Some p → ∃ h, heap dr' !! p = Some h ∧ ch_Name h = n ∧ LastCheck h = 9.
Proof.
  apply (HealthCheckAll_spec registered_crm dyn0 9); [apply registry_ok_new|].
  intros n m. unfold spec_of. cbn. destruct (decide (n = "crm")) as [->|Hn]; [by rewrite lookup_insert_eq|].
  by rewrite lookup_insert_ne, !lookup_empty.
Defined.

(** A file that has gone is still configured after a refresh. *)
Example removed_file_stays :
  GetConfig (Refresh field_error config_doc ErrText dyn1 (∅ : gmap string string) 8).2 "crm" = Some crm_config.
Proof. vm_compute. done. Qed.

(** A refresh between the parts of a health check: the result goes to an object that is no entry any more, and the
    connector stays unchecked. *)
Example refresh_loses_check :
  let '(r, dr) := find_health registered_crm dyn1 "crm" in
  let dr := (Refresh field_error config_doc ErrText dr config_files 8).2 in
  match r with
  | Ok p => status_of (store_health dr p HealthStatusHealthy "" 9) "crm" = Some (unchecked "crm")
  | _ => False
  end.
Proof. vm_compute. done. Qed.

Example ext_example : Ext "a/b.d/crm.v2.json" = ".json" ∧ Ext "a.b/crm" = "" ∧ Ext "crm.JSON" = ".JSON".
Proof. done. Qed.
