(* ===== verification/RestApi.v ===== *)
(** * The REST API: [internal/api/rest] handlers and responses

    Each handler is a computation over a world that the repositories and services act on; these are
    interfaces of the package, the classes below.  A handler's time and new identifier are arguments, and the
    answers are the events of [Http] with Go values for bodies.  Repositories give their callers values
    of their own.  The text of a request body is read as its first JSON value by [json_first]. *)

From S2P Require Import Prelude GoStrings Errors Value Protocol JsonDecode SyncConfig ProtocolJson Urls Http.

(** ** Computations over a world *)

Definition M (W A : Type) : Type := W → A * W.
#[global] Instance M_ret W : MRet (M W) := λ A a w, (a, w).
#[global] Instance M_bind W : MBind (M W) := λ A B f m w, let '(a, w) := m w in f a w.

(** ** Data *)

Record Connection := mkConnection {
  cn_ID : string; cn_TenantID : string; cn_Name : string; cn_ConnectorName : string; cn_ConnectorType : string;
  cn_Config : RawMessage; cn_Status : string; cn_CreatedAt : Z; cn_UpdatedAt : Z
}.
Record FieldMapping := mkFieldMapping {
  fm_ID : string; fm_SyncID : string; fm_TenantID : string; fm_SourceField : string; fm_DestField : string;
  fm_Transform : string; fm_CreatedAt : Z; fm_UpdatedAt : Z
}.
(** Slices, maps and pointers that may be nil are options. *)
Record Sync := mkSync {
  sy_ID : string; sy_TenantID : string; sy_Name : string; sy_SourceID : string; sy_DestinationID : string; sy_Schedule : string;
  sy_Status : string; sy_Catalog : option ConfiguredCatalog; sy_FieldMappings : option (list FieldMapping);
  sy_CreatedAt : Z; sy_UpdatedAt : Z
}.
Record SyncRun := mkSyncRun {
  run_ID : string; run_SyncID : string; run_TenantID : string; run_Status : string; run_RecordsRead : Z; run_RecordsWritten : Z;
  run_BytesRead : Z; run_BytesWritten : Z; run_ErrorMessage : string; run_StartedAt : Z; run_FinishedAt : Z
}.
Record SyncRunLog := mkSyncRunLog { lg_ID : string; lg_SyncRunID : string; lg_Level : string; lg_Message : string; lg_Timestamp : Z }.
Record Tenant := mkTenant {
  tn_ID : string; tn_Name : string; tn_Plan : string; tn_Settings : option obj; tn_CreatedAt : Z; tn_UpdatedAt : Z
}.
Record SchemaVersion := mkSchemaVersion { sv_ID : string; sv_Stream : string; sv_Version : Z; sv_Schema : RawMessage; sv_CreatedAt : Z }.
Record SchemaFieldChange := mkFieldChange { fc_Field : string; fc_Change : string; fc_OldType : string; fc_NewType : string }.
Record SchemaComparison := mkComparison { sc_Stream : string; sc_Version1 : Z; sc_Version2 : Z; sc_Changes : list SchemaFieldChange }.
Record MCPServer := mkMCPServer {
  ms_ID : string; ms_TenantID : string; ms_Name : string; ms_URL : string; ms_Transport : string; ms_Tools : list string;
  ms_Metadata : option (gmap string string); ms_Status : string; ms_CreatedAt : Z; ms_UpdatedAt : Z
}.

(** The values that answers carry. *)
Inductive payload :=
| PConnectors (l : list ConnectorMeta) | PConnectorDetail (m : ConnectorMeta) (spec : option Spec) | PCheck (c : CheckResult)
| PConnection (c : Connection) | PConnections (l : list Connection) | PSync (s : Sync) | PSyncs (l : list Sync)
| PSyncRun (r : SyncRun) | PSyncRuns (l : list SyncRun) | PLogs (l : list SyncRunLog)
| PCatalog (c : Catalog) | PStreams (l : list Stream) | PSchema (s : RawMessage)
| PTenant (t : Tenant) | PTenants (l : list Tenant) | PMapping (m : FieldMapping) | PMappings (l : list FieldMapping)
| PVersions (l : list SchemaVersion) | PComparison (c : SchemaComparison) | PMCPServer (s : MCPServer) | PMCPServers (l : list MCPServer)
| PSyncStatus (status sync_id : string) | PHealth (time : Z) | PInitiated (session_id authorize_url : string) | PValid (valid : bool).

(** The calls of a handler on its writer, and the panic it ends in, if any. *)
Abbreviation answer := (list (event payload) * option string)%type.

(** ** Repositories and services *)

Class ConnectionRepository (W : Type) := {
  connection_Create : Connection → M W (res unit);
  connection_Get : string → string → M W (res Connection);
  connection_List : string → Z → Z → M W (res (list Connection * Z));
  connection_Update : Connection → M W (res unit);
  connection_Delete : string → string → M W (res unit)
}.
Class SyncRepository (W : Type) := {
  sync_Create : Sync → M W (res unit);
  sync_Get : string → string → M W (res Sync);
  sync_List : string → Z → Z → M W (res (list Sync * Z));
  sync_Update : Sync → M W (res unit);
  sync_Delete : string → string → M W (res unit)
}.
Class SyncRunRepository (W : Type) := {
  run_Get : string → string → M W (res SyncRun);
  run_List : string → string → Z → Z → M W (res (list SyncRun * Z));
  run_GetLogs : string → string → Z → Z → M W (res (list SyncRunLog * Z))
}.
Class TenantRepository (W : Type) := {
  tenant_Create : Tenant → M W (res unit);
  tenant_Get : string → M W (res Tenant);
  tenant_List : Z → Z → M W (res (list Tenant * Z));
  tenant_Update : Tenant → M W (res unit)
}.
Class FieldMappingRepository (W : Type) := {
  mapping_Create : FieldMapping → M W (res unit);
  mapping_Get : string → string → M W (res FieldMapping);
  mapping_Update : FieldMapping → M W (res unit);
  mapping_AutoMap : string → string → string → M W (res (list FieldMapping))
}.
Class SchemaRepository (W : Type) := {
  schema_GetVersions : string → string → M W (res (list SchemaVersion));
  schema_Compare : string → string → Z → Z → M W (res SchemaComparison)
}.
Class MCPServerRepository (W : Type) := {
  mcp_Create : MCPServer → M W (res unit);
  mcp_Get : string → string → M W (res MCPServer);
  mcp_List : string → Z → Z → M W (res (list MCPServer * Z));
  mcp_Update : MCPServer → M W (res unit);
  mcp_Delete : string → string → M W (res unit)
}.
Class StreamService (W : Type) := {
  stream_Discover : string → string → M W (res Catalog);
  stream_List : string → string → M W (res (list Stream));
  stream_GetSchema : string → string → string → M W (res RawMessage)
}.
Class SyncService (W : Type) := {
  service_Trigger : string → string → M W (res SyncRun);
  service_Pause : string → string → M W (res unit);
  service_Resume : string → string → M W (res unit)
}.

(** ** Answers *)

Definition JSON (status : Z) (data : payload) : answer :=
  ([SetHeader "Content-Type" json_type; WriteHeader status; Write (DataBody data)], None).
Definition Error (status : Z) (message code : string) : answer := (error_events status message code, None).
Definition ErrorWithDetails (status : Z) (message code : string) (details : list ValidationError) : answer :=
  ([SetHeader "Content-Type" json_type; WriteHeader status; Write (ErrorBody code message details)], None).
Definition page_count (total pageSize : Z) : Z := if 0 <? pageSize then ((total +ᵢ pageSize) -ᵢ 1) /ᵢ pageSize else 0.
Definition Paginated (items : payload) (total page pageSize : Z) : answer :=
  ([SetHeader "Content-Type" json_type; WriteHeader 200; Write (PageBody items total page pageSize (page_count total pageSize))], None).
Definition Created (data : payload) (location : string) : answer :=
  let '(es, out) := JSON 201 data in
  ((if bool_decide (location = "") then [] else [SetHeader "Location" location]) ++ es, out).
Definition NoContent : answer := ([WriteHeader 204], None).

(** The first [ValidationErrors] of the chain. *)
Fixpoint as_validations (e : error) : option (list ValidationError) :=
  match e with
  | ErrValidations v vs => Some (v :: vs)
  | ErrSentinel _ | ErrText _ | ErrValidation _ => None
  | ErrWrapf _ e | ErrNoted e _ | ErrConnector _ _ e | ErrRetryable e _ | ErrTenant _ e => as_validations e
  | ErrJoin es => (fix first (es : list error) := match es with
                                                  | [] => None
                                                  | e :: es => match as_validations e with Some v => Some v | None => first es end
                                                  end) es
  end.

Definition handleRepoError (err : error) : answer :=
  if errors_Is err ErrNotFound then Error 404 (Errors.Error err) "NOT_FOUND"
  else if errors_Is err ErrAlreadyExists then Error 409 (Errors.Error err) "ALREADY_EXISTS"
  else if errors_Is err ErrUnauthorized then Error 401 (Errors.Error err) "UNAUTHORIZED"
  else if errors_Is err ErrForbidden then Error 403 (Errors.Error err) "FORBIDDEN"
  else if errors_Is err ErrRateLimited then Error 429 (Errors.Error err) "RATE_LIMITED"
  else if errors_Is err ErrInvalidConfig then Error 400 (Errors.Error err) "INVALID_CONFIG"
  else if errors_Is err ErrSchemaValidation then Error 422 (Errors.Error err) "SCHEMA_VALIDATION"
  else if errors_Is err ErrTimeout then Error 504 (Errors.Error err) "TIMEOUT"
  else if errors_Is err ErrCancelled then Error 503 "operation cancelled" "CANCELLED"
  else match as_validations err with
       | Some ve => ErrorWithDetails 422 "validation failed" "VALIDATION_ERROR" ve
       | None => Error 500 "internal server error" "INTERNAL_ERROR"
       end.

(** The usual end of a handler: the error of the repository, or the answer for its result. *)
Definition on_error {A} (r : res A) (k : A → answer) : answer :=
  match r with Ok a => k a | Err e => handleRepoError e | Panic m => ([], Some m) end.

(** ** Requests *)

Definition queryInt (r : Request) (key : string) (fallback : Z) : Z :=
  let v := Values_Get (ParseQuery (req_RawQuery r)) key in
  if bool_decide (v = "") then fallback else default fallback (parse_int v).

Definition PaginationFromRequest (r : Request) : Z * Z :=
  let page := queryInt r "page" 1 in
  let pageSize := queryInt r "page_size" 20 in
  let page := if page <? 1 then 1 else page in
  let pageSize := if pageSize <? 1 then 20 else pageSize in
  let pageSize := if 100 <? pageSize then 100 else pageSize in
  (page, pageSize).

(** Decoding that refuses unknown fields: a struct is the list of its fields, each with what it does to the struct. *)
Section decode.
Context (type_error : string → json → error) (time_of : string → option Z) (json_first : string → RawMessage).

Definition field (A : Type) : Type := string * (A → json → option error → A * option error).

Definition unknown_field (k : string) : error := ErrText ("json: unknown field " +:+ quote k).

Definition strict_member {A} (fs : list (field A)) (acc : A * option error) (e : string * json) : A * option error :=
  match find (λ f, key_matches f.1 e.1) fs with
  | Some f => f.2 acc.1 e.2 acc.2
  | None => (acc.1, note acc.2 (unknown_field e.1))
  end.

(** The same for a struct whose members are decoded by a function, given their names. *)
Definition only_known {A} (names : list string) (member : A * option error → string * json → A * option error)
    (acc : A * option error) (e : string * json) : A * option error :=
  if existsb (λ n, key_matches n e.1) names then member acc e else (acc.1, note acc.2 (unknown_field e.1)).

Definition string_field {A} (k : string) (get : A → string) (put : string → A → A) : field A :=
  (k, λ a j err, let '(x, err) := string_member type_error k (get a) j err in (put x a, err)).
Definition raw_field {A} (k : string) (put : RawMessage → A → A) : field A := (k, λ a j err, (put (RawDoc j) a, err)).
Definition time_field {A} (k : string) (get : A → Z) (put : Z → A → A) : field A :=
  (k, λ a j err, let '(x, err) := time_member type_error time_of k (get a) j err in (put x a, err)).
(** Pointers, slices and maps become nil on [null]. *)
Definition nil_field {A B} (k : string) (decode : option B → json → option error → B * option error) (get : A → option B)
    (put : option B → A → A) : field A :=
  (k, λ a j err, match j with
                 | JNull => (put None a, err)
                 | _ => let '(x, err) := decode (get a) j err in (put (Some x) a, err)
                 end).

(** [interface{}] values; what is decoded next to an error is not used. *)
Definition value_member (k : string) (j : json) (err : option error) : value * option error :=
  match jvalue j with Some v => (v, err) | None => (VNil, note err (type_error k j)) end.

(** Reads the first value of the body. *)
Definition DecodeJSON {A} (zero : A) (member : A * option error → string * json → A * option error) (r : Request) : res A :=
  match json_first (req_Body r) with
  | RawEmpty => Err (ErrWrapf "invalid JSON" (ErrText "EOF"))
  | raw => match unmarshal_struct type_error zero member raw with
           | Err e => Err (ErrWrapf "invalid JSON" e)
           | r => r
           end
  end.

(** The payloads. *)
Record CreateConnectionRequest := mkCreateConnection { ccr_Name : string; ccr_ConnectorName : string; ccr_Config : RawMessage }.
Definition CreateConnection_fields : list (field CreateConnectionRequest) :=
  [string_field "name" ccr_Name (λ x a, mkCreateConnection x (ccr_ConnectorName a) (ccr_Config a));
   string_field "connector_name" ccr_ConnectorName (λ x a, mkCreateConnection (ccr_Name a) x (ccr_Config a));
   raw_field "config" (λ x a, mkCreateConnection (ccr_Name a) (ccr_ConnectorName a) x)].
Record UpdateConnectionRequest := mkUpdateConnection { ucr_Name : string; ucr_Config : RawMessage }.
Definition UpdateConnection_fields : list (field UpdateConnectionRequest) :=
  [string_field "name" ucr_Name (λ x a, mkUpdateConnection x (ucr_Config a)); raw_field "config" (λ x a, mkUpdateConnection (ucr_Name a) x)].
Record TestConnectionRequest := mkTestConnection { tcr_ConnectorName : string; tcr_Config : RawMessage }.
Definition TestConnection_fields : list (field TestConnectionRequest) :=
  [string_field "connector_name" tcr_ConnectorName (λ x a, mkTestConnection x (tcr_Config a));
   raw_field "config" (λ x a, mkTestConnection (tcr_ConnectorName a) x)].

Definition stream_names : list string :=
  ["name"; "namespace"; "display_name"; "json_schema"; "supported_sync_modes"; "default_cursor_field"; "source_defined_primary_key"; "primary_key"].
Definition configured_names : list string := ["stream"; "sync_mode"; "destination_sync_mode"; "cursor_field"; "primary_key"].
Definition strict_configured (acc : ConfiguredStream * option error) (e : string * json) : ConfiguredStream * option error :=
  if key_matches "stream" e.1 then
    let c := acc.1 in
    let '(x, err) := struct_member type_error (only_known stream_names (pstream_member type_error)) e.1 (cs_Stream c) e.2 acc.2 in
    (mkConfiguredStream x (cs_SyncMode c) (cs_DestinationSyncMode c) (cs_CursorField c) (cs_PrimaryKey c), err)
  else only_known configured_names (configured_member type_error) acc e.
Definition catalog_fields : list (field ConfiguredCatalog) :=
  [("streams", λ c j err, let '(x, err) := list_member type_error (struct_member type_error strict_configured "streams" zero_configured) "streams" (cc_Streams c) j err in
                          (mkConfiguredCatalog x, err))].
Definition catalog_field {A} (get : A → option ConfiguredCatalog) (put : option ConfiguredCatalog → A → A) : field A :=
  nil_field "catalog" (λ c, struct_member type_error (strict_member catalog_fields) "catalog" (default (mkConfiguredCatalog []) c)) get put.

Definition zero_mapping : FieldMapping := mkFieldMapping "" "" "" "" "" "" zero_time zero_time.
Definition mapping_fields : list (field FieldMapping) :=
  [string_field "id" fm_ID (λ x m, mkFieldMapping x (fm_SyncID m) (fm_TenantID m) (fm_SourceField m) (fm_DestField m) (fm_Transform m) (fm_CreatedAt m) (fm_UpdatedAt m));
   string_field "sync_id" fm_SyncID (λ x m, mkFieldMapping (fm_ID m) x (fm_TenantID m) (fm_SourceField m) (fm_DestField m) (fm_Transform m) (fm_CreatedAt m) (fm_UpdatedAt m));
   string_field "tenant_id" fm_TenantID (λ x m, mkFieldMapping (fm_ID m) (fm_SyncID m) x (fm_SourceField m) (fm_DestField m) (fm_Transform m) (fm_CreatedAt m) (fm_UpdatedAt m));
   string_field "source_field" fm_SourceField (λ x m, mkFieldMapping (fm_ID m) (fm_SyncID m) (fm_TenantID m) x (fm_DestField m) (fm_Transform m) (fm_CreatedAt m) (fm_UpdatedAt m));
   string_field "dest_field" fm_DestField (λ x m, mkFieldMapping (fm_ID m) (fm_SyncID m) (fm_TenantID m) (fm_SourceField m) x (fm_Transform m) (fm_CreatedAt m) (fm_UpdatedAt m));
   string_field "transform" fm_Transform (λ x m, mkFieldMapping (fm_ID m) (fm_SyncID m) (fm_TenantID m) (fm_SourceField m) (fm_DestField m) x (fm_CreatedAt m) (fm_UpdatedAt m));
   time_field "created_at" fm_CreatedAt (λ x m, mkFieldMapping (fm_ID m) (fm_SyncID m) (fm_TenantID m) (fm_SourceField m) (fm_DestField m) (fm_Transform m) x (fm_UpdatedAt m));
   time_field "updated_at" fm_UpdatedAt (λ x m, mkFieldMapping (fm_ID m) (fm_SyncID m) (fm_TenantID m) (fm_SourceField m) (fm_DestField m) (fm_Transform m) (fm_CreatedAt m) x)].
Definition mappings_field {A} (get : A → option (list FieldMapping)) (put : option (list FieldMapping) → A → A) : field A :=
  nil_field "field_mappings" (λ l, list_member type_error (struct_member type_error (strict_member mapping_fields) "field_mappings" zero_mapping)
                                     "field_mappings" (default [] l)) get put.

Record CreateSyncRequest := mkCreateSync {
  csr_Name : string; csr_SourceID : string; csr_DestinationID : string; csr_Schedule : string;
  csr_Catalog : option ConfiguredCatalog; csr_FieldMappings : option (list FieldMapping)
}.
Definition CreateSync_fields : list (field CreateSyncRequest) :=
  [string_field "name" csr_Name (λ x a, mkCreateSync x (csr_SourceID a) (csr_DestinationID a) (csr_Schedule a) (csr_Catalog a) (csr_FieldMappings a));
   string_field "source_id" csr_SourceID (λ x a, mkCreateSync (csr_Name a) x (csr_DestinationID a) (csr_Schedule a) (csr_Catalog a) (csr_FieldMappings a));
   string_field "destination_id" csr_DestinationID (λ x a, mkCreateSync (csr_Name a) (csr_SourceID a) x (csr_Schedule a) (csr_Catalog a) (csr_FieldMappings a));
   string_field "schedule" csr_Schedule (λ x a, mkCreateSync (csr_Name a) (csr_SourceID a) (csr_DestinationID a) x (csr_Catalog a) (csr_FieldMappings a));
   catalog_field csr_Catalog (λ x a, mkCreateSync (csr_Name a) (csr_SourceID a) (csr_DestinationID a) (csr_Schedule a) x (csr_FieldMappings a));
   mappings_field csr_FieldMappings (λ x a, mkCreateSync (csr_Name a) (csr_SourceID a) (csr_DestinationID a) (csr_Schedule a) (csr_Catalog a) x)].
Record UpdateSyncRequest := mkUpdateSync {
  usr_Name : string; usr_Schedule : string; usr_Catalog : option ConfiguredCatalog; usr_FieldMappings : option (list FieldMapping)
}.
Definition UpdateSync_fields : list (field UpdateSyncRequest) :=
  [string_field "name" usr_Name (λ x a, mkUpdateSync x (usr_Schedule a) (usr_Catalog a) (usr_FieldMappings a));
   string_field "schedule" usr_Schedule (λ x a, mkUpdateSync (usr_Name a) x (usr_Catalog a) (usr_FieldMappings a));
   catalog_field usr_Catalog (λ x a, mkUpdateSync (usr_Name a) (usr_Schedule a) x (usr_FieldMappings a));
   mappings_field usr_FieldMappings (λ x a, mkUpdateSync (usr_Name a) (usr_Schedule a) (usr_Catalog a) x)].

(** Create and update requests of a tenant have the same fields. *)
Record TenantRequest := mkTenantRequest { tnr_Name : string; tnr_Plan : string; tnr_Settings : option obj }.
Definition Tenant_fields : list (field TenantRequest) :=
  [string_field "name" tnr_Name (λ x a, mkTenantRequest x (tnr_Plan a) (tnr_Settings a));
   string_field "plan" tnr_Plan (λ x a, mkTenantRequest (tnr_Name a) x (tnr_Settings a));
   nil_field "settings" (λ m, map_member type_error (value_member "settings") "settings" (default ∅ m)) tnr_Settings
     (λ x a, mkTenantRequest (tnr_Name a) (tnr_Plan a) x)].

Record CreateMappingRequest := mkCreateMapping { cmr_SyncID : string; cmr_SourceField : string; cmr_DestField : string; cmr_Transform : string }.
Definition CreateMapping_fields : list (field CreateMappingRequest) :=
  [string_field "sync_id" cmr_SyncID (λ x a, mkCreateMapping x (cmr_SourceField a) (cmr_DestField a) (cmr_Transform a));
   string_field "source_field" cmr_SourceField (λ x a, mkCreateMapping (cmr_SyncID a) x (cmr_DestField a) (cmr_Transform a));
   string_field "dest_field" cmr_DestField (λ x a, mkCreateMapping (cmr_SyncID a) (cmr_SourceField a) x (cmr_Transform a));
   string_field "transform" cmr_Transform (λ x a, mkCreateMapping (cmr_SyncID a) (cmr_SourceField a) (cmr_DestField a) x)].
Record UpdateMappingRequest := mkUpdateMapping { umr_SourceField : string; umr_DestField : string; umr_Transform : string }.
Definition UpdateMapping_fields : list (field UpdateMappingRequest) :=
  [string_field "source_field" umr_SourceField (λ x a, mkUpdateMapping x (umr_DestField a) (umr_Transform a));
   string_field "dest_field" umr_DestField (λ x a, mkUpdateMapping (umr_SourceField a) x (umr_Transform a));
   string_field "transform" umr_Transform (λ x a, mkUpdateMapping (umr_SourceField a) (umr_DestField a) x)].
Record AutoMapRequest := mkAutoMap { amr_SyncID : string; amr_StreamName : string }.
Definition AutoMap_fields : list (field AutoMapRequest) :=
  [string_field "sync_id" amr_SyncID (λ x a, mkAutoMap x (amr_StreamName a)); string_field "stream_name" amr_StreamName (λ x a, mkAutoMap (amr_SyncID a) x)].
Definition DiscoverStreams_fields : list (field string) := [string_field "connection_id" (λ a, a) (λ x _, x)].

(** Register and update requests of a server have the same fields. *)
Record MCPServerRequest := mkMCPRequest { mcr_Name : string; mcr_URL : string; mcr_Transport : string; mcr_Metadata : option (gmap string string) }.
Definition MCPServer_fields : list (field MCPServerRequest) :=
  [string_field "name" mcr_Name (λ x a, mkMCPRequest x (mcr_URL a) (mcr_Transport a) (mcr_Metadata a));
   string_field "url" mcr_URL (λ x a, mkMCPRequest (mcr_Name a) x (mcr_Transport a) (mcr_Metadata a));
   string_field "transport" mcr_Transport (λ x a, mkMCPRequest (mcr_Name a) (mcr_URL a) x (mcr_Metadata a));
   nil_field "metadata" (λ m, map_member type_error (string_member type_error "metadata" "") "metadata" (default ∅ m)) mcr_Metadata
     (λ x a, mkMCPRequest (mcr_Name a) (mcr_URL a) (mcr_Transport a) x)].
End decode.
