(* ===== verification/RestHandlers.v ===== *)
(** * The handlers of the REST API: [internal/api/rest/handlers.go]

    One definition per handler.  [now] is the time of the request, [generateID] its new identifier; [p] has the parameters
    that the router found in the path. *)

From S2P Require Import Prelude GoStrings Errors Value Protocol JsonDecode SyncConfig ProtocolJson Urls Http RestApi.

Abbreviation params := (gmap string string).
Definition URLParam (p : params) (k : string) : string := default "" (p !! k).

Section handlers.
Context (type_error : string → json → error) (time_of : string → option Z) (json_first : string → RawMessage).
Context {W : Type} (registry : connectorRegistry W) (now : Z) (generateID : string).

Abbreviation rest_handler := (Request → params → M W answer).
Abbreviation tenant r := (TenantIDFrom (req_Ctx r)).
Abbreviation decode zero fields r := (DecodeJSON type_error json_first zero (strict_member fields) r).

(** The answer to a body that does not decode. *)
Definition decoded {A} (d : res A) (k : A → M W answer) : M W answer :=
  match d with
  | Ok req => k req
  | Err e => mret (Error 400 (Errors.Error e) "INVALID_REQUEST")
  | Panic m => mret ([], Some m)
  end.
Definition invalid (message : string) : M W answer := mret (Error 400 message "VALIDATION_ERROR").

(** Goes on with what a repository found. *)
Definition found {A} (r : res A) (k : A → M W answer) : M W answer :=
  match r with Ok a => k a | Err e => mret (handleRepoError e) | Panic m => mret ([], Some m) end.

Definition keep (new old : string) : string := if bool_decide (new = "") then old else new.
Definition keep_some {A} (new old : option A) : option A := match new with None => old | x => x end.

(** ** Connectors *)

Definition ListConnectors : rest_handler := λ r p, mret (JSON 200 (PConnectors (Protocol.ListConnectors registry))).

Definition spec_of {A} (get : res A) (spec : A → res Spec) : option Spec :=
  match get with Ok c => match spec c with Ok s => Some s | _ => None end | _ => None end.
Definition connector_spec (meta : ConnectorMeta) (name : string) : option Spec :=
  if bool_decide (cm_Type meta = "source") || bool_decide (cm_Type meta = "bidirectional") then spec_of (GetSource registry name) src_Spec
  else if bool_decide (cm_Type meta = "destination") then spec_of (GetDestination registry name) dst_Spec
  else None.

Definition GetConnector : rest_handler := λ r p,
  let name := URLParam p "connectorName" in
  match GetMeta registry name with
  | Ok meta => mret (JSON 200 (PConnectorDetail meta (connector_spec meta name)))
  | _ => mret (Error 404 ("connector not found: " +:+ name) "CONNECTOR_NOT_FOUND")
  end.

Definition checked (c : res CheckResult) : answer :=
  match c with
  | Ok result => JSON 200 (PCheck result)
  | Err e => Error 502 ("connection check failed: " +:+ Errors.Error e) "CHECK_FAILED"
  | Panic m => ([], Some m)
  end.
Definition TestConnection : rest_handler := λ r p,
  decoded (decode (mkTestConnection "" RawEmpty) (TestConnection_fields type_error) r) (λ req,
    if bool_decide (tcr_ConnectorName req = "") then invalid "connector_name is required"
    else match GetSource registry (tcr_ConnectorName req) with
         | Ok src => mret (checked (src_Check src (tcr_Config req)))
         | _ =>
             match GetDestination registry (tcr_ConnectorName req) with
             | Ok dst => mret (checked (dst_Check dst (tcr_Config req)))
             | _ => mret (Error 404 ("connector not found: " +:+ tcr_ConnectorName req) "CONNECTOR_NOT_FOUND")
             end
         end).

(** ** Connections *)

Context `{!ConnectionRepository W, !SyncRepository W, !SyncRunRepository W, !RestApi.TenantRepository W, !FieldMappingRepository W,
          !SchemaRepository W, !MCPServerRepository W, !StreamService W, !SyncService W}.

Definition CreateConnection : rest_handler := λ r p,
  decoded (decode (mkCreateConnection "" "" RawEmpty) (CreateConnection_fields type_error) r) (λ req,
    if bool_decide (ccr_Name req = "") || bool_decide (ccr_ConnectorName req = "") then invalid "name and connector_name are required"
    else match GetMeta registry (ccr_ConnectorName req) with
         | Ok meta =>
             let conn := mkConnection generateID (tenant r) (ccr_Name req) (ccr_ConnectorName req) (cm_Type meta) (ccr_Config req) "active" now now in
             out ← connection_Create conn;
             mret (on_error out (λ _, Created (PConnection conn) ("/api/v1/connections/" +:+ cn_ID conn)))
         | _ => mret (Error 400 ("unknown connector: " +:+ ccr_ConnectorName req) "CONNECTOR_NOT_FOUND")
         end).

Definition GetConnection : rest_handler := λ r p,
  out ← connection_Get (tenant r) (URLParam p "connectionID"); mret (on_error out (λ conn, JSON 200 (PConnection conn))).

Definition ListConnections : rest_handler := λ r p,
  let '(page, pageSize) := PaginationFromRequest r in
  out ← connection_List (tenant r) page pageSize;
  mret (on_error out (λ '(conns, total), Paginated (PConnections conns) total page pageSize)).

(** The connection after the update. *)
Definition updated_connection (c : Connection) (req : UpdateConnectionRequest) : Connection :=
  mkConnection (cn_ID c) (cn_TenantID c) (keep (ucr_Name req) (cn_Name c)) (cn_ConnectorName c) (cn_ConnectorType c)
    (match ucr_Config req with RawEmpty => cn_Config c | x => x end) (cn_Status c) (cn_CreatedAt c) now.
Definition UpdateConnection : rest_handler := λ r p,
  existing ← connection_Get (tenant r) (URLParam p "connectionID");
  found existing (λ existing,
    decoded (decode (mkUpdateConnection "" RawEmpty) (UpdateConnection_fields type_error) r) (λ req,
      let existing := updated_connection existing req in
      out ← connection_Update existing; mret (on_error out (λ _, JSON 200 (PConnection existing))))).

Definition DeleteConnection : rest_handler := λ r p,
  out ← connection_Delete (tenant r) (URLParam p "connectionID"); mret (on_error out (λ _, NoContent)).

(** ** Syncs *)

Definition CreateSync : rest_handler := λ r p,
  decoded (decode (mkCreateSync "" "" "" "" None None) (CreateSync_fields type_error time_of) r) (λ req,
    if bool_decide (csr_Name req = "") || bool_decide (csr_SourceID req = "") || bool_decide (csr_DestinationID req = "")
    then invalid "name, source_id, and destination_id are required"
    else
      let s := mkSync generateID (tenant r) (csr_Name req) (csr_SourceID req) (csr_DestinationID req) (csr_Schedule req) "active"
                 (csr_Catalog req) (csr_FieldMappings req) now now in
      out ← sync_Create s; mret (on_error out (λ _, Created (PSync s) ("/api/v1/syncs/" +:+ sy_ID s)))).

Definition GetSync : rest_handler := λ r p,
  out ← sync_Get (tenant r) (URLParam p "syncID"); mret (on_error out (λ s, JSON 200 (PSync s))).

Definition ListSyncs : rest_handler := λ r p,
  let '(page, pageSize) := PaginationFromRequest r in
  out ← sync_List (tenant r) page pageSize; mret (on_error out (λ '(syncs, total), Paginated (PSyncs syncs) total page pageSize)).

Definition updated_sync (s : Sync) (req : UpdateSyncRequest) : Sync :=
  mkSync (sy_ID s) (sy_TenantID s) (keep (usr_Name req) (sy_Name s)) (sy_SourceID s) (sy_DestinationID s) (keep (usr_Schedule req) (sy_Schedule s))
    (sy_Status s) (keep_some (usr_Catalog req) (sy_Catalog s)) (keep_some (usr_FieldMappings req) (sy_FieldMappings s)) (sy_CreatedAt s) now.
Definition UpdateSync : rest_handler := λ r p,
  existing ← sync_Get (tenant r) (URLParam p "syncID");
  found existing (λ existing,
    decoded (decode (mkUpdateSync "" "" None None) (UpdateSync_fields type_error time_of) r) (λ req,
      let existing := updated_sync existing req in
      out ← sync_Update existing; mret (on_error out (λ _, JSON 200 (PSync existing))))).

Definition DeleteSync : rest_handler := λ r p,
  out ← sync_Delete (tenant r) (URLParam p "syncID"); mret (on_error out (λ _, NoContent)).

Definition TriggerSync : rest_handler := λ r p,
  out ← service_Trigger (tenant r) (URLParam p "syncID");
  mret (on_error out (λ run, Created (PSyncRun run) ("/api/v1/sync-runs/" +:+ run_ID run))).
Definition PauseSync : rest_handler := λ r p,
  out ← service_Pause (tenant r) (URLParam p "syncID"); mret (on_error out (λ _, JSON 200 (PSyncStatus "paused" (URLParam p "syncID")))).
Definition ResumeSync : rest_handler := λ r p,
  out ← service_Resume (tenant r) (URLParam p "syncID"); mret (on_error out (λ _, JSON 200 (PSyncStatus "active" (URLParam p "syncID")))).

(** ** Sync runs *)

Definition GetSyncRun : rest_handler := λ r p,
  out ← run_Get (tenant r) (URLParam p "syncRunID"); mret (on_error out (λ run, JSON 200 (PSyncRun run))).
Definition ListSyncRuns : rest_handler := λ r p,
  let syncID := Values_Get (ParseQuery (req_RawQuery r)) "sync_id" in
  let '(page, pageSize) := PaginationFromRequest r in
  out ← run_List (tenant r) syncID page pageSize; mret (on_error out (λ '(runs, total), Paginated (PSyncRuns runs) total page pageSize)).
Definition GetSyncRunLogs : rest_handler := λ r p,
  let '(page, pageSize) := PaginationFromRequest r in
  out ← run_GetLogs (tenant r) (URLParam p "syncRunID") page pageSize;
  mret (on_error out (λ '(logs, total), Paginated (PLogs logs) total page pageSize)).

(** ** Streams *)

Definition DiscoverStreams : rest_handler := λ r p,
  decoded (decode "" (DiscoverStreams_fields type_error) r) (λ connectionID,
    if bool_decide (connectionID = "") then invalid "connection_id is required"
    else out ← stream_Discover (tenant r) connectionID; mret (on_error out (λ catalog, JSON 200 (PCatalog catalog)))).
Definition ListStreams : rest_handler := λ r p,
  let connectionID := Values_Get (ParseQuery (req_RawQuery r)) "connection_id" in
  if bool_decide (connectionID = "") then invalid "connection_id query parameter is required"
  else out ← stream_List (tenant r) connectionID; mret (on_error out (λ streams, JSON 200 (PStreams streams))).
Definition GetStreamSchema : rest_handler := λ r p,
  let connectionID := Values_Get (ParseQuery (req_RawQuery r)) "connection_id" in
  if bool_decide (connectionID = "") then invalid "connection_id query parameter is required"
  else out ← stream_GetSchema (tenant r) connectionID (URLParam p "streamName"); mret (on_error out (λ schema, JSON 200 (PSchema schema))).

(** ** Tenants: nothing here looks at the tenant of the request *)

Definition CreateTenant : rest_handler := λ r p,
  decoded (decode (mkTenantRequest "" "" None) (Tenant_fields type_error) r) (λ req,
    if bool_decide (tnr_Name req = "") then invalid "name is required"
    else
      let t := mkTenant generateID (tnr_Name req) (keep (tnr_Plan req) "free") (tnr_Settings req) now now in
      out ← tenant_Create t; mret (on_error out (λ _, Created (PTenant t) ("/api/v1/tenants/" +:+ tn_ID t)))).
Definition GetTenant : rest_handler := λ r p,
  out ← tenant_Get (URLParam p "tenantID"); mret (on_error out (λ t, JSON 200 (PTenant t))).
Definition updated_tenant (t : Tenant) (req : TenantRequest) : Tenant :=
  mkTenant (tn_ID t) (keep (tnr_Name req) (tn_Name t)) (keep (tnr_Plan req) (tn_Plan t)) (keep_some (tnr_Settings req) (tn_Settings t)) (tn_CreatedAt t) now.
Definition UpdateTenant : rest_handler := λ r p,
  existing ← tenant_Get (URLParam p "tenantID");
  found existing (λ existing,
    decoded (decode (mkTenantRequest "" "" None) (Tenant_fields type_error) r) (λ req,
      let existing := updated_tenant existing req in
      out ← tenant_Update existing; mret (on_error out (λ _, JSON 200 (PTenant existing))))).
Definition ListTenants : rest_handler := λ r p,
  let '(page, pageSize) := PaginationFromRequest r in
  out ← tenant_List page pageSize; mret (on_error out (λ '(tenants, total), Paginated (PTenants tenants) total page pageSize)).

(** ** Field mappings *)

Definition CreateMapping : rest_handler := λ r p,
  decoded (decode (mkCreateMapping "" "" "" "") (CreateMapping_fields type_error) r) (λ req,
    if bool_decide (cmr_SourceField req = "") || bool_decide (cmr_DestField req = "") || bool_decide (cmr_SyncID req = "")
    then invalid "sync_id, source_field, and dest_field are required"
    else
      let m := mkFieldMapping generateID (cmr_SyncID req) (tenant r) (cmr_SourceField req) (cmr_DestField req) (cmr_Transform req) now now in
      out ← mapping_Create m; mret (on_error out (λ _, Created (PMapping m) ("/api/v1/field-mappings/" +:+ fm_ID m)))).
Definition GetMapping : rest_handler := λ r p,
  out ← mapping_Get (tenant r) (URLParam p "mappingID"); mret (on_error out (λ m, JSON 200 (PMapping m))).
Definition updated_mapping (m : FieldMapping) (req : UpdateMappingRequest) : FieldMapping :=
  mkFieldMapping (fm_ID m) (fm_SyncID m) (fm_TenantID m) (keep (umr_SourceField req) (fm_SourceField m)) (keep (umr_DestField req) (fm_DestField m))
    (keep (umr_Transform req) (fm_Transform m)) (fm_CreatedAt m) now.
Definition UpdateMapping : rest_handler := λ r p,
  existing ← mapping_Get (tenant r) (URLParam p "mappingID");
  found existing (λ existing,
    decoded (decode (mkUpdateMapping "" "" "") (UpdateMapping_fields type_error) r) (λ req,
      let existing := updated_mapping existing req in
      out ← mapping_Update existing; mret (on_error out (λ _, JSON 200 (PMapping existing))))).
Definition AutoMap : rest_handler := λ r p,
  decoded (decode (mkAutoMap "" "") (AutoMap_fields type_error) r) (λ req,
    if bool_decide (amr_SyncID req = "") || bool_decide (amr_StreamName req = "") then invalid "sync_id and stream_name are required"
    else out ← mapping_AutoMap (tenant r) (amr_SyncID req) (amr_StreamName req); mret (on_error out (λ l, JSON 200 (PMappings l)))).

(** ** Schemas *)

Definition GetSchemaVersions : rest_handler := λ r p,
  let stream := Values_Get (ParseQuery (req_RawQuery r)) "stream" in
  if bool_decide (stream = "") then invalid "stream query parameter is required"
  else out ← schema_GetVersions (tenant r) stream; mret (on_error out (λ l, JSON 200 (PVersions l))).
Definition CompareSchemas : rest_handler := λ r p,
  let stream := Values_Get (ParseQuery (req_RawQuery r)) "stream" in
  let v1 := queryInt r "v1" 0 in
  let v2 := queryInt r "v2" 0 in
  if bool_decide (stream = "") || (v1 =? 0) || (v2 =? 0) then invalid "stream, v1, and v2 query parameters are required"
  else out ← schema_Compare (tenant r) stream v1 v2; mret (on_error out (λ c, JSON 200 (PComparison c))).

(** ** MCP servers *)

Definition ListMCPServers : rest_handler := λ r p,
  let '(page, pageSize) := PaginationFromRequest r in
  out ← mcp_List (tenant r) page pageSize; mret (on_error out (λ '(servers, total), Paginated (PMCPServers servers) total page pageSize)).
Definition GetMCPServer : rest_handler := λ r p,
  out ← mcp_Get (tenant r) (URLParam p "mcpServerID"); mret (on_error out (λ s, JSON 200 (PMCPServer s))).
Definition RegisterMCPServer : rest_handler := λ r p,
  decoded (decode (mkMCPRequest "" "" "" None) (MCPServer_fields type_error) r) (λ req,
    if bool_decide (mcr_Name req = "") || bool_decide (mcr_URL req = "") || bool_decide (mcr_Transport req = "")
    then invalid "name, url, and transport are required"
    else
      let server := mkMCPServer generateID (tenant r) (mcr_Name req) (mcr_URL req) (mcr_Transport req) [] (mcr_Metadata req) "active" now now in
      out ← mcp_Create server; mret (on_error out (λ _, Created (PMCPServer server) ("/api/v1/mcp/" +:+ ms_ID server)))).
Definition updated_server (s : MCPServer) (req : MCPServerRequest) : MCPServer :=
  mkMCPServer (ms_ID s) (ms_TenantID s) (keep (mcr_Name req) (ms_Name s)) (keep (mcr_URL req) (ms_URL s)) (keep (mcr_Transport req) (ms_Transport s))
    (ms_Tools s) (keep_some (mcr_Metadata req) (ms_Metadata s)) (ms_Status s) (ms_CreatedAt s) now.
Definition UpdateMCPServer : rest_handler := λ r p,
  existing ← mcp_Get (tenant r) (URLParam p "mcpServerID");
  found existing (λ existing,
    decoded (decode (mkMCPRequest "" "" "" None) (MCPServer_fields type_error) r) (λ req,
      let existing := updated_server existing req in
      out ← mcp_Update existing; mret (on_error out (λ _, JSON 200 (PMCPServer existing))))).
Definition DeleteMCPServer : rest_handler := λ r p,
  out ← mcp_Delete (tenant r) (URLParam p "mcpServerID"); mret (on_error out (λ _, NoContent)).

(** ** Health *)

Definition Health : rest_handler := λ r p, mret (JSON 200 (PHealth now)).
End handlers.
