(* ===== verification/RestOAuth.v ===== *)
(** * OAuth endpoints of the REST API: [internal/api/rest/oauth_handlers.go]

    The world holds the manager of [OAuth] ([OAuthHost]).  Log lines are left out.  The cleanup that a started flow
    leaves behind runs by itself ([OAuth.cleanup_invisible] says that nobody sees when). *)

From Stdlib Require Import Ascii.
From S2P Require Import Prelude GoStrings Errors Value JsonDecode Urls Encryption OAuth Http RestApi RestHandlers.

Class OAuthHost (W : Type) := { oauth_manager : W → OAuthManager; set_manager : OAuthManager → W → W }.

(** The text between [state=] and the next [&]. *)
Fixpoint up_to_amp (bs : list ascii) : list ascii :=
  match bs with [] => [] | c :: bs => if decide (c = "&"%char) then [] else c :: up_to_amp bs end.
Fixpoint extract_state (bs : list ascii) : list ascii :=
  match bs with
  | [] => []
  | _ :: rest => if (6 <? length bs)%nat && bool_decide (take 6 bs = bytes_of "state=") then up_to_amp (drop 6 bs) else extract_state rest
  end.
Definition extractStateFromURL (authURL : string) : string := of_bytes (extract_state (bytes_of authURL)).

(** The page of the popup. *)
Definition nl : string := String "010"%char "".
Definition callback_html (sessionID connectionID : string) (success : bool) (errMsg : string) : string :=
  "<!DOCTYPE html>" +:+ nl +:+ "<html>" +:+ nl +:+ "<head><title>OAuth Complete</title></head>" +:+ nl +:+ "<body>" +:+ nl +:+ "<script>" +:+ nl
  +:+ "if (window.opener) {" +:+ nl +:+ "  window.opener.postMessage({" +:+ nl +:+ "    type: " +:+ quote "oauth_complete" +:+ "," +:+ nl
  +:+ "    sessionId: " +:+ quote sessionID +:+ "," +:+ nl +:+ "    connectionId: " +:+ quote connectionID +:+ "," +:+ nl
  +:+ "    success: " +:+ (if success then "true" else "false") +:+ "," +:+ nl +:+ "    error: " +:+ quote errMsg
  +:+ (nl +:+ "  }, window.location.origin);" +:+ nl +:+ "}" +:+ nl +:+ "window.close();" +:+ nl +:+ "</script>" +:+ nl
  +:+ "<p>Authorization complete. This window will close automatically.</p>" +:+ nl +:+ "</body>" +:+ nl +:+ "</html>").
Definition writeCallbackHTML (sessionID connectionID : string) (success : bool) (errMsg : string) : answer :=
  ([SetHeader "Content-Type" "text/html; charset=utf-8"; WriteHeader 200; Write (TextBody (callback_html sessionID connectionID success errMsg))], None).

Section handlers.
Context (type_error : string → json → error) (json_first json_doc : string → RawMessage) (parse_error : string → error).
Context {W K G : Type} `{UrlLib} `{AEAD K G} `{OAuthHost W}.
Context (clock : W → Z) (post : TokenPost → W → token_reply * W) (rand : nat → res (list ascii)) (encryptor : option (Encryptor (K := K) (G := G))).

Abbreviation rest_handler := (Request → params → M W answer).

Definition set_access (t : OAuthTokens) (a : string) : OAuthTokens :=
  mkOAuthTokens a (t_RefreshToken t) (TokenType t) (ExpiresAt t) (t_Scopes t) (ConnectorType t).

(** The tokens after the call, which writes through its argument. *)
Definition encryptAndStoreTokens (e : Encryptor) (nonce : res (list ascii)) (t : OAuthTokens) : OAuthTokens :=
  if bool_decide (AccessToken t = "") then t
  else match Encrypt e nonce (bytes_of (AccessToken t)) with
       | Ok encrypted => set_access t (of_bytes encrypted)
       | _ => t       (* the error is logged *)
       end.

Definition resolveOAuthConfig (om : OAuthManager) (connectorType : string) : res OAuthConfig :=
  if bool_decide (connectorType = "") then Err (ErrText "connector type is required")
  else match GetConfig om connectorType with
       | Some config => Ok config
       | None => Err (ErrText ("no OAuth config registered for connector type " +:+ quote connectorType))
       end.

(** Starts a flow and answers with its session. *)
Definition start_session (connectorType : string) (config : OAuthConfig) (failure : string) : M W answer := λ w,
  let '(r, om, _) := StartOAuthFlow parse_error (oauth_manager w) rand (clock w) connectorType config in
  let w := set_manager om w in
  (match r with
   | Ok authURL => JSON 200 (PInitiated (extractStateFromURL authURL) authURL)
   | Err _ => Error 500 failure "INTERNAL_ERROR"
   | Panic m => ([], Some m)
   end, w).

Record initiateRequest := mkInitiate { ir_ConnectorID : string; ir_TenantID : string }.
Definition initiate_fields : list (field initiateRequest) :=
  [string_field type_error "connector_id" ir_ConnectorID (λ x a, mkInitiate x (ir_TenantID a));
   string_field type_error "tenant_id" ir_TenantID (λ x a, mkInitiate (ir_ConnectorID a) x)].

Definition body_of {A} (zero : A) (fields : list (field A)) (r : Request) (k : A → M W answer) : M W answer :=
  match DecodeJSON type_error json_first zero (strict_member fields) r with
  | Ok req => k req
  | Err _ => mret (Error 400 "invalid request body" "INVALID_REQUEST")
  | Panic m => mret ([], Some m)
  end.

Definition Initiate : rest_handler := λ r p,
  body_of (mkInitiate "" "") initiate_fields r (λ req,
    if bool_decide (ir_ConnectorID req = "") then mret (Error 400 "connector_id is required" "MISSING_FIELD")
    else if bool_decide (ir_TenantID req = "") then mret (Error 400 "tenant_id is required" "MISSING_FIELD")
    else λ w, match resolveOAuthConfig (oauth_manager w) (ir_ConnectorID req) with
              | Ok config => start_session (ir_ConnectorID req) config "failed to initiate OAuth flow" w
              | _ => (Error 404 ("no OAuth config for connector " +:+ ir_ConnectorID req) "NOT_FOUND", w)
              end).

Definition Callback : rest_handler := λ r p w,
  let q := ParseQuery (req_RawQuery r) in
  let state := Values_Get q "state" in
  let code := Values_Get q "code" in
  let errMsg := Values_Get q "error" in
  if negb (bool_decide (errMsg = "")) then
    (writeCallbackHTML state "" false (errMsg +:+ ": " +:+ Values_Get q "error_description"), w)
  else if bool_decide (state = "") || bool_decide (code = "") then (writeCallbackHTML state "" false "missing state or code parameter", w)
  else
    let '(out, om, w) := HandleCallback clock post type_error json_doc (oauth_manager w) state code w in
    let w := set_manager om w in
    match out with
    | Err _ => (writeCallbackHTML state "" false "authorization failed", w)
    | Panic m => (([], Some m), w)
    | Ok t =>
        let t := match encryptor with None => t | Some e => encryptAndStoreTokens e (rand (NonceSize (enc_gcm e))) t end in
        if (String.length state <? 16)%nat then (([], Some "slice bounds out of range"), w)
        else
          let connectionID := "conn_" +:+ of_bytes (take 16 (bytes_of state)) in
          (writeCallbackHTML state connectionID true "", set_manager (StoreTokens (oauth_manager w) connectionID (Some t)) w)
    end.

Definition status_fields : list (field string) := [string_field type_error "connection_id" (λ a, a) (λ x _, x)].
Definition Status : rest_handler := λ r p,
  body_of "" status_fields r (λ connectionID,
    if bool_decide (connectionID = "") then mret (Error 400 "connection_id is required" "MISSING_FIELD")
    else λ w, (match GetTokens (oauth_manager w) connectionID with
               | None => JSON 200 (PValid false)
               | Some None => ([], Some "invalid memory address or nil pointer dereference")
               | Some (Some t) => JSON 200 (PValid (negb (IsExpired t (clock w))))
               end, w)).

Record reauthorizeRequest := mkReauthorize { rr_ConnectionID : string; rr_TenantID : string }.
Definition reauthorize_fields : list (field reauthorizeRequest) :=
  [string_field type_error "connection_id" rr_ConnectionID (λ x a, mkReauthorize x (rr_TenantID a));
   string_field type_error "tenant_id" rr_TenantID (λ x a, mkReauthorize (rr_ConnectionID a) x)].
Definition Reauthorize : rest_handler := λ r p,
  body_of (mkReauthorize "" "") reauthorize_fields r (λ req,
    if bool_decide (rr_ConnectionID req = "") then mret (Error 400 "connection_id is required" "MISSING_FIELD")
    else λ w, match GetTokens (oauth_manager w) (rr_ConnectionID req) with
              | None => (Error 404 "no tokens found for connection" "NOT_FOUND", w)
              | Some None => (([], Some "invalid memory address or nil pointer dereference"), w)
              | Some (Some t) =>
                  match resolveOAuthConfig (oauth_manager w) (ConnectorType t) with
                  | Ok config => start_session (ConnectorType t) config "failed to initiate re-authorization" w
                  | _ => (Error 404 "no OAuth config for connection" "NOT_FOUND", w)
                  end
              end).

(** The routes under [/oauth]. *)
Definition OAuth_routes : list (string * string * rest_handler) :=
  [("POST", "/initiate", Initiate); ("GET", "/callback", Callback); ("POST", "/status", Status); ("POST", "/reauthorize", Reauthorize)].
End handlers.

(** ** The pages and the tokens of a callback *)

Class OAuthHostLaws (W : Type) `{OAuthHost W} : Prop := { manager_set om w : oauth_manager (set_manager om w) = om }.

(** A text that quoting leaves as it is: printable, without quotes and backslashes. *)
Definition unquoted (s : string) : Prop := Forall (λ c, 32 ≤ byte_val c < 127 ∧ byte_val c ≠ 34 ∧ byte_val c ≠ 92) (bytes_of s).

Lemma quote_unquoted s : unquoted s → quote s = String "034" s +:+ String "034" "".
Proof.
  intros Hs. apply bytes_inj. unfold quote. rewrite String.list_ascii_of_string_of_list_ascii, bytes_of_app. cbn.
  f_equal. f_equal. unfold unquoted in Hs. induction Hs as [|c l (Hr & H1 & H2) _ IH]; [done|]. cbn. rewrite IH.
  unfold quote_byte. repeat match goal with |- context [?a =? ?b] => destruct (Z.eqb_spec a b); [lia|] end.
  destruct (Z.ltb_spec (byte_val c) 32); [lia|]. done.
Qed.

(** The page has the text, as it stands. *)
Definition page_contains (text page : string) : Prop := ∃ before after, page = before +:+ text +:+ after.
Lemma contains_later text a page : page_contains text page → page_contains text (a +:+ page).
Proof. intros (b & c & ->). exists (a +:+ b), c. by rewrite string_app_assoc. Qed.
Lemma contains_here text a : page_contains text (text +:+ a).
Proof. by exists "", a. Qed.

Section callbacks.
Context (type_error : string → json → error) (json_doc : string → RawMessage).
Context {W K G : Type} `{Haead : AEADLaws K G} `{Hhost : OAuthHostLaws W}.
Context (clock : W → Z) (post : TokenPost → W → token_reply * W) (rand : nat → res (list ascii)).

(** The page repeats the error of the query inside its script as it stands: markup in it stays markup. *)
Theorem callback_reflects_error encryptor r p w :
  let q := ParseQuery (req_RawQuery r) in
  let msg := Values_Get q "error" +:+ ": " +:+ Values_Get q "error_description" in
  Values_Get q "error" ≠ "" → unquoted msg →
  ∃ page, Callback type_error json_doc clock post rand encryptor r p w =
            (([SetHeader "Content-Type" "text/html; charset=utf-8"; WriteHeader 200; Write (TextBody page)], None), w) ∧
          page_contains msg page.
Proof.
  intros q msg Hne Hu. unfold Callback. fold q. rewrite bool_decide_eq_false_2 by done. cbn [negb]. fold msg.
  eexists. split; [reflexivity|]. unfold callback_html. rewrite (quote_unquoted _ Hu).
  repeat match goal with |- page_contains _ (?a +:+ _) => lazymatch a with context [msg] => fail | _ => apply contains_later end end.
  rewrite string_app_assoc. change (String "034" msg) with (String "034" "" +:+ msg).
  rewrite string_app_assoc. apply contains_later, contains_here.
Qed.

(** A callback that gives tokens stores them under the first sixteen characters of the state.  With an encryptor whose
    random source works, the access token is stored encrypted and decrypts to the one that was received; when the
    random source fails it is stored in clear; the refresh token is stored in clear in any case. *)
Theorem callback_stores_tokens e r p w t om w1 :
  let q := ParseQuery (req_RawQuery r) in
  let state := Values_Get q "state" in
  Values_Get q "error" = "" → (16 ≤ String.length state)%nat → Values_Get q "code" ≠ "" → AccessToken t ≠ "" →
  HandleCallback clock post type_error json_doc (oauth_manager w) state (Values_Get q "code") w = (Ok t, om, w1) →
  (∀ nonce, rand (NonceSize (enc_gcm e)) = Ok nonce → length nonce = NonceSize (enc_gcm e)) →
  let id := "conn_" +:+ of_bytes (take 16 (bytes_of state)) in
  ∃ t' w', Callback type_error json_doc clock post rand (Some e) r p w = (writeCallbackHTML state id true "", w') ∧
    GetTokens (oauth_manager w') id = Some (Some t') ∧ t_RefreshToken t' = t_RefreshToken t ∧ ConnectorType t' = ConnectorType t ∧
    match rand (NonceSize (enc_gcm e)) with
    | Ok _ => Decrypt e (bytes_of (AccessToken t')) = Ok (bytes_of (AccessToken t))
    | _ => AccessToken t' = AccessToken t
    end.
Proof using Haead Hhost.
  intros q state Herr Hlen Hcode Hacc Hcb Hnonce id. unfold Callback. fold q. fold state. rewrite Herr. cbn [negb bool_decide].
  rewrite (bool_decide_eq_true_2 ("" = "")) by done. cbn [negb].
  assert (Hst : state ≠ "") by (intros Hs; rewrite Hs in Hlen; cbn in Hlen; lia).
  rewrite !bool_decide_eq_false_2 by done. cbn [orb]. rewrite Hcb.
  assert (Hlt : (String.length state <? 16)%nat = false) by (apply Nat.ltb_ge; lia). rewrite Hlt. fold id.
  eexists _, _. split; [reflexivity|]. rewrite manager_set. unfold GetTokens, StoreTokens. cbn [tokens].
  split; [apply lookup_insert_eq|]. unfold encryptAndStoreTokens. rewrite bool_decide_eq_false_2 by done. unfold Encrypt.
  destruct (rand (NonceSize (enc_gcm e))) as [nonce|er|m] eqn:Hr; [|done..]. split_and!; [done..|]. cbn [AccessToken set_access].
  rewrite String.list_ascii_of_string_of_list_ascii. unfold Decrypt, decryptWithGCM.
  destruct (decrypt_payload (enc_gcm e) nonce [] (bytes_of (AccessToken t)) (Hnonce _ eq_refl)) as [Hl Ho].
  rewrite Hl. by rewrite Ho.
Qed.
End callbacks.

(** ** Examples *)

Section examples.
#[local] Instance plain_aead : AEAD string string := {|
  derive_key s := Ok s; new_gcm s := Ok s; NonceSize _ := 1%nat; Overhead _ := 1%nat;
  Seal _ _ p _ := p ++ ["#"%char]; Open _ _ c _ := Some (take (length c - 1) c)
|}.
#[local] Instance plain_aead_laws : AEADLaws string string.
Proof.
  split.
  - intros g nonce p ad _. cbn. f_equal. rewrite length_app. cbn. apply take_app_length'. lia.
  - intros g nonce p ad. cbn. by rewrite length_app.
Qed.
#[local] Instance manager_host : OAuthHost OAuthManager := {| oauth_manager om := om; set_manager om _ := om |}.
#[local] Instance manager_host_laws : OAuthHostLaws OAuthManager.
Proof. by split. Qed.

Definition sample_request (query : string) : Request := mkRequest "GET" "/callback" query ∅ "" "" (mkCtx "acme" "" "" []).

Lemma callback_reflects_error_witness :
  ∃ page, Callback (W := OAuthManager) (λ k _, ErrText k) (λ _, RawEmpty) (λ _, 0) (λ _ w, (BadRequest (ErrText ""), w)) (λ _, Ok [])
            (None : option (Encryptor (K := string) (G := string)))
            (sample_request "error=%3C/script%3E%3Cscript%3Ealert(1)%3C/script%3E&error_description=x") ∅ NewOAuthManager =
            (([SetHeader "Content-Type" "text/html; charset=utf-8"; WriteHeader 200; Write (TextBody page)], None), NewOAuthManager) ∧
          page_contains ("</script><script>alert(1)</script>" +:+ ": " +:+ "x") page.
Proof.
  refine (callback_reflects_error (K := string) (G := string) (λ k _, ErrText k) (λ _, RawEmpty) (λ _, 0) (λ _ w, (BadRequest (ErrText ""), w)) (λ _, Ok [])
            None (sample_request "error=%3C/script%3E%3Cscript%3Ealert(1)%3C/script%3E&error_description=x") ∅ NewOAuthManager _ _).
  - vm_compute. discriminate.
  - unfold unquoted. vm_compute. repeat constructor; discriminate.
Defined.

Definition sample_state : string := "0123456789abcdef0123".
Definition sample_flow : OAuthManager :=
  add_flow NewOAuthManager (mkPendingFlow sample_state "crm" (mkOAuthConfig "id" "s" "r" [] "a" "https://idp/token") 0).
Definition sample_answer (_ : TokenPost) (w : OAuthManager) : token_reply * OAuthManager := (Answer 200 "T", w).
Definition sample_doc (s : string) : RawMessage := RawDoc (JObj [("access_token", JStr "abc"); ("refresh_token", JStr "r1")]).
Definition sample_tokens : OAuthTokens := mkOAuthTokens "abc" "r1" "" (3600 * second) [] "crm".

Lemma callback_stores_tokens_witness :
  ∃ t' w', Callback (W := OAuthManager) (λ k _, ErrText k) sample_doc (λ _, 0) sample_answer (λ n, Ok (replicate n "n"%char))
             (Some (mkEncryptor (K := string) "g" "k")) (sample_request ("code=c&state=" +:+ sample_state)) ∅ sample_flow =
             (writeCallbackHTML sample_state "conn_0123456789abcdef" true "", w') ∧
    GetTokens (oauth_manager w') "conn_0123456789abcdef" = Some (Some t') ∧ t_RefreshToken t' = "r1" ∧ ConnectorType t' = "crm" ∧
    Decrypt (mkEncryptor (K := string) "g" "k") (bytes_of (AccessToken t')) = Ok (bytes_of "abc").
Proof.
  refine (callback_stores_tokens (K := string) (G := string) (λ k _, ErrText k) sample_doc (λ _, 0) sample_answer (λ n, Ok (replicate n "n"%char))
            (mkEncryptor "g" "k") (sample_request ("code=c&state=" +:+ sample_state)) ∅ sample_flow sample_tokens NewOAuthManager sample_flow _ _ _ _ _ _).
  - vm_compute. reflexivity.
  - vm_compute. lia.
  - vm_compute. discriminate.
  - discriminate.
  - vm_compute. reflexivity.
  - intros nonce [= <-]. reflexivity.
Defined.

Example session_of_url : extractStateFromURL "https://idp/auth?client_id=x&state=abc&scope=s" = "abc" ∧ extractStateFromURL "https://idp/auth?estate=1&state=abc" = "1".
Proof. vm_compute. done. Qed.
End examples.
