(* ===== verification/RestServer.v ===== *)
(** * The REST server: [internal/api/rest/server.go]

    Routes, middleware and what they guarantee together.  The router is a library ([ChiRouter]); so are some
    middlewares, which are arguments.  The theorems about tenants are proved for any repositories that keep tenants
    apart ([TenantScoped]). *)

From Stdlib Require Import Ascii.
From S2P Require Import Prelude GoStrings Errors Value Protocol JsonDecode Urls Http RestApi RestHandlers.

(** The router: the entry of a table (of methods and patterns) that serves a request, with the parameters of its path, and what it answers when none does. *)
Class ChiRouter := {
  route_match : list (string * string) → string → string → option (nat * params);
  route_miss : list (string * string) → Request → list (event payload)
}.

Inductive group := GConnectors | GConnections | GSyncs | GSyncRuns | GStreams | GTenants | GSchemas | GFieldMappings | GMCP | GOAuth.
#[export] Instance group_eq_dec : EqDecision group.
Proof. solve_decision. Defined.

Section server.
Context (type_error : string → json → error) (time_of : string → option Z) (json_first : string → RawMessage).
Context {W : Type} (registry : connectorRegistry W).
Context `{!ConnectionRepository W, !SyncRepository W, !SyncRunRepository W, !RestApi.TenantRepository W, !FieldMappingRepository W,
          !SchemaRepository W, !MCPServerRepository W, !StreamService W, !SyncService W, !ChiRouter}.
Abbreviation rest_handler := (Request → params → M W answer).
Context (oauth_routes : list (string * string * rest_handler)).

Section request.
Context (now : Z) (newID : string).

(** The [Routes] methods, with the prefix under which they are mounted. *)
Definition group_prefix (g : group) : string :=
  match g with
  | GConnectors => "/connectors" | GConnections => "/connections" | GSyncs => "/syncs" | GSyncRuns => "/sync-runs" | GStreams => "/streams"
  | GTenants => "/tenants" | GSchemas => "/schemas" | GFieldMappings => "/field-mappings" | GMCP => "/mcp" | GOAuth => "/oauth"
  end.
Definition ConnectorHandlers_Routes : list (string * string * rest_handler) :=
  [("GET", "/", ListConnectors registry); ("GET", "/{connectorName}", GetConnector registry);
   ("POST", "/test", TestConnection type_error json_first registry)].
Definition ConnectionHandlers_Routes : list (string * string * rest_handler) :=
  [("POST", "/", CreateConnection type_error json_first registry now newID); ("GET", "/", ListConnections);
   ("GET", "/{connectionID}", GetConnection); ("PUT", "/{connectionID}", UpdateConnection type_error json_first now);
   ("DELETE", "/{connectionID}", DeleteConnection)].
Definition SyncHandlers_Routes : list (string * string * rest_handler) :=
  [("POST", "/", CreateSync type_error time_of json_first now newID); ("GET", "/", ListSyncs); ("GET", "/{syncID}", GetSync);
   ("PUT", "/{syncID}", UpdateSync type_error time_of json_first now); ("DELETE", "/{syncID}", DeleteSync);
   ("POST", "/{syncID}/trigger", TriggerSync); ("POST", "/{syncID}/pause", PauseSync); ("POST", "/{syncID}/resume", ResumeSync)].
Definition SyncRunHandlers_Routes : list (string * string * rest_handler) :=
  [("GET", "/", ListSyncRuns); ("GET", "/{syncRunID}", GetSyncRun); ("GET", "/{syncRunID}/logs", GetSyncRunLogs)].
Definition StreamHandlers_Routes : list (string * string * rest_handler) :=
  [("POST", "/discover", DiscoverStreams type_error json_first); ("GET", "/", ListStreams); ("GET", "/{streamName}/schema", GetStreamSchema)].
Definition TenantHandlers_Routes : list (string * string * rest_handler) :=
  [("POST", "/", CreateTenant type_error json_first now newID); ("GET", "/", ListTenants); ("GET", "/{tenantID}", GetTenant);
   ("PUT", "/{tenantID}", UpdateTenant type_error json_first now)].
Definition SchemaHandlers_Routes : list (string * string * rest_handler) :=
  [("GET", "/versions", GetSchemaVersions); ("GET", "/compare", CompareSchemas)].
Definition FieldMappingHandlers_Routes : list (string * string * rest_handler) :=
  [("POST", "/", CreateMapping type_error json_first now newID); ("GET", "/{mappingID}", GetMapping);
   ("PUT", "/{mappingID}", UpdateMapping type_error json_first now); ("POST", "/auto", AutoMap type_error json_first)].
Definition MCPHandlers_Routes : list (string * string * rest_handler) :=
  [("GET", "/", ListMCPServers); ("POST", "/", RegisterMCPServer type_error json_first now newID); ("GET", "/{mcpServerID}", GetMCPServer);
   ("PUT", "/{mcpServerID}", UpdateMCPServer type_error json_first now); ("DELETE", "/{mcpServerID}", DeleteMCPServer)].
Definition group_routes (g : group) : list (string * string * rest_handler) :=
  match g with
  | GConnectors => ConnectorHandlers_Routes
  | GConnections => ConnectionHandlers_Routes
  | GSyncs => SyncHandlers_Routes
  | GSyncRuns => SyncRunHandlers_Routes
  | GStreams => StreamHandlers_Routes
  | GTenants => TenantHandlers_Routes
  | GSchemas => SchemaHandlers_Routes
  | GFieldMappings => FieldMappingHandlers_Routes
  | GMCP => MCPHandlers_Routes
  | GOAuth => oauth_routes
  end.

(** The routes of the groups whose handlers are set. *)
Definition api_table (wired : list group) : list (string * string * rest_handler) :=
  concat (map (λ g, map (λ e, (e.1.1, group_prefix g +:+ e.1.2, e.2)) (group_routes g)) wired).

Definition api_dispatch (wired : list group) : handler payload W := λ r w,
  let table := api_table wired in
  let miss := (route_miss (map fst table) r, w, None) in
  match route_match (map fst table) (req_Method r) (req_Path r) with
  | Some (i, p) => match table !! i with
                   | Some (_, h) => let '((es, out), w) := h r p w in (es, w, out)
                   | None => miss
                   end
  | None => miss
  end.

(** The group under [/api/v1]. *)
Definition api_routes (AuthMiddleware : option (middleware payload W)) (wired : list group) : handler payload W :=
  let isolated := TenantIsolation (api_dispatch wired) in
  match AuthMiddleware with Some auth => auth isolated | None => isolated end.
End request.

(** What the root of the router decides for a request. *)
Inductive root_target := ToHealth | ToDocs | ToApi | ToMiss.

Context (log_panic : string → Request → W → W) (cors : middleware payload W) (inner : list (middleware payload W))
        (body_size : body payload → Z) (log : log_entry → W → W) (new_uuid : W → string * W)
        (clock : W → Z) (store : W → rateLimiterStore) (with_store : rateLimiterStore → W → W)
        (root : Request → root_target) (openAPISpec : string).

Definition handleDocs : handler payload W := λ r w,
  ([SetHeader "Content-Type" "application/json; charset=utf-8"; WriteHeader 200; Write (TextBody openAPISpec)], w, None).

(** [RegisterRoutes]: [inner] are the four middlewares of the router's library. *)
Definition RegisterRoutes (WorkerConcurrency : Z) (AuthMiddleware : option (middleware payload W)) (wired : list group) (newID : string) : handler payload W :=
  let routes : handler payload W := λ r w,
    match root r with
    | ToHealth => let '((es, out), w) := Health (clock w) r ∅ w in (es, w, out)
    | ToDocs => handleDocs r w
    | ToApi => api_routes (clock w) newID AuthMiddleware wired r w
    | ToMiss => (route_miss [] r, w, None)
    end in
  Recovery log_panic (cors (RequestLogger body_size log new_uuid
    (RateLimit clock store with_store (WorkerConcurrency *ᵢ 10) (foldr (λ m h, m h) routes inner)))).
End server.

(** ** Tenants apart *)

Section confined.
Context {W V : Type} (view : string → W → V).

(** A computation stays within a tenant: it leaves what the other tenants see, and its result and what the tenant sees
    afterwards come only from what the tenant sees before. *)
Definition confined {A} (t : string) (m : M W A) : Prop :=
  (∀ w t', t' ≠ t → view t' (m w).2 = view t' w) ∧
  (∀ w w', view t w = view t w' → (m w).1 = (m w').1 ∧ view t (m w).2 = view t (m w').2).

Lemma confined_ret {A} t (a : A) : confined t (mret (M := M W) a).
Proof. split; [done|]. intros w w' Hv. done. Qed.

Lemma confined_bind {A B} t (m : M W A) (k : A → M W B) (P : A → Prop) :
  confined t m → (∀ w, P (m w).1) → (∀ a, P a → confined t (k a)) → confined t (m ≫= k).
Proof.
  intros [Hm1 Hm2] HP Hk. unfold mbind, M_bind. split.
  - intros w t' Hne. specialize (Hm1 w t' Hne). specialize (HP w). destruct (m w) as [a w1]. cbn in *.
    rewrite <- Hm1. by apply Hk.
  - intros w w' Hv. specialize (Hm2 w w' Hv) as [Ha Hv']. pose proof (HP w) as HPa. destruct (m w) as [a w1], (m w') as [a' w1'].
    cbn in *. subst a'. by apply Hk.
Qed.

Lemma confined_then {A B} t (m : M W A) (k : A → M W B) : confined t m → (∀ a, confined t (k a)) → confined t (m ≫= k).
Proof. intros Hm Hk. apply (confined_bind _ _ _ (λ _, True)); auto. Qed.

Lemma confined_decoded {A} t (d : res A) (k : A → M W answer) : (∀ a, confined t (k a)) → confined t (decoded d k).
Proof. intros Hk. destruct d; [apply Hk|apply confined_ret..]. Qed.

Lemma confined_found {A} t (o : res A) (k : A → M W answer) : (∀ a, o = Ok a → confined t (k a)) → confined t (found o k).
Proof. intros Hk. destruct o; [by apply Hk|apply confined_ret..]. Qed.

Lemma confined_if {A} t (b : bool) (m m' : M W A) : confined t m → confined t m' → confined t (if b then m else m').
Proof. by destruct b. Qed.
End confined.

(** What the server relies on: repositories and services act within the tenant they are given, and what they find for a
    tenant belongs to it. *)
Class TenantScoped (W V : Type) (view : string → W → V)
    `{!ConnectionRepository W, !SyncRepository W, !SyncRunRepository W, !FieldMappingRepository W,
      !SchemaRepository W, !MCPServerRepository W, !StreamService W, !SyncService W} : Prop := {
  scoped_connection_Create c : confined view (cn_TenantID c) (connection_Create c);
  scoped_connection_Get t id : confined view t (connection_Get t id);
  scoped_connection_List t a b : confined view t (connection_List t a b);
  scoped_connection_Update c : confined view (cn_TenantID c) (connection_Update c);
  scoped_connection_Delete t id : confined view t (connection_Delete t id);
  owner_connection t id w c : (connection_Get t id w).1 = Ok c → cn_TenantID c = t;
  scoped_sync_Create s : confined view (sy_TenantID s) (sync_Create s);
  scoped_sync_Get t id : confined view t (sync_Get t id);
  scoped_sync_List t a b : confined view t (sync_List t a b);
  scoped_sync_Update s : confined view (sy_TenantID s) (sync_Update s);
  scoped_sync_Delete t id : confined view t (sync_Delete t id);
  owner_sync t id w s : (sync_Get t id w).1 = Ok s → sy_TenantID s = t;
  scoped_run_Get t id : confined view t (run_Get t id);
  scoped_run_List t s a b : confined view t (run_List t s a b);
  scoped_run_GetLogs t id a b : confined view t (run_GetLogs t id a b);
  scoped_mapping_Create m : confined view (fm_TenantID m) (mapping_Create m);
  scoped_mapping_Get t id : confined view t (mapping_Get t id);
  scoped_mapping_Update m : confined view (fm_TenantID m) (mapping_Update m);
  scoped_mapping_AutoMap t s n : confined view t (mapping_AutoMap t s n);
  owner_mapping t id w m : (mapping_Get t id w).1 = Ok m → fm_TenantID m = t;
  scoped_schema_GetVersions t s : confined view t (schema_GetVersions t s);
  scoped_schema_Compare t s a b : confined view t (schema_Compare t s a b);
  scoped_mcp_Create s : confined view (ms_TenantID s) (mcp_Create s);
  scoped_mcp_Get t id : confined view t (mcp_Get t id);
  scoped_mcp_List t a b : confined view t (mcp_List t a b);
  scoped_mcp_Update s : confined view (ms_TenantID s) (mcp_Update s);
  scoped_mcp_Delete t id : confined view t (mcp_Delete t id);
  owner_mcp t id w s : (mcp_Get t id w).1 = Ok s → ms_TenantID s = t;
  scoped_stream_Discover t c : confined view t (stream_Discover t c);
  scoped_stream_List t c : confined view t (stream_List t c);
  scoped_stream_GetSchema t c n : confined view t (stream_GetSchema t c n);
  scoped_service_Trigger t s : confined view t (service_Trigger t s);
  scoped_service_Pause t s : confined view t (service_Pause t s);
  scoped_service_Resume t s : confined view t (service_Resume t s)
}.

Create HintDb scoped discriminated.
#[export] Hint Resolve scoped_connection_Create scoped_connection_Get scoped_connection_List scoped_connection_Update scoped_connection_Delete
  scoped_sync_Create scoped_sync_Get scoped_sync_List scoped_sync_Update scoped_sync_Delete scoped_run_Get scoped_run_List scoped_run_GetLogs
  scoped_mapping_Create scoped_mapping_Get scoped_mapping_Update scoped_mapping_AutoMap scoped_schema_GetVersions scoped_schema_Compare
  scoped_mcp_Create scoped_mcp_Get scoped_mcp_List scoped_mcp_Update scoped_mcp_Delete scoped_stream_Discover scoped_stream_List
  scoped_stream_GetSchema scoped_service_Trigger scoped_service_Pause scoped_service_Resume : scoped.

(** ** Handlers stay within the tenant of the request *)

Section handlers_confined.
Context (type_error : string → json → error) (time_of : string → option Z) (json_first : string → RawMessage).
Context {W V : Type} (view : string → W → V) (registry : connectorRegistry W).
Context `{Hscoped : TenantScoped W V view} `{!RestApi.TenantRepository W, !ChiRouter}.
Context (now : Z) (newID : string) (oauth_routes : list (string * string * (Request → params → M W answer))).

Lemma confined_as {A} t t' (m : M W A) : t' = t → confined view t' m → confined view t m.
Proof. by intros ->. Qed.

(** An update: what is read belongs to the tenant, and so does what is written back. *)
Lemma confined_update {A R} t (get : M W (res A)) (own : A → string) (d : res R) (upd : A → R → A) (put : A → M W (res unit)) (k : A → answer) :
  confined view t get → (∀ w a, (get w).1 = Ok a → own a = t) → (∀ a, confined view (own a) (put a)) → (∀ a r, own (upd a r) = own a) →
  confined view t (existing ← get; found existing (λ existing, decoded d (λ req,
    let existing := upd existing req in out ← put existing; mret (on_error out (λ _, k existing))))).
Proof.
  intros Hg Hown Hput Hupd. apply (confined_bind view t get _ (λ r, ∀ a, r = Ok a → own a = t)); [done|eauto|].
  intros r Hr. apply confined_found. intros a Ha. apply confined_decoded. intros req. cbn zeta.
  apply confined_then; [|intros; apply confined_ret]. apply (confined_as _ (own (upd a req))); [rewrite Hupd; eauto|done].
Qed.

Ltac confine :=
  repeat first
    [ apply confined_ret
    | apply confined_decoded; intros ?
    | apply confined_if
    | apply confined_then; [solve [eauto with scoped]|intros ?]
    | match goal with |- context [match ?x with _ => _ end] => destruct x end ].

(** Every route but those of the tenants and of OAuth. *)
Lemma handlers_stay_in_tenant g method pattern h r p :
  (method, pattern, h) ∈ group_routes type_error time_of json_first registry oauth_routes now newID g → g ≠ GTenants → g ≠ GOAuth →
  confined view (TenantIDFrom (req_Ctx r)) (h r p).
Proof using Hscoped.
  intros Hin Hg Ho. destruct g; try done; cbn [group_routes ConnectorHandlers_Routes ConnectionHandlers_Routes SyncHandlers_Routes SyncRunHandlers_Routes StreamHandlers_Routes TenantHandlers_Routes SchemaHandlers_Routes FieldMappingHandlers_Routes MCPHandlers_Routes] in Hin;
    repeat (apply list.elem_of_cons in Hin as [[= -> -> ->]|Hin]); try by apply not_elem_of_nil in Hin.
  all: try (unfold ListConnectors, GetConnector, TestConnection, CreateConnection, GetConnection, ListConnections, DeleteConnection,
    CreateSync, GetSync, ListSyncs, DeleteSync, TriggerSync, PauseSync, ResumeSync, GetSyncRun, ListSyncRuns, GetSyncRunLogs,
    DiscoverStreams, ListStreams, GetStreamSchema, CreateMapping, GetMapping, AutoMap, GetSchemaVersions, CompareSchemas,
    ListMCPServers, GetMCPServer, RegisterMCPServer, DeleteMCPServer, invalid; confine; fail).
  - unfold CreateConnection, invalid. confine. apply confined_then; [|intros; apply confined_ret].
    by eapply confined_as; [|apply scoped_connection_Create].
  - refine (confined_update _ _ cn_TenantID _ (updated_connection now) connection_Update _ _ _ _ _); first [apply scoped_connection_Get | apply scoped_connection_Update | done | intros w a Ha; by apply owner_connection in Ha].
  - unfold CreateSync, invalid. confine. apply confined_then; [|intros; apply confined_ret].
    by eapply confined_as; [|apply scoped_sync_Create].
  - refine (confined_update _ _ sy_TenantID _ (updated_sync now) sync_Update _ _ _ _ _); first [apply scoped_sync_Get | apply scoped_sync_Update | done | intros w a Ha; by apply owner_sync in Ha].
  - unfold CreateMapping, invalid. confine. apply confined_then; [|intros; apply confined_ret].
    by eapply confined_as; [|apply scoped_mapping_Create].
  - refine (confined_update _ _ fm_TenantID _ (updated_mapping now) mapping_Update _ _ _ _ _); first [apply scoped_mapping_Get | apply scoped_mapping_Update | done | intros w a Ha; by apply owner_mapping in Ha].
  - unfold RegisterMCPServer, invalid. confine. apply confined_then; [|intros; apply confined_ret].
    by eapply confined_as; [|apply scoped_mcp_Create].
  - refine (confined_update _ _ ms_TenantID _ (updated_server now) mcp_Update _ _ _ _ _); first [apply scoped_mcp_Get | apply scoped_mcp_Update | done | intros w a Ha; by apply owner_mcp in Ha].
Qed.

(** The same of what a handler does for a request. *)
Definition stays (t : string) (f : W → list (event payload) * W * option string) : Prop :=
  (∀ w t', t' ≠ t → view t' (f w).1.2 = view t' w) ∧
  (∀ w w', view t w = view t w' → (f w).1.1 = (f w').1.1 ∧ (f w).2 = (f w').2 ∧ view t (f w).1.2 = view t (f w').1.2).

Lemma stays_of_confined t (m : M W answer) : confined view t m → stays t (λ w, let '((es, out), w) := m w in (es, w, out)).
Proof.
  intros [H1 H2]. split.
  - intros w t' Hne. specialize (H1 w t' Hne). by destruct (m w) as [[es out] w1].
  - intros w w' Hv. specialize (H2 w w' Hv) as [He Hv']. destruct (m w) as [[es out] w1], (m w') as [[es' out'] w1'].
    cbn in *. by injection He as -> ->.
Qed.

Lemma stays_ext t (f g : W → list (event payload) * W * option string) : (∀ w, f w = g w) → stays t g → stays t f.
Proof.
  intros He [H1 H2]. split.
  - intros w t' Hne. rewrite He. by apply H1.
  - intros w w' Hv. rewrite !He. by apply H2.
Qed.

(** The group of each entry of the table, and of the route that serves a request. *)
Definition route_groups (wired : list group) : list group :=
  concat (map (λ g, map (λ _, g) (group_routes type_error time_of json_first registry oauth_routes now newID g)) wired).
Definition served_by (wired : list group) (r : Request) : option group :=
  '(i, _) ← route_match (map fst (api_table type_error time_of json_first registry oauth_routes now newID wired)) (req_Method r) (req_Path r);
  route_groups wired !! i.

Lemma table_group wired i mth pat h :
  api_table type_error time_of json_first registry oauth_routes now newID wired !! i = Some (mth, pat, h) →
  ∃ g pat', route_groups wired !! i = Some g ∧
    (mth, pat', h) ∈ group_routes type_error time_of json_first registry oauth_routes now newID g.
Proof.
  unfold api_table, route_groups. revert i. induction wired as [|g wired IH]; intros i; [done|]. cbn [map concat].
  set (l := group_routes type_error time_of json_first registry oauth_routes now newID g) in *.
  destruct (decide (i < length l)%nat) as [Hi|Hi].
  - rewrite !lookup_app_l by (rewrite length_map; done). intros Hl. apply list_lookup_fmap_Some in Hl as ([[m' p'] h'] & He & Hl).
    injection He as -> -> ->. exists g, p'. split; [|by eapply list_elem_of_lookup_2]. by apply list_lookup_fmap_Some; exists (m', p', h').
  - rewrite !lookup_app_r by (rewrite length_map; lia). rewrite !length_map. apply IH.
Qed.

Lemma dispatch_stays wired r :
  served_by wired r ≠ Some GTenants → served_by wired r ≠ Some GOAuth →
  stays (TenantIDFrom (req_Ctx r)) (api_dispatch type_error time_of json_first registry oauth_routes now newID wired r).
Proof using Hscoped.
  unfold served_by, api_dispatch.
  set (table := api_table type_error time_of json_first registry oauth_routes now newID wired).
  assert (Hmiss : stays (TenantIDFrom (req_Ctx r)) (λ w, (route_miss (map fst table) r, w, None))) by (split; done).
  destruct (route_match _ _ _) as [[i p]|]; [|intros _ _; exact Hmiss]. cbn [mbind option_bind].
  destruct (table !! i) as [[[mth pat] h]|] eqn:Hi; [|intros _ _; exact Hmiss].
  apply table_group in Hi as (g & pat' & -> & Hin). intros Ht Ho.
  apply stays_of_confined. apply (handlers_stay_in_tenant g mth pat' h); [done|congruence..].
Qed.

(** The tenant routes do the same whoever asks. *)
Lemma tenant_handler_any_caller method pattern h r ctx p :
  (method, pattern, h) ∈ group_routes type_error time_of json_first registry oauth_routes now newID GTenants → h (WithContext r ctx) p = h r p.
Proof using Type.
  intros Hin. cbn [group_routes TenantHandlers_Routes] in Hin.
  repeat (apply list.elem_of_cons in Hin as [[= _ _ ->]|Hin]; [done|]). by apply not_elem_of_nil in Hin.
Qed.

Lemma tenant_dispatch_any_caller wired r ctx w :
  served_by wired r = Some GTenants →
  api_dispatch type_error time_of json_first registry oauth_routes now newID wired (WithContext r ctx) w =
  api_dispatch type_error time_of json_first registry oauth_routes now newID wired r w.
Proof using Type.
  unfold served_by, api_dispatch. cbn [req_Method req_Path WithContext].
  set (table := api_table type_error time_of json_first registry oauth_routes now newID wired).
  destruct (route_match _ _ _) as [[i p]|]; [|done]. cbn [mbind option_bind]. intros Hg.
  destruct (table !! i) as [[[mth pat] h]|] eqn:Hi.
  - apply table_group in Hi as (g & pat' & Hg' & Hin). rewrite Hg in Hg'. injection Hg' as <-.
    by rewrite (tenant_handler_any_caller mth pat' h r ctx p Hin).
  - exfalso. apply lookup_lt_Some in Hg. apply lookup_ge_None in Hi.
    assert (Hlen : length (route_groups wired) = length table).
    { unfold route_groups, table, api_table. clear. induction wired as [|g wired IH]; [done|]. cbn [map concat].
      rewrite !length_app, !length_map. f_equal. exact IH. }
    rewrite Hlen in Hg. by apply Nat.lt_nge in Hg.
Qed.

Context (json_doc : string → RawMessage) (hmac : string → string → list ascii).

(** C6: with all groups of routes mounted behind the token middleware, a request either is turned away and changes nothing, or it carries
    an accepted token of a tenant that is not empty.  Then, on every route but those of the tenants' administration and
    of OAuth, it works for that tenant: it changes nothing that another tenant sees, and its answer and its effect come
    from what its own tenant sees alone.  On the administration of tenants it does what it would do for any other
    caller: there the tenants are not kept apart. *)
Theorem rest_tenant_isolation cfg wired r :
  let serve := api_routes type_error time_of json_first registry oauth_routes now newID
                 (Some (JWTAuth type_error json_doc hmac (λ _, now) cfg)) wired r in
  (∃ tok c, bearer (header r "Authorization") = Some tok ∧ validateJWT type_error json_doc hmac tok cfg now = Ok c ∧ TenantID c ≠ "" ∧
     (served_by wired r ≠ Some GTenants → served_by wired r ≠ Some GOAuth → stays (TenantID c) serve) ∧
     (served_by wired r = Some GTenants →
        ∀ w, serve w = api_dispatch type_error time_of json_first registry oauth_routes now newID wired r w)) ∨
  (∃ status message code, status ∈ [401; 403] ∧ ∀ w, serve w = (error_events status message code, w, None)).
Proof using Hscoped.
  intros serve. unfold serve, api_routes.
  set (inner := TenantIsolation (api_dispatch type_error time_of json_first registry oauth_routes now newID wired)).
  destruct (JWTAuth_cases inner type_error json_doc hmac now cfg r) as [(tok & c & Hb & Hv & Hrun)|(_ & message & code & Hrun)];
    [|right; exists 401, message, code; split; [left|exact Hrun]].
  destruct (decide (TenantID c = "")) as [Hempty|Hne].
  - right. exists 403. do 2 eexists. split; [right; left|]. intros w. rewrite Hrun. unfold inner, TenantIsolation. cbn. by rewrite Hempty.
  - assert (Hinner : ∀ w, inner (authenticated r (TenantID c) (Sub c) (j_Scopes c)) w =
      api_dispatch type_error time_of json_first registry oauth_routes now newID wired (authenticated r (TenantID c) (Sub c) (j_Scopes c)) w).
    { intros w. unfold inner, TenantIsolation. cbn [req_Ctx authenticated]. change (TenantIDFrom _) with (TenantID c).
      by rewrite bool_decide_eq_false_2. }
    left. exists tok, c. split_and!; [done..| |].
    + intros Ht Ho. eapply stays_ext; [intros w; rewrite Hrun; apply Hinner|].
      by apply (dispatch_stays wired (authenticated r (TenantID c) (Sub c) (j_Scopes c))).
    + intros Ht w. rewrite Hrun, Hinner. by apply tenant_dispatch_any_caller.
Qed.
End handlers_confined.

(** ** Who gets through *)

Section access.
Context (type_error : string → json → error) (time_of : string → option Z) (json_first : string → RawMessage).
Context {W : Type} (registry : connectorRegistry W).
Context `{!ConnectionRepository W, !SyncRepository W, !SyncRunRepository W, !RestApi.TenantRepository W, !FieldMappingRepository W,
          !SchemaRepository W, !MCPServerRepository W, !StreamService W, !SyncService W, !ChiRouter}.
Context (oauth_routes : list (string * string * (Request → params → M W answer))) (now : Z) (newID : string).
Abbreviation routes := (api_routes type_error time_of json_first registry oauth_routes now newID).

(** Without authentication the routes answer nothing but that a tenant is required, whatever headers a request has. *)
Theorem unauthenticated_api_is_closed wired r w :
  TenantIDFrom (req_Ctx r) = "" →
  routes None wired r w = (error_events 403 "tenant context is required for this operation" "TENANT_REQUIRED", w, None).
Proof. intros Ht. unfold api_routes, TenantIsolation. by rewrite Ht. Qed.

(** With authentication a request without an [Authorization] header is refused on every route, that of the OAuth callback
    included, to which an identity provider redirects a browser. *)
Theorem callback_needs_authorization json_doc hmac cfg wired r w :
  header r "Authorization" = "" →
  routes (Some (JWTAuth type_error json_doc hmac (λ _, now) cfg)) wired r w =
    (error_events 401 "missing Authorization header" "AUTH_MISSING", w, None).
Proof. intros Ha. unfold api_routes, JWTAuth. by rewrite Ha. Qed.

(** The tenant routes do the same whoever asks: any caller reads and changes any tenant. *)
Theorem tenant_routes_ignore_caller method pattern h r ctx p :
  (method, pattern, h) ∈ group_routes type_error time_of json_first registry oauth_routes now newID GTenants →
  h (WithContext r ctx) p = h r p.
Proof. by apply tenant_handler_any_caller. Qed.
End access.

(** The number of pages is that of the items. *)
Lemma page_count_spec total size :
  1 ≤ size ≤ 100 → 0 ≤ total ≤ int64_max - 100 →
  let pages := page_count total size in size * (pages - 1) < total ≤ size * pages ∨ total = 0 ∧ pages = 0.
Proof.
  intros Hsize Ht. unfold page_count. rewrite (proj2 (Z.ltb_lt 0 size)) by lia. cbn zeta.
  unfold int64_max in Ht. nowrap. rewrite Z.quot_div_nonneg by lia.
  pose proof (Z.div_mod (total + size - 1) size) as Hd. pose proof (Z.mod_pos_bound (total + size - 1) size) as Hm.
  assert (Hq' : 0 ≤ (total + size - 1) / size ≤ total + size - 1).
  { split; [apply Z.div_pos; lia|]. apply Z.div_le_upper_bound; nia. }
  nowrap. destruct (decide (total = 0)) as [->|Hne]; [|left; nia].
  right. split; [done|]. apply Z.div_small. lia.
Qed.

(** Pages are bounded whatever the query says, and the number of pages is that of the items. *)
Theorem pagination_bounds r total :
  let '(page, pageSize) := PaginationFromRequest r in
  1 ≤ page ≤ int64_max ∧ 1 ≤ pageSize ≤ 100 ∧
  (0 ≤ total ≤ int64_max - 100 → let pages := page_count total pageSize in pageSize * (pages - 1) < total ≤ pageSize * pages ∨ total = 0 ∧ pages = 0).
Proof.
  unfold PaginationFromRequest.
  assert (Hq : ∀ k d, in_i64 d → in_i64 (queryInt r k d)).
  { intros k d Hd. unfold queryInt. case_bool_decide; [done|]. destruct (parse_int _) as [z|] eqn:Hz; [|done]. by apply parse_int_range in Hz. }
  pose proof (Hq "page" 1 ltac:(split; discriminate)) as Hp. pose proof (Hq "page_size" 20 ltac:(split; discriminate)) as Hs.
  unfold in_i64 in Hp, Hs. set (pg := queryInt r "page" 1) in *. set (ps := queryInt r "page_size" 20) in *.
  set (size := if 100 <? (if ps <? 1 then 20 else ps) then 100 else if ps <? 1 then 20 else ps).
  assert (Hsize : 1 ≤ size ≤ 100).
  { unfold size. destruct (Z.ltb_spec ps 1); [cbn; lia|]. destruct (Z.ltb_spec 100 ps); lia. }
  split; [|split; [done|]].
  - destruct (Z.ltb_spec pg 1); unfold int64_max in *; lia.
  - intros Ht. by apply page_count_spec.
Qed.

(** An error that is none of the package's is answered without its text. *)
Theorem unknown_errors_stay_private err :
  (∀ s, errors_Is err s = false) → as_validations err = None →
  handleRepoError err = Error 500 "internal server error" "INTERNAL_ERROR".
Proof. intros Hs Hv. unfold handleRepoError. by rewrite !Hs, Hv. Qed.

(** ** The rate limit of the server *)

Section limits.
Context {W : Type} (clock : W → Z) (store : W → rateLimiterStore) (with_store : rateLimiterStore → W → W).
Context (store_set : ∀ s w, store (with_store s w) = s).
Context (next : handler payload W) (next_store : ∀ r w, store (next r w).1.2 = store w).

(** Requests one after the other. *)
Fixpoint serve_all (n : Z) (rs : list Request) (w : W) : list (list (event payload)) :=
  match rs with
  | [] => []
  | r :: rs => let '(es, w, _) := RateLimit clock store with_store n next r w in es :: serve_all n rs w
  end.

(** A fresh bucket for [n] requests a minute has a token. *)
Definition admits (n : Z) : Prop := (bucket_allow (newTokenBucket n 0) 0).1.1 = true.

Lemma fresh_bucket n t : (bucket_allow (newTokenBucket n t) t).1.1 = (bucket_allow (newTokenBucket n 0) 0).1.1.
Proof.
  unfold bucket_allow. cbn [lastRefill newTokenBucket tokens maxTokens refillRate].
  assert (Hz : ∀ u, time_sub u u = 0) by (intros u; unfold time_sub; by rewrite Z.sub_diag).
  rewrite !Hz. by case_match.
Qed.

(** The server counts requests before it knows their tenant, by the address they give in a header: requests
    that each give another one are never refused, however many there are. *)
Theorem forged_addresses_unlimited n rs w :
  admits n → (∀ r, r ∈ rs → TenantIDFrom (req_Ctx r) = "") → NoDup (map realIP rs) → (∀ r, r ∈ rs → store w !! realIP r = None) →
  Forall2 (λ r es, ∃ w' remaining, es = [SetHeader "X-RateLimit-Limit" (pretty n); SetHeader "X-RateLimit-Remaining" remaining] ++ (next r w').1.1)
    rs (serve_all n rs w).
Proof using store_set next_store.
  intros Ha. revert w. induction rs as [|r rs IH]; intros w Ht Hnd Hfresh; [constructor|]. cbn [serve_all map] in *.
  apply list.NoDup_cons in Hnd as [Hr Hnd]. unfold RateLimit, limit_key. rewrite (Ht r) by left.
  rewrite (bool_decide_eq_true_2 ("" = "")) by done. unfold getBucket. rewrite (Hfresh r) by left.
  pose proof (fresh_bucket n (clock w)) as Hb. rewrite Ha in Hb.
  destruct (bucket_allow (newTokenBucket n (clock w)) (clock w)) as [[ok retry] b]. cbn in Hb. subst ok.
  set (w1 := with_store _ w). pose proof (next_store r w1) as Hstore. destruct (next r w1) as [[es w2] out] eqn:Hn. cbn in Hstore.
  constructor.
  - exists w1. eexists. by rewrite Hn.
  - apply IH; [intros; apply Ht; by right|done|]. intros r' Hr'. rewrite Hstore. unfold w1. rewrite store_set.
    assert (realIP r' ≠ realIP r) by (intros He; apply Hr; rewrite <- He; apply list_elem_of_fmap; eauto).
    rewrite !lookup_insert_ne by done. apply Hfresh. by right.
Qed.
End limits.

(** ** Examples: connections in memory, by tenant *)

Module Memory.

Abbreviation world := (gmap string (gmap string Connection)).
Definition of_tenant (t : string) (w : world) : gmap string Connection := default ∅ (w !! t).
Definition put (c : Connection) (w : world) : world := <[cn_TenantID c := <[cn_ID c := c]> (of_tenant (cn_TenantID c) w)]> w.
Definition missing {A} : M world (res A) := λ w, (Err (ErrSentinel ErrNotFound), w).

#[export] Instance memory_connections : ConnectionRepository world := {
  connection_Create c w := (Ok tt, put c w);
  connection_Get t id w :=
    (match of_tenant t w !! id with Some c => if bool_decide (cn_TenantID c = t) then Ok c else Err (ErrSentinel ErrNotFound) | None => Err (ErrSentinel ErrNotFound) end, w);
  connection_List t _ _ w := (Ok ((map_to_list (of_tenant t w)).*2, Z.of_nat (size (of_tenant t w))), w);
  connection_Update c w := (Ok tt, put c w);
  connection_Delete t id w := (Ok tt, <[t := delete id (of_tenant t w)]> w)
}.
#[export] Instance no_syncs : SyncRepository world :=
  {| sync_Create _ := missing; sync_Get _ _ := missing; sync_List _ _ _ := missing; sync_Update _ := missing; sync_Delete _ _ := missing |}.
#[export] Instance no_runs : SyncRunRepository world := {| run_Get _ _ := missing; run_List _ _ _ _ := missing; run_GetLogs _ _ _ _ := missing |}.
#[export] Instance no_tenants : RestApi.TenantRepository world :=
  {| tenant_Create _ := missing; tenant_Get _ := missing; tenant_List _ _ := missing; tenant_Update _ := missing |}.
#[export] Instance no_mappings : FieldMappingRepository world :=
  {| mapping_Create _ := missing; mapping_Get _ _ := missing; mapping_Update _ := missing; mapping_AutoMap _ _ _ := missing |}.
#[export] Instance no_schemas : SchemaRepository world := {| schema_GetVersions _ _ := missing; schema_Compare _ _ _ _ := missing |}.
#[export] Instance no_servers : MCPServerRepository world :=
  {| mcp_Create _ := missing; mcp_Get _ _ := missing; mcp_List _ _ _ := missing; mcp_Update _ := missing; mcp_Delete _ _ := missing |}.
#[export] Instance no_streams : StreamService world := {| stream_Discover _ _ := missing; stream_List _ _ := missing; stream_GetSchema _ _ _ := missing |}.
#[export] Instance no_service : SyncService world := {| service_Trigger _ _ := missing; service_Pause _ _ := missing; service_Resume _ _ := missing |}.

Lemma confined_missing {A} t : confined of_tenant t (missing (A := A)).
Proof. by split. Qed.

Lemma of_tenant_insert t t' m w : of_tenant t (<[t' := m]> w) = if decide (t = t') then m else of_tenant t w.
Proof.
  unfold of_tenant. case_decide as Ht; [subst; by rewrite lookup_insert_eq|by rewrite lookup_insert_ne].
Qed.

(** Only the tenant's connections change, as a function of them. *)
Lemma confined_change {A} t (f : gmap string Connection → A) (g : gmap string Connection → gmap string Connection) :
  confined of_tenant t (λ w, (f (of_tenant t w), <[t := g (of_tenant t w)]> w)).
Proof.
  split.
  - intros w t' Hne. cbn. rewrite of_tenant_insert. by rewrite decide_False.
  - intros w w' Hv. cbn. rewrite !of_tenant_insert, !decide_True by done. by rewrite Hv.
Qed.
Lemma confined_look {A} t (f : gmap string Connection → A) : confined of_tenant t (λ w, (f (of_tenant t w), w)).
Proof. split; [done|]. intros w w' Hv. cbn. by rewrite Hv. Qed.

#[export] Instance memory_scoped : TenantScoped world (gmap string Connection) of_tenant.
Proof.
  split; intros; try (by apply confined_missing); try done.
  - apply (confined_change (cn_TenantID c) (λ _, Ok tt) (λ m, <[cn_ID c := c]> m)).
  - apply (confined_look t (λ m, match m !! id with Some c => if bool_decide (cn_TenantID c = t) then Ok c else Err (ErrSentinel ErrNotFound)
                                                | None => Err (ErrSentinel ErrNotFound) end)).
  - apply (confined_look t (λ m, Ok ((map_to_list m).*2, Z.of_nat (size m)))).
  - apply (confined_change (cn_TenantID c) (λ _, Ok tt) (λ m, <[cn_ID c := c]> m)).
  - apply (confined_change t (λ _, Ok tt) (λ m, delete id m)).
  - cbn in *. destruct (of_tenant t w !! id) as [c'|]; [|done]. case_bool_decide; [|done]. by match goal with H : Ok _ = Ok _ |- _ => injection H as -> end.
Qed.

(** Tries the entries in turn; the last segment of the path is the parameter. *)
#[export] Instance memory_router : ChiRouter := {
  route_match table method path :=
    match path with
    | "/connections/c1" => if bool_decide (method = "GET") then Some (2%nat, {["connectionID" := "c1"]}) else None
    | "/connections/" => if bool_decide (method = "POST") then Some (0%nat, ∅) else None
    | _ => None
    end;
  route_miss _ _ := error_events 404 "" ""
}.
End Memory.
Import Memory.

Definition no_connectors : connectorRegistry world := RegisterSource "crm" (mkConnectorMeta "crm" "" "" "" "" "")
  (mkSource (Err (ErrText "")) (λ _, Err (ErrText "")) (λ _, Err (ErrText "")) (λ _ _ _ _, ([], None))) registry_init.
Definition sample_body (s : string) : RawMessage := RawDoc (JObj [("name", JStr "main"); ("connector_name", JStr "crm")]).
Definition api_request (method path authorization : string) : Request :=
  mkRequest method path "" {["Authorization" := authorization]} "10.0.0.1" "{}" (mkCtx "" "" "" []).
Definition sample_server : Request → world → list (event payload) * world * option string :=
  api_routes toy_type_error (λ _, None) sample_body no_connectors [] (100 * second) "c1"
    (Some (JWTAuth toy_type_error toy_doc toy_hmac (λ _, 100 * second) toy_jwt_config)) [GConnections].

(** A connection is created for the tenant of the token and found again by it. *)
Example created_and_found :
  let '(es, w, _) := sample_server (api_request "POST" "/connections/" ("Bearer " +:+ claims_token)) ∅ in
  let '(es', _, _) := sample_server (api_request "GET" "/connections/c1" ("Bearer " +:+ claims_token)) w in
  let c := mkConnection "c1" "acme" "main" "crm" "source" RawEmpty "active" (100 * second) (100 * second) in
  statusCode es = 201 ∧ of_tenant "acme" w = {["c1" := c]} ∧ es' = (JSON 200 (PConnection c)).1.
Proof. vm_compute. done. Qed.

Definition sample_groups : list group :=
  [GConnections; GConnectors; GSyncs; GSyncRuns; GStreams; GTenants; GSchemas; GFieldMappings; GMCP; GOAuth].

Lemma rest_tenant_isolation_witness :
  let r := api_request "POST" "/connections/" ("Bearer " +:+ claims_token) in
  let serve := api_routes toy_type_error (λ _, None) sample_body no_connectors [] (100 * second) "c1"
                 (Some (JWTAuth toy_type_error toy_doc toy_hmac (λ _, 100 * second) toy_jwt_config)) sample_groups r in
  (∃ tok c, bearer ("Bearer " +:+ claims_token) = Some tok ∧ validateJWT toy_type_error toy_doc toy_hmac tok toy_jwt_config (100 * second) = Ok c ∧
     TenantID c ≠ "" ∧
     (served_by toy_type_error (λ _, None) sample_body no_connectors (100 * second) "c1" [] sample_groups r ≠ Some GTenants →
      served_by toy_type_error (λ _, None) sample_body no_connectors (100 * second) "c1" [] sample_groups r ≠ Some GOAuth →
      stays of_tenant (TenantID c) serve) ∧
     (served_by toy_type_error (λ _, None) sample_body no_connectors (100 * second) "c1" [] sample_groups r = Some GTenants →
      ∀ w, serve w = api_dispatch toy_type_error (λ _, None) sample_body no_connectors [] (100 * second) "c1" sample_groups r w)) ∨
  (∃ status message code, status ∈ [401; 403] ∧ ∀ w, serve w = (error_events status message code, w, None)).
Proof.
  intros r serve.
  exact (rest_tenant_isolation toy_type_error (λ _, None) sample_body of_tenant no_connectors (100 * second) "c1" [] toy_doc toy_hmac
            toy_jwt_config sample_groups r).
Defined.

Lemma unauthenticated_api_is_closed_witness :
  api_routes toy_type_error (λ _, None) sample_body no_connectors [] 0 "c1" None [GConnections] (api_request "GET" "/connections/c1" "") ∅ =
    (error_events 403 "tenant context is required for this operation" "TENANT_REQUIRED", ∅, None).
Proof.
  apply (unauthenticated_api_is_closed toy_type_error (λ _, None) sample_body no_connectors [] 0 "c1" [GConnections]
           (api_request "GET" "/connections/c1" "") ∅). reflexivity.
Defined.

Lemma callback_needs_authorization_witness :
  api_routes toy_type_error (λ _, None) sample_body no_connectors [] 0 "c1"
    (Some (JWTAuth toy_type_error toy_doc toy_hmac (λ _, 0) toy_jwt_config)) [GOAuth]
    (mkRequest "GET" "/oauth/callback" "code=c&state=s" ∅ "" "" (mkCtx "" "" "" [])) ∅ =
    (error_events 401 "missing Authorization header" "AUTH_MISSING", ∅, None).
Proof.
  apply (callback_needs_authorization toy_type_error (λ _, None) sample_body no_connectors [] 0 "c1" toy_doc toy_hmac toy_jwt_config [GOAuth]
           (mkRequest "GET" "/oauth/callback" "code=c&state=s" ∅ "" "" (mkCtx "" "" "" [])) ∅). reflexivity.
Defined.

Lemma tenant_routes_ignore_caller_witness :
  UpdateTenant toy_type_error sample_body 0 (WithContext (api_request "PUT" "/tenants/t1" "") (mkCtx "other" "" "" [])) {["tenantID" := "t1"]} =
  UpdateTenant toy_type_error sample_body 0 (api_request "PUT" "/tenants/t1" "") {["tenantID" := "t1"]} (W := world).
Proof.
  refine (tenant_routes_ignore_caller toy_type_error (λ _, None) sample_body no_connectors [] 0 "c1" "PUT" "/{tenantID}"
            (UpdateTenant toy_type_error sample_body 0) (api_request "PUT" "/tenants/t1" "") (mkCtx "other" "" "" []) {["tenantID" := "t1"]} _).
  do 3 right. left.
Defined.

Lemma unknown_errors_stay_private_witness :
  handleRepoError (ErrWrapf "query" (ErrText "password=hunter2")) = Error 500 "internal server error" "INTERNAL_ERROR".
Proof. apply (unknown_errors_stay_private (ErrWrapf "query" (ErrText "password=hunter2"))); [by intros []|reflexivity]. Defined.

Definition forged (i : nat) : Request :=
  mkRequest "GET" "/" "" {["X-Forwarded-For" := pretty i]} "10.0.0.1" "" (mkCtx "" "" "" []).
Definition limited_next : handler payload rateLimiterStore := λ r w, ([WriteHeader 200], w, None).

Lemma forged_addresses_unlimited_witness :
  Forall2 (λ r es, ∃ w' remaining, es = [SetHeader "X-RateLimit-Limit" (pretty 10); SetHeader "X-RateLimit-Remaining" remaining] ++ (limited_next r w').1.1)
    (map forged (seq 0 30)) (serve_all (λ _, 0) (λ w, w) (λ s _, s) limited_next 10 (map forged (seq 0 30)) ∅).
Proof.
  refine (forged_addresses_unlimited (λ _, 0) (λ w, w) (λ s _, s) (λ s w, eq_refl) limited_next (λ r w, eq_refl) 10 (map forged (seq 0 30)) ∅ _ _ _ _).
  - vm_compute. reflexivity.
  - intros r Hr. apply list_elem_of_fmap in Hr as (i & -> & _). reflexivity.
  - apply (bool_decide_unpack _). vm_compute. exact I.
  - intros r _. apply lookup_empty.
Defined.
