(* ===== verification/GraphQL.v ===== *)
(** * The GraphQL API: [internal/api/graphql/resolver.go]

    Resolvers over the repositories of the REST API, the loaders of a request, the dispatch by the variable [field], and
    the HTTP handler.  A resolver that fails gives no value.  The hub of subscriptions is in [Subscriptions]. *)

From Stdlib Require Import Ascii.
From S2P Require Import Prelude GoStrings Errors Float Value Protocol JsonDecode Urls Http RestApi RestHandlers RestServer.
Import RestServer.Memory.

(** ** Results *)

Record PageInfo := mkPageInfo { pi_Total : Z; pi_Page : Z; pi_PageSize : Z; pi_Pages : Z; pi_HasNextPage : bool; pi_HasPreviousPage : bool }.
Definition newPageInfo (total page pageSize : Z) : PageInfo :=
  let pages := page_count total pageSize in mkPageInfo total page pageSize pages (page <? pages) (1 <? page).

(** A page of nodes: [ConnectionConnection], [SyncConnection] and the like. *)
Record page_of (A : Type) := mkPage { nodes : list A; pageInfo : PageInfo }.
Arguments mkPage {A}. Arguments nodes {A}. Arguments pageInfo {A}.

Record ConnectorNode := mkConnectorNode { node_Meta : ConnectorMeta; node_Spec : option Spec }.
Record CheckResultNode := mkCheckNode { ck_Status : string; ck_Message : string }.

Inductive gdata :=
| GNil | GBool (b : bool) | GConnectors (l : list ConnectorNode) | GConnector (c : ConnectorNode)
| GConnection (c : Connection) | GConnectionPage (p : page_of Connection) | GSync (s : Sync) | GSyncPage (p : page_of Sync)
| GSyncRun (r : SyncRun) | GSyncRunPage (p : page_of SyncRun) | GStreams (l : list Stream) | GSchema (s : RawMessage)
| GTenant (t : Tenant) | GTenants (l : list Tenant) | GMapping (m : FieldMapping) | GMappings (l : list FieldMapping)
| GVersions (l : list SchemaVersion) | GComparison (c : SchemaComparison) | GServer (s : MCPServer) | GServerPage (p : page_of MCPServer)
| GCheck (c : CheckResultNode) | GCatalog (l : list Stream).

(** [graphQLResponse]: no data at all, or the fields that were resolved. *)
Record graphQLResponse := mkResponseG { g_Data : option (list (string * gdata)); g_Errors : list string }.

Abbreviation outcome_of := (list (string * gdata) * list error)%type.

(** ** Resolvers *)

(** Goes on with a result, and stops at an error. *)
Definition bindR {W A B} (m : M W (res A)) (k : A → M W (res B)) : M W (res B) :=
  r ← m; match r with Ok a => k a | Err e => mret (Err e) | Panic p => mret (Panic p) end.
Definition mapR {W A B} (f : A → B) (m : M W (res A)) : M W (res B) := bindR m (λ a, mret (Ok (f a))).

Definition defaultPagination (page pageSize : option Z) : Z * Z :=
  (match page with Some p => if 0 <? p then p else 1 | None => 1 end,
   match pageSize with Some ps => if 0 <? ps then (if 100 <? ps then 100 else ps) else 20 | None => 20 end).

(** A pointer that is given replaces the value. *)
Definition given {A} (new : option A) (old : A) : A := default old new.

(** [batchLoader.Load]: the cache and the keys that wait are the loader's state. *)
Record batchLoader (V : Type) := mkLoader { cache : gmap string V; pending : list string }.
Arguments mkLoader {V}. Arguments cache {V}. Arguments pending {V}.
Definition newBatchLoader {V} : batchLoader V := mkLoader ∅ [].

Section loader.
Context {W V : Type} (batchFn : list string → M W (res (gmap string V))).

(** A value that is not among the results is the zero value. *)
Definition Load (key : string) (bl : batchLoader V) : M W (res (option V) * batchLoader V) :=
  match cache bl !! key with
  | Some v => mret (Ok (Some v), bl)
  | None =>
      let pendingKeys := pending bl ++ [key] in
      let bl := mkLoader (cache bl) [] in
      results ← batchFn pendingKeys;
      match results with
      | Err e => mret (Err e, bl)
      | Panic m => mret (Panic m, bl)
      | Ok results =>
          let bl := mkLoader (results ∪ cache bl) (pending bl) in
          mret (Ok (cache bl !! key), bl)
      end
  end.

(** The batch functions: each key by itself, those that fail left out. *)
Fixpoint load_each (get : string → M W (res V)) (keys : list string) (result : gmap string V) : M W (res (gmap string V)) :=
  match keys with
  | [] => mret (Ok result)
  | key :: keys =>
      v ← get key;
      match v with
      | Ok v => load_each get keys (<[key := v]> result)
      | Err _ => load_each get keys result
      | Panic m => mret (Panic m)
      end
  end.
End loader.

Section resolver.
Context {W : Type} (registry : connectorRegistry W) (now : Z) (NewID : string).
Context `{!ConnectionRepository W, !SyncRepository W, !SyncRunRepository W, !RestApi.TenantRepository W, !FieldMappingRepository W,
          !SchemaRepository W, !MCPServerRepository W, !StreamService W, !SyncService W}.
(** The tenant of the context, and whether it carries loaders. *)
Context (tenantID : string) (loaders : bool).

Abbreviation resolver A := (M W (res A)).

Definition QueryConnectors : resolver (list ConnectorNode) :=
  mret (Ok (map (λ m, mkConnectorNode m None) (Protocol.ListConnectors registry))).
Definition QueryConnector (name : string) : resolver ConnectorNode :=
  match GetMeta registry name with
  | Ok meta => mret (Ok (mkConnectorNode meta (connector_spec registry meta name)))
  | Err e => mret (Err e)
  | Panic m => mret (Panic m)
  end.

(** One value through a fresh loader of the request. *)
Definition loaded {A} (get : string → resolver A) (id : string) : resolver (option A) :=
  '(r, _) ← Load (λ keys, load_each get keys ∅) id newBatchLoader; mret r.

Definition QueryConnection (id : string) : resolver (option Connection) :=
  if loaders then loaded (connection_Get tenantID) id else mapR Some (connection_Get tenantID id).
Definition QueryConnections (page pageSize : option Z) : resolver (page_of Connection) :=
  let '(p, ps) := defaultPagination page pageSize in
  mapR (λ '(conns, total), mkPage conns (newPageInfo total p ps)) (connection_List tenantID p ps).
Definition QuerySync (id : string) : resolver (option Sync) :=
  if loaders then loaded (sync_Get tenantID) id else mapR Some (sync_Get tenantID id).
Definition QuerySyncs (page pageSize : option Z) : resolver (page_of Sync) :=
  let '(p, ps) := defaultPagination page pageSize in
  mapR (λ '(syncs, total), mkPage syncs (newPageInfo total p ps)) (sync_List tenantID p ps).
Definition QuerySyncRun (id : string) : resolver SyncRun := run_Get tenantID id.
Definition QuerySyncRuns (syncID : option string) (page pageSize : option Z) : resolver (page_of SyncRun) :=
  let '(p, ps) := defaultPagination page pageSize in
  mapR (λ '(runs, total), mkPage runs (newPageInfo total p ps)) (run_List tenantID (default "" syncID) p ps).
Definition QueryStreams (connectionID : string) : resolver (list Stream) := stream_List tenantID connectionID.
Definition QueryStreamSchema (connectionID streamName : string) : resolver RawMessage := stream_GetSchema tenantID connectionID streamName.
Definition QueryTenant (id : string) : resolver Tenant := tenant_Get id.
Definition QueryTenants (page pageSize : option Z) : resolver (list Tenant) :=
  let '(p, ps) := defaultPagination page pageSize in mapR fst (tenant_List p ps).
Definition QueryFieldMapping (id : string) : resolver FieldMapping := mapping_Get tenantID id.
Definition QuerySchemaVersions (stream : string) : resolver (list SchemaVersion) := schema_GetVersions tenantID stream.
Definition QuerySchemaComparison (stream : string) (v1 v2 : Z) : resolver SchemaComparison := schema_Compare tenantID stream v1 v2.
Definition QueryMCPServers (page pageSize : option Z) : resolver (page_of MCPServer) :=
  let '(p, ps) := defaultPagination page pageSize in
  mapR (λ '(servers, total), mkPage servers (newPageInfo total p ps)) (mcp_List tenantID p ps).
Definition QueryMCPServer (id : string) : resolver MCPServer := mcp_Get tenantID id.

Definition MutationCreateConnection (name connectorName : string) (config : RawMessage) : resolver Connection :=
  match GetMeta registry connectorName with
  | Ok meta =>
      let conn := mkConnection NewID tenantID name connectorName (cm_Type meta) config "active" now now in
      mapR (λ _, conn) (connection_Create conn)
  | _ => mret (Err (ErrText ("unknown connector: " +:+ connectorName)))
  end.
Definition changed_connection (c : Connection) (name : option string) (config : RawMessage) : Connection :=
  mkConnection (cn_ID c) (cn_TenantID c) (given name (cn_Name c)) (cn_ConnectorName c) (cn_ConnectorType c)
    (match config with RawEmpty => cn_Config c | x => x end) (cn_Status c) (cn_CreatedAt c) now.
Definition MutationUpdateConnection (id : string) (name : option string) (config : RawMessage) : resolver Connection :=
  bindR (connection_Get tenantID id) (λ existing,
    let existing := changed_connection existing name config in mapR (λ _, existing) (connection_Update existing)).
Definition MutationDeleteConnection (id : string) : resolver bool := mapR (λ _, true) (connection_Delete tenantID id).

Definition check_node (r : res CheckResult) : res CheckResultNode :=
  match r with
  | Ok c => Ok (mkCheckNode (ProtocolJson.CheckStatus_text (cr_Status c)) (cr_Message c))
  | Err e => Err (ErrWrapf "connection check failed" e)
  | Panic m => Panic m
  end.
Definition MutationTestConnection (connectorName : string) (config : RawMessage) : resolver CheckResultNode :=
  match GetSource registry connectorName with
  | Ok src => mret (check_node (src_Check src config))
  | _ => match GetDestination registry connectorName with
         | Ok dst => mret (check_node (dst_Check dst config))
         | _ => mret (Err (ErrText ("connector not found: " +:+ connectorName)))
         end
  end.

Definition MutationCreateSync (name sourceID destID : string) (schedule : option string) : resolver Sync :=
  let s := mkSync NewID tenantID name sourceID destID (given schedule "") "active" None None now now in mapR (λ _, s) (sync_Create s).
Definition changed_sync (s : Sync) (name schedule : option string) : Sync :=
  mkSync (sy_ID s) (sy_TenantID s) (given name (sy_Name s)) (sy_SourceID s) (sy_DestinationID s) (given schedule (sy_Schedule s))
    (sy_Status s) (sy_Catalog s) (sy_FieldMappings s) (sy_CreatedAt s) now.
Definition MutationUpdateSync (id : string) (name schedule : option string) : resolver Sync :=
  bindR (sync_Get tenantID id) (λ existing, let existing := changed_sync existing name schedule in mapR (λ _, existing) (sync_Update existing)).
Definition MutationDeleteSync (id : string) : resolver bool := mapR (λ _, true) (sync_Delete tenantID id).
Definition MutationTriggerSync (id : string) : resolver SyncRun := service_Trigger tenantID id.
Definition MutationPauseSync (id : string) : resolver Sync := bindR (service_Pause tenantID id) (λ _, sync_Get tenantID id).
Definition MutationResumeSync (id : string) : resolver Sync := bindR (service_Resume tenantID id) (λ _, sync_Get tenantID id).

Definition MutationCreateTenant (name : string) (plan : option string) (settings : option obj) : resolver Tenant :=
  let t := mkTenant NewID name (given plan "free") settings now now in mapR (λ _, t) (tenant_Create t).
Definition changed_tenant (t : Tenant) (name plan : option string) (settings : option obj) : Tenant :=
  mkTenant (tn_ID t) (given name (tn_Name t)) (given plan (tn_Plan t)) (keep_some settings (tn_Settings t)) (tn_CreatedAt t) now.
Definition MutationUpdateTenant (id : string) (name plan : option string) (settings : option obj) : resolver Tenant :=
  bindR (tenant_Get id) (λ existing, let existing := changed_tenant existing name plan settings in mapR (λ _, existing) (tenant_Update existing)).

Definition MutationCreateFieldMapping (syncID sourceField destField : string) (transform : option string) : resolver FieldMapping :=
  let m := mkFieldMapping NewID syncID tenantID sourceField destField (given transform "") now now in mapR (λ _, m) (mapping_Create m).
Definition changed_mapping (m : FieldMapping) (sourceField destField transform : option string) : FieldMapping :=
  mkFieldMapping (fm_ID m) (fm_SyncID m) (fm_TenantID m) (given sourceField (fm_SourceField m)) (given destField (fm_DestField m))
    (given transform (fm_Transform m)) (fm_CreatedAt m) now.
Definition MutationUpdateFieldMapping (id : string) (sourceField destField transform : option string) : resolver FieldMapping :=
  bindR (mapping_Get tenantID id) (λ existing,
    let existing := changed_mapping existing sourceField destField transform in mapR (λ _, existing) (mapping_Update existing)).
Definition MutationAutoMapFields (syncID streamName : string) : resolver (list FieldMapping) := mapping_AutoMap tenantID syncID streamName.

Definition MutationRegisterMCPServer (name url transport : string) (metadata : option (gmap string string)) : resolver MCPServer :=
  let server := mkMCPServer NewID tenantID name url transport [] metadata "active" now now in mapR (λ _, server) (mcp_Create server).
Definition changed_server (s : MCPServer) (name url transport : option string) (metadata : option (gmap string string)) : MCPServer :=
  mkMCPServer (ms_ID s) (ms_TenantID s) (given name (ms_Name s)) (given url (ms_URL s)) (given transport (ms_Transport s)) (ms_Tools s)
    (keep_some metadata (ms_Metadata s)) (ms_Status s) (ms_CreatedAt s) now.
Definition MutationUpdateMCPServer (id : string) (name url transport : option string) (metadata : option (gmap string string)) : resolver MCPServer :=
  bindR (mcp_Get tenantID id) (λ existing,
    let existing := changed_server existing name url transport metadata in mapR (λ _, existing) (mcp_Update existing)).
Definition MutationDeleteMCPServer (id : string) : resolver bool := mapR (λ _, true) (mcp_Delete tenantID id).
Definition MutationDiscoverStreams (connectionID : string) : resolver (list Stream) :=
  mapR cat_Streams (stream_Discover tenantID connectionID).

(** ** Variables *)

Definition stringVar (vars : obj) (key : string) : string := match vars !! key with Some (VString s) => s | _ => "" end.
Definition stringPtrVar (vars : obj) (key : string) : option string := match vars !! key with Some (VString s) => Some s | _ => None end.
Definition intPtrVar (vars : obj) (key : string) : option Z :=
  match vars !! key with Some (VFloat f) => Some (f_to_i64 f) | Some (VInt z) => Some z | _ => None end.
Definition intVar (vars : obj) (key : string) : Z := default 0 (intPtrVar vars key).
Definition jsonVar (vars : obj) (key : string) : RawMessage :=
  match vars !! key with Some v => match to_json v with Some j => RawDoc j | None => RawEmpty end | None => RawEmpty end.
Definition mapVar (vars : obj) (key : string) : option obj := match vars !! key with Some (VMap m) => Some m | _ => None end.
Definition stringMapVar (vars : obj) (key : string) : option (gmap string string) :=
  match vars !! key with Some (VMap m) => Some (omap (λ v, match v with VString s => Some s | _ => None end) m) | _ => None end.

(** ** Dispatch *)

(** A switch over strings. *)
Fixpoint switch {A} (s : string) (cases : list (string * A)) (dflt : A) : A :=
  match cases with [] => dflt | (k, a) :: cases => if bool_decide (s = k) then a else switch s cases dflt end.

(** The result under the name of its field; with an error there is [nilv] in its place. *)
Definition under {A} (field : string) (wrap : A → gdata) (nilv : gdata) (m : resolver A) : resolver outcome_of :=
  r ← m;
  mret match r with
       | Ok a => Ok ([(field, wrap a)], [])
       | Err e => Ok ([(field, nilv)], [e])
       | Panic p => Panic p
       end.
Definition opt_wrap {A} (wrap : A → gdata) (o : option A) : gdata := match o with Some a => wrap a | None => GNil end.

Definition executeQuery (vars : obj) : resolver outcome_of :=
  let s := stringVar vars in
  let page := intPtrVar vars "page" in
  let pageSize := intPtrVar vars "pageSize" in
  switch (stringVar vars "field")
    [("connectors", under "connectors" GConnectors GNil QueryConnectors);
     ("connector", under "connector" GConnector GNil (QueryConnector (s "name")));
     ("connections", under "connections" GConnectionPage GNil (QueryConnections page pageSize));
     ("connection", under "connection" (opt_wrap GConnection) GNil (QueryConnection (s "id")));
     ("syncs", under "syncs" GSyncPage GNil (QuerySyncs page pageSize));
     ("sync", under "sync" (opt_wrap GSync) GNil (QuerySync (s "id")));
     ("syncRuns", under "syncRuns" GSyncRunPage GNil (QuerySyncRuns (stringPtrVar vars "syncId") page pageSize));
     ("syncRun", under "syncRun" GSyncRun GNil (QuerySyncRun (s "id")));
     ("streams", under "streams" GStreams GNil (QueryStreams (s "connectionId")));
     ("streamSchema", under "streamSchema" GSchema GNil (QueryStreamSchema (s "connectionId") (s "streamName")));
     ("tenant", under "tenant" GTenant GNil (QueryTenant (s "id")));
     ("tenants", under "tenants" GTenants GNil (QueryTenants page pageSize));
     ("fieldMapping", under "fieldMapping" GMapping GNil (QueryFieldMapping (s "id")));
     ("schemaVersions", under "schemaVersions" GVersions GNil (QuerySchemaVersions (s "stream")));
     ("schemaComparison", under "schemaComparison" GComparison GNil (QuerySchemaComparison (s "stream") (intVar vars "v1") (intVar vars "v2")));
     ("mcpServers", under "mcpServers" GServerPage GNil (QueryMCPServers page pageSize));
     ("mcpServer", under "mcpServer" GServer GNil (QueryMCPServer (s "id")))]
    (under "connectors" GConnectors GNil QueryConnectors).

Definition executeMutation (vars : obj) : resolver outcome_of :=
  let s := stringVar vars in
  let p := stringPtrVar vars in
  switch (stringVar vars "field")
    [("createConnection", under "createConnection" GConnection GNil (MutationCreateConnection (s "name") (s "connectorName") (jsonVar vars "config")));
     ("updateConnection", under "updateConnection" GConnection GNil (MutationUpdateConnection (s "id") (p "name") (jsonVar vars "config")));
     ("deleteConnection", under "deleteConnection" GBool (GBool false) (MutationDeleteConnection (s "id")));
     ("testConnection", under "testConnection" GCheck GNil (MutationTestConnection (s "connectorName") (jsonVar vars "config")));
     ("createSync", under "createSync" GSync GNil (MutationCreateSync (s "name") (s "sourceId") (s "destinationId") (p "schedule")));
     ("updateSync", under "updateSync" GSync GNil (MutationUpdateSync (s "id") (p "name") (p "schedule")));
     ("deleteSync", under "deleteSync" GBool (GBool false) (MutationDeleteSync (s "id")));
     ("triggerSync", under "triggerSync" GSyncRun GNil (MutationTriggerSync (s "id")));
     ("pauseSync", under "pauseSync" GSync GNil (MutationPauseSync (s "id")));
     ("resumeSync", under "resumeSync" GSync GNil (MutationResumeSync (s "id")));
     ("createTenant", under "createTenant" GTenant GNil (MutationCreateTenant (s "name") (p "plan") (mapVar vars "settings")));
     ("updateTenant", under "updateTenant" GTenant GNil (MutationUpdateTenant (s "id") (p "name") (p "plan") (mapVar vars "settings")));
     ("createFieldMapping", under "createFieldMapping" GMapping GNil (MutationCreateFieldMapping (s "syncId") (s "sourceField") (s "destField") (p "transform")));
     ("updateFieldMapping", under "updateFieldMapping" GMapping GNil (MutationUpdateFieldMapping (s "id") (p "sourceField") (p "destField") (p "transform")));
     ("autoMapFields", under "autoMapFields" GMappings GNil (MutationAutoMapFields (s "syncId") (s "streamName")));
     ("registerMCPServer", under "registerMCPServer" GServer GNil (MutationRegisterMCPServer (s "name") (s "url") (s "transport") (stringMapVar vars "metadata")));
     ("updateMCPServer", under "updateMCPServer" GServer GNil (MutationUpdateMCPServer (s "id") (p "name") (p "url") (p "transport") (stringMapVar vars "metadata")));
     ("deleteMCPServer", under "deleteMCPServer" GBool (GBool false) (MutationDeleteMCPServer (s "id")));
     ("discoverStreams", under "discoverStreams" GCatalog GNil (MutationDiscoverStreams (s "connectionId")))]
    (mret (Ok ([], [ErrText ("unknown mutation field: " +:+ stringVar vars "field")]))).

(** From the first character that is no blank; a text of blanks stays as it is. *)
Fixpoint skip_blanks (bs : list ascii) : option (list ascii) :=
  match bs with
  | [] => None
  | c :: rest => if decide (c ∈ bytes_of (" " +:+ String "009" (String "010" (String "013" "")))) then skip_blanks rest else Some bs
  end.
Definition detectOperation (query : string) : string :=
  let trimmed := of_bytes (default (bytes_of query) (skip_blanks (bytes_of query))) in
  if HasPrefix trimmed "mutation" then "mutation" else if HasPrefix trimmed "subscription" then "subscription" else "query".

Record graphQLRequest := mkGraphQLRequest { gq_Query : string; gq_OperationName : string; gq_Variables : obj }.

(** No data, or the data of the fields, and the errors. *)
Definition execute (req : graphQLRequest) : resolver (option (list (string * gdata)) * list error) :=
  if bool_decide (gq_Query req = "") then mret (Ok (None, [ErrText "query is required"]))
  else
    let some := mapR (λ '(data, errs), (Some data, errs)) in
    match detectOperation (gq_Query req) with
    | "query" => some (executeQuery (gq_Variables req))
    | "mutation" => some (executeMutation (gq_Variables req))
    | op => mret (Ok (None, [ErrText ("unsupported operation: " +:+ op)]))
    end.
End resolver.

Section handler.
Context (type_error : string → json → error) (json_first : string → RawMessage).
Context {W : Type} (registry : connectorRegistry W) (now : Z) (NewID : string).
Context `{!ConnectionRepository W, !SyncRepository W, !SyncRunRepository W, !RestApi.TenantRepository W, !FieldMappingRepository W,
          !SchemaRepository W, !MCPServerRepository W, !StreamService W, !SyncService W}.

Definition request_member (acc : graphQLRequest * option error) (e : string * json) : graphQLRequest * option error :=
  let '(q, err) := acc in
  let '(k, j) := e in
  if key_matches "query" k then
    let '(x, err) := string_member type_error k (gq_Query q) j err in (mkGraphQLRequest x (gq_OperationName q) (gq_Variables q), err)
  else if key_matches "operationName" k then
    let '(x, err) := string_member type_error k (gq_OperationName q) j err in (mkGraphQLRequest (gq_Query q) x (gq_Variables q), err)
  else if key_matches "variables" k then
    let '(x, err) := map_member type_error (value_member type_error k) k (gq_Variables q) j err in
    (mkGraphQLRequest (gq_Query q) (gq_OperationName q) x, err)
  else acc.
Definition decode_request (text : string) : res graphQLRequest :=
  match json_first text with
  | RawEmpty => Err (ErrText "EOF")
  | raw => unmarshal_struct type_error (mkGraphQLRequest "" "" ∅) request_member raw
  end.

Definition respond (status : Z) (r : graphQLResponse) : list (event graphQLResponse) :=
  [SetHeader "Content-Type" "application/json"; WriteHeader status; Write (ValueBody r)].

(** [Resolver.Handler]. *)
Definition Handler : handler graphQLResponse W := λ req w,
  if negb (bool_decide (req_Method req = "POST")) then (respond 405 (mkResponseG None ["only POST method is supported"]), w, None)
  else match decode_request (req_Body req) with
       | Err e => (respond 400 (mkResponseG None ["invalid request body: " +:+ Errors.Error e]), w, None)
       | Panic m => ([], w, Some m)
       | Ok gqlReq =>
           let '(out, w) := execute registry now NewID (TenantIDFrom (req_Ctx req)) true gqlReq w in
           match out with
           | Ok (data, errs) =>
               let status := match data with None => if (0 <? length errs)%nat then 400 else 200 | Some _ => 200 end in
               (respond status (mkResponseG data (map Errors.Error errs)), w, None)
           | Err e => (respond 400 (mkResponseG None [Errors.Error e]), w, None)   (* not reached: [execute] gives errors in its result *)
           | Panic m => ([], w, Some m)
           end
       end.
End handler.

(** ** Loaders *)

Section loader_facts.
Context {W V : Type} (get : string → M W (res V)).

(** What a loader whose batch function asks for each key returns for a key it has not seen: the value, or nothing when the
    key fails. *)
Lemma Load_fresh key w :
  Load (λ keys, load_each get keys ∅) key newBatchLoader w =
    match get key w with
    | (Ok v, w') => ((Ok (Some v), mkLoader {[key := v]} []), w')
    | (Err _, w') => ((Ok None, mkLoader ∅ []), w')
    | (Panic m, w') => ((Panic m, mkLoader ∅ []), w')
    end.
Proof.
  unfold Load, newBatchLoader. cbn [cache pending app load_each]. rewrite lookup_empty. unfold mbind, M_bind, mret, M_ret. cbn.
  destruct (get key w) as [[v|e|m] w']; cbn; [|by rewrite map_union_empty, lookup_empty|done].
  by rewrite map_union_empty, insert_empty, lookup_singleton_eq.
Qed.

Lemma loaded_eq id w :
  loaded get id w = match get id w with
                    | (Ok v, w') => (Ok (Some v), w')
                    | (Err _, w') => (Ok None, w')
                    | (Panic m, w') => (Panic m, w')
                    end.
Proof. unfold loaded, mbind, M_bind. rewrite Load_fresh. by destruct (get id w) as [[v|e|m] w']. Qed.

(** A key that has been loaded is answered from the cache: the repository is asked once in a request. *)
Theorem Load_asks_once key bl w v bl' w' :
  pending bl = [] → Load (λ keys, load_each get keys ∅) key bl w = ((Ok (Some v), bl'), w') →
  pending bl' = [] ∧ cache bl ⊆ cache bl' ∧ (cache bl !! key = Some v ∧ w' = w ∨ get key w = (Ok v, w')) ∧
  ∀ w'', Load (λ keys, load_each get keys ∅) key bl' w'' = ((Ok (Some v), bl'), w'').
Proof.
  intros Hp. unfold Load at 1. destruct (cache bl !! key) as [v0|] eqn:Hc.
  - intros [= -> <- <-]. split_and!; [done..|by left|]. intros w''. unfold Load. by rewrite Hc.
  - rewrite Hp. cbn. unfold mbind, M_bind, mret, M_ret. cbn. destruct (get key w) as [[v1|e|m] w1]; cbn; [| |done].
    + rewrite insert_empty, lookup_union, lookup_singleton_eq, Hc. cbn. intros [= -> <- <-]. cbn. split_and!; [done| |by right|].
      * apply map_union_subseteq_r. apply map_disjoint_singleton_l_2, Hc.
      * intros w''. unfold Load. cbn [cache pending]. by rewrite lookup_union, lookup_singleton_eq, Hc.
    + rewrite map_empty_union, Hc. done.
Qed.
End loader_facts.

(** ** Tenants apart *)

Section tenants.
Context {W V : Type} (view : string → W → V) (registry : connectorRegistry W) (now : Z) (NewID tenantID : string).
Context `{Hscoped : TenantScoped W V view} `{!RestApi.TenantRepository W}.
Abbreviation inside := (confined view tenantID).

Lemma confined_bindR {A B} (m : M W (res A)) (k : A → M W (res B)) : inside m → (∀ a, inside (k a)) → inside (bindR m k).
Proof. intros Hm Hk. apply confined_then; [done|]. intros []; [apply Hk|apply confined_ret..]. Qed.
Lemma confined_mapR {A B} (f : A → B) (m : M W (res A)) : inside m → inside (mapR f m).
Proof. intros Hm. apply confined_bindR; [done|]. intros. apply confined_ret. Qed.
Lemma confined_under {A} field (wrap : A → gdata) nilv (m : M W (res A)) : inside m → inside (under field wrap nilv m).
Proof. intros Hm. apply confined_then; [done|]. intros []; apply confined_ret. Qed.
Lemma confined_load_each {A} (get : string → M W (res A)) keys acc : (∀ k, inside (get k)) → inside (load_each get keys acc).
Proof.
  intros Hg. revert acc. induction keys as [|k keys IH]; intros acc; [apply confined_ret|]. apply confined_then; [apply Hg|].
  intros []; [apply IH|apply IH|apply confined_ret].
Qed.
Lemma confined_loaded {A} (get : string → M W (res A)) id : (∀ k, inside (get k)) → inside (loaded get id).
Proof.
  intros Hg. apply confined_then; [|intros []; apply confined_ret]. unfold Load, newBatchLoader. cbn [cache pending]. rewrite lookup_empty.
  apply confined_then; [by apply confined_load_each|]. intros []; apply confined_ret.
Qed.

(** What is read belongs to the tenant, and so does what is written back. *)
Lemma confined_rewrite {A} (get : M W (res A)) (own : A → string) (f : A → A) (put : A → M W (res unit)) :
  inside get → (∀ w a, (get w).1 = Ok a → own a = tenantID) → (∀ a, confined view (own a) (put a)) → (∀ a, own (f a) = own a) →
  inside (bindR get (λ a, let a := f a in mapR (λ _, a) (put a))).
Proof.
  intros Hg Hown Hput Hf. unfold bindR. apply (confined_bind view tenantID get _ (λ r, ∀ a, r = Ok a → own a = tenantID)); [done|eauto|].
  intros [a|e|m] Hr; [|apply confined_ret..]. cbn zeta. apply confined_mapR. apply (confined_as view _ (own (f a))); [rewrite Hf; auto|done].
Qed.

Lemma confined_create {A} (a : A) (own : A → string) (put : A → M W (res unit)) :
  own a = tenantID → (∀ a, confined view (own a) (put a)) → inside (mapR (λ _, a) (put a)).
Proof. intros Ho Hput. apply confined_mapR. by apply (confined_as view _ (own a)). Qed.

(** A switch takes one of its cases, or the default. *)
Lemma switch_ind {A} (P : A → Prop) s cases dflt : (∀ a, (s, a) ∈ cases → P a) → P dflt → P (switch s cases dflt).
Proof.
  intros Hc Hd. induction cases as [|[k a] cases IH]; [done|]. cbn. case_bool_decide; [subst; apply Hc; by left|].
  apply IH. intros b Hb. apply Hc. by right.
Qed.

Ltac stay :=
  repeat first
    [ apply confined_ret
    | apply confined_loaded; intros ?
    | solve [eauto with scoped]
    | apply confined_mapR
    | apply confined_bindR; [|intros ?]
    | apply confined_if
    | match goal with |- context [match ?x with _ => _ end] => destruct x end ].
Ltac each_case Hin :=
  repeat (apply list.elem_of_cons in Hin as [[= Hfield ->]|Hin]; [apply confined_under|]); [..|by apply not_elem_of_nil in Hin].

Lemma queries_inside loaders vars :
  stringVar vars "field" ∉ ["tenant"; "tenants"] → inside (executeQuery registry tenantID loaders vars).
Proof using Hscoped.
  intros Hf. unfold executeQuery. apply switch_ind; [intros m Hin; each_case Hin|apply confined_under, confined_ret].
  all: try (exfalso; apply Hf; rewrite Hfield; apply (bool_decide_unpack _); exact I).
  all: unfold QueryConnectors, QueryConnector, QueryConnections, QueryConnection, QuerySyncs, QuerySync, QuerySyncRuns, QuerySyncRun,
    QueryStreams, QueryStreamSchema, QueryFieldMapping, QuerySchemaVersions, QuerySchemaComparison, QueryMCPServers, QueryMCPServer; stay.
Qed.

Lemma mutations_inside vars :
  stringVar vars "field" ∉ ["createTenant"; "updateTenant"] → inside (executeMutation registry now NewID tenantID vars).
Proof using Hscoped.
  intros Hf. unfold executeMutation. apply switch_ind; [intros m Hin; each_case Hin|apply confined_ret].
  all: try (exfalso; apply Hf; rewrite Hfield; apply (bool_decide_unpack _); exact I).
  - unfold MutationCreateConnection. destruct (GetMeta _ _); [|apply confined_ret..]. by apply (confined_create _ cn_TenantID); [|apply scoped_connection_Create].
  - apply (confined_rewrite _ cn_TenantID); [apply scoped_connection_Get|apply owner_connection|apply scoped_connection_Update|done].
  - unfold MutationDeleteConnection. stay.
  - unfold MutationTestConnection. stay.
  - by apply (confined_create _ sy_TenantID); [|apply scoped_sync_Create].
  - apply (confined_rewrite _ sy_TenantID); [apply scoped_sync_Get|apply owner_sync|apply scoped_sync_Update|done].
  - unfold MutationDeleteSync. stay.
  - unfold MutationTriggerSync. stay.
  - unfold MutationPauseSync. stay.
  - unfold MutationResumeSync. stay.
  - by apply (confined_create _ fm_TenantID); [|apply scoped_mapping_Create].
  - apply (confined_rewrite _ fm_TenantID); [apply scoped_mapping_Get|apply owner_mapping|apply scoped_mapping_Update|done].
  - unfold MutationAutoMapFields. stay.
  - by apply (confined_create _ ms_TenantID); [|apply scoped_mcp_Create].
  - apply (confined_rewrite _ ms_TenantID); [apply scoped_mcp_Get|apply owner_mcp|apply scoped_mcp_Update|done].
  - unfold MutationDeleteMCPServer. stay.
  - unfold MutationDiscoverStreams. stay.
Qed.

(** The fields of tenants are the only ones that reach outside the tenant of the context: every other request leaves
    what other tenants see, and its data, its errors and its effect come from what its own tenant sees. *)
Theorem graphql_tenant_isolation loaders req :
  stringVar (gq_Variables req) "field" ∉ ["tenant"; "tenants"; "createTenant"; "updateTenant"] →
  inside (execute registry now NewID tenantID loaders req).
Proof using Hscoped.
  intros Hf. unfold execute. case_bool_decide; [apply confined_ret|].
  repeat match goal with |- context [match ?x with _ => _ end] => destruct x end; try apply confined_ret.
  - apply confined_mapR, mutations_inside. set_solver.
  - apply confined_mapR, queries_inside. set_solver.
Qed.
End tenants.

(** ** What a request asks for *)

Section requests.
Context {W : Type} (registry : connectorRegistry W) (now : Z) (NewID tenantID : string).
Context `{!ConnectionRepository W, !SyncRepository W, !SyncRunRepository W, !RestApi.TenantRepository W, !FieldMappingRepository W,
          !SchemaRepository W, !MCPServerRepository W, !StreamService W, !SyncService W}.

Lemma detectOperation_cases query : detectOperation query ∈ ["query"; "mutation"; "subscription"].
Proof. unfold detectOperation. set_unfold. repeat case_match; auto. Qed.

(** The text of a query says no more than which operation it is: what is asked for is in the variables. *)
Theorem query_text_is_ignored loaders q q' op op' vars :
  q ≠ "" → q' ≠ "" → detectOperation q = detectOperation q' →
  execute registry now NewID tenantID loaders (mkGraphQLRequest q op vars) =
  execute registry now NewID tenantID loaders (mkGraphQLRequest q' op' vars).
Proof. intros Hq Hq' Hd. unfold execute. cbn. rewrite (bool_decide_eq_false_2 _ Hq), (bool_decide_eq_false_2 _ Hq'). by rewrite Hd. Qed.

(** With the loaders of a request a connection that is not found, or that could not be read at all, is given as null, without an
    error; without them the error of the repository is reported. *)
Theorem loaders_hide_errors vars id e w w' :
  stringVar vars "field" = "connection" → stringVar vars "id" = id → connection_Get tenantID id w = (Err e, w') →
  executeQuery registry tenantID true vars w = (Ok ([("connection", GNil)], []), w') ∧
  executeQuery registry tenantID false vars w = (Ok ([("connection", GNil)], [e]), w').
Proof.
  intros Hf <- Hg. unfold executeQuery. rewrite Hf. cbn [switch]. cbv zeta.
  rewrite !(bool_decide_eq_false_2 ("connection" = _)) by done. rewrite (bool_decide_eq_true_2 ("connection" = "connection")) by done.
  unfold under, QueryConnection, mapR, bindR, mbind, M_bind. rewrite loaded_eq, Hg. done.
Qed.
End requests.

(** ** The handler *)

Section answers.
Context (type_error : string → json → error) (json_first : string → RawMessage).
Context {W : Type} (registry : connectorRegistry W) (now : Z) (NewID : string).
Context `{!ConnectionRepository W, !SyncRepository W, !SyncRunRepository W, !RestApi.TenantRepository W, !FieldMappingRepository W,
          !SchemaRepository W, !MCPServerRepository W, !StreamService W, !SyncService W}.

(** A request is always answered with what was resolved and the errors of it. *)
Definition never_fails {A} (m : M W (res A)) : Prop := ∀ w e, (m w).1 ≠ Err e.
Lemma under_never_fails {A} field (wrap : A → gdata) nilv (m : M W (res A)) : never_fails (under field wrap nilv m).
Proof. intros w e. unfold under, mbind, M_bind. by destruct (m w) as [[] ?]. Qed.
Lemma mapR_never_fails {A B} (f : A → B) (m : M W (res A)) : never_fails m → never_fails (mapR f m).
Proof. intros Hm w e. unfold mapR, bindR, mbind, M_bind. specialize (Hm w). destruct (m w) as [[|e'|] ?]; cbn in *; [done|by destruct (Hm e')|done]. Qed.
Ltac each_never_fails := 
  apply switch_ind; [intros m Hin; repeat (apply list.elem_of_cons in Hin as [[= _ ->]|Hin]; [apply under_never_fails|]); by apply not_elem_of_nil in Hin|].

Lemma execute_never_fails tenantID loaders req : never_fails (execute registry now NewID tenantID loaders req).
Proof.
  unfold execute. case_bool_decide; [done|].
  pose proof (detectOperation_cases (gq_Query req)) as Ho. set_unfold in Ho. destruct Ho as [->|[->|[->|[]]]]; [| |done]; apply mapR_never_fails.
  - unfold executeQuery. each_never_fails. apply under_never_fails.
  - unfold executeMutation. each_never_fails. done.
Qed.

(** A request that is read is answered with status 400 only when it has no text or is a subscription; whatever the
    resolvers say, refusals included, is answered with status 200. *)
Theorem Handler_status req w gqlReq :
  req_Method req = "POST" → decode_request type_error json_first (req_Body req) = Ok gqlReq →
  let '(es, _, panic) := Handler type_error json_first registry now NewID req w in
  panic ≠ None ∨
  statusCode es = (if bool_decide (gq_Query gqlReq = "" ∨ detectOperation (gq_Query gqlReq) = "subscription") then 400 else 200).
Proof.
  intros Hm Hd. unfold Handler. rewrite Hm, (bool_decide_eq_true_2 ("POST" = _)), Hd by done. cbn [negb].
  pose proof (execute_never_fails (TenantIDFrom (req_Ctx req)) true gqlReq w) as Hn. revert Hn.
  unfold execute. case_bool_decide as Hq.
  { intros _. cbn. right. by rewrite bool_decide_eq_true_2 by auto. }
  pose proof (detectOperation_cases (gq_Query gqlReq)) as Ho. set_unfold in Ho. destruct Ho as [Ho|[Ho|[Ho|[]]]]; rewrite Ho.
  3: { intros _. right. cbn. by rewrite bool_decide_eq_true_2 by auto. }
  all: rewrite bool_decide_eq_false_2 by (intros [|]; congruence); unfold mapR, bindR, mbind, M_bind, mret, M_ret.
  - destruct (executeQuery _ _ _ _ w) as [[[data errs]|e|m] w1]; cbn; intros Hn; [by right|by specialize (Hn e)|by left].
  - destruct (executeMutation _ _ _ _ _ w) as [[[data errs]|e|m] w1]; cbn; intros Hn; [by right|by specialize (Hn e)|by left].
Qed.
End answers.

(** Pages are bounded, and say truly whether there are more. *)
Theorem graphql_pages page pageSize total :
  let '(p, ps) := defaultPagination page pageSize in
  1 ≤ p ∧ 1 ≤ ps ≤ 100 ∧
  (0 ≤ total ≤ int64_max - 100 → let info := newPageInfo total p ps in
   (pi_HasNextPage info = true ↔ p * ps < total) ∧ (pi_HasPreviousPage info = true ↔ 1 < p)).
Proof.
  unfold defaultPagination.
  set (p := match page with Some p => _ | None => _ end). set (ps := match pageSize with Some ps => _ | None => _ end).
  assert (Hp : 1 ≤ p) by (subst p; destruct page as [z|]; [destruct (Z.ltb_spec 0 z)|]; lia).
  assert (Hps : 1 ≤ ps ≤ 100) by (subst ps; destruct pageSize as [z|]; [destruct (Z.ltb_spec 0 z); [destruct (Z.ltb_spec 100 z)|]|]; lia).
  split_and!; [lia..|]. intros Ht. unfold newPageInfo. cbn. rewrite !Z.ltb_lt.
  destruct (page_count_spec total ps) as [Hc|Hc]; [lia..| |]; split; [nia|lia|nia|lia].
Qed.

(** ** Examples *)

Definition gq_vars (l : list (string * string)) : obj := list_to_map (map (λ '(k, v), (k, VString v)) l).
Definition get_c1 : graphQLRequest := mkGraphQLRequest "{ connection { name } }" "" (gq_vars [("field", "connection"); ("id", "c1")]).
Definition c1 (tenant : string) : Connection := mkConnection "c1" tenant "main" "crm" "source" RawEmpty "active" 0 0.
Definition two_tenants : world := {["acme" := {["c1" := c1 "acme"]}; "other" := {["c1" := c1 "other"]}]}.

Lemma Load_asks_once_witness :
  Load (λ keys, load_each (connection_Get "acme") keys ∅) "c1" (mkLoader {["c1" := c1 "acme"]} []) ∅ =
    ((Ok (Some (c1 "acme")), mkLoader {["c1" := c1 "acme"]} []), ∅).
Proof.
  refine (proj2 (proj2 (proj2 (Load_asks_once (connection_Get "acme") "c1" newBatchLoader two_tenants (c1 "acme") _ two_tenants _ _))) ∅);
    [reflexivity|vm_compute; reflexivity].
Defined.

Lemma graphql_tenant_isolation_witness :
  confined of_tenant "acme" (execute no_connectors 0 "c1" "acme" true get_c1) ∧
  (execute no_connectors 0 "c1" "acme" true get_c1 two_tenants).1 = Ok (Some [("connection", GConnection (c1 "acme"))], []).
Proof.
  split; [|vm_compute; reflexivity].
  apply (graphql_tenant_isolation of_tenant no_connectors 0 "c1" "acme" true get_c1).
  apply (bool_decide_unpack _). vm_compute. exact I.
Defined.

Lemma query_text_is_ignored_witness :
  execute no_connectors 0 "c1" "acme" true get_c1 = execute no_connectors 0 "c1" "acme" true (mkGraphQLRequest "{ tenants { name } }" "" (gq_Variables get_c1)).
Proof. by apply (query_text_is_ignored no_connectors 0 "c1" "acme" true (gq_Query get_c1) "{ tenants { name } }" "" "" (gq_Variables get_c1)). Defined.

Lemma loaders_hide_errors_witness :
  (executeQuery no_connectors "acme" true (gq_Variables get_c1) ∅ : res outcome_of * world) = (Ok ([("connection", GNil)], []), ∅).
Proof.
  refine (proj1 (loaders_hide_errors no_connectors "acme" (gq_Variables get_c1) "c1" (ErrSentinel ErrNotFound) (∅ : world) ∅ _ _ _)); reflexivity.
Defined.

Definition gq_first (s : string) : RawMessage := RawDoc (JObj [("query", JStr "{ sync { name } }"); ("variables", JObj [("field", JStr "sync")])]).
Definition gq_request : Request := mkRequest "POST" "/graphql" "" ∅ "10.0.0.1" "{}" (mkCtx "" "acme" "" []).
Lemma Handler_status_witness :
  let '(es, _, panic) := Handler toy_type_error gq_first no_connectors 0 "c1" gq_request ∅ in panic ≠ None ∨ statusCode es = 200.
Proof.
  refine (Handler_status toy_type_error gq_first no_connectors 0 "c1" gq_request ∅ (mkGraphQLRequest "{ sync { name } }" "" (gq_vars [("field", "sync")])) _ _);
    vm_compute; reflexivity.
Defined.
