(* ===== verification/Subscriptions.v ===== *)
(** * Subscriptions: the hub of [internal/api/graphql/resolver.go]

    Channels of 16 events, publishers that never wait, and the goroutine that removes and closes a channel when its
    context is done.  A publisher holds the lock as a reader and sends to one channel after the other; subscribing and
    removing hold it as a writer; receiving and closing need no lock.  A send on a closed channel is a panic. *)

From S2P Require Import Prelude GoStrings.

(** [SyncStatusEvent], [SyncRunProgressEvent]. *)
Record SyncStatusEvent := mkStatusEvent { ev_SyncID : string; ev_PreviousStatus : string; ev_NewStatus : string; ev_Timestamp : Z }.
Record SyncRunProgressEvent := mkProgressEvent {
  ev_SyncRunID : string; ev_Status : string; ev_RecordsRead : Z; ev_RecordsWritten : Z; ev_BytesRead : Z; ev_BytesWritten : Z; ev_At : Z
}.

(** The goroutine of a subscription: it waits, its context is done, the channel is removed, it is closed. *)
Inductive stage := Waiting | Done | Removed | Closed.
#[export] Instance stage_eq_dec : EqDecision stage.
Proof. solve_decision. Defined.

Section hub.
Context {E : Type} (event_id : E → string) (wildcard : bool).

(** A subscription: its key, its goroutine, the buffer of its channel. *)
Record listener := mkListener { l_key : string; l_stage : stage; l_buffer : list E }.

(** The map of a hub, the channels in the order of their creation, and the publishers that hold the lock with the channels each
    has still to send to. *)
Record hub := mkHub { subs : gmap string (list nat); listeners : list listener; publishers : list (E * list nat) }.
Definition hub_init : hub := mkHub ∅ [] [].

Definition subscribed (k : string) (h : hub) : list nat := default [] (subs h !! k).
Definition capacity : nat := 16.

Definition Subscribe (key : string) (h : hub) : hub :=
  mkHub (<[key := subscribed key h ++ [length (listeners h)]]> (subs h)) (listeners h ++ [mkListener key Waiting []]) (publishers h).

(** [append(subs[:i], subs[i+1:]...)] for the first [i] that holds the channel. *)
Fixpoint remove_channel (ch : nat) (l : list nat) : list nat :=
  match l with [] => [] | c :: l => if decide (c = ch) then l else c :: remove_channel ch l end.
Definition set_stage (s : stage) (l : listener) : listener := mkListener (l_key l) s (l_buffer l).
Definition Remove (ch : nat) (key : string) (h : hub) : hub :=
  mkHub (match subs h !! key with Some l => <[key := remove_channel ch l]> (subs h) | None => subs h end)
    (alter (set_stage Removed) ch (listeners h)) (publishers h).

(** [PublishSyncStatus] and [PublishSyncRunProgress]: the channels of the event's key, and for the first those of every event. *)
Definition targets (e : E) (h : hub) : list nat := subscribed (event_id e) h ++ (if wildcard then subscribed "*" h else []).

(** A send that does not wait: the event is dropped when the buffer is full. *)
Definition offer (e : E) (l : listener) : listener :=
  if decide (length (l_buffer l) < capacity)%nat then mkListener (l_key l) (l_stage l) (l_buffer l ++ [e]) else l.

(** What happens: a call of Subscribe; a call of Publish takes the lock, tries a channel, gives the lock back; a subscriber
    receives an event; the context of a subscription ends, its channel is removed, its channel is closed. *)
Inductive label :=
| LSubscribe (key : string) | LPublish (e : E) | LSend (i : nat) (e : E) (ch : nat) | LPublished (i : nat) | LReceive (ch : nat) (e : E)
| LDone (ch : nat) | LRemove (ch : nat) | LClose (ch : nat).

(** One step of the program; [None] is a panic. *)
Inductive step : hub → label → option hub → Prop :=
| step_subscribe key h : publishers h = [] → step h (LSubscribe key) (Some (Subscribe key h))
| step_publish e h : step h (LPublish e) (Some (mkHub (subs h) (listeners h) (publishers h ++ [(e, targets e h)])))
| step_send h i e ch cs l :
    publishers h !! i = Some (e, ch :: cs) → listeners h !! ch = Some l → l_stage l ≠ Closed →
    step h (LSend i e ch) (Some (mkHub (subs h) (<[ch := offer e l]> (listeners h)) (<[i := (e, cs)]> (publishers h))))
| step_send_closed h i e ch cs l :
    publishers h !! i = Some (e, ch :: cs) → listeners h !! ch = Some l → l_stage l = Closed → step h (LSend i e ch) None
| step_published h i e :
    publishers h !! i = Some (e, []) → step h (LPublished i) (Some (mkHub (subs h) (listeners h) (delete i (publishers h))))
| step_receive h ch l e rest : listeners h !! ch = Some l → l_buffer l = e :: rest →
    step h (LReceive ch e) (Some (mkHub (subs h) (<[ch := mkListener (l_key l) (l_stage l) rest]> (listeners h)) (publishers h)))
| step_done h ch l : listeners h !! ch = Some l → l_stage l = Waiting →
    step h (LDone ch) (Some (mkHub (subs h) (<[ch := set_stage Done l]> (listeners h)) (publishers h)))
| step_remove h ch l : listeners h !! ch = Some l → l_stage l = Done → publishers h = [] →
    step h (LRemove ch) (Some (Remove ch (l_key l) h))
| step_close h ch l : listeners h !! ch = Some l → l_stage l = Removed →
    step h (LClose ch) (Some (mkHub (subs h) (<[ch := set_stage Closed l]> (listeners h)) (publishers h))).

(** [runs ls h]: what happened, the latest first, and the hub afterwards. *)
Inductive runs : list label → hub → Prop :=
| runs_init : runs [] hub_init
| runs_step ls h lb h' : runs ls h → step h lb (Some h') → runs (lb :: ls) h'.
Definition reachable (h : hub) : Prop := ∃ ls, runs ls h.

(** ** What a subscription is promised

    The specification looks at what happened only.  Of a subscription it keeps the events that are due to it, those published
    while it was subscribed whose key it has, or for whatever key when it is for every event; those a send was tried with,
    in order; those of them that were accepted and those that were not, which found 16 events waiting; those that wait; and
    those it received. *)
Record view := mkView {
  v_key : string; v_live : bool; v_due : list E; v_sent : list E; v_accepted : list E; v_missed : list E; v_queue : list E; v_got : list E
}.

Definition owed (e : E) (key : string) : list E :=
  (if bool_decide (key = event_id e) then [e] else []) ++ (if wildcard && bool_decide (key = "*") then [e] else []).

Definition view_publish (e : E) (v : view) : view :=
  mkView (v_key v) (v_live v) (v_due v ++ if v_live v then owed e (v_key v) else []) (v_sent v) (v_accepted v) (v_missed v) (v_queue v) (v_got v).
Definition view_send (e : E) (v : view) : view :=
  if bool_decide (length (v_queue v) < 16)%nat
  then mkView (v_key v) (v_live v) (v_due v) (v_sent v ++ [e]) (v_accepted v ++ [e]) (v_missed v) (v_queue v ++ [e]) (v_got v)
  else mkView (v_key v) (v_live v) (v_due v) (v_sent v ++ [e]) (v_accepted v) (v_missed v ++ [e]) (v_queue v) (v_got v).
Definition view_receive (e : E) (v : view) : view :=
  mkView (v_key v) (v_live v) (v_due v) (v_sent v) (v_accepted v) (v_missed v) (tail (v_queue v)) (v_got v ++ [e]).
Definition view_removed (v : view) : view :=
  mkView (v_key v) false (v_due v) (v_sent v) (v_accepted v) (v_missed v) (v_queue v) (v_got v).

(** The subscriptions in the order of their creation. *)
Fixpoint views (ls : list label) : list view :=
  match ls with
  | [] => []
  | LSubscribe key :: ls => views ls ++ [mkView key true [] [] [] [] [] []]
  | LPublish e :: ls => map (view_publish e) (views ls)
  | LSend _ e ch :: ls => alter (view_send e) ch (views ls)
  | LReceive ch e :: ls => alter (view_receive e) ch (views ls)
  | LRemove ch :: ls => alter view_removed ch (views ls)
  | _ :: ls => views ls
  end.

(** The sends to a channel that the publishers have still to try. *)
Definition to_channel (ch : nat) (p : E * list nat) : list E := p.2 ≫= λ c, if decide (c = ch) then [p.1] else [].
Definition pending (ch : nat) (h : hub) : list E := publishers h ≫= to_channel ch.

(** ** The invariant *)

Definition open (l : listener) : Prop := l_stage l = Waiting ∨ l_stage l = Done.
#[local] Instance open_dec l : Decision (open l).
Proof. unfold open. apply _. Defined.

(** A subscription as the specification has it. *)
Record agrees (pend : list E) (l : listener) (v : view) : Prop := {
  ag_key : v_key v = l_key l;
  ag_live : v_live v = bool_decide (open l);
  ag_queue : v_queue v = l_buffer l;
  ag_bound : (length (v_queue v) ≤ 16)%nat;
  ag_got : v_got v ++ v_queue v = v_accepted v;
  ag_order : v_accepted v `sublist_of` v_sent v;
  ag_sent : v_sent v ≡ₚ v_accepted v ++ v_missed v;
  ag_due : v_due v ≡ₚ v_sent v ++ pend
}.

Record hub_ok (ls : list label) (h : hub) : Prop := {
  ok_subs : ∀ k ch, ch ∈ subscribed k h ↔ ∃ l, listeners h !! ch = Some l ∧ l_key l = k ∧ open l;
  ok_nodup : ∀ k, NoDup (subscribed k h);
  ok_pubs : ∀ e cs ch, (e, cs) ∈ publishers h → ch ∈ cs → ∃ l, listeners h !! ch = Some l ∧ open l;
  ok_length : length (views ls) = length (listeners h);
  ok_views : ∀ ch l v, listeners h !! ch = Some l → views ls !! ch = Some v → agrees (pending ch h) l v
}.

(** A step that changes the channel [ch] to [l'] and its view by [f]. *)
Lemma change_ok ls lb h ch l l' pubs f :
  hub_ok ls h → listeners h !! ch = Some l → views (lb :: ls) = alter f ch (views ls) →
  l_key l' = l_key l → (open l ↔ open l') →
  (∀ v, agrees (pending ch h) l v → agrees (pubs ≫= to_channel ch) l' (f v)) →
  (∀ c, c ≠ ch → pubs ≫= to_channel c = pending c h) →
  (∀ e cs c, (e, cs) ∈ pubs → c ∈ cs → ∃ cs', (e, cs') ∈ publishers h ∧ c ∈ cs') →
  hub_ok (lb :: ls) (mkHub (subs h) (<[ch := l']> (listeners h)) pubs).
Proof.
  intros [Hs Hn Hp Hlen Hv] Hch Hviews Hkey Hopen Hag Hother Hpubs. pose proof (lookup_lt_Some _ _ _ Hch) as Hlt.
  assert (Hget : ∀ c l0, listeners h !! c = Some l0 → ∃ l1, (<[ch := l']> (listeners h)) !! c = Some l1 ∧ l_key l1 = l_key l0 ∧ (open l0 ↔ open l1)).
  { intros c l0 Hc. destruct (decide (c = ch)) as [->|Hne].
    - exists l'. rewrite list_lookup_insert_eq by done. rewrite Hch in Hc. by injection Hc as <-.
    - exists l0. by rewrite list_lookup_insert_ne by done. }
  split; cbn [subs listeners publishers].
  - intros k c. change (subscribed k _) with (subscribed k h). rewrite Hs. split.
    + intros (l0 & H0 & Hk & Ho). destruct (Hget c l0 H0) as (l1 & ? & ? & ?). exists l1. split_and!; [done|congruence|tauto].
    + intros (l1 & H1 & Hk & Ho). destruct (lookup_lt_is_Some_2 (listeners h) c) as [l0 H0].
      { apply lookup_lt_Some in H1. by rewrite length_insert in H1. }
      destruct (Hget c l0 H0) as (l2 & H2 & Hk2 & Ho2). exists l0. simplify_eq. split_and!; [done..|tauto].
  - exact Hn.
  - intros e cs c Hin Hc. destruct (Hpubs e cs c Hin Hc) as (cs' & Hin' & Hc'). destruct (Hp e cs' c Hin' Hc') as (l0 & H0 & Ho).
    destruct (Hget c l0 H0) as (l1 & ? & _ & ?). exists l1. tauto.
  - rewrite Hviews, length_alter, length_insert. done.
  - rewrite Hviews. intros c l0 v0 H0 Hv0. unfold pending. cbn [publishers]. destruct (decide (c = ch)) as [->|Hne].
    + rewrite list_lookup_insert_eq in H0 by done. injection H0 as <-. rewrite list_lookup_alter_eq in Hv0.
      apply fmap_Some in Hv0 as (v & Hv1 & ->). apply Hag. by apply Hv.
    + rewrite list_lookup_insert_ne in H0 by done. rewrite list_lookup_alter_ne in Hv0 by done. rewrite Hother by done. by apply Hv.
Qed.

Lemma set_stage_agrees pend s l v : agrees pend l v → (open l ↔ open (set_stage s l)) → agrees pend (set_stage s l) v.
Proof. intros [] Ho. split; try done. by rewrite <- (bool_decide_ext _ _ Ho). Qed.

Lemma offer_agrees pend pend' e l v : agrees pend l v → pend ≡ₚ e :: pend' → agrees pend' (offer e l) (view_send e v).
Proof.
  intros [Hk Hl Hq Hb Hg Ho Hs Hd] Hp. unfold offer, view_send, capacity. rewrite <- Hq.
  assert (Hdue : v_due v ≡ₚ (v_sent v ++ [e]) ++ pend') by (by rewrite Hd, Hp, <- (assoc_L (++))).
  destruct (decide (length (v_queue v) < 16)%nat) as [Hlt|Hge];
    [rewrite (bool_decide_true _ Hlt)|rewrite (bool_decide_false _ Hge)];
    split; cbn [v_key v_live v_due v_sent v_accepted v_missed v_queue v_got l_key l_buffer l_stage]; try done.
  - rewrite length_app. cbn. lia.
  - by rewrite (assoc_L (++)), Hg.
  - by apply sublist_app.
  - rewrite Hs. by rewrite <- !(assoc_L (++)), (Permutation_app_comm (v_missed v)).
  - by apply sublist_inserts_r.
  - rewrite Hs. by rewrite <- (assoc_L (++)).
Qed.

Lemma receive_agrees pend e rest l v : agrees pend l v → l_buffer l = e :: rest →
  agrees pend (mkListener (l_key l) (l_stage l) rest) (view_receive e v).
Proof.
  intros [Hk Hl Hq Hb Hg Ho Hs Hd] He. rewrite He in Hq. unfold view_receive.
  split; cbn [v_key v_live v_due v_sent v_accepted v_missed v_queue v_got l_key l_buffer l_stage]; rewrite ?Hq in *; try done.
  - cbn in *. lia.
  - by rewrite <- (assoc_L (++)).
Qed.

(** *** The channels of a key *)

Lemma elem_of_remove_channel ch c l : NoDup l → c ∈ remove_channel ch l ↔ c ∈ l ∧ c ≠ ch.
Proof.
  induction 1 as [|x l Hx Hnd IH]; cbn; [set_solver|]. case_decide as Hd.
  - subst x. rewrite elem_of_cons. split; [|naive_solver]. intros Hc. split; [by right|]. by intros ->.
  - rewrite !elem_of_cons, IH. split; [intros [->|?]; naive_solver|naive_solver].
Qed.
Lemma remove_channel_nodup ch l : NoDup l → NoDup (remove_channel ch l).
Proof.
  induction 1 as [|x l Hx Hnd IH]; cbn; [constructor|]. case_decide as Hd; [done|].
  constructor; [|done]. rewrite elem_of_remove_channel by done. tauto.
Qed.

Lemma subscribed_insert k k' l h ls ps : subscribed k (mkHub (<[k' := l]> (subs h)) ls ps) = if decide (k = k') then l else subscribed k h.
Proof. unfold subscribed. cbn. case_decide; [subst; by rewrite lookup_insert_eq|by rewrite lookup_insert_ne]. Qed.

Lemma to_channel_nodup ch e l : NoDup l → to_channel ch (e, l) = if bool_decide (ch ∈ l) then [e] else [].
Proof.
  clear event_id wildcard. unfold to_channel. cbn [fst snd]. induction 1 as [|x l Hx Hnd IH]; [done|]. rewrite bind_cons, IH. cbn beta.
  destruct (decide (x = ch)) as [->|Hd].
  - rewrite (bool_decide_false (ch ∈ l)), (bool_decide_true (ch ∈ ch :: l)); [done|by left|done].
  - cbn [app]. assert (ch ∈ x :: l ↔ ch ∈ l) as Hiff by (rewrite elem_of_cons; naive_solver).
    by rewrite (bool_decide_ext _ _ Hiff).
Qed.

Lemma to_channel_app ch e l k : to_channel ch (e, l ++ k) = to_channel ch (e, l) ++ to_channel ch (e, k).
Proof. unfold to_channel. cbn. by rewrite bind_app. Qed.

(** What a publisher has to send to a channel is what is due to its subscription. *)
Lemma targets_owed ls h e ch l : hub_ok ls h → listeners h !! ch = Some l →
  to_channel ch (e, targets e h) = if bool_decide (open l) then owed e (l_key l) else [].
Proof.
  intros [Hs Hn _ _ _] Hch. unfold targets. rewrite to_channel_app, to_channel_nodup by done.
  assert (Hin : ∀ k, bool_decide (ch ∈ subscribed k h) = bool_decide (open l) && bool_decide (l_key l = k)).
  { intros k. rewrite <- bool_decide_and. apply bool_decide_ext. rewrite Hs. naive_solver. }
  assert (Hw : to_channel ch (e, if wildcard then subscribed "*" h else []) =
               if wildcard && bool_decide (ch ∈ subscribed "*" h) then [e] else []).
  { destruct wildcard; [by rewrite to_channel_nodup|done]. }
  rewrite Hw, !Hin. unfold owed. destruct (bool_decide (open l)); [done|]. cbn [andb]. by rewrite andb_false_r.
Qed.

Lemma pending_app ch ps ks : (ps ++ ks) ≫= to_channel ch = (ps ≫= to_channel ch) ++ (ks ≫= to_channel ch).
Proof. by rewrite bind_app. Qed.

(** Replacing the publisher [i]. *)
Lemma pending_insert ch i p p' (ps : list (E * list nat)) : ps !! i = Some p →
  ∃ before behind, ps ≫= to_channel ch = before ++ to_channel ch p ++ behind ∧
    <[i := p']> ps ≫= to_channel ch = before ++ to_channel ch p' ++ behind.
Proof.
  intros Hi. exists (take i ps ≫= to_channel ch), (drop (S i) ps ≫= to_channel ch). split.
  - rewrite <- (take_drop_middle _ _ _ Hi) at 1. by rewrite bind_app, bind_cons.
  - rewrite insert_take_drop by (by eapply lookup_lt_Some). by rewrite bind_app, bind_cons.
Qed.

Lemma pending_delete ch i e (ps : list (E * list nat)) : ps !! i = Some (e, []) →
  delete i ps ≫= to_channel ch = ps ≫= to_channel ch.
Proof.
  intros Hi. rewrite delete_take_drop. rewrite <- (take_drop_middle _ _ _ Hi) at 3. by rewrite !bind_app, bind_cons.
Qed.

(** *** The steps *)

Lemma subscribe_ok ls key h : hub_ok ls h → publishers h = [] → hub_ok (LSubscribe key :: ls) (Subscribe key h).
Proof.
  intros [Hs Hn Hp Hlen Hv] He. unfold Subscribe.
  assert (Hlt : ∀ k c, c ∈ subscribed k h → (c < length (listeners h))%nat).
  { intros k c Hc. apply Hs in Hc as (l & Hlk & _). by apply lookup_lt_Some in Hlk. }
  split; cbn [listeners publishers views].
  - intros k c. rewrite subscribed_insert.
    assert (Hnew : (∃ l, (listeners h ++ [mkListener key Waiting []]) !! c = Some l ∧ l_key l = k ∧ open l) ↔
      (∃ l, listeners h !! c = Some l ∧ l_key l = k ∧ open l) ∨ c = length (listeners h) ∧ k = key).
    { split.
      - intros (l & Hl & Hk & Ho). apply lookup_app_Some in Hl as [Hl|[Hle Hl]]; [left; by exists l|right].
        apply list_lookup_singleton_Some in Hl as [Hz <-]. split; [lia|done].
      - intros [(l & Hl & ?)|[-> ->]]; [exists l; split; [by apply lookup_app_l_Some|done]|].
        eexists. rewrite list_lookup_middle by done. split_and!; [done..|by left]. }
    rewrite Hnew, <- Hs. case_decide; [subst k; rewrite elem_of_app, list_elem_of_singleton; tauto|naive_solver].
  - intros k. rewrite subscribed_insert. case_decide; [subst|done]. apply list.NoDup_app. split_and!; [done| |apply NoDup_singleton].
    intros c Hc ->%list_elem_of_singleton. apply Hlt in Hc. lia.
  - rewrite He. intros e cs c Hin. by apply not_elem_of_nil in Hin.
  - by rewrite !length_app, Hlen.
  - unfold pending. cbn [publishers]. rewrite He. cbn. intros c l v Hl Hvw. apply lookup_app_Some in Hl as [Hl|[Hle Hl]].
    + rewrite lookup_app_l in Hvw by (rewrite Hlen; by eapply lookup_lt_Some).
      pose proof (Hv c l v Hl Hvw) as Ha. unfold pending in Ha. by rewrite He in Ha.
    + apply list_lookup_singleton_Some in Hl as [Hz <-]. rewrite lookup_app_r in Hvw by lia.
      apply list_lookup_singleton_Some in Hvw as [_ <-]. split; cbn; try done. lia.
Qed.

Lemma remove_ok ls ch l h : hub_ok ls h → listeners h !! ch = Some l → l_stage l = Done → publishers h = [] →
  hub_ok (LRemove ch :: ls) (Remove ch (l_key l) h).
Proof.
  intros [Hs Hn Hp Hlen Hv] Hch Hst He. unfold Remove.
  assert (Hin : ch ∈ subscribed (l_key l) h) by (apply Hs; exists l; split_and!; [done..|by right]).
  destruct (subs h !! l_key l) as [lk|] eqn:Hlk; [|exfalso; unfold subscribed in Hin; rewrite Hlk in Hin; by apply not_elem_of_nil in Hin].
  pose proof (Hn (l_key l)) as Hnd. assert (Hsub : subscribed (l_key l) h = lk) by (unfold subscribed; by rewrite Hlk).
  split; cbn [listeners publishers views].
  - intros k c. rewrite subscribed_insert.
    assert (Hnew : (∃ l0, alter (set_stage Removed) ch (listeners h) !! c = Some l0 ∧ l_key l0 = k ∧ open l0) ↔
      (∃ l0, listeners h !! c = Some l0 ∧ l_key l0 = k ∧ open l0) ∧ c ≠ ch).
    { destruct (decide (c = ch)) as [->|Hne]; [|rewrite list_lookup_alter_ne by done; tauto].
      rewrite list_lookup_alter_eq, Hch. split; [|tauto]. intros (l0 & [= <-] & _ & [Ho|Ho]); discriminate Ho. }
    rewrite Hnew, <- Hs. case_decide as Hk; [subst k; rewrite <- Hsub; apply elem_of_remove_channel; done|].
    split; [|tauto]. intros Hc. split; [done|]. intros ->. apply Hs in Hc as (l0 & H0 & Hk0 & _). simplify_eq.
  - intros k. rewrite subscribed_insert. case_decide as Hk; [|apply Hn]. subst k. rewrite <- Hsub. by apply remove_channel_nodup.
  - rewrite He. intros e cs c Hc. by apply not_elem_of_nil in Hc.
  - by rewrite !length_alter.
  - unfold pending. cbn [publishers]. intros c l0 v0 H0 Hv0. destruct (decide (c = ch)) as [->|Hne].
    + rewrite list_lookup_alter_eq in H0. rewrite list_lookup_alter_eq in Hv0. rewrite Hch in H0. injection H0 as <-. apply fmap_Some in Hv0 as (v & Hv1 & ->).
      destruct (Hv ch l v Hch Hv1). by split.
    + rewrite list_lookup_alter_ne in H0 by done. rewrite list_lookup_alter_ne in Hv0 by done. by apply Hv.
Qed.

Lemma publish_ok ls e h : hub_ok ls h → hub_ok (LPublish e :: ls) (mkHub (subs h) (listeners h) (publishers h ++ [(e, targets e h)])).
Proof.
  intros Hok. pose proof Hok as [Hs Hn Hp Hlen Hv]. split; cbn [listeners publishers views]; [done..| | |].
  - intros e0 cs ch [H0|[= -> ->]%list_elem_of_singleton]%list.elem_of_app Hc; [eauto|].
    unfold targets in Hc. apply list.elem_of_app in Hc as [Hc|Hc].
    + apply Hs in Hc as (l & ? & ? & ?). by exists l.
    + destruct wildcard; [|by apply not_elem_of_nil in Hc]. apply Hs in Hc as (l & ? & ? & ?). by exists l.
  - by rewrite length_map.
  - intros ch l v0 Hl Hv0. apply list_lookup_fmap_Some in Hv0 as (v & -> & Hv1). destruct (Hv ch l v Hl Hv1) as [Hk Hlv Hq Hb Hg Ho Hse Hd].
    split; try done. unfold pending. cbn [publishers]. rewrite pending_app. cbn [mbind list_bind]. rewrite app_nil_r.
    rewrite (targets_owed ls h e ch l Hok Hl). cbn [v_due v_sent view_publish]. rewrite Hlv, Hk, Hd. by rewrite <- (assoc_L (++)).
Qed.

Lemma send_ok ls h i e ch cs l : hub_ok ls h → publishers h !! i = Some (e, ch :: cs) → listeners h !! ch = Some l →
  hub_ok (LSend i e ch :: ls) (mkHub (subs h) (<[ch := offer e l]> (listeners h)) (<[i := (e, cs)]> (publishers h))).
Proof.
  intros Hok Hi Hl.
  assert (Htake : ∀ c, to_channel c (e, ch :: cs) = (if decide (ch = c) then [e] else []) ++ to_channel c (e, cs)) by done.
  eapply (change_ok ls _ h ch l (offer e l) _ (view_send e)); [done..|reflexivity| | | | |].
  - unfold offer. by case_decide.
  - unfold offer, open. by case_decide.
  - intros v Ha. eapply offer_agrees; [exact Ha|]. unfold pending.
    destruct (pending_insert ch i (e, ch :: cs) (e, cs) _ Hi) as (bf & bh & -> & ->). rewrite Htake, decide_True by done.
    cbn [app]. by rewrite <- Permutation_middle.
  - intros c Hne. unfold pending. destruct (pending_insert c i (e, ch :: cs) (e, cs) _ Hi) as (bf & bh & -> & ->).
    by rewrite Htake, decide_False by done.
  - intros e0 cs0 c Hc Hcs. apply list_elem_of_lookup_1 in Hc as [j Hj]. apply list_lookup_insert_Some in Hj as [(_ & [= <- <-] & _)|[_ Hj]].
    + exists (ch :: cs). split; [by eapply list_elem_of_lookup_2|by right].
    + exists cs0. split; [by eapply list_elem_of_lookup_2|done].
Qed.

(** A step that changes the stage of a channel within or outside of the open ones, and no view. *)
Lemma stage_ok ls lb h ch l s : hub_ok ls h → listeners h !! ch = Some l → views (lb :: ls) = views ls →
  (open l ↔ open (set_stage s l)) → hub_ok (lb :: ls) (mkHub (subs h) (<[ch := set_stage s l]> (listeners h)) (publishers h)).
Proof.
  intros Hok Hl Hvw Ho. eapply (change_ok ls lb h ch l _ _ id); [done|exact Hl| |done|done| |done|eauto].
  - rewrite Hvw. symmetry. by apply list_alter_id.
  - intros v Ha. by apply set_stage_agrees.
Qed.

Lemma hub_step_ok ls h lb h' : hub_ok ls h → step h lb (Some h') → hub_ok (lb :: ls) h'.
Proof.
  intros Hok Hstep. inversion Hstep; subst; clear Hstep.
  - by apply subscribe_ok.
  - by apply publish_ok.
  - by eapply send_ok.
  - pose proof Hok as [Hs Hn Hp Hlen Hv]. split; cbn [listeners publishers views]; [done..| |done|].
    + intros e0 cs ch Hd Hc. eapply Hp; [|done]. apply list_elem_of_lookup_1 in Hd as [j Hj]. rewrite list_lookup_delete in Hj.
      case_decide; by eapply list_elem_of_lookup_2.
    + intros ch l v Hl Hvw. unfold pending. cbn [publishers]. erewrite pending_delete by done. by apply Hv.
  - eapply change_ok; [done..|reflexivity|done|done| |done|eauto]. intros v Ha. by apply receive_agrees.
  - apply stage_ok; [done..|]. split; intros _; [by right|by left].
  - by apply remove_ok.
  - apply stage_ok; [done..|]. split; intros [Ho|Ho]; cbn in Ho; congruence.
Qed.

Lemma runs_ok ls h : runs ls h → hub_ok ls h.
Proof.
  induction 1; [|by eapply hub_step_ok]. split; cbn.
  - intros k ch. split; [intros Hc; by apply not_elem_of_nil in Hc|by intros (l & ? & _)].
  - intros k. constructor.
  - intros e cs ch Hc. by apply not_elem_of_nil in Hc.
  - done.
  - done.
Qed.

(** ** What the hub promises *)

(** No event is ever sent on a closed channel: a channel that is removed is in no subscription and in the list of no publisher. *)
Theorem publish_never_panics h :
  reachable h → (∀ lb, ¬ step h lb None) ∧
  ∀ ch l, listeners h !! ch = Some l → l_stage l = Removed ∨ l_stage l = Closed →
    (∀ k, ch ∉ subscribed k h) ∧ (∀ e cs, (e, cs) ∈ publishers h → ch ∉ cs).
Proof.
  intros [ls Hr]. apply runs_ok in Hr as [Hs Hn Hp _ _]. split.
  - intros lb. inversion 1; subst. match goal with H : publishers _ !! _ = _ |- _ => apply list_elem_of_lookup_2 in H; rename H into Hpub end.
    destruct (Hp _ _ ch Hpub) as (l0 & Hl0 & [Ho|Ho]); [by left|..]; simplify_eq; congruence.
  - intros ch l Hch Hst. split.
    + intros k Hc. apply Hs in Hc as (l0 & Hl0 & _ & Ho). simplify_eq. destruct Ho, Hst; congruence.
    + intros e cs Hin Hc. destruct (Hp e cs ch Hin Hc) as (l0 & Hl0 & Ho). simplify_eq. destruct Ho, Hst; congruence.
Qed.

(** C34: A subscriber gets what it is due, in order.  Every event published while it is subscribed, whose key it has or when it
    is for every event, is tried on its channel, by the publishers that still hold the lock or already; the channel holds
    and gives out, first in first out, exactly the events that found fewer than 16 waiting when they were tried, in that
    order, and never more than 16; only those that found 16 waiting are missed. *)
Theorem subscriber_gets_in_order ls h ch l :
  runs ls h → listeners h !! ch = Some l → ∃ v, views ls !! ch = Some v ∧ v_key v = l_key l ∧
    v_due v ≡ₚ v_sent v ++ pending ch h ∧ v_sent v ≡ₚ v_accepted v ++ v_missed v ∧ v_accepted v `sublist_of` v_sent v ∧
    l_buffer l = v_queue v ∧ v_got v ++ l_buffer l = v_accepted v ∧ (length (l_buffer l) ≤ 16)%nat.
Proof.
  intros Hr Hl. apply runs_ok in Hr as [_ _ _ Hlen Hv].
  destruct (lookup_lt_is_Some_2 (views ls) ch) as [v Hvw]; [rewrite Hlen; by eapply lookup_lt_Some|].
  destruct (Hv ch l v Hl Hvw) as [Hk _ Hq Hb Hg Ho Hs Hd]. exists v. rewrite <- Hq. by split_and!.
Qed.

(** The steps of publishers alone. *)
Definition of_publisher (lb : label) : Prop := match lb with LSend _ _ _ | LPublished _ => True | _ => False end.
Inductive publishing : hub → hub → Prop :=
| publishing_refl h : publishing h h
| publishing_step h lb h1 h2 : step h lb (Some h1) → of_publisher lb → publishing h1 h2 → publishing h h2.

Definition work (h : hub) : nat := sum_list_with (λ p, S (length p.2)) (publishers h).

(** Publishing waits for nobody: whatever the subscribers do, the publishers that hold the lock finish by themselves and leave it. *)
Theorem publishing_finishes h : reachable h → ∃ h', publishing h h' ∧ reachable h' ∧ publishers h' = [].
Proof.
  remember (work h) as n eqn:Hn. revert h Hn. induction (lt_wf n) as [n _ IH]. intros h -> [ls Hr].
  destruct (publishers h) as [|[e cs] ps] eqn:Hp; [exists h; split_and!; [constructor|by exists ls|done]|].
  assert (H0 : publishers h !! 0%nat = Some (e, cs)) by by rewrite Hp.
  assert (∃ lb h1, step h lb (Some h1) ∧ of_publisher lb ∧ (work h1 < work h)%nat) as (lb & h1 & Hs & Hof & Hw).
  { destruct cs as [|ch cs].
    - eexists _, _. split_and!; [by eapply step_published|done|]. unfold work. cbn. rewrite Hp. cbn. lia.
    - destruct (runs_ok ls h Hr) as [_ _ Hpub _ _]. destruct (Hpub e (ch :: cs) ch) as (l & Hl & Ho); [by rewrite Hp; left|by left|].
      eexists _, _. split_and!; [eapply step_send; [done..|by destruct Ho; congruence]|done|].
      unfold work. cbn. rewrite Hp. cbn. lia. }
  destruct (IH (work h1) Hw h1 eq_refl) as (h' & Hpb & Hr' & Hd); [exists (lb :: ls); by econstructor|].
  exists h'. split_and!; [by eapply publishing_step|done..].
Qed.
End hub.

(** ** The two hubs of a resolver *)

Abbreviation status_hub := (hub (E := SyncStatusEvent)).
Abbreviation progress_hub := (hub (E := SyncRunProgressEvent)).
Definition SubscribeSyncStatus (syncID : option string) (h : status_hub) : status_hub := Subscribe (default "*" syncID) h.
Definition SubscribeSyncRunProgress (syncRunID : string) (h : progress_hub) : progress_hub := Subscribe syncRunID h.
Definition status_step : status_hub → label → option status_hub → Prop := step ev_SyncID true.
Definition progress_step : progress_hub → label → option progress_hub → Prop := step ev_SyncRunID false.

(** ** Examples *)

Definition started : SyncStatusEvent := mkStatusEvent "s1" "pending" "running" 0.
Definition one_waiting : status_hub := mkHub {["*" := [0%nat]]} [mkListener "*" Waiting []] [(started, [0%nat])].
Definition one_waiting_run : list (label (E := SyncStatusEvent)) := [LPublish started; LSubscribe "*"].

Lemma one_waiting_runs : runs ev_SyncID true one_waiting_run one_waiting.
Proof.
  eapply runs_step; [eapply runs_step; [apply runs_init|by apply (step_subscribe _ _ "*")]|].
  apply (step_publish ev_SyncID true started).
Defined.

Definition delivered : status_hub := mkHub {["*" := [0%nat]]} [mkListener "*" Waiting [started]] [(started, [])].
Definition delivered_run : list (label (E := SyncStatusEvent)) := LSend 0 started 0 :: one_waiting_run.
Lemma delivered_runs : runs ev_SyncID true delivered_run delivered.
Proof.
  eapply runs_step; [exact one_waiting_runs|].
  by apply (step_send ev_SyncID true one_waiting 0 started 0 [] (mkListener "*" Waiting [])).
Defined.

Lemma publish_never_panics_witness : ¬ step ev_SyncID true delivered (LSend 0 started 0) None.
Proof. exact (proj1 (publish_never_panics ev_SyncID true delivered (ex_intro _ _ delivered_runs)) (LSend 0 started 0)). Defined.

(** The event is due, sent and waits. *)
Lemma subscriber_gets_in_order_witness :
  ∃ v, views ev_SyncID true delivered_run !! 0%nat = Some v ∧ v_due v = [started] ∧ v_sent v = [started] ∧
    v_got v ++ [started] = v_accepted v.
Proof.
  destruct (subscriber_gets_in_order ev_SyncID true delivered_run delivered 0 (mkListener "*" Waiting [started]) delivered_runs eq_refl)
    as (v & Hv & _ & _ & _ & _ & _ & Hg & _).
  exists v. split; [exact Hv|]. vm_compute in Hv. injection Hv as <-. split; [reflexivity|]. split; [reflexivity|exact Hg].
Defined.

Lemma publishing_finishes_witness :
  ∃ h', publishing ev_SyncID true one_waiting h' ∧ reachable ev_SyncID true h' ∧ publishers h' = [].
Proof. exact (publishing_finishes ev_SyncID true one_waiting (ex_intro _ _ one_waiting_runs)). Defined.
