(* ===== verification/McpWorker.v ===== *)
(** * The tool worker: [internal/worker/mcp/worker.go]

    Permission, rate limit, execution.  The rate limit keeps the times of the calls of an agent within the last minute.
    Its entries are objects that a call holds a pointer to between looking one up and using it, and that the cleanup
    removes from the map: pointers are positions in [cells].  A critical section is one function. *)

From S2P Require Import Prelude GoStrings Errors Value Protocol Http RestApi.

Definition minute_ns : Z := 60 * second.

Record RateLimitConfig := mkRateLimitConfig { MaxCallsPerMinute : Z; BurstSize : Z }.
Record rateLimitEntry := mkRateEntry { calls : list Z; maxPerMin : Z }.
Record limits := mkLimits { rateLimits : gmap string nat; cells : list rateLimitEntry }.
Definition no_limits : limits := mkLimits ∅ [].

Definition ErrLimited : error := ErrRetryable (ErrSentinel ErrRateLimited) 1.

(** ** The rate limit *)

(** The expired times at the front are left out. *)
Fixpoint prune (cutoff : Z) (l : list Z) : list Z :=
  match l with c :: rest => if c <? cutoff then prune cutoff rest else l | [] => [] end.
(** Counts from the back. *)
Fixpoint count_after (cutoff : Z) (rev_calls : list Z) : Z :=
  match rev_calls with c :: rest => if cutoff <? c then 1 + count_after cutoff rest else 0 | [] => 0 end.

Definition tryAcquire (burstSize now : Z) (e : rateLimitEntry) : option error * rateLimitEntry :=
  let kept := prune (now - minute_ns) (calls e) in
  let e := mkRateEntry kept (maxPerMin e) in
  if maxPerMin e <=? Z.of_nat (length kept) then (Some ErrLimited, e)
  else if burstSize <=? count_after (now - second) (reverse kept) then (Some ErrLimited, e)
  else (None, mkRateEntry (kept ++ [now]) (maxPerMin e)).

Section worker.
Context (cfg : RateLimitConfig).

(** The entry of a key, made if there is none.  (The code looks under the read lock first; what counts is its last look.) *)
Definition lookup_entry (key : string) (ls : limits) : nat * limits :=
  match rateLimits ls !! key with
  | Some l => (l, ls)
  | None => (length (cells ls), mkLimits (<[key := length (cells ls)]> (rateLimits ls)) (cells ls ++ [mkRateEntry [] (MaxCallsPerMinute cfg)]))
  end.
Definition use_entry (l : nat) (now : Z) (ls : limits) : option error * limits :=
  match cells ls !! l with
  | Some e => let '(err, e) := tryAcquire (BurstSize cfg) now e in (err, mkLimits (rateLimits ls) (<[l := e]> (cells ls)))
  | None => (None, ls)   (* not reached: entries are never taken away *)
  end.
Definition rate_key (agentID tenantID : string) : string := agentID +:+ ":" +:+ tenantID.
(** Both sections without another in between. *)
Definition checkRateLimit (agentID tenantID : string) (now : Z) (ls : limits) : option error * limits :=
  let '(l, ls) := lookup_entry (rate_key agentID tenantID) ls in use_entry l now ls.

Definition stale (cutoff : Z) (e : rateLimitEntry) : bool := match reverse (calls e) with [] => true | c :: _ => c <? cutoff end.
Definition CleanupRateLimits (maxAge now : Z) (ls : limits) : limits :=
  mkLimits (filter (λ p, negb (default false (stale (now - maxAge) <$> cells ls !! p.2))) (rateLimits ls)) (cells ls).
End worker.

Definition NewMCPWorker (cfg : RateLimitConfig) : RateLimitConfig :=
  mkRateLimitConfig (if MaxCallsPerMinute cfg <=? 0 then 60 else MaxCallsPerMinute cfg) (if BurstSize cfg <=? 0 then 10 else BurstSize cfg).

(** ** Tool calls *)

Definition errorResult (callID msg : string) : MCPToolResult := mkToolResult callID (RawDoc (JObj [("error", JStr msg)])) true.

Section calls.
Context {W : Type} (cfg : RateLimitConfig) (permissions : option (Ctx → string → string → string → M W (res bool)))
        (executor : option (Ctx → string → RawMessage → M W (res RawMessage))).

Definition AllowAllPermissions : Ctx → string → string → string → M W (res bool) := λ _ _ _ _, mret (Ok true).

(** What permits a call; [None] is a permission. *)
Definition permission_error (ctx : Ctx) (call : MCPToolCall) : M W (res (option string)) :=
  match permissions with
  | None => mret (Ok None)
  | Some IsAllowed =>
      r ← IsAllowed ctx (tc_AgentID call) (tc_TenantID call) (tc_Tool call);
      mret match r with
           | Panic m => Panic m
           | Err e => Ok (Some ("permission check failed: " +:+ Errors.Error e))
           | Ok false => Ok (Some ("agent " +:+ tc_AgentID call +:+ " is not allowed to execute tool " +:+ tc_Tool call))
           | Ok true => Ok None
           end
  end.

Definition call_tool (ctx : Ctx) (call : MCPToolCall) : M W (res MCPToolResult) :=
  match executor with
  | None => mret (Ok (errorResult (tc_ID call) "no tool executor configured"))
  | Some Execute =>
      r ← Execute ctx (tc_Tool call) (tc_Parameters call);
      mret match r with
           | Panic m => Panic m
           | Err e => Ok (errorResult (tc_ID call) ("tool execution failed: " +:+ Errors.Error e))
           | Ok content => Ok (mkToolResult (tc_ID call) content false)
           end
  end.

(** [ProcessToolCall]; [now] is the time at which the rate limit is asked. *)
Definition ProcessToolCall (ctx : Ctx) (now : Z) (call : MCPToolCall) (ls : limits) : M W (res MCPToolResult * limits) :=
  if bool_decide (tc_ID call = "") then mret (Ok (errorResult (tc_ID call) "missing tool call ID"), ls)
  else if bool_decide (tc_Tool call = "") then mret (Ok (errorResult (tc_ID call) "missing tool name"), ls)
  else
    let ctx := if bool_decide (tc_TenantID call = "") then ctx else WithTenantID ctx (tc_TenantID call) in
    refused ← permission_error ctx call;
    match refused with
    | Panic m => mret (Panic m, ls)
    | Err e => mret (Err e, ls)   (* not reached: an error of the check is a refusal *)
    | Ok (Some msg) => mret (Ok (errorResult (tc_ID call) msg), ls)
    | Ok None =>
        let '(limited, ls) := checkRateLimit cfg (tc_AgentID call) (tc_TenantID call) now ls in
        match limited with
        | Some e => mret (Ok (errorResult (tc_ID call) (Errors.Error e)), ls)
        | None => out ← call_tool ctx call; mret (out, ls)
        end
    end.
End calls.

(** ** The limit over time *)

(** What happens at the limits of a worker: a call looks up its entry, uses it, an administrator cleans up. *)
Inductive op := OpLookup (key : string) | OpAcquire (i : nat) (now : Z) | OpCleanup (maxAge now : Z).

Record history := mkHistory { h_limits : limits; h_pending : list (string * nat); h_accepted : list (string * Z) }.
Definition history_init : history := mkHistory no_limits [] [].

Section history.
Context (cfg : RateLimitConfig).

(** An accepted call is noted with its key and time. *)
Definition run_limit_op (h : history) (o : op) : history :=
  match o with
  | OpLookup key =>
      let '(l, ls) := lookup_entry cfg key (h_limits h) in mkHistory ls (h_pending h ++ [(key, l)]) (h_accepted h)
  | OpAcquire i now =>
      match h_pending h !! i with
      | Some (key, l) =>
          let '(err, ls) := use_entry cfg l now (h_limits h) in
          mkHistory ls (delete i (h_pending h)) (match err with None => h_accepted h ++ [(key, now)] | Some _ => h_accepted h end)
      | None => h
      end
  | OpCleanup maxAge now => mkHistory (CleanupRateLimits maxAge now (h_limits h)) (h_pending h) (h_accepted h)
  end.
Definition run_ops : history → list op → history := foldl run_limit_op.

Definition op_time (o : op) : option Z := match o with OpLookup _ => None | OpAcquire _ now | OpCleanup _ now => Some now end.
Definition times_of (key : string) (l : list (string * Z)) : list Z := (filter (λ p, p.1 = key) l).*2.

(** Time does not go back, and entries are cleaned up after a minute at least and while no call is under way. *)
Fixpoint orderly (last : Z) (h : history) (ops : list op) : Prop :=
  match ops with
  | [] => True
  | o :: ops =>
      let last' := default last (op_time o) in
      last ≤ last' ∧ match o with OpCleanup maxAge _ => minute_ns ≤ maxAge ∧ h_pending h = [] | _ => True end ∧ orderly last' (run_limit_op h o) ops
  end.
End history.

Arguments times_of : simpl never.

(** ** Lists of times *)

(** Every time has at most [n] times near it up to itself. *)
Definition limited (near : Z → Z → Prop) `{!∀ x u, Decision (near x u)} (n : Z) (l : list Z) : Prop :=
  ∀ pre x post, l = pre ++ x :: post → Z.of_nat (length (filter (near x) (pre ++ [x]))) ≤ n.
Definition rising (l : list Z) : Prop := ∀ pre x post, l = pre ++ x :: post → Forall (λ u, u ≤ x) pre.

Lemma snoc_split {A} (l pre post : list A) x y : l ++ [x] = pre ++ y :: post → (pre = l ∧ y = x ∧ post = []) ∨ ∃ post', l = pre ++ y :: post'.
Proof.
  destruct post as [|z post _] using rev_ind; intros He.
  - apply app_inj_tail in He as [-> ->]. by left.
  - right. exists post. change (pre ++ y :: post ++ [z]) with (pre ++ (y :: post) ++ [z]) in He. rewrite (assoc_L (++)) in He. by apply app_inj_tail in He as [-> _].
Qed.

Section lists.
Context (near : Z → Z → Prop) `{!∀ x u, Decision (near x u)}.

Lemma limited_snoc n l x : limited near n l → Z.of_nat (length (filter (near x) (l ++ [x]))) ≤ n → limited near n (l ++ [x]).
Proof. intros Hl Hx pre y post He. apply snoc_split in He as [(-> & -> & ->)|[post' ->]]; [done|by eapply Hl]. Qed.

(** What is near a time bounds every window that ends in one. *)
Lemma limited_window (win : Z → Prop) `{!∀ u, Decision (win u)} n l :
  0 ≤ n → limited near n l → (∀ u x, win u → win x → near x u) → Z.of_nat (length (filter win l)) ≤ n.
Proof.
  intros Hn Hl Hw. induction l as [|x l IH] using rev_ind; [done|].
  rewrite list.filter_app, length_app. destruct (decide (win x)) as [Hx|Hx].
  - transitivity (Z.of_nat (length (filter (near x) (l ++ [x])))); [|by apply (Hl l x [])].
    rewrite list.filter_app, length_app, !filter_cons, decide_True, decide_True by auto. cbn.
    assert (length (filter win l) ≤ length (filter (near x) l))%nat; [|lia].
    clear -Hw Hx. induction l as [|u l IH]; [done|]. rewrite !filter_cons. repeat case_decide; cbn; first [lia|naive_solver].
  - rewrite filter_cons_False by done. cbn. rewrite Nat.add_0_r. apply IH. intros pre y post ->. apply (Hl pre y (post ++ [x])). by rewrite <- (assoc_L (++)).
Qed.
End lists.

Lemma rising_snoc l x : rising l → Forall (λ u, u ≤ x) l → rising (l ++ [x]).
Proof. intros Hl Hx pre y post He. apply snoc_split in He as [(-> & -> & ->)|[post' ->]]; [done|by eapply Hl]. Qed.
Lemma rising_app_l l k : rising (l ++ k) → rising l.
Proof. intros Hr pre x post ->. apply (Hr pre x (post ++ k)). by rewrite <- (assoc_L (++)). Qed.
Lemma rising_app_r l k : rising (l ++ k) → rising k.
Proof. intros Hr pre x post ->. specialize (Hr (l ++ pre) x post). rewrite (assoc_L (++)) in Hr. by apply list.Forall_app in Hr as [_ ?]; [|done]. Qed.

Lemma prune_spec c l : ∃ old, l = old ++ prune c l ∧ Forall (λ u, u < c) old.
Proof.
  induction l as [|u l (old & He & Ho)]; [by exists []|]. cbn. destruct (Z.ltb_spec u c); [|by exists []].
  exists (u :: old). split; [by rewrite He at 1|by constructor].
Qed.
Lemma filter_below (P : Z → Prop) `{!∀ u, Decision (P u)} l : Forall (λ u, ¬ P u) l → filter P l = [].
Proof. induction 1; [done|]. by rewrite filter_cons_False. Qed.
Lemma count_after_spec (P : Z → Prop) `{!∀ u, Decision (P u)} c l :
  (∀ u, P u ↔ c < u) → rising l → count_after c (reverse l) = Z.of_nat (length (filter P l)).
Proof.
  intros HP. induction l as [|x l IH] using rev_ind; intros Hr; [done|]. rewrite reverse_snoc, list.filter_app, length_app. cbn [count_after].
  destruct (Z.ltb_spec c x).
  - rewrite IH by (by eapply rising_app_l). rewrite filter_cons_True by by apply HP. cbn. lia.
  - rewrite filter_cons_False by (rewrite HP; lia). cbn. rewrite filter_below; [done|].
    eapply list.Forall_impl; [by apply (Hr l x [])|]. intros u Hu. cbn in Hu. rewrite HP. lia.
Qed.

(** ** The invariant *)

Definition near_minute (x u : Z) : Prop := x - minute_ns ≤ u.
Definition near_second (x u : Z) : Prop := x - second < u.
#[local] Instance near_minute_dec x u : Decision (near_minute x u) := decide (x - minute_ns ≤ u).
#[local] Instance near_second_dec x u : Decision (near_second x u) := decide (x - second < u).

Section invariant.
Context (cfg : RateLimitConfig).

(** The accepted times of a key, and those of its entry: what is not in the entry is more than a minute old. *)
Record times_ok (last : Z) (T kept : list Z) : Prop := {
  t_old : ∃ old, T = old ++ kept ∧ Forall (λ u, u < last - minute_ns) old;
  t_rising : rising T;
  t_past : Forall (λ u, u ≤ last) T;
  t_minute : limited near_minute (MaxCallsPerMinute cfg) T;
  t_second : limited near_second (BurstSize cfg) T
}.
Record history_ok (last : Z) (h : history) : Prop := {
  h_entry : ∀ k l, rateLimits (h_limits h) !! k = Some l →
    ∃ e, cells (h_limits h) !! l = Some e ∧ maxPerMin e = MaxCallsPerMinute cfg ∧ times_ok last (times_of k (h_accepted h)) (calls e);
  h_absent : ∀ k, rateLimits (h_limits h) !! k = None → times_ok last (times_of k (h_accepted h)) [];
  h_apart : ∀ k k' l, rateLimits (h_limits h) !! k = Some l → rateLimits (h_limits h) !! k' = Some l → k = k';
  h_calls : ∀ k l, (k, l) ∈ h_pending h → rateLimits (h_limits h) !! k = Some l
}.

Lemma times_ok_later last last' T kept : last ≤ last' → times_ok last T kept → times_ok last' T kept.
Proof.
  intros Hle [(old & He & Ho) ? Hp ? ?]. split; [exists old; split; [done|]|done| |done..].
  - eapply list.Forall_impl; [exact Ho|]. intros u Hu. cbn in Hu. lia.
  - eapply list.Forall_impl; [exact Hp|]. intros u Hu. cbn in Hu. lia.
Qed.
Lemma history_ok_later last last' h : last ≤ last' → history_ok last h → history_ok last' h.
Proof.
  intros Hle [He Ha ? ?]. split; [|eauto using times_ok_later|done..].
  intros k l Hk. destruct (He k l Hk) as (e & ? & ? & ?). eauto using times_ok_later.
Qed.

(** One call of the limiter, at the time of the last event. *)
Lemma tryAcquire_ok now T e :
  maxPerMin e = MaxCallsPerMinute cfg → times_ok now T (calls e) →
  let '(err, e') := tryAcquire (BurstSize cfg) now e in
  maxPerMin e' = MaxCallsPerMinute cfg ∧ times_ok now (match err with None => T ++ [now] | Some _ => T end) (calls e').
Proof.
  intros Hmax [(old & HT & Ho) Hr Hp Hm Hs]. unfold tryAcquire. rewrite Hmax.
  destruct (prune_spec (now - minute_ns) (calls e)) as (dropped & Hc & Hd). set (kept := prune (now - minute_ns) (calls e)) in *.
  assert (Hold : T = (old ++ dropped) ++ kept) by (rewrite HT, Hc; apply (assoc_L (++))).
  assert (Hgone : Forall (λ u, u < now - minute_ns) (old ++ dropped)) by (by apply list.Forall_app).
  assert (Hsame : times_ok now T kept) by (split; eauto).
  cbn [calls maxPerMin]. destruct (Z.leb_spec (MaxCallsPerMinute cfg) (Z.of_nat (length kept))) as [?|Hlen]; [done|].
  destruct (Z.leb_spec (BurstSize cfg) (count_after (now - second) (reverse kept))) as [?|Hb]; [done|].
  rewrite (count_after_spec (near_second now)) in Hb by first [done | rewrite Hold in Hr; by eapply rising_app_r].
  cbn. split; [done|]. split.
  - exists (old ++ dropped). split; [by rewrite Hold, <- (assoc_L (++))|done].
  - by apply rising_snoc.
  - apply list.Forall_app. split; [done|]. by constructor.
  - apply limited_snoc; [done|]. rewrite list.filter_app, length_app, filter_cons_True by (unfold near_minute, minute_ns, second; lia).
    rewrite Hold, list.filter_app, length_app, (filter_below _ (old ++ dropped)).
    + pose proof (length_filter (near_minute now) kept). cbn. lia.
    + eapply list.Forall_impl; [exact Hgone|]. intros u Hu. unfold near_minute. cbn in Hu. lia.
  - apply limited_snoc; [done|]. rewrite list.filter_app, length_app, filter_cons_True by (unfold near_second, second; lia).
    rewrite Hold, list.filter_app, length_app, (filter_below _ (old ++ dropped)).
    + cbn. lia.
    + eapply list.Forall_impl; [exact Hgone|]. intros u Hu. unfold near_second, minute_ns, second in *. cbn in Hu. lia.
Qed.

Lemma times_of_snoc k k' t l : times_of k (l ++ [(k', t)]) = if decide (k = k') then times_of k l ++ [t] else times_of k l.
Proof.
  unfold times_of. rewrite list.filter_app, fmap_app. case_decide as Hk.
  - by rewrite filter_cons_True by (by subst).
  - rewrite filter_cons_False by (cbn; congruence). cbn. by rewrite app_nil_r.
Qed.

Lemma limit_op_ok last h o :
  history_ok last h → last ≤ default last (op_time o) → match o with OpCleanup maxAge _ => minute_ns ≤ maxAge ∧ h_pending h = [] | _ => True end →
  history_ok (default last (op_time o)) (run_limit_op cfg h o).
Proof.
  intros Hok Hle Ho. apply (history_ok_later _ _ _ Hle) in Hok. destruct o as [key|i now|maxAge now]; cbn in *.
  - destruct Hok as [He Ha Hapart Hc]. unfold lookup_entry. destruct (rateLimits (h_limits h) !! key) as [l|] eqn:Hk.
    { split; cbn; [done..|]. intros k l' [Hin|[= -> ->]%list_elem_of_singleton]%list.elem_of_app; auto. }
    assert (Hnew : ∀ k l, rateLimits (h_limits h) !! k = Some l → (l < length (cells (h_limits h)))%nat).
    { intros k l Hl. destruct (He k l Hl) as (e & Hc' & _). by apply lookup_lt_Some in Hc'. }
    split; cbn.
    + intros k l [[<- <-]|[Hne Hl]]%lookup_insert_Some; [|destruct (He k l Hl) as (e & ? & ?); exists e; split; [by apply lookup_app_l_Some|done]].
      eexists. rewrite list_lookup_middle by done. split_and!; [done..|by apply Ha].
    + intros k [Hl _]%lookup_insert_None. by apply Ha.
    + intros k k' l [[<- <-]|[Hne Hl]]%lookup_insert_Some [[<- ?]|[Hne' Hl']]%lookup_insert_Some; [done|..|eauto].
      * by apply Hnew in Hl'; lia.
      * subst. by apply Hnew in Hl; lia.
    + intros k l [Hin|[= -> ->]%list_elem_of_singleton]%list.elem_of_app; [|by rewrite lookup_insert_eq].
      rewrite lookup_insert_ne by (intros <-; by rewrite (Hc key l Hin) in Hk). auto.
  - destruct (h_pending h !! i) as [[key l]|] eqn:Hi; [|done]. destruct Hok as [He Ha Hapart Hc].
    pose proof (Hc key l (list_elem_of_lookup_2 _ _ _ Hi)) as Hl. destruct (He key l Hl) as (e & Hcell & Hmax & HT).
    unfold use_entry. rewrite Hcell. pose proof (tryAcquire_ok now _ e Hmax HT) as Hacq.
    destruct (tryAcquire (BurstSize cfg) now e) as [err e']. destruct Hacq as [Hmax' HT'].
    assert (Htimes : ∀ k, k ≠ key → times_of k (match err with None => h_accepted h ++ [(key, now)] | Some _ => h_accepted h end) = times_of k (h_accepted h)).
    { intros k Hne. destruct err; [done|]. by rewrite times_of_snoc, decide_False. }
    split; cbn.
    + intros k l' Hl'. destruct (decide (k = key)) as [->|Hne].
      * rewrite Hl in Hl'. injection Hl' as <-. exists e'. rewrite list_lookup_insert_eq by (by eapply lookup_lt_Some). split_and!; [done..|].
        destruct err; [done|]. by rewrite times_of_snoc, decide_True.
      * rewrite Htimes by done. destruct (He k l' Hl') as (e0 & ? & ?). exists e0. rewrite list_lookup_insert_ne; [done|]. intros <-. by apply Hne, (Hapart _ _ l).
    + intros k Hk. rewrite Htimes by congruence. auto.
    + done.
    + intros k l' Hin. apply list_elem_of_lookup_1 in Hin as [j Hj]. rewrite list_lookup_delete in Hj. apply Hc. case_decide; by eapply list_elem_of_lookup_2.
  - destruct Ho as [Hage Hnone]. destruct Hok as [He Ha Hapart Hc]. unfold CleanupRateLimits. split; cbn.
    + intros k l [Hl _]%map_lookup_filter_Some. auto.
    + intros k Hk%map_lookup_filter_None. destruct (rateLimits (h_limits h) !! k) as [l|] eqn:Hl; [|auto].
      destruct Hk as [?|Hk]; [done|]. specialize (Hk l eq_refl). cbn in Hk. destruct (He k l Hl) as (e & Hcell & _ & HT). rewrite Hcell in Hk. cbn in Hk.
      destruct HT as [(old & HTe & Ho) Hr ? ? ?]. split; [|done..]. exists (times_of k (h_accepted h)). split; [by rewrite app_nil_r|].
      rewrite HTe. apply list.Forall_app. split; [done|]. unfold stale in Hk.
      destruct (calls e) as [|c init _] using rev_ind; [done|]. rewrite reverse_snoc in Hk. destruct (Z.ltb_spec c (now - maxAge)) as [Hc'|]; [|by destruct Hk].
      apply list.Forall_app. split; [|constructor; [lia|done]]. rewrite HTe in Hr. apply rising_app_r in Hr.
      eapply list.Forall_impl; [by apply (Hr init c [])|]. intros u Hu. cbn in Hu. lia.
    + intros k k' l [Hl _]%map_lookup_filter_Some [Hl' _]%map_lookup_filter_Some. eauto.
    + rewrite Hnone. intros k l Hin. by apply not_elem_of_nil in Hin.
Qed.

Lemma limit_ops_ok ops last h : history_ok last h → orderly cfg last h ops → ∃ last', history_ok last' (run_ops cfg h ops).
Proof.
  revert last h. induction ops as [|o ops IH]; intros last h Hok; [by exists last|]. intros (Hle & Ho & Hops).
  apply (IH (default last (op_time o))); [|done]. by apply limit_op_ok.
Qed.
End invariant.

(** However many calls run at the same time, as long as time does not go back and entries are cleaned up only when they are a minute
    old and no call is under way, an agent of a tenant has at most the configured number of calls accepted in any minute, and at most the
    burst in any second. *)
Theorem sliding_limit cfg key ops t0 t :
  let cfg := NewMCPWorker cfg in
  orderly cfg t0 history_init ops →
  let T := times_of key (h_accepted (run_ops cfg history_init ops)) in
  Z.of_nat (length (filter (λ u, t ≤ u ≤ t + minute_ns) T)) ≤ MaxCallsPerMinute cfg ∧
  Z.of_nat (length (filter (λ u, t < u ≤ t + second) T)) ≤ BurstSize cfg.
Proof.
  intros cfg' Hops T.
  assert (Hpos : 0 ≤ MaxCallsPerMinute cfg' ∧ 0 ≤ BurstSize cfg').
  { unfold cfg', NewMCPWorker. cbn. split; [destruct (Z.leb_spec (MaxCallsPerMinute cfg) 0)|destruct (Z.leb_spec (BurstSize cfg) 0)]; lia. }
  assert (Hinit : history_ok cfg' t0 history_init).
  { assert (Hl : ∀ near (H : ∀ x u, Decision (near x u)) n, limited near n []) by (intros near H n [|] ? ?; discriminate).
    split; cbn; [intros k l Hk; by rewrite lookup_empty in Hk| |intros k k' l Hk; by rewrite lookup_empty in Hk|intros k l Hk; by apply not_elem_of_nil in Hk].
    intros k _. split; [by exists []|intros [|] ? ?; discriminate|constructor|apply Hl..]. }
  destruct (limit_ops_ok cfg' ops t0 _ Hinit Hops) as (last & [He Ha _ _]).
  assert (Hok : ∃ kept, times_ok cfg' last T kept).
  { destruct (rateLimits (h_limits (run_ops cfg' history_init ops)) !! key) as [l|] eqn:Hk.
    - destruct (He key l Hk) as (e & _ & _ & HT). by exists (calls e).
    - exists []. by apply Ha. }
  destruct Hok as (kept & [_ _ _ Hm Hs]). split.
  - apply (limited_window near_minute); [lia|done|]. intros u x Hu Hx. unfold near_minute. lia.
  - apply (limited_window near_second); [lia|done|]. intros u x Hu Hx. unfold near_second. lia.
Qed.

(** A tool runs only for a call with an identifier and a tool that is permitted and within the limit, and then what it gives is the
    result; any other call is answered by an error result with its identifier, whatever the tools are, and never by a Go error. *)
Theorem tool_call_guarded {W} cfg permissions (ctx : Ctx) now call ls (w : W) :
  let ctx' := if bool_decide (tc_TenantID call = "") then ctx else WithTenantID ctx (tc_TenantID call) in
  let run executor := ProcessToolCall cfg permissions executor ctx now call ls w in
  (tc_ID call ≠ "" ∧ tc_Tool call ≠ "" ∧
   ∃ w1 ls1, permission_error permissions ctx' call w = (Ok None, w1) ∧
     checkRateLimit cfg (tc_AgentID call) (tc_TenantID call) now ls = (None, ls1) ∧
     ∀ executor, run executor = let '(out, w2) := call_tool executor ctx' call w1 in ((out, ls1), w2)) ∨
  (∃ r, (∀ executor, run executor = r) ∧
     match r.1.1 with Ok out => tr_IsError out = true ∧ tr_CallID out = tc_ID call | Err _ => False | Panic _ => True end).
Proof.
  intros ctx' run. unfold run, ProcessToolCall.
  case_bool_decide as Hid; [right; eexists; split; [done|by cbn]|].
  case_bool_decide as Ht; [right; eexists; split; [done|by cbn]|]. fold ctx'. unfold mbind, M_bind.
  assert (Hp : ∀ e w1, permission_error permissions ctx' call w ≠ (Err e, w1)).
  { intros e w1. unfold permission_error. destruct permissions as [IsAllowed|]; [|done].
    unfold mbind, M_bind. by destruct (IsAllowed _ _ _ _ w) as [[[]| |] ?]. }
  destruct (permission_error permissions ctx' call w) as [[[msg|]|e|m] w1].
  - right. eexists. split; [done|by cbn].
  - destruct (checkRateLimit cfg (tc_AgentID call) (tc_TenantID call) now ls) as [[e|] ls1].
    + right. eexists. split; [done|by cbn].
    + left. split_and!; [done..|]. exists w1, ls1. split_and!; [done..|]. intros executor. by destruct (call_tool executor ctx' call w1) as [out w2].
  - by destruct (Hp e w1).
  - right. eexists. split; [done|by cbn].
Qed.

(** ** Examples *)

Definition one_call : RateLimitConfig := mkRateLimitConfig 1 1.
Definition busy : list op :=
  [OpLookup "a:t"; OpLookup "a:t"; OpAcquire 1 0; OpAcquire 0 (30 * second); OpLookup "a:t"; OpAcquire 0 (61 * second);
   OpCleanup minute_ns (130 * second); OpLookup "a:t"; OpAcquire 0 (131 * second)].

Lemma sliding_limit_witness :
  Z.of_nat (length (filter (λ u, 0 ≤ u ≤ 0 + minute_ns) [0; 61 * second; 131 * second])) ≤ 1 ∧
  times_of "a:t" (h_accepted (run_ops one_call history_init busy)) = [0; 61 * second; 131 * second].
Proof.
  split; [|vm_compute; reflexivity].
  refine (proj1 (sliding_limit one_call "a:t" busy 0 0 _)). vm_compute. repeat split; intros; discriminate.
Defined.

(** A cleanup while a call is under way takes its new, still empty entry away: the next call gets another one, and both are accepted
    although the limit is one a minute. *)
Example cleanup_races_with_call :
  times_of "a:t" (h_accepted (run_ops one_call history_init
    [OpLookup "a:t"; OpCleanup (60 * minute_ns) 0; OpLookup "a:t"; OpAcquire 0 0; OpAcquire 0 (2 * second)])) = [0; 2 * second].
Proof. reflexivity. Qed.

(** The agent and the tenant are joined by a colon that both may have. *)
Example keys_collide : rate_key "a:b" "c" = rate_key "a" "b:c".
Proof. reflexivity. Qed.

(** Entries younger than the window: a cleanup with a short age lifts the limit. *)
Example short_cleanup_lifts_limit :
  times_of "a:t" (h_accepted (run_ops one_call history_init
    [OpLookup "a:t"; OpAcquire 0 0; OpCleanup second (2 * second); OpLookup "a:t"; OpAcquire 0 (2 * second)])) = [0; 2 * second].
Proof. reflexivity. Qed.
