(* ===== verification/TenantRouter.v ===== *)
(** * Databases of tenants: [internal/storage/postgres/tenant_router.go]

    A pool of connections per tenant, opened at first use, shared afterwards, and closed when idle, evicted or at the end.  Calls
    run at the same time: what a call does under one lock, or between two, is one action; [calls] are the ones under way.  A
    pool is a number, [dbs] says what became of it; entries of the map are pointers to [entries]. *)

From S2P Require Import Prelude GoStrings Errors.

(** A pool that was opened: for whom, with which URI, and how often it was closed. *)
Record DB := mkDB { db_tenant : string; db_uri : string; db_closes : nat }.
Record tenantPool := mkTenantPool { tp_db : nat; lastAccess : Z }.

(** A call under way: about to resolve; with a new pool; with a new pool while there is an entry already; with a pool to close; the
    cleanup with the tenants still to look at. *)
Inductive call :=
| Resolving (tenantID : string)
| Opened (tenantID : string) (db : nat)
| Duplicate (tenantID : string) (db entry : nat)
| Closing (db : nat)
| Evicting (now : Z) (toEvict : list string).

Record TenantRouter := mkRouter {
  pools : gmap string nat;
  entries : list tenantPool;
  dbs : list DB;
  calls : list call;
  returned : list (string * res nat);
  stopped : bool
}.
Definition router_init : TenantRouter := mkRouter ∅ [] [] [] [] false.

Inductive action :=
| ForTenant (tenantID : string) (now : Z)                        (* the first lock *)
| Connect (i : nat) (uri : res string) (open : option error)     (* [ResolveURI] and [NewDB], with what they give *)
| Insert (i : nat) (now : Z)                                     (* the second lock *)
| GiveUp (i : nat) (now : Z)                                     (* what follows when there was an entry *)
| EvictTenant (tenantID : string)
| CloseDB (i : nat)
| EvictIdle (now : Z)                                            (* the first pass of [evictIdle] *)
| EvictNext (i : nat)                                            (* one tenant of its second pass *)
| Close.

Section router.
Context (idleTimeout : Z).

Definition close_db (d : nat) (l : list DB) : list DB := alter (λ x, mkDB (db_tenant x) (db_uri x) (S (db_closes x))) d l.
Definition touch (c : nat) (now : Z) (l : list tenantPool) : list tenantPool := alter (λ e, mkTenantPool (tp_db e) now) c l.
Definition idle (now : Z) (e : tenantPool) : bool := idleTimeout <? now - lastAccess e.

(** An entry is taken out and its pool closed, under the lock. *)
Definition drop (t : string) (c : nat) (r : TenantRouter) : TenantRouter :=
  mkRouter (delete t (pools r)) (entries r) (match entries r !! c with Some e => close_db (tp_db e) (dbs r) | None => dbs r end)
    (calls r) (returned r) (stopped r).

(** What an action does; [None] when it cannot happen. *)
Definition act (r : TenantRouter) (a : action) : option (res TenantRouter) :=
  let under i new pools' entries' dbs' ret :=
    Some (Ok (mkRouter pools' entries' dbs' (new ++ delete i (calls r)) (returned r ++ ret) (stopped r))) in
  match a with
  | ForTenant t now =>
      match pools r !! t with
      | Some c =>
          match entries r !! c with
          | Some e => Some (Ok (mkRouter (pools r) (touch c now (entries r)) (dbs r) (calls r) (returned r ++ [(t, Ok (tp_db e))]) (stopped r)))
          | None => None
          end
      | None => Some (Ok (mkRouter (pools r) (entries r) (dbs r) (Resolving t :: calls r) (returned r) (stopped r)))
      end
  | Connect i uri opened =>
      match calls r !! i with
      | Some (Resolving t) =>
          match uri, opened with
          | Panic m, _ => Some (Panic m)
          | Err e, _ => under i [] (pools r) (entries r) (dbs r) [(t, Err (ErrWrapf ("resolve tenant " +:+ t +:+ " URI") e))]
          | Ok u, Some e => under i [] (pools r) (entries r) (dbs r) [(t, Err (ErrWrapf ("connect to tenant " +:+ t +:+ " database") e))]
          | Ok u, None => under i [Opened t (length (dbs r))] (pools r) (entries r) (dbs r ++ [mkDB t u 0]) []
          end
      | _ => None
      end
  | Insert i now =>
      match calls r !! i with
      | Some (Opened t d) =>
          match pools r !! t with
          | Some c => under i [Duplicate t d c] (pools r) (entries r) (dbs r) []
          | None => under i [] (<[t := length (entries r)]> (pools r)) (entries r ++ [mkTenantPool d now]) (dbs r) [(t, Ok d)]
          end
      | _ => None
      end
  | GiveUp i now =>
      match calls r !! i with
      | Some (Duplicate t d c) =>
          match entries r !! c with
          | Some e => under i [] (pools r) (touch c now (entries r)) (close_db d (dbs r)) [(t, Ok (tp_db e))]
          | None => None
          end
      | _ => None
      end
  | EvictTenant t =>
      match pools r !! t with
      | Some c =>
          match entries r !! c with
          | Some e => Some (Ok (mkRouter (delete t (pools r)) (entries r) (dbs r) (Closing (tp_db e) :: calls r) (returned r) (stopped r)))
          | None => None
          end
      | None => Some (Ok r)
      end
  | CloseDB i =>
      match calls r !! i with
      | Some (Closing d) => under i [] (pools r) (entries r) (close_db d (dbs r)) []
      | _ => None
      end
  | EvictIdle now =>
      let toEvict := (filter (λ p, default false (idle now <$> entries r !! p.2) = true) (map_to_list (pools r))).*1 in
      Some (Ok (mkRouter (pools r) (entries r) (dbs r) (Evicting now toEvict :: calls r) (returned r) (stopped r)))
  | EvictNext i =>
      match calls r !! i with
      | Some (Evicting now []) => under i [] (pools r) (entries r) (dbs r) []
      | Some (Evicting now (t :: toEvict)) =>
          match pools r !! t with
          | Some c =>
              if default false (idle now <$> entries r !! c)
              then let r' := drop t c r in under i [Evicting now toEvict] (pools r') (entries r') (dbs r') []
              else under i [Evicting now toEvict] (pools r) (entries r) (dbs r) []
          | None => under i [Evicting now toEvict] (pools r) (entries r) (dbs r) []
          end
      | _ => None
      end
  | Close =>
      if stopped r then Some (Panic "close of closed channel")
      else
        let r := mkRouter (pools r) (entries r) (dbs r) (calls r) (returned r) true in
        Some (Ok (foldl (λ r p, drop p.1 p.2 r) r (map_to_list (pools r))))
  end.

Inductive reachable : TenantRouter → Prop :=
| reachable_init : reachable router_init
| reachable_act r a r' : reachable r → act r a = Some (Ok r') → reachable r'.

(** ** The invariant *)

(** The pools that calls hold; the pool in the map for a tenant; whose a pool is and how often it was closed. *)
Definition holds (c : call) : list nat := match c with Opened _ d | Duplicate _ d _ | Closing d => [d] | _ => [] end.
Definition held (cs : list call) : list nat := cs ≫= holds.
Definition pool_at (es : list tenantPool) (c : nat) : option nat := tp_db <$> es !! c.
Definition cached (r : TenantRouter) (t : string) : option nat := pools r !! t ≫= pool_at (entries r).
Definition owner (l : list DB) (d : nat) : option string := db_tenant <$> l !! d.
Definition closes (l : list DB) (d : nat) : option nat := db_closes <$> l !! d.

Definition call_ok (r : TenantRouter) (c : call) : Prop :=
  match c with
  | Opened t d => owner (dbs r) d = Some t
  | Duplicate t d c => ∃ d', pool_at (entries r) c = Some d' ∧ owner (dbs r) d' = Some t
  | _ => True
  end.
Record router_ok (r : TenantRouter) : Prop := {
  r_entry : ∀ t c, pools r !! t = Some c → is_Some (pool_at (entries r) c);
  r_cached : ∀ t d, cached r t = Some d → owner (dbs r) d = Some t ∧ closes (dbs r) d = Some 0%nat;
  r_held : NoDup (held (calls r));
  r_open : ∀ d, d ∈ held (calls r) → closes (dbs r) d = Some 0%nat ∧ ∀ t, cached r t ≠ Some d;
  r_mine : ∀ c, c ∈ calls r → call_ok r c;
  r_once : ∀ d n, closes (dbs r) d = Some n → (n ≤ 1)%nat ∧ (n = 0%nat → d ∈ held (calls r) ∨ ∃ t, cached r t = Some d);
  r_returned : ∀ t d, (t, Ok d) ∈ returned r → owner (dbs r) d = Some t
}.

Lemma owner_close d d' l : owner (close_db d l) d' = owner l d'.
Proof.
  unfold owner, close_db. destruct (decide (d = d')) as [->|Hne]; [rewrite list_lookup_alter_eq; by destruct (l !! d')|].
  by rewrite list_lookup_alter_ne.
Qed.
Lemma closes_close d d' l : closes (close_db d l) d' = if decide (d' = d) then S <$> closes l d' else closes l d'.
Proof.
  unfold closes, close_db. case_decide as Hd; [subst; rewrite list_lookup_alter_eq; by destruct (l !! d)|].
  by rewrite list_lookup_alter_ne by congruence.
Qed.
Lemma pool_at_touch c now es c' : pool_at (touch c now es) c' = pool_at es c'.
Proof.
  unfold pool_at, touch. destruct (decide (c = c')) as [->|Hne]; [rewrite list_lookup_alter_eq; by destruct (es !! c')|].
  by rewrite list_lookup_alter_ne.
Qed.

(** The calls under way may come in another order and with others that hold nothing; entries may be touched; what is returned is the
    caller's own. *)
Lemma ok_calls r r' :
  router_ok r → pools r' = pools r → (∀ c, pool_at (entries r') c = pool_at (entries r) c) → dbs r' = dbs r →
  held (calls r') ≡ₚ held (calls r) → (∀ c, c ∈ calls r' → c ∈ calls r ∨ call_ok r c) →
  (∀ t d, (t, Ok d) ∈ returned r' → (t, Ok d) ∈ returned r ∨ owner (dbs r) d = Some t) → router_ok r'.
Proof.
  intros [] Hp He Hd Hh Hc Hr.
  assert (Hcached : ∀ t, cached r' t = cached r t) by (intros t; unfold cached; rewrite Hp; by destruct (pools r !! t) as [c|]; cbn).
  assert (Hok : ∀ c, call_ok r c → call_ok r' c).
  { intros [] ; cbn; rewrite ?Hd; [done..| |done|done]. intros (d' & ? & ?). exists d'. by rewrite He. }
  split; rewrite ?Hd; try setoid_rewrite Hh.
  - intros t c. rewrite Hp, He. eauto.
  - intros t d. rewrite Hcached. eauto.
  - done.
  - intros d Hin. destruct (r_open0 d Hin) as [? Hno]. split; [done|]. intros t. by rewrite Hcached.
  - intros c Hin. destruct (Hc c Hin); auto.
  - intros d n Hn. destruct (r_once0 d n Hn) as [? Hno]. split; [done|]. intros Hz. destruct (Hno Hz) as [?|[t ?]]; [by left|right; exists t]. by rewrite Hcached.
  - intros t d Hin. destruct (Hr t d Hin); eauto.
Qed.

Lemma held_delete cs i c : cs !! i = Some c → held cs ≡ₚ holds c ++ held (delete i cs).
Proof. intros Hi. unfold held. by rewrite (delete_Permutation _ _ _ Hi) at 1. Qed.
Lemma elem_of_delete (cs : list call) i c : c ∈ delete i cs → c ∈ cs.
Proof. intros [j Hj]%list_elem_of_lookup_1. rewrite list_lookup_delete in Hj. case_decide; by eapply list_elem_of_lookup_2. Qed.

(** A new pool, held by the call that opened it. *)
Lemma ok_connect r i t u :
  router_ok r → calls r !! i = Some (Resolving t) →
  router_ok (mkRouter (pools r) (entries r) (dbs r ++ [mkDB t u 0]) (Opened t (length (dbs r)) :: delete i (calls r)) (returned r) (stopped r)).
Proof.
  intros [] Hi. pose proof (held_delete _ _ _ Hi) as Hh. cbn in Hh.
  assert (Ho : ∀ d t', owner (dbs r) d = Some t' → owner (dbs r ++ [mkDB t u 0]) d = Some t').
  { unfold owner. intros d t' (x & Hx & ?)%fmap_Some. by rewrite (lookup_app_l_Some _ _ _ _ Hx); subst. }
  assert (Hn : ∀ d n, closes (dbs r) d = Some n → closes (dbs r ++ [mkDB t u 0]) d = Some n).
  { unfold closes. intros d t' (x & Hx & ?)%fmap_Some. by rewrite (lookup_app_l_Some _ _ _ _ Hx); subst. }
  assert (Hlast : closes (dbs r ++ [mkDB t u 0]) (length (dbs r)) = Some 0%nat ∧ owner (dbs r ++ [mkDB t u 0]) (length (dbs r)) = Some t).
  { unfold closes, owner. by rewrite list_lookup_middle. }
  assert (Hfresh : ∀ d n, closes (dbs r) d = Some n → d ≠ length (dbs r)).
  { unfold closes. intros d n (x & Hx & _)%fmap_Some ->. apply lookup_lt_Some in Hx. lia. }
  split; cbn [pools entries dbs calls returned].
  - done.
  - intros t' d Hc. destruct (r_cached0 t' d Hc). auto.
  - change (held (Opened t (length (dbs r)) :: delete i (calls r))) with (length (dbs r) :: held (delete i (calls r))). rewrite <- Hh.
    constructor; [|done]. intros Hin. destruct (r_open0 _ Hin) as [Hz _]. by apply Hfresh in Hz.
  - change (held (Opened t (length (dbs r)) :: delete i (calls r))) with (length (dbs r) :: held (delete i (calls r))). intros d. rewrite <- Hh.
    intros [->|Hin]%list.elem_of_cons.
    + split; [tauto|]. intros t' Hc. destruct (r_cached0 t' _ Hc) as [_ Hz]. by apply Hfresh in Hz.
    + destruct (r_open0 d Hin). auto.
  - intros c [->|Hin%elem_of_delete]%list.elem_of_cons; [tauto|]. specialize (r_mine0 c Hin). destruct c; cbn in *; auto.
    destruct r_mine0 as (d' & ? & ?). eauto.
  - change (held (Opened t (length (dbs r)) :: delete i (calls r))) with (length (dbs r) :: held (delete i (calls r))). intros d n Hd. rewrite <- Hh. destruct (decide (d = length (dbs r))) as [->|Hne].
    + destruct Hlast as [Hz _]. rewrite Hz in Hd. injection Hd as <-. split; [lia|]. left. by left.
    + assert (closes (dbs r) d = Some n) as Hd'.
      { unfold closes in *. apply fmap_Some in Hd as (x & Hx & ->). apply lookup_app_Some in Hx as [Hx|[Hge Hx]]; [by rewrite Hx|].
        apply list_lookup_singleton_Some in Hx as [? _]. lia. }
      destruct (r_once0 d n Hd') as [? Hno]. split; [done|]. intros Hz. destruct (Hno Hz) as [?|?]; [left; by right|by right].
  - eauto.
Qed.

(** A held pool is put into the map. *)
Lemma ok_insert r i t d now :
  router_ok r → calls r !! i = Some (Opened t d) → pools r !! t = None →
  router_ok (mkRouter (<[t := length (entries r)]> (pools r)) (entries r ++ [mkTenantPool d now]) (dbs r) (delete i (calls r))
    (returned r ++ [(t, Ok d)]) (stopped r)).
Proof.
  intros [] Hi Ht. pose proof (held_delete _ _ _ Hi) as Hh. cbn in Hh.
  assert (Hd : d ∈ held (calls r)) by (rewrite Hh; by left). destruct (r_open0 d Hd) as [Hz Hnot].
  assert (Hown : owner (dbs r) d = Some t) by exact (r_mine0 _ (list_elem_of_lookup_2 _ _ _ Hi)).
  assert (Hat : ∀ c d', pool_at (entries r) c = Some d' → pool_at (entries r ++ [mkTenantPool d now]) c = Some d').
  { unfold pool_at. intros c d' (x & Hx & ?)%fmap_Some. by rewrite (lookup_app_l_Some _ _ _ _ Hx); subst. }
  assert (Hnew : pool_at (entries r ++ [mkTenantPool d now]) (length (entries r)) = Some d) by (unfold pool_at; by rewrite list_lookup_middle).
  set (r' := mkRouter _ _ _ _ _ _).
  assert (Hcached : ∀ t', cached r' t' = if decide (t' = t) then Some d else cached r t').
  { intros t'. unfold cached, r'. cbn. case_decide as He; [subst; by rewrite lookup_insert_eq|]. rewrite lookup_insert_ne by done.
    destruct (pools r !! t') as [c|] eqn:Hc; [|done]. cbn. destruct (r_entry0 t' c Hc) as [d' Hd']. by rewrite (Hat _ _ Hd'). }
  assert (Hnd : d ∉ held (delete i (calls r)) ∧ NoDup (held (delete i (calls r)))) by (rewrite Hh in r_held0; by apply list.NoDup_cons in r_held0).
  split; try (setoid_rewrite Hcached); cbn [r' pools entries dbs calls returned].
  - intros t' c [[<- <-]|[Hne Hc]]%lookup_insert_Some; [by rewrite Hnew|]. destruct (r_entry0 t' c Hc) as [d' Hd']. by rewrite (Hat _ _ Hd').
  - intros t' d'. case_decide; [intros [= <-]; by subst|auto].
  - tauto.
  - intros d' Hin. assert (Hin' : d' ∈ held (calls r)) by (rewrite Hh; by right). destruct (r_open0 d' Hin') as [? Hno]. split; [done|].
    intros t'. case_decide; [intros [= ->]; tauto|auto].
  - intros c Hin%elem_of_delete. specialize (r_mine0 c Hin). destruct c; cbn in *; auto. destruct r_mine0 as (d' & ? & ?). eauto.
  - intros d' n Hn. destruct (r_once0 d' n Hn) as [? Hno]. split; [done|]. intros Hn0. destruct (Hno Hn0) as [Hin|[t' Hc]].
    + rewrite Hh in Hin. apply list.elem_of_cons in Hin as [->|Hin]; [right; exists t; by rewrite decide_True|by left].
    + right. exists t'. rewrite decide_False; [done|]. intros ->. unfold cached in Hc. by rewrite Ht in Hc.
  - intros t' d' [Hin|[= -> ->]%list_elem_of_singleton]%list.elem_of_app; eauto.
Qed.

(** A pool is taken out of the map, to be closed by the one who took it. *)
Lemma ok_uncache r t c d :
  router_ok r → pools r !! t = Some c → pool_at (entries r) c = Some d →
  router_ok (mkRouter (delete t (pools r)) (entries r) (dbs r) (Closing d :: calls r) (returned r) (stopped r)).
Proof.
  intros [] Ht Hd. assert (Hc0 : cached r t = Some d) by (unfold cached; by rewrite Ht).
  destruct (r_cached0 t d Hc0) as [Hown Hz]. set (r' := mkRouter _ _ _ _ _ _).
  assert (Hcached : ∀ t', cached r' t' = if decide (t' = t) then None else cached r t').
  { intros t'. unfold cached, r'. cbn. case_decide; [subst; by rewrite lookup_delete_eq|by rewrite lookup_delete_ne]. }
  assert (Hne : ∀ t' d', t' ≠ t → cached r t' = Some d' → d' ≠ d).
  { intros t' d' Hne Hc ->. destruct (r_cached0 t' d Hc) as [Ho _]. congruence. }
  split; try (setoid_rewrite Hcached); cbn [r' pools entries dbs calls returned];
    change (held (Closing d :: calls r)) with (d :: held (calls r)).
  - intros t' c' [_ Hc]%lookup_delete_Some. eauto.
  - intros t' d'. case_decide; [done|auto].
  - constructor; [|done]. intros Hin. by destruct (r_open0 d Hin) as [_ []%(λ H, H t)].
  - intros d' [->|Hin]%list.elem_of_cons.
    + split; [done|]. intros t'. case_decide as He; [done|]. intros Hc. by apply (Hne t' d).
    + destruct (r_open0 d' Hin) as [? Hno]. split; [done|]. intros t'. case_decide; [done|auto].
  - intros c' [->|Hin]%list.elem_of_cons; [done|]. exact (r_mine0 c' Hin).
  - intros d' n Hn. destruct (r_once0 d' n Hn) as [? Hno]. split; [done|]. intros Hn0. destruct (Hno Hn0) as [?|[t' Hc]]; [left; by right|].
    destruct (decide (t' = t)) as [->|He]; [left; rewrite Hc0 in Hc; injection Hc as ->; by left|]. right. exists t'. by rewrite decide_False.
  - done.
Qed.

(** A held pool is closed. *)
Lemma ok_close r d cs ret st :
  router_ok r → held (calls r) ≡ₚ d :: held cs → (∀ c, c ∈ cs → c ∈ calls r ∨ call_ok r c) →
  (∀ t d, (t, Ok d) ∈ ret → (t, Ok d) ∈ returned r ∨ owner (dbs r) d = Some t) →
  router_ok (mkRouter (pools r) (entries r) (close_db d (dbs r)) cs ret st).
Proof.
  intros [] Hh Hcs Hret. assert (Hd : d ∈ held (calls r)) by (rewrite Hh; by left). destruct (r_open0 d Hd) as [Hz Hnot].
  assert (Hnd : d ∉ held cs ∧ NoDup (held cs)) by (rewrite Hh in r_held0; by apply list.NoDup_cons in r_held0).
  set (r' := mkRouter _ _ _ _ _ _). assert (Hcached : ∀ t, cached r' t = cached r t) by done.
  split; cbn [r' pools entries dbs calls returned]; try (setoid_rewrite Hcached); try (setoid_rewrite owner_close); try (setoid_rewrite closes_close).
  - done.
  - intros t d' Hc. destruct (r_cached0 t d' Hc). split; [done|]. rewrite decide_False; [done|]. intros ->. by apply (Hnot t).
  - tauto.
  - intros d' Hin. assert (Hin' : d' ∈ held (calls r)) by (rewrite Hh; by right). destruct (r_open0 d' Hin'). split; [|done].
    rewrite decide_False; [done|]. intros ->. tauto.
  - intros c Hin. assert (Hc : call_ok r c) by (destruct (Hcs c Hin); auto). destruct c; cbn in *; rewrite ?owner_close; auto.
    destruct Hc as (d' & ? & ?). exists d'. by rewrite owner_close.
  - intros d' n. case_decide as He; [subst; rewrite Hz; intros [= <-]; split; lia|]. intros Hn. destruct (r_once0 d' n Hn) as [? Hno].
    split; [done|]. intros Hn0. destruct (Hno Hn0) as [Hin|?]; [|by right]. rewrite Hh in Hin. apply list.elem_of_cons in Hin as [->|Hin]; [done|by left].
  - intros t d' Hin. destruct (Hret t d' Hin); eauto.
Qed.

Lemma ok_drop r t c : router_ok r → pools r !! t = Some c → router_ok (drop t c r).
Proof.
  intros Hok Ht. destruct (r_entry r Hok t c Ht) as [d Hd]. pose proof (ok_uncache r t c d Hok Ht Hd) as Hok'.
  unfold pool_at in Hd. apply fmap_Some in Hd as (e & He & ->). unfold drop. rewrite He.
  refine (ok_close _ (tp_db e) (calls r) (returned r) (stopped r) Hok' _ _ _); cbn; [done|auto..]. intros c' Hc'. left. by right.
Qed.

Lemma held_app cs cs' : held (cs ++ cs') = held cs ++ held cs'.
Proof. apply bind_app. Qed.

Lemma act_ok r a r' : router_ok r → act r a = Some (Ok r') → router_ok r'.
Proof.
  intros Hok. pose proof Hok as [Hentry Hcached _ _ Hmine _ _].
  assert (Hpool : ∀ t c e, pools r !! t = Some c → entries r !! c = Some e → owner (dbs r) (tp_db e) = Some t).
  { intros t c e Ht He. apply (Hcached t). unfold cached, pool_at. by rewrite Ht; cbn; rewrite He. }
  destruct a as [t now|i uri opened|i now|i now|t|i|now|i|]; cbn [act].
  - destruct (pools r !! t) as [c|] eqn:Ht.
    + destruct (entries r !! c) as [e|] eqn:He; [|done]. intros [= <-].
      apply (ok_calls r); cbn; auto; [intros; apply pool_at_touch|].
      intros t' d' [Hin|[= -> ->]%list_elem_of_singleton]%list.elem_of_app; eauto.
    + intros [= <-]. apply (ok_calls r); cbn; auto. intros c [->|Hin]%list.elem_of_cons; [by right|by left].
  - destruct (calls r !! i) as [[t| | | |]|] eqn:Hi; try done. pose proof (held_delete _ _ _ Hi) as Hh. cbn in Hh.
    destruct uri as [u|e|m]; [destruct opened as [e|]| |done]; intros [= <-]; cbn [app].
    + apply (ok_calls r); cbn; auto; [by rewrite Hh|intros c Hin%elem_of_delete; by left|].
      intros t' d' [Hin|Hin%list_elem_of_singleton]%list.elem_of_app; [by left|done].
    + rewrite app_nil_r. by apply ok_connect.
    + apply (ok_calls r); cbn; auto; [by rewrite Hh|intros c Hin%elem_of_delete; by left|].
      intros t' d' [Hin|Hin%list_elem_of_singleton]%list.elem_of_app; [by left|done].
  - destruct (calls r !! i) as [[|t d| | |]|] eqn:Hi; try done. pose proof (held_delete _ _ _ Hi) as Hh. cbn in Hh.
    destruct (pools r !! t) as [c|] eqn:Ht; intros [= <-]; [|by apply ok_insert].
    rewrite app_nil_r. apply (ok_calls r); cbn; auto; [by rewrite Hh|].
    intros c' [->|Hin%elem_of_delete]%list.elem_of_cons; [right|by left]. cbn. destruct (Hentry t c Ht) as [d' Hd']. exists d'. split; [done|].
    apply (Hcached t). unfold cached. by rewrite Ht.
  - destruct (calls r !! i) as [[| |t d c| |]|] eqn:Hi; try done. pose proof (held_delete _ _ _ Hi) as Hh. cbn in Hh.
    destruct (entries r !! c) as [e|] eqn:He; [|done]. intros [= <-]. cbn [app].
    pose proof (Hmine _ (list_elem_of_lookup_2 _ _ _ Hi)) as (d' & Hd' & Hown). unfold pool_at in Hd'. rewrite He in Hd'. injection Hd' as <-.
    assert (Hok' : router_ok (mkRouter (pools r) (entries r) (close_db d (dbs r)) (delete i (calls r)) (returned r ++ [(t, Ok (tp_db e))]) (stopped r))).
    { apply (ok_close r); [done|by rewrite Hh|intros c' Hin%elem_of_delete; by left|].
      intros t' d' [Hin|[= -> ->]%list_elem_of_singleton]%list.elem_of_app; [by left|by right]. }
    apply (ok_calls _ _ Hok'); cbn; auto. intros. apply pool_at_touch.
  - destruct (pools r !! t) as [c|] eqn:Ht; [|by intros [= <-]]. destruct (entries r !! c) as [e|] eqn:He; [|done]. intros [= <-].
    apply (ok_uncache r t c); [done..|]. unfold pool_at. by rewrite He.
  - destruct (calls r !! i) as [[| | |d|]|] eqn:Hi; try done. pose proof (held_delete _ _ _ Hi) as Hh. cbn in Hh.
    intros [= <-]. rewrite app_nil_r. cbn [app]. apply (ok_close r); [done|by rewrite Hh|intros c' Hin%elem_of_delete; by left|auto].
  - intros [= <-]. apply (ok_calls r); cbn; auto. intros c [->|Hin]%list.elem_of_cons; [by right|by left].
  - destruct (calls r !! i) as [[| | | |now [|t toEvict]]|] eqn:Hi; try done; pose proof (held_delete _ _ _ Hi) as Hh; cbn in Hh.
    { intros [= <-]. rewrite app_nil_r. apply (ok_calls r); cbn; auto; [by rewrite Hh|]. intros c Hin%elem_of_delete. by left. }
    assert (Hc : ∀ r0, calls r0 = calls r → ∀ c, c ∈ Evicting now toEvict :: delete i (calls r) → c ∈ calls r0 ∨ call_ok r0 c).
    { intros r0 -> c [->|Hin%elem_of_delete]%list.elem_of_cons; [by right|by left]. }
    destruct (pools r !! t) as [c|] eqn:Ht; [destruct (default false _)|]; intros [= <-]; rewrite app_nil_r; cbn [app].
    + apply (ok_calls _ _ (ok_drop r t c Hok Ht)); cbn; auto; [by rewrite Hh|]. by apply (Hc (drop t c r)).
    + apply (ok_calls r); cbn; auto. by rewrite Hh.
    + apply (ok_calls r); cbn; auto. by rewrite Hh.
  - destruct (stopped r); [done|]. intros [= <-]. set (r0 := mkRouter _ _ _ _ _ true).
    assert (Hok0 : router_ok r0) by (apply (ok_calls r); cbn; auto).
    assert (Hall : ∀ t c, (t, c) ∈ map_to_list (pools r) → pools r0 !! t = Some c) by (intros; by apply elem_of_map_to_list).
    pose proof (NoDup_fst_map_to_list (pools r)) as Hnd. revert Hok0 Hall Hnd. generalize r0. clear.
    induction (map_to_list (pools r)) as [|[t c] l IH]; intros r0 Hok0 Hall Hnd; [done|]. cbn in *. apply list.NoDup_cons in Hnd as [Ht Hnd].
    apply IH; [by apply ok_drop; [|apply Hall; left]| |done]. intros t' c' Hin. cbn. rewrite lookup_delete_ne; [apply Hall; by right|].
    intros <-. apply Ht. apply list_elem_of_fmap. by exists (t, c').
Qed.

Lemma router_reachable r : reachable r → router_ok r.
Proof.
  induction 1 as [|r a r' _ IH Ha]; [|by eapply act_ok]. split; cbn.
  - intros t c Hc. by rewrite lookup_empty in Hc.
  - intros t d Hc. by unfold cached in Hc.
  - constructor.
  - intros d Hd. by apply not_elem_of_nil in Hd.
  - intros c Hc. by apply not_elem_of_nil in Hc.
  - intros d n Hn. by apply fmap_Some in Hn as (x & Hx & _).
  - intros t d Hd. by apply not_elem_of_nil in Hd.
Qed.

(** C37: however calls, evictions, the cleanup and the end interleave: a caller is given only a pool that was opened for its own tenant; a
    pool in the map is open and of that tenant; no pool is closed twice; one that is not closed is in the map or in the hands of a
    call, so none is left when the map is empty and no call is under way; and nothing panics but a second [Close] and what the resolver
    does. *)
Theorem tenant_pools_kept r :
  reachable r →
  (∀ t d, (t, Ok d) ∈ returned r → owner (dbs r) d = Some t) ∧
  (∀ t d, cached r t = Some d → owner (dbs r) d = Some t ∧ closes (dbs r) d = Some 0%nat) ∧
  (∀ d n, closes (dbs r) d = Some n → (n ≤ 1)%nat ∧ (n = 0%nat → d ∈ held (calls r) ∨ ∃ t, cached r t = Some d)) ∧
  (calls r = [] → pools r = ∅ → ∀ d n, closes (dbs r) d = Some n → n = 1%nat) ∧
  (∀ a m, act r a = Some (Panic m) → a = Close ∧ stopped r = true ∨ ∃ i opened, a = Connect i (Panic m) opened).
Proof.
  intros Hr. apply router_reachable in Hr as [_ Hc _ _ _ Ho Hret]. split_and!; [done..| |].
  - intros Hcalls Hpools d n Hn. destruct (Ho d n Hn) as [Hle Hz]. destruct n as [|[|n]]; [|done|lia].
    destruct (Hz eq_refl) as [Hin|[t Ht]]; [rewrite Hcalls in Hin; by apply not_elem_of_nil in Hin|].
    unfold cached in Ht. by rewrite Hpools in Ht.
  - intros a m. destruct a; cbn [act]; try (repeat case_match; done).
    + repeat case_match; try done. intros [= ->]. right. eauto.
    + destruct (stopped r); [|done]. intros _. by left.
Qed.
End router.

(** ** Construction, and the resolver over the catalog *)

Record TenantRouterConfig := mkRouterConfig { MaxConns : Z; IdleTimeout : Z }.
Definition NewTenantRouter (cfg : TenantRouterConfig) : TenantRouterConfig * TenantRouter :=
  (mkRouterConfig (if MaxConns cfg <=? 0 then 5 else MaxConns cfg) (if IdleTimeout cfg <=? 0 then 300 * second else IdleTimeout cfg), router_init).
Definition PoolCount (r : TenantRouter) : nat := size (pools r).

(** [query] reads the URI of a provisioned tenant, which may be null. *)
Definition ResolveURI (query : string → res (option string)) (encryptor : option (string → res string)) (tenantID : string) : res string :=
  match query tenantID with
  | Panic m => Panic m
  | Err e => Err (ErrWrapf "query tenant URI" e)
  | Ok uri =>
      if bool_decide (default "" uri = "") then Err (ErrText ("tenant " +:+ tenantID +:+ " has no provisioned database"))
      else match encryptor with
           | None => Ok (default "" uri)
           | Some Decrypt =>
               match Decrypt (default "" uri) with
               | Ok decrypted => Ok decrypted
               | Err e => Err (ErrWrapf ("decrypt tenant " +:+ tenantID +:+ " URI") e)
               | Panic m => Panic m
               end
           end
  end.

(** ** Examples *)

Definition one_minute : Z := 60 * second.
Fixpoint acts (r : TenantRouter) (l : list action) : option TenantRouter :=
  match l with
  | [] => Some r
  | a :: l => match act one_minute r a with Some (Ok r') => acts r' l | _ => None end
  end.
Lemma acts_reachable l r r' : reachable one_minute r → acts r l = Some r' → reachable one_minute r'.
Proof.
  revert r. induction l as [|a l IH]; intros r Hr; cbn; [by intros [= <-]|].
  destruct (act one_minute r a) as [[r1| |]|] eqn:Ha; try done. apply IH. by eapply reachable_act.
Defined.

(** Two callers open a pool for the same tenant at once: the second one's is closed. *)
Definition two_callers : list action :=
  [ForTenant "acme" 0; ForTenant "acme" 0; Connect 0 (Ok "postgres://acme") None; Connect 1 (Ok "postgres://acme") None;
   Insert 1 1; Insert 0 2; GiveUp 0 3].
Definition after_two : TenantRouter :=
  mkRouter {["acme" := 0%nat]} [mkTenantPool 0 3] [mkDB "acme" "postgres://acme" 0; mkDB "acme" "postgres://acme" 1] []
    [("acme", Ok 0%nat); ("acme", Ok 0%nat)] false.

Lemma tenant_pools_kept_witness :
  acts router_init two_callers = Some after_two ∧
  (∀ t d, (t, Ok d) ∈ returned after_two → owner (dbs after_two) d = Some t).
Proof.
  assert (Hrun : acts router_init two_callers = Some after_two) by (vm_compute; reflexivity).
  split; [exact Hrun|].
  exact (proj1 (tenant_pools_kept one_minute after_two (acts_reachable _ _ _ (reachable_init one_minute) Hrun))).
Defined.

(** The pool a caller was given is closed under its hands when the tenant is evicted, or when the caller has used it for
    longer than the idle time without asking again. *)
Example pool_closed_in_use :
  (λ r, (returned r, db_closes <$> dbs r)) <$>
    acts router_init [ForTenant "acme" 0; Connect 0 (Ok "postgres://acme") None; Insert 0 0; EvictIdle (61 * second); EvictNext 0]
  = Some ([("acme", Ok 0%nat)], [1%nat]).
Proof. vm_compute. reflexivity. Qed.

(** A caller that finds another's pool may be given it after it was evicted and closed. *)
Example closed_pool_returned :
  (λ r, (returned r, db_closes <$> dbs r)) <$>
    acts router_init [ForTenant "acme" 0; ForTenant "acme" 0; Connect 0 (Ok "u") None; Connect 1 (Ok "u") None; Insert 1 0; Insert 0 0;
                      EvictTenant "acme"; CloseDB 0; GiveUp 0 1]
  = Some ([("acme", Ok 0%nat); ("acme", Ok 0%nat)], [1%nat; 1%nat]).
Proof. vm_compute. reflexivity. Qed.

(** The end does not stop calls: a pool opened afterwards stays in the map, and nothing cleans it up. *)
Example opened_after_close :
  (λ r, (PoolCount r, stopped r, db_closes <$> dbs r)) <$>
    acts router_init [ForTenant "acme" 0; Close; Connect 0 (Ok "u") None; Insert 0 0] = Some (1%nat, true, [0%nat]).
Proof. vm_compute. reflexivity. Qed.
