(* ===== verification/WhiteLabel.v ===== *)
(** * White-label themes: [internal/embedded/whitelabel/config.go]

    Colours, radii and the style sheet that is made of them.  Reading a number from the front of a text follows
    [fmt.Sscanf]; [parse_float] is [strconv.ParseFloat]. *)

From Stdlib Require Import Ascii SpecFloat Sorted.
From stdpp Require Import sorting.
From S2P Require Import Prelude GoStrings Float.

Record WhiteLabelConfig := mkWhiteLabel {
  Logo : string; PrimaryColor : string; SecondaryColor : string; CompanyName : string; CustomCSS : string; CustomDomain : string;
  FontFamily : string; BorderRadius : string; DarkMode : bool
}.
Record Theme := mkTheme {
  CSSVariables : gmap string string; LogoURL : string; th_CompanyName : string; th_CustomCSS : string; th_CustomDomain : string;
  GeneratedCSS : string
}.
Record ThemeGenerator := mkGenerator {
  DefaultPrimaryColor : string; DefaultSecondaryColor : string; DefaultFontFamily : string; DefaultBorderRadius : string
}.
Definition NewThemeGenerator : ThemeGenerator :=
  mkGenerator "#4F46E5" "#7C3AED" "-apple-system, BlinkMacSystemFont, 'Segoe UI', Roboto, sans-serif" "8px".

(** ** Colours *)

Definition digit_of (r : Z) : option Z :=
  if (48 <=? r) && (r <=? 57) then Some (r - 48)
  else if (97 <=? r) && (r <=? 102) then Some (r - 97 + 10)
  else if (65 <=? r) && (r <=? 70) then Some (r - 65 + 10)
  else None.
Definition hexToInt (s : string) : Z := foldl (λ val c, val * 16 + default 0 (digit_of c.1)) 0 (runes s).
Definition clamp (v min max : Z) : Z := if v <? min then min else if max <? v then max else v.

(** [%02x] of a byte. *)
Definition hex2 (v : Z) : string := of_bytes [hex_digit (v / 16); hex_digit (v mod 16)].
Definition substr (s : string) (i j : nat) : string := String.substring i (j - i) s.

Definition shade (percent v : Z) : Z :=
  clamp (if 0 <? percent then v + Z.quot ((255 - v) * percent) 100 else Z.quot (v * (100 + percent)) 100) 0 255.
Definition adjustColor (hex : string) (percent : Z) : string :=
  if negb (HasPrefix hex "#") || negb (String.length hex =? 7)%nat then hex
  else "#" +:+ hex2 (shade percent (hexToInt (substr hex 1 3))) +:+ hex2 (shade percent (hexToInt (substr hex 3 5)))
           +:+ hex2 (shade percent (hexToInt (substr hex 5 7))).

Definition namedColors : list string :=
  ["red"; "blue"; "green"; "black"; "white"; "gray"; "grey"; "orange"; "yellow"; "purple"; "pink"; "brown"; "transparent"; "inherit";
   "currentColor"].
Definition isValidColor (color : string) : bool :=
  if HasPrefix color "#" then
    let hex := substr color 1 (String.length color) in
    bool_decide (String.length hex ∈ [3; 6; 8]%nat) && forallb (λ c, bool_decide (is_Some (digit_of c.1))) (runes hex)
  else if HasPrefix color "rgb" || HasPrefix color "hsl" then true
  else bool_decide (ToLower color ∈ namedColors).

(** [strings.Contains] of one character. *)
Definition valid_domain (d : string) : bool := negb (contains_byte d " ") && contains_byte d ".".
Definition valid_logo (l : string) : bool := HasPrefix l "http://" || HasPrefix l "https://" || HasPrefix l "/" || HasPrefix l "data:".

Definition Validate (config : WhiteLabelConfig) : list string :=
  let check (v : string) (ok : bool) (msg : string) := if negb (bool_decide (v = "")) && negb ok then [msg +:+ quote v] else [] in
  check (PrimaryColor config) (isValidColor (PrimaryColor config)) "invalid primary color: " ++
  check (SecondaryColor config) (isValidColor (SecondaryColor config)) "invalid secondary color: " ++
  check (CustomDomain config) (valid_domain (CustomDomain config)) "invalid custom domain: " ++
  check (Logo config) (valid_logo (Logo config)) "logo must be a URL or data URI: ".

(** ** Radii *)

Definition is_digit (c : ascii) : bool := (48 <=? byte_val c) && (byte_val c <=? 57).
Fixpoint span_bytes (p : ascii → bool) (bs : list ascii) : list ascii * list ascii :=
  match bs with c :: rest => if p c then let '(a, b) := span_bytes p rest in (c :: a, b) else ([], bs) | [] => ([], []) end.
(** Takes one character of a set. *)
Definition accept (set : string) (bs : list ascii) : list ascii * list ascii :=
  match bs with c :: rest => if contains_byte set c then ([c], rest) else ([], bs) | [] => ([], []) end.

(** The text that [fmt] takes for a floating point number: decimal or hexadecimal digits, a point, an exponent. *)
Definition floatToken (bs : list ascii) : list ascii :=
  let '(n, b1) := accept "nN" bs in
  let '(a, b2) := if (length n =? 0)%nat then ([], b1) else accept "aA" b1 in
  let '(n2, b3) := if (length a =? 0)%nat then ([], b2) else accept "nN" b2 in
  if negb (length n2 =? 0)%nat then n ++ a ++ n2
  else
    let '(sign, b4) := accept "+-" b3 in
    let '(i, b5) := accept "iI" b4 in
    let '(n3, b6) := if (length i =? 0)%nat then ([], b5) else accept "nN" b5 in
    let '(f, b7) := if (length n3 =? 0)%nat then ([], b6) else accept "fF" b6 in
    let before := n ++ a ++ n2 ++ sign ++ i ++ n3 ++ f in
    if negb (length f =? 0)%nat then before
    else
      let '(zero, b8) := accept "0" b7 in
      let '(x, b9) := if (length zero =? 0)%nat then ([], b8) else accept "xX" b8 in
      let hexa := negb (length x =? 0)%nat in
      let digit c := if hexa then contains_byte "0123456789aAbBcCdDeEfF_" c else contains_byte "0123456789_" c in
      let '(whole, b10) := span_bytes digit b9 in
      let '(point, b11) := accept "." b10 in
      let '(frac, b12) := if (length point =? 0)%nat then ([], b11) else span_bytes digit b11 in
      let '(e, b13) := accept (if hexa then "pP" else "eEpP") b12 in
      let '(esign, b14) := if (length e =? 0)%nat then ([], b13) else accept "+-" b13 in
      let '(edigits, _) := if (length e =? 0)%nat then ([], b14) else span_bytes (contains_byte "0123456789_") b14 in
      before ++ zero ++ x ++ whole ++ point ++ frac ++ e ++ esign ++ edigits.

(** Blanks before the number are left out; a line break is an error. *)
Fixpoint skip_space (rs : list (Z * list ascii)) : option (list (Z * list ascii)) :=
  match rs with
  | [] => Some []
  | (r, _) :: rest =>
      if r =? 10 then None
      else if r =? 13 then match rest with (10, _) :: _ => None | _ => skip_space rest end
      else if is_space r then skip_space rest else Some rs
  end.

Section themes.
Context (parse_float : string → option float64).

(** A mantissa and a power of two, decimal or not. *)
Definition convertFloat (tok : string) : option float64 :=
  match SplitN2 tok "p" with
  | [m; e] =>
      if contains_byte tok "x" || contains_byte tok "X" then parse_float tok
      else f ← parse_float m; z ← parse_int e; Some (SFldexp fprec femax f z)
  | _ => parse_float tok
  end.
(** [fmt.Sscanf(s, "%f", &v)]. *)
Definition scan_float (s : string) : option float64 :=
  rs ← skip_space (runes s);
  match rs with [] => None | _ => convertFloat (of_bytes (floatToken (concat (map snd rs)))) end.

(** [%.0f]: the nearest integer, ties to even. *)
Definition round_even (m : positive) (e : Z) : Z :=
  if 0 <=? e then Z.pos m * 2 ^ e
  else let d := 2 ^ (- e) in
       let q := Z.pos m / d in let r := Z.pos m mod d in
       if (2 * r <? d) || ((2 * r =? d) && Z.even q) then q else q + 1.
Definition sprintf_0f (f : float64) : string :=
  match f with
  | S754_nan => "NaN"
  | S754_infinity s => if s then "-Inf" else "+Inf"
  | S754_zero s => if s then "-0" else "0"
  | S754_finite s m e => (if s then "-" else "") +:+ pretty (round_even m e)
  end.

(** From the first character that is neither a digit nor a point. *)
Definition unit_of (radius : string) : string := of_bytes (span_bytes (λ c, is_digit c || bool_decide (c = "."%char)) (bytes_of radius)).2.
Definition adjustRadius (radius : string) (factor : float64) : string :=
  match scan_float radius with
  | None => radius
  | Some value =>
      let unit := unit_of radius in
      sprintf_0f (f_mul value factor) +:+ (if bool_decide (unit = "") then "px" else unit)
  end.

(** ** The style sheet *)

(** The insertion sort of the code, one key after the other. *)
Fixpoint sink (k : string) (sorted_rev : list string) : list string :=
  match sorted_rev with
  | p :: rest => if String.ltb k p then p :: sink k rest else k :: sorted_rev
  | [] => [k]
  end.
Definition sort_keys (keys : list string) : list string := reverse (foldl (λ acc k, sink k acc) [] keys).
Definition sortedKeys (m : gmap string string) : list string := sort_keys (map_to_list m).*1.

Definition newline : string := String (ascii_of_nat 10) "".
Definition base_css : string := ".ff-container {
  font-family: var(--ff-font-family);
  background-color: var(--ff-bg-primary);
  color: var(--ff-text-primary);
}

.ff-card {
  background-color: var(--ff-bg-surface);
  border: 1px solid var(--ff-border-color);
  border-radius: var(--ff-border-radius);
  padding: 1.5rem;
}

.ff-button-primary {
  background-color: var(--ff-primary);
  color: #ffffff;
  border: none;
  border-radius: var(--ff-border-radius-sm);
  padding: 0.5rem 1rem;
  cursor: pointer;
  font-family: var(--ff-font-family);
}

.ff-button-primary:hover {
  background-color: var(--ff-primary-hover);
}

.ff-button-secondary {
  background-color: var(--ff-secondary);
  color: #ffffff;
  border: none;
  border-radius: var(--ff-border-radius-sm);
  padding: 0.5rem 1rem;
  cursor: pointer;
  font-family: var(--ff-font-family);
}

.ff-button-secondary:hover {
  background-color: var(--ff-secondary-hover);
}

.ff-input {
  border: 1px solid var(--ff-border-color);
  border-radius: var(--ff-border-radius-sm);
  padding: 0.5rem 0.75rem;
  font-family: var(--ff-font-family);
  background-color: var(--ff-bg-primary);
  color: var(--ff-text-primary);
}

.ff-text-secondary {
  color: var(--ff-text-secondary);
}
".

Definition generateCSS (vars : gmap string string) (customCSS : string) : string :=
  ":root {" +:+ newline +:+ String.concat "" (map (λ k, "  " +:+ k +:+ ": " +:+ default "" (vars !! k) +:+ ";" +:+ newline) (sortedKeys vars)) +:+
  "}" +:+ newline +:+ newline +:+ base_css +:+
  (if bool_decide (customCSS = "") then ""
   else newline +:+ "/* Custom CSS overrides */" +:+ newline +:+ customCSS +:+ newline).

Definition or_default (v d : string) : string := if bool_decide (v = "") then d else v.
(** 0.5 and 1.5. *)
Definition one_half : float64 := S754_finite false 4503599627370496 (-53).
Definition three_halves : float64 := S754_finite false 6755399441055744 (-52).

Definition theme_vars (tg : ThemeGenerator) (config : WhiteLabelConfig) : gmap string string :=
  let primary := or_default (PrimaryColor config) (DefaultPrimaryColor tg) in
  let secondary := or_default (SecondaryColor config) (DefaultSecondaryColor tg) in
  let fontFamily := or_default (FontFamily config) (DefaultFontFamily tg) in
  let borderRadius := or_default (BorderRadius config) (DefaultBorderRadius tg) in
  list_to_map ([
    ("--ff-primary", primary); ("--ff-primary-hover", adjustColor primary (-10)); ("--ff-primary-light", adjustColor primary 40);
    ("--ff-secondary", secondary); ("--ff-secondary-hover", adjustColor secondary (-10)); ("--ff-secondary-light", adjustColor secondary 40);
    ("--ff-font-family", fontFamily); ("--ff-border-radius", borderRadius);
    ("--ff-border-radius-sm", adjustRadius borderRadius one_half); ("--ff-border-radius-lg", adjustRadius borderRadius three_halves)] ++
   (if DarkMode config
    then [("--ff-bg-primary", "#1a1a2e"); ("--ff-bg-secondary", "#16213e"); ("--ff-bg-surface", "#0f3460"); ("--ff-text-primary", "#e6e6e6");
          ("--ff-text-secondary", "#a6a6a6"); ("--ff-border-color", "#2a2a4a")]
    else [("--ff-bg-primary", "#ffffff"); ("--ff-bg-secondary", "#f9fafb"); ("--ff-bg-surface", "#f3f4f6"); ("--ff-text-primary", "#111827");
          ("--ff-text-secondary", "#6b7280"); ("--ff-border-color", "#e5e7eb")])).

Definition GenerateTheme (tg : ThemeGenerator) (config : WhiteLabelConfig) : Theme :=
  let vars := theme_vars tg config in
  mkTheme vars (Logo config) (CompanyName config) (CustomCSS config) (CustomDomain config) (generateCSS vars (CustomCSS config)).

(** ** Radii in pixels *)

Lemma span_digits p ds rest : Forall (λ c, p c = true) ds → match rest with [] => True | c :: _ => p c = false end → span_bytes p (ds ++ rest) = (ds, rest).
Proof.
  intros Hds Hrest. induction Hds as [|c ds Hc _ IH]; cbn; [destruct rest as [|c rest]; [done|by cbn; rewrite Hrest]|].
  by rewrite Hc, IH.
Qed.

Lemma digit_cases c : is_digit c = true → c ∈ bytes_of "0123456789".
Proof. destruct c as [[] [] [] [] [] [] [] []]; intros Hc; try discriminate Hc; apply (bool_decide_unpack _); exact I. Qed.
Lemma digits_set ds : Forall (λ c, is_digit c = true) ds → Forall (λ c, contains_byte "0123456789_" c = true) ds.
Proof.
  intros H. eapply list.Forall_impl; [exact H|]. intros c Hc%digit_cases. set_unfold in Hc. repeat destruct Hc as [->|Hc]; done.
Qed.

(** The [p] of pixels is read as the start of an exponent. *)
Lemma floatToken_px ds : ds ≠ [] → Forall (λ c, is_digit c = true) ds → floatToken (ds ++ bytes_of "px") = ds ++ ["p"%char].
Proof.
  intros Hne Hds. destruct ds as [|d ds]; [done|]. pose proof Hds as Hall. apply list.Forall_cons in Hds as [Hd%digit_cases Hds].
  assert (Hx : accept "xX" (ds ++ bytes_of "px") = ([], ds ++ bytes_of "px")).
  { destruct Hds as [|c ds Hc%digit_cases _]; [done|]. cbn. set_unfold in Hc. repeat destruct Hc as [->|Hc]; done. }
  pose proof (span_digits (contains_byte "0123456789_") ds (bytes_of "px") (digits_set ds Hds) eq_refl) as Hspan.
  pose proof (span_digits (contains_byte "0123456789_") (d :: ds) (bytes_of "px") (digits_set _ Hall) eq_refl) as Hspan'.
  set (L := (d :: ds) ++ bytes_of "px") in *.
  assert (Hno : accept "nN" L = ([], L) ∧ accept "+-" L = ([], L) ∧ accept "iI" L = ([], L)).
  { unfold L. cbn. set_unfold in Hd. repeat destruct Hd as [->|Hd]; done. }
  destruct Hno as (Hn & Hs & Hi).
  assert (Hzero : accept "0" L = ([], L) ∨ d = "0"%char ∧ accept "0" L = (["0"%char], ds ++ bytes_of "px")).
  { unfold L. cbn. set_unfold in Hd. repeat destruct Hd as [->|Hd]; auto. done. }
  unfold floatToken. rewrite Hn. cbn [length Nat.eqb negb]. rewrite Hs. cbn [length Nat.eqb negb]. rewrite Hi. cbn [length Nat.eqb negb app].
  destruct Hzero as [->|[-> ->]]; cbn [length Nat.eqb negb app].
  - match goal with |- context [span_bytes ?p L] => change p with (contains_byte "0123456789_") end. rewrite Hspan'. by cbn.
  - rewrite Hx. cbn [length Nat.eqb negb app].
    match goal with |- context [span_bytes ?p (ds ++ _)] => change p with (contains_byte "0123456789_") end. rewrite Hspan. by cbn.
Qed.

(** A radius in pixels is never scaled: no number can be read from it, since the [p] has no exponent. *)
Theorem px_radius_unscaled radius factor :
  radius ≠ "" → Forall (λ c, is_digit c = true) (bytes_of radius) → adjustRadius (radius +:+ "px") factor = radius +:+ "px".
Proof.
  intros Hne Hds. unfold adjustRadius. set (s := radius +:+ "px").
  assert (Hb : bytes_of s = bytes_of radius ++ bytes_of "px") by apply bytes_of_app.
  assert (Hascii : Forall is_ascii (bytes_of s)).
  { rewrite Hb. apply list.Forall_app. split; [|by repeat constructor]. eapply list.Forall_impl; [exact Hds|].
    intros c Hc%andb_prop. apply Is_true_true. unfold is_ascii. destruct Hc. lia. }
  assert (Hskip : skip_space (runes s) = Some (runes s)).
  { rewrite (runes_ascii s Hascii), Hb. destruct (bytes_of radius) as [|c rest] eqn:Hr.
    - exfalso. apply Hne. by rewrite <- (of_bytes_of radius), Hr.
    - cbn. apply list.Forall_cons in Hds as [Hc _]. unfold is_digit in Hc. apply andb_prop in Hc as [H1 H2].
      destruct (Z.eqb_spec (byte_val c) 10); [lia|]. destruct (Z.eqb_spec (byte_val c) 13); [lia|].
      assert (is_space (byte_val c) = false) as ->; [|done].
      assert (Hv : byte_val c ∈ [48; 49; 50; 51; 52; 53; 54; 55; 56; 57]) by (set_unfold; lia).
      set_unfold in Hv. repeat destruct Hv as [->|Hv]; done. }
  assert (scan_float s = None) as ->; [|done].
  unfold scan_float. rewrite Hskip. cbn [mbind option_bind].
  assert (concat (map snd (runes s)) = bytes_of s) as ->.
  { rewrite (runes_ascii s Hascii), map_map. cbn. clear. induction (bytes_of s) as [|c bs IH]; cbn; [done|]. by rewrite IH. }
  destruct (runes s); [done|]. rewrite Hb, floatToken_px; [|intros Hn; apply Hne; by rewrite <- (of_bytes_of radius), Hn|done].
  unfold convertFloat. assert (of_bytes (bytes_of radius ++ ["p"%char]) = radius +:+ String "p" "") as ->.
  { apply bytes_inj. by rewrite bytes_of_bytes, bytes_of_app. }
  rewrite SplitN2_sep.
  - assert (Hnox : ∀ set, (∀ c, is_digit c = true → c ≠ set) → "p"%char ≠ set → contains_byte (radius +:+ "p") set = false).
    { intros set Hset Hp. unfold contains_byte. apply bool_decide_eq_false_2. rewrite bytes_of_app. intros [Hin|Hin]%list.elem_of_app.
      - by apply (proj1 (list.Forall_forall _ _) Hds), Hset in Hin.
      - by apply list_elem_of_singleton in Hin. }
    rewrite !Hnox by first [done | intros c Hc ->; discriminate Hc]. cbn. by destruct (parse_float radius).
  - intros Hin. by apply (proj1 (list.Forall_forall _ _) Hds) in Hin.
Qed.
End themes.

(** ** Colours that were adjusted *)

Lemma clamp_range v : 0 ≤ clamp v 0 255 ≤ 255.
Proof. unfold clamp. destruct (Z.ltb_spec v 0); [lia|]. destruct (Z.ltb_spec 255 v); lia. Qed.

(** A lighter channel is not darker, a darker one not lighter. *)
Lemma shade_moves percent v : 0 ≤ v ≤ 255 → -100 ≤ percent ≤ 100 →
  0 ≤ shade percent v ≤ 255 ∧ (0 < percent → v ≤ shade percent v) ∧ (percent ≤ 0 → shade percent v ≤ v).
Proof.
  intros Hv Hp. split; [apply clamp_range|]. unfold shade.
  assert (Hc : ∀ x, 0 ≤ x → (v ≤ x → v ≤ clamp x 0 255) ∧ (x ≤ v → clamp x 0 255 ≤ v)).
  { intros x Hx. unfold clamp. destruct (Z.ltb_spec x 0); [lia|]. destruct (Z.ltb_spec 255 x); lia. }
  destruct (Z.ltb_spec 0 percent).
  - pose proof (Z.quot_pos ((255 - v) * percent) 100 ltac:(nia) ltac:(lia)). split; [|lia]. intros _. apply Hc; lia.
  - split; [lia|]. intros _. rewrite Z.quot_div_nonneg by nia. apply Hc; [apply Z.div_pos; nia|apply Z.div_le_upper_bound; nia].
Qed.

Lemma hex2_digits v : 0 ≤ v ≤ 255 → ∃ a b, bytes_of (hex2 v) = [a; b] ∧
  Forall (λ c, is_ascii c ∧ is_Some (digit_of (byte_val c))) [a; b].
Proof.
  intros Hv. exists (hex_digit (v / 16)), (hex_digit (v mod 16)). split; [apply bytes_of_bytes|].
  assert (Hd : ∀ z, 0 ≤ z < 16 → is_ascii (hex_digit z) ∧ is_Some (digit_of (byte_val (hex_digit z)))).
  { intros z Hz. assert (Hin : z ∈ [0; 1; 2; 3; 4; 5; 6; 7; 8; 9; 10; 11; 12; 13; 14; 15]) by (set_unfold; lia).
    set_unfold in Hin. repeat destruct Hin as [->|Hin]; first [done | split; [done|eexists; vm_compute; reflexivity]]. }
  assert (0 ≤ v / 16 < 16) by (split; [apply Z.div_pos; lia|apply Z.div_lt_upper_bound; lia]).
  pose proof (Z.mod_pos_bound v 16 ltac:(lia)). constructor; [by apply Hd|]. constructor; [by apply Hd|constructor].
Qed.

(** An adjusted colour is a valid colour when it was one; anything but six hexadecimal digits stays as it is. *)
Theorem adjustColor_valid color percent : isValidColor color = true → isValidColor (adjustColor color percent) = true.
Proof.
  intros Hv. unfold adjustColor. destruct (negb _ || negb _); [done|].
  assert (Hs : ∀ s, 0 ≤ shade percent s ≤ 255) by (intros; apply clamp_range).
  set (r := shade percent _). set (g := shade percent (hexToInt (substr color 3 5))). set (b := shade percent (hexToInt (substr color 5 7))).
  destruct (hex2_digits r (Hs _)) as (r1 & r2 & Hr & Hr'), (hex2_digits g (Hs _)) as (g1 & g2 & Hg & Hg'), (hex2_digits b (Hs _)) as (b1 & b2 & Hb & Hb').
  set (hex := hex2 r +:+ hex2 g +:+ hex2 b). assert (Hhex : bytes_of hex = [r1; r2; g1; g2; b1; b2]) by (unfold hex; by rewrite !bytes_of_app, Hr, Hg, Hb).
  unfold isValidColor. rewrite HasPrefix_app. assert (substr ("#" +:+ hex) 1 (String.length ("#" +:+ hex)) = hex) as ->.
  { apply bytes_inj. unfold substr. rewrite bytes_substring, length_bytes, bytes_of_app, Hhex. reflexivity. }
  rewrite length_bytes, Hhex. cbn [length]. rewrite bool_decide_eq_true_2 by (by right; left). cbn [andb].
  assert (Hall : Forall (λ c, is_ascii c ∧ is_Some (digit_of (byte_val c))) (bytes_of hex)).
  { rewrite Hhex. change [r1; r2; g1; g2; b1; b2] with ([r1; r2] ++ [g1; g2] ++ [b1; b2]). by rewrite !list.Forall_app. }
  rewrite runes_ascii by (eapply list.Forall_impl; [exact Hall|by intros c []]).
  apply forallb_forall. intros x Hx%in_map_iff. destruct Hx as (c & <- & Hin%list_elem_of_In).
  apply bool_decide_eq_true_2. by apply (proj1 (list.Forall_forall _ _) Hall).
Qed.

(** ** The order of the variables *)

Lemma ascii_compare_eq a b : Ascii.compare a b = Eq ↔ a = b.
Proof. split; [apply Ascii.compare_eq_iff|intros ->; unfold Ascii.compare; apply N.compare_refl]. Qed.

#[local] Instance leb_trans : Transitive (λ s t, String.leb s t = true).
Proof.
  intros s t u. unfold String.leb. revert t u. induction s as [|a s IH]; intros [|b t] [|c u]; cbn; try done.
  destruct (Ascii.compare a b) eqn:Hab; try done.
  - apply ascii_compare_eq in Hab as ->. destruct (Ascii.compare b c); auto. apply IH.
  - intros _. destruct (Ascii.compare b c) eqn:Hbc; try done; unfold Ascii.compare in *.
    + apply N.compare_eq_iff in Hbc. by rewrite <- Hbc, Hab.
    + apply N.compare_lt_iff in Hab, Hbc. assert (N.compare (N_of_ascii a) (N_of_ascii c) = Lt) as -> by (apply N.compare_lt_iff; by etrans). done.
Qed.
#[local] Instance leb_antisym : AntiSymm (=) (λ s t, String.leb s t = true).
Proof. intros s t Hs Ht. by apply String.leb_antisym. Qed.

Lemma ltb_leb s t : String.ltb s t = false → String.leb t s = true.
Proof.
  unfold String.ltb, String.leb. rewrite (String.compare_antisym t s). by destruct (String.compare s t).
Qed.
Lemma ltb_le s t : String.ltb s t = true → String.leb s t = true.
Proof. unfold String.ltb, String.leb. by destruct (String.compare s t). Qed.

Abbreviation above := (λ s t, String.leb t s = true).
Lemma sink_perm k l : sink k l ≡ₚ k :: l.
Proof. induction l as [|p l IH]; cbn; [done|]. destruct (String.ltb k p); [|done]. rewrite IH. constructor. Qed.
Lemma sink_sorted k l : StronglySorted above l → StronglySorted above (sink k l).
Proof.
  induction 1 as [|p l Hs IH Hall]; cbn; [repeat constructor|]. destruct (String.ltb k p) eqn:Hk.
  - constructor; [done|]. rewrite sink_perm. constructor; [by apply ltb_le|done].
  - apply ltb_leb in Hk. constructor; [by constructor|]. constructor; [done|]. eapply list.Forall_impl; [exact Hall|].
    intros x Hx. cbn in *. by apply (leb_trans x p k).
Qed.
Lemma insertion_sort_spec keys : sort_keys keys ≡ₚ keys ∧ Sorted (λ s t, String.leb s t = true) (sort_keys keys).
Proof.
  unfold sort_keys. assert (H : ∀ acc, StronglySorted above acc →
    foldl (λ acc k, sink k acc) acc keys ≡ₚ keys ++ acc ∧ StronglySorted above (foldl (λ acc k, sink k acc) acc keys)).
  { induction keys as [|k keys IH]; intros acc Hacc; cbn; [done|]. destruct (IH (sink k acc) (sink_sorted k acc Hacc)) as [Hp Hs].
    split; [|done]. rewrite Hp, sink_perm. by rewrite Permutation_middle. }
  destruct (H [] ltac:(constructor)) as [Hp Hs]. split; [by rewrite reverse_Permutation, Hp, app_nil_r|].
  apply Sorted_reverse. by apply StronglySorted_Sorted.
Qed.

(** The style sheet does not depend on the order in which the map is walked: the hand-written sort gives any listing of the
    keys in the one sorted order. *)
Theorem sorted_keys_canonical (m : gmap string string) keys :
  keys ≡ₚ (map_to_list m).*1 → sort_keys keys = sortedKeys m ∧ Sorted (λ s t, String.leb s t = true) (sortedKeys m).
Proof.
  intros Hp. destruct (insertion_sort_spec keys) as [H1 H2], (insertion_sort_spec (map_to_list m).*1) as [H3 H4]. split; [|exact H4].
  apply (Sorted_unique (λ s t, String.leb s t = true)); [done..|]. unfold sortedKeys. by rewrite H1, H3.
Qed.

(** ** Examples *)

Example token_px : of_bytes (floatToken (bytes_of "8px")) = "8p".
Proof. reflexivity. Qed.
Example token_rem : of_bytes (floatToken (bytes_of "0.5rem")) = "0.5".
Proof. reflexivity. Qed.
Example token_em : of_bytes (floatToken (bytes_of "1em")) = "1e".
Proof. reflexivity. Qed.
Example lighter : adjustColor "#4F46E5" 40 = "#9590ef" ∧ adjustColor "#4F46E5" (-10) = "#473fce" ∧ adjustColor "#fff" 40 = "#fff".
Proof. vm_compute. done. Qed.

(** A toy parser: digits only. *)
Definition toy_parse (s : string) : option float64 := f_of_Z <$> parse_int s.

Lemma px_radius_unscaled_witness : adjustRadius toy_parse "8px" one_half = "8px".
Proof. refine (px_radius_unscaled toy_parse "8" one_half _ _); [done|by repeat constructor]. Defined.
Example plain_radius_scaled : adjustRadius toy_parse "8" one_half = "4px" ∧ adjustRadius toy_parse "8rem" three_halves = "12rem".
Proof. vm_compute. done. Qed.

Lemma adjustColor_valid_witness : isValidColor (adjustColor "#7C3AED" (-10)) = true ∧ adjustColor "#7C3AED" (-10) = "#6f34d5".
Proof. split; [|vm_compute; reflexivity]. apply (adjustColor_valid "#7C3AED" (-10)). vm_compute. reflexivity. Defined.

Lemma sorted_keys_canonical_witness : sort_keys ["b"; "a"] = sortedKeys {["a" := "1"; "b" := "2"]}.
Proof.
  refine (proj1 (sorted_keys_canonical {["a" := "1"; "b" := "2"]} ["b"; "a"] _)).
  apply (bool_decide_unpack _). vm_compute. exact I.
Defined.

(** Whatever follows [rgb] is taken for a colour, and is written into the style sheet as it is. *)
Example color_injects :
  Validate (mkWhiteLabel "" "rgb(0,0,0);} body { display: none" "" "" "" "" "" "" false) = [].
Proof. reflexivity. Qed.
(** The named colour [currentColor] is never recognised: its name is looked up in lower case. *)
Example current_color_rejected : isValidColor "currentColor" = false ∧ isValidColor "currentcolor" = false.
Proof. split; reflexivity. Qed.
