(* ===== verification/Redis.v ===== *)
(** * Redis: [internal/storage/redis], [internal/ratelimit/distributed.go]

    The rate limiter with its script, the limiter the connectors share, and the caches of configurations and schemas.  The
    server and its client library are the class [RedisServer], a world [W] with a clock; [RedisLaws] is their documented behaviour.
    Values are texts; times are nanoseconds.  Contexts are handed on to the library and do not appear. *)

From Stdlib Require Import Ascii.
From S2P Require Import Prelude GoStrings Errors Value RestApi.

(** The commands of a script. *)
Class RedisCommands (W : Type) := {
  cmd_GET : string → W → option Z;
  cmd_INCR : string → M W Z;
  cmd_EXPIRE : string → Z → W → W
}.
(** What the program uses of the library; a key that is missing is the error [redis_nil]. *)
Class RedisServer (W : Type) := {
  rdb_Get : string → M W (res string);
  rdb_Set : string → string → Z → M W (res unit);
  rdb_Del : list string → M W (res unit);
  rdb_Exists : string → M W (res Z);
  rdb_Expire : string → Z → M W (res unit);
  rdb_Scan : Z → string → M W (res (list string * Z));
  rdb_EvalSha : string → string → Z → Z → M W (res Z);
  rdb_ScriptLoad : string → M W (res string)
}.

Definition redis_nil : error := ErrText "redis: nil".
Definition isNilError (e : error) : bool := bool_decide (Errors.Error e = "redis: nil").

(** ** The rate limiter *)

(** The script [rateLimitScript], which the server runs as one step. *)
Definition rate_limit_script {W} `{!RedisCommands W} (key : string) (limit window : Z) : M W Z := λ w,
  let current := default 0 (cmd_GET key w) in
  if limit <=? current then (0, w)
  else
    let '(current, w) := cmd_INCR key w in
    let w := if current =? 1 then cmd_EXPIRE key window w else w in
    if limit <? current then (0, w) else (1, w).

Section limiter.
Context {W : Type} `{!RedisServer W}.

Record RateLimiter := mkRateLimiter { scriptSHA : string; rl_prefix : string }.

Context (rateLimitScript : string).

Definition NewRateLimiter (prefix : string) : M W (res RateLimiter) :=
  let prefix := if bool_decide (prefix = "") then "flowforge:ratelimit:" else prefix in
  sha ← rdb_ScriptLoad rateLimitScript;
  mret match sha with
       | Ok sha => Ok (mkRateLimiter sha prefix)
       | Err e => Err (ErrWrapf "load rate limit script" e)
       | Panic m => Panic m
       end.

Definition isNoScriptError (e : error) : bool := HasPrefix (Errors.Error e) "NOSCRIPT".

(** [int(window.Seconds())], at least one. *)
Definition window_secs (window : Z) : Z := let s := Z.quot window second in if s <? 1 then 1 else s.

(** [Allow]; a limiter is a pointer, whose script is loaded again when the server has forgotten it. *)
Definition Allow (rl : RateLimiter) (key : string) (limit window : Z) : M W (res bool * RateLimiter) :=
  let fullKey := rl_prefix rl +:+ key in
  let windowSecs := window_secs window in
  result ← rdb_EvalSha (scriptSHA rl) fullKey limit windowSecs;
  match result with
  | Ok r => mret (Ok (bool_decide (r = 1)), rl)
  | Panic m => mret (Panic m, rl)
  | Err e =>
      if isNoScriptError e then
        sha ← rdb_ScriptLoad rateLimitScript;
        match sha with
        | Err e => mret (Err (ErrWrapf "reload rate limit script" e), rl)
        | Panic m => mret (Panic m, rl)
        | Ok sha =>
            let rl := mkRateLimiter sha (rl_prefix rl) in
            result ← rdb_EvalSha sha fullKey limit windowSecs;
            mret (match result with
                  | Ok r => Ok (bool_decide (r = 1))
                  | Err e => Err (ErrWrapf "rate limit eval after reload" e)
                  | Panic m => Panic m
                  end, rl)
        end
      else mret (Err (ErrWrapf "rate limit eval" e), rl)
  end.

Definition Remaining (rl : RateLimiter) (key : string) (limit : Z) : M W (res Z) :=
  val ← rdb_Get (rl_prefix rl +:+ key);
  mret match val with
       | Ok s => match parse_int s with
                 | Some v => let remaining := limit - v in Ok (if remaining <? 0 then 0 else remaining)
                 | None => Err (ErrWrapf "get remaining" (ErrText ("strconv.ParseInt: parsing " +:+ quote s +:+ ": invalid syntax")))
                 end
       | Err e => if isNilError e then Ok limit else Err (ErrWrapf "get remaining" e)
       | Panic m => Panic m
       end.
Definition Reset (rl : RateLimiter) (key : string) : M W (res unit) := rdb_Del [rl_prefix rl +:+ key].

(** ** The shared limiter of the connectors *)

Record DistributedAdapter := mkAdapter { ad_key : string; ad_limit : Z; ad_window : Z }.
Definition pollWait : Z := 100 * millisecond.

(** [pause] waits for the poll time or the end of the context, whose error it gives then. *)
Context (pause : M W (option error)).
Fixpoint Wait (fuel : nat) (d : DistributedAdapter) (rl : RateLimiter) : M W (option (res unit * RateLimiter)) :=
  match fuel with
  | O => mret None
  | S fuel =>
      '(allowed, rl) ← Allow rl (ad_key d) (ad_limit d) (ad_window d);
      match allowed with
      | Err e => mret (Some (Err (ErrWrapf "distributed rate limit check" e), rl))
      | Panic m => mret (Some (Panic m, rl))
      | Ok true => mret (Some (Ok tt, rl))
      | Ok false => done ← pause; match done with Some e => mret (Some (Err e, rl)) | None => Wait fuel d rl end
      end
  end.
End limiter.

Definition BuildKey (connectorType tenantID : string) : string := tenantID +:+ ":" +:+ connectorType.
Definition BuildKeyWithWindow (connectorType tenantID window : string) : string := tenantID +:+ ":" +:+ connectorType +:+ ":" +:+ window.

(** ** The caches *)

Definition configCachePrefix : string := "flowforge:config:".
Definition schemaCachePrefix : string := "flowforge:schema:".
Definition defaultCacheTTL : Z := 15 * 60 * second.
Definition TenantConfigCachePrefix (tenantID : string) : string := "flowforge:" +:+ tenantID +:+ ":config:".
Definition TenantSchemaCachePrefix (tenantID : string) : string := "flowforge:" +:+ tenantID +:+ ":schema:".

(** [ConfigCache] and [SchemaCache], which differ in their prefix and the text of their errors. *)
Record Cache := mkCache { c_kind : string; c_ttl : Z; c_prefix : string }.
Definition ttl_or_default (ttl : Z) : Z := if ttl =? 0 then defaultCacheTTL else ttl.
Definition NewConfigCache (ttl : Z) : Cache := mkCache "config" (ttl_or_default ttl) configCachePrefix.
Definition NewTenantConfigCache (tenantID : string) (ttl : Z) : Cache := mkCache "config" (ttl_or_default ttl) (TenantConfigCachePrefix tenantID).
Definition NewSchemaCache (ttl : Z) : Cache := mkCache "schema" (ttl_or_default ttl) schemaCachePrefix.
Definition NewTenantSchemaCache (tenantID : string) (ttl : Z) : Cache := mkCache "schema" (ttl_or_default ttl) (TenantSchemaCachePrefix tenantID).

Section caches.
Context {W : Type} `{!RedisServer W}.

Definition cache_Get (c : Cache) (id : string) : M W (res (option string)) :=
  data ← rdb_Get (c_prefix c +:+ id);
  mret match data with
       | Ok s => Ok (Some s)
       | Err e => if isNilError e then Ok None else Err (ErrWrapf (c_kind c +:+ " cache get") e)
       | Panic m => Panic m
       end.
Definition cache_Set (c : Cache) (id config : string) : M W (res unit) :=
  out ← rdb_Set (c_prefix c +:+ id) config (c_ttl c);
  mret match out with Err e => Err (ErrWrapf (c_kind c +:+ " cache set") e) | x => x end.
Definition Invalidate (c : Cache) (id : string) : M W (res unit) := rdb_Del [c_prefix c +:+ id].

(** The keys are asked for by a cursor, which is zero at the start and at the end. *)
Fixpoint delete_loop (fuel : nat) (cursor : Z) (pattern : string) : M W (option (res unit)) :=
  match fuel with
  | O => mret None
  | S fuel =>
      page ← rdb_Scan cursor pattern;
      match page with
      | Err e => mret (Some (Err (ErrWrapf ("scan pattern " +:+ quote pattern) e)))
      | Panic m => mret (Some (Panic m))
      | Ok (keys, nextCursor) =>
          deleted ← (match keys with [] => mret (Ok tt) | _ => rdb_Del keys end);
          match deleted with
          | Err e => mret (Some (Err (ErrWrapf "delete keys" e)))
          | Panic m => mret (Some (Panic m))
          | Ok _ => if nextCursor =? 0 then mret (Some (Ok tt)) else delete_loop fuel nextCursor pattern
          end
      end
  end.
Definition deleteByPattern (fuel : nat) (pattern : string) : M W (option (res unit)) := delete_loop fuel 0 pattern.
Definition InvalidateAll (fuel : nat) (c : Cache) : M W (option (res unit)) := deleteByPattern fuel (c_prefix c +:+ "*").
End caches.

(** ** The behaviour of the server *)

(** [peek_key] is the counter of a key that is alive, with its deadline; [loaded] says which scripts the server knows. *)
Class RedisLaws (W : Type) `{!RedisCommands W, !RedisServer W} (rateLimitScript : string) := {
  clock : W → Z;
  peek_key : string → W → option (Z * option Z);
  loaded : string → W → Prop;
  loaded_dec sha w :: Decision (loaded sha w);
  GET_peek k w : cmd_GET k w = fst <$> peek_key k w;
  INCR_value k w : (cmd_INCR k w).1 = default 0 (fst <$> peek_key k w) + 1;
  INCR_peek k k' w :
    peek_key k' (cmd_INCR k w).2 = if decide (k' = k) then Some (default 0 (fst <$> peek_key k w) + 1, peek_key k w ≫= snd) else peek_key k' w;
  INCR_clock k w : clock (cmd_INCR k w).2 = clock w;
  EXPIRE_peek k k' n w : 0 < n →
    peek_key k' (cmd_EXPIRE k n w) = if decide (k' = k) then (λ p, (p.1, Some (clock w + n * second))) <$> peek_key k w else peek_key k' w;
  EXPIRE_clock k n w : clock (cmd_EXPIRE k n w) = clock w;
  peek_alive k w v d : peek_key k w = Some (v, Some d) → clock w < d;
  eval_loaded sha k limit window w : loaded sha w → rdb_EvalSha sha k limit window w = let '(r, w) := rate_limit_script k limit window w in (Ok r, w);
  eval_unknown sha k limit window w :
    ¬ loaded sha w → ∃ e, isNoScriptError e = true ∧ rdb_EvalSha sha k limit window w = (Err e, w);
  load_script w : ∃ sha w', rdb_ScriptLoad rateLimitScript w = (Ok sha, w') ∧ loaded sha w' ∧ clock w' = clock w ∧ (∀ k, peek_key k w' = peek_key k w)
}.

(** ** What the limiter allows *)

Section limits.
Context {W : Type} `{!RedisCommands W, !RedisServer W} (rateLimitScript : string) `{Hlaws : !RedisLaws W rateLimitScript}.
Abbreviation clock := (clock (rateLimitScript := rateLimitScript)).
Abbreviation peek_key := (peek_key (rateLimitScript := rateLimitScript)).
Abbreviation loaded := (loaded (rateLimitScript := rateLimitScript)).

(** The counter of a key, and the world after one more. *)
Definition count (k : string) (w : W) : Z := default 0 (fst <$> peek_key k w).
Record counted (k : string) (window : Z) (w w' : W) : Prop := {
  counted_clock : clock w' = clock w;
  counted_key : peek_key k w' = Some (count k w + 1, if count k w =? 0 then Some (clock w + window * second) else peek_key k w ≫= snd);
  counted_other : ∀ k', k' ≠ k → peek_key k' w' = peek_key k' w
}.
Definition same (w w' : W) : Prop := clock w' = clock w ∧ ∀ k, peek_key k w' = peek_key k w.

Lemma script_spec k limit window w : 0 < window →
  let '(r, w') := rate_limit_script k limit window w in
  if decide (count k w < limit) then r = 1 ∧ counted k window w w' else r = 0 ∧ w' = w.
Proof using Hlaws.
  intros Hpos. unfold rate_limit_script. rewrite (GET_peek (rateLimitScript := rateLimitScript)). fold (count k w).
  destruct (decide (count k w < limit)) as [Hlt|Hlt]; [rewrite (proj2 (Z.leb_gt _ _)) by lia|by rewrite (proj2 (Z.leb_le _ _)) by lia].
  pose proof (INCR_value (rateLimitScript := rateLimitScript) k w) as Hv. pose proof (INCR_clock (rateLimitScript := rateLimitScript) k w) as Hc.
  pose proof (λ k', INCR_peek (rateLimitScript := rateLimitScript) k k' w) as Hp. destruct (cmd_INCR k w) as [v w1]. cbn [fst snd] in Hv, Hc, Hp.
  fold (count k w) in Hv, Hp. subst v. rewrite (proj2 (Z.ltb_ge limit (count k w + 1))) by lia.
  destruct (Z.eqb_spec (count k w + 1) 1); (destruct (Z.eqb_spec (count k w) 0); [try lia|try lia]); (split; [done|split]).
  - by rewrite (EXPIRE_clock (rateLimitScript := rateLimitScript)).
  - rewrite (EXPIRE_peek (rateLimitScript := rateLimitScript)), decide_True, Hp, decide_True, Hc by done. by rewrite (proj2 (Z.eqb_eq (count k w) 0)).
  - intros k' Hk. rewrite (EXPIRE_peek (rateLimitScript := rateLimitScript)), decide_False, Hp, decide_False by done. done.
  - done.
  - rewrite Hp, decide_True by done. by rewrite (proj2 (Z.eqb_neq (count k w) 0)).
  - intros k' Hk. by rewrite Hp, decide_False.
Qed.

Lemma window_secs_pos window : 0 < window_secs window.
Proof. unfold window_secs. destruct (Z.ltb_spec (Z.quot window second) 1); lia. Qed.

(** A call is answered by the script even when the server has forgotten it, and then changes nothing else. *)
Lemma Allow_spec rl key limit window w :
  ∃ rl' w', Allow rateLimitScript rl key limit window w = ((Ok (bool_decide (count (rl_prefix rl +:+ key) w < limit)), rl'), w') ∧
    rl_prefix rl' = rl_prefix rl ∧
    if decide (count (rl_prefix rl +:+ key) w < limit) then ∃ w0, same w w0 ∧ counted (rl_prefix rl +:+ key) (window_secs window) w0 w' else same w w'.
Proof using Hlaws.
  set (k := rl_prefix rl +:+ key). unfold Allow, mbind, M_bind. fold k.
  assert (Hrun : ∀ w0 sha, same w w0 → loaded sha w0 → ∃ r w', rdb_EvalSha sha k limit (window_secs window) w0 = (Ok r, w') ∧
    bool_decide (r = 1) = bool_decide (count k w < limit) ∧
    if decide (count k w < limit) then ∃ w0, same w w0 ∧ counted k (window_secs window) w0 w' else same w w').
  { intros w0 sha Hsame Hl. rewrite (eval_loaded sha k limit (window_secs window) w0 Hl). pose proof (script_spec k limit (window_secs window) w0 (window_secs_pos window)) as Hs.
    assert (count k w0 = count k w) as Hc by (unfold count; by rewrite (proj2 Hsame)). rewrite Hc in Hs.
    destruct (rate_limit_script k limit (window_secs window) w0) as [r w']. exists r, w'. split; [done|].
    destruct (decide (count k w < limit)); destruct Hs as [-> Hs].
    - split; [by rewrite !bool_decide_eq_true_2|]. by exists w0.
    - subst. split; [by rewrite !bool_decide_eq_false_2|done]. }
  destruct (decide (loaded (scriptSHA rl) w)) as [Hl|Hl].
  - destruct (Hrun w _ ltac:(done) Hl) as (r & w' & He & Hb & Hx). rewrite He. cbn. rewrite Hb. by exists rl, w'.
  - destruct (eval_unknown _ k limit (window_secs window) w Hl) as (e & Hno & He). rewrite He, Hno. cbn.
    destruct (load_script (rateLimitScript := rateLimitScript) w) as (sha & w0 & Hload & Hl0 & Hc & Hp). rewrite Hload. cbn.
    destruct (Hrun w0 sha ltac:(done) Hl0) as (r & w' & He' & Hb & Hx). rewrite He'. cbn. rewrite Hb. by exists (mkRateLimiter sha (rl_prefix rl)), w'.
Qed.

(** Time passes: what has reached its deadline goes. *)
Definition later (w w' : W) : Prop :=
  clock w ≤ clock w' ∧
  ∀ k, peek_key k w' = match peek_key k w with Some (v, Some d) => if bool_decide (clock w' < d) then Some (v, Some d) else None | x => x end.

(** What happens at a server: any limiter of the key asks, other keys are asked for, time passes.  The times of the allowed
    requests are listed. *)
Inductive traffic (k : string) (limit window : Z) (w0 : W) : list Z → W → Prop :=
| traffic_start : traffic k limit window w0 [] w0
| traffic_ask T w rl key b rl' w' :
    traffic k limit window w0 T w → rl_prefix rl +:+ key = k → Allow rateLimitScript rl key limit window w = ((Ok b, rl'), w') →
    traffic k limit window w0 (if b then T ++ [clock w] else T) w'
| traffic_other T w rl key limit' window' r rl' w' :
    traffic k limit window w0 T w → rl_prefix rl +:+ key ≠ k → Allow rateLimitScript rl key limit' window' w = ((r, rl'), w') →
    traffic k limit window w0 T w'
| traffic_later T w w' : traffic k limit window w0 T w → later w w' → traffic k limit window w0 T w'.

(** Windows, the latest first: each from its first request on, at most [limit] requests in each, none before the end of the one before. *)
Fixpoint windows (limit len : Z) (cs : list (Z * list Z)) : Prop :=
  match cs with
  | [] => True
  | (s, ts) :: rest =>
      Forall (λ u, s ≤ u < s + len) ts ∧ Z.of_nat (length ts) ≤ limit ∧ match rest with (s', _) :: _ => s' + len ≤ s | [] => True end ∧
      windows limit len rest
  end.

Definition span_of (window : Z) : Z := window_secs window * second.
Lemma span_pos window : 0 < span_of window.
Proof. unfold span_of, second. pose proof (window_secs_pos window). lia. Qed.

Record traffic_ok (k : string) (limit window : Z) (T : list Z) (w : W) (cs : list (Z * list Z)) : Prop := {
  tr_windows : windows limit (span_of window) cs;
  tr_all : T ≡ₚ concat (map snd cs);
  tr_now : match peek_key k w with
           | None => match cs with (s, _) :: _ => s + span_of window ≤ clock w | [] => True end
           | Some (v, d) => ∃ s ts rest, cs = (s, ts) :: rest ∧ d = Some (s + span_of window) ∧ v = Z.of_nat (length ts) ∧ s ≤ clock w ∧ 0 < v
           end
}.

Lemma traffic_ok_same k limit window T w w' cs : clock w' = clock w → peek_key k w' = peek_key k w → traffic_ok k limit window T w cs → traffic_ok k limit window T w' cs.
Proof. intros Hc Hp [? ? Hn]. split; [done..|]. by rewrite Hp, Hc. Qed.

Lemma traffic_inv k limit window w0 T w : peek_key k w0 = None → traffic k limit window w0 T w → ∃ cs, traffic_ok k limit window T w cs.
Proof using Hlaws.
  intros H0. induction 1 as [|T w rl key b rl' w' _ [cs Hok] <- Ha|T w rl key limit' window' r rl' w' _ [cs Hok] Hk Ha|T w w' _ [cs Hok] [Hle Hp]].
  - exists []. split; [done..|]. by rewrite H0.
  - destruct (Allow_spec rl key limit window w) as (rl2 & w2 & He & _ & Hx). rewrite He in Ha. injection Ha as <- <- <-.
    set (k := rl_prefix rl +:+ key) in *. pose proof (span_pos window) as Hpos. case_decide as Hlt.
    + rewrite bool_decide_eq_true_2 by done. destruct Hx as (w1 & [Hc1 Hp1] & [Hc2 Hk _]). destruct Hok as [Hw HT Hn].
      unfold count in Hk, Hlt. rewrite Hp1, Hc1 in Hk. rewrite Hc1 in Hc2. fold (span_of window) in Hk. destruct (peek_key k w) as [[v d]|] eqn:Hpk; cbn in Hk, Hlt.
      * destruct Hn as (s & ts & rest & -> & -> & -> & Hs & Hv). destruct Hw as (Hts & Hlen & Hadj & Hrest).
        pose proof (peek_alive (rateLimitScript := rateLimitScript) k w _ _ Hpk) as Halive.
        exists ((s, ts ++ [clock w]) :: rest). split.
        -- cbn. split_and!; [apply list.Forall_app; split; [done|constructor; [lia|done]]|rewrite length_app; cbn; lia|done..].
        -- cbn. rewrite HT. cbn. rewrite <- !(assoc_L (++)). apply Permutation_app_head, Permutation_app_comm.
        -- rewrite Hk, Hc2. destruct (Z.eqb_spec (Z.of_nat (length ts)) 0); [lia|]. cbn. exists s, (ts ++ [clock w]), rest.
           rewrite length_app. cbn. split_and!; [done|done|lia|done|lia].
      * exists ((clock w, [clock w]) :: cs). split.
        -- cbn. split_and!; [constructor; [lia|done]|lia|done|done].
        -- cbn. rewrite HT. by rewrite (Permutation_app_comm _ [clock w]).
        -- rewrite Hk, Hc2. cbn. exists (clock w), [clock w], cs. split_and!; [done..|lia|lia].
    + rewrite bool_decide_eq_false_2 by done. exists cs. destruct Hx as [Hc Hp']. by apply (traffic_ok_same k limit window T w).
  - exists cs. destruct (Allow_spec rl key limit' window' w) as (rl2 & w2 & He & _ & Hx). rewrite He in Ha. injection Ha as _ _ <-.
    case_decide; [destruct Hx as (w1 & [Hc1 Hp1] & [Hc2 _ Ho])|destruct Hx as [Hc Hp']]; apply (traffic_ok_same k limit window T w); auto; [by rewrite Hc2|].
    by rewrite Ho, Hp1.
  - exists cs. destruct Hok as [Hw HT Hn]. split; [done..|]. rewrite Hp. destruct (peek_key k w) as [[v d]|].
    + destruct Hn as (s & ts & rest & -> & -> & -> & Hs & Hv). case_bool_decide; [|lia]. exists s, ts, rest. split_and!; [done..|lia|done].
    + destruct cs as [|[s ts] cs]; [done|lia].
Qed.

Lemma windows_end limit len cs s ts : 0 < len → windows limit len ((s, ts) :: cs) → Forall (λ u, u < s + len) (concat (map snd ((s, ts) :: cs))).
Proof.
  intros Hlen. revert s ts. induction cs as [|[s' ts'] cs IH]; intros s ts (Hts & _ & Hadj & Hrest); cbn [map concat snd]; apply list.Forall_app; split.
  1, 3: eapply list.Forall_impl; [exact Hts|]; intros u Hu; cbn in Hu; lia.
  - constructor.
  - eapply list.Forall_impl; [by apply IH|]. intros u Hu. cbn in *. lia.
Qed.
Lemma outside_none t len l : Forall (λ u, ¬ t ≤ u < t + len) l → filter (λ u, t ≤ u < t + len) l = [].
Proof. induction 1; [done|]. by rewrite filter_cons_False. Qed.

(** An interval meets two windows at most. *)
Lemma windows_bound limit len cs t : 0 < len → 0 ≤ limit → windows limit len cs →
  Z.of_nat (length (filter (λ u, t ≤ u < t + len) (concat (map snd cs)))) ≤ 2 * limit.
Proof.
  intros Hlen Hl. induction cs as [|[s ts] cs IH]; intros Hw; [cbn; lia|].
  pose proof Hw as (Hts & Hn & Hadj & Hrest). cbn [map concat snd]. rewrite list.filter_app, length_app.
  pose proof (length_filter (λ u, t ≤ u < t + len) ts) as Hf. destruct (decide (s < t + len)) as [Hs|Hs].
  - destruct cs as [|[s' ts'] cs]; [cbn; lia|]. pose proof Hrest as (_ & Hn' & Hadj' & Hrest'). cbn [map concat snd].
    rewrite list.filter_app, length_app. pose proof (length_filter (λ u, t ≤ u < t + len) ts') as Hf'.
    rewrite (outside_none t len (concat (map snd cs))); [cbn; lia|]. destruct cs as [|[s'' ts''] cs]; [constructor|].
    eapply list.Forall_impl; [by apply (windows_end limit)|]. intros u Hu. cbn in *. lia.
  - rewrite (outside_none t len ts); [cbn; by apply IH|]. eapply list.Forall_impl; [exact Hts|]. intros u Hu. cbn in Hu. lia.
Qed.

(** Requests are allowed in windows that begin with an allowed request, at most [limit] in each, however many processes ask and whatever
    scripts the server forgets; so at most twice as many in an interval of that length, since the windows do not slide. *)
Theorem limited_in_windows k limit window w0 T w :
  0 ≤ limit → peek_key k w0 = None → traffic k limit window w0 T w →
  (∃ cs, windows limit (span_of window) cs ∧ T ≡ₚ concat (map snd cs)) ∧
  ∀ t, Z.of_nat (length (filter (λ u, t ≤ u < t + span_of window) T)) ≤ 2 * limit.
Proof using Hlaws.
  intros Hl H0 Ht. destruct (traffic_inv k limit window w0 T w H0 Ht) as (cs & [Hw HT _]). split; [by exists cs|].
  intros t. rewrite HT. by apply windows_bound; [apply span_pos|..].
Qed.

(** ** Waiting *)

Context (pause : M W (option error)).

(** As long as nobody else asks for the key and the context does not end, waiting ends with a permission: there are enough polls until
    the deadline of the key. *)
Theorem Wait_succeeds d rl w fuel :
  (∀ w, (pause w).1 = None ∧ later w (pause w).2 ∧ clock w + pollWait ≤ clock (pause w).2) →
  0 < ad_limit d →
  match peek_key (rl_prefix rl +:+ ad_key d) w with Some (_, None) => False | Some (_, Some t) => t ≤ clock w + pollWait * Z.of_nat fuel | None => True end →
  ∃ rl' w', Wait rateLimitScript pause (S fuel) d rl w = (Some (Ok tt, rl'), w').
Proof using Hlaws.
  intros Hpause Hlimit. revert rl w. induction fuel as [|fuel IH]; intros rl w Hk; cbn [Wait]; unfold mbind, M_bind;
    destruct (Allow_spec rl (ad_key d) (ad_limit d) (ad_window d) w) as (rl1 & w1 & -> & Hpre & Hx);
    set (k := rl_prefix rl +:+ ad_key d) in *; (destruct (decide (count k w < ad_limit d)) as [Hlt|Hlt];
      [rewrite bool_decide_eq_true_2 by done; by exists rl1, w1|rewrite bool_decide_eq_false_2 by done]).
  - exfalso. unfold count in Hlt. destruct (peek_key k w) as [[v [t|]]|] eqn:Hp; [|done|done].
    pose proof (peek_alive (rateLimitScript := rateLimitScript) k w _ _ Hp). lia.
  - destruct Hx as [Hc Hp]. destruct (Hpause w1) as (Hn & [Hle Hl] & Hpoll). destruct (pause w1) as [o w2]. cbn in Hn, Hle, Hl, Hpoll. subst o. cbn.
    apply IH. rewrite Hpre. fold k. rewrite Hl, Hp. destruct (peek_key k w) as [[v [t|]]|]; [|done|done]. case_bool_decide; [|done].
    rewrite Hc in Hpoll. lia.
Qed.
End limits.

(** ** Keys of the caches *)

Lemma cut_at (c : ascii) a a' x x' : c ∉ a → c ∉ a' → a ++ c :: x = a' ++ c :: x' → a = a' ∧ x = x'.
Proof.
  revert a'. induction a as [|y a IH]; intros [|y' a'] Ha Ha'; cbn; intros He.
  - by injection He.
  - injection He as -> _. exfalso. apply Ha'. by left.
  - injection He as -> _. exfalso. apply Ha. by left.
  - injection He as -> He. rewrite not_elem_of_cons in Ha, Ha'. destruct (IH a') as [-> ->]; [tauto|tauto|done|done].
Qed.

(** The caches of two tenants, and the two caches of one, have no key in common, as long as tenants are named without colons. *)
Theorem tenant_caches_apart t t' ttl ttl' id id' :
  ":"%char ∉ bytes_of t → ":"%char ∉ bytes_of t' →
  (t ≠ t' → c_prefix (NewTenantConfigCache t ttl) +:+ id ≠ c_prefix (NewTenantConfigCache t' ttl') +:+ id' ∧
            c_prefix (NewTenantSchemaCache t ttl) +:+ id ≠ c_prefix (NewTenantSchemaCache t' ttl') +:+ id') ∧
  c_prefix (NewTenantConfigCache t ttl) +:+ id ≠ c_prefix (NewTenantSchemaCache t' ttl') +:+ id'.
Proof.
  intros Ht Ht'. cbn [c_prefix NewTenantConfigCache NewTenantSchemaCache]. unfold TenantConfigCachePrefix, TenantSchemaCachePrefix.
  assert (Hcut : ∀ k k' x x', ("flowforge:" +:+ t +:+ String ":" k) +:+ x = ("flowforge:" +:+ t' +:+ String ":" k') +:+ x' →
    t = t' ∧ bytes_of (k +:+ x) = bytes_of (k' +:+ x')).
  { intros k k' x x' He. apply (f_equal bytes_of) in He. rewrite !bytes_of_app, <- !(assoc_L (++)) in He. apply app_inv_head in He.
    cbn in He. apply cut_at in He as [Hb He]; [|done..].
    apply bytes_inj in Hb. by rewrite !bytes_of_app. }
  split; [intros Hne; split; intros He; by apply Hcut in He as [? _]|]. intros He. by apply Hcut in He as [_ He].
Qed.

(** ** Examples *)

(** A server with a clock; its scripts may be forgotten. *)
Record server := mkServer { sv_keys : gmap string (Z * option Z); sv_now : Z; sv_scripts : bool; sv_texts : gmap string string }.
Definition alive (now : Z) (x : Z * option Z) : bool := match x.2 with Some d => now <? d | None => true end.
Definition sv_peek (k : string) (w : server) : option (Z * option Z) := x ← sv_keys w !! k; if alive (sv_now w) x then Some x else None.
Definition sv_put (k : string) (x : Z * option Z) (w : server) : server := mkServer (<[k := x]> (sv_keys w)) (sv_now w) (sv_scripts w) (sv_texts w).
Definition sv_incr (k : string) (w : server) : Z * server :=
  let v := default 0 (fst <$> sv_peek k w) + 1 in (v, sv_put k (v, sv_peek k w ≫= snd) w).
Definition sv_expire (k : string) (n : Z) (w : server) : server :=
  match sv_peek k w with Some (v, _) => if 0 <? n then sv_put k (v, Some (sv_now w + n * second)) w else w | None => w end.

#[export] Instance sv_commands : RedisCommands server :=
  {| cmd_GET k w := fst <$> sv_peek k w; cmd_INCR := sv_incr; cmd_EXPIRE := sv_expire |}.
#[export] Instance sv_server : RedisServer server := {
  rdb_Get k w := (match sv_texts w !! k with Some s => Ok s | None => Err redis_nil end, w);
  rdb_Set k v _ w := (Ok tt, mkServer (sv_keys w) (sv_now w) (sv_scripts w) (<[k := v]> (sv_texts w)));
  rdb_Del ks w := (Ok tt, mkServer (foldr delete (sv_keys w) ks) (sv_now w) (sv_scripts w) (foldr delete (sv_texts w) ks));
  rdb_Exists k w := (Ok (if sv_texts w !! k then 1 else 0), w);
  rdb_Expire _ _ w := (Ok tt, w);
  rdb_Scan _ pattern w :=
    (Ok (filter (λ k, HasPrefix k (TrimSuffix pattern "*") = true) (map_to_list (sv_texts w)).*1, 0), w);
  rdb_EvalSha sha k limit window w :=
    if sv_scripts w && bool_decide (sha = "sha") then let '(r, w) := rate_limit_script k limit window w in (Ok r, w)
    else (Err (ErrText "NOSCRIPT No matching script. Please use EVAL."), w);
  rdb_ScriptLoad _ w := (Ok "sha", mkServer (sv_keys w) (sv_now w) true (sv_texts w))
}.

Lemma sv_peek_put k k' x w : sv_peek k' (sv_put k x w) = if decide (k' = k) then (if alive (sv_now w) x then Some x else None) else sv_peek k' w.
Proof. unfold sv_peek, sv_put. cbn. case_decide; [subst; by rewrite lookup_insert_eq|by rewrite lookup_insert_ne]. Qed.
Lemma sv_peek_alive k w x : sv_peek k w = Some x → alive (sv_now w) x = true.
Proof. unfold sv_peek. intros (y & Hy & Hx)%bind_Some. destruct (alive (sv_now w) y) eqn:Ha; [|done]. by injection Hx as <-. Qed.

#[export] Instance sv_laws script : RedisLaws server script.
Proof.
  refine {| clock := sv_now; peek_key := sv_peek; loaded := λ sha w, sv_scripts w && bool_decide (sha = "sha") = true |}; cbn.
  - intros. apply _.
  - done.
  - done.
  - intros k k' w. unfold sv_incr. cbn [snd]. rewrite sv_peek_put. case_decide; [|done]. destruct (sv_peek k w) as [[v [d|]]|] eqn:Hp; cbn; [|done|done].
    apply sv_peek_alive in Hp. unfold alive in *. cbn in *. by rewrite Hp.
  - done.
  - intros k k' n w Hn. unfold sv_expire. destruct (sv_peek k w) as [[v d]|] eqn:Hp; [|case_decide; subst; by rewrite ?Hp].
    rewrite (proj2 (Z.ltb_lt 0 n)) by done. rewrite sv_peek_put. case_decide; [|done]. unfold alive, second. cbn.
    by rewrite (proj2 (Z.ltb_lt _ _)) by lia.
  - intros k n w. unfold sv_expire. destruct (sv_peek k w) as [[v d]|]; [|done]. by destruct (0 <? n).
  - intros k w v d Hp. apply sv_peek_alive in Hp. unfold alive in Hp. cbn in Hp. lia.
  - intros sha k limit window w Hl. by rewrite Hl.
  - intros sha k limit window w Hl. eexists. split; [|by rewrite (not_true_is_false _ Hl)]. reflexivity.
  - intros w. eexists _, _. split_and!; [done|by cbn|done|done].
Defined.

Definition fresh_server : server := mkServer ∅ 0 false ∅.
Definition sv_pause (w : server) : option error * server := (None, mkServer (sv_keys w) (sv_now w + pollWait) (sv_scripts w) (sv_texts w)).
Definition two_a_second : DistributedAdapter := mkAdapter (BuildKey "crm" "acme") 2 second.
Definition limiter_of (sha : string) : RateLimiter := mkRateLimiter sha "flowforge:ratelimit:".

Lemma sv_pause_later w : (sv_pause w).1 = None ∧ later "" w (sv_pause w).2 ∧ sv_now w + pollWait ≤ sv_now (sv_pause w).2.
Proof.
  split; [done|]. cbn. split; [|lia]. split; [cbn; unfold pollWait, millisecond; lia|]. intros k. cbn. unfold sv_peek. cbn.
  destruct (sv_keys w !! k) as [[v [d|]]|]; cbn; [|done|done]. unfold alive. cbn [snd].
  destruct (Z.ltb_spec (sv_now w) d); destruct (Z.ltb_spec (sv_now w + pollWait) d); cbn; rewrite ?bool_decide_eq_true_2, ?bool_decide_eq_false_2 by lia; try done.
  unfold pollWait, millisecond in *. lia.
Qed.

(** Two requests are allowed, the third waits for ten polls. *)
Definition allow_one : server := Eval vm_compute in (Allow "" (limiter_of "old") "acme:crm" 2 second fresh_server).2.
Definition allow_two : server := Eval vm_compute in (Allow "" (limiter_of "sha") "acme:crm" 2 second allow_one).2.
Lemma allow_one_eq : Allow "" (limiter_of "old") "acme:crm" 2 second fresh_server = ((Ok true, limiter_of "sha"), allow_one).
Proof. vm_compute. reflexivity. Qed.
Lemma allow_two_eq : Allow "" (limiter_of "sha") "acme:crm" 2 second allow_one = ((Ok true, limiter_of "sha"), allow_two).
Proof. vm_compute. reflexivity. Qed.
Lemma Wait_succeeds_witness :
  ∃ rl' w', Wait "" sv_pause 11 two_a_second (limiter_of "sha") allow_two = (Some (Ok tt, rl'), w').
Proof.
  refine (Wait_succeeds "" sv_pause two_a_second (limiter_of "sha") allow_two 10 sv_pause_later _ _); [reflexivity|].
  vm_compute. discriminate.
Defined.

Lemma limited_in_windows_witness :
  ∀ t, Z.of_nat (length (filter (λ u, t ≤ u < t + span_of second) [0; 0])) ≤ 2 * 2.
Proof.
  refine (proj2 (limited_in_windows "" "flowforge:ratelimit:acme:crm" 2 second fresh_server [0; 0] _ _ _ _)); [discriminate|reflexivity|].
  exact (traffic_ask "" _ _ _ _ [0] allow_one (limiter_of "sha") "acme:crm" true (limiter_of "sha") allow_two
           (traffic_ask "" _ _ _ _ [] fresh_server (limiter_of "old") "acme:crm" true (limiter_of "sha") allow_one
              (traffic_start "" _ _ _ _) eq_refl allow_one_eq) eq_refl allow_two_eq).
Defined.

(** The windows do not slide: three requests within a tenth of a second, with a limit of two a second. *)
Definition at_time (t : Z) (w : server) : server := mkServer (sv_keys w) t (sv_scripts w) (sv_texts w).
Example three_at_the_border :
  let ask w := Allow "" (limiter_of "sha") "acme:crm" 2 second w in
  let '((a, _), w) := ask fresh_server in
  let '((b, _), w) := ask (at_time (9 * pollWait) w) in
  let '((c, _), w) := ask (at_time (10 * pollWait) w) in
  let '((d, _), w) := ask w in
  let '((e, _), _) := ask w in (a, b, c, d, e) = (Ok true, Ok true, Ok true, Ok true, Ok false).
Proof. vm_compute. reflexivity. Qed.

Lemma tenant_caches_apart_witness :
  c_prefix (NewTenantConfigCache "acme" 0) +:+ "c1" ≠ c_prefix (NewTenantSchemaCache "acme" 0) +:+ "c1".
Proof. refine (proj2 (tenant_caches_apart "acme" "acme" 0 0 "c1" "c1" _ _)); apply (bool_decide_unpack _); vm_compute; exact I. Defined.

(** A tenant named with a colon reads what another one stored, and one that is named [config] what the shared cache holds. *)
Example colon_in_tenant :
  c_prefix (NewTenantConfigCache "a:config:b" 0) +:+ "c" = c_prefix (NewTenantConfigCache "a" 0) +:+ "b:config:c".
Proof. reflexivity. Qed.
Example tenant_named_config : c_prefix (NewTenantConfigCache "config" 0) +:+ "c" = c_prefix (NewConfigCache 0) +:+ "config:c".
Proof. reflexivity. Qed.

(** Invalidating all of one tenant leaves the others. *)
Example invalidate_all_of_one :
  let w := mkServer ∅ 0 false {["flowforge:acme:config:c1" := "x"; "flowforge:other:config:c1" := "y"]} in
  InvalidateAll 1 (NewTenantConfigCache "acme" 0) w = (Some (Ok tt), mkServer ∅ 0 false {["flowforge:other:config:c1" := "y"]}).
Proof. vm_compute. reflexivity. Qed.
